(* ===== verification/_CoqProject ===== *)
-Q . S2P
Prelude.v
JsText.v
Leb128.v
PublicationTrailer.v
WasmSections.v
WasmCodeScan.v
ArtifactGuards.v
JsMap.v
JsNumber.v
FlowRuntime.v
MethodRegistry.v
TypeRefs.v
FlowNormalize.v
MethodInvoke.v
AccessGates.v
RegionStore.v
RuntimeHost.v
StreamIngest.v
StreamPump.v
HostcallWire.v
SabChannel.v
Signatures.v
IoContract.v
MemoryBackend.v
Cron.v
TimerDriver.v
ThreadPool.v
ThreadPoolSafety.v
IoChannel.v
IoServer.v
IoServerMemory.v
IoServerSafety.v
IoServerTransfer.v
Mirror.v
MirrorSeqlock.v
IoRing.v
IoRingSafety.v
IoClient.v
IoImports.v
NodeFs.v
NodeToy.v
NodePaths.v
NodeHandles.v
NodeTransfer.v
NodeRevoke.v
ObjectSymbols.v
ObjectRename.v
ProviderAbi.v
ProviderAccess.v
JsJson.v
Canonical.v
InvokeTypes.v
InvokeLease.v
InvokeCodec.v
InvokeLayout.v
InvokeRoundtrip.v
BundleHash.v
BundleVerify.v
BundleCodec.v
BundleSign.v
HostcallBridge.v
HostDispatch.v
DeployPlan.v
DeployCheck.v
