(* ===== verification/Prelude.v ===== *)
(** Verification of the core of the space data module SDK.

    The SDK builds, signs, loads and runs WebAssembly modules. A compiled artifact is checked
    by guards before it ships; it is bundled by appending custom sections and a publication
    trailer, identified by a hash of canonical bytes, and signed over a domain-separated
    statement. At run time a host keeps registries of modules, methods, capabilities and memory
    regions, feeds modules with streams of size-prefixed FlatBuffers, routes frames through
    flow programs, answers hostcalls across threads, runs the threads of a module on a pool of
    workers, serves files to its guests through shared memory, and fires timers.
    Sources are under src/src/ of the repository; the paths below are relative to it.

    The files, and what they model:

    - Prelude.v: thrown errors and results, JavaScript numbers with binary64 rounding and 32-bit
      operators, typed arrays (index, subarray, little-endian access), the arithmetic tactics.
    - JsText.v: strings as UTF-16 code units, trimming, splitting, UTF-8 encoding and decoding.
      JsMap.v: numbers as [Number] gives them, and insertion-ordered maps. JsNumber.v:
      [Number(text)].
    - Leb128.v: unsigned LEB128 (bundle/wasm.js, compiler/wasmCodeScan.js,
      compiler/wasmObjectSymbols.js).
    - PublicationTrailer.v: the trailer behind a signed artifact (transport/records.js,
      bundle/artifactBytes.js). Its record codec is the class [RecCodec].
    - WasmSections.v: sections of a module, custom sections, canonical bytes (bundle/wasm.js).
    - WasmCodeScan.v: the instruction scanner (compiler/wasmCodeScan.js), proved equal to a
      grammar of function bodies given as inductive relations.
    - ArtifactGuards.v: target features, SIMD, pthreads and sequential guards
      (compiler/wasmTargetFeatures.js, simdArtifactGuard.js, pthreadArtifactGuard.js).
    - ObjectSymbols.v: listing and renaming the symbols of relocatable objects
      (compiler/wasmObjectSymbols.js). ObjectRename.v: the syntax of objects, and renaming on it.
    - FlowRuntime.v: queues, backpressure and drain of the flow runtime (flow/jsFlowRuntime.js)
      over the interface [FlowRegistry]. MethodRegistry.v: the registry of plugins and methods
      (flow/vendor/sdn-flow/MethodRegistry.js). TypeRefs.v: payload type references and their
      matching (manifest/typeRefs.js). FlowNormalize.v: the normal forms of manifests, programs and
      frames (flow/vendor/sdn-flow/normalize.js). MethodInvoke.v: the invocation of a method
      (MethodRegistry.js again), which joins the three.
    - AccessGates.v: the runtime target gate (host/runtimeTargetGate.js, capabilities.js), with the
      manifest decoder as the class [PlgDecoder], and deployment authorizations
      (auth/permissions.js).
    - RegionStore.v: memory regions (runtime-host/runtimeRegionStore.js). RuntimeHost.v:
      capability and module registries (runtime-host/index.js, moduleRegistry.js).
    - StreamIngest.v: the stream ingestor (runtime-host/flatbufferStreamIngestor.js) over the
      interface [Sink]. StreamPump.v: the module stream pump
      (host/moduleFlatbufferStreamPump.js) over the interface [Invoker].
    - HostcallWire.v: values and envelopes of hostcalls (host/hostcallWire.js). SabChannel.v:
      the shared-memory hostcall channel (host/sabHostcallChannel.js) as step relations of two
      threads, over the interface [Envelope]. HostcallBridge.v: the bridge between the memory of a guest
      and its host (host/abi.js), and the envelopes as an instance of [Envelope]. HostDispatch.v: the
      dispatchers of hosts (host/abi.js) and the operations of adapters with their capabilities
      (host/adapterOperations.js, host/nodeHost.js).
    - Signatures.v: DER and raw ECDSA signatures, hexadecimal, signature domains
      (utils/ecdsaDer.js, utils/encoding.js, bundle/sigdomain.js).
    - ThreadPool.v, ThreadPoolSafety.v: the pool of thread workers (host/wasiThreadPool.js), each
      agent one atomic access to a step, and its safety in all interleavings.
    - The FlatSQL I/O stack, from the files up. IoContract.v: flags, statuses and paths
      (host/flatsqlIoContract.js). MemoryBackend.v: files in memory
      (host/flatsqlIoMemoryBackend.js). IoServer.v: the server of a worker
      (host/flatsqlIoServer.js) over the interfaces [IoBackend] and [IoMirror]; IoServerMemory.v is
      its instance over the memory backend, IoServerSafety.v its invariants in every run, and
      IoServerTransfer.v chunked reads and writes against [FileContract]. IoChannel.v: the layout of
      the shared channel; IoRing.v, IoRingSafety.v: its slots, clients and worker step by step
      (host/sabIoChannel.js). Mirror.v, MirrorSeqlock.v: the small-file mirror, one operation after
      the other and store by store (host/sabIoMirror.js). IoClient.v: the methods of the clients
      over the interface [Transport], for which the server is an instance of [FileTransport].
      IoImports.v: the imports of the guest over the interface [IoProviders], of which the client
      is an instance (host/flatsqlIoImports.js).
    - The provider of files on Node (host/nodeSyncFsIo.js). NodeFs.v: the table of handles in shared
      memory, the descriptors a thread caches, and the operations over the class [Syscalls];
      NodePaths.v, NodeHandles.v, NodeTransfer.v: its paths, descriptors and transfers, each against
      the laws of system calls it needs; NodeToy.v: a small file system that has them. In these
      files an operation is one step. NodeRevoke.v: calls against revocations, one atomic access
      to a step.
    - ProviderAbi.v: codes and tile descriptors (host/providerAccessAbi.js). ProviderAccess.v: the port
      of imagery and terrain providers and the bridge of the guest (host/providerAccess.js), over
      adapters that answer at once.
    - JsJson.v: [JSON.stringify] and its injectivity. Canonical.v: the canonical bytes that are signed and
      hashed (auth/canonicalize.js); the order of keys by [localeCompare] is a parameter.
    - The codec of invocations (invoke/codec.js). InvokeTypes.v: the values a caller may write, and the
      normal forms of types, alignments and frame ids. InvokeLease.v: leases of arenas, transfer tokens and
      the forwarding of frames, as operations on one state. InvokeCodec.v: packing frames into an arena,
      decoding them, requests and responses over the class [PivCodec] of generated envelope classes.
      InvokeLayout.v: where packed frames lie. InvokeRoundtrip.v: the round trips, against the laws
      [PivLaws] of these classes, and the confinement of decoded frames.
    - The signatures of artifacts (bundle/signing.js, bundle/codec.js, bundle/wasm.js). BundleHash.v: the statement about a
      bundle and its digest. BundleVerify.v: verification before a load, and the policy that asks for it. BundleCodec.v:
      bundles into the tables of the generated classes and out of them ([BundleTables]), and the writing of an
      artifact. BundleSign.v: signing. Cryptography is the class [Crypto] with [CryptoLaws], [JSON.parse] the class
      [JsonParser].
    - Deployment plans (deployment/index.js). DeployPlan.v: the normal form of a plan, the plan in a bundle. DeployCheck.v: its
      validation against a manifest, and the specification of the plans that are accepted.
    - Cron.v: cron expressions (host/cron.js). TimerDriver.v: module timers
      (host/timerDriver.js).

    What the theorems show:

    - Artifacts: the scanner counts exactly the instructions of well-formed code; each guard
      accepts exactly the modules of its contract and no module passes both thread guards;
      canonical bytes do not depend on appended sds sections; sections, trailers and LEB128
      values are read back as written; extraction never returns bytes from elsewhere; renaming the
      symbols of an object changes their names and nothing else.
    - Streams: cutting a stream into chunks is not visible to the ingestor or the pump; every
      frame arrives once and in order.
    - Hostcalls: values and envelopes make the round trip; without timeouts, in every
      interleaving, a call gets the answer to its own request; what a guest reads is what the operation
      answered, bad ranges reach no operation, and an operation of an adapter needs its capability granted.
    - Storage: file operations implement operations on byte strings; the budget is exact;
      accepted paths stay inside the root; region stores stay well formed.
    - I/O through shared memory: the server forgets no request, counts its handles exactly and
      shuts revoked instances out; chunks in the server and pieces in the client are single reads
      and writes of the file; in every interleaving a request is read as written and a call gets
      its own reply; mirror readers never see a torn record, and what the mirror answers is what the file it tracks
      contains; a guest's handle leads to the provider that opened it.
    - Files on Node, one operation at a time: paths stay below the root, a handle means its file on every thread, short reads
      and writes of the system are not visible, and a revocation returns and waits for the calls in
      flight.
    - Providers: a handle means what was pinned under it until it is released and never again; reads
      copy the plane the same way on both transports; the cost ceiling of a request holds.
    - Invocations: packed frames lie apart, aligned and inside their arena; requests and responses are
      decoded as they were encoded, under the id a frame travels by; a decoded frame never reaches outside its arena, whatever its
      descriptor says; a frame whose lease has moved on or is closed stays out, and mutable frames enter
      a request only by a transfer token, which is used once.
    - Threads: in every interleaving, until the counter of thread ids wraps, a spawned thread starts once with its own id and argument, no
      two threads share a slot, and no wake-up is lost.
    - Access: a method's handler runs exactly on the inputs its ports declare; an artifact passes
      the target gate, a deployment plan its validation, and a deployment its authorization, exactly under
      the stated conditions; normalising a plan again changes nothing;
      normalised manifests are well typed.
    - Flow: queues keep what their policy says; selection is first in, first out for one-port
      methods; a drain is a run of invocations within its limit, each of which routes its outputs along the edges,
      and ends with nothing waiting. Type matching is a preorder.
    - Time: a cron expression means what its fields denote and the next occurrence is the
      least one; runs of a timer never overlap.
    - Signed artifacts: verified means that a trusted key signed one of three messages about these very bytes; the digest of a
      bundle binds its content as long as SHA-256 does not collide on it; trust is asked last; and what is signed is verified.
    - Signatures: DER round trip, and statements that cannot be confused across domains; the canonical
      bytes of plain values identify their content, whatever the order of properties.
    - Theorems that are not about correctness but about a defect say so in their comment; each
      exhibits a concrete input (for example [FlowRuntime.drain_loses_frames]).

    Bounds and fuel. Loops of the source that are not structural run on fuel that is computed
    from their input: the byte count for decoders (every round consumes at least one byte), the
    logarithm of the size for buffer growth, the distance of the bounds for cron ranges, and the
    source's own iteration limits for drain and for the next occurrence, the length of the view for
    transfers through a slot, and one turn for each chunk for requests of the server. The theorems are about
    the functions with that fuel, so running out of it is excluded by the theorems, not assumed
    away. A module is below 2^53 bytes, so that offsets are exact numbers.

    Not modelled: generated FlatBuffer classes and the codecs on top of them, cryptography,
    external toolchains and generated C++ source, file, network and browser adapters, worker
    start-up, and the text of error messages beyond their fixed part. The interleavings are those of
    sequentially consistent accesses, which is what Atomics give; plain accesses to shared memory
    are taken to be ordered like them. The system calls of the Node provider, a drain of a flow and the adapters of providers are taken one
    at a time. Left for an extension: the server together with its mirror in
    one state, compliance checks, and the translation of manifests. *)
From Stdlib Require Import ZArith Znumtheory Lia.
From stdpp Require Import base list gmap strings numbers.
Open Scope Z_scope.

Create HintDb js.
Create Rewrite HintDb js_len.

(** ** Thrown errors and results *)

(** The error classes the source throws, with the fixed part of the message. *)
Inductive js_error : Type :=
| Error (msg : string)
| TypeError (msg : string)
| RangeError (msg : string).

(** A call returns a value or throws. *)
Inductive result (A : Type) : Type :=
| Ok (a : A)
| Throw (e : js_error).
Arguments Ok {A} a.
Arguments Throw {A} e.

Definition rbind {A B : Type} (r : result A) (k : A -> result B) : result B :=
  match r with
  | Ok a => k a
  | Throw e => Throw e
  end.

Declare Scope js_scope.
Delimit Scope js_scope with js.
Notation "'let!' x ':=' c 'in' k" := (rbind c (fun x => k))
  (at level 10, x pattern, c at level 100, k at level 200) : js_scope.
Notation "'throw_if' b 'with' e ';' k" := (if b then Throw e else k)
  (at level 10, b at level 100, e at level 100, k at level 200) : js_scope.
Open Scope js_scope.

Definition is_ok {A : Type} (r : result A) : bool :=
  match r with Ok _ => true | Throw _ => false end.

Lemma rbind_Ok {A B : Type} (r : result A) (k : A -> result B) (b : B) :
  rbind r k = Ok b <-> exists a, r = Ok a /\ k a = Ok b.
Proof.
  destruct r as [a|e]; simpl; split.
  - intros Hk. exists a. by split.
  - intros (a' & Ha & Hk). by injection Ha as ->.
  - discriminate.
  - intros (a' & Ha & _). discriminate.
Qed.

(** Case analysis on the first match, [if] or bind of a hypothesis or goal. *)
Ltac js_inv H :=
  repeat
    lazymatch type of H with
    | rbind ?r _ = Ok _ =>
        let E := fresh "E" in
        let x := fresh "x" in
        destruct r as [x|] eqn:E; cbn [rbind] in H; [|discriminate H]
    | (if ?b then Throw _ else _) = Ok _ =>
        let E := fresh "E" in
        destruct b eqn:E; [discriminate H|]
    | (if ?b then _ else Throw _) = Ok _ =>
        let E := fresh "E" in
        destruct b eqn:E; [|discriminate H]
    | Ok _ = Ok _ => injection H; clear H; intros; subst
    end.

(** ** Numbers

    A JavaScript number is a binary64. The code modelled here only computes with
    integers, so a number is the [Z] it stands for and an operation whose exact result
    may leave the 53-bit range rounds it ([to_double], round half to even). *)

Definition MAX_SAFE_INTEGER : Z := 2 ^ 53 - 1.

Definition is_safe_integer (z : Z) : bool :=
  (- MAX_SAFE_INTEGER <=? z) && (z <=? MAX_SAFE_INTEGER).

(** The binary64 nearest to a non-negative integer, ties to the even significand. *)
Definition to_double (z : Z) : Z :=
  let e := Z.log2 z - 52 in
  if e <=? 0 then z
  else
    let q := z / 2 ^ e in
    let r := z mod 2 ^ e in
    let half := 2 ^ (e - 1) in
    let up := (half <? r) || ((r =? half) && Z.odd q) in
    (if up then q + 1 else q) * 2 ^ e.

Definition num_add (a b : Z) : Z := to_double (a + b).

(** ToInt32 and ToUint32, and the bitwise operators built on them. *)
Definition to_uint32 (z : Z) : Z := z mod 2 ^ 32.
Definition to_int32 (z : Z) : Z :=
  let m := z mod 2 ^ 32 in if m <? 2 ^ 31 then m else m - 2 ^ 32.
Definition js_and (a b : Z) : Z := Z.land (to_int32 a) (to_int32 b).
Definition js_or (a b : Z) : Z := Z.lor (to_int32 a) (to_int32 b).
Definition js_xor (a b : Z) : Z := Z.lxor (to_int32 a) (to_int32 b).
Definition js_shl (a n : Z) : Z := to_int32 (Z.shiftl (to_int32 a) n).
Definition js_ushr0 (a : Z) : Z := to_uint32 a.

Lemma to_double_small z : 0 <= z <= 2 ^ 53 -> to_double z = z.
Proof.
  intros Hz. unfold to_double.
  destruct (Z.eq_dec z (2 ^ 53)) as [->|Hne]; [reflexivity|].
  destruct (Z.leb_spec (Z.log2 z - 52) 0) as [|Hl]; [done|].
  assert (Z.log2 z < 53); [|lia].
  destruct (Z.eq_dec z 0) as [->|]; [reflexivity|]. apply Z.log2_lt_pow2; lia.
Qed.

(** Rounding never crosses 2^53 downwards: a rounded value below it is exact. *)
Lemma to_double_exact z : 0 <= z -> to_double z < 2 ^ 53 -> to_double z = z.
Proof.
  intros Hz Hlt. destruct (Z_le_gt_dec z (2 ^ 53)) as [|Hgt];
    [apply to_double_small; lia|]. exfalso.
  unfold to_double in Hlt.
  set (e := Z.log2 z - 52) in *.
  assert (53 <= Z.log2 z) by (apply Z.log2_le_pow2; lia).
  destruct (Z.leb_spec e 0) as [|_]; [lia|].
  assert (2 ^ 52 <= z / 2 ^ e).
  { apply Z.div_le_lower_bound; [apply Z.pow_pos_nonneg; lia|].
    rewrite <- Z.pow_add_r by lia.
    replace (e + 52) with (Z.log2 z) by lia. apply Z.log2_spec. lia. }
  assert (2 ^ 1 <= 2 ^ e) by (apply Z.pow_le_mono_r; lia).
  assert (Hm : 2 ^ 52 * 2 ^ 1 <= z / 2 ^ e * 2 ^ e) by (apply Z.mul_le_mono_nonneg; lia).
  destruct (_ || _); nia.
Qed.

Lemma to_double_le z : z <= 2 ^ 53 -> to_double z = z.
Proof.
  intros Hz. destruct (Z_lt_ge_dec z 0); [|apply to_double_small; lia].
  unfold to_double. rewrite Z.log2_nonpos by lia. done.
Qed.

Lemma to_double_ge z : 2 ^ 53 <= z -> 2 ^ 53 <= to_double z.
Proof.
  intros Hz. destruct (Z_lt_ge_dec (to_double z) (2 ^ 53)) as [Hl|]; [|lia].
  rewrite to_double_exact in Hl by lia. lia.
Qed.

Lemma num_add_small a b : 0 <= a + b <= 2 ^ 53 -> num_add a b = a + b.
Proof. apply to_double_small. Qed.

Lemma num_add_exact a b : 0 <= a + b -> num_add a b < 2 ^ 53 -> num_add a b = a + b.
Proof. apply to_double_exact. Qed.

Lemma to_int32_small z : 0 <= z < 2 ^ 31 -> to_int32 z = z.
Proof.
  intros Hz. unfold to_int32. rewrite Z.mod_small by lia.
  destruct (Z.ltb_spec z (2 ^ 31)); lia.
Qed.

Lemma to_int32_mod z k : 0 <= k <= 31 -> to_int32 z mod 2 ^ k = z mod 2 ^ k.
Proof.
  intros Hk. unfold to_int32.
  assert (Hd : (2 ^ k | 2 ^ 32)).
  { exists (2 ^ (32 - k)). rewrite <- Z.pow_add_r by lia. f_equal; lia. }
  assert (Hpos : 0 < 2 ^ k) by (apply Z.pow_pos_nonneg; lia).
  rewrite <- (Z.mod_mod_divide z (2 ^ 32) (2 ^ k)) by done.
  generalize (z mod 2 ^ 32). intros m.
  destruct (_ <? _); [done|]. destruct Hd as [q Hq].
  rewrite <- (Z_mod_plus_full (m - 2 ^ 32) q (2 ^ k)). f_equal. lia.
Qed.

Lemma js_and_ones z k : 0 <= k <= 31 -> js_and z (2 ^ k - 1) = z mod 2 ^ k.
Proof.
  intros Hk. unfold js_and.
  assert (2 ^ k <= 2 ^ 31) by (apply Z.pow_le_mono_r; lia).
  assert (0 < 2 ^ k) by (apply Z.pow_pos_nonneg; lia).
  rewrite (to_int32_small (2 ^ k - 1)) by lia.
  replace (2 ^ k - 1) with (Z.ones k) by (rewrite Z.ones_equiv; lia).
  rewrite Z.land_ones by lia. by apply to_int32_mod.
Qed.

(** ** Bytes

    A [Uint8Array] is the list of its bytes. Reading outside it gives [undefined],
    modelled as [None]; in an arithmetic operand [undefined] becomes 0. *)

Definition is_byte (z : Z) : Prop := 0 <= z < 256.
Abbreviation bytes_ok := (Forall is_byte).

Definition blen {A : Type} (b : list A) : Z := Z.of_nat (length b).

Definition at_ {A : Type} (b : list A) (i : Z) : option A :=
  if 0 <=? i then b !! Z.to_nat i else None.

Definition num_or_0 (o : option Z) : Z := match o with Some z => z | None => 0 end.

(** The index a typed-array method makes of an argument: relative to the end when
    negative, clamped to the length. *)
Definition rel_index (len i : Z) : Z :=
  if i <? 0 then Z.max (len + i) 0 else Z.min i len.

Definition subarray {A : Type} (b : list A) (s e : Z) : list A :=
  let s' := rel_index (blen b) s in
  let e' := rel_index (blen b) e in
  take (Z.to_nat (e' - s')) (drop (Z.to_nat s') b).

Definition subarray_from {A : Type} (b : list A) (s : Z) : list A :=
  drop (Z.to_nat (rel_index (blen b) s)) b.

(** [view.getUint32(off, true)] and the bytes [setUint32(_, v, true)] writes. *)
Definition le_u32 (b0 b1 b2 b3 : Z) : Z := b0 + 256 * b1 + 65536 * b2 + 16777216 * b3.
Definition u32_bytes (v : Z) : list Z :=
  [v mod 256; v / 256 mod 256; v / 65536 mod 256; v / 16777216 mod 256].
Definition getUint32 (b : list Z) (off : Z) : result Z :=
  match at_ b off, at_ b (off + 1), at_ b (off + 2), at_ b (off + 3) with
  | Some b0, Some b1, Some b2, Some b3 => Ok (le_u32 b0 b1 b2 b3)
  | _, _, _, _ => Throw (RangeError "Offset is outside the bounds of the DataView")
  end.

Section bytes.
Context {A : Type}.
Implicit Types a b c : list A.

Lemma blen_nonneg a : 0 <= blen a.
Proof. unfold blen. lia. Qed.
Lemma blen_app a b : blen (a ++ b) = blen a + blen b.
Proof. unfold blen. rewrite length_app. lia. Qed.
Lemma blen_cons x a : blen (x :: a) = 1 + blen a.
Proof. unfold blen. simpl. lia. Qed.
Lemma blen_nil : blen (@nil A) = 0.
Proof. reflexivity. Qed.
Lemma blen_0 a : blen a = 0 -> a = [].
Proof. destruct a as [|x a]; [done|]. rewrite blen_cons. pose proof (blen_nonneg a). lia. Qed.

Lemma at_lt_Some b i : 0 <= i < blen b -> is_Some (at_ b i).
Proof.
  intros Hi. unfold at_. destruct (Z.leb_spec 0 i); [|lia].
  apply lookup_lt_is_Some. unfold blen in Hi. lia.
Qed.
Lemma at_Some_lt b i x : at_ b i = Some x -> 0 <= i < blen b.
Proof.
  unfold at_. destruct (Z.leb_spec 0 i); [|done].
  intros H1%lookup_lt_Some. unfold blen. lia.
Qed.
Lemma at_app_l a b i : i < blen a -> at_ (a ++ b) i = at_ a i.
Proof.
  intros Hi. unfold at_. destruct (Z.leb_spec 0 i); [|done].
  apply lookup_app_l. unfold blen in Hi. lia.
Qed.
Lemma at_app_r a b i : blen a <= i -> at_ (a ++ b) i = at_ b (i - blen a).
Proof.
  intros Hi. unfold at_, blen in *.
  destruct (Z.leb_spec 0 i), (Z.leb_spec 0 (i - Z.of_nat (length a))); try lia.
  rewrite lookup_app_r by lia. f_equal. lia.
Qed.
Lemma at_app_off a b k : 0 <= k -> at_ (a ++ b) (blen a + k) = at_ b k.
Proof. intros Hk. rewrite at_app_r by lia. f_equal. lia. Qed.
Lemma at_app_here a b : at_ (a ++ b) (blen a) = at_ b 0.
Proof. rewrite at_app_r by lia. f_equal. lia. Qed.
Lemma at_cons_0 x a : at_ (x :: a) 0 = Some x.
Proof. reflexivity. Qed.
Lemma at_cons_S x a i : 0 < i -> at_ (x :: a) i = at_ a (i - 1).
Proof.
  intros Hi. change (x :: a) with ([x] ++ a). rewrite at_app_r; [done|].
  change (blen [x]) with 1. lia.
Qed.
Lemma at_Forall (P : A -> Prop) b i x : Forall P b -> at_ b i = Some x -> P x.
Proof.
  unfold at_. destruct (_ <=? _); [|done]. intros Hb Hx.
  by eapply Forall_lookup_1.
Qed.

Lemma rel_index_in len i : 0 <= i <= len -> rel_index len i = i.
Proof. unfold rel_index. destruct (Z.ltb_spec i 0); lia. Qed.

Lemma subarray_app a b c s e :
  s = blen a -> e = blen a + blen b -> subarray (a ++ b ++ c) s e = b.
Proof.
  intros -> ->. unfold subarray. rewrite !blen_app.
  pose proof (blen_nonneg a). pose proof (blen_nonneg b). pose proof (blen_nonneg c).
  rewrite !rel_index_in by lia.
  replace (blen a + blen b - blen a) with (blen b) by lia.
  unfold blen. rewrite !Nat2Z.id, drop_app_length. apply take_app_length.
Qed.
Lemma subarray_split b s e :
  0 <= s <= e -> e <= blen b ->
  exists p q, b = p ++ subarray b s e ++ q /\ blen p = s /\ blen (subarray b s e) = e - s.
Proof.
  intros Hs He. unfold subarray. rewrite !rel_index_in by lia.
  exists (take (Z.to_nat s) b), (drop (Z.to_nat (e - s)) (drop (Z.to_nat s) b)).
  unfold blen in *. rewrite !length_take, length_drop. split; [|lia].
  by rewrite take_drop, take_drop.
Qed.
Lemma blen_subarray b s e : 0 <= s <= e -> e <= blen b -> blen (subarray b s e) = e - s.
Proof. intros Hs He. by destruct (subarray_split b s e Hs He) as (? & ? & ? & ? & ?). Qed.
Lemma subarray_all b : subarray b 0 (blen b) = b.
Proof.
  transitivity (subarray ([] ++ b ++ []) 0 (blen b)); [by rewrite app_nil_r|].
  by apply subarray_app.
Qed.
Lemma subarray_from_app a b s : s = blen a -> subarray_from (a ++ b) s = b.
Proof.
  intros ->. unfold subarray_from. pose proof (blen_nonneg a). pose proof (blen_nonneg b).
  rewrite rel_index_in by (rewrite blen_app; lia).
  unfold blen. rewrite Nat2Z.id. apply drop_app_length.
Qed.
Lemma Forall_subarray (P : A -> Prop) b s e : Forall P b -> Forall P (subarray b s e).
Proof. intros Hb. by apply Forall_take, Forall_drop. Qed.
End bytes.

#[export] Hint Rewrite @blen_app @blen_cons @blen_nil : js_len.
#[export] Hint Resolve blen_nonneg Forall_subarray : js.

(** Normalise lengths, then arithmetic. *)
Ltac blia :=
  autorewrite with js_len in *;
  repeat match goal with
  | |- context [blen ?l] =>
      lazymatch goal with
      | _ : 0 <= blen l |- _ => fail
      | _ => pose proof (blen_nonneg l)
      end
  | _ : context [blen ?l] |- _ =>
      lazymatch goal with
      | _ : 0 <= blen l |- _ => fail
      | _ => pose proof (blen_nonneg l)
      end
  end; lia.

Lemma u32_bytes_ok v : bytes_ok (u32_bytes v).
Proof. repeat constructor; unfold is_byte; apply Z.mod_pos_bound; lia. Qed.

Lemma blen_u32_bytes v : blen (u32_bytes v) = 4.
Proof. reflexivity. Qed.
#[export] Hint Rewrite blen_u32_bytes : js_len.

Lemma getUint32_app a v c :
  0 <= v < 2 ^ 32 -> getUint32 (a ++ u32_bytes v ++ c) (blen a) = Ok v.
Proof.
  intros Hv. unfold getUint32. rewrite at_app_here, !at_app_off by lia.
  change (Ok (le_u32 (v mod 256) (v / 256 mod 256) (v / 65536 mod 256)
                     (v / 16777216 mod 256)) = Ok v).
  f_equal. unfold le_u32.
  change (v / 65536) with (v / (256 * 256)). change (v / 16777216) with (v / (256 * 256 * 256)).
  rewrite <- !Z.div_div by lia. Z.div_mod_to_equations. lia.
Qed.

Lemma getUint32_range b off v : bytes_ok b -> getUint32 b off = Ok v -> 0 <= v < 2 ^ 32.
Proof.
  intros Hb. unfold getUint32.
  destruct (at_ b off) as [b0|] eqn:E0; [|done].
  destruct (at_ b (off + 1)) as [b1|] eqn:E1; [|done].
  destruct (at_ b (off + 2)) as [b2|] eqn:E2; [|done].
  destruct (at_ b (off + 3)) as [b3|] eqn:E3; [|done].
  intros [= <-].
  apply (at_Forall is_byte) in E0, E1, E2, E3; [|done..].
  unfold is_byte, le_u32 in *. lia.
Qed.

Lemma split_len {A} (l : list A) k : 0 <= k <= blen l -> exists x y, l = x ++ y /\ blen x = k.
Proof.
  intros Hk. exists (take (Z.to_nat k) l), (drop (Z.to_nat k) l).
  rewrite take_drop. split; [done|]. unfold blen in *. rewrite length_take. lia.
Qed.

Lemma app_inj_len {A} (a b x y : list A) : blen a = blen b -> a ++ x = b ++ y -> a = b /\ x = y.
Proof. intros Hl H. apply app_inj_1 in H; [done|]. unfold blen in Hl. lia. Qed.

(** Equality of concatenations up to associativity. *)
Ltac app_eq := repeat (progress (rewrite <- ?app_assoc; cbn [app])); reflexivity.

(** A boolean fact about bytes holds when it evaluates to true on each of the 256. *)
Lemma byte_forall (P : Z -> bool) :
  forallb P (map Z.of_nat (seq 0 256)) = true -> forall b, is_byte b -> P b = true.
Proof.
  intros HP b Hb. unfold is_byte in Hb. rewrite forallb_forall in HP. apply HP.
  apply in_map_iff. exists (Z.to_nat b). split; [lia|]. apply in_seq. lia.
Qed.

(** The byte range of a concrete array, decided by evaluation. *)
Definition bytes_okb (b : list Z) : bool := forallb (fun z => (0 <=? z) && (z <? 256)) b.
Lemma bytes_okb_ok b : bytes_okb b = true -> bytes_ok b.
Proof.
  unfold bytes_okb. rewrite forallb_forall. intros H. apply List.Forall_forall. intros x Hx.
  specialize (H x Hx). unfold is_byte. lia.
Qed.
Ltac closed_bytes := apply bytes_okb_ok; vm_compute; reflexivity.

(** No value is the image of two arguments: a token has one holder. *)
Definition unique {I A : Type} (f : I -> option A) : Prop := forall i j x, f i = Some x -> f j = Some x -> i = j.

(** ** Pieces of byte strings

    [put_at l v p] is [l] after [l.set(v, p)]. *)

Definition put_at (l v : list Z) (p : Z) : list Z := subarray l 0 p ++ v ++ subarray_from l (p + blen v).

Lemma subarray_take (c : list Z) s e : 0 <= s <= e -> subarray c s e = take (Z.to_nat (e - s)) (drop (Z.to_nat s) c).
Proof.
  intros H. unfold subarray, rel_index. pose proof (blen_nonneg c). destruct (Z.ltb_spec s 0), (Z.ltb_spec e 0); try lia.
  destruct (Z_le_gt_dec s (blen c)); unfold blen in *.
  - rewrite (Z.min_l s) by lia. destruct (Z_le_gt_dec e (Z.of_nat (List.length c))); [by rewrite Z.min_l by lia|].
    rewrite !take_ge; [done| |]; rewrite length_drop; lia.
  - rewrite !drop_ge by lia. by rewrite !take_nil.
Qed.

Lemma subarray_join (c : list Z) s m e : 0 <= s <= m -> m <= e -> subarray c s e = subarray c s m ++ subarray c m e.
Proof.
  intros H1 H2. rewrite !subarray_take by lia. replace (Z.to_nat (e - s)) with (Z.to_nat (m - s) + Z.to_nat (e - m))%nat by lia.
  rewrite <- take_take_drop, drop_drop. do 2 f_equal. f_equal. lia.
Qed.

Lemma subarray_short (c : list Z) s m e : 0 <= s <= m -> m <= e -> blen (subarray c s m) < m - s -> subarray c s e = subarray c s m.
Proof.
  intros H1 H2 H3. rewrite (subarray_join c s m e), (subarray_take c m e) by lia. rewrite drop_ge; [by rewrite take_nil, app_nil_r|].
  rewrite subarray_take in H3 by lia. unfold blen in H3. rewrite length_take, length_drop in H3. lia.
Qed.

Lemma blen_subarray_le (c : list Z) s e : 0 <= s <= e -> blen (subarray c s e) <= e - s.
Proof. intros H. rewrite subarray_take by lia. unfold blen. rewrite length_take. lia. Qed.

Lemma put_at_split x y z v p : p = blen x -> blen v = blen y -> put_at (x ++ y ++ z) v p = x ++ v ++ z.
Proof.
  intros -> Hv. unfold put_at. f_equal; [by apply (subarray_app [] x (y ++ z))|]. f_equal. rewrite app_assoc. apply subarray_from_app. blia.
Qed.

Lemma buffer_cut (b : list Z) p n : 0 <= p -> 0 <= n -> p + n <= blen b -> exists x y z, b = x ++ y ++ z /\ blen x = p /\ blen y = n.
Proof.
  intros Hp Hn Hb. destruct (split_len b p) as (x & r & -> & Hx); [lia|]. destruct (split_len r n) as (y & z & -> & Hy); [blia|].
  by exists x, y, z.
Qed.

Lemma blen_put_at b v p : 0 <= p -> p + blen v <= blen b -> blen (put_at b v p) = blen b.
Proof.
  intros Hp Hb. destruct (buffer_cut b p (blen v) Hp (blen_nonneg v) Hb) as (x & y & z & -> & Hx & Hy). rewrite put_at_split by lia. blia.
Qed.

Lemma put_at_join b v w p : 0 <= p -> p + blen v + blen w <= blen b -> put_at (put_at b v p) w (p + blen v) = put_at b (v ++ w) p.
Proof.
  intros Hp Hb. destruct (buffer_cut b p (blen v + blen w)) as (x & yz & r & -> & Hx & Hy); [lia|blia|lia|].
  destruct (split_len yz (blen v)) as (y & z & -> & Hv); [blia|]. rewrite <- app_assoc. rewrite (put_at_split x y) by lia.
  rewrite app_assoc. rewrite (put_at_split (x ++ v) z) by blia. rewrite (app_assoc y z r). rewrite (put_at_split x (y ++ z)) by blia. app_eq.
Qed.

Lemma put_at_nil b p : 0 <= p <= blen b -> put_at b [] p = b.
Proof. intros H. destruct (buffer_cut b p 0) as (x & y & z & -> & Hx & Hy); [lia..|]. apply blen_0 in Hy as ->. by rewrite (put_at_split x []) by done. Qed.
