(* ===== verification/JsText.v ===== *)
(** JavaScript strings and the UTF-8 codecs the SDK uses.

    A string is the list of its UTF-16 code units. [text_encode] is
    [TextEncoder.encode] (a lone surrogate becomes U+FFFD) and [text_decode] is
    [TextDecoder.decode] with its defaults: the WHATWG decoder with replacement, and
    one leading byte-order mark dropped. The main result is that decoding an encoded
    well-formed string gives the string back. *)
From Stdlib Require Import ZArith Lia Ascii.
From stdpp Require Import base list strings numbers.
From S2P Require Import Prelude.
Open Scope Z_scope.

Abbreviation jsstring := (list Z).

(** The string of an ASCII literal. *)
Fixpoint lit (s : string) : jsstring :=
  match s with
  | EmptyString => []
  | String a s' => Z.of_nat (Ascii.nat_of_ascii a) :: lit s'
  end.

#[export] Instance jsstring_eq_dec : EqDecision jsstring := _.
Definition str_eqb (a b : jsstring) : bool := bool_decide (a = b).

Lemma str_eqb_eq a b : str_eqb a b = true <-> a = b.
Proof. apply bool_decide_eq_true. Qed.

(** WhiteSpace and LineTerminator: what [String.prototype.trim] removes. *)
Definition is_js_space (c : Z) : bool :=
  ((9 <=? c) && (c <=? 13)) || (c =? 32) || (c =? 0xA0) || (c =? 0x1680)
  || ((0x2000 <=? c) && (c <=? 0x200A)) || (c =? 0x2028) || (c =? 0x2029)
  || (c =? 0x202F) || (c =? 0x205F) || (c =? 0x3000) || (c =? 0xFEFF).

Fixpoint drop_while {A : Type} (p : A -> bool) (l : list A) : list A :=
  match l with
  | [] => []
  | x :: l' => if p x then drop_while p l' else l
  end.

(** Lower case of the ASCII letters. Comparing a lowered text with an ASCII word that has no i or k
    agrees with [toLowerCase] (only U+0130 and U+212A lower to ASCII letters, i and k), and so does
    an ignore-case pattern of ASCII letters, whose folding never maps a non-ASCII unit to ASCII. *)
Definition lower (c : Z) : Z := if (65 <=? c) && (c <=? 90) then c + 32 else c.

Definition trim_with (p : Z -> bool) (s : jsstring) : jsstring :=
  reverse (drop_while p (reverse (drop_while p s))).
Definition trim (s : jsstring) : jsstring := trim_with is_js_space s.

(** [s.startsWith(p)] *)
Fixpoint startsWith (s p : jsstring) : bool :=
  match p, s with
  | [], _ => true
  | x :: p', y :: s' => (x =? y) && startsWith s' p'
  | _ :: _, [] => false
  end.

(** [s.includes(p)] *)
Fixpoint includes (s p : jsstring) : bool :=
  startsWith s p || match s with [] => false | _ :: s' => includes s' p end.

(** [s.split(c)] for a one-unit separator. *)
Fixpoint split_on (c : Z) (s : jsstring) : list jsstring :=
  match s with
  | [] => [[]]
  | x :: s' =>
      if x =? c then [] :: split_on c s'
      else match split_on c s' with
           | [] => [[x]]
           | w :: ws => (x :: w) :: ws
           end
  end.

(** ** UTF-16 and UTF-8 *)

Definition is_high (u : Z) : bool := (0xD800 <=? u) && (u <=? 0xDBFF).
Definition is_low (u : Z) : bool := (0xDC00 <=? u) && (u <=? 0xDFFF).
Definition REPLACEMENT : Z := 0xFFFD.

(** The scalar values of a string; a lone surrogate reads as U+FFFD. *)
Fixpoint scalars (s : jsstring) : list Z :=
  match s with
  | [] => []
  | u :: s' =>
      if is_high u then
        match s' with
        | l :: s'' =>
            if is_low l then (0x10000 + (u - 0xD800) * 0x400 + (l - 0xDC00)) :: scalars s''
            else REPLACEMENT :: scalars s'
        | [] => [REPLACEMENT]
        end
      else if is_low u then REPLACEMENT :: scalars s'
      else u :: scalars s'
  end.

(** [String.prototype.isWellFormed]: no lone surrogate. *)
Fixpoint isWellFormed (s : jsstring) : bool :=
  match s with
  | [] => true
  | u :: s' =>
      if is_high u then
        match s' with l :: s'' => is_low l && isWellFormed s'' | [] => false end
      else negb (is_low u) && isWellFormed s'
  end.

Definition utf16 (c : Z) : list Z :=
  if c <? 0x10000 then [c]
  else [0xD800 + (c - 0x10000) / 0x400; 0xDC00 + (c - 0x10000) mod 0x400].

Definition encode_scalar (c : Z) : list Z :=
  if c <? 0x80 then [c]
  else if c <? 0x800 then [0xC0 + c / 64; 0x80 + c mod 64]
  else if c <? 0x10000 then [0xE0 + c / 4096; 0x80 + c / 64 mod 64; 0x80 + c mod 64]
  else [0xF0 + c / 262144; 0x80 + c / 4096 mod 64; 0x80 + c / 64 mod 64; 0x80 + c mod 64].

Definition text_encode (s : jsstring) : list Z := flat_map encode_scalar (scalars s).

(** The WHATWG decoder: [needed] continuation bytes are missing, the next one must lie
    in [lower..upper], [cp] holds the bits read so far. A byte outside the range gives
    U+FFFD and is read again as a first byte. *)
Fixpoint utf8_loop (needed : nat) (lower upper cp : Z) (b : list Z) : list Z :=
  match b with
  | [] => match needed with O => [] | S _ => [REPLACEMENT] end
  | x :: b' =>
      let first :=
        if x <=? 0x7F then x :: utf8_loop 0 0x80 0xBF 0 b'
        else if (0xC2 <=? x) && (x <=? 0xDF) then utf8_loop 1 0x80 0xBF (x - 0xC0) b'
        else if (0xE0 <=? x) && (x <=? 0xEF) then
          utf8_loop 2 (if x =? 0xE0 then 0xA0 else 0x80)
                      (if x =? 0xED then 0x9F else 0xBF) (x - 0xE0) b'
        else if (0xF0 <=? x) && (x <=? 0xF4) then
          utf8_loop 3 (if x =? 0xF0 then 0x90 else 0x80)
                      (if x =? 0xF4 then 0x8F else 0xBF) (x - 0xF0) b'
        else REPLACEMENT :: utf8_loop 0 0x80 0xBF 0 b' in
      match needed with
      | O => first
      | S n =>
          if (lower <=? x) && (x <=? upper) then
            let cp' := cp * 64 + (x - 0x80) in
            match n with
            | O => cp' :: utf8_loop 0 0x80 0xBF 0 b'
            | S _ => utf8_loop n 0x80 0xBF cp' b'
            end
          else REPLACEMENT :: first
      end
  end.

Definition utf8_scalars (b : list Z) : list Z := utf8_loop 0 0x80 0xBF 0 b.

Definition strip_bom (cs : list Z) : list Z :=
  match cs with
  | c :: cs' => if c =? 0xFEFF then cs' else cs
  | [] => []
  end.

Definition text_decode (b : list Z) : jsstring := flat_map utf16 (strip_bom (utf8_scalars b)).

(** ** Facts *)

Definition is_unit (u : Z) : Prop := 0 <= u < 65536.
Definition is_scalar (c : Z) : Prop := 0 <= c < 0xD800 \/ 0xE000 <= c <= 0x10FFFF.

(** Decide the integer comparisons one at a time, closing impossible branches. *)
Ltac bool_step :=
  match goal with
  | H : context [?a <=? ?b] |- _ => destruct (Z.leb_spec a b)
  | H : context [?a <? ?b] |- _ => destruct (Z.ltb_spec a b)
  | H : context [?a =? ?b] |- _ => destruct (Z.eqb_spec a b)
  | |- context [?a <=? ?b] => destruct (Z.leb_spec a b)
  | |- context [?a <? ?b] => destruct (Z.ltb_spec a b)
  | |- context [?a =? ?b] => destruct (Z.eqb_spec a b)
  end; cbn [andb orb negb] in *; try discriminate; try (exfalso; lia).
Ltac bool_lia := repeat bool_step; try lia.

Lemma scalars_ok s : Forall is_unit s -> Forall is_scalar (scalars s).
Proof.
  enough (Hn : forall n s, (length s <= n)%nat -> Forall is_unit s -> Forall is_scalar (scalars s))
    by eauto.
  clear s. intros n. induction n as [|n IH]; intros s Hn Hs.
  { destruct s; [constructor|simpl in Hn; lia]. }
  destruct s as [|u s]; [constructor|].
  apply Forall_cons_iff in Hs as [Hu Hs]. simpl in Hn. simpl.
  unfold is_unit in Hu.
  destruct (is_high u) eqn:Eh.
  - destruct s as [|l s]; [repeat constructor; unfold is_scalar, REPLACEMENT; lia|].
    destruct (is_low l) eqn:El.
    + apply Forall_cons_iff in Hs as [_ Hs]. simpl in Hn.
      constructor; [|apply IH; [lia|done]].
      unfold is_high, is_low, is_scalar in *. bool_lia.
    + constructor; [unfold is_scalar, REPLACEMENT; lia|apply IH; [simpl in *; lia|done]].
  - destruct (is_low u) eqn:El; (constructor; [|apply IH; [lia|done]]).
    + unfold is_scalar, REPLACEMENT. lia.
    + unfold is_high, is_low, is_scalar in *. bool_lia.
Qed.

Lemma utf16_scalars s : Forall is_unit s -> isWellFormed s = true -> flat_map utf16 (scalars s) = s.
Proof.
  enough (Hn : forall n s, (length s <= n)%nat -> Forall is_unit s -> isWellFormed s = true ->
                           flat_map utf16 (scalars s) = s) by eauto.
  clear s. intros n. induction n as [|n IH]; intros s Hn Hs Hw.
  { destruct s; [done|simpl in Hn; lia]. }
  destruct s as [|u s]; [done|].
  apply Forall_cons_iff in Hs as [Hu Hs]. simpl in Hn. simpl in Hw. simpl. unfold is_unit in Hu.
  destruct (is_high u) eqn:Eh.
  - destruct s as [|l s]; [done|]. apply andb_true_iff in Hw as [El Hw]. rewrite El.
    apply Forall_cons_iff in Hs as [Hl Hs]. simpl in Hn. simpl.
    rewrite IH by (done || lia).
    assert (Hu' : 0xD800 <= u <= 0xDBFF) by (unfold is_high in Eh; bool_lia).
    assert (Hl' : 0xDC00 <= l <= 0xDFFF) by (unfold is_low in El; bool_lia).
    unfold utf16. destruct (Z.ltb_spec (0x10000 + (u - 0xD800) * 0x400 + (l - 0xDC00)) 0x10000);
      [lia|]. simpl.
    replace (0x10000 + (u - 0xD800) * 0x400 + (l - 0xDC00) - 0x10000)
      with ((l - 0xDC00) + (u - 0xD800) * 0x400) by lia.
    rewrite Z.div_add, Z_mod_plus_full, Z.div_small, Z.mod_small by lia.
    f_equal; [lia|f_equal; lia].
  - apply andb_true_iff in Hw as [El Hw]. destruct (is_low u); [done|]. simpl.
    rewrite IH by (done || lia). unfold utf16. by destruct (Z.ltb_spec u 0x10000); [|lia].
Qed.

Lemma utf8_first2 x b :
  0xC2 <= x <= 0xDF -> utf8_scalars (x :: b) = utf8_loop 1 0x80 0xBF (x - 0xC0) b.
Proof. intros Hx. unfold utf8_scalars. cbn [utf8_loop]. bool_lia. done. Qed.

Lemma utf8_first3 x b :
  0xE0 <= x <= 0xEF ->
  utf8_scalars (x :: b) = utf8_loop 2 (if x =? 0xE0 then 0xA0 else 0x80)
                                      (if x =? 0xED then 0x9F else 0xBF) (x - 0xE0) b.
Proof.
  intros Hx. unfold utf8_scalars. cbn [utf8_loop].
  do 5 (bool_step; [idtac]). done.
Qed.

Lemma utf8_first4 x b :
  0xF0 <= x <= 0xF4 ->
  utf8_scalars (x :: b) = utf8_loop 3 (if x =? 0xF0 then 0x90 else 0x80)
                                      (if x =? 0xF4 then 0x8F else 0xBF) (x - 0xF0) b.
Proof.
  intros Hx. unfold utf8_scalars. cbn [utf8_loop].
  do 7 (bool_step; [idtac]). done.
Qed.

Lemma utf8_last lo up cp x b :
  lo <= x <= up -> utf8_loop 1 lo up cp (x :: b) = (cp * 64 + (x - 0x80)) :: utf8_scalars b.
Proof. intros Hx. cbn [utf8_loop]. do 2 (bool_step; [idtac]). done. Qed.

Lemma utf8_more n lo up cp x b :
  lo <= x <= up ->
  utf8_loop (S (S n)) lo up cp (x :: b) = utf8_loop (S n) 0x80 0xBF (cp * 64 + (x - 0x80)) b.
Proof. intros Hx. cbn [utf8_loop]. do 2 (bool_step; [idtac]). done. Qed.

(** One encoded scalar is decoded to itself, whatever follows. *)
Lemma utf8_loop_scalar c rest :
  is_scalar c -> utf8_scalars (encode_scalar c ++ rest) = c :: utf8_scalars rest.
Proof.
  intros Hc. unfold encode_scalar, is_scalar in *.
  destruct (Z.ltb_spec c 0x80).
  { unfold utf8_scalars. cbn. bool_lia. done. }
  pose proof (Z.div_mod c 64). pose proof (Z.mod_pos_bound c 64).
  destruct (Z.ltb_spec c 0x800); cbn [app].
  { rewrite utf8_first2, utf8_last by lia. f_equal. lia. }
  change 262144 with (64 * 64 * 64). change 4096 with (64 * 64). rewrite <- !Z.div_div by lia.
  pose proof (Z.div_mod (c / 64) 64). pose proof (Z.mod_pos_bound (c / 64) 64).
  destruct (Z.ltb_spec c 0x10000); cbn [app].
  { rewrite utf8_first3, utf8_more, utf8_last by bool_lia. f_equal. lia. }
  pose proof (Z.div_mod (c / 64 / 64) 64). pose proof (Z.mod_pos_bound (c / 64 / 64) 64).
  rewrite utf8_first4, !utf8_more, utf8_last by bool_lia. f_equal. lia.
Qed.

Lemma utf8_scalars_encode cs :
  Forall is_scalar cs -> utf8_scalars (flat_map encode_scalar cs) = cs.
Proof.
  induction 1 as [|c cs Hc _ IH]; [done|]. simpl. by rewrite utf8_loop_scalar, IH.
Qed.

Lemma encode_scalar_bytes c : is_scalar c -> bytes_ok (encode_scalar c).
Proof.
  intros Hc. unfold encode_scalar, is_scalar, is_byte in *.
  repeat case_match; repeat constructor; bool_lia; Z.div_mod_to_equations; lia.
Qed.

Lemma text_encode_bytes s : Forall is_unit s -> bytes_ok (text_encode s).
Proof.
  intros Hs. unfold text_encode. pose proof (scalars_ok s Hs) as Hc.
  induction Hc as [|c cs Hc _ IH]; [constructor|]. simpl.
  apply Forall_app; auto using encode_scalar_bytes.
Qed.

(** [TextDecoder.decode] inverts [TextEncoder.encode] on a well-formed string that does
    not start with a byte-order mark. *)
Lemma text_decode_encode s :
  Forall is_unit s -> isWellFormed s = true -> head s <> Some 0xFEFF ->
  text_decode (text_encode s) = s.
Proof.
  intros Hs Hw Hb. unfold text_decode, text_encode.
  rewrite utf8_scalars_encode by by apply scalars_ok.
  replace (strip_bom (scalars s)) with (scalars s); [by apply utf16_scalars|].
  destruct s as [|u s]; [done|]. simpl in Hb. simpl in Hw. simpl.
  destruct (is_high u) eqn:Eh.
  - destruct s as [|l s]; [done|]. apply andb_true_iff in Hw as [El _]. rewrite El. simpl.
    unfold is_high, is_low in *. bool_lia. done.
  - apply andb_true_iff in Hw as [El _]. destruct (is_low u); [done|]. simpl.
    destruct (Z.eqb_spec u 0xFEFF) as [->|]; [by destruct Hb|done].
Qed.

(** A trimmed string keeps no white space at its start; U+FEFF counts as such. *)
Lemma drop_while_head {A} (p : A -> bool) l x : head (drop_while p l) = Some x -> p x = false.
Proof.
  induction l as [|y l IH]; simpl; [done|]. destruct (p y) eqn:E; [done|].
  simpl. by intros [= <-].
Qed.

Lemma drop_while_suffix {A} (p : A -> bool) (l : list A) :
  exists d, l = d ++ drop_while p l /\ Forall (fun x => p x = true) d.
Proof.
  induction l as [|x l (d & Hd & Hp)]; simpl; [by exists []|].
  destruct (p x) eqn:E; [|by exists []].
  exists (x :: d). rewrite Hd at 1. split; [done|by constructor].
Qed.

(** [trim] removes a white-space prefix and suffix and nothing else. *)
Lemma trim_with_parts p s :
  exists a b, s = a ++ trim_with p s ++ b /\
    Forall (fun x => p x = true) a /\ Forall (fun x => p x = true) b /\
    (forall x, head (trim_with p s) = Some x -> p x = false) /\
    (forall x, head (reverse (trim_with p s)) = Some x -> p x = false).
Proof.
  unfold trim_with.
  destruct (drop_while_suffix p s) as (a & Ha & Hpa).
  destruct (drop_while_suffix p (reverse (drop_while p s))) as (b & Hb & Hpb).
  set (m := drop_while p (reverse (drop_while p s))) in *.
  assert (Hm : drop_while p s = reverse m ++ reverse b).
  { rewrite <- reverse_app, <- Hb. by rewrite reverse_involutive. }
  exists a, (reverse b). split; [by rewrite <- Hm|]. split; [done|].
  split; [by apply Forall_reverse|]. split.
  - intros x Hx. apply (drop_while_head p s). rewrite Hm.
    by destruct (reverse m).
  - intros x. rewrite reverse_involutive. apply drop_while_head.
Qed.

Lemma trim_head s x : head (trim s) = Some x -> is_js_space x = false.
Proof. destruct (trim_with_parts is_js_space s) as (? & ? & ? & ? & ? & Hh & _). apply Hh. Qed.

Lemma drop_while_id {A} (p : A -> bool) l : (forall x, head l = Some x -> p x = false) -> drop_while p l = l.
Proof. destruct l as [|x l]; [done|]. cbn. intros H. by rewrite (H x eq_refl). Qed.

Lemma trim_trim s : trim (trim s) = trim s.
Proof.
  destruct (trim_with_parts is_js_space s) as (? & ? & ? & ? & ? & Hh & Hl). fold (trim s) in *.
  unfold trim at 1, trim_with. rewrite (drop_while_id _ (trim s)) by done.
  rewrite drop_while_id by done. apply reverse_involutive.
Qed.

Lemma trim_no_bom s : head (trim s) <> Some 0xFEFF.
Proof. intros H%trim_head. discriminate. Qed.

Lemma Forall_trim (P : Z -> Prop) s : Forall P s -> Forall P (trim s).
Proof.
  destruct (trim_with_parts is_js_space s) as (a & b & Hs & _). rewrite Hs at 1.
  intros [_ [H _]%Forall_app]%Forall_app. done.
Qed.

Lemma startsWith_app p s : startsWith (p ++ s) p = true.
Proof. induction p as [|x p IH]; simpl; [by destruct s|]. by rewrite Z.eqb_refl. Qed.

Lemma startsWith_spec s p : startsWith s p = true <-> exists q, s = p ++ q.
Proof.
  split; [|intros [q ->]; apply startsWith_app].
  revert s. induction p as [|x p IH]; intros s; [by exists s|].
  destruct s as [|y s]; simpl; [done|]. intros [->%Z.eqb_eq [q ->]%IH]%andb_true_iff.
  by exists q.
Qed.

Lemma lit_units s : Forall is_unit (lit s).
Proof.
  induction s as [|a s IH]; constructor; [|done].
  pose proof (Ascii.nat_ascii_bounded a). unfold is_unit. lia.
Qed.

(** ** Splitting *)

Lemma split_on_nil_not c s : split_on c s <> [].
Proof. destruct s as [|x s]; cbn; [done|]. destruct (x =? c); [done|]. by destruct (split_on c s). Qed.

Lemma split_on_none c a : c ∉ a -> split_on c a = [a].
Proof.
  induction a as [|x a IH]; cbn; [done|]. intros [Hx Ha]%not_elem_of_cons.
  destruct (Z.eqb_spec x c); [congruence|]. by rewrite IH.
Qed.

Lemma split_on_sep c a s : c ∉ a -> split_on c (a ++ c :: s) = a :: split_on c s.
Proof.
  induction a as [|x a IH]; cbn; [by rewrite Z.eqb_refl|]. intros [Hx Ha]%not_elem_of_cons.
  destruct (Z.eqb_spec x c); [congruence|]. by rewrite IH.
Qed.

Lemma split_on_inv c s a rest : split_on c s = a :: rest ->
  (c ∉ a) /\ ((rest = [] /\ s = a) \/ exists s', s = a ++ c :: s' /\ split_on c s' = rest).
Proof.
  revert a rest. induction s as [|x s IH]; cbn; intros a rest.
  - intros [= <- <-]. split; [apply not_elem_of_nil|by left].
  - destruct (Z.eqb_spec x c) as [->|Hne].
    + intros [= <- <-]. split; [apply not_elem_of_nil|]. right. by exists s.
    + destruct (split_on c s) as [|w ws] eqn:E; [by apply split_on_nil_not in E|].
      intros [= <- <-]. destruct (IH w ws eq_refl) as (Hw & H). split; [by apply not_elem_of_cons|].
      destruct H as [[-> ->] | (s' & -> & <-)]; [by left|]. right. by exists s'.
Qed.

Lemma split_on_1 c s a : split_on c s = [a] <-> s = a /\ (c ∉ a).
Proof.
  split; [|intros [-> H]; by apply split_on_none].
  intros (Ha & [[_ ->] | (s' & -> & H)])%split_on_inv; [done|]. by apply split_on_nil_not in H.
Qed.

Lemma split_on_2 c s a b : split_on c s = [a; b] <-> s = a ++ c :: b /\ (c ∉ a) /\ (c ∉ b).
Proof.
  split.
  - intros (Ha & [[? _] | (s' & -> & H)])%split_on_inv; [done|]. apply split_on_1 in H as [-> Hb]. done.
  - intros (-> & Ha & Hb). rewrite split_on_sep, split_on_none by done. done.
Qed.
