(* ===== verification/Leb128.v ===== *)
(** Unsigned LEB128 integers (src/bundle/wasm.js, src/compiler/wasmCodeScan.js,
    src/compiler/wasmObjectSymbols.js).

    The encoder and the decoder of the bundle code, the bounds-checked readers the code
    scanner puts on top of them, and the fixed-width encoder of the object renamer.
    [leb_bytes] is the grammar they are specified against: continuation bytes and one
    final byte. The decoder reads exactly the words of that grammar of at most eight
    bytes, and returns the binary64 nearest to their value. *)
From Stdlib Require Import ZArith Lia.
From stdpp Require Import base list strings numbers.
From S2P Require Import Prelude.
Open Scope Z_scope.

Definition assertSafeNonNegativeInteger (value : Z) (label : string) : result unit :=
  throw_if negb (is_safe_integer value) || (value <? 0)
    with TypeError (String.append label " must be a non-negative safe integer.");
  Ok tt.

(** The do-while loop; a safe integer has at most eight 7-bit groups. *)
Fixpoint encode_loop (fuel : nat) (remaining : Z) : list Z :=
  match fuel with
  | O => []
  | S fuel' =>
      let byte := js_and remaining 0x7f in
      let remaining' := remaining / 128 in
      if 0 <? remaining' then js_or byte 0x80 :: encode_loop fuel' remaining'
      else [byte]
  end.

Definition encodeUnsignedLeb128 (value : Z) : result (list Z) :=
  let! _ := assertSafeNonNegativeInteger value "ULEB128 value" in
  Ok (encode_loop 8 value).

(** The value read and the offset after it. *)
Record leb_info := LebInfo { value : Z; nextOffset : Z }.

(** The while loop; [shift] exceeds 49 after eight bytes, so eight rounds are enough. *)
Fixpoint decode_loop (fuel : nat) (view : list Z) (acc shift cursor : Z) : result leb_info :=
  match fuel with
  | O => Throw (Error "fuel")
  | S fuel' =>
      if cursor <? blen view then
        let byte := num_or_0 (at_ view cursor) in
        let acc' := num_add acc (js_and byte 0x7f * 2 ^ shift) in
        if js_and byte 0x80 =? 0 then Ok (LebInfo acc' (cursor + 1))
        else
          let shift' := shift + 7 in
          throw_if 49 <? shift' with Error "ULEB128 value exceeds supported integer range.";
          decode_loop fuel' view acc' shift' (cursor + 1)
      else Throw (Error "Unexpected end of data while decoding ULEB128.")
  end.

Definition decodeUnsignedLeb128 (bytes : list Z) (offset : Z) : result leb_info :=
  decode_loop 8 bytes 0 0 offset.

(** Skip a LEB128 integer of any length (wasmCodeScan.js). *)
Fixpoint skipLeb_loop (fuel : nat) (bytes : list Z) (position end_ : Z) : result Z :=
  match fuel with
  | O => Throw (Error "LEB128 immediate ran past end of function body.")
  | S fuel' =>
      if position <? end_ then
        let byte := num_or_0 (at_ bytes position) in
        if js_and byte 0x80 =? 0 then Ok (position + 1)
        else skipLeb_loop fuel' bytes (position + 1) end_
      else Throw (Error "LEB128 immediate ran past end of function body.")
  end.

Definition skipLeb (bytes : list Z) (cursor end_ : Z) : result Z :=
  skipLeb_loop (S (Z.to_nat (end_ - cursor))) bytes cursor end_.

Definition readLeb (bytes : list Z) (cursor end_ : Z) : result leb_info :=
  throw_if end_ <=? cursor with Error "LEB128 immediate ran past end of function body.";
  let! info := decodeUnsignedLeb128 bytes cursor in
  throw_if end_ <? nextOffset info with Error "LEB128 immediate ran past end of function body.";
  Ok info.

(** The fixed-width form LLVM writes for patchable sizes (wasmObjectSymbols.js). *)
Fixpoint pad_loop (width : nat) (remaining : Z) : list Z :=
  match width with
  | O => []
  | S w =>
      let byte := js_and remaining 0x7f in
      (match w with O => byte | S _ => js_or byte 0x80 end) :: pad_loop w (remaining / 128)
  end.

Definition encodeLebAtWidth (v width : Z) : result (list Z) :=
  let! minimal := encodeUnsignedLeb128 v in
  if (width =? 0) || (width <=? blen minimal) then Ok minimal
  else Ok (pad_loop (Z.to_nat width) v).

(** ** The grammar *)

Inductive leb_bytes : list Z -> Prop :=
| leb_last b : 0 <= b < 128 -> leb_bytes [b]
| leb_more b bs : 128 <= b < 256 -> leb_bytes bs -> leb_bytes (b :: bs).

Fixpoint leb_value (bs : list Z) : Z :=
  match bs with
  | [] => 0
  | b :: bs' => b mod 128 + 128 * leb_value bs'
  end.

#[export] Hint Constructors leb_bytes : js.

Lemma js_and_7f b : js_and b 0x7f = b mod 128.
Proof. by apply (js_and_ones b 7). Qed.

Lemma js_and_80 b : is_byte b -> js_and b 0x80 = if b <? 128 then 0 else 128.
Proof.
  intros Hb. apply Z.eqb_eq.
  by apply (byte_forall (fun b => js_and b 0x80 =? (if b <? 128 then 0 else 128))).
Qed.

Lemma js_or_80 b : 0 <= b < 128 -> js_or b 0x80 = 128 + b.
Proof.
  intros Hb. apply Z.eqb_eq.
  pose proof (byte_forall (fun b => (128 <=? b) || (js_or b 0x80 =? 128 + b)) eq_refl b) as H.
  cbv beta in H.
  destruct (Z.leb_spec 128 b); [lia|]. apply H. by unfold is_byte; lia.
Qed.

Lemma leb_bytes_ok bs : leb_bytes bs -> bytes_ok bs.
Proof. induction 1; repeat constructor; unfold is_byte; lia || done. Qed.

Lemma leb_bytes_nonempty bs : leb_bytes bs -> 0 < blen bs.
Proof. destruct 1; blia. Qed.

Lemma leb_value_bound bs : 0 <= leb_value bs < 2 ^ (7 * blen bs).
Proof.
  induction bs as [|b bs IH]; [by unfold blen; simpl|]. cbn [leb_value]. rewrite blen_cons.
  pose proof (blen_nonneg bs).
  replace (7 * (1 + blen bs)) with (7 * blen bs + 7) by lia. rewrite Z.pow_add_r by lia.
  change (2 ^ 7) with 128. pose proof (Z.mod_pos_bound b 128). lia.
Qed.

(** A word of the grammar is determined by where it starts. *)
Lemma leb_bytes_unique a b c d : leb_bytes a -> leb_bytes b -> a ++ c = b ++ d -> a = b.
Proof.
  intros Ha. revert b. induction Ha as [x Hx|x a Hx _ IH]; intros b Hb; destruct Hb; simpl;
    intros [= -> E]; [done|lia|lia|]. f_equal. eauto.
Qed.

(** ** What the decoder reads *)

Lemma decode_loop_complete bs : leb_bytes bs -> forall fuel shift acc a c,
  (length bs <= fuel <= 8)%nat -> shift = 7 * (8 - Z.of_nat fuel) -> 0 <= acc < 2 ^ shift ->
  decode_loop fuel (a ++ bs ++ c) acc shift (blen a)
    = Ok (LebInfo (to_double (acc + 2 ^ shift * leb_value bs)) (blen a + blen bs)).
Proof.
  induction 1 as [b Hb|b bs Hb Hbs IH]; intros fuel shift acc a c Hf Hs Ha;
    destruct fuel as [|fuel]; try (simpl in Hf; lia); cbn [decode_loop].
  - rewrite at_app_here.
    destruct (Z.ltb_spec (blen a) (blen (a ++ [b] ++ c))); [|blia].
    cbn [app]. rewrite at_cons_0. cbn [num_or_0].
    rewrite js_and_7f, js_and_80 by (unfold is_byte; lia).
    destruct (Z.ltb_spec b 128); [|lia]. cbn [Z.eqb num_or_0 leb_value]. unfold num_add.
    do 3 f_equal. ring.
  - rewrite at_app_here.
    destruct (Z.ltb_spec (blen a) (blen (a ++ (b :: bs) ++ c))); [|blia].
    cbn [app]. rewrite at_cons_0. cbn [num_or_0].
    rewrite js_and_7f, js_and_80 by (unfold is_byte; lia).
    destruct (Z.ltb_spec b 128); [lia|]. cbn [Z.eqb].
    pose proof (leb_bytes_nonempty bs Hbs). unfold blen in H1. simpl in Hf.
    destruct (Z.ltb_spec 49 (shift + 7)); [lia|].
    pose proof (Z.mod_pos_bound b 128).
    assert (Hp : 2 ^ (shift + 7) = 2 ^ shift * 128) by (rewrite Z.pow_add_r; lia).
    assert (Hle : 2 ^ (shift + 7) <= 2 ^ 49) by (apply Z.pow_le_mono_r; lia).
    rewrite num_add_small by nia.
    replace (blen a + 1) with (blen (a ++ [b])) by (rewrite blen_app; done).
    change (b :: bs ++ c) with ([b] ++ bs ++ c). rewrite app_assoc.
    rewrite IH by (lia || nia). cbn [leb_value]. f_equal. f_equal; [f_equal; rewrite Hp; ring|].
    blia.
Qed.

Lemma decode_loop_sound fuel : forall view acc shift cursor r,
  bytes_ok view -> 0 <= cursor -> (fuel <= 8)%nat -> shift = 7 * (8 - Z.of_nat fuel) ->
  decode_loop fuel view acc shift cursor = Ok r ->
  exists a bs c, view = a ++ bs ++ c /\ blen a = cursor /\ leb_bytes bs /\ (length bs <= fuel)%nat.
Proof.
  induction fuel as [|fuel IH]; intros view acc shift cursor r Hv Hc Hf Hs; cbn [decode_loop]; [done|].
  destruct (Z.ltb_spec cursor (blen view)) as [Hlt|]; [|done].
  destruct (at_lt_Some view cursor) as [b Hb]; [lia|]. rewrite Hb. cbn [num_or_0].
  pose proof (at_Forall is_byte _ _ _ Hv Hb) as Hbyte. rewrite js_and_80 by done.
  destruct (subarray_split view cursor (cursor + 1)) as (p & q & Hpq & Hp & Hl); [lia..|].
  set (m := subarray view cursor (cursor + 1)) in *.
  assert (m = [b]) as Hm.
  { rewrite Hpq, at_app_r, at_app_l in Hb by lia.
    destruct m as [|x [|y m]]; unfold blen in Hl; simpl in Hl; [lia| |lia].
    rewrite Hp, Z.sub_diag in Hb. by injection Hb as ->. }
  rewrite Hm in Hpq. unfold is_byte in Hbyte.
  destruct (Z.ltb_spec b 128); cbn [Z.eqb].
  - intros [= <-]. exists p, [b], q. split_and!; [done|done|constructor; lia|simpl; lia].
  - destruct (Z.ltb_spec 49 (shift + 7)); [done|]. intros H1.
    apply IH in H1 as (a & bs & c & Hv' & Ha & Hbs & Hl'); [|done|lia..].
    exists p, (b :: bs), c. split_and!; [|done|constructor; [lia|done]|simpl; lia].
    assert (a = p ++ [b]) as ->.
    { rewrite Hpq, app_assoc in Hv'. symmetry in Hv'.
      apply app_inj_1 in Hv' as [-> _]; [done|]. unfold blen in *. rewrite length_app. simpl. lia. }
    rewrite Hv'. by rewrite <- app_assoc.
Qed.

(** [decodeUnsignedLeb128] accepts at [offset] exactly the words of the grammar of at most
    eight bytes that start there, and returns their value rounded to a binary64. *)
Lemma decodeUnsignedLeb128_spec view offset r :
  bytes_ok view -> 0 <= offset ->
  (decodeUnsignedLeb128 view offset = Ok r) <->
  exists a bs c, view = a ++ bs ++ c /\ blen a = offset /\ leb_bytes bs /\ blen bs <= 8 /\
    r = LebInfo (to_double (leb_value bs)) (offset + blen bs).
Proof.
  intros Hv Ho. unfold decodeUnsignedLeb128. split.
  - intros H. destruct (decode_loop_sound 8 view 0 0 offset r) as (a & bs & c & -> & <- & Hbs & Hl);
      [done..|]. exists a, bs, c. repeat split; [done|unfold blen; lia|].
    rewrite (decode_loop_complete bs Hbs) in H by lia. injection H as <-.
    f_equal. f_equal. lia.
  - intros (a & bs & c & -> & <- & Hbs & Hl & ->).
    rewrite (decode_loop_complete bs Hbs) by (unfold blen in Hl; lia).
    f_equal. f_equal. f_equal. lia.
Qed.

(** A value below 2^53 was read exactly. *)
Lemma decode_value_exact view offset r :
  bytes_ok view -> 0 <= offset -> decodeUnsignedLeb128 view offset = Ok r ->
  0 <= value r /\ offset < nextOffset r <= blen view /\ nextOffset r <= offset + 8 /\
  exists a bs c, view = a ++ bs ++ c /\ blen a = offset /\ leb_bytes bs /\
    nextOffset r = offset + blen bs /\ (value r < 2 ^ 53 -> value r = leb_value bs).
Proof.
  intros Hv Ho (a & bs & c & -> & <- & Hbs & Hl & ->)%decodeUnsignedLeb128_spec; [|done..].
  pose proof (leb_value_bound bs). pose proof (leb_bytes_nonempty bs Hbs). simpl.
  split; [|split; [blia|split; [blia|]]].
  - destruct (Z_lt_ge_dec (to_double (leb_value bs)) (2 ^ 53)); [|lia].
    rewrite to_double_exact; lia.
  - exists a, bs, c. repeat split; [done|]. apply to_double_exact. lia.
Qed.

(** ** What the encoders write *)

Lemma encode_loop_spec fuel : forall v,
  (0 < fuel)%nat -> 0 <= v < 2 ^ (7 * Z.of_nat fuel) ->
  leb_bytes (encode_loop fuel v) /\ leb_value (encode_loop fuel v) = v /\
  (length (encode_loop fuel v) <= fuel)%nat.
Proof.
  induction fuel as [|fuel IH]; intros v Hf Hv; [lia|]. cbn [encode_loop].
  rewrite js_and_7f. pose proof (Z.mod_pos_bound v 128). pose proof (Z.div_mod v 128).
  destruct (Z.ltb_spec 0 (v / 128)) as [Hpos|].
  - replace (7 * Z.of_nat (S fuel)) with (7 + 7 * Z.of_nat fuel) in Hv by lia.
    rewrite Z.pow_add_r in Hv by lia. change (2 ^ 7) with 128 in Hv.
    assert (Hlt : v / 128 < 2 ^ (7 * Z.of_nat fuel)) by (apply Z.div_lt_upper_bound; lia).
    assert (Hn : (0 < fuel)%nat) by (destruct fuel; [simpl in Hlt; lia|lia]).
    destruct (IH (v / 128)) as (Hb & Hval & Hl); [done|lia|].
    rewrite js_or_80 by lia. split_and!; [constructor; [lia|done]| |simpl; lia].
    cbn [leb_value]. rewrite Hval.
    replace ((128 + v mod 128) mod 128) with (v mod 128); [lia|].
    symmetry. replace (128 + v mod 128) with (v mod 128 + 1 * 128) by lia.
    rewrite Z_mod_plus_full. apply Z.mod_small. lia.
  - split_and!; [constructor; lia| |simpl; lia].
    cbn [leb_value]. rewrite Z.mod_mod by lia.
    assert (v / 128 = 0) by (pose proof (Z.div_pos v 128); lia). lia.
Qed.

Lemma pad_loop_spec w : forall v,
  (0 < w)%nat -> 0 <= v < 2 ^ (7 * Z.of_nat w) ->
  leb_bytes (pad_loop w v) /\ leb_value (pad_loop w v) = v /\ length (pad_loop w v) = w.
Proof.
  induction w as [|w IH]; intros v Hw Hv; [lia|]. cbn [pad_loop].
  rewrite js_and_7f. pose proof (Z.mod_pos_bound v 128). pose proof (Z.div_mod v 128).
  destruct w as [|w].
  - change (7 * Z.of_nat 1) with 7 in Hv.
    split_and!; [constructor; lia| |done]. cbn [leb_value pad_loop].
    rewrite Z.mod_mod, Z.mod_small by lia. lia.
  - replace (7 * Z.of_nat (S (S w))) with (7 + 7 * Z.of_nat (S w)) in Hv by lia.
    rewrite Z.pow_add_r in Hv by lia. change (2 ^ 7) with 128 in Hv.
    destruct (IH (v / 128)) as (Hb & Hval & Hl); [lia| |].
    { split; [apply Z.div_pos; lia|apply Z.div_lt_upper_bound; lia]. }
    rewrite js_or_80 by lia. split_and!; [constructor; [lia|done]| |cbn [length]; lia].
    cbn [leb_value]. cbn [leb_value] in Hval. rewrite Hval.
    replace ((128 + v mod 128) mod 128) with (v mod 128); [lia|].
    symmetry. replace (128 + v mod 128) with (v mod 128 + 1 * 128) by lia.
    rewrite Z_mod_plus_full. apply Z.mod_small. lia.
Qed.

Lemma encodeUnsignedLeb128_Ok v :
  0 <= v <= MAX_SAFE_INTEGER -> encodeUnsignedLeb128 v = Ok (encode_loop 8 v).
Proof.
  intros Hv. unfold encodeUnsignedLeb128, assertSafeNonNegativeInteger, is_safe_integer.
  destruct (Z.leb_spec (- MAX_SAFE_INTEGER) v); [|unfold MAX_SAFE_INTEGER in *; lia].
  destruct (Z.leb_spec v MAX_SAFE_INTEGER); [|lia].
  by destruct (Z.ltb_spec v 0); [lia|].
Qed.

Lemma encodeUnsignedLeb128_inv v bs :
  encodeUnsignedLeb128 v = Ok bs ->
  0 <= v <= MAX_SAFE_INTEGER /\ leb_bytes bs /\ leb_value bs = v /\ blen bs <= 8.
Proof.
  unfold encodeUnsignedLeb128, assertSafeNonNegativeInteger, is_safe_integer.
  destruct (Z.leb_spec v MAX_SAFE_INTEGER), (Z.leb_spec (- MAX_SAFE_INTEGER) v),
    (Z.ltb_spec v 0); try discriminate.
  cbn [negb andb orb rbind]. intros E. assert (encode_loop 8 v = bs) as <- by congruence. clear E. unfold MAX_SAFE_INTEGER in *.
  destruct (encode_loop_spec 8 v) as (Hb & Hv & Hl); [lia|simpl; lia|].
  unfold blen. split_and!; done || lia.
Qed.

Lemma encodeLebAtWidth_inv v width bs :
  0 <= width -> encodeLebAtWidth v width = Ok bs ->
  0 <= v <= MAX_SAFE_INTEGER /\ leb_bytes bs /\ leb_value bs = v /\
  blen bs = Z.max width (blen (encode_loop 8 v)).
Proof.
  intros Hw. unfold encodeLebAtWidth. intros H.
  destruct (encodeUnsignedLeb128 v) as [m|] eqn:E; [|done]. simpl in H.
  destruct (encodeUnsignedLeb128_inv v m E) as (Hv & Hm & Hval & Hl).
  rewrite encodeUnsignedLeb128_Ok in E by done.
  assert (encode_loop 8 v = m) as Em by congruence.
  rewrite Em. pose proof (leb_bytes_nonempty m Hm).
  destruct (Z.eqb_spec width 0) as [->|]; simpl in H.
  { injection H as <-. split_and!; done || lia. }
  destruct (Z.leb_spec width (blen m)).
  { injection H as <-. split_and!; done || lia. }
  injection H as <-.
  destruct (pad_loop_spec (Z.to_nat width) v) as (Hb & Hv' & Hl').
  - lia.
  - split; [lia|]. rewrite Z2Nat.id by lia. pose proof (leb_value_bound m) as Hbd.
    rewrite Hval in Hbd. apply Z.lt_le_trans with (2 ^ (7 * blen m)); [lia|].
    apply Z.pow_le_mono_r; lia.
  - split_and!; try done; [lia..|]. unfold blen at 1. rewrite Hl'. lia.
Qed.

(** ** The bounds-checked readers *)

Lemma skipLeb_loop_complete bs : leb_bytes bs -> forall fuel a c end_,
  (length bs <= fuel)%nat -> blen a + blen bs <= end_ ->
  skipLeb_loop fuel (a ++ bs ++ c) (blen a) end_ = Ok (blen a + blen bs).
Proof.
  induction 1 as [b Hb|b bs Hb Hbs IH]; intros fuel a c end_ Hf He;
    destruct fuel as [|fuel]; try (simpl in Hf; lia); cbn [skipLeb_loop];
    rewrite at_app_here; cbn [app]; rewrite at_cons_0; cbn [num_or_0];
    rewrite js_and_80 by (unfold is_byte; lia);
    (destruct (Z.ltb_spec (blen a) end_); [|blia]).
  - by destruct (Z.ltb_spec b 128); [|lia].
  - destruct (Z.ltb_spec b 128); [lia|]. cbn [Z.eqb].
    replace (blen a + 1) with (blen (a ++ [b])) by (rewrite blen_app; done).
    change (b :: bs ++ c) with ([b] ++ bs ++ c). rewrite app_assoc.
    rewrite IH; [f_equal; blia|simpl in Hf; lia|blia].
Qed.

Lemma at_split {A} (l : list A) i x :
  at_ l i = Some x -> exists p q, l = p ++ [x] ++ q /\ blen p = i.
Proof.
  intros Hx. pose proof (at_Some_lt _ _ _ Hx).
  destruct (subarray_split l i (i + 1)) as (p & q & Hpq & Hp & Hl); [lia..|].
  exists p, q. split; [|done]. rewrite Hpq at 1. do 2 f_equal.
  rewrite Hpq, at_app_r, at_app_l in Hx by lia. rewrite Hp, Z.sub_diag in Hx.
  destruct (subarray l i (i + 1)) as [|y [|z m]]; unfold blen in Hl; simpl in Hl; [lia| |lia].
  unfold at_ in Hx. simpl in Hx. by injection Hx as ->.
Qed.

Lemma skipLeb_loop_sound fuel : forall bytes position end_ p,
  bytes_ok bytes -> 0 <= position -> end_ <= blen bytes ->
  skipLeb_loop fuel bytes position end_ = Ok p ->
  exists a bs c, bytes = a ++ bs ++ c /\ blen a = position /\ leb_bytes bs /\
    p = position + blen bs /\ p <= end_.
Proof.
  induction fuel as [|fuel IH]; intros bytes position end_ p Hb Hp He; cbn [skipLeb_loop]; [done|].
  destruct (Z.ltb_spec position end_); [|done].
  destruct (at_lt_Some bytes position) as [b Hbyte]; [lia|]. rewrite Hbyte. cbn [num_or_0].
  pose proof (at_Forall is_byte _ _ _ Hb Hbyte) as Hr. rewrite js_and_80 by done.
  apply at_split in Hbyte as (x & y & -> & <-). unfold is_byte in Hr.
  destruct (Z.ltb_spec b 128); cbn [Z.eqb].
  - intros [= <-]. exists x, [b], y. split_and!; try done; [constructor; lia|lia].
  - intros (a & bs & c & E & Ha & Hbs & -> & Hle)%IH; [|done|lia|done].
    exists x, (b :: bs), c.
    rewrite app_assoc in E. apply app_inj_1 in E as [Ea ->];
      [|unfold blen in *; rewrite length_app; simpl; lia].
    split_and!; try done; [constructor; [lia|done]|blia..].
Qed.

Lemma skipLeb_spec bytes cursor end_ p :
  bytes_ok bytes -> 0 <= cursor -> end_ <= blen bytes ->
  (skipLeb bytes cursor end_ = Ok p) <->
  exists a bs c, bytes = a ++ bs ++ c /\ blen a = cursor /\ leb_bytes bs /\
    p = cursor + blen bs /\ p <= end_.
Proof.
  intros Hb Hc He. split; [by apply skipLeb_loop_sound|].
  intros (a & bs & c & -> & <- & Hbs & -> & Hle). unfold skipLeb.
  apply skipLeb_loop_complete; [done| |done]. unfold blen in *. lia.
Qed.

Lemma readLeb_spec bytes cursor end_ r :
  bytes_ok bytes -> 0 <= cursor -> end_ <= blen bytes ->
  (readLeb bytes cursor end_ = Ok r) <->
  exists a bs c, bytes = a ++ bs ++ c /\ blen a = cursor /\ leb_bytes bs /\ (blen bs <= 8) /\
    r = LebInfo (to_double (leb_value bs)) (cursor + blen bs) /\ cursor + blen bs <= end_.
Proof.
  intros Hb Hc He. unfold readLeb. split.
  - intros H. js_inv H. destruct r as [v n].
    apply decodeUnsignedLeb128_spec in E0 as (a & bs & c & Hv & Ha & Hbs & Hl & [= -> ->]); [|done..].
    exists a, bs, c. cbn [nextOffset] in E1. split_and!; done || lia.
  - intros (a & bs & c & Hv & Ha & Hbs & Hl & -> & Hle).
    pose proof (leb_bytes_nonempty bs Hbs).
    destruct (Z.leb_spec end_ cursor); [lia|].
    rewrite (proj2 (decodeUnsignedLeb128_spec bytes cursor _ Hb Hc)) by eauto 10.
    cbn [rbind nextOffset]. by destruct (Z.ltb_spec end_ (cursor + blen bs)); [lia|].
Qed.

(** ** Properties *)

Lemma decode_word a bs c :
  leb_bytes bs -> blen bs <= 8 -> leb_value bs <= MAX_SAFE_INTEGER ->
  decodeUnsignedLeb128 (a ++ bs ++ c) (blen a) = Ok (LebInfo (leb_value bs) (blen a + blen bs)).
Proof.
  intros Hb Hl Hv. unfold decodeUnsignedLeb128, MAX_SAFE_INTEGER in *. pose proof (leb_value_bound bs).
  rewrite (decode_loop_complete bs Hb) by (unfold blen in Hl; lia).
  do 2 f_equal. rewrite to_double_small; lia.
Qed.

(** Every non-negative safe integer is encoded, and the decoder reads it back wherever
    the encoding stands, with the cursor just after it. *)
Theorem leb128_roundtrip v a c :
  0 <= v <= MAX_SAFE_INTEGER ->
  exists bs, encodeUnsignedLeb128 v = Ok bs /\ 0 < blen bs <= 8 /\
    decodeUnsignedLeb128 (a ++ bs ++ c) (blen a) = Ok (LebInfo v (blen a + blen bs)).
Proof.
  intros Hv. exists (encode_loop 8 v). rewrite encodeUnsignedLeb128_Ok by done.
  destruct (encodeUnsignedLeb128_inv v (encode_loop 8 v)) as (_ & Hb & Hval & Hl);
    [by apply encodeUnsignedLeb128_Ok|].
  pose proof (leb_bytes_nonempty _ Hb). split_and!; [done|lia|lia|].
  rewrite decode_word by (done || lia). by rewrite Hval.
Qed.

Lemma leb128_roundtrip_witness :
  exists bs, encodeUnsignedLeb128 624485 = Ok bs /\ 0 < blen bs <= 8 /\
    decodeUnsignedLeb128 ([9] ++ bs ++ [1; 2]) 1 = Ok (LebInfo 624485 (1 + blen bs)).
Proof. apply (leb128_roundtrip 624485 [9] [1; 2]). vm_compute. split; discriminate. Defined.

(** The padded form of at most eight bytes has the length asked for, or the minimal
    length when that is longer, and decodes to the same value. *)
Theorem padded_leb_roundtrip v width a c :
  0 <= v <= MAX_SAFE_INTEGER -> 0 <= width <= 8 ->
  exists bs minimal, encodeLebAtWidth v width = Ok bs /\ encodeUnsignedLeb128 v = Ok minimal /\
    blen bs = Z.max width (blen minimal) /\
    decodeUnsignedLeb128 (a ++ bs ++ c) (blen a) = Ok (LebInfo v (blen a + blen bs)).
Proof.
  intros Hv Hw. destruct (encodeLebAtWidth v width) as [bs|] eqn:E.
  2: { unfold encodeLebAtWidth in E. rewrite encodeUnsignedLeb128_Ok in E by done.
       cbn [rbind] in E. by destruct (_ || _). }
  exists bs, (encode_loop 8 v). rewrite encodeUnsignedLeb128_Ok by done.
  apply encodeLebAtWidth_inv in E as (_ & Hb & Hval & Hl); [|lia]. split_and!; try done.
  destruct (encodeUnsignedLeb128_inv v (encode_loop 8 v)) as (_ & _ & _ & Hl8);
    [by apply encodeUnsignedLeb128_Ok|].
  rewrite decode_word by (done || lia). by rewrite Hval.
Qed.

Lemma padded_leb_roundtrip_witness :
  exists bs minimal, encodeLebAtWidth 300 5 = Ok bs /\ encodeUnsignedLeb128 300 = Ok minimal /\
    blen bs = Z.max 5 (blen minimal) /\
    decodeUnsignedLeb128 ([] ++ bs ++ [7]) 0 = Ok (LebInfo 300 (0 + blen bs)).
Proof. apply (padded_leb_roundtrip 300 5 [] [7]); vm_compute; split; discriminate. Defined.

(** 2^53 + 1 in eight bytes. *)
Definition unsafe_leb : list Z := [0x81; 0x80; 0x80; 0x80; 0x80; 0x80; 0x80; 0x10].

(** The decoder does not refuse every value beyond the safe integers: an eight-byte word
    for 2^53 + 1 is accepted and read as 2^53. *)
Theorem decode_rounds_unsafe_value :
  leb_value unsafe_leb = 2 ^ 53 + 1 /\ decodeUnsignedLeb128 unsafe_leb 0 = Ok (LebInfo (2 ^ 53) 8).
Proof. split; vm_compute; reflexivity. Qed.
