(* ===== verification/PublicationTrailer.v ===== *)
(** The REC trailer appended to a published module artifact
    (src/transport/records.js, src/bundle/artifactBytes.js).

    A protected artifact is [payload ++ record collection ++ footer]; the footer is the
    collection's length as a little-endian u32 followed by the magic "$REC". The
    collection itself is a FlatBuffer read through the generated SDS classes and the
    flatbuffers runtime, which are outside this repository: [RecCodec] is that codec. *)
From Stdlib Require Import ZArith Lia.
From stdpp Require Import base list strings numbers.
From S2P Require Import Prelude JsText.
Open Scope Z_scope.

(** What the trailer code needs of the REC codec: decoding a record collection, and
    whether the decoded collection carries an ENC record. *)
Class RecCodec (R : Type) := {
  decodePublicationRecordCollection : list Z -> result R;
  has_enc : R -> bool
}.

Definition TRAILER_MAGIC_BYTES : list Z := [0x24; 0x52; 0x45; 0x43].
Definition TRAILER_FOOTER_LENGTH : Z := 8.

(** The loop comparing the magic byte by byte. *)
Definition magic_matches (view : list Z) (footerOffset : Z) : bool :=
  forallb (fun index =>
      bool_decide (at_ view (footerOffset + 4 + index) = at_ TRAILER_MAGIC_BYTES index))
    [0; 1; 2; 3].

(** [null] when there is no footer. *)
Definition readFooterLength (view : list Z) : option Z :=
  if blen view <? TRAILER_FOOTER_LENGTH then None
  else
    let footerOffset := blen view - TRAILER_FOOTER_LENGTH in
    if magic_matches view footerOffset then
      match getUint32 view footerOffset with Ok n => Some n | Throw _ => None end
    else None.

Definition encodeFooter (recordCollectionLength : Z) : result (list Z) :=
  throw_if negb (is_safe_integer recordCollectionLength) || (recordCollectionLength <? 0)
           || (0xffffffff <? recordCollectionLength)
    with RangeError "REC trailer length must fit in uint32.";
  Ok (u32_bytes recordCollectionLength ++ TRAILER_MAGIC_BYTES).

Definition appendPublicationRecordCollection (payload recordCollection : list Z) :
    result (list Z) :=
  let! footer := encodeFooter (blen recordCollection) in
  Ok (payload ++ recordCollection ++ footer).

(** The result of reading a trailer: the decoded collection and the byte ranges. *)
Record publication (R : Type) := Publication {
  decoded : R;
  payloadBytes : list Z;
  protectedBytes : list Z;
  footerBytes : list Z;
  recordCollectionLength : Z
}.
Arguments Publication {R} _ _ _ _ _.
Arguments decoded {R} _.
Arguments payloadBytes {R} _.
Arguments protectedBytes {R} _.
Arguments footerBytes {R} _.
Arguments recordCollectionLength {R} _.

Section trailer.
Context {R : Type} `{!RecCodec R}.

Definition extractPublicationRecordCollection (buffer : list Z) : option (publication R) :=
  match readFooterLength buffer with
  | None => None
  | Some len =>
      let footerOffset := blen buffer - TRAILER_FOOTER_LENGTH in
      let recordCollectionOffset := footerOffset - len in
      if recordCollectionOffset <? 0 then None
      else
        match decodePublicationRecordCollection
                (subarray buffer recordCollectionOffset footerOffset) with
        | Ok d => Some (Publication d (subarray buffer 0 recordCollectionOffset) buffer
                          (subarray_from buffer footerOffset) len)
        | Throw _ => None
        end
  end.

Definition stripPublicationRecordCollection (bytes : list Z) : list Z :=
  match extractPublicationRecordCollection bytes with
  | Some p => payloadBytes p
  | None => bytes
  end.

(** The bytes a wasm engine can compile. *)
Definition toLoadableWasmBytes (bytes : list Z) : result (list Z) :=
  match extractPublicationRecordCollection bytes with
  | None => Ok bytes
  | Some p =>
      throw_if has_enc (decoded p)
        with Error "Module artifact payload is ENC-protected; decrypt it before loading.";
      Ok (payloadBytes p)
  end.

(** ** Facts *)

Lemma magic_matches_app x :
  magic_matches (x ++ TRAILER_MAGIC_BYTES) (blen x - 4) = true.
Proof.
  unfold magic_matches. apply forallb_forall. intros i Hi. apply bool_decide_eq_true_2.
  replace (blen x - 4 + 4 + i) with (blen x + i) by lia.
  apply at_app_off. simpl in Hi. lia.
Qed.

Lemma encodeFooter_Ok n :
  0 <= n < 2 ^ 32 -> encodeFooter n = Ok (u32_bytes n ++ TRAILER_MAGIC_BYTES).
Proof.
  intros Hn. unfold encodeFooter, is_safe_integer.
  destruct (Z.leb_spec (- MAX_SAFE_INTEGER) n); [|unfold MAX_SAFE_INTEGER in *; lia].
  destruct (Z.leb_spec n MAX_SAFE_INTEGER); [|unfold MAX_SAFE_INTEGER in *; lia].
  destruct (Z.ltb_spec n 0); [lia|]. by destruct (Z.ltb_spec 0xffffffff n); [lia|].
Qed.

Lemma readFooterLength_app x n :
  0 <= n < 2 ^ 32 ->
  readFooterLength (x ++ u32_bytes n ++ TRAILER_MAGIC_BYTES) = Some n.
Proof.
  intros Hn. unfold readFooterLength, TRAILER_FOOTER_LENGTH.
  assert (Hl : blen (x ++ u32_bytes n ++ TRAILER_MAGIC_BYTES) = blen x + 8) by (rewrite !blen_app; done).
  pose proof (blen_nonneg x). rewrite Hl. destruct (Z.ltb_spec (blen x + 8) 8); [lia|].
  replace (blen x + 8 - 8) with (blen x) by lia.
  rewrite getUint32_app by done.
  pose proof (magic_matches_app (x ++ u32_bytes n)) as Hm.
  rewrite <- app_assoc in Hm. replace (blen (x ++ u32_bytes n) - 4) with (blen x) in Hm by blia.
  by rewrite Hm.
Qed.

Lemma extract_append payload rc r :
  blen rc < 2 ^ 32 -> decodePublicationRecordCollection rc = Ok r ->
  let footer := u32_bytes (blen rc) ++ TRAILER_MAGIC_BYTES in
  appendPublicationRecordCollection payload rc = Ok (payload ++ rc ++ footer) /\
  extractPublicationRecordCollection (payload ++ rc ++ footer)
    = Some (Publication r payload (payload ++ rc ++ footer) footer (blen rc)).
Proof.
  intros Hl Hr footer. pose proof (blen_nonneg rc). pose proof (blen_nonneg payload).
  unfold appendPublicationRecordCollection. rewrite encodeFooter_Ok by lia. split; [done|].
  unfold extractPublicationRecordCollection.
  assert (Hrd : readFooterLength (payload ++ rc ++ footer) = Some (blen rc)).
  { unfold footer. rewrite app_assoc. apply readFooterLength_app. lia. }
  rewrite Hrd. unfold TRAILER_FOOTER_LENGTH.
  assert (Hb : blen (payload ++ rc ++ footer) = blen payload + blen rc + 8)
    by (rewrite !blen_app; unfold footer; rewrite blen_app; change (blen TRAILER_MAGIC_BYTES) with 4; blia).
  rewrite Hb.
  destruct (Z.ltb_spec (blen payload + blen rc + 8 - 8 - blen rc) 0); [lia|].
  rewrite (subarray_app payload rc footer) by lia. rewrite Hr.
  do 2 f_equal.
  - apply (subarray_app [] payload (rc ++ footer)); [done|]. change (blen (@nil Z)) with 0. lia.
  - rewrite app_assoc. apply subarray_from_app. rewrite blen_app. lia.
Qed.

(** Extraction splits the input: nothing is lost and the parts are in order. *)
Lemma extract_inv b p :
  bytes_ok b -> extractPublicationRecordCollection b = Some p ->
  exists rc, b = payloadBytes p ++ rc ++ footerBytes p /\
    decodePublicationRecordCollection rc = Ok (decoded p) /\
    blen rc = recordCollectionLength p /\ blen (footerBytes p) = 8 /\ protectedBytes p = b.
Proof.
  intros Hb. unfold extractPublicationRecordCollection.
  destruct (readFooterLength b) as [len|] eqn:E; [|done].
  assert (Hlen : 8 <= blen b /\ 0 <= len).
  { unfold readFooterLength, TRAILER_FOOTER_LENGTH in E.
    destruct (Z.ltb_spec (blen b) 8); [done|]. destruct (magic_matches _ _); [|done].
    destruct (getUint32 _ _) eqn:Eg; [|done]. injection E as <-.
    apply getUint32_range in Eg; [lia|done]. }
  unfold TRAILER_FOOTER_LENGTH.
  destruct (Z.ltb_spec (blen b - 8 - len) 0); [done|].
  destruct (decodePublicationRecordCollection _) as [d|] eqn:Ed; [|done].
  intros [= <-]. cbn [payloadBytes footerBytes decoded recordCollectionLength protectedBytes].
  destruct (subarray_split b (blen b - 8 - len) (blen b - 8)) as (u & v & Huv & Hu & Hm); [lia..|].
  set (m := subarray b (blen b - 8 - len) (blen b - 8)) in *. exists m.
  assert (Hsp : subarray b 0 (blen b - 8 - len) = u).
  { rewrite Huv at 1. apply (subarray_app [] u (m ++ v)); [done|].
    change (blen (@nil Z)) with 0. lia. }
  assert (Hsf : subarray_from b (blen b - 8) = v).
  { rewrite Huv at 1. rewrite app_assoc. apply subarray_from_app. rewrite blen_app. lia. }
  rewrite Hsp, Hsf. split_and!; try done; [lia|].
  apply (f_equal blen) in Huv. rewrite !blen_app in Huv. lia.
Qed.

(** Appending a record collection and extracting it again gives back the payload, the
    decoded collection and the trailer's parts; the loader gets the payload, unless the
    collection says the payload is encrypted. *)
Theorem trailer_roundtrip payload rc r :
  blen rc < 2 ^ 32 -> decodePublicationRecordCollection rc = Ok r ->
  exists out footer, appendPublicationRecordCollection payload rc = Ok out /\
    out = payload ++ rc ++ footer /\
    extractPublicationRecordCollection out = Some (Publication r payload out footer (blen rc)) /\
    stripPublicationRecordCollection out = payload /\
    (has_enc r = false -> toLoadableWasmBytes out = Ok payload) /\
    (has_enc r = true -> is_ok (toLoadableWasmBytes out) = false).
Proof.
  intros Hl Hr. destruct (extract_append payload rc r Hl Hr) as [Ha He].
  eexists _, _. split_and!; [exact Ha|done|exact He|..].
  - unfold stripPublicationRecordCollection. by rewrite He.
  - intros Hn. unfold toLoadableWasmBytes. rewrite He. cbn [decoded payloadBytes]. by rewrite Hn.
  - intros Hn. unfold toLoadableWasmBytes. rewrite He. cbn [decoded]. by rewrite Hn.
Qed.

(** Whatever the input, an extracted trailer cuts it into payload, record collection and
    an eight-byte footer that together are the input, and the collection decodes to the
    record returned. *)
Theorem extraction_splits_input b p :
  bytes_ok b -> extractPublicationRecordCollection b = Some p ->
  exists rc, b = payloadBytes p ++ rc ++ footerBytes p /\
    decodePublicationRecordCollection rc = Ok (decoded p) /\
    blen rc = recordCollectionLength p /\ blen (footerBytes p) = 8 /\ protectedBytes p = b.
Proof. apply extract_inv. Qed.

End trailer.

(** A codec that keeps the collection as its bytes; used for concrete inputs. *)
Definition raw_codec : RecCodec (list Z) :=
  {| decodePublicationRecordCollection := fun b => Ok b; has_enc := fun _ => false |}.

#[local] Existing Instance raw_codec.

Lemma trailer_roundtrip_witness :
  exists out, appendPublicationRecordCollection [0; 97] [5; 6; 7] = Ok out /\
    toLoadableWasmBytes out = Ok [0; 97].
Proof.
  destruct (trailer_roundtrip [0; 97] [5; 6; 7] [5; 6; 7]) as (out & f & Ha & _ & _ & _ & Hld & _);
    [by vm_compute|reflexivity|].
  exists out. split; [exact Ha|]. by apply Hld.
Defined.

Lemma extraction_splits_input_witness :
  exists rc, [1; 9; 1; 0; 0; 0; 36; 82; 69; 67] = [1] ++ rc ++ [1; 0; 0; 0; 36; 82; 69; 67].
Proof.
  destruct (extraction_splits_input [1; 9; 1; 0; 0; 0; 36; 82; 69; 67]
    (Publication [9] [1] [1; 9; 1; 0; 0; 0; 36; 82; 69; 67] [1; 0; 0; 0; 36; 82; 69; 67] 1))
    as (rc & H & _); [closed_bytes|by vm_compute|].
  by exists rc.
Defined.
