(* ===== verification/WasmSections.v ===== *)
(** WebAssembly module sections (src/bundle/wasm.js).

    [parseWasmModuleSections] cuts a module into its sections, [stripWasmCustomSections]
    and [appendWasmCustomSection] rewrite the list of custom sections, and
    [canonicalWasmBytes] is the byte string whose hash identifies a module. The parser
    is specified against [section_bytes], the binary form of one section. *)
From Stdlib Require Import ZArith Lia.
From stdpp Require Import base list strings numbers.
From S2P Require Import Prelude JsText Leb128 PublicationTrailer.
Open Scope Z_scope.

Definition WASM_MAGIC : list Z := [0x00; 0x61; 0x73; 0x6d].
Definition WASM_VERSION_1 : list Z := [0x01; 0x00; 0x00; 0x00].

(** The fields [Object.assign] adds to a custom section (id 0). *)
Record custom_info := CustomInfo {
  name : jsstring;
  nameStart : Z;
  nameEnd : Z;
  dataStart : Z;
  dataEnd : Z;
  dataBytes : list Z
}.

Record section := MkSection {
  id : Z;
  start : Z;
  end_ : Z;
  payloadStart : Z;
  payloadEnd : Z;
  size : Z;
  rawBytes : list Z;
  custom : option custom_info
}.

Record parsed_module := ParsedModule {
  bytes : list Z;
  headerBytes : list Z;
  sections : list section
}.

(** The four magic and four version bytes, compared pairwise. *)
Fixpoint check_header (wasmBytes : list Z) (indices : list Z) : result unit :=
  match indices with
  | [] => Ok tt
  | index :: rest =>
      throw_if negb (bool_decide (at_ wasmBytes index = at_ WASM_MAGIC index))
        with Error "WASM magic header mismatch.";
      throw_if negb (bool_decide (at_ wasmBytes (index + 4) = at_ WASM_VERSION_1 index))
        with Error "Unsupported WASM version header.";
      check_header wasmBytes rest
  end.

(** The body of the section loop at [offset]. *)
Definition parse_section (wasmBytes : list Z) (offset : Z) : result section :=
  let start := offset in
  let id := num_or_0 (at_ wasmBytes offset) in
  let! sizeInfo := decodeUnsignedLeb128 wasmBytes (offset + 1) in
  let payloadStart := nextOffset sizeInfo in
  let payloadEnd := num_add payloadStart (value sizeInfo) in
  throw_if blen wasmBytes <? payloadEnd with Error "WASM section extends past end of file.";
  let! custom :=
    (if id =? 0 then
       let! nameInfo := decodeUnsignedLeb128 wasmBytes payloadStart in
       let nameStart := nextOffset nameInfo in
       let nameEnd := num_add nameStart (value nameInfo) in
       throw_if payloadEnd <? nameEnd with Error "WASM custom section name extends past payload.";
       Ok (Some (CustomInfo (text_decode (subarray wasmBytes nameStart nameEnd))
                   nameStart nameEnd nameEnd payloadEnd
                   (subarray wasmBytes nameEnd payloadEnd)))
     else Ok None) in
  Ok (MkSection id start payloadEnd payloadStart payloadEnd (value sizeInfo)
        (subarray wasmBytes start payloadEnd) custom).

(** The section loop. A section takes at least two bytes, so the number of bytes bounds
    the number of rounds. *)
Fixpoint parse_loop (fuel : nat) (wasmBytes : list Z) (offset : Z) : result (list section) :=
  if offset <? blen wasmBytes then
    match fuel with
    | O => Throw (Error "fuel")
    | S fuel' =>
        let! s := parse_section wasmBytes offset in
        let! rest := parse_loop fuel' wasmBytes (payloadEnd s) in
        Ok (s :: rest)
    end
  else
    throw_if negb (offset =? blen wasmBytes)
      with Error "WASM parser ended on a non-terminal offset.";
    Ok [].

(** Parsing of the wasm bytes themselves, after the trailer was removed. *)
Definition parse_wasm (wasmBytes : list Z) : result parsed_module :=
  throw_if blen wasmBytes <? 8 with Error "WASM module is truncated.";
  let! _ := check_header wasmBytes [0; 1; 2; 3] in
  let! sections := parse_loop (length wasmBytes) wasmBytes 8 in
  Ok (ParsedModule wasmBytes (subarray wasmBytes 0 8) sections).

Definition concatBytes (chunks : list (list Z)) : list Z := concat chunks.

Definition encodeWasmCustomSection (name : jsstring) (payloadBytes : list Z) : result (list Z) :=
  let normalizedName := trim name in
  throw_if bool_decide (normalizedName = []) with Error "Custom section name is required.";
  let nameBytes := text_encode normalizedName in
  let! nameLengthBytes := encodeUnsignedLeb128 (blen nameBytes) in
  let sectionSize := blen nameLengthBytes + blen nameBytes + blen payloadBytes in
  let! sectionSizeBytes := encodeUnsignedLeb128 sectionSize in
  Ok (concatBytes [[0]; sectionSizeBytes; nameLengthBytes; nameBytes; payloadBytes]).

Definition appendWasmCustomSection (wasm : list Z) (name : jsstring) (payload : list Z) :
    result (list Z) :=
  let! section := encodeWasmCustomSection name payload in
  Ok (concatBytes [wasm; section]).

Section with_trailer.
Context {R : Type} `{!RecCodec R}.

Definition parseWasmModuleSections (input : list Z) : result parsed_module :=
  parse_wasm (stripPublicationRecordCollection input).

(** [{ name, dataBytes, start, end }] of each custom section. *)
Definition listWasmCustomSections (input : list Z) : result (list (jsstring * list Z * Z * Z)) :=
  let! parsed := parseWasmModuleSections input in
  Ok (omap (fun s => match custom s with
                     | Some c => Some (name c, dataBytes c, start s, end_ s)
                     | None => None
                     end) (sections parsed)).

Definition getWasmCustomSections (input : list Z) (wanted : jsstring) : result (list (list Z)) :=
  let! listed := listWasmCustomSections input in
  Ok (map (fun s => match s with (_, d, _, _) => d end)
        (List.filter (fun s => match s with (n, _, _, _) => str_eqb n wanted end) listed)).

(** Custom sections for which [predicate] holds are dropped. *)
Definition stripWasmCustomSections (input : list Z) (predicate : custom_info -> bool) :
    result (list Z) :=
  let! parsed := parseWasmModuleSections input in
  Ok (concatBytes (headerBytes parsed ::
    omap (fun s =>
      match custom s with
      | Some c => if predicate c then None
                  else Some (subarray (bytes parsed) (start s) (end_ s))
      | None => Some (subarray (bytes parsed) (start s) (end_ s))
      end) (sections parsed))).

Definition SDS_CUSTOM_SECTION_PREFIX : jsstring := lit "sds.".

(** The bytes [computeCanonicalModuleHash] hashes. *)
Definition canonicalWasmBytes (input : list Z) (prefix : jsstring) : result (list Z) :=
  stripWasmCustomSections (stripPublicationRecordCollection input)
    (fun section => startsWith (name section) prefix).

End with_trailer.

(** ** The binary form of a section *)

(** [section_bytes off raw s]: [raw] is the encoding of section [s] placed at [off]. *)
Inductive section_bytes (off : Z) : list Z -> section -> Prop :=
| sb_plain i sz payload :
    is_byte i -> i <> 0 -> leb_bytes sz -> blen sz <= 8 -> leb_value sz = blen payload ->
    section_bytes off ([i] ++ sz ++ payload)
      (MkSection i off (off + 1 + blen sz + blen payload) (off + 1 + blen sz)
         (off + 1 + blen sz + blen payload) (blen payload) ([i] ++ sz ++ payload) None)
| sb_custom sz nl nm data :
    leb_bytes sz -> blen sz <= 8 -> leb_value sz = blen nl + blen nm + blen data ->
    leb_bytes nl -> blen nl <= 8 -> leb_value nl = blen nm ->
    let p := off + 1 + blen sz in
    let n := p + blen nl in
    section_bytes off ([0] ++ sz ++ nl ++ nm ++ data)
      (MkSection 0 off (n + blen nm + blen data) p (n + blen nm + blen data)
         (blen nl + blen nm + blen data) ([0] ++ sz ++ nl ++ nm ++ data)
         (Some (CustomInfo (text_decode nm) n (n + blen nm) (n + blen nm)
                  (n + blen nm + blen data) data))).

(** A sequence of sections laid out from [off] on. *)
Inductive sections_bytes : Z -> list Z -> list section -> Prop :=
| sbs_nil off : sections_bytes off [] []
| sbs_cons off raw s rest ss :
    section_bytes off raw s -> sections_bytes (off + blen raw) rest ss ->
    sections_bytes off (raw ++ rest) (s :: ss).

#[export] Hint Constructors section_bytes sections_bytes : js.

Lemma section_bytes_geometry off raw s :
  section_bytes off raw s ->
  rawBytes s = raw /\ start s = off /\ end_ s = off + blen raw /\ payloadEnd s = off + blen raw /\
  off + 2 <= payloadEnd s.
Proof.
  destruct 1; cbn [rawBytes start end_ payloadEnd]; subst;
    repeat match goal with H : leb_bytes ?b |- _ => apply leb_bytes_nonempty in H end;
    split_and!; try done; subst p n || idtac; blia.
Qed.

Lemma section_bytes_custom off raw s :
  section_bytes off raw s -> is_Some (custom s) <-> id s = 0.
Proof. destruct 1; cbn; split; done. Qed.

Lemma decode_leb_at a sz c :
  leb_bytes sz -> blen sz <= 8 -> leb_value sz < 2 ^ 53 ->
  decodeUnsignedLeb128 (a ++ sz ++ c) (blen a) = Ok (LebInfo (leb_value sz) (blen a + blen sz)).
Proof.
  intros Hsz Hl Hv. unfold decodeUnsignedLeb128.
  rewrite (decode_loop_complete sz Hsz) by (unfold blen in Hl; lia).
  rewrite Z.pow_0_r, Z.mul_1_l, Z.add_0_l. pose proof (leb_value_bound sz).
  by rewrite to_double_small by lia.
Qed.

Lemma parse_section_complete a raw c s :
  section_bytes (blen a) raw s -> blen (a ++ raw ++ c) < 2 ^ 53 ->
  parse_section (a ++ raw ++ c) (blen a) = Ok s.
Proof.
  intros Hs Hl. unfold parse_section. rewrite at_app_here.
  destruct Hs as [i sz payload Hi Hi0 Hsz Hsl Hv|sz nl nm data Hsz Hsl Hv Hnl Hnll Hnv p n].
  - change (a ++ ([i] ++ sz ++ payload) ++ c) with (a ++ [i] ++ (sz ++ payload) ++ c) in *.
    cbn [app]. rewrite at_cons_0. cbn [num_or_0].
    assert (Hd : decodeUnsignedLeb128 (a ++ i :: (sz ++ payload) ++ c) (blen a + 1)
                 = Ok (LebInfo (blen payload) (blen a + 1 + blen sz))).
    { replace (a ++ i :: (sz ++ payload) ++ c) with ((a ++ [i]) ++ sz ++ payload ++ c)
        by app_eq.
      replace (blen a + 1) with (blen (a ++ [i])) by (rewrite blen_app; done).
      rewrite decode_leb_at by (rewrite ?Hv; done || blia). by rewrite Hv. }
    rewrite Hd. cbn [rbind nextOffset value].
    rewrite num_add_small by blia.
    destruct (Z.ltb_spec (blen (a ++ i :: (sz ++ payload) ++ c)) (blen a + 1 + blen sz + blen payload));
      [blia|].
    destruct (Z.eqb_spec i 0); [lia|]. cbn [rbind]. do 2 f_equal.
    change (i :: (sz ++ payload) ++ c) with (([i] ++ sz ++ payload) ++ c).
    apply subarray_app; blia.
  - change (a ++ ([0] ++ sz ++ nl ++ nm ++ data) ++ c)
      with (a ++ [0] ++ (sz ++ nl ++ nm ++ data) ++ c) in *.
    cbn [app]. rewrite at_cons_0. cbn [num_or_0].
    set (w := a ++ 0 :: (sz ++ nl ++ nm ++ data) ++ c) in *.
    assert (Hd : decodeUnsignedLeb128 w (blen a + 1)
                 = Ok (LebInfo (blen nl + blen nm + blen data) p)).
    { replace w with ((a ++ [0]) ++ sz ++ nl ++ nm ++ data ++ c)
        by (unfold w; app_eq).
      replace (blen a + 1) with (blen (a ++ [0])) by (rewrite blen_app; done).
      rewrite decode_leb_at by (rewrite ?Hv; done || blia). rewrite Hv. do 2 f_equal.
      unfold p. blia. }
    assert (Hwn : w = (a ++ [0] ++ sz) ++ nl ++ nm ++ data ++ c)
      by (unfold w; app_eq).
    assert (Hdn : decodeUnsignedLeb128 w p = Ok (LebInfo (blen nm) n)).
    { rewrite Hwn. replace p with (blen (a ++ [0] ++ sz)) by (unfold p; blia).
      rewrite decode_leb_at by (rewrite ?Hnv; done || blia). rewrite Hnv. do 2 f_equal.
      unfold n, p. blia. }
    rewrite Hd. cbn [rbind nextOffset value]. rewrite num_add_small by (unfold p; blia).
    destruct (Z.ltb_spec (blen w) (p + (blen nl + blen nm + blen data))); [unfold p, w in *; blia|].
    rewrite Z.eqb_refl, Hdn. cbn [rbind nextOffset value].
    rewrite num_add_small by (unfold n, p; blia).
    destruct (Z.ltb_spec (p + (blen nl + blen nm + blen data)) (n + blen nm)); [unfold n in *; blia|].
    cbn [rbind].
    replace (p + (blen nl + blen nm + blen data)) with (n + blen nm + blen data) by (unfold n; lia).
    assert (Hn1 : subarray w n (n + blen nm) = nm).
    { rewrite Hwn, app_assoc. apply subarray_app; unfold n, p; blia. }
    assert (Hn2 : subarray w (n + blen nm) (n + blen nm + blen data) = data).
    { rewrite Hwn.
      replace ((a ++ [0] ++ sz) ++ nl ++ nm ++ data ++ c)
        with (((a ++ [0] ++ sz) ++ nl ++ nm) ++ data ++ c) by app_eq.
      apply subarray_app; unfold n, p; blia. }
    assert (Hr : subarray w (blen a) (n + blen nm + blen data) = 0 :: sz ++ nl ++ nm ++ data).
    { unfold w. change (0 :: (sz ++ nl ++ nm ++ data) ++ c) with ((0 :: sz ++ nl ++ nm ++ data) ++ c).
      apply subarray_app; unfold n, p; blia. }
    by rewrite Hn1, Hn2, Hr.
Qed.

(** The size of a section or name that fits the file was read exactly. *)
Lemma num_add_leb p v len :
  0 <= p -> 0 <= v -> len < 2 ^ 53 -> num_add p (to_double v) <= len ->
  num_add p (to_double v) = p + v /\ p + v <= len.
Proof.
  intros Hp Hv Hl H.
  assert (Hd : 0 <= to_double v).
  { destruct (Z_lt_ge_dec (to_double v) (2 ^ 53)); [rewrite to_double_exact; lia|lia]. }
  rewrite num_add_exact in * by lia. rewrite to_double_exact in * by lia. lia.
Qed.

Lemma parse_section_sound w off s :
  bytes_ok w -> 0 <= off < blen w -> blen w < 2 ^ 53 -> parse_section w off = Ok s ->
  exists a raw c, w = a ++ raw ++ c /\ blen a = off /\ section_bytes off raw s.
Proof.
  intros Hb Ho Hw H.
  enough (exists a raw c s', w = a ++ raw ++ c /\ blen a = off /\ section_bytes off raw s')
    as (a & raw & c & s' & -> & <- & Hs).
  { exists a, raw, c. split_and!; try done.
    rewrite (parse_section_complete _ _ _ _ Hs Hw) in H. by injection H as <-. }
  unfold parse_section in H.
  destruct (at_lt_Some w off) as [i Hi]; [lia|]. rewrite Hi in H. cbn [num_or_0] in H.
  pose proof (at_Forall _ _ _ _ Hb Hi) as Hib.
  apply at_split in Hi as (a & q & Hq & Ha).
  destruct (decodeUnsignedLeb128 w (off + 1)) as [[v p]|] eqn:Ed; [|done]. cbn [rbind] in H.
  apply decodeUnsignedLeb128_spec in Ed as (a1 & sz & c1 & Hw1 & Ha1 & Hsz & Hsl & [= -> ->]);
    [|done|lia].
  cbn [value nextOffset] in H.
  assert (a1 = a ++ [i] /\ sz ++ c1 = q) as [-> <-].
  { apply app_inj_len; [blia|]. rewrite <- Hw1, Hq. app_eq. }
  pose proof (leb_value_bound sz) as Hvb.
  destruct (Z.ltb_spec (blen w) (num_add (off + 1 + blen sz) (to_double (leb_value sz))))
    as [|Hfit]; [done|].
  apply num_add_leb in Hfit as [Hpe Hfit]; [|blia|lia|done]. rewrite Hpe in H.
  assert (Hc1 : leb_value sz <= blen c1) by (rewrite Hq in Hfit; blia).
  destruct (Z.eqb_spec i 0) as [->|Hi0].
  - destruct (decodeUnsignedLeb128 w (off + 1 + blen sz)) as [[v p]|] eqn:Ed; [|done].
    apply decodeUnsignedLeb128_spec in Ed as (a2 & nl & c2 & Hw2 & Ha2 & Hnl & Hnll & [= -> ->]);
      [|done|blia].
    cbn [rbind value nextOffset] in H.
    assert (a2 = (a ++ [0]) ++ sz /\ nl ++ c2 = c1) as [-> <-].
    { apply app_inj_len; [blia|]. rewrite <- Hw2, Hw1. app_eq. }
    pose proof (leb_value_bound nl) as Hnb.
    destruct (Z.ltb_spec (off + 1 + blen sz + leb_value sz)
      (num_add (off + 1 + blen sz + blen nl) (to_double (leb_value nl)))) as [|Hn]; [done|].
    apply num_add_leb in Hn as [_ Hn]; [|blia|lia|lia].
    destruct (split_len c2 (leb_value nl)) as (nm & c3 & -> & Hnm); [blia|].
    destruct (split_len c3 (leb_value sz - blen nl - blen nm)) as (data & c & -> & Hdata); [blia|].
    eexists a, _, c, _. split; [|split; [done|]].
    2: { apply (sb_custom off sz nl nm data); done || lia. }
    rewrite Hq. app_eq.
  - destruct (split_len c1 (leb_value sz)) as (payload & c & -> & Hp); [lia|].
    eexists a, _, c, _. split; [|split; [done|]].
    2: { apply (sb_plain off i sz payload); done. }
    rewrite Hq. app_eq.
Qed.

Lemma parse_loop_complete off rest ss : sections_bytes off rest ss -> forall fuel a,
  blen a = off -> (length rest <= fuel)%nat -> blen (a ++ rest) < 2 ^ 53 ->
  parse_loop fuel (a ++ rest) off = Ok ss.
Proof.
  induction 1 as [off|off raw s rest ss Hs _ IH]; intros fuel a Ha Hf Hl.
  - rewrite app_nil_r, <- Ha. destruct fuel; cbn [parse_loop];
      rewrite Z.ltb_irrefl, Z.eqb_refl; done.
  - pose proof (section_bytes_geometry _ _ _ Hs) as (_ & _ & _ & Hp & Hge).
    destruct fuel as [|fuel]; [rewrite length_app in Hf; unfold blen in *; lia|].
    cbn [parse_loop]. destruct (Z.ltb_spec off (blen (a ++ raw ++ rest))); [|blia].
    rewrite <- Ha in Hs |- *. rewrite (parse_section_complete _ _ _ _ Hs Hl). cbn [rbind].
    rewrite Hp, app_assoc, IH; [done|rewrite blen_app; lia| |by rewrite <- app_assoc].
    rewrite length_app in Hf. unfold blen in *. lia.
Qed.

Lemma parse_loop_sound fuel : forall w off ss,
  bytes_ok w -> 0 <= off <= blen w -> blen w < 2 ^ 53 -> parse_loop fuel w off = Ok ss ->
  exists a rest, w = a ++ rest /\ blen a = off /\ sections_bytes off rest ss.
Proof.
  induction fuel as [|fuel IH]; intros w off ss Hb Ho Hw; cbn [parse_loop];
    (destruct (Z.ltb_spec off (blen w));
      [|destruct (Z.eqb_spec off (blen w)) as [->|]; [|done]; intros [= <-];
        exists w, []; rewrite app_nil_r; auto with js]); [done|].
  intros H1. js_inv H1.
  apply parse_section_sound in E as (a & raw & c & -> & <- & Hs); [|done|lia|done].
  pose proof (section_bytes_geometry _ _ _ Hs) as (_ & _ & _ & Hp & _). rewrite Hp in E0.
  apply IH in E0 as (a' & rest & Hr & Ha' & Hss); [|done|blia|done].
  exists a, (raw ++ rest). split_and!; [|done|by constructor].
  rewrite app_assoc in Hr. apply app_inj_len in Hr as [_ ->]; [app_eq|blia].
Qed.

Definition WASM_HEADER : list Z := WASM_MAGIC ++ WASM_VERSION_1.

Lemma check_header_spec w :
  8 <= blen w ->
  (check_header w [0; 1; 2; 3] = Ok tt) <-> exists rest, w = WASM_HEADER ++ rest.
Proof.
  intros Hl. split.
  - do 8 (destruct w as [|? w]; [unfold blen in Hl; simpl in Hl; lia|]).
    cbn [check_header]. unfold at_, WASM_MAGIC, WASM_VERSION_1. simpl. intros H.
    repeat (case_bool_decide; simpl in H; [|done]). simplify_eq. by exists w.
  - intros [rest ->]. reflexivity.
Qed.

Lemma parse_wasm_complete rest ss :
  sections_bytes 8 rest ss -> blen (WASM_HEADER ++ rest) < 2 ^ 53 ->
  parse_wasm (WASM_HEADER ++ rest) = Ok (ParsedModule (WASM_HEADER ++ rest) WASM_HEADER ss).
Proof.
  intros Hss Hw. unfold parse_wasm.
  destruct (Z.ltb_spec (blen (WASM_HEADER ++ rest)) 8);
    [rewrite blen_app in *; change (blen WASM_HEADER) with 8 in *; blia|].
  rewrite (proj2 (check_header_spec _ H)) by eauto. cbn [rbind].
  rewrite (parse_loop_complete 8 rest ss Hss); [|done|rewrite length_app; lia|done].
  cbn [rbind]. do 2 f_equal. by apply (subarray_app [] WASM_HEADER rest).
Qed.

(** The parser accepts exactly a header followed by a sequence of sections. *)
Lemma parse_wasm_spec w m :
  bytes_ok w -> blen w < 2 ^ 53 ->
  (parse_wasm w = Ok m) <->
  exists rest ss, w = WASM_HEADER ++ rest /\ sections_bytes 8 rest ss /\
    m = ParsedModule w WASM_HEADER ss.
Proof.
  intros Hb Hw. split.
  - unfold parse_wasm. intros H. js_inv H. apply Z.ltb_ge in E. destruct x.
    apply check_header_spec in E0 as [rest ->]; [|done].
    apply parse_loop_sound in E1 as (a & r & Hr & Ha & Hss); [|done|lia|done].
    apply app_inj_len in Hr as [<- ->]; [|done]. exists r, x0. split_and!; try done.
    f_equal. by apply (subarray_app [] WASM_HEADER r).
  - intros (rest & ss & -> & Hss & ->). by apply parse_wasm_complete.
Qed.

Lemma sections_bytes_app off x ss y tt :
  sections_bytes off x ss -> sections_bytes (off + blen x) y tt ->
  sections_bytes off (x ++ y) (ss ++ tt).
Proof.
  induction 1 as [off|off raw s rest ss Hs _ IH]; intros Hy.
  - change (blen (@nil Z)) with 0 in Hy. by rewrite Z.add_0_r in Hy.
  - rewrite <- app_assoc. constructor; [done|]. apply IH.
    replace (off + blen raw + blen rest) with (off + blen (raw ++ rest)) by blia. done.
Qed.

Lemma sections_bytes_raw off rest ss :
  sections_bytes off rest ss -> concat (map rawBytes ss) = rest.
Proof.
  induction 1 as [|off raw s rest ss Hs _ IH]; [done|]. cbn [map concat].
  by rewrite IH, (proj1 (section_bytes_geometry _ _ _ Hs)).
Qed.

(** The bytes between a parsed section's [start] and [end_] are its encoding. *)
Lemma sections_bytes_slices off rest ss : sections_bytes off rest ss -> forall a c,
  blen a = off -> Forall (fun s => subarray (a ++ rest ++ c) (start s) (end_ s) = rawBytes s) ss.
Proof.
  induction 1 as [|off raw s rest ss Hs Hss IH]; intros a c Ha; constructor.
  - destruct (section_bytes_geometry _ _ _ Hs) as (-> & -> & -> & _).
    rewrite <- app_assoc. apply subarray_app; lia.
  - replace (a ++ (raw ++ rest) ++ c) with ((a ++ raw) ++ rest ++ c) by app_eq.
    apply IH. blia.
Qed.

(** What a section says, whatever its position. *)
Definition content (s : section) : Z * list Z * option (jsstring * list Z) :=
  (id s, rawBytes s, (fun c => (name c, dataBytes c)) <$> custom s).

Lemma section_bytes_move off raw s off' :
  section_bytes off raw s -> exists s', section_bytes off' raw s' /\ content s' = content s.
Proof. destruct 1; eexists; split; eauto with js. Qed.

(** Keep the sections for which [keep] holds. *)
Definition kept (keep : section -> bool) (ss : list section) : list section := List.filter keep ss.

Lemma sections_bytes_kept keep off rest ss :
  sections_bytes off rest ss -> forall off',
  exists ss', sections_bytes off' (concat (map rawBytes (kept keep ss))) ss' /\
    map content ss' = map content (kept keep ss).
Proof.
  induction 1 as [|off raw s rest ss Hs _ IH]; intros off'; [exists []; split; [constructor|done]|].
  unfold kept. cbn [List.filter]. destruct (keep s); [|apply IH]. cbn [map concat].
  destruct (section_bytes_geometry _ _ _ Hs) as (-> & _).
  destruct (section_bytes_move _ _ _ off' Hs) as (s' & Hs' & Hc).
  destruct (IH (off' + blen raw)) as (ss' & Hss' & Hcs). exists (s' :: ss').
  split; [by constructor|]. cbn [map]. by rewrite Hc, Hcs.
Qed.

(** A predicate on names, as [stripWasmCustomSections] uses it. *)
Definition survives (drop_name : jsstring -> bool) (s : section) : bool :=
  match custom s with Some c => negb (drop_name (name c)) | None => true end.

Lemma survives_content f s s' : content s = content s' -> survives f s = survives f s'.
Proof.
  unfold content, survives. intros [= _ _ H].
  destruct (custom s), (custom s'); simpl in H; simplify_eq; congruence.
Qed.

Lemma kept_content f ss ss' :
  map content ss = map content ss' ->
  map content (kept (survives f) ss) = map content (kept (survives f) ss') /\
  concat (map rawBytes (kept (survives f) ss)) = concat (map rawBytes (kept (survives f) ss')).
Proof.
  revert ss'. induction ss as [|s ss IH]; intros [|s' ss']; try done.
  cbn [map]. intros [= H1 H2 H3 H4]. destruct (IH _ H4) as [IH1 IH2].
  assert (Hc : content s = content s') by (unfold content; congruence).
  unfold kept. cbn [List.filter]. rewrite (survives_content f s s' Hc).
  destruct (survives f s'); [|done]. cbn [map concat]. unfold kept in IH1, IH2.
  by rewrite Hc, IH1, IH2, H2.
Qed.

Lemma kept_idem f ss : kept f (kept f ss) = kept f ss.
Proof.
  unfold kept. induction ss as [|s ss IH]; [done|]. cbn [List.filter].
  destruct (f s) eqn:E; [|done]. cbn [List.filter]. by rewrite E, IH.
Qed.

Section stripping.
Context {R : Type} `{!RecCodec R}.
Implicit Types (w : list Z) (f : jsstring -> bool).

Lemma no_trailer w :
  extractPublicationRecordCollection (R:=R) w = None ->
  stripPublicationRecordCollection (R:=R) w = w.
Proof. unfold stripPublicationRecordCollection. by intros ->. Qed.

Lemma strip_Ok w f rest ss :
  extractPublicationRecordCollection (R:=R) w = None ->
  bytes_ok w -> blen w < 2 ^ 53 -> w = WASM_HEADER ++ rest -> sections_bytes 8 rest ss ->
  stripWasmCustomSections w (fun c => f (name c))
    = Ok (WASM_HEADER ++ concat (map rawBytes (kept (survives f) ss))).
Proof.
  intros Hx Hb Hl Hw Hss. unfold stripWasmCustomSections, parseWasmModuleSections.
  rewrite no_trailer by done.
  rewrite (proj2 (parse_wasm_spec w _ Hb Hl)) by eauto 10. cbn [rbind headerBytes bytes sections].
  f_equal. unfold concatBytes. cbn [concat]. f_equal. f_equal.
  pose proof (sections_bytes_slices 8 rest ss Hss WASM_HEADER [] eq_refl) as Hsl.
  rewrite app_nil_r, <- Hw in Hsl. clear Hss.
  induction Hsl as [|s ss Hs _ IH]; [done|]. cbn [omap list_omap kept List.filter].
  unfold survives at 1. unfold kept in IH. rewrite Hs. cbn [omap] in IH. rewrite IH.
  destruct (custom s) as [c|]; [|done]. by destruct (f (name c)).
Qed.

(** Reading back what [encodeWasmCustomSection] wrote. *)
Lemma encode_custom_bytes nm payload raw :
  Forall is_unit nm -> isWellFormed (trim nm) = true ->
  encodeWasmCustomSection nm payload = Ok raw ->
  forall off, exists s, section_bytes off raw s /\
    (fun c => (name c, dataBytes c)) <$> custom s = Some (trim nm, payload).
Proof.
  intros Hu Hwf H off. unfold encodeWasmCustomSection in H. js_inv H.
  apply encodeUnsignedLeb128_inv in E0 as (_ & Hnl & Hnv & Hnll).
  apply encodeUnsignedLeb128_inv in E1 as (_ & Hsz & Hsv & Hszl).
  eexists. split.
  - unfold concatBytes. cbn [concat]. rewrite app_nil_r.
    apply (sb_custom off x0 x (text_encode (trim nm)) payload); done.
  - cbn. rewrite text_decode_encode; [done|by apply Forall_trim|done|apply trim_no_bom].
Qed.

Lemma encode_custom_ok nm payload raw :
  Forall is_unit nm -> bytes_ok payload -> encodeWasmCustomSection nm payload = Ok raw -> bytes_ok raw.
Proof.
  intros Hu Hp H. unfold encodeWasmCustomSection in H. js_inv H.
  apply encodeUnsignedLeb128_inv in E0 as (_ & Hnl & _).
  apply encodeUnsignedLeb128_inv in E1 as (_ & Hsz & _).
  unfold concatBytes. cbn [concat app]. constructor; [unfold is_byte; lia|].
  repeat (apply Forall_app; split); try done.
  - by apply leb_bytes_ok.
  - by apply leb_bytes_ok.
  - apply text_encode_bytes. by apply Forall_trim.
Qed.

Lemma append_custom_inv w nm payload w' :
  appendWasmCustomSection w nm payload = Ok w' ->
  exists raw, encodeWasmCustomSection nm payload = Ok raw /\ w' = w ++ raw.
Proof.
  unfold appendWasmCustomSection, concatBytes. intros H. js_inv H.
  cbn [concat]. rewrite app_nil_r. eauto.
Qed.

(** Two modules whose sections agree on what survives have the same canonical bytes. *)
Lemma canonical_Ok w prefix rest ss :
  extractPublicationRecordCollection (R:=R) w = None ->
  bytes_ok w -> blen w < 2 ^ 53 -> w = WASM_HEADER ++ rest -> sections_bytes 8 rest ss ->
  canonicalWasmBytes w prefix
    = Ok (WASM_HEADER ++
          concat (map rawBytes (kept (survives (fun n => startsWith n prefix)) ss))).
Proof.
  intros Hx Hb Hl Hw Hss. unfold canonicalWasmBytes. rewrite no_trailer by done.
  by apply (strip_Ok w (fun n => startsWith n prefix) rest ss).
Qed.

Lemma kept_app k ss us : kept k (ss ++ us) = kept k ss ++ kept k us.
Proof. apply filter_app. Qed.

Lemma get_Ok w wanted rest ss :
  extractPublicationRecordCollection (R:=R) w = None ->
  bytes_ok w -> blen w < 2 ^ 53 -> w = WASM_HEADER ++ rest -> sections_bytes 8 rest ss ->
  getWasmCustomSections w wanted
    = Ok (omap (fun s => match custom s with
                         | Some c => if str_eqb (name c) wanted then Some (dataBytes c) else None
                         | None => None
                         end) ss).
Proof.
  intros Hx Hb Hl Hw Hss. unfold getWasmCustomSections, listWasmCustomSections.
  unfold parseWasmModuleSections. rewrite no_trailer by done.
  rewrite (proj2 (parse_wasm_spec w _ Hb Hl)) by eauto 10. cbn [rbind sections]. f_equal.
  clear Hss. induction ss as [|s ss IH]; [done|]. cbn [omap list_omap] in IH |- *.
  destruct (custom s) as [c|]; [|done]. cbn [List.filter].
  destruct (str_eqb (name c) wanted); cbn [map]; by rewrite IH.
Qed.


(** An appended custom section is read back by name, after the sections of that name
    the module already had, with the payload unchanged. *)
Theorem appended_section_is_found w nm payload w' old :
  bytes_ok w -> bytes_ok payload -> Forall is_unit nm -> isWellFormed (trim nm) = true ->
  blen w' < 2 ^ 53 ->
  extractPublicationRecordCollection (R:=R) w = None ->
  extractPublicationRecordCollection (R:=R) w' = None ->
  appendWasmCustomSection w nm payload = Ok w' ->
  getWasmCustomSections (R:=R) w (trim nm) = Ok old ->
  getWasmCustomSections (R:=R) w' (trim nm) = Ok (old ++ [payload]).
Proof.
  intros Hb Hp Hu Hwf Hl Hx Hx' Happ Hold.
  apply append_custom_inv in Happ as (raw & Henc & ->).
  pose proof (encode_custom_ok _ _ _ Hu Hp Henc) as Hraw.
  assert (Hlw : blen w < 2 ^ 53) by blia.
  destruct (parseWasmModuleSections (R:=R) w) as [m|] eqn:Hm;
    [|unfold getWasmCustomSections, listWasmCustomSections in Hold; by rewrite Hm in Hold].
  unfold parseWasmModuleSections in Hm. rewrite no_trailer in Hm by done.
  apply parse_wasm_spec in Hm as (rest & ss & Hw & Hss & _); [|done..].
  destruct (encode_custom_bytes _ _ _ Hu Hwf Henc (8 + blen rest)) as (s & Hs & Hc).
  rewrite (get_Ok w _ rest ss) in Hold by done. injection Hold as <-.
  rewrite (get_Ok (w ++ raw) _ (rest ++ raw) (ss ++ [s])); [|done|by apply Forall_app|done| |].
  - f_equal. rewrite omap_app. f_equal. cbn [omap list_omap].
    destruct (custom s) as [c|]; [|done]. cbn in Hc. injection Hc as -> ->.
    by rewrite (proj2 (str_eqb_eq _ _) eq_refl).
  - rewrite Hw. app_eq.
  - apply sections_bytes_app; [done|]. rewrite <- (app_nil_r raw). by constructor; [|constructor].
Qed.

(** Canonicalisation is idempotent: the canonical bytes parse, and they are their own
    canonical bytes. *)
Theorem canonical_bytes_idempotent w prefix out :
  bytes_ok w -> blen w < 2 ^ 53 ->
  extractPublicationRecordCollection (R:=R) w = None ->
  extractPublicationRecordCollection (R:=R) out = None ->
  canonicalWasmBytes (R:=R) w prefix = Ok out ->
  canonicalWasmBytes (R:=R) out prefix = Ok out.
Proof.
  intros Hb Hl Hx Hx' Hc.
  destruct (parse_wasm w) as [m|] eqn:Hm.
  2: { exfalso. unfold canonicalWasmBytes, stripWasmCustomSections, parseWasmModuleSections in Hc.
       rewrite !(no_trailer w), Hm in Hc by done. done. }
  apply parse_wasm_spec in Hm as (rest & ss & Hw & Hss & _); [|done..].
  rewrite (canonical_Ok w prefix rest ss) in Hc by done.
  set (f := fun n => startsWith n prefix) in *.
  assert (WASM_HEADER ++ concat (map rawBytes (kept (survives f) ss)) = out) as <- by congruence.
  clear Hc.
  destruct (sections_bytes_kept (survives f) 8 rest ss Hss 8) as (ss' & Hss' & Hcs).
  assert (Hsub : bytes_ok (concat (map rawBytes (kept (survives f) ss))) /\
                 blen (concat (map rawBytes (kept (survives f) ss))) <= blen rest).
  { rewrite <- (sections_bytes_raw _ _ _ Hss). rewrite Hw in Hb.
    apply Forall_app in Hb as [_ Hb]. rewrite <- (sections_bytes_raw _ _ _ Hss) in Hb.
    clear - Hb. induction ss as [|s ss IH]; [done|]. cbn [map concat] in *.
    apply Forall_app in Hb as [H1 H2]. destruct (IH H2) as [IH1 IH2]. unfold kept in *.
    cbn [List.filter]. destruct (survives f s); cbn [map concat].
    - split; [by apply Forall_app|blia].
    - split; [done|blia]. }
  destruct Hsub as [Hsub Hlen].
  rewrite (canonical_Ok _ prefix (concat (map rawBytes (kept (survives f) ss))) ss');
    [|done| | |done|done].
  - fold f. do 2 f_equal. destruct (kept_content f _ _ Hcs) as [_ ->]. by rewrite kept_idem.
  - apply Forall_app. split; [|done]. rewrite Hw in Hb. by apply Forall_app in Hb as [? _].
  - rewrite Hw in Hl. blia.
Qed.

End stripping.

(** ** A concrete module: the header and a custom section "x" *)

#[local] Existing Instance raw_codec.

Definition small_module : list Z := WASM_HEADER ++ [0; 3; 1; 120; 42].
Definition small_signed : list Z :=
  small_module ++ [0; 10; 7] ++ lit "sds.sig" ++ [1; 2].
Definition small_parsed : parsed_module :=
  Eval vm_compute in
    match parse_wasm small_module with Ok m => m | Throw _ => ParsedModule [] [] [] end.


Lemma appended_section_is_found_witness :
  getWasmCustomSections small_signed (lit "sds.sig") = Ok ([] ++ [[1; 2]]).
Proof.
  change (lit "sds.sig") with (trim (lit "sds.sig")).
  apply (appended_section_is_found small_module (lit "sds.sig") [1; 2] small_signed []);
    try closed_bytes; try by vm_compute.
  apply lit_units.
Defined.

Lemma canonical_bytes_idempotent_witness :
  canonicalWasmBytes small_module SDS_CUSTOM_SECTION_PREFIX = Ok small_module.
Proof.
  apply (canonical_bytes_idempotent small_signed SDS_CUSTOM_SECTION_PREFIX small_module);
    first [closed_bytes|by vm_compute].
Defined.
