(* ===== verification/WasmCodeScan.v ===== *)
(** The instruction scanner of the code section (src/compiler/wasmCodeScan.js).

    [scanFunctionBody] walks one function body and counts, by class, the instructions it
    holds; [scanWasmCode] runs it over the code section. The helpers that move the cursor
    are written in [rd], a state monad over the cursor with the bytes and the end of the
    body as its environment. They are specified against [instr], the binary form of an
    instruction with the effect it has on the block depth and on the counts. *)
From Stdlib Require Import ZArith Lia.
From stdpp Require Import base list strings numbers.
From S2P Require Import Prelude JsText Leb128 PublicationTrailer WasmSections.
Open Scope Z_scope.

(** ** Cursor monad *)

(** [bytes -> cursor -> end -> (result, new cursor)] *)
Definition rd (A : Type) : Type := list Z -> Z -> Z -> result (A * Z).

Definition rd_ret {A} (x : A) : rd A := fun _ cursor _ => Ok (x, cursor).
Definition rd_throw {A} (e : js_error) : rd A := fun _ _ _ => Throw e.
Definition rd_bind {A B} (m : rd A) (k : A -> rd B) : rd B :=
  fun bytes cursor end_ =>
    let! (x, cursor') := m bytes cursor end_ in k x bytes cursor' end_.
Notation "x <~ m ; k" := (rd_bind m (fun x => k))
  (at level 20, m at level 99, k at level 200) : js_scope.
Notation "m ;> k" := (rd_bind m (fun _ => k)) (at level 100, k at level 200, right associativity) : js_scope.

(** [cursor += n] *)
Definition advance (n : Z) : rd unit := fun _ cursor _ => Ok (tt, num_add cursor n).
(** [cursor = skipLeb(bytes, cursor, end)] *)
Definition skip_leb : rd unit :=
  fun bytes cursor end_ => let! p := skipLeb bytes cursor end_ in Ok (tt, p).
(** [info = readLeb(bytes, cursor, end); cursor = info.nextOffset] *)
Definition read_leb : rd Z :=
  fun bytes cursor end_ => let! i := readLeb bytes cursor end_ in Ok (value i, nextOffset i).

Definition skipBlockType : rd unit := fun bytes cursor end_ =>
  throw_if end_ <=? cursor with Error "Block type ran past end of function body.";
  let byte := num_or_0 (at_ bytes cursor) in
  if negb (js_and byte 0x80 =? 0) then skip_leb bytes cursor end_ else Ok (tt, cursor + 1).

Definition skipMemArg : rd unit :=
  align <~ read_leb;
  (if negb (js_and align 0x40 =? 0) then skip_leb else rd_ret tt) ;>
  skip_leb.

(** [for (i = 0; i < n; i += 1) step]. Every step that succeeds takes at least a byte, so
    the bytes left bound the rounds. *)
Fixpoint rd_times (fuel : nat) (i n : Z) (step : rd unit) : rd unit :=
  if i <? n then
    match fuel with
    | O => rd_throw (Error "fuel")
    | S fuel' => step ;> rd_times fuel' (i + 1) n step
    end
  else rd_ret tt.

Definition rd_for (n : Z) (step : rd unit) : rd unit := fun bytes cursor end_ =>
  rd_times (S (Z.to_nat (end_ - cursor))) 0 n step bytes cursor end_.

Definition check_end (e : js_error) : rd unit := fun _ cursor end_ =>
  throw_if end_ <? cursor with e; Ok (tt, cursor).

(** [skipVec(bytes, cursor, end, "leb")] *)
Definition skipVec_leb : rd unit :=
  count <~ read_leb;
  rd_for count skip_leb ;>
  check_end (Error "Vector immediate ran past end of function body.").

(** [skipVec(bytes, cursor, end, 1)]: the loop adds one per element. *)
Definition skipVec_1 : rd unit :=
  count <~ read_leb;
  advance count ;>
  check_end (Error "Vector immediate ran past end of function body.").

(** One local declaration: a count, then a value type. *)
Definition skip_local : rd unit :=
  skip_leb ;>
  (fun bytes cursor end_ =>
    throw_if end_ <=? cursor with Error "Local declaration ran past end of function body.";
    if negb (js_and (num_or_0 (at_ bytes cursor)) 0x80 =? 0) then skip_leb bytes cursor end_
    else Ok (tt, cursor + 1)).

(** One catch clause of try_table. *)
Definition skip_clause : rd unit :=
  (fun bytes cursor end_ =>
    throw_if end_ <=? cursor with Error "Catch clause ran past end of function body.";
    let kind := num_or_0 (at_ bytes cursor) in
    if (kind =? 0) || (kind =? 1) then skip_leb bytes (cursor + 1) end_
    else throw_if negb (kind =? 2) && negb (kind =? 3) with Error "Unknown catch clause kind";
      Ok (tt, cursor + 1)) ;>
  skip_leb.

(** ** Instructions *)

Record counts := Counts { atomic : Z; simd : Z; relaxedSimd : Z; exceptionHandling : Z }.
Definition zero_counts : counts := Counts 0 0 0 0.
Definition counts_add (a b : counts) : counts :=
  Counts (atomic a + atomic b) (simd a + simd b) (relaxedSimd a + relaxedSimd b)
    (exceptionHandling a + exceptionHandling b).

(** What one instruction does: the change of the block depth and of the counts. *)
Record effect := Effect { depth_change : Z; counted : counts }.
Definition eff0 : effect := Effect 0 zero_counts.
Definition eff_depth (d : Z) : effect := Effect d zero_counts.
Definition eff_eh (d : Z) : effect := Effect d (Counts 0 0 0 1).
Definition eff_atomic : effect := Effect 0 (Counts 1 0 0 0).
Definition eff_simd : effect := Effect 0 (Counts 0 1 0 0).
Definition eff_relaxed : effect := Effect 0 (Counts 0 0 1 0).

Definition one_of (x : Z) (l : list Z) : bool := existsb (Z.eqb x) l.

Definition FIXED_WIDTH_SIMD_LIMIT : Z := 0x100.

(** Immediates of a 0xFC instruction. *)
Definition scan_fc : rd effect :=
  sub <~ read_leb;
  if one_of sub [0; 1; 2; 3; 4; 5; 6; 7] then rd_ret eff0
  else if sub =? 8 then skip_leb ;> skip_leb ;> rd_ret eff0
  else if sub =? 9 then skip_leb ;> rd_ret eff0
  else if sub =? 10 then skip_leb ;> skip_leb ;> rd_ret eff0
  else if sub =? 11 then skip_leb ;> rd_ret eff0
  else if one_of sub [12; 14] then skip_leb ;> skip_leb ;> rd_ret eff0
  else if one_of sub [13; 15; 16; 17] then skip_leb ;> rd_ret eff0
  else if one_of sub [19; 20; 21; 22] then rd_ret eff0
  else rd_throw (Error "Unsupported 0xFC sub-opcode").

(** Immediates of a 0xFD instruction. *)
Definition scan_fd : rd effect :=
  op <~ read_leb;
  let eff := if FIXED_WIDTH_SIMD_LIMIT <=? op then eff_relaxed else eff_simd in
  if op <=? 0x0b then skipMemArg ;> rd_ret eff
  else if (op =? 0x0c) || (op =? 0x0d) then advance 16 ;> rd_ret eff
  else if (0x15 <=? op) && (op <=? 0x22) then advance 1 ;> rd_ret eff
  else if (0x54 <=? op) && (op <=? 0x5b) then skipMemArg ;> advance 1 ;> rd_ret eff
  else if (op =? 0x5c) || (op =? 0x5d) then skipMemArg ;> rd_ret eff
  else rd_ret eff.

(** Immediates of a 0xFE instruction. *)
Definition scan_fe : rd effect :=
  sub <~ read_leb;
  if sub =? 0x03 then advance 1 ;> rd_ret eff_atomic
  else skipMemArg ;> rd_ret eff_atomic.

(** The switch on the opcode; the cursor is past the opcode. *)
Definition scan_op (opcode : Z) : rd effect :=
  if one_of opcode [0x00; 0x01; 0x05; 0x0f; 0x1a; 0x1b] then rd_ret eff0
  else if opcode =? 0x0b then rd_ret (eff_depth (-1))
  else if one_of opcode [0x02; 0x03; 0x04] then skipBlockType ;> rd_ret (eff_depth 1)
  else if opcode =? 0x06 then skipBlockType ;> rd_ret (eff_eh 1)
  else if one_of opcode [0x07; 0x08; 0x09] then skip_leb ;> rd_ret (eff_eh 0)
  else if one_of opcode [0x0a; 0x19] then rd_ret (eff_eh 0)
  else if opcode =? 0x18 then skip_leb ;> rd_ret (eff_eh (-1))
  else if opcode =? 0x1f then
    skipBlockType ;> (clauses <~ read_leb; rd_for clauses skip_clause ;> rd_ret (eff_eh 1))
  else if one_of opcode [0x0c; 0x0d] then skip_leb ;> rd_ret eff0
  else if opcode =? 0x0e then skipVec_leb ;> skip_leb ;> rd_ret eff0
  else if one_of opcode [0x10; 0x12; 0x14; 0x15] then skip_leb ;> rd_ret eff0
  else if one_of opcode [0x11; 0x13] then skip_leb ;> skip_leb ;> rd_ret eff0
  else if opcode =? 0x1c then skipVec_1 ;> rd_ret eff0
  else if one_of opcode [0x20; 0x21; 0x22; 0x23; 0x24; 0x25; 0x26] then skip_leb ;> rd_ret eff0
  else if one_of opcode [0x3f; 0x40] then skip_leb ;> rd_ret eff0
  else if one_of opcode [0x41; 0x42] then skip_leb ;> rd_ret eff0
  else if opcode =? 0x43 then advance 4 ;> rd_ret eff0
  else if opcode =? 0x44 then advance 8 ;> rd_ret eff0
  else if opcode =? 0xd0 then
    (fun bytes cursor end_ =>
       if (cursor <? end_) && negb (js_and (num_or_0 (at_ bytes cursor)) 0x80 =? 0)
       then skip_leb bytes cursor end_ else advance 1 bytes cursor end_) ;> rd_ret eff0
  else if one_of opcode [0xd1; 0xd3; 0xd4] then rd_ret eff0
  else if one_of opcode [0xd2; 0xd5; 0xd6] then skip_leb ;> rd_ret eff0
  else if opcode =? 0xfc then scan_fc
  else if opcode =? 0xfd then scan_fd
  else if opcode =? 0xfe then scan_fe
  else if (0x28 <=? opcode) && (opcode <=? 0x3e) then skipMemArg ;> rd_ret eff0
  else if (0x45 <=? opcode) && (opcode <=? 0xc4) then rd_ret eff0
  else rd_throw (Error "Unsupported opcode").

(** The instruction loop. Every round takes at least the opcode byte. *)
Fixpoint scan_loop (fuel : nat) (bytes : list Z) (bodyEnd cursor depth : Z) (acc : counts) :
    result counts :=
  if cursor <? bodyEnd then
    match fuel with
    | O => Throw (Error "fuel")
    | S fuel' =>
        throw_if depth =? 0 with Error "Instructions follow the function's closing end.";
        let opcode := num_or_0 (at_ bytes cursor) in
        let! (eff, cursor') := scan_op opcode bytes (cursor + 1) bodyEnd in
        throw_if bodyEnd <? cursor'
          with Error "Instruction immediate ran past end of function body.";
        scan_loop fuel' bytes bodyEnd cursor' (depth + depth_change eff)
          (counts_add acc (counted eff))
    end
  else
    throw_if negb (depth =? 0)
      with Error "Function body does not close its block at its final byte.";
    Ok acc.

Definition scanFunctionBody (bytes : list Z) (bodyStart bodyEnd : Z) : result counts :=
  let! (_, cursor) :=
    (localVecCount <~ read_leb; rd_for localVecCount skip_local) bytes bodyStart bodyEnd in
  scan_loop (Z.to_nat (bodyEnd - cursor)) bytes bodyEnd cursor 1 zero_counts.

(** Totals over a module. *)
Record totals := Totals { total : counts; undecodableFunctions : Z }.

(** The loop over the function bodies. A thrown error ends it with the totals so far and
    one more undecodable function, as the outer [catch] does. *)
Fixpoint scan_functions (fuel : nat) (bytes : list Z) (payloadEnd i funcCount cursor : Z)
    (acc : totals) : totals :=
  if i <? funcCount then
    match fuel with
    | O => acc
    | S fuel' =>
        if payloadEnd <=? cursor then
          Totals (total acc) (undecodableFunctions acc + (funcCount - i))
        else
          match readLeb bytes cursor payloadEnd with
          | Throw _ => Totals (total acc) (undecodableFunctions acc + 1)
          | Ok sizeInfo =>
              let bodyStart := nextOffset sizeInfo in
              let bodyEnd := num_add bodyStart (value sizeInfo) in
              if payloadEnd <? bodyEnd then
                Totals (total acc) (undecodableFunctions acc + (funcCount - i))
              else
                let acc' :=
                  match scanFunctionBody bytes bodyStart bodyEnd with
                  | Ok c => Totals (counts_add (total acc) c) (undecodableFunctions acc)
                  | Throw _ => Totals (total acc) (undecodableFunctions acc + 1)
                  end in
                scan_functions fuel' bytes payloadEnd (i + 1) funcCount bodyEnd acc'
          end
    end
  else acc.

Definition scanWasmCode (parsed : parsed_module) : totals :=
  match List.find (fun s => id s =? 10) (sections parsed) with
  | None => Totals zero_counts 0
  | Some codeSection =>
      let b := bytes parsed in
      match readLeb b (payloadStart codeSection) (payloadEnd codeSection) with
      | Throw _ => Totals zero_counts 1
      | Ok funcCount =>
          scan_functions (S (length b)) b (payloadEnd codeSection) 0 (value funcCount)
            (nextOffset funcCount) (Totals zero_counts 0)
      end
  end.

(** ** What a cursor action reads *)

(** [reads m G]: on a cursor inside the body, [m] succeeds and stays inside exactly when
    the bytes at the cursor start with a word of the grammar [G]; past the end it fails or
    stays past the end. *)
Record reads {A} (m : rd A) (G : A -> list Z -> Prop) : Prop := Reads {
  reads_in : forall b cur e x p, bytes_ok b -> 0 <= cur -> e <= blen b -> e < 2 ^ 53 ->
    (m b cur e = Ok (x, p) /\ p <= e) <->
    exists a w c, b = a ++ w ++ c /\ blen a = cur /\ G x w /\ p = cur + blen w /\ p <= e;
  reads_out : forall b cur e x p, e < 2 ^ 53 -> e < cur -> m b cur e = Ok (x, p) -> e < p
}.

Definition uleb (v : Z) (w : list Z) : Prop :=
  leb_bytes w /\ blen w <= 8 /\ v = to_double (leb_value w).

(** [n] words of a grammar, one after the other. *)
Definition vec (G : list Z -> Prop) (n : Z) (w : list Z) : Prop :=
  exists ws, w = concat ws /\ Forall G ws /\ Z.of_nat (length ws) = Z.max 0 n.

Lemma reads_ext {A} (m : rd A) G G' :
  (forall x w, G x w <-> G' x w) -> reads m G -> reads m G'.
Proof.
  intros HG [H1 H2]. split; [|done]. intros b cur e x p Hb Hc He Hl.
  rewrite (H1 b cur e x p Hb Hc He Hl). setoid_rewrite HG. done.
Qed.

Lemma reads_ret {A} (y : A) : reads (rd_ret y) (fun x w => x = y /\ w = []).
Proof.
  split; unfold rd_ret.
  - intros b cur e x p Hb Hc He Hl. split.
    + intros [[= <- <-] Hp]. destruct (split_len b cur) as (a & c & -> & Ha); [lia|].
      exists a, [], c. change (blen (@nil Z)) with 0. split_and!; done || lia.
    + intros (a & w & c & -> & <- & [-> ->] & -> & Hp). change (blen (@nil Z)) with 0.
      rewrite Z.add_0_r in *. done.
  - intros b cur e x p _ Hc [= _ <-]. done.
Qed.

Lemma reads_throw {A} err : reads (@rd_throw A err) (fun _ _ => False).
Proof. split; [|done]. intros. split; [by intros [? _]|by intros (? & ? & ? & ? & ? & ? & ?)]. Qed.

Lemma reads_bind {A B} (m : rd A) (k : A -> rd B) G K :
  reads m G -> (forall x, reads (k x) (K x)) ->
  reads (rd_bind m k) (fun y w => exists x w1 w2, w = w1 ++ w2 /\ G x w1 /\ K x y w2).
Proof.
  intros Hm Hk. split; unfold rd_bind.
  - intros b cur e y p Hb Hc He Hl. split.
    + intros [H Hp]. destruct (m b cur e) as [[x p1]|] eqn:Em; [|done]. cbn [rbind] in H.
      destruct (Z_lt_ge_dec e p1) as [Hout|Hin].
      { pose proof (reads_out _ _ (Hk x) _ _ _ _ _ Hl Hout H). lia. }
      destruct (proj1 (reads_in _ _ Hm b cur e x p1 Hb Hc He Hl)) as (a & w1 & c1 & Hb1 & Ha & HG & -> & Hp1);
        [split; [done|lia]|].
      destruct (proj1 (reads_in _ _ (Hk x) b (cur + blen w1) e y p Hb ltac:(blia) He Hl))
        as (a2 & w2 & c2 & Hb2 & Ha2 & HK & -> & _); [done|].
      assert (a2 = a ++ w1 /\ w2 ++ c2 = c1) as [-> <-].
      { apply app_inj_len; [blia|]. rewrite <- Hb2, Hb1. app_eq. }
      exists a, (w1 ++ w2), c2. split_and!; [rewrite Hb1; app_eq|done| |blia|done].
      by exists x, w1, w2.
    + intros (a & w & c & Hb1 & Ha & (x & w1 & w2 & -> & HG & HK) & -> & Hp).
      destruct (proj2 (reads_in _ _ Hm b cur e x (cur + blen w1) Hb Hc He Hl)) as [-> _].
      { exists a, w1, (w2 ++ c). split_and!; [rewrite Hb1; app_eq|done|done|done|blia]. }
      cbn [rbind].
      destruct (proj2 (reads_in _ _ (Hk x) b (cur + blen w1) e y (cur + blen (w1 ++ w2)) Hb
                         ltac:(blia) He Hl)) as [-> _]; [|done].
      exists (a ++ w1), w2, c. split_and!; [rewrite Hb1; app_eq|blia|done|blia|done].
  - intros b cur e y p Hl Hc H. destruct (m b cur e) as [[x p1]|] eqn:Em; [|done].
    cbn [rbind] in H. eapply (reads_out _ _ (Hk x)); [done| |done].
    by eapply (reads_out _ _ Hm).
Qed.

Lemma reads_skip_leb : reads skip_leb (fun _ w => leb_bytes w).
Proof.
  split; unfold skip_leb.
  - intros b cur e [] p Hb Hc He Hl. split.
    + intros [H Hp]. js_inv H.
      apply skipLeb_spec in E as (a & w & c & -> & <- & Hw & -> & _); [|done..].
      by exists a, w, c.
    + intros (a & w & c & -> & <- & Hw & -> & Hp).
      rewrite (proj2 (skipLeb_spec _ _ _ (blen a + blen w) Hb Hc He)); [done|by exists a, w, c].
  - intros b cur e x p _ Hc. unfold skipLeb. cbn [skipLeb_loop].
    by destruct (Z.ltb_spec cur e); [lia|].
Qed.

Lemma reads_read_leb : reads read_leb uleb.
Proof.
  split; unfold read_leb.
  - intros b cur e v p Hb Hc He Hl. split.
    + intros [H Hp]. js_inv H.
      apply readLeb_spec in E as (a & w & c & -> & <- & Hw & Hw8 & -> & _); [|done..].
      by exists a, w, c.
    + intros (a & w & c & -> & <- & (Hw & Hw8 & ->) & -> & Hp).
      rewrite (proj2 (readLeb_spec _ _ _ (LebInfo (to_double (leb_value w)) (blen a + blen w)) Hb Hc He));
        [done|by exists a, w, c].
  - intros b cur e x p _ Hc. unfold readLeb. by destruct (Z.leb_spec e cur); [|lia].
Qed.

Lemma reads_advance n : 0 <= n -> reads (advance n) (fun _ w => blen w = n).
Proof.
  intros Hn. split; unfold advance.
  - intros b cur e [] p Hb Hc He Hl. split.
    + intros [[= <-] Hp]. rewrite num_add_exact in * by lia.
      destruct (split_len b cur) as (a & q & -> & Ha); [lia|].
      destruct (split_len q n) as (w & c & -> & Hw); [blia|].
      exists a, w, c. split_and!; done || lia.
    + intros (a & w & c & -> & <- & Hw & -> & Hp). rewrite num_add_small by lia.
      by rewrite Hw in *.
  - intros b cur e x p Hl Hc [= _ <-]. unfold num_add.
    destruct (Z_le_gt_dec (cur + n) (2 ^ 53)); [rewrite to_double_le; lia|].
    pose proof (to_double_ge (cur + n)). lia.
Qed.

Lemma reads_check_end err : reads (check_end err) (fun _ w => w = []).
Proof.
  split; unfold check_end.
  - intros b cur e [] p Hb Hc He Hl.
    pose proof (reads_in _ _ (reads_ret tt) b cur e tt p Hb Hc He Hl) as Hr. unfold rd_ret in Hr.
    destruct (Z.ltb_spec e cur).
    + split; [by intros [? _]|]. intros (a & w & c & -> & <- & -> & -> & Hp).
      change (blen (@nil Z)) with 0 in Hp. lia.
    + rewrite Hr. split; intros (a & w & c & ? & ? & ? & ? & ?); exists a, w, c; tauto.
  - intros b cur e x p _ Hc. by destruct (Z.ltb_spec e cur); [|lia].
Qed.

Lemma leb_bytes_head x w : leb_bytes (x :: w) -> x < 128 -> w = [].
Proof. inversion 1; [done|lia]. Qed.

(** A type that is one byte, or a LEB128 when its first byte has the continuation bit. *)
Lemma reads_peek_leb err :
  reads (fun bytes cursor end_ =>
           throw_if end_ <=? cursor with err;
           if negb (js_and (num_or_0 (at_ bytes cursor)) 0x80 =? 0)
           then skip_leb bytes cursor end_ else Ok (tt, cursor + 1))
        (fun _ w => leb_bytes w).
Proof.
  split.
  - intros b cur e [] p Hb Hc He Hl.
    pose proof (reads_in _ _ reads_skip_leb b cur e tt p Hb Hc He Hl) as Hs.
    destruct (Z.leb_spec e cur).
    { split; [by intros [? _]|]. intros (a & w & c & _ & _ & Hw%leb_bytes_nonempty & -> & Hp). lia. }
    destruct (at_lt_Some b cur) as [x Hx]; [lia|]. rewrite Hx. cbn [num_or_0].
    pose proof (at_Forall _ _ _ _ Hb Hx) as Hxb. rewrite js_and_80 by done.
    destruct (Z.ltb_spec x 128); cbn [Z.eqb negb]; [|done].
    apply at_split in Hx as (a & c & -> & Ha). split.
    + intros [[= <-] Hp]. exists a, [x], c. unfold is_byte in Hxb.
      split_and!; try done. constructor. lia.
    + intros (a' & w & c' & Hb' & Ha' & Hw & -> & Hp). split; [|done]. do 2 f_equal.
      apply app_inj_len in Hb' as [<- Hb']; [|lia].
      destruct Hw as [y Hy|y w Hy Hw]; [done|]. cbn [app] in Hb'. injection Hb' as <- _. lia.
  - intros b cur e x p _ Hc. by destruct (Z.leb_spec e cur); [|lia].
Qed.

Lemma reads_skipBlockType : reads skipBlockType (fun _ w => leb_bytes w).
Proof. apply reads_peek_leb. Qed.

(** ref.null: the heap type, read without the bounds check of a block type. *)
Lemma reads_heaptype :
  reads (fun bytes cursor end_ =>
           if (cursor <? end_) && negb (js_and (num_or_0 (at_ bytes cursor)) 0x80 =? 0)
           then skip_leb bytes cursor end_ else advance 1 bytes cursor end_)
        (fun _ w => leb_bytes w).
Proof.
  pose proof (reads_peek_leb (Error "")) as [Hin _]. split.
  - intros b cur e [] p Hb Hc He Hl. rewrite <- (Hin b cur e tt p Hb Hc He Hl).
    destruct (Z.ltb_spec cur e), (Z.leb_spec e cur); try lia; cbn [andb].
    + destruct (negb _); [done|]. unfold advance. by rewrite num_add_small by lia.
    + split; [|by intros [? _]]. unfold advance. intros [[= <-] Hp].
      rewrite num_add_exact in Hp by lia. lia.
  - intros b cur e x p Hl Hc. destruct (Z.ltb_spec cur e); [lia|]. cbn [andb].
    by apply (reads_out _ _ (reads_advance 1 ltac:(lia))).
Qed.

Lemma rd_times_out fuel step : forall i n b cur e x p,
  (forall b cur e x p, e < 2 ^ 53 -> e < cur -> step b cur e = Ok (x, p) -> e < p) ->
  e < 2 ^ 53 -> e < cur -> rd_times fuel i n step b cur e = Ok (x, p) -> e < p.
Proof.
  induction fuel as [|fuel IH]; intros i n b cur e x p Hs Hl Hc; cbn [rd_times];
    (destruct (_ <? _); [|by intros [= _ <-]]); [done|].
  unfold rd_bind. intros H. destruct (step b cur e) as [[y q]|] eqn:E; [|done].
  cbn [rbind] in H. eapply IH; [exact Hs|done| |exact H]. by eapply Hs.
Qed.

Lemma rd_times_spec G step : reads step (fun _ => G) -> (forall w, G w -> 0 < blen w) ->
  forall fuel i n b cur e p, (Z.to_nat (e - cur) < fuel)%nat ->
  bytes_ok b -> 0 <= cur -> e <= blen b -> e < 2 ^ 53 ->
  (rd_times fuel i n step b cur e = Ok (tt, p) /\ p <= e) <->
  exists a w c, b = a ++ w ++ c /\ blen a = cur /\ vec G (n - i) w /\ p = cur + blen w /\ p <= e.
Proof.
  intros Hs Hne fuel. induction fuel as [|fuel IH]; intros i n b cur e p Hf Hb Hc He Hl; [lia|].
  cbn [rd_times]. destruct (Z.ltb_spec i n) as [Hin|Hout].
  2: { rewrite (reads_in _ _ (reads_ret tt) b cur e tt p Hb Hc He Hl).
       split; intros (a & w & c & Hb' & Ha & Hw & Hp); exists a, w, c; split_and!; try tauto.
       - destruct Hw as [_ ->]. exists []. split_and!; try done. simpl. lia.
       - destruct Hw as (ws & -> & _ & Hlen).
         destruct ws; [done|]. simpl in Hlen. lia. }
  unfold rd_bind. split.
  - intros [H Hp]. destruct (step b cur e) as [[[] p1]|] eqn:Es; [|done]. cbn [rbind] in H.
    destruct (Z_lt_ge_dec e p1) as [Hgt|Hle].
    { pose proof (rd_times_out _ _ _ _ _ _ _ _ _ (reads_out _ _ Hs) Hl Hgt H). lia. }
    destruct (proj1 (reads_in _ _ Hs b cur e tt p1 Hb Hc He Hl)) as (a & w1 & c1 & Hb1 & Ha & HG & -> & Hp1);
      [split; [done|lia]|]. pose proof (Hne _ HG).
    destruct (proj1 (IH (i + 1) n b (cur + blen w1) e p ltac:(lia) Hb ltac:(blia) He Hl))
      as (a2 & w2 & c2 & Hb2 & Ha2 & (ws & -> & Hws & Hlen) & -> & _); [done|].
    assert (a2 = a ++ w1 /\ concat ws ++ c2 = c1) as [-> <-].
    { apply app_inj_len; [blia|]. rewrite <- Hb2, Hb1. app_eq. }
    exists a, (w1 ++ concat ws), c2. split_and!; [rewrite Hb1; app_eq|done| |blia|done].
    exists (w1 :: ws). split_and!; [done|by constructor|]. simpl. lia.
  - intros (a & w & c & Hb1 & Ha & (ws & -> & Hws & Hlen) & -> & Hp).
    destruct Hws as [|w1 ws HG Hws]; [simpl in Hlen; lia|]. cbn [concat] in *.
    pose proof (Hne _ HG).
    destruct (proj2 (reads_in _ _ Hs b cur e tt (cur + blen w1) Hb Hc He Hl)) as [-> _].
    { exists a, w1, (concat ws ++ c). split_and!; [rewrite Hb1; app_eq|done|done|done|blia]. }
    cbn [rbind].
    apply (IH (i + 1) n b (cur + blen w1) e (cur + blen (w1 ++ concat ws))); [blia|done|blia|done..|].
    exists (a ++ w1), (concat ws), c. split_and!; [rewrite Hb1; app_eq|blia| |blia|done].
    exists ws. split_and!; try done. simpl in Hlen. lia.
Qed.

Lemma reads_for G n step :
  reads step (fun _ => G) -> (forall w, G w -> 0 < blen w) -> reads (rd_for n step) (fun _ => vec G n).
Proof.
  intros Hs Hne. split; unfold rd_for.
  - intros b cur e [] p Hb Hc He Hl.
    rewrite (rd_times_spec G step Hs Hne) by (done || lia). by rewrite Z.sub_0_r.
  - intros b cur e x p Hl Hc H. by eapply rd_times_out; [apply (reads_out _ _ Hs)|done|done|].
Qed.

(** ** The binary form of instructions *)

Inductive memarg : list Z -> Prop :=
| memarg_default al v off :
    uleb v al -> js_and v 0x40 = 0 -> leb_bytes off -> memarg (al ++ off)
| memarg_indexed al v mem off :
    uleb v al -> js_and v 0x40 <> 0 -> leb_bytes mem -> leb_bytes off -> memarg (al ++ mem ++ off).

Inductive catch_clause : list Z -> Prop :=
| catch_tag k t l : k = 0 \/ k = 1 -> leb_bytes t -> leb_bytes l -> catch_clause ([k] ++ t ++ l)
| catch_all k l : k = 2 \/ k = 3 -> leb_bytes l -> catch_clause ([k] ++ l).

Inductive local_decl : list Z -> Prop :=
| local_count_type n t : leb_bytes n -> leb_bytes t -> local_decl (n ++ t).

(** Immediates of SIMD sub-opcode [v]. *)
Inductive simd_imm (v : Z) : list Z -> Prop :=
| si_mem w : v <= 0x0b \/ v = 0x5c \/ v = 0x5d -> memarg w -> simd_imm v w
| si_const w : v = 0x0c \/ v = 0x0d -> blen w = 16 -> simd_imm v w
| si_lane w : 0x15 <= v <= 0x22 -> blen w = 1 -> simd_imm v w
| si_memlane w l : 0x54 <= v <= 0x5b -> memarg w -> blen l = 1 -> simd_imm v (w ++ l)
| si_none : 0x0e <= v <= 0x14 \/ 0x23 <= v <= 0x53 \/ 0x5e <= v -> simd_imm v [].

Definition plain_ops : list Z := [0x00; 0x01; 0x05; 0x0f; 0x1a; 0x1b; 0xd1; 0xd3; 0xd4].
Definition leb_ops : list Z :=
  [0x0c; 0x0d; 0x10; 0x12; 0x14; 0x15; 0x20; 0x21; 0x22; 0x23; 0x24; 0x25; 0x26; 0x3f; 0x40;
   0x41; 0x42; 0xd0; 0xd2; 0xd5; 0xd6].

Inductive instr : list Z -> effect -> Prop :=
| in_plain op : one_of op plain_ops = true -> instr [op] eff0
| in_numeric op : 0x45 <= op <= 0xc4 -> instr [op] eff0
| in_end : instr [0x0b] (eff_depth (-1))
| in_block op bt : one_of op [0x02; 0x03; 0x04] = true -> leb_bytes bt -> instr (op :: bt) (eff_depth 1)
| in_try bt : leb_bytes bt -> instr (0x06 :: bt) (eff_eh 1)
| in_tag op l : one_of op [0x07; 0x08; 0x09] = true -> leb_bytes l -> instr (op :: l) (eff_eh 0)
| in_eh op : one_of op [0x0a; 0x19] = true -> instr [op] (eff_eh 0)
| in_delegate l : leb_bytes l -> instr (0x18 :: l) (eff_eh (-1))
| in_try_table bt cnt n cls :
    leb_bytes bt -> uleb n cnt -> vec catch_clause n cls -> instr (0x1f :: bt ++ cnt ++ cls) (eff_eh 1)
| in_leb op l : one_of op leb_ops = true -> leb_bytes l -> instr (op :: l) eff0
| in_leb2 op l l' :
    one_of op [0x11; 0x13] = true -> leb_bytes l -> leb_bytes l' -> instr (op :: l ++ l') eff0
| in_br_table cnt n ls l :
    uleb n cnt -> vec leb_bytes n ls -> leb_bytes l -> instr (0x0e :: cnt ++ ls ++ l) eff0
| in_select cnt n ts : uleb n cnt -> blen ts = n -> instr (0x1c :: cnt ++ ts) eff0
| in_f32 w : blen w = 4 -> instr (0x43 :: w) eff0
| in_f64 w : blen w = 8 -> instr (0x44 :: w) eff0
| in_memory op w : 0x28 <= op <= 0x3e -> memarg w -> instr (op :: w) eff0
| in_fc0 sub v :
    uleb v sub -> one_of v [0; 1; 2; 3; 4; 5; 6; 7; 19; 20; 21; 22] = true -> instr (0xfc :: sub) eff0
| in_fc1 sub v l :
    uleb v sub -> one_of v [9; 11; 13; 15; 16; 17] = true -> leb_bytes l -> instr (0xfc :: sub ++ l) eff0
| in_fc2 sub v l l' :
    uleb v sub -> one_of v [8; 10; 12; 14] = true -> leb_bytes l -> leb_bytes l' ->
    instr (0xfc :: sub ++ l ++ l') eff0
| in_simd sub v w :
    uleb v sub -> v < FIXED_WIDTH_SIMD_LIMIT -> simd_imm v w -> instr (0xfd :: sub ++ w) eff_simd
| in_relaxed sub v :
    uleb v sub -> FIXED_WIDTH_SIMD_LIMIT <= v -> instr (0xfd :: sub) eff_relaxed
| in_fence sub w : uleb 0x03 sub -> blen w = 1 -> instr (0xfe :: sub ++ w) eff_atomic
| in_atomic sub v w : uleb v sub -> v <> 0x03 -> memarg w -> instr (0xfe :: sub ++ w) eff_atomic.

Lemma one_of_In x l : one_of x l = true <-> In x l.
Proof.
  unfold one_of. rewrite existsb_exists. split.
  - by intros (y & Hy & ->%Z.eqb_eq).
  - intros Hx. exists x. by rewrite Z.eqb_refl.
Qed.

Lemma uleb_nonneg v w : uleb v w -> 0 <= v.
Proof.
  intros (Hw & _ & ->). pose proof (leb_value_bound w).
  destruct (Z_le_gt_dec (leb_value w) (2 ^ 53)); [rewrite to_double_small; lia|].
  pose proof (to_double_ge (leb_value w)). lia.
Qed.

Lemma leb_one b : 0 <= b < 128 -> leb_bytes [b].
Proof. by constructor. Qed.

Lemma catch_clause_nonempty w : catch_clause w -> 0 < blen w.
Proof. destruct 1; blia. Qed.
Lemma local_decl_nonempty w : local_decl w -> 0 < blen w.
Proof. destruct 1 as [n t Hn Ht]; apply leb_bytes_nonempty in Hn, Ht; blia. Qed.

Lemma reads_skipMemArg : reads skipMemArg (fun _ => memarg).
Proof.
  eapply reads_ext; cycle 1.
  { apply reads_bind; [apply reads_read_leb|]. intros v.
    apply reads_bind with (G := fun _ w => if js_and v 0x40 =? 0 then w = [] else leb_bytes w).
    - destruct (js_and v 0x40 =? 0); cbn [negb].
      + eapply reads_ext; [|apply (reads_ret tt)]. intros [] w. tauto.
      + apply reads_skip_leb.
    - intros ?. apply reads_skip_leb. }
  intros [] w. cbv beta. split.
  - intros (v & w1 & w2 & -> & Hv & [] & w3 & w4 & -> & H3 & H4).
    destruct (Z.eqb_spec (js_and v 0x40) 0).
    + subst w3. by eapply memarg_default.
    + by eapply memarg_indexed.
  - destruct 1 as [al v off Hv Hz Ho|al v mem off Hv Hz Hm Ho]; exists v, al; eexists.
    + split_and!; [done|done|]. exists tt, [], off. rewrite Hz. done.
    + split_and!; [done|done|]. exists tt, mem, off.
      destruct (Z.eqb_spec (js_and v 0x40) 0); done.
Qed.

Lemma reads_seq {A} (m1 : rd unit) (m2 : rd A) G1 G2 :
  reads m1 (fun _ => G1) -> reads m2 G2 ->
  reads (m1 ;> m2) (fun x w => exists w1 w2, w = w1 ++ w2 /\ G1 w1 /\ G2 x w2).
Proof.
  intros H1 H2. eapply reads_ext; [|exact (reads_bind _ _ _ _ H1 (fun _ => H2))].
  intros x w. split; [intros ([] & ?)|exists tt]; done.
Qed.

Lemma reads_then {A} (m : rd unit) (y : A) G :
  reads m (fun _ => G) -> reads (m ;> rd_ret y) (fun x w => x = y /\ G w).
Proof.
  intros Hm. eapply reads_ext; [|exact (reads_seq _ _ _ _ Hm (reads_ret y))].
  intros x w. split.
  - intros (w1 & w2 & -> & HG & -> & ->). by rewrite app_nil_r.
  - intros [-> HG]. exists w, []. by rewrite app_nil_r.
Qed.

Lemma reads_skip_local : reads skip_local (fun _ => local_decl).
Proof.
  eapply reads_ext; [|apply (reads_seq _ _ _ _ reads_skip_leb (reads_peek_leb _))].
  intros [] w. split; [intros (n & t & -> & Hn & Ht); by constructor|].
  destruct 1 as [n t Hn Ht]. by exists n, t.
Qed.

(** The kind byte of a catch clause and, for the tagged kinds, the tag index. *)
Lemma reads_skip_clause : reads skip_clause (fun _ => catch_clause).
Proof.
  unfold skip_clause. eapply reads_ext; cycle 1.
  { refine (reads_seq _ _ (fun w => exists k t, w = [k] ++ t /\
        ((k = 0 \/ k = 1) /\ leb_bytes t \/ (k = 2 \/ k = 3) /\ t = [])) _ _ reads_skip_leb).
    split.
    - intros b cur e [] p Hb Hc He Hl. destruct (Z.leb_spec e cur).
      { split; [by intros [? _]|].
        intros (a & w & c & _ & _ & (k & t & -> & _) & -> & Hp). blia. }
      destruct (at_lt_Some b cur) as [k Hk]; [lia|]. rewrite Hk. cbn [num_or_0].
      apply at_split in Hk as (a & c & Hbs & Ha).
      pose proof (reads_in _ _ reads_skip_leb b (cur + 1) e tt p Hb ltac:(lia) He Hl) as Hs.
      assert (Hw : forall a' w c', b = a' ++ w ++ c' -> blen a' = cur -> 0 < blen w ->
                   exists t, w = k :: t /\ a' = a /\ c = t ++ c').
      { intros a' w c' Hb' Ha' Hw. rewrite Hbs in Hb'.
        apply app_inj_len in Hb' as [-> Hb']; [|lia].
        destruct w as [|x t]; [by unfold blen in Hw|]. injection Hb' as <- ->. by exists t. }
      destruct (Z.eqb_spec k 0) as [->|Hk0]; cbn [orb]; [|destruct (Z.eqb_spec k 1) as [->|Hk1]; cbn [orb]].
      1,2: rewrite Hs; split;
        [intros (a' & w & c' & Hb' & Ha' & Hlw & -> & Hp);
         eexists a, (_ :: w), c'; split_and!;
         [rewrite Hbs in Hb' |- *; rewrite app_assoc in Hb';
            apply app_inj_len in Hb' as [_ ->]; [done|blia]
         |done|eexists _, w; split; [done|]; tauto|blia|done]
        |intros (a' & w & c' & Hb' & Ha' & (k & t & -> & Hkt) & -> & Hp);
         destruct (Hw _ _ _ Hb' Ha' ltac:(blia)) as (t' & [= -> ->] & -> & ->);
         eexists (a ++ [_]), t', c'; split_and!;
         [rewrite Hbs; app_eq|blia|destruct Hkt as [[_ ?]|[? _]]; [done|lia]|blia|done]].
      destruct (Z.eqb_spec k 2) as [->|Hk2]; [|destruct (Z.eqb_spec k 3) as [->|Hk3]]; cbn [andb negb].
      1,2: split;
        [intros [[= <-] Hp]; eexists a, [_], c; split_and!;
         [done|done|eexists _, []; split; [done|]; tauto|done|done]
        |intros (a' & w & c' & Hb' & Ha' & (k & t & -> & Hkt) & -> & Hp);
         destruct (Hw _ _ _ Hb' Ha' ltac:(blia)) as (t' & [= -> ->] & -> & ->);
         destruct Hkt as [[? _]|[_ ->]]; [lia|]; done].
      split; [by intros [? _]|].
      intros (a' & w & c' & Hb' & Ha' & (k' & t & -> & Hkt) & -> & Hp).
      destruct (Hw _ _ _ Hb' Ha' ltac:(blia)) as (t' & [= -> ->] & -> & ->). lia.
    - intros b cur e x p _ Hc. by destruct (Z.leb_spec e cur); [|lia]. }
  intros [] w. cbv beta. split.
  - intros (w1 & l & -> & (k & t & -> & [[Hk Ht]|[Hk ->]]) & Hlb).
    + rewrite <- app_assoc. by constructor.
    + by constructor.
  - destruct 1 as [k t l Hk Ht Hl|k l Hk Hl].
    + exists ([k] ++ t), l. split_and!; [app_eq| |done]. exists k, t. tauto.
    + exists [k], l. split_and!; [done| |done]. exists k, []. tauto.
Qed.

Lemma reads_uleb_then {A} (k : Z -> rd A) K :
  (forall v, 0 <= v -> reads (k v) (K v)) ->
  reads (rd_bind read_leb k) (fun x w => exists v w1 w2, w = w1 ++ w2 /\ uleb v w1 /\ K v x w2).
Proof.
  intros Hk.
  assert (Hu : reads read_leb (fun v w => 0 <= v /\ uleb v w)).
  { eapply reads_ext; [|apply reads_read_leb]. intros v w. split; [|tauto].
    intros Hv. split; [by apply (uleb_nonneg v w)|done]. }
  split.
  - intros b cur e y p Hb Hc He Hl.
    assert (Hk' : forall v, exists K', reads (k (Z.max 0 v)) K') by (intros v; eexists; apply Hk; lia).
    pose proof (reads_bind _ (fun v => k (Z.max 0 v)) _ (fun v => K (Z.max 0 v)) Hu) as Hbd.
    destruct Hbd as [Hin _]; [intros v; apply Hk; lia|].
    specialize (Hin b cur e y p Hb Hc He Hl). unfold rd_bind in Hin |- *.
    destruct (read_leb b cur e) as [[v q]|] eqn:E.
    + cbn [rbind] in *.
      assert (Hv : 0 <= v).
      { unfold read_leb in E. destruct (readLeb b cur e) as [[v' n']|] eqn:Er; [|done].
        apply readLeb_spec in Er as (a & w & c & _ & _ & Hw & Hw8 & [= -> ->] & _); [|done..].
        injection E as <- _. by apply (uleb_nonneg _ w). }
      rewrite Z.max_r in Hin by done. rewrite Hin.
      split; intros (a & w & c & ? & ? & (v' & w1 & w2 & ? & Hv' & HK) & ? & ?);
        exists a, w, c; split_and!; try done; exists v', w1, w2.
      * destruct Hv' as [Hv' ?]. by rewrite Z.max_r in HK.
      * pose proof (uleb_nonneg _ _ Hv'). by rewrite Z.max_r.
    + split; [by intros [? _]|]. intros (a & w & c & ? & ? & (v' & w1 & w2 & ? & Hv' & HK) & ? & ?).
      apply Hin. exists a, w, c. split_and!; try done. exists v', w1, w2.
      pose proof (uleb_nonneg _ _ Hv'). by rewrite Z.max_r.
  - intros b cur e y p Hl Hc. unfold rd_bind, read_leb, readLeb.
    by destruct (Z.leb_spec e cur); [|lia].
Qed.

Lemma reads_skipVec_leb :
  reads skipVec_leb (fun _ w => exists n cnt ls, w = cnt ++ ls /\ uleb n cnt /\ vec leb_bytes n ls).
Proof.
  eapply reads_ext; cycle 1.
  { apply reads_uleb_then. intros n _.
    apply reads_seq; [apply reads_for; [apply reads_skip_leb|apply leb_bytes_nonempty]|].
    apply reads_check_end. }
  intros [] w. cbv beta. split.
  - intros (n & cnt & w2 & -> & Hn & ls & w3 & -> & Hls & ->). rewrite app_nil_r. by exists n, cnt, ls.
  - intros (n & cnt & ls & -> & Hn & Hls). exists n, cnt, ls. split_and!; try done.
    exists ls, []. by rewrite app_nil_r.
Qed.

Lemma reads_skipVec_1 :
  reads skipVec_1 (fun _ w => exists n cnt ts, w = cnt ++ ts /\ uleb n cnt /\ blen ts = n).
Proof.
  eapply reads_ext; cycle 1.
  { apply reads_uleb_then. intros n Hn.
    apply reads_seq; [by apply reads_advance|apply reads_check_end]. }
  intros [] w. cbv beta. split.
  - intros (n & cnt & w2 & -> & Hn & ls & w3 & -> & Hls & ->). rewrite app_nil_r. by exists n, cnt, ls.
  - intros (n & cnt & ls & -> & Hn & Hls). exists n, cnt, ls. split_and!; try done.
    exists ls, []. by rewrite app_nil_r.
Qed.

(** Case analysis on an opcode test. *)
Ltac lit_cases E :=
  first [apply one_of_In in E | apply Z.eqb_eq in E]; simpl in E;
  repeat match type of E with _ \/ _ => destruct E as [E|E] end;
  try contradiction; subst.

Ltac not_one_of :=
  repeat match goal with
  | H : one_of ?x ?l = false |- _ =>
      let N := fresh "N" in
      assert (N : ~ In x l) by (rewrite <- one_of_In, H; done); clear H; simpl in N
  | H : one_of ?x ?l = true |- _ => apply one_of_In in H; simpl in H
  | H : (?x =? ?y) = false |- _ => apply Z.eqb_neq in H
  | H : (?x =? ?y) = true |- _ => apply Z.eqb_eq in H
  | H : (?a || ?b) = false |- _ => apply orb_false_iff in H as [? ?]
  | H : (?a || ?b) = true |- _ => apply orb_true_iff in H
  | H : (?a && ?b) = true |- _ => apply andb_true_iff in H as [? ?]
  | H : (?a && ?b) = false |- _ => apply andb_false_iff in H
  | H : (?x <=? ?y) = true |- _ => apply Z.leb_le in H
  | H : (?x <=? ?y) = false |- _ => apply Z.leb_gt in H
  end.

(** The grammar of 0xFC immediates, by sub-opcode. *)
Definition fc_imm (v : Z) (w : list Z) : Prop :=
  if one_of v [0; 1; 2; 3; 4; 5; 6; 7; 19; 20; 21; 22] then w = []
  else if one_of v [9; 11; 13; 15; 16; 17] then leb_bytes w
  else if one_of v [8; 10; 12; 14] then exists l l', w = l ++ l' /\ leb_bytes l /\ leb_bytes l'
  else False.

Lemma reads_leb2 {A} (y : A) :
  reads (skip_leb ;> skip_leb ;> rd_ret y)
    (fun x w => x = y /\ exists l l', w = l ++ l' /\ leb_bytes l /\ leb_bytes l').
Proof.
  eapply reads_ext; [|apply (reads_seq _ _ _ _ reads_skip_leb (reads_then _ y _ reads_skip_leb))].
  intros x w. split.
  - intros (l & l' & -> & Hl & -> & Hl'). eauto 10.
  - intros (-> & l & l' & -> & Hl & Hl'). eauto 10.
Qed.

Lemma reads_scan_fc :
  reads scan_fc (fun eff w => exists v sub w', w = sub ++ w' /\ uleb v sub /\ eff = eff0 /\ fc_imm v w').
Proof.
  unfold scan_fc. apply reads_uleb_then. intros v Hv. unfold fc_imm.
  repeat match goal with
  | |- reads (if ?c then _ else _) _ =>
      let E := fresh "E" in destruct c eqn:E; [lit_cases E; cbn|]
  end.
  all: try solve [apply reads_ret | apply reads_leb2 | apply reads_then, reads_skip_leb].
  eapply reads_ext; [|apply reads_throw]. intros x w. split; [done|]. intros [_ Hf].
  not_one_of.
  repeat match type of Hf with context [one_of v ?l] => destruct (one_of v l) eqn:?; [not_one_of; lia|] end.
  done.
Qed.

(** Read a sub-opcode's immediates: an [if] chain decided on [v]. *)
Ltac simd_iff :=
  intros ?x ?w; cbv beta; split;
  [ intros [-> ?H]; split; [done|]
  | intros [-> ?H]; split; [done|];
    match goal with H : simd_imm _ _ |- _ => destruct H; try done; try lia end ].

Lemma reads_scan_fd :
  reads scan_fd (fun eff w => exists v sub w', w = sub ++ w' /\ uleb v sub /\
    eff = (if FIXED_WIDTH_SIMD_LIMIT <=? v then eff_relaxed else eff_simd) /\ simd_imm v w').
Proof.
  unfold scan_fd. apply reads_uleb_then. intros v Hv.
  generalize (if FIXED_WIDTH_SIMD_LIMIT <=? v then eff_relaxed else eff_simd). intros eff.
  destruct (Z.leb_spec v 0x0b).
  { eapply reads_ext; [|apply reads_then, reads_skipMemArg]. simd_iff. by apply si_mem; [lia|]. }
  destruct ((v =? 0x0c) || (v =? 0x0d)) eqn:E1; not_one_of.
  { eapply reads_ext; [|apply reads_then, reads_advance; lia]. simd_iff.
    apply si_const; [|done]. not_one_of. destruct E1; not_one_of; lia. }
  destruct ((0x15 <=? v) && (v <=? 0x22)) eqn:E2; not_one_of.
  { eapply reads_ext; [|apply reads_then, reads_advance; lia]. simd_iff. by apply si_lane. }
  destruct ((0x54 <=? v) && (v <=? 0x5b)) eqn:E3; not_one_of.
  { eapply reads_ext;
      [|apply (reads_seq _ _ _ _ reads_skipMemArg (reads_then _ eff _ (reads_advance 1 ltac:(lia))))].
    intros x w. cbv beta. split.
    - intros (m & l & -> & Hm & -> & Hl). split; [done|]. by constructor.
    - intros [-> Hsi]. destruct Hsi; try lia. eauto 10. }
  destruct ((v =? 0x5c) || (v =? 0x5d)) eqn:E4; not_one_of.
  { eapply reads_ext; [|apply reads_then, reads_skipMemArg]. simd_iff.
    apply si_mem; [|done]. destruct E4; not_one_of; lia. }
  assert (v < 0x15 \/ 0x22 < v) by (destruct E2; not_one_of; lia).
  assert (v < 0x54 \/ 0x5b < v) by (destruct E3; not_one_of; lia).
  eapply reads_ext; [|apply reads_ret]. intros x w. cbv beta. split.
  - intros [-> ->]. split; [done|]. apply si_none. lia.
  - intros [-> Hsi]. destruct Hsi; try lia; done.
Qed.

Lemma reads_scan_fe :
  reads scan_fe (fun eff w => exists v sub w', w = sub ++ w' /\ uleb v sub /\
    eff = eff_atomic /\ (if v =? 0x03 then blen w' = 1 else memarg w')).
Proof.
  unfold scan_fe. apply reads_uleb_then. intros v Hv. destruct (v =? 0x03).
  - apply reads_then, reads_advance. lia.
  - apply reads_then, reads_skipMemArg.
Qed.

(** [R] reads the immediates of a literal opcode: both directions by the constructors. *)
Ltac op_then R :=
  eapply reads_ext; [|apply R];
  intros ?eff ?w; cbv beta; split;
  [ intros [-> ?Hg]; subst; econstructor; eauto; done
  | let Hi := fresh in intros Hi; inversion Hi; subst; try discriminate; try lia; done ].

Lemma fc_imm_instr v sub w :
  uleb v sub -> fc_imm v w -> instr (0xfc :: sub ++ w) eff0.
Proof.
  intros Hv. unfold fc_imm. repeat case_match; [..|done].
  - intros ->. rewrite app_nil_r. by eapply in_fc0.
  - by eapply in_fc1.
  - intros (l & l' & -> & Hl & Hl'). by eapply in_fc2.
Qed.

Lemma instr_fc_imm w eff :
  instr (0xfc :: w) eff ->
  exists v sub w', w = sub ++ w' /\ uleb v sub /\ eff = eff0 /\ fc_imm v w'.
Proof.
  assert (Hgo : forall v l w', one_of v l = true ->
    (forall v, In v l -> fc_imm v w') -> fc_imm v w') by (intros; by apply H0, one_of_In).
  intros H. inversion H; subst; try discriminate; try lia;
    match goal with Hu : uleb ?v ?s |- _ => exists v, s end.
  - exists []. rewrite app_nil_r. split_and!; try done.
    eapply Hgo; [done|]. simpl. intros u Hu. by repeat destruct Hu as [<-|Hu].
  - eexists. split_and!; try done.
    eapply Hgo; [done|]. simpl. intros u Hu. by repeat destruct Hu as [<-|Hu].
  - eexists. split_and!; try done.
    eapply Hgo; [done|]. simpl. intros u Hu. repeat destruct Hu as [<-|Hu]; try done;
      unfold fc_imm; cbn; eauto.
Qed.

Lemma reads_leb1 (y : effect) : reads (skip_leb ;> rd_ret y) (fun x w => x = y /\ leb_bytes w).
Proof. apply reads_then, reads_skip_leb. Qed.
Lemma reads_bt1 (y : effect) : reads (skipBlockType ;> rd_ret y) (fun x w => x = y /\ leb_bytes w).
Proof. apply reads_then, reads_skipBlockType. Qed.
Lemma reads_heap1 (y : effect) :
  reads ((fun bytes cursor end_ =>
       if (cursor <? end_) && negb (js_and (num_or_0 (at_ bytes cursor)) 0x80 =? 0)
       then skip_leb bytes cursor end_ else advance 1 bytes cursor end_) ;> rd_ret y)
    (fun x w => x = y /\ leb_bytes w).
Proof. apply (reads_then _ y _ reads_heaptype). Qed.
Lemma reads_f32 (y : effect) : reads (advance 4 ;> rd_ret y) (fun x w => x = y /\ blen w = 4).
Proof. apply reads_then, reads_advance. lia. Qed.
Lemma reads_f64 (y : effect) : reads (advance 8 ;> rd_ret y) (fun x w => x = y /\ blen w = 8).
Proof. apply reads_then, reads_advance. lia. Qed.

Lemma reads_try_table (y : effect) :
  reads (skipBlockType ;> (clauses <~ read_leb; rd_for clauses skip_clause ;> rd_ret y))
    (fun x w => x = y /\ exists bt cnt n cls, w = bt ++ cnt ++ cls /\ leb_bytes bt /\ uleb n cnt /\
       vec catch_clause n cls).
Proof.
  eapply reads_ext; cycle 1.
  { apply reads_seq; [apply reads_skipBlockType|]. apply reads_uleb_then. intros n _.
    apply reads_then, reads_for; [apply reads_skip_clause|apply catch_clause_nonempty]. }
  intros x w. cbv beta. split.
  - intros (bt & w2 & -> & Hbt & n & cnt & cls & -> & Hn & -> & Hcls). split; [done|].
    by exists bt, cnt, n, cls.
  - intros (-> & bt & cnt & n & cls & -> & Hbt & Hn & Hcls).
    exists bt, (cnt ++ cls). split_and!; try done. by exists n, cnt, cls.
Qed.

Lemma reads_br_table (y : effect) :
  reads (skipVec_leb ;> skip_leb ;> rd_ret y)
    (fun x w => x = y /\ exists cnt n ls l, w = cnt ++ ls ++ l /\ uleb n cnt /\
       vec leb_bytes n ls /\ leb_bytes l).
Proof.
  eapply reads_ext;
    [|apply (reads_seq _ _ _ _ reads_skipVec_leb (reads_then _ y _ reads_skip_leb))].
  intros x w. cbv beta. split.
  - intros (w1 & l & -> & (n & cnt & ls & -> & Hn & Hls) & -> & Hl). split; [done|].
    exists cnt, n, ls, l. split_and!; try done. app_eq.
  - intros (-> & cnt & n & ls & l & -> & Hn & Hls & Hl).
    exists (cnt ++ ls), l. split_and!; try done; [app_eq|]. by exists n, cnt, ls.
Qed.

(** After the opcode byte, [scan_op] reads the immediates of that instruction and nothing
    else, and reports its effect. *)
Lemma reads_scan_op op : is_byte op -> reads (scan_op op) (fun eff w => instr (op :: w) eff).
Proof.
  intros Hop. unfold scan_op.
  repeat match goal with
  | |- reads (if one_of ?x ?l then _ else _) _ =>
      let E := fresh "E" in
      destruct (one_of x l) eqn:E;
      [lit_cases E; repeat match goal with H : _ = false |- _ => clear H end|]
  | |- reads (if ?x =? ?y then _ else _) _ =>
      let E := fresh "E" in
      destruct (x =? y) eqn:E;
      [lit_cases E; repeat match goal with H : _ = false |- _ => clear H end|]
  end.
  all: try op_then (reads_ret (A:=effect)).
  all: try op_then reads_leb1.
  all: try op_then reads_bt1.
  all: try op_then reads_heap1.
  all: try op_then reads_f32.
  all: try op_then reads_f64.
  - eapply reads_ext; [|apply reads_try_table]. intros x w. split.
    + intros (-> & bt & cnt & n & cls & -> & ? & ? & ?). by eapply in_try_table.
    + intros Hi. inversion Hi; subst; try discriminate; try lia. split; [done|]. eauto 12.
  - eapply reads_ext; [|apply reads_br_table]. intros x w. split.
    + intros (-> & cnt & n & ls & l & -> & ? & ? & ?). by eapply in_br_table.
    + intros Hi. inversion Hi; subst; try discriminate; try lia. split; [done|]. eauto 12.
  - eapply reads_ext; [|apply reads_leb2]. intros x w. split.
    + intros (-> & l & l' & -> & ? & ?). by eapply in_leb2.
    + intros Hi. inversion Hi; subst; try discriminate; try lia. split; [done|]. eauto 12.
  - eapply reads_ext; [|apply reads_leb2]. intros x w. split.
    + intros (-> & l & l' & -> & ? & ?). by eapply in_leb2.
    + intros Hi. inversion Hi; subst; try discriminate; try lia. split; [done|]. eauto 12.
  - eapply reads_ext; [|apply (reads_then _ _ _ reads_skipVec_1)]. intros x w. cbv beta. split.
    + intros (-> & n & cnt & ts & -> & ? & ?). by eapply in_select.
    + intros Hi. inversion Hi; subst; try discriminate; try lia. split; [done|]. eauto 12.
  - eapply reads_ext; [|apply reads_scan_fc]. intros x w. cbv beta. split.
    + intros (v & sub & w' & -> & Hv & -> & Hi). by eapply fc_imm_instr.
    + apply instr_fc_imm.
  - eapply reads_ext; [|apply reads_scan_fd]. intros x w. cbv beta. split.
    + intros (v & sub & w' & -> & Hv & -> & Hi). destruct (Z.leb_spec FIXED_WIDTH_SIMD_LIMIT v) as [Hle|].
      * unfold FIXED_WIDTH_SIMD_LIMIT in *. destruct Hi; try lia. rewrite app_nil_r. by eapply in_relaxed.
      * by eapply in_simd.
    + intros Hi. inversion Hi; subst; try discriminate; try lia.
      * exists v, sub, w0. split_and!; try done. by destruct (Z.leb_spec FIXED_WIDTH_SIMD_LIMIT v); [lia|].
      * exists v, w, []. rewrite app_nil_r. split_and!; try done.
        -- by destruct (Z.leb_spec FIXED_WIDTH_SIMD_LIMIT v); [|lia].
        -- unfold FIXED_WIDTH_SIMD_LIMIT in *. apply si_none. lia.
  - eapply reads_ext; [|apply reads_scan_fe]. intros x w. cbv beta. split.
    + intros (v & sub & w' & -> & Hv & -> & Hi). destruct (Z.eqb_spec v 3) as [->|].
      * by eapply in_fence.
      * by eapply in_atomic.
    + intros Hi. inversion Hi; subst; try discriminate; try lia.
      * by exists 3, sub, w0.
      * exists v, sub, w0. split_and!; try done. by destruct (Z.eqb_spec v 3); [lia|].
  - not_one_of. unfold is_byte in Hop.
    destruct ((0x28 <=? op) && (op <=? 0x3e)) eqn:Em; not_one_of.
    { eapply reads_ext; [|apply (reads_then _ _ _ reads_skipMemArg)]. intros x w. cbv beta. split.
      - intros [-> Hm]. by apply in_memory.
      - intros Hi. inversion Hi; subst; not_one_of; try lia. done. }
    destruct ((0x45 <=? op) && (op <=? 0xc4)) eqn:En; not_one_of.
    { eapply reads_ext; [|apply reads_ret]. intros x w. cbv beta. split.
      - intros [-> ->]. by apply in_numeric.
      - intros Hi. inversion Hi; subst; not_one_of; try lia. done. }
    eapply reads_ext; [|apply reads_throw]. intros x w. cbv beta. split; [done|].
    intros Hi. inversion Hi; subst; not_one_of; try lia.
Qed.

(** ** Function bodies *)

(** The instructions of a body entered at block depth [d]: each one is met while a block is
    open, and the last one closes the outermost block. *)
Inductive body_instrs : Z -> list Z -> counts -> Prop :=
| bi_closed : body_instrs 0 [] zero_counts
| bi_instr d w eff rest c :
    d <> 0 -> instr w eff -> body_instrs (d + depth_change eff) rest c ->
    body_instrs d (w ++ rest) (counts_add (counted eff) c).

(** A function body: the local declarations, then the instructions of its block. *)
Definition function_body (w : list Z) (c : counts) : Prop :=
  exists n cnt locals body, w = cnt ++ locals ++ body /\ uleb n cnt /\ vec local_decl n locals /\
    body_instrs 1 body c.

(** The entries of a code section: [n] sized function bodies. *)
Inductive code_entries : Z -> list Z -> counts -> Prop :=
| ce_nil n : n <= 0 -> code_entries n [] zero_counts
| ce_entry n size size_bytes body c rest c' :
    0 < n -> uleb size size_bytes -> blen body = size -> function_body body c ->
    code_entries (n - 1) rest c' ->
    code_entries n (size_bytes ++ body ++ rest) (counts_add c c').

Lemma counts_add_0 c : counts_add c zero_counts = c.
Proof. destruct c. unfold counts_add. cbn. f_equal; lia. Qed.
Lemma counts_add_0_l c : counts_add zero_counts c = c.
Proof. by destruct c. Qed.
Lemma counts_add_assoc a b c : counts_add (counts_add a b) c = counts_add a (counts_add b c).
Proof. unfold counts_add. cbn. f_equal; lia. Qed.
Lemma counts_add_inj a b c : counts_add a b = counts_add a c -> b = c.
Proof. destruct a, b, c. intros [= ]. f_equal; lia. Qed.

Lemma instr_cons w eff : instr w eff -> exists op w', w = op :: w'.
Proof. destruct 1; eauto. Qed.

Lemma uleb_nonempty v w : uleb v w -> 0 < blen w.
Proof. intros (Hw & _). by apply leb_bytes_nonempty. Qed.

Lemma bi_inv d w c : body_instrs d w c ->
  (d = 0 /\ w = [] /\ c = zero_counts) \/
  exists eff op w' rest c', w = (op :: w') ++ rest /\ c = counts_add (counted eff) c' /\ d <> 0 /\
    instr (op :: w') eff /\ body_instrs (d + depth_change eff) rest c'.
Proof.
  destruct 1 as [|d w eff rest c Hd Hi Hr]; [by left|right].
  destruct (instr_cons _ _ Hi) as (op & w' & ->). by exists eff, op, w', rest, c.
Qed.

Lemma scan_loop_spec fuel : forall b e cur d acc c,
  (Z.to_nat (e - cur) <= fuel)%nat -> bytes_ok b -> 0 <= cur <= e -> e <= blen b -> e < 2 ^ 53 ->
  scan_loop fuel b e cur d acc = Ok c <->
  exists a w z c', b = a ++ w ++ z /\ blen a = cur /\ cur + blen w = e /\ body_instrs d w c' /\
    c = counts_add acc c'.
Proof.
  induction fuel as [|fuel IH]; intros b e cur d acc c Hf Hb Hc He Hl; cbn [scan_loop];
    (destruct (Z.ltb_spec cur e) as [Hlt|Hge];
     [|assert (cur = e) as -> by lia; destruct (Z.eqb_spec d 0) as [->|Hd]; cbn [negb]]).
  1: lia.
  1,4: split;
    [intros [= <-]; destruct (split_len b e) as (a & z & -> & Ha); [lia|];
     exists a, [], z, zero_counts; split_and!; [done|done|blia|apply bi_closed|by rewrite counts_add_0]
    |intros (a & w & z & c' & -> & <- & Hw & Hi & ->); 
     apply bi_inv in Hi as [(_ & -> & ->)|(? & ? & ? & ? & ? & _ & _ & ? & _)]; [by rewrite counts_add_0|done]].
  1,3: split; [done|]; intros (a & w & z & c' & -> & <- & Hw & Hi & ->);
    apply bi_inv in Hi as [(? & _)|(? & ? & ? & ? & ? & -> & _)]; [done|blia].
  destruct (Z.eqb_spec d 0) as [->|Hd].
  { split; [done|]. intros (a & w & z & c' & -> & <- & Hw & Hi & ->).
    apply bi_inv in Hi as [(_ & -> & _)|(? & ? & ? & ? & ? & _ & _ & ? & _)]; [blia|done]. }
  destruct (at_lt_Some b cur) as [op Hx]; [lia|]. rewrite Hx. cbn [num_or_0].
  pose proof (at_Forall _ _ _ _ Hb Hx) as Hop.
  apply at_split in Hx as (a & y & Hby & Ha).
  assert (Ha1 : blen (a ++ [op]) = cur + 1) by blia.
  pose proof (reads_in _ _ (reads_scan_op op Hop) b (cur + 1) e) as Hin. split.
  - intros H. destruct (scan_op op b (cur + 1) e) as [[eff p]|] eqn:Eo; [|done]. cbn [rbind] in H.
    destruct (Z.ltb_spec e p) as [|Hp]; [done|].
    destruct (proj1 (Hin eff p Hb ltac:(lia) He Hl)) as (a' & w & z & Hb' & Ha' & Hi & -> & _); [done|].
    pose proof (blen_nonneg w).
    apply IH in H as (a2 & w2 & z2 & c' & Hb2 & Ha2 & Hw2 & Hbi & ->); [|blia|done|blia|done|done].
    assert (a' = a ++ [op] /\ w ++ z = y) as [-> <-].
    { apply app_inj_len; [blia|]. rewrite <- Hb', Hby. app_eq. }
    assert (a2 = a ++ op :: w /\ w2 ++ z2 = z) as [-> <-].
    { apply app_inj_len; [blia|]. rewrite <- Hb2, Hby. app_eq. }
    exists a, ((op :: w) ++ w2), z2, (counts_add (counted eff) c').
    split_and!; [rewrite Hby; app_eq|done|blia|by constructor|by rewrite counts_add_assoc].
  - intros (a' & w & z & c' & Hb' & Ha' & Hw & Hi & ->).
    apply bi_inv in Hi as [(_ & -> & _)|(eff & op' & w1 & rest & c1 & -> & -> & _ & Hi & Hr)];
      [blia|].
    assert (a' = a /\ op' = op /\ w1 ++ rest ++ z = y) as (-> & -> & <-).
    { rewrite Hby in Hb'. apply app_inj_len in Hb' as [-> Hb']; [|lia].
      cbn [app] in Hb'. injection Hb' as <- ->. by rewrite app_assoc. }
    destruct (proj2 (Hin eff (cur + 1 + blen w1) Hb ltac:(lia) He Hl)) as [-> _].
    { exists (a ++ [op]), w1, (rest ++ z). split_and!; [rewrite Hby; app_eq|done|done|done|blia]. }
    cbn [rbind]. destruct (Z.ltb_spec e (cur + 1 + blen w1)); [blia|].
    apply IH; [blia|done|blia|done|done|].
    exists (a ++ op :: w1), rest, z, c1.
    split_and!; [rewrite Hby; app_eq|blia|blia|done|by rewrite counts_add_assoc].
Qed.

Lemma reads_locals :
  reads (localVecCount <~ read_leb; rd_for localVecCount skip_local)
    (fun _ w => exists n cnt ls, w = cnt ++ ls /\ uleb n cnt /\ vec local_decl n ls).
Proof.
  eapply reads_ext; cycle 1.
  { apply reads_uleb_then. intros n _.
    apply reads_for; [apply reads_skip_local|apply local_decl_nonempty]. }
  intros [] w. cbv beta. split; intros (n & cnt & ls & -> & ? & ?); by exists n, cnt, ls.
Qed.

(** [scanFunctionBody] accepts a body exactly when its bytes are a function body of the
    binary grammar, and returns the counts of its instructions. *)
Lemma scanFunctionBody_spec b s e c :
  bytes_ok b -> 0 <= s <= e -> e <= blen b -> e < 2 ^ 53 ->
  scanFunctionBody b s e = Ok c <->
  exists a w z, b = a ++ w ++ z /\ blen a = s /\ s + blen w = e /\ function_body w c.
Proof.
  intros Hb Hs He Hl. unfold scanFunctionBody.
  pose proof (reads_in _ _ reads_locals b s e) as Hin. split.
  - intros H. destruct ((localVecCount <~ read_leb; rd_for localVecCount skip_local) b s e)
      as [[[] p]|] eqn:Ep; [|done]. cbn [rbind] in H.
    destruct (Z_lt_ge_dec e p) as [Hout|Hp].
    { replace (Z.to_nat (e - p)) with O in H by lia. cbn [scan_loop] in H.
      by destruct (Z.ltb_spec p e); [lia|]. }
    destruct (proj1 (Hin tt p Hb ltac:(lia) He Hl)) as (a & w & z & Hb' & Ha & Hw & -> & _);
      [split; [done|lia]|]. pose proof (blen_nonneg w).
    apply scan_loop_spec in H as (a2 & w2 & z2 & c' & Hb2 & Ha2 & Hw2 & Hbi & ->);
      [|lia|done|lia|done|done].
    assert (a2 = a ++ w /\ w2 ++ z2 = z) as [-> <-].
    { apply app_inj_len; [blia|]. rewrite <- Hb2, Hb'. app_eq. }
    destruct Hw as (n & cnt & ls & -> & Hn & Hls). rewrite counts_add_0_l.
    exists a, ((cnt ++ ls) ++ w2), z2. split_and!; [rewrite Hb'; app_eq|done|blia|].
    exists n, cnt, ls, w2. split_and!; try done. app_eq.
  - intros (a & w & z & Hb' & Ha & Hw & n & cnt & ls & body & -> & Hn & Hls & Hbi).
    destruct (proj2 (Hin tt (s + blen (cnt ++ ls)) Hb ltac:(lia) He Hl)) as [-> _].
    { exists a, (cnt ++ ls), (body ++ z). split_and!; [rewrite Hb'; app_eq|done| |done|blia].
      by exists n, cnt, ls. }
    cbn [rbind]. apply scan_loop_spec; [lia|done|blia|done|done|].
    exists (a ++ cnt ++ ls), body, z, c.
    split_and!; [rewrite Hb'; app_eq|blia|blia|done|by rewrite counts_add_0_l].
Qed.

Lemma scan_functions_mono fuel : forall b e i n cur acc,
  undecodableFunctions acc <= undecodableFunctions (scan_functions fuel b e i n cur acc).
Proof.
  induction fuel as [|fuel IH]; intros b e i n cur acc; cbn [scan_functions];
    (destruct (Z.ltb_spec i n); [|done]); [done|].
  destruct (_ <=? _); [cbn; lia|]. destruct (readLeb _ _ _) as [x|]; [|cbn; lia].
  destruct (_ <? _); [cbn; lia|].
  match goal with |- context [scan_functions _ _ _ _ _ _ ?a] => specialize (IH b e (i + 1) n (num_add (nextOffset x) (value x)) a) end.
  destruct (scanFunctionBody _ _ _); cbn in IH; lia.
Qed.

Lemma ce_inv n w c : code_entries n w c -> 0 < n ->
  exists size size_bytes body c1 rest c2, w = size_bytes ++ body ++ rest /\ c = counts_add c1 c2 /\
    uleb size size_bytes /\ blen body = size /\ function_body body c1 /\ code_entries (n - 1) rest c2.
Proof. destruct 1; [lia|]. intros _. eauto 15. Qed.

Lemma read_uleb b e a s sb y :
  bytes_ok b -> e <= blen b -> b = a ++ sb ++ y -> uleb s sb -> blen a + blen sb <= e ->
  readLeb b (blen a) e = Ok (LebInfo s (blen a + blen sb)).
Proof.
  intros Hb He Hab (Hu1 & Hu2 & ->) Hle. apply readLeb_spec; [done|apply blen_nonneg|done|].
  by exists a, sb, y.
Qed.

(** The entry that starts at a given place is determined by the bytes. *)
Lemma code_entry_at b e a0 sb z0 n a w z c :
  bytes_ok b -> e <= blen b -> b = a0 ++ sb ++ z0 -> uleb (to_double (leb_value sb)) sb ->
  blen a0 + blen sb <= e -> 0 < n -> b = a ++ w ++ z -> blen a = blen a0 -> blen a + blen w <= e ->
  code_entries n w c ->
  exists body rest c1 c2, w = sb ++ body ++ rest /\ a = a0 /\ z0 = body ++ rest ++ z /\
    blen body = to_double (leb_value sb) /\ function_body body c1 /\
    code_entries (n - 1) rest c2 /\ c = counts_add c1 c2.
Proof.
  intros Hb He Hb0 Hu0 Hle Hn Hb' Ha Hw Hce.
  apply ce_inv in Hce as (s & sb' & body & c1 & rest & c2 & -> & -> & Hu & Hbody & Hfb & Hce); [|lia].
  assert (a = a0 /\ sb' ++ body ++ rest ++ z = sb ++ z0) as [-> Heq].
  { apply app_inj_len; [lia|]. rewrite <- Hb0, Hb'. app_eq. }
  pose proof (read_uleb b e a0 _ sb z0 Hb He Hb0 Hu0 Hle) as H1.
  rewrite (read_uleb b e a0 s sb' (body ++ rest ++ z)) in H1; [|done|done|rewrite Hb'; app_eq|done|blia].
  injection H1 as -> Hlen. apply app_inj_len in Heq as [-> <-]; [|lia].
  by exists body, rest, c1, c2.
Qed.

Lemma scan_functions_spec fuel : forall b e i n cur acc c,
  (Z.to_nat (e - cur) < fuel)%nat -> bytes_ok b -> 0 <= cur <= e -> e <= blen b -> e < 2 ^ 53 ->
  undecodableFunctions acc = 0 ->
  scan_functions fuel b e i n cur acc = Totals c 0 <->
  exists a w z c', b = a ++ w ++ z /\ blen a = cur /\ cur + blen w <= e /\
    code_entries (n - i) w c' /\ c = counts_add (total acc) c'.
Proof.
  induction fuel as [|fuel IH]; intros b e i n cur acc c Hf Hb Hc He Hl Hacc; [lia|].
  cbn [scan_functions]. destruct (Z.ltb_spec i n) as [Hin|Hout].
  2: { split.
       - intros ->. destruct (split_len b cur) as (a & z & -> & Ha); [lia|].
         exists a, [], z, zero_counts. rewrite counts_add_0.
         split_and!; [done|done|blia|apply ce_nil; lia|done].
       - intros (a & w & z & c' & _ & _ & _ & Hce & ->).
         inversion Hce; subst; [|lia]. rewrite counts_add_0. destruct acc. cbn in *. by rewrite Hacc. }
  destruct (Z.leb_spec e cur) as [Hge|Hlt].
  { split; [intros [= _ ?]; lia|]. intros (a & w & z & c' & -> & Ha & Hw & Hce & _).
    apply ce_inv in Hce as (? & ? & ? & ? & ? & ? & -> & _ & Hu%uleb_nonempty & _); [|lia]. blia. }
  destruct (readLeb b cur e) as [[sz q]|] eqn:Er.
  2: { split; [intros [= _ ?]; lia|]. intros (a & w & z & c' & Hb' & <- & Hw & Hce & _).
       apply ce_inv in Hce as (s & sb & body & ? & rest & ? & -> & _ & Hu & _); [|lia].
       rewrite (read_uleb b e a s sb (body ++ rest ++ z)) in Er; [done|done|done|rewrite Hb'; app_eq|done|blia]. }
  apply readLeb_spec in Er as (a0 & sb & z0 & Hb0 & Ha0 & Hlb & Hsb8 & [= -> ->] & Hq); [|done|lia|done].
  pose proof (leb_bytes_nonempty _ Hlb) as Hsbne. cbn [nextOffset value].
  set (sz := to_double (leb_value sb)) in *.
  assert (Hsz : uleb sz sb) by done. pose proof (uleb_nonneg _ _ Hsz) as Hsz0.
  destruct (Z.ltb_spec e (num_add (cur + blen sb) sz)) as [Hover|Hbe].
  { split; [intros [= _ ?]; lia|]. intros (a & w & z & c' & Hb' & Ha & Hw & Hce & _).
    destruct (code_entry_at b e a0 sb z0 (n - i) a w z c') as (body & rest & c1 & c2 & -> & -> & _ & Hbody & _);
      try (done || lia).
    rewrite num_add_small in Hover; blia. }
  rewrite num_add_exact in * by lia.
  pose proof (scanFunctionBody_spec b (cur + blen sb) (cur + blen sb + sz)) as Hbody. split.
  - intros H. destruct (scanFunctionBody b (cur + blen sb) (cur + blen sb + sz)) as [c1|] eqn:Es.
    2: { pose proof (scan_functions_mono fuel b e (i + 1) n (cur + blen sb + sz)
           (Totals (total acc) (undecodableFunctions acc + 1))) as Hm. rewrite H in Hm. cbn in Hm. lia. }
    apply IH in H as (a & w & z & c' & Hb' & Ha & Hw & Hce & ->); [|lia|done|lia|done|done|done].
    destruct (proj1 (Hbody c1 Hb ltac:(lia) ltac:(lia) ltac:(lia)) eq_refl)
      as (a1 & body & z1 & Hb1 & Ha1 & Hw1 & Hfb).
    assert (a1 = a0 ++ sb /\ body ++ z1 = z0) as [-> <-].
    { apply app_inj_len; [blia|]. rewrite <- Hb1, Hb0. app_eq. }
    assert (a = a0 ++ sb ++ body /\ w ++ z = z1) as [-> <-].
    { apply app_inj_len; [blia|]. rewrite <- Hb', Hb0. app_eq. }
    exists a0, (sb ++ body ++ w), z, (counts_add c1 c').
    split_and!; [rewrite Hb0; app_eq|done|blia| |cbn; by rewrite counts_add_assoc].
    eapply ce_entry; [lia|done|lia|done|]. by replace (n - i - 1) with (n - (i + 1)) by lia.
  - intros (a & w & z & c' & Hb' & Ha & Hw & Hce & ->).
    destruct (code_entry_at b e a0 sb z0 (n - i) a w z c')
      as (body & rest & c1 & c2 & -> & -> & -> & Hlen & Hfb & Hce' & ->); try (done || lia).
    replace (n - i - 1) with (n - (i + 1)) in Hce' by lia.
    rewrite (proj2 (Hbody c1 Hb ltac:(lia) ltac:(lia) ltac:(lia))).
    2: { exists (a0 ++ sb), body, (rest ++ z). split_and!; [rewrite Hb0; app_eq|blia|blia|done]. }
    apply IH; [lia|done|blia|done|done|done|].
    exists (a0 ++ sb ++ body), rest, z, c2.
    split_and!; [rewrite Hb0; app_eq|blia|blia|done|cbn; by rewrite counts_add_assoc].
Qed.

(** ** The code section of a module *)

(** The payload of a code section: a count and that many entries. Bytes after the last
    entry are not looked at. *)
Definition code_payload (p : list Z) (c : counts) : Prop :=
  exists n cnt entries extra, p = cnt ++ entries ++ extra /\ uleb n cnt /\ code_entries n entries c.

Definition payload_of (m : parsed_module) (s : section) : list Z :=
  subarray (bytes m) (payloadStart s) (payloadEnd s).

Lemma sections_payload off rest ss s :
  sections_bytes off rest ss -> 0 <= off -> In s ss ->
  off <= payloadStart s <= payloadEnd s /\ payloadEnd s <= off + blen rest.
Proof.
  induction 1 as [off|off raw s' rest ss Hs _ IH]; intros Ho; [done|].
  intros [<-|Hin].
  - destruct Hs; cbn [payloadStart payloadEnd]; subst; blia.
  - destruct IH as [? ?]; [blia|done|]. blia.
Qed.

Lemma code_section_scan b s e c :
  bytes_ok b -> 0 <= s <= e -> e <= blen b -> e < 2 ^ 53 ->
  match readLeb b s e with
  | Throw _ => Totals zero_counts 1
  | Ok funcCount =>
      scan_functions (S (length b)) b e 0 (value funcCount) (nextOffset funcCount) (Totals zero_counts 0)
  end = Totals c 0 <-> code_payload (subarray b s e) c.
Proof.
  intros Hb Hs He Hl.
  destruct (subarray_split b s e) as (p & q & Hpq & Hp & Hm); [lia..|].
  set (m := subarray b s e) in *. clearbody m. split.
  - destruct (readLeb b s e) as [[n cur]|] eqn:Er; [|done].
    apply readLeb_spec in Er as (a & cnt & z & Hb' & Ha & Hc1 & Hc2 & [= -> ->] & Hle); [|done|lia|done].
    pose proof (leb_bytes_nonempty _ Hc1) as Hc0. cbn [value nextOffset]. intros H.
    apply scan_functions_spec in H as (a2 & w & z2 & c' & Hb2 & Ha2 & Hw & Hce & ->);
      [|unfold blen in *; lia|done|lia|done|done|done].
    cbn [total]. rewrite counts_add_0_l, Z.sub_0_r in *.
    assert (a = p /\ cnt ++ z = m ++ q) as [-> Hz].
    { apply app_inj_len; [lia|]. rewrite <- Hb', Hpq. app_eq. }
    assert (a2 = p ++ cnt /\ w ++ z2 = z) as [-> <-].
    { apply app_inj_len; [blia|]. rewrite <- Hb2, Hb'. app_eq. }
    destruct (split_len m (blen (cnt ++ w))) as (m1 & m2 & -> & Hm1); [blia|].
    assert (m1 = cnt ++ w /\ m2 ++ q = z2) as [-> _].
    { apply app_inj_len; [done|]. rewrite <- !app_assoc in Hz |- *. done. }
    exists (to_double (leb_value cnt)), cnt, w, m2. split_and!; [app_eq|done|done].
  - intros (n & cnt & entries & extra & -> & Hn & Hce).
    rewrite <- Hp at 1. rewrite (read_uleb b e p n cnt (entries ++ extra ++ q));
      [|done|done|rewrite Hpq; app_eq|done|blia]. cbn [value nextOffset].
    apply scan_functions_spec; [unfold blen in *; lia|done|blia|done|done|done|].
    exists (p ++ cnt), entries, (extra ++ q), c. rewrite Z.sub_0_r, counts_add_0_l.
    split_and!; [rewrite Hpq; app_eq|blia|blia|done|done].
Qed.

(** A module as [parse_wasm] returns it: its sections lie inside its bytes. *)
Definition parsed_ok (m : parsed_module) : Prop :=
  bytes_ok (bytes m) /\ blen (bytes m) < 2 ^ 53 /\
  Forall (fun s => 0 <= payloadStart s <= payloadEnd s /\ payloadEnd s <= blen (bytes m)) (sections m).

Lemma parse_wasm_parsed_ok w m :
  bytes_ok w -> blen w < 2 ^ 53 -> parse_wasm w = Ok m -> bytes m = w /\ parsed_ok m.
Proof.
  intros Hb Hl Hm. apply parse_wasm_spec in Hm as (rest & ss & Hw & Hss & ->); [|done..].
  split; [done|]. unfold parsed_ok. cbn [bytes sections]. split_and!; [done|done|].
  apply List.Forall_forall. intros s Hs.
  destruct (sections_payload _ _ _ _ Hss ltac:(lia) Hs) as [H1 H2].
  assert (blen w = 8 + blen rest) by (rewrite Hw, blen_app; done). lia.
Qed.

(** The code section of a module decodes with the instruction counts [c]. *)
Definition code_of (m : parsed_module) (c : counts) : Prop :=
  match List.find (fun s => id s =? 10) (sections m) with
  | None => c = zero_counts
  | Some s => code_payload (payload_of m s) c
  end.

Lemma scan_code_of m c : parsed_ok m -> scanWasmCode m = Totals c 0 <-> code_of m c.
Proof.
  intros (Hb & Hl & Hss). unfold scanWasmCode, code_of, payload_of.
  destruct (List.find _ _) as [s|] eqn:Ef.
  - apply find_some in Ef as [Hin _]. rewrite List.Forall_forall in Hss. destruct (Hss s Hin) as [H1 H2].
    apply code_section_scan; [done|lia|lia|lia].
  - split; [by intros [= <-]|by intros ->].
Qed.

(** C1. The scanner reports no undecodable function exactly when the payload of the code
    section is a code section of the binary grammar, and its counts are then the numbers
    of instructions of each class in all the bodies. A module without a code section has
    none. *)
Theorem scanWasmCode_exact w m c :
  bytes_ok w -> blen w < 2 ^ 53 -> parse_wasm w = Ok m ->
  scanWasmCode m = Totals c 0 <-> code_of m c.
Proof.
  intros Hb Hl Hm. apply parse_wasm_parsed_ok in Hm as [_ Hm]; [|done..]. by apply scan_code_of.
Qed.

(** A module with one function: a v128.const that is dropped, then an atomic fence. *)
Definition scanned_module : list Z :=
  WASM_HEADER ++ [10; 26; 1; 24; 0; 0xfd; 0x0c] ++ repeat 7 16 ++ [0x1a; 0xfe; 3; 0; 0x0b] ++ [1; 1; 1].
Definition scanned_parsed : parsed_module :=
  Eval vm_compute in
    match parse_wasm scanned_module with Ok m => m | Throw _ => ParsedModule [] [] [] end.

Lemma scanWasmCode_exact_witness : code_of scanned_parsed (Counts 1 1 0 0).
Proof.
  apply (scanWasmCode_exact scanned_module scanned_parsed); [closed_bytes|by vm_compute..].
Defined.
