(* ===== verification/ArtifactGuards.v ===== *)
(** The guards on a compiled artifact (src/compiler/wasmTargetFeatures.js,
    src/compiler/simdArtifactGuard.js, src/compiler/pthreadArtifactGuard.js).

    The analyses read the target_features section, the import, memory and export sections
    and the instruction counts of the code section; the assertions refuse an artifact that
    does not have the features its build declared. *)
From Stdlib Require Import ZArith Lia.
From stdpp Require Import base list strings numbers.
From S2P Require Import Prelude JsText Leb128 PublicationTrailer WasmSections WasmCodeScan.
Open Scope Z_scope.

(** ** Loops over the entries of a section *)

(** [for (i = 0; i < n; i += 1)] over entries read at a cursor. [item] reads the entry at
    the cursor: what it pushes, if anything, and the next cursor, or [None] for [break].
    The result is what was pushed and how the loop ended. *)
Fixpoint entries_loop {A} (fuel : nat) (item : Z -> result (option A * option Z)) (i n cursor : Z) :
    list A * result unit :=
  if i <? n then
    match fuel with
    | O => ([], Throw (Error "fuel"))
    | S fuel' =>
        match item cursor with
        | Throw e => ([], Throw e)
        | Ok (pushed, next) =>
            match next with
            | None => (option_list pushed, Ok tt)
            | Some cursor' =>
                let (rest, r) := entries_loop fuel' item (i + 1) n cursor' in
                (option_list pushed ++ rest, r)
            end
        end
    end
  else ([], Ok tt).

(** A count, then the loop; an error inside the loop propagates. *)
Definition collect_entries {A} (bytes : list Z) (start : Z)
    (item : Z -> result (option A * option Z)) : result (list A) :=
  let! countInfo := decodeUnsignedLeb128 bytes start in
  let (l, r) := entries_loop (S (length bytes)) item 0 (value countInfo) (nextOffset countInfo) in
  let! _ := r in Ok l.

(** [textDecoder.decode(bytes.subarray(cursor, cursor + len))] and the cursor after it. *)
Definition read_name (bytes : list Z) (cursor : Z) : result (jsstring * Z) :=
  let! len := decodeUnsignedLeb128 bytes cursor in
  let stop := num_add (nextOffset len) (value len) in
  Ok (text_decode (subarray bytes (nextOffset len) stop), stop).

(** ** target_features *)

Record feature := Feature { prefix : jsstring; feature_name : jsstring }.

Definition feature_item (bytes : list Z) (cursor : Z) : result (option feature * option Z) :=
  let prefix := [num_or_0 (at_ bytes cursor)] in
  let! (nm, next) := read_name bytes (num_add cursor 1) in
  Ok (Some (Feature prefix nm), Some next).

Section guards.
Context {R : Type} `{!RecCodec R}.

(** [None] is [null]: no section, or nothing of it can be read. *)
Definition readTargetFeatureEntries (wasmBytes : list Z) : option (list feature) :=
  match listWasmCustomSections wasmBytes with
  | Throw _ => None
  | Ok customSections =>
      match List.find (fun '(n, _, _, _) => str_eqb n (lit "target_features")) customSections with
      | None => None
      | Some (_, bytes, _, _) =>
          match decodeUnsignedLeb128 bytes 0 with
          | Throw _ => None
          | Ok countInfo =>
              match entries_loop (S (length bytes)) (feature_item bytes) 0 (value countInfo)
                      (nextOffset countInfo) with
              | (entries, Ok _) => Some entries
              | (entries, Throw _) => if bool_decide (entries = []) then None else Some entries
              end
          end
      end
  end.

Definition readDeclaredFeatures (wasmBytes : list Z) : option (list jsstring) :=
  match readTargetFeatureEntries wasmBytes with
  | None => None
  | Some entries => Some (map feature_name entries)
  end.

(** ** SIMD *)

Record simd_analysis := SimdAnalysis {
  declared : option bool;
  declaredRelaxed : option bool;
  used : bool;
  instructionCount : Z;
  relaxedInstructionCount : Z;
  simd_undecodableFunctions : Z
}.

Definition declares (entries : option (list feature)) (nm : jsstring) : option bool :=
  match entries with
  | None => None
  | Some l => Some (existsb (fun entry =>
      str_eqb (feature_name entry) nm && negb (str_eqb (prefix entry) (lit "-"))) l)
  end.

Definition analyzeWasmSimdFeatures (wasmBytes : list Z) : result simd_analysis :=
  let! parsed := parseWasmModuleSections wasmBytes in
  let code := scanWasmCode parsed in
  let entries := readTargetFeatureEntries (bytes parsed) in
  Ok (SimdAnalysis (declares entries (lit "simd128")) (declares entries (lit "relaxed-simd"))
        (0 <? simd (total code)) (simd (total code)) (relaxedSimd (total code))
        (undecodableFunctions code)).

(** The analysis with [requested] and [undeclared]; the warning is present exactly when
    [undeclared] holds. *)
Record simd_result := SimdResult { requested : bool; undeclared : bool; analysis : simd_analysis }.

Definition some_true (o : option bool) : bool := match o with Some b => b | None => false end.
Definition some_false (o : option bool) : bool := match o with Some b => negb b | None => false end.

Definition simd_failures (optedIn : bool) (a : simd_analysis) : list string :=
  (if (0 <? relaxedInstructionCount a) || some_true (declaredRelaxed a)
   then ["it uses relaxed-SIMD"%string] else []) ++
  (if 0 <? simd_undecodableFunctions a
   then ["function body(ies) could not be decoded"%string] else []) ++
  (if optedIn && some_false (declared a)
   then ["simd128 was requested but target_features does not declare simd128"%string] else []).

Definition assertSimdArtifact (wasmBytes : list Z) (optedIn : bool) : result simd_result :=
  match analyzeWasmSimdFeatures wasmBytes with
  | Throw _ => Throw (Error "simd128 artifact validation failed: could not parse the emitted wasm")
  | Ok a =>
      throw_if negb (bool_decide (simd_failures optedIn a = []))
        with Error "simd128 artifact validation REJECTED";
      let undeclared := negb optedIn && ((0 <? instructionCount a) || some_true (declared a)) in
      Ok (SimdResult optedIn undeclared a)
  end.

(** ** Memories, imports and exports *)

Record limits := Limits { flags : option Z; min : Z; max : option Z; shared : bool; growable : bool }.

Definition readLimits (bytes : list Z) (cursor : Z) : result (limits * Z) :=
  let flags := at_ bytes cursor in
  let position := num_add cursor 1 in
  let! minInfo := decodeUnsignedLeb128 bytes position in
  let! (max, position) :=
    (if negb (js_and (num_or_0 flags) 0x01 =? 0) then
       let! maxInfo := decodeUnsignedLeb128 bytes (nextOffset minInfo) in
       Ok (Some (value maxInfo), nextOffset maxInfo)
     else Ok (None, nextOffset minInfo)) in
  Ok (Limits flags (value minInfo) max (negb (js_and (num_or_0 flags) 0x02 =? 0))
        (match max with None => true | Some m => value minInfo <? m end), position).

Inductive memory_source := FromImport (module nm : jsstring) | FromDeclaration.
Record memory := Memory { source : memory_source; memory_limits : limits }.

(** Module, name and kind byte of the import at the cursor, and the cursor after them. *)
Definition import_head (bytes : list Z) (cursor : Z) : result (jsstring * jsstring * option Z * Z) :=
  let! (moduleName, cursor) := read_name bytes cursor in
  let! (importName, cursor) := read_name bytes cursor in
  Ok (moduleName, importName, at_ bytes cursor, num_add cursor 1).

Definition imported_memory_item (bytes : list Z) (cursor : Z) :
    result (option memory * option Z) :=
  let! (moduleName, importName, kind, cursor) := import_head bytes cursor in
  if bool_decide (kind = Some 0x00) then
    let! typeidx := decodeUnsignedLeb128 bytes cursor in Ok (None, Some (nextOffset typeidx))
  else if bool_decide (kind = Some 0x01) then
    let! (_, next) := readLimits bytes (num_add cursor 1) in Ok (None, Some next)
  else if bool_decide (kind = Some 0x02) then
    let! (l, next) := readLimits bytes cursor in
    Ok (Some (Memory (FromImport moduleName importName) l), Some next)
  else if bool_decide (kind = Some 0x03) then Ok (None, Some (num_add (num_add cursor 1) 1))
  else Ok (None, None).

Definition collectImportedMemories (parsed : parsed_module) : result (list memory) :=
  match List.find (fun s => id s =? 2) (sections parsed) with
  | None => Ok []
  | Some s => collect_entries (bytes parsed) (payloadStart s) (imported_memory_item (bytes parsed))
  end.

Definition declared_memory_item (bytes : list Z) (cursor : Z) : result (option memory * option Z) :=
  let! (l, next) := readLimits bytes cursor in Ok (Some (Memory FromDeclaration l), Some next).

Definition collectDeclaredMemories (parsed : parsed_module) : result (list memory) :=
  match List.find (fun s => id s =? 5) (sections parsed) with
  | None => Ok []
  | Some s => collect_entries (bytes parsed) (payloadStart s) (declared_memory_item (bytes parsed))
  end.

(** [IMPORT_KIND_NAMES[kind] ?? kind] is a renaming of the kind byte, which is kept. *)
Record import := Import { module : jsstring; import_name : jsstring; kind : option Z }.

Definition import_item (bytes : list Z) (cursor : Z) : result (option import * option Z) :=
  let! (moduleName, importName, kind, cursor) := import_head bytes cursor in
  let entry := Some (Import moduleName importName kind) in
  if bool_decide (kind = Some 0x00) then
    let! typeidx := decodeUnsignedLeb128 bytes cursor in Ok (entry, Some (nextOffset typeidx))
  else if bool_decide (kind = Some 0x01) then
    let! (_, next) := readLimits bytes (num_add cursor 1) in Ok (entry, Some next)
  else if bool_decide (kind = Some 0x02) then
    let! (_, next) := readLimits bytes cursor in Ok (entry, Some next)
  else if bool_decide (kind = Some 0x03) then Ok (entry, Some (num_add cursor 2))
  else Ok (entry, None).

Definition collectAllImports (parsed : parsed_module) : result (list import) :=
  match List.find (fun s => id s =? 2) (sections parsed) with
  | None => Ok []
  | Some s => collect_entries (bytes parsed) (payloadStart s) (import_item (bytes parsed))
  end.

Definition export_item (bytes : list Z) (cursor : Z) : result (option jsstring * option Z) :=
  let! (nm, cursor) := read_name bytes cursor in
  let! index := decodeUnsignedLeb128 bytes (num_add cursor 1) in
  Ok (Some nm, Some (nextOffset index)).

Definition collectExportNames (parsed : parsed_module) : result (list jsstring) :=
  match List.find (fun s => id s =? 7) (sections parsed) with
  | None => Ok []
  | Some s => collect_entries (bytes parsed) (payloadStart s) (export_item (bytes parsed))
  end.

(** ** Threads *)

Definition isWasiThreadSpawnImport (entry : import) : bool :=
  (str_eqb (module entry) (lit "wasi") || str_eqb (module entry) (lit "wasi_snapshot_preview1")) &&
  str_eqb (import_name entry) (lit "thread-spawn").

Definition is_line_terminator (c : Z) : bool := one_of c [0x0A; 0x0D; 0x2028; 0x2029].

(** [.*(thread|mailbox|main_thread|postmessage)] at the start of an already lowered text. *)
Fixpoint hook_tail (s : jsstring) : bool :=
  startsWith s (lit "thread") || startsWith s (lit "mailbox") ||
  startsWith s (lit "main_thread") || startsWith s (lit "postmessage") ||
  match s with
  | c :: s' => negb (is_line_terminator c) && hook_tail s'
  | [] => false
  end.

(** [/^_?emscripten_.*(thread|mailbox|main_thread|postmessage)/i.test(name)] *)
Definition emscripten_hook_name (nm : jsstring) : bool :=
  let s := map lower nm in
  let s := match s with c :: s' => if c =? 95 then s' else s | [] => s end in
  startsWith s (lit "emscripten_") && hook_tail (drop 11 s).

Definition isEmscriptenThreadHook (entry : import) : bool :=
  if negb (str_eqb (module entry) (lit "env")) then false
  else
    str_eqb (import_name entry) (lit "__pthread_create_js") ||
    includes (import_name entry) (lit "pthread_create") ||
    emscripten_hook_name (import_name entry).

Record thread_analysis := ThreadAnalysis {
  hasSharedMemory : bool;
  sharedMemory : option memory;
  memories : list memory;
  usesAtomics : bool;
  atomicInstructionCount : Z;
  declaredFeatures : option (list jsstring);
  isGrowableSharedMemory : bool;
  hasWasiThreadSpawnImport : bool;
  hasWasiThreadStartExport : bool;
  emscriptenThreadHooks : list jsstring;
  isIsomorphicPthreads : bool
}.

Definition is_shared (m : memory) : bool := shared (memory_limits m).
Definition null {A} (l : list A) : bool := match l with [] => true | _ => false end.

Definition analyzeWasmThreadFeatures (wasmBytes : list Z) : result thread_analysis :=
  let! parsed := parseWasmModuleSections wasmBytes in
  let! imported := collectImportedMemories parsed in
  let! owned := collectDeclaredMemories parsed in
  let memories := imported ++ owned in
  let sharedMemory := List.find is_shared memories in
  let atomicInstructionCount := atomic (total (scanWasmCode parsed)) in
  let declaredFeatures := readDeclaredFeatures (bytes parsed) in
  let usesAtomics := (0 <? atomicInstructionCount) ||
    match declaredFeatures with Some l => existsb (str_eqb (lit "atomics")) l | None => false end in
  let! imports := collectAllImports parsed in
  let! exportNames := collectExportNames parsed in
  let hasWasiThreadSpawnImport := existsb isWasiThreadSpawnImport imports in
  let hasWasiThreadStartExport := existsb (str_eqb (lit "wasi_thread_start")) exportNames in
  let emscriptenThreadHooks :=
    map (fun entry => module entry ++ lit "." ++ import_name entry)
      (List.filter isEmscriptenThreadHook imports) in
  let hasSharedMemory := match sharedMemory with Some _ => true | None => false end in
  Ok (ThreadAnalysis hasSharedMemory sharedMemory memories usesAtomics atomicInstructionCount
        declaredFeatures
        (match sharedMemory with Some m => growable (memory_limits m) | None => false end)
        hasWasiThreadSpawnImport hasWasiThreadStartExport emscriptenThreadHooks
        (hasSharedMemory && usesAtomics && hasWasiThreadSpawnImport && hasWasiThreadStartExport &&
         null emscriptenThreadHooks)).

Definition pthread_failures (a : thread_analysis) : list string :=
  (if hasSharedMemory a then [] else ["it declares no shared memory"%string]) ++
  (if usesAtomics a then [] else ["it uses no atomics"%string]) ++
  (if hasWasiThreadSpawnImport a then [] else ["it does not import the wasi thread-spawn"%string]) ++
  (if hasWasiThreadStartExport a then [] else ["it does not export wasi_thread_start"%string]) ++
  (if null (emscriptenThreadHooks a) then []
   else ["it imports Emscripten's browser-only Web Worker thread hooks"%string]).

Definition assertPthreadArtifact (wasmBytes : list Z) : result thread_analysis :=
  match analyzeWasmThreadFeatures wasmBytes with
  | Throw _ => Throw (Error "pthreads artifact validation failed: could not parse the emitted wasm")
  | Ok a =>
      throw_if negb (null (pthread_failures a))
        with Error "isomorphic-pthreads artifact validation REJECTED";
      Ok a
  end.

Definition SANCTIONED_WASI_TARGET : jsstring := lit "wasm32-wasip1-threads".

Definition is_imported (m : memory) : bool :=
  match source m with FromImport _ _ => true | FromDeclaration => false end.

Definition sequential_failures (a : thread_analysis) (target : option jsstring) : list string :=
  (if null (List.filter is_imported (memories a)) then [] else ["it IMPORTS its memory"%string]) ++
  (if hasWasiThreadSpawnImport a then ["it imports the wasi thread-spawn host function"%string] else []) ++
  (if hasWasiThreadStartExport a then ["it exports wasi_thread_start"%string] else []) ++
  (if null (emscriptenThreadHooks a) then []
   else ["it imports Emscripten's browser-only Web Worker thread hooks"%string]) ++
  match target with
  | Some t => if str_eqb t SANCTIONED_WASI_TARGET then [] else ["it was built for another target"%string]
  | None => []
  end.

Definition assertSequentialArtifact (wasmBytes : list Z) (target : option jsstring) :
    result thread_analysis :=
  match analyzeWasmThreadFeatures wasmBytes with
  | Throw _ => Throw (Error "wasi-sequential artifact validation failed: could not parse the emitted wasm")
  | Ok a =>
      throw_if negb (null (sequential_failures a target))
        with Error "wasi-sequential artifact validation REJECTED";
      Ok a
  end.

End guards.

(** ** Link flags *)

Definition SEQUENTIAL_FORBIDDEN_LINK_FLAGS : list jsstring :=
  [lit "-Wl,--shared-memory"; lit "-Wl,--import-memory"].
Definition PTHREAD_FINAL_LINK_FLAGS : list jsstring :=
  [lit "-pthread"; lit "-matomics"; lit "-mbulk-memory"; lit "-Wl,--import-memory";
   lit "-Wl,--shared-memory"; lit "-Wl,--max-memory=2147483648"].
Definition PTHREAD_REQUIRED_BARE_FLAGS : list jsstring :=
  [lit "-pthread"; lit "-matomics"; lit "-mbulk-memory"; lit "-Wl,--import-memory";
   lit "-Wl,--shared-memory"].
Definition PTHREAD_MAX_MEMORY_PREFIX : jsstring := lit "-Wl,--max-memory=".
Definition EMSCRIPTEN_PTHREADS : jsstring := lit "emscripten-pthreads".

Definition has_flag (args : list jsstring) (flag : jsstring) : bool := existsb (str_eqb flag) args.

Definition assertSequentialFlagsAbsent (args : list jsstring) : result (list jsstring) :=
  let present := List.filter (has_flag args) SEQUENTIAL_FORBIDDEN_LINK_FLAGS in
  throw_if negb (null present) with Error "wasi-sequential final-link args must not contain";
  Ok args.

Definition assertPthreadFlagsPresent (args : list jsstring) (threadModel : option jsstring) : result unit :=
  if negb (bool_decide (threadModel = Some EMSCRIPTEN_PTHREADS)) then Ok tt
  else
    let missing :=
      List.filter (fun flag => negb (has_flag args flag)) PTHREAD_REQUIRED_BARE_FLAGS ++
      (if existsb (fun value => startsWith value PTHREAD_MAX_MEMORY_PREFIX) args then []
       else [PTHREAD_MAX_MEMORY_PREFIX ++ lit "<bytes>"]) in
    throw_if negb (null missing)
      with Error "Pthreads final-link flag assembler dropped mandated flags";
    Ok tt.

(** ** The binary form of the sections the guards read *)

Definition sized_name (nm : jsstring) (w : list Z) : Prop :=
  exists len raw, w = len ++ raw /\ uleb (blen raw) len /\ nm = text_decode raw.

(** Bit 0 of the flags announces a maximum, bit 1 a shared memory. *)
Inductive limits_bytes : limits -> list Z -> Prop :=
| lb_min f v mn :
    is_byte f -> js_and f 0x01 = 0 -> uleb v mn ->
    limits_bytes (Limits (Some f) v None (negb (js_and f 0x02 =? 0)) true) ([f] ++ mn)
| lb_max f v mn u mx :
    is_byte f -> js_and f 0x01 <> 0 -> uleb v mn -> uleb u mx ->
    limits_bytes (Limits (Some f) v (Some u) (negb (js_and f 0x02 =? 0)) (v <? u)) ([f] ++ mn ++ mx).

(** The description after the kind byte: function, table, memory, global or tag. *)
Inductive import_desc : Z -> option limits -> list Z -> Prop :=
| id_func v w : uleb v w -> import_desc 0 None w
| id_table rt l w : limits_bytes l w -> import_desc 1 None ([rt] ++ w)
| id_memory l w : limits_bytes l w -> import_desc 2 (Some l) w
| id_global vt mut : import_desc 3 None [vt; mut]
| id_tag attr v w : uleb v w -> import_desc 4 None ([attr] ++ w).

Definition import_bytes (e : import * option limits) (w : list Z) : Prop :=
  exists m n k d, w = m ++ n ++ [k] ++ d /\ sized_name (module e.1) m /\
    sized_name (import_name e.1) n /\ kind e.1 = Some k /\ import_desc k e.2 d.

Definition export_bytes (nm : jsstring) (w : list Z) : Prop :=
  exists n k v idx, w = n ++ [k] ++ idx /\ sized_name nm n /\ uleb v idx.

(** Section [sid] of a module, when there is one, is a count and that many entries. *)
Definition section_entries {A} (m : parsed_module) (sid : Z) (G : A -> list Z -> Prop) (xs : list A) : Prop :=
  match List.find (fun s => id s =? sid) (sections m) with
  | None => xs = []
  | Some s => exists cnt ws, payload_of m s = cnt ++ concat ws /\ uleb (blen xs) cnt /\ Forall2 G xs ws
  end.

(** What a module imports, declares and exports. *)
Record interface := Interface {
  imports : list (import * option limits);
  own_memories : list limits;
  exports : list jsstring
}.

Definition has_interface (m : parsed_module) (i : interface) : Prop :=
  section_entries m 2 import_bytes (imports i) /\ section_entries m 5 limits_bytes (own_memories i) /\
  section_entries m 7 export_bytes (exports i).

Definition is_tag (e : import * option limits) : bool := bool_decide (kind e.1 = Some 4).

Section reading.
Context (b : list Z) (Hb : bytes_ok b) (Hl : blen b < 2 ^ 53).
Implicit Types a w c : list Z.

Lemma decode_uleb v a w c :
  b = a ++ w ++ c -> uleb v w -> decodeUnsignedLeb128 b (blen a) = Ok (LebInfo v (blen a + blen w)).
Proof.
  intros E (H1 & H2 & ->). apply decodeUnsignedLeb128_spec; [done|apply blen_nonneg|]. by exists a, w, c.
Qed.

Lemma read_name_at nm a w c :
  b = a ++ w ++ c -> sized_name nm w -> read_name b (blen a) = Ok (nm, blen a + blen w).
Proof.
  intros E (len & raw & -> & Hlen & ->). unfold read_name.
  rewrite (decode_uleb (blen raw) a len (raw ++ c)); [|rewrite E; app_eq|done].
  cbn [rbind value nextOffset]. rewrite E in Hl. rewrite num_add_small by blia.
  replace b with ((a ++ len) ++ raw ++ c) by (rewrite E; app_eq).
  rewrite subarray_app by blia. do 2 f_equal. blia.
Qed.

Lemma at_byte a k c : b = a ++ [k] ++ c -> at_ b (blen a) = Some k.
Proof. intros ->. by rewrite at_app_here. Qed.

Lemma succ_cursor a k c : b = a ++ [k] ++ c -> num_add (blen a) 1 = blen (a ++ [k]).
Proof. intros E. rewrite E in Hl. rewrite num_add_small; blia. Qed.

Lemma readLimits_at l a w c :
  b = a ++ w ++ c -> limits_bytes l w -> readLimits b (blen a) = Ok (l, blen a + blen w).
Proof.
  intros E Hlim. unfold readLimits.
  destruct Hlim as [f v mn Hf Hbit Hmn|f v mn u mx Hf Hbit Hmn Hmx].
  - rewrite (at_byte a f (mn ++ c)), (succ_cursor a f (mn ++ c)) by (rewrite E; app_eq).
    rewrite (decode_uleb v (a ++ [f]) mn c) by (done || rewrite E; app_eq).
    cbn [rbind num_or_0 nextOffset value]. rewrite Hbit. cbn. do 2 f_equal. blia.
  - rewrite (at_byte a f (mn ++ mx ++ c)), (succ_cursor a f (mn ++ mx ++ c)) by (rewrite E; app_eq).
    rewrite (decode_uleb v (a ++ [f]) mn (mx ++ c)) by (done || rewrite E; app_eq).
    cbn [rbind num_or_0 nextOffset value]. destruct (Z.eqb_spec (js_and f 1) 0) as [|_]; [done|].
    cbn [negb]. rewrite <- blen_app.
    rewrite (decode_uleb u ((a ++ [f]) ++ mn) mx c) by (done || rewrite E; app_eq).
    cbn [rbind num_or_0 nextOffset value]. do 2 f_equal. blia.
Qed.

Lemma import_head_at e a w c :
  b = a ++ w ++ c -> import_bytes e w ->
  exists h k d, w = h ++ d /\ import_desc k e.2 d /\ kind e.1 = Some k /\
    import_head b (blen a) = Ok (module e.1, import_name e.1, Some k, blen (a ++ h)).
Proof.
  intros E (m & n & k & d & -> & Hm & Hn & Hk & Hd).
  exists (m ++ n ++ [k]), k, d. split_and!; [app_eq|done|done|]. unfold import_head.
  rewrite (read_name_at _ a m (n ++ [k] ++ d ++ c)) by (done || rewrite E; app_eq).
  cbn [rbind]. rewrite <- blen_app.
  rewrite (read_name_at _ (a ++ m) n ([k] ++ d ++ c)) by (done || rewrite E; app_eq).
  cbn [rbind]. rewrite <- blen_app.
  rewrite (at_byte ((a ++ m) ++ n) k (d ++ c)), (succ_cursor ((a ++ m) ++ n) k (d ++ c))
    by (rewrite E; app_eq).
  do 3 f_equal. app_eq.
Qed.

(** Decide the tests on a literal kind byte. *)
Ltac kind_case :=
  repeat first [rewrite bool_decide_eq_true_2 by done | rewrite bool_decide_eq_false_2 by done];
  cbn [rbind].

(** Both import readers step over an entry that is not a tag. *)
Lemma import_item_at e a w c :
  b = a ++ w ++ c -> import_bytes e w -> is_tag e = false ->
  import_item b (blen a) = Ok (Some e.1, Some (blen a + blen w)) /\
  imported_memory_item b (blen a) =
    Ok ((fun l => Memory (FromImport (module e.1) (import_name e.1)) l) <$> e.2, Some (blen a + blen w)).
Proof.
  intros E He Htag. destruct (import_head_at e a w c E He) as (h & k & d & -> & Hd & Hk & Hh).
  unfold import_item, imported_memory_item. rewrite Hh. cbn [rbind].
  replace (Import (module e.1) (import_name e.1) (Some k)) with e.1
    by (rewrite <- Hk; by destruct e as [[] ?]).
  unfold is_tag in Htag. rewrite Hk in Htag. clear Hk Hh He.
  destruct Hd as [v w Hv|rt l w Hw|l w Hw|vt mut|attr v w Hv]; [kind_case..|].
  - rewrite (decode_uleb v (a ++ h) w c) by (done || rewrite E; app_eq). cbn. split; do 3 f_equal; blia.
  - rewrite (succ_cursor (a ++ h) rt (w ++ c)) by (rewrite E; app_eq).
    rewrite (readLimits_at l ((a ++ h) ++ [rt]) w c) by (done || rewrite E; app_eq).
    cbn. split; do 3 f_equal; blia.
  - rewrite (readLimits_at l (a ++ h) w c) by (done || rewrite E; app_eq). cbn. split; do 3 f_equal; blia.
  - rewrite E in Hl. rewrite !(num_add_small (blen (a ++ h))) by blia.
    rewrite num_add_small by blia. split; do 3 f_equal; blia.
  - by rewrite bool_decide_eq_true_2 in Htag.
Qed.

Lemma export_item_at nm a w c :
  b = a ++ w ++ c -> export_bytes nm w -> export_item b (blen a) = Ok (Some nm, Some (blen a + blen w)).
Proof.
  intros E (n & k & v & idx & -> & Hn & Hv). unfold export_item.
  rewrite (read_name_at nm a n ([k] ++ idx ++ c)) by (done || rewrite E; app_eq).
  cbn [rbind]. rewrite <- blen_app. rewrite (succ_cursor (a ++ n) k (idx ++ c)) by (rewrite E; app_eq).
  rewrite (decode_uleb v ((a ++ n) ++ [k]) idx c) by (done || rewrite E; app_eq).
  cbn. do 3 f_equal. blia.
Qed.

(** A loop over well-formed entries visits each of them once. *)
Lemma entries_loop_at {A B} (G : A -> list Z -> Prop) (push : A -> option B) item :
  (forall x a w c, b = a ++ w ++ c -> G x w -> item (blen a) = Ok (push x, Some (blen a + blen w))) ->
  forall xs ws, Forall2 G xs ws -> forall fuel i n a c,
  b = a ++ concat ws ++ c -> n = i + blen xs -> (length xs <= fuel)%nat ->
  entries_loop fuel item i n (blen a) = (omap push xs, Ok tt).
Proof.
  intros Hitem xs ws Hxs. induction Hxs as [|x w xs ws Hx _ IH]; intros fuel i n a c E -> Hf.
  - destruct fuel; cbn [entries_loop]; (destruct (Z.ltb_spec i (i + blen (@nil A))); [blia|done]).
  - destruct fuel as [|fuel]; [simpl in Hf; lia|]. cbn [entries_loop].
    destruct (Z.ltb_spec i (i + blen (x :: xs))); [|blia].
    rewrite (Hitem x a w (concat ws ++ c)); [|rewrite E; cbn [concat]; app_eq|done].
    rewrite <- blen_app, (IH fuel (i + 1) _ (a ++ w) c);
      [|rewrite E; cbn [concat]; app_eq|blia|simpl in Hf; lia].
    cbn [omap list_omap]. by destruct (push x).
Qed.
End reading.

Lemma limits_bytes_nonempty l w : limits_bytes l w -> 0 < blen w.
Proof. destruct 1; blia. Qed.
Lemma import_bytes_nonempty e w : import_bytes e w -> 0 < blen w.
Proof. intros (m & n & k & d & -> & _). blia. Qed.
Lemma export_bytes_nonempty nm w : export_bytes nm w -> 0 < blen w.
Proof. intros (n & k & v & idx & -> & _). blia. Qed.

Lemma entries_count {A} (G : A -> list Z -> Prop) xs ws :
  (forall x w, G x w -> 0 < blen w) -> Forall2 G xs ws -> (length xs <= length (concat ws))%nat.
Proof.
  intros Hne. induction 1 as [|x w xs ws Hx _ IH]; [simpl; lia|].
  apply Hne in Hx. unfold blen in Hx. cbn [concat]. rewrite length_app. simpl. lia.
Qed.

Lemma collect_at {A B} m sid (G : A -> list Z -> Prop) (push : A -> option B) item xs :
  parsed_ok m -> (forall x w, G x w -> 0 < blen w) ->
  (forall x a w c, bytes m = a ++ w ++ c -> G x w ->
     item (blen a) = Ok (push x, Some (blen a + blen w))) ->
  section_entries m sid G xs ->
  match List.find (fun s => id s =? sid) (sections m) with
  | None => Ok []
  | Some s => collect_entries (bytes m) (payloadStart s) item
  end = Ok (omap push xs).
Proof.
  intros (Hb & Hl & Hss) Hne Hitem. unfold section_entries.
  destruct (List.find _ _) as [s|] eqn:Ef; [|by intros ->].
  intros (cnt & ws & Hp & Hcnt & Hxs). apply find_some in Ef as [Hin _].
  rewrite List.Forall_forall in Hss. destruct (Hss s Hin) as [H1 H2]. clear Hss Hin.
  destruct (subarray_split (bytes m) (payloadStart s) (payloadEnd s)) as (a & c & Hm & Ha & _); [lia..|].
  unfold payload_of in Hp. rewrite Hp in Hm. unfold collect_entries. rewrite <- Ha.
  rewrite (decode_uleb (bytes m) Hb (blen xs) a cnt (concat ws ++ c)) by (done || rewrite Hm; app_eq).
  cbn [rbind value nextOffset]. rewrite <- blen_app.
  rewrite (entries_loop_at (bytes m) G push item Hitem xs ws Hxs _ 0 _ (a ++ cnt) c);
    [done|rewrite Hm; app_eq|done|].
  pose proof (entries_count G xs ws Hne Hxs). rewrite Hm, !length_app. lia.
Qed.

(** What the collectors return on a module whose imports hold no tag. *)
Lemma collectors m i :
  parsed_ok m -> has_interface m i -> forallb (fun e => negb (is_tag e)) (imports i) = true ->
  collectAllImports m = Ok (map fst (imports i)) /\
  collectImportedMemories m = Ok (omap (fun e : import * option limits =>
    (fun l => Memory (FromImport (module e.1) (import_name e.1)) l) <$> e.2) (imports i)) /\
  collectDeclaredMemories m = Ok (map (Memory FromDeclaration) (own_memories i)) /\
  collectExportNames m = Ok (exports i).
Proof.
  intros Hm (Hi & Hd & He) Htag. pose proof Hm as (Hb & Hl & _).
  assert (Hi' : section_entries m 2 (fun e w => import_bytes e w /\ is_tag e = false) (imports i)).
  { unfold section_entries in *. destruct (List.find _ _); [|done].
    destruct Hi as (cnt & ws & Hp & Hc & Hf). exists cnt, ws. split_and!; [done|done|].
    clear - Hf Htag. induction Hf as [|e w xs ws Hx _ IH]; [done|].
    cbn [forallb] in Htag. apply andb_true_iff in Htag as [Ht1 Ht2]. constructor; [|by apply IH].
    split; [done|]. by destruct (is_tag e). }
  assert (Hne : forall e w, import_bytes e w /\ is_tag e = false -> 0 < blen w)
    by (intros e w [H _]; by eapply import_bytes_nonempty).
  assert (Hall : forall A (xs : list A) B (f : A -> B), omap (fun x => Some (f x)) xs = map f xs)
    by (intros A xs B f; induction xs; [done|]; cbn; by f_equal).
  split_and!.
  - unfold collectAllImports. rewrite <- Hall.
    apply (collect_at m 2 _ (fun e => Some e.1) _ _ Hm Hne); [|done].
    intros e a w c E [He' Ht]. by apply (import_item_at (bytes m) Hb Hl e a w c E).
  - apply (collect_at m 2 _ _ _ _ Hm Hne); [|done].
    intros e a w c E [He' Ht]. by apply (import_item_at (bytes m) Hb Hl e a w c E).
  - unfold collectDeclaredMemories. rewrite <- Hall.
    apply (collect_at m 5 _ _ _ _ Hm limits_bytes_nonempty); [|done].
    intros l a w c E Hlim. unfold declared_memory_item.
    by rewrite (readLimits_at (bytes m) Hb Hl l a w c E Hlim).
  - replace (exports i) with (omap (fun x => Some x) (exports i))
      by (rewrite (Hall _ _ _ (fun x => x)); apply map_id).
    apply (collect_at m 7 _ _ _ _ Hm export_bytes_nonempty); [|done].
    intros nm a w c E Hx. by apply (export_item_at (bytes m) Hb Hl nm a w c E).
Qed.

Lemma existsb_map {A B} (f : A -> B) p l : existsb p (map f l) = existsb (fun x => p (f x)) l.
Proof. induction l as [|x l IH]; [done|]. cbn. by rewrite IH. Qed.

Lemma null_app {A} (l l' : list A) : null (l ++ l') = null l && null l'.
Proof. by destruct l. Qed.
Lemma null_map {A B} (f : A -> B) l : null (map f l) = null l.
Proof. by destruct l. Qed.
Lemma null_filter {A} (p : A -> bool) l : null (List.filter p l) = negb (existsb p l).
Proof. induction l as [|x l IH]; [done|]. cbn. by destruct (p x). Qed.
Lemma existsb_app' {A} (p : A -> bool) l l' : existsb p (l ++ l') = existsb p l || existsb p l'.
Proof. apply existsb_app. Qed.
Lemma existsb_false {A} (p : A -> bool) l : existsb p l = false <-> forall x, In x l -> p x = false.
Proof.
  induction l as [|x l IH]; [done|]. cbn. rewrite orb_false_iff, IH. split.
  - intros [H1 H2] y [<-|Hy]; auto.
  - intros H. split; auto.
Qed.
Lemma str_in s l : existsb (str_eqb s) l = true <-> In s l.
Proof.
  rewrite existsb_exists. split.
  - intros (x & Hx & <-%str_eqb_eq). done.
  - intros Hs. exists s. by rewrite (proj2 (str_eqb_eq s s)).
Qed.

Section guard_theorems.
Context {R : Type} `{!RecCodec R}.

Lemma strip_ok w :
  bytes_ok w -> bytes_ok (stripPublicationRecordCollection (R:=R) w) /\
    blen (stripPublicationRecordCollection (R:=R) w) <= blen w.
Proof.
  intros Hb. unfold stripPublicationRecordCollection.
  destruct (extractPublicationRecordCollection w) as [p|] eqn:Ep; [|done].
  apply extract_inv in Ep as (rc & Hw & _); [|done].
  rewrite Hw in Hb. apply Forall_app in Hb as [Hb _]. split; [done|]. rewrite Hw. blia.
Qed.

Lemma parsed_module_ok w m :
  bytes_ok w -> blen w < 2 ^ 53 -> parseWasmModuleSections (R:=R) w = Ok m -> parsed_ok m.
Proof.
  intros Hb Hl Hm. destruct (strip_ok w Hb) as [Hs Hsl].
  by apply parse_wasm_parsed_ok in Hm as [_ ?]; [|done|lia].
Qed.

(** The facts about a module the thread guards decide on. *)
Definition imports_thread_spawn (i : interface) : bool :=
  existsb (fun e : import * option limits => isWasiThreadSpawnImport e.1) (imports i).
Definition imports_hook (i : interface) : bool :=
  existsb (fun e : import * option limits => isEmscriptenThreadHook e.1) (imports i).
Definition imports_memory (i : interface) : bool :=
  existsb (fun e : import * option limits => match e.2 with Some _ => true | None => false end) (imports i).
Definition exports_thread_start (i : interface) : bool :=
  existsb (str_eqb (lit "wasi_thread_start")) (exports i).
Definition has_shared_memory (i : interface) : bool :=
  existsb (fun e : import * option limits => match e.2 with Some l => shared l | None => false end) (imports i) ||
  existsb shared (own_memories i).
Definition atomics_used (m : parsed_module) : bool :=
  (0 <? atomic (total (scanWasmCode m))) ||
  match readDeclaredFeatures (R:=R) (bytes m) with
  | Some l => existsb (str_eqb (lit "atomics")) l
  | None => false
  end.

Lemma find_existsb {A} (p : A -> bool) l :
  match List.find p l with Some _ => true | None => false end = existsb p l.
Proof. induction l as [|x l IH]; [done|]. cbn. by destruct (p x). Qed.

Lemma existsb_omap {A B} (f : A -> option B) p l :
  existsb p (omap f l) = existsb (fun x => match f x with Some y => p y | None => false end) l.
Proof. induction l as [|x l IH]; [done|]. cbn. destruct (f x); [|done]. cbn. by rewrite <- IH. Qed.

Lemma existsb_ext' {A} (p q : A -> bool) l : (forall x, p x = q x) -> existsb p l = existsb q l.
Proof. intros H. induction l as [|x l IH]; [done|]. cbn. by rewrite H, IH. Qed.

Lemma analyze_interface w m i :
  bytes_ok w -> blen w < 2 ^ 53 -> parseWasmModuleSections (R:=R) w = Ok m -> has_interface m i ->
  forallb (fun e => negb (is_tag e)) (imports i) = true ->
  exists a, analyzeWasmThreadFeatures (R:=R) w = Ok a /\
    hasSharedMemory a = has_shared_memory i /\ usesAtomics a = atomics_used m /\
    existsb is_imported (memories a) = imports_memory i /\
    hasWasiThreadSpawnImport a = imports_thread_spawn i /\
    hasWasiThreadStartExport a = exports_thread_start i /\
    null (emscriptenThreadHooks a) = negb (imports_hook i).
Proof.
  intros Hb Hl Hm Hi Ht. pose proof (parsed_module_ok w m Hb Hl Hm) as Hok.
  destruct (collectors m i Hok Hi Ht) as (H1 & H2 & H3 & H4).
  unfold analyzeWasmThreadFeatures. rewrite Hm. cbn [rbind]. rewrite H2. cbn [rbind]. rewrite H3.
  cbn [rbind]. rewrite H1. cbn [rbind]. rewrite H4. cbn [rbind]. eexists. split; [done|].
  cbn [hasSharedMemory usesAtomics memories hasWasiThreadSpawnImport hasWasiThreadStartExport
       emscriptenThreadHooks].
  rewrite find_existsb, !existsb_app', !existsb_omap, !existsb_map, null_map, null_filter, existsb_map.
  split_and!; try done.
  - unfold has_shared_memory. f_equal. apply existsb_ext'. by intros [e [l|]].
  - unfold imports_memory. rewrite (proj2 (existsb_false _ (own_memories i))) by done.
    rewrite orb_false_r. apply existsb_ext'. by intros [e [l|]].
Qed.

(** C31. On a module whose import section holds no tag import, the pthreads guard accepts
    exactly the artifacts with a shared memory, atomics, the thread-spawn import, the
    wasi_thread_start export and no Emscripten thread hook. *)
Theorem pthread_guard_exact w m i :
  bytes_ok w -> blen w < 2 ^ 53 -> parseWasmModuleSections (R:=R) w = Ok m -> has_interface m i ->
  forallb (fun e => negb (is_tag e)) (imports i) = true ->
  is_ok (assertPthreadArtifact (R:=R) w) =
    has_shared_memory i && atomics_used m && imports_thread_spawn i && exports_thread_start i &&
    negb (imports_hook i).
Proof.
  intros Hb Hl Hm Hi Ht.
  destruct (analyze_interface w m i Hb Hl Hm Hi Ht) as (a & Ha & H1 & H2 & _ & H4 & H5 & H6).
  unfold assertPthreadArtifact, pthread_failures. rewrite Ha, !null_app, H1, H2, H4, H5, H6.
  destruct (has_shared_memory i), (atomics_used m), (imports_thread_spawn i),
    (exports_thread_start i), (imports_hook i); done.
Qed.

(** On a module whose import section holds no tag import, the sequential guard accepts
    exactly the artifacts that import no memory, no thread-spawn and no Emscripten thread
    hook, do not export wasi_thread_start and were built for the sanctioned target. *)
Theorem sequential_guard_exact w m i target :
  bytes_ok w -> blen w < 2 ^ 53 -> parseWasmModuleSections (R:=R) w = Ok m -> has_interface m i ->
  forallb (fun e => negb (is_tag e)) (imports i) = true ->
  is_ok (assertSequentialArtifact (R:=R) w target) =
    negb (imports_memory i) && negb (imports_thread_spawn i) && negb (exports_thread_start i) &&
    negb (imports_hook i) && bool_decide (target = None \/ target = Some SANCTIONED_WASI_TARGET).
Proof.
  intros Hb Hl Hm Hi Ht.
  destruct (analyze_interface w m i Hb Hl Hm Hi Ht) as (a & Ha & _ & _ & H3 & H4 & H5 & H6).
  unfold assertSequentialArtifact, sequential_failures.
  rewrite Ha, !null_app, null_filter, H3, H4, H5, H6.
  set (T := bool_decide _).
  assert (HT : null match target with
    | Some t => if str_eqb t SANCTIONED_WASI_TARGET then [] else ["it was built for another target"%string]
    | None => [] end = T).
  { subst T. destruct target as [t|]; [|by rewrite bool_decide_eq_true_2 by auto].
    destruct (str_eqb t SANCTIONED_WASI_TARGET) eqn:Et.
    - apply str_eqb_eq in Et as ->. by rewrite bool_decide_eq_true_2 by auto.
    - rewrite bool_decide_eq_false_2; [done|]. intros [|[= ->]]; [done|].
      by rewrite (proj2 (str_eqb_eq _ _)) in Et. }
  rewrite HT. clearbody T.
  destruct (imports_memory i), (imports_thread_spawn i), (exports_thread_start i), (imports_hook i), T; done.
Qed.

Lemma instr_relaxed_nonneg w eff : instr w eff -> 0 <= relaxedSimd (counted eff).
Proof. destruct 1; cbn; lia. Qed.
Lemma body_relaxed_nonneg d w c : body_instrs d w c -> 0 <= relaxedSimd c.
Proof. induction 1 as [|d w eff rest c _ Hi%instr_relaxed_nonneg _ IH]; cbn; lia. Qed.
Lemma entries_relaxed_nonneg n w c : code_entries n w c -> 0 <= relaxedSimd c.
Proof.
  induction 1 as [|n s sb body c rest c' _ _ _ (? & ? & ? & ? & _ & _ & _ & Hb%body_relaxed_nonneg) _ IH];
    cbn; lia.
Qed.

Lemma scan_undecodable_nonneg m : 0 <= undecodableFunctions (scanWasmCode m).
Proof.
  unfold scanWasmCode. destruct (List.find _ _); [|done]. destruct (readLeb _ _ _); [|done].
  match goal with |- context [scan_functions ?f ?b ?e ?i ?n ?c ?acc] =>
    pose proof (scan_functions_mono f b e i n c acc) as Hm end.
  exact Hm.
Qed.

(** The SIMD guard accepts a parsed module exactly when its whole code section decodes,
    none of its instructions is outside fixed-width SIMD, target_features does not declare
    relaxed-simd, and a module that asked for SIMD does not leave simd128 out of its
    target_features. *)
Theorem simd_guard_exact w m optedIn :
  bytes_ok w -> blen w < 2 ^ 53 -> parseWasmModuleSections (R:=R) w = Ok m ->
  let features := readTargetFeatureEntries (R:=R) (bytes m) in
  is_ok (assertSimdArtifact (R:=R) w optedIn) = true <->
  exists c, code_of m c /\ relaxedSimd c = 0 /\
    declares features (lit "relaxed-simd") <> Some true /\
    (optedIn = true -> declares features (lit "simd128") <> Some false).
Proof.
  intros Hb Hl Hm features. pose proof (parsed_module_ok w m Hb Hl Hm) as Hok.
  pose proof (scan_undecodable_nonneg m) as Hnn.
  unfold assertSimdArtifact, analyzeWasmSimdFeatures. rewrite Hm. cbn [rbind]. fold features.
  unfold simd_failures. cbn [relaxedInstructionCount declaredRelaxed simd_undecodableFunctions declared].
  set (dr := declares features (lit "relaxed-simd")). set (ds := declares features (lit "simd128")).
  pose proof (fun c => scan_code_of m c Hok) as Hscan.
  destruct (scanWasmCode m) as [c u]. cbn [total undecodableFunctions] in *. split.
  - intros H. case_bool_decide as Hf; [|done]. clear H.
    apply app_eq_nil in Hf as [Hf1 Hf]. apply app_eq_nil in Hf as [Hf2 Hf3].
    destruct (Z.ltb_spec 0 u); [done|]. assert (u = 0) as -> by lia.
    exists c. split; [by apply Hscan|].
    assert (0 <= relaxedSimd c).
    { assert (Hc : code_of m c) by by apply Hscan. unfold code_of in Hc.
      destruct (List.find _ _); [|by subst].
      destruct Hc as (n & cnt & en & ex & _ & _ & Hce). by eapply entries_relaxed_nonneg. }
    destruct (Z.ltb_spec 0 (relaxedSimd c)); [done|]. split_and!; [lia| |].
    + by destruct dr as [[]|].
    + intros ->. by destruct ds as [[]|].
  - intros (c' & Hc & Hr & Hdr & Hds). apply Hscan in Hc. injection Hc as -> ->. rewrite Hr.
    replace (some_true dr) with false by (by destruct dr as [[]|]).
    replace (optedIn && some_false ds) with false
      by (destruct optedIn, ds as [[]|]; try done; by destruct Hds).
    done.
Qed.

(** No artifact passes both thread guards. *)
Theorem thread_guards_exclusive w target :
  is_ok (assertPthreadArtifact (R:=R) w) && is_ok (assertSequentialArtifact (R:=R) w target) = false.
Proof.
  unfold assertPthreadArtifact, assertSequentialArtifact.
  destruct (analyzeWasmThreadFeatures w) as [a|]; [|done].
  unfold pthread_failures, sequential_failures. rewrite !null_app.
  destruct (hasWasiThreadSpawnImport a); cbn.
  - by rewrite andb_false_r, andb_false_r.
  - by rewrite !andb_false_r.
Qed.

End guard_theorems.

(** ** Concrete modules *)

#[local] Existing Instance raw_codec.

(** A section and a name of fewer than 128 bytes. *)
Definition small_section (i : Z) (payload : list Z) : list Z := [i; blen payload] ++ payload.
Definition small_name (s : string) : list Z := [blen (lit s)] ++ lit s.

Definition thread_spawn_import : list Z := small_name "wasi" ++ small_name "thread-spawn" ++ [0; 0].
Definition tag_import : list Z := small_name "env" ++ small_name "__cpp_exception" ++ [4; 0; 0].
(** memory 1 2 shared *)
Definition shared_memory_section : list Z := small_section 5 [1; 3; 1; 2].
Definition type_section : list Z := small_section 1 [1; 0x60; 0; 0].
(** (func (atomic.fence)) *)
Definition fence_code_section : list Z := small_section 10 [1; 5; 0; 0xfe; 3; 0; 0x0b].

Definition threaded_module : list Z :=
  WASM_HEADER ++ type_section ++ small_section 2 (1 :: thread_spawn_import) ++
  small_section 3 [1; 0] ++ shared_memory_section ++
  small_section 7 (1 :: small_name "wasi_thread_start" ++ [0; 1]) ++ fence_code_section.

Definition sequential_module : list Z :=
  WASM_HEADER ++ type_section ++ small_section 3 [1; 0] ++ small_section 5 [1; 0; 1] ++
  small_section 7 (1 :: small_name "memory" ++ [2; 0]) ++ small_section 10 [1; 2; 0; 0x0b].

Definition tag_first_module : list Z :=
  WASM_HEADER ++ type_section ++ small_section 2 (2 :: tag_import ++ thread_spawn_import) ++
  small_section 3 [1; 0] ++ small_section 5 [1; 0; 1] ++ small_section 10 [1; 2; 0; 0x0b].

Definition module_of (w : list Z) : parsed_module :=
  match parseWasmModuleSections w with Ok m => m | Throw _ => ParsedModule [] [] [] end.

Definition threaded_parsed : parsed_module := Eval vm_compute in module_of threaded_module.
Definition sequential_parsed : parsed_module := Eval vm_compute in module_of sequential_module.
Definition tag_first_parsed : parsed_module := Eval vm_compute in module_of tag_first_module.

Definition thread_spawn_entry : import * option limits :=
  (Import (lit "wasi") (lit "thread-spawn") (Some 0), None).
Definition tag_entry : import * option limits :=
  (Import (lit "env") (lit "__cpp_exception") (Some 4), None).

Definition threaded_interface : interface :=
  Interface [thread_spawn_entry] [Limits (Some 3) 1 (Some 2) true true] [lit "wasi_thread_start"].
Definition sequential_interface : interface :=
  Interface [] [Limits (Some 0) 1 None false true] [lit "memory"].
Definition tag_first_interface : interface :=
  Interface [tag_entry; thread_spawn_entry] [Limits (Some 0) 1 None false true] [].

Ltac closed_uleb :=
  match goal with |- uleb _ _ => split; [repeat constructor; lia|split; [vm_compute; congruence|reflexivity]] end.

Lemma small_name_sized s : blen (lit s) < 128 -> text_decode (lit s) = lit s ->
  sized_name (lit s) (small_name s).
Proof.
  intros Hl Hd. exists [blen (lit s)], (lit s). split_and!; [done| |done].
  pose proof (blen_nonneg (lit s)).
  split; [constructor; lia|split; [vm_compute; congruence|]]. cbn [leb_value].
  rewrite Z.mod_small, Z.mul_0_r, Z.add_0_r, to_double_small by lia. done.
Qed.

Lemma thread_spawn_bytes : import_bytes thread_spawn_entry thread_spawn_import.
Proof.
  exists (small_name "wasi"), (small_name "thread-spawn"), 0, [0].
  split_and!; try done; try (by apply small_name_sized). apply (id_func 0). closed_uleb.
Qed.

Lemma tag_bytes : import_bytes tag_entry tag_import.
Proof.
  exists (small_name "env"), (small_name "__cpp_exception"), 4, [0; 0].
  split_and!; try done; try (by apply small_name_sized). apply (id_tag 0 0 [0]). closed_uleb.
Qed.

Lemma export_bytes_small s k : blen (lit s) < 128 -> text_decode (lit s) = lit s ->
  export_bytes (lit s) (small_name s ++ [k; 0]).
Proof.
  intros Hl Hd. exists (small_name s), k, 0, [0].
  split_and!; [done|by apply small_name_sized|closed_uleb].
Qed.

Lemma threaded_has_interface : has_interface threaded_parsed threaded_interface.
Proof.
  split_and!.
  - exists [1], [thread_spawn_import]. split_and!; [by vm_compute|closed_uleb|].
    constructor; [apply thread_spawn_bytes|constructor].
  - exists [1], [[3; 1; 2]]. split_and!; [by vm_compute|closed_uleb|]. constructor; [|constructor].
    apply (lb_max 3 1 [1] 2 [2]); [done|done|closed_uleb..].
  - exists [1], [small_name "wasi_thread_start" ++ [0; 1]]. split_and!; [by vm_compute|closed_uleb|].
    constructor; [|constructor].
    exists (small_name "wasi_thread_start"), 0, 1, [1]. split_and!; [done|by apply small_name_sized|closed_uleb].
Qed.

Lemma sequential_has_interface : has_interface sequential_parsed sequential_interface.
Proof.
  split_and!.
  - by vm_compute.
  - exists [1], [[0; 1]]. split_and!; [by vm_compute|closed_uleb|]. constructor; [|constructor].
    apply (lb_min 0 1 [1]); [done|done|closed_uleb].
  - exists [1], [small_name "memory" ++ [2; 0]]. split_and!; [by vm_compute|closed_uleb|].
    constructor; [|constructor]. by apply export_bytes_small.
Qed.

(** A tag import ends the loop over the imports, so a thread-spawn import after it is not
    seen: the sequential guard accepts a module that imports thread-spawn. *)
Theorem sequential_guard_misses_import_after_tag :
  parseWasmModuleSections tag_first_module = Ok tag_first_parsed /\
  has_interface tag_first_parsed tag_first_interface /\
  imports_thread_spawn tag_first_interface = true /\
  is_ok (assertSequentialArtifact tag_first_module (Some SANCTIONED_WASI_TARGET)) = true.
Proof.
  split; [by vm_compute|]. split; [|split; by vm_compute]. split_and!.
  - exists [2], [tag_import; thread_spawn_import]. split_and!; [by vm_compute|closed_uleb|].
    repeat apply Forall2_cons_2; [apply tag_bytes|apply thread_spawn_bytes|constructor].
  - exists [1], [[0; 1]]. split_and!; [by vm_compute|closed_uleb|]. constructor; [|constructor].
    apply (lb_min 0 1 [1]); [done|done|closed_uleb].
  - by vm_compute.
Qed.

Lemma pthread_guard_exact_witness :
  parseWasmModuleSections threaded_module = Ok threaded_parsed /\
  has_shared_memory threaded_interface = true /\
  is_ok (assertPthreadArtifact threaded_module) = true.
Proof.
  split_and!; [by vm_compute|by vm_compute|].
  rewrite (pthread_guard_exact threaded_module threaded_parsed threaded_interface);
    [by vm_compute|closed_bytes|by vm_compute|by vm_compute|exact threaded_has_interface|by vm_compute].
Defined.

Lemma sequential_guard_exact_witness :
  is_ok (assertSequentialArtifact sequential_module (Some SANCTIONED_WASI_TARGET)) = true /\
  is_ok (assertSequentialArtifact sequential_module (Some (lit "wasm32-wasip1"))) = false.
Proof.
  split;
  (rewrite (sequential_guard_exact sequential_module sequential_parsed sequential_interface);
    [by vm_compute|closed_bytes|by vm_compute|by vm_compute|exact sequential_has_interface|by vm_compute]).
Defined.

(** (func (v128.const ...) (drop)) with a target_features section naming simd128. *)
Definition simd_module : list Z :=
  WASM_HEADER ++ type_section ++ small_section 3 [1; 0] ++
  small_section 10 (1 :: 21 :: 0 :: 0xfd :: 0x0c :: repeat 7 16 ++ [0x1a; 0x0b]) ++
  small_section 0 (small_name "target_features" ++ 1 :: 43 :: small_name "simd128").
Definition simd_parsed : parsed_module := Eval vm_compute in module_of simd_module.

Lemma simd_guard_exact_witness :
  exists c, code_of simd_parsed c /\ relaxedSimd c = 0.
Proof.
  destruct (proj1 (simd_guard_exact simd_module simd_parsed true ltac:(closed_bytes)
    ltac:(by vm_compute) ltac:(by vm_compute)) ltac:(by vm_compute)) as (c & Hc & Hr & _).
  by exists c.
Defined.
