(* ===== verification/JsMap.v ===== *)
(** JavaScript values the registries are built from: numbers as [Number(...)] gives them, and
    [Map], which is an association list in insertion order. *)
From Stdlib Require Import ZArith QArith Lia.
From stdpp Require Import base list strings numbers.
From S2P Require Import Prelude JsText.
Open Scope Z_scope.

(** ** Numbers *)

(** A number as a caller gives it, after [Number(...)]. *)
Inductive jsnum := NaN | PosInf | NegInf | Fin (q : Q).

Definition q_trunc (q : Q) : Z := Z.quot (Qnum q) (Zpos (Qden q)).
Definition q_ceil (q : Q) : Z := - ((- Qnum q) / Zpos (Qden q)).
Definition q_pos (q : Q) : bool := 0 <? Qnum q.

(** The integer a number is, when [Number.isInteger] holds of it. *)
Definition as_integer (v : jsnum) : option Z :=
  match v with
  | Fin q => if Qnum q mod Zpos (Qden q) =? 0 then Some (Qnum q / Zpos (Qden q)) else None
  | _ => None
  end.

Definition int_num (z : Z) : jsnum := Fin (inject_Z z).

Lemma as_integer_int z : as_integer (int_num z) = Some z.
Proof. unfold as_integer, int_num, inject_Z. cbn. by rewrite Z.mod_1_r, Z.div_1_r. Qed.

(** ** Map *)

Section map.
Context {K V : Type} `{!EqDecision K}.
Implicit Types (m : list (K * V)) (k : K) (v : V).

Fixpoint map_get m k : option V :=
  match m with
  | [] => None
  | (k', v) :: m' => if decide (k' = k) then Some v else map_get m' k
  end.

Definition map_has m k : bool := match map_get m k with Some _ => true | None => false end.

(** A key that is present keeps its place; a new one goes last. *)
Fixpoint map_set m k v : list (K * V) :=
  match m with
  | [] => [(k, v)]
  | (k', v') :: m' => if decide (k' = k) then (k', v) :: m' else (k', v') :: map_set m' k v
  end.

Definition map_delete m k : list (K * V) := List.filter (fun e => negb (bool_decide (e.1 = k))) m.

Definition map_keys m : list K := map fst m.
Definition map_values m : list V := map snd m.

Lemma map_get_set_eq m k v : map_get (map_set m k v) k = Some v.
Proof.
  induction m as [|[k' v'] m IH]; cbn.
  - by rewrite decide_True.
  - destruct (decide (k' = k)) as [->|Hne]; cbn; [by rewrite decide_True|by rewrite decide_False].
Qed.
Lemma map_get_set_ne m k k1 v : k <> k1 -> map_get (map_set m k v) k1 = map_get m k1.
Proof.
  intros Hne. induction m as [|[k' v'] m IH]; cbn.
  - by rewrite decide_False.
  - destruct (decide (k' = k)) as [->|Hne']; cbn; [by rewrite !decide_False|].
    by destruct (decide (k' = k1)).
Qed.
Lemma map_get_set m k k1 v :
  map_get (map_set m k v) k1 = if decide (k = k1) then Some v else map_get m k1.
Proof.
  destruct (decide (k = k1)) as [->|]; [apply map_get_set_eq|by apply map_get_set_ne].
Qed.
Lemma map_get_delete m k k1 :
  map_get (map_delete m k) k1 = if decide (k = k1) then None else map_get m k1.
Proof.
  unfold map_delete in *. induction m as [|[k' v'] m IH]; cbn; [by destruct (decide (k = k1))|].
  case_bool_decide as Hk; cbn.
  - subst. rewrite IH. by destruct (decide (k = k1)).
  - rewrite IH. destruct (decide (k = k1)) as [->|]; [by rewrite decide_False|done].
Qed.
Lemma map_get_In m k v : map_get m k = Some v -> In (k, v) m.
Proof.
  induction m as [|[k' v'] m IH]; cbn; [done|].
  destruct (decide (k' = k)) as [->|]; [intros [= ->]; by left|intros H; right; auto].
Qed.
Lemma map_get_None m k : map_get m k = None <-> ~ In k (map_keys m).
Proof.
  induction m as [|[k' v'] m IH]; cbn; [tauto|].
  destruct (decide (k' = k)) as [->|Hne]; [split; [done|intros H; by destruct H; left]|].
  rewrite IH. tauto.
Qed.
Lemma map_keys_set m k v :
  map_keys (map_set m k v) = if map_has m k then map_keys m else map_keys m ++ [k].
Proof.
  unfold map_keys, map_has. induction m as [|[k' v'] m IH]; cbn; [done|].
  destruct (decide (k' = k)) as [->|Hne]; cbn; [done|]. rewrite IH. by destruct (map_get m k).
Qed.
Lemma map_set_NoDup m k v : NoDup (map_keys m) -> NoDup (map_keys (map_set m k v)).
Proof.
  intros Hm. rewrite map_keys_set. unfold map_has. destruct (map_get m k) eqn:E; [done|].
  apply map_get_None in E. apply list.NoDup_app. split_and!; [done| |apply NoDup_singleton].
  intros x Hx Hx'%list_elem_of_singleton. subst. by apply E, list_elem_of_In.
Qed.
Lemma map_delete_NoDup m k : NoDup (map_keys m) -> NoDup (map_keys (map_delete m k)).
Proof.
  unfold map_keys, map_delete. induction m as [|[k' v] m IH]; cbn; [done|]. intros [Hk Hn]%list.NoDup_cons.
  case_bool_decide; cbn; [by apply IH|]. apply list.NoDup_cons. split; [|by apply IH].
  rewrite list_elem_of_In in Hk |- *. intros Hin. apply Hk. apply in_map_iff in Hin as (p & <- & Hp). apply in_map. by apply filter_In in Hp as [? _].
Qed.
Lemma map_set_In m k v k' v' : In (k', v') (map_set m k v) -> (k' = k /\ v' = v) \/ In (k', v') m.
Proof.
  induction m as [|[k1 v1] m IH]; cbn; [intros [[= <- <-]|[]]; by left|].
  destruct (decide (k1 = k)) as [->|Hne]; cbn.
  - intros [[= <- <-]|H]; [by left|right; by right].
  - intros [H|H]; [right; by left|]. destruct (IH H) as [?|?]; [by left|right; by right].
Qed.
End map.

#[export] Hint Rewrite @map_get_set_eq : js_len.
