(* ===== verification/JsNumber.v ===== *)
(** [Number(text)]: the StringNumericLiteral grammar and the rounding of its exact value to
    binary64. A number is exact here ([jsnum] of JsMap.v): a finite double is the rational it
    stands for. *)
From Stdlib Require Import ZArith QArith Lia.
From stdpp Require Import base list strings numbers.
From S2P Require Import Prelude JsText JsMap.
Open Scope Z_scope.

(** ** Rounding *)

(** [n / d] to the nearest integer, ties to even. *)
Definition round_half_even (n d : Z) : Z :=
  let q := n / d in
  let r := n mod d in
  if (d <? 2 * r) || ((2 * r =? d) && Z.odd q) then q + 1 else q.

(** [2 ^ k <= n / d], for any integer [k]. *)
Definition pow2_le (k n d : Z) : bool := if 0 <=? k then d * 2 ^ k <=? n else d <=? n * 2 ^ (- k).

(** The double nearest to the positive rational [n / d]. *)
Definition round_positive (n d : Z) : jsnum :=
  let k := Z.log2 n - Z.log2 d in
  let k := if pow2_le k n d then k else k - 1 in
  let e := Z.max (k - 52) (-1074) in
  let m := if 0 <=? e then round_half_even n (d * 2 ^ e) else round_half_even (n * 2 ^ (- e)) d in
  if 0 <=? e then (if 2 ^ 1024 <=? m * 2 ^ e then PosInf else Fin (inject_Z (m * 2 ^ e)))
  else Fin (m # Z.to_pos (2 ^ (- e))).

Definition negate (v : jsnum) : jsnum :=
  match v with NaN => NaN | PosInf => NegInf | NegInf => PosInf | Fin q => Fin (Qopp q) end.

(** ** The grammar *)

Fixpoint span_digits (s : jsstring) : list Z * jsstring :=
  match s with
  | c :: s' =>
      if (48 <=? c) && (c <=? 57) then let '(ds, r) := span_digits s' in (c - 48 :: ds, r) else ([], s)
  | [] => ([], [])
  end.

Definition from_digits (base : Z) (ds : list Z) : Z := fold_left (fun n d => n * base + d) ds 0.

(** The exponent part: absent, or a sign and digits up to the end of the text. *)
Definition exponent_part (s : jsstring) : option Z :=
  match s with
  | [] => Some 0
  | c :: s' =>
      if (c =? 101) || (c =? 69) then
        let '(sign, s'') := match s' with
                            | 43 :: r => (1, r)
                            | 45 :: r => (-1, r)
                            | _ => (1, s')
                            end in
        match span_digits s'' with
        | (d :: ds, []) => Some (sign * from_digits 10 (d :: ds))
        | _ => None
        end
      else None
  end.

(** [mantissa * 10 ^ e] as a double; [len] is the number of digits of the mantissa. Beyond
    the two bounds the value is certainly infinite or zero. *)
Definition scaled (mantissa len e : Z) : jsnum :=
  if mantissa =? 0 then Fin 0
  else if 400 <? e then PosInf
  else if e + len <? -400 then Fin 0
  else if 0 <=? e then round_positive (mantissa * 10 ^ e) 1
  else round_positive mantissa (10 ^ (- e)).

Definition unsigned_decimal (s : jsstring) : jsnum :=
  if str_eqb s (lit "Infinity") then PosInf
  else
    let '(ip, r) := span_digits s in
    let '(fp, r) := match r with 46 :: r' => span_digits r' | _ => ([], r) end in
    if bool_decide (ip ++ fp = []) then NaN
    else
      match exponent_part r with
      | None => NaN
      | Some e => scaled (from_digits 10 (ip ++ fp)) (blen (ip ++ fp)) (e - blen fp)
      end.

(** The value of a digit in a base up to 16. *)
Definition digit_in (base c : Z) : option Z :=
  let v := if (48 <=? c) && (c <=? 57) then c - 48
           else if (97 <=? lower c) && (lower c <=? 102) then lower c - 87 else 16 in
  if v <? base then Some v else None.

Fixpoint digits_in (base : Z) (s : jsstring) : option (list Z) :=
  match s with
  | [] => Some []
  | c :: s' => match digit_in base c, digits_in base s' with
               | Some d, Some ds => Some (d :: ds)
               | _, _ => None
               end
  end.

Definition radix_literal (base : Z) (s : jsstring) : jsnum :=
  match s, digits_in base s with
  | _ :: _, Some ds => let n := from_digits base ds in if n =? 0 then Fin 0 else round_positive n 1
  | _, _ => NaN
  end.

(** [Number(text)] *)
Definition to_number (text : jsstring) : jsnum :=
  match trim text with
  | [] => Fin 0
  | 48 :: c :: s =>
      if lower c =? 120 then radix_literal 16 s
      else if lower c =? 111 then radix_literal 8 s
      else if lower c =? 98 then radix_literal 2 s
      else unsigned_decimal (48 :: c :: s)
  | 43 :: s => unsigned_decimal s
  | 45 :: s => negate (unsigned_decimal s)
  | s => unsigned_decimal s
  end.

Definition to_integer (text : jsstring) : option Z := as_integer (to_number text).

Example to_integer_plain : to_integer (lit " 15 ") = Some 15. Proof. reflexivity. Qed.
Example to_integer_exponent : to_integer (lit "2.5e1") = Some 25. Proof. reflexivity. Qed.
Example to_integer_hex : to_integer (lit "0x1F") = Some 31. Proof. reflexivity. Qed.
Example to_integer_fraction : to_integer (lit "1.5") = None. Proof. reflexivity. Qed.
Example to_integer_rounded : to_integer (lit "1.00000000000000000001") = Some 1. Proof. vm_compute. reflexivity. Qed.
Example to_integer_unsafe : to_integer (lit "9007199254740993") = Some 9007199254740992. Proof. vm_compute. reflexivity. Qed.
Example to_integer_large : to_integer (lit "1e400") = None. Proof. reflexivity. Qed.
Example to_integer_junk : to_integer (lit "5x") = None. Proof. reflexivity. Qed.
