(* ===== verification/FlowRuntime.v ===== *)
(** The queue-driven flow runtime (src/flow/jsFlowRuntime.js).

    Frames wait in a queue per node and input port; [drain] repeatedly picks the first node
    that is ready, invokes its method through the registry and routes the outputs along
    the edges of the program. The registry is the interface [FlowRegistry]; what a frame
    carries besides its port is the type [D].

    A drain is taken alone: nothing is put into the queues from outside while it awaits an invocation or the sink. The source hands
    the runtime to the sink, which could enqueue frames there; the sink here changes only the registry's state.

    The abstract view of a drain is the relation [runs] of invocations ([fires]) on the contents of the queues, which [drain]
    refines for programs whose nodes have one-port methods ([drain_runs_the_program]). *)
From Stdlib Require Import ZArith QArith Lia.
From stdpp Require Import base list gmap strings numbers.
From S2P Require Import Prelude JsText JsMap.
Open Scope Z_scope.

(** ** Numbers of the configuration *)

(** [None] is Infinity. *)
Definition normalizeQueueDepth (value : jsnum) : option Z :=
  match value with
  | Fin q => if q_pos q then Some (Z.max 1 (q_trunc q)) else None
  | _ => None
  end.

(** [Math.max(1, Number(x ?? 1) || 1)], used as a count: [None] is Infinity, and a fraction
    counts up to its integer part where it bounds a [splice]. *)
Definition normalizeMaxBatch (value : option jsnum) : option Z :=
  match value with
  | None | Some NaN | Some NegInf => Some 1
  | Some PosInf => None
  | Some (Fin q) => Some (Z.max 1 (q_trunc q))
  end.

(** ** Frames and queues *)

Record frame (D : Type) := Frame { frame_port : jsstring; frame_data : D }.
Arguments Frame {D} _ _.
Arguments frame_port {D} _.
Arguments frame_data {D} _.

Inductive policy := DropOldest | DropNewest | Queue.

(** [String(policy ?? "queue").trim().toLowerCase()] and what it is compared with. *)
Definition normalizePolicy (p : option jsstring) : policy :=
  let s := map lower (trim (match p with Some p => p | None => lit "queue" end)) in
  if str_eqb s (lit "drop-oldest") then DropOldest
  else if str_eqb s (lit "drop-newest") then DropNewest
  else Queue.

Definition below (n : Z) (depth : option Z) : bool :=
  match depth with Some d => n <? d | None => true end.

(** [#queueMap]: node id, then port id. *)
Abbreviation queue_map D := (gmap jsstring (gmap jsstring (list (frame D)))).

Section queues.
Context {D : Type}.
Implicit Types (queue frames : list (frame D)) (f : frame D).

Definition cloneFrame f (portId : jsstring) : frame D := Frame portId (frame_data f).

(** One round of the loop over the frames. *)
Definition push_frame (p : policy) (depth : option Z) queue f : list (frame D) :=
  if below (blen queue) depth then queue ++ [f]
  else
    match p with
    | DropOldest => drop 1 queue ++ [f]
    | DropNewest => queue
    | Queue =>
        let pushed := queue ++ [f] in
        match depth with
        | Some d => if d <? blen pushed then drop (Z.to_nat (blen pushed - d)) pushed else pushed
        | None => pushed
        end
    end.

Definition applyBackpressure queue frames (p : option jsstring) (queueDepth : jsnum) : list (frame D) :=
  fold_left (push_frame (normalizePolicy p) (normalizeQueueDepth queueDepth)) frames queue.

(** [splice(0, min(length, maxBatch))]: what is taken and what stays. *)
Definition drainReadyFrames queue (maxBatch : option Z) : list (frame D) * list (frame D) :=
  match maxBatch with
  | Some n => (take (Z.to_nat n) queue, drop (Z.to_nat n) queue)
  | None => (queue, [])
  end.

Definition getPortQueues (m : queue_map D) (nodeId : jsstring) : gmap jsstring (list (frame D)) * queue_map D :=
  match m !! nodeId with
  | Some q => (q, m)
  | None => (∅, <[nodeId := ∅]> m)
  end.

(** The queue of a port, and the map with that queue replaced by [upd] of it. *)
Definition updateFrameQueue (m : queue_map D) (nodeId portId : jsstring)
    (upd : list (frame D) -> list (frame D)) : queue_map D :=
  let (portQueues, m) := getPortQueues m nodeId in
  let queue := default [] (portQueues !! portId) in
  <[nodeId := <[portId := upd queue]> portQueues]> m.

Definition queue_of (m : queue_map D) (nodeId portId : jsstring) : list (frame D) :=
  default [] (default ∅ (m !! nodeId) !! portId).

Definition snapshotQueues (m : queue_map D) : gmap jsstring (gmap jsstring Z) :=
  fmap (M:=gmap jsstring) (fmap (M:=gmap jsstring) blen) m.

Definition isIdle (m : queue_map D) : bool :=
  forallb (fun '(_, portQueues) => forallb (fun '(_, frames) => blen (A:=frame D) frames =? 0)
    (map_to_list portQueues)) (map_to_list m).
End queues.

(** ** Programs and registries *)

Record trigger_binding := TriggerBinding {
  triggerId : jsstring; targetNodeId : jsstring; targetPortId : jsstring;
  tb_policy : option jsstring; tb_depth : jsnum }.
Record flow_node := FlowNode { nodeId : jsstring; node_pluginId : jsstring; node_methodId : jsstring }.
Record flow_edge := FlowEdge {
  fromNodeId : jsstring; fromPortId : jsstring; toNodeId : jsstring; toPortId : jsstring;
  edge_policy : option jsstring; edge_depth : jsnum }.
Record program := Program {
  nodes : list flow_node; edges : list flow_edge; triggerBindings : list trigger_binding }.

(** A port counts as required unless it says [required: false]. *)
Record input_port := InputPort { port_id : jsstring; required : bool }.
Record method := Method { maxBatch : option jsnum; inputPorts : list input_port }.

Record response (D : Type) := Response { outputs : list (frame D); yielded : bool }.
Arguments Response {D} _ _.
Arguments outputs {D} _.
Arguments yielded {D} _.

(** What the runtime uses of a registry whose state is [W]: method lookup and invocation.
    The handlers run inside [invoke]; an invocation that throws leaves its state too. The sink gets a frame that no edge takes, and does not reach the queues. *)
Class FlowRegistry (W D : Type) := {
  getMethod : W -> jsstring -> jsstring -> option method;
  invoke : W -> jsstring -> jsstring -> list (frame D) -> result (response D) * W;
  onSinkOutput : option (W -> frame D -> flow_node -> W)
}.

Record runtime (D : Type) := Runtime { rt_program : option program; queueMap : queue_map D }.
Arguments Runtime {D} _ _.
Arguments rt_program {D} _.
Arguments queueMap {D} _.

Section runtime.
Context {W D : Type} `{!FlowRegistry W D}.
Implicit Types (m : queue_map D) (w : W).

(** [loadProgram] of an already normalized program. *)
Definition loadProgram (p : program) (rt : runtime D) : runtime D := Runtime (Some p) ∅.

Definition enqueue m (node port : jsstring) (frames : list (frame D)) (p : option jsstring) (d : jsnum) :
    queue_map D :=
  updateFrameQueue m node port
    (fun queue => applyBackpressure queue (map (fun f => cloneFrame f port) frames) p d).

Definition enqueueTriggerFrames (rt : runtime D) (trigger : jsstring) (frames : list (frame D)) :
    result (runtime D) :=
  match rt_program rt with
  | None => Throw (Error "FlowRuntime requires loadProgram() before enqueue.")
  | Some p =>
      let bindings := List.filter (fun b => str_eqb (triggerId b) trigger) (triggerBindings p) in
      Ok (Runtime (Some p)
        (fold_left (fun m b => enqueue m (targetNodeId b) (targetPortId b) frames (tb_policy b) (tb_depth b))
           bindings (queueMap rt)))
  end.

Definition enqueueNodeFrames (rt : runtime D) (node port : jsstring) (frames : list (frame D))
    (p : option jsstring) (d : jsnum) : result (runtime D) :=
  match rt_program rt with
  | None => Throw (Error "FlowRuntime requires loadProgram() before enqueue.")
  | Some prog => Ok (Runtime (Some prog) (enqueue (queueMap rt) node port frames p d))
  end.

(** The loop over the input ports of a candidate. [None]: a required port is empty. The
    queues drained before that stay drained. *)
Fixpoint collect_inputs (ports : list input_port) (batch : option Z)
    (portQueues : gmap jsstring (list (frame D))) (acc : list (frame D)) :
    option (list (frame D)) * gmap jsstring (list (frame D)) :=
  match ports with
  | [] => (Some acc, portQueues)
  | port :: rest =>
      let queue := default [] (portQueues !! port_id port) in
      if required port && (blen queue =? 0) then (None, portQueues)
      else if 0 <? blen queue then
        let (taken, left) := drainReadyFrames queue batch in
        collect_inputs rest batch (<[port_id port := left]> portQueues) (acc ++ taken)
      else collect_inputs rest batch portQueues acc
  end.

(** The search for a ready node. *)
Fixpoint select_node (ns : list flow_node) m w : option (flow_node * list (frame D)) * queue_map D :=
  match ns with
  | [] => (None, m)
  | node :: rest =>
      match getMethod w (node_pluginId node) (node_methodId node) with
      | None => select_node rest m w
      | Some d =>
          let (portQueues, m) := getPortQueues m (nodeId node) in
          let (inputs, portQueues) :=
            collect_inputs (inputPorts d) (normalizeMaxBatch (maxBatch d)) portQueues [] in
          let m := <[nodeId node := portQueues]> m in
          match inputs with
          | Some (f :: l) => (Some (node, f :: l), m)
          | _ => select_node rest m w
          end
      end
  end.

(** Routing of the outputs of an invocation. *)
Fixpoint route_outputs (es : list flow_edge) (node : flow_node) (outs : list (frame D)) m w :
    queue_map D * W :=
  match outs with
  | [] => (m, w)
  | f :: rest =>
      let matching := List.filter (fun e => str_eqb (fromNodeId e) (nodeId node) &&
                                            str_eqb (fromPortId e) (frame_port f)) es in
      match matching, onSinkOutput with
      | [], Some sink => route_outputs es node rest m (sink w f node)
      | _, _ =>
          route_outputs es node rest
            (fold_left (fun m e => enqueue m (toNodeId e) (toPortId e) [f] (edge_policy e) (edge_depth e))
               matching m) w
      end
  end.

Record drain_result := DrainResult { invocations : Z; idle : bool; queues : gmap jsstring (gmap jsstring Z) }.

(** The while loop; [budget] is the number of invocations left, [count] those made. *)
Fixpoint drain_loop (budget : nat) (p : program) (count : Z) m w : result Z * queue_map D * W :=
  match budget with
  | O => (Ok count, m, w)
  | S budget' =>
      match select_node (nodes p) m w with
      | (None, m) => (Ok count, m, w)
      | (Some (node, inputs), m) =>
          match invoke w (node_pluginId node) (node_methodId node) inputs with
          | (Throw e, w) => (Throw e, m, w)
          | (Ok r, w) =>
              let (m, w) := route_outputs (edges p) node (outputs r) m w in
              if yielded r then (Ok (count + 1), m, w) else drain_loop budget' p (count + 1) m w
          end
      end
  end.

(** [drain] with a finite bound on the invocations: it makes a round while the count is
    below [maxInvocations], so as many as its ceiling. *)
Definition drain (rt : runtime D) w (maxInvocations : Q) : result drain_result * runtime D * W :=
  match rt_program rt with
  | None => (Throw (Error "FlowRuntime requires loadProgram() before drain."), rt, w)
  | Some p =>
      let budget := Z.to_nat (Z.max 1 (q_ceil maxInvocations)) in
      match drain_loop budget p 0 (queueMap rt) w with
      | (r, m, w) =>
          (let! count := r in Ok (DrainResult count (isIdle m) (snapshotQueues m)), Runtime (Some p) m, w)
      end
  end.
End runtime.

(** ** Queues under backpressure *)

(** What a bounded queue keeps of the frames offered to it: with drop-newest the oldest
    [n], otherwise the newest [n]. *)
Definition bounded {A} (p : policy) (depth : option Z) (l : list A) : list A :=
  match depth with
  | None => l
  | Some n =>
      match p with
      | DropNewest => take (Z.to_nat n) l
      | _ => drop (length l - Z.to_nat n) l
      end
  end.

Lemma normalizeQueueDepth_pos v n : normalizeQueueDepth v = Some n -> 1 <= n.
Proof. unfold normalizeQueueDepth. destruct v; try done. destruct (q_pos q); [|done]. intros [= <-]. lia. Qed.
Lemma normalizeMaxBatch_pos v n : normalizeMaxBatch v = Some n -> 1 <= n.
Proof. unfold normalizeMaxBatch. destruct v as [[]|]; intros [= <-]; lia. Qed.

Lemma drop_snoc_1 {A} (l : list A) k x : (k < length l)%nat -> drop 1 (drop k l) ++ [x] = drop (S k) (l ++ [x]).
Proof. intros Hk. rewrite drop_drop, drop_app_le by lia. do 2 f_equal. lia. Qed.

Section queue_facts.
Context {D : Type}.
Implicit Types (queue frames l : list (frame D)) (f : frame D).

Lemma push_frame_bounded p depth l f :
  (forall n, depth = Some n -> 1 <= n) ->
  push_frame p depth (bounded p depth l) f = bounded p depth (l ++ [f]).
Proof.
  intros Hd. unfold push_frame, below, bounded. destruct depth as [n|]; [|done].
  specialize (Hd n eq_refl). unfold blen.
  assert (Hlast : (Z.of_nat (length (drop (length l - Z.to_nat n) l)) <? n) = (length l <? Z.to_nat n)%nat).
  { rewrite length_drop. destruct (Nat.ltb_spec (length l) (Z.to_nat n)), (Z.ltb_spec (Z.of_nat (length l - (length l - Z.to_nat n))) n); lia || done. }
  assert (Hdrop : drop (length l - Z.to_nat n) l ++ [f] = drop (length l - Z.to_nat n) (l ++ [f]))
    by (rewrite drop_app_le by lia; done).
  destruct p.
  - rewrite Hlast, length_app. cbn [length]. destruct (Nat.ltb_spec (length l) (Z.to_nat n)).
    + rewrite Hdrop. f_equal. lia.
    + rewrite drop_snoc_1 by lia. f_equal. lia.
  - rewrite length_take. destruct (Z.ltb_spec (Z.of_nat (Z.to_nat n `min` length l)) n).
    + rewrite !take_ge; [done|rewrite length_app; simpl; lia|lia].
    + rewrite take_app_le by lia. done.
  - rewrite Hlast, !length_app. cbn [length]. destruct (Nat.ltb_spec (length l) (Z.to_nat n)).
    + rewrite Hdrop. f_equal. lia.
    + rewrite length_drop.
      destruct (Z.ltb_spec n (Z.of_nat (length l - (length l - Z.to_nat n) + 1))); [|lia].
      rewrite Hdrop, drop_drop. f_equal. lia.
Qed.

Lemma fold_push_bounded p depth frames : forall l,
  (forall n, depth = Some n -> 1 <= n) ->
  fold_left (push_frame p depth) frames (bounded p depth l) = bounded p depth (l ++ frames).
Proof.
  induction frames as [|f frames IH]; intros l Hd; cbn [fold_left]; [by rewrite app_nil_r|].
  rewrite push_frame_bounded, IH by done. by rewrite <- app_assoc.
Qed.

Lemma bounded_fits p depth l : (forall n, depth = Some n -> blen l <= n) -> bounded p depth l = l.
Proof.
  intros Hf. unfold bounded. destruct depth as [n|]; [|done]. specialize (Hf n eq_refl).
  unfold blen in Hf. destruct p; [|apply take_ge; lia|];
    (replace (length l - Z.to_nat n)%nat with O by lia; done).
Qed.

(** Offering frames to a queue that is within its depth leaves exactly what the policy
    says of the queue followed by the frames, in order: everything without a bound, the
    oldest frames with drop-newest, the newest ones otherwise. *)
Theorem backpressure_keeps queue frames p d :
  (forall n, normalizeQueueDepth d = Some n -> blen queue <= n) ->
  applyBackpressure queue frames p d = bounded (normalizePolicy p) (normalizeQueueDepth d) (queue ++ frames).
Proof.
  intros Hfit. unfold applyBackpressure.
  rewrite <- (bounded_fits (normalizePolicy p) _ queue Hfit) at 1.
  apply fold_push_bounded. intros n. apply normalizeQueueDepth_pos.
Qed.

Lemma drain_parts queue batch taken left :
  (forall n, batch = Some n -> 1 <= n) -> drainReadyFrames queue batch = (taken, left) ->
  queue = taken ++ left /\ (queue <> [] -> taken <> []).
Proof.
  intros Hb. unfold drainReadyFrames. destruct batch as [n|]; intros [= <- <-].
  - rewrite take_drop. split; [done|]. specialize (Hb n eq_refl).
    destruct queue as [|x q]; [done|]. by destruct (Z.to_nat n) eqn:E; [lia|].
  - by rewrite app_nil_r.
Qed.
End queue_facts.

Lemma backpressure_keeps_witness :
  applyBackpressure [Frame (lit "p") 1] [Frame (lit "p") 2; Frame (lit "p") 3] (Some (lit " DROP-newest "))
    (Fin (5 # 2)) = [Frame (lit "p") 1; Frame (lit "p") 2].
Proof.
  rewrite (backpressure_keeps [Frame (lit "p") 1] [Frame (lit "p") 2; Frame (lit "p") 3]
    (Some (lit " DROP-newest ")) (Fin (5 # 2))).
  - reflexivity.
  - intros n. vm_compute. intros [= <-]. discriminate.
Defined.

(** ** Selecting a node *)

Section selection.
Context {W D : Type} `{!FlowRegistry W D}.
Implicit Types (m : queue_map D) (w : W) (node : flow_node).

Lemma queue_of_insert m n n' p qs :
  queue_of (<[n := qs]> m) n' p = if decide (n = n') then default [] (qs !! p) else queue_of m n' p.
Proof.
  unfold queue_of. destruct (decide (n = n')) as [->|Hne].
  - by rewrite lookup_insert_eq.
  - by rewrite lookup_insert_ne.
Qed.

Lemma getPortQueues_spec m n qs m' :
  getPortQueues m n = (qs, m') ->
  (forall p, default [] (qs !! p) = queue_of m n p) /\ (forall n' p, queue_of m' n' p = queue_of m n' p).
Proof.
  unfold getPortQueues. destruct (m !! n) as [q|] eqn:E; intros [= <- <-].
  - split; [|done]. intros p. unfold queue_of. by rewrite E.
  - assert (Hz : forall p, queue_of m n p = []) by (intros p; unfold queue_of; by rewrite E).
    split; intros; [by rewrite Hz|]. rewrite queue_of_insert.
    destruct (decide (n = n')) as [->|]; [by rewrite Hz|done].
Qed.

Definition method_of w node : option method := getMethod w (node_pluginId node) (node_methodId node).
(** The methods of these nodes, whenever they are registered, have one input port. *)
Definition one_port (ns : list flow_node) : Prop := forall w node d, In node ns -> method_of w node = Some d -> exists port, inputPorts d = [port].

(** No node with a registered one-port method has a frame waiting. *)
Definition none_waiting (ns : list flow_node) w m : Prop :=
  forall node d port, In node ns -> method_of w node = Some d -> inputPorts d = [port] -> queue_of m (nodeId node) (port_id port) = [].
Definition same_queues m m' : Prop := forall n p, queue_of m' n p = queue_of m n p.

(** The first node with a frame waiting takes a batch of the frames: [inputs], so that [rest] is left; all other queues stay. *)
Inductive takes (ns : list flow_node) w m : flow_node -> list (frame D) -> queue_map D -> Prop :=
  | Takes before node after d port inputs rest m' :
      ns = before ++ node :: after -> none_waiting before w m -> method_of w node = Some d -> inputPorts d = [port] ->
      queue_of m (nodeId node) (port_id port) = inputs ++ rest -> inputs <> [] ->
      match normalizeMaxBatch (maxBatch d) with Some b => blen inputs = Z.min b (blen (inputs ++ rest)) | None => rest = [] end ->
      queue_of m' (nodeId node) (port_id port) = rest ->
      (forall n p, n <> nodeId node \/ p <> port_id port -> queue_of m' n p = queue_of m n p) -> takes ns w m node inputs m'.

Lemma takes_same ns w m1 m node inputs m' : same_queues m m1 -> takes ns w m1 node inputs m' -> takes ns w m node inputs m'.
Proof.
  intros Hs Ht. destruct Ht as [before node after d port inputs rest m' -> Hb Hg Hp Hq Hne Hbatch Hr Ho].
  eapply Takes; try done; [|by rewrite <- Hs|]; [intros nd' d' port' Hin Hg' Hp'; rewrite <- Hs; by eapply Hb|].
  intros n p Hnp. by rewrite Ho, Hs.
Qed.

Lemma takes_skip ns w m node inputs m' skipped :
  (forall d port, method_of w skipped = Some d -> inputPorts d = [port] -> queue_of m (nodeId skipped) (port_id port) = []) ->
  takes ns w m node inputs m' -> takes (skipped :: ns) w m node inputs m'.
Proof.
  intros Hs Ht. destruct Ht as [before node after d port inputs rest m' -> Hb Hg Hp Hq Hne Hbatch Hr Ho].
  apply (Takes (skipped :: before ++ node :: after) w m (skipped :: before) node after d port inputs rest m'); try done.
  intros nd' d' port' [<-|Hin] Hg' Hp'; [by eapply Hs|by eapply Hb].
Qed.

Lemma batch_taken (queue : list (frame D)) batch taken left : (forall n, batch = Some n -> 1 <= n) -> drainReadyFrames queue batch = (taken, left) ->
  match batch with Some b => blen taken = Z.min b (blen (taken ++ left)) | None => left = [] end.
Proof.
  unfold drainReadyFrames. destruct batch as [b|]; intros Hb [= <- <-]; [|done]. specialize (Hb b eq_refl).
  rewrite take_drop. unfold blen. rewrite length_take. lia.
Qed.

(** A method with one input port: a miss leaves the queue alone, a hit takes a non-empty
    prefix of it. *)
Lemma collect_single (port : input_port) (batch : option Z) (qs : gmap jsstring (list (frame D))) inputs qs' :
  (forall n, batch = Some n -> 1 <= n) ->
  collect_inputs [port] batch qs [] = (inputs, qs') ->
  match inputs with
  | Some (f :: l) =>
      default [] (qs !! port_id port) = (f :: l) ++ default [] (qs' !! port_id port) /\
      match batch with Some b => blen (f :: l) = Z.min b (blen ((f :: l) ++ default [] (qs' !! port_id port))) | None => default [] (qs' !! port_id port) = [] end /\
      forall p, p <> port_id port -> default [] (qs' !! p) = default [] (qs !! p)
  | _ => qs' = qs /\ default [] (qs !! port_id port) = []
  end.
Proof.
  intros Hb. cbn [collect_inputs]. set (q := default [] (qs !! port_id port)).
  destruct (Z.eqb_spec (blen q) 0) as [Hz|Hnz].
  { rewrite Hz. apply blen_0 in Hz. destruct (required port); cbn [andb]; intros [= <- <-]; done. }
  rewrite andb_false_r. destruct (Z.ltb_spec 0 (blen q)); [|pose proof (blen_nonneg q); lia].
  destruct (drainReadyFrames q batch) as [taken left] eqn:Ed. intros [= <- <-]. cbn [app].
  pose proof (batch_taken q batch taken left Hb Ed) as Hbatch. apply drain_parts in Ed as [Hq Hne]; [|done].
  destruct taken as [|f l]; [by destruct Hne; [destruct q|]|].
  rewrite lookup_insert_eq. split; [done|]. split; [done|]. intros p Hp. by rewrite lookup_insert_ne.
Qed.

Lemma one_port_cons node ns : one_port (node :: ns) -> one_port ns.
Proof. intros H w n d Hin. apply H. by right. Qed.

Lemma select_single ns : one_port ns -> forall m w sel m',
  select_node ns m w = (sel, m') ->
  match sel with
  | None => same_queues m m' /\ none_waiting ns w m
  | Some (node, inputs) => takes ns w m node inputs m'
  end.
Proof.
  intros Hop. induction ns as [|node ns IH]; intros m w sel m'; cbn [select_node].
  { intros [= <- <-]. split; [done|]. by intros node d port []. }
  specialize (IH (one_port_cons _ _ Hop)).
  destruct (getMethod w (node_pluginId node) (node_methodId node)) as [d|] eqn:Eg.
  2: { intros H. specialize (IH _ _ _ _ H). destruct sel as [[nd ins]|].
       - apply takes_skip; [|done]. intros d port Hd. unfold method_of in Hd. by rewrite Eg in Hd.
       - destruct IH as [IH1 IH2]. split; [done|]. intros nd d port [<-|Hin] Hd; [unfold method_of in Hd; by rewrite Eg in Hd|by apply IH2]. }
  destruct (Hop w node d ltac:(by left) Eg) as [port Hport]. rewrite Hport.
  destruct (getPortQueues m (nodeId node)) as [qs m1] eqn:Em.
  apply getPortQueues_spec in Em as [Hqs Hm1].
  destruct (collect_inputs [port] _ qs []) as [inputs qs'] eqn:Ec.
  apply collect_single in Ec; [|intros n; apply normalizeMaxBatch_pos].
  assert (Hins : forall n p, queue_of (<[nodeId node := qs']> m1) n p = if decide (nodeId node = n) then default [] (qs' !! p) else queue_of m n p).
  { intros n p. rewrite queue_of_insert. by destruct (decide _). }
  destruct inputs as [[|f l]|].
  2: { intros [= <- <-]. destruct Ec as (Hq & Hbatch & Hoth).
       assert (Hq' : queue_of m (nodeId node) (port_id port) = (f :: l) ++ default [] (qs' !! port_id port)) by (by rewrite <- Hqs, Hq).
       assert (Hleft : queue_of (<[nodeId node := qs']> m1) (nodeId node) (port_id port) = default [] (qs' !! port_id port)) by (by rewrite Hins, decide_True).
       apply (Takes _ w m [] node ns d port (f :: l) (default [] (qs' !! port_id port))); try done; [by intros ? ? ? []|].
       intros n p Hnp. rewrite Hins. destruct (decide (nodeId node = n)) as [<-|]; [|done]. rewrite Hoth by (by destruct Hnp). apply Hqs. }
  all: destruct Ec as [-> Hempty]; intros H; apply IH in H.
  all: assert (Hsame : same_queues m (<[nodeId node := qs]> m1)) by (intros n p; rewrite Hins; destruct (decide (nodeId node = n)) as [<-|]; auto).
  all: assert (Hnone : forall d' port', method_of w node = Some d' -> inputPorts d' = [port'] -> queue_of m (nodeId node) (port_id port') = [])
    by (intros d' port' Hd Hp; unfold method_of in Hd; rewrite Eg in Hd; injection Hd as <-; rewrite Hport in Hp; injection Hp as <-; by rewrite <- Hqs).
  all: destruct sel as [[nd ins]|]; [apply takes_skip; [done|]; by eapply takes_same|].
  all: destruct H as [H1 H2]; split; [intros n p; by rewrite H1|]; intros nd d' port' [<-|Hin] Hd Hp; [by eapply Hnone|rewrite <- Hsame; by eapply H2].
Qed.

(** Looking for a ready node among nodes with one-port methods loses nothing: if none is found all queues are as before, and if one is found its inputs
    are a non-empty prefix of its queue, the rest of it stays, and no other queue changes. *)
Theorem select_node_fifo ns m w sel m' :
  one_port ns -> select_node ns m w = (sel, m') ->
  match sel with
  | None => forall n p, queue_of m' n p = queue_of m n p
  | Some (node, inputs) => exists d port,
      getMethod w (node_pluginId node) (node_methodId node) = Some d /\ inputPorts d = [port] /\
      inputs <> [] /\
      queue_of m (nodeId node) (port_id port) = inputs ++ queue_of m' (nodeId node) (port_id port) /\
      forall n p, (n <> nodeId node \/ p <> port_id port) -> queue_of m' n p = queue_of m n p
  end.
Proof.
  intros Hop H%select_single; [|done]. destruct sel as [[node inputs]|]; [|by destruct H].
  destruct H as [before node after d port inputs rest m' -> _ Hg Hp Hq Hne _ Hr Ho]. exists d, port. rewrite Hr. done.
Qed.

(** *** Routing *)

(** The frames an invocation of a node sends to a port, in order: every output once along each edge from its port to that one. *)
Definition leads (e : flow_edge) node (f : frame D) (n p : jsstring) : bool :=
  str_eqb (fromNodeId e) (nodeId node) && str_eqb (fromPortId e) (frame_port f) && (str_eqb (toNodeId e) n && str_eqb (toPortId e) p).
Definition sent (es : list flow_edge) node (outs : list (frame D)) n p : list (frame D) :=
  flat_map (fun f => map (fun _ => Frame p (frame_data f)) (List.filter (fun e => leads e node f n p) es)) outs.
(** The outputs on ports without an edge, which go to the sink if there is one. *)
Definition unrouted (es : list flow_edge) node (outs : list (frame D)) : list (frame D) :=
  List.filter (fun f => negb (existsb (fun e => str_eqb (fromNodeId e) (nodeId node) && str_eqb (fromPortId e) (frame_port f)) es)) outs.
Definition to_sink w node (outs : list (frame D)) : W :=
  match onSinkOutput with Some sink => fold_left (fun w f => sink w f node) outs w | None => w end.
(** All edges into a port say the same of its queue. *)
Definition agreed (es : list flow_edge) n p pol depth : Prop :=
  forall e, In e es -> toNodeId e = n -> toPortId e = p -> normalizePolicy (edge_policy e) = pol /\ normalizeQueueDepth (edge_depth e) = depth.

Lemma enqueue_one m (target port : jsstring) (f : frame D) pol d n p :
  queue_of (enqueue m target port [f] pol d) n p =
  if str_eqb target n && str_eqb port p then push_frame (normalizePolicy pol) (normalizeQueueDepth d) (queue_of m n p) (Frame p (frame_data f)) else queue_of m n p.
Proof.
  unfold enqueue, updateFrameQueue. destruct (getPortQueues m target) as [qs m1] eqn:E. apply getPortQueues_spec in E as [Hqs Hm]. rewrite queue_of_insert.
  destruct (str_eqb target n) eqn:En; [apply str_eqb_eq in En as ->; rewrite decide_True by done|].
  - destruct (str_eqb port p) eqn:Ep; cbn [andb]; [apply str_eqb_eq in Ep as ->; rewrite lookup_insert_eq; cbn; by rewrite Hqs|].
    rewrite lookup_insert_ne, Hqs; [done|]. intros ->. by rewrite (proj2 (str_eqb_eq p p)) in Ep.
  - rewrite decide_False; [by apply Hm|]. intros ->. by rewrite (proj2 (str_eqb_eq n n)) in En.
Qed.

Lemma enqueue_edges es f n p pol depth : agreed es n p pol depth -> forall m,
  queue_of (fold_left (fun m e => enqueue m (toNodeId e) (toPortId e) [f] (edge_policy e) (edge_depth e)) es m) n p =
  fold_left (push_frame pol depth) (map (fun _ => Frame p (frame_data f)) (List.filter (fun e => str_eqb (toNodeId e) n && str_eqb (toPortId e) p) es)) (queue_of m n p).
Proof.
  induction es as [|e es IH]; intros Ha m; [done|]. cbn [fold_left List.filter]. rewrite IH by (intros e' He'; apply Ha; by right). rewrite enqueue_one.
  destruct (str_eqb (toNodeId e) n && str_eqb (toPortId e) p) eqn:E; [|done]. apply andb_true_iff in E as [E1%str_eqb_eq E2%str_eqb_eq].
  destruct (Ha e ltac:(by left) E1 E2) as [-> ->]. done.
Qed.

Lemma filter_twice {A} (P Q : A -> bool) l : List.filter Q (List.filter P l) = List.filter (fun x => P x && Q x) l.
Proof. induction l as [|x l IH]; [done|]. cbn. destruct (P x); cbn; [destruct (Q x)|]; by rewrite IH. Qed.

Lemma agreed_filter es n p pol depth (P : flow_edge -> bool) : agreed es n p pol depth -> agreed (List.filter P es) n p pol depth.
Proof. intros H e [He _]%filter_In. by apply H. Qed.

Lemma route_queue es node n p pol depth : agreed es n p pol depth -> forall outs m w,
  queue_of (route_outputs es node outs m w).1 n p = fold_left (push_frame pol depth) (sent es node outs n p) (queue_of m n p).
Proof.
  intros Ha. induction outs as [|f outs IH]; intros m w; cbn [route_outputs]; [done|].
  set (matching := List.filter _ es).
  assert (Hs : sent es node (f :: outs) n p =
    map (fun _ => Frame p (frame_data f)) (List.filter (fun e => str_eqb (toNodeId e) n && str_eqb (toPortId e) p) matching) ++ sent es node outs n p).
  { unfold sent. cbn [flat_map]. f_equal. unfold matching. by rewrite filter_twice. }
  rewrite Hs, fold_left_app, <- (enqueue_edges matching f n p pol depth) by (by apply agreed_filter).
  destruct matching; [destruct onSinkOutput|]; by rewrite IH.
Qed.

Lemma route_sink es node : forall outs m w, (route_outputs es node outs m w).2 = to_sink w node (unrouted es node outs).
Proof.
  unfold to_sink. induction outs as [|f outs IH]; intros m w; cbn [route_outputs]; [by destruct onSinkOutput|]. unfold unrouted. cbn [List.filter].
  set (here := fun e => str_eqb (fromNodeId e) (nodeId node) && str_eqb (fromPortId e) (frame_port f)).
  destruct (List.filter here es) as [|e matching] eqn:E.
  - assert (Hx : existsb here es = false).
    { apply not_true_is_false. intros (e & He & Hm)%existsb_exists. assert (In e []) as []. rewrite <- E. by apply filter_In. }
    fold here. rewrite Hx. cbn [negb]. destruct onSinkOutput; by rewrite IH.
  - assert (Hx : existsb here es = true).
    { apply existsb_exists. exists e. apply filter_In. rewrite E. by left. }
    fold here. rewrite Hx. cbn [negb]. by rewrite IH.
Qed.

(** *** Runs *)

(** One invocation: a node takes its inputs, its method is invoked on them, every output is put into the queues its edges lead to, within what their policy and
    depth allow, and the outputs without an edge go to the sink. [yields] is what the method answered. *)
Inductive fires (prog : program) m w : bool -> queue_map D -> W -> Prop :=
  | Fires node inputs m1 r w1 m2 :
      takes (nodes prog) w m node inputs m1 -> invoke w (node_pluginId node) (node_methodId node) inputs = (Ok r, w1) ->
      (forall n p pol depth, agreed (edges prog) n p pol depth -> (forall d, depth = Some d -> 1 <= d /\ blen (queue_of m1 n p) <= d) ->
         queue_of m2 n p = bounded pol depth (queue_of m1 n p ++ sent (edges prog) node (outputs r) n p)) ->
      fires prog m w (yielded r) m2 (to_sink w1 node (unrouted (edges prog) node (outputs r))).

(** A number of invocations one after the other, of which only the last may have yielded ([last]). *)
Inductive runs (prog : program) : Z -> queue_map D -> W -> bool -> queue_map D -> W -> Prop :=
  | runs_none m w m' : same_queues m m' -> runs prog 0 m w false m' w
  | runs_yield m w m' w' : fires prog m w true m' w' -> runs prog 1 m w true m' w'
  | runs_more k m w m1 w1 last m' w' : fires prog m w false m1 w1 -> runs prog k m1 w1 last m' w' -> runs prog (k + 1) m w last m' w'.

Lemma fires_select prog m w node inputs m1 r w1 : takes (nodes prog) w m node inputs m1 ->
  invoke w (node_pluginId node) (node_methodId node) inputs = (Ok r, w1) ->
  fires prog m w (yielded r) (route_outputs (edges prog) node (outputs r) m1 w1).1 (route_outputs (edges prog) node (outputs r) m1 w1).2.
Proof.
  intros Ht Hi. rewrite route_sink. eapply Fires; [done..|]. intros n p pol depth Ha Hd. rewrite (route_queue _ _ _ _ pol depth Ha).
  rewrite <- (bounded_fits pol depth (queue_of m1 n p)) at 1 by (intros d ->; by apply Hd). apply fold_push_bounded. intros d ->. by apply Hd.
Qed.

Lemma drain_loop_runs prog : one_port (nodes prog) -> forall budget count m w c m' w',
  drain_loop budget prog count m w = (c, m', w') ->
  match c with
  | Ok c => exists last, runs prog (c - count) m w last m' w' /\ 0 <= c - count <= Z.of_nat budget /\
      (c - count < Z.of_nat budget -> last = false -> none_waiting (nodes prog) w' m')
  | Throw e => exists k m1 w1 node inputs, runs prog k m w false m1 w1 /\ 0 <= k < Z.of_nat budget /\
      takes (nodes prog) w1 m1 node inputs m' /\ invoke w1 (node_pluginId node) (node_methodId node) inputs = (Throw e, w')
  end.
Proof.
  intros Hop. induction budget as [|budget IH]; intros count m w c m' w'; cbn [drain_loop].
  { intros [= <- <- <-]. exists false. rewrite Z.sub_diag. split; [by constructor|]. split; lia. }
  destruct (select_node (nodes prog) m w) as [[[node inputs]|] m1] eqn:Es; apply select_single in Es; try done.
  - destruct (invoke w _ _ inputs) as [[r|e] w1] eqn:Ei.
    2: { intros [= <- <- <-]. exists 0, m, w, node, inputs. split; [by constructor|]. split; [lia|done]. }
    pose proof (fires_select prog m w node inputs m1 r w1 Es Ei) as Hf.
    destruct (route_outputs _ _ _ _ _) as [m2 w2]. cbn [fst snd] in Hf. destruct (yielded r).
    + intros [= <- <- <-]. exists true. replace (count + 1 - count) with 1 by lia. split; [by apply runs_yield|]. split; [lia|done].
    + intros H. apply IH in H. destruct c as [c|e].
      * destruct H as (last & Hr & Hc & Hq). exists last. replace (c - count) with (c - (count + 1) + 1) by lia. split; [by eapply runs_more|].
        split; [lia|]. intros Hlt. apply Hq. lia.
      * destruct H as (k & m3 & w3 & nd & ins & Hr & Hk & Hrest). exists (k + 1), m3, w3, nd, ins. split; [by eapply runs_more|]. split; [lia|done].
  - intros [= <- <- <-]. destruct Es as [Hs Hn]. exists false. rewrite Z.sub_diag. split; [by constructor|]. split; [lia|]. intros _ _ nd d port Hin Hd Hp.
    rewrite Hs. by eapply Hn.
Qed.

Lemma isIdle_queues m : isIdle m = true <-> forall n p, queue_of m n p = [].
Proof.
  unfold isIdle. rewrite forallb_forall. split.
  - intros H n p. unfold queue_of. destruct (m !! n) as [qs|] eqn:En; [|done]. simpl.
    destruct (qs !! p) as [fs|] eqn:Ep; [|done]. simpl.
    specialize (H (n, qs)). rewrite <- list_elem_of_In, elem_of_map_to_list in H.
    specialize (H En). rewrite forallb_forall in H. specialize (H (p, fs)).
    rewrite <- list_elem_of_In, elem_of_map_to_list in H. specialize (H Ep).
    apply blen_0. by apply Z.eqb_eq.
  - intros H [n qs] Hn. rewrite <- list_elem_of_In, elem_of_map_to_list in Hn.
    apply forallb_forall. intros [p fs] Hp. rewrite <- list_elem_of_In, elem_of_map_to_list in Hp.
    specialize (H n p). unfold queue_of in H. rewrite Hn in H. simpl in H.
    rewrite Hp in H. simpl in H. subst fs. done.
Qed.
(** C40. A drain runs the program. For a program whose nodes have methods with one input port, a drain is a run of at most the allowed number of invocations: each
    time the first node in the order of the program with a frame waiting takes the oldest frames, as many as its batch allows, its method is invoked on
    them, and every output is appended, once for each edge from its port, to the queue the edge leads to, as far as the policy and depth of that queue
    allow (where all its edges say the same and it is within its depth); outputs without an edge go to the sink. Only the last invocation may have yielded; a drain that ends before the limit
    and without a yield leaves no frame waiting at any node, and it reports idle exactly if no queue has a frame. When an invocation throws, so does the
    drain, after such a run and with the frames taken for that invocation gone. *)
Theorem drain_runs_the_program rt prog w q res rt' w' :
  rt_program rt = Some prog -> one_port (nodes prog) -> drain rt w q = (res, rt', w') ->
  match res with
  | Ok r => exists last, runs prog (invocations r) (queueMap rt) w last (queueMap rt') w' /\ 0 <= invocations r <= Z.max 1 (q_ceil q) /\
      (invocations r < Z.max 1 (q_ceil q) -> last = false -> none_waiting (nodes prog) w' (queueMap rt')) /\
      (idle r = true <-> forall n p, queue_of (queueMap rt') n p = [])
  | Throw e => exists k m1 w1 node inputs, runs prog k (queueMap rt) w false m1 w1 /\ 0 <= k < Z.max 1 (q_ceil q) /\
      takes (nodes prog) w1 m1 node inputs (queueMap rt') /\ invoke w1 (node_pluginId node) (node_methodId node) inputs = (Throw e, w')
  end.
Proof.
  intros Hp Hop. unfold drain. rewrite Hp. destruct (drain_loop _ prog 0 (queueMap rt) w) as [[c m] w1] eqn:Ed.
  apply (drain_loop_runs prog Hop) in Ed. rewrite Z2Nat.id in Ed by lia. destruct c as [c|e]; cbn [rbind]; intros [= <- <- <-]; [|done].
  destruct Ed as (last & Hr & Hc & Hq). rewrite Z.sub_0_r in *. exists last. cbn [invocations idle queueMap]. split_and!; [done|lia..|done|apply isIdle_queues].
Qed.
End selection.

(** ** Concrete programs *)

(** A registry with two methods that return their inputs on port "out": "relay" with the one
    port "in", and "join" with the two required ports "left" and "right". *)
Definition demo_method (me : jsstring) : option method :=
  if str_eqb me (lit "relay") then Some (Method None [InputPort (lit "in") true])
  else if str_eqb me (lit "join") then
    Some (Method None [InputPort (lit "left") true; InputPort (lit "right") true])
  else None.
Definition demo_registry (known : jsstring -> option method) : FlowRegistry unit Z := {|
  getMethod := fun _ _ me => known me;
  invoke := fun w _ _ ins => (Ok (Response (map (fun f => cloneFrame f (lit "out")) ins) false), w);
  onSinkOutput := None |}.

Definition relay_only (me : jsstring) : option method :=
  if str_eqb me (lit "relay") then demo_method me else None.
Definition relay_program : program :=
  Program [FlowNode (lit "n") (lit "p") (lit "relay"); FlowNode (lit "s") (lit "p") (lit "relay")]
    [FlowEdge (lit "n") (lit "out") (lit "s") (lit "in") None PosInf] [].
Definition relay_queues : queue_map Z := {[ lit "n" := {[ lit "in" := [Frame (lit "in") 1; Frame (lit "in") 2] ]} ]}.
Definition join_program : program := Program [FlowNode (lit "n") (lit "p") (lit "join")] [] [].
Definition join_queues : queue_map Z := {[ lit "n" := {[ lit "left" := [Frame (lit "left") 7] ]} ]}.

Lemma relay_one_port ns : @one_port unit Z (demo_registry relay_only) ns.
Proof.
  intros w node d _. unfold method_of. cbn. unfold relay_only, demo_method.
  destruct (str_eqb (node_methodId node) (lit "relay")); [|done]. intros [= <-]. by eexists.
Qed.

(** A node whose method has two required ports loses frames: with a frame waiting on its
    first port and none on the second, [drain] invokes nothing, yet afterwards the runtime
    is idle and the frame is in no queue. *)
Theorem drain_loses_frames :
  let reg := demo_registry demo_method in
  isIdle join_queues = false /\
  queue_of join_queues (lit "n") (lit "left") = [Frame (lit "left") 7] /\
  exists r rt', drain (FlowRegistry0:=reg) (Runtime (Some join_program) join_queues) tt 1024 = (Ok r, rt', tt) /\
    invocations r = 0 /\ idle r = true /\ forall n p, queue_of (queueMap rt') n p = [].
Proof.
  cbv zeta. split_and!; [by vm_compute..|]. eexists _, _. split; [by vm_compute|].
  split_and!; [done|done|]. apply isIdle_queues. by vm_compute.
Qed.

Lemma select_node_fifo_witness :
  queue_of relay_queues (lit "n") (lit "in") = [Frame (lit "in") 1] ++ [Frame (lit "in") 2].
Proof.
  destruct (select_node_fifo (FlowRegistry0:=demo_registry relay_only) (nodes relay_program) relay_queues tt
    (Some (FlowNode (lit "n") (lit "p") (lit "relay"), [Frame (lit "in") 1]))
    {[ lit "n" := {[ lit "in" := [Frame (lit "in") 2] ]} ]} (relay_one_port _) ltac:(by vm_compute))
    as (d & port & Hg & Hp & _ & Hq & _).
  vm_compute in Hg. injection Hg as <-. injection Hp as <-. exact Hq.
Defined.

Lemma drain_runs_the_program_witness :
  exists r rt' last, drain (FlowRegistry0:=demo_registry relay_only) (Runtime (Some relay_program) relay_queues) tt 1024
      = (Ok r, rt', tt) /\ invocations r = 4 /\ runs (FlowRegistry0:=demo_registry relay_only) relay_program 4 relay_queues tt last (queueMap rt') tt.
Proof.
  destruct (drain (FlowRegistry0:=demo_registry relay_only) (Runtime (Some relay_program) relay_queues) tt 1024)
    as [[[r|e] rt'] []] eqn:E; [|by vm_compute in E].
  destruct (drain_runs_the_program (FlowRegistry0:=demo_registry relay_only) (Runtime (Some relay_program) relay_queues)
    relay_program tt 1024 (Ok r) rt' tt eq_refl (relay_one_port _) E) as (last & Hr & _).
  assert (Hn : invocations r = 4) by (vm_compute in E; by injection E as <- _).
  exists r, rt', last. split; [reflexivity|]. split; [exact Hn|]. rewrite Hn in Hr. exact Hr.
Defined.
