(* ===== verification/MethodRegistry.v ===== *)
(** The plugin and method registry of the flow runtime
    (src/flow/vendor/sdn-flow/MethodRegistry.js, wrapped by src/runtime-host/methodRegistry.js).

    The registry keeps two maps, plugins by id and methods by the text "pluginId:methodId".
    A registration that throws half way keeps what it had already added, so an operation
    returns its result together with the registry it leaves. Manifests are taken after
    normalization. *)
From Stdlib Require Import ZArith Lia.
From stdpp Require Import base list strings numbers.
From S2P Require Import Prelude JsText JsMap.
Open Scope Z_scope.

Section registry.
(** A port's description, the other fields of a method and of a manifest, a handler, a plugin object. *)
Context {P M R H G : Type}.

Record method_def := MethodDef {
  methodId : jsstring;
  inputPorts : list (jsstring * P);
  outputPorts : list (jsstring * P);
  method_rest : M
}.
Record manifest := Manifest { pluginId : jsstring; methods : list method_def; manifest_rest : R }.

Definition buildPortMap (ports : list (jsstring * P)) : list (jsstring * P) :=
  fold_left (fun map port => map_set map port.1 port.2) ports [].

Record descriptor := Descriptor {
  d_pluginId : jsstring;
  d_manifest : manifest;
  d_method : method_def;
  d_handler : H;
  d_plugin : option G;
  d_inputPorts : list (jsstring * P);
  d_outputPorts : list (jsstring * P)
}.
Record plugin_record := PluginRecord {
  r_pluginId : jsstring;
  r_manifest : manifest;
  r_methods : list (jsstring * descriptor);
  r_plugin : option G
}.
Record registry := Registry {
  plugins : list (jsstring * plugin_record);
  all_methods : list (jsstring * descriptor)
}.

Definition empty_registry : registry := Registry [] [].

Definition method_key (pid mid : jsstring) : jsstring := pid ++ lit ":" ++ mid.

Definition make_descriptor (mf : manifest) (plugin : option G) (m : method_def) (h : H) : descriptor :=
  Descriptor (pluginId mf) mf m h plugin (buildPortMap (inputPorts m)) (buildPortMap (outputPorts m)).

(** The loop over the methods of a manifest; [handlers] is property lookup restricted to
    functions. *)
Fixpoint register_methods (mf : manifest) (handlers : jsstring -> option H) (plugin : option G)
    (ms : list method_def) (methodMap table : list (jsstring * descriptor)) :
    result (list (jsstring * descriptor)) * list (jsstring * descriptor) :=
  match ms with
  | [] => (Ok methodMap, table)
  | m :: rest =>
      if bool_decide (methodId m = []) then (Throw (Error "Plugin contains a method without methodId."), table)
      else
        match handlers (methodId m) with
        | None => (Throw (Error "Plugin is missing a handler for method."), table)
        | Some h =>
            let d := make_descriptor mf plugin m h in
            register_methods mf handlers plugin rest (map_set methodMap (methodId m) d)
              (map_set table (method_key (pluginId mf) (methodId m)) d)
        end
  end.

Definition registerPlugin (r : registry) (mf : manifest) (handlers : jsstring -> option H)
    (plugin : option G) : result plugin_record * registry :=
  if bool_decide (pluginId mf = []) then (Throw (Error "Plugin manifest is missing pluginId."), r)
  else if map_has (plugins r) (pluginId mf) then (Throw (Error "Plugin is already registered."), r)
  else
    match register_methods mf handlers plugin (methods mf) [] (all_methods r) with
    | (Throw e, table) => (Throw e, Registry (plugins r) table)
    | (Ok methodMap, table) =>
        let record := PluginRecord (pluginId mf) mf methodMap plugin in
        (Ok record, Registry (map_set (plugins r) (pluginId mf) record) table)
    end.

Definition unregisterPlugin (r : registry) (pid : jsstring) : bool * registry :=
  match map_get (plugins r) pid with
  | None => (false, r)
  | Some record =>
      (true, Registry (map_delete (plugins r) pid)
               (fold_left (fun table mid => map_delete table (method_key pid mid))
                  (map_keys (r_methods record)) (all_methods r)))
  end.

Definition getPlugin (r : registry) (pid : jsstring) : option plugin_record := map_get (plugins r) pid.
Definition getMethod (r : registry) (pid mid : jsstring) : option descriptor :=
  map_get (all_methods r) (method_key pid mid).
Definition listPlugins (r : registry) : list plugin_record := map_values (plugins r).
Definition clear (r : registry) : registry := empty_registry.

(** ** Facts *)

Lemma method_key_inj pid mid mid' : method_key pid mid = method_key pid mid' -> mid = mid'.
Proof. unfold method_key. by intros [= ?]%app_inv_head. Qed.

(** The keys a manifest's methods take. *)
Definition keys_of (mf : manifest) (ms : list method_def) : list jsstring :=
  map (fun m => method_key (pluginId mf) (methodId m)) ms.

Lemma register_methods_frame mf handlers plugin ms : forall methodMap table r table' k,
  register_methods mf handlers plugin ms methodMap table = (r, table') ->
  ~ In k (keys_of mf ms) -> map_get table' k = map_get table k.
Proof.
  induction ms as [|m ms IH]; intros methodMap table r table' k; cbn [register_methods keys_of map In].
  { by intros [= _ <-]. }
  case_bool_decide; [by intros [= _ <-]|]. destruct (handlers (methodId m)); [|by intros [= _ <-]].
  intros Hr Hk. apply Decidable.not_or in Hk as [Hk1 Hk2]. rewrite (IH _ _ _ _ _ Hr Hk2).
  by rewrite map_get_set_ne.
Qed.

Lemma register_methods_keys mf handlers plugin ms : forall methodMap table mm table',
  register_methods mf handlers plugin ms methodMap table = (Ok mm, table') ->
  forall mid, In mid (map_keys mm) <-> In mid (map_keys methodMap) \/ In mid (map methodId ms).
Proof.
  induction ms as [|m ms IH]; intros methodMap table mm table'; cbn [register_methods map In].
  { intros [= <- <-] mid. tauto. }
  case_bool_decide; [done|]. destruct (handlers (methodId m)); [|done].
  intros Hr mid. rewrite (IH _ _ _ _ Hr), map_keys_set. unfold map_has.
  destruct (map_get methodMap (methodId m)) eqn:E.
  - apply map_get_In, (in_map fst) in E. cbn in E. unfold map_keys. split; [tauto|].
    intros [?|[<-|?]]; tauto.
  - rewrite in_app_iff. cbn. tauto.
Qed.

Lemma register_methods_found mf handlers plugin ms : forall methodMap table mm table' m,
  register_methods mf handlers plugin ms methodMap table = (Ok mm, table') ->
  List.NoDup (map methodId ms) -> In m ms ->
  exists h, handlers (methodId m) = Some h /\
    map_get table' (method_key (pluginId mf) (methodId m)) = Some (make_descriptor mf plugin m h).
Proof.
  induction ms as [|m0 ms IH]; intros methodMap table mm table' m; cbn [register_methods map]; [done|].
  case_bool_decide; [done|]. destruct (handlers (methodId m0)) as [h|] eqn:Eh; [|done].
  intros Hr Hnd [<-|Hin]; inversion Hnd as [|? ? Hni Hnd']; subst; [|by eapply IH].
  exists h. split; [done|]. rewrite (register_methods_frame _ _ _ _ _ _ _ _ _ Hr).
  - by rewrite map_get_set_eq.
  - intros Hk. apply in_map_iff in Hk as (m' & Hm' & Hin'). apply method_key_inj in Hm'.
    apply Hni. rewrite <- Hm'. by apply in_map.
Qed.

Lemma delete_keys_get pid mids : forall (table : list (jsstring * descriptor)) k,
  map_get (fold_left (fun t mid => map_delete t (method_key pid mid)) mids table) k =
  if existsb (fun mid => str_eqb (method_key pid mid) k) mids then None else map_get table k.
Proof.
  induction mids as [|mid mids IH]; intros table k; cbn; [done|].
  rewrite IH, map_get_delete. unfold str_eqb. destruct (existsb _ mids); [by rewrite orb_true_r|].
  rewrite orb_false_r. destruct (decide _) as [->|Hne]; [by rewrite bool_decide_eq_true_2|].
  by rewrite bool_decide_eq_false_2.
Qed.

Lemma register_inv r mf handlers plugin rec r' :
  registerPlugin r mf handlers plugin = (Ok rec, r') ->
  pluginId mf <> [] /\ map_get (plugins r) (pluginId mf) = None /\
  exists mm table, register_methods mf handlers plugin (methods mf) [] (all_methods r) = (Ok mm, table) /\
    rec = PluginRecord (pluginId mf) mf mm plugin /\
    r' = Registry (map_set (plugins r) (pluginId mf) rec) table.
Proof.
  unfold registerPlugin, map_has. case_bool_decide; [done|].
  destruct (map_get (plugins r) (pluginId mf)) eqn:Ep; [done|].
  destruct (register_methods _ _ _ _ _ _) as [[mm|] table] eqn:Em; [|done].
  intros [= <- <-]. eauto 10.
Qed.

(** After a successful registration the plugin and each of its methods is found, with the
    handler it was registered with, and every other plugin and method key is as before. *)
Theorem registered_methods_found r mf handlers plugin rec r' :
  registerPlugin r mf handlers plugin = (Ok rec, r') -> List.NoDup (map methodId (methods mf)) ->
  getPlugin r' (pluginId mf) = Some rec /\
  (forall m, In m (methods mf) -> exists h, handlers (methodId m) = Some h /\
     getMethod r' (pluginId mf) (methodId m) = Some (make_descriptor mf plugin m h)) /\
  (forall pid, pid <> pluginId mf -> getPlugin r' pid = getPlugin r pid) /\
  (forall pid mid, ~ In (method_key pid mid) (keys_of mf (methods mf)) ->
     getMethod r' pid mid = getMethod r pid mid).
Proof.
  intros (_ & _ & mm & table & Hm & Hrec & ->)%register_inv Hnd.
  unfold getPlugin, getMethod. cbn [plugins all_methods]. split_and!.
  - apply map_get_set_eq.
  - intros m Hin. by eapply register_methods_found.
  - intros pid Hne. by apply map_get_set_ne.
  - intros pid mid Hk. by eapply register_methods_frame.
Qed.

(** Unregistering a plugin that was just registered removes it and the keys of its methods
    and gives back every other lookup of the registry before. *)
Theorem unregister_undoes_register r mf handlers plugin rec r' :
  registerPlugin r mf handlers plugin = (Ok rec, r') ->
  exists r'', unregisterPlugin r' (pluginId mf) = (true, r'') /\
    (forall pid, getPlugin r'' pid = getPlugin r pid) /\
    (forall pid mid, getMethod r'' pid mid =
       if existsb (str_eqb (method_key pid mid)) (keys_of mf (methods mf)) then None
       else getMethod r pid mid).
Proof.
  intros (_ & Hnone & mm & table & Hm & -> & ->)%register_inv.
  unfold unregisterPlugin. cbn [plugins all_methods]. rewrite map_get_set_eq. cbn [r_methods].
  eexists. split; [done|]. unfold getPlugin, getMethod. cbn [plugins all_methods]. split.
  - intros pid. rewrite map_get_delete. destruct (decide _) as [<-|Hne]; [done|].
    by rewrite map_get_set_ne.
  - intros pid mid. rewrite delete_keys_get.
    assert (Hkeys : existsb (fun mid' => str_eqb (method_key (pluginId mf) mid') (method_key pid mid)) (map_keys mm)
                    = existsb (str_eqb (method_key pid mid)) (keys_of mf (methods mf))).
    { apply eq_true_iff_eq. rewrite !existsb_exists.
      pose proof (register_methods_keys _ _ _ _ _ _ _ _ Hm) as Hk. split.
      - intros (x & Hx & Heq). apply Hk in Hx as [[]|Hx]. apply in_map_iff in Hx as (m & <- & Hin).
        eexists. split; [by apply (in_map (fun m => method_key (pluginId mf) (methodId m)))|].
        apply str_eqb_eq. apply str_eqb_eq in Heq. congruence.
      - intros (k & Hin & Heq). apply in_map_iff in Hin as (m & <- & Hin). exists (methodId m).
        split; [apply Hk; right; by apply in_map|]. apply str_eqb_eq. apply str_eqb_eq in Heq. congruence. }
    rewrite Hkeys.
    destruct (existsb (str_eqb (method_key pid mid)) (keys_of mf (methods mf))) eqn:Ex; [done|].
    eapply register_methods_frame; [done|]. intros Hin.
    assert (existsb (str_eqb (method_key pid mid)) (keys_of mf (methods mf)) = true); [|congruence].
    apply existsb_exists. eexists. split; [done|]. by apply str_eqb_eq.
Qed.
End registry.
Arguments method_def : clear implicits.
Arguments manifest : clear implicits.
Arguments registry : clear implicits.

(** ** Concrete registrations *)

Definition demo_def (mid : string) : method_def unit unit := MethodDef (lit mid) [] [] tt.
Definition demo_handlers (mid : jsstring) : option Z :=
  if str_eqb mid (lit "run") then Some 1 else if str_eqb mid (lit "b:run") then Some 2 else None.
Definition two_methods : manifest unit unit unit := Manifest (lit "p") [demo_def "run"; demo_def "stop"] tt.

(** A registration that fails on its second method leaves the first one callable although
    the plugin is not registered, and unregistering the plugin does not remove it. *)
Theorem failed_registration_leaks_method :
  let (res, r) := registerPlugin (G:=unit) empty_registry two_methods demo_handlers None in
  is_ok res = false /\ getPlugin r (lit "p") = None /\
  is_Some (getMethod r (lit "p") (lit "run")) /\ unregisterPlugin r (lit "p") = (false, r).
Proof. vm_compute. split_and!; try done. by eexists. Qed.

(** The text "pluginId:methodId" is not injective: registering plugin "a" with a method
    "b:run" replaces the method "run" of plugin "a:b". *)
Theorem method_keys_collide :
  let first := Manifest (lit "a:b") [demo_def "run"] tt in
  let second := Manifest (lit "a") [demo_def "b:run"] tt in
  let (r1, s1) := registerPlugin (G:=unit) empty_registry first demo_handlers None in
  let (r2, s2) := registerPlugin s1 second demo_handlers None in
  is_ok r1 = true /\ is_ok r2 = true /\
  d_handler <$> getMethod s1 (lit "a:b") (lit "run") = Some 1 /\
  d_handler <$> getMethod s2 (lit "a:b") (lit "run") = Some 2.
Proof. vm_compute. done. Qed.

Definition one_method : manifest unit unit unit := Manifest (lit "p") [demo_def "run"] tt.
Definition one_registered : result plugin_record * registry unit unit unit Z unit :=
  registerPlugin empty_registry one_method demo_handlers None.

Lemma registered_methods_found_witness :
  exists d, getMethod (one_registered).2 (lit "p") (lit "run") = Some d /\ d_handler d = 1.
Proof.
  destruct (registered_methods_found (G:=unit) empty_registry one_method demo_handlers None
    (match one_registered.1 with Ok r => r | Throw _ => PluginRecord [] one_method [] None end)
    one_registered.2 ltac:(by vm_compute) ltac:(repeat constructor; naive_solver)) as (_ & Hm & _).
  destruct (Hm (demo_def "run") ltac:(by left)) as (h & Hh & Hg).
  eexists. split; [exact Hg|]. vm_compute in Hh. by injection Hh as <-.
Defined.

Lemma unregister_undoes_register_witness :
  exists r'', unregisterPlugin (one_registered).2 (lit "p") = (true, r'') /\
    getMethod r'' (lit "p") (lit "run") = None.
Proof.
  destruct (unregister_undoes_register (G:=unit) empty_registry one_method demo_handlers None
    (match one_registered.1 with Ok r => r | Throw _ => PluginRecord [] one_method [] None end)
    one_registered.2 ltac:(by vm_compute)) as (r'' & Hu & _ & Hm).
  exists r''. split; [exact Hu|]. by rewrite Hm.
Defined.
