(* ===== verification/TypeRefs.v ===== *)
(** Payload type references (src/manifest/typeRefs.js): what a port accepts and what a frame
    carries, their normal form, and the relations between them that decide whether a frame is
    admitted.

    A raw reference is given by the first spelling of each field that is present. *)
From Stdlib Require Import ZArith QArith Lia.
From stdpp Require Import base list strings numbers.
From S2P Require Import Prelude JsText JsMap JsNumber.
Open Scope Z_scope.

(** ** Field values *)

(** A schema hash as a manifest has it. *)
Inductive hash_value := HashAbsent | HashText (s : jsstring) | HashArray (l : list jsnum) | HashOther.

(** A layout scalar: absent, a number, or a text. *)
Inductive raw_scalar := ScalarAbsent | ScalarNum (n : jsnum) | ScalarText (s : jsstring).
(** After normalisation: [undefined], a number other than 0, or the value that is no number. *)
Inductive scalar := Undefined | Numeric (q : Q) | Kept (v : raw_scalar).

Inductive raw_wire := WireAbsent | WireNum (z : Z) | WireText (s : jsstring) | WireOther.
Inductive wire_format := AlignedBinary | FlatBuffer.

#[export] Instance wire_format_eq_dec : EqDecision wire_format.
Proof. solve_decision. Defined.
#[export] Instance raw_scalar_dec : EqDecision Q.
Proof. intros [a b] [c d]. destruct (decide (a = c)), (decide (b = d)); [left|right..]; congruence. Defined.

Definition cloneSchemaHash (value : hash_value) : hash_value :=
  match value with HashArray [] => HashAbsent | v => v end.

Definition normalizeNullableString (value : option jsstring) : option jsstring :=
  match value with
  | None => None
  | Some s => if 0 <? blen (trim s) then Some (trim s) else None
  end.

Definition normalizeAlignedMetadataScalar (value : raw_scalar) : scalar :=
  let numeric := match value with ScalarAbsent => NaN | ScalarNum n => n | ScalarText s => to_number s end in
  match value with
  | ScalarAbsent => Undefined
  | ScalarText [] => Undefined
  | _ => match numeric with
         | Fin q => if Qnum q =? 0 then Undefined else Numeric (Qred q)
         | _ => Kept value
         end
  end.

(** [\[0-9a-fA-F\]+] in pairs. *)
Fixpoint parse_pairs (hex : jsstring) : option (list Z) :=
  match hex with
  | [] => Some []
  | a :: b :: rest =>
      match digit_in 16 a, digit_in 16 b, parse_pairs rest with
      | Some x, Some y, Some l => Some (16 * x + y :: l)
      | _, _, _ => None
      end
  | _ => None
  end.

Definition byte_of (n : jsnum) : option Z :=
  match as_integer n with Some z => if (z <? 0) || (255 <? z) then None else Some z | None => None end.

(** Not valid, or the bytes; no bytes is an absent hash. *)
Definition inspectPayloadSchemaHash (value : hash_value) : option (list Z) :=
  match value with
  | HashAbsent => Some []
  | HashText s => parse_pairs (if startsWith s (lit "0x") then drop 2 s else s)
  | HashArray l => mapM byte_of l
  | HashOther => None
  end.
Definition normalizePayloadSchemaHash (value : hash_value) : option (list Z) :=
  match inspectPayloadSchemaHash value with Some (b :: l) => Some (b :: l) | _ => None end.
Definition isPayloadSchemaHashValid (value : hash_value) : bool :=
  match inspectPayloadSchemaHash value with Some _ => true | None => false end.

(** Neither word has a unit that another unit than its ASCII letters lowers to alone. *)
Definition normalizePayloadWireFormatName (value : raw_wire) : option wire_format :=
  match value with
  | WireAbsent | WireOther => None
  | WireNum z => if z =? 1 then Some AlignedBinary else if z =? 0 then Some FlatBuffer else None
  | WireText s =>
      if str_eqb s (lit "1") then Some AlignedBinary
      else if str_eqb s (lit "0") then Some FlatBuffer
      else
        let normalized := map (fun c => if c =? 95 then 45 else c) (map lower (trim s)) in
        if str_eqb normalized (lit "aligned-binary") then Some AlignedBinary
        else if str_eqb normalized (lit "flatbuffer") then Some FlatBuffer
        else None
  end.

(** ** References *)

Record raw_ref := RawRef {
  r_schemaName : option jsstring; r_fileIdentifier : option jsstring; r_schemaVersion : option jsstring;
  r_schemaHash : hash_value; r_acceptsAny : bool; r_wireFormat : raw_wire; r_rootTypeName : option jsstring;
  r_fixedStringLength : raw_scalar; r_byteLength : raw_scalar; r_requiredAlignment : raw_scalar
}.

Record type_ref := TypeRef {
  schemaName : option jsstring; fileIdentifier : option jsstring; schemaVersion : option jsstring;
  schemaHash : hash_value; acceptsAnyFlatbuffer : bool; wireFormat : option wire_format; rootTypeName : option jsstring;
  fixedStringLength : scalar; byteLength : scalar; requiredAlignment : scalar
}.

(** [None] is a value that is no object. *)
Definition clonePayloadTypeRef (value : option raw_ref) : type_ref :=
  match value with
  | None => TypeRef None None None HashAbsent true None None Undefined Undefined Undefined
  | Some r =>
      TypeRef (normalizeNullableString (r_schemaName r)) (normalizeNullableString (r_fileIdentifier r))
        (normalizeNullableString (r_schemaVersion r)) (cloneSchemaHash (r_schemaHash r)) (r_acceptsAny r)
        (normalizePayloadWireFormatName (r_wireFormat r)) (normalizeNullableString (r_rootTypeName r))
        (normalizeAlignedMetadataScalar (r_fixedStringLength r)) (normalizeAlignedMetadataScalar (r_byteLength r))
        (normalizeAlignedMetadataScalar (r_requiredAlignment r))
  end.

(** A normal reference seen as a raw one again. *)
Definition raw_of (t : type_ref) : raw_ref :=
  let sc s := match s with Undefined => ScalarAbsent | Numeric q => ScalarNum (Fin q) | Kept v => v end in
  RawRef (schemaName t) (fileIdentifier t) (schemaVersion t) (schemaHash t) (acceptsAnyFlatbuffer t)
    (match wireFormat t with None => WireAbsent | Some AlignedBinary => WireText (lit "aligned-binary") | Some FlatBuffer => WireText (lit "flatbuffer") end)
    (rootTypeName t) (sc (fixedStringLength t)) (sc (byteLength t)) (sc (requiredAlignment t)).

Definition getPayloadTypeWireFormat (t : type_ref) : wire_format := default FlatBuffer (wireFormat t).

(** ** Relations *)

Definition bytes_eqb (a b : list Z) : bool := bool_decide (a = b).

Definition schemaHashesEqual (left right : hash_value) : bool :=
  match inspectPayloadSchemaHash left, inspectPayloadSchemaHash right with
  | Some l, Some r => if bool_decide (l = []) || bool_decide (r = []) then bool_decide ((l = []) <-> (r = [])) else bytes_eqb l r
  | _, _ => false
  end.

(** [!left || !right || left !== right] *)
Definition same_text (left right : option jsstring) : bool :=
  match left, right with Some a, Some b => bool_decide (a = b) | _, _ => false end.

Definition payloadSchemaIdentitiesEqual (left right : type_ref) : bool :=
  same_text (schemaName left) (schemaName right) && same_text (fileIdentifier left) (fileIdentifier right) &&
  same_text (rootTypeName left) (rootTypeName right) &&
  negb ((bool_decide (schemaVersion left <> None) || bool_decide (schemaVersion right <> None)) &&
        negb (bool_decide (schemaVersion left = schemaVersion right))) &&
  schemaHashesEqual (schemaHash left) (schemaHash right).

(** [===] on scalars; a kept value is a text, or a number that is not finite. *)
Definition raw_eqb (a b : raw_scalar) : bool :=
  match a, b with
  | ScalarText s, ScalarText t => bool_decide (s = t)
  | ScalarNum PosInf, ScalarNum PosInf | ScalarNum NegInf, ScalarNum NegInf => true
  | _, _ => false
  end.
Definition scalar_eqb (a b : scalar) : bool :=
  match a, b with
  | Undefined, Undefined => true
  | Numeric p, Numeric q => bool_decide (p = q)
  | Kept v, Kept w => raw_eqb v w
  | _, _ => false
  end.

Definition alignedPayloadLayoutsCompatible (left right : type_ref) : bool :=
  if negb (bool_decide (getPayloadTypeWireFormat left = AlignedBinary)) ||
     negb (bool_decide (getPayloadTypeWireFormat right = AlignedBinary)) ||
     negb (payloadSchemaIdentitiesEqual left right) then false
  else scalar_eqb (fixedStringLength left) (fixedStringLength right) && scalar_eqb (byteLength left) (byteLength right) &&
       scalar_eqb (requiredAlignment left) (requiredAlignment right).

Definition schemaHashMatches (expected actual : hash_value) : bool :=
  match inspectPayloadSchemaHash expected with
  | None => false
  | Some [] => true
  | Some e => match inspectPayloadSchemaHash actual with
              | None | Some [] => false
              | Some a => bytes_eqb e a
              end
  end.

(** An expected text that is absent matches anything. *)
Definition text_matches (expected actual : option jsstring) : bool :=
  match expected with None => true | Some _ => bool_decide (expected = actual) end.
Definition optionalScalarMatches (expected actual : scalar) : bool :=
  match expected with Undefined => true | _ => scalar_eqb expected actual end.

(** [Number(requiredAlignment ?? 0) > 0] *)
Definition positive_scalar (s : scalar) : bool :=
  match s with
  | Undefined => false
  | Numeric q => 0 <? Qnum q
  | Kept (ScalarNum PosInf) => true
  | Kept (ScalarText s) => match to_number s with PosInf => true | Fin q => 0 <? Qnum q | _ => false end
  | Kept _ => false
  end.

Definition payloadTypeRefsMatch (expected actual : type_ref) : bool :=
  let expectedWireFormat := getPayloadTypeWireFormat expected in
  let actualWireFormat := getPayloadTypeWireFormat actual in
  if acceptsAnyFlatbuffer expected then
    if bool_decide (actualWireFormat = FlatBuffer) then true
    else bool_decide (actualWireFormat = AlignedBinary) && positive_scalar (requiredAlignment actual)
  else if negb (bool_decide (expectedWireFormat = actualWireFormat)) then false
  else if negb (text_matches (schemaName expected) (schemaName actual)) then false
  else if negb (text_matches (fileIdentifier expected) (fileIdentifier actual)) then false
  else if negb (text_matches (schemaVersion expected) (schemaVersion actual)) then false
  else if negb (schemaHashMatches (schemaHash expected) (schemaHash actual)) then false
  else if negb (text_matches (rootTypeName expected) (rootTypeName actual)) then false
  else if bool_decide (expectedWireFormat = AlignedBinary) then
    optionalScalarMatches (fixedStringLength expected) (fixedStringLength actual) &&
    optionalScalarMatches (byteLength expected) (byteLength actual) &&
    optionalScalarMatches (requiredAlignment expected) (requiredAlignment actual)
  else true.

(** The loop over the allowed types of all type sets, in order. *)
Fixpoint select_loop (preferred : option wire_format) (types : list (option raw_ref)) (fallback : option type_ref) : type_ref :=
  match types with
  | [] => default (clonePayloadTypeRef None) fallback
  | t :: rest =>
      let candidate := clonePayloadTypeRef t in
      let fallback := match fallback with None => Some candidate | Some f => Some f end in
      if match preferred with Some w => bool_decide (getPayloadTypeWireFormat candidate = w) | None => false end then candidate
      else select_loop preferred rest fallback
  end.
Definition selectPreferredPayloadTypeRef (acceptedTypeSets : list (list (option raw_ref))) (preferredWireFormat : raw_wire) : type_ref :=
  select_loop (normalizePayloadWireFormatName preferredWireFormat) (concat acceptedTypeSets) None.

(** ** Normal form *)

Lemma normalizeNullableString_idem v : normalizeNullableString (normalizeNullableString v) = normalizeNullableString v.
Proof.
  destruct v as [s|]; [|done]. cbn. destruct (0 <? blen (trim s)) eqn:E; [|done]. cbn. by rewrite trim_trim, E.
Qed.

Lemma scalar_idem v :
  normalizeAlignedMetadataScalar (match normalizeAlignedMetadataScalar v with
    | Undefined => ScalarAbsent | Numeric q => ScalarNum (Fin q) | Kept w => w end) = normalizeAlignedMetadataScalar v.
Proof.
  assert (Hq : forall q, Qnum q <> 0 -> normalizeAlignedMetadataScalar (ScalarNum (Fin (Qred q))) = Numeric (Qred q)).
  { intros q Hn. cbn. rewrite (Qred_complete _ _ (Qred_correct q)). destruct (Z.eqb_spec (Qnum (Qred q)) 0) as [H0|]; [|done]. exfalso. apply Hn.
    assert (Hz : (q == 0)%Q) by (rewrite <- (Qred_correct q); unfold Qeq; by rewrite H0).
    unfold Qeq in Hz. cbn in Hz. lia. }
  destruct v as [|n|s]; [done| |].
  - destruct n as [| | |q]; [done..|]. cbn. destruct (Z.eqb_spec (Qnum q) 0) as [|Hn]; [done|]. by apply Hq.
  - destruct s as [|c s]; [done|]. unfold normalizeAlignedMetadataScalar at 2 3. destruct (to_number (c :: s)) as [| | |q] eqn:E.
    1-3: unfold normalizeAlignedMetadataScalar; by rewrite E.
    destruct (Z.eqb_spec (Qnum q) 0) as [|Hn]; [done|]. by apply Hq.
Qed.

(** Normalising a reference again changes nothing, so comparing references that are
    already normal gives the same answer as comparing raw ones. *)
Theorem clone_type_ref_idempotent v : clonePayloadTypeRef (Some (raw_of (clonePayloadTypeRef v))) = clonePayloadTypeRef v.
Proof.
  destruct v as [r|]; [|done]. unfold clonePayloadTypeRef, raw_of.
  cbn [schemaName fileIdentifier schemaVersion schemaHash acceptsAnyFlatbuffer wireFormat rootTypeName
       fixedStringLength byteLength requiredAlignment r_schemaName r_fileIdentifier r_schemaVersion r_schemaHash r_acceptsAny
       r_wireFormat r_rootTypeName r_fixedStringLength r_byteLength r_requiredAlignment].
  rewrite !normalizeNullableString_idem, !scalar_idem. f_equal.
  - by destruct (r_schemaHash r) as [| |[|]|].
  - by destruct (normalizePayloadWireFormatName (r_wireFormat r)) as [[]|].
Qed.

(** ** Matching *)

(** A number that is not a number is equal to nothing, not even itself. *)
Definition scalar_ok (s : scalar) : Prop := match s with Kept (ScalarNum (NaN | Fin _)) | Kept ScalarAbsent => False | _ => True end.

Record concrete (t : type_ref) : Prop := {
  con_any : acceptsAnyFlatbuffer t = false;
  con_hash : isPayloadSchemaHashValid (schemaHash t) = true;
  con_fixed : scalar_ok (fixedStringLength t);
  con_bytes : scalar_ok (byteLength t);
  con_align : scalar_ok (requiredAlignment t)
}.

Lemma scalar_eqb_eq a b : scalar_eqb a b = true -> a = b.
Proof.
  destruct a as [|p|v], b as [|q|w]; cbn; try done.
  - intros ->%bool_decide_eq_true. done.
  - destruct v as [|[]|], w as [|[]|]; cbn; try done. intros ->%bool_decide_eq_true. done.
Qed.
Lemma scalar_eqb_refl a : scalar_ok a -> scalar_eqb a a = true.
Proof. destruct a as [|q|[|[]|]]; cbn; try done; intros _; by apply bool_decide_eq_true. Qed.

(** The fields of a match. *)
Definition fields_match (a b : type_ref) : Prop :=
  getPayloadTypeWireFormat a = getPayloadTypeWireFormat b /\
  text_matches (schemaName a) (schemaName b) = true /\ text_matches (fileIdentifier a) (fileIdentifier b) = true /\
  text_matches (schemaVersion a) (schemaVersion b) = true /\ schemaHashMatches (schemaHash a) (schemaHash b) = true /\
  text_matches (rootTypeName a) (rootTypeName b) = true /\
  (getPayloadTypeWireFormat a = AlignedBinary ->
    optionalScalarMatches (fixedStringLength a) (fixedStringLength b) = true /\
    optionalScalarMatches (byteLength a) (byteLength b) = true /\
    optionalScalarMatches (requiredAlignment a) (requiredAlignment b) = true).

Lemma match_fields a b : acceptsAnyFlatbuffer a = false -> payloadTypeRefsMatch a b = true <-> fields_match a b.
Proof.
  intros Ha. unfold payloadTypeRefsMatch, fields_match. rewrite Ha. cbv zeta.
  case_bool_decide as Hw; cbn [negb]; [|split; [done|tauto]].
  destruct (text_matches (schemaName a) _); cbn [negb]; [|split; [done|intuition done]].
  destruct (text_matches (fileIdentifier a) _); cbn [negb]; [|split; [done|intuition done]].
  destruct (text_matches (schemaVersion a) _); cbn [negb]; [|split; [done|intuition done]].
  destruct (schemaHashMatches _ _); cbn [negb]; [|split; [done|intuition done]].
  destruct (text_matches (rootTypeName a) _); cbn [negb]; [|split; [done|intuition done]].
  case_bool_decide as Hal; [rewrite !andb_true_iff; tauto|tauto].
Qed.

Lemma text_refl a : text_matches a a = true.
Proof. destruct a; [|done]. by apply bool_decide_eq_true. Qed.
Lemma text_trans a b c : text_matches a b = true -> text_matches b c = true -> text_matches a c = true.
Proof. destruct a; cbn; [|done]. intros <-%bool_decide_eq_true. done. Qed.
Lemma optional_refl a : scalar_ok a -> optionalScalarMatches a a = true.
Proof. intros Ha. pose proof (scalar_eqb_refl a Ha). by destruct a. Qed.
Lemma optional_trans a b c : optionalScalarMatches a b = true -> optionalScalarMatches b c = true -> optionalScalarMatches a c = true.
Proof. destruct a; cbn [optionalScalarMatches]; [done|intros <-%scalar_eqb_eq; done..]. Qed.
Lemma hash_trans a b c : schemaHashMatches a b = true -> schemaHashMatches b c = true -> schemaHashMatches a c = true.
Proof.
  unfold schemaHashMatches. destruct (inspectPayloadSchemaHash a) as [[|x l]|]; [done| |done].
  destruct (inspectPayloadSchemaHash b) as [[|y m]|]; [done| |done]. by intros ->%bool_decide_eq_true.
Qed.
Lemma hash_refl a : isPayloadSchemaHashValid a = true -> schemaHashMatches a a = true.
Proof.
  unfold isPayloadSchemaHashValid, schemaHashMatches. destruct (inspectPayloadSchemaHash a) as [[|x l]|]; [done| |done].
  intros _. by apply bool_decide_eq_true.
Qed.

(** Between concrete references matching is a preorder: a port that asks for a type
    accepts the type itself, and what matches a matching reference matches. *)
Theorem match_is_preorder a b c :
  concrete a -> acceptsAnyFlatbuffer b = false ->
  payloadTypeRefsMatch a a = true /\
  (payloadTypeRefsMatch a b = true -> payloadTypeRefsMatch b c = true -> payloadTypeRefsMatch a c = true).
Proof.
  intros [Ha Hh H1 H2 H3] Hb. rewrite !(match_fields a), (match_fields b) by done. split.
  - split_and!; try apply text_refl; [done|by apply hash_refl|]. intros _. split_and!; by apply optional_refl.
  - intros (A1 & A2 & A3 & A4 & A5 & A6 & A7) (B1 & B2 & B3 & B4 & B5 & B6 & B7).
    split_and!; [congruence|by eapply text_trans..|by eapply hash_trans|by eapply text_trans|].
    intros Hal. destruct (A7 Hal) as (? & ? & ?). destruct B7 as (? & ? & ?); [congruence|]. split_and!; by eapply optional_trans.
Qed.

Lemma same_text_eq a b : same_text a b = true -> a = b.
Proof. destruct a, b; cbn; try done. by intros ->%bool_decide_eq_true. Qed.

Lemma hashes_equal_both a b : schemaHashesEqual a b = true ->
  exists l, inspectPayloadSchemaHash a = Some l /\ inspectPayloadSchemaHash b = Some l.
Proof.
  unfold schemaHashesEqual. destruct (inspectPayloadSchemaHash a) as [l|], (inspectPayloadSchemaHash b) as [r|]; try done.
  case_bool_decide as Hl; [|case_bool_decide as Hr]; cbn [orb].
  - intros [H _]%bool_decide_eq_true. exists []. rewrite Hl, H by done. done.
  - intros [_ H]%bool_decide_eq_true. by destruct Hl; apply H.
  - intros ->%bool_decide_eq_true. by exists r.
Qed.

Lemma decide_eq_sym {A} `{!EqDecision A} (x y : A) : bool_decide (x = y) = bool_decide (y = x).
Proof. apply bool_decide_ext. split; congruence. Qed.
Lemma same_text_sym a b : same_text a b = same_text b a.
Proof. destruct a, b; cbn; [apply decide_eq_sym|done..]. Qed.
Lemma scalar_eqb_sym a b : scalar_eqb a b = scalar_eqb b a.
Proof.
  destruct a as [|p|v], b as [|q|w]; cbn; try done; [apply decide_eq_sym|].
  destruct v as [|[]|], w as [|[]|]; cbn; try done. apply decide_eq_sym.
Qed.
Lemma hashes_equal_sym a b : schemaHashesEqual a b = schemaHashesEqual b a.
Proof.
  unfold schemaHashesEqual, bytes_eqb. destruct (inspectPayloadSchemaHash a) as [l|], (inspectPayloadSchemaHash b) as [r|]; try done.
  rewrite orb_comm, (decide_eq_sym l r). destruct (_ || _); [|done]. apply bool_decide_ext. tauto.
Qed.
Lemma identities_sym a b : payloadSchemaIdentitiesEqual a b = payloadSchemaIdentitiesEqual b a.
Proof.
  unfold payloadSchemaIdentitiesEqual. rewrite (same_text_sym (schemaName a)), (same_text_sym (fileIdentifier a)),
    (same_text_sym (rootTypeName a)), hashes_equal_sym, (decide_eq_sym (schemaVersion a)).
  by rewrite (orb_comm (bool_decide (schemaVersion a <> None))).
Qed.
Lemma layouts_sym a b : alignedPayloadLayoutsCompatible a b = alignedPayloadLayoutsCompatible b a.
Proof.
  unfold alignedPayloadLayoutsCompatible. rewrite identities_sym, (scalar_eqb_sym (fixedStringLength a)),
    (scalar_eqb_sym (byteLength a)), (scalar_eqb_sym (requiredAlignment a)).
  by rewrite (orb_comm (negb (bool_decide (getPayloadTypeWireFormat a = _)))).
Qed.

(** Compatible layouts are admitted in both directions: two concrete references whose
    aligned layouts are compatible match each other, and compatibility is symmetric. *)
Theorem compatible_layouts_match a b :
  acceptsAnyFlatbuffer a = false -> acceptsAnyFlatbuffer b = false -> alignedPayloadLayoutsCompatible a b = true ->
  payloadTypeRefsMatch a b = true /\ payloadTypeRefsMatch b a = true /\ alignedPayloadLayoutsCompatible b a = true.
Proof.
  intros Ha Hb H. rewrite !match_fields, layouts_sym, H by done. unfold alignedPayloadLayoutsCompatible in H.
  destruct (negb _ || negb _ || negb _) eqn:E; [done|]. rewrite !orb_false_iff, !negb_false_iff, !bool_decide_eq_true in E.
  destruct E as [[Wa Wb] Hid]. unfold payloadSchemaIdentitiesEqual in Hid. repeat rewrite andb_true_iff in Hid. repeat rewrite andb_true_iff in H.
  destruct Hid as [[[[N%same_text_eq F%same_text_eq] Rt%same_text_eq] Vs] Hh]. destruct H as [[S1 S2] S3].
  assert (Ev : schemaVersion a = schemaVersion b).
  { destruct (schemaVersion a), (schemaVersion b); cbn in Vs; try done; case_bool_decide; done. }
  destruct (hashes_equal_both _ _ Hh) as (l & La & Lb).
  assert (Hm : forall x y, inspectPayloadSchemaHash x = Some l -> inspectPayloadSchemaHash y = Some l -> schemaHashMatches x y = true).
  { intros x y Hx Hy. unfold schemaHashMatches. rewrite Hx, Hy. destruct l; [done|]. by apply bool_decide_eq_true. }
  assert (Ho : forall x y, scalar_eqb x y = true -> optionalScalarMatches x y = true) by (by intros []).
  unfold fields_match. rewrite N, F, Rt, Ev, Wa, Wb. split_and!; try done; try apply text_refl; try (by apply Hm); intros _;
    split_and!; apply Ho; first [done|by rewrite scalar_eqb_sym].
Qed.

(** The preferred type of a port is the first of its allowed types in the preferred wire
    format, else the first of its allowed types, else the wildcard. *)
Theorem preferred_type_is_first sets wire :
  let types := map clonePayloadTypeRef (concat sets) in
  let t := selectPreferredPayloadTypeRef sets wire in
  match normalizePayloadWireFormatName wire with
  | Some w =>
      (exists before after, types = before ++ t :: after /\ getPayloadTypeWireFormat t = w /\
         Forall (fun u => getPayloadTypeWireFormat u <> w) before) \/
      (Forall (fun u => getPayloadTypeWireFormat u <> w) types /\ t = default (clonePayloadTypeRef None) (head types))
  | None => t = default (clonePayloadTypeRef None) (head types)
  end.
Proof.
  unfold selectPreferredPayloadTypeRef. cbv zeta. generalize (concat sets). intros types.
  assert (Hgen : forall fb, let t := select_loop (normalizePayloadWireFormatName wire) types fb in
    let first := default (clonePayloadTypeRef None) (match fb with None => head (map clonePayloadTypeRef types) | Some f => Some f end) in
    match normalizePayloadWireFormatName wire with
    | Some w => (exists before after, map clonePayloadTypeRef types = before ++ t :: after /\ getPayloadTypeWireFormat t = w /\
         Forall (fun u => getPayloadTypeWireFormat u <> w) before) \/
      (Forall (fun u => getPayloadTypeWireFormat u <> w) (map clonePayloadTypeRef types) /\ t = first)
    | None => t = first
    end); [|apply (Hgen None)].
  induction types as [|u types IH]; intros fb; cbv zeta in *; cbn [select_loop map].
  { destruct (normalizePayloadWireFormatName wire); [|by destruct fb]. right. split; [constructor|by destruct fb]. }
  destruct (normalizePayloadWireFormatName wire) as [w|].
  - case_bool_decide as Hw; [left; exists [], (map clonePayloadTypeRef types); split_and!; [done|done|constructor]|].
    destruct (IH (match fb with None => Some (clonePayloadTypeRef u) | Some f => Some f end)) as [(b & a & Hs & Ht & Hb) | [Hall Ht]].
    + left. exists (clonePayloadTypeRef u :: b), a. rewrite Hs. split_and!; [done|done|by constructor].
    + right. split; [by constructor|]. rewrite Ht. by destruct fb.
  - rewrite IH. by destruct fb.
Qed.

(** ** Examples *)

Definition omm_ref : type_ref := clonePayloadTypeRef (Some (RawRef (Some (lit " OMM.fbs ")) (Some (lit "$OMM")) None
  (HashText (lit "0x0aFF")) false (WireText (lit "aligned_binary")) (Some (lit "OMM")) ScalarAbsent (ScalarText (lit "64")) (ScalarNum (Fin 8)))).

Lemma match_is_preorder_witness :
  payloadTypeRefsMatch omm_ref omm_ref = true /\
  (payloadTypeRefsMatch omm_ref omm_ref = true -> payloadTypeRefsMatch omm_ref omm_ref = true -> payloadTypeRefsMatch omm_ref omm_ref = true).
Proof. apply (match_is_preorder omm_ref omm_ref omm_ref); [constructor; by vm_compute|reflexivity]. Defined.

Lemma compatible_layouts_match_witness :
  payloadTypeRefsMatch omm_ref omm_ref = true /\ payloadTypeRefsMatch omm_ref omm_ref = true /\
  alignedPayloadLayoutsCompatible omm_ref omm_ref = true.
Proof. apply (compatible_layouts_match omm_ref omm_ref); vm_compute; reflexivity. Defined.
