(* ===== verification/FlowNormalize.v ===== *)
(** Normal forms of flow programs, plugin manifests and frames (src/flow/vendor/sdn-flow/normalize.js).

    A manifest or program as a caller writes it and its normal form are objects of the same kind, so
    each normaliser maps a record to a record of the same type. A text field is [None] when it is
    absent or null, a field with two spellings is given by the first one that is present, and an array
    field that holds no array is the empty list. *)
From Stdlib Require Import ZArith QArith Lia.
From stdpp Require Import base list sets strings numbers pretty.
From S2P Require Import Prelude JsText JsMap JsNumber TypeRefs.
Open Scope Z_scope.

(** ** Values *)

Definition normalizeString (value fallback : option jsstring) : option jsstring :=
  match value with
  | None => fallback
  | Some s => if 0 <? blen (trim s) then Some (trim s) else fallback
  end.

(** [.map(normalizeString).filter(Boolean)] *)
Definition texts (values : list (option jsstring)) : list (option jsstring) :=
  List.filter (fun v => match v with Some _ => true | None => false end) (map (fun v => normalizeString v None) values).

(** [Number(value ?? d)] *)
Definition number_or (d : Z) (value : raw_scalar) : jsnum :=
  match value with ScalarAbsent => int_num d | ScalarNum n => n | ScalarText s => to_number s end.

(** [Math.max(lo, n)] *)
Definition math_max (lo : Z) (n : jsnum) : jsnum :=
  match n with
  | NaN => NaN
  | PosInf => PosInf
  | NegInf => int_num lo
  | Fin q => if Qle_bool (inject_Z lo) q then Fin q else int_num lo
  end.

Definition at_least (lo d : Z) (value : raw_scalar) : raw_scalar := ScalarNum (math_max lo (number_or d value)).

(** ** Type references *)

(** [String(value)] of a format: other values than texts and numbers name no format. *)
Definition normalize_wire (value : raw_wire) : raw_wire :=
  match value with
  | WireText s => match normalizeString (Some s) None with Some t => WireText t | None => WireAbsent end
  | WireNum z => WireText (lit (pretty z))
  | WireAbsent => WireAbsent
  | WireOther => WireOther
  end.

(** [Number.isFinite(Number(value)) ? Math.max(0, Math.trunc(Number(value))) : null] *)
Definition normalize_scalar (value : raw_scalar) : raw_scalar :=
  match value with
  | ScalarAbsent => ScalarAbsent
  | _ => match number_or 0 value with Fin q => ScalarNum (int_num (Z.max 0 (q_trunc q))) | _ => ScalarAbsent end
  end.

(** The schema version is not among the fields of the result. *)
Definition normalizeTypeRef (t : raw_ref) : raw_ref :=
  RawRef (normalizeString (r_schemaName t) None) (normalizeString (r_fileIdentifier t) None) None
    (match r_schemaHash t with HashArray l => HashArray l | _ => HashArray [] end) (r_acceptsAny t) (normalize_wire (r_wireFormat t))
    (normalizeString (r_rootTypeName t) None) (normalize_scalar (r_fixedStringLength t)) (normalize_scalar (r_byteLength t))
    (normalize_scalar (r_requiredAlignment t)).

Record type_set := TypeSet { setId : option jsstring; allowedTypes : list raw_ref; set_description : option jsstring }.
Definition normalizeAcceptedTypeSet (s : type_set) : type_set :=
  TypeSet (normalizeString (setId s) None) (map normalizeTypeRef (allowedTypes s)) (normalizeString (set_description s) None).

(** ** Manifests *)

Definition DIRECT : jsstring := lit "direct".
Definition COMMAND : jsstring := lit "command".
Definition DRAIN_UNTIL_YIELD : jsstring := lit "drain-until-yield".
Definition BIDIRECTIONAL : jsstring := lit "bidirectional".
Definition QUEUE : jsstring := lit "queue".

Definition normalizeInvokeSurface (value : option jsstring) : option jsstring :=
  match normalizeString value None with
  | Some s => if str_eqb s DIRECT || str_eqb s COMMAND then Some s else None
  | None => None
  end.

Section objects.
(** Objects that are copied as they are. *)
Context {X : Type}.

Record interface := Interface {
  interfaceId : option jsstring; if_kind : option jsstring; direction : option jsstring; capability : option jsstring;
  resource : option jsstring; if_protocolId : option jsstring; topic : option jsstring; if_path : option jsstring;
  if_description : option jsstring; if_required : bool; if_acceptedTypes : list raw_ref; properties : option X
}.
Definition normalizeExternalInterface (i : interface) : interface :=
  Interface (normalizeString (interfaceId i) (Some [])) (normalizeString (if_kind i) None)
    (normalizeString (direction i) (Some BIDIRECTIONAL)) (normalizeString (capability i) None) (normalizeString (resource i) None)
    (normalizeString (if_protocolId i) None) (normalizeString (topic i) None) (normalizeString (if_path i) None)
    (normalizeString (if_description i) None) (if_required i) (map normalizeTypeRef (if_acceptedTypes i)) (properties i).

Record port := Port {
  portId : option jsstring; port_displayName : option jsstring; acceptedTypeSets : list type_set; minStreams : raw_scalar;
  maxStreams : raw_scalar; required : bool; port_description : option jsstring
}.
Definition normalizePort (p : port) : port :=
  Port (normalizeString (portId p) (Some [])) (normalizeString (port_displayName p) None)
    (map normalizeAcceptedTypeSet (acceptedTypeSets p)) (at_least 0 1 (minStreams p)) (at_least 0 1 (maxStreams p)) (required p)
    (normalizeString (port_description p) None).

Record method := Method {
  methodId : option jsstring; displayName : option jsstring; inputPorts : list port; outputPorts : list port;
  maxBatch : raw_scalar; drainPolicy : option jsstring; description : option jsstring
}.
Definition normalizeMethod (m : method) : method :=
  Method (normalizeString (methodId m) (Some [])) (normalizeString (displayName m) None) (map normalizePort (inputPorts m))
    (map normalizePort (outputPorts m)) (at_least 1 1 (maxBatch m)) (normalizeString (drainPolicy m) (Some DRAIN_UNTIL_YIELD))
    (normalizeString (description m) None).

(** [timers], [protocols], [buildArtifacts] and [manifestBuffer] are copied, [abiVersion] becomes a
    number. *)
Record manifest := Manifest {
  pluginId : option jsstring; name : option jsstring; version : option jsstring; pluginFamily : option jsstring;
  methods : list method; capabilities : list jsstring; schemasUsed : list raw_ref; externalInterfaces : list interface;
  abiVersion : raw_scalar; invokeSurfaces : list (option jsstring); runtimeTargets : list (option jsstring);
  runtimeTargetClass : option jsstring; standardRuntimeTarget : option jsstring; bytesSymbol : option jsstring;
  sizeSymbol : option jsstring; copied : option X
}.
Definition surfaces (values : list (option jsstring)) : list (option jsstring) :=
  List.filter (fun v => match v with Some _ => true | None => false end) (map normalizeInvokeSurface values).

Definition normalizeManifest (m : manifest) : manifest :=
  Manifest (normalizeString (pluginId m) (Some [])) (normalizeString (name m) None) (normalizeString (version m) None)
    (normalizeString (pluginFamily m) None) (map normalizeMethod (methods m)) (capabilities m) (map normalizeTypeRef (schemasUsed m))
    (map normalizeExternalInterface (externalInterfaces m)) (ScalarNum (number_or 1 (abiVersion m))) (surfaces (invokeSurfaces m))
    (texts (runtimeTargets m)) (normalizeString (runtimeTargetClass m) None) (normalizeString (standardRuntimeTarget m) None)
    (normalizeString (bytesSymbol m) (Some (lit "plugin_get_manifest_flatbuffer")))
    (normalizeString (sizeSymbol m) (Some (lit "plugin_get_manifest_flatbuffer_size"))) (copied m).

(** ** Programs *)

Record trigger := Trigger {
  triggerId : option jsstring; tr_kind : option jsstring; source : option jsstring; tr_protocolId : option jsstring;
  defaultIntervalMs : raw_scalar; tr_acceptedTypes : list raw_ref; tr_description : option jsstring
}.
Definition normalizeTrigger (t : trigger) : trigger :=
  Trigger (normalizeString (triggerId t) (Some [])) (normalizeString (tr_kind t) (Some (lit "manual"))) (normalizeString (source t) None)
    (normalizeString (tr_protocolId t) None) (ScalarNum (number_or 0 (defaultIntervalMs t)))
    (map normalizeTypeRef (tr_acceptedTypes t)) (normalizeString (tr_description t) None).

Record node := Node {
  nodeId : option jsstring; n_pluginId : option jsstring; n_methodId : option jsstring; n_kind : option jsstring;
  n_drainPolicy : option jsstring; timeSliceMicros : raw_scalar
}.
Definition normalizeNode (n : node) : node :=
  Node (normalizeString (nodeId n) (Some [])) (normalizeString (n_pluginId n) (Some [])) (normalizeString (n_methodId n) (Some []))
    (normalizeString (n_kind n) (Some (lit "transform"))) (normalizeString (n_drainPolicy n) (Some DRAIN_UNTIL_YIELD))
    (ScalarNum (number_or 0 (timeSliceMicros n))).

Record edge := Edge {
  edgeId : option jsstring; fromNodeId : option jsstring; fromPortId : option jsstring; toNodeId : option jsstring;
  toPortId : option jsstring; e_acceptedTypes : list raw_ref; e_backpressurePolicy : option jsstring; e_queueDepth : raw_scalar
}.
Definition normalizeEdge (e : edge) : edge :=
  Edge (normalizeString (edgeId e) (Some [])) (normalizeString (fromNodeId e) (Some [])) (normalizeString (fromPortId e) (Some []))
    (normalizeString (toNodeId e) (Some [])) (normalizeString (toPortId e) (Some [])) (map normalizeTypeRef (e_acceptedTypes e))
    (normalizeString (e_backpressurePolicy e) (Some QUEUE)) (at_least 0 1 (e_queueDepth e)).

Record binding := Binding {
  b_triggerId : option jsstring; targetNodeId : option jsstring; targetPortId : option jsstring;
  b_backpressurePolicy : option jsstring; b_queueDepth : raw_scalar
}.
Definition normalizeTriggerBinding (b : binding) : binding :=
  Binding (normalizeString (b_triggerId b) (Some [])) (normalizeString (targetNodeId b) (Some []))
    (normalizeString (targetPortId b) (Some [])) (normalizeString (b_backpressurePolicy b) (Some QUEUE)) (at_least 0 1 (b_queueDepth b)).

(** The artifacts a program depends on. *)
Record dependency := Dependency {
  dependencyId : option jsstring; dep_pluginId : option jsstring; dep_version : option jsstring; artifactId : option jsstring;
  artifactUri : option jsstring; mediaType : option jsstring; sha256 : option jsstring; manifestHash : option jsstring;
  signature : option jsstring; signerPublicKey : option jsstring; entrypoint : option jsstring;
  requiredCapabilities : list (option jsstring); dep_invokeSurface : option jsstring; dep_invokeSurfaces : list (option jsstring);
  exports : list (option jsstring); dep_bytesSymbol : option jsstring; dep_sizeSymbol : option jsstring;
  initSymbol : option jsstring; destroySymbol : option jsstring; mallocSymbol : option jsstring; freeSymbol : option jsstring;
  streamInvokeSymbol : option jsstring; metadata : option X
}.

(** [Array.from(new Set(...))] *)
Definition distinct (values : list (option jsstring)) : list (option jsstring) :=
  fold_left (fun seen v => if bool_decide (v ∈ seen) then seen else seen ++ [v]) values [].

Definition normalizeDependencyInvokeSurfaces (d : dependency) : list (option jsstring) :=
  match surfaces (dep_invokeSurfaces d) with
  | [] => match normalizeInvokeSurface (dep_invokeSurface d) with Some s => [Some s] | None => [Some DIRECT] end
  | declared => distinct declared
  end.

Definition normalizeDependencyInvokeSurface (d : dependency) : option jsstring :=
  let declared := normalizeDependencyInvokeSurfaces d in
  if bool_decide (Some DIRECT ∈ declared) then Some DIRECT
  else if bool_decide (Some COMMAND ∈ declared) then Some COMMAND
  else match declared with s :: _ => s | [] => Some DIRECT end.

(** A default of the direct surface. *)
Definition direct_symbol (d : dependency) (symbol : string) : option jsstring :=
  if bool_decide (normalizeDependencyInvokeSurface d = Some DIRECT) then Some (lit symbol) else None.

Definition normalizeArtifactDependency (d : dependency) : dependency :=
  Dependency (normalizeString (dependencyId d) (Some [])) (normalizeString (dep_pluginId d) None) (normalizeString (dep_version d) None)
    (normalizeString (artifactId d) None) (normalizeString (artifactUri d) None) (normalizeString (mediaType d) (Some (lit "application/wasm")))
    (normalizeString (sha256 d) None) (normalizeString (manifestHash d) None) (normalizeString (signature d) None)
    (normalizeString (signerPublicKey d) None) (normalizeString (entrypoint d) None) (texts (requiredCapabilities d))
    (normalizeDependencyInvokeSurface d) (normalizeDependencyInvokeSurfaces d) (texts (exports d))
    (normalizeString (dep_bytesSymbol d) (Some (lit "plugin_get_manifest_flatbuffer")))
    (normalizeString (dep_sizeSymbol d) (Some (lit "plugin_get_manifest_flatbuffer_size")))
    (normalizeString (initSymbol d) None) (normalizeString (destroySymbol d) None)
    (normalizeString (mallocSymbol d) (direct_symbol d "plugin_alloc")) (normalizeString (freeSymbol d) (direct_symbol d "plugin_free"))
    (normalizeString (streamInvokeSymbol d) (direct_symbol d "plugin_invoke_stream")) (metadata d).

Record program := Program {
  programId : option jsstring; p_name : option jsstring; p_version : option jsstring; p_runtimeTargets : list (option jsstring);
  p_runtimeTargetClass : option jsstring; p_standardRuntimeTarget : option jsstring; nodes : list node; edges : list edge;
  triggers : list trigger; triggerBindings : list binding; requiredPlugins : list (option jsstring);
  p_externalInterfaces : list interface; artifactDependencies : list dependency; editor : option X; p_description : option jsstring
}.
Definition normalizeProgram (p : program) : program :=
  Program (normalizeString (programId p) (Some [])) (normalizeString (p_name p) None) (normalizeString (p_version p) None)
    (texts (p_runtimeTargets p)) (normalizeString (p_runtimeTargetClass p) None) (normalizeString (p_standardRuntimeTarget p) None)
    (map normalizeNode (nodes p)) (map normalizeEdge (edges p)) (map normalizeTrigger (triggers p))
    (map normalizeTriggerBinding (triggerBindings p)) (texts (requiredPlugins p))
    (map normalizeExternalInterface (p_externalInterfaces p)) (map normalizeArtifactDependency (artifactDependencies p)) (editor p)
    (normalizeString (p_description p) None).

(** ** Frames *)

(** [carried]: trace id, sequence number, end mark, payload and metadata. *)
Record frame := Frame {
  typeRef : option raw_ref; f_portId : option jsstring; alignment : raw_scalar; offset : raw_scalar; size : raw_scalar;
  ownership : option jsstring; generation : raw_scalar; mutability : option jsstring; streamId : raw_scalar; carried : X
}.
Definition no_ref : raw_ref := RawRef None None None HashAbsent false WireAbsent None ScalarAbsent ScalarAbsent ScalarAbsent.

Definition normalizeFrame (f : frame) (defaultPortId : option jsstring) : frame :=
  Frame (Some (normalizeTypeRef (default no_ref (typeRef f)))) (normalizeString (f_portId f) defaultPortId) (at_least 1 8 (alignment f))
    (at_least 0 0 (offset f)) (at_least 0 0 (size f)) (normalizeString (ownership f) None) (ScalarNum (number_or 0 (generation f)))
    (normalizeString (mutability f) None) (ScalarNum (number_or 0 (streamId f))) (carried f).
End objects.
Arguments interface : clear implicits.
Arguments manifest : clear implicits.
Arguments dependency : clear implicits.
Arguments program : clear implicits.
Arguments frame : clear implicits.

(** ** Normal forms *)

(** A field with a fallback that is itself normal is normal after one step. *)
Definition settled (fallback : option jsstring) : Prop := normalizeString fallback fallback = fallback.

Lemma string_fixed v fb : settled fb -> normalizeString (normalizeString v fb) fb = normalizeString v fb.
Proof.
  intros Hfb. destruct v as [s|]; [|exact Hfb]. cbn [normalizeString]. destruct (0 <? blen (trim s)) eqn:E; [|exact Hfb].
  cbn [normalizeString]. by rewrite trim_trim, E.
Qed.

Lemma texts_fixed l : texts (texts l) = texts l.
Proof.
  unfold texts. induction l as [|v l IH]; [done|]. cbn [map List.filter].
  destruct (normalizeString v None) as [s|] eqn:E; [|exact IH]. cbn [map List.filter].
  rewrite <- E, string_fixed by done. rewrite E. by rewrite IH.
Qed.

Lemma surface_fixed v s : normalizeInvokeSurface v = Some s -> normalizeInvokeSurface (Some s) = Some s /\ (s = DIRECT \/ s = COMMAND).
Proof.
  unfold normalizeInvokeSurface. destruct (normalizeString v None) as [t|]; [|done].
  destruct (str_eqb t DIRECT || str_eqb t COMMAND) eqn:E; [|done]. intros [= <-].
  apply orb_true_iff in E. rewrite !str_eqb_eq in E. destruct E as [-> | ->]; (split; [by vm_compute|auto]).
Qed.

Lemma surfaces_fixed l : surfaces (surfaces l) = surfaces l.
Proof.
  unfold surfaces. induction l as [|v l IH]; [done|]. cbn [map List.filter].
  destruct (normalizeInvokeSurface v) as [s|] eqn:E; [|exact IH]. cbn [map List.filter].
  by rewrite (proj1 (surface_fixed _ _ E)), IH.
Qed.

Lemma math_max_fixed lo n : math_max lo (math_max lo n) = math_max lo n.
Proof.
  assert (Hlo : Qle_bool (inject_Z lo) (inject_Z lo) = true) by (apply Qle_bool_iff, Qle_refl).
  destruct n as [| | |q]; cbn; [done..|by rewrite Hlo|]. destruct (Qle_bool (inject_Z lo) q) eqn:E; cbn; [by rewrite E|by rewrite Hlo].
Qed.
Lemma at_least_fixed lo d v : at_least lo d (at_least lo d v) = at_least lo d v.
Proof. unfold at_least. cbn [number_or]. by rewrite math_max_fixed. Qed.

Lemma scalar_fixed v : normalize_scalar (normalize_scalar v) = normalize_scalar v.
Proof.
  assert (Hq : forall q, normalize_scalar (ScalarNum (int_num (Z.max 0 (q_trunc q)))) = ScalarNum (int_num (Z.max 0 (q_trunc q)))).
  { intros q. unfold normalize_scalar, number_or, int_num, q_trunc, inject_Z. cbn [Qnum Qden]. rewrite Z.quot_1_r. do 3 f_equal. lia. }
  destruct v as [|n|s]; [done| |]; unfold normalize_scalar at 2 3; cbn [number_or].
  - destruct n; [done..|]. apply Hq.
  - destruct (to_number s); [done..|]. apply Hq.
Qed.

(** The text of an integer has no white space. *)
Definition plain_text (s : string) : Prop := Forall (fun c => is_js_space c = false) (lit s).

Lemma pretty_char_plain d s : plain_text s -> plain_text (String (pretty_N_char d) s).
Proof.
  intros Hs. unfold plain_text. cbn [lit]. constructor; [|exact Hs].
  unfold pretty_N_char. by repeat case_match.
Qed.
Lemma pretty_go_plain x : forall s, plain_text s -> plain_text (pretty_N_go x s) /\ (s <> ""%string -> pretty_N_go x s <> ""%string).
Proof.
  induction (N.lt_wf_0 x) as [x _ IH]. intros s Hs. destruct (decide (x = 0)%N) as [->|]; [by rewrite pretty_N_go_0|].
  rewrite pretty_N_go_step by lia. destruct (IH (x `div` 10)%N ltac:(apply N.div_lt; lia) _ (pretty_char_plain (x `mod` 10)%N s Hs)) as [Hp Hn].
  split; [done|]. intros _. by apply Hn.
Qed.
Lemma pretty_Z_plain (z : Z) : plain_text (pretty z) /\ lit (pretty z) <> [].
Proof.
  assert (Hpos : forall n : N, plain_text (pretty n) /\ pretty n <> ""%string).
  { intros n. unfold pretty, pretty_N. destruct (decide (n = 0)%N) as [->|Hn]; [split; [by repeat constructor|done]|].
    rewrite pretty_N_go_step by lia.
    destruct (pretty_go_plain (n `div` 10)%N (String (pretty_N_char (n `mod` 10)) "")) as [Hp Hne]; [apply pretty_char_plain; constructor|].
    split; [done|by apply Hne]. }
  destruct z as [|p|p]; unfold pretty, pretty_Z; [split; [by repeat constructor|done]| |].
  - destruct (Hpos (Npos p)) as [Hp Hn]. split; [exact Hp|]. change (lit (pretty (Npos p)) <> []). by destruct (pretty (Npos p)).
  - destruct (Hpos (Npos p)) as [Hp _]. split; [|done]. by constructor.
Qed.
Lemma trim_plain s : plain_text s -> trim (lit s) = lit s.
Proof.
  intros Hs. unfold plain_text in Hs. rewrite Forall_forall in Hs.
  unfold trim, trim_with. rewrite (drop_while_id _ (lit s)), drop_while_id; [apply reverse_involutive| |]; intros x Hx; apply Hs.
  - apply elem_of_reverse. by apply head_Some_elem_of.
  - by apply head_Some_elem_of.
Qed.

Lemma wire_fixed v : normalize_wire (normalize_wire v) = normalize_wire v.
Proof.
  destruct v as [|z|s|]; [done| | |done]; cbn [normalize_wire].
  - destruct (pretty_Z_plain z) as [Hp Hn]. cbn [normalizeString]. rewrite trim_plain by done.
    destruct (Z.ltb_spec 0 (blen (lit (pretty z)))) as [|Hb]; [done|]. exfalso. apply Hn. destruct (lit (pretty z)); [done|]. unfold blen in Hb. cbn in Hb. lia.
  - destruct (normalizeString (Some s) None) as [t|] eqn:E; [|done]. cbn [normalize_wire].
    rewrite <- E. rewrite string_fixed by done. by rewrite E.
Qed.

Lemma type_ref_fixed t : normalizeTypeRef (normalizeTypeRef t) = normalizeTypeRef t.
Proof.
  unfold normalizeTypeRef. cbn [r_schemaName r_fileIdentifier r_schemaHash r_acceptsAny r_wireFormat r_rootTypeName r_fixedStringLength
    r_byteLength r_requiredAlignment]. rewrite !string_fixed, wire_fixed, !scalar_fixed by done. by destruct (r_schemaHash t).
Qed.
Lemma map_fixed {A} (f : A -> A) l : (forall x, f (f x) = f x) -> map f (map f l) = map f l.
Proof. intros Hf. rewrite map_map. apply map_ext. exact Hf. Qed.

Lemma type_set_fixed s : normalizeAcceptedTypeSet (normalizeAcceptedTypeSet s) = normalizeAcceptedTypeSet s.
Proof. unfold normalizeAcceptedTypeSet. cbn. by rewrite !string_fixed, (map_fixed _ _ type_ref_fixed). Qed.
Lemma port_fixed p : normalizePort (normalizePort p) = normalizePort p.
Proof. unfold normalizePort. cbn -[at_least]. by rewrite !string_fixed, !at_least_fixed, (map_fixed _ _ type_set_fixed). Qed.
Lemma method_fixed m : normalizeMethod (normalizeMethod m) = normalizeMethod m.
Proof. unfold normalizeMethod. cbn -[at_least]. by rewrite !string_fixed, !at_least_fixed, !(map_fixed _ _ port_fixed). Qed.

Section fixed.
Context {X : Type}.
Lemma interface_fixed (i : interface X) : normalizeExternalInterface (normalizeExternalInterface i) = normalizeExternalInterface i.
Proof. unfold normalizeExternalInterface. cbn. by rewrite !string_fixed, (map_fixed _ _ type_ref_fixed). Qed.
Lemma manifest_fixed (m : manifest X) : normalizeManifest (normalizeManifest m) = normalizeManifest m.
Proof.
  unfold normalizeManifest. cbn -[surfaces texts number_or]. by rewrite !string_fixed, (map_fixed _ _ method_fixed), (map_fixed _ _ type_ref_fixed),
    (map_fixed _ _ interface_fixed), surfaces_fixed, texts_fixed.
Qed.
Lemma trigger_fixed t : normalizeTrigger (normalizeTrigger t) = normalizeTrigger t.
Proof. unfold normalizeTrigger. cbn. by rewrite !string_fixed, (map_fixed _ _ type_ref_fixed). Qed.
Lemma node_fixed n : normalizeNode (normalizeNode n) = normalizeNode n.
Proof. unfold normalizeNode. cbn. by rewrite !string_fixed. Qed.
Lemma edge_fixed e : normalizeEdge (normalizeEdge e) = normalizeEdge e.
Proof. unfold normalizeEdge. cbn -[at_least]. by rewrite !string_fixed, !at_least_fixed, (map_fixed _ _ type_ref_fixed). Qed.
Lemma binding_fixed b : normalizeTriggerBinding (normalizeTriggerBinding b) = normalizeTriggerBinding b.
Proof. unfold normalizeTriggerBinding. cbn -[at_least]. by rewrite !string_fixed, !at_least_fixed. Qed.

Lemma distinct_app (l : list (option jsstring)) : forall acc, (forall v, v ∈ l -> v ∉ acc) -> NoDup l ->
  fold_left (fun seen v => if bool_decide (v ∈ seen) then seen else seen ++ [v]) l acc = acc ++ l.
Proof.
  induction l as [|v l IH]; intros acc Hout Hnd; cbn [fold_left]; [by rewrite app_nil_r|].
  apply NoDup_cons in Hnd as [Hv Hnd]. rewrite bool_decide_eq_false_2 by (apply Hout; set_solver).
  rewrite IH; [by rewrite <- app_assoc| |done]. intros u Hu. rewrite elem_of_app, list_elem_of_singleton. intros [Ha| ->]; [|done].
  by apply (Hout u); [set_solver|].
Qed.
Lemma distinct_spec (l : list (option jsstring)) : NoDup (distinct l) /\ forall v, v ∈ distinct l <-> v ∈ l.
Proof.
  unfold distinct. assert (forall acc, NoDup acc ->
    let r := fold_left (fun seen v => if bool_decide (v ∈ seen) then seen else seen ++ [v]) l acc in
    NoDup r /\ forall v, v ∈ r <-> v ∈ acc \/ v ∈ l) as H.
  { induction l as [|u l IH]; intros acc Hacc; cbn [fold_left]; [split; [done|set_solver]|].
    case_bool_decide as Hu.
    - destruct (IH acc Hacc) as [Hn Hi]. split; [done|]. intros v. rewrite Hi. set_solver.
    - destruct (IH (acc ++ [u])) as [Hn Hi].
      { apply NoDup_app. split_and!; [done| |by apply NoDup_singleton]. intros x Hx ->%list_elem_of_singleton. done. }
      split; [done|]. intros v. rewrite Hi. set_solver. }
  destruct (H [] ltac:(constructor)) as [Hn Hi]. split; [done|]. intros v. rewrite Hi. set_solver.
Qed.

(** The surfaces of a dependency are direct or command, each once. *)
Lemma dependency_surfaces (d : dependency X) : let l := normalizeDependencyInvokeSurfaces d in
  l <> [] /\ NoDup l /\ forall v, v ∈ l -> v = Some DIRECT \/ v = Some COMMAND.
Proof.
  unfold normalizeDependencyInvokeSurfaces.
  assert (Hs : forall v, v ∈ surfaces (dep_invokeSurfaces d) -> v = Some DIRECT \/ v = Some COMMAND).
  { intros v Hv. unfold surfaces in Hv. apply list_elem_of_In, filter_In in Hv as [Hv Hsome]. apply in_map_iff in Hv as (u & Hu & _).
    destruct v as [s|]; [|done]. destruct (surface_fixed _ _ Hu) as [_ [-> | ->]]; auto. }
  destruct (surfaces (dep_invokeSurfaces d)) as [|s l] eqn:E.
  - destruct (normalizeInvokeSurface (dep_invokeSurface d)) as [s|] eqn:Es; (split_and!; [done|by apply NoDup_singleton|]); intros v ->%list_elem_of_singleton; [|auto].
    destruct (surface_fixed _ _ Es) as [_ [-> | ->]]; auto.
  - destruct (distinct_spec (s :: l)) as [Hn Hi]. split_and!; [|done|intros v Hv; by apply Hs, Hi].
    intros H0. assert (s ∈ distinct (s :: l)) as Hin by (apply Hi; set_solver). rewrite H0 in Hin. set_solver.
Qed.

Lemma dependency_fixed (d : dependency X) : normalizeArtifactDependency (normalizeArtifactDependency d) = normalizeArtifactDependency d.
Proof.
  destruct (dependency_surfaces d) as (Hne & Hnd & Hv).
  assert (Hl : normalizeDependencyInvokeSurfaces (normalizeArtifactDependency d) = normalizeDependencyInvokeSurfaces d).
  { unfold normalizeDependencyInvokeSurfaces at 1. cbn [dep_invokeSurfaces normalizeArtifactDependency].
    set (l := normalizeDependencyInvokeSurfaces d) in *.
    assert (Hs : surfaces l = l).
    { clear -Hv. unfold surfaces. induction l as [|v l IH]; [done|]. cbn [map List.filter].
      assert (normalizeInvokeSurface v = v /\ exists s, v = Some s) as [-> [s ->]] by (destruct (Hv v) as [-> | ->]; [set_solver|by vm_compute; eauto..]).
      f_equal. apply IH. intros u Hu. apply Hv. set_solver. }
    rewrite Hs. destruct l as [|v l'] eqn:El; [done|]. unfold distinct. by rewrite distinct_app by (done || set_solver). }
  assert (Hs : normalizeDependencyInvokeSurface (normalizeArtifactDependency d) = normalizeDependencyInvokeSurface d)
    by (unfold normalizeDependencyInvokeSurface; by rewrite Hl).
  assert (Hd : forall x, direct_symbol (normalizeArtifactDependency d) x = direct_symbol d x) by (intros; unfold direct_symbol; by rewrite Hs).
  unfold normalizeArtifactDependency at 1. rewrite Hl, Hs, !Hd. unfold normalizeArtifactDependency.
  cbn [dependencyId dep_pluginId dep_version artifactId artifactUri mediaType sha256 manifestHash signature signerPublicKey entrypoint
    requiredCapabilities exports dep_bytesSymbol dep_sizeSymbol initSymbol destroySymbol mallocSymbol freeSymbol streamInvokeSymbol metadata].
  rewrite !texts_fixed. rewrite !string_fixed; try done; unfold direct_symbol; by case_bool_decide.
Qed.

Lemma program_fixed (p : program X) : normalizeProgram (normalizeProgram p) = normalizeProgram p.
Proof.
  unfold normalizeProgram. cbn -[texts]. by rewrite !string_fixed, !texts_fixed, (map_fixed _ _ node_fixed), (map_fixed _ _ edge_fixed),
    (map_fixed _ _ trigger_fixed), (map_fixed _ _ binding_fixed), (map_fixed _ _ interface_fixed), (map_fixed _ _ dependency_fixed).
Qed.
Lemma frame_fixed (f : frame X) d : settled d -> normalizeFrame (normalizeFrame f d) d = normalizeFrame f d.
Proof.
  intros Hd. unfold normalizeFrame. cbn -[at_least normalizeTypeRef]. by rewrite !string_fixed, !at_least_fixed, type_ref_fixed.
Qed.
End fixed.

(** ** Types of normal forms *)

(** A text without outer white space; such a text or nothing; a number that is not below [lo]. *)
Definition a_text (v : option jsstring) : Prop := exists s, v = Some s /\ trim s = s.
Definition optional_text (v : option jsstring) : Prop := v = None \/ exists s, v = Some s /\ trim s = s /\ s <> [].
Definition not_below (lo : Z) (v : raw_scalar) : Prop :=
  exists n, v = ScalarNum n /\ match n with NegInf => False | Fin q => (inject_Z lo <= q)%Q | _ => True end.

Record typed_ref (t : raw_ref) : Prop := {
  ref_name : optional_text (r_schemaName t);
  ref_identifier : optional_text (r_fileIdentifier t);
  ref_version : r_schemaVersion t = None;
  ref_hash : exists l, r_schemaHash t = HashArray l;
  ref_wire : match r_wireFormat t with WireText w => trim w = w /\ w <> [] | WireNum _ => False | _ => True end;
  ref_root : optional_text (r_rootTypeName t);
  ref_scalars : Forall (fun v => v = ScalarAbsent \/ not_below 0 v) [r_fixedStringLength t; r_byteLength t; r_requiredAlignment t]
}.
Record typed_set (s : type_set) : Prop := {
  set_texts : optional_text (setId s) /\ optional_text (set_description s);
  set_types : Forall typed_ref (allowedTypes s)
}.
Record typed_port (p : port) : Prop := {
  port_id : a_text (portId p);
  port_texts : optional_text (port_displayName p) /\ optional_text (port_description p);
  port_types : Forall typed_set (acceptedTypeSets p);
  port_streams : not_below 0 (minStreams p) /\ not_below 0 (maxStreams p)
}.
Record typed_method (m : method) : Prop := {
  method_id : a_text (methodId m);
  method_texts : optional_text (displayName m) /\ optional_text (description m);
  method_ports : Forall typed_port (inputPorts m) /\ Forall typed_port (outputPorts m);
  method_batch : not_below 1 (maxBatch m);
  method_policy : a_text (drainPolicy m)
}.
Record typed_interface {X} (i : interface X) : Prop := {
  interface_id : a_text (interfaceId i) /\ a_text (direction i);
  interface_texts : Forall optional_text [if_kind i; capability i; resource i; if_protocolId i; topic i; if_path i; if_description i];
  interface_types : Forall typed_ref (if_acceptedTypes i)
}.
Record typed_manifest {X} (m : manifest X) : Prop := {
  manifest_id : a_text (pluginId m);
  manifest_texts : Forall optional_text [name m; version m; pluginFamily m; runtimeTargetClass m; standardRuntimeTarget m];
  manifest_symbols : a_text (bytesSymbol m) /\ a_text (sizeSymbol m);
  manifest_abi : exists n, abiVersion m = ScalarNum n;
  manifest_methods : Forall typed_method (methods m);
  manifest_schemas : Forall typed_ref (schemasUsed m);
  manifest_interfaces : Forall typed_interface (externalInterfaces m);
  manifest_surfaces : Forall (fun v => v = Some DIRECT \/ v = Some COMMAND) (invokeSurfaces m);
  manifest_targets : Forall (fun v => v <> None /\ optional_text v) (runtimeTargets m)
}.

Lemma string_optional v : optional_text (normalizeString v None).
Proof.
  destruct v as [s|]; [|by left]. cbn. destruct (Z.ltb_spec 0 (blen (trim s))) as [Hs|]; [|by left].
  right. exists (trim s). split_and!; [done|apply trim_trim|]. intros H0. rewrite H0 in Hs. done.
Qed.
Lemma string_text v fb : a_text (Some fb) -> a_text (normalizeString v (Some fb)).
Proof. intros Hfb. destruct v as [s|]; [|done]. cbn. destruct (_ <? _); [|done]. exists (trim s). split; [done|apply trim_trim]. Qed.
Lemma at_least_typed lo d v : not_below lo (at_least lo d v).
Proof.
  eexists. split; [done|]. destruct (number_or d v) as [| | |q]; cbn; [done..|apply Qle_refl|].
  destruct (Qle_bool (inject_Z lo) q) eqn:E; [by apply Qle_bool_iff|apply Qle_refl].
Qed.
Lemma scalar_typed v : normalize_scalar v = ScalarAbsent \/ not_below 0 (normalize_scalar v).
Proof.
  assert (H : forall n, (match n with Fin q => ScalarNum (int_num (Z.max 0 (q_trunc q))) | _ => ScalarAbsent end) = ScalarAbsent \/
    not_below 0 (match n with Fin q => ScalarNum (int_num (Z.max 0 (q_trunc q))) | _ => ScalarAbsent end)).
  { intros [| | |q]; [by left..|]. right. eexists. split; [done|]. unfold int_num. rewrite <- Zle_Qle. lia. }
  destruct v; [by left|apply H..].
Qed.
Lemma wire_typed v : match normalize_wire v with WireText w => trim w = w /\ w <> [] | WireNum _ => False | _ => True end.
Proof.
  destruct v as [|z|s|]; try done; cbn [normalize_wire].
  - destruct (pretty_Z_plain z) as [Hp Hn]. split; [by apply trim_plain|done].
  - pose proof (string_optional (Some s)) as H. destruct (normalizeString (Some s) None) as [t|]; [|done]. by destruct H as [|(u & [= <-] & H)].
Qed.
Lemma type_ref_typed t : typed_ref (normalizeTypeRef t).
Proof.
  constructor; cbn [normalizeTypeRef r_schemaName r_fileIdentifier r_schemaVersion r_schemaHash r_wireFormat r_rootTypeName r_fixedStringLength r_byteLength r_requiredAlignment];
    try apply string_optional; try apply wire_typed; try done.
  - destruct (r_schemaHash t); by eexists.
  - rewrite !Forall_cons. split_and!; [apply scalar_typed..|constructor].
Qed.
Lemma map_typed {A} {B} (P : B -> Prop) (f : A -> B) l : (forall x, P (f x)) -> Forall P (map f l).
Proof. intros H. apply Forall_fmap, Forall_true. exact H. Qed.
Lemma empty_text : a_text (Some []).
Proof. by exists []. Qed.
Lemma literal_text s : trim (lit s) = lit s -> a_text (Some (lit s)).
Proof. by exists (lit s). Qed.
Create HintDb normal_types.
#[local] Hint Resolve string_optional string_text empty_text type_ref_typed at_least_typed map_typed Forall_cons_2 Forall_nil_2 : normal_types.
#[local] Hint Extern 1 (_ /\ _) => split : normal_types.
#[local] Hint Extern 1 (a_text (Some (lit _))) => by apply literal_text : normal_types.
Ltac all_typed := constructor; cbn -[at_least normalizeString surfaces texts]; auto 12 with normal_types.

Lemma set_typed s : typed_set (normalizeAcceptedTypeSet s).
Proof. all_typed. Qed.
#[local] Hint Resolve set_typed : normal_types.
Lemma port_typed p : typed_port (normalizePort p).
Proof. all_typed. Qed.
#[local] Hint Resolve port_typed : normal_types.
Lemma method_typed m : typed_method (normalizeMethod m).
Proof. all_typed. apply string_text. by exists DRAIN_UNTIL_YIELD. Qed.
Lemma interface_typed {X} (i : interface X) : typed_interface (normalizeExternalInterface i).
Proof. all_typed. split; [auto with normal_types|]. apply string_text. by exists BIDIRECTIONAL. Qed.
#[local] Hint Resolve method_typed interface_typed : normal_types.
Lemma surfaces_typed l : Forall (fun v => v = Some DIRECT \/ v = Some COMMAND) (surfaces l).
Proof.
  apply Forall_forall. intros v Hv. apply list_elem_of_In, filter_In in Hv as [Hv Hs]. apply in_map_iff in Hv as (u & Hu & _).
  destruct v as [s|]; [|done]. destruct (surface_fixed _ _ Hu) as [_ [-> | ->]]; auto.
Qed.
Lemma texts_typed l : Forall (fun v => v <> None /\ optional_text v) (texts l).
Proof.
  apply Forall_forall. intros v Hv. apply list_elem_of_In, filter_In in Hv as [Hv Hs]. apply in_map_iff in Hv as (u & <- & _).
  split; [by destruct (normalizeString u None)|apply string_optional].
Qed.

(** A normalised manifest has the types its users rely on, whatever the caller wrote in a manifest whose entries are objects: ids, symbols and policies are
    trimmed texts, every other text (names, versions, descriptions, the fields of interfaces, type sets and type references) is absent or trimmed and
    not empty, stream limits and batch sizes are numbers that are not below their least value, schema hashes are arrays, invoke surfaces are "direct" or
    "command"; and normalising it again changes nothing. *)
Theorem normalized_manifest_typed {X} (m : manifest X) :
  typed_manifest (normalizeManifest m) /\ normalizeManifest (normalizeManifest m) = normalizeManifest m.
Proof.
  split; [|apply manifest_fixed]. all_typed; [|by eexists|apply surfaces_typed|apply texts_typed].
  split; apply string_text; by eexists.
Qed.

(** Normalising a program or a frame again changes nothing either. *)
Theorem normal_forms_are_fixed {X} (p : program X) (f : frame X) d :
  normalizeString d d = d ->
  normalizeProgram (normalizeProgram p) = normalizeProgram p /\ normalizeFrame (normalizeFrame f d) d = normalizeFrame f d.
Proof. intros Hd. split; [apply program_fixed|by apply frame_fixed]. Qed.
