(* ===== verification/MethodInvoke.v ===== *)
(** Invoking a registered method (src/flow/vendor/sdn-flow/MethodRegistry.js, [invoke]): the frames of a
    call are normalised, grouped by port and checked against the ports the method declares, the handler
    is called, and its output frames get their ports and, inside a host, an explicit wire format.

    A handler is a function from the request to what it resolves to or throws. Text fields of normal
    manifests are never absent, so they are read with the empty text as default. *)
From Stdlib Require Import ZArith QArith Lia.
From stdpp Require Import base list sets strings numbers.
From S2P Require Import Prelude JsText JsMap JsNumber TypeRefs MethodRegistry FlowNormalize.
Open Scope Z_scope.

Definition text (v : option jsstring) : jsstring := default [] v.

(** ** Registered manifests *)

(** The normal form of a manifest as the registry keeps it. *)
Definition registry_method (m : method) : method_def port method :=
  MethodDef (text (methodId m)) (map (fun p => (text (portId p), p)) (inputPorts m))
    (map (fun p => (text (portId p), p)) (outputPorts m)) m.
Definition registry_manifest {X} (m : manifest X) : MethodRegistry.manifest port method (manifest X) :=
  let m := normalizeManifest m in MethodRegistry.Manifest (text (pluginId m)) (map registry_method (methods m)) m.

Definition INTERNAL_ALIGNED_BINARY_EXCEPTION_INTERFACE_KINDS : list jsstring :=
  map lit ["filesystem"; "database"; "host-service"; "network"; "tcp"; "udp"; "tls"; "websocket"; "mqtt"]%string.
Definition INTERNAL_ALIGNED_BINARY_EXCEPTION_CAPABILITIES : list jsstring :=
  map lit ["filesystem"; "network"; "storage_query"; "storage_write"; "storage_adapter"]%string.

Definition methodUsesExternalTransportException {X} (m : manifest X) : bool :=
  existsb (fun c => existsb (str_eqb c) INTERNAL_ALIGNED_BINARY_EXCEPTION_CAPABILITIES) (capabilities m) ||
  existsb (fun i => match if_kind i with Some k => existsb (str_eqb k) INTERNAL_ALIGNED_BINARY_EXCEPTION_INTERFACE_KINDS | None => false end)
    (externalInterfaces m).

(** ** Type references of frames *)

(** [None] is a value that is no object. *)
Definition hasMeaningfulTypeRef (t : option raw_ref) : bool :=
  match t with
  | None => false
  | Some _ =>
      let n := clonePayloadTypeRef t in
      acceptsAnyFlatbuffer n || bool_decide (schemaName n <> None) || bool_decide (fileIdentifier n <> None) ||
      match schemaHash n with HashArray (_ :: _) => true | _ => false end
  end.

Definition cloneTypeRefWithoutWireFormat (t : option raw_ref) : type_ref :=
  let n := clonePayloadTypeRef t in
  TypeRef (schemaName n) (fileIdentifier n) (schemaVersion n) (schemaHash n) (acceptsAnyFlatbuffer n) None None Undefined Undefined Undefined.

Definition set_wire (t : type_ref) (alignment : scalar) : type_ref :=
  TypeRef (schemaName t) (fileIdentifier t) (schemaVersion t) (schemaHash t) (acceptsAnyFlatbuffer t) (Some AlignedBinary) (rootTypeName t)
    (fixedStringLength t) (byteLength t) alignment.

Section invoke.
(** What frames carry, and the objects manifests copy. *)
Context {Y X : Type}.

(** [Number(frame.alignment ?? 8)] as an alignment, when it is a positive number. *)
Definition frame_alignment (f : frame Y) : scalar :=
  match number_or 8 (alignment f) with
  | Fin q => if 0 <? Qnum q then Numeric (inject_Z (Z.max 1 (q_trunc q))) else Undefined
  | _ => Undefined
  end.

Definition coerceImplicitAlignedBinaryTypeRef (t : option raw_ref) (f : frame Y) (preferred : option raw_ref) : type_ref :=
  let base := if hasMeaningfulTypeRef t then clonePayloadTypeRef t
              else if hasMeaningfulTypeRef preferred then clonePayloadTypeRef preferred else clonePayloadTypeRef t in
  if bool_decide (wireFormat base <> None) || negb (hasMeaningfulTypeRef (Some (raw_of base))) then base
  else set_wire base (match requiredAlignment base with Undefined => frame_alignment f | a => a end).

Definition set_typeRef (f : frame Y) (t : raw_ref) : frame Y :=
  Frame (Some t) (f_portId f) (alignment f) (offset f) (size f) (ownership f) (generation f) (mutability f) (streamId f) (carried f).
Definition set_portId (f : frame Y) (p : jsstring) : frame Y :=
  Frame (typeRef f) (Some p) (alignment f) (offset f) (size f) (ownership f) (generation f) (mutability f) (streamId f) (carried f).

Definition applyInternalTransportDefaultsToInputs (frames : list (frame Y)) : list (frame Y) :=
  map (fun f => set_typeRef f (raw_of (coerceImplicitAlignedBinaryTypeRef (typeRef f) f None))) frames.

(** ** Ports *)

(** A frame whose port is missing or the empty text is refused. *)
Fixpoint groupFramesByPort (frames : list (frame Y)) (grouped : list (jsstring * list (frame Y))) : result (list (jsstring * list (frame Y))) :=
  match frames with
  | [] => Ok grouped
  | f :: rest =>
      let p := text (f_portId f) in
      throw_if bool_decide (p = []) with Error "Flow frame is missing portId.";
      groupFramesByPort rest (map_set grouped p (default [] (map_get grouped p) ++ [f]))
  end.

(** Numbers in a [Set]: NaN is the same as itself. *)
Definition same_number (a b : jsnum) : bool :=
  match a, b with
  | NaN, NaN | PosInf, PosInf | NegInf, NegInf => true
  | Fin p, Fin q => Qeq_bool p q
  | _, _ => false
  end.
Definition stream_of (f : frame Y) : jsnum := number_or 0 (streamId f).
Definition countDistinctStreams (frames : list (frame Y)) : Z :=
  blen (fold_left (fun seen f => if existsb (same_number (stream_of f)) seen then seen else seen ++ [stream_of f]) frames []).

Definition typeMatches (accepted actual : option raw_ref) : bool :=
  payloadTypeRefsMatch (clonePayloadTypeRef accepted) (clonePayloadTypeRef actual).

Definition portAcceptsFrame (p : port) (f : frame Y) (internalTransport : bool) : bool :=
  bool_decide (acceptedTypeSets p = []) ||
  existsb (fun s => existsb (fun t =>
    typeMatches (Some t) (typeRef f) ||
    (internalTransport && typeMatches (Some (raw_of (cloneTypeRefWithoutWireFormat (Some t)))) (Some (raw_of (cloneTypeRefWithoutWireFormat (typeRef f))))))
    (allowedTypes s)) (acceptedTypeSets p).

(** [n < limit] and [limit > 0 && n > limit]; nothing compares with NaN. *)
Definition below_limit (n : Z) (limit : raw_scalar) : bool :=
  match limit with ScalarNum (Fin q) => negb (Qle_bool q (inject_Z n)) | ScalarNum PosInf => true | _ => false end.
Definition above_limit (n : Z) (limit : raw_scalar) : bool :=
  match limit with ScalarNum (Fin q) => (0 <? Qnum q) && negb (Qle_bool (inject_Z n) q) | _ => false end.

Definition check_port (internalTransport : bool) (p : port) (frames : list (frame Y)) : result unit :=
  throw_if required p && bool_decide (frames = []) with Error "Method requires input port.";
  if bool_decide (frames = []) then Ok tt
  else
    let distinctStreams := countDistinctStreams frames in
    throw_if below_limit distinctStreams (minStreams p) with Error "Input port requires at least streams.";
    throw_if above_limit distinctStreams (maxStreams p) with Error "Input port allows at most streams.";
    throw_if negb (forallb (fun f => portAcceptsFrame p f internalTransport) frames) with Error "Input port rejected frame type.";
    Ok tt.

Fixpoint check_ports (internalTransport : bool) (ports : list (jsstring * port)) (grouped : list (jsstring * list (frame Y))) : result unit :=
  match ports with
  | [] => Ok tt
  | (id, p) :: rest =>
      let! _ := check_port internalTransport p (default [] (map_get grouped id)) in check_ports internalTransport rest grouped
  end.

(** ** Responses *)

Record response := Response {
  outputs : list (frame Y); backlogRemaining : raw_scalar; yielded : bool; errorCode : raw_scalar; errorMessage : option jsstring
}.
Definition no_response : response := Response [] ScalarAbsent false ScalarAbsent None.

Record reply := Reply { r_outputs : list (frame Y); r_backlog : jsnum; r_yielded : bool; r_errorCode : jsnum; r_errorMessage : option jsstring }.

Definition hydrate_port (ports : list port) (f : frame Y) : frame Y :=
  match ports with
  | [only] => if bool_decide (text (f_portId f) = []) then set_portId f (text (portId only)) else f
  | _ => f
  end.

(** The reference a port prefers, as an object. *)
Definition preferred_ref (ports : list port) (f : frame Y) : option raw_ref :=
  match map_get (buildPortMap (map (fun p => (text (portId p), p)) ports)) (text (f_portId f)) with
  | Some p => Some (raw_of (selectPreferredPayloadTypeRef (map (fun s => map Some (allowedTypes s)) (acceptedTypeSets p)) (WireText (lit "aligned-binary"))))
  | None => None
  end.
Definition hydrate_type (ports : list port) (f : frame Y) : frame Y :=
  set_typeRef f (raw_of (coerceImplicitAlignedBinaryTypeRef (typeRef f) f (preferred_ref ports f))).

Definition hydrateOutputPorts (r : response) (m : method) (outputStreamCap : Z) (internalTransport exceptionPlugin : bool) : result reply :=
  throw_if (0 <? outputStreamCap) && (outputStreamCap <? blen (outputs r)) with Error "Method produced too many output frames.";
  let frames := map (hydrate_port (outputPorts m)) (outputs r) in
  throw_if existsb (fun f => bool_decide (text (f_portId f) = [])) frames with Error "Method produced a frame without portId.";
  let frames := if internalTransport && negb exceptionPlugin then map (hydrate_type (outputPorts m)) frames else frames in
  Ok (Reply frames (number_or 0 (backlogRemaining r)) (yielded r) (number_or 0 (errorCode r)) (errorMessage r)).

(** ** Invocation *)

Record request := Request {
  q_pluginId : jsstring; q_methodId : jsstring; q_method : method; q_inputs : list (frame Y);
  q_inputsByPort : list (jsstring * list (frame Y)); q_outputStreamCap : Z; q_drainPolicy : option jsstring
}.
Abbreviation handler := (request -> result (option response)).
Abbreviation entry := (@descriptor port method (manifest X) handler unit).

(** The frames of a call as the handler gets them. *)
Definition adapted (d : entry) (inputs : list (frame Y)) (internalTransport : bool) : list (frame Y) :=
  let normalized := map (fun f => normalizeFrame f None) inputs in
  if internalTransport && negb (methodUsesExternalTransportException (manifest_rest (d_manifest d)))
  then applyInternalTransportDefaultsToInputs normalized else normalized.

(** The checks in front of the handler. *)
Definition check_call (d : entry) (pid mid : jsstring) (inputs : list (frame Y)) (outputStreamCap : Z) (policy : option jsstring)
    (internalTransport : bool) : result request :=
  let frames := adapted d inputs internalTransport in
  let! grouped := groupFramesByPort frames [] in
  let! _ := check_ports internalTransport (d_inputPorts d) grouped in
  throw_if existsb (fun id => negb (map_has (d_inputPorts d) id)) (map_keys grouped) with Error "Method does not declare input port.";
  let requested := match policy with Some p => Some p
                   | None => match drainPolicy (method_rest (d_method d)) with Some p => Some p | None => Some DRAIN_UNTIL_YIELD end end in
  Ok (Request pid mid (method_rest (d_method d)) frames grouped outputStreamCap requested).

Definition invoke_method (d : entry) (pid mid : jsstring) (inputs : list (frame Y)) (outputStreamCap : Z) (policy : option jsstring)
    (internalTransport : bool) : result reply :=
  let! q := check_call d pid mid inputs outputStreamCap policy internalTransport in
  let! r := d_handler d q in
  hydrateOutputPorts (default no_response r) (method_rest (d_method d)) outputStreamCap internalTransport
    (methodUsesExternalTransportException (manifest_rest (d_manifest d))).

Definition invoke (reg : registry port method (manifest X) handler unit) (pid mid : jsstring) (inputs : list (frame Y))
    (outputStreamCap : Z) (policy : option jsstring) (internalTransport : bool) : result reply :=
  match getMethod reg pid mid with
  | None => Throw (Error "Unknown method.")
  | Some d => invoke_method d pid mid inputs outputStreamCap policy internalTransport
  end.

(** ** What is admitted *)

(** The frames of a call for one port, in their order. *)
Definition frames_of (id : jsstring) (frames : list (frame Y)) : list (frame Y) :=
  List.filter (fun f => str_eqb (text (f_portId f)) id) frames.

Lemma group_spec frames : forall grouped,
  match groupFramesByPort frames grouped with
  | Ok res => Forall (fun f => text (f_portId f) <> []) frames /\
      (forall id, default [] (map_get res id) = default [] (map_get grouped id) ++ frames_of id frames) /\
      (forall id, In id (map_keys res) <-> In id (map_keys grouped) \/ exists f, f ∈ frames /\ text (f_portId f) = id)
  | Throw _ => ~ Forall (fun f => text (f_portId f) <> []) frames
  end.
Proof.
  induction frames as [|f frames IH]; intros grouped; cbn [groupFramesByPort].
  { split_and!; [constructor|intros id; by rewrite app_nil_r|]. intros id. set_solver. }
  case_bool_decide as Hf; [by intros [? _]%list.Forall_cons|].
  set (p := text (f_portId f)) in *. specialize (IH (map_set grouped p (default [] (map_get grouped p) ++ [f]))).
  destruct (groupFramesByPort frames _) as [res|e]; [|by intros [_ ?]%list.Forall_cons].
  destruct IH as (Hall & Hget & Hkeys). split_and!; [by constructor| |].
  - intros id. rewrite Hget, map_get_set. unfold frames_of. cbn [List.filter]. fold p.
    destruct (decide (p = id)) as [<-|Hne].
    + rewrite (proj2 (str_eqb_eq p p) eq_refl). cbn. by rewrite <- app_assoc.
    + destruct (str_eqb p id) eqn:Ep; [by apply str_eqb_eq in Ep|done].
  - intros id. rewrite Hkeys, map_keys_set. unfold map_has.
    assert (Hin : In p (map_keys grouped) <-> is_Some (map_get grouped p)).
    { split; [|intros [v Hv]; apply map_get_In in Hv; by apply (in_map fst) in Hv].
      intros Hp. destruct (map_get grouped p) eqn:E; [by eexists|]. exfalso. by apply (map_get_None grouped p) in E. }
    destruct (map_get grouped p) eqn:E; rewrite ?in_app_iff; cbn [In]; split.
    + intros [?|(g & Hg & <-)]; [by left|right]. exists g. split; [set_solver|done].
    + intros [?|(g & [->|Hg]%elem_of_cons & <-)]; [by left| |right; eauto]. left. apply Hin. by eexists.
    + intros [[?|[<-|[]]]|(g & Hg & <-)]; [by left|right; exists f; set_solver|right; exists g; set_solver].
    + intros [?|(g & [->|Hg]%elem_of_cons & <-)]; [by left; left|left; right; by left|right; eauto].
Qed.

(** The limits of a port on its number of streams. *)
Definition streams_ok (p : port) (n : Z) : Prop := below_limit n (minStreams p) = false /\ above_limit n (maxStreams p) = false.

(** A call fits a method: each frame names a declared port; each declared port has frames if it is
    required, and if it has any, their streams are within its limits and it accepts their types. *)
Definition admissible (d : entry) (internalTransport : bool) (frames : list (frame Y)) : Prop :=
  Forall (fun f => text (f_portId f) <> [] /\ map_has (d_inputPorts d) (text (f_portId f)) = true) frames /\
  forall id p, In (id, p) (d_inputPorts d) ->
    (required p = true -> frames_of id frames <> []) /\
    (frames_of id frames <> [] -> streams_ok p (countDistinctStreams (frames_of id frames)) /\
       Forall (fun f => portAcceptsFrame p f internalTransport = true) (frames_of id frames)).

Lemma forallb_Forall {A} (g : A -> bool) l : forallb g l = true <-> Forall (fun x => g x = true) l.
Proof. rewrite forallb_forall, list.Forall_forall. by setoid_rewrite list_elem_of_In. Qed.

Lemma check_port_spec internalTransport p frames :
  is_ok (check_port internalTransport p frames) = true <->
  (required p = true -> frames <> []) /\
  (frames <> [] -> streams_ok p (countDistinctStreams frames) /\ Forall (fun f => portAcceptsFrame p f internalTransport = true) frames).
Proof.
  unfold check_port, streams_ok. case_bool_decide as Hf; cbn [andb]; rewrite ?andb_true_r, ?andb_false_r.
  - destruct (required p); cbn; split; [done|intros [H _]; by destruct H|split; [done|by intros ?]|done].
  - destruct (below_limit _ _); cbn; [split; [done|intros [_ H]; by destruct (H Hf) as [[? _] _]]|].
    destruct (above_limit _ _); cbn; [split; [done|intros [_ H]; by destruct (H Hf) as [[_ ?] _]]|].
    rewrite <- forallb_Forall. destruct (forallb _ frames) eqn:E; cbn; [|split; [done|intros [_ H]; by destruct (H Hf)]].
    split; [|done]. intros _. split; [done|]. intros _. by split.
Qed.

Lemma check_ports_spec internalTransport grouped ports :
  is_ok (check_ports internalTransport ports grouped) = true <->
  forall id p, In (id, p) ports -> is_ok (check_port internalTransport p (default [] (map_get grouped id))) = true.
Proof.
  induction ports as [|[id p] ports IH]; cbn [check_ports]; [split; [by intros _ ? ? []|done]|].
  destruct (check_port internalTransport p _) as [[]|e] eqn:E; cbn [rbind].
  - rewrite IH. split.
    + intros H i q [[= <- <-]|Hin]; [by rewrite E|by apply H].
    + intros H i q Hin. apply H. by right.
  - split; [done|]. intros H. specialize (H id p ltac:(by left)). by rewrite E in H.
Qed.

Lemma admit_spec d pid mid inputs cap policy internalTransport :
  is_ok (check_call d pid mid inputs cap policy internalTransport) = true <-> admissible d internalTransport (adapted d inputs internalTransport).
Proof.
  unfold check_call, admissible. cbv zeta. set (frames := adapted d inputs internalTransport).
  pose proof (group_spec frames []) as Hg. destruct (groupFramesByPort frames []) as [grouped|e]; cbn [rbind].
  - destruct Hg as (Hall & Hget & Hkeys).
    assert (Hports : is_ok (check_ports internalTransport (d_inputPorts d) grouped) = true <->
      forall id p, In (id, p) (d_inputPorts d) -> (required p = true -> frames_of id frames <> []) /\
        (frames_of id frames <> [] -> streams_ok p (countDistinctStreams (frames_of id frames)) /\
          Forall (fun f => portAcceptsFrame p f internalTransport = true) (frames_of id frames))).
    { rewrite check_ports_spec. split; intros H id p Hin; specialize (H id p Hin).
      - apply check_port_spec in H. by rewrite Hget in H.
      - apply check_port_spec. by rewrite Hget. }
    destruct (check_ports _ _ _) as [[]|e]; cbn [rbind is_ok] in *; [|split; [done|intros [_ H]; by apply Hports]].
    destruct (existsb _ (map_keys grouped)) eqn:Ex; cbn [is_ok].
    + split; [done|]. intros [Hd _]. apply existsb_exists in Ex as (id & Hid & Hno). apply Hkeys in Hid as [[]|(f & Hf & <-)].
      rewrite list.Forall_forall in Hd. apply Hd in Hf as [_ Hf]. by rewrite Hf in Hno.
    + split; [|done]. intros _. split; [|by apply Hports]. rewrite list.Forall_forall in Hall |- *. intros f Hf. split; [by apply Hall|].
      destruct (map_has (d_inputPorts d) (text (f_portId f))) eqn:Em; [done|]. exfalso.
      assert (existsb (fun id => negb (map_has (d_inputPorts d) id)) (map_keys grouped) = true); [|congruence].
      apply existsb_exists. exists (text (f_portId f)). split; [apply Hkeys; right; eauto|by rewrite Em].
  - split; [done|]. intros [Hd _]. exfalso. apply Hg. eapply list.Forall_impl; [exact Hd|]. naive_solver.
Qed.

Definition with_handler (d : entry) (h : handler) : entry :=
  Descriptor (d_pluginId d) (d_manifest d) (d_method d) h (d_plugin d) (d_inputPorts d) (d_outputPorts d).

(** C32. A method is called exactly with the inputs it declares: an unknown method is refused; if every frame
    names a declared port, every required port has a frame, and each port's frames keep its limits on streams
    and its accepted types, the handler is called with the adapted frames grouped by port in their order;
    otherwise the call fails with an error that does not depend on the handler. *)
Theorem invoke_admits_exactly reg pid mid inputs cap policy internalTransport :
  match getMethod reg pid mid with
  | None => invoke reg pid mid inputs cap policy internalTransport = Throw (Error "Unknown method.")
  | Some d =>
      let frames := adapted d inputs internalTransport in
      (admissible d internalTransport frames ->
         exists q, q_inputs q = frames /\ (forall id, default [] (map_get (q_inputsByPort q) id) = frames_of id frames) /\
           invoke reg pid mid inputs cap policy internalTransport =
           (let! r := d_handler d q in hydrateOutputPorts (default no_response r) (method_rest (d_method d)) cap internalTransport
                                         (methodUsesExternalTransportException (manifest_rest (d_manifest d))))) /\
      (~ admissible d internalTransport frames ->
         exists e, forall h, invoke_method (with_handler d h) pid mid inputs cap policy internalTransport = Throw e)
  end.
Proof.
  unfold invoke. destruct (getMethod reg pid mid) as [d|]; [|done]. cbv zeta.
  pose proof (admit_spec d pid mid inputs cap policy internalTransport) as Ha. split; intros Hadm.
  - destruct (check_call d pid mid inputs cap policy internalTransport) as [q|e] eqn:E; [|by apply Ha in Hadm].
    exists q. unfold invoke_method. rewrite E. unfold check_call in E. cbv zeta in E.
    pose proof (group_spec (adapted d inputs internalTransport) []) as Hg. destruct (groupFramesByPort _ []) as [g|]; [|done]. cbn [rbind] in E.
    destruct (check_ports _ _ _); [|done]. cbn [rbind] in E. destruct (existsb _ _); [done|]. injection E as <-.
    split_and!; [done| |done]. cbn [q_inputsByPort]. intros id. by destruct Hg as (_ & Hg & _).
  - destruct (check_call d pid mid inputs cap policy internalTransport) as [q|e] eqn:E; [exfalso; by apply Hadm, Ha|].
    exists e. intros h. unfold invoke_method. change (check_call (with_handler d h)) with (check_call d). by rewrite E.
Qed.

(** ** What is returned *)

(** A reference that says something has a wire format of its own. *)
Definition wire_is_explicit (f : frame Y) : Prop :=
  hasMeaningfulTypeRef (typeRef f) = true -> wireFormat (clonePayloadTypeRef (typeRef f)) <> None.

Lemma coerce_explicit f p : wire_is_explicit (set_typeRef f (raw_of (coerceImplicitAlignedBinaryTypeRef (typeRef f) f p))).
Proof.
  unfold wire_is_explicit. cbn [set_typeRef typeRef]. intros Hm.
  unfold coerceImplicitAlignedBinaryTypeRef in *. cbv zeta in *.
  set (base := if hasMeaningfulTypeRef (typeRef f) then _ else _) in *.
  assert (Hb : exists v, base = clonePayloadTypeRef v) by (subst base; repeat case_match; by eexists).
  destruct Hb as [v Hv].
  case_bool_decide as Hw; cbn [orb] in *.
  - rewrite Hv, clone_type_ref_idempotent, <- Hv. exact Hw.
  - destruct (hasMeaningfulTypeRef (Some (raw_of base))) eqn:Eb; cbn [negb] in *; [|by rewrite Eb in Hm].
    by vm_compute.
Qed.

(** What a call returns can be routed: every output frame names a port, there are at most as many as
    the cap allows, and between modules of a host, unless the plugin is one that talks to the outside, a
    frame whose type says anything says its wire format; the same holds of the frames the handler got. *)
Theorem invoke_outputs_routable (d : entry) pid mid inputs cap policy internalTransport r :
  invoke_method d pid mid inputs cap policy internalTransport = Ok r ->
  Forall (fun f => text (f_portId f) <> []) (r_outputs r) /\ (0 < cap -> blen (r_outputs r) <= cap) /\
  (internalTransport = true -> methodUsesExternalTransportException (manifest_rest (d_manifest d)) = false ->
     Forall wire_is_explicit (r_outputs r) /\ Forall wire_is_explicit (adapted d inputs internalTransport)).
Proof.
  unfold invoke_method. intros H. js_inv H. unfold hydrateOutputPorts in H.
  set (frames := map (hydrate_port _) _) in H. js_inv H. apply andb_false_iff in E1.
  assert (Hports : Forall (fun f => text (f_portId f) <> []) frames).
  { apply list.Forall_forall. intros f Hf Hp. assert (existsb (fun f => bool_decide (text (f_portId f) = [])) frames = true); [|congruence].
    apply existsb_exists. exists f. split; [by apply list_elem_of_In|by apply bool_decide_eq_true]. }
  assert (Hlen : List.length frames = List.length (outputs (default no_response x0))) by apply length_map.
  cbn [r_outputs]. split_and!.
  - destruct (_ && _); [|done]. apply Forall_fmap. eapply list.Forall_impl; [exact Hports|]. done.
  - intros Hcap. assert (blen (if internalTransport && negb (methodUsesExternalTransportException (manifest_rest (d_manifest d)))
      then map (hydrate_type (outputPorts (method_rest (d_method d)))) frames else frames) = blen frames) as ->.
    { destruct (_ && _); [|done]. unfold blen. by rewrite length_map. }
    unfold blen in *. rewrite Hlen. destruct E1 as [E1|E1]; lia.
  - intros -> Hx. unfold adapted. rewrite Hx. cbn [andb negb]. split; apply Forall_fmap, list.Forall_true; intros f.
    + apply coerce_explicit.
    + apply coerce_explicit.
Qed.
End invoke.

(** ** Concrete calls *)

Definition demo_ref (name version hash : string) : raw_ref :=
  RawRef (Some (lit name)) None (Some (lit version)) (HashText (lit hash)) false WireAbsent None ScalarAbsent ScalarAbsent ScalarAbsent.
Definition demo_port (id : string) (types : list raw_ref) : port :=
  Port (Some (lit id)) None (match types with [] => [] | _ => [TypeSet None types None] end) ScalarAbsent ScalarAbsent true None.
Definition demo_manifest : manifest unit :=
  Manifest (Some (lit " p ")) None None None
    [Method (Some (lit "run")) None [demo_port "in" [demo_ref "OMM" "2" "aa"]] [demo_port "out" []] ScalarAbsent None None]
    [] [] [] ScalarAbsent [] [] None None None None None.
Definition demo_frame (id : string) (t : raw_ref) : frame unit :=
  Frame (Some t) (Some (lit id)) ScalarAbsent ScalarAbsent ScalarAbsent None ScalarAbsent None ScalarAbsent tt.

(** A handler that sends its inputs on without saying where to. *)
Definition forward (q : @request unit) : result (option (@response unit)) :=
  Ok (Some (Response (map (fun f => set_portId f []) (q_inputs q)) ScalarAbsent false ScalarAbsent None)).
Definition demo_registry : registry port method (manifest unit) (@request unit -> result (option (@response unit))) unit :=
  (registerPlugin empty_registry (registry_manifest demo_manifest) (fun m => if str_eqb m (lit "run") then Some forward else None) None).2.
Definition demo_call (f : frame unit) : result (@reply unit) := invoke demo_registry (lit "p") (lit "run") [f] 1 None true.

(** A port that pins a schema version, or a schema hash given as text, does not check it: the normal form of a
    type reference has no version and keeps a hash only when it is an array, so a frame that the reference
    itself does not match is admitted. *)
Theorem pinned_version_and_hash_ignored :
  let pinned := demo_ref "OMM" "2" "aa" in
  let other := demo_ref "OMM" "1" "bb" in
  payloadTypeRefsMatch (clonePayloadTypeRef (Some pinned)) (clonePayloadTypeRef (Some other)) = false /\
  is_ok (demo_call (demo_frame "in" other)) = true.
Proof. by vm_compute. Qed.

Lemma invoke_admits_exactly_witness :
  is_ok (demo_call (demo_frame "in" (demo_ref "OMM" "2" "aa"))) = true /\
  is_ok (demo_call (demo_frame "in" (demo_ref "CDM" "2" "aa"))) = false /\
  is_ok (demo_call (demo_frame "elsewhere" (demo_ref "OMM" "2" "aa"))) = false /\
  exists d, getMethod demo_registry (lit "p") (lit "run") = Some d /\
    exists e, forall h, invoke_method (with_handler d h) (lit "p") (lit "run") [] 1 None true = Throw e.
Proof.
  split; [by vm_compute|]. split; [by vm_compute|]. split; [by vm_compute|].
  pose proof (invoke_admits_exactly demo_registry (lit "p") (lit "run") [] 1 None true) as H.
  destruct (getMethod demo_registry (lit "p") (lit "run")) as [d|] eqn:E; [|exfalso; vm_compute in E; discriminate E].
  exists d. split; [reflexivity|]. apply (proj2 H). intros [_ Hp].
  assert (Hin : exists p, In (lit "in", p) (d_inputPorts d) /\ required p = true).
  { vm_compute in E. injection E as <-. eexists. split; [left; reflexivity|reflexivity]. }
  destruct Hin as (p & Hp' & Hr). apply (proj1 (Hp _ _ Hp') Hr). unfold adapted. destruct (_ && _); reflexivity.
Defined.

Lemma invoke_outputs_routable_witness :
  exists d r, getMethod demo_registry (lit "p") (lit "run") = Some d /\
    invoke_method d (lit "p") (lit "run") [demo_frame "in" (demo_ref "OMM" "2" "aa")] 1 None true = Ok r /\
    Forall wire_is_explicit (r_outputs r) /\ map f_portId (r_outputs r) = [Some (lit "out")].
Proof.
  destruct (getMethod demo_registry (lit "p") (lit "run")) as [d|] eqn:E; [|exfalso; vm_compute in E; discriminate E].
  destruct (invoke_method d (lit "p") (lit "run") [demo_frame "in" (demo_ref "OMM" "2" "aa")] 1 None true) as [r|e] eqn:Er.
  - exists d, r. split; [reflexivity|]. split; [exact Er|].
    destruct (invoke_outputs_routable d (lit "p") (lit "run") _ 1 None true r Er) as (_ & _ & H). split.
    + apply H; [reflexivity|]. vm_compute in E. injection E as <-. vm_compute. reflexivity.
    + vm_compute in E. injection E as <-. vm_compute in Er. injection Er as <-. vm_compute. reflexivity.
  - exfalso. vm_compute in E. injection E as <-. vm_compute in Er. discriminate Er.
Defined.
