(* ===== verification/AccessGates.v ===== *)
(** The gates in front of a load and of a deployment: the runtime-target gate
    (src/host/runtimeTargetGate.js, over the capability tables of src/capabilities.js) and deployment
    authorizations (src/auth/permissions.js).

    The decoder of embedded manifests and the signature scheme are libraries: they are the class
    [PlgDecoder] and the arguments of [verifyAuthorization]. Texts are compared in lower case of their
    ASCII letters; no other unit lowers to a letter of a target's name alone. *)
From Stdlib Require Import ZArith QArith Lia.
From stdpp Require Import base list sets strings numbers.
From S2P Require Import Prelude JsText JsMap.
Open Scope Z_scope.

(** ** Runtime targets *)

Definition BrowserIncompatibleCapabilityIds : list jsstring :=
  map lit ["pipe"; "network"; "tcp"; "udp"; "mqtt"; "tls"; "database"; "storage_write"; "protocol_dial"; "protocol_handle";
           "process_exec"; "wallet_sign"; "ipfs"]%string.
Definition EngineHostedCapabilityIds : list jsstring := map lit ["scene_access"; "entity_access"; "render_hooks"]%string.
Definition WasmEdgeIncompatibleCapabilityIds : list jsstring := EngineHostedCapabilityIds.

Definition BROWSER : jsstring := lit "browser".
Definition WASMEDGE : jsstring := lit "wasmedge".
Definition WASI_PORTABILITY_TARGET : jsstring := lit "wasi".

Definition LegIncompatibleCapabilityIds (leg : jsstring) : option (list jsstring) :=
  if str_eqb leg BROWSER then Some BrowserIncompatibleCapabilityIds
  else if str_eqb leg WASMEDGE then Some WasmEdgeIncompatibleCapabilityIds else None.
Definition LEG_SATISFYING_TARGETS (leg : jsstring) : option (list jsstring) :=
  if str_eqb leg BROWSER then Some [BROWSER; WASI_PORTABILITY_TARGET]
  else if str_eqb leg WASMEDGE then Some [WASMEDGE; WASI_PORTABILITY_TARGET] else None.

Definition text_in (l : list jsstring) (s : jsstring) : bool := existsb (str_eqb s) l.

(** A manifest's declaration: its targets as they are written, and the ids of its capabilities; [None] is
    a field that is no array. *)
Record declaration := Declaration { runtimeTargets : option (list (option jsstring)); capabilities : option (list jsstring) }.

(** The order of the result is not looked at. *)
Definition legIncompatibleCapabilities (caps : option (list jsstring)) (leg : jsstring) : list jsstring :=
  match LegIncompatibleCapabilityIds leg, caps with
  | Some incompatible, Some caps => List.filter (text_in incompatible) caps
  | _, _ => []
  end.

Definition runtimeTargetSatisfies (targets : list jsstring) (leg : jsstring) (caps : option (list jsstring)) : bool :=
  if bool_decide (targets = []) then true
  else
    let accepted := default [leg] (LEG_SATISFYING_TARGETS leg) in
    if text_in targets leg then true
    else if negb (existsb (text_in accepted) targets) then false
    else text_in targets WASI_PORTABILITY_TARGET && bool_decide (legIncompatibleCapabilities caps leg = []).

Definition normalizedRuntimeTargets (manifest : option declaration) : list jsstring :=
  match manifest with
  | Some (Declaration (Some targets) _) =>
      List.filter (fun t => negb (bool_decide (t = []))) (map (fun t => map lower (trim (default [] t))) targets)
  | _ => []
  end.

(** What the gate asks of the manifest codec: is this a manifest, and what does it declare. *)
Class PlgDecoder := { isPlgManifestBuffer : list Z -> bool; decodePlgManifest : list Z -> option declaration }.

Section gate.
Context {plg : PlgDecoder}.

(** The manifest sections of a module in order: the first one that decodes wins. *)
Fixpoint embeddedPlgManifest (sections : list (list Z)) : option declaration :=
  match sections with
  | [] => None
  | s :: rest => if isPlgManifestBuffer s then match decodePlgManifest s with Some m => Some m | None => embeddedPlgManifest rest end
                 else embeddedPlgManifest rest
  end.

Inductive source := Embedded | Caller.

(** [sections] are those of the module, if there is one; [provided] is a manifest the caller has located. *)
Definition resolveRuntimeTargetRefusal (sections : option (list (list Z))) (manifest provided : option declaration) (leg : jsstring) :
    option (list jsstring * source) :=
  let embeddedManifest := match provided with Some m => Some m
                          | None => match sections with Some s => embeddedPlgManifest s | None => None end end in
  let caps (m : option declaration) := match m with Some d => capabilities d | None => None end in
  let embedded := normalizedRuntimeTargets embeddedManifest in
  if negb (runtimeTargetSatisfies embedded leg (caps embeddedManifest)) then Some (embedded, Embedded)
  else
    let caller := normalizedRuntimeTargets manifest in
    if negb (runtimeTargetSatisfies caller leg (caps manifest)) then Some (caller, Caller) else None.

Definition assertArtifactRuntimeTarget (sections : option (list (list Z))) (manifest provided : option declaration) (leg : jsstring) : result unit :=
  match resolveRuntimeTargetRefusal sections manifest provided leg with
  | None => Ok tt
  | Some _ => Throw (Error "Refusing to load a module that does not target this leg.")
  end.

(** A declaration names a target: an element of its list, in lower case and without outer white space, that is not blank. *)
Definition names_target (manifest : option declaration) (target : jsstring) : Prop :=
  exists d targets t, manifest = Some d /\ runtimeTargets d = Some targets /\ t ∈ targets /\ map lower (trim (default [] t)) = target /\ target <> [].

(** A declaration admits a leg: it names no target, or the leg, or the portability baseline with no
    capability that the leg cannot serve. *)
Definition admits (manifest : option declaration) (leg : jsstring) : Prop :=
  (forall t, ~ names_target manifest t) \/ names_target manifest leg \/
  (names_target manifest (lit "wasi") /\ (leg = lit "browser" \/ leg = lit "wasmedge") /\
   forall d caps cap, manifest = Some d -> capabilities d = Some caps -> cap ∈ caps ->
     ~ cap ∈ default [] (LegIncompatibleCapabilityIds leg)).

(** The artifact's own manifest: the one a caller has located in its bytes, else the first manifest section of the module that decodes. *)
Inductive own_manifest : option (list (list Z)) -> option declaration -> option declaration -> Prop :=
  | located sections m : own_manifest sections (Some m) (Some m)
  | first_decodable before x after m : isPlgManifestBuffer x = true -> decodePlgManifest x = Some m ->
      (forall y, y ∈ before -> isPlgManifestBuffer y = true -> decodePlgManifest y = None) -> own_manifest (Some (before ++ x :: after)) None (Some m)
  | none_decodes sections : (forall y, y ∈ sections -> isPlgManifestBuffer y = true -> decodePlgManifest y = None) -> own_manifest (Some sections) None None
  | no_module : own_manifest None None None.

Lemma embedded_spec sections m : own_manifest (Some sections) None m -> embeddedPlgManifest sections = m.
Proof.
  assert (Hskip : forall before rest, (forall y, y ∈ before -> isPlgManifestBuffer y = true -> decodePlgManifest y = None) ->
    embeddedPlgManifest (before ++ rest) = embeddedPlgManifest rest).
  { induction before as [|y before IH]; intros rest H; [done|]. cbn. rewrite IH by (intros z Hz; apply H; by right).
    destruct (isPlgManifestBuffer y) eqn:E; [|done]. by rewrite (H y ltac:(left) E). }
  inversion 1 as [|before x after m' Hx Hm Hb| |]; subst.
  - rewrite Hskip by done. cbn. by rewrite Hx, Hm.
  - rewrite <- (app_nil_r sections). by rewrite Hskip.
Qed.

Lemma targets_spec manifest t : t ∈ normalizedRuntimeTargets manifest <-> names_target manifest t.
Proof.
  unfold normalizedRuntimeTargets, names_target. split.
  - destruct manifest as [[[targets|] caps]|]; [|by intros ?%not_elem_of_nil..]. intros Ht%list_elem_of_In%filter_In. destruct Ht as [(r & Hr & Hin)%in_map_iff Hne].
    apply negb_true_iff, bool_decide_eq_false in Hne. exists (Declaration (Some targets) caps), targets, r. split_and!; try done. by apply list_elem_of_In.
  - intros (d & targets & r & -> & Hd & Hr & He & Hne). destruct d as [tg caps]. cbn in Hd. subst tg. apply list_elem_of_In, filter_In. split.
    + apply in_map_iff. exists r. split; [done|]. by apply list_elem_of_In.
    + by apply negb_true_iff, bool_decide_eq_false.
Qed.

Lemma text_in_spec l s : text_in l s = true <-> s ∈ l.
Proof.
  unfold text_in. rewrite existsb_exists. setoid_rewrite str_eqb_eq. rewrite list_elem_of_In.
  split; [by intros (x & Hx & ->)|eauto].
Qed.

Lemma incompatible_spec caps leg : legIncompatibleCapabilities caps leg = [] <->
  forall l cap, caps = Some l -> cap ∈ l -> ~ cap ∈ default [] (LegIncompatibleCapabilityIds leg).
Proof.
  unfold legIncompatibleCapabilities. destruct (LegIncompatibleCapabilityIds leg) as [bad|]; [|split; [set_solver|done]].
  destruct caps as [l|]; [|split; [by intros|done]]. cbn [default]. split.
  - intros H l' cap [= <-] Hin Hbad. assert (In cap (List.filter (text_in bad) l)) as Hf; [|by rewrite H in Hf].
    apply filter_In. split; [by apply list_elem_of_In|by apply text_in_spec].
  - intros H. destruct (List.filter (text_in bad) l) as [|c cs] eqn:E; [done|]. exfalso.
    assert (In c (List.filter (text_in bad) l)) as [Hin Hbad]%filter_In by (rewrite E; by left).
    eapply H; [done|by apply list_elem_of_In|by apply text_in_spec].
Qed.

(** The same with the list of the targets. *)
Lemma admits_list manifest leg : admits manifest leg <->
  let targets := normalizedRuntimeTargets manifest in
  targets = [] \/ leg ∈ targets \/
  (WASI_PORTABILITY_TARGET ∈ targets /\ (leg = BROWSER \/ leg = WASMEDGE) /\
   forall d caps cap, manifest = Some d -> capabilities d = Some caps -> cap ∈ caps -> ~ cap ∈ default [] (LegIncompatibleCapabilityIds leg)).
Proof.
  unfold admits, WASI_PORTABILITY_TARGET, BROWSER, WASMEDGE. cbv zeta. rewrite !targets_spec.
  assert (Hn : (forall t, ~ names_target manifest t) <-> normalizedRuntimeTargets manifest = []); [|by rewrite Hn].
  setoid_rewrite <- targets_spec. destruct (normalizedRuntimeTargets manifest) as [|x l]; split; try done; [intros _ t; apply not_elem_of_nil|].
  intros H. destruct (H x). left.
Qed.

Lemma satisfies_spec manifest leg :
  runtimeTargetSatisfies (normalizedRuntimeTargets manifest) leg (match manifest with Some d => capabilities d | None => None end) = true <->
  admits manifest leg.
Proof.
  rewrite admits_list. unfold runtimeTargetSatisfies. cbv zeta. set (targets := normalizedRuntimeTargets manifest).
  case_bool_decide as Ht; [by split; [left|]|].
  destruct (text_in targets leg) eqn:El; [apply text_in_spec in El; by split; [right; left|]|].
  assert (Hl : ~ leg ∈ targets) by (rewrite <- text_in_spec; congruence).
  assert (Hacc : existsb (text_in (default [leg] (LEG_SATISFYING_TARGETS leg))) targets = true /\ text_in targets WASI_PORTABILITY_TARGET = true <->
    WASI_PORTABILITY_TARGET ∈ targets /\ (leg = BROWSER \/ leg = WASMEDGE)).
  { rewrite existsb_exists, text_in_spec. setoid_rewrite text_in_spec. setoid_rewrite <- list_elem_of_In.
    unfold LEG_SATISFYING_TARGETS. destruct (str_eqb leg BROWSER) eqn:Eb; [apply str_eqb_eq in Eb|destruct (str_eqb leg WASMEDGE) eqn:Ew; [apply str_eqb_eq in Ew|]].
    - subst leg. cbn [default]. set_solver.
    - subst leg. cbn [default]. set_solver.
    - cbn [default]. split; [set_solver|]. intros [_ [-> | ->]]; [by vm_compute in Eb|by vm_compute in Ew]. }
  destruct (existsb _ targets) eqn:Ex; cbn [negb].
  - rewrite andb_true_iff, bool_decide_eq_true, incompatible_spec. split.
    + intros [Hw Hc]. right; right. apply proj1 in Hacc. destruct (Hacc (conj eq_refl Hw)) as [? ?]. split_and!; [done..|].
      intros d caps cap -> Hd Hin. by eapply Hc.
    + intros [?|[?|(Hw & Hleg & Hc)]]; [done..|]. split; [by apply text_in_spec|]. intros l cap Hl' Hin.
      destruct manifest as [d|]; [|done]. by eapply Hc.
  - split; [done|]. intros [?|[?|(Hw & Hleg & _)]]; [done..|]. apply proj2 in Hacc. by destruct (Hacc (conj Hw Hleg)).
Qed.

(** C35. The runtime-target gate refuses exactly the artifacts that do not admit its leg. The artifact's own manifest is the one the caller has located in its
    bytes, else the first manifest section of the module that decodes, else none; a load passes if and only if both this one and the manifest that
    the caller supplies admit the leg (one that is absent does). If the own manifest does not admit it, the refusal names its targets, whatever the
    caller supplies, else those of the supplied one. *)
Theorem gate_is_exact sections provided own manifest leg : own_manifest sections provided own ->
  (assertArtifactRuntimeTarget sections manifest provided leg = Ok tt <-> admits own leg /\ admits manifest leg) /\
  (~ admits own leg -> resolveRuntimeTargetRefusal sections manifest provided leg = Some (normalizedRuntimeTargets own, Embedded)) /\
  (admits own leg -> ~ admits manifest leg -> resolveRuntimeTargetRefusal sections manifest provided leg = Some (normalizedRuntimeTargets manifest, Caller)).
Proof.
  intros Ho.
  assert (E : match provided with Some m => Some m | None => match sections with Some s => embeddedPlgManifest s | None => None end end = own).
  { destruct Ho; [done|by apply embedded_spec, first_decodable|by apply embedded_spec, none_decodes|done]. }
  unfold assertArtifactRuntimeTarget, resolveRuntimeTargetRefusal. rewrite E. cbv zeta. rewrite <- !satisfies_spec.
  destruct (runtimeTargetSatisfies (normalizedRuntimeTargets own) _ _); cbn [negb]; [|naive_solver].
  destruct (runtimeTargetSatisfies _ leg _); cbn [negb]; naive_solver.
Qed.
End gate.

(** A decoder of one-byte manifests, and an artifact for the headless leg that a caller names_target for the
    browser. *)
Definition toy_decoder : PlgDecoder := {|
  isPlgManifestBuffer b := bool_decide (b <> []);
  decodePlgManifest b := if bool_decide (b = [1]) then Some (Declaration (Some [Some (lit " WasmEdge ")]) None)
                         else if bool_decide (b = [2]) then Some (Declaration (Some [Some (lit "wasi")]) (Some [lit "pipe"])) else None
|}.

Lemma gate_is_exact_witness :
  (let _ := toy_decoder in resolveRuntimeTargetRefusal (Some [[]; [7]; [1]]) (Some (Declaration (Some [Some BROWSER]) None)) None BROWSER)
  = Some ([WASMEDGE], Embedded) /\
  (let _ := toy_decoder in assertArtifactRuntimeTarget (Some [[2]]) None None WASMEDGE) = Ok tt /\
  (let _ := toy_decoder in is_ok (assertArtifactRuntimeTarget (Some [[2]]) None None BROWSER)) = false.
Proof.
  split; [|split].
  - apply (proj1 (proj2 (@gate_is_exact toy_decoder (Some [[]; [7]; [1]]) None (Some (Declaration (Some [Some (lit " WasmEdge ")]) None))
      (Some (Declaration (Some [Some BROWSER]) None)) BROWSER (@first_decodable toy_decoder [[]; [7]] [1] [] _ eq_refl eq_refl
      ltac:(intros y Hy; repeat (apply elem_of_cons in Hy as [->|Hy]; [vm_compute; reflexivity || discriminate|]); by apply not_elem_of_nil in Hy))))).
    rewrite admits_list. vm_compute. intros [H|[H|[H _]]].
    + discriminate H.
    + apply list_elem_of_singleton in H. discriminate H.
    + apply list_elem_of_singleton in H. discriminate H.
  - apply (proj1 (@gate_is_exact toy_decoder (Some [[2]]) None (Some (Declaration (Some [Some (lit "wasi")]) (Some [lit "pipe"]))) None WASMEDGE
      (@first_decodable toy_decoder [] [2] [] _ eq_refl eq_refl ltac:(by intros y ?%not_elem_of_nil)))).
    rewrite !admits_list. split; [|left; reflexivity]. right; right.
    split; [vm_compute; left|]. split; [right; reflexivity|]. intros d caps cap [= <-] [= <-] Hc%list_elem_of_singleton.
    subst cap. vm_compute. intros Hin. repeat (apply elem_of_cons in Hin as [Hin|Hin]; [discriminate Hin|]). by apply not_elem_of_nil in Hin.
  - vm_compute. reflexivity.
Defined.

(** ** Deployment authorizations *)

Definition num_lt (a b : jsnum) : bool :=
  match a, b with
  | NaN, _ | _, NaN | PosInf, _ | _, NegInf => false
  | NegInf, _ | _, PosInf => true
  | Fin p, Fin q => negb (Qle_bool q p)
  end.
Definition num_plus (a b : jsnum) : jsnum :=
  match a, b with
  | NaN, _ | _, NaN | PosInf, NegInf | NegInf, PosInf => NaN
  | PosInf, _ | _, PosInf => PosInf
  | NegInf, _ | _, NegInf => NegInf
  | Fin p, Fin q => Fin (p + q)
  end.

Definition normalizeCapabilityList (caps : list (option jsstring)) : list jsstring :=
  List.filter (fun c => negb (bool_decide (c = []))) (map (fun c => trim (default [] c)) caps).

(** A target as a caller gives it: an address, or an object ([t_targetId] is the other spelling of its id). *)
Record target := Target { t_kind : jsstring; t_id : option jsstring; t_audience : option jsstring; t_url : option jsstring }.
Inductive raw_target := TargetUrl (url : jsstring) | TargetObject (kind id targetId audience url : option jsstring).

Definition normalizeTarget (t : raw_target) : target :=
  match t with
  | TargetUrl url => Target (lit "remote") None None (Some url)
  | TargetObject kind id targetId audience url =>
      Target (default (lit "remote") kind) (match id with Some i => Some i | None => targetId end) audience url
  end.

(** What an artifact says of itself; [None] is absent or null. *)
Record artifact := Artifact {
  artifactId : option jsstring; programId : option jsstring; graphHash : option jsstring; manifestHash : option jsstring;
  requiredCapabilities : option (list (option jsstring))
}.

Record payload := Payload {
  action : jsstring; p_artifactId : option jsstring; p_programId : option jsstring; p_graphHash : option jsstring;
  p_manifestHash : option jsstring; p_target : target; p_capabilities : list (option jsstring); issuedAt : option jsnum;
  expiresAt : option jsnum; nonce : jsstring
}.

(** The options that say again what the artifact says are used when it is silent; they are in [fallback].
    [expiresAt] is a sum of numbers of milliseconds. *)
Definition createDeploymentAuthorization (a fallback : artifact) (t : raw_target) (caps : option (list (option jsstring)))
    (issued ttlMs : jsnum) (n : jsstring) : payload :=
  let or (x y : option jsstring) := match x with Some v => Some v | None => y end in
  Payload (lit "deploy-flow") (Some (trim (default [] (or (artifactId a) (artifactId fallback)))))
    (Some (trim (default [] (or (programId a) (programId fallback))))) (or (graphHash a) (graphHash fallback))
    (or (manifestHash a) (manifestHash fallback)) (normalizeTarget t)
    (map Some (normalizeCapabilityList (default (default [] (requiredCapabilities a)) caps))) (Some issued) (Some (num_plus issued ttlMs)) n.

(** [a && a !== b] *)
Definition mismatch (a b : option jsstring) : bool :=
  match a with None => false | Some [] => false | Some _ => bool_decide (b <> a) end.
(** [a && b && a !== b] *)
Definition differ (a b : option jsstring) : bool :=
  match a, b with Some (x :: s), Some (y :: t) => bool_decide (x :: s <> y :: t) | _, _ => false end.
Definition expired (p : payload) (now : jsnum) : bool := match expiresAt p with Some e => num_lt e now | None => false end.

Definition assertDeploymentAuthorization (p : option payload) (a : artifact) (t : raw_target) (required : list (option jsstring)) (now : jsnum) : result bool :=
  match p with
  | None => Throw (Error "Deployment authorization envelope is missing payload.")
  | Some p =>
      throw_if negb (str_eqb (action p) (lit "deploy-flow")) with Error "Unexpected authorization action.";
      throw_if expired p now with Error "Deployment authorization has expired.";
      throw_if mismatch (artifactId a) (p_artifactId p) with Error "Deployment authorization artifactId mismatch.";
      throw_if mismatch (programId a) (p_programId p) with Error "Deployment authorization programId mismatch.";
      throw_if mismatch (graphHash a) (p_graphHash p) with Error "Deployment authorization graphHash mismatch.";
      throw_if mismatch (manifestHash a) (p_manifestHash p) with Error "Deployment authorization manifestHash mismatch.";
      throw_if differ (t_id (normalizeTarget t)) (t_id (p_target p)) with Error "Deployment authorization target id mismatch.";
      throw_if differ (t_audience (normalizeTarget t)) (t_audience (p_target p)) with Error "Deployment authorization target audience mismatch.";
      throw_if negb (forallb (text_in (normalizeCapabilityList (p_capabilities p))) (normalizeCapabilityList required))
        with Error "Deployment authorization missing capability.";
      Ok true
  end.

(** An envelope's signature is checked over the canonical bytes of its payload. *)
Definition verifyAuthorization (canonicalBytes : payload -> list Z) (verify : list Z -> list Z -> bool) (hexToBytes : jsstring -> result (list Z))
    (p : option payload) (signatureHex : jsstring) (now : jsnum) : result bool :=
  match p with
  | None => Ok false
  | Some p =>
      if bool_decide (signatureHex = []) then Ok false
      else if expired p now then Ok false
      else let! signature := hexToBytes signatureHex in Ok (verify (canonicalBytes p) signature)
  end.

(** An artifact that says [v] of itself is the one the authorization was given for. *)
Definition bound_to (v granted : option jsstring) : Prop := v = None \/ v = Some [] \/ granted = v.

Lemma mismatch_spec a b : mismatch a b = false <-> bound_to a b.
Proof.
  unfold mismatch, bound_to. destruct a as [[|c s]|]; [naive_solver| |naive_solver].
  rewrite bool_decide_eq_false. split; [intros H; right; right; by apply dec_stable|naive_solver].
Qed.

(** The time [a] is before the time [b]; nothing is before or after what is no number. *)
Definition before (a b : jsnum) : Prop :=
  match a, b with
  | Fin p, Fin q => (p < q)%Q
  | NegInf, Fin _ | NegInf, PosInf | Fin _, PosInf => True
  | _, _ => False
  end.
(** Both sides state a text that is not empty, and not the same. *)
Definition conflict (a b : option jsstring) : Prop := exists s t, a = Some s /\ b = Some t /\ s <> [] /\ t <> [] /\ s <> t.
(** The id and the audience of the target that is deployed to; an address has none. *)
Definition stated_id (t : raw_target) : option jsstring :=
  match t with TargetObject _ (Some i) _ _ _ => Some i | TargetObject _ None targetId _ _ => targetId | TargetUrl _ => None end.
Definition stated_audience (t : raw_target) : option jsstring := match t with TargetObject _ _ _ audience _ => audience | TargetUrl _ => None end.

(** What an authorization has to cover. *)
Definition authorizes (p : payload) (a : artifact) (t : raw_target) (required : list (option jsstring)) (now : jsnum) : Prop :=
  action p = lit "deploy-flow" /\ (forall e, expiresAt p = Some e -> ~ before e now) /\
  bound_to (artifactId a) (p_artifactId p) /\ bound_to (programId a) (p_programId p) /\
  bound_to (graphHash a) (p_graphHash p) /\ bound_to (manifestHash a) (p_manifestHash p) /\
  ~ conflict (stated_id t) (t_id (p_target p)) /\ ~ conflict (stated_audience t) (t_audience (p_target p)) /\
  (forall c, c ∈ required -> trim (default [] c) <> [] -> exists g, g ∈ p_capabilities p /\ trim (default [] g) = trim (default [] c)).

Lemma num_lt_spec a b : num_lt a b = true <-> before a b.
Proof.
  destruct a, b; cbn; try done. rewrite negb_true_iff, <- not_true_iff_false, Qle_bool_iff. split; [apply Qnot_le_lt|apply Qlt_not_le].
Qed.
Lemma expired_spec p now : expired p now = false <-> forall e, expiresAt p = Some e -> ~ before e now.
Proof.
  unfold expired. destruct (expiresAt p) as [e|]; [|by split]. rewrite <- not_true_iff_false, num_lt_spec. split; [by intros H ? [= <-]|auto].
Qed.
Lemma differ_spec a b : differ a b = false <-> ~ conflict a b.
Proof.
  unfold conflict. rewrite <- not_true_iff_false. enough (differ a b = true <-> exists s t, a = Some s /\ b = Some t /\ s <> [] /\ t <> [] /\ s <> t) by tauto.
  unfold differ. split.
  - destruct a as [[|x s]|], b as [[|y t]|]; try done. rewrite bool_decide_eq_true. intros H. by exists (x :: s), (y :: t).
  - intros (s & t & -> & -> & Hs & Ht & H). destruct s, t; try done. by apply bool_decide_eq_true.
Qed.
Lemma stated_target t : t_id (normalizeTarget t) = stated_id t /\ t_audience (normalizeTarget t) = stated_audience t.
Proof. by destruct t as [|kind [i|] targetId audience url]. Qed.
Lemma normal_capability c l : c ∈ normalizeCapabilityList l <-> c <> [] /\ exists g, g ∈ l /\ trim (default [] g) = c.
Proof.
  unfold normalizeCapabilityList. rewrite list_elem_of_In, filter_In, in_map_iff, negb_true_iff, bool_decide_eq_false. setoid_rewrite list_elem_of_In. naive_solver.
Qed.
Lemma granted_spec l required :
  (forall c, c ∈ normalizeCapabilityList required -> c ∈ normalizeCapabilityList l) <->
  (forall c, c ∈ required -> trim (default [] c) <> [] -> exists g, g ∈ l /\ trim (default [] g) = trim (default [] c)).
Proof.
  setoid_rewrite normal_capability. split.
  - intros H c Hc Hne. destruct (H (trim (default [] c))) as [_ Hg]; [by eauto|done].
  - intros H c [Hne (r & Hr & <-)]. split; [done|]. by apply H.
Qed.

Lemma authorization_spec p a t required now :
  match assertDeploymentAuthorization (Some p) a t required now with
  | Ok r => r = true /\ authorizes p a t required now
  | Throw _ => ~ authorizes p a t required now
  end.
Proof.
  assert (Hc : forallb (text_in (normalizeCapabilityList (p_capabilities p))) (normalizeCapabilityList required) = true <->
    forall c, c ∈ normalizeCapabilityList required -> c ∈ normalizeCapabilityList (p_capabilities p)).
  { rewrite forallb_forall. setoid_rewrite text_in_spec. by setoid_rewrite <- list_elem_of_In. }
  assert (Ha : authorizes p a t required now <-> str_eqb (action p) (lit "deploy-flow") = true /\ expired p now = false /\
    mismatch (artifactId a) (p_artifactId p) = false /\ mismatch (programId a) (p_programId p) = false /\
    mismatch (graphHash a) (p_graphHash p) = false /\ mismatch (manifestHash a) (p_manifestHash p) = false /\
    differ (t_id (normalizeTarget t)) (t_id (p_target p)) = false /\ differ (t_audience (normalizeTarget t)) (t_audience (p_target p)) = false /\
    forallb (text_in (normalizeCapabilityList (p_capabilities p))) (normalizeCapabilityList required) = true).
  { unfold authorizes. destruct (stated_target t) as [-> ->]. by rewrite !mismatch_spec, str_eqb_eq, Hc, expired_spec, !differ_spec, granted_spec. }
  clear Hc. unfold assertDeploymentAuthorization.
  destruct (str_eqb _ _), (expired p now), (mismatch (artifactId a) _), (mismatch (programId a) _), (mismatch (graphHash a) _),
    (mismatch (manifestHash a) _), (differ (t_id _) _), (differ (t_audience _) _), (forallb _ _); cbn [negb];
    first [by rewrite Ha; intros (H1 & H2 & H3 & H4 & H5 & H6 & H7 & H8 & H9)|split; [done|by apply Ha]].
Qed.

(** C34. A deployment passes exactly with an authorization that covers it: the action is deploy-flow; the time of expiry, if it is a number, is not before now;
    each of the artifact's id, program, graph hash and manifest hash that the artifact states is the authorized one; target id and audience do not
    differ where both the authorization and the deployment state them; and every required capability that is not blank is granted, both without outer
    white space. In every other case the check throws. What a side leaves out is not compared, and the address of a target never is. *)
Theorem deployment_needs_authorization p a t required now :
  (authorizes p a t required now <-> assertDeploymentAuthorization (Some p) a t required now = Ok true) /\
  (~ authorizes p a t required now <-> exists e, assertDeploymentAuthorization (Some p) a t required now = Throw e) /\
  (forall a t required now, is_ok (assertDeploymentAuthorization None a t required now) = false).
Proof.
  pose proof (authorization_spec p a t required now) as H.
  destruct (assertDeploymentAuthorization (Some p) a t required now) as [r|e]; [destruct H as [-> H]|]; (split_and!; [| |done]).
  - done.
  - split; [done|by intros [? ?]].
  - split; [done|by intros ?].
  - split; [by exists e|done].
Qed.

(** A capability list that is normal stays as it is. *)
Lemma capabilities_fixed caps : normalizeCapabilityList (map Some (normalizeCapabilityList caps)) = normalizeCapabilityList caps.
Proof.
  unfold normalizeCapabilityList. induction caps as [|c caps IH]; [done|]. cbn [map List.filter].
  case_bool_decide as Hc; cbn [negb]; [exact IH|]. cbn [map List.filter].
  change (trim (default [] (Some (trim (default [] c))))) with (trim (trim (default [] c))). rewrite trim_trim.
  rewrite bool_decide_eq_false_2 by done. cbn [negb]. by rewrite IH.
Qed.

Lemma bound_trimmed (v : option jsstring) w : (forall s, v = Some s -> trim s = s) ->
  bound_to v (Some (trim (default [] (match v with Some s => Some s | None => w end)))).
Proof. intros Hv. destruct v as [s|]; [|by left]. right; right. change (Some (trim s) = Some s). by rewrite (Hv s). Qed.
Lemma differ_refl v : differ v v = false.
Proof. destruct v as [[|c s]|]; [done| |done]. cbn. apply bool_decide_eq_false. by intros []. Qed.

(** What is authorized can be deployed: an authorization created for an artifact, a target and a list of
    capabilities lets that artifact be deployed to that target with any of these capabilities, until it expires,
    provided the artifact's ids have no outer white space. *)
Theorem own_authorization_accepted a fallback t caps issued ttlMs n required now :
  (forall s, artifactId a = Some s -> trim s = s) -> (forall s, programId a = Some s -> trim s = s) ->
  num_lt (num_plus issued ttlMs) now = false ->
  (forall c, c ∈ normalizeCapabilityList required -> c ∈ normalizeCapabilityList (default (default [] (requiredCapabilities a)) caps)) ->
  assertDeploymentAuthorization (Some (createDeploymentAuthorization a fallback t caps issued ttlMs n)) a t required now = Ok true.
Proof.
  intros Ha Hp Hnow Hcaps. pose proof (authorization_spec (createDeploymentAuthorization a fallback t caps issued ttlMs n) a t required now) as H.
  destruct (assertDeploymentAuthorization _ _ _ _ _) as [r|e]; [by destruct H as [-> _]|]. exfalso. apply H. unfold authorizes.
  destruct (stated_target t) as [<- <-]. rewrite <- granted_spec, <- expired_spec, <- !differ_spec.
  cbn -[normalizeCapabilityList trim]. rewrite !differ_refl, capabilities_fixed. unfold expired. cbn [expiresAt].
  split_and!; try done.
  - by apply bound_trimmed.
  - by apply bound_trimmed.
  - unfold bound_to. destruct (graphHash a); auto.
  - unfold bound_to. destruct (manifestHash a); auto.
Qed.

(** An artifact whose id has outer white space cannot be deployed with the authorization created for it: the
    authorization has the trimmed id. *)
Theorem untrimmed_artifact_refused :
  let a := Artifact (Some (lit " flow-1 ")) None None None None in
  is_ok (assertDeploymentAuthorization
    (Some (createDeploymentAuthorization a a (TargetUrl (lit "https://a")) None (Fin 0) (Fin 300000) [])) a (TargetUrl (lit "https://a")) [] (Fin 1)) = false.
Proof. by vm_compute. Qed.

(** The address of a target is not compared: an authorization for one address is accepted at another. *)
Theorem target_url_not_checked :
  let a := Artifact (Some (lit "flow-1")) None None None None in
  assertDeploymentAuthorization
    (Some (createDeploymentAuthorization a a (TargetUrl (lit "https://a")) None (Fin 0) (Fin 300000) [])) a (TargetUrl (lit "https://b")) [] (Fin 1) = Ok true.
Proof. by vm_compute. Qed.

Definition demo_artifact : artifact := Artifact (Some (lit "flow-1")) (Some (lit "program")) (Some (lit "aa")) None (Some [Some (lit "network"); Some (lit " ")]).
Definition demo_payload : payload :=
  createDeploymentAuthorization demo_artifact demo_artifact (TargetObject None (Some (lit "node-1")) None None None) None (Fin 0) (Fin 300000) (lit "00").

Lemma own_authorization_accepted_witness :
  assertDeploymentAuthorization (Some demo_payload) demo_artifact (TargetObject None (Some (lit "node-1")) None None None) [Some (lit "network")] (Fin 300000) = Ok true.
Proof.
  apply (own_authorization_accepted demo_artifact demo_artifact (TargetObject None (Some (lit "node-1")) None None None) None (Fin 0) (Fin 300000) (lit "00")).
  - intros s [= <-]. vm_compute. reflexivity.
  - intros s [= <-]. vm_compute. reflexivity.
  - vm_compute. reflexivity.
  - intros c. vm_compute. exact (fun H => H).
Defined.

Lemma deployment_needs_authorization_witness :
  (exists e, assertDeploymentAuthorization (Some demo_payload) demo_artifact (TargetObject None (Some (lit "node-1")) None None None) [Some (lit "ipfs")] (Fin 1) = Throw e) /\
  (exists e, assertDeploymentAuthorization (Some demo_payload) demo_artifact (TargetObject None None (Some (lit "node-2")) None None) [] (Fin 1) = Throw e) /\
  (exists e, assertDeploymentAuthorization (Some demo_payload) demo_artifact (TargetObject None None None None None) [] (Fin 300001) = Throw e).
Proof.
  split; [|split]; (eapply (proj1 (proj1 (proj2 (deployment_needs_authorization demo_payload demo_artifact _ _ _))))).
  - intros (_ & _ & _ & _ & _ & _ & _ & _ & H). destruct (H (Some (lit "ipfs")) ltac:(left) ltac:(vm_compute; discriminate)) as (g & Hg & E).
    vm_compute in Hg. apply list_elem_of_singleton in Hg. subst g. vm_compute in E. discriminate E.
  - intros (_ & _ & _ & _ & _ & _ & H & _). apply H. exists (lit "node-2"), (lit "node-1"). split_and!; try reflexivity; vm_compute; discriminate.
  - intros (_ & H & _). apply (H (Fin 300000) eq_refl). vm_compute. reflexivity.
Defined.
