(* ===== verification/RegionStore.v ===== *)
(** The runtime region store (src/runtime-host/runtimeRegionStore.js).

    Regions of fixed-size records under ids handed out in order. An owned region holds its
    records; an external one only describes records that callbacks of the embedder give.
    The callbacks may depend on the embedder's state [W]. An operation returns its result
    and the store it leaves: a failed allocation has already consumed an id. Allocations
    are assumed to succeed, apart from the array length limit the code can hit. *)
From Stdlib Require Import ZArith QArith Lia.
From stdpp Require Import base list strings numbers.
From S2P Require Import Prelude JsText JsMap.
Open Scope Z_scope.

Definition normalizePositiveInteger (value : jsnum) (label : string) : result Z :=
  match as_integer value with
  | Some n => throw_if n <? 0 with TypeError (String.append label " must be a non-negative integer"); Ok n
  | None => Throw (TypeError (String.append label " must be a non-negative integer"))
  end.

Definition normalizeStrictlyPositiveInteger (value : jsnum) (label : string) : result Z :=
  match as_integer value with
  | Some n => throw_if n <=? 0 with TypeError (String.append label " must be a positive integer"); Ok n
  | None => Throw (TypeError (String.append label " must be a positive integer"))
  end.

(** A value that is a string, or anything else. *)
Definition normalizeRequiredString (value : option jsstring) (label : string) : result jsstring :=
  match value with
  | Some s => throw_if bool_decide (trim s = [])
                with TypeError (String.append label " must be a non-empty string"); Ok (trim s)
  | None => Throw (TypeError (String.append label " must be a non-empty string"))
  end.

(** A record given to the store: null or undefined, a buffer or view, or anything else. *)
Inductive record_value := NoRecord | RecordBytes (b : list Z) | NotBytes.

Definition toRecordBytes (value : record_value) (recordByteLength : Z) : result (list Z) :=
  match value with
  | NoRecord => Ok (repeat 0 (Z.to_nat recordByteLength))
  | RecordBytes b =>
      throw_if recordByteLength <? blen b with RangeError "record bytes exceed recordByteLength";
      Ok (b ++ repeat 0 (Z.to_nat (recordByteLength - blen b)))
  | NotBytes => Throw (TypeError "runtime region records must be byte-oriented")
  end.

Fixpoint map_result {A B} (f : A -> result B) (l : list A) : result (list B) :=
  match l with
  | [] => Ok []
  | x :: l' => let! y := f x in let! ys := map_result f l' in Ok (y :: ys)
  end.

Inductive region_kind := Owned | External.
#[export] Instance region_kind_eq_dec : EqDecision region_kind.
Proof. solve_decision. Defined.

Record description := Description {
  d_regionId : Z; d_layoutId : jsstring; d_recordByteLength : Z; d_alignment : Z; d_recordCount : Z }.

(** A record as [resolveRecord] returns it. *)
Record resolved := Resolved {
  v_regionId : Z; v_recordIndex : Z; v_layoutId : jsstring; v_recordByteLength : Z; v_alignment : Z;
  v_byteLength : Z; v_bytes : list Z }.

(** The request a view callback gets. *)
Record view_request := ViewRequest {
  q_regionId : Z; q_recordIndex : Z; q_layoutId : jsstring; q_recordByteLength : Z; q_alignment : Z }.

Section store.
(** The embedder's state and the view objects its callbacks return. *)
Context {W V : Type}.

Record region := Region {
  regionId : Z;
  kind : region_kind;
  layoutId : jsstring;
  recordByteLength : Z;
  alignment : Z;
  (** [None] is a hole of the array, which only external regions have *)
  records : list (option (list Z));
  getRecordCount : option (W -> Z -> jsnum);
  view_callback : option (W -> view_request -> option V)
}.

Record store := Store { nextRegionId : Z; regions : list (Z * region) }.
Definition createRuntimeRegionStore : store := Store 1 [].

Definition getRegionRecordCount (w : W) (r : region) : result Z :=
  match getRecordCount r with
  | Some f => normalizePositiveInteger (f w (regionId r)) "recordCount"
  | None => Ok (blen (records r))
  end.

Definition describeRegion (w : W) (s : store) (id : jsnum) : result (option description) :=
  let! id := normalizePositiveInteger id "regionId" in
  match map_get (regions s) id with
  | None => Ok None
  | Some r =>
      let! count := getRegionRecordCount w r in
      Ok (Some (Description (regionId r) (layoutId r) (recordByteLength r) (alignment r) count))
  end.

Definition add_region (s : store) (r : region) : store :=
  Store (nextRegionId s) (map_set (regions s) (regionId r) r).

Definition allocateRegion (w : W) (s : store) (layout : option jsstring) (recordLength align : jsnum)
    (initialRecords : list record_value) : result (option description) * store :=
  let id := nextRegionId s in
  let s := Store (id + 1) (regions s) in
  match
    (let! layout := normalizeRequiredString layout "layoutId" in
     let! len := normalizeStrictlyPositiveInteger recordLength "recordByteLength" in
     let! al := normalizeStrictlyPositiveInteger align "alignment" in
     let! recs := map_result (fun v => toRecordBytes v len) initialRecords in
     Ok (Region id Owned layout len al (map Some recs) None None))
  with
  | Throw e => (Throw e, s)
  | Ok r => let s := add_region s r in (describeRegion w s (int_num id), s)
  end.

(** The callbacks are functions or undefined; anything else throws, which is [Throw]. *)
Definition registerExternalRegion (w : W) (s : store) (layout : option jsstring) (recordLength align recordCount : jsnum)
    (count_callback : result (option (W -> Z -> jsnum)))
    (view : result (option (W -> view_request -> option V))) : result (option description) * store :=
  let id := nextRegionId s in
  let s := Store (id + 1) (regions s) in
  match
    (let! layout := normalizeRequiredString layout "layoutId" in
     let! len := normalizeStrictlyPositiveInteger recordLength "recordByteLength" in
     let! al := normalizeStrictlyPositiveInteger align "alignment" in
     let! cc := count_callback in
     let! vc := view in
     let! n :=
       (match cc with
        | None =>
            let! n := normalizePositiveInteger recordCount "recordCount" in
            throw_if 2 ^ 32 - 1 <? n with RangeError "Invalid array length"; Ok n
        | Some _ => Ok 0
        end) in
     Ok (Region id External layout len al (repeat None (Z.to_nat n)) cc vc))
  with
  | Throw e => (Throw e, s)
  | Ok r => let s := add_region s r in (describeRegion w s (int_num id), s)
  end.

(** Truncate, or push zeroed records up to the count. *)
Definition resize (r : region) (n : Z) : region :=
  let recs := records r in
  let recs' :=
    if n <? blen recs then take (Z.to_nat n) recs
    else recs ++ repeat (Some (repeat 0 (Z.to_nat (recordByteLength r)))) (Z.to_nat (n - blen recs)) in
  Region (regionId r) (kind r) (layoutId r) (recordByteLength r) (alignment r) recs'
    (getRecordCount r) (view_callback r).

Definition setRegionRecordCount (w : W) (s : store) (id recordCount : jsnum) : result (option description) * store :=
  match normalizePositiveInteger id "regionId" with
  | Throw e => (Throw e, s)
  | Ok id' =>
      match map_get (regions s) id' with
      | None => (Ok None, s)
      | Some r =>
          match getRecordCount r with
          | Some _ => (Throw (Error "Cannot set recordCount for externally counted regions"), s)
          | None =>
              match normalizePositiveInteger recordCount "recordCount" with
              | Throw e => (Throw e, s)
              | Ok n =>
                  (* the region object is changed in place *)
                  let s := Store (nextRegionId s) (map_set (regions s) id' (resize r n)) in
                  (describeRegion w s (int_num id'), s)
              end
          end
      end
  end.

Definition resolveRecord (w : W) (s : store) (id recordIndex : jsnum) : result (option resolved) :=
  let! id := normalizePositiveInteger id "regionId" in
  let! index := normalizePositiveInteger recordIndex "recordIndex" in
  match map_get (regions s) id with
  | None => Ok None
  | Some r =>
      let! count := getRegionRecordCount w r in
      if count <=? index then Ok None
      else if decide (kind r = External) then Ok None
      else
        (* cloneBytes of an absent record gives an empty array *)
        let bytes := default [] (default None (at_ (records r) index)) in
        Ok (Some (Resolved (regionId r) index (layoutId r) (recordByteLength r) (alignment r)
                    (recordByteLength r) bytes))
  end.

(** Either a copy of an owned record or the view object of the callback. *)
Definition resolveRecordView (w : W) (s : store) (id recordIndex : jsnum) :
    result (option (resolved + view_request * V)) :=
  let! id := normalizePositiveInteger id "regionId" in
  let! index := normalizePositiveInteger recordIndex "recordIndex" in
  match map_get (regions s) id with
  | None => Ok None
  | Some r =>
      let! count := getRegionRecordCount w r in
      if count <=? index then Ok None
      else if negb (bool_decide (kind r = External)) then
        let! o := resolveRecord w s (int_num id) (int_num index) in Ok (inl <$> o)
      else
        match view_callback r with
        | None => Ok None
        | Some f =>
            let q := ViewRequest id index (layoutId r) (recordByteLength r) (alignment r) in
            Ok ((fun v => inr (q, v)) <$> f w q)
        end
  end.

(** ** Invariant *)

(** The operations that change the store, whatever their arguments. *)
Inductive step : store -> store -> Prop :=
| step_allocate w s layout len al recs : step s (allocateRegion w s layout len al recs).2
| step_register w s layout len al n cc vc : step s (registerExternalRegion w s layout len al n cc vc).2
| step_set_count w s id n : step s (setRegionRecordCount w s id n).2.

Inductive reachable : store -> Prop :=
| reach_init : reachable createRuntimeRegionStore
| reach_step s s' : reachable s -> step s s' -> reachable s'.

Definition region_ok (next id : Z) (r : region) : Prop :=
  regionId r = id /\ 1 <= id < next /\ 0 < recordByteLength r /\ 0 < alignment r /\ layoutId r <> [] /\
  (kind r = Owned -> getRecordCount r = None /\
     Forall (fun o => exists b, o = Some b /\ blen b = recordByteLength r) (records r)) /\
  (getRecordCount r <> None -> records r = []).

Definition store_ok (s : store) : Prop :=
  1 <= nextRegionId s /\ NoDup (map_keys (regions s)) /\
  forall id r, In (id, r) (regions s) -> region_ok (nextRegionId s) id r.

Lemma normalizePositive_inv v l n : normalizePositiveInteger v l = Ok n -> 0 <= n.
Proof.
  unfold normalizePositiveInteger. destruct (as_integer v) as [k|]; [|done].
  destruct (Z.ltb_spec k 0); [done|]. by intros [= <-].
Qed.
Lemma normalizeStrict_inv v l n : normalizeStrictlyPositiveInteger v l = Ok n -> 0 < n.
Proof.
  unfold normalizeStrictlyPositiveInteger. destruct (as_integer v) as [k|]; [|done].
  destruct (Z.leb_spec k 0); [done|]. by intros [= <-].
Qed.
Lemma normalizeString_inv v l s : normalizeRequiredString v l = Ok s -> s <> [].
Proof. unfold normalizeRequiredString. destruct v; [|done]. case_bool_decide; [done|]. by intros [= <-]. Qed.

Lemma blen_repeat {A} (x : A) n : blen (repeat x n) = Z.of_nat n.
Proof. unfold blen. by rewrite repeat_length. Qed.

Lemma lookup_repeat {A} (x : A) n i : (i < n)%nat -> repeat x n !! i = Some x.
Proof. revert i. induction n as [|n IH]; intros [|i] Hi; cbn; try lia; [done|]. apply IH. lia. Qed.

Lemma toRecordBytes_len v len b : 0 < len -> toRecordBytes v len = Ok b -> blen b = len.
Proof.
  intros Hl. unfold toRecordBytes. destruct v as [|c|]; [| |done].
  - intros [= <-]. rewrite blen_repeat. lia.
  - destruct (Z.ltb_spec len (blen c)); [done|]. intros [= <-]. rewrite blen_app, blen_repeat. lia.
Qed.

Lemma map_result_Forall2 {A B} (f : A -> result B) l l' :
  map_result f l = Ok l' -> Forall2 (fun x y => f x = Ok y) l l'.
Proof.
  revert l'. induction l as [|x l IH]; intros l'; cbn; [intros [= <-]; constructor|].
  intros H. js_inv H. constructor; auto.
Qed.

Lemma region_ok_mono next next' id r : next <= next' -> region_ok next id r -> region_ok next' id r.
Proof. intros Hn (H1 & H2 & H3). split; [done|]. split; [lia|done]. Qed.

Lemma store_ok_bump s : store_ok s -> store_ok (Store (nextRegionId s + 1) (regions s)).
Proof.
  intros (H1 & H2 & H3). split_and!; cbn; [lia|done|]. intros id r Hin.
  eapply region_ok_mono; [|by apply H3]. lia.
Qed.

Lemma store_ok_set s id r : store_ok s -> region_ok (nextRegionId s) id r ->
  store_ok (Store (nextRegionId s) (map_set (regions s) id r)).
Proof.
  intros (H1 & H2 & H3) Hr. split_and!; cbn; [done|by apply map_set_NoDup|].
  intros id' r' [[-> ->]|Hin]%map_set_In; [done|by apply H3].
Qed.

Lemma allocate_ok w s layout len al recs : store_ok s -> store_ok (allocateRegion w s layout len al recs).2.
Proof.
  intros Hs. unfold allocateRegion. pose proof (store_ok_bump s Hs) as Hb.
  destruct (normalizeRequiredString layout "layoutId") as [ly|] eqn:El; [|done].
  destruct (normalizeStrictlyPositiveInteger len "recordByteLength") as [ln|] eqn:En; [|done].
  destruct (normalizeStrictlyPositiveInteger al "alignment") as [a|] eqn:Ea; [|done].
  cbn [rbind]. destruct (map_result _ recs) as [bs|] eqn:Er; [|done]. cbn [rbind snd].
  apply (store_ok_set _ (nextRegionId s)); [done|]. destruct Hs as (Hn & _).
  apply normalizeStrict_inv in En, Ea. apply normalizeString_inv in El.
  split_and!; cbn; try done || lia. intros _. split; [done|].
  apply map_result_Forall2 in Er. clear -Er En.
  induction Er as [|v b vs bs Hv _ IH]; constructor; [|done].
  exists b. split; [done|]. by eapply toRecordBytes_len.
Qed.

Lemma register_ok w s layout len al n cc vc :
  store_ok s -> store_ok (registerExternalRegion w s layout len al n cc vc).2.
Proof.
  intros Hs. unfold registerExternalRegion. pose proof (store_ok_bump s Hs) as Hb.
  destruct (normalizeRequiredString layout "layoutId") as [ly|] eqn:El; [|done].
  destruct (normalizeStrictlyPositiveInteger len "recordByteLength") as [ln|] eqn:En; [|done].
  destruct (normalizeStrictlyPositiveInteger al "alignment") as [a|] eqn:Ea; [|done].
  destruct cc as [cc|]; [|done]. destruct vc as [vc|]; [|done]. cbn [rbind].
  match goal with |- context [rbind ?c (fun x => Ok (Region _ _ _ _ _ _ _ _))] => destruct c as [k|] eqn:Ek end;
    [|done].
  cbn [rbind snd]. apply (store_ok_set _ (nextRegionId s)); [done|]. destruct Hs as (Hn & _).
  apply normalizeStrict_inv in En, Ea. apply normalizeString_inv in El.
  split_and!; cbn; try done || lia.
  intros Hcc. destruct cc; [|done]. by injection Ek as <-.
Qed.

Lemma resize_ok next id r n : 0 <= n -> getRecordCount r = None -> region_ok next id r -> region_ok next id (resize r n).
Proof.
  intros Hn Hc (H1 & H2 & H3 & H4 & H5 & H6 & H7). unfold resize.
  do 5 (split; [done|]). cbn [kind getRecordCount records recordByteLength].
  split; [|intros Hne; by destruct Hne].
  intros Ho. destruct (H6 Ho) as [_ Hf]. split; [done|].
  destruct (_ <? _); [by apply Forall_take|]. apply Forall_app. split; [done|].
  apply List.Forall_forall. intros x Hx%repeat_spec. subst. eexists. split; [done|]. rewrite blen_repeat. lia.
Qed.

Lemma set_count_ok w s id n : store_ok s -> store_ok (setRegionRecordCount w s id n).2.
Proof.
  intros Hs. unfold setRegionRecordCount.
  destruct (normalizePositiveInteger id "regionId") as [id'|]; [|done].
  destruct (map_get (regions s) id') as [r|] eqn:Eg; [|done].
  destruct (getRecordCount r) eqn:Ec; [done|].
  destruct (normalizePositiveInteger n "recordCount") as [k|] eqn:Ek; [|done]. cbn [snd].
  apply store_ok_set; [done|]. apply resize_ok; [by eapply normalizePositive_inv|done|].
  destruct Hs as (_ & _ & H). by apply H, map_get_In.
Qed.

(** Every store reached by any sequence of operations, failed ones included, is well
    formed: ids are distinct and below the next one, sizes and alignments are positive, and
    each record of an owned region has exactly the region's record length. *)
Theorem region_store_invariant s : reachable s -> store_ok s.
Proof.
  induction 1 as [|s s' _ IH Hstep].
  - split_and!; cbn; [lia|constructor|done].
  - destruct Hstep; [by apply allocate_ok|by apply register_ok|by apply set_count_ok].
Qed.

Lemma describe_int w s id r : 0 <= id -> map_get (regions s) id = Some r ->
  describeRegion w s (int_num id) =
    (let! count := getRegionRecordCount w r in
     Ok (Some (Description (regionId r) (layoutId r) (recordByteLength r) (alignment r) count))).
Proof.
  intros Hid Hr. unfold describeRegion, normalizePositiveInteger. rewrite as_integer_int.
  destruct (Z.ltb_spec id 0); [lia|]. cbn [rbind]. by rewrite Hr.
Qed.

Lemma resolve_int w s id index r : 0 <= id -> 0 <= index -> map_get (regions s) id = Some r ->
  kind r = Owned -> getRecordCount r = None ->
  resolveRecord w s (int_num id) (int_num index) =
    Ok (if blen (records r) <=? index then None
        else Some (Resolved (regionId r) index (layoutId r) (recordByteLength r) (alignment r)
                     (recordByteLength r) (default [] (default None (at_ (records r) index))))).
Proof.
  intros Hid Hi Hr Hk Hc. unfold resolveRecord, normalizePositiveInteger. rewrite !as_integer_int.
  destruct (Z.ltb_spec id 0); [lia|]. destruct (Z.ltb_spec index 0); [lia|]. cbn [rbind].
  rewrite Hr. unfold getRegionRecordCount. rewrite Hc. cbn [rbind].
  destruct (_ <=? _); [done|]. by rewrite decide_False by (by rewrite Hk).
Qed.

(** An allocation that succeeds gives an id no region of the store had, describes as many
    records as were passed, keeps every other region, and each record passed is read back
    at its index, padded with zeros to the record length. *)
Theorem allocate_then_resolve w s layout len al recs d s' :
  store_ok s -> allocateRegion w s layout len al recs = (Ok (Some d), s') ->
  map_get (regions s) (d_regionId d) = None /\ d_recordCount d = blen recs /\
  (forall id, id <> d_regionId d -> map_get (regions s') id = map_get (regions s) id) /\
  (forall i v, at_ recs i = Some v -> exists b,
     toRecordBytes v (d_recordByteLength d) = Ok b /\
     resolveRecord w s' (int_num (d_regionId d)) (int_num i) =
       Ok (Some (Resolved (d_regionId d) i (d_layoutId d) (d_recordByteLength d) (d_alignment d)
                   (d_recordByteLength d) b))).
Proof.
  intros (Hn & Hnd & Hr). unfold allocateRegion.
  destruct (normalizeRequiredString layout "layoutId") as [ly|]; [|done].
  destruct (normalizeStrictlyPositiveInteger len "recordByteLength") as [ln|]; [|done].
  destruct (normalizeStrictlyPositiveInteger al "alignment") as [a|]; [|done].
  cbn [rbind]. destruct (map_result _ recs) as [bs|] eqn:Er; [|done]. cbn [rbind].
  apply map_result_Forall2 in Er. pose proof (Forall2_length Er) as Hlen.
  set (r := Region (nextRegionId s) Owned ly ln a (map Some bs) None None).
  set (s1 := add_region _ r).
  assert (Hget : map_get (regions s1) (nextRegionId s) = Some r) by apply map_get_set_eq.
  rewrite (describe_int w s1 (nextRegionId s) r) by (done || lia). cbn. intros [= <- <-]. cbn.
  split_and!.
  - destruct (map_get (regions s) (nextRegionId s)) as [r0|] eqn:E; [|done].
    apply map_get_In, Hr in E as (_ & ? & _). lia.
  - unfold blen. by rewrite length_map, Hlen.
  - intros id Hne. by apply map_get_set_ne.
  - intros i v Hi. pose proof (at_Some_lt _ _ _ Hi) as Hlt.
    rewrite (resolve_int w s1 (nextRegionId s) i r) by (done || lia). cbn [records r].
    destruct (Z.leb_spec (blen (map Some bs)) i);
      [unfold blen in *; rewrite length_map in *; lia|].
    unfold at_ in *. destruct (Z.leb_spec 0 i); [|lia].
    destruct (Forall2_lookup_l _ _ _ _ _ Er Hi) as (b & Hb & Hv). exists b. split; [done|].
    rewrite list_lookup_fmap, Hb. done.
Qed.

(** Setting the count of an owned region to [n] leaves it with [n] records: those it had,
    in order, up to [n], and zeroed ones after them. *)
Theorem set_count_resizes w s id n r :
  store_ok s -> 0 <= n -> map_get (regions s) id = Some r -> kind r = Owned ->
  exists s', setRegionRecordCount w s (int_num id) (int_num n) =
      (Ok (Some (Description id (layoutId r) (recordByteLength r) (alignment r) n)), s') /\
    forall i, 0 <= i < n -> exists b,
      resolveRecord w s' (int_num id) (int_num i) =
        Ok (Some (Resolved id i (layoutId r) (recordByteLength r) (alignment r) (recordByteLength r) b)) /\
      b = default (repeat 0 (Z.to_nat (recordByteLength r))) (default None (at_ (records r) i)).
Proof.
  intros (Hnx & Hnd & Hok) Hn Hget Hk.
  destruct (Hok id r) as (Hid & Hrange & Hlen & _ & _ & Hown & _); [by apply map_get_In|].
  destruct (Hown Hk) as [Hc Hrecs]. unfold setRegionRecordCount, normalizePositiveInteger.
  rewrite !as_integer_int. destruct (Z.ltb_spec id 0); [lia|]. rewrite Hget, Hc.
  destruct (Z.ltb_spec n 0); [lia|]. set (s1 := Store _ _).
  assert (Hget1 : map_get (regions s1) id = Some (resize r n)) by apply map_get_set_eq.
  assert (Hsz : blen (records (resize r n)) = n).
  { unfold resize. cbn. destruct (Z.ltb_spec n (blen (records r))).
    - unfold blen in *. rewrite length_take. lia.
    - rewrite blen_app, blen_repeat. lia. }
  exists s1. rewrite (describe_int w s1 id (resize r n)) by (done || lia).
  unfold getRegionRecordCount. cbn [getRecordCount resize]. rewrite Hc. cbn [rbind].
  rewrite Hsz. split; [by cbn; rewrite Hid|]. intros i Hi. eexists. split.
  - rewrite (resolve_int w s1 id i (resize r n)) by (done || lia). rewrite Hsz.
    destruct (Z.leb_spec n i); [lia|]. cbn. by rewrite Hid.
  - unfold resize. cbn [records]. destruct (Z.ltb_spec n (blen (records r))) as [Hlt|Hge].
    + assert (at_ (take (Z.to_nat n) (records r)) i = at_ (records r) i) as ->.
      { unfold at_. destruct (0 <=? i); [|done]. apply lookup_take_lt. lia. }
      destruct (at_lt_Some (records r) i) as [o Ho]; [lia|]. rewrite Ho. cbn.
      apply (at_Forall _ _ _ _ Hrecs) in Ho as (b & -> & _). done.
    + destruct (Z_lt_ge_dec i (blen (records r))) as [Hl|Hg].
      * rewrite at_app_l by lia. destruct (at_lt_Some (records r) i) as [o Ho]; [lia|]. rewrite Ho. cbn.
        apply (at_Forall _ _ _ _ Hrecs) in Ho as (b & -> & _). done.
      * rewrite at_app_r by lia.
        assert (at_ (records r) i = None) as ->.
        { unfold at_, blen in *. destruct (0 <=? i); [|done]. apply lookup_ge_None_2. lia. }
        unfold at_. destruct (Z.leb_spec 0 (i - blen (records r))); [|lia].
        rewrite lookup_repeat by lia. done.
Qed.
End store.
Arguments store : clear implicits.

(** ** A concrete store *)

Definition demo_store : store unit unit :=
  (allocateRegion tt createRuntimeRegionStore (Some (lit "orbit")) (int_num 4) (int_num 2)
     [RecordBytes [1; 2]; NoRecord]).2.

Lemma demo_store_ok : store_ok demo_store.
Proof. apply allocate_ok. split_and!; cbn; [lia|constructor|done]. Qed.

Lemma region_store_invariant_witness : store_ok demo_store.
Proof. apply (region_store_invariant demo_store). eapply reach_step; [apply reach_init|apply step_allocate]. Defined.

Lemma allocate_then_resolve_witness :
  resolveRecord tt demo_store (int_num 1) (int_num 0)
    = Ok (Some (Resolved 1 0 (lit "orbit") 4 2 4 [1; 2; 0; 0])).
Proof.
  destruct (allocate_then_resolve tt createRuntimeRegionStore (Some (lit "orbit")) (int_num 4) (int_num 2)
    [RecordBytes [1; 2]; NoRecord] (Description 1 (lit "orbit") 4 2 2) demo_store
    ltac:(split_and!; cbn; [lia|constructor|done]) ltac:(by vm_compute)) as (_ & _ & _ & Hr).
  destruct (Hr 0 (RecordBytes [1; 2]) eq_refl) as (b & Hb & H). vm_compute in Hb. injection Hb as <-. exact H.
Defined.

Lemma set_count_resizes_witness :
  exists s', (setRegionRecordCount tt demo_store (int_num 1) (int_num 3)).2 = s' /\
    resolveRecord tt s' (int_num 1) (int_num 2) = Ok (Some (Resolved 1 2 (lit "orbit") 4 2 4 [0; 0; 0; 0])).
Proof.
  destruct (set_count_resizes tt demo_store 1 3 (Region 1 Owned (lit "orbit") 4 2 [Some [1; 2; 0; 0]; Some [0; 0; 0; 0]] None None)
    demo_store_ok ltac:(lia) ltac:(by vm_compute) eq_refl) as (s' & Hs & H).
  exists s'. rewrite Hs. split; [done|]. destruct (H 2 ltac:(lia)) as (b & Hb & ->). exact Hb.
Defined.
