(* ===== verification/RuntimeHost.v ===== *)
(** The runtime host's registries: capabilities (src/runtime-host/index.js) and installed
    modules (src/runtime-host/moduleRegistry.js).

    A handler is a function of the embedder and stays abstract; an invocation is the handler
    that is called and the arguments it gets. *)
From Stdlib Require Import ZArith Lia Sorted.
From stdpp Require Import base list sorting strings numbers.
From S2P Require Import Prelude JsText JsMap.
Open Scope Z_scope.

(** ** Objects *)

Section objects.
Context {H : Type}.

(** A property of an object: a function, or anything else. *)
Inductive prop := Fn (h : H) | NotFn.

(** The functions every object literal inherits. *)
Definition OBJECT_PROTOTYPE_FUNCTIONS : list jsstring :=
  [lit "constructor"; lit "hasOwnProperty"; lit "isPrototypeOf"; lit "propertyIsEnumerable";
   lit "toLocaleString"; lit "toString"; lit "valueOf";
   lit "__defineGetter__"; lit "__defineSetter__"; lit "__lookupGetter__"; lit "__lookupSetter__"].

(** What [object\[key\]] gives: an own function, an inherited one, or no function. *)
Inductive found := Own (h : H) | Inherited (key : jsstring) | NoFunction.

Definition get_function (own : list (jsstring * prop)) (key : jsstring) : found :=
  match map_get own key with
  | Some (Fn h) => Own h
  | Some NotFn => NoFunction
  | None => if bool_decide (key ∈ OBJECT_PROTOTYPE_FUNCTIONS) then Inherited key else NoFunction
  end.

(** ** The capability registry *)

(** An adapter: an object literal by its own properties, or no object. *)
Inductive adapter := AdapterObject (own : list (jsstring * prop)) | NotObject.

Definition normalizeCapabilityId (capability : jsstring) : result jsstring :=
  let normalized := trim capability in
  throw_if bool_decide (normalized = []) with TypeError "Capability id is required."; Ok normalized.

Abbreviation capabilities := (list (jsstring * adapter)).

Fixpoint createCapabilityRegistry (entries : list (jsstring * adapter)) (registry : capabilities) : result capabilities :=
  match entries with
  | [] => Ok registry
  | (capability, a) :: rest =>
      let! id := normalizeCapabilityId capability in
      createCapabilityRegistry rest (map_set registry id a)
  end.

Definition registerCapability (c : capabilities) (capability : jsstring) (a : adapter) : result capabilities :=
  let! id := normalizeCapabilityId capability in Ok (map_set c id a).
Definition unregisterCapability (c : capabilities) (capability : jsstring) : result (bool * capabilities) :=
  let! id := normalizeCapabilityId capability in Ok (map_has c id, map_delete c id).
Definition hasCapability (c : capabilities) (capability : jsstring) : result bool :=
  let! id := normalizeCapabilityId capability in Ok (map_has c id).
Definition getCapability (c : capabilities) (capability : jsstring) : result (option adapter) :=
  let! id := normalizeCapabilityId capability in Ok (map_get c id).

(** The default order of [Array.prototype.sort]: by code units. *)
Fixpoint str_leb (a b : jsstring) : bool :=
  match a, b with
  | [], _ => true
  | _ :: _, [] => false
  | x :: a', y :: b' => (x <? y) || ((x =? y) && str_leb a' b')
  end.
Definition sort_strings (l : list jsstring) : list jsstring := merge_sort (fun a b => Is_true (str_leb a b)) l.

Definition listCapabilities (c : capabilities) : list jsstring := sort_strings (map_keys c).

Definition is_fn (p : prop) : bool := match p with Fn _ => true | NotFn => false end.
Definition dot_join (capabilityId methodId : jsstring) : jsstring := capabilityId ++ 46 :: methodId.

(** The operations one adapter offers: its own functions but [invoke], or [invoke]. *)
Definition adapter_operations (capabilityId : jsstring) (a : adapter) : list jsstring :=
  match a with
  | NotObject => []
  | AdapterObject own =>
      let methodIds := map fst (List.filter (fun e => is_fn e.2 && negb (str_eqb e.1 (lit "invoke"))) own) in
      if 0 <? blen methodIds then map (dot_join capabilityId) methodIds
      else match get_function own (lit "invoke") with
           | Own _ => [dot_join capabilityId (lit "invoke")]
           | _ => []
           end
  end.

Definition listCapabilityOperations (c : capabilities) : list jsstring :=
  sort_strings (remove_dups (flat_map (fun e => adapter_operations e.1 e.2) c)).

(** An invocation: the function called, and the method id when it is the generic [invoke]. *)
Inductive invocation := CallMethod (f : found) | CallInvoke (f : found) (methodId : jsstring).

(** The text before and after the first dot. *)
Fixpoint cut_at_dot (s : jsstring) : option (jsstring * jsstring) :=
  match s with
  | [] => None
  | x :: s' => if x =? 46 then Some ([], s')
               else match cut_at_dot s' with Some (a, b) => Some (x :: a, b) | None => None end
  end.

Definition is_function (f : found) : bool := match f with NoFunction => false | _ => true end.

Definition invokeCapability (c : capabilities) (operation : jsstring) : result invocation :=
  let! normalized := normalizeCapabilityId operation in
  let '(capabilityId, methodId) :=
    match cut_at_dot normalized with Some (a, b) => (a, b) | None => (normalized, lit "invoke") end in
  match map_get c capabilityId with
  | Some (AdapterObject own) =>
      let direct := get_function own methodId in
      if is_function direct then Ok (CallMethod direct)
      else
        let generic := get_function own (lit "invoke") in
        if is_function generic then Ok (CallInvoke generic methodId)
        else Throw (Error "Runtime host capability does not implement the method or invoke().")
  | _ => Throw (Error "Runtime host capability is not registered.")
  end.

(** ** The module registry *)

Context {Meta : Type}.

Record module_record := ModuleRecord { moduleId : jsstring; methods : list (jsstring * prop); metadata : option Meta }.
Abbreviation modules := (list (jsstring * module_record)).

Definition normalizeModuleId (value : jsstring) : result jsstring :=
  throw_if bool_decide (trim value = []) with TypeError "moduleId must be a non-empty string"; Ok (trim value).

(** What a caller sees of a module: id, metadata and the ids of its methods. *)
Definition toPublicModuleRecord (m : module_record) : jsstring * option Meta * list jsstring :=
  (moduleId m, metadata m, map_keys (methods m)).

Definition installModule (ms : modules) (definition : module_record) : result (jsstring * option Meta * list jsstring * modules) :=
  let! id := normalizeModuleId (moduleId definition) in
  let record := ModuleRecord id (methods definition) (metadata definition) in
  Ok (toPublicModuleRecord record, map_set ms id record).

Definition loadModule (ms : modules) (id : jsstring) : result (option module_record) :=
  let! id := normalizeModuleId id in Ok (map_get ms id).
Definition unloadModule (ms : modules) (id : jsstring) : result (bool * modules) :=
  let! id := normalizeModuleId id in Ok (map_has ms id, map_delete ms id).
Definition listModules (ms : modules) := map toPublicModuleRecord (map_values ms).

Definition invokeModule (ms : modules) (id methodId : jsstring) : result found :=
  let! id := normalizeModuleId id in
  match map_get ms id with
  | None => Throw (Error "Unknown module")
  | Some m =>
      let method := get_function (methods m) methodId in
      if is_function method then Ok method else Throw (Error "Unknown module method")
  end.
End objects.
Arguments prop : clear implicits.
Arguments found : clear implicits.
Arguments adapter : clear implicits.
Arguments module_record : clear implicits.

Section facts.
Context {H Meta : Type}.
Implicit Types (c : list (jsstring * adapter H)) (ms : list (jsstring * module_record H Meta)).

Lemma normalizeCapabilityId_ok s : trim s <> [] -> normalizeCapabilityId s = Ok (trim s).
Proof. intros Hs. unfold normalizeCapabilityId. by rewrite bool_decide_eq_false_2. Qed.
Lemma normalizeModuleId_ok s : trim s <> [] -> normalizeModuleId s = Ok (trim s).
Proof. intros Hs. unfold normalizeModuleId. by rewrite bool_decide_eq_false_2. Qed.

Lemma cut_at_dot_join id m : 46 ∉ id -> cut_at_dot (dot_join id m) = Some (id, m).
Proof.
  unfold dot_join. induction id as [|x id IH]; cbn; [done|]. intros [Hx Hid]%not_elem_of_cons.
  destruct (Z.eqb_spec x 46); [congruence|]. by rewrite IH.
Qed.

Lemma map_get_unique {V} (m : list (jsstring * V)) k v : NoDup (map_keys m) -> In (k, v) m -> map_get m k = Some v.
Proof.
  induction m as [|[k' v'] m IH]; cbn; [done|]. intros [Hk Hm]%list.NoDup_cons [Heq|Hin].
  - injection Heq as -> ->. by rewrite decide_True.
  - rewrite decide_False; [by apply IH|]. intros ->. apply Hk, list_elem_of_In, in_map_iff. by exists (k, v).
Qed.

(** The registry is a map of identifiers without dots to objects with distinct keys. *)
Definition adapter_ok (a : adapter H) : Prop :=
  match a with AdapterObject own => NoDup (map_keys own) | NotObject => True end.
Definition registry_ok c : Prop :=
  NoDup (map_keys c) /\ Forall (fun e => (46 ∉ e.1) /\ adapter_ok e.2) c.

Lemma adapter_operation_inv id (a : adapter H) op : adapter_ok a -> In op (adapter_operations id a) ->
  exists own m h, a = AdapterObject own /\ op = dot_join id m /\ map_get own m = Some (Fn h).
Proof.
  destruct a as [own|]; [|done]. cbn [adapter_ok]. intros Hnd. unfold adapter_operations. cbv zeta. destruct (0 <? _).
  - intros (m & <- & Hx)%in_map_iff. apply in_map_iff in Hx as ([m' p] & Hm & Hf). apply filter_In in Hf as [Hin Hf].
    cbn in Hm, Hf. subst m'.
    destruct p as [h|]; [|done]. exists own, m, h. split_and!; [done..|]. by apply map_get_unique.
  - destruct (get_function own (lit "invoke")) as [h|k|] eqn:Eg; cbn; try done.
    intros [<- | []]. exists own, (lit "invoke"), h. split_and!; [done..|]. revert Eg. unfold get_function.
    destruct (map_get own (lit "invoke")) as [[h'|]|]; [by intros [= ->]|done|]. by case_bool_decide.
Qed.

(** Every operation the host lists can be invoked: when capability ids have no dot, a
    listed operation (not ending in white space) reaches exactly the function of the adapter
    that it was listed for. *)
Theorem listed_operation_invocable c op :
  registry_ok c -> trim op = op -> op ∈ listCapabilityOperations c ->
  exists id own m h, op = dot_join id m /\ map_get c id = Some (AdapterObject own) /\ map_get own m = Some (Fn h) /\
    invokeCapability c op = Ok (CallMethod (Own h)).
Proof.
  intros [Hnd Hall] Ht Hin. unfold listCapabilityOperations, sort_strings in Hin.
  rewrite merge_sort_Permutation, elem_of_remove_dups, list_elem_of_In in Hin.
  apply in_flat_map in Hin as ([id a] & Hc & Hop). rewrite List.Forall_forall in Hall. destruct (Hall _ Hc) as [Hdot Ha].
  apply adapter_operation_inv in Hop as (own & m & h & Heq & Hj & Hm); [|done]. cbn [fst snd] in *. subst a.
  apply map_get_unique in Hc; [|done]. exists id, own, m, h. split_and!; [done..|].
  unfold invokeCapability. rewrite normalizeCapabilityId_ok by (rewrite Ht, Hj; by destruct id). cbn [rbind].
  rewrite Ht, Hj, cut_at_dot_join, Hc by done. unfold get_function. by rewrite Hm.
Qed.

(** The registry is a map on trimmed ids: after a registration the adapter is found
    under every spelling of its id and nothing else changes, after removing it no spelling
    finds it, and a blank id is refused. *)
Theorem capability_registry_is_map c cap a q :
  trim cap <> [] -> trim q <> [] ->
  (exists c', registerCapability c cap a = Ok c' /\
     getCapability c' q = Ok (if decide (trim cap = trim q) then Some a else map_get c (trim q))) /\
  (exists c', unregisterCapability c cap = Ok (map_has c (trim cap), c') /\
     getCapability c' q = Ok (if decide (trim cap = trim q) then None else map_get c (trim q))) /\
  registerCapability c [] a = Throw (TypeError "Capability id is required.").
Proof.
  intros Hc Hq. unfold registerCapability, unregisterCapability, getCapability.
  rewrite !(normalizeCapabilityId_ok cap), !(normalizeCapabilityId_ok q) by done. cbn [rbind].
  split_and!; [eexists; split; [done|]..|done]; [by rewrite map_get_set|by rewrite map_get_delete].
Qed.

(** An installed module is loaded back under every spelling of its id with its methods
    and metadata, can be invoked for exactly its own functions and what objects inherit, and
    is gone after it is unloaded; other modules are not affected. *)
Theorem installed_module_is_found ms (d : module_record H Meta) q m :
  trim (moduleId d) <> [] -> trim q <> [] ->
  exists ms', installModule ms d = Ok (trim (moduleId d), metadata d, map_keys (methods d), ms') /\
    loadModule ms' q = (if decide (trim (moduleId d) = trim q)
                        then Ok (Some (ModuleRecord (trim (moduleId d)) (methods d) (metadata d))) else loadModule ms q) /\
    (trim (moduleId d) = trim q ->
       invokeModule ms' q m = if is_function (get_function (methods d) m) then Ok (get_function (methods d) m)
                              else Throw (Error "Unknown module method")) /\
    (trim (moduleId d) <> trim q -> invokeModule ms' q m = invokeModule ms q m) /\
    (exists ms'', unloadModule ms' q = Ok (map_has ms' (trim q), ms'') /\ loadModule ms'' q = Ok None /\
       invokeModule ms'' q m = Throw (Error "Unknown module")).
Proof.
  intros Hd Hq. unfold installModule, loadModule, unloadModule, invokeModule.
  rewrite !(normalizeModuleId_ok (moduleId d)), !(normalizeModuleId_ok q) by done. cbn [rbind].
  eexists. split; [done|]. rewrite map_get_set. split_and!.
  - by destruct (decide _).
  - intros ->. by rewrite decide_True.
  - intros Hne. by rewrite decide_False.
  - eexists. split; [done|]. rewrite map_get_delete, decide_True by done. done.
Qed.
End facts.

(** ** Examples *)

Definition greeter : list (jsstring * adapter nat) :=
  [(lit "net", AdapterObject [(lit "fetch", Fn 7%nat); (lit "limit", NotFn)])].

Lemma listed_operation_invocable_witness :
  exists id own m h, lit "net.fetch" = dot_join id m /\ map_get greeter id = Some (AdapterObject own) /\
    map_get own m = Some (Fn h) /\ invokeCapability greeter (lit "net.fetch") = Ok (CallMethod (Own h)).
Proof.
  apply (listed_operation_invocable greeter (lit "net.fetch")); [|reflexivity|].
  - split; [apply NoDup_singleton|]. apply Forall_singleton. split; [by apply (bool_decide_unpack _); vm_compute|].
    cbn. apply (bool_decide_unpack _). by vm_compute.
  - apply (bool_decide_unpack _). by vm_compute.
Defined.

Lemma capability_registry_is_map_witness :
  (exists c', registerCapability greeter (lit " fs ") (AdapterObject []) = Ok c' /\
     getCapability c' (lit "fs") = Ok (Some (AdapterObject []))) /\
  (exists c', unregisterCapability greeter (lit " fs ") = Ok (false, c') /\ getCapability c' (lit "fs") = Ok None) /\
  registerCapability greeter [] (AdapterObject []) = Throw (TypeError "Capability id is required.").
Proof. apply (capability_registry_is_map greeter (lit " fs ") (AdapterObject []) (lit "fs")); by vm_compute. Defined.

Lemma installed_module_is_found_witness :
  exists ms', installModule [] (ModuleRecord (lit " m ") [(lit "run", Fn 1%nat)] (Some tt)) =
      Ok (lit "m", Some tt, [lit "run"], ms') /\
    loadModule ms' (lit "m") = Ok (Some (ModuleRecord (lit "m") [(lit "run", Fn 1%nat)] (Some tt))) /\
    (trim (lit " m ") = trim (lit "m") -> invokeModule ms' (lit "m") (lit "run") = Ok (Own 1%nat)) /\
    (trim (lit " m ") <> trim (lit "m") -> invokeModule ms' (lit "m") (lit "run") = invokeModule (Meta := unit) [] (lit "m") (lit "run")) /\
    (exists ms'', unloadModule ms' (lit "m") = Ok (map_has ms' (lit "m"), ms'') /\ loadModule ms'' (lit "m") = Ok None /\
       invokeModule ms'' (lit "m") (lit "run") = Throw (Error "Unknown module")).
Proof.
  apply (installed_module_is_found [] (ModuleRecord (lit " m ") [(lit "run", Fn 1%nat)] (Some tt)) (lit "m") (lit "run")); by vm_compute.
Defined.

(** A capability id with a dot: its operations are listed, and invoking them looks for the
    part of the id before its first dot. *)
Theorem dotted_capability_not_invocable :
  let c := [(lit "net.http", AdapterObject [(lit "get", Fn 7%nat)])] in
  registerCapability [] (lit "net.http") (AdapterObject [(lit "get", Fn 7%nat)]) = Ok c /\
  listCapabilityOperations c = [lit "net.http.get"] /\
  invokeCapability c (lit "net.http.get") = Throw (Error "Runtime host capability is not registered.").
Proof. split_and!; vm_compute; reflexivity. Qed.

(** A module without methods answers to the names every object inherits. *)
Theorem inherited_function_invocable :
  let ms := [(lit "m", ModuleRecord (H := nat) (lit "m") [] (None : option unit))] in
  invokeModule ms (lit "m") (lit "toString") = Ok (Inherited (lit "toString")).
Proof. vm_compute. reflexivity. Qed.
