(* ===== verification/StreamIngest.v ===== *)
(** Size-prefixed FlatBuffer streams (src/runtime-host/flatbufferStreamIngestor.js, the frame
    reader of src/host/moduleFlatbufferStreamPump.js).

    [pushBytes] appends a chunk to the bytes left over from the previous ones, consumes
    every complete frame and keeps the rest. The calls run one after the other on the
    promise [tail], so a call is a function on the state. The row store and the routes of
    the embedder are [Sink]. *)
From Stdlib Require Import ZArith Lia.
From stdpp Require Import base list strings numbers.
From S2P Require Import Prelude JsText.
Open Scope Z_scope.

(** A thrown value: an error object, or a value that counts as false in a condition. *)
Inductive thrown := ThrownError (e : js_error) | ThrownFalsy.
Definition truthy (t : thrown) : bool := match t with ThrownError _ => true | ThrownFalsy => false end.

(** What consumes a frame: the route of a file identifier, if there is one, which answers
    whether it took the frame, and the row store. *)
Class Sink (W : Type) := {
  find_route : jsstring -> option (W -> list Z -> (bool + thrown) * W);
  appendRow : W -> jsstring -> list Z -> option thrown * W
}.

Record stats := Stats {
  bytesReceived : Z; chunksReceived : Z; framesDecoded : Z; framesAppended : Z; framesRouted : Z;
  parseErrors : Z }.
Definition zero_stats : stats := Stats 0 0 0 0 0 0.

Definition count_chunk (s : stats) (n : Z) : stats :=
  Stats (bytesReceived s + n) (chunksReceived s + 1) (framesDecoded s) (framesAppended s) (framesRouted s)
    (parseErrors s).
Definition count_decoded (s : stats) : stats :=
  Stats (bytesReceived s) (chunksReceived s) (framesDecoded s + 1) (framesAppended s) (framesRouted s)
    (parseErrors s).
Definition count_appended (s : stats) : stats :=
  Stats (bytesReceived s) (chunksReceived s) (framesDecoded s) (framesAppended s + 1) (framesRouted s)
    (parseErrors s).
Definition count_routed (s : stats) : stats :=
  Stats (bytesReceived s) (chunksReceived s) (framesDecoded s) (framesAppended s) (framesRouted s + 1)
    (parseErrors s).
Definition count_error (s : stats) : stats :=
  Stats (bytesReceived s) (chunksReceived s) (framesDecoded s) (framesAppended s) (framesRouted s)
    (parseErrors s + 1).

Record ingestor := Ingestor {
  maxFrameBytes : Z;
  in_stats : stats;
  pending : list Z;
  failed : option thrown;
  finished : bool
}.

Definition DEFAULT_MAX_FRAME_BYTES : Z := 16 * 1024 * 1024.

Definition createFlatBufferStreamIngestor (limit : option Z) : result ingestor :=
  let maxFrameBytes := default DEFAULT_MAX_FRAME_BYTES limit in
  throw_if negb (is_safe_integer maxFrameBytes) || (maxFrameBytes <? 8) with RangeError "Invalid frame byte limit";
  Ok (Ingestor maxFrameBytes zero_stats [] None false).

(** [/^[\x20-\x7e]{4}$/.test(schemaFileId)] *)
Definition printable_id (fid : jsstring) : bool :=
  (blen fid =? 4) && forallb (fun c => (0x20 <=? c) && (c <=? 0x7e)) fid.

Section ingest.
Context {W : Type} `{!Sink W}.

(** The route, then the row store when there is no route or it answers [false]. [inl true]:
    appended. *)
Definition consume (w : W) (fid : jsstring) (payload : list Z) (s : stats) : (bool + thrown) * W * stats :=
  let append w :=
    match appendRow w fid payload with
    | (Some t, w) => (inr t, w, s)
    | (None, w) => (inl true, w, count_appended s)
    end in
  match find_route fid with
  | Some route =>
      match route w payload with
      | (inr t, w) => (inr t, w, s)
      | (inl true, w) => (inl false, w, count_routed s)
      | (inl false, w) => append w
      end
  | None => append w
  end.

(** [new DataView(combined.buffer, at, 4).getUint32(0, true)] *)
Definition frame_size (rest : list Z) : Z :=
  le_u32 (num_or_0 (at_ rest 0)) (num_or_0 (at_ rest 1)) (num_or_0 (at_ rest 2)) (num_or_0 (at_ rest 3)).

(** The loop over the frames of [combined]; [rest] is [combined] from [at] on. The result
    is how many frames were appended and the bytes left, or what was thrown. *)
Fixpoint ingest_loop (fuel : nat) (limit : Z) (rest : list Z) (w : W) (s : stats) (appended : Z) :
    (Z * list Z + thrown) * W * stats :=
  match fuel with
  | O => (inl (appended, rest), w, s)
  | S fuel' =>
      if 4 <=? blen rest then
        let size := frame_size rest in
        if (size <? 8) || (limit <? size) then
          (inr (ThrownError (Error "Invalid FlatBuffer stream frame size")), w, count_error s)
        else if blen rest - 4 <? size then (inl (appended, rest), w, s)
        else
          let payload := subarray rest 4 (4 + size) in
          let fid := subarray payload 4 8 in
          if negb (printable_id fid) then
            (inr (ThrownError (Error "Missing FlatBuffer file identifier")), w, count_error s)
          else
            match consume w fid payload (count_decoded s) with
            | (inr t, w, s) => (inr t, w, s)
            | (inl b, w, s) =>
                ingest_loop fuel' limit (subarray_from rest (4 + size)) w s
                  (if b then appended + 1 else appended)
            end
      else (inl (appended, rest), w, s)
  end.

(** [failed] as the conditions read it. *)
Definition terminal (i : ingestor) : option thrown :=
  match failed i with Some t => if truthy t then Some t else None | None => None end.

(** [ingest]: on a throw [pending] stays as it was. *)
Definition ingest (i : ingestor) (w : W) (bytes : list Z) : (Z + thrown) * ingestor * W :=
  match terminal i with
  | Some t => (inr t, i, w)
  | None =>
      let s := count_chunk (in_stats i) (blen bytes) in
      let combined := pending i ++ bytes in
      match ingest_loop (S (length combined)) (maxFrameBytes i) combined w s 0 with
      | (inl (n, rest), w, s) => (inl n, Ingestor (maxFrameBytes i) s rest (failed i) (finished i), w)
      | (inr t, w, s) => (inr t, Ingestor (maxFrameBytes i) s (pending i) (failed i) (finished i), w)
      end
  end.

Definition pushBytes (i : ingestor) (w : W) (bytes : list Z) : (Z + thrown) * ingestor * W :=
  if finished i then (inr (ThrownError (Error "FlatBuffer stream is finished")), i, w)
  else
    match ingest i w bytes with
    | (inl n, i, w) => (inl n, i, w)
    | (inr t, i, w) => (inr t, Ingestor (maxFrameBytes i) (in_stats i) (pending i) (Some t) (finished i), w)
    end.

Definition finish (i : ingestor) : (Z + thrown) * ingestor :=
  let i := Ingestor (maxFrameBytes i) (in_stats i) (pending i) (failed i) true in
  match terminal i with
  | Some t => (inr t, i)
  | None =>
      if negb (blen (pending i) =? 0)
      then (inr (ThrownError (Error "FlatBuffer stream ended with a partial frame")), i)
      else (inl 0, i)
  end.

(** A sequence of chunks, stopping at the first that fails. *)
Fixpoint push_all (i : ingestor) (w : W) (chunks : list (list Z)) : (Z + thrown) * ingestor * W :=
  match chunks with
  | [] => (inl 0, i, w)
  | c :: rest =>
      match pushBytes i w c with
      | (inr t, i, w) => (inr t, i, w)
      | (inl n, i, w) =>
          match push_all i w rest with
          | (inr t, i, w) => (inr t, i, w)
          | (inl k, i, w) => (inl (n + k), i, w)
          end
      end
  end.

(** ** The loop on a prefix of the stream *)

Implicit Types (x y h p r : list Z) (w : W) (s : stats) (f : nat).

(** The cases of one round: an incomplete frame, a bad one, or a frame at the front. *)
Lemma frame_cases x : 4 <= blen x -> 0 <= frame_size x -> frame_size x <= blen x - 4 ->
  exists h p r, x = h ++ p ++ r /\ blen h = 4 /\ blen p = frame_size x.
Proof.
  intros H4 H0 Hs. destruct (split_len x 4) as (h & y & -> & Hh); [lia|].
  destruct (split_len y (frame_size (h ++ y))) as (p & r & Hy & Hp); [blia|].
  exists h, p, r. rewrite <- Hp. by rewrite Hy.
Qed.

Lemma frame_size_app x y : 4 <= blen x -> frame_size (x ++ y) = frame_size x.
Proof. intros H4. unfold frame_size. by rewrite !at_app_l by lia. Qed.

Lemma frame_parts h p r : blen h = 4 ->
  subarray (h ++ p ++ r) 4 (4 + blen p) = p /\ subarray_from (h ++ p ++ r) (4 + blen p) = r.
Proof.
  intros Hh. split; [apply subarray_app; lia|]. rewrite app_assoc. apply subarray_from_app. blia.
Qed.

Ltac loop_case limit x :=
  destruct (Z.leb_spec 4 (blen x)) as [H4|H4];
  [destruct (Z.ltb_spec (frame_size x) 8) as [H8|H8]; cbn [orb];
   [|destruct (Z.ltb_spec limit (frame_size x)) as [Hmx|Hmx];
     [|destruct (Z.ltb_spec (blen x - 4) (frame_size x)) as [Hin|Hin]]]|].

Lemma loop_fuel limit f1 : forall f2 x w s k,
  (length x < f1)%nat -> (length x < f2)%nat ->
  ingest_loop f1 limit x w s k = ingest_loop f2 limit x w s k.
Proof.
  induction f1 as [|f1 IH]; intros [|f2] x w s k H1 H2; try lia. cbn [ingest_loop].
  loop_case limit x; try done.
  destruct (frame_cases x) as (h & p & r & -> & Hh & Hp); [lia..|]. rewrite <- Hp.
  destruct (frame_parts h p r Hh) as [-> ->].
  destruct (negb _); [done|]. destruct (consume _ _ _ _) as [[[b|] w1] s1]; [|done].
  rewrite !length_app in *. unfold blen in *. apply IH; lia.
Qed.

(** Statistics and the count do not influence what the loop does. *)
Lemma loop_shift limit f : forall x w s k n q w' s',
  ingest_loop f limit x w s k = (inl (n, q), w', s') ->
  forall s2 j, exists s2', ingest_loop f limit x w s2 (k + j) = (inl (n + j, q), w', s2').
Proof.
  assert (Hc : forall w fid p s b w1 s1, consume w fid p s = (inl b, w1, s1) -> forall s2, exists s2',
    consume w fid p s2 = (inl b, w1, s2')).
  { intros w fid p s b w1 s1. unfold consume. intros H s2. destruct (find_route fid) as [route|].
    - destruct (route w p) as [[[]|] w2]; [|destruct (appendRow w2 fid p) as [[] ?]|];
        simplify_eq; eauto.
    - destruct (appendRow w fid p) as [[] ?]; simplify_eq; eauto. }
  induction f as [|f IH]; intros x w s k n q w' s'; cbn [ingest_loop].
  { intros [= <- <- <- <-]. eauto. }
  loop_case limit x; try done; try (intros [= <- <- <- <-]; eauto; fail).
  destruct (negb _); [done|].
  destruct (consume _ _ _ (count_decoded s)) as [[[b|] w1] s1] eqn:Ec; [|done].
  intros H s2 j. destruct (Hc _ _ _ _ _ _ _ Ec (count_decoded s2)) as (s3 & ->).
  destruct (IH _ _ _ _ _ _ _ _ H s3 j) as (s4 & H4'). exists s4. rewrite <- H4'.
  f_equal. destruct b; lia.
Qed.

(** A stream cut in two: the first part, then what it left followed by the second part. *)
Lemma loop_app limit f : forall x y w s k o w' s' f',
  (length (x ++ y) < f)%nat -> (length (x ++ y) < f')%nat ->
  match ingest_loop f limit x w s k with
  | (inl (n, p), w1, s1) => ingest_loop f' limit (p ++ y) w1 s1 n
  | (inr t, w1, s1) => (inr t, w1, s1)
  end = (o, w', s') <-> ingest_loop f limit (x ++ y) w s k = (o, w', s').
Proof.
  induction f as [|f IH]; intros x y w s k o w' s' f' Hf Hf'; [lia|].
  assert (Hstay : ingest_loop f' limit (x ++ y) w s k = ingest_loop (S f) limit (x ++ y) w s k)
    by (apply loop_fuel; lia).
  cbn [ingest_loop] in Hstay |- *.
  destruct (Z.leb_spec 4 (blen x)) as [H4|H4]; [|by rewrite Hstay].
  rewrite (frame_size_app x y H4) in *.
  destruct (Z.leb_spec 4 (blen (x ++ y))); [|blia].
  destruct (Z.ltb_spec (frame_size x) 8) as [H8|H8]; cbn [orb] in *; [done|].
  destruct (Z.ltb_spec limit (frame_size x)) as [Hmx|Hmx]; [done|].
  destruct (Z.ltb_spec (blen x - 4) (frame_size x)) as [Hin|Hin]; [by rewrite Hstay|].
  destruct (Z.ltb_spec (blen (x ++ y) - 4) (frame_size x)); [blia|]. clear Hstay.
  destruct (frame_cases x) as (h & p & r & Hx & Hh & Hp); [lia..|].
  rewrite <- Hp in *. rewrite Hx in *. destruct (frame_parts h p r Hh) as [-> ->].
  replace ((h ++ p ++ r) ++ y) with (h ++ p ++ (r ++ y)) in * by app_eq.
  destruct (frame_parts h p (r ++ y) Hh) as [-> ->].
  destruct (negb _); [done|]. destruct (consume _ _ _ _) as [[[b|] w1] s1]; [|done].
  rewrite !length_app in *. unfold blen in *.
  apply (IH r y w1 s1 _ o w' s' f'); rewrite length_app; lia.
Qed.

(** What a successful push is, up to the statistics. *)
Definition accepts (i : ingestor) w (bytes : list Z) (n : Z) (p : list Z) w' : Prop :=
  exists s s' f, (length (pending i ++ bytes) < f)%nat /\
    ingest_loop f (maxFrameBytes i) (pending i ++ bytes) w s 0 = (inl (n, p), w', s').

Lemma loop_left limit f : forall x w s k n p w' s',
  ingest_loop f limit x w s k = (inl (n, p), w', s') -> (length p <= length x)%nat.
Proof.
  induction f as [|f IH]; intros x w s k n q w' s'; cbn [ingest_loop]; [by intros [= <- <- <- <-]|].
  loop_case limit x; try done; try (by intros [= <- <- <- <-]).
  destruct (frame_cases x) as (h & p & r & -> & Hh & Hp); [lia..|]. rewrite <- Hp.
  destruct (frame_parts h p r Hh) as [-> ->].
  destruct (negb _); [done|]. destruct (consume _ _ _ _) as [[[b|] w1] s1]; [|done].
  intros H%IH. rewrite !length_app. lia.
Qed.

Lemma push_state i w bytes n i' w' :
  terminal i = None -> finished i = false -> pushBytes i w bytes = (inl n, i', w') ->
  terminal i' = None /\ finished i' = false /\ maxFrameBytes i' = maxFrameBytes i.
Proof.
  intros Ht Hf H. unfold pushBytes, ingest in H. rewrite Hf, Ht in H.
  destruct (ingest_loop _ _ _ _ _ _) as [[[[n1 p1]|t] w1] s1]; by simplify_eq.
Qed.

Lemma push_accepts i w bytes n p w' :
  terminal i = None -> finished i = false ->
  (exists i', pushBytes i w bytes = (inl n, i', w') /\ pending i' = p) <-> accepts i w bytes n p w'.
Proof.
  intros Ht Hf. unfold pushBytes, ingest. rewrite Hf, Ht. split.
  - intros (i' & H & Hp).
    destruct (ingest_loop _ _ _ _ _ _) as [[[[n1 p1]|t] w1] s1] eqn:E; simplify_eq.
    exists (count_chunk (in_stats i) (blen bytes)), s1, (S (length (pending i ++ bytes))). split; [lia|done].
  - intros (s & s' & f & Hlen & H).
    destruct (loop_shift _ _ _ _ _ _ _ _ _ _ H (count_chunk (in_stats i) (blen bytes)) 0) as (s2 & H2).
    rewrite Z.add_0_r, (loop_fuel _ _ (S (length (pending i ++ bytes)))) in H2 by lia. rewrite H2.
    eexists. by rewrite Z.add_0_r.
Qed.

Lemma accepts_app i w x y n p w' :
  accepts i w (x ++ y) n p w' <->
  exists n1 p1 w1, accepts i w x n1 p1 w1 /\
    forall i1, pending i1 = p1 -> maxFrameBytes i1 = maxFrameBytes i -> accepts i1 w1 y (n - n1) p w'.
Proof.
  unfold accepts. split.
  - intros (s & s' & f & Hlen & H). rewrite app_assoc in H, Hlen.
    apply (loop_app _ _ _ _ _ _ _ _ _ _ f) in H; [|done..].
    destruct (ingest_loop f _ (pending i ++ x) w s 0) as [[[[n1 p1]|t] w1] s1] eqn:E; [|done].
    exists n1, p1, w1. split; [exists s, s1, f; split; [rewrite !length_app in *; lia|done]|].
    intros i1 -> ->. destruct (loop_shift _ _ _ _ _ _ _ _ _ _ H s1 (- n1)) as (s2 & H2).
    rewrite Z.add_opp_diag_r in H2. exists s1, s2, (S (length (p1 ++ y)) + f)%nat. split; [lia|].
    rewrite Z.add_opp_r in H2. rewrite <- H2. apply loop_fuel; [lia|].
    assert (Hp1 : (length p1 <= length (pending i ++ x))%nat) by (by eapply loop_left).
    rewrite !length_app in *. lia.
  - intros (n1 & p1 & w1 & (s & s1 & f & Hlen & H) & Hy).
    destruct (Hy (Ingestor (maxFrameBytes i) zero_stats p1 None false) eq_refl eq_refl) as (s2 & s3 & f2 & Hlen2 & H2).
    cbn in H2, Hlen2.
    destruct (loop_shift _ _ _ _ _ _ _ _ _ _ H2 s1 n1) as (s4 & H4).
    exists s, s4, (S (length (pending i ++ x ++ y)) + f2)%nat. split; [lia|]. rewrite app_assoc.
    apply (loop_app _ _ _ _ _ _ _ _ _ _ (S (length (pending i ++ x ++ y)) + f2)); [rewrite !length_app in *; lia..|].
    rewrite (loop_fuel _ _ f) by (rewrite !length_app in *; lia). rewrite H.
    rewrite (loop_fuel _ _ f2) by lia. rewrite Z.add_0_l in H4.
    rewrite H4. do 4 f_equal. lia.
Qed.

Lemma push_all_accepts cs : forall i w c n p w',
  terminal i = None -> finished i = false ->
  (exists i', push_all i w (c :: cs) = (inl n, i', w') /\ pending i' = p) <->
  accepts i w (c ++ concat cs) n p w'.
Proof.
  induction cs as [|c2 cs IH]; intros i w c n p w' Ht Hf.
  - cbn [concat]. rewrite app_nil_r, <- (push_accepts i) by done. cbn [push_all].
    destruct (pushBytes i w c) as [[[n1|t] i1] w1].
    + by rewrite Z.add_0_r.
    + split; intros (i' & H & _); done.
  - cbn [concat]. rewrite accepts_app. cbn [push_all]. split.
    + intros (i' & H & Hp). destruct (pushBytes i w c) as [[[n1|] i1] w1] eqn:E; [|done].
      destruct (push_state _ _ _ _ _ _ Ht Hf E) as (Ht1 & Hf1 & Hm1).
      destruct (push_all i1 w1 (c2 :: cs)) as [[[k|] i2] w2] eqn:E2; cbn [push_all] in E2; rewrite E2 in H; [|done].
      injection H as <- <- <-. exists n1, (pending i1), w1. split; [by apply push_accepts; eauto|].
      intros i3 Hi3 Hm3. replace (n1 + k - n1) with k by lia.
      destruct (proj1 (IH i1 w1 c2 k p w2 Ht1 Hf1)) as (s & s' & f & Hl & Hloop); [by exists i2|].
      exists s, s', f. by rewrite Hi3, Hm3, <- Hm1.
    + intros (n1 & p1 & w1 & H1 & Hy). apply push_accepts in H1 as (i1 & E & Hp1); [|done..]. rewrite E.
      destruct (push_state _ _ _ _ _ _ Ht Hf E) as (Ht1 & Hf1 & Hm1).
      destruct (proj2 (IH i1 w1 c2 (n - n1) p w' Ht1 Hf1)) as (i2 & E2 & Hp2); [by apply Hy|].
      cbn [push_all] in E2. rewrite E2. exists i2. split; [|done]. do 3 f_equal. lia.
Qed.

(** How a stream is cut into chunks is not visible: pushing chunks one after the other
    succeeds exactly when pushing their concatenation does, and then the same frames were
    consumed in the same order, as many were appended and the same bytes are left over. *)
Theorem chunking_is_invisible i w c cs n p w' :
  terminal i = None -> finished i = false ->
  (exists i', push_all i w (c :: cs) = (inl n, i', w') /\ pending i' = p) <->
  (exists i', pushBytes i w (c ++ concat cs) = (inl n, i', w') /\ pending i' = p).
Proof.
  intros Ht Hf. transitivity (accepts i w (c ++ concat cs) n p w').
  2: { by rewrite <- (push_accepts i). }
  by apply push_all_accepts.
Qed.

(** ** Streams of frames *)

Definition encode_frame (f : list Z) : list Z := u32_bytes (blen f) ++ f.

Definition frame_ok (limit : Z) (f : list Z) : Prop :=
  8 <= blen f <= limit /\ blen f < 2 ^ 32 /\ printable_id (subarray f 4 8) = true.

(** Consuming frames one by one: how many were appended, or [None] when something threw. *)
Fixpoint consume_all w (fs : list (list Z)) : option (Z * W) :=
  match fs with
  | [] => Some (0, w)
  | f :: fs' =>
      match consume w (subarray f 4 8) f zero_stats with
      | (inl b, w1, _) =>
          match consume_all w1 fs' with
          | Some (n, w2) => Some (if b then n + 1 else n, w2)
          | None => None
          end
      | (inr _, _, _) => None
      end
  end.

Lemma frame_size_u32 v c : 0 <= v < 2 ^ 32 -> frame_size (u32_bytes v ++ c) = v.
Proof. intros Hv. pose proof (getUint32_app [] v c Hv) as H. by injection H. Qed.

Lemma consume_stats w fid p s b w1 s1 :
  consume w fid p s = (inl b, w1, s1) -> forall s2, exists s3, consume w fid p s2 = (inl b, w1, s3).
Proof.
  unfold consume. intros H s2. destruct (find_route fid) as [route|].
  - destruct (route w p) as [[[]|] w2]; [|destruct (appendRow w2 fid p) as [[] ?]|]; simplify_eq; eauto.
  - destruct (appendRow w fid p) as [[] ?]; simplify_eq; eauto.
Qed.

Lemma loop_frames limit fs : Forall (frame_ok limit) fs -> forall f w n w' s k,
  consume_all w fs = Some (n, w') -> (length (concat (map encode_frame fs)) < f)%nat ->
  exists s', ingest_loop f limit (concat (map encode_frame fs)) w s k = (inl (k + n, []), w', s').
Proof.
  induction 1 as [|fr fs (Hb & H32 & Hid) _ IH]; intros f w n w' s k; cbn [consume_all map concat].
  - intros [= <- <-] Hf. destruct f as [|f]; [lia|]. exists s. rewrite Z.add_0_r. done.
  - destruct (consume w _ fr zero_stats) as [[[b|] w1] s1] eqn:Ec; [|done].
    destruct (consume_all w1 fs) as [[n1 w2]|] eqn:Ea; [|done]. intros [= <- <-] Hf.
    destruct f as [|f]; [lia|].
    replace (encode_frame fr ++ concat (map encode_frame fs))
      with (u32_bytes (blen fr) ++ fr ++ concat (map encode_frame fs)) in * by (unfold encode_frame; app_eq).
    cbn [ingest_loop]. rewrite frame_size_u32 by lia.
    destruct (frame_parts (u32_bytes (blen fr)) fr (concat (map encode_frame fs)) eq_refl) as [-> ->].
    destruct (Z.leb_spec 4 (blen (u32_bytes (blen fr) ++ fr ++ concat (map encode_frame fs)))); [|blia].
    destruct (Z.ltb_spec (blen fr) 8); [lia|]. destruct (Z.ltb_spec limit (blen fr)); [lia|]. cbn [orb].
    destruct (Z.ltb_spec (blen (u32_bytes (blen fr) ++ fr ++ concat (map encode_frame fs)) - 4) (blen fr)); [blia|].
    rewrite Hid. cbn [negb]. destruct (consume_stats _ _ _ _ _ _ _ Ec (count_decoded s)) as (s3 & ->).
    destruct (IH f w1 n1 w2 s3 (if b then k + 1 else k) Ea) as (s4 & ->).
    { rewrite !length_app in Hf. unfold blen in Hb. lia. }
    exists s4. do 3 f_equal. destruct b; f_equal; lia.
Qed.

(** A stream of well-formed frames, cut into chunks anywhere, is taken whole: every
    frame is consumed once and in order, nothing is left over, and the stream can be
    finished. *)
Theorem stream_roundtrip i w fs n w' c cs :
  terminal i = None -> finished i = false -> pending i = [] -> Forall (frame_ok (maxFrameBytes i)) fs ->
  consume_all w fs = Some (n, w') -> c ++ concat cs = concat (map encode_frame fs) ->
  exists i', push_all i w (c :: cs) = (inl n, i', w') /\ pending i' = [] /\ (finish i').1 = inl 0.
Proof.
  intros Ht Hf Hp Hok Hall Hc.
  destruct (loop_frames _ _ Hok (S (length (concat (map encode_frame fs)))) w n w' zero_stats 0 Hall)
    as (s' & Hloop); [lia|].
  assert (Hacc : accepts i w (c ++ concat cs) n [] w').
  { exists zero_stats, s', (S (length (concat (map encode_frame fs)))). rewrite Hp, Hc. split; [simpl; lia|done]. }
  apply push_all_accepts in Hacc as (i' & H & Hp'); [|done..]. exists i'. split_and!; [done|done|].
  assert (Ht' : forall cs i w i' k w2, terminal i = None -> finished i = false ->
    push_all i w cs = (inl k, i', w2) -> terminal i' = None).
  { clear. induction cs as [|c cs IH]; intros i w i' k w2 Ht Hf; cbn [push_all]; [by intros [= _ <- _]|].
    destruct (pushBytes i w c) as [[[n1|] i1] w1] eqn:E; [|done].
    destruct (push_state _ _ _ _ _ _ Ht Hf E) as (Ht1 & Hf1 & _).
    destruct (push_all i1 w1 cs) as [[[k1|] i2] w3] eqn:E2; [|done]. intros [= _ <- _]. eauto. }
  unfold finish. pose proof (Ht' _ _ _ _ _ _ Ht Hf H) as Ht2. unfold terminal in *. cbn [failed pending].
  rewrite Ht2, Hp'. done.
Qed.
End ingest.

(** ** The frame size of the stream pump *)

(** [b0 | (b1 << 8) | (b2 << 16) | ((b3 << 24) >>> 0)]: the last operand is unsigned, but [|]
    makes a signed 32-bit number of it again. *)
Definition readFrameSize (bytes : list Z) (offset : Z) : Z :=
  js_or (js_or (js_or (num_or_0 (at_ bytes offset))
                      (js_shl (num_or_0 (at_ bytes (offset + 1))) 8))
               (js_shl (num_or_0 (at_ bytes (offset + 2))) 16))
        (js_ushr0 (js_shl (num_or_0 (at_ bytes (offset + 3))) 24)).

Lemma lor_shifted a b k : 0 <= k -> 0 <= a < 2 ^ k -> Z.lor a (b * 2 ^ k) = a + b * 2 ^ k.
Proof.
  intros Hk Ha. assert (Hland : Z.land a (b * 2 ^ k) = 0).
  { apply Z.bits_inj'. intros n Hn. rewrite Z.land_spec, Z.bits_0.
    destruct (Z_lt_ge_dec n k).
    - rewrite Z.mul_pow2_bits_low by lia. apply andb_false_r.
    - destruct (Z.eq_dec a 0) as [->|]; [by rewrite Z.bits_0|].
      rewrite Z.bits_above_log2; [done|lia|]. apply Z.lt_le_trans with k; [|lia].
      apply Z.log2_lt_pow2; lia. }
  by rewrite Z.add_nocarry_lxor, Z.lxor_lor.
Qed.

Lemma js_shl_byte x k : is_byte x -> 0 <= k <= 24 -> js_shl x k = to_int32 (x * 2 ^ k).
Proof.
  intros Hx Hk. unfold js_shl, is_byte in *. rewrite (to_int32_small x) by lia. by rewrite Z.shiftl_mul_pow2 by lia.
Qed.

Lemma readFrameSize_signed b off v :
  bytes_ok b -> getUint32 b off = Ok v -> readFrameSize b off = to_int32 v.
Proof.
  intros Hb. unfold getUint32, readFrameSize.
  destruct (at_ b off) as [b0|] eqn:E0; [|done]. destruct (at_ b (off + 1)) as [b1|] eqn:E1; [|done].
  destruct (at_ b (off + 2)) as [b2|] eqn:E2; [|done]. destruct (at_ b (off + 3)) as [b3|] eqn:E3; [|done].
  intros [= <-]. cbn [num_or_0].
  apply (at_Forall is_byte) in E0, E1, E2, E3; [|done..]. rewrite !js_shl_byte by (done || lia).
  unfold is_byte, js_or, js_ushr0, to_uint32 in *.
  rewrite !(to_int32_small b0), !(to_int32_small (b1 * 2 ^ 8)), !(to_int32_small (b2 * 2 ^ 16)) by lia.
  rewrite (lor_shifted b0 b1 8) by lia. rewrite (to_int32_small (b0 + b1 * 2 ^ 8)) by lia.
  rewrite (lor_shifted (b0 + b1 * 2 ^ 8) b2 16) by lia. rewrite (to_int32_small (b0 + b1 * 2 ^ 8 + b2 * 2 ^ 16)) by lia.
  assert (Hhi : to_int32 (to_int32 (b3 * 2 ^ 24) mod 2 ^ 32) = (if b3 <? 128 then b3 else b3 - 256) * 2 ^ 24).
  { apply Z.eqb_eq. apply (byte_forall (fun b3 =>
      to_int32 (to_int32 (b3 * 2 ^ 24) mod 2 ^ 32) =? (if b3 <? 128 then b3 else b3 - 256) * 2 ^ 24)); [|done].
    vm_compute. reflexivity. }
  rewrite Hhi, lor_shifted by lia. unfold to_int32, le_u32.
  rewrite Z.mod_small by lia.
  destruct (Z.ltb_spec b3 128), (Z.ltb_spec (b0 + 256 * b1 + 65536 * b2 + 16777216 * b3) (2 ^ 31)); lia.
Qed.

(** The pump reads the size of a frame as a signed number: the unsigned prefix when it
    is below 2^31, and a negative number, which the pump refuses as invalid, otherwise. *)
Theorem pump_frame_size_signed b off v :
  bytes_ok b -> getUint32 b off = Ok v -> readFrameSize b off = to_int32 v.
Proof. apply readFrameSize_signed. Qed.

Lemma pump_frame_size_signed_witness : readFrameSize [0; 0; 0; 0x80] 0 = - 2 ^ 31.
Proof. apply (pump_frame_size_signed [0; 0; 0; 0x80] 0 (2 ^ 31)); [closed_bytes|reflexivity]. Defined.

(** ** Concrete sinks *)

(** A sink that logs every row; a route for "FAIL" throws [undefined]. *)
Definition log_sink : Sink (list (list Z)) := {|
  find_route := fun fid =>
    if str_eqb fid (lit "FAIL") then Some (fun w _ => (inr ThrownFalsy, w)) else None;
  appendRow := fun w _ p => (None, w ++ [p]) |}.
#[local] Existing Instance log_sink.

Definition demo_frame (fid : string) : list Z := [1; 2; 3; 4] ++ lit fid.
Definition fresh_ingestor : ingestor := Ingestor DEFAULT_MAX_FRAME_BYTES zero_stats [] None false.

(** A route that throws a value that counts as false does not make the stream terminal:
    the chunk is dropped with the good frame behind the failing one, later chunks are
    accepted, and the stream finishes without an error. *)
Theorem falsy_failure_not_terminal :
  let bad := encode_frame (demo_frame "FAIL") ++ encode_frame (demo_frame "GOOD") in
  exists i1 i2, pushBytes fresh_ingestor [] bad = (inr ThrownFalsy, i1, []) /\
    pushBytes i1 [] (encode_frame (demo_frame "NEXT")) = (inl 1, i2, [demo_frame "NEXT"]) /\
    (finish i2).1 = inl 0.
Proof.
  intros bad. set (i1 := (pushBytes fresh_ingestor [] bad).1.2).
  exists i1, (pushBytes i1 [] (encode_frame (demo_frame "NEXT"))).1.2. split_and!; vm_compute; reflexivity.
Qed.

Lemma chunking_is_invisible_witness :
  exists i', push_all fresh_ingestor [] [[8; 0]; [0; 0; 1; 2; 3; 4; 71; 79]; [79; 68; 9]]
    = (inl 1, i', [demo_frame "GOOD"]) /\ pending i' = [9].
Proof.
  apply (chunking_is_invisible fresh_ingestor [] [8; 0] [[0; 0; 1; 2; 3; 4; 71; 79]; [79; 68; 9]] 1 [9]
           [demo_frame "GOOD"] eq_refl eq_refl).
  exists (pushBytes fresh_ingestor [] ([8; 0] ++ concat [[0; 0; 1; 2; 3; 4; 71; 79]; [79; 68; 9]])).1.2.
  split; vm_compute; reflexivity.
Defined.

Lemma stream_roundtrip_witness :
  exists i', push_all fresh_ingestor [] [[8; 0; 0]; [0; 1; 2; 3; 4; 71; 79; 79; 68]]
    = (inl 1, i', [demo_frame "GOOD"]) /\ pending i' = [] /\ (finish i').1 = inl 0.
Proof.
  apply (stream_roundtrip fresh_ingestor [] [demo_frame "GOOD"] 1 [demo_frame "GOOD"] [8; 0; 0]
           [[0; 1; 2; 3; 4; 71; 79; 79; 68]] eq_refl eq_refl eq_refl); [|reflexivity..].
  constructor; [|constructor]. split_and!; vm_compute; congruence || reflexivity.
Defined.
