(* ===== verification/StreamPump.v ===== *)
(** The module stream pump (src/host/moduleFlatbufferStreamPump.js): cuts a stream of
    size-prefixed FlatBuffers into frames, numbers them, and hands them to a module in batches.

    The module and the response callback are the class [Invoker]. Calls are taken one after
    the other, each one awaited before the next. The payload type reference and the template
    fields of a frame are not part of the model. *)
From Stdlib Require Import ZArith Lia.
From stdpp Require Import base list strings numbers.
From S2P Require Import Prelude JsText StreamIngest.
Open Scope Z_scope.

(** A frame as the module gets it. *)
Record in_frame := InFrame { f_payload : list Z; f_streamId : Z; f_sequence : Z; f_endOfStream : bool }.

(** The module's [invoke] and the embedder's [onResponse]: an answer or a thrown error. *)
Class Invoker (W R : Type) := {
  invoke : W -> list in_frame -> (R + js_error) * W;
  onResponse : W -> R -> option js_error * W
}.

Record pump_stats := PumpStats {
  ps_bytesReceived : Z; ps_chunksReceived : Z; ps_framesDecoded : Z; ps_framesInvoked : Z; ps_invokes : Z; ps_parseErrors : Z }.

Record pump (R : Type) := Pump {
  maxFramesPerInvoke : Z; streamId : Z; pstats : pump_stats;
  pendingBytes : list Z; pendingFrames : list (list Z * Z); nextSequence : Z; lastResponse : option R
}.
Arguments Pump {R} _ _ _ _ _ _ _.
Arguments maxFramesPerInvoke {R} _.
Arguments streamId {R} _.
Arguments pstats {R} _.
Arguments pendingBytes {R} _.
Arguments pendingFrames {R} _.
Arguments nextSequence {R} _.
Arguments lastResponse {R} _.

(** [normalizePositiveInteger]; [None] is a value that is no integer. *)
Definition normalizePositiveInteger (value : option Z) (fallback : Z) : Z :=
  match value with Some n => if n <=? 0 then fallback else n | None => fallback end.

Definition createModuleFlatBufferStreamPump {R} (maxFrames stream sequenceStart : option Z) : pump R :=
  Pump (normalizePositiveInteger maxFrames 1) (normalizePositiveInteger stream 1) (PumpStats 0 0 0 0 0 0) [] []
       (normalizePositiveInteger sequenceStart 1) None.

Definition readFileIdentifier (payload : list Z) : option jsstring :=
  if blen payload <? 8 then None else Some (subarray payload 4 8).
Definition normalizeSchemaFileId (fid : option jsstring) : option jsstring :=
  match fid with
  | None => None
  | Some s => if bool_decide (trim s = []) then None else Some (trim s)
  end.

Section pump.
Context {W R : Type} `{!Invoker W R}.

Definition to_frames (stream : Z) (isFinalBatch : bool) (frames : list (list Z * Z)) : list in_frame :=
  imap (fun index f => InFrame f.1 stream f.2 (isFinalBatch && Nat.eqb index (length frames - 1))) frames.

Definition flushPendingFrames (p : pump R) (w : W) (isFinalBatch : bool) : option js_error * pump R * W :=
  match pendingFrames p with
  | [] => (None, p, w)
  | _ :: _ =>
      let frames := to_frames (streamId p) isFinalBatch (pendingFrames p) in
      match invoke w frames with
      | (inr e, w) => (Some e, Pump (maxFramesPerInvoke p) (streamId p) (pstats p) (pendingBytes p) [] (nextSequence p) (lastResponse p), w)
      | (inl r, w) =>
          let s := pstats p in
          let s := PumpStats (ps_bytesReceived s) (ps_chunksReceived s) (ps_framesDecoded s)
                     (ps_framesInvoked s + blen frames) (ps_invokes s + 1) (ps_parseErrors s) in
          let p := Pump (maxFramesPerInvoke p) (streamId p) s (pendingBytes p) [] (nextSequence p) (Some r) in
          let (e, w) := onResponse w r in (e, p, w)
      end
  end.

Definition parse_error (p : pump R) : pump R :=
  let s := pstats p in
  Pump (maxFramesPerInvoke p) (streamId p)
    (PumpStats (ps_bytesReceived s) (ps_chunksReceived s) (ps_framesDecoded s) (ps_framesInvoked s) (ps_invokes s) (ps_parseErrors s + 1))
    (pendingBytes p) (pendingFrames p) (nextSequence p) (lastResponse p).

Definition add_frame (p : pump R) (payload : list Z) : pump R :=
  let s := pstats p in
  Pump (maxFramesPerInvoke p) (streamId p)
    (PumpStats (ps_bytesReceived s) (ps_chunksReceived s) (ps_framesDecoded s + 1) (ps_framesInvoked s) (ps_invokes s) (ps_parseErrors s))
    (pendingBytes p) (pendingFrames p ++ [(payload, nextSequence p)]) (nextSequence p + 1) (lastResponse p).

(** The loop of [pushBytes]; [rest] is [combined] from [offset] on. *)
Fixpoint pump_loop (fuel : nat) (rest : list Z) (p : pump R) (w : W) (decodedCount : Z) :
    (Z * list Z + js_error) * pump R * W :=
  match fuel with
  | O => (inl (decodedCount, rest), p, w)
  | S fuel' =>
      if 4 <=? blen rest then
        let frameSize := readFrameSize rest 0 in
        if frameSize <=? 0 then (inr (Error "Invalid FlatBuffer stream frame size."), parse_error p, w)
        else if blen rest <? 4 + frameSize then (inl (decodedCount, rest), p, w)
        else
          let payload := subarray rest 4 (4 + frameSize) in
          match normalizeSchemaFileId (readFileIdentifier payload) with
          | None => (inr (Error "FlatBuffer stream frame is missing a readable file identifier."), parse_error p, w)
          | Some _ =>
              let p := add_frame p payload in
              let '(e, p, w) :=
                if maxFramesPerInvoke p <=? blen (pendingFrames p) then flushPendingFrames p w false else (None, p, w) in
              match e with
              | Some e => (inr e, p, w)
              | None => pump_loop fuel' (subarray_from rest (4 + frameSize)) p w (decodedCount + 1)
              end
          end
      else (inl (decodedCount, rest), p, w)
  end.

Definition pushBytes (p : pump R) (w : W) (bytes : list Z) : (Z + js_error) * pump R * W :=
  let s := pstats p in
  let p := Pump (maxFramesPerInvoke p) (streamId p)
    (PumpStats (ps_bytesReceived s + blen bytes) (ps_chunksReceived s + 1) (ps_framesDecoded s) (ps_framesInvoked s) (ps_invokes s) (ps_parseErrors s))
    (pendingBytes p) (pendingFrames p) (nextSequence p) (lastResponse p) in
  let combined := pendingBytes p ++ bytes in
  match pump_loop (S (length combined)) combined p w 0 with
  | (inl (n, rest), p, w) =>
      (inl n, Pump (maxFramesPerInvoke p) (streamId p) (pstats p) rest (pendingFrames p) (nextSequence p) (lastResponse p), w)
  | (inr e, p, w) => (inr e, p, w)
  end.

Definition finish (p : pump R) (w : W) : option js_error * pump R * W :=
  if 0 <? blen (pendingBytes p) then (Some (Error "FlatBuffer stream ended with a partial frame."), p, w)
  else flushPendingFrames p w true.

(** A whole stream: the chunks, then [finish]. *)
Fixpoint pump_stream (p : pump R) (w : W) (chunks : list (list Z)) : option js_error * pump R * W :=
  match chunks with
  | [] => finish p w
  | c :: rest =>
      match pushBytes p w c with
      | (inr e, p, w) => (Some e, p, w)
      | (inl _, p, w) => pump_stream p w rest
      end
  end.

(** ** Delivery *)

(** The module never fails and the callback never throws. *)
Definition never_fails : Prop :=
  forall w fs, exists r, fst (invoke w fs) = inl r /\ fst (onResponse (snd (invoke w fs)) r) = None.

(** The world after a batch was handed over. *)
Definition deliver (w : W) (batch : list in_frame) : W :=
  match invoke w batch with (inl r, w) => snd (onResponse w r) | (inr _, w) => w end.

Definition pump_frame_ok (f : list Z) : Prop :=
  8 <= blen f < 2 ^ 31 /\ bytes_ok f /\ trim (subarray f 4 8) <> [].

(** The frames of a stream with their numbers. *)
Fixpoint numbered (stream n : Z) (fs : list (list Z)) : list in_frame :=
  match fs with
  | [] => []
  | f :: fs' => InFrame f stream n false :: numbered stream (n + 1) fs'
  end.

(** What has been delivered and what waits, after [fs] were decoded: full batches, then fewer
    frames than a batch has. *)
Record delivered (stream start max : Z) (w0 : W) (fs : list (list Z)) (p : pump R) (w : W) : Prop := {
  dl_max : maxFramesPerInvoke p = max;
  dl_stream : streamId p = stream;
  dl_next : nextSequence p = start + blen fs;
  dl_few : blen (pendingFrames p) < max;
  dl_batches : exists batches, w = fold_left deliver batches w0 /\
    Forall (fun b => blen b = max) batches /\
    concat batches ++ to_frames stream false (pendingFrames p) = numbered stream start fs
}.

Lemma to_frames_open stream l : to_frames stream false l = map (fun f => InFrame f.1 stream f.2 false) l.
Proof. unfold to_frames. generalize (length l). intros n. induction l as [|f l IH]; [done|]. rewrite imap_cons. cbn. by rewrite <- IH. Qed.

Lemma numbered_snoc stream fs : forall n f, numbered stream n (fs ++ [f]) = numbered stream n fs ++ [InFrame f stream (n + blen fs) false].
Proof.
  induction fs as [|g fs IH]; intros n f; cbn [numbered app].
  - do 2 f_equal. change (blen (@nil (list Z))) with 0. lia.
  - rewrite IH. do 3 f_equal. rewrite blen_cons. f_equal. lia.
Qed.

Hypothesis reliable : never_fails.

Lemma flush_ok p w b : pendingFrames p <> [] -> exists s r,
  flushPendingFrames p w b = (None, Pump (maxFramesPerInvoke p) (streamId p) s (pendingBytes p) [] (nextSequence p) r,
                              deliver w (to_frames (streamId p) b (pendingFrames p))).
Proof.
  intros Hne. unfold flushPendingFrames, deliver. destruct (pendingFrames p) as [|f l]; [done|].
  destruct (reliable w (to_frames (streamId p) b (f :: l))) as (r & Hi & Ho).
  destruct (invoke w _) as [o w1]. cbn in Hi, Ho. subst o. destruct (onResponse w1 r) as [e w2]. cbn in Ho. subst e. eauto.
Qed.

Section run.
Context (stream start max : Z) (w0 : W).
Abbreviation done_with := (delivered stream start max w0).

(** One more frame: it waits, or completes a batch that is handed over. *)
Lemma frame_round fs p w f : done_with fs p w ->
  exists p' w', (if maxFramesPerInvoke (add_frame p f) <=? blen (pendingFrames (add_frame p f))
                 then flushPendingFrames (add_frame p f) w false else (None, add_frame p f, w)) = (None, p', w') /\
    done_with (fs ++ [f]) p' w'.
Proof.
  intros [Hm Hst Hn Hf (bs & Hw & Hbs & Hcat)]. cbn [maxFramesPerInvoke pendingFrames add_frame].
  assert (Hnum : concat bs ++ to_frames stream false (pendingFrames p ++ [(f, nextSequence p)]) = numbered stream start (fs ++ [f])).
  { rewrite numbered_snoc, <- Hcat, !to_frames_open, map_app, app_assoc. cbn. by rewrite Hn. }
  destruct (Z.leb_spec (maxFramesPerInvoke p) (blen (pendingFrames p ++ [(f, nextSequence p)]))) as [Hfull|Hopen].
  - destruct (flush_ok (add_frame p f) w false) as (s & r & ->); [cbn; by destruct (pendingFrames p)|].
    eexists _, _. split; [done|]. constructor; cbn; try done.
    + rewrite Hn, blen_app. change (blen [f]) with 1. lia.
    + change (blen (@nil (list Z * Z))) with 0. pose proof (blen_nonneg (pendingFrames p)). lia.
    + exists (bs ++ [to_frames stream false (pendingFrames p ++ [(f, nextSequence p)])]).
      rewrite fold_left_app, <- Hw, Hst. split_and!; [done| |].
      * apply list.Forall_app. split; [done|]. apply Forall_singleton.
        rewrite blen_app in Hfull. change (blen [(f, nextSequence p)]) with 1 in Hfull.
        unfold blen in *. rewrite to_frames_open, length_map, length_app. cbn [length]. lia.
      * rewrite concat_app. cbn [concat]. rewrite app_nil_r. rewrite app_nil_r. done.
  - eexists _, _. split; [done|]. constructor; cbn; try done.
    + rewrite Hn, blen_app. change (blen [f]) with 1. lia.
    + lia.
    + by exists bs.
Qed.

Lemma frame_header f x y z : pump_frame_ok f -> 4 <= blen x -> bytes_ok x -> x ++ y = encode_frame f ++ z ->
  exists x1, x = u32_bytes (blen f) ++ x1 /\ x1 ++ y = f ++ z /\ readFrameSize x 0 = blen f.
Proof.
  intros (Hl & Hb & Hid) H4 Hx Hz. destruct (split_len x 4) as (h & x1 & -> & Hh); [lia|].
  unfold encode_frame in Hz. rewrite <- !app_assoc in Hz. apply app_inj_len in Hz as [-> Hz]; [|by rewrite Hh].
  exists x1. split_and!; [done|done|]. rewrite (readFrameSize_signed _ _ (blen f)); [apply to_int32_small; lia|done|].
  by apply (getUint32_app []); lia.
Qed.

Abbreviation encoded fs := (concat (map encode_frame fs)).

Lemma encoded_bytes fs : Forall pump_frame_ok fs -> bytes_ok (encoded fs).
Proof.
  induction 1 as [|f fs (_ & Hb & _) _ IH]; cbn [map concat]; [constructor|]. unfold encode_frame.
  rewrite !list.Forall_app. split_and!; [apply u32_bytes_ok|done|done].
Qed.

(** The loop on a part [x] of the stream takes its complete frames and leaves less than one. *)
Lemma loop_delivers fuel : forall fs x y before p w k, Forall pump_frame_ok fs -> x ++ y = encoded fs -> (length x < fuel)%nat ->
  done_with before p w ->
  exists fsa fsb x' p' w' n, fs = fsa ++ fsb /\ pump_loop fuel x p w k = (inl (n, x'), p', w') /\
    x' ++ y = encoded fsb /\ done_with (before ++ fsa) p' w' /\
    (forall f r, fsb = f :: r -> blen x' < blen (encode_frame f)).
Proof.
  induction fuel as [|fuel IH]; intros fs x y before p w k Hfs Hxy Hf Hd; [lia|]. cbn [pump_loop].
  assert (Hstop : (forall f r, fs = f :: r -> blen x < blen (encode_frame f)) ->
    exists fsa fsb x' p' w' n, fs = fsa ++ fsb /\ (inl (k, x), p, w) = (inl (n, x') : Z * list Z + js_error, p', w') /\
    x' ++ y = encoded fsb /\ done_with (before ++ fsa) p' w' /\ (forall f r, fsb = f :: r -> blen x' < blen (encode_frame f))).
  { intros H. exists [], fs, x, p, w, k. rewrite app_nil_r. done. }
  destruct (Z.leb_spec 4 (blen x)) as [H4|H4]; [|apply Hstop; intros f r _; unfold encode_frame; blia].
  destruct fs as [|f fs]; [destruct x; [unfold blen in H4; cbn in H4; lia|done]|].
  pose proof (encoded_bytes _ Hfs) as Hb. rewrite <- Hxy in Hb. apply list.Forall_app in Hb as [Hbx _].
  apply list.Forall_cons in Hfs as [Hok Hfs]. cbn [map concat] in Hxy.
  destruct (frame_header f x y _ Hok H4 Hbx Hxy) as (x1 & -> & Hx1 & Hsz). rewrite Hsz.
  destruct Hok as (Hl & _ & Hid). destruct (Z.leb_spec (blen f) 0); [lia|].
  destruct (Z.ltb_spec (blen (u32_bytes (blen f) ++ x1)) (4 + blen f)) as [Hin|Hin].
  { apply Hstop. intros f' r [= <- <-]. unfold encode_frame. clear Hstop. blia. }
  destruct (split_len x1 (blen f)) as (g & x2 & -> & Hg); [rewrite blen_app, blen_u32_bytes in Hin; lia|].
  rewrite <- app_assoc in Hx1. apply app_inj_len in Hx1 as [-> Hx2]; [|done].
  destruct (frame_parts (u32_bytes (blen f)) f x2 eq_refl) as [-> ->].
  unfold readFileIdentifier. destruct (Z.ltb_spec (blen f) 8); [lia|]. cbn [normalizeSchemaFileId].
  rewrite bool_decide_eq_false_2 by done.
  destruct (frame_round before p w f Hd) as (p1 & w1 & -> & Hd1).
  destruct (IH fs x2 y (before ++ [f]) p1 w1 (k + 1)) as (fsa & fsb & x' & p' & w' & n & -> & Hrun & Hx' & Hd' & Hlast); [done|done| |done|].
  { rewrite !length_app in Hf. unfold blen in *. cbn [length u32_bytes] in Hf. lia. }
  exists (f :: fsa), fsb, x', p', w', n. rewrite <- app_assoc in Hd'. done.
Qed.

(** A chunk keeps the pump ahead of the frames by less than one. *)
Lemma push_delivers fs c y before p w : Forall pump_frame_ok fs -> pendingBytes p ++ c ++ y = encoded fs -> done_with before p w ->
  exists fsa fsb p' w' n, fs = fsa ++ fsb /\ pushBytes p w c = (inl n, p', w') /\
    pendingBytes p' ++ y = encoded fsb /\ done_with (before ++ fsa) p' w' /\
    (forall f r, fsb = f :: r -> blen (pendingBytes p') < blen (encode_frame f)).
Proof.
  intros Hfs Hxy Hd. unfold pushBytes. cbn [pendingBytes]. set (p0 := Pump _ _ _ _ _ _ _).
  assert (Hd0 : done_with before p0 w) by (destruct Hd; by constructor).
  rewrite app_assoc in Hxy.
  destruct (loop_delivers (S (length (pendingBytes p ++ c))) fs _ y before p0 w 0 Hfs Hxy ltac:(lia) Hd0)
    as (fsa & fsb & x' & p' & w' & n & Hsplit & Hrun & Hx' & Hd' & Hlast).
  rewrite Hrun. exists fsa, fsb. eexists _, w', n. split_and!; [done|done|done| |done]. destruct Hd'; by constructor.
Qed.

Lemma stream_delivers chunks : forall fs before p w, Forall pump_frame_ok fs -> pendingBytes p ++ concat chunks = encoded fs ->
  done_with before p w -> (forall f r, fs = f :: r -> blen (pendingBytes p) < blen (encode_frame f)) ->
  exists p' w', pump_stream p w chunks = finish p' w' /\ pendingBytes p' = [] /\ done_with (before ++ fs) p' w'.
Proof.
  induction chunks as [|c chunks IH]; intros fs before p w Hfs Hxy Hd Hlast; cbn [pump_stream concat] in *.
  - rewrite app_nil_r in Hxy. destruct fs as [|f fs]; [exists p, w; by rewrite app_nil_r|].
    specialize (Hlast f fs eq_refl). rewrite Hxy in Hlast. cbn [map concat] in Hlast. blia.
  - destruct (push_delivers fs c (concat chunks) before p w Hfs Hxy Hd) as (fsa & fsb & p1 & w1 & n & -> & -> & Hx & Hd1 & Hl).
    apply list.Forall_app in Hfs as [_ Hfsb]. destruct (IH fsb _ p1 w1 Hfsb Hx Hd1 Hl) as (p' & w' & Hr & Hp & Hd').
    exists p', w'. by rewrite app_assoc.
Qed.
End run.

(** A batch with the end of the stream marked on its last frame. *)
Fixpoint close_last (l : list in_frame) : list in_frame :=
  match l with
  | [] => []
  | [f] => [InFrame (f_payload f) (f_streamId f) (f_sequence f) true]
  | f :: l' => f :: close_last l'
  end.

Lemma close_last_snoc l f : close_last (l ++ [f]) = l ++ [InFrame (f_payload f) (f_streamId f) (f_sequence f) true].
Proof. induction l as [|g l IH]; [done|]. cbn. rewrite IH. by destruct l. Qed.

Lemma close_last_app a b : b <> [] -> close_last (a ++ b) = a ++ close_last b.
Proof. intros Hb. induction a as [|g a IH]; [done|]. cbn. rewrite IH. by destruct (a ++ b) eqn:E; [destruct a, b|]. Qed.

Lemma to_frames_final stream l : to_frames stream true l = close_last (to_frames stream false l).
Proof.
  induction l as [|x l _] using rev_ind; [done|].
  rewrite to_frames_open, map_app. cbn [map]. rewrite close_last_snoc, <- to_frames_open. unfold to_frames.
  rewrite imap_app. cbn [f_payload f_streamId f_sequence imap]. rewrite length_app. cbn [length]. f_equal.
  - apply imap_ext. intros i f Hi%lookup_lt_Some. cbn [andb]. f_equal. apply Nat.eqb_neq. lia.
  - cbn. do 2 f_equal. apply Nat.eqb_eq. lia.
Qed.

Lemma blen_concat max (bs : list (list in_frame)) : Forall (fun b => blen b = max) bs -> blen (concat bs) = max * blen bs.
Proof.
  induction 1 as [|b bs Hb _ IH]; cbn [concat]; [change (blen (@nil in_frame)) with 0; change (blen (@nil (list in_frame))) with 0; lia|].
  rewrite blen_app, blen_cons, IH, Hb. lia.
Qed.
Lemma blen_numbered stream fs : forall n, blen (numbered stream n fs) = blen fs.
Proof. induction fs as [|f fs IH]; intros n; [done|]. cbn [numbered]. by rewrite !blen_cons, IH. Qed.

(** C36. However a stream of well-formed frames is cut into chunks, the module gets every
    frame once, in order and consecutively numbered, in batches of at most the configured
    size. The end of the stream is marked on the last frame exactly when the number of frames
    is not a multiple of the batch size. *)
Theorem pump_delivers_stream maxO streamO startO w0 chunks fs :
  Forall pump_frame_ok fs -> concat chunks = concat (map encode_frame fs) ->
  let p0 := createModuleFlatBufferStreamPump maxO streamO startO in
  let all := numbered (streamId p0) (nextSequence p0) fs in
  exists p' batches, pump_stream p0 w0 chunks = (None, p', fold_left deliver batches w0) /\
    Forall (fun b => 0 < blen b <= maxFramesPerInvoke p0) batches /\
    concat batches = if blen fs mod maxFramesPerInvoke p0 =? 0 then all else close_last all.
Proof.
  intros Hfs Hc p0 all. set (max := maxFramesPerInvoke p0).
  assert (Hmax : 0 < max) by (unfold max, p0; cbn; unfold normalizePositiveInteger; destruct maxO as [m|]; [destruct (Z.leb_spec m 0)|]; lia).
  assert (Hd0 : delivered (streamId p0) (nextSequence p0) max w0 [] p0 w0).
  { constructor; cbn; try done; [change (blen (@nil (list Z))) with 0; lia|]. by exists []. }
  destruct (stream_delivers _ _ max w0 chunks fs [] p0 w0 Hfs Hc Hd0) as (p' & w' & Hrun & Hpb & Hd).
  { intros f r _. cbn. unfold encode_frame. change (blen (@nil Z)) with 0. blia. }
  cbn [app] in Hd. destruct Hd as [Dm Ds Dn Df (bs & Hw & Hbs & Hcat)]. rewrite Hrun. unfold finish. rewrite Hpb.
  change (0 <? blen (@nil Z)) with false. cbv iota.
  assert (Hcount : blen fs = max * blen bs + blen (pendingFrames p')).
  { rewrite <- (blen_numbered (streamId p0) fs (nextSequence p0)), <- Hcat, blen_app, (blen_concat max) by done.
    rewrite to_frames_open. unfold blen. by rewrite length_map. }
  assert (Hmod : blen fs mod max = blen (pendingFrames p')).
  { rewrite Hcount, Z.mul_comm, Z.add_comm, Z_mod_plus_full. apply Z.mod_small. pose proof (blen_nonneg (pendingFrames p')). lia. }
  assert (Hsizes : Forall (fun b => 0 < blen b <= max) bs) by (eapply list.Forall_impl; [exact Hbs|]; cbv beta; lia).
  rewrite Hmod. destruct (pendingFrames p') as [|f l] eqn:Ep.
  - exists p', bs. unfold flushPendingFrames. rewrite Ep, <- Hw. split_and!; [done|done|].
    change (blen (@nil (list Z * Z)) =? 0) with true. cbv iota. by rewrite app_nil_r in Hcat.
  - destruct (flush_ok p' w' true) as (s & r & ->); [by rewrite Ep|].
    eexists _, (bs ++ [to_frames (streamId p0) true (f :: l)]). rewrite fold_left_app, <- Hw, Ds, Ep. split_and!; [done| |].
    + apply list.Forall_app. split; [done|]. apply Forall_singleton. unfold to_frames, blen in *. rewrite length_imap. cbn [length] in *. lia.
    + rewrite blen_cons. destruct (Z.eqb_spec (1 + blen l) 0); [pose proof (blen_nonneg l); lia|].
      unfold all. rewrite <- Hcat, concat_app. cbn [concat]. rewrite app_nil_r, to_frames_final.
      rewrite close_last_app; [done|]. by rewrite to_frames_open.
Qed.
End pump.

(** ** A module that logs its batches *)

Definition log_invoker : Invoker (list (list in_frame)) unit := {|
  invoke w fs := (inl tt, w ++ [fs]);
  onResponse w _ := (None, w)
|}.
#[local] Existing Instance log_invoker.

Definition demo_stream : list (list Z) := [[1; 2; 3; 4] ++ lit "OMM1"; [5; 6; 7; 8] ++ lit "OMM1"; [9; 9; 9; 9] ++ lit "OMM1"].

Lemma log_never_fails : never_fails (W := list (list in_frame)) (R := unit).
Proof. intros w fs. exists tt. done. Qed.

Lemma pump_delivers_stream_witness :
  exists p' batches, pump_stream (createModuleFlatBufferStreamPump (Some 2) None None) []
      [take 5 (concat (map encode_frame demo_stream)); drop 5 (concat (map encode_frame demo_stream))] =
      (None, p', fold_left deliver batches []) /\
    Forall (fun b => 0 < blen b <= 2) batches /\ concat batches = close_last (numbered 1 1 demo_stream).
Proof.
  apply (pump_delivers_stream log_never_fails (Some 2) None None []
    [take 5 (concat (map encode_frame demo_stream)); drop 5 (concat (map encode_frame demo_stream))] demo_stream); [|reflexivity].
  apply list.Forall_cons; split; [|apply list.Forall_cons; split; [|apply list.Forall_cons; split; [|apply Forall_nil_2]]];
    (split; [vm_compute; split; congruence|split; [closed_bytes|vm_compute; congruence]]).
Defined.

(** With the default batch size no frame is ever marked as the end of its stream: the last
    frame is handed over before [finish], which then has no frame to mark. *)
Theorem default_batches_never_marked :
  (pump_stream (createModuleFlatBufferStreamPump None None None) [] [concat (map encode_frame demo_stream)]).2 =
    map (fun f => [f]) (numbered 1 1 demo_stream) /\
  forallb (fun f => negb (f_endOfStream f)) (numbered 1 1 demo_stream) = true.
Proof. split; vm_compute; reflexivity. Qed.
