(* ===== verification/HostcallWire.v ===== *)
(** The binary hostcall wire format (src/host/hostcallWire.js).

    [detachBinaryValues] takes the byte arrays out of a structured value and leaves numbered
    references, [attachBinaryValues] puts them back; an envelope holds the JSON text of the
    resulting document and the byte arrays as length-prefixed segments. The JSON text is
    handled here as the bytes that [JSON.stringify] gave and [JSON.parse] gets. *)
From Stdlib Require Import ZArith QArith Lia.
From stdpp Require Import base list strings numbers.
From S2P Require Import Prelude JsText JsMap.
Open Scope Z_scope.

(** ** Structured values *)

(** A date is its ISO string, a bigint its decimal digits; an object is the list of its own
    enumerable properties in order. *)
#[warnings="-register-all"]
Inductive jsval : Type :=
| JUndefined
| JNull
| JBool (b : bool)
| JNum (n : jsnum)
| JStr (s : jsstring)
| JBytes (b : list Z)
| JDate (iso : jsstring)
| JBig (digits : jsstring)
| JArr (l : list jsval)
| JObj (l : list (jsstring * jsval)).

Definition HOSTCALL_BINARY_REF_KEY : jsstring := lit "$bin".

Definition is_undefined (v : jsval) : bool := match v with JUndefined => true | _ => false end.

(** The value without its byte arrays, and [segments] after the call. *)
Fixpoint detachBinaryValues (v : jsval) (segments : list (list Z)) : jsval * list (list Z) :=
  match v with
  | JUndefined | JNull => (JNull, segments)
  | JBytes b => (JObj [(HOSTCALL_BINARY_REF_KEY, JNum (int_num (blen segments)))], segments ++ [b])
  | JDate iso => (JStr iso, segments)
  | JBig digits => (JStr digits, segments)
  | JArr l =>
      let fix go (l : list jsval) segments :=
        match l with
        | [] => ([], segments)
        | x :: l' =>
            let (y, segments) := detachBinaryValues x segments in
            let (ys, segments) := go l' segments in (y :: ys, segments)
        end in
      let (l', segments) := go l segments in (JArr l', segments)
  | JObj l =>
      let fix go (l : list (jsstring * jsval)) segments :=
        match l with
        | [] => ([], segments)
        | (k, x) :: l' =>
            if is_undefined x then go l' segments
            else
              let (y, segments) := detachBinaryValues x segments in
              let (ys, segments) := go l' segments in ((k, y) :: ys, segments)
        end in
      let (l', segments) := go l segments in (JObj l', segments)
  | JBool _ | JNum _ | JStr _ => (v, segments)
  end.

(** The segment an index refers to. *)
Definition segment_at (index : jsval) (segments : list (list Z)) : result jsval :=
  match index with
  | JNum n =>
      match as_integer n with
      | Some i =>
          throw_if (i <? 0) || (blen segments <=? i)
            with RangeError "Hostcall envelope references missing binary segment";
          match at_ segments i with Some b => Ok (JBytes b) | None => Ok JUndefined end
      | None => Throw (RangeError "Hostcall envelope references missing binary segment")
      end
  | _ => Throw (RangeError "Hostcall envelope references missing binary segment")
  end.

Fixpoint attachBinaryValues (v : jsval) (segments : list (list Z)) : result jsval :=
  match v with
  | JArr l =>
      let fix go (l : list jsval) : result (list jsval) :=
        match l with
        | [] => Ok []
        | x :: l' => let! y := attachBinaryValues x segments in let! ys := go l' in Ok (y :: ys)
        end in
      let! l' := go l in Ok (JArr l')
  | JObj l =>
      match l with
      | [(k, index)] =>
          if str_eqb k HOSTCALL_BINARY_REF_KEY then segment_at index segments
          else let! y := attachBinaryValues index segments in Ok (JObj [(k, y)])
      | _ =>
          let fix go (l : list (jsstring * jsval)) : result (list (jsstring * jsval)) :=
            match l with
            | [] => Ok []
            | (k, x) :: l' => let! y := attachBinaryValues x segments in let! ys := go l' in Ok ((k, y) :: ys)
            end in
          let! l' := go l in Ok (JObj l')
      end
  | _ => Ok v
  end.

(** ** Envelopes *)

Fixpoint encode_segments (segments : list (list Z)) : list Z :=
  match segments with
  | [] => []
  | s :: rest => u32_bytes (blen s) ++ s ++ encode_segments rest
  end.

(** [metaBytes] is the UTF-8 text of [JSON.stringify(meta ?? null)]; [setUint32] writes a
    length modulo 2^32. *)
Definition encodeHostcallEnvelope (metaBytes : list Z) (segments : list (list Z)) : list Z :=
  u32_bytes (blen metaBytes) ++ metaBytes ++ u32_bytes (blen segments) ++ encode_segments segments.

(** The loop over the segments. A round takes at least four bytes. *)
Fixpoint decode_segments (fuel : nat) (bytes : list Z) (index segmentCount offset : Z) : result (list (list Z)) :=
  if index <? segmentCount then
    match fuel with
    | O => Throw (Error "fuel")
    | S fuel' =>
        throw_if blen bytes <? offset + 4 with RangeError "Hostcall envelope segment table is truncated.";
        let! segmentLength := getUint32 bytes offset in
        let offset := offset + 4 in
        throw_if blen bytes <? offset + segmentLength
          with RangeError "Hostcall envelope segment exceeds envelope bounds.";
        let! rest := decode_segments fuel' bytes (index + 1) segmentCount (offset + segmentLength) in
        Ok (subarray bytes offset (offset + segmentLength) :: rest)
    end
  else Ok [].

(** The bytes of the meta text and the segments. *)
Definition decodeHostcallEnvelope (bytes : list Z) : result (list Z * list (list Z)) :=
  throw_if blen bytes <? 8 with RangeError "Hostcall envelope is truncated.";
  let! metaLength := getUint32 bytes 0 in
  throw_if blen bytes <? 4 + metaLength + 4 with RangeError "Hostcall envelope meta exceeds envelope bounds.";
  let meta := subarray bytes 4 (4 + metaLength) in
  let! segmentCount := getUint32 bytes (4 + metaLength) in
  let! segments := decode_segments (length bytes) bytes 0 segmentCount (4 + metaLength + 4) in
  Ok (meta, segments).

(** ** Induction on structured values *)

Section jsval_ind.
Context (P : jsval -> Prop)
  (Hatom : forall v, (forall l, v <> JArr l) -> (forall l, v <> JObj l) -> P v)
  (Harr : forall l, Forall P l -> P (JArr l))
  (Hobj : forall l, Forall (fun kv => P kv.2) l -> P (JObj l)).

Fixpoint jsval_deep (v : jsval) : P v :=
  match v return P v with
  | JArr l =>
      Harr l ((fix go l : Forall P l :=
        match l with [] => Forall_nil_2 P | x :: l' => Forall_cons_2 _ x l' (jsval_deep x) (go l') end) l)
  | JObj l =>
      Hobj l ((fix go l : Forall (fun kv => P kv.2) l :=
        match l with
        | [] => Forall_nil_2 _
        | x :: l' => Forall_cons_2 _ x l' (jsval_deep x.2) (go l')
        end) l)
  | v => Hatom v ltac:(by intros) ltac:(by intros)
  end.
End jsval_ind.

(** ** Detaching and attaching *)

Fixpoint detach_list (l : list jsval) (segments : list (list Z)) : list jsval * list (list Z) :=
  match l with
  | [] => ([], segments)
  | x :: l' =>
      let (y, segments) := detachBinaryValues x segments in
      let (ys, segments) := detach_list l' segments in (y :: ys, segments)
  end.
Fixpoint detach_fields (l : list (jsstring * jsval)) (segments : list (list Z)) :
    list (jsstring * jsval) * list (list Z) :=
  match l with
  | [] => ([], segments)
  | (k, x) :: l' =>
      if is_undefined x then detach_fields l' segments
      else
        let (y, segments) := detachBinaryValues x segments in
        let (ys, segments) := detach_fields l' segments in ((k, y) :: ys, segments)
  end.
Definition attach_list (segments : list (list Z)) : list jsval -> result (list jsval) :=
  fix go l :=
    match l with
    | [] => Ok []
    | x :: l' => let! y := attachBinaryValues x segments in let! ys := go l' in Ok (y :: ys)
    end.
Definition attach_fields (segments : list (list Z)) :
    list (jsstring * jsval) -> result (list (jsstring * jsval)) :=
  fix go l :=
    match l with
    | [] => Ok []
    | (k, x) :: l' => let! y := attachBinaryValues x segments in let! ys := go l' in Ok ((k, y) :: ys)
    end.

Lemma detach_arr l segs :
  detachBinaryValues (JArr l) segs = let (l', s) := detach_list l segs in (JArr l', s).
Proof. reflexivity. Qed.
Lemma detach_obj l segs :
  detachBinaryValues (JObj l) segs = let (l', s) := detach_fields l segs in (JObj l', s).
Proof. reflexivity. Qed.
Lemma attach_arr l segs : attachBinaryValues (JArr l) segs = let! l' := attach_list segs l in Ok (JArr l').
Proof. reflexivity. Qed.

Definition is_ref (l : list (jsstring * jsval)) : bool :=
  match l with [(k, _)] => str_eqb k HOSTCALL_BINARY_REF_KEY | _ => false end.

Lemma attach_obj l segs : is_ref l = false ->
  attachBinaryValues (JObj l) segs = let! l' := attach_fields segs l in Ok (JObj l').
Proof.
  destruct l as [|[k x] [|[k2 x2] l]]; [reflexivity| |reflexivity].
  intros Hk. cbn [is_ref] in Hk. cbn [attachBinaryValues]. unfold attach_fields. rewrite Hk.
  by destruct (attachBinaryValues x segs).
Qed.

(** Values the format keeps: no undefined, no date or bigint (which become strings), and no
    object that looks like a reference. *)
Fixpoint plain (v : jsval) : bool :=
  match v with
  | JUndefined | JDate _ | JBig _ => false
  | JArr l => forallb plain l
  | JObj l => negb (is_ref l) && forallb (fun kv => plain kv.2) l
  | _ => true
  end.

(** [v'] with these segments, and any more, stands for [v]. *)
Definition stands_for (v' v : jsval) (segs : list (list Z)) : Prop :=
  forall more, attachBinaryValues v' (segs ++ more) = Ok v.

Definition detach_spec (v : jsval) : Prop :=
  plain v = true -> forall segs v' segs', detachBinaryValues v segs = (v', segs') ->
  (exists new, segs' = segs ++ new) /\ stands_for v' v segs'.

Lemma stands_for_more v' v segs new : stands_for v' v segs -> stands_for v' v (segs ++ new).
Proof. intros H more. rewrite <- app_assoc. apply H. Qed.

Lemma detach_bytes b segs :
  stands_for (JObj [(HOSTCALL_BINARY_REF_KEY, JNum (int_num (blen segs)))]) (JBytes b) (segs ++ [b]).
Proof.
  intros more. rewrite <- app_assoc. unfold HOSTCALL_BINARY_REF_KEY.
  change (segment_at (JNum (int_num (blen segs))) (segs ++ [b] ++ more) = Ok (JBytes b)).
  unfold segment_at. rewrite as_integer_int, at_app_here.
  destruct (Z.ltb_spec (blen segs) 0); [blia|]. cbn [orb].
  by destruct (Z.leb_spec (blen (segs ++ [b] ++ more)) (blen segs)); [blia|].
Qed.

Lemma detach_list_spec l : Forall detach_spec l -> forallb plain l = true ->
  forall segs l' segs', detach_list l segs = (l', segs') ->
  (exists new, segs' = segs ++ new) /\ forall more, attach_list (segs' ++ more) l' = Ok l.
Proof.
  induction 1 as [|x l Hx _ IH]; cbn; intros Hp segs l' segs'.
  { intros [= <- <-]. split; [exists []; by rewrite app_nil_r|done]. }
  apply andb_true_iff in Hp as [Hp1 Hp2].
  destruct (detachBinaryValues x segs) as [y s1] eqn:Ex.
  destruct (detach_list l s1) as [ys s2] eqn:El. intros [= <- <-].
  destruct (Hx Hp1 _ _ _ Ex) as [[n1 ->] H1]. destruct (IH Hp2 _ _ _ El) as [[n2 ->] H2].
  split; [exists (n1 ++ n2); by rewrite app_assoc|]. intros more. cbn.
  rewrite (stands_for_more _ _ _ n2 H1). cbn. specialize (H2 more). unfold attach_list, attach_fields in *. by rewrite H2.
Qed.

Lemma plain_defined x : plain x = true -> is_undefined x = false.
Proof. by destruct x. Qed.

Lemma detach_fields_spec l : Forall (fun kv => detach_spec kv.2) l ->
  forallb (fun kv => plain kv.2) l = true -> forall segs l' segs', detach_fields l segs = (l', segs') ->
  (exists new, segs' = segs ++ new) /\ map fst l' = map fst l /\
  forall more, attach_fields (segs' ++ more) l' = Ok l.
Proof.
  induction 1 as [|[k x] l Hx _ IH]; cbn; intros Hp segs l' segs'.
  { intros [= <- <-]. split; [exists []; by rewrite app_nil_r|done]. }
  apply andb_true_iff in Hp as [Hp1 Hp2]. rewrite (plain_defined x Hp1).
  destruct (detachBinaryValues x segs) as [y s1] eqn:Ex.
  destruct (detach_fields l s1) as [ys s2] eqn:El. intros [= <- <-].
  destruct (Hx Hp1 _ _ _ Ex) as [[n1 ->] H1]. destruct (IH Hp2 _ _ _ El) as ([n2 ->] & Hk & H2).
  split_and!; [exists (n1 ++ n2); by rewrite app_assoc|cbn; by rewrite Hk|]. intros more. cbn.
  rewrite (stands_for_more _ _ _ n2 H1). cbn. specialize (H2 more). unfold attach_list, attach_fields in *. by rewrite H2.
Qed.

Lemma is_ref_keys l l' : map fst l' = map fst l -> is_ref l' = is_ref l.
Proof. destruct l as [|[] [|[]]], l' as [|[] [|[]]]; try done. cbn. by intros [= ->]. Qed.

Lemma detach_all v : detach_spec v.
Proof.
  induction v as [v Ha Ho|l IH|l IH] using jsval_deep; intros Hp segs v' segs'.
  - destruct v; try done; try (by edestruct Ha); try (by edestruct Ho);
      cbn [detachBinaryValues]; intros [= <- <-]; try (split; [exists []; by rewrite app_nil_r|done]).
    split; [by eexists|apply detach_bytes].
  - rewrite detach_arr. destruct (detach_list l segs) as [l' s] eqn:E. intros [= <- <-].
    destruct (detach_list_spec l IH Hp _ _ _ E) as [Hn Hat]. split; [done|].
    intros more. by rewrite attach_arr, Hat.
  - rewrite detach_obj. destruct (detach_fields l segs) as [l' s] eqn:E. intros [= <- <-].
    cbn [plain] in Hp. apply andb_true_iff in Hp as [Hr Hp].
    destruct (detach_fields_spec l IH Hp _ _ _ E) as (Hn & Hk & Hat). split; [done|].
    intros more. rewrite attach_obj by (rewrite (is_ref_keys _ _ Hk); by apply negb_true_iff). by rewrite Hat.
Qed.

(** Attaching the segments to a detached value gives the value back, when it holds no
    undefined, date or bigint and no object that has the form of a reference. *)
Theorem detach_attach_roundtrip v v' segments :
  plain v = true -> detachBinaryValues v [] = (v', segments) -> attachBinaryValues v' segments = Ok v.
Proof.
  intros Hp H. destruct (detach_all v Hp _ _ _ H) as [_ Hs]. specialize (Hs []).
  by rewrite app_nil_r in Hs.
Qed.

(** An object that has the form of a reference is not kept: here the second field, an
    object with the one key "$bin", comes back as the bytes of the first. *)
Theorem reference_shaped_object_replaced :
  let v := JObj [(lit "a", JBytes [1; 2]); (lit "b", JObj [(lit "$bin", JNum (int_num 0))])] in
  let (v', segments) := detachBinaryValues v [] in
  attachBinaryValues v' segments = Ok (JObj [(lit "a", JBytes [1; 2]); (lit "b", JBytes [1; 2])]).
Proof. vm_compute. reflexivity. Qed.

(** ** The envelope *)

Lemma decode_segments_at segs : forall fuel bytes i n off pre post,
  Forall (fun s => blen s < 2 ^ 32) segs -> bytes = pre ++ encode_segments segs ++ post ->
  off = blen pre -> n = i + blen segs -> (length segs <= fuel)%nat ->
  decode_segments fuel bytes i n off = Ok segs.
Proof.
  induction segs as [|s segs IH]; intros fuel bytes i n off pre post Hs -> -> -> Hf.
  - destruct fuel; cbn [decode_segments]; (destruct (Z.ltb_spec i (i + blen (@nil (list Z)))); [blia|done]).
  - destruct fuel as [|fuel]; [simpl in Hf; lia|]. cbn [decode_segments].
    apply list.Forall_cons in Hs as [Hs1 Hs]. pose proof (blen_nonneg s).
    destruct (Z.ltb_spec i (i + blen (s :: segs))); [|blia]. cbn [encode_segments].
    replace (pre ++ (u32_bytes (blen s) ++ s ++ encode_segments segs) ++ post)
      with (pre ++ u32_bytes (blen s) ++ (s ++ encode_segments segs ++ post)) by app_eq.
    destruct (Z.ltb_spec (blen (pre ++ u32_bytes (blen s) ++ s ++ encode_segments segs ++ post)) (blen pre + 4)); [blia|].
    rewrite getUint32_app by lia. cbn [rbind].
    destruct (Z.ltb_spec (blen (pre ++ u32_bytes (blen s) ++ s ++ encode_segments segs ++ post)) (blen pre + 4 + blen s)); [blia|].
    rewrite (IH fuel _ (i + 1) _ _ (pre ++ u32_bytes (blen s) ++ s) post); [|done|app_eq|blia|blia|simpl in Hf; lia].
    cbn [rbind]. f_equal. f_equal.
    replace (pre ++ u32_bytes (blen s) ++ s ++ encode_segments segs ++ post)
      with ((pre ++ u32_bytes (blen s)) ++ s ++ encode_segments segs ++ post) by app_eq.
    rewrite subarray_app by blia. done.
Qed.

Lemma encode_segments_len segs : (length segs <= length (encode_segments segs))%nat.
Proof. induction segs as [|s segs IH]; [done|]. cbn. rewrite length_app. lia. Qed.

Lemma decode_encode_envelope meta segments extra :
  blen meta < 2 ^ 32 -> blen segments < 2 ^ 32 -> Forall (fun s => blen s < 2 ^ 32) segments ->
  decodeHostcallEnvelope (encodeHostcallEnvelope meta segments ++ extra) = Ok (meta, segments).
Proof.
  intros Hm Hn Hs. unfold decodeHostcallEnvelope, encodeHostcallEnvelope.
  pose proof (blen_nonneg meta). pose proof (blen_nonneg segments).
  set (tail := u32_bytes (blen segments) ++ encode_segments segments ++ extra).
  replace ((u32_bytes (blen meta) ++ meta ++ u32_bytes (blen segments) ++ encode_segments segments) ++ extra)
    with (u32_bytes (blen meta) ++ meta ++ tail) by (unfold tail; app_eq).
  set (b := u32_bytes (blen meta) ++ meta ++ tail).
  assert (Hlen : blen b = 4 + blen meta + 4 + blen (encode_segments segments ++ extra)) by (unfold b, tail; blia).
  pose proof (blen_nonneg (encode_segments segments ++ extra)).
  destruct (Z.ltb_spec (blen b) 8); [lia|].
  assert (Hg : getUint32 b 0 = Ok (blen meta)) by (apply (getUint32_app []); lia). rewrite Hg. cbn [rbind].
  destruct (Z.ltb_spec (blen b) (4 + blen meta + 4)); [lia|].
  assert (Hg2 : getUint32 b (4 + blen meta) = Ok (blen segments)).
  { replace b with ((u32_bytes (blen meta) ++ meta) ++ tail) by (unfold b; app_eq).
    replace (4 + blen meta) with (blen (u32_bytes (blen meta) ++ meta)) by blia. apply getUint32_app. lia. }
  rewrite Hg2. cbn [rbind].
  rewrite (decode_segments_at segments _ b 0 _ _ ((u32_bytes (blen meta) ++ meta) ++ u32_bytes (blen segments)) extra);
    [|done|unfold b, tail; app_eq|blia|done|].
  - cbn [rbind]. unfold b. rewrite subarray_app by blia. done.
  - pose proof (encode_segments_len segments). unfold b, tail. rewrite !length_app. lia.
Qed.

(** Decoding an encoded envelope gives back the meta text and the segments, as long as
    the lengths fit their 32-bit fields; bytes after the envelope do not matter. *)
Theorem envelope_roundtrip meta segments extra :
  blen meta < 2 ^ 32 -> blen segments < 2 ^ 32 -> Forall (fun s => blen s < 2 ^ 32) segments ->
  decodeHostcallEnvelope (encodeHostcallEnvelope meta segments ++ extra) = Ok (meta, segments).
Proof. apply decode_encode_envelope. Qed.


Lemma u32_bytes_of h : bytes_ok h -> blen h = 4 -> exists v, 0 <= v < 2 ^ 32 /\ h = u32_bytes v.
Proof.
  intros Hb Hl. destruct h as [|b0 [|b1 [|b2 [|b3 [|? ?]]]]]; unfold blen in Hl; simpl in Hl; try lia.
  repeat match goal with H : Forall _ (_ :: _) |- _ => apply list.Forall_cons in H as [? ?] end.
  unfold is_byte in *. exists (le_u32 b0 b1 b2 b3). unfold le_u32, u32_bytes. split; [lia|].
  repeat f_equal; Z.div_mod_to_equations; lia.
Qed.

Lemma decode_segments_inv fuel : forall bytes i n off segs, bytes_ok bytes -> 0 <= off <= blen bytes ->
  decode_segments fuel bytes i n off = Ok segs ->
  exists pre post, bytes = pre ++ encode_segments segs ++ post /\ blen pre = off /\
    blen segs = Z.max 0 (n - i).
Proof.
  induction fuel as [|fuel IH]; intros bytes i n off segs Hb Ho; cbn [decode_segments];
    (destruct (Z.ltb_spec i n); [|intros [= <-]; destruct (split_len bytes off) as (a & z & -> & Ha); [done|];
      exists a, z; split_and!; [done|done|unfold blen; simpl; lia]]); [done|].
  intros H0. js_inv H0. apply Z.ltb_ge in E, E1. pose proof (getUint32_range _ _ _ Hb E0) as Hx.
  destruct (split_len bytes off) as (a & y & -> & Ha); [lia|].
  destruct (split_len y 4) as (h & z & -> & Hh); [blia|].
  destruct (split_len z x) as (s & t & -> & Hs); [blia|].
  assert (Hbh : bytes_ok h) by (apply Forall_app in Hb as [_ Hb]; by apply Forall_app in Hb as [? _]).
  destruct (u32_bytes_of h Hbh Hh) as (v & Hv & ->). subst off. rewrite getUint32_app in E0 by done.
  injection E0 as ->. subst x.
  apply IH in E2 as (pre & post & Hbytes & Hpre & Hlen); [|done|blia].
  assert (pre = a ++ u32_bytes (blen s) ++ s /\ encode_segments x0 ++ post = t) as [-> <-].
  { apply app_inj_len; [blia|]. rewrite <- Hbytes. app_eq. }
  exists a, post. split_and!; [|done|blia]. cbn [encode_segments].
  replace (a ++ u32_bytes (blen s) ++ s ++ encode_segments x0 ++ post)
    with ((a ++ u32_bytes (blen s)) ++ s ++ encode_segments x0 ++ post) by app_eq.
  rewrite subarray_app by blia. app_eq.
Qed.

(** The decoder accepts only envelopes: whatever it accepts is the encoding of what it
    returns, followed by bytes it does not look at, so no segment reaches outside. *)
Theorem envelope_decode_sound bytes meta segments :
  bytes_ok bytes -> decodeHostcallEnvelope bytes = Ok (meta, segments) ->
  exists extra, bytes = encodeHostcallEnvelope meta segments ++ extra.
Proof.
  intros Hb H. unfold decodeHostcallEnvelope in H. js_inv H. apply Z.ltb_ge in E, E1.
  rename x into m. rename x0 into n.
  pose proof (getUint32_range _ _ _ Hb E0) as Hm. pose proof (getUint32_range _ _ _ Hb E2) as Hn.
  destruct (split_len bytes 4) as (h & y & -> & Hh); [lia|].
  destruct (split_len y m) as (mt & z & -> & Hmt); [blia|].
  destruct (split_len z 4) as (h2 & t & -> & Hh2); [blia|].
  assert (Hb1 : bytes_ok h /\ bytes_ok h2).
  { apply Forall_app in Hb as [? Hb]. apply Forall_app in Hb as [_ Hb]. apply Forall_app in Hb as [? _]. done. }
  destruct Hb1 as [Hb1 Hb2].
  destruct (u32_bytes_of h Hb1 Hh) as (v & Hv & ->). destruct (u32_bytes_of h2 Hb2 Hh2) as (u & Hu & ->).
  assert (Hg : getUint32 (u32_bytes v ++ mt ++ u32_bytes u ++ t) 0 = Ok v) by (by apply (getUint32_app [])).
  rewrite Hg in E0. injection E0 as ->.
  replace (u32_bytes m ++ mt ++ u32_bytes u ++ t) with ((u32_bytes m ++ mt) ++ u32_bytes u ++ t) in E2 by app_eq.
  replace (4 + m) with (blen (u32_bytes m ++ mt)) in E2 by blia. rewrite getUint32_app in E2 by done.
  injection E2 as ->.
  apply decode_segments_inv in E3 as (pre & post & Hbytes & Hpre & Hlen); [|done|blia].
  assert (pre = u32_bytes m ++ mt ++ u32_bytes n /\ encode_segments segments ++ post = t) as [-> <-].
  { apply app_inj_len; [blia|]. rewrite <- Hbytes. app_eq. }
  exists post. unfold encodeHostcallEnvelope. rewrite subarray_app by blia. rewrite Hlen, Z.sub_0_r, Z.max_r by lia.
  rewrite Hmt. app_eq.
Qed.

Lemma detach_attach_roundtrip_witness :
  attachBinaryValues (JArr [JObj [(lit "$bin", JNum (int_num 0))]; JNull]) [[7; 8]] = Ok (JArr [JBytes [7; 8]; JNull]).
Proof. apply (detach_attach_roundtrip (JArr [JBytes [7; 8]; JNull])); reflexivity. Defined.

Lemma envelope_roundtrip_witness :
  decodeHostcallEnvelope (encodeHostcallEnvelope (lit "{}") [[1]; []] ++ [9]) = Ok (lit "{}", [[1]; []]).
Proof. apply (envelope_roundtrip (lit "{}") [[1]; []] [9]); [by vm_compute..|repeat constructor]. Defined.

Lemma envelope_decode_sound_witness :
  exists extra, [2; 0; 0; 0; 123; 125; 1; 0; 0; 0; 1; 0; 0; 0; 5; 6]
    = encodeHostcallEnvelope [123; 125] [[5]] ++ extra.
Proof. apply (envelope_decode_sound _ [123; 125] [[5]]); [closed_bytes|by vm_compute]. Defined.
