(* ===== verification/SabChannel.v ===== *)
(** The SharedArrayBuffer hostcall channel (src/host/sabHostcallChannel.js).

    A worker posts a request and blocks on a state word of a shared buffer; the controlling
    thread runs the request, writes the response envelope into the buffer and wakes the
    worker. Both halves are step relations over the shared buffer, one step per access to it,
    so that every interleaving of the two threads is covered. What the channel needs of the
    value envelopes (src/host/hostcallWire.js) is the class [Envelope]. The length of a response is stored in a 32-bit word; buffers are taken
    to be below 2 GiB, where it is stored as it is. *)
From Stdlib Require Import ZArith Lia.
From stdpp Require Import base list strings numbers.
From S2P Require Import Prelude JsText JsMap HostcallWire.
Open Scope Z_scope.

Definition HEADER_INT32S : Z := 4.
Definition STATE_IDLE : Z := 0.
Definition STATE_PENDING : Z := 1.
Definition STATE_DONE : Z := 2.
Definition SAB_HOSTCALL_STATUS_OK : Z := 0.
Definition SAB_HOSTCALL_STATUS_ERROR : Z := 1.
Definition SAB_HOSTCALL_DATA_OFFSET : Z := HEADER_INT32S * 4.
Definition DEFAULT_SAB_HOSTCALL_RESPONSE_BYTES : Z := 4 * 1024 * 1024.

(** The size of the shared buffer; [None] is an option that is not an integer. *)
Definition createSabHostcallBuffer (option : option Z) : result Z :=
  let maxResponseBytes := match option with Some n => n | None => DEFAULT_SAB_HOSTCALL_RESPONSE_BYTES end in
  throw_if maxResponseBytes <=? 0 with RangeError "maxResponseBytes must be a positive integer.";
  Ok (SAB_HOSTCALL_DATA_OFFSET + maxResponseBytes).

(** What the channel relies on: an envelope that fits a 32-bit length decodes to the value it
    was made from; [serializeChannelError] is the value that describes a thrown error. *)
Class Envelope (V : Type) := {
  encodeHostcallValueEnvelope : V -> result (list Z);
  decodeHostcallValueEnvelope : list Z -> result V;
  serializeChannelError : js_error -> jsstring -> V;
  envelope_inverse v b : encodeHostcallValueEnvelope v = Ok b -> blen b < 2 ^ 32 -> decodeHostcallValueEnvelope b = Ok v
}.

Section channel.
Context {V : Type} `{!Envelope V}.

(** The response capacity of the channel. *)
Context (capacity : Z).

(** ** The controlling thread *)

(** What the host's [dispatch] settled to. *)
Abbreviation settlement := (V + js_error)%type.

(** The response to a request: status and bytes. [None]: [handleRequest] itself fails, when
    not even the description of the error can be encoded or written. *)
Definition response (operation : jsstring) (o : settlement) : option (Z * list Z) :=
  let '(status, value) :=
    match o with
    | inl value => (SAB_HOSTCALL_STATUS_OK, value)
    | inr error => (SAB_HOSTCALL_STATUS_ERROR, serializeChannelError error operation)
    end in
  let encoded :=
    match encodeHostcallValueEnvelope value with
    | Ok bytes => Ok (status, bytes)
    | Throw error =>
        let! bytes := encodeHostcallValueEnvelope (serializeChannelError error operation) in
        Ok (SAB_HOSTCALL_STATUS_ERROR, bytes)
    end in
  let fitting :=
    let! (status, bytes) := encoded in
    if capacity <? blen bytes then
      let! bytes := encodeHostcallValueEnvelope
                      (serializeChannelError (RangeError "Hostcall response exceeds the channel capacity") operation) in
      Ok (SAB_HOSTCALL_STATUS_ERROR, bytes)
    else Ok (status, bytes) in
  match fitting with
  | Ok (status, bytes) => if capacity <? blen bytes then None else Some (status, bytes)
  | Throw _ => None
  end.

(** ** The shared buffer *)

Record buffer := Buffer { sl_state : Z; sl_status : Z; sl_length : Z; data : list Z }.

(** [data.set(bytes, 0)] *)
Definition set_data (b : list Z) (bytes : list Z) : list Z := bytes ++ subarray_from b (blen bytes).

(** ** Threads *)

(** A request, numbered in the order of the calls. *)
Record request := Request { rid : nat; operation : jsstring }.

(** The progress of one [handleRequest]: waiting for [dispatch], then the four writes of
    [complete]. *)
Inductive phase :=
| Dispatching
| SetData (status : Z) (bytes : list Z)
| StoreStatus (status : Z) (len : Z)
| StoreLength (len : Z)
| StoreDone.
Record job := Job { job_req : request; job_phase : phase }.

(** How a call of the guest ends. *)
Inductive outcome :=
| Returned (v : V)
| Failed (v : V)
| TimedOut
| BadLength (len : Z)
| BadEnvelope (e : js_error).

(** The worker: running guest code, blocked in [Atomics.wait], or reading a response. *)
Inductive worker :=
| Running
| Waiting (r : request)
| LoadLength (r : request) (status : Z)
| CheckLength (r : request) (status len : Z)
| CopyOut (r : request) (status len : Z)
| StoreIdle (r : request) (o : outcome).

Record channel := Channel {
  shared : buffer;
  guest : worker;
  jobs : list job;
  next_rid : nat;
  settled : list (request * settlement);   (* what the host answered *)
  results : list (request * outcome)       (* what the guest got *)
}.

Definition fresh_channel : channel :=
  Channel (Buffer STATE_IDLE 0 0 (repeat 0 (Z.to_nat capacity))) Running [] 0 [] [].

(** The value or error of a response that was copied out. *)
Definition decode_response (status : Z) (bytes : list Z) : outcome :=
  match decodeHostcallValueEnvelope bytes with
  | Throw e => BadEnvelope e
  | Ok value => if status =? SAB_HOSTCALL_STATUS_OK then Returned value else Failed value
  end.

(** One access of the worker to the buffer. [sabHostcallDispatch] stores PENDING and posts the
    request, waits, loads status and length, copies the bytes and stores IDLE. *)
Inductive client_step : channel -> channel -> Prop :=
| client_call b js n st rs op :
    client_step (Channel b Running js n st rs)
      (Channel (Buffer STATE_PENDING (sl_status b) (sl_length b) (data b)) (Waiting (Request n op))
         (js ++ [Job (Request n op) Dispatching]) (S n) st rs)
| client_wake b r js n st rs :
    sl_state b <> STATE_PENDING ->
    client_step (Channel b (Waiting r) js n st rs) (Channel b (LoadLength r (sl_status b)) js n st rs)
| client_length b r s js n st rs :
    client_step (Channel b (LoadLength r s) js n st rs) (Channel b (CheckLength r s (sl_length b)) js n st rs)
| client_bad b r s len js n st rs :
    len < 0 \/ capacity < len ->
    client_step (Channel b (CheckLength r s len) js n st rs) (Channel b (StoreIdle r (BadLength len)) js n st rs)
| client_good b r s len js n st rs :
    0 <= len <= capacity ->
    client_step (Channel b (CheckLength r s len) js n st rs) (Channel b (CopyOut r s len) js n st rs)
| client_copy b r s len js n st rs :
    client_step (Channel b (CopyOut r s len) js n st rs)
      (Channel b (StoreIdle r (decode_response s (subarray (data b) 0 len))) js n st rs)
| client_idle b r o js n st rs :
    client_step (Channel b (StoreIdle r o) js n st rs)
      (Channel (Buffer STATE_IDLE (sl_status b) (sl_length b) (data b)) Running js n st (rs ++ [(r, o)])).

(** [Atomics.wait] gives up. *)
Inductive timeout_step : channel -> channel -> Prop :=
| client_timeout b r js n st rs :
    timeout_step (Channel b (Waiting r) js n st rs) (Channel b (StoreIdle r TimedOut) js n st rs).

(** The buffer after one write of [complete], and what is left to do. *)
Definition write_phase (p : phase) (b : buffer) : option (buffer * option phase) :=
  match p with
  | Dispatching => None
  | SetData s bytes => Some (Buffer (sl_state b) (sl_status b) (sl_length b) (set_data (data b) bytes), Some (StoreStatus s (blen bytes)))
  | StoreStatus s len => Some (Buffer (sl_state b) s (sl_length b) (data b), Some (StoreLength len))
  | StoreLength len => Some (Buffer (sl_state b) (sl_status b) len (data b), Some StoreDone)
  | StoreDone => Some (Buffer STATE_DONE (sl_status b) (sl_length b) (data b), None)
  end.

(** One step of the controlling thread, for any of the requests it is handling. *)
Inductive server_step : channel -> channel -> Prop :=
| server_settle b g j1 r j2 n st rs o :
    server_step (Channel b g (j1 ++ Job r Dispatching :: j2) n st rs)
      (Channel b g (j1 ++ match response (operation r) o with
                          | Some (status, bytes) => [Job r (SetData status bytes)]
                          | None => [] end ++ j2) n (st ++ [(r, o)]) rs)
| server_write b g j1 r p j2 n st rs b' p' :
    write_phase p b = Some (b', p') ->
    server_step (Channel b g (j1 ++ Job r p :: j2) n st rs)
      (Channel b' g (j1 ++ match p' with Some p' => [Job r p'] | None => [] end ++ j2) n st rs).

(** Runs in which no wait times out, and all runs. *)
Inductive reachable : channel -> Prop :=
| reach_fresh : reachable fresh_channel
| reach_client c c' : reachable c -> client_step c c' -> reachable c'
| reach_server c c' : reachable c -> server_step c c' -> reachable c'.

Inductive reachable_timeouts : channel -> Prop :=
| reacht_fresh : reachable_timeouts fresh_channel
| reacht_client c c' : reachable_timeouts c -> client_step c c' -> reachable_timeouts c'
| reacht_server c c' : reachable_timeouts c -> server_step c c' -> reachable_timeouts c'
| reacht_timeout c c' : reachable_timeouts c -> timeout_step c c' -> reachable_timeouts c'.

(** ** Runs without timeouts *)

(** The host answered [r] and the response is [status] and [bytes]. *)
Definition answered (st : list (request * settlement)) (r : request) (status : Z) (bytes : list Z) : Prop :=
  exists o, (r, o) ∈ st /\ response (operation r) o = Some (status, bytes).

Definition starts_with (b : buffer) (bytes : list Z) : Prop := exists rest, data b = bytes ++ rest.

(** What the phase of a request's handler says about the buffer. *)
Definition phase_ok (b : buffer) (st : list (request * settlement)) (r : request) (p : phase) : Prop :=
  match p with
  | Dispatching => rid r ∉ map (fun e => rid e.1) st
  | SetData s bytes => answered st r s bytes
  | StoreStatus s len => exists bytes, answered st r s bytes /\ starts_with b bytes /\ len = blen bytes
  | StoreLength len => exists bytes, answered st r (sl_status b) bytes /\ starts_with b bytes /\ len = blen bytes
  | StoreDone => exists bytes, answered st r (sl_status b) bytes /\ starts_with b bytes /\ sl_length b = blen bytes
  end.

(** The outcome a worker read is that of its own request. *)
Definition own_outcome (st : list (request * settlement)) (r : request) (out : outcome) : Prop :=
  exists s bytes, answered st r s bytes /\ out = decode_response s bytes.

Definition guest_ok (b : buffer) (g : worker) (js : list job) (st : list (request * settlement)) : Prop :=
  match g with
  | Running => js = []
  | Waiting r =>
      (exists p, js = [Job r p] /\ sl_state b = STATE_PENDING /\ phase_ok b st r p) \/
      (js = [] /\ sl_state b = STATE_DONE /\
       exists bytes, answered st r (sl_status b) bytes /\ starts_with b bytes /\ sl_length b = blen bytes) \/
      (js = [] /\ sl_state b = STATE_PENDING /\ exists o, (r, o) ∈ st /\ response (operation r) o = None)
  | LoadLength r s => js = [] /\ exists bytes, answered st r s bytes /\ starts_with b bytes /\ sl_length b = blen bytes
  | CheckLength r s len | CopyOut r s len =>
      js = [] /\ exists bytes, answered st r s bytes /\ starts_with b bytes /\ len = blen bytes
  | StoreIdle r o => js = [] /\ own_outcome st r o
  end.

Definition busy (g : worker) : option request :=
  match g with
  | Running => None
  | Waiting r | LoadLength r _ | CheckLength r _ _ | CopyOut r _ _ | StoreIdle r _ => Some r
  end.

Record channel_ok (c : channel) : Prop := {
  ok_guest : guest_ok (shared c) (guest c) (jobs c) (settled c);
  ok_settled : NoDup (map (fun e => rid e.1) (settled c));
  ok_old : Forall (fun e => (rid e.1 < next_rid c)%nat) (settled c);
  ok_busy : forall r, busy (guest c) = Some r -> next_rid c = S (rid r);
  ok_results : map (fun e => rid e.1) (results c) =
    seq 0 (match busy (guest c) with None => next_rid c | Some _ => Nat.pred (next_rid c) end);
  ok_answers : Forall (fun e => own_outcome (settled c) e.1 e.2) (results c)
}.

Lemma response_fits op o s bytes : response op o = Some (s, bytes) -> blen bytes <= capacity.
Proof.
  unfold response. destruct (match o with inl _ => _ | inr _ => _ end) as [s0 v0].
  destruct (rbind _ _) as [[s1 b1]|]; [|done]. destruct (Z.ltb_spec capacity (blen b1)); [done|]. by intros [= <- <-].
Qed.

Lemma answered_fits st r s bytes : answered st r s bytes -> blen bytes <= capacity.
Proof. intros (o & _ & H). by eapply response_fits. Qed.

Lemma answered_more st x r s bytes : answered st r s bytes -> answered (st ++ x) r s bytes.
Proof. intros (o & Hin & H). exists o. split; [|done]. apply elem_of_app. by left. Qed.
Lemma own_more st x r out : own_outcome st r out -> own_outcome (st ++ x) r out.
Proof. intros (s & bytes & H & ->). exists s, bytes. split; [by apply answered_more|done]. Qed.

Lemma client_ok c c' : channel_ok c -> client_step c c' -> channel_ok c'.
Proof.
  intros [Hg Hs Ho Hb Hr Ha] Hst. destruct Hst as [b js n st rs op|b r js n st rs Hne|b r s js n st rs|b r s len js n st rs Hl|
    b r s len js n st rs Hl|b r s len js n st rs|b r o js n st rs]; cbn [shared guest jobs next_rid settled results] in *.
  - cbn in Hg. subst js. constructor; cbn; try done.
    + left. exists Dispatching. split_and!; try done. cbn. intros ([r' o] & Hn & Hin)%list_elem_of_fmap.
      rewrite list.Forall_forall in Ho. specialize (Ho _ Hin). cbn in *. lia.
    + eapply list.Forall_impl; [exact Ho|]. intros x Hx. cbn in Hx. lia.
    + by intros r [= <-].
  - constructor; cbn; try done; try exact Hr; try apply Hb.
    destruct Hg as [(p & -> & Hp & _) | [(-> & _ & H) | (-> & Hp & _)]]; [done| |done]. done.
  - constructor; cbn; try done; try exact Hr; try apply Hb.
  - destruct Hg as (-> & bytes & H1 & H2 & ->). pose proof (answered_fits _ _ _ _ H1). pose proof (blen_nonneg bytes). lia.
  - constructor; cbn; try done; try exact Hr; try apply Hb.
  - constructor; cbn; try done; try exact Hr; try apply Hb. destruct Hg as (-> & bytes & H1 & [rest ->] & ->). split; [done|].
    exists s, bytes. split; [done|]. f_equal. by apply (subarray_app [] bytes rest).
  - destruct Hg as [-> Hown]. specialize (Hb r eq_refl). cbn in Hb, Hr. subst n. constructor; cbn; try done.
    + rewrite map_app, Hr. cbn. by rewrite <- seq_S.
    + apply list.Forall_app. split; [done|]. by apply Forall_singleton.
Qed.

(** Only a waiting worker has a request in flight, its own. *)
Lemma one_job b g j1 r p j2 st : guest_ok b g (j1 ++ Job r p :: j2) st ->
  j1 = [] /\ j2 = [] /\ g = Waiting r /\ sl_state b = STATE_PENDING /\ phase_ok b st r p.
Proof.
  assert (Hno : j1 ++ Job r p :: j2 = [] -> False) by (by destruct j1).
  destruct g as [|r0| | | |]; cbn; [tauto| |tauto..].
  intros [(p0 & Hj & Hs & Hp) | [[? _] | [? _]]]; [|tauto..].
  destruct j1 as [|? j1]; [|by destruct j1]. cbn in Hj. by injection Hj as -> -> ->.
Qed.

Lemma server_ok c c' : channel_ok c -> server_step c c' -> channel_ok c'.
Proof.
  intros [Hg Hs Ho Hb Hr Ha] Hst. destruct Hst as [b g j1 r j2 n st rs o|b g j1 r p j2 n st rs b' p' Hw];
    cbn [shared guest jobs next_rid settled results] in *;
    destruct (one_job _ _ _ _ _ _ _ Hg) as (-> & -> & -> & Hst & Hp).
  - specialize (Hb r eq_refl). cbn in Hp. constructor; cbn; try done; try apply Hb.
    + destruct (response (operation r) o) as [[s bytes]|] eqn:Er; cbn.
      * left. exists (SetData s bytes). split_and!; try done. exists o. split; [|done]. apply elem_of_app. right. by apply list_elem_of_singleton.
      * right. right. split_and!; try done. exists o. split; [|done]. apply elem_of_app. right. by apply list_elem_of_singleton.
    + rewrite map_app. apply list.NoDup_app. split_and!; [done| |apply NoDup_singleton].
      intros x Hx ->%list_elem_of_singleton. done.
    + apply list.Forall_app. split; [done|]. apply Forall_singleton. cbn. lia.
    + intros r0 [= <-]. done.
    + eapply list.Forall_impl; [exact Ha|]. intros x Hx. by apply own_more.
  - constructor; cbn; try done. destruct p as [|s bytes|s len|len|]; cbn in Hw; try done; injection Hw as <- <-; cbn in *.
    + left. exists (StoreStatus s (blen bytes)). split_and!; try done. exists bytes. split_and!; try done. by eexists.
    + left. exists (StoreLength len). split_and!; try done.
    + left. exists StoreDone. split_and!; try done.
    + right. left. split_and!; try done.
Qed.

Lemma reachable_ok c : reachable c -> channel_ok c.
Proof.
  induction 1 as [|c c' _ IH H|c c' _ IH H]; [|by eapply client_ok|by eapply server_ok].
  constructor; cbn; try done. constructor.
Qed.

(** A response carries the host's value, or the description of an error; the latter, for a
    request that succeeded, only when the value cannot be encoded within the capacity. *)
Lemma response_inv op o s bytes : response op o = Some (s, bytes) ->
  (s = SAB_HOSTCALL_STATUS_OK /\ exists v, o = inl v /\ encodeHostcallValueEnvelope v = Ok bytes) \/
  (s = SAB_HOSTCALL_STATUS_ERROR /\
   (exists e, encodeHostcallValueEnvelope (serializeChannelError e op) = Ok bytes) /\
   forall v b, o = inl v -> encodeHostcallValueEnvelope v = Ok b -> capacity < blen b).
Proof.
  unfold response. intros H. destruct o as [v|e];
    repeat match type of H with
    | context [encodeHostcallValueEnvelope ?x] => destruct (encodeHostcallValueEnvelope x) eqn:?; cbn [rbind] in H; try done
    | context [capacity <? blen ?b] => destruct (Z.ltb_spec capacity (blen b)); cbn [rbind] in H; try done
    end; injection H as <- <-;
    first [left; split; [done|by eauto]
          |right; split; [done|split; [by eauto|intros v' b' [=]; subst; congruence]]].
Qed.

(** What the guest makes of a response copied out whole. *)
Definition view_ok (op : jsstring) (o : settlement) (out : outcome) : Prop :=
  match o with
  | inl v => out = Returned v \/
      (exists e, out = Failed (serializeChannelError e op)) /\
      (forall b, encodeHostcallValueEnvelope v = Ok b -> capacity < blen b)
  | inr _ => exists e, out = Failed (serializeChannelError e op)
  end.

Lemma decode_own op o s bytes : capacity < 2 ^ 32 -> response op o = Some (s, bytes) ->
  view_ok op o (decode_response s bytes).
Proof.
  intros Hcap Hresp. pose proof (response_fits _ _ _ _ Hresp) as Hfit. unfold decode_response, view_ok.
  apply response_inv in Hresp as [(-> & v & -> & He) | (-> & [e He] & Hbig)];
    rewrite (envelope_inverse _ _ He) by lia; cbn; [by left|].
  destruct o as [v|e0]; [|by eauto]. right. split; [by eauto|]. intros b. by apply Hbig.
Qed.

(** C37. Without timeouts, in every interleaving of the two threads: calls return in the
    order in which they were made, each request is settled at most once, and what a call
    returns or throws is the host's answer to that very request. An error instead of the
    host's value appears only when the value cannot be encoded within the capacity. *)
Theorem channel_answers_own_request c :
  capacity < 2 ^ 32 -> reachable c ->
  (exists n, map (fun e => rid e.1) (results c) = seq 0 n) /\
  NoDup (map (fun e => rid e.1) (settled c)) /\
  forall r out, (r, out) ∈ results c -> exists o, (r, o) ∈ settled c /\ view_ok (operation r) o out.
Proof.
  intros Hcap [Hg Hs Ho Hb Hr Ha]%reachable_ok. split_and!; [by eauto|done|].
  intros r out Hin. rewrite list.Forall_forall in Ha.
  destruct (Ha _ Hin) as (s & bytes & (o & Hst & Hresp) & Hout). cbn in Hst, Hout. subst out.
  exists o. split; [done|]. by apply (decode_own _ _ s bytes).
Qed.

(** Without timeouts no call is lost: while the worker waits, its own request is the
    only one in flight, or the response is complete in the buffer, or the controlling thread
    could not write any response to it. *)
Theorem waiting_worker_is_served c r :
  reachable c -> guest c = Waiting r ->
  (exists p, jobs c = [Job r p]) \/
  sl_state (shared c) = STATE_DONE \/
  (exists o, (r, o) ∈ settled c /\ response (operation r) o = None).
Proof.
  intros [Hg _ _ _ _ _]%reachable_ok Hw. rewrite Hw in Hg. cbn in Hg.
  destruct Hg as [(p & Hj & _) | [(_ & Hd & _) | (_ & _ & o & Ho)]]; eauto.
Qed.
End channel.

(** ** Instances *)

(** The envelopes of HostcallWire.v over meta text and segments discharge the interface;
    [error_text] is the JSON text of the object that describes an error. *)
Definition wire_value : Type := list Z * list (list Z).

Lemma encoded_parts_small meta segments :
  blen (encodeHostcallEnvelope meta segments) < 2 ^ 32 ->
  blen meta < 2 ^ 32 /\ blen segments < 2 ^ 32 /\ Forall (fun s => blen s < 2 ^ 32) segments.
Proof.
  unfold encodeHostcallEnvelope. rewrite !blen_app, !blen_u32_bytes. intros H.
  pose proof (blen_nonneg meta). pose proof (blen_nonneg (encode_segments segments)).
  assert (Hs : blen segments <= blen (encode_segments segments) /\
    Forall (fun s => blen s <= blen (encode_segments segments)) segments).
  { clear. induction segments as [|s segments [IH1 IH2]]; [split; [by vm_compute|constructor]|].
    cbn [encode_segments]. rewrite !blen_app, blen_u32_bytes, blen_cons. pose proof (blen_nonneg s).
    pose proof (blen_nonneg (encode_segments segments)). split; [lia|]. apply list.Forall_cons. split; [lia|].
    eapply list.Forall_impl; [exact IH2|]. intros x Hx. cbv beta in *. lia. }
  destruct Hs as [Hs1 Hs2]. split_and!; [lia|lia|]. eapply list.Forall_impl; [exact Hs2|]. intros x Hx. cbv beta in *. lia.
Qed.

Lemma wire_inverse meta segments b : encodeHostcallEnvelope meta segments = b -> blen b < 2 ^ 32 ->
  decodeHostcallEnvelope b = Ok (meta, segments).
Proof.
  intros <- Hb. destruct (encoded_parts_small meta segments Hb) as (? & ? & ?).
  rewrite <- (app_nil_r (encodeHostcallEnvelope meta segments)). by apply decode_encode_envelope.
Qed.

Section wire.
Context (error_text : js_error -> jsstring -> list Z).
Lemma wire_law (v : wire_value) b : Ok (encodeHostcallEnvelope v.1 v.2) = Ok b -> blen b < 2 ^ 32 -> decodeHostcallEnvelope b = Ok v.
Proof. destruct v as [meta segments]. intros [= H] Hb. by apply wire_inverse. Qed.
Definition wire_envelope : Envelope wire_value := {|
  encodeHostcallValueEnvelope v := Ok (encodeHostcallEnvelope v.1 v.2);
  decodeHostcallValueEnvelope := decodeHostcallEnvelope;
  serializeChannelError e op := (error_text e op, []);
  envelope_inverse := wire_law
|}.
End wire.

Definition demo_envelope : Envelope wire_value := wire_envelope (fun _ _ => lit "{}").
#[local] Existing Instance demo_envelope.

Definition first_request : request := Request 0 (lit "first").
Definition second_request : request := Request 1 (lit "second").
Definition first_value : wire_value := (lit "1", []).

(** After a timeout the late response to the first request is taken for the answer to the
    second: nothing in the buffer says which request it answers. *)
Theorem late_response_answers_next_call :
  exists c, reachable_timeouts 100 c /\
    results c = [(first_request, TimedOut); (second_request, Returned first_value)] /\
    settled c = [(first_request, inl first_value)].
Proof.
  pose proof (reacht_fresh 100) as H.
  eapply reacht_client in H; [|apply (client_call 100 _ _ _ _ _ (lit "first"))].
  eapply reacht_timeout in H; [|apply client_timeout].
  eapply reacht_client in H; [|apply client_idle].
  eapply reacht_client in H; [|apply (client_call 100 _ _ _ _ _ (lit "second"))].
  eapply reacht_server in H; [|apply (server_settle 100 _ _ [] first_request _ _ _ _ (inl first_value))].
  cbn [app] in H. set (rsp := response _ _ _) in H. vm_compute in rsp. subst rsp. cbn [app] in H.
  do 4 (eapply reacht_server in H; [|eapply (server_write 100 _ _ []); reflexivity]; cbn [app] in H).
  eapply reacht_client in H; [|apply client_wake; cbn; discriminate].
  eapply reacht_client in H; [|apply client_length].
  eapply reacht_client in H; [|apply client_good; cbn; vm_compute; split; discriminate].
  eapply reacht_client in H; [|apply client_copy].
  eapply reacht_client in H; [|apply client_idle].
  eexists. split; [exact H|]. split; vm_compute; reflexivity.
Qed.

Lemma channel_answers_own_request_witness :
  exists c : channel (V := wire_value), results c = [(first_request, Returned first_value)] /\
    (exists n, map (fun e => rid e.1) (results c) = seq 0 n) /\
    NoDup (map (fun e => rid e.1) (settled c)) /\
    forall r out, (r, out) ∈ results c -> exists o, (r, o) ∈ settled c /\ view_ok 100 (operation r) o out.
Proof.
  pose proof (reach_fresh 100) as H.
  eapply reach_client in H; [|apply (client_call 100 _ _ _ _ _ (lit "first"))].
  eapply reach_server in H; [|apply (server_settle 100 _ _ [] first_request _ _ _ _ (inl first_value))].
  cbn [app] in H. set (rsp := response _ _ _) in H. vm_compute in rsp. subst rsp. cbn [app] in H.
  do 4 (eapply reach_server in H; [|eapply (server_write 100 _ _ []); reflexivity]; cbn [app] in H).
  eapply reach_client in H; [|apply client_wake; cbn; discriminate].
  eapply reach_client in H; [|apply client_length].
  eapply reach_client in H; [|apply client_good; cbn; vm_compute; split; discriminate].
  eapply reach_client in H; [|apply client_copy].
  eapply reach_client in H; [|apply client_idle].
  eexists. split; [|eapply (channel_answers_own_request 100); [reflexivity|exact H]]. vm_compute. reflexivity.
Defined.

Lemma waiting_worker_is_served_witness :
  exists c : channel (V := wire_value), guest c = Waiting first_request /\
    ((exists p, jobs c = [Job first_request p]) \/ sl_state (shared c) = STATE_DONE \/
     (exists o, (first_request, o) ∈ settled c /\ response 100 (operation first_request) o = None)).
Proof.
  pose proof (reach_fresh 100) as H.
  eapply reach_client in H; [|apply (client_call 100 _ _ _ _ _ (lit "first"))].
  eexists. split; [|eapply (waiting_worker_is_served 100); [exact H|]]; reflexivity.
Defined.
