(* ===== verification/Signatures.v ===== *)
(** Signature encodings (src/utils/ecdsaDer.js, src/utils/encoding.js, src/bundle/sigdomain.js):
    DER and raw ECDSA signatures, hexadecimal text, and the domain-separated statements a
    publisher key signs. *)
From Stdlib Require Import ZArith Lia.
From stdpp Require Import base list strings numbers.
From S2P Require Import Prelude JsText JsMap.
Open Scope Z_scope.

Module Der.

Definition RAW_SIGNATURE_LENGTH : Z := 64.
Definition COMPONENT_LENGTH : Z := 32.

(** [while (start < length - 1 && component[start] === 0) start += 1], then the rest. *)
Fixpoint strip_zeros (c : list Z) : list Z :=
  match c with
  | b :: ((_ :: _) as rest) => if b =? 0 then strip_zeros rest else c
  | _ => c
  end.

(** A byte array element: what is stored is the number modulo 256. *)
Definition to_byte (z : Z) : Z := z mod 256.

Definition encodeDerInteger (component : list Z) : list Z :=
  let value := strip_zeros component in
  let value := if negb (js_and (num_or_0 (at_ value 0)) 0x80 =? 0) then 0 :: value else value in
  [0x02; to_byte (blen value)] ++ value.

Definition rawSignatureToDer (bytes : list Z) : result (list Z) :=
  throw_if negb (blen bytes =? RAW_SIGNATURE_LENGTH) with Error "secp256k1 raw signature must be 64 bytes";
  let r := encodeDerInteger (subarray bytes 0 COMPONENT_LENGTH) in
  let s := encodeDerInteger (subarray bytes COMPONENT_LENGTH RAW_SIGNATURE_LENGTH) in
  let body := r ++ s in
  Ok ([0x30; to_byte (blen body)] ++ body).

Definition normalizeComponent (component : list Z) : result (list Z) :=
  let value := strip_zeros component in
  throw_if COMPONENT_LENGTH <? blen value
    with Error "Invalid DER signature: integer component exceeds 32 bytes.";
  Ok (repeat 0 (Z.to_nat (COMPONENT_LENGTH - blen value)) ++ value).

(** The value and the next offset. A missing length byte makes the end NaN: the comparison
    with the bounds is false, the value is empty and the next offset is NaN ([None]). *)
Definition readDerInteger (bytes : list Z) (offset : option Z) : result (list Z * option Z) :=
  match offset with
  | None => Throw (Error "Invalid DER signature: expected INTEGER.")
  | Some offset =>
      throw_if negb (bool_decide (at_ bytes offset = Some 0x02))
        with Error "Invalid DER signature: expected INTEGER.";
      let start := offset + 2 in
      match at_ bytes (offset + 1) with
      | None => Ok ([], None)
      | Some length =>
          let end_ := start + length in
          throw_if blen bytes <? end_ with Error "Invalid DER signature: INTEGER length exceeds bounds.";
          Ok (subarray bytes start end_, Some end_)
      end
  end.

Definition derSignatureToRaw (bytes : list Z) : result (list Z) :=
  throw_if (blen bytes <? 8) || negb (bool_decide (at_ bytes 0 = Some 0x30))
    with Error "Invalid DER signature: expected SEQUENCE.";
  let b1 := num_or_0 (at_ bytes 1) in
  let offset := if negb (js_and b1 0x80 =? 0) then 2 + js_and b1 0x7f else 2 in
  let! (r, next) := readDerInteger bytes (Some offset) in
  let! (s, _) := readDerInteger bytes next in
  let! r := normalizeComponent r in
  let! s := normalizeComponent s in
  Ok (r ++ s).

(** ** Facts *)

Lemma strip_zeros_split c : exists k, c = repeat 0 k ++ strip_zeros c.
Proof.
  induction c as [|b c IH]; [by exists O|]. cbn [strip_zeros]. destruct c as [|b' c]; [by exists O|].
  destruct (Z.eqb_spec b 0) as [->|]; [|by exists O].
  destruct IH as [k Hk]. exists (S k). cbn [repeat app]. by rewrite <- Hk.
Qed.

Lemma strip_zeros_idem c : strip_zeros (strip_zeros c) = strip_zeros c.
Proof.
  induction c as [|b c IH]; [done|]. cbn [strip_zeros]. destruct c as [|b' c]; [done|].
  destruct (Z.eqb_spec b 0) as [->|Hb]; [done|]. cbn [strip_zeros]. by destruct (Z.eqb_spec b 0).
Qed.

Lemma strip_zeros_nonempty c : c <> [] -> strip_zeros c <> [].
Proof.
  induction c as [|b c IH]; [done|]. intros _. cbn [strip_zeros]. destruct c; [done|].
  destruct (b =? 0); [by apply IH|done].
Qed.

(** The content octets of a component, and what reading them back gives. *)
Definition octets (c : list Z) : list Z :=
  let v := strip_zeros c in if negb (js_and (num_or_0 (at_ v 0)) 0x80 =? 0) then 0 :: v else v.

Lemma octets_strip c : strip_zeros (octets c) = strip_zeros c.
Proof.
  unfold octets. destruct (strip_zeros c) as [|b v] eqn:E; [done|]. cbn [at_ num_or_0].
  change (at_ (b :: v) 0) with (Some b). cbn [num_or_0].
  destruct (js_and b 0x80 =? 0); cbn [negb].
  - rewrite <- E. apply strip_zeros_idem.
  - change (strip_zeros (0 :: b :: v)) with (strip_zeros (b :: v)). rewrite <- E. apply strip_zeros_idem.
Qed.

Lemma blen_repeat0 k : blen (repeat 0 k) = Z.of_nat k.
Proof. unfold blen. by rewrite repeat_length. Qed.

Lemma octets_len c : blen c = 32 -> 1 <= blen (octets c) <= 33.
Proof.
  intros Hc. destruct (strip_zeros_split c) as [k Hk]. apply (f_equal blen) in Hk.
  rewrite blen_app, blen_repeat0 in Hk.
  assert (strip_zeros c <> []) by (apply strip_zeros_nonempty; by intros ->).
  unfold octets. destruct (strip_zeros c) as [|b v]; [done|]. destruct (negb _); blia.
Qed.

Lemma normalize_octets c : blen c = 32 -> normalizeComponent (octets c) = Ok c.
Proof.
  intros Hc. unfold normalizeComponent, COMPONENT_LENGTH. rewrite octets_strip.
  destruct (strip_zeros_split c) as [k Hk]. pose proof (f_equal blen Hk) as Hl.
  rewrite blen_app, blen_repeat0 in Hl.
  destruct (Z.ltb_spec 32 (blen (strip_zeros c))); [lia|].
  f_equal. transitivity (repeat 0 k ++ strip_zeros c); [|done]. do 2 f_equal. lia.
Qed.

Lemma encode_octets c : blen c = 32 -> encodeDerInteger c = [0x02; blen (octets c)] ++ octets c.
Proof.
  intros Hc. pose proof (octets_len c Hc). unfold encodeDerInteger, to_byte. fold (octets c).
  by rewrite Z.mod_small by lia.
Qed.

Lemma read_octets a c z : blen c = 32 ->
  readDerInteger (a ++ ([0x02; blen (octets c)] ++ octets c) ++ z) (Some (blen a)) =
    Ok (octets c, Some (blen a + 2 + blen (octets c))).
Proof.
  intros Hc. unfold readDerInteger. rewrite at_app_here, at_app_off by lia.
  change (at_ (([0x02; blen (octets c)] ++ octets c) ++ z) 0) with (Some 0x02).
  change (at_ (([0x02; blen (octets c)] ++ octets c) ++ z) 1) with (Some (blen (octets c))).
  rewrite bool_decide_eq_true_2 by done. cbn [negb].
  destruct (Z.ltb_spec (blen (a ++ ([2; blen (octets c)] ++ octets c) ++ z)) (blen a + 2 + blen (octets c))); [blia|].
  replace (a ++ ([2; blen (octets c)] ++ octets c) ++ z)
    with ((a ++ [2; blen (octets c)]) ++ octets c ++ z) by app_eq.
  by rewrite subarray_app by blia.
Qed.

(** Every 64-byte raw signature is encoded, in at most 72 bytes, and decoding the DER
    form gives it back. *)
Theorem der_roundtrip raw :
  blen raw = 64 ->
  exists der, rawSignatureToDer raw = Ok der /\ 8 <= blen der <= 72 /\ derSignatureToRaw der = Ok raw.
Proof.
  intros Hl. destruct (split_len raw 32) as (r & s & -> & Hr); [lia|].
  assert (Hs : blen s = 32) by blia. unfold rawSignatureToDer, RAW_SIGNATURE_LENGTH, COMPONENT_LENGTH.
  rewrite Hl. cbn [Z.eqb negb].
  assert (Hsr : subarray (r ++ s) 0 32 = r) by (apply (subarray_app [] r s); [done|cbn; blia]).
  assert (Hss : subarray (r ++ s) 32 64 = s).
  { rewrite <- (app_nil_r s) at 1. apply subarray_app; blia. }
  rewrite Hsr, Hss, !encode_octets by done.
  pose proof (octets_len r Hr) as Lr. pose proof (octets_len s Hs) as Ls.
  set (R := [2; blen (octets r)] ++ octets r). set (S' := [2; blen (octets s)] ++ octets s).
  assert (HR : blen R = 2 + blen (octets r)) by (unfold R; blia).
  assert (HS : blen S' = 2 + blen (octets s)) by (unfold S'; blia).
  eexists. split; [done|]. split; [blia|]. unfold to_byte. rewrite Z.mod_small by blia.
  set (hd := [0x30; blen (R ++ S')]). unfold derSignatureToRaw.
  destruct (Z.ltb_spec (blen (hd ++ R ++ S')) 8); [unfold hd in *; blia|]. cbn [orb].
  change (at_ (hd ++ R ++ S') 0) with (Some 0x30). change (at_ (hd ++ R ++ S') 1) with (Some (blen (R ++ S'))).
  rewrite bool_decide_eq_true_2 by done. cbn [negb num_or_0].
  assert (Hbit : js_and (blen (R ++ S')) 0x80 = 0).
  { apply Z.eqb_eq. pose proof (byte_forall (fun b => (128 <=? b) || (js_and b 0x80 =? 0)) eq_refl (blen (R ++ S'))) as Hb.
    cbv beta in Hb. destruct (Z.leb_spec 128 (blen (R ++ S'))); [blia|]. apply Hb. unfold is_byte. blia. }
  rewrite Hbit. cbn [Z.eqb negb]. unfold R at 1.
  change (Some 2) with (Some (blen hd)). rewrite read_octets by done. cbn [rbind]. fold R.
  replace (hd ++ R ++ S') with ((hd ++ R) ++ S' ++ []) by (rewrite app_nil_r; app_eq).
  replace (blen hd + 2 + blen (octets r)) with (blen (hd ++ R)) by blia.
  unfold S' at 1. rewrite read_octets by done. cbn [rbind].
  by rewrite !normalize_octets by done.
Qed.

(** The decoder does not require the second INTEGER to be there: a signature cut after its
    tag byte is accepted, with s = 0. *)
Theorem truncated_der_accepted :
  derSignatureToRaw [0x30; 0x06; 0x02; 0x03; 1; 2; 3; 0x02]
    = Ok (repeat 0 29 ++ [1; 2; 3] ++ repeat 0 32).
Proof. vm_compute. reflexivity. Qed.

Lemma der_roundtrip_witness :
  exists der, rawSignatureToDer (repeat 0 31 ++ [1] ++ repeat 255 32) = Ok der /\ 8 <= blen der <= 72 /\
    derSignatureToRaw der = Ok (repeat 0 31 ++ [1] ++ repeat 255 32).
Proof. apply (der_roundtrip (repeat 0 31 ++ [1] ++ repeat 255 32)). reflexivity. Defined.

End Der.

Module Hex.

Definition hex_digit (d : Z) : Z := if d <? 10 then 48 + d else 87 + d.

(** [byte.toString(16).padStart(2, "0")] *)
Definition hex_byte (b : Z) : jsstring := [hex_digit (b / 16); hex_digit (b mod 16)].

Definition bytesToHex (bytes : list Z) : jsstring := flat_map hex_byte bytes.

Definition digit_value (c : Z) : option Z :=
  if (48 <=? c) && (c <=? 57) then Some (c - 48)
  else if (97 <=? c) && (c <=? 102) then Some (c - 87)
  else if (65 <=? c) && (c <=? 70) then Some (c - 55)
  else None.

(** The value of the longest prefix of hex digits. *)
Fixpoint hex_prefix (s : jsstring) (acc : option Z) : option Z :=
  match s with
  | c :: s' =>
      match digit_value c with
      | Some d => hex_prefix s' (Some (16 * default 0 acc + d))
      | None => acc
      end
  | [] => acc
  end.

(** Without a leading 0x or 0X. *)
Definition strip_0x (s : jsstring) : jsstring :=
  match s with
  | a :: c :: s' => if (a =? 48) && ((c =? 120) || (c =? 88)) then s' else s
  | _ => s
  end.

(** [parseInt(s, 16)]; [None] is NaN. *)
Definition parseInt16 (s : jsstring) : option Z :=
  let s := drop_while is_js_space s in
  let '(sign, s) :=
    match s with
    | c :: s' => if c =? 45 then (-1, s') else if c =? 43 then (1, s') else (1, s)
    | [] => (1, s)
    end in
  let s := strip_0x s in
  (fun v => sign * v) <$> hex_prefix s None.

(** What [bytes[i] = v] stores; NaN is stored as 0. *)
Definition stored_byte (v : option Z) : Z := default 0 v mod 256.

Fixpoint hex_pairs (s : jsstring) : list Z :=
  match s with
  | a :: b :: s' => stored_byte (parseInt16 [a; b]) :: hex_pairs s'
  | _ => []
  end.

(** [hexToBytes] of a text without U+0130, whose lower case has two units. *)
Definition hexToBytes (hex : jsstring) : result (list Z) :=
  let s := trim hex in
  let s := strip_0x s in
  let normalized := map lower s in
  throw_if (blen normalized =? 0) || negb (blen normalized mod 2 =? 0)
    with TypeError "Expected even-length hex string.";
  Ok (hex_pairs normalized).

Definition is_hex_char (c : Z) : bool := ((48 <=? c) && (c <=? 57)) || ((97 <=? c) && (c <=? 102)).

Lemma hex_byte_facts b : is_byte b ->
  Forall (fun c => is_hex_char c = true) (hex_byte b) /\ stored_byte (parseInt16 (hex_byte b)) = b.
Proof.
  intros Hb.
  assert (H : forallb is_hex_char (hex_byte b) && (stored_byte (parseInt16 (hex_byte b)) =? b) = true)
    by (revert b Hb; apply byte_forall; vm_compute; reflexivity).
  apply andb_true_iff in H as [H1 H2]. split; [|by apply Z.eqb_eq].
  apply List.Forall_forall. by rewrite forallb_forall in H1.
Qed.

Lemma bytesToHex_chars b : bytes_ok b -> Forall (fun c => is_hex_char c = true) (bytesToHex b).
Proof.
  induction 1 as [|x b Hx _ IH]; [constructor|]. unfold bytesToHex. cbn [flat_map].
  apply Forall_app. split; [by apply hex_byte_facts|done].
Qed.

Lemma hex_char_not_space c : is_hex_char c = true -> is_js_space c = false /\ lower c = c /\ c <> 120 /\ c <> 88.
Proof.
  unfold is_hex_char. intros H.
  assert (Hc : is_byte c) by (unfold is_byte; destruct (Z.leb_spec 48 c), (Z.leb_spec c 57), (Z.leb_spec 97 c), (Z.leb_spec c 102); cbn in H; try done; lia).
  pose proof (byte_forall (fun c => negb (is_hex_char c) || (negb (is_js_space c) && (lower c =? c) && negb (c =? 120) && negb (c =? 88))) eq_refl c Hc) as Hf.
  cbv beta in Hf. unfold is_hex_char in Hf. rewrite H in Hf. cbn [negb orb] in Hf.
  apply andb_true_iff in Hf as [Hf H88]. apply andb_true_iff in Hf as [Hf H120].
  apply andb_true_iff in Hf as [Hsp Hlo]. apply negb_true_iff in H88, H120, Hsp.
  apply Z.eqb_neq in H88, H120. apply Z.eqb_eq in Hlo. done.
Qed.

Lemma drop_while_none s : Forall (fun c => is_hex_char c = true) s -> drop_while is_js_space s = s.
Proof. intros [|c s' Hc _]; [done|]. cbn. by destruct (hex_char_not_space c Hc) as [-> _]. Qed.

Lemma trim_hex s : Forall (fun c => is_hex_char c = true) s -> trim s = s.
Proof.
  intros Hs. unfold trim, trim_with. rewrite (drop_while_none s Hs), drop_while_none.
  - apply reverse_involutive.
  - by apply Forall_reverse.
Qed.

Lemma hex_pairs_roundtrip b : bytes_ok b -> hex_pairs (bytesToHex b) = b.
Proof.
  induction 1 as [|x b Hx _ IH]; [done|].
  change (stored_byte (parseInt16 (hex_byte x)) :: hex_pairs (bytesToHex b) = x :: b).
  destruct (hex_byte_facts x Hx) as [_ ->]. by rewrite IH.
Qed.

Lemma blen_hex b : blen (bytesToHex b) = 2 * blen b.
Proof. induction b as [|x b IH]; [done|]. unfold bytesToHex. cbn [flat_map]. fold (bytesToHex b). rewrite blen_app, IH. change (blen (hex_byte x)) with 2. blia. Qed.

(** Reading back the hexadecimal text of a non-empty byte array gives the array. *)
Theorem hex_roundtrip b : bytes_ok b -> b <> [] -> hexToBytes (bytesToHex b) = Ok b.
Proof.
  intros Hb Hne. pose proof (bytesToHex_chars b Hb) as Hc. unfold hexToBytes. rewrite (trim_hex _ Hc).
  assert (Hs0 : strip_0x (bytesToHex b) = bytesToHex b).
  { destruct (bytesToHex b) as [|x [|y s]]; try done.
    apply list.Forall_cons in Hc as [_ Hc]. apply list.Forall_cons in Hc as [Hc _].
    apply hex_char_not_space in Hc as (_ & _ & H1 & H2). cbn [strip_0x].
    destruct (Z.eqb_spec y 120), (Z.eqb_spec y 88); try tauto. by rewrite andb_false_r. }
  rewrite Hs0. clear Hs0.
  assert (Hlow : map lower (bytesToHex b) = bytesToHex b).
  { clear -Hc. induction Hc as [|c s Hc _ IH]; [done|]. cbn. rewrite IH.
    by destruct (hex_char_not_space c Hc) as (_ & -> & _). }
  rewrite Hlow, blen_hex. destruct b as [|x b]; [done|].
  destruct (Z.eqb_spec (2 * blen (x :: b)) 0); [blia|]. cbn [orb].
  rewrite Z.mul_comm, Z.mod_mul by lia. cbn [Z.eqb negb]. by rewrite hex_pairs_roundtrip.
Qed.

(** Text that is not hexadecimal is not refused: characters that are no digits are read
    as zero, and a sign as part of the number. *)
Theorem non_hex_text_accepted :
  hexToBytes (lit "zz") = Ok [0] /\ hexToBytes (lit "1g") = Ok [1] /\ hexToBytes (lit "-5") = Ok [251].
Proof. vm_compute. done. Qed.

Lemma hex_roundtrip_witness : hexToBytes (bytesToHex [0; 171; 255]) = Ok [0; 171; 255].
Proof. apply (hex_roundtrip [0; 171; 255]); [closed_bytes|done]. Defined.

End Hex.

Module SigDomain.

Definition CONTENT_HASH_SIZE : Z := 32.
Definition DOMAIN_MODULE_PUBLICATION_V1 : jsstring := lit "SDN-MODULE-PUBLICATION-V1".
Definition DOMAIN_UPDATE_MANIFEST_V1 : jsstring := lit "SDN-UPDATE-MANIFEST-V1".
Definition DOMAIN_UPDATE_SIGNAL_V1 : jsstring := lit "SDN-UPDATE-SIGNAL-V1".

Definition REGISTRY : list (jsstring * jsstring) :=
  [(DOMAIN_MODULE_PUBLICATION_V1, lit "module artifact, portable-payload SHA-256");
   (DOMAIN_UPDATE_MANIFEST_V1, lit "update manifest, canonical manifest SHA-256 (reserved; no producer yet)");
   (DOMAIN_UPDATE_SIGNAL_V1,
    lit "update signal, canonical signal SHA-256 (advisory pub/sub nudge; authorizes nothing)")].

(** The characters Go's [unicode.IsSpace] holds of. *)
Definition is_go_space (c : Z) : bool :=
  ((9 <=? c) && (c <=? 13)) || (c =? 32) || (c =? 0x85) || (c =? 0xA0) || (c =? 0x1680)
  || ((0x2000 <=? c) && (c <=? 0x200A)) || (c =? 0x2028) || (c =? 0x2029)
  || (c =? 0x202F) || (c =? 0x205F) || (c =? 0x3000).

Definition trimGoWhitespace (value : jsstring) : jsstring := trim_with is_go_space value.

Definition registered (domain : jsstring) : bool := map_has REGISTRY domain.
Definition describe (domain : jsstring) : jsstring := default [] (map_get REGISTRY domain).

Definition statement (domain : jsstring) (contentHash : list Z) : result (list Z) :=
  throw_if negb (registered domain) with Error "signature statement domain is not registered";
  throw_if negb (blen contentHash =? CONTENT_HASH_SIZE)
    with Error "signature statement content hash must be 32 raw bytes";
  Ok (text_encode domain ++ [0] ++ contentHash).

Lemma registered_inv d : registered d = true ->
  d = DOMAIN_MODULE_PUBLICATION_V1 \/ d = DOMAIN_UPDATE_MANIFEST_V1 \/ d = DOMAIN_UPDATE_SIGNAL_V1.
Proof.
  unfold registered, map_has. destruct (map_get REGISTRY d) eqn:E; [|done]. intros _.
  apply map_get_In in E. cbn in E. destruct E as [[= <- _]|[[= <- _]|[[= <- _]|[]]]]; auto.
Qed.

(** A statement determines its domain and its content hash: signatures made for one kind
    of statement cannot be used as signatures of another kind. *)
Theorem statement_injective d h d' h' m :
  statement d h = Ok m -> statement d' h' = Ok m -> d = d' /\ h = h'.
Proof.
  assert (Hinv : forall d h, statement d h = Ok m -> registered d = true /\ blen h = 32 /\ m = (text_encode d ++ [0]) ++ h).
  { clear. intros d h. unfold statement. destruct (registered d); [|done]. cbn [negb].
    destruct (Z.eqb_spec (blen h) CONTENT_HASH_SIZE) as [Hl|]; [|done]. intros [= <-].
    rewrite <- app_assoc. done. }
  intros (E & El & Em)%Hinv (E1 & El' & Em')%Hinv. rewrite Em in Em'.
  assert (text_encode d ++ [0] = text_encode d' ++ [0] /\ h = h') as [Ht ->].
  { apply app_inj_2; [unfold blen in *; lia|done]. }
  split; [|done]. apply app_inj_tail in Ht as [Ht _].
  apply registered_inv in E as [-> | [-> | ->]]; apply registered_inv in E1 as [-> | [-> | ->]]; try done;
    by vm_compute in Ht.
Qed.

Lemma statement_injective_witness :
  exists m, statement DOMAIN_MODULE_PUBLICATION_V1 (repeat 7 32) = Ok m /\
    DOMAIN_MODULE_PUBLICATION_V1 = DOMAIN_MODULE_PUBLICATION_V1 /\ repeat 7 32 = repeat 7 32.
Proof.
  eexists. split; [reflexivity|].
  apply (statement_injective DOMAIN_MODULE_PUBLICATION_V1 (repeat 7 32) DOMAIN_MODULE_PUBLICATION_V1 (repeat 7 32)
    (text_encode DOMAIN_MODULE_PUBLICATION_V1 ++ [0] ++ repeat 7 32)); reflexivity.
Defined.

End SigDomain.
