(* ===== verification/IoContract.v ===== *)
(** The FlatSQL I/O contract (src/host/flatsqlIoContract.js): open flags, statuses, the status of
    a thrown error, and the paths a host accepts. *)
From Stdlib Require Import ZArith Lia.
From stdpp Require Import base list strings numbers.
From S2P Require Import Prelude JsText.
Open Scope Z_scope.

(** ** Flags and statuses *)

Definition FLATSQL_IO_READ : Z := 0x0001.
Definition FLATSQL_IO_WRITE : Z := 0x0002.
Definition FLATSQL_IO_CREATE : Z := 0x0004.
Definition FLATSQL_IO_EXCL : Z := 0x0008.
Definition FLATSQL_IO_TRUNC : Z := 0x0010.
Definition FLATSQL_IO_DELETE_ON_CLOSE : Z := 0x0020.
Definition FLATSQL_IO_PROBE : Z := 0x0040.
Definition FLATSQL_IO_UNLINK : Z := 0x0080.
Definition FLATSQL_IO_CREATE_PARENTS : Z := 0x0100.
Definition FLATSQL_IO_UNLINK_IF_UNUSED : Z := 0x0200.
Definition FLATSQL_IO_OPEN_DEFERRED : Z := 0x0400.
Definition FLATSQL_IO_MAX_PATH_BYTES : Z := 4096.

(** [flags & f] as a condition. *)
Definition has_flag (flags f : Z) : bool := negb (js_and flags f =? 0).

Definition FLATSQL_IO_ERR_GENERIC : Z := -1.
Definition FLATSQL_IO_ERR_NOENT : Z := -2.
Definition FLATSQL_IO_ERR_ACCESS : Z := -3.
Definition FLATSQL_IO_ERR_IO : Z := -4.
Definition FLATSQL_IO_ERR_NOSPACE : Z := -5.
Definition FLATSQL_IO_ERR_BADHANDLE : Z := -6.
Definition FLATSQL_IO_ERR_BUSY : Z := -7.

(** What a host throws: an error with a status, one with a system error code, or one known by
    its name. *)
Inductive io_thrown := StatusError (status : Z) | CodedError (code : string) | NamedError (error_name : string).

Definition code_in (code : string) (l : list string) : bool := existsb (String.eqb code) l.

(** [during_open] is [{ during: "open" }]. *)
Definition flatsqlIoStatusForError (e : io_thrown) (during_open : bool) : Z :=
  match e with
  | StatusError _ => FLATSQL_IO_ERR_IO
  | CodedError code =>
      if code_in code ["ENOENT"; "ENOTDIR"]%string then FLATSQL_IO_ERR_NOENT
      else if code_in code ["EACCES"; "EPERM"; "EROFS"]%string then FLATSQL_IO_ERR_ACCESS
      else if code_in code ["ENOSPC"; "EDQUOT"]%string then FLATSQL_IO_ERR_NOSPACE
      else if code_in code ["EBADF"]%string then FLATSQL_IO_ERR_IO
      else if code_in code ["EEXIST"]%string then FLATSQL_IO_ERR_GENERIC
      else if code_in code ["EBUSY"; "ETXTBSY"]%string then FLATSQL_IO_ERR_BUSY
      else if code_in code ["ENAMETOOLONG"; "EINVAL"]%string then FLATSQL_IO_ERR_GENERIC
      else FLATSQL_IO_ERR_IO
  | NamedError n =>
      if code_in n ["NotFoundError"]%string then FLATSQL_IO_ERR_NOENT
      else if code_in n ["NoModificationAllowedError"]%string then FLATSQL_IO_ERR_BUSY
      else if code_in n ["InvalidStateError"]%string then
        (if during_open then FLATSQL_IO_ERR_BUSY else FLATSQL_IO_ERR_BADHANDLE)
      else if code_in n ["QuotaExceededError"]%string then FLATSQL_IO_ERR_NOSPACE
      else if code_in n ["TypeMismatchError"; "SecurityError"; "NotAllowedError"]%string then FLATSQL_IO_ERR_ACCESS
      else if code_in n ["InvalidModificationError"]%string then FLATSQL_IO_ERR_BUSY
      else if code_in n ["TypeError"; "RangeError"]%string then FLATSQL_IO_ERR_GENERIC
      else FLATSQL_IO_ERR_IO
  end.

Definition flatsqlIoStatusOf (e : io_thrown) (during_open : bool) : Z :=
  match e with
  | StatusError s => if s <? 0 then s else flatsqlIoStatusForError e during_open
  | _ => flatsqlIoStatusForError e during_open
  end.

Lemma status_negative e : flatsqlIoStatusOf e false < 0.
Proof.
  assert (H : forall e, flatsqlIoStatusForError e false < 0) by (intros []; cbn; repeat case_match; vm_compute; reflexivity).
  destruct e as [st|c|n]; cbn [flatsqlIoStatusOf]; try apply H. destruct (Z.ltb_spec st 0); [done|apply H].
Qed.

(** ** Paths *)

(** [components.join("/")] *)
Definition join_path (l : list jsstring) : jsstring :=
  match l with [] => [] | x :: l' => x ++ flat_map (fun c => 47 :: c) l' end.

(** The components of a path below the root, or a status. *)
Fixpoint path_components (parts : list jsstring) : list jsstring + Z :=
  match parts with
  | [] => inl []
  | part :: rest =>
      if str_eqb part [] || str_eqb part (lit ".") then path_components rest
      else if str_eqb part (lit "..") then inr FLATSQL_IO_ERR_ACCESS
      else match path_components rest with inl l => inl (part :: l) | inr s => inr s end
  end.

Definition splitFlatsqlIoPath (path : jsstring) : list jsstring + Z :=
  if bool_decide (path = []) then inr FLATSQL_IO_ERR_GENERIC
  else if existsb (Z.eqb 0) path then inr FLATSQL_IO_ERR_GENERIC
  else
    match path_components (split_on 47 path) with
    | inr s => inr s
    | inl [] => inr FLATSQL_IO_ERR_GENERIC
    | inl l => inl l
    end.

(** [Math.imul] and FNV-1a. *)
Definition imul (a b : Z) : Z := to_int32 (to_int32 a * to_int32 b).
Definition hashFlatsqlIoPath (bytes : list Z) : Z :=
  js_ushr0 (fold_left (fun hash b => imul (js_xor hash b) 0x01000193) bytes 0x811c9dc5).

(** [new TextDecoder("utf-8", { fatal: true }).decode]: bytes that are not the encoding of a text
    are refused. *)
Definition decode_fatal (bytes : list Z) : option jsstring :=
  if bool_decide (flat_map encode_scalar (utf8_scalars bytes) = bytes) then Some (text_decode bytes) else None.

Definition decodeFlatsqlIoPath (bytes : list Z) : jsstring + Z :=
  if (blen bytes =? 0) || (FLATSQL_IO_MAX_PATH_BYTES <? blen bytes) then inr FLATSQL_IO_ERR_GENERIC
  else match decode_fatal bytes with Some path => inl path | None => inr FLATSQL_IO_ERR_GENERIC end.

Lemma encode_text_valid s : Forall is_unit s -> flat_map encode_scalar (utf8_scalars (text_encode s)) = text_encode s.
Proof. intros Hs. unfold text_encode. by rewrite utf8_scalars_encode by (by apply scalars_ok). Qed.

(** The path a client encodes is the path the worker decodes. *)
Lemma decode_path_encode s : Forall is_unit s -> isWellFormed s = true -> head s <> Some 0xFEFF -> s <> [] ->
  blen (text_encode s) <= FLATSQL_IO_MAX_PATH_BYTES -> decodeFlatsqlIoPath (text_encode s) = inl s.
Proof.
  intros Hu Hw Hb Hne Hl. unfold decodeFlatsqlIoPath.
  assert (Hpos : blen (text_encode s) <> 0).
  { intros E%blen_0. apply Hne. rewrite <- (text_decode_encode s) by done. by rewrite E. }
  destruct (Z.eqb_spec (blen (text_encode s)) 0); [done|]. destruct (Z.ltb_spec FLATSQL_IO_MAX_PATH_BYTES (blen (text_encode s))); [lia|].
  cbn [orb]. unfold decode_fatal. rewrite bool_decide_eq_true_2 by (by apply encode_text_valid). by rewrite text_decode_encode.
Qed.
