(* ===== verification/MemoryBackend.v ===== *)
(** The in-memory file backend of the FlatSQL I/O server
    (src/host/flatsqlIoMemoryBackend.js), behind the contract of IoContract.v.

    A file is a buffer of some capacity and the length in use. All files share a budget of
    capacity. The abstract file is the byte string [content]; reads, writes and truncations
    are specified on it. *)
From Stdlib Require Import ZArith Lia.
From stdpp Require Import base list strings numbers.
From S2P Require Import Prelude JsText JsMap IoContract.
Open Scope Z_scope.

(** ** Files *)

Record memory_file := MemoryFile { bytes : list Z; length : Z }.
Definition new_file : memory_file := MemoryFile [] 0.
Definition capacity (f : memory_file) : Z := blen (bytes f).

(** The budget: [None] is Infinity. *)
Record budget := Budget { maxBytes : option Z; allocated : Z }.

Definition reserve (b : budget) (n : Z) : budget + io_thrown :=
  match maxBytes b with
  | Some m => if m <? allocated b + n then inr (StatusError FLATSQL_IO_ERR_NOSPACE)
              else inl (Budget (maxBytes b) (allocated b + n))
  | None => inl (Budget (maxBytes b) (allocated b + n))
  end.
Definition release (b : budget) (n : Z) : budget := Budget (maxBytes b) (Z.max 0 (allocated b - n)).

(** [while (capacity < size) capacity *= 2]; from 64 on, log2 size doublings are enough. *)
Fixpoint grow (fuel : nat) (cap size : Z) : Z :=
  match fuel with
  | O => cap
  | S fuel' => if cap <? size then grow fuel' (cap * 2) size else cap
  end.

Definition zeros (n : Z) : list Z := repeat 0 (Z.to_nat n).

Definition ensureCapacity (f : memory_file) (size : Z) (b : budget) : (memory_file * budget) + io_thrown :=
  if size <=? capacity f then inl (f, b)
  else
    let cap := grow (S (Z.to_nat (Z.log2 size))) (Z.max 64 (capacity f)) size in
    match reserve b (cap - capacity f) with
    | inr e => inr e
    | inl b =>
        let used := subarray (bytes f) 0 (length f) in
        inl (MemoryFile (used ++ zeros (cap - blen used)) (length f), b)
    end.

(** [bytes.fill(0, from, to)] and [bytes.set(view, at)] inside the buffer. *)
Definition fill0 (l : list Z) (from to : Z) : list Z :=
  subarray l 0 from ++ zeros (to - from) ++ subarray_from l to.
Definition set_at (l view : list Z) (at' : Z) : list Z :=
  subarray l 0 at' ++ view ++ subarray_from l (at' + blen view).

(** At most [n] bytes from [at']. *)
Definition file_read (f : memory_file) (n at' : Z) : list Z :=
  if length f <=? at' then []
  else subarray (bytes f) at' (at' + Z.min n (length f - at')).

Definition file_write (f : memory_file) (view : list Z) (at' : Z) (b : budget) :
    (memory_file * budget) + io_thrown :=
  let end' := at' + blen view in
  match ensureCapacity f end' b with
  | inr e => inr e
  | inl (f, b) =>
      let bs := if length f <? at' then fill0 (bytes f) (length f) at' else bytes f in
      let bs := set_at bs view at' in
      inl (MemoryFile bs (if length f <? end' then end' else length f), b)
  end.

Definition file_truncate (f : memory_file) (size : Z) (b : budget) : (memory_file * budget) + io_thrown :=
  if length f <? size then
    match ensureCapacity f size b with
    | inr e => inr e
    | inl (f, b) => inl (MemoryFile (fill0 (bytes f) (length f) size) size, b)
    end
  else inl (MemoryFile (bytes f) size, b).

(** ** The backend *)

Record backend := Backend {
  files : list (jsstring * memory_file);
  directories : list jsstring;
  the_budget : budget
}.
Definition createFlatsqlIoMemoryBackend (max : option Z) : backend := Backend [] [[]] (Budget max 0).

(** A handle names its file by path and looks it up on every call. *)
Record handle := Handle { key : jsstring; closed : bool }.
Definition close (h : handle) : handle := Handle (key h) true.

Definition live (k : backend) (h : handle) : memory_file + io_thrown :=
  if closed h then inr (NamedError "InvalidStateError")
  else match map_get (files k) (key h) with
       | None => inr (NamedError "NotFoundError")
       | Some f => inl f
       end.

Definition read (k : backend) (h : handle) (n at' : Z) : list Z + io_thrown :=
  match live k h with inr e => inr e | inl f => inl (file_read f n at') end.

Definition put (k : backend) (h : handle) (r : (memory_file * budget) + io_thrown) : option io_thrown * backend :=
  match r with
  | inr e => (Some e, k)
  | inl (f, b) => (None, Backend (map_set (files k) (key h) f) (directories k) b)
  end.

Definition write (k : backend) (h : handle) (view : list Z) (at' : Z) : option io_thrown * backend :=
  match live k h with inr e => (Some e, k) | inl f => put k h (file_write f view at' (the_budget k)) end.
Definition truncate (k : backend) (h : handle) (size : Z) : option io_thrown * backend :=
  match live k h with inr e => (Some e, k) | inl f => put k h (file_truncate f size (the_budget k)) end.
Definition getSize (k : backend) (h : handle) : Z + io_thrown :=
  match live k h with inr e => inr e | inl f => inl (length f) end.

Definition flush (k : backend) (h : handle) : option io_thrown :=
  match live k h with inr e => Some e | inl _ => None end.

Definition parentOf (components : list jsstring) : jsstring :=
  join_path (take (List.length components - 1) components).
Definition add_dir (ds : list jsstring) (d : jsstring) : list jsstring :=
  if bool_decide (d ∈ ds) then ds else ds ++ [d].

(** Directories added for the parents of a path: each proper prefix of the components. *)
Definition add_parents (ds : list jsstring) (components : list jsstring) : list jsstring :=
  fold_left (fun ds i => add_dir ds (join_path (take i components))) (seq 1 (List.length components - 1)) ds.

Definition openFile (k : backend) (path : jsstring) (components : list jsstring) (flags : Z) :
    (handle + io_thrown) * backend :=
  let parent := parentOf components in
  if negb (bool_decide (parent ∈ directories k)) &&
     (negb (has_flag flags FLATSQL_IO_CREATE_PARENTS) || negb (has_flag flags FLATSQL_IO_CREATE))
  then (inr (StatusError FLATSQL_IO_ERR_NOENT), k)
  else
    let ds := if bool_decide (parent ∈ directories k) then directories k
              else add_parents (directories k) components in
    let k := Backend (files k) ds (the_budget k) in
    if bool_decide (path ∈ ds) then (inr (StatusError FLATSQL_IO_ERR_ACCESS), k)
    else
      match map_get (files k) path with
      | Some f =>
          if has_flag flags FLATSQL_IO_EXCL then (inr (StatusError FLATSQL_IO_ERR_GENERIC), k)
          else if has_flag flags FLATSQL_IO_TRUNC then
            (inl (Handle path false), Backend (map_set (files k) path (MemoryFile (bytes f) 0)) ds (the_budget k))
          else (inl (Handle path false), k)
      | None =>
          if negb (has_flag flags FLATSQL_IO_CREATE) then (inr (StatusError FLATSQL_IO_ERR_NOENT), k)
          else (inl (Handle path false), Backend (map_set (files k) path new_file) ds (the_budget k))
      end.

Definition exists_ (k : backend) (path : jsstring) : bool :=
  map_has (files k) path || bool_decide (path ∈ directories k).

Definition remove (k : backend) (path : jsstring) : option io_thrown * backend :=
  match map_get (files k) path with
  | None => (Some (StatusError FLATSQL_IO_ERR_NOENT), k)
  | Some f => (None, Backend (map_delete (files k) path) (directories k) (release (the_budget k) (capacity f)))
  end.

Definition reset (k : backend) : backend := Backend [] [[]] (Budget (maxBytes (the_budget k)) 0).
Definition usage (k : backend) : Z * Z := (blen (files k), allocated (the_budget k)).

(** ** Paths *)

Lemma split_parts c s : Forall (fun w => (c ∉ w) /\ forall x, x ∈ w -> x ∈ s) (split_on c s).
Proof.
  induction s as [|x s IH]; cbn; [apply Forall_singleton; split; [apply not_elem_of_nil|done]|].
  assert (Hm : Forall (fun w => (c ∉ w) /\ forall y, y ∈ w -> y ∈ x :: s) (split_on c s)).
  { eapply list.Forall_impl; [exact IH|]. intros w [H1 H2]. split; [done|]. intros y Hy. apply list_elem_of_further. auto. }
  destruct (Z.eqb_spec x c) as [|Hne].
  { apply list.Forall_cons. split; [|done]. split; [apply not_elem_of_nil|]. intros y []%not_elem_of_nil. }
  destruct (split_on c s) as [|w ws]; [apply Forall_singleton; split|].
  - by intros ->%list_elem_of_singleton.
  - intros y ->%list_elem_of_singleton. apply list_elem_of_here.
  - apply list.Forall_cons in Hm as [[H1 H2] Hws]. apply list.Forall_cons. split; [|done]. split.
    + apply not_elem_of_cons. done.
    + intros y [-> | Hy]%elem_of_cons; [apply list_elem_of_here|auto].
Qed.

(** A name that stays inside its directory. *)
Definition confined (path c : jsstring) : Prop :=
  c <> [] /\ c <> lit "." /\ c <> lit ".." /\ (47 ∉ c) /\ forall x, x ∈ c -> x ∈ path.

Lemma path_components_confined path parts comps : Forall (fun w => (47 ∉ w) /\ forall x, x ∈ w -> x ∈ path) parts ->
  path_components parts = inl comps -> Forall (confined path) comps.
Proof.
  intros Hp. revert comps. induction Hp as [|w ws [H1 H2] _ IH]; intros comps; cbn [path_components]; [by intros [= <-]|].
  destruct (str_eqb w []) eqn:E1; cbn [orb]; [by apply IH|]. destruct (str_eqb w (lit ".")) eqn:E2; [by apply IH|].
  destruct (str_eqb w (lit "..")) eqn:E3; [done|]. destruct (path_components ws) as [l|]; [|done].
  intros [= <-]. apply list.Forall_cons. split; [|by apply IH].
  split_and!; [intros -> ..| |]; done.
Qed.

Lemma components_of_names names path : Forall (confined path) names -> path_components names = inl names.
Proof.
  induction 1 as [|w ws (H1 & H2 & H3 & _) _ IH]; [done|]. cbn [path_components].
  destruct (str_eqb w []) eqn:E1; [by apply str_eqb_eq in E1|]. destruct (str_eqb w (lit ".")) eqn:E2; [by apply str_eqb_eq in E2|].
  destruct (str_eqb w (lit "..")) eqn:E3; [by apply str_eqb_eq in E3|]. cbn [orb]. by rewrite IH.
Qed.

Lemma split_join names : names <> [] -> Forall (fun w => 47 ∉ w) names -> split_on 47 (join_path names) = names.
Proof.
  intros Hne Hn. destruct Hn as [|w ws Hw Hws]; [done|]. clear Hne. cbn [join_path].
  revert w Hw. induction Hws as [|v vs Hv _ IH]; intros w Hw; cbn [flat_map].
  - rewrite app_nil_r. by apply split_on_none.
  - cbn [app]. rewrite split_on_sep by done. by rewrite IH.
Qed.

(** An accepted path is confined: its components are proper names (not empty, not "." or
    "..", without a slash or a NUL), and the components joined by slashes name the same file
    again. A refused path gives a negative status. *)
Theorem accepted_path_confined path :
  match splitFlatsqlIoPath path with
  | inl comps => comps <> [] /\ Forall (fun c => confined path c /\ (0 ∉ c)) comps /\
      splitFlatsqlIoPath (join_path comps) = inl comps
  | inr status => status < 0
  end.
Proof.
  unfold splitFlatsqlIoPath at 1. case_bool_decide as Hp; [done|]. destruct (existsb (Z.eqb 0) path) eqn:Ez; [done|].
  destruct (path_components (split_on 47 path)) as [[|c comps]|s] eqn:Ec; [done| |].
  2: { clear -Ec. revert Ec. induction (split_on 47 path) as [|w ws IH]; cbn [path_components]; [done|].
       destruct (_ || _); [done|]. destruct (str_eqb w (lit "..")); [by intros [= <-]|].
       destruct (path_components ws); [done|]. intros [= ->]. by apply IH. }
  pose proof (path_components_confined path _ _ (split_parts 47 path) Ec) as Hc.
  assert (Hno : 0 ∉ path).
  { intros Hin. rewrite <- not_true_iff_false in Ez. apply Ez, existsb_exists. exists 0. by rewrite <- list_elem_of_In. }
  assert (Hz : Forall (fun c => confined path c /\ (0 ∉ c)) (c :: comps)).
  { eapply list.Forall_impl; [exact Hc|]. intros w Hw. split; [done|]. intros Hin. apply Hno. by apply Hw. }
  split_and!; [done|done|]. unfold splitFlatsqlIoPath.
  assert (Hj : split_on 47 (join_path (c :: comps)) = c :: comps).
  { apply split_join; [done|]. eapply list.Forall_impl; [exact Hc|]. by intros w (_ & _ & _ & ? & _). }
  rewrite bool_decide_eq_false_2.
  2: { intros Hn. rewrite Hn in Hj. injection Hj as <- <-. apply list.Forall_cons in Hc as [(Hc & _) _]. done. }
  destruct (existsb (Z.eqb 0) (join_path (c :: comps))) eqn:Ej.
  { exfalso. apply existsb_exists in Ej as (z & Hin & <-%Z.eqb_eq). rewrite <- list_elem_of_In in Hin. cbn [join_path] in Hin.
    apply list.Forall_cons in Hz as [[_ Hz0] Hz]. apply elem_of_app in Hin as [?|Hin]; [done|].
    rewrite list_elem_of_In in Hin. apply in_flat_map in Hin as (w & Hw & Hin).
    rewrite <- list_elem_of_In in Hw. rewrite <- list_elem_of_In in Hin. apply elem_of_cons in Hin as [?|Hin]; [done|]. rewrite list.Forall_forall in Hz. by apply (Hz w Hw). }
  rewrite Hj. by rewrite (components_of_names _ path Hc).
Qed.

(** ** The content of a file *)

Definition content (f : memory_file) : list Z := subarray (bytes f) 0 (length f).
Definition file_ok (f : memory_file) : Prop := 0 <= length f <= capacity f.

(** [c] cut or padded with zeros to [n] bytes. *)
Definition resized (c : list Z) (n : Z) : list Z :=
  if blen c <? n then c ++ zeros (n - blen c) else subarray c 0 n.

Lemma blen_zeros n : 0 <= n -> blen (zeros n) = n.
Proof. intros Hn. unfold blen, zeros. rewrite repeat_length. lia. Qed.

Lemma file_split f : file_ok f -> exists spare, bytes f = content f ++ spare /\ blen (content f) = length f.
Proof.
  intros [H1 H2]. destruct (subarray_split (bytes f) 0 (length f)) as (p & q & Hb & Hp & Hl); [lia|done|].
  apply blen_0 in Hp as ->. exists q. unfold content. split; [done|lia].
Qed.

Lemma content_of l spare n : n = blen l -> content (MemoryFile (l ++ spare) n) = l.
Proof. intros ->. unfold content. cbn. by apply (subarray_app [] l spare). Qed.

Lemma grow_ge fuel : forall cap size, 1 <= cap -> size < cap * 2 ^ Z.of_nat fuel -> size <= grow fuel cap size /\ cap <= grow fuel cap size.
Proof.
  induction fuel as [|fuel IH]; intros cap size Hc Hs; cbn [grow]; [rewrite Z.mul_1_r in Hs; lia|].
  destruct (Z.ltb_spec cap size); [|lia].
  rewrite Nat2Z.inj_succ, Z.pow_succ_r in Hs by lia.
  destruct (IH (cap * 2) size); [lia|lia|]. lia.
Qed.

Lemma grow_enough cap size : 64 <= cap -> 0 < size ->
  size <= grow (S (Z.to_nat (Z.log2 size))) cap size /\ cap <= grow (S (Z.to_nat (Z.log2 size))) cap size.
Proof.
  intros Hc Hs. apply grow_ge; [lia|].
  rewrite Nat2Z.inj_succ, Z2Nat.id by apply Z.log2_nonneg.
  pose proof (Z.log2_spec size Hs). nia.
Qed.

Lemma ensure_ok f size b f' b' : file_ok f -> ensureCapacity f size b = inl (f', b') ->
  file_ok f' /\ content f' = content f /\ length f' = length f /\ size <= capacity f' /\
  capacity f <= capacity f' /\ maxBytes b' = maxBytes b /\
  allocated b' = allocated b + (capacity f' - capacity f) /\
  (forall m, maxBytes b = Some m -> allocated b <= m -> allocated b' <= m).
Proof.
  intros Hf. unfold ensureCapacity. destruct (Z.leb_spec size (capacity f)) as [Hle|Hgt].
  { intros [= <- <-]. split_and!; try done; lia. }
  pose proof (grow_enough (Z.max 64 (capacity f)) size ltac:(lia) ltac:(destruct Hf; lia)) as [Hg1 Hg2].
  set (cap := grow _ _ size) in *. destruct (file_split f Hf) as (spare & Hb & Hl).
  fold (content f). destruct (reserve b (cap - capacity f)) as [b1|] eqn:Er; [|done]. intros [= <- <-].
  destruct Hf as [Hf1 Hf2].
  assert (Hcap : blen (content f ++ zeros (cap - blen (content f))) = cap)
    by (rewrite blen_app, blen_zeros by lia; lia).
  assert (Hb1 : maxBytes b1 = maxBytes b /\ allocated b1 = allocated b + (cap - capacity f) /\
    forall m, maxBytes b = Some m -> allocated b1 <= m).
  { unfold reserve in Er. destruct (maxBytes b) as [m|] eqn:Em.
    - destruct (Z.ltb_spec m (allocated b + (cap - capacity f))); [done|]. injection Er as <-. cbn.
      split_and!; [done|done|]. by intros m' [= <-].
    - injection Er as <-. done. }
  destruct Hb1 as (Hm & Ha & Hmax).
  assert (Hc : capacity (MemoryFile (content f ++ zeros (cap - blen (content f))) (length f)) = cap) by done.
  unfold file_ok. rewrite Hc. cbn [length]. split_and!; try done; try lia; [by apply content_of|by auto].
Qed.

Lemma set_at_split x y z v at' : at' = blen x -> blen v = blen y -> set_at (x ++ y ++ z) v at' = x ++ v ++ z.
Proof.
  intros -> Hv. unfold set_at. f_equal; [|f_equal].
  - by apply (subarray_app [] x (y ++ z)).
  - rewrite app_assoc. apply subarray_from_app. blia.
Qed.

Lemma fill0_split x y z from to : from = blen x -> to = blen x + blen y -> fill0 (x ++ y ++ z) from to = x ++ zeros (blen y) ++ z.
Proof.
  intros -> ->. unfold fill0. f_equal; [|f_equal].
  - by apply (subarray_app [] x (y ++ z)).
  - f_equal. lia.
  - rewrite app_assoc. apply subarray_from_app. blia.
Qed.

Lemma subarray_from_ge (l : list Z) s : blen l <= s -> subarray_from l s = [].
Proof.
  intros Hs. pose proof (blen_nonneg l). unfold subarray_from, rel_index.
  destruct (Z.ltb_spec s 0); [lia|]. apply drop_ge. unfold blen in *. lia.
Qed.
Lemma zeros_neg n : n <= 0 -> zeros n = [].
Proof. intros Hn. unfold zeros. by replace (Z.to_nat n) with O by lia. Qed.
Lemma subarray_prefix (x y : list Z) n : n = blen x -> subarray (x ++ y) 0 n = x.
Proof. intros ->. by apply (subarray_app [] x y). Qed.

(** The file after writing [v] at [at']: what was before, padded with zeros up to [at'], then
    [v], then what the old content had behind it. *)
Definition written (c v : list Z) (at' : Z) : list Z :=
  subarray (c ++ zeros (at' - blen c)) 0 at' ++ v ++ subarray_from c (at' + blen v).

(** Bytes and length after the buffer is large enough. *)
Lemma write_buffer c spare v at' :
  0 <= at' -> at' + blen v <= blen c + blen spare ->
  let bs := if blen c <? at' then fill0 (c ++ spare) (blen c) at' else c ++ spare in
  let n := if blen c <? at' + blen v then at' + blen v else blen c in
  exists spare', set_at bs v at' = written c v at' ++ spare' /\ blen (written c v at') = n /\
    blen (set_at bs v at') = blen (c ++ spare).
Proof.
  intros Ha He. pose proof (blen_nonneg v). destruct (Z.ltb_spec (blen c) at') as [Hlt|Hge]; cbv zeta.
  - destruct (split_len spare (at' - blen c)) as (y & z & -> & Hy); [blia|].
    destruct (split_len z (blen v)) as (z1 & z2 & -> & Hz1); [blia|].
    rewrite fill0_split by lia. rewrite app_assoc.
    assert (Hz : blen (c ++ zeros (blen y)) = at') by (rewrite blen_app, blen_zeros by blia; lia).
    rewrite set_at_split by lia.
    assert (Hw : written c v at' = (c ++ zeros (blen y)) ++ v).
    { unfold written. rewrite subarray_from_ge, app_nil_r by lia. f_equal.
      rewrite <- Hy. rewrite <- (app_nil_r (c ++ zeros (blen y))) at 1. by apply subarray_prefix. }
    rewrite Hw. destruct (Z.ltb_spec (blen c) (at' + blen v)); [|lia].
    exists z2. split_and!; [app_eq|blia|]. rewrite !blen_app, blen_zeros by blia. lia.
  - destruct (split_len c at') as (c1 & c2 & -> & Hc1); [lia|].
    destruct (Z.ltb_spec (blen (c1 ++ c2)) (at' + blen v)) as [Hl|Hl].
    + destruct (split_len spare (blen v - blen c2)) as (s1 & s2 & -> & Hs1); [blia|].
      replace ((c1 ++ c2) ++ s1 ++ s2) with (c1 ++ (c2 ++ s1) ++ s2) by app_eq.
      rewrite set_at_split by blia. exists s2.
      assert (Hw : written (c1 ++ c2) v at' = c1 ++ v).
      { unfold written. rewrite subarray_from_ge, app_nil_r, zeros_neg, app_nil_r by blia. f_equal.
        by apply subarray_prefix. }
      rewrite Hw. split_and!; [app_eq|blia|blia].
    + destruct (split_len c2 (blen v)) as (y & z & -> & Hy); [blia|].
      replace ((c1 ++ y ++ z) ++ spare) with (c1 ++ y ++ (z ++ spare)) by app_eq.
      rewrite set_at_split by lia. exists spare.
      assert (Hw : written (c1 ++ y ++ z) v at' = c1 ++ v ++ z).
      { unfold written. rewrite zeros_neg, app_nil_r by blia. f_equal; [by apply subarray_prefix|]. f_equal.
        rewrite app_assoc. apply subarray_from_app. blia. }
      rewrite Hw. split_and!; [app_eq|blia|blia].
Qed.

Lemma write_content f v at' b f' b' :
  file_ok f -> 0 <= at' -> file_write f v at' b = inl (f', b') ->
  file_ok f' /\ content f' = written (content f) v at' /\ capacity f <= capacity f' /\
  maxBytes b' = maxBytes b /\ allocated b' = allocated b + (capacity f' - capacity f) /\
  (forall m, maxBytes b = Some m -> allocated b <= m -> allocated b' <= m).
Proof.
  intros Hf Ha. unfold file_write. destruct (ensureCapacity f (at' + blen v) b) as [[f1 b1]|] eqn:Ee; [|done].
  apply ensure_ok in Ee as (Hf1 & Hc1 & Hl1 & Hcap & Hge & Hm & Hal & Hmx); [|done]. intros [= <- <-].
  destruct (file_split f1 Hf1) as (spare & Hb & Hl). rewrite <- Hl, Hb, <- Hc1 in *.
  destruct (write_buffer (content f1) spare v at' Ha) as (sp & Hs & Hn & Hcl).
  { unfold capacity in Hcap. rewrite Hb in Hcap. blia. }
  assert (Hcap' : forall n, capacity (MemoryFile (set_at (if blen (content f1) <? at' then fill0 (content f1 ++ spare) (blen (content f1)) at' else content f1 ++ spare) v at') n) = capacity f1).
  { intros n. unfold capacity. cbn [bytes]. by rewrite Hcl, Hb. }
  split; [|split].
  - unfold file_ok. rewrite Hcap'. cbn [length]. destruct Hf1. 
    destruct (Z.ltb_spec (blen (content f1)) (at' + blen v)); split; blia.
  - rewrite Hs. by apply content_of.
  - rewrite Hcap'. done.
Qed.

Lemma truncate_content f size b f' b' :
  file_ok f -> 0 <= size -> file_truncate f size b = inl (f', b') ->
  file_ok f' /\ content f' = resized (content f) size /\ capacity f <= capacity f' /\
  maxBytes b' = maxBytes b /\ allocated b' = allocated b + (capacity f' - capacity f) /\
  (forall m, maxBytes b = Some m -> allocated b <= m -> allocated b' <= m).
Proof.
  intros Hf Hs. unfold file_truncate. destruct (Z.ltb_spec (length f) size) as [Hlt|Hge].
  - destruct (ensureCapacity f size b) as [[f1 b1]|] eqn:Ee; [|done].
    apply ensure_ok in Ee as (Hf1 & Hc1 & Hl1 & Hcap & Hge & Hm & Hal & Hmx); [|done]. intros [= <- <-].
    destruct (file_split f1 Hf1) as (spare & Hb & Hl).
    destruct (split_len spare (size - length f1)) as (y & z & -> & Hy).
    { unfold capacity in Hcap. rewrite Hb in Hcap. blia. }
    rewrite Hb. rewrite fill0_split by lia.
    assert (Hcap' : capacity (MemoryFile (content f1 ++ zeros (blen y) ++ z) size) = capacity f1).
    { unfold capacity. cbn [bytes]. rewrite Hb, !blen_app, blen_zeros by blia. done. }
    split; [|split].
    + unfold file_ok. rewrite Hcap'. cbn [length]. lia.
    + rewrite app_assoc. rewrite content_of by (rewrite blen_app, blen_zeros by blia; lia).
      unfold resized. rewrite <- Hc1. destruct (Z.ltb_spec (blen (content f1)) size); [|lia].
      do 2 f_equal. lia.
    + rewrite Hcap'. done.
  - intros [= <- <-]. destruct (file_split f Hf) as (spare & Hb & Hl). split; [|split].
    + unfold file_ok, capacity in *. cbn. lia.
    + unfold resized. destruct (Z.ltb_spec (blen (content f)) size); [lia|].
      destruct (split_len (content f) size) as (c1 & c2 & Hc & Hc1); [lia|].
      unfold content at 1. cbn [bytes length]. rewrite Hb, Hc, <- app_assoc.
      rewrite !subarray_prefix by done. done.
    + unfold capacity. cbn. split_and!; try done; lia.
Qed.

Lemma read_content f n at' : file_ok f -> 0 <= n -> 0 <= at' ->
  file_read f n at' = subarray (content f) at' (at' + n).
Proof.
  intros Hf Hn Ha. destruct (file_split f Hf) as (spare & Hb & Hl). unfold file_read.
  destruct (Z.leb_spec (length f) at').
  - unfold subarray, rel_index. rewrite Hl.
    destruct (Z.ltb_spec at' 0), (Z.ltb_spec (at' + n) 0); try lia.
    replace (Z.to_nat (Z.min (at' + n) (length f) - Z.min at' (length f))) with O by lia. done.
  - destruct (split_len (content f) at') as (c1 & c2 & Hc & Hc1); [lia|].
    destruct (split_len c2 (Z.min n (length f - at'))) as (y & z & -> & Hy); [rewrite Hc in Hl; blia|].
    rewrite Hb, Hc. rewrite Hc in Hl.
    replace ((c1 ++ y ++ z) ++ spare) with (c1 ++ y ++ (z ++ spare)) by app_eq.
    rewrite subarray_app by lia. symmetry. destruct (Z_le_gt_dec n (length f - at')).
    + apply subarray_app; lia.
    + assert (z = []) as -> by (apply blen_0; blia). rewrite app_nil_r in *.
      unfold subarray. rewrite (rel_index_in _ at') by blia. unfold rel_index.
      destruct (Z.ltb_spec (at' + n) 0); [lia|]. rewrite Z.min_r by blia.
      replace (Z.to_nat at') with (List.length c1) by (unfold blen in Hc1; lia). rewrite drop_app_length.
      apply take_ge. unfold blen in *. rewrite length_app in *. lia.
Qed.

(** An operation that needs [size] bytes is refused: the buffer is too small and the budget
    has no room for a larger one. *)
Definition refused (f : memory_file) (size : Z) (b : budget) (e : io_thrown) : Prop :=
  e = StatusError FLATSQL_IO_ERR_NOSPACE /\ capacity f < size /\
  exists m, maxBytes b = Some m /\ m < allocated b + Z.max 64 (2 * size).

Lemma grow_le fuel : forall cap size, grow fuel cap size <= Z.max cap (2 * size).
Proof.
  induction fuel as [|fuel IH]; intros cap size; cbn [grow]; [lia|].
  destruct (Z.ltb_spec cap size); [|lia]. specialize (IH (cap * 2) size). lia.
Qed.

Lemma ensure_refused f size b e : ensureCapacity f size b = inr e -> refused f size b e.
Proof.
  unfold ensureCapacity, reserve, refused. destruct (Z.leb_spec size (capacity f)); [done|].
  pose proof (grow_le (S (Z.to_nat (Z.log2 size))) (Z.max 64 (capacity f)) size).
  assert (0 <= capacity f) by apply blen_nonneg.
  destruct (maxBytes b) as [m|]; [|done]. set (cap := grow _ _ _) in *.
  destruct (Z.ltb_spec m (allocated b + (cap - capacity f))); [|done]. intros [= <-].
  split_and!; [done|done|]. exists m. split; [done|lia].
Qed.

(** C38. A file is its content: a write that succeeds replaces exactly the bytes it covers,
    padding a gap with zeros, a truncation cuts or zero-fills, a read returns the bytes of
    the content in its range, and an operation fails only when the buffer has to grow and the
    budget has no room for the larger of 64 bytes and twice the size. *)
Theorem file_operations_refine_content f v at' size n b :
  file_ok f -> 0 <= at' -> 0 <= size -> 0 <= n ->
  file_read f n at' = subarray (content f) at' (at' + n) /\
  match file_write f v at' b with
  | inl (f', _) => file_ok f' /\ content f' = written (content f) v at'
  | inr e => refused f (at' + blen v) b e
  end /\
  match file_truncate f size b with
  | inl (f', _) => file_ok f' /\ content f' = resized (content f) size
  | inr e => refused f size b e
  end.
Proof.
  intros Hf Ha Hs Hn.
  split; [by apply read_content|]. split.
  - destruct (file_write f v at' b) as [[f' b']|e] eqn:E.
    + apply write_content in E; [|done..]. tauto.
    + unfold file_write in E. destruct (ensureCapacity _ _ _) as [[? ?]|e'] eqn:Ee; [done|].
      injection E as <-. by eapply ensure_refused.
  - destruct (file_truncate f size b) as [[f' b']|e] eqn:E.
    + apply truncate_content in E; [|done..]. tauto.
    + unfold file_truncate in E. destruct (_ <? _); [|done].
      destruct (ensureCapacity _ _ _) as [[? ?]|e'] eqn:Ee; [done|]. injection E as <-. by eapply ensure_refused.
Qed.

Lemma file_operations_refine_content_witness :
  let f := MemoryFile [7; 8; 9; 0] 3 in
  file_read f 9 5 = [] /\
  match file_write f [1; 2] 5 (Budget (Some 100) 4) with
  | inl (f', _) => file_ok f' /\ content f' = [7; 8; 9; 0; 0; 1; 2]
  | inr e => refused f 7 (Budget (Some 100) 4) e
  end /\
  match file_truncate f 2 (Budget (Some 100) 4) with
  | inl (f', _) => file_ok f' /\ content f' = [7; 8]
  | inr e => refused f 2 (Budget (Some 100) 4) e
  end.
Proof.
  apply (file_operations_refine_content (MemoryFile [7; 8; 9; 0] 3) [1; 2] 5 2 9 (Budget (Some 100) 4));
    [split; vm_compute; congruence|lia|lia|lia].
Defined.

(** ** The budget *)

(** One call on the backend by any of its clients, through any handle they hold. *)
Inductive step : backend -> backend -> Prop :=
| step_open k path components flags : step k (snd (openFile k path components flags))
| step_write k h view at' : 0 <= at' -> step k (snd (write k h view at'))
| step_truncate k h size : 0 <= size -> step k (snd (truncate k h size))
| step_remove k path : step k (snd (remove k path))
| step_reset k : step k (reset k).

Inductive reachable (max : option Z) : backend -> Prop :=
| reach_init : reachable max (createFlatsqlIoMemoryBackend max)
| reach_step k k' : reachable max k -> step k k' -> reachable max k'.

Fixpoint total_capacity (m : list (jsstring * memory_file)) : Z :=
  match m with [] => 0 | e :: m' => capacity e.2 + total_capacity m' end.

Record accounted (max : option Z) (k : backend) : Prop := {
  acc_keys : NoDup (map_keys (files k));
  acc_files : Forall (fun e => file_ok e.2) (files k);
  acc_sum : allocated (the_budget k) = total_capacity (files k);
  acc_max : maxBytes (the_budget k) = max;
  acc_bound : forall m, max = Some m -> allocated (the_budget k) <= m
}.

Lemma total_set m path f : total_capacity (map_set m path f) =
  total_capacity m + capacity f - match map_get m path with Some g => capacity g | None => 0 end.
Proof.
  induction m as [|[p g] m IH]; cbn; [lia|]. destruct (decide (p = path)); cbn; [lia|]. rewrite IH. lia.
Qed.

Lemma map_delete_absent {V} (m : list (jsstring * V)) path : map_get m path = None -> map_delete m path = m.
Proof.
  unfold map_delete. induction m as [|[p g] m IH]; cbn; [done|]. destruct (decide (p = path)); [done|].
  intros H. rewrite bool_decide_eq_false_2 by done. cbn. by rewrite IH.
Qed.

Lemma total_delete m path : NoDup (map_keys m) -> total_capacity (map_delete m path) =
  total_capacity m - match map_get m path with Some g => capacity g | None => 0 end.
Proof.
  induction m as [|[p g] m IH]; cbn; [done|]. intros [Hp Hm]%list.NoDup_cons.
  destruct (decide (p = path)) as [->|Hne].
  - unfold map_delete. cbn. rewrite bool_decide_eq_true_2 by done. cbn. fold (map_delete m path).
    rewrite map_delete_absent; [lia|]. apply map_get_None. by rewrite <- list_elem_of_In.
  - unfold map_delete. cbn. rewrite bool_decide_eq_false_2 by done. cbn. fold (map_delete m path).
    rewrite IH by done. lia.
Qed.

Lemma map_delete_sub {V} (m : list (jsstring * V)) path :
  NoDup (map_keys m) -> NoDup (map_keys (map_delete m path)) /\ incl (map_delete m path) m.
Proof.
  intros Hm. split; [|intros x Hx; unfold map_delete in Hx; apply filter_In in Hx; tauto].
  unfold map_delete, map_keys in *. induction m as [|[p g] m IH]; cbn; [done|].
  apply list.NoDup_cons in Hm as [Hp Hm]. case_bool_decide; cbn; [by apply IH|].
  apply list.NoDup_cons. split; [|by apply IH]. rewrite list_elem_of_In in *. intros ([p' g'] & He & Hin)%in_map_iff.
  cbn in He. subst p'. apply Hp, in_map_iff. exists (p, g'). split; [done|]. apply filter_In in Hin. tauto.
Qed.

Lemma total_nonneg m : 0 <= total_capacity m.
Proof. induction m as [|[p g] m IH]; cbn; [lia|]. unfold capacity. pose proof (blen_nonneg (bytes g)). lia. Qed.

Lemma capacity_le_total m path f : map_get m path = Some f -> capacity f <= total_capacity m.
Proof.
  induction m as [|[p g] m IH]; cbn; [done|]. pose proof (total_nonneg m).
  assert (0 <= capacity g) by apply blen_nonneg. destruct (decide (p = path)).
  - intros [= ->]. lia.
  - intros Hg%IH. lia.
Qed.

Lemma accounted_get max k path f : accounted max k -> map_get (files k) path = Some f -> file_ok f.
Proof.
  intros [] Hg%map_get_In. eapply (proj1 (List.Forall_forall _ _)) in Hg; [|eassumption]. done.
Qed.

(** Replacing a file by one of at least its capacity, paid for from the budget. *)
Lemma accounted_set max k path f f' b' ds :
  accounted max k -> map_get (files k) path = Some f -> file_ok f' -> maxBytes b' = maxBytes (the_budget k) ->
  allocated b' = allocated (the_budget k) + (capacity f' - capacity f) ->
  (forall m, maxBytes (the_budget k) = Some m -> allocated (the_budget k) <= m -> allocated b' <= m) ->
  accounted max (Backend (map_set (files k) path f') ds b').
Proof.
  intros [Hk Hf Hs Hm Hb] Hg Hf' Hm' Ha Hmx. constructor; cbn.
  - by apply map_set_NoDup.
  - apply List.Forall_forall. intros [p g] [[-> ->] | Hin]%map_set_In; [done|].
    eapply (proj1 (List.Forall_forall _ _)) in Hin; [|eassumption]. done.
  - rewrite total_set, Hg. lia.
  - congruence.
  - intros m Hmm. apply Hmx; [congruence|]. by apply Hb.
Qed.

Lemma live_get k h f : live k h = inl f -> map_get (files k) (key h) = Some f.
Proof. unfold live. destruct (closed h); [done|]. destruct (map_get _ _); [|done]. by intros [= ->]. Qed.

Lemma step_accounted max k k' : accounted max k -> step k k' -> accounted max k'.
Proof.
  intros Hk Hst. destruct Hst as [k path components flags|k h view at' Ha|k h size Hs|k path|k].
  - unfold openFile. destruct (_ && _); [done|]. set (ds := if bool_decide (parentOf components ∈ directories k) then _ else _).
    assert (Hds : accounted max (Backend (files k) ds (the_budget k))) by (destruct Hk; by constructor).
    case_bool_decide; [done|]. cbn [files the_budget]. destruct (map_get (files k) path) as [f|] eqn:Eg.
    + destruct (has_flag flags FLATSQL_IO_EXCL); [done|]. destruct (has_flag flags FLATSQL_IO_TRUNC); [|done].
      pose proof (accounted_get _ _ _ _ Hk Eg) as Hf. assert (capacity (MemoryFile (bytes f) 0) = capacity f) as Hc by done.
      apply (accounted_set max k path f); [done..| | | |]; try done.
      * unfold file_ok in *. rewrite Hc. cbn. lia.
      * rewrite Hc. cbn. lia.
    + destruct (negb _); [done|]. cbn. destruct Hk as [H1 H2 H3 H4 H5]. constructor; cbn; try done.
      * by apply map_set_NoDup.
      * apply List.Forall_forall. intros [p g] [[-> ->] | Hin]%map_set_In; [done|].
        eapply (proj1 (List.Forall_forall _ _)) in Hin; [|eassumption]. done.
      * rewrite total_set, Eg. change (capacity new_file) with 0. lia.
  - unfold write. destruct (live k h) as [f|] eqn:El; [|done]. apply live_get in El.
    pose proof (accounted_get _ _ _ _ Hk El) as Hf. unfold put.
    destruct (file_write f view at' (the_budget k)) as [[f' b']|] eqn:Ew; [|done].
    apply write_content in Ew as (Hf' & _ & _ & Hm & Hal & Hmx); [|done..]. by apply (accounted_set max k (key h) f).
  - unfold truncate. destruct (live k h) as [f|] eqn:El; [|done]. apply live_get in El.
    pose proof (accounted_get _ _ _ _ Hk El) as Hf. unfold put.
    destruct (file_truncate f size (the_budget k)) as [[f' b']|] eqn:Ew; [|done].
    apply truncate_content in Ew as (Hf' & _ & _ & Hm & Hal & Hmx); [|done..]. by apply (accounted_set max k (key h) f).
  - unfold remove. destruct (map_get (files k) path) as [f|] eqn:Eg; [|done].
    pose proof (capacity_le_total _ _ _ Eg) as Hle. destruct Hk as [H1 H2 H3 H4 H5].
    destruct (map_delete_sub (files k) path H1) as [Hn Hi]. unfold release. constructor; cbn.
    + done.
    + apply List.Forall_forall. intros x Hx%Hi. eapply (proj1 (List.Forall_forall _ _)) in H2; eassumption.
    + rewrite total_delete, Eg by done. lia.
    + done.
    + intros m Hm. specialize (H5 m Hm). assert (0 <= capacity f) by apply blen_nonneg. lia.
  - destruct Hk as [H1 H2 H3 H4 H5]. constructor; cbn; try done; [constructor|].
    intros m Hm. specialize (H5 m Hm). pose proof (total_nonneg (files k)). lia.
Qed.

(** Whatever its clients do, through live, closed or stale handles, the backend's
    [allocated] is exactly the capacity of the files it holds and stays within the budget;
    no two files share a path and every file's length lies within its buffer. *)
Theorem budget_accounted max k :
  (forall m, max = Some m -> 0 <= m) -> reachable max k -> accounted max k.
Proof.
  intros Hmax. induction 1 as [|k k' _ IH Hst]; [|by eapply step_accounted].
  constructor; cbn; try done. constructor.
Qed.

Lemma budget_accounted_witness :
  accounted (Some 100)
    (snd (write (snd (openFile (createFlatsqlIoMemoryBackend (Some 100)) (lit "a") [lit "a"] FLATSQL_IO_CREATE))
                (Handle (lit "a") false) [1; 2; 3] 2)).
Proof.
  apply budget_accounted; [intros m [= <-]; lia|].
  eapply reach_step; [eapply reach_step; [apply reach_init|apply step_open]|]. apply step_write. lia.
Defined.

(** Creating the parents of a path does not look at the files: a file's path can become a
    directory, and the file can then no longer be opened. *)
Theorem file_becomes_directory :
  let k0 := createFlatsqlIoMemoryBackend None in
  let k1 := snd (openFile k0 (lit "a") [lit "a"] FLATSQL_IO_CREATE) in
  let k2 := snd (openFile k1 (lit "a/b") [lit "a"; lit "b"] (Z.lor FLATSQL_IO_CREATE FLATSQL_IO_CREATE_PARENTS)) in
  map_has (files k2) (lit "a") = true /\ fst (openFile k2 (lit "a") [lit "a"] 0) = inr (StatusError FLATSQL_IO_ERR_ACCESS).
Proof. split; vm_compute; reflexivity. Qed.
