(* ===== verification/Cron.v ===== *)
(** Cron expressions of the host's scheduler (src/host/cron.js): parsing five fields to value
    sets, matching an instant, and the next occurrence after one.

    The meaning of a field is given by the relation [field_denotes] on its text; parsing is
    proved to compute exactly that set. An instant is a time value in milliseconds. The local
    zone is a constant offset [tz], so a change of offset (daylight saving) is outside this
    model. *)
From Stdlib Require Import ZArith QArith Lia Sorted.
From stdpp Require Import base list sorting strings numbers.
From S2P Require Import Prelude JsText JsMap JsNumber.
Open Scope Z_scope.

(** ** Parsing *)

Definition MONTH_ALIASES : list (jsstring * Z) :=
  [(lit "JAN", 1); (lit "FEB", 2); (lit "MAR", 3); (lit "APR", 4); (lit "MAY", 5); (lit "JUN", 6);
   (lit "JUL", 7); (lit "AUG", 8); (lit "SEP", 9); (lit "OCT", 10); (lit "NOV", 11); (lit "DEC", 12)].
Definition DAY_OF_WEEK_ALIASES : list (jsstring * Z) :=
  [(lit "SUN", 0); (lit "MON", 1); (lit "TUE", 2); (lit "WED", 3); (lit "THU", 4); (lit "FRI", 5); (lit "SAT", 6)].

(** [toUpperCase] of a unit, as far as the result has ASCII letters: the ASCII letters, the
    dotless i, the long s, the sharp s and the seven Latin ligatures. Any other unit has no
    ASCII unit in its upper case, so it is in no alias and is no digit either way. *)
Definition upper_unit (c : Z) : jsstring :=
  if (97 <=? c) && (c <=? 122) then [c - 32]
  else if c =? 0x131 then lit "I"
  else if c =? 0x17F then lit "S"
  else if c =? 0xDF then lit "SS"
  else if c =? 0xFB00 then lit "FF"
  else if c =? 0xFB01 then lit "FI"
  else if c =? 0xFB02 then lit "FL"
  else if c =? 0xFB03 then lit "FFI"
  else if c =? 0xFB04 then lit "FFL"
  else if (c =? 0xFB05) || (c =? 0xFB06) then lit "ST"
  else [c].
Definition toUpperCase (s : jsstring) : jsstring := flat_map upper_unit s.

Definition is_digit (c : Z) : bool := (48 <=? c) && (c <=? 57).

Definition parsePositiveInteger (value : jsstring) : result Z :=
  match to_integer value with
  | Some n => if n <=? 0 then Throw (Error "must be a positive integer.") else Ok n
  | None => Throw (Error "must be a positive integer.")
  end.

(** A run of digits is its decimal value: rounding it to a double or to Infinity does not
    change its comparison with [max]. *)
Definition parseFieldValue (value : jsstring) (min max : Z) (aliases : list (jsstring * Z)) : result Z :=
  let normalized := toUpperCase (trim value) in
  throw_if bool_decide (normalized = []) with Error "contains an empty value.";
  let parsedValue :=
    if forallb is_digit normalized then Some (from_digits 10 (map (fun c => c - 48) normalized))
    else map_get aliases normalized in
  match parsedValue with
  | Some v => throw_if (v <? min) || (max <? v) with Error "value out of range."; Ok v
  | None => Throw (Error "value out of range.")
  end.

(** [for (value = start; value <= end; value += step)] *)
Fixpoint range_loop (fuel : nat) (value end_ step : Z) : list Z :=
  match fuel with
  | O => []
  | S fuel' => if value <=? end_ then value :: range_loop fuel' (value + step) end_ step else []
  end.
Definition range (start end_ step : Z) : list Z := range_loop (Z.to_nat (end_ - start + 1)) start end_ step.

(** The start and the end a range specification selects. *)
Definition range_bounds (rangeSpec : jsstring) (min max : Z) (aliases : list (jsstring * Z)) : result (Z * Z) :=
  if str_eqb rangeSpec (lit "*") then Ok (min, max)
  else
    match split_on 45 rangeSpec with
    | [startSpec] => let! start := parseFieldValue startSpec min max aliases in Ok (start, start)
    | [startSpec; endSpec] =>
        let! start := parseFieldValue startSpec min max aliases in
        let! end_ := parseFieldValue endSpec min max aliases in
        throw_if end_ <? start with Error "range is reversed.";
        Ok (start, end_)
    | _ => Throw (Error "contains too many - range delimiters.")
    end.

Definition expandFieldPart (part : jsstring) (min max : Z) (aliases : list (jsstring * Z)) : result (list Z) :=
  let trimmed := trim part in
  throw_if bool_decide (trimmed = []) with Error "contains an empty list entry.";
  match split_on 47 trimmed with
  | [rangeSpec] =>
      let! (start, end_) := range_bounds rangeSpec min max aliases in
      Ok (range start end_ 1)
  | [rangeSpec; stepSpec] =>
      let! step := parsePositiveInteger stepSpec in
      let! (start, end_) := range_bounds rangeSpec min max aliases in
      Ok (range start end_ step)
  | _ => Throw (Error "contains too many / step delimiters.")
  end.

(** A [Set] of numbers in insertion order. *)
Definition set_add (s : list Z) (v : Z) : list Z := if bool_decide (v ∈ s) then s else s ++ [v].

Fixpoint build_parts (parts : list jsstring) (min max : Z) (aliases : list (jsstring * Z)) (values : list Z) : result (list Z) :=
  match parts with
  | [] => Ok values
  | part :: rest =>
      let! vs := expandFieldPart part min max aliases in
      build_parts rest min max aliases (fold_left set_add vs values)
  end.
Definition buildValueSet (field : jsstring) (min max : Z) (aliases : list (jsstring * Z)) : result (list Z) :=
  build_parts (split_on 44 field) min max aliases [].

Definition sortNumeric (values : list Z) : list Z := merge_sort Z.le values.

Definition normalizeDayOfWeekValues (values : list Z) : list Z :=
  fold_left (fun s v => set_add s (if v =? 7 then 0 else v)) values [].

Definition buildFullValueSet (min max : Z) (normalize : list Z -> list Z) : list Z :=
  normalize (range min max 1).

Record cron_field := CronField { source : jsstring; values : list Z; hasWildcard : bool }.

Definition buildCronField (source : jsstring) (min max : Z) (aliases : list (jsstring * Z))
    (normalize : list Z -> list Z) : result cron_field :=
  let! rawValues := buildValueSet source min max aliases in
  let normalizedValues := normalize rawValues in
  let fullDomain := buildFullValueSet min max normalize in
  Ok (CronField (trim source) (sortNumeric normalizedValues) (blen normalizedValues =? blen fullDomain)).

(** [text.split(/\s+/)]: cut at every run of white space. *)
Fixpoint split_spaces (in_run : bool) (s : jsstring) : list jsstring :=
  match s with
  | [] => [[]]
  | c :: s' =>
      if is_js_space c then (if in_run then split_spaces true s' else [] :: split_spaces true s')
      else match split_spaces false s' with
           | w :: ws => (c :: w) :: ws
           | [] => [[c]]
           end
  end.

Record schedule := Schedule {
  expression : jsstring; minute : cron_field; hour : cron_field; dayOfMonth : cron_field;
  month : cron_field; dayOfWeek : cron_field
}.

Definition parseCronExpression (text : jsstring) : result schedule :=
  let normalized := trim text in
  throw_if bool_decide (normalized = []) with Error "Cron expression is required.";
  match split_spaces false normalized with
  | [f1; f2; f3; f4; f5] =>
      let! minute := buildCronField f1 0 59 [] id in
      let! hour := buildCronField f2 0 23 [] id in
      let! dayOfMonth := buildCronField f3 1 31 [] id in
      let! month := buildCronField f4 1 12 MONTH_ALIASES id in
      let! dayOfWeek := buildCronField f5 0 7 DAY_OF_WEEK_ALIASES normalizeDayOfWeekValues in
      Ok (Schedule normalized minute hour dayOfMonth month dayOfWeek)
  | _ => Throw (Error "Cron expression must contain exactly 5 fields.")
  end.

(** ** Matching *)

(** The local fields of an instant; months count from 1 here. *)
Record date := Date { d_minute : Z; d_hour : Z; d_day : Z; d_month : Z; d_weekday : Z }.

Definition includes_value (f : cron_field) (v : Z) : bool := bool_decide (v ∈ values f).

Definition matches_date (s : schedule) (d : date) : bool :=
  if negb (includes_value (minute s) (d_minute d)) then false
  else if negb (includes_value (hour s) (d_hour d)) then false
  else if negb (includes_value (month s) (d_month d)) then false
  else
    let dayOfMonthMatches := includes_value (dayOfMonth s) (d_day d) in
    let dayOfWeekMatches := includes_value (dayOfWeek s) (d_weekday d) in
    if negb (hasWildcard (dayOfMonth s)) && negb (hasWildcard (dayOfWeek s)) then dayOfMonthMatches || dayOfWeekMatches
    else if negb (hasWildcard (dayOfMonth s)) then dayOfMonthMatches
    else if negb (hasWildcard (dayOfWeek s)) then dayOfWeekMatches
    else true.

(** The proleptic Gregorian calendar: month and day of a day number, day 0 being 1970-01-01.
    Years start in March, so that the leap day is the last of its year, of its four years, of
    its century and of its 400 years. *)
Definition day_of_year (days : Z) : Z :=
  let d400 := (days + 719468) mod 146097 in
  let d100 := d400 - Z.min (d400 / 36524) 3 * 36524 in
  let d4 := d100 - Z.min (d100 / 1461) 24 * 1461 in
  d4 - Z.min (d4 / 365) 3 * 365.
Definition month_day (days : Z) : Z * Z :=
  let doy := day_of_year days in
  let mp := (5 * doy + 2) / 153 in
  (if mp <? 10 then mp + 3 else mp - 9, doy - (153 * mp + 2) / 5 + 1).

Example leap_day : month_day 19782 = (2, 29). Proof. reflexivity. Qed.
Example new_year_2100 : month_day 47482 = (1, 1). Proof. reflexivity. Qed.
Example march_2100 : month_day (47482 + 59) = (3, 1). Proof. reflexivity. Qed.
Example epoch : month_day 0 = (1, 1). Proof. reflexivity. Qed.

Section zone.
(** Local time is UTC plus [tz] milliseconds. *)
Context (tz : Z).

Definition date_of (t : Z) : date :=
  let local := t + tz in
  let days := local / 86400000 in
  let '(m, d) := month_day days in
  Date (local / 60000 mod 60) (local / 3600000 mod 24) d m ((days + 4) mod 7).

(** A time value outside this range is not a date. *)
Definition valid_time (t : Z) : bool := (-8640000000000000 <=? t) && (t <=? 8640000000000000).

Definition coerceDate (t : Z) : result Z :=
  if valid_time t then Ok t else Throw (TypeError "must be a valid date.").

Inductive cron_input := FromText (text : jsstring) | FromSchedule (s : schedule).
Definition normalizeCronInput (i : cron_input) : result schedule :=
  match i with FromSchedule s => Ok s | FromText text => parseCronExpression text end.

Definition matchesCronExpression (i : cron_input) (t : Z) : result bool :=
  let! s := normalizeCronInput i in
  let! candidate := coerceDate t in
  Ok (matches_date s (date_of candidate)).

Definition MAX_ITERATIONS : Z := 60 * 24 * 366 * 5.

Fixpoint next_loop (fuel : nat) (s : schedule) (cursor : Z) : result Z :=
  match fuel with
  | O => Throw (Error "No cron occurrence found within the next 5 years.")
  | S fuel' =>
      let! b := matchesCronExpression (FromSchedule s) cursor in
      if b then Ok cursor else next_loop fuel' s (cursor + 60000)
  end.

(** The start of the local minute of [t]. *)
Definition minute_start (t : Z) : Z := (t + tz) / 60000 * 60000 - tz.

Definition nextCronOccurrence (i : cron_input) (from : Z) : result Z :=
  let! s := normalizeCronInput i in
  let! cursor := coerceDate from in
  let! cursor := coerceDate (minute_start cursor) in
  next_loop (Z.to_nat MAX_ITERATIONS) s (cursor + 60000).
End zone.


(** ** The meaning of a field *)

Section denotation.
Context (min max : Z) (aliases : list (jsstring * Z)).

(** A value: decimal digits, or an alias in either case, within the field's bounds. *)
Definition word_denotes (w : jsstring) (v : Z) : Prop :=
  let n := toUpperCase (trim w) in
  n <> [] /\ min <= v <= max /\
  (if forallb is_digit n then v = from_digits 10 (map (fun c => c - 48) n) else map_get aliases n = Some v).

(** A range: everything, one value, or two values in order. *)
Inductive span_denotes : jsstring -> Z -> Z -> Prop :=
| span_all : span_denotes (lit "*") min max
| span_one w v : w <> lit "*" -> 45 ∉ w -> word_denotes w v -> span_denotes w v v
| span_range w1 w2 v1 v2 : 45 ∉ w1 -> 45 ∉ w2 -> word_denotes w1 v1 -> word_denotes w2 v2 -> v1 <= v2 ->
    span_denotes (w1 ++ 45 :: w2) v1 v2.

(** An entry of the list: a range, or every [step]-th value of one from its start on. *)
Inductive part_denotes (part : jsstring) (v : Z) : Prop :=
| part_plain lo hi : trim part <> [] -> 47 ∉ trim part -> span_denotes (trim part) lo hi -> lo <= v <= hi ->
    part_denotes part v
| part_step spec st lo hi step : trim part = spec ++ 47 :: st -> 47 ∉ spec -> 47 ∉ st ->
    span_denotes spec lo hi -> to_integer st = Some step -> 0 < step ->
    lo <= v <= hi -> (step | v - lo) -> part_denotes part v.

Definition field_denotes (field : jsstring) (v : Z) : Prop :=
  exists part, part ∈ split_on 44 field /\ part_denotes part v.

(** A field is well formed when every entry of its list selects something. *)
Definition field_wf (field : jsstring) : Prop :=
  forall part, part ∈ split_on 44 field -> exists v, part_denotes part v.
End denotation.

(** ** Lemmas *)

Lemma range_loop_In fuel : forall v e step x, 0 < step -> e - v + 1 <= Z.of_nat fuel ->
  (x ∈ range_loop fuel v e step) <-> v <= x <= e /\ (step | x - v).
Proof.
  induction fuel as [|fuel IH]; intros v e step x Hs Hf; cbn [range_loop].
  { split; [by intros ?%not_elem_of_nil|lia]. }
  destruct (Z.leb_spec v e) as [Hle|Hgt]; [|split; [by intros ?%not_elem_of_nil|lia]].
  rewrite elem_of_cons, IH by lia. split.
  - intros [-> | (Hx & k & Hk)]; [split; [lia|exists 0; lia]|]. split; [lia|]. exists (k + 1). lia.
  - intros (Hx & k & Hk). destruct (Z.eq_dec x v) as [|Hne]; [by left|right].
    assert (1 <= k) by nia. split; [nia|]. exists (k - 1). lia.
Qed.

Lemma range_In v e step x : 0 < step -> (x ∈ range v e step) <-> v <= x <= e /\ (step | x - v).
Proof. intros Hs. unfold range. destruct (Z_le_gt_dec v e); apply range_loop_In; lia. Qed.

Lemma set_add_In s v x : (x ∈ set_add s v) <-> x = v \/ x ∈ s.
Proof.
  unfold set_add. case_bool_decide; [split; [auto|by intros [-> | ?]]|].
  rewrite elem_of_app, list_elem_of_singleton. tauto.
Qed.
Lemma set_add_NoDup s v : NoDup s -> NoDup (set_add s v).
Proof.
  intros Hs. unfold set_add. case_bool_decide; [done|]. apply list.NoDup_app. split_and!; [done| |apply NoDup_singleton].
  intros y Hy ->%list_elem_of_singleton. done.
Qed.
Lemma fold_add_In {A} (f : A -> Z) l : forall s x,
  (x ∈ fold_left (fun s v => set_add s (f v)) l s) <-> x ∈ s \/ exists v, v ∈ l /\ x = f v.
Proof.
  induction l as [|v l IH]; intros s x; cbn.
  - split; [auto|intros [?|(v & []%not_elem_of_nil & _)]; done].
  - rewrite IH, set_add_In. split.
    + intros [[-> | ?] | (w & Hw & ->)]; [right; exists v; split; [apply list_elem_of_here|done]|by left|].
      right. exists w. split; [by apply list_elem_of_further|done].
    + intros [?|(w & [-> | Hw]%elem_of_cons & ->)]; [by left; right|by left; left|]. right. by exists w.
Qed.
Lemma fold_add_NoDup {A} (f : A -> Z) l : forall s, NoDup s -> NoDup (fold_left (fun s v => set_add s (f v)) l s).
Proof. induction l as [|v l IH]; intros s Hs; cbn; [done|]. by apply IH, set_add_NoDup. Qed.

Section field.
Context (min max : Z) (aliases : list (jsstring * Z)).
Hypothesis bounds : min <= max.
Abbreviation word := (word_denotes min max aliases).
Abbreviation span := (span_denotes min max aliases).
Abbreviation entry := (part_denotes min max aliases).

Lemma parseFieldValue_ok w v : parseFieldValue w min max aliases = Ok v <-> word w v.
Proof.
  unfold parseFieldValue, word_denotes. set (n := toUpperCase (trim w)).
  case_bool_decide as Hn; [split; [done|tauto]|]. destruct (forallb is_digit n).
  - set (d := from_digits 10 _). destruct (Z.ltb_spec d min), (Z.ltb_spec max d); cbn;
      (split; [intros [=]; subst|intros (_ & Hb & ->)]); try done; try lia; split_and!; (done || lia).
  - destruct (map_get aliases n) as [x|]; [|split; [done|intros (_ & _ & [=])]].
    destruct (Z.ltb_spec x min), (Z.ltb_spec max x); cbn;
      (split; [intros [=]; subst|intros (_ & Hb & [= ->])]); try done; try lia; split_and!; (done || lia).
Qed.

Lemma span_bounds r lo hi : span r lo hi -> min <= lo <= hi /\ hi <= max.
Proof. destruct 1 as [|w v _ _ (_ & ? & _)|w1 w2 v1 v2 _ _ (_ & ? & _) (_ & ? & _) ?]; lia. Qed.

Lemma range_bounds_ok r lo hi : range_bounds r min max aliases = Ok (lo, hi) <-> span r lo hi.
Proof.
  unfold range_bounds. destruct (str_eqb r (lit "*")) eqn:Es.
  { apply str_eqb_eq in Es as ->. split; [intros [= <- <-]; constructor|]. intros Hs. inversion Hs as [|? ? Hw|w1 w2 ? ? ? ? ? ? ? Hr]; subst; try done.
    destruct w1 as [|x w1]; [done|]. injection Hr as -> Hr. by destruct w1. }
  assert (Hns : r <> lit "*") by (intros ->; done). split.
  - intros H. destruct (split_on 45 r) as [|a [|b [|c l]]] eqn:E; try done.
    + apply split_on_1 in E as [-> Ha]. apply rbind_Ok in H as (v & Hv & [= <- <-]).
      apply span_one; [done..|]. by apply parseFieldValue_ok.
    + apply split_on_2 in E as (-> & Ha & Hb). apply rbind_Ok in H as (v & Hv & H). apply rbind_Ok in H as (v' & Hv' & H).
      destruct (Z.ltb_spec v' v); [done|]. injection H as <- <-. apply span_range; [done..| | |done]; by apply parseFieldValue_ok.
  - intros Hs. clear Es. destruct Hs as [|w v _ Hw Hv%parseFieldValue_ok|w1 w2 v1 v2 H1 H2 Hv1%parseFieldValue_ok Hv2%parseFieldValue_ok Hle]; [done| |].
    + rewrite split_on_none by done. by rewrite Hv.
    + rewrite split_on_sep, split_on_none by done. rewrite Hv1. cbn. rewrite Hv2. cbn. destruct (Z.ltb_spec v2 v1); [lia|done].
Qed.

Lemma parsePositiveInteger_ok st step : parsePositiveInteger st = Ok step <-> to_integer st = Some step /\ 0 < step.
Proof.
  unfold parsePositiveInteger. destruct (to_integer st) as [n|]; [|split; [done|by intros [? _]]].
  destruct (Z.leb_spec n 0); (split; [intros [=]; subst|intros [[= ->] ?]]); try done; lia.
Qed.

(** An entry expands to exactly the values it denotes. *)
Lemma expand_sound part vs : expandFieldPart part min max aliases = Ok vs ->
  forall v, v ∈ vs <-> entry part v.
Proof.
  unfold expandFieldPart. case_bool_decide as Hn; [done|].
  destruct (split_on 47 (trim part)) as [|r [|st [|? ?]]] eqn:E; try done.
  - apply split_on_1 in E as [E1 E2]. subst r. intros H. apply rbind_Ok in H as ([lo hi] & Hr%range_bounds_ok & [= <-]). intros v.
    rewrite range_In by lia. split.
    + intros [Hv _]. by eapply part_plain.
    + intros [lo' hi' _ _ Hs Hv|spec st lo' hi' step Ht ? ? Hs]; [|rewrite Ht in E2; by destruct E2; rewrite elem_of_app; right; left].
      apply range_bounds_ok in Hs, Hr. rewrite Hr in Hs. injection Hs as <- <-. split; [done|]. exists (v - lo). lia.
  - apply split_on_2 in E as (E1 & E2 & E3). intros H. apply rbind_Ok in H as (step & [Hst Hp]%parsePositiveInteger_ok & H).
    apply rbind_Ok in H as ([lo hi] & Hr%range_bounds_ok & [= <-]). intros v. rewrite range_In by lia. split.
    + intros [Hv Hd]. by eapply part_step.
    + intros [lo' hi' _ Hno|spec st' lo' hi' step' Ht Hsp Hst' Hs Hi Hp' Hv Hd];
        [rewrite E1 in Hno; by destruct Hno; rewrite elem_of_app; right; left|].
      assert (Heq : split_on 47 (trim part) = [spec; st']) by (by apply split_on_2).
      rewrite (proj2 (split_on_2 47 (trim part) r st)) in Heq by done. injection Heq as <- <-.
      apply range_bounds_ok in Hs, Hr. rewrite Hr in Hs. injection Hs as <- <-. rewrite Hi in Hst. by injection Hst as <-.
Qed.

Lemma expand_ok part : (exists vs, expandFieldPart part min max aliases = Ok vs) <-> exists v, entry part v.
Proof.
  split.
  - intros [vs H]. pose proof (expand_sound part vs H) as Hs. unfold expandFieldPart in H. case_bool_decide as Hn; [done|].
    destruct (split_on 47 (trim part)) as [|r [|st [|? ?]]] eqn:E; try done.
    + apply rbind_Ok in H as ([lo hi] & Hr%range_bounds_ok & [= <-]). exists lo. apply Hs, range_In; [lia|].
      apply span_bounds in Hr. split; [lia|exists 0; lia].
    + apply rbind_Ok in H as (step & [Hst Hp]%parsePositiveInteger_ok & H). apply rbind_Ok in H as ([lo hi] & Hr%range_bounds_ok & [= <-]).
      exists lo. apply Hs, range_In; [lia|]. apply span_bounds in Hr. split; [lia|exists 0; lia].
  - intros [v [lo hi Hne Hno Hs%range_bounds_ok Hv|spec st lo hi step Ht Hsp Hst Hs%range_bounds_ok Hi Hp Hv Hd]]; unfold expandFieldPart.
    + rewrite bool_decide_eq_false_2 by done. rewrite split_on_none by done. rewrite Hs. cbn. eauto.
    + rewrite Ht. rewrite bool_decide_eq_false_2 by (by destruct spec). rewrite split_on_sep, split_on_none by done.
      rewrite (proj2 (parsePositiveInteger_ok st step)) by done. cbn. rewrite Hs. cbn. eauto.
Qed.

Lemma build_parts_ok parts : forall acc, NoDup acc ->
  ((exists vs, build_parts parts min max aliases acc = Ok vs) <-> forall part, part ∈ parts -> exists v, entry part v) /\
  forall vs, build_parts parts min max aliases acc = Ok vs ->
    NoDup vs /\ forall v, v ∈ vs <-> v ∈ acc \/ exists part, part ∈ parts /\ entry part v.
Proof.
  induction parts as [|part parts IH]; intros acc Hacc; cbn.
  { split; [split; [by intros _ part ?%not_elem_of_nil|eauto]|]. intros vs [= <-]. split; [done|].
    intros v. split; [auto|]. intros [?|(p & []%not_elem_of_nil & _)]. done. }
  destruct (expandFieldPart part min max aliases) as [es|e] eqn:Ee; cbn [rbind].
  - pose proof (expand_sound _ _ Ee) as Hs. pose proof (proj1 (expand_ok part) (ex_intro _ es Ee)) as Hex.
    change (fold_left set_add es acc) with (fold_left (fun s v => set_add s ((fun v => v) v)) es acc).
    destruct (IH _ (fold_add_NoDup (fun v => v) es acc Hacc)) as [IH1 IH2]. split.
    + rewrite IH1. split.
      * intros H p [-> | Hp]%elem_of_cons; auto.
      * intros H p Hp. apply H. by apply list_elem_of_further.
    + intros vs Hvs. destruct (IH2 vs Hvs) as [Hnd Hin]. split; [done|]. intros v. rewrite Hin, fold_add_In. split.
      * intros [[?|(w & Hw%Hs & ->)]|(p & Hp & ?)]; [by left| |]; right.
        -- exists part. split; [apply list_elem_of_here|done].
        -- exists p. split; [by apply list_elem_of_further|done].
      * intros [?|(p & [-> | Hp]%elem_of_cons & Hv)]; [by left; left| |].
        -- left. right. exists v. by rewrite Hs.
        -- right. eauto.
  - split; [|done]. split; [by intros [vs [=]]|]. intros H. destruct (H part (list_elem_of_here _ _)) as [v Hv].
    apply ex_intro in Hv. apply expand_ok in Hv as [vs Hv]. congruence.
Qed.
End field.

(** ** Fields and schedules *)

(** The values a field selects: what its text denotes, [g] identifying two names of a value. *)
Definition selects (min max : Z) (aliases : list (jsstring * Z)) (g : Z -> Z) (field : jsstring) (v : Z) : Prop :=
  exists w, field_denotes min max aliases field w /\ v = g w.
Definition unrestricted (min max : Z) (aliases : list (jsstring * Z)) (g : Z -> Z) (field : jsstring) : Prop :=
  forall w, min <= w <= max -> selects min max aliases g field (g w).

(** A normalisation of value sets that maps every value by [g]. *)
Definition maps_values (normalize : list Z -> list Z) (g : Z -> Z) : Prop :=
  forall l, NoDup l -> NoDup (normalize l) /\ forall x, x ∈ normalize l <-> exists v, v ∈ l /\ x = g v.

Lemma id_maps : maps_values id id.
Proof. intros l Hl. split; [done|]. intros x. split; [by exists x|by intros (v & Hv & ->)]. Qed.

Definition sunday (v : Z) : Z := if v =? 7 then 0 else v.
Lemma dow_maps : maps_values normalizeDayOfWeekValues sunday.
Proof.
  intros l Hl. unfold normalizeDayOfWeekValues. split; [apply (fold_add_NoDup sunday), NoDup_nil_2|].
  intros x. rewrite (fold_add_In sunday). split; [intros [[]%not_elem_of_nil|?]; done|by right].
Qed.

Lemma range_loop_NoDup fuel : forall v e step, 0 < step -> NoDup (range_loop fuel v e step).
Proof.
  induction fuel as [|fuel IH]; intros v e step Hs; cbn; [apply NoDup_nil_2|]. destruct (v <=? e); [|apply NoDup_nil_2].
  apply list.NoDup_cons. split; [|by apply IH]. clear IH.
  assert (Hlt : forall fuel v0 x, x ∈ range_loop fuel v0 e step -> v0 <= x).
  { clear -Hs. induction fuel as [|f IH]; intros v0 x; cbn; [by intros ?%not_elem_of_nil|].
    destruct (v0 <=? e); [|by intros ?%not_elem_of_nil]. intros [-> | Hx%IH]%elem_of_cons; lia. }
  intros Hx%Hlt. lia.
Qed.

Lemma NoDup_sub_length (a b : list Z) : NoDup a -> NoDup b -> (forall x, x ∈ a -> x ∈ b) ->
  blen a = blen b <-> forall x, x ∈ b -> x ∈ a.
Proof.
  intros Ha Hb Hab. pose proof (NoDup_submseteq a b Ha Hab) as Hs. unfold blen. split.
  - intros Hl x Hx. assert (Hp : b ≡ₚ a); [|by rewrite <- Hp].
    symmetry. apply submseteq_length_Permutation; [done|lia].
  - intros Hba. pose proof (NoDup_submseteq b a Hb Hba) as Hs'. apply submseteq_length in Hs, Hs'. lia.
Qed.

Lemma entry_bounds min max aliases part v : min <= max -> part_denotes min max aliases part v -> min <= v <= max.
Proof. intros Hm [lo hi _ _ Hs Hv|? ? lo hi ? _ _ _ Hs _ _ Hv _]; apply span_bounds in Hs; lia. Qed.

(** A field parses when it is well formed, to the sorted set it selects, and carries the
    wildcard mark when it selects its whole domain. *)
Lemma buildCronField_ok src min max aliases normalize g : min <= max -> maps_values normalize g ->
  (is_ok (buildCronField src min max aliases normalize) = true <-> field_wf min max aliases src) /\
  forall f, buildCronField src min max aliases normalize = Ok f ->
    Sorted Z.le (values f) /\ NoDup (values f) /\
    (forall v, v ∈ values f <-> selects min max aliases g src v) /\
    (hasWildcard f = true <-> unrestricted min max aliases g src).
Proof.
  intros Hmm Hn. unfold buildCronField, buildValueSet.
  destruct (build_parts_ok min max aliases Hmm (split_on 44 src) [] (NoDup_nil_2)) as [Hiff Hval].
  destruct (build_parts _ _ _ _ _) as [vs|e] eqn:E; cbn [rbind is_ok].
  - destruct (Hval vs eq_refl) as [Hnd Hin]. split.
    { split; [intros _|done]. exact (proj1 Hiff (ex_intro _ vs eq_refl)). }
    intros f [= <-]. cbn [values hasWildcard]. destruct (Hn vs Hnd) as [Hnd' Hin']. unfold sortNumeric.
    assert (Hsel : forall v, v ∈ normalize vs <-> selects min max aliases g src v).
    { intros v. rewrite Hin'. unfold selects, field_denotes. split; intros (w & Hw & ->); exists w.
      - apply Hin in Hw as [[]%not_elem_of_nil|Hw]. done.
      - split; [|done]. apply Hin. by right. }
    split_and!.
    + apply Sorted_merge_sort. intros x y. lia.
    + by rewrite merge_sort_Permutation.
    + intros v. by rewrite merge_sort_Permutation.
    + unfold buildFullValueSet. destruct (Hn (range min max 1)) as [Hd1 Hd2]; [apply range_loop_NoDup; lia|].
      rewrite Z.eqb_eq, NoDup_sub_length; [|done..|].
      * unfold unrestricted. split.
        -- intros H w Hw. apply Hsel, H, Hd2. exists w. split; [|done]. apply range_In; [lia|]. split; [lia|exists (w - min); lia].
        -- intros H x (w & [Hw _]%range_In & ->)%Hd2; [|lia]. by apply Hsel, H.
      * intros x (w & Hw & ->)%Hsel. apply Hd2. exists w. split; [|done]. destruct Hw as (p & _ & Hp%entry_bounds); [|done].
        apply range_In; [lia|]. split; [lia|exists (w - min); lia].
  - split; [|done]. split; [done|]. intros Hwf. by destruct (proj2 Hiff Hwf) as [vs [=]].
Qed.

(** Fields of a date are in their domains. *)
Definition date_ok (d : date) : Prop :=
  0 <= d_minute d <= 59 /\ 0 <= d_hour d <= 23 /\ 1 <= d_day d <= 31 /\ 1 <= d_month d <= 12 /\ 0 <= d_weekday d <= 6.

(** What a cron expression of five fields means for a date: minute, hour and month are all
    selected; when both day fields restrict, either may select the day, else both do. *)
Definition cron_spec (f1 f2 f3 f4 f5 : jsstring) (d : date) : Prop :=
  selects 0 59 [] id f1 (d_minute d) /\ selects 0 23 [] id f2 (d_hour d) /\ selects 1 12 MONTH_ALIASES id f4 (d_month d) /\
  let by_day := selects 1 31 [] id f3 (d_day d) in
  let by_weekday := selects 0 7 DAY_OF_WEEK_ALIASES sunday f5 (d_weekday d) in
  (unrestricted 1 31 [] id f3 \/ unrestricted 0 7 DAY_OF_WEEK_ALIASES sunday f5 -> by_day /\ by_weekday) /\
  (~ unrestricted 1 31 [] id f3 /\ ~ unrestricted 0 7 DAY_OF_WEEK_ALIASES sunday f5 -> by_day \/ by_weekday).

(** C39. A parsed expression matches a date exactly when the meaning of its text says so, and
    the parser accepts exactly the texts of five well-formed fields. *)
Theorem cron_matches_meaning text f1 f2 f3 f4 f5 :
  split_spaces false (trim text) = [f1; f2; f3; f4; f5] ->
  (is_ok (parseCronExpression text) = true <->
   field_wf 0 59 [] f1 /\ field_wf 0 23 [] f2 /\ field_wf 1 31 [] f3 /\
   field_wf 1 12 MONTH_ALIASES f4 /\ field_wf 0 7 DAY_OF_WEEK_ALIASES f5) /\
  forall s d, parseCronExpression text = Ok s -> date_ok d ->
    matches_date s d = true <-> cron_spec f1 f2 f3 f4 f5 d.
Proof.
  intros Hsp. unfold parseCronExpression. rewrite bool_decide_eq_false_2 by (intros Hn; by rewrite Hn in Hsp). rewrite Hsp.
  destruct (buildCronField_ok f1 0 59 [] id id ltac:(lia) id_maps) as [W1 S1].
  destruct (buildCronField_ok f2 0 23 [] id id ltac:(lia) id_maps) as [W2 S2].
  destruct (buildCronField_ok f3 1 31 [] id id ltac:(lia) id_maps) as [W3 S3].
  destruct (buildCronField_ok f4 1 12 MONTH_ALIASES id id ltac:(lia) id_maps) as [W4 S4].
  destruct (buildCronField_ok f5 0 7 DAY_OF_WEEK_ALIASES normalizeDayOfWeekValues sunday ltac:(lia) dow_maps) as [W5 S5].
  rewrite <- W1, <- W2, <- W3, <- W4, <- W5. clear W1 W2 W3 W4 W5.
  destruct (buildCronField f1 _ _ _ _) as [m|e]; cbn [rbind is_ok]; [|split; [intuition done|done]].
  destruct (buildCronField f2 _ _ _ _) as [h|e]; cbn [rbind is_ok]; [|split; [intuition done|done]].
  destruct (buildCronField f3 _ _ _ _) as [dom|e]; cbn [rbind is_ok]; [|split; [intuition done|done]].
  destruct (buildCronField f4 _ _ _ _) as [mo|e]; cbn [rbind is_ok]; [|split; [intuition done|done]].
  destruct (buildCronField f5 _ _ _ _) as [dw|e]; cbn [rbind is_ok]; [|split; [intuition done|done]].
  split; [intuition done|]. intros s d [= <-] (Hd1 & Hd2 & Hd3 & Hd4 & Hd5).
  destruct (S1 m eq_refl) as (_ & _ & V1 & _), (S2 h eq_refl) as (_ & _ & V2 & _), (S4 mo eq_refl) as (_ & _ & V4 & _).
  destruct (S3 dom eq_refl) as (_ & _ & V3 & U3), (S5 dw eq_refl) as (_ & _ & V5 & U5).
  unfold matches_date, cron_spec, includes_value. cbn [minute hour dayOfMonth month dayOfWeek]. cbv zeta.
  rewrite <- V1, <- V2, <- V4, <- V3, <- V5, <- U3, <- U5.
  assert (A3 : hasWildcard dom = true -> d_day d ∈ values dom).
  { intros Hw. apply V3. apply U3 in Hw. apply (Hw (d_day d)). lia. }
  assert (A5 : hasWildcard dw = true -> d_weekday d ∈ values dw).
  { intros Hw. apply V5. apply U5 in Hw. replace (d_weekday d) with (sunday (d_weekday d)); [apply Hw; lia|].
    unfold sunday. destruct (Z.eqb_spec (d_weekday d) 7); lia. }
  repeat case_bool_decide; cbn [negb andb orb]; destruct (hasWildcard dom), (hasWildcard dw); cbn [negb andb orb]; intuition congruence.
Qed.

(** Half past nine on weekdays. *)
Definition demo_text : jsstring := lit " 30 9 * * mon-fri ".
Definition demo_schedule : schedule :=
  let none := CronField [] [] false in
  match parseCronExpression demo_text with Ok s => s | Throw _ => Schedule [] none none none none none end.

Lemma cron_matches_meaning_witness :
  parseCronExpression demo_text = Ok demo_schedule /\
  (matches_date demo_schedule (Date 30 9 11 8 1) = true <->
   cron_spec (lit "30") (lit "9") (lit "*") (lit "*") (lit "mon-fri") (Date 30 9 11 8 1)).
Proof.
  assert (Hp : parseCronExpression demo_text = Ok demo_schedule) by (vm_compute; reflexivity).
  split; [exact Hp|].
  destruct (cron_matches_meaning demo_text (lit "30") (lit "9") (lit "*") (lit "*") (lit "mon-fri")) as [_ H]; [vm_compute; reflexivity|].
  apply H; [exact Hp|]. unfold date_ok. cbn. lia.
Defined.

(** ** The next occurrence *)

Lemma day_of_year_ok days : 0 <= day_of_year days <= 365.
Proof. unfold day_of_year. cbv zeta. Z.div_mod_to_equations. lia. Qed.

Lemma month_day_ok days : 1 <= fst (month_day days) <= 12 /\ 1 <= snd (month_day days) <= 31.
Proof.
  pose proof (day_of_year_ok days). unfold month_day. cbn [fst snd].
  set (doy := day_of_year days) in *. clearbody doy. destruct (Z.ltb_spec ((5 * doy + 2) / 153) 10);
    Z.div_mod_to_equations; lia.
Qed.

Lemma date_of_ok tz t : date_ok (date_of tz t).
Proof.
  unfold date_of, date_ok. pose proof (month_day_ok ((t + tz) / 86400000)) as Hmd.
  destruct (month_day _) as [m d]. cbn in *.
  pose proof (Z.mod_pos_bound ((t + tz) / 60000) 60). pose proof (Z.mod_pos_bound ((t + tz) / 3600000) 24).
  pose proof (Z.mod_pos_bound ((t + tz) / 86400000 + 4) 7). lia.
Qed.

Lemma valid_time_iff t : valid_time t = true <-> -8640000000000000 <= t <= 8640000000000000.
Proof. unfold valid_time. rewrite andb_true_iff, !Z.leb_le. done. Qed.

Lemma next_loop_least tz s fuel : forall c,
  valid_time c = true -> valid_time (c + 60000 * Z.of_nat fuel) = true ->
  match next_loop tz fuel s c with
  | Ok t => exists k, 0 <= k < Z.of_nat fuel /\ t = c + 60000 * k /\ matches_date s (date_of tz t) = true /\
      forall j, 0 <= j < k -> matches_date s (date_of tz (c + 60000 * j)) = false
  | Throw _ => forall j, 0 <= j < Z.of_nat fuel -> matches_date s (date_of tz (c + 60000 * j)) = false
  end.
Proof.
  induction fuel as [|fuel IH]; intros c Hc He; cbn [next_loop]; [intros j Hj; lia|].
  unfold matchesCronExpression, coerceDate. cbn [normalizeCronInput rbind]. rewrite Hc. cbn [rbind].
  destruct (matches_date s (date_of tz c)) eqn:Em.
  { exists 0. split_and!; [lia|lia|lia|done|]. intros j Hj. lia. }
  rewrite !valid_time_iff in *. specialize (IH (c + 60000)). rewrite !valid_time_iff in IH.
  assert (Hstep : forall j, 1 <= j -> c + 60000 + 60000 * (j - 1) = c + 60000 * j) by lia.
  destruct (next_loop tz fuel s (c + 60000)) as [t|e].
  - destruct IH as (k & Hk & -> & Hm & Hl); [lia|lia|]. exists (k + 1). split_and!; [lia|lia|lia|done|].
    intros j Hj. destruct (Z.eq_dec j 0) as [->|]; [by rewrite Z.mul_0_r, Z.add_0_r|].
    rewrite <- Hstep by lia. apply Hl. lia.
  - intros j Hj. destruct (Z.eq_dec j 0) as [->|]; [by rewrite Z.mul_0_r, Z.add_0_r|].
    rewrite <- Hstep by lia. apply IH; lia.
Qed.

(** The next occurrence is the first minute after the instant that the schedule
    matches; an error means that no minute of the five-year horizon matches. *)
Theorem next_occurrence_least tz s from :
  valid_time from = true -> valid_time (minute_start tz from) = true ->
  valid_time (minute_start tz from + 60000 * (MAX_ITERATIONS + 1)) = true ->
  let slot k := minute_start tz from + 60000 * k in
  slot 0 <= from < slot 1 /\
  match nextCronOccurrence tz (FromSchedule s) from with
  | Ok t => exists k, 1 <= k <= MAX_ITERATIONS /\ t = slot k /\ matches_date s (date_of tz t) = true /\
      forall j, 1 <= j < k -> matches_date s (date_of tz (slot j)) = false
  | Throw _ => forall j, 1 <= j <= MAX_ITERATIONS -> matches_date s (date_of tz (slot j)) = false
  end.
Proof.
  intros Hf Hm Hh slot. split.
  { unfold slot, minute_start. pose proof (Z.div_mod (from + tz) 60000 ltac:(lia)).
    pose proof (Z.mod_pos_bound (from + tz) 60000 ltac:(lia)). lia. }
  unfold nextCronOccurrence, coerceDate. cbn [normalizeCronInput rbind]. rewrite Hf. cbn [rbind]. rewrite Hm. cbn [rbind].
  assert (HN : Z.of_nat (Z.to_nat MAX_ITERATIONS) = MAX_ITERATIONS) by (apply Z2Nat.id; unfold MAX_ITERATIONS; lia).
  pose proof (next_loop_least tz s (Z.to_nat MAX_ITERATIONS) (minute_start tz from + 60000)) as H.
  rewrite HN in H. rewrite !valid_time_iff in *. assert (1 <= MAX_ITERATIONS) by (unfold MAX_ITERATIONS; lia).
  assert (Hslot : forall j, minute_start tz from + 60000 + 60000 * (j - 1) = slot j) by (unfold slot; lia).
  destruct (next_loop _ _ _ _) as [t|e].
  - destruct H as (k & Hk & -> & Hmt & Hl); [lia..|]. exists (k + 1).
    split_and!; [lia|lia|unfold slot; lia|done|]. intros j Hj. rewrite <- Hslot. apply Hl. lia.
  - intros j Hj. rewrite <- Hslot. apply H; lia.
Qed.

Lemma next_occurrence_least_witness :
  let slot k := minute_start 0 1754697600000 + 60000 * k in
  slot 0 <= 1754697600000 < slot 1 /\
  match nextCronOccurrence 0 (FromSchedule demo_schedule) 1754697600000 with
  | Ok t => exists k, 1 <= k <= MAX_ITERATIONS /\ t = slot k /\ matches_date demo_schedule (date_of 0 t) = true /\
      forall j, 1 <= j < k -> matches_date demo_schedule (date_of 0 (slot j)) = false
  | Throw _ => forall j, 1 <= j <= MAX_ITERATIONS -> matches_date demo_schedule (date_of 0 (slot j)) = false
  end.
Proof. apply (next_occurrence_least 0 demo_schedule 1754697600000); vm_compute; reflexivity. Defined.

(** Monday 2025-08-11, 09:30, from Saturday midnight. *)
Example demo_next : nextCronOccurrence 0 (FromText demo_text) 1754697600000 = Ok 1754904600000.
Proof. vm_compute. reflexivity. Qed.
