(* ===== verification/TimerDriver.v ===== *)
(** The module timer driver (src/host/timerDriver.js): one interval per enabled timer of a
    module, each firing an invocation of the timer's method; runs of one timer never overlap,
    and the last runs are kept as a history.

    The driver is a state machine. An invocation starts in one step and ends in another, so a
    tick, a manual run, [start] and [stop] may happen in between. Times of the clock and
    interval handles are arguments of the steps. *)
From Stdlib Require Import ZArith QArith Qminmax Lia.
From stdpp Require Import base list strings numbers.
From S2P Require Import Prelude JsText JsMap JsNumber.
Open Scope Z_scope.

Definition DEFAULT_MIN_INTERVAL_MS : Q := 1000.
Definition DEFAULT_MAX_RUN_HISTORY : Z := 50.

(** ** Intervals *)

(** An interval as a manifest or an override has it: a bigint, or a value that [Number] takes. *)
Inductive interval := IBig (z : Z) | INum (n : jsnum).

Definition toIntervalMs (value : interval) : jsnum :=
  match value with
  | IBig z => if z =? 0 then Fin 0 else if 0 <? z then round_positive z 1 else negate (round_positive (- z) 1)
  | INum (Fin q) => Fin q
  | INum _ => Fin 0
  end.

(** [Math.max(minimum, requested)]; neither is NaN. *)
Definition at_least (minimum : Q) (requested : jsnum) : jsnum :=
  match requested with
  | Fin q => Fin (Qmax minimum q)
  | PosInf => PosInf
  | NegInf | NaN => Fin minimum
  end.

(** ** Timers *)

Record timer := Timer { timerId : jsstring; methodId : jsstring; defaultIntervalMs : jsnum; description : jsstring }.
Record timer_spec := TimerSpec { spec_timerId : jsstring; spec_methodId : jsstring; spec_interval : interval; spec_description : jsstring }.

Definition normalizeTimer (t : timer_spec) : option timer :=
  let timerId := trim (spec_timerId t) in
  let methodId := trim (spec_methodId t) in
  if bool_decide (timerId = []) || bool_decide (methodId = []) then None
  else Some (Timer timerId methodId (toIntervalMs (spec_interval t)) (spec_description t)).

Definition resolveTimers (specs : list timer_spec) : list timer := omap normalizeTimer specs.

(** An override: [enabled: false] or not, and an interval. *)
Record override := Override { disabled : bool; override_interval : option interval }.

Inductive trigger := Scheduled | Manual.
Inductive run_status := RunOk | RunError (message : jsstring) | RunSkipped.
Record run := Run { run_method : jsstring; run_trigger : trigger; run_result : run_status; startedAt : Z; finishedAt : Z }.

Record entry := Entry {
  the_timer : timer; intervalMs : jsnum; enabled : bool; handle : option Z; inFlight : bool; runs : list run
}.

Record driver := Driver {
  entries : list (jsstring * entry);
  started : bool;
  maxRunHistory : Z;
  pending : list (jsstring * (trigger * Z))   (* invocations under way: timer, trigger, start *)
}.

Definition make_entry (minIntervalMs : Q) (schedules : list (jsstring * override)) (t : timer) : entry :=
  let o := match map_get schedules (timerId t) with Some o => o | None => Override false None end in
  let requested := match override_interval o with Some i => toIntervalMs i | None => toIntervalMs (INum (defaultIntervalMs t)) end in
  Entry t (at_least minIntervalMs requested) (negb (disabled o)) None false [].

Definition min_interval (option : jsnum) : Q :=
  match option with Fin q => Qmax 1 q | _ => DEFAULT_MIN_INTERVAL_MS end.
Definition max_history (option : jsnum) : Z :=
  match as_integer option with Some n => n | None => DEFAULT_MAX_RUN_HISTORY end.

Definition createModuleTimerDriver (specs : list timer_spec) (schedules : list (jsstring * override))
    (minIntervalOption maxHistoryOption : jsnum) : driver :=
  Driver (fold_left (fun m t => map_set m (timerId t) (make_entry (min_interval minIntervalOption) schedules t)) (resolveTimers specs) [])
         false (max_history maxHistoryOption) [].

(** ** Runs *)

Definition record (max : Z) (e : entry) (r : run) : entry :=
  let rs := runs e ++ [r] in
  let rs := if max <? blen rs then drop (Z.to_nat (blen rs - max)) rs else rs in
  Entry (the_timer e) (intervalMs e) (enabled e) (handle e) (inFlight e) rs.

Definition set_in_flight (e : entry) (b : bool) : entry :=
  Entry (the_timer e) (intervalMs e) (enabled e) (handle e) b (runs e).
Definition set_handle (e : entry) (h : option Z) : entry :=
  Entry (the_timer e) (intervalMs e) (enabled e) h (inFlight e) (runs e).

(** [fire] up to its first await: whether the method is invoked, and the driver. *)
Definition fire (d : driver) (id : jsstring) (e : entry) (tr : trigger) (now : Z) : bool * driver :=
  if inFlight e then
    let e := record (maxRunHistory d) e (Run (methodId (the_timer e)) tr RunSkipped now now) in
    (false, Driver (map_set (entries d) id e) (started d) (maxRunHistory d) (pending d))
  else
    (true, Driver (map_set (entries d) id (set_in_flight e true)) (started d) (maxRunHistory d) (pending d ++ [(id, (tr, now))])).

(** The rest of [fire], when the invocation of [id] that was started as [tr] at [start] settles. *)
Definition settle (d : driver) (id : jsstring) (e : entry) (tr : trigger) (start : Z) (result : run_status) (now : Z) (others : list (jsstring * (trigger * Z))) : driver :=
  let e := record (maxRunHistory d) (set_in_flight e false) (Run (methodId (the_timer e)) tr result start now) in
  Driver (map_set (entries d) id e) (started d) (maxRunHistory d) others.

(** ** The interface *)

Definition listTimers (d : driver) : list (jsstring * jsstring * jsnum * bool * bool) :=
  map (fun e => (timerId (the_timer e), methodId (the_timer e), intervalMs e, enabled e,
                 match handle e with Some _ => true | None => false end)) (map_values (entries d)).

Definition runHistory (d : driver) (id : jsstring) : list run :=
  match map_get (entries d) (trim id) with Some e => runs e | None => [] end.

(** [handles k] is what [setIntervalImpl] returns for the [k]-th timer. *)
Definition start (d : driver) (handles : nat -> Z) : driver :=
  if started d then d
  else Driver (imap (fun k e => (e.1, if enabled e.2 then set_handle e.2 (Some (handles k)) else e.2)) (entries d))
              true (maxRunHistory d) (pending d).
Definition stop (d : driver) : driver :=
  Driver (map (fun e => (e.1, set_handle e.2 None)) (entries d)) false (maxRunHistory d) (pending d).

Definition runNow (d : driver) (id : jsstring) (now : Z) : result (bool * driver) :=
  match map_get (entries d) (trim id) with
  | None => Throw (Error "Unknown timer")
  | Some e => Ok (fire d (trim id) e Manual now)
  end.

(** Anything that can happen to a driver: a tick of an interval that is set, a manual run,
    the end of an invocation, [start] and [stop]. *)
Inductive step : driver -> driver -> Prop :=
| step_tick d id e h now : map_get (entries d) id = Some e -> handle e = Some h -> step d (snd (fire d id e Scheduled now))
| step_run d id now inv d' : runNow d id now = Ok (inv, d') -> step d d'
| step_settle d id e tr st res now p1 p2 : pending d = p1 ++ (id, (tr, st)) :: p2 -> map_get (entries d) id = Some e ->
    res <> RunSkipped -> step d (settle d id e tr st res now (p1 ++ p2))
| step_start d hs : step d (start d hs)
| step_stop d : step d (stop d).

Inductive reachable (d0 : driver) : driver -> Prop :=
| reach_init : reachable d0 d0
| reach_step d d' : reachable d0 d -> step d d' -> reachable d0 d'.

(** ** The invariant *)

Definition interval_ok (minimum : Q) (n : jsnum) : Prop :=
  match n with Fin q => (minimum <= q)%Q | PosInf => True | NegInf | NaN => False end.

(** Timers of the invocations under way. *)
Definition running (d : driver) : list jsstring := map fst (pending d).

Record entry_ok (minimum : Q) (d : driver) (id : jsstring) (e : entry) : Prop := {
  eo_id : timerId (the_timer e) = id;
  eo_interval : interval_ok minimum (intervalMs e);
  eo_history : blen (runs e) <= Z.max 0 (maxRunHistory d);
  eo_flight : inFlight e = true <-> id ∈ running d;
  eo_handle : handle e <> None -> started d = true /\ enabled e = true
}.

Record driver_ok (minimum : Q) (d : driver) : Prop := {
  do_entries : forall id e, map_get (entries d) id = Some e -> entry_ok minimum d id e;
  do_once : NoDup (running d);
  do_known : forall id, id ∈ running d -> exists e, map_get (entries d) id = Some e
}.

Lemma at_least_ok minimum n : interval_ok minimum (at_least minimum n).
Proof. destruct n; cbn; try apply Qle_refl; [done|]. apply Q.le_max_l. Qed.

Lemma create_ok specs schedules mi mh :
  driver_ok (min_interval mi) (createModuleTimerDriver specs schedules mi mh).
Proof.
  unfold createModuleTimerDriver. set (mk := make_entry (min_interval mi) schedules). constructor; cbn.
  - assert (Hgen : forall ts m,
      (forall id e, map_get m id = Some e -> exists t, timerId t = id /\ e = mk t) ->
      forall id e, map_get (fold_left (fun m t => map_set m (timerId t) (mk t)) ts m) id = Some e -> exists t, timerId t = id /\ e = mk t).
    { induction ts as [|t ts IH]; intros m Hm id e; cbn; [apply Hm|]. apply IH. intros id' e'. rewrite map_get_set.
      destruct (decide (timerId t = id')); [|apply Hm]. intros [= <-]. eauto. }
    intros id e Hg. apply Hgen in Hg as (t & Hid & ->); [|done]. constructor; cbn; try done.
    + apply at_least_ok.
    + apply Z.le_max_l.
    + split; [done|by intros ?%not_elem_of_nil].
  - constructor.
  - intros id []%not_elem_of_nil.
Qed.

Lemma record_runs max e r : blen (runs (record max e r)) <= Z.max 0 max \/ blen (runs (record max e r)) <= blen (runs e) + 1 <= max.
Proof.
  unfold record. cbn [runs]. rewrite blen_app. change (blen [r]) with 1. pose proof (blen_nonneg (runs e)).
  destruct (Z.ltb_spec max (blen (runs e) + 1)).
  - left. unfold blen in *. rewrite length_drop, length_app. cbn. lia.
  - right. rewrite blen_app. change (blen [r]) with 1. lia.
Qed.

Section steps.
Context (minimum : Q).
Abbreviation ok := (driver_ok minimum).

(** Setting the entry of [id] and the invocations under way. *)
Lemma set_entry_ok d id e p :
  ok d -> NoDup (map fst p) -> (forall x, x <> id -> x ∈ map fst p <-> x ∈ running d) ->
  let d' := Driver (map_set (entries d) id e) (started d) (maxRunHistory d) p in
  entry_ok minimum d' id e -> ok d'.
Proof.
  intros [H1 H2 H3] Hp Hx d' He. constructor; cbn.
  - intros id' e'. rewrite map_get_set. destruct (decide (id = id')) as [<-|Hne]; [by intros [= <-]|].
    intros [] %H1. constructor; cbn; try done. unfold running. cbn. rewrite Hx by done. done.
  - done.
  - intros x Hin. rewrite map_get_set. destruct (decide (id = x)) as [<-|Hne]; [eauto|]. apply H3, Hx; done.
Qed.

Lemma fire_ok d id e tr now : ok d -> map_get (entries d) id = Some e -> ok (snd (fire d id e tr now)).
Proof.
  intros Hok Hg. destruct Hok as [H1 H2 H3] eqn:E. clear E. pose proof (H1 _ _ Hg) as [Ei Eint Eh Ef Eha].
  unfold fire. destruct (inFlight e) eqn:Efl; cbn [snd].
  - apply set_entry_ok; [done..|]. constructor; cbn; try done; [|by rewrite Efl].
    destruct (record_runs (maxRunHistory d) e (Run (methodId (the_timer e)) tr RunSkipped now now)); cbn in *; lia.
  - assert (Hno : id ∉ running d) by (intros Hin%Ef; done). unfold running in *.
    apply set_entry_ok; [done| | |constructor; cbn; try done].
    + rewrite map_app. apply list.NoDup_app. split_and!; [done| |apply NoDup_singleton]. intros x Hx ->%list_elem_of_singleton. done.
    + intros x Hne. rewrite map_app, elem_of_app. cbn. rewrite list_elem_of_singleton. split; [by intros [?|?]|by left].
    + unfold running. cbn. rewrite map_app, elem_of_app. cbn. rewrite list_elem_of_singleton. split; [by right|done].
Qed.

Lemma settle_ok d id e tr st res now p1 p2 : ok d -> pending d = p1 ++ (id, (tr, st)) :: p2 ->
  map_get (entries d) id = Some e -> ok (settle d id e tr st res now (p1 ++ p2)).
Proof.
  intros Hok Hp Hg. destruct Hok as [H1 H2 H3] eqn:E. clear E. pose proof (H1 _ _ Hg) as [Ei Eint Eh Ef Eha].
  assert (Hr : running d ≡ₚ id :: map fst (p1 ++ p2)).
  { unfold running. rewrite Hp, !map_app. cbn. by rewrite <- Permutation_middle. }
  rewrite Hr in H2. apply list.NoDup_cons in H2 as [Hid Hnd].
  unfold settle. apply set_entry_ok; [done|done| |].
  - intros x Hne. rewrite Hr, elem_of_cons. split; [by right|by intros [?|?]].
  - constructor; cbn; try done.
    destruct (record_runs (maxRunHistory d) (set_in_flight e false) (Run (methodId (the_timer e)) tr res st now)); cbn in *; lia.
Qed.

(** Changing only the handles of the entries. *)
Lemma map_get_imap {A B} (f : nat -> A -> B) (m : list (jsstring * A)) id :
  map_get (imap (fun k e => (e.1, f k e.2)) m) id = None /\ map_get m id = None \/
  exists k a, map_get (imap (fun k e => (e.1, f k e.2)) m) id = Some (f k a) /\ map_get m id = Some a.
Proof.
  revert f. induction m as [|[k' a] m IH]; intros f; [by left|]. rewrite imap_cons. cbn.
  destruct (decide (k' = id)); [right; by exists O, a|].
  destruct (IH (fun k => f (S k))) as [?|(k & b & ? & ?)]; [by left|right]. by exists (S k), b.
Qed.

Lemma map_as_imap {A} (f : A -> A) (m : list (jsstring * A)) :
  map (fun e => (e.1, f e.2)) m = imap (fun _ e => (e.1, f e.2)) m.
Proof. induction m as [|x m IH]; [done|]. rewrite imap_cons. cbn. by rewrite IH. Qed.

Lemma handles_ok d (f : nat -> entry -> entry) st :
  ok d ->
  (forall k e, the_timer (f k e) = the_timer e /\ intervalMs (f k e) = intervalMs e /\ inFlight (f k e) = inFlight e /\
               runs (f k e) = runs e) ->
  (forall k e, (handle e <> None -> started d = true /\ enabled e = true) -> handle (f k e) <> None -> st = true /\ enabled (f k e) = true) ->
  ok (Driver (imap (fun k e => (e.1, f k e.2)) (entries d)) st (maxRunHistory d) (pending d)).
Proof.
  intros [H1 H2 H3] Hf Hh. constructor; cbn.
  - intros id e He. destruct (map_get_imap f (entries d) id) as [[Hn _] | (k & a & Hs & Ha)]; [congruence|].
    rewrite He in Hs. injection Hs as ->. destruct (H1 id a Ha) as [E1 E2 E3 E4 E5]. destruct (Hf k a) as (F1 & F2 & F3 & F4).
    constructor; cbn; rewrite ?F1, ?F2, ?F3, ?F4; try done. by apply Hh.
  - done.
  - intros id (e & He)%H3. destruct (map_get_imap f (entries d) id) as [[_ Hn] | (k & a & Hs & _)]; [congruence|eauto].
Qed.

Lemma step_ok d d' : ok d -> step d d' -> ok d'.
Proof.
  intros Hok Hst. destruct Hst as [d id e h now Hg _|d id now inv d' Hr|d id e tr st res now p1 p2 Hp Hg _|d hs|d].
  - by apply fire_ok.
  - unfold runNow in Hr. destruct (map_get (entries d) (trim id)) as [e|] eqn:Eg; [|done]. injection Hr as Hr.
    replace d' with (snd (fire d (trim id) e Manual now)) by (by rewrite Hr). by apply fire_ok.
  - by apply settle_ok.
  - unfold start. destruct (started d); [done|].
    apply (handles_ok d (fun k e => if enabled e then set_handle e (Some (hs k)) else e) true Hok).
    + intros k e. by destruct (enabled e).
    + intros k e He. destruct (enabled e) eqn:Ee; cbn; [by rewrite Ee|]. intros Hh. by destruct (He Hh) as [_ ?]; congruence.
  - unfold stop. rewrite (map_as_imap (fun e => set_handle e None)). by apply (handles_ok d (fun _ e => set_handle e None) false Hok).
Qed.
End steps.

(** Runs of one timer never overlap: in every reachable state of a driver an invocation
    is under way for each timer at most once, exactly when its entry is marked in flight. The
    history stays within its limit, every interval is at least the minimum, and only enabled
    timers of a started driver have an interval set. *)
Theorem timer_runs_never_overlap specs schedules mi mh d :
  reachable (createModuleTimerDriver specs schedules mi mh) d -> driver_ok (min_interval mi) d.
Proof. induction 1 as [|d d' _ IH Hst]; [apply create_ok|by eapply step_ok]. Qed.

Definition demo_specs : list timer_spec := [TimerSpec (lit " pull ") (lit "pull") (INum (Fin 5000)) []].

Lemma timer_runs_never_overlap_witness :
  driver_ok (min_interval NaN) (snd (fire (createModuleTimerDriver demo_specs [] NaN NaN) (lit "pull")
    (make_entry (min_interval NaN) [] (Timer (lit "pull") (lit "pull") (Fin 5000) [])) Manual 0)).
Proof.
  apply (timer_runs_never_overlap demo_specs [] NaN NaN). eapply reach_step; [apply reach_init|].
  eapply (step_run _ (lit "pull") 0 true). vm_compute. reflexivity.
Defined.

(** A tick or a manual run that finds the previous run in flight invokes nothing: it is
    recorded as skipped, as the last entry of the history when the history is kept at all. *)
Theorem overlapping_fire_is_skipped d id e tr now :
  inFlight e = true -> map_get (entries d) id = Some e -> 0 < maxRunHistory d ->
  let '(invoked, d') := fire d id e tr now in
  invoked = false /\ pending d' = pending d /\
  exists e', map_get (entries d') id = Some e' /\ inFlight e' = true /\
    list.last (runs e') = Some (Run (methodId (the_timer e)) tr RunSkipped now now) /\
    exists dropped, runs e ++ [Run (methodId (the_timer e)) tr RunSkipped now now] = dropped ++ runs e'.
Proof.
  intros Hf Hg Hm. unfold fire. rewrite Hf. set (r := Run _ _ _ _ _). split_and!; [done..|].
  eexists. split; [apply map_get_set_eq|]. split; [done|]. unfold record. cbn [runs].
  destruct (Z.ltb_spec (maxRunHistory d) (blen (runs e ++ [r]))) as [Hlt|Hge].
  - split.
    + rewrite drop_app_le; [apply last_snoc|]. rewrite blen_app in *. change (blen [r]) with 1 in *. unfold blen in *. lia.
    + exists (take (Z.to_nat (blen (runs e ++ [r]) - maxRunHistory d)) (runs e ++ [r])). by rewrite take_drop.
  - split; [apply last_snoc|]. by exists [].
Qed.

Lemma overlapping_fire_is_skipped_witness :
  let e := Entry (Timer (lit "pull") (lit "pull") (Fin 5000) []) (Fin 5000) true None true [] in
  let d := Driver [(lit "pull", e)] false 2 [(lit "pull", (Manual, 0))] in
  let '(invoked, d') := fire d (lit "pull") e Scheduled 7 in
  invoked = false /\ pending d' = pending d /\
  exists e', map_get (entries d') (lit "pull") = Some e' /\ inFlight e' = true /\
    list.last (runs e') = Some (Run (lit "pull") Scheduled RunSkipped 7 7) /\
    exists dropped, [Run (lit "pull") Scheduled RunSkipped 7 7] = dropped ++ runs e'.
Proof.
  apply (overlapping_fire_is_skipped
    (Driver [(lit "pull", Entry (Timer (lit "pull") (lit "pull") (Fin 5000) []) (Fin 5000) true None true [])] false 2 [(lit "pull", (Manual, 0))])
    (lit "pull") (Entry (Timer (lit "pull") (lit "pull") (Fin 5000) []) (Fin 5000) true None true []) Scheduled 7); by vm_compute.
Defined.
