(* ===== verification/ThreadPool.v ===== *)
(** The thread pool of a wasi-threads guest (src/host/wasiThreadPool.js).

    All threads of a process share one buffer of 32-bit words: any thread claims an idle slot
    with a compare-exchange, writes a thread id and an argument into it and marks it assigned;
    the worker of the slot runs the thread and makes the slot idle again. Every thread is an
    [agent] with a program counter, and one step is one atomic access to the shared buffer, so
    a run is an interleaving of the agents' accesses in any order. A [choice] names the agent
    that moves and what its environment answers (clock, worker creation, thread result). *)
From Stdlib Require Import ZArith QArith Lia.
From stdpp Require Import base list strings numbers.
From S2P Require Import Prelude.
Open Scope Z_scope.

(** ** The shared words *)

Definition PENDING : Z := 0.
Definition IDLE : Z := 1.
Definition CLAIMED : Z := 2.
Definition ASSIGNED : Z := 3.
Definition RUNNING : Z := 4.
Definition RETIRED : Z := 5.
Definition FLAG_MESSAGE_DISPATCH : Z := 1.
Definition MAX_TID : Z := 0x1fffffff.
Definition GROW_AFTER_MS : Q := 2.
Definition DEFAULT_WASI_THREAD_SPAWN_WAIT_MS : Q := 250.

Record slot := Slot { s_state : Z; s_tid : Z; s_arg : Z; s_flags : Z; s_thread : Z }.

Record control := Control {
  generation : Z; next_tid : Z; spawned : Z; waited : Z; declined : Z; slots : Z; capacity : Z;
  table : list slot
}.

Definition store_state (st : Z) (s : slot) : slot := Slot st (s_tid s) (s_arg s) (s_flags s) (s_thread s).
Definition store_tid (t : Z) (s : slot) : slot := Slot (s_state s) t (s_arg s) (s_flags s) (s_thread s).
Definition store_arg (a : Z) (s : slot) : slot := Slot (s_state s) (s_tid s) a (s_flags s) (s_thread s).
Definition store_flags (f : Z) (s : slot) : slot := Slot (s_state s) (s_tid s) (s_arg s) f (s_thread s).
Definition store_thread (n : Z) (s : slot) : slot := Slot (s_state s) (s_tid s) (s_arg s) (s_flags s) n.

Definition on_slot (f : slot -> slot) (i : nat) (c : control) : control :=
  Control (generation c) (next_tid c) (spawned c) (waited c) (declined c) (slots c) (capacity c) (alter f i (table c)).
Definition set_slots (n : Z) (c : control) : control :=
  Control (generation c) (next_tid c) (spawned c) (waited c) (declined c) n (capacity c) (table c).
Definition add_generation (c : control) : control :=
  Control (to_int32 (generation c + 1)) (next_tid c) (spawned c) (waited c) (declined c) (slots c) (capacity c) (table c).
Definition add_next_tid (c : control) : control :=
  Control (generation c) (to_int32 (next_tid c + 1)) (spawned c) (waited c) (declined c) (slots c) (capacity c) (table c).
Definition add_spawned (c : control) : control :=
  Control (generation c) (next_tid c) (to_int32 (spawned c + 1)) (waited c) (declined c) (slots c) (capacity c) (table c).
Definition add_waited (c : control) : control :=
  Control (generation c) (next_tid c) (spawned c) (to_int32 (waited c + 1)) (declined c) (slots c) (capacity c) (table c).
Definition add_declined (c : control) : control :=
  Control (generation c) (next_tid c) (spawned c) (waited c) (to_int32 (declined c + 1)) (slots c) (capacity c) (table c).

Definition zero_slot : slot := Slot PENDING 0 0 0 0.
Definition slot_at (c : control) (i : nat) : slot := default zero_slot (table c !! i).
Definition state_at (c : control) (i : nat) : Z := s_state (slot_at c i).
Definition flagged (c : control) (i : nat) : bool := negb (js_and (s_flags (slot_at c i)) FLAG_MESSAGE_DISPATCH =? 0).

(** ** Creation and the owner's operations before the first spawn *)

(** [None] is an absent option. *)
Definition resolveSpawnWaitMs (spawnWaitMs : option Q) : result Q :=
  match spawnWaitMs with
  | None => Ok DEFAULT_WASI_THREAD_SPAWN_WAIT_MS
  | Some ms => throw_if negb (Qle_bool 0 ms)
                 with RangeError "spawnWaitMs must be a finite, non-negative number of milliseconds."; Ok ms
  end.

Definition createWasiThreadPool (n : Z) (spawnWaitMs : option Q) : result (control * Q) :=
  throw_if n <? 0 with RangeError "pool capacity must be a non-negative integer.";
  let! ms := resolveSpawnWaitMs spawnWaitMs in
  Ok (Control 0 1 0 0 0 0 n (repeat zero_slot (Z.to_nat n)), ms).

Definition openWasiThreadPoolSlots (c : control) (count : Z) : control := set_slots count c.

Definition setState (c : control) (i : nat) (st : Z) : control := add_generation (on_slot (store_state st) i c).

Definition armWasiThreadPoolSlot (c : control) (i : nat) (messageDispatch : bool) : control :=
  setState (if messageDispatch then on_slot (store_flags FLAG_MESSAGE_DISPATCH) i c else c) i IDLE.

Definition retireWasiThreadPoolSlot (c : control) (i : nat) : control := setState c i RETIRED.

(** The tid a slot is running, and the last one it was assigned. *)
Definition wasiThreadPoolLastTid (c : control) (i : nat) : Z := s_tid (slot_at c i).
Definition wasiThreadPoolRunningTid (c : control) (i : nat) : option Z :=
  if (state_at c i =? ASSIGNED) || (state_at c i =? RUNNING) then Some (s_tid (slot_at c i)) else None.

Record report := Report { r_spawned : Z; r_waited : Z; r_declined : Z; r_slots : Z; r_active : Z; r_idle : Z; r_workers : Z }.

Definition readWasiThreadPoolReport (c : control) : report :=
  let n := Z.min (slots c) (capacity c) in
  let served := take (Z.to_nat n) (table c) in
  let count P := blen (List.filter P served) in
  Report (spawned c) (waited c) (declined c) n
    (count (fun s => (s_state s =? CLAIMED) || (s_state s =? ASSIGNED) || (s_state s =? RUNNING)))
    (count (fun s => s_state s =? IDLE))
    (count (fun s => negb (s_thread s =? 0))).

(** ** Agents *)

(** The two scans of [claim]: before its loop, and in a round of it. *)
Inductive scan_for := First | Again (gen : Z) (growAt deadline : Q) (hasWaited : bool).

(** Where [retireWasiThreadPoolSlot] is: before its store, its notification and its bump. *)
Inductive retire_pc := TStore | TNotify | TBump.

(** Where [releaseWasiThreadPoolSlotIfRunning] is. *)
Inductive release_pc := RLoad | RTid (st : Z) | RCas (st : Z) | RBump.

(** Where the spawn function is: each constructor names the access it makes next. *)
Inductive spawn_pc :=
| SReady
| SScan (k : scan_for)
| SClaimable (k : scan_for) (n : Z) (i : nat) (live : Z)
| SClaim (k : scan_for) (n : Z) (i : nat) (live : Z)
| SLive (k : scan_for) (n : Z) (i : nat) (live : Z)
| SClock
| SGeneration (growAt deadline : Q) (w : bool)
| SRoom (gen : Z) (growAt deadline : Q) (w : bool) (live : Z)
| SWait (gen : Z) (growAt deadline : Q) (w room : bool)
| SBlocked (gen : Z) (growAt deadline : Q)
| SReserve (growAt deadline : Q) (w : bool)
| SReserveCas (growAt deadline : Q) (w : bool) (n : Z)
| SStoreClaimed (i : nat) (w : bool)
| SGrow (i : nat) (w : bool)
| SRetire (i : nat) (r : retire_pc)
| SDeclined
| STid (i : nat) (w : bool)
| SStoreIdle (i : nat)
| SBump
| SStoreTid (i : nat) (t : Z) (w : bool)
| SStoreArg (i : nat) (t : Z) (w : bool)
| SAssign (i : nat) (t : Z) (w : bool)
| SFlags (i : nat) (t : Z) (w : bool)
| SDispatch (i : nat) (t : Z) (w : bool)
| SRelease (i : nat) (t : Z) (r : release_pc)
| SNotify (i : nat) (t : Z) (w : bool)
| SSpawned (i : nat) (t : Z) (w : bool)
| SWaited (i : nat) (t : Z).

(** One thread's spawn function: its options, its two variables and the current call. *)
Record spawner := Spawner {
  owner : bool; growable : bool; starvedAt : option Z; canBlock : bool; startArg : Z; pc : spawn_pc
}.

(** Where [serveWasiThreadPoolSlot] is. *)
Inductive serve_pc :=
| VEnter | VLoad | VWait (st : Z) | VBlocked (st : Z) | VTake | VTid | VArg (t : Z) | VRun (t a : Z)
| VRunning | VFinish | VBump | VRetire (r : retire_pc) | VReturned.

(** A thread started by message: posted, running, its exit on the way to the owner, freed there. *)
Inductive post_pc := PPosted | PRunning | PExit | PRelease (r : release_pc) | PEnd.

Inductive agent :=
| Spawn (sp : spawner)
| Serve (i : nat) (v : serve_pc)
| Post (i : nat) (t a : Z) (p : post_pc)
| Retire (i : nat) (r : option retire_pc).

Inductive reason := PoolExhausted | WorkerCreateFailed | TidExhausted | DispatchFailed.

(** The process: the shared words, its threads, and three logs: the thread ids handed out with
    their argument, the threads started, and what the spawn calls returned. *)
Record process := Process {
  ctl : control; agents : list agent; born : list (Z * Z); ran : list (Z * Z); results : list (Z + reason)
}.

(** ** Steps *)

(** What the environment answers in a step: two readings of the clock, whether a call that can
    fail succeeds, and the argument of a call. *)
Record answer := Answer { now1 : Q; now2 : Q; ok : bool; argument : Z }.

Inductive wakes := Nobody | OnSlot (i : nat) | OnGeneration.

(** The effect of a step: the words, the agent, agents it creates, whom it notifies, the logs. *)
Record effect := Effect {
  e_ctl : control; e_agent : agent; e_new : list agent; e_wakes : wakes;
  e_born : list (Z * Z); e_ran : list (Z * Z); e_results : list (Z + reason)
}.
Definition quiet (c : control) (a : agent) : effect := Effect c a [] Nobody [] [] [].

(** [Atomics.notify]: the agents blocked on the word go on. *)
Definition wake (t : wakes) (a : agent) : agent :=
  match t, a with
  | OnSlot i, Serve k (VBlocked st) => if decide (i = k) then Serve k VLoad else a
  | OnGeneration, Spawn (Spawner o g s b x (SBlocked gen growAt deadline)) => Spawn (Spawner o g s b x (SGeneration growAt deadline true))
  | _, _ => a
  end.

(** [Atomics.compareExchange] on a slot's state. *)
Definition cas_state (c : control) (i : nat) (old new : Z) : bool * control :=
  if state_at c i =? old then (true, on_slot (store_state new) i c) else (false, c).

Definition set_pc (sp : spawner) (p : spawn_pc) : spawner :=
  Spawner (owner sp) (growable sp) (starvedAt sp) (canBlock sp) (startArg sp) p.

(** [setState(control, slot, RETIRED)]: the words after the step, whom it notifies, what is left. *)
Definition retire_step (c : control) (i : nat) (r : retire_pc) : control * wakes * option retire_pc :=
  match r with
  | TStore => (on_slot (store_state RETIRED) i c, Nobody, Some TNotify)
  | TNotify => (c, OnSlot i, Some TBump)
  | TBump => (add_generation c, OnGeneration, None)
  end.

Definition release_step (c : control) (i : nat) (t : Z) (r : release_pc) : control * wakes * (release_pc + bool) :=
  match r with
  | RLoad =>
      let st := state_at c i in
      (c, Nobody, if (st =? ASSIGNED) || (st =? RUNNING) then inl (RTid st) else inr false)
  | RTid st => (c, Nobody, if s_tid (slot_at c i) =? t then inl (RCas st) else inr false)
  | RCas st => match cas_state c i st IDLE with
               | (true, c') => (c', Nobody, inl RBump)
               | (false, c') => (c', Nobody, inl RLoad)
               end
  | RBump => (add_generation c, OnGeneration, inr true)
  end.

(** The next round of the scan, or what follows a scan that found nothing. *)
Definition next_slot (k : scan_for) (n : Z) (i : nat) (live : Z) : spawn_pc :=
  if Z.of_nat i <? n then SClaimable k n i live
  else match k with First => SClock | Again gen growAt deadline w => SRoom gen growAt deadline w live end.

Definition has_waited (k : scan_for) : bool := match k with First => false | Again _ _ _ w => w end.

Section spawn.
Context (spawnWaitMs : Q).

(** [scan] *)
Definition scan_step (c : control) (sp : spawner) (p : spawn_pc) : option effect :=
  let go c p := Some (quiet c (Spawn (set_pc sp p))) in
  match p with
  | SScan k => go c (next_slot k (Z.min (slots c) (capacity c)) 0 0)
  | SClaimable k n i live => if owner sp || negb (flagged c i) then go c (SClaim k n i live) else go c (next_slot k n (S i) live)
  | SClaim k n i live =>
      match cas_state c i IDLE CLAIMED with
      | (true, c) => go c (STid i (has_waited k))
      | (false, c) => go c (SLive k n i live)
      end
  | SLive k n i live => go c (next_slot k n (S i) (if state_at c i =? RETIRED then live else live + 1))
  | _ => None
  end.

(** [reserve] and [growOne] *)
Definition grow_step (c : control) (sp : spawner) (o : answer) (p : spawn_pc) : option effect :=
  let go c p := Some (quiet c (Spawn (set_pc sp p))) in
  match p with
  | SReserve growAt deadline w =>
      if capacity c <=? slots c then go c (SGeneration growAt deadline w) else go c (SReserveCas growAt deadline w (slots c))
  | SReserveCas growAt deadline w n =>
      if slots c =? n then go (set_slots (n + 1) c) (SStoreClaimed (Z.to_nat n) w) else go c (SReserve growAt deadline w)
  | SStoreClaimed i w => go (on_slot (store_state CLAIMED) i c) (SGrow i w)
  | SGrow i w =>
      if ok o then Some (Effect c (Spawn (set_pc sp (STid i w))) [Serve i VEnter] Nobody [] [] []) else go c (SRetire i TStore)
  | SRetire i r =>
      match retire_step c i r with
      | (c, t, Some r) => Some (Effect c (Spawn (set_pc sp (SRetire i r))) [] t [] [] [])
      | (c, t, None) => Some (Effect c (Spawn (set_pc sp SReady)) [] t [] [] [inr WorkerCreateFailed])
      end
  | _ => None
  end.

(** The loop of [claim], after the scans. *)
Definition claim_step (c : control) (sp : spawner) (o : answer) (p : spawn_pc) : option effect :=
  let go sp p := Some (quiet c (Spawn (set_pc sp p))) in
  match p with
  | SClock =>
      go sp (SGeneration (now1 o + (if canBlock sp then (if Qle_bool GROW_AFTER_MS spawnWaitMs then GROW_AFTER_MS else spawnWaitMs) else 0))
                         (now1 o + (if canBlock sp then spawnWaitMs else 0)) false)
  | SGeneration growAt deadline w => go sp (SScan (Again (generation c) growAt deadline w))
  | SRoom gen growAt deadline w live =>
      let room := growable sp && (Z.min (slots c) (capacity c) <? capacity c) in
      if room && ((live =? 0) || Qle_bool growAt (now1 o)) then go sp (SReserve growAt deadline w)
      else if live =? 0 then go sp SDeclined
      else if bool_decide (Some gen = starvedAt sp) && negb room then go sp SDeclined
      else
        let remaining := ((if room then growAt else deadline) - now2 o)%Q in
        if negb room && Qle_bool remaining 0 then
          go (Spawner (owner sp) (growable sp) (Some gen) (canBlock sp) (startArg sp) p) SDeclined
        else if Qle_bool remaining 0 then go sp (SGeneration growAt deadline w)
        else go sp (SWait gen growAt deadline w room)
  | SWait gen growAt deadline w room =>
      if negb (ok o) then   (* Atomics.wait throws *)
        let sp := Spawner (owner sp) (growable sp) (starvedAt sp) false (startArg sp) p in
        if negb room then go sp SDeclined else go sp (SGeneration 0 deadline w)
      else if generation c =? gen then go sp (SBlocked gen growAt deadline)
      else go sp (SGeneration growAt deadline true)
  | SBlocked gen growAt deadline => go sp (SGeneration growAt deadline true)
  | _ => None
  end.

(** The returned function: a call, and what it does with the slot it claimed. *)
Definition call_step (c : control) (sp : spawner) (o : answer) (p : spawn_pc) : option effect :=
  let go c p := Some (quiet c (Spawn (set_pc sp p))) in
  let return_ c r := Some (Effect c (Spawn (set_pc sp SReady)) [] Nobody [] [] [r]) in
  match p with
  | SReady => Some (quiet c (Spawn (Spawner (owner sp) (growable sp) (starvedAt sp) (canBlock sp) (argument o) (SScan First))))
  | SDeclined => return_ (add_declined c) (inr PoolExhausted)
  | STid i w =>
      let tid := next_tid c in
      if MAX_TID <? tid then go (add_next_tid c) (SStoreIdle i)
      else Some (Effect (add_next_tid c) (Spawn (set_pc sp (SStoreTid i tid w))) [] Nobody [(tid, to_int32 (startArg sp))] [] [])
  | SStoreIdle i => go (on_slot (store_state IDLE) i c) SBump
  | SBump => Some (Effect (add_generation c) (Spawn (set_pc sp SReady)) [] OnGeneration [] [] [inr TidExhausted])
  | SStoreTid i tid w => go (on_slot (store_tid tid) i c) (SStoreArg i tid w)
  | SStoreArg i tid w => go (on_slot (store_arg (to_int32 (startArg sp))) i c) (SAssign i tid w)
  | SAssign i tid w => go (on_slot (store_state ASSIGNED) i c) (SFlags i tid w)
  | SFlags i tid w => if flagged c i then go c (SDispatch i tid w) else go c (SNotify i tid w)
  | SDispatch i tid w =>
      if ok o then Some (Effect c (Spawn (set_pc sp (SSpawned i tid w))) [Post i tid (startArg sp) PPosted] Nobody [] [] [])
      else go c (SRelease i tid RLoad)
  | SRelease i tid r =>
      match release_step c i tid r with
      | (c, t, inl r) => Some (Effect c (Spawn (set_pc sp (SRelease i tid r))) [] t [] [] [])
      | (c, t, inr _) => Some (Effect c (Spawn (set_pc sp SReady)) [] t [] [] [inr DispatchFailed])
      end
  | SNotify i tid w => Some (Effect c (Spawn (set_pc sp (SSpawned i tid w))) [] (OnSlot i) [] [] [])
  | SSpawned i tid w => if w then go (add_spawned c) (SWaited i tid) else return_ (add_spawned c) (inl tid)
  | SWaited i tid => return_ (add_waited c) (inl tid)
  | _ => None
  end.

Definition spawn_step (c : control) (sp : spawner) (o : answer) : option effect :=
  match pc sp with
  | SScan _ | SClaimable _ _ _ _ | SClaim _ _ _ _ | SLive _ _ _ _ => scan_step c sp (pc sp)
  | SReserve _ _ _ | SReserveCas _ _ _ _ | SStoreClaimed _ _ | SGrow _ _ | SRetire _ _ => grow_step c sp o (pc sp)
  | SClock | SGeneration _ _ _ | SRoom _ _ _ _ _ | SWait _ _ _ _ _ | SBlocked _ _ _ => claim_step c sp o (pc sp)
  | _ => call_step c sp o (pc sp)
  end.

(** [serveWasiThreadPoolSlot], with [takeWasiThreadPoolAssignment] and [finishWasiThreadPoolRun]. *)
Definition serve_step (c : control) (i : nat) (v : serve_pc) (o : answer) : option effect :=
  let go c v := Some (quiet c (Serve i v)) in
  match v with
  | VEnter => go (if argument o =? 0 then c else on_slot (store_thread (argument o)) i c) VLoad
  | VLoad => let st := state_at c i in
             if st =? RETIRED then go c VReturned else if st =? ASSIGNED then go c VTake else go c (VWait st)
  | VWait st => if state_at c i =? st then go c (VBlocked st) else go c VLoad
  | VBlocked _ => None
  | VTake => match cas_state c i ASSIGNED RUNNING with
             | (true, c) => go c VTid
             | (false, c) => go c VLoad
             end
  | VTid => go c (VArg (s_tid (slot_at c i)))
  | VArg t => go c (VRun t (s_arg (slot_at c i)))
  | VRun t a => Some (Effect c (Serve i VRunning) [] Nobody [] [(t, a)] [])
  | VRunning => if ok o then go c VFinish else go c (VRetire TStore)
  | VFinish => match cas_state c i RUNNING IDLE with
               | (true, c) => go c VBump
               | (false, c) => go c VLoad
               end
  | VBump => Some (Effect (add_generation c) (Serve i VLoad) [] OnGeneration [] [] [])
  | VRetire r => match retire_step c i r with
                 | (c, t, Some r) => Some (Effect c (Serve i (VRetire r)) [] t [] [] [])
                 | (c, t, None) => Some (Effect c (Serve i VReturned) [] t [] [] [])
                 end
  | VReturned => None
  end.

(** A thread started by message runs, exits, and the owner frees its slot. The guest's start
    function takes an i32. *)
Definition post_step (c : control) (i : nat) (t a : Z) (p : post_pc) : option effect :=
  match p with
  | PPosted => Some (Effect c (Post i t a PRunning) [] Nobody [] [(t, to_int32 a)] [])
  | PRunning => Some (quiet c (Post i t a PExit))
  | PExit => Some (quiet c (Post i t a (PRelease RLoad)))
  | PRelease r => match release_step c i t r with
                  | (c, w, inl r) => Some (Effect c (Post i t a (PRelease r)) [] w [] [] [])
                  | (c, w, inr _) => Some (Effect c (Post i t a PEnd) [] w [] [] [])
                  end
  | PEnd => None
  end.

Definition agent_step (c : control) (a : agent) (o : answer) : option effect :=
  match a with
  | Spawn sp => spawn_step c sp o
  | Serve i v => serve_step c i v o
  | Post i t x p => post_step c i t x p
  | Retire i (Some r) => match retire_step c i r with (c, t, r) => Some (Effect c (Retire i r) [] t [] [] []) end
  | Retire i None => None
  end.

(** A step of the process: an agent moves, the owner begins to retire a slot whose worker died,
    or a thread gets its spawn function. *)
Inductive choice := Move (j : nat) (o : answer) | RetireSlot (i : nat) | NewThread (isOwner canGrow : bool).

Definition step (ch : choice) (p : process) : option process :=
  match ch with
  | Move j o =>
      match agents p !! j with
      | Some a =>
          match agent_step (ctl p) a o with
          | Some e => Some (Process (e_ctl e) (wake (e_wakes e) <$> (<[j := e_agent e]> (agents p) ++ e_new e))
                              (born p ++ e_born e) (ran p ++ e_ran e) (results p ++ e_results e))
          | None => None
          end
      | None => None
      end
  | RetireSlot i => Some (Process (ctl p) (agents p ++ [Retire i (Some TStore)]) (born p) (ran p) (results p))
  | NewThread isOwner canGrow =>
      Some (Process (ctl p) (agents p ++ [Spawn (Spawner isOwner canGrow None true 0 SReady)]) (born p) (ran p) (results p))
  end.

Fixpoint run (cs : list choice) (p : process) : option process :=
  match cs with
  | [] => Some p
  | ch :: cs => match step ch p with Some p => run cs p | None => None end
  end.
End spawn.

(** ** Starting states *)

(** The owner arms or retires each slot it opened, before the first spawn: [Some b] is a worker
    that is ready ([b]: it takes messages), [None] one that failed to start. *)
Fixpoint arm_all (i : nat) (arms : list (option bool)) (c : control) : control :=
  match arms with
  | [] => c
  | Some messageDispatch :: arms => arm_all (S i) arms (armWasiThreadPoolSlot c i messageDispatch)
  | None :: arms => arm_all (S i) arms (retireWasiThreadPoolSlot c i)
  end.

Definition first_workers (arms : list (option bool)) : list agent :=
  concat (imap (fun i arm => match arm with Some false => [Serve i VEnter] | _ => [] end) arms).

(** A process after [createWasiThreadSpawn]: a browser pool has a slot for each worker that was
    started, a Node pool has none and grows. *)
Definition start (n : Z) (arms : list (option bool)) : process :=
  Process (arm_all 0 arms (openWasiThreadPoolSlots (Control 0 1 0 0 0 0 n (repeat zero_slot (Z.to_nat n))) (blen arms)))
    (first_workers arms) [] [] [].

Definition reachable (ms : Q) (n : Z) (arms : list (option bool)) (steps : nat) (p : process) : Prop :=
  exists cs, length cs = steps /\ run ms cs (start n arms) = Some p.
