(* ===== verification/ThreadPoolSafety.v ===== *)
(** The thread pool keeps its promises in every interleaving (model in ThreadPool.v).

    An agent may hold a slot, carry a thread that is not started yet, and be in a call that will
    return a thread id. The invariant says that each of the three has at most one owner; every
    step of an agent is a [moves], and every [moves] keeps the invariant. *)
From Stdlib Require Import ZArith QArith Lia.
From stdpp Require Import base list strings numbers.
From S2P Require Import Prelude ThreadPool.
Open Scope Z_scope.

(** ** Who holds a slot and who carries a thread *)

(** The slot an agent has to itself. *)
Definition held (c : control) (a : agent) : option nat :=
  match a with
  | Spawn sp =>
      match pc sp with
      | SStoreClaimed i _ | SGrow i _ | SRetire i TStore | STid i _ | SStoreIdle i | SStoreTid i _ _ | SStoreArg i _ _
      | SAssign i _ _ | SDispatch i _ _ | SRelease i _ RLoad | SRelease i _ (RTid _) | SRelease i _ (RCas _) => Some i
      | SFlags i _ _ => if flagged c i then Some i else None
      | _ => None
      end
  | Serve i (VTid | VArg _ | VRun _ _ | VRunning | VFinish | VRetire TStore) => Some i
  | Post i _ _ (PPosted | PRunning | PExit | PRelease (RLoad | RTid _ | RCas _)) => Some i
  | _ => None
  end.

(** The thread an agent has yet to start, or to hand over. *)
Definition carried (c : control) (a : agent) : option Z :=
  match a with
  | Spawn sp =>
      match pc sp with
      | SStoreTid _ t _ | SStoreArg _ t _ | SAssign _ t _ | SDispatch _ t _ => Some t
      | SFlags i t _ => if flagged c i then Some t else None
      | _ => None
      end
  | Serve i VTid => Some (s_tid (slot_at c i))
  | Serve _ (VArg t) | Serve _ (VRun t _) | Post _ t _ PPosted => Some t
  | _ => None
  end.

(** The thread a spawn call will return. *)
Definition spawning (a : agent) : option Z :=
  match a with
  | Spawn sp =>
      match pc sp with
      | SStoreTid _ t _ | SStoreArg _ t _ | SAssign _ t _ | SFlags _ t _ | SDispatch _ t _ | SNotify _ t _
      | SSpawned _ t _ | SWaited _ t => Some t
      | _ => None
      end
  | _ => None
  end.

(** A slot in which an assignment waits for its worker, and a slot that may be taken. *)
Definition offered (c : control) (i : nat) : option Z :=
  if (state_at c i =? ASSIGNED) && negb (flagged c i) then Some (s_tid (slot_at c i)) else None.
Definition open (c : control) (i : nat) : bool :=
  (state_at c i =? IDLE) || ((state_at c i =? ASSIGNED) && negb (flagged c i)).

(** What an agent knows at its program counter. *)
Definition agent_ok (c : control) (b : list (Z * Z)) (a : agent) : Prop :=
  match a with
  | Spawn sp =>
      let arg := to_int32 (startArg sp) in
      match pc sp with
      | SStoreTid i t _ | SFlags i t _ => (t, arg) ∈ b
      | SStoreArg i t _ => (t, arg) ∈ b /\ s_tid (slot_at c i) = t
      | SAssign i t _ => (t, arg) ∈ b /\ s_tid (slot_at c i) = t /\ s_arg (slot_at c i) = arg
      | SDispatch i t _ => (t, arg) ∈ b /\ flagged c i = true
      | SRelease i _ _ => flagged c i = true
      | SNotify i t _ => t ∈ b.*1 /\ flagged c i = false
      | SSpawned _ t _ | SWaited _ t => t ∈ b.*1
      | SReserveCas _ _ _ n => n < capacity c
      | SStoreClaimed i _ | SGrow i _ => flagged c i = false
      | _ => True
      end
  | Serve i v =>
      flagged c i = false /\
      match v with
      | VTid => (s_tid (slot_at c i), s_arg (slot_at c i)) ∈ b
      | VArg t => t = s_tid (slot_at c i) /\ (t, s_arg (slot_at c i)) ∈ b
      | VRun t a => (t, a) ∈ b
      | VWait st | VBlocked st => st <> ASSIGNED /\ st <> RETIRED
      | _ => True
      end
  | Post i t a p => flagged c i = true /\ (p = PPosted -> (t, to_int32 a) ∈ b)
  | Retire _ _ => True
  end.

Definition holder (p : process) (j : nat) : option nat := agents p !! j ≫= held (ctl p).
Definition carrier (p : process) (x : nat + nat) : option Z :=
  match x with inl j => agents p !! j ≫= carried (ctl p) | inr i => offered (ctl p) i end.
Definition caller (p : process) (j : nat) : option Z := agents p !! j ≫= spawning.

Record inv (p : process) : Prop := {
  inv_slots : 0 <= slots (ctl p) <= capacity (ctl p) /\ capacity (ctl p) = blen (table (ctl p));
  inv_high : forall i, slots (ctl p) <= Z.of_nat i -> open (ctl p) i = false /\ flagged (ctl p) i = false;
  inv_holder : unique (holder p);
  inv_open : forall i j, open (ctl p) i = true -> holder p j <> Some i;
  inv_low : forall j i, holder p j = Some i -> Z.of_nat i < slots (ctl p);
  inv_agents : forall j a, agents p !! j = Some a -> agent_ok (ctl p) (born p) a;
  inv_offers : forall i t, offered (ctl p) i = Some t -> (t, s_arg (slot_at (ctl p) i)) ∈ born p;
  inv_carrier : unique (carrier p);
  inv_waiting : forall x t, carrier p x = Some t -> t ∉ (ran p).*1;
  inv_caller : unique (caller p);
  inv_calling : forall j t, caller p j = Some t -> inl t ∉ results p;
  inv_next : 1 <= next_tid (ctl p);
  inv_born : NoDup (born p).*1 /\ Forall (fun t => 1 <= t <= MAX_TID /\ t < next_tid (ctl p)) (born p).*1;
  inv_ran : NoDup (ran p).*1 /\ ran p ⊆ born p;
  inv_results : NoDup (omap (fun r => match r with inl t => Some t | inr _ => None end) (results p)) /\
    forall t, inl t ∈ results p -> t ∈ (born p).*1
}.

(** ** Frame lemmas *)

Lemma slot_at_same f i c : (i < length (table c))%nat -> slot_at (on_slot f i c) i = f (slot_at c i).
Proof.
  intros Hi. unfold slot_at, on_slot. cbn. rewrite list_lookup_alter_eq.
  destruct (lookup_lt_is_Some_2 _ _ Hi) as [s ->]. done.
Qed.
Lemma slot_at_other f i k c : i <> k -> slot_at (on_slot f i c) k = slot_at c k.
Proof. intros Hne. unfold slot_at, on_slot. cbn. by rewrite list_lookup_alter_ne. Qed.
Lemma slot_at_field {A} (g : slot -> A) f i k c : (forall s, g (f s) = g s) -> g (slot_at (on_slot f i c) k) = g (slot_at c k).
Proof.
  intros Hg. unfold slot_at, on_slot. cbn. destruct (decide (i = k)) as [->|Hne];
    [rewrite list_lookup_alter_eq; by destruct (table c !! k); cbn|by rewrite list_lookup_alter_ne].
Qed.
Lemma flagged_on_slot f i k c : (forall s, s_flags (f s) = s_flags s) -> flagged (on_slot f i c) k = flagged c k.
Proof. intros Hf. unfold flagged. by rewrite (slot_at_field s_flags). Qed.
Lemma table_on_slot f i c : blen (table (on_slot f i c)) = blen (table c).
Proof. unfold blen, on_slot. cbn. by rewrite length_alter. Qed.

Lemma open_offered c i t : offered c i = Some t -> open c i = true.
Proof. unfold offered, open. destruct (_ && _); [|done]. by rewrite orb_true_r. Qed.

Lemma held_frame c c' a : (forall i, flagged c' i = flagged c i) -> held c' a = held c a.
Proof. intros Hf. destruct a as [sp|i v|i t x p|i r]; try done. cbn. by destruct (pc sp); try done; rewrite Hf. Qed.

(** The slots whose contents an agent relies on are those it holds. *)
Definition same_data (c c' : control) (i : nat) : Prop :=
  s_tid (slot_at c' i) = s_tid (slot_at c i) /\ s_arg (slot_at c' i) = s_arg (slot_at c i).

Lemma carried_frame c c' a : (forall i, flagged c' i = flagged c i) -> (forall i, held c a = Some i -> same_data c c' i) ->
  carried c' a = carried c a.
Proof.
  intros Hf Hd. destruct a as [sp|i v|i t x p|i r]; try done; cbn.
  - by destruct (pc sp); try done; rewrite Hf.
  - destruct v; try done. by destruct (Hd i eq_refl) as [-> _].
Qed.

Lemma agent_ok_frame c c' b bs a :
  (forall i, flagged c' i = flagged c i) -> capacity c' = capacity c -> (forall i, held c a = Some i -> same_data c c' i) ->
  agent_ok c b a -> agent_ok c' (b ++ bs) a.
Proof.
  intros Hf Hc Hd. destruct a as [sp|i v|i t x p|i r]; try done; cbn.
  - destruct (pc sp) eqn:E; rewrite ?Hf, ?Hc; try done; rewrite ?fmap_app, ?elem_of_app; try tauto;
      destruct (Hd i) as [H1 H2]; try (cbn; by rewrite E); rewrite ?H1, ?H2; tauto.
  - rewrite Hf. intros [? Hv]. split; [done|].
    destruct v; try done; try (destruct (Hd i eq_refl) as [-> ->]); rewrite ?elem_of_app; tauto.
  - rewrite Hf, elem_of_app. tauto.
Qed.

(** ** What one step of an agent may change *)

Definition tids (l : list (Z * Z)) : list Z := l.*1.

Record moves (c : control) (b : list (Z * Z)) (a : agent) (e : effect) : Prop := {
  mv_flags : forall i, flagged (e_ctl e) i = flagged c i;
  mv_capacity : capacity (e_ctl e) = capacity c /\ blen (table (e_ctl e)) = blen (table c);
  mv_slots : slots (e_ctl e) = slots c \/ (slots (e_ctl e) = slots c + 1 /\ slots c < capacity c);
  mv_data : forall i, held c a = Some i \/ same_data c (e_ctl e) i;
  mv_open : forall i, open (e_ctl e) i = true -> held (e_ctl e) (e_agent e) <> Some i /\ (open c i = true \/ held c a = Some i);
  mv_held : forall i, held (e_ctl e) (e_agent e) = Some i ->
    held c a = Some i \/ open c i = true \/ (Z.of_nat i = slots c /\ slots (e_ctl e) = slots c + 1);
  mv_offered : forall i t, offered (e_ctl e) i = Some t ->
    (offered c i = Some t /\ held c a <> Some i) \/
    (carried c a = Some t /\ carried (e_ctl e) (e_agent e) = None /\ held c a = Some i /\ (t, s_arg (slot_at (e_ctl e) i)) ∈ b);
  mv_carried : forall t, carried (e_ctl e) (e_agent e) = Some t ->
    carried c a = Some t \/ (exists i, offered c i = Some t /\ offered (e_ctl e) i = None) \/ t ∈ tids (e_born e);
  mv_ok : agent_ok (e_ctl e) (b ++ e_born e) (e_agent e);
  mv_born : (e_born e = [] /\ next_tid c <= next_tid (e_ctl e)) \/
    (exists x, e_born e = [(next_tid c, x)] /\ next_tid c <= MAX_TID /\ next_tid (e_ctl e) = next_tid c + 1);
  mv_ran : e_ran e = [] \/
    (exists t x, e_ran e = [(t, x)] /\ carried c a = Some t /\ carried c (e_agent e) = None /\ (t, x) ∈ b /\ e_ctl e = c);
  mv_spawning : forall t, spawning (e_agent e) = Some t -> spawning a = Some t \/ t ∈ tids (e_born e);
  mv_results : e_results e = [] \/ (exists r, e_results e = [inr r]) \/
    (exists t, e_results e = [inl t] /\ spawning a = Some t /\ spawning (e_agent e) = None /\ t ∈ tids b)
}.

Lemma lookup_move {A B} (f : A -> option B) (l : list A) j a k : l !! j = Some a ->
  forall a', (<[j := a']> l !! k) ≫= f = if decide (k = j) then f a' else l !! k ≫= f.
Proof.
  intros Hj a'. destruct (decide (k = j)) as [->|Hne]; [|by rewrite list_lookup_insert_ne].
  rewrite list_lookup_insert_eq; [done|]. by eapply lookup_lt_Some.
Qed.

Section move.
Context (p : process) (j : nat) (a : agent) (e : effect).
Context (Hinv : inv p) (Hj : agents p !! j = Some a) (Hmv : moves (ctl p) (born p) a e).

Definition moved : process :=
  Process (e_ctl e) (<[j := e_agent e]> (agents p)) (born p ++ e_born e) (ran p ++ e_ran e) (results p ++ e_results e).

Lemma holder_a : holder p j = held (ctl p) a.
Proof. unfold holder. by rewrite Hj. Qed.
Lemma carrier_a : carrier p (inl j) = carried (ctl p) a.
Proof. unfold carrier. by rewrite Hj. Qed.
Lemma caller_a : caller p j = spawning a.
Proof. unfold caller. by rewrite Hj. Qed.

Lemma holder_moved k : holder moved k = if decide (k = j) then held (e_ctl e) (e_agent e) else holder p k.
Proof.
  unfold holder, moved. cbn. rewrite (lookup_move _ _ _ _ _ Hj). destruct (decide (k = j)); [done|].
  destruct (agents p !! k); [|done]. cbn. by rewrite (held_frame (ctl p)) by apply (mv_flags _ _ _ _ Hmv).
Qed.

Lemma others_data k b i : k <> j -> agents p !! k = Some b -> held (ctl p) b = Some i -> same_data (ctl p) (e_ctl e) i.
Proof.
  intros Hne Hk Hb. destruct (mv_data _ _ _ _ Hmv i) as [Ha|]; [|done]. exfalso. apply Hne.
  apply (inv_holder _ Hinv k j i); [unfold holder; by rewrite Hk|by rewrite holder_a].
Qed.

Lemma carrier_moved x : carrier moved x =
  match x with
  | inl k => if decide (k = j) then carried (e_ctl e) (e_agent e) else carrier p x
  | inr i => offered (e_ctl e) i
  end.
Proof.
  destruct x as [k|i]; [|done]. unfold carrier, moved. cbn. rewrite (lookup_move _ _ _ _ _ Hj).
  destruct (decide (k = j)); [done|]. destruct (agents p !! k) as [b|] eqn:Hk; [|done]. cbn.
  apply carried_frame; [apply (mv_flags _ _ _ _ Hmv)|]. intros i. by apply others_data with k.
Qed.

Lemma caller_moved k : caller moved k = if decide (k = j) then spawning (e_agent e) else caller p k.
Proof. unfold caller, moved. cbn. apply (lookup_move _ _ _ _ _ Hj). Qed.

Lemma carrier_born x t : carrier p x = Some t -> t ∈ tids (born p).
Proof.
  destruct x as [k|i]; cbn.
  - destruct (agents p !! k) as [b|] eqn:Hk; [|done]. cbn. intros Hb. pose proof (inv_agents _ Hinv k b Hk) as Hok.
    destruct b as [sp|i v|i t' x q|]; cbn in Hb, Hok; try done.
    + destruct (pc sp) eqn:E; try done; try (destruct (flagged _ _); [|done]); injection Hb as <-;
        apply list_elem_of_fmap; eexists (_, _); (split; [reflexivity|]); apply Hok.
    + destruct Hok as [_ Hok]. destruct v; try done; injection Hb as <-;
        apply list_elem_of_fmap; eexists (_, _); (split; [reflexivity|]); apply Hok.
    + destruct q; try done. injection Hb as <-. apply list_elem_of_fmap. eexists (_, _). split; [reflexivity|]. by apply Hok.
  - intros Ht. apply (inv_offers _ Hinv) in Ht. apply list_elem_of_fmap. by eexists (_, _).
Qed.

Lemma born_below t : t ∈ tids (born p) -> 1 <= t <= MAX_TID /\ t < next_tid (ctl p).
Proof. intros Ht. destruct (inv_born _ Hinv) as [_ HF]. rewrite list.Forall_forall in HF. by apply HF. Qed.

Lemma newborn t : t ∈ tids (e_born e) -> t = next_tid (ctl p) /\ t ∉ tids (born p).
Proof.
  destruct (mv_born _ _ _ _ Hmv) as [[-> _]|(x & -> & _)]; [by intros ?%elem_of_nil|].
  intros ->%list_elem_of_singleton. split; [done|]. intros ?%born_below. cbn in *. lia.
Qed.

Lemma moved_holder : unique (holder moved).
Proof.
  assert (Hx : forall k i, k <> j -> holder p k = Some i -> held (e_ctl e) (e_agent e) <> Some i).
  { intros k i Hne Hk Ha. destruct (mv_held _ _ _ _ Hmv i Ha) as [H|[H|[H _]]].
    - apply Hne. apply (inv_holder _ Hinv _ _ _ Hk). by rewrite holder_a.
    - by apply (inv_open _ Hinv _ k H).
    - pose proof (inv_low _ Hinv _ _ Hk). lia. }
  intros k l i. rewrite !holder_moved. destruct (decide (k = j)) as [->|], (decide (l = j)) as [->|]; intros H1 H2; try done.
  - by destruct (Hx l i).
  - by destruct (Hx k i).
  - by apply (inv_holder _ Hinv k l i).
Qed.

Lemma moved_carrier : unique (carrier moved).
Proof.
  pose proof (inv_carrier _ Hinv) as Hu.
  assert (Hs : forall k t, k <> j -> carrier p (inl k) = Some t -> carried (e_ctl e) (e_agent e) <> Some t).
  { intros k t Hne Hk Ha. destruct (mv_carried _ _ _ _ Hmv t Ha) as [H|[(i & H & _)|H]].
    - rewrite <- carrier_a in H. specialize (Hu _ _ _ Hk H). congruence.
    - by specialize (Hu (inl k) (inr i) t Hk H).
    - apply newborn in H as [_ H]. apply H. by apply (carrier_born (inl k)). }
  assert (Ho : forall k t i, k <> j -> carrier p (inl k) = Some t -> offered (e_ctl e) i <> Some t).
  { intros k t i Hne Hk Hi. destruct (mv_offered _ _ _ _ Hmv i t Hi) as [[H _]|(H & _)].
    - by specialize (Hu (inl k) (inr i) t Hk H).
    - rewrite <- carrier_a in H. specialize (Hu _ _ _ Hk H). congruence. }
  assert (Ha : forall t i, carried (e_ctl e) (e_agent e) = Some t -> offered (e_ctl e) i <> Some t).
  { intros t i Hc Hi. destruct (mv_offered _ _ _ _ Hmv i t Hi) as [[H _]|(_ & H & _)]; [|congruence].
    destruct (mv_carried _ _ _ _ Hmv t Hc) as [H1|[(k & H1 & H2)|H1]].
    - rewrite <- carrier_a in H1. by specialize (Hu (inl j) (inr i) t H1 H).
    - specialize (Hu (inr k) (inr i) t H1 H). congruence.
    - apply newborn in H1 as [_ H1]. apply H1. by apply (carrier_born (inr i)). }
  assert (Hoo : forall i k t, offered (e_ctl e) i = Some t -> offered (e_ctl e) k = Some t -> i = k).
  { intros i k t Hi Hk. destruct (mv_offered _ _ _ _ Hmv i t Hi) as [[H1 _]|(H1 & _ & H1' & _)],
      (mv_offered _ _ _ _ Hmv k t Hk) as [[H2 _]|(H2 & _ & H2' & _)]; try congruence.
    - specialize (Hu (inr i) (inr k) t H1 H2). congruence.
    - rewrite <- carrier_a in H2. by specialize (Hu (inl j) (inr i) t H2 H1).
    - rewrite <- carrier_a in H1. by specialize (Hu (inl j) (inr k) t H1 H2). }
  intros x y t. rewrite !carrier_moved. destruct x as [k|i], y as [l|i'].
  - destruct (decide (k = j)) as [->|], (decide (l = j)) as [->|]; intros H1 H2; [done| | |by apply Hu with t].
    + by destruct (Hs l t).
    + by destruct (Hs k t).
  - destruct (decide (k = j)) as [->|]; intros H1 H2; [by destruct (Ha t i')|by destruct (Ho k t i')].
  - destruct (decide (l = j)) as [->|]; intros H1 H2; [by destruct (Ha t i)|by destruct (Ho l t i)].
  - intros H1 H2. f_equal. by apply Hoo with t.
Qed.

Lemma moved_slots : 0 <= slots (e_ctl e) <= capacity (e_ctl e) /\ capacity (e_ctl e) = blen (table (e_ctl e)).
Proof.
  destruct (mv_capacity _ _ _ _ Hmv) as [-> ->]. destruct (inv_slots _ Hinv), (mv_slots _ _ _ _ Hmv) as [->|[-> ?]]; lia.
Qed.

Lemma moved_high i : slots (e_ctl e) <= Z.of_nat i -> open (e_ctl e) i = false /\ flagged (e_ctl e) i = false.
Proof.
  intros Hi. assert (Hi' : slots (ctl p) <= Z.of_nat i) by (destruct (mv_slots _ _ _ _ Hmv) as [H|[H _]]; lia).
  destruct (inv_high _ Hinv i Hi') as [H1 H2]. rewrite (mv_flags _ _ _ _ Hmv). split; [|done].
  destruct (open (e_ctl e) i) eqn:Ho; [|done]. destruct (mv_open _ _ _ _ Hmv i Ho) as [_ [H|H]]; [congruence|].
  rewrite <- holder_a in H. apply (inv_low _ Hinv) in H. lia.
Qed.

Lemma moved_open i k : open (e_ctl e) i = true -> holder moved k <> Some i.
Proof.
  intros Ho Hk. rewrite holder_moved in Hk. destruct (mv_open _ _ _ _ Hmv i Ho) as [Hn [H|H]].
  - destruct (decide (k = j)) as [->|]; [done|]. by apply (inv_open _ Hinv i k).
  - destruct (decide (k = j)) as [->|Hne]; [done|]. apply Hne, (inv_holder _ Hinv _ _ i Hk). by rewrite holder_a.
Qed.

Lemma moved_low k i : holder moved k = Some i -> Z.of_nat i < slots (e_ctl e).
Proof.
  intros Hk. rewrite holder_moved in Hk.
  assert (Hs : slots (ctl p) <= slots (e_ctl e)) by (destruct (mv_slots _ _ _ _ Hmv) as [H|[H _]]; lia).
  destruct (decide (k = j)) as [->|]; [|apply (inv_low _ Hinv) in Hk; lia].
  destruct (mv_held _ _ _ _ Hmv i Hk) as [H|[H|[H1 H2]]]; [| |lia].
  - rewrite <- holder_a in H. apply (inv_low _ Hinv) in H. lia.
  - destruct (Z_lt_ge_dec (Z.of_nat i) (slots (ctl p))); [lia|]. destruct (inv_high _ Hinv i); [lia|congruence].
Qed.

Lemma moved_agents k b : agents moved !! k = Some b -> agent_ok (e_ctl e) (born p ++ e_born e) b.
Proof.
  cbn. destruct (decide (k = j)) as [->|Hne].
  - rewrite list_lookup_insert_eq by (by eapply lookup_lt_Some). intros [= <-]. apply (mv_ok _ _ _ _ Hmv).
  - rewrite list_lookup_insert_ne by done. intros Hk. eapply agent_ok_frame; [apply (mv_flags _ _ _ _ Hmv)|
      apply (mv_capacity _ _ _ _ Hmv)| |by apply (inv_agents _ Hinv k)]. intros i. by apply others_data with k.
Qed.

Lemma moved_offers i t : offered (e_ctl e) i = Some t -> (t, s_arg (slot_at (e_ctl e) i)) ∈ born p ++ e_born e.
Proof.
  intros Hi. apply elem_of_app. left. destruct (mv_offered _ _ _ _ Hmv i t Hi) as [[H Hn]|(_ & _ & _ & H)]; [|done].
  destruct (mv_data _ _ _ _ Hmv i) as [|[_ ->]]; [done|]. by apply (inv_offers _ Hinv).
Qed.

(** A thread that is still waiting was not started, and a step starts only what its agent carried. *)
Lemma carrier_before x t : carrier moved x = Some t -> t ∉ (ran p).*1.
Proof.
  assert (Hb : forall t, t ∈ tids (e_born e) -> t ∉ (ran p).*1).
  { intros t' [_ Hn]%newborn Hr. apply Hn. apply list_elem_of_fmap in Hr as (y & -> & Hr). apply list_elem_of_fmap.
    exists y. split; [done|]. by apply (inv_ran _ Hinv). }
  rewrite carrier_moved. destruct x as [k|i].
  - destruct (decide (k = j)) as [->|]; [|by apply (inv_waiting _ Hinv)].
    intros Ht. destruct (mv_carried _ _ _ _ Hmv t Ht) as [H|[(i & H & _)|H]]; [| |by apply Hb].
    + apply (inv_waiting _ Hinv (inl j)). by rewrite carrier_a.
    + by apply (inv_waiting _ Hinv (inr i)).
  - intros Ht. destruct (mv_offered _ _ _ _ Hmv i t Ht) as [[H _]|(H & _)].
    + by apply (inv_waiting _ Hinv (inr i)).
    + apply (inv_waiting _ Hinv (inl j)). by rewrite carrier_a.
Qed.

(** Whoever carries the thread that the agent starts in this step is the agent itself. *)
Lemma started_gone x t : carried (ctl p) a = Some t -> carried (ctl p) (e_agent e) = None -> e_ctl e = ctl p -> carrier moved x <> Some t.
Proof.
  intros Ha Hn Hc. rewrite carrier_moved, Hc. rewrite <- carrier_a in Ha. destruct x as [k|i].
  - destruct (decide (k = j)) as [->|Hne]; [congruence|]. intros Hx. pose proof (inv_carrier _ Hinv _ _ _ Ha Hx). congruence.
  - intros Hx. by pose proof (inv_carrier _ Hinv (inl j) (inr i) t Ha Hx).
Qed.

Lemma moved_waiting x t : carrier moved x = Some t -> t ∉ (ran p ++ e_ran e).*1.
Proof.
  intros Hx. rewrite fmap_app, elem_of_app. intros [H|H]; [by apply (carrier_before x t)|].
  destruct (mv_ran _ _ _ _ Hmv) as [E|(t' & y & E & H1 & H2 & _ & H3)]; rewrite E in H; [by apply elem_of_nil in H|].
  apply list_elem_of_singleton in H as ->. by apply (started_gone x t').
Qed.

Lemma moved_caller : unique (caller moved).
Proof.
  assert (Hx : forall k t, k <> j -> caller p k = Some t -> spawning (e_agent e) <> Some t).
  { intros k t Hne Hk Ha. destruct (mv_spawning _ _ _ _ Hmv t Ha) as [H|H].
    - rewrite <- caller_a in H. by pose proof (inv_caller _ Hinv _ _ _ Hk H).
    - apply newborn in H as [_ H]. apply H. clear -Hk Hinv. unfold caller in Hk. destruct (agents p !! k) as [b|] eqn:E; [|done].
      apply (inv_agents _ Hinv) in E. destruct b as [sp| | |]; cbn in *; try done.
      destruct (pc sp); try done; injection Hk as <-; try exact E; try apply E; apply list_elem_of_fmap; eexists (_, _); (split; [reflexivity|]); apply E. }
  intros k l t. rewrite !caller_moved. destruct (decide (k = j)) as [->|], (decide (l = j)) as [->|]; intros H1 H2; try done.
  - by destruct (Hx l t).
  - by destruct (Hx k t).
  - by apply (inv_caller _ Hinv k l t).
Qed.

Lemma result_new t : inl t ∈ e_results e -> spawning a = Some t /\ spawning (e_agent e) = None /\ t ∈ tids (born p).
Proof.
  destruct (mv_results _ _ _ _ Hmv) as [->|[[r ->]|(t' & -> & H)]]; [by intros ?%elem_of_nil|by intros ?%list_elem_of_singleton|].
  by intros [= ->]%list_elem_of_singleton.
Qed.

Lemma moved_calling k t : caller moved k = Some t -> inl t ∉ results p ++ e_results e.
Proof.
  rewrite caller_moved, elem_of_app. intros Hk [H|H].
  - destruct (decide (k = j)) as [->|]; [|by apply (inv_calling _ Hinv k t)].
    destruct (mv_spawning _ _ _ _ Hmv t Hk) as [H'|[_ Hn]%newborn].
    + rewrite <- caller_a in H'. by apply (inv_calling _ Hinv j t).
    + by apply Hn, (inv_results _ Hinv).
  - apply result_new in H as (H1 & H2 & _). destruct (decide (k = j)) as [->|Hne]; [congruence|].
    rewrite <- caller_a in H1. by pose proof (inv_caller _ Hinv _ _ _ Hk H1).
Qed.

Lemma moved_born : NoDup (born p ++ e_born e).*1 /\
  Forall (fun t => 1 <= t <= MAX_TID /\ t < next_tid (e_ctl e)) (born p ++ e_born e).*1.
Proof.
  destruct (inv_born _ Hinv) as [Hn HF]. pose proof (inv_next _ Hinv). rewrite fmap_app. split.
  - apply list.NoDup_app. split_and!; [done| |destruct (mv_born _ _ _ _ Hmv) as [[-> _]|(x & -> & _)]; [constructor|apply NoDup_singleton]].
    intros t Ht Hb. by apply newborn in Hb as [_ ?].
  - assert (Hle : next_tid (ctl p) <= next_tid (e_ctl e)) by (destruct (mv_born _ _ _ _ Hmv) as [[_ ?]|(x & _ & _ & ?)]; lia).
    apply list.Forall_app. split; [eapply list.Forall_impl; [exact HF|]; intros t ?; cbv beta in *; lia|].
    destruct (mv_born _ _ _ _ Hmv) as [[-> _]|(x & -> & ? & ?)]; [constructor|]. apply list.Forall_singleton. cbn. lia.
Qed.

Lemma moved_ran : NoDup (ran p ++ e_ran e).*1 /\ ran p ++ e_ran e ⊆ born p ++ e_born e.
Proof.
  destruct (inv_ran _ Hinv) as [Hn Hs]. destruct (mv_ran _ _ _ _ Hmv) as [->|(t & x & -> & H1 & _ & H2 & _)].
  - rewrite app_nil_r. split; [done|]. intros y Hy. apply elem_of_app. left. by apply Hs.
  - split.
    + rewrite fmap_app. apply list.NoDup_app. split_and!; [done| |apply NoDup_singleton].
      intros t' Ht ->%list_elem_of_singleton. revert Ht. apply (inv_waiting _ Hinv (inl j)). by rewrite carrier_a.
    + intros y [Hy| ->%list_elem_of_singleton]%elem_of_app; apply elem_of_app; left; [by apply Hs|done].
Qed.

Lemma moved_results : NoDup (omap (fun r => match r with inl t => Some t | inr _ => None end) (results p ++ e_results e)) /\
  forall t, inl t ∈ results p ++ e_results e -> t ∈ (born p ++ e_born e).*1.
Proof.
  destruct (inv_results _ Hinv) as [Hn Hr]. split.
  - rewrite omap_app. apply list.NoDup_app. split_and!; [done| |].
    + intros t Ht Ht'. apply list_elem_of_omap in Ht as ([t1|] & Ht & [= ->]). apply list_elem_of_omap in Ht' as ([t2|] & Ht' & [= ->]).
      apply result_new in Ht' as (H1 & _). rewrite <- caller_a in H1. by apply (inv_calling _ Hinv j t).
    + destruct (mv_results _ _ _ _ Hmv) as [->|[[r ->]|(t' & -> & H)]]; cbn; [constructor|constructor|apply NoDup_singleton].
  - intros t [H|H]%elem_of_app; rewrite fmap_app, elem_of_app; left; [by apply Hr|apply result_new in H as (_ & _ & H); exact H].
Qed.

Lemma inv_move : inv moved.
Proof.
  constructor; [apply moved_slots|apply moved_high|apply moved_holder|apply moved_open|apply moved_low|apply moved_agents|
    apply moved_offers|apply moved_carrier|apply moved_waiting|apply moved_caller|apply moved_calling| |apply moved_born|
    apply moved_ran|apply moved_results].
  cbn. pose proof (inv_next _ Hinv). destruct (mv_born _ _ _ _ Hmv) as [[_ ?]|(x & _ & _ & ?)]; lia.
Qed.
End move.

(** ** Notifications and new agents *)

Lemma wake_same w c b a : held c (wake w a) = held c a /\ carried c (wake w a) = carried c a /\ spawning (wake w a) = spawning a /\
  (agent_ok c b a -> agent_ok c b (wake w a)).
Proof.
  destruct w as [|i|]; [done| |].
  - destruct a as [sp|k v|k t x q|k r]; try done. cbn. destruct v; try done. destruct (decide (i = k)); cbn; tauto.
  - destruct a as [[o g s b' x q]|k v|k t x q|k r]; try done. by destruct q.
Qed.

Lemma inv_wake w p : inv p -> inv (Process (ctl p) (wake w <$> agents p) (born p) (ran p) (results p)).
Proof.
  set (p' := Process _ _ _ _ _). intros H.
  assert (Hh : forall k, holder p' k = holder p k).
  { intros k. unfold holder. cbn. rewrite list_lookup_fmap. destruct (agents p !! k); [|done]. apply (wake_same w _ []). }
  assert (Hc : forall x, carrier p' x = carrier p x).
  { intros [k|i]; [|done]. cbn. rewrite list_lookup_fmap. destruct (agents p !! k); [|done]. apply (wake_same w _ []). }
  assert (Hs : forall k, caller p' k = caller p k).
  { intros k. unfold caller. cbn. rewrite list_lookup_fmap. destruct (agents p !! k); [|done]. apply (wake_same w (ctl p) []). }
  destruct H as [H1 H2 H3 H4 H5 H6 H7 H8 H9 H10 H11 H12 H13 H14 H15]. constructor; try done.
  - intros j k i. rewrite !Hh. apply H3.
  - intros i j. rewrite Hh. apply H4.
  - intros j i. rewrite Hh. apply H5.
  - intros j a. cbn. rewrite list_lookup_fmap. destruct (agents p !! j) as [b|] eqn:E; [|done]. intros [= <-].
    apply (wake_same w). by apply H6 with j.
  - intros x y t. rewrite !Hc. apply H8.
  - intros x t. rewrite Hc. apply H9.
  - intros j k t. rewrite !Hs. apply H10.
  - intros j t. rewrite Hs. apply H11.
Qed.

(** A new agent may hold a slot and carry a thread that nobody else does. *)
Lemma inv_spawned p a : inv p -> agent_ok (ctl p) (born p) a -> spawning a = None ->
  (forall i, held (ctl p) a = Some i -> (forall k, holder p k <> Some i) /\ open (ctl p) i = false /\ Z.of_nat i < slots (ctl p)) ->
  (forall t, carried (ctl p) a = Some t -> (forall x, carrier p x <> Some t) /\ t ∉ (ran p).*1) ->
  inv (Process (ctl p) (agents p ++ [a]) (born p) (ran p) (results p)).
Proof.
  set (p' := Process _ _ _ _ _). intros H Ha Hsp Hh Hc.
  assert (Hl : forall {B} (f : agent -> option B) k, (agents p ++ [a]) !! k ≫= f = agents p !! k ≫= f \/
    (k = length (agents p) /\ agents p !! k = None /\ (agents p ++ [a]) !! k ≫= f = f a)).
  { intros B f k. destruct (decide (k < length (agents p))%nat); [left; by rewrite lookup_app_l|].
    rewrite (lookup_ge_None_2 (agents p)) by lia. destruct (decide (k = length (agents p))) as [->|].
    - right. by rewrite list_lookup_middle.
    - left. rewrite lookup_ge_None_2; [done|]. rewrite length_app. cbn. lia. }
  assert (Ekeep : forall {B} (f : agent -> option B) k x, (agents p ++ [a]) !! k ≫= f = Some x -> agents p !! k ≫= f = Some x \/
    (k = length (agents p) /\ f a = Some x)).
  { intros B f k x E. destruct (Hl B f k) as [E'|(-> & _ & E')]; rewrite E' in E; auto. }
  destruct H as [H1 H2 H3 H4 H5 H6 H7 H8 H9 H10 H11 H12 H13 H14 H15]. constructor; try done.
  - intros j k i Ej Ek. destruct (Ekeep _ _ _ _ Ej) as [Ej'|[-> Ea]], (Ekeep _ _ _ _ Ek) as [Ek'|[-> Eb]]; [by apply H3 with i| | |done].
    + by destruct (Hh i Eb) as [Hn _]; destruct (Hn j).
    + by destruct (Hh i Ea) as [Hn _]; destruct (Hn k).
  - intros i j Ho Ej. destruct (Ekeep _ _ _ _ Ej) as [Ej'|[-> Ea]]; [by apply (H4 i j)|].
    destruct (Hh i Ea) as (_ & ? & _). cbn in Ho. congruence.
  - intros j i Ej. destruct (Ekeep _ _ _ _ Ej) as [Ej'|[-> Ea]]; [by apply (H5 j)|]. by apply Hh.
  - intros j b. cbn. rewrite lookup_app_Some. intros [E|[_ [_ <-]%list_lookup_singleton_Some]]; [by apply H6 with j|done].
  - assert (Hx : forall x t, carrier p' x = Some t -> carrier p x = Some t \/ (x = inl (length (agents p)) /\ carried (ctl p) a = Some t)).
    { intros [k|i] t; [|by left]. cbn. intros E. destruct (Ekeep _ _ _ _ E) as [?|[-> ?]]; auto. }
    intros x y t Ex Ey. destruct (Hx _ _ Ex) as [Ex'|[-> Ea]], (Hx _ _ Ey) as [Ey'|[-> Eb]]; [by apply H8 with t| | |done].
    + by destruct (Hc t Eb) as [Hn _]; destruct (Hn x).
    + by destruct (Hc t Ea) as [Hn _]; destruct (Hn y).
  - intros [k|i] t E; [|by apply (H9 (inr i))]. destruct (Ekeep _ _ _ _ E) as [Ej'|[-> Ea]]; [by apply (H9 (inl k))|]. by apply Hc.
  - intros j k t Ej Ek. destruct (Ekeep _ _ _ _ Ej) as [Ej'|[-> Ea]], (Ekeep _ _ _ _ Ek) as [Ek'|[-> Eb]];
      [by apply H10 with t|congruence..].
  - intros j t E. destruct (Ekeep _ _ _ _ E) as [Ej'|[-> Ea]]; [by apply (H11 j)|congruence].
Qed.

(** ** Every step of an agent is such a move *)

Definition slot_flagged (s : slot) : bool := negb (js_and (s_flags s) FLAG_MESSAGE_DISPATCH =? 0).
Definition slot_open (s : slot) : bool := (s_state s =? IDLE) || ((s_state s =? ASSIGNED) && negb (slot_flagged s)).
Definition slot_offer (s : slot) : option Z := if (s_state s =? ASSIGNED) && negb (slot_flagged s) then Some (s_tid s) else None.

(** A step that leaves the slots alone. *)
Lemma moves_quiet c b a e :
  table (e_ctl e) = table c -> slots (e_ctl e) = slots c -> capacity (e_ctl e) = capacity c -> next_tid (e_ctl e) = next_tid c ->
  e_born e = [] -> e_ran e = [] ->
  (forall i, held c (e_agent e) = Some i -> held c a = Some i) -> (forall i, held c a = Some i -> open c i = false) ->
  (forall t, carried c (e_agent e) = Some t -> carried c a = Some t) ->
  (forall t, spawning (e_agent e) = Some t -> spawning a = Some t) -> agent_ok c b (e_agent e) ->
  (e_results e = [] \/ (exists r, e_results e = [inr r]) \/
   (exists t, e_results e = [inl t] /\ spawning a = Some t /\ spawning (e_agent e) = None /\ t ∈ tids b)) ->
  moves c b a e.
Proof.
  intros Ht Hs Hc Hn Hb Hr Hh Ho Hca Hsp Hok Hre.
  assert (Hsl : forall i, slot_at (e_ctl e) i = slot_at c i) by (intros i; unfold slot_at; by rewrite Ht).
  assert (Hfl : forall i, flagged (e_ctl e) i = flagged c i) by (intros i; unfold flagged; by rewrite Hsl).
  assert (Hop : forall i, open (e_ctl e) i = open c i) by (intros i; unfold open, state_at; by rewrite Hfl, Hsl).
  assert (Hof : forall i, offered (e_ctl e) i = offered c i) by (intros i; unfold offered, state_at; by rewrite Hfl, Hsl).
  assert (Hd : forall i, same_data c (e_ctl e) i) by (intros i; unfold same_data; by rewrite Hsl).
  assert (Hhe : held (e_ctl e) (e_agent e) = held c (e_agent e)) by (by apply held_frame).
  assert (Hce : carried (e_ctl e) (e_agent e) = carried c (e_agent e)) by (by apply carried_frame).
  constructor; rewrite ?Hb, ?Hr, ?Hhe, ?Hce, ?Hn, ?Ht; try done; try tauto.
  - intros i. by right.
  - intros i. rewrite Hop. intros Hi. split; [|by left]. intros ?%Hh%Ho. congruence.
  - intros i ?%Hh. by left.
  - intros i t. rewrite Hof. intros Hi. left. split; [done|]. intros ?%Ho. apply open_offered in Hi. congruence.
  - intros t ?%Hca. by left.
  - by eapply agent_ok_frame; [..|exact Hok].
  - left. split; [done|lia].
  - intros t ?%Hsp. by left.
Qed.

(** A step that writes slot [i]: a claim, a take, or a store of its holder. *)
Lemma moves_write c b a f i a' new w res :
  (i < length (table c))%nat -> (forall s, s_flags (f s) = s_flags s) ->
  let s := slot_at c i in
  let c' := on_slot f i c in
  held c a = Some i \/ (s_tid (f s) = s_tid s /\ s_arg (f s) = s_arg s) ->
  (slot_open (f s) = true -> held c a' <> Some i /\ (slot_open s = true \/ held c a = Some i)) ->
  (forall k, held c a' = Some k -> k = i /\ (held c a = Some i \/ slot_open s = true)) ->
  (forall k, held c a = Some k -> k = i) ->
  (forall t, slot_offer (f s) = Some t ->
    (slot_offer s = Some t /\ held c a <> Some i) \/
    (carried c a = Some t /\ carried c' a' = None /\ held c a = Some i /\ (t, s_arg (f s)) ∈ b)) ->
  (forall t, carried c' a' = Some t -> carried c a = Some t \/ (slot_offer s = Some t /\ slot_offer (f s) = None)) ->
  agent_ok c' b a' -> (forall t, spawning a' = Some t -> spawning a = Some t) ->
  (res = [] \/ exists r, res = [inr r]) ->
  moves c b a (Effect c' a' new w [] [] res).
Proof.
  intros Hi Hf s c' Hd Ho Hh Hold Hof Hca Hok Hsp Hre.
  assert (Hs : slot_at c' i = f s) by (by apply slot_at_same).
  assert (Hne : forall k, k <> i -> slot_at c' k = slot_at c k) by (intros k ?; by apply slot_at_other).
  assert (Hfl : forall k, flagged c' k = flagged c k) by (intros k; by apply flagged_on_slot).
  assert (Hhe : held c' a' = held c a') by (by apply held_frame).
  constructor; cbn [e_ctl e_agent e_born e_ran e_results]; rewrite ?Hhe, ?app_nil_r; try done.
  - split; [done|]. apply table_on_slot.
  - by left.
  - intros k. destruct (decide (k = i)) as [->|Hk].
    + destruct Hd as [|[H1 H2]]; [by left|]. right. unfold same_data. by rewrite Hs.
    + right. unfold same_data. by rewrite Hne.
  - intros k. destruct (decide (k = i)) as [->|Hk].
    + unfold open, state_at, flagged. rewrite Hs. apply Ho.
    + unfold open, state_at, flagged. rewrite Hne by done. intros Hop. split; [|by left]. intros [? _]%Hh. done.
  - intros k Hk. destruct (Hh k Hk) as [-> [?|?]]; [by left|]. right. by left.
  - intros k t. destruct (decide (k = i)) as [->|Hk].
    + unfold offered, state_at, flagged. rewrite Hs. apply Hof.
    + unfold offered, state_at, flagged. rewrite Hne by done. intros Hop. left. split; [done|]. by intros ?%Hold.
  - intros t Ht. destruct (Hca t Ht) as [?|[H1 H2]]; [by left|]. right. left. exists i. split; [exact H1|].
    unfold offered, state_at, flagged. rewrite Hs. exact H2.
  - left. split; [done|]. cbn. lia.
  - by left.
  - intros t ?%Hsp. by left.
  - tauto.
Qed.

Lemma on_slot_outside f i c : ~ (i < length (table c))%nat -> on_slot f i c = c.
Proof.
  intros Hi. unfold on_slot. replace (alter f i (table c)) with (table c); [by destruct c|].
  rewrite <- (list_alter_id id (table c) i) at 1 by done. apply list_alter_ext; [|done].
  intros x Hx%lookup_lt_Some. lia.
Qed.

Lemma in_range c i : state_at c i <> PENDING -> (i < length (table c))%nat.
Proof.
  unfold state_at, slot_at. intros Hs. destruct (table c !! i) eqn:E; [by eapply lookup_lt_Some|]. by destruct Hs.
Qed.

(** A slot is retired, by its holder or over the head of it. *)
Lemma moves_retire c b a i a' new w res :
  (forall k, held c a = Some k -> k = i /\ open c k = false) -> (forall k, held c a' = Some k -> False) -> carried c a = None -> carried c a' = None ->
  carried (on_slot (store_state RETIRED) i c) a' = None ->
  spawning a' = None -> agent_ok c b a' -> agent_ok (on_slot (store_state RETIRED) i c) b a' -> (res = [] \/ exists r, res = [inr r]) ->
  moves c b a (Effect (on_slot (store_state RETIRED) i c) a' new w [] [] res).
Proof.
  intros Hold Hh Hc1 Hc2 Hc3 Hsp Hok1 Hok2 Hre. destruct (decide (i < length (table c))%nat) as [Hi|Hi].
  - apply moves_write; try done.
    + by right.
    + intros k ?%Hh. done.
    + intros k H. by apply Hold.
    + intros t. by rewrite Hc3.
    + intros t. by rewrite Hsp.
  - rewrite on_slot_outside by done. apply moves_quiet; cbn; try done.
    + intros k ?%Hh. done.
    + intros k H. by apply Hold.
    + intros t. by rewrite Hc2.
    + intros t. by rewrite Hsp.
    + tauto.
Qed.

Ltac quiet_move :=
  apply moves_quiet; cbn; try done; try tauto; try (intros ? [= <-]; done); try (left; reflexivity).

Section agent_moves.
Context (ms : Q) (c : control) (b : list (Z * Z)).
Implicit Types sp : spawner.

(** What the invariant says of the agent that moves. *)
Record ready (a : agent) : Prop := {
  rd_open : forall i, held c a = Some i -> open c i = false;
  rd_range : forall i, held c a = Some i -> (i < length (table c))%nat;
  rd_ok : agent_ok c b a;
  rd_next : 1 <= next_tid c < 2 ^ 31 - 1;
  rd_slots : 0 <= slots c;
  rd_high : forall i, slots c <= Z.of_nat i -> open c i = false /\ flagged c i = false;
  rd_offers : forall i t, offered c i = Some t -> (t, s_arg (slot_at c i)) ∈ b
}.

Lemma next_slot_quiet k n i live sp a : held c a = None -> carried c a = None ->
  moves c b a (quiet c (Spawn (set_pc sp (next_slot k n i live)))).
Proof.
  intros Hh Hc. apply moves_quiet; cbn; try done; try (by left); unfold next_slot; destruct (Z.of_nat i <? n), k; cbn; congruence || done.
Qed.

Lemma scan_moves sp e : ready (Spawn sp) -> scan_step c sp (pc sp) = Some e -> moves c b (Spawn sp) e.
Proof.
  intros [Ho Hr Hok Hn Hsl Hhi Hofb]. destruct sp as [ow gr sa cb ar q]. cbn [pc]. destruct q; try discriminate; cbn.
  - intros [= <-]. by apply next_slot_quiet.
  - destruct (_ || _); intros [= <-]; [quiet_move|by apply next_slot_quiet].
  - unfold cas_state. destruct (Z.eqb_spec (state_at c i) IDLE) as [E|E]; intros [= <-]; [|quiet_move].
    assert (Hi : slot_open (slot_at c i) = true) by (unfold slot_open; unfold state_at in E; by rewrite E).
    apply moves_write; cbn; try done; try (by left); try (by right).
    + apply in_range. by rewrite E.
    + intros k' [= ->]. tauto.
  - intros [= <-]. by apply next_slot_quiet.
Qed.

Lemma claim_moves sp o e : ready (Spawn sp) -> claim_step ms c sp o (pc sp) = Some e -> moves c b (Spawn sp) e.
Proof.
  intros [Ho Hr Hok Hn Hsl Hhi Hofb]. destruct sp as [ow gr sa cb ar q]. cbn [pc]. destruct q; try discriminate; cbn;
    repeat match goal with |- context [if ?x then _ else _] => destruct x end; intros [= <-]; quiet_move.
Qed.

Lemma grow_moves sp o e : ready (Spawn sp) -> grow_step c sp o (pc sp) = Some e -> moves c b (Spawn sp) e.
Proof.
  intros [Ho Hr Hok Hn Hsl Hhi Hofb]. destruct sp as [ow gr sa cb ar q]. cbn [pc]. destruct q as [| | | | | | | | | | | | |i w|i r| | | | | | | | | | | | |]; try discriminate; cbn.
  - destruct (Z.leb_spec (capacity c) (slots c)); intros [= <-]; quiet_move.
  - destruct (Z.eqb_spec (slots c) n) as [<-|]; intros [= <-]; [|quiet_move]. cbn in Hok.
    constructor; cbn; rewrite ?app_nil_r; try done; try tauto.
    + by right.
    + intros i Hi. split; [|by left]. intros [= <-]. change (open c (Z.to_nat (slots c)) = true) in Hi. destruct (Hhi (Z.to_nat (slots c))); [lia|congruence].
    + intros i [= <-]. right. right. split; [lia|done].
    + intros i t Hi. left. done.
    + apply (Hhi (Z.to_nat (slots c))). lia.
    + left. split; [done|lia].
  - intros [= <-]. apply moves_write; cbn; try done; try (by left); try (by right).
    + by apply Hr.
    + intros k' [= <-]. split; [done|by left].
    + by intros k' [= <-].
    + transitivity (flagged c i); [by apply flagged_on_slot|done].
  - destruct (ok o); intros [= <-]; quiet_move.
  - destruct r; cbn; intros [= <-]; [|quiet_move; eauto..].
    apply moves_retire; cbn; try done; try (by left). intros k [= <-]. split; [done|]. by apply Ho.
Qed.

(** The holder of a slot writes it and keeps it closed, or gives it back. *)
Lemma moves_hold a f i a' new w res :
  held c a = Some i -> ready a -> (forall s, s_flags (f s) = s_flags s) ->
  slot_open (f (slot_at c i)) = false \/ (held c a' = None /\ slot_offer (f (slot_at c i)) = None) ->
  (forall k, held c a' = Some k -> k = i) ->
  (forall t, carried (on_slot f i c) a' = Some t -> carried c a = Some t) ->
  agent_ok (on_slot f i c) b a' -> (forall t, spawning a' = Some t -> spawning a = Some t) ->
  (res = [] \/ exists r, res = [inr r]) ->
  moves c b a (Effect (on_slot f i c) a' new w [] [] res).
Proof.
  intros Ha [Ho Hr Hok Hn Hsl Hhi Hofb] Hf Hopen Hh Hc Hok' Hsp Hres.
  assert (Hoff : slot_offer (f (slot_at c i)) = None).
  { destruct Hopen as [H|[_ H]]; [|done]. unfold slot_open in H. unfold slot_offer. by apply orb_false_iff in H as [_ ->]. }
  apply moves_write; try done.
  - by apply Hr.
  - by left.
  - intros H. destruct Hopen as [H'|[-> _]]; [congruence|]. split; [done|]. by right.
  - intros k Hk. split; [by apply Hh|by left].
  - rewrite Ha. by intros k [= <-].
  - intros t. by rewrite Hoff.
  - intros t Ht. left. by apply Hc.
Qed.

(** A tid is drawn: it is given to the caller, or it is past the last one. *)
Lemma add_next_tid_exact : 1 <= next_tid c < 2 ^ 31 - 1 -> next_tid (add_next_tid c) = next_tid c + 1.
Proof. intros Hn. cbn. apply to_int32_small. lia. Qed.

Lemma moves_tid a a' i bs : held c a = Some i -> ready a -> held c a' = Some i ->
  (bs = [] /\ carried c a' = None /\ spawning a' = None) \/
  (exists x, bs = [(next_tid c, x)] /\ next_tid c <= MAX_TID /\ carried c a' = Some (next_tid c) /\ spawning a' = Some (next_tid c)) ->
  agent_ok c (b ++ bs) a' ->
  moves c b a (Effect (add_next_tid c) a' [] Nobody bs [] []).
Proof.
  intros Ha [Ho Hr Hok Hn Hsl Hhi Hofb] Ha' Hbs Hok'. pose proof (add_next_tid_exact Hn) as Hnt.
  assert (Hhe : held (add_next_tid c) a' = held c a') by (by apply held_frame).
  assert (Hce : carried (add_next_tid c) a' = carried c a') by (by apply carried_frame).
  constructor; cbn [e_ctl e_agent e_born e_ran e_results]; rewrite ?Hhe, ?Hce, ?Hnt; try done; try tauto; try (by left).
  - intros k. by right.
  - intros k Hk. split; [|by left]. rewrite Ha'. intros [= <-]. change (open c i = true) in Hk. rewrite Ho in Hk by done. done.
  - rewrite Ha'. intros k [= <-]. by left.
  - intros k t Hk. change (offered c k = Some t) in Hk. left. split; [done|]. rewrite Ha. intros [= <-].
    apply open_offered in Hk. rewrite Ho in Hk by done. done.
  - destruct Hbs as [(-> & -> & _)|(x & -> & _ & -> & _)]; [done|]. intros t [= <-]. right. right. by apply list_elem_of_singleton.
  - destruct Hbs as [(-> & _)|(x & -> & H & _)]; [left; split; [done|lia]|right; eauto].
  - destruct Hbs as [(-> & _ & ->)|(x & -> & _ & _ & ->)]; [done|]. intros t [= <-]. right. by apply list_elem_of_singleton.
Qed.

(** Release by the holder of a slot that takes messages: [mk] is its agent at a program counter
    of the release, [fin] the agent after it. *)
Lemma release_moves (mk : release_pc -> agent) (fin : agent) i t r c' w x res :
  ready (mk r) -> flagged c i = true ->
  (forall q c1, held c1 (mk q) = match q with RBump => None | _ => Some i end) -> (forall c1, held c1 fin = None) ->
  (forall q c1, carried c1 (mk q) = None) -> (forall c1, carried c1 fin = None) ->
  (forall q, spawning (mk q) = None) -> spawning fin = None ->
  (forall q c1, flagged c1 i = true -> agent_ok c1 b (mk q)) -> (forall c1, flagged c1 i = true -> agent_ok c1 b fin) ->
  (res = [] \/ exists r, res = [inr r]) ->
  release_step c i t r = (c', w, x) ->
  moves c b (mk r) (Effect c' (match x with inl q => mk q | inr _ => fin end) [] w [] [] (match x with inl _ => [] | inr _ => res end)).
Proof.
  intros Hrd Hfl Hh Hhf Hc Hcf Hs Hsf Ho Hof Hres. pose proof (rd_open _ Hrd) as Hop.
  destruct r; cbn [release_step].
  - destruct (_ || _); intros [= <- <- <-]; apply moves_quiet; cbn; rewrite ?Hh, ?Hhf, ?Hc, ?Hcf, ?Hs, ?Hsf; auto; try done; try (intros k Hk; apply Hop; rewrite Hh; exact Hk); tauto.
  - destruct (_ =? _); intros [= <- <- <-]; apply moves_quiet; cbn; rewrite ?Hh, ?Hhf, ?Hc, ?Hcf, ?Hs, ?Hsf; auto; try done; try (intros k Hk; apply Hop; rewrite Hh; exact Hk); tauto.
  - unfold cas_state. destruct (_ =? _); intros [= <- <- <-].
    + apply moves_hold; rewrite ?Hh, ?Hc, ?Hs; try done; try (by left).
      * by right.
      * apply Ho. by rewrite flagged_on_slot.
    + apply moves_quiet; cbn; rewrite ?Hh, ?Hc, ?Hs; auto; try done; try (intros k Hk; apply Hop; rewrite Hh; exact Hk).
  - intros [= <- <- <-]. apply moves_quiet; cbn; rewrite ?Hh, ?Hhf, ?Hc, ?Hcf, ?Hs, ?Hsf; auto; try done; try tauto.
Qed.

Lemma assign_moves sp i t w : pc sp = SAssign i t w -> ready (Spawn sp) ->
  moves c b (Spawn sp) (quiet (on_slot (store_state ASSIGNED) i c) (Spawn (set_pc sp (SFlags i t w)))).
Proof.
  intros Hpc Hrd. assert (Ha : held c (Spawn sp) = Some i) by (cbn; by rewrite Hpc).
  pose proof (rd_range _ Hrd _ Ha) as Hi. pose proof (rd_ok _ Hrd) as Hok. cbn in Hok. rewrite Hpc in Hok. destruct Hok as (Hb & Ht & Hg).
  assert (Hfl : flagged (on_slot (store_state ASSIGNED) i c) i = flagged c i) by (by apply flagged_on_slot).
  apply moves_write; try done; try (by left).
  - intros Hop. cbn. replace (flagged c i) with false; [split; [done|right; by rewrite Hpc]|].
    destruct (flagged c i) eqn:E; [|done]. unfold flagged in E. unfold slot_open, slot_flagged, store_state in Hop.
    cbn [s_state s_flags] in Hop. by rewrite E in Hop.
  - intros k. cbn. rewrite Hpc. destruct (flagged c i); [|done]. intros [= <-]. split; [done|by left].
  - rewrite Ha. by intros k [= <-].
  - intros u Hu. right. unfold slot_offer, store_state, slot_flagged in Hu. cbn [s_state s_flags s_tid] in Hu.
    cbn [carried set_pc pc]. rewrite Hpc, Hfl. unfold flagged.
    destruct (negb (js_and (s_flags (slot_at c i)) FLAG_MESSAGE_DISPATCH =? 0)); [done|]. injection Hu as <-.
    split_and!; [by rewrite Ht|done|done|]. cbn. by rewrite Ht, Hg.
  - intros u. cbn. rewrite Hpc, Hfl. destruct (flagged c i); [|done]. by left.
  - cbn. by rewrite Hpc.
Qed.

Lemma call_moves sp o e : ready (Spawn sp) -> call_step c sp o (pc sp) = Some e -> moves c b (Spawn sp) e.
Proof.
  intros Hrd. pose proof Hrd as [Ho Hr Hok Hn Hsl Hhi Hofb]. destruct sp as [ow gr sa cb ar q]. cbn [pc].
  destruct q as [| | | | | | | | | | | | |i w|i r| |i w|i| |i t w|i t w|i t w|i t w|i t w|i t r|i t w|i t w|i t]; try discriminate; cbn in Hok |- *.
  - intros [= <-]. quiet_move.
  - intros [= <-]. quiet_move. right. left. eauto.
  - destruct (Z.ltb_spec MAX_TID (next_tid c)); intros [= <-]; apply (moves_tid _ _ i); try done; cbn.
    + by left.
    + right. eexists. split_and!; [reflexivity|lia|done..].
    + apply elem_of_app. right. by apply list_elem_of_singleton.
  - intros [= <-]. apply moves_hold; cbn; try done; try (by left). by right.
  - intros [= <-]. quiet_move. right. left. eauto.
  - intros [= <-]. apply moves_hold; cbn; try done; try (by left).
    + left. apply (Ho i eq_refl).
    + by intros k [= <-].
    + split; [done|]. rewrite slot_at_same by (by apply Hr). done.
  - intros [= <-]. destruct Hok as [Hb Ht]. apply moves_hold; cbn; try done; try (by left).
    + left. apply (Ho i eq_refl).
    + by intros k [= <-].
    + rewrite !slot_at_same by (by apply Hr). done.
  - intros [= <-]. by apply (assign_moves (Spawner ow gr sa cb ar (SAssign i t w))).
  - destruct (flagged c i) eqn:Hfl; intros [= <-]; apply moves_quiet; cbn; rewrite ?Hfl; try done; try (by left); try tauto.
    + intros k [= <-]. apply Ho. cbn. by rewrite Hfl.
    + split; [|done]. apply list_elem_of_fmap. by eexists (_, _).
  - destruct (ok o); intros [= <-]; quiet_move. apply list_elem_of_fmap. eexists (_, _). split; [reflexivity|]. apply Hok.
  - destruct (release_step c i t r) as [[c' x] [q|y]] eqn:E; intros [= <-];
      eapply (release_moves (fun q => Spawn (Spawner ow gr sa cb ar (SRelease i t q))) (Spawn (Spawner ow gr sa cb ar SReady)) i t r
                _ _ _ [inr DispatchFailed]) in E; try done; cbn; try (by intros []); eauto.
  - intros [= <-]. quiet_move.
  - destruct w; intros [= <-]; quiet_move. right. right. eauto.
  - intros [= <-]. quiet_move. right. right. eauto.
Qed.

Lemma spawn_moves sp o e : ready (Spawn sp) -> spawn_step ms c sp o = Some e -> moves c b (Spawn sp) e.
Proof.
  intros Hrd H. unfold spawn_step in H.
  destruct (pc sp) eqn:E; rewrite <- E in H; eauto using scan_moves, grow_moves, claim_moves, call_moves.
Qed.

Lemma serve_moves i v o e : ready (Serve i v) -> serve_step c i v o = Some e -> moves c b (Serve i v) e.
Proof.
  intros Hrd. pose proof Hrd as [Ho Hr Hok Hn Hsl Hhi Hofb]. destruct Hok as [Hfl Hok]. destruct v as [| | | | | |t|t x| | | |r|]; try discriminate; cbn in Hok |- *.
  - destruct (argument o =? 0); intros [= <-]; [quiet_move|].
    destruct (decide (i < length (table c))%nat) as [Hi|Hi]; [|rewrite on_slot_outside by done; quiet_move].
    apply moves_write; cbn; try done; try (by left); try (by right).
    + intros H. split; [done|by left].
    + split; [|done]. transitivity (flagged c i); [by apply flagged_on_slot|done].
  - destruct (Z.eqb_spec (state_at c i) RETIRED), (Z.eqb_spec (state_at c i) ASSIGNED); intros [= <-]; quiet_move.
  - destruct (_ =? _); intros [= <-]; quiet_move.
  - unfold cas_state. destruct (Z.eqb_spec (state_at c i) ASSIGNED) as [E|E]; intros [= <-]; [|quiet_move].
    assert (Hs : slot_offer (slot_at c i) = Some (s_tid (slot_at c i)) /\ slot_open (slot_at c i) = true).
    { unfold slot_offer, slot_open, slot_flagged. unfold state_at in E. unfold flagged in Hfl. by rewrite E, Hfl. }
    destruct Hs as [Hof Hop]. assert (Hi : (i < length (table c))%nat) by (apply in_range; by rewrite E).
    apply moves_write; cbn; try done; try (by left); try (by right).
    + intros k [= <-]. split; [done|by right].
    + rewrite slot_at_same by done. intros t [= <-]. by right.
    + split; [transitivity (flagged c i); [by apply flagged_on_slot|done]|]. rewrite slot_at_same by done.
      apply (Hofb i). unfold offered. by rewrite E, Hfl.
  - intros [= <-]. quiet_move.
  - destruct Hok as [-> Hok]. intros [= <-]. quiet_move.
  - intros [= <-]. constructor; cbn; rewrite ?app_nil_r; try done; try tauto; try (by left).
    + intros k. by right.
    + intros k Hk. split; [|by left]. intros [= <-]. by rewrite Ho in Hk.
    + intros k u Hk. left. split; [done|]. intros [= <-]. apply open_offered in Hk. by rewrite Ho in Hk.
    + right. by exists t, x.
  - destruct (ok o); intros [= <-]; quiet_move.
  - unfold cas_state. destruct (_ =? _); intros [= <-].
    + apply moves_hold; cbn; try done; try (by left); [by right|].
      split; [|done]. transitivity (flagged c i); [by apply flagged_on_slot|done].
    + quiet_move.
  - intros [= <-]. quiet_move.
  - destruct r; cbn; intros [= <-]; [|quiet_move..].
    apply moves_retire; cbn; try done; try (by left).
    + intros k [= <-]. split; [done|]. by apply Ho.
    + split; [|done]. transitivity (flagged c i); [by apply flagged_on_slot|done].
Qed.

Lemma post_moves i t x q e : ready (Post i t x q) -> post_step c i t x q = Some e -> moves c b (Post i t x q) e.
Proof.
  intros Hrd. pose proof Hrd as [Ho Hr Hok Hn Hsl Hhi Hofb]. destruct Hok as [Hfl Hok]. destruct q as [| | |r|]; try discriminate; cbn.
  - intros [= <-]. constructor; cbn; rewrite ?app_nil_r; try done; try tauto; try (by left).
    + intros k. by right.
    + intros k Hk. split; [|by left]. intros [= <-]. by rewrite Ho in Hk.
    + intros k u Hk. left. split; [done|]. intros [= <-]. apply open_offered in Hk. by rewrite Ho in Hk.
    + right. exists t, (to_int32 x). split_and!; auto.
  - intros [= <-]. quiet_move.
  - intros [= <-]. quiet_move.
  - destruct (release_step c i t r) as [[c' w] [q|y]] eqn:E; intros [= <-];
      eapply (release_moves (fun q => Post i t x (PRelease q)) (Post i t x PEnd) i t r _ _ _ []) in E; try done; cbn; try (by intros []); eauto.
Qed.

Lemma retire_moves i r e : ready (Retire i r) -> agent_step ms c (Retire i r) (Answer 0 0 true 0) = Some e -> moves c b (Retire i r) e.
Proof. destruct r as [[]|]; cbn; intros Hrd; [intros [= <-]; by apply moves_retire; try left|intros [= <-]; quiet_move..|done]. Qed.

Lemma agent_moves a o e : ready a -> agent_step ms c a o = Some e -> moves c b a e.
Proof.
  intros Hrd. destruct a as [sp|i v|i t x q|i r]; [by apply spawn_moves|by apply serve_moves|by apply post_moves|].
  intros H. by apply retire_moves.
Qed.
End agent_moves.

(** ** The invariant holds in every reachable state *)

Lemma inv_ready p j a : inv p -> agents p !! j = Some a -> next_tid (ctl p) < 2 ^ 31 - 1 -> ready (ctl p) (born p) a.
Proof.
  intros H Hj Hn. assert (Hh : forall i, held (ctl p) a = Some i -> holder p j = Some i) by (intros i; unfold holder; by rewrite Hj).
  pose proof (inv_slots _ H). constructor.
  - intros i Hi%Hh. destruct (open (ctl p) i) eqn:E; [|done]. by destruct (inv_open _ H i j).
  - intros i Hi%Hh%(inv_low _ H). unfold blen in *. lia.
  - by apply (inv_agents _ H) with j.
  - pose proof (inv_next _ H). lia.
  - lia.
  - apply (inv_high _ H).
  - apply (inv_offers _ H).
Qed.

(** The agents a step creates: a worker for a new slot, or a message. *)
Lemma new_agents ms c a o e : agent_step ms c a o = Some e ->
  e_new e = [] \/
  (exists sp i w, a = Spawn sp /\ pc sp = SGrow i w /\ e_ctl e = c /\ e_new e = [Serve i VEnter] /\ e_born e = []) \/
  (exists sp i t w, a = Spawn sp /\ pc sp = SDispatch i t w /\ e_ctl e = c /\ e_new e = [Post i t (startArg sp) PPosted] /\
     held c (e_agent e) = None /\ carried c (e_agent e) = None /\ e_ran e = [] /\ e_born e = []).
Proof.
  destruct a as [sp|i v|i t x q|i r]; cbn; intros H.
  - destruct sp as [ow gr sa cb ar q]. unfold spawn_step in H. cbn [pc] in H.
    destruct q as [| | | | | | | | | | | | |i w|i r| |i w|i| |i t w|i t w|i t w|i t w|i t w|i t r|i t w|i t w|i t]; cbn in H;
      try (left; unfold cas_state in H; repeat match type of H with context [if ?x then _ else _] => destruct x end; by injection H as <-).
    + destruct (ok o); injection H as <-; [|by left]. right. left. by eexists _, i, w.
    + left. destruct r; cbn in H; by injection H as <-.
    + destruct (ok o); injection H as <-; [|by left]. right. right. by eexists _, i, t, w.
    + left. destruct (release_step c i t r) as [[? ?] [?|?]]; by injection H as <-.
  - left. destruct v; cbn in H; unfold cas_state in H; repeat match type of H with context [if ?x then _ else _] => destruct x end;
      try discriminate; try (by injection H as <-). destruct r; cbn in H; by injection H as <-.
  - left. destruct q as [| | |r|]; cbn in H; try discriminate; try (by injection H as <-).
    destruct (release_step c i t r) as [[? ?] [?|?]]; by injection H as <-.
  - left. destruct r as [[]|]; cbn in H; try discriminate; by injection H as <-.
Qed.

Lemma move_inv ms p j a o e : inv p -> next_tid (ctl p) < 2 ^ 31 - 1 -> agents p !! j = Some a -> agent_step ms (ctl p) a o = Some e ->
  inv (Process (e_ctl e) (<[j := e_agent e]> (agents p) ++ e_new e) (born p ++ e_born e) (ran p ++ e_ran e) (results p ++ e_results e)).
Proof.
  intros H Hn Hj He. pose proof (agent_moves ms _ _ _ o e (inv_ready _ _ _ H Hj Hn) He) as Hmv.
  pose proof (inv_move p j a e H Hj Hmv) as H'. pose proof (inv_agents _ H j a Hj) as Hok.
  destruct (new_agents ms _ _ o e He) as [->|[(sp & i & w & -> & Hpc & Hc & -> & Hb)|
    (sp & i & t & w & -> & Hpc & Hc & -> & Hh & Hca & Hr & Hb)]].
  - by rewrite app_nil_r.
  - apply (inv_spawned (moved p j e)); try done. cbn. rewrite Hc. cbn in Hok. by rewrite Hpc in Hok.
  - cbn in Hok. rewrite Hpc in Hok. destruct Hok as [Hin Hfl].
    assert (Hi : holder p j = Some i) by (unfold holder; rewrite Hj; cbn; by rewrite Hpc).
    assert (Ht : carrier p (inl j) = Some t) by (cbn; rewrite Hj; cbn; by rewrite Hpc).
    apply (inv_spawned (moved p j e)); try done; cbn [moved ctl born ran results]; rewrite ?Hc, ?Hb, ?Hr, ?app_nil_r.
    + cbn. split; [done|]. done.
    + intros k [= <-]. split_and!.
      * intros k Hk. rewrite (holder_moved p j (Spawn sp)) in Hk by done. rewrite Hc in Hk. destruct (decide (k = j)) as [->|Hne]; [congruence|].
        by pose proof (inv_holder _ H _ _ _ Hk Hi).
      * destruct (open (ctl p) i) eqn:E; [|done]. by destruct (inv_open _ H i j).
      * by apply (inv_low _ H j).
    + intros u [= <-]. split; [|by apply (inv_waiting _ H (inl j))].
      intros x Hx. rewrite (carrier_moved p j (Spawn sp)) in Hx by done. rewrite Hc in Hx. destruct x as [k|k].
      * destruct (decide (k = j)) as [->|Hne]; [congruence|]. pose proof (inv_carrier _ H _ _ _ Hx Ht). congruence.
      * by pose proof (inv_carrier _ H (inr k) (inl j) t Hx Ht).
Qed.

Lemma step_inv ms ch p p' : inv p -> next_tid (ctl p) < 2 ^ 31 - 1 -> step ms ch p = Some p' -> inv p'.
Proof.
  intros H Hn. destruct ch as [j o|i|ow gr]; cbn.
  - destruct (agents p !! j) as [a|] eqn:Hj; [|done]. destruct (agent_step ms (ctl p) a o) as [e|] eqn:He; [|done].
    intros [= <-]. pose proof (move_inv ms p j a o e H Hn Hj He) as H'. by apply (inv_wake (e_wakes e)) in H'.
  - intros [= <-]. by apply inv_spawned.
  - intros [= <-]. by apply inv_spawned.
Qed.

(** The steps that draw a thread id from the shared counter, and how many of them a run has. *)
Definition draws_now (p : process) (ch : choice) : bool :=
  match ch with
  | Move j _ => match agents p !! j with Some (Spawn sp) => match pc sp with STid _ _ => true | _ => false end | _ => false end
  | _ => false
  end.
Fixpoint draws (ms : Q) (cs : list choice) (p : process) : Z :=
  match cs with
  | [] => 0
  | ch :: cs => (if draws_now p ch then 1 else 0) + match step ms ch p with Some p' => draws ms cs p' | None => 0 end
  end.

Lemma draws_bound ms cs : forall p, 0 <= draws ms cs p <= blen cs.
Proof.
  induction cs as [|ch cs IH]; intros p; cbn [draws]; [unfold blen; cbn; lia|]. rewrite blen_cons. pose proof (blen_nonneg cs).
  destruct (step ms ch p) as [q|]; [specialize (IH q)|]; destruct (draws_now p ch); lia.
Qed.

(** Only a draw moves the counter. *)
Lemma step_next ms ch p p' : 1 <= next_tid (ctl p) < 2 ^ 31 - 1 -> inv p -> step ms ch p = Some p' ->
  next_tid (ctl p') <= next_tid (ctl p) + (if draws_now p ch then 1 else 0).
Proof.
  intros Hn H. destruct ch as [j o|i|ow gr]; cbn; [|intros [= <-]; cbn; lia..].
  destruct (agents p !! j) as [a|] eqn:Hj; [|done]. destruct (agent_step ms (ctl p) a o) as [e|] eqn:He; [|done].
  intros [= <-]. cbn. clear -He Hn. destruct a as [sp|i v|i t x q|i r]; cbn in He.
  - destruct sp as [ow gr sa cb ar q]. unfold spawn_step in He. cbn [pc] in He.
    destruct q as [| | | | | | | | | | | | |i w|i r| |i w|i| |i t w|i t w|i t w|i t w|i t w|i t r|i t w|i t w|i t]; cbn in He;
      try (unfold cas_state in He; repeat match type of He with context [if ?x then _ else _] => destruct x end;
           injection He as <-; cbn; rewrite ?to_int32_small by lia; lia).
    + destruct r; cbn in He; injection He as <-; cbn; lia.
    + destruct r; cbn in He; unfold cas_state in He; repeat match type of He with context [if ?x then _ else _] => destruct x end;
        injection He as <-; cbn; lia.
  - destruct v; cbn in He; unfold cas_state in He; repeat match type of He with context [if ?x then _ else _] => destruct x end;
      try discriminate; try (injection He as <-; cbn; lia). destruct r; cbn in He; injection He as <-; cbn; lia.
  - destruct q as [| | |r|]; cbn in He; try discriminate; try (injection He as <-; cbn; lia).
    destruct r; cbn in He; unfold cas_state in He; repeat match type of He with context [if ?x then _ else _] => destruct x end;
      injection He as <-; cbn; lia.
  - destruct r as [[]|]; cbn in He; try discriminate; injection He as <-; cbn; lia.
Qed.

Definition armed (arm : option bool) (s : slot) : slot :=
  match arm with
  | Some md => store_state IDLE (if md then store_flags FLAG_MESSAGE_DISPATCH s else s)
  | None => store_state RETIRED s
  end.

Lemma arm_one c i arm : (i < length (table c))%nat ->
  let c' := match arm with Some md => armWasiThreadPoolSlot c i md | None => retireWasiThreadPoolSlot c i end in
  (forall k, slot_at c' k = if decide (k = i) then armed arm (slot_at c i) else slot_at c k) /\
  length (table c') = length (table c) /\ slots c' = slots c /\ capacity c' = capacity c /\ next_tid c' = next_tid c.
Proof.
  intros Hi. destruct arm as [[|]|]; cbn; (split; [|by rewrite ?length_alter]); intros k;
    change (slot_at (setState ?x i ?s) k) with (slot_at (on_slot (store_state s) i x) k);
    unfold armWasiThreadPoolSlot, retireWasiThreadPoolSlot, setState;
    match goal with |- slot_at (add_generation ?x) k = _ => change (slot_at (add_generation x) k) with (slot_at x k) end;
    (destruct (decide (k = i)) as [->|Hne]; [|by rewrite ?slot_at_other]);
    rewrite ?slot_at_same by (cbn; rewrite ?length_alter; done); done.
Qed.

Lemma arm_all_slots arms : forall k c, (k + length arms <= length (table c))%nat ->
  let c' := arm_all k arms c in
  (forall i, slot_at c' i = match (if decide (k <= i)%nat then arms !! (i - k)%nat else None) with
                            | Some arm => armed arm (slot_at c i) | None => slot_at c i end) /\
  length (table c') = length (table c) /\ slots c' = slots c /\ capacity c' = capacity c /\ next_tid c' = next_tid c.
Proof.
  induction arms as [|arm arms IH]; intros k c Hk; cbn [arm_all length] in *.
  - split; [|done]. intros i. by destruct (decide _); rewrite ?lookup_nil.
  - assert (Hi : (k < length (table c))%nat) by lia.
    pose proof (arm_one c k arm Hi) as (Hs & Hl & H1 & H2 & H3).
    set (c1 := match arm with Some md => armWasiThreadPoolSlot c k md | None => retireWasiThreadPoolSlot c k end) in *.
    specialize (IH (S k) c1) as (IHs & IHl & IH1 & IH2 & IH3); [rewrite Hl; lia|].
    assert (E : (match arm with Some md => arm_all (S k) arms (armWasiThreadPoolSlot c k md)
                 | None => arm_all (S k) arms (retireWasiThreadPoolSlot c k) end) = arm_all (S k) arms c1) by (by destruct arm).
    rewrite E. split; [|rewrite IHl, IH1, IH2, IH3; done]. intros i. rewrite IHs, Hs.
    destruct (decide (i = k)) as [->|Hne].
    + rewrite (decide_False (P := (S k <= k)%nat)) by lia. rewrite decide_True by lia. by rewrite Nat.sub_diag.
    + destruct (decide (k <= i)%nat); [|by rewrite decide_False by lia].
      rewrite decide_True by lia. replace (i - k)%nat with (S (i - S k)) by lia. done.
Qed.

Lemma first_workers_ok arms a : a ∈ first_workers arms -> exists i, a = Serve i VEnter /\ arms !! i = Some (Some false).
Proof.
  unfold first_workers. intros Ha. apply list_elem_of_In, in_concat in Ha as (l & Hl & Ha).
  apply list_elem_of_In, elem_of_lookup_imap in Hl as (i & arm & -> & Hi).
  destruct arm as [[]|]; cbn in Ha; try done. destruct Ha as [<-|[]]. by exists i.
Qed.

Lemma start_inv n arms : 0 <= n -> blen arms <= n -> inv (start n arms).
Proof.
  intros Hn Ha. unfold start. set (c0 := openWasiThreadPoolSlots _ _).
  assert (Hz : forall i, slot_at c0 i = zero_slot).
  { intros i. unfold slot_at, c0. cbn. destruct (repeat _ _ !! i) as [s|] eqn:E; [|done].
    apply list_elem_of_lookup_2, list_elem_of_In, repeat_spec in E. by subst. }
  assert (Hl : (length (table c0) = Z.to_nat n)%nat) by (unfold c0; cbn; apply repeat_length).
  destruct (arm_all_slots arms 0 c0) as (Hs & Hlen & H1 & H2 & H3); [rewrite Hl; unfold blen in Ha; lia|].
  set (c := arm_all 0 arms c0) in *. cbn [slots capacity next_tid c0 openWasiThreadPoolSlots set_slots] in H1, H2, H3.
  assert (Hsl : forall i, slot_at c i = match arms !! i with Some arm => armed arm zero_slot | None => zero_slot end).
  { intros i. rewrite Hs, Hz. rewrite decide_True by lia. by rewrite Nat.sub_0_r. }
  assert (Hst : forall i, state_at c i = match arms !! i with Some (Some _) => IDLE | Some None => RETIRED | None => PENDING end).
  { intros i. unfold state_at. rewrite Hsl. by destruct (arms !! i) as [[[]|]|]. }
  assert (Hno : forall i, offered c i = None) by (intros i; unfold offered; rewrite Hst; by destruct (arms !! i) as [[[]|]|]).
  assert (Hag : forall j a, first_workers arms !! j = Some a -> exists i, a = Serve i VEnter /\ flagged c i = false).
  { intros j a Hj. apply list_elem_of_lookup_2, first_workers_ok in Hj as (i & -> & Hi). exists i. split; [done|].
    unfold flagged. by rewrite Hsl, Hi. }
  assert (Hhold : forall j, holder (Process c (first_workers arms) [] [] []) j = None).
  { intros j. unfold holder. cbn. destruct (first_workers arms !! j) as [a|] eqn:E; [|done]. by destruct (Hag _ _ E) as (i & -> & _). }
  assert (Hcar : forall x, carrier (Process c (first_workers arms) [] [] []) x = None).
  { intros [j|i]; cbn; [|apply Hno]. destruct (first_workers arms !! j) as [a|] eqn:E; [|done]. by destruct (Hag _ _ E) as (i & -> & _). }
  assert (Hcal : forall j, caller (Process c (first_workers arms) [] [] []) j = None).
  { intros j. unfold caller. cbn. destruct (first_workers arms !! j) as [a|] eqn:E; [|done]. by destruct (Hag _ _ E) as (i & -> & _). }
  constructor; cbn [ctl agents born ran results]; try done.
  - rewrite H1, H2. unfold blen at 3. rewrite Hlen, Hl. split; [split; [apply blen_nonneg|done]|lia].
  - rewrite H1. intros i Hi. assert (E : arms !! i = None) by (apply lookup_ge_None_2; unfold blen in Hi; lia).
    unfold open, flagged. rewrite Hst, Hsl, E. done.
  - intros j k i. by rewrite Hhold.
  - intros i j _. by rewrite Hhold.
  - intros j i. by rewrite Hhold.
  - intros j a E. by destruct (Hag _ _ E) as (i & -> & Hf).
  - intros i t. by rewrite Hno.
  - intros x y t. by rewrite Hcar.
  - intros x t. by rewrite Hcar.
  - intros j k t. by rewrite Hcal.
  - intros j t. by rewrite Hcal.
  - rewrite H3. lia.
  - split; constructor.
  - split; [constructor|done].
  - split; [constructor|]. intros t ?%elem_of_nil. done.
Qed.

Lemma run_inv ms cs : forall p p', inv p -> next_tid (ctl p) + draws ms cs p < 2 ^ 31 - 1 -> run ms cs p = Some p' -> inv p'.
Proof.
  induction cs as [|ch cs IH]; intros p p' H Hn; cbn [run]; [by intros [= <-]|]. cbn [draws] in Hn.
  destruct (step ms ch p) as [q|] eqn:E; [|done]. pose proof (draws_bound ms cs q). pose proof (inv_next _ H).
  assert (Hlt : next_tid (ctl p) < 2 ^ 31 - 1) by (destruct (draws_now p ch); lia).
  apply IH; [by eapply step_inv|]. pose proof (step_next ms ch p q ltac:(lia) H E). lia.
Qed.

Lemma start_next n arms : 0 <= n -> blen arms <= n -> next_tid (ctl (start n arms)) = 1.
Proof. intros Hn Ha. cbn. apply (arm_all_slots arms 0). cbn. rewrite repeat_length. unfold blen in Ha. lia. Qed.

Lemma run_from_start ms n arms cs p : 0 <= n -> blen arms <= n -> draws ms cs (start n arms) < 2 ^ 31 - 2 -> run ms cs (start n arms) = Some p -> inv p.
Proof.
  intros Hn Ha Hd Hr. apply (run_inv ms cs (start n arms)); [by apply start_inv| |done]. rewrite start_next by done. lia.
Qed.

Lemma reachable_inv ms n arms k p : 0 <= n -> blen arms <= n -> Z.of_nat k < 2 ^ 31 - 2 -> reachable ms n arms k p -> inv p.
Proof.
  intros Hn Ha Hk (cs & Hl & Hr). apply (run_from_start ms n arms cs); [done..| |done]. pose proof (draws_bound ms cs (start n arms)). unfold blen in *. lia.
Qed.

(** ** No lost wake-up *)

(** The agent's next step but one at most notifies slot [k]. *)
Definition notifies (k : nat) (a : agent) : Prop :=
  match a with
  | Spawn sp => match pc sp with SFlags i _ _ | SNotify i _ _ | SRetire i TNotify => i = k | _ => False end
  | Serve i (VRetire TNotify) | Retire i (Some TNotify) => i = k
  | _ => False
  end.

Definition awake (p : process) : Prop := forall j k st, agents p !! j = Some (Serve k (VBlocked st)) ->
  state_at (ctl p) k = ASSIGNED \/ state_at (ctl p) k = RETIRED -> exists l a, agents p !! l = Some a /\ notifies k a.

Lemma state_on_slot f i k c : state_at (on_slot f i c) k = state_at c k \/ (i = k /\ state_at (on_slot f i c) k = s_state (f (slot_at c k))).
Proof.
  destruct (decide (i = k)) as [->|Hne]; [|left; unfold state_at; by rewrite slot_at_other].
  destruct (decide (k < length (table c))%nat); [right; unfold state_at; by rewrite slot_at_same|left; by rewrite on_slot_outside].
Qed.

(** A step that assigns or retires a slot leaves its agent about to notify it. *)
Lemma writer_notifies ms c a o e k : agent_step ms c a o = Some e ->
  state_at (e_ctl e) k = ASSIGNED \/ state_at (e_ctl e) k = RETIRED -> state_at (e_ctl e) k = state_at c k \/ notifies k (e_agent e).
Proof.
  assert (Hw : forall st i (P : Prop), (st = ASSIGNED \/ st = RETIRED -> i = k -> P) ->
    state_at (on_slot (store_state st) i c) k = ASSIGNED \/ state_at (on_slot (store_state st) i c) k = RETIRED ->
    state_at (on_slot (store_state st) i c) k = state_at c k \/ P).
  { intros st i P HP Hs. destruct (state_on_slot (store_state st) i k c) as [E|[-> E]]; [by left|right]. apply HP; [|done]. by rewrite E in Hs. }
  assert (Hd : forall f i, (forall s, s_state (f s) = s_state s) -> state_at (on_slot f i c) k = state_at c k).
  { intros f i Hf. unfold state_at. by rewrite (slot_at_field s_state). }
  assert (Hr : forall i t r P, (state_at (release_step c i t r).1.1 k = ASSIGNED \/ state_at (release_step c i t r).1.1 k = RETIRED) ->
    state_at (release_step c i t r).1.1 k = state_at c k \/ P).
  { intros i t r P. destruct r; cbn; try (by left). unfold cas_state. destruct (_ =? _); cbn; [apply Hw; by intros [?|?]|by left]. }
  destruct a as [sp|i v|i t x q|i r]; cbn; intros H.
  - destruct sp as [ow gr sa cb ar q]. unfold spawn_step in H. cbn [pc] in H.
    destruct q as [| | | | | | | | | | | |i w|i w|i r| |i w|i| |i t w|i t w|i t w|i t w|i t w|i t r|i t w|i t w|i t]; cbn in H;
      try (unfold cas_state in H; repeat match type of H with context [if ?x then _ else _] => destruct x end; injection H as <-; cbn;
           first [by left|intros _; left; by apply Hd|apply Hw; cbn; intros [?|?]; done]).
    + destruct r; cbn in H; injection H as <-; cbn; [by apply Hw|by left..].
    + specialize (Hr i t r). destruct (release_step c i t r) as [[c' x] [y|y]]; injection H as <-; apply Hr.
  - destruct v; cbn in H; unfold cas_state in H; repeat match type of H with context [if ?x then _ else _] => destruct x end;
      try discriminate; try (injection H as <-; cbn; first [by left|intros _; left; by apply Hd|apply Hw; cbn; intros [?|?]; done]).
    destruct r; cbn in H; injection H as <-; cbn; [by apply Hw|by left..].
  - destruct q as [| | |r|]; cbn in H; try discriminate; try (injection H as <-; by left).
    specialize (Hr i t r). destruct (release_step c i t r) as [[c' y] [z|z]]; injection H as <-; apply Hr.
  - destruct r as [[]|]; cbn in H; try discriminate; injection H as <-; cbn; [by apply Hw|by left..].
Qed.

(** An agent that is about to notify a slot does so, or is still about to. *)
Lemma notifier_step ms c a o e k : notifies k a -> flagged c k = false -> agent_step ms c a o = Some e ->
  notifies k (e_agent e) \/ e_wakes e = OnSlot k.
Proof.
  intros Hn Hf H. destruct a as [sp|i v|i t x q|i r]; cbn in Hn.
  - destruct sp as [ow gr sa cb ar q]. cbn in *. unfold spawn_step in H. cbn [pc] in H. destruct q; try done.
    + destruct r; try done. subst. cbn in H. injection H as <-. by right.
    + subst. cbn in H. rewrite Hf in H. injection H as <-. by left.
    + subst. injection H as <-. by right.
  - destruct v; try done. destruct r; try done. subst. injection H as <-. by right.
  - done.
  - destruct r as [[]|]; try done. subst. injection H as <-. by right.
Qed.

Lemma wake_notifies w k a : notifies k a -> notifies k (wake w a).
Proof. destruct w; [done| |]; destruct a as [[? ? ? ? ? []]|? []| |]; cbn; try done; try (by destruct (decide _)); auto. Qed.

Lemma wake_blocked w a k st : wake w a = Serve k (VBlocked st) -> a = Serve k (VBlocked st) /\ w <> OnSlot k.
Proof.
  destruct w as [|i|]; cbn; [done| |].
  - destruct a as [sp|k' v|k' t x q|k' r]; try done. destruct v; try done. destruct (decide (i = k')); [done|]. intros [= -> ->]. split; [done|congruence].
  - destruct a as [[? ? ? ? ? q]|k' v|k' t x q|k' r]; try done. by destruct q.
Qed.

(** Only a worker that saw the state it waits on falls asleep. *)
Lemma falls_asleep ms c a o e k st : agent_step ms c a o = Some e -> e_agent e = Serve k (VBlocked st) ->
  a = Serve k (VWait st) /\ e_ctl e = c /\ state_at c k = st.
Proof.
  destruct a as [sp|i v|i t x q|i r]; cbn; intros H He.
  - destruct sp as [ow gr sa cb ar q]. unfold spawn_step in H. cbn [pc] in H. exfalso.
    destruct q as [| | | | | | | | | | | |i w|i w|i r| |i w|i| |i t w|i t w|i t w|i t w|i t w|i t r|i t w|i t w|i t]; cbn in H;
      try (unfold cas_state in H; repeat match type of H with context [if ?x then _ else _] => destruct x end; by injection H as <-).
    + destruct r; cbn in H; by injection H as <-.
    + destruct (release_step c i t r) as [[c' x] [y|y]]; by injection H as <-.
  - destruct v; cbn in H; unfold cas_state in H; repeat match type of H with context [if ?x then _ else _] => destruct x eqn:? end;
      try discriminate; try (by injection H as <-).
    + injection H as <-. cbn in He. injection He as -> ->. split_and!; [done|done|lia].
    + destruct r; cbn in H; by injection H as <-.
  - destruct q as [| | |r|]; cbn in H; try discriminate; try (by injection H as <-).
    destruct (release_step c i t r) as [[c' y] [z|z]]; by injection H as <-.
  - destruct r as [[]|]; cbn in H; try discriminate; by injection H as <-.
Qed.

Lemma step_awake ms ch p p' : inv p -> awake p -> step ms ch p = Some p' -> awake p'.
Proof.
  intros H Ha. destruct ch as [j o|i|ow gr]; cbn.
  - destruct (agents p !! j) as [a|] eqn:Hj; [|done]. destruct (agent_step ms (ctl p) a o) as [e|] eqn:He; [|done].
    intros [= <-]. intros l k st. cbn. rewrite list_lookup_fmap.
    destruct ((<[j:=e_agent e]> (agents p) ++ e_new e) !! l) as [b|] eqn:Hl; [|done]. intros [= Hb].
    apply wake_blocked in Hb as [-> Hw]. intros Hst.
    assert (Hmine : <[j:=e_agent e]> (agents p) !! j = Some (e_agent e)) by (apply list_lookup_insert_eq; by eapply lookup_lt_Some).
    assert (Hkeep : forall q b, <[j:=e_agent e]> (agents p) !! q = Some b -> notifies k b ->
      exists l0 a0, (wake (e_wakes e) <$> (<[j:=e_agent e]> (agents p) ++ e_new e)) !! l0 = Some a0 /\ notifies k a0).
    { intros q b Hq Hb. exists q, (wake (e_wakes e) b). split; [|by apply wake_notifies].
      rewrite list_lookup_fmap, lookup_app_l by (by eapply lookup_lt_Some). by rewrite Hq. }
    destruct (writer_notifies ms _ _ _ _ k He Hst) as [Hsame|Hn]; [|by apply (Hkeep j (e_agent e))].
    rewrite Hsame in Hst.
    assert (Hold : agents p !! l = Some (Serve k (VBlocked st))).
    { apply lookup_app_Some in Hl as [Hl|[Hge Hl]].
      - destruct (decide (l = j)) as [->|Hne]; [|by rewrite list_lookup_insert_ne in Hl].
        rewrite Hmine in Hl. injection Hl as Hl. destruct (falls_asleep _ _ _ _ _ _ _ He Hl) as (-> & _ & Hs).
        pose proof (inv_agents _ H j _ Hj) as [_ Hok]. cbn in Hok. destruct Hok, Hst; congruence.
      - destruct (new_agents ms _ _ o e He) as [E|[(sp & i & w & _ & _ & _ & E & _)|(sp & i & t & w & _ & _ & _ & E & _)]];
          rewrite E in Hl; [by rewrite lookup_nil in Hl|by apply list_lookup_singleton_Some in Hl as [_ ?]..]. }
    destruct (Ha l k st Hold Hst) as (q & b & Hq & Hn). destruct (decide (q = j)) as [->|Hne].
    + rewrite Hj in Hq. injection Hq as <-. pose proof (inv_agents _ H l _ Hold) as [Hf _].
      destruct (notifier_step ms _ _ _ _ k Hn Hf He) as [Hn'|?]; [|done]. by apply (Hkeep j (e_agent e)).
    + apply (Hkeep q b); [|done]. by rewrite list_lookup_insert_ne.
  - intros [= <-] l k st. cbn. intros [Hl|[_ [_ Hl]%list_lookup_singleton_Some]]%lookup_app_Some Hst; [|done].
    destruct (Ha l k st Hl Hst) as (q & b & Hq & Hn). exists q, b. split; [|done]. by apply lookup_app_l_Some.
  - intros [= <-] l k st. cbn. intros [Hl|[_ [_ Hl]%list_lookup_singleton_Some]]%lookup_app_Some Hst; [|done].
    destruct (Ha l k st Hl Hst) as (q & b & Hq & Hn). exists q, b. split; [|done]. by apply lookup_app_l_Some.
Qed.

Lemma run_awake ms cs : forall p p', inv p -> awake p -> next_tid (ctl p) + blen cs < 2 ^ 31 - 1 -> run ms cs p = Some p' -> awake p'.
Proof.
  induction cs as [|ch cs IH]; intros p p' H Ha Hn; cbn [run]; [by intros [= <-]|].
  destruct (step ms ch p) as [q|] eqn:E; [|done]. rewrite blen_cons in Hn. pose proof (blen_nonneg cs). pose proof (inv_next _ H).
  apply IH; [eapply step_inv; [exact H|lia|exact E]|by eapply step_awake|]. pose proof (step_next ms ch p q ltac:(lia) H E). destruct (draws_now p ch); lia.
Qed.

(** ** Results *)

Definition returned (p : process) : list Z := omap (fun r => match r with inl t => Some t | inr _ => None end) (results p).

(** C17. In every interleaving of spawners, workers, messages and retirements of a pool that draws fewer than 2^31 - 2 numbers from the counter of thread ids,
    however many steps it has, the ids handed out lie between 1 and 2^29 - 1 and are never reused (a spawn that draws a larger number hands nothing out), a
    spawn call returns an id of its own, and a started thread has the id and the argument of one spawn call and is started at most once. The counter wraps
    after the bound, and ids are then no longer kept in range ([wrapped_tid_is_handed_out]). *)
Theorem threads_start_once ms n arms cs p : 0 <= n -> blen arms <= n -> run ms cs (start n arms) = Some p -> draws ms cs (start n arms) < 2 ^ 31 - 2 ->
  NoDup (tids (born p)) /\ Forall (fun t => 1 <= t <= 0x1fffffff) (tids (born p)) /\
  NoDup (returned p) /\ returned p ⊆ tids (born p) /\
  NoDup (tids (ran p)) /\ ran p ⊆ born p.
Proof.
  intros Hn Ha Hr Hd. pose proof (run_from_start _ _ _ _ _ Hn Ha Hd Hr) as H.
  destruct (inv_born _ H) as [H1 H2], (inv_results _ H) as [H3 H4], (inv_ran _ H) as [H5 H6]. split_and!; try done.
  - eapply list.Forall_impl; [exact H2|]. intros t Ht. cbv beta in *. unfold MAX_TID in Ht. lia.
  - intros t Ht. apply list_elem_of_omap in Ht as ([u|] & Hu & [= ->]). by apply H4.
Qed.

(** No two threads ever have the same slot to themselves, and nobody has a slot that is idle: a
    claim, an assignment, a run and a release of a slot never interfere. *)
Theorem slots_are_exclusive ms n arms k p : 0 <= n -> blen arms <= n -> Z.of_nat k < 2 ^ 31 - 2 -> reachable ms n arms k p ->
  forall i j a, agents p !! j = Some a -> held (ctl p) a = Some i ->
    state_at (ctl p) i <> IDLE /\ forall l b, agents p !! l = Some b -> held (ctl p) b = Some i -> l = j.
Proof.
  intros Hn Ha Hk Hr i j a Hj Hh. pose proof (reachable_inv _ _ _ _ _ Hn Ha Hk Hr) as H.
  assert (Hji : holder p j = Some i) by (unfold holder; by rewrite Hj). split.
  - intros E. apply (inv_open _ H i j); [|done]. unfold open. by rewrite E.
  - intros l b Hl Hb. apply (inv_holder _ H l j i); [|done]. unfold holder. by rewrite Hl.
Qed.

(** C18. No wake-up is lost: a worker that sleeps on its slot while a thread is assigned to it, or
    while it is retired, is about to be notified. *)
Theorem assigned_worker_is_woken ms n arms k p : 0 <= n -> blen arms <= n -> Z.of_nat k < 2 ^ 31 - 2 -> reachable ms n arms k p ->
  forall j i st, agents p !! j = Some (Serve i (VBlocked st)) ->
    state_at (ctl p) i = ASSIGNED \/ state_at (ctl p) i = RETIRED -> exists l a, agents p !! l = Some a /\ notifies i a.
Proof.
  intros Hn Ha Hk (cs & Hl & Hr). apply (run_awake ms cs (start n arms)); [by apply start_inv| | |done].
  - intros j i st Hj. cbn in Hj. by apply list_elem_of_lookup_2, first_workers_ok in Hj as (i' & ? & _).
  - rewrite start_next by done. unfold blen. lia.
Qed.

(** ** Examples *)

Definition yes (x : Z) : answer := Answer 0 0 true x.
Definition moves_of (j : nat) (n : nat) : list choice := repeat (Move j (yes 7)) n.

(** A pool of one worker: a call spawns a thread, and the worker wakes up and runs it. *)
Definition one_thread : list choice :=
  moves_of 0 3 ++ [NewThread true false] ++ moves_of 1 11 ++ moves_of 0 5.

Lemma threads_start_once_witness :
  exists p, run 250 one_thread (start 1 [Some false]) = Some p /\ returned p = [1] /\ ran p = [(1, 7)] /\
    draws 250 one_thread (start 1 [Some false]) = 1 /\
    (NoDup (tids (born p)) /\ Forall (fun t => 1 <= t <= 0x1fffffff) (tids (born p)) /\
     NoDup (returned p) /\ returned p ⊆ tids (born p) /\ NoDup (tids (ran p)) /\ ran p ⊆ born p).
Proof.
  eexists. split; [vm_compute; reflexivity|]. split; [reflexivity|]. split; [reflexivity|]. split; [vm_compute; reflexivity|].
  apply (threads_start_once 250 1 [Some false] one_thread); [lia|vm_compute; discriminate|vm_compute; reflexivity|vm_compute; reflexivity].
Defined.

Lemma slots_are_exclusive_witness :
  exists p, run 250 (moves_of 0 3 ++ [NewThread true false] ++ moves_of 1 4) (start 1 [Some false]) = Some p /\
    state_at (ctl p) 0 = CLAIMED /\
    (state_at (ctl p) 0 <> IDLE /\ forall l b, agents p !! l = Some b -> held (ctl p) b = Some 0%nat -> l = 1%nat).
Proof.
  eexists. split; [vm_compute; reflexivity|]. split; [reflexivity|].
  eapply (slots_are_exclusive 250 1 [Some false] 8); [lia|vm_compute; discriminate|vm_compute; reflexivity| |reflexivity|reflexivity].
  exists (moves_of 0 3 ++ [NewThread true false] ++ moves_of 1 4). split; [reflexivity|vm_compute; reflexivity].
Defined.

Lemma assigned_worker_is_woken_witness :
  exists p, run 250 (moves_of 0 3 ++ [NewThread true false] ++ moves_of 1 8) (start 1 [Some false]) = Some p /\
    state_at (ctl p) 0 = ASSIGNED /\ exists l a, agents p !! l = Some a /\ notifies 0 a.
Proof.
  eexists. split; [vm_compute; reflexivity|]. split; [reflexivity|].
  eapply (assigned_worker_is_woken 250 1 [Some false] 12 _ ltac:(lia)) with (j := 0%nat);
    [vm_compute; discriminate|vm_compute; reflexivity| |reflexivity|left; reflexivity].
  exists (moves_of 0 3 ++ [NewThread true false] ++ moves_of 1 8). split; [reflexivity|vm_compute; reflexivity].
Defined.

(** A slot that is retired while a spawner holds it serves again: the spawner's store of ASSIGNED
    overwrites RETIRED. Here the worker saw RETIRED and returned, the call still returns the
    thread id 1, and nobody is left to run thread 1. *)
Theorem retired_slot_takes_a_thread :
  exists cs p, run 250 cs (start 1 [Some false]) = Some p /\
    RetireSlot 0 ∈ cs /\ returned p = [1] /\ ran p = [] /\ state_at (ctl p) 0 = ASSIGNED /\
    agents p !! 0%nat = Some (Serve 0 VReturned).
Proof.
  exists (moves_of 0 3 ++ [NewThread true false] ++ moves_of 1 4 ++ [RetireSlot 0] ++ moves_of 2 3 ++ moves_of 0 1 ++ moves_of 1 7).
  eexists. split; [vm_compute; reflexivity|]. split; [|vm_compute; auto].
  apply list_elem_of_In. vm_compute. tauto.
Qed.

(** The counter of thread ids is a 32-bit word that wraps: after 2^31 draws the ids are negative,
    pass the check against the last id, and a spawn hands one out. *)
Theorem wrapped_tid_is_handed_out c sp i w o : pc sp = STid i w -> next_tid c = - 2 ^ 31 ->
  exists e, spawn_step 250 c sp o = Some e /\ e_born e = [(- 2 ^ 31, to_int32 (startArg sp))].
Proof.
  intros Hpc Hn. unfold spawn_step. rewrite Hpc. cbn [call_step]. rewrite Hn. cbn. eexists. split; reflexivity.
Qed.
