(* ===== verification/IoChannel.v ===== *)
(** The buffer of the SharedArrayBuffer I/O channel (src/host/sabIoChannel.js): the constants both
    sides share and the layout of the slots.

    The sizes in the header are kept as they are given; the source stores them as 32-bit words and reads them back, which makes a difference
    from 2 GiB on. *)
From Stdlib Require Import ZArith Lia.
From stdpp Require Import base list strings numbers.
From S2P Require Import Prelude IoContract.
Open Scope Z_scope.

Definition SAB_IO_MAGIC : Z := 0x4f494453.
Definition SAB_IO_VERSION : Z := 1.
Definition HEADER_WORDS : Z := 64.
Definition HEADER_BYTES : Z := HEADER_WORDS * 4.
Definition SLOT_HEADER_BYTES : Z := 128.

Definition SAB_IO_SERVER_NOT_STARTED : Z := 0.
Definition SAB_IO_SERVER_RUNNING : Z := 1.
Definition SAB_IO_SERVER_STOPPED : Z := 2.
Definition SAB_IO_SERVER_DEAD : Z := 3.

Definition SAB_IO_INSTANCE_NONE : Z := 0.
Definition SAB_IO_INSTANCE_ATTACHED : Z := 1.
Definition SAB_IO_INSTANCE_REVOKING : Z := 2.
Definition SAB_IO_INSTANCE_REVOKED : Z := 3.
Definition SAB_IO_SCRATCH_INSTANCE : Z := 0x7fff.

Definition SAB_IO_SLOT_FREE : Z := 0.
Definition SAB_IO_SLOT_IDLE : Z := 1.
Definition SAB_IO_SLOT_PENDING : Z := 2.
Definition SAB_IO_SLOT_SERVICING : Z := 3.
Definition SAB_IO_SLOT_DONE : Z := 4.

Definition SAB_IO_NOTIFY_ATOMICS : Z := 0.
Definition SAB_IO_NOTIFY_MESSAGE : Z := 1.
Definition SAB_IO_DATA_MEMORY : Z := 0.
Definition SAB_IO_DATA_SLOT : Z := 1.

Definition SAB_IO_OP_OPEN : Z := 1.
Definition SAB_IO_OP_READ : Z := 2.
Definition SAB_IO_OP_WRITE : Z := 3.
Definition SAB_IO_OP_TRUNCATE : Z := 4.
Definition SAB_IO_OP_SYNC : Z := 5.
Definition SAB_IO_OP_SIZE : Z := 6.
Definition SAB_IO_OP_CLOSE : Z := 7.

Definition DEFAULT_SAB_IO_SLOTS : Z := 64.
Definition DEFAULT_SAB_IO_DATA_BYTES : Z := 64 * 1024.
Definition DEFAULT_SAB_IO_MAX_INSTANCES : Z := 64.

(** ** The buffer *)

Definition alignUp (value alignment : Z) : Z := (value + alignment - 1) / alignment * alignment.

(** Where the slots of a channel lie: [None] is an option that is not an integer. *)
Record geometry := Geometry { slotCount : Z; slotBytes : Z; dataBytes : Z; maxInstances : Z; slotsOffset : Z; totalBytes : Z }.

Definition createSabIoChannelBuffer (slots dataBytes maxInstances : option Z) : result geometry :=
  let slots := match slots with Some n => n | None => DEFAULT_SAB_IO_SLOTS end in
  let dataBytes := match dataBytes with Some n => n | None => DEFAULT_SAB_IO_DATA_BYTES end in
  let maxInstances := match maxInstances with Some n => n | None => DEFAULT_SAB_IO_MAX_INSTANCES end in
  throw_if (slots <? 1) || (4096 <? slots) with RangeError "slots must be an integer in 1..4096.";
  throw_if (dataBytes <? FLATSQL_IO_MAX_PATH_BYTES) || negb (dataBytes mod 8 =? 0)
    with RangeError "dataBytes must be a multiple of 8 and at least 4096.";
  throw_if (maxInstances <? 1) || (SAB_IO_SCRATCH_INSTANCE <? maxInstances) with RangeError "maxInstances must be in 1..32767.";
  let slotBytes := alignUp (SLOT_HEADER_BYTES + dataBytes) 64 in
  let slotsOffset := alignUp (HEADER_BYTES + maxInstances * 4) 64 in
  Ok (Geometry slots slotBytes dataBytes maxInstances slotsOffset (slotsOffset + slots * slotBytes)).

(** [describeSabIoChannel]: the bytes of the header, of the instance table, of the words of slot
    [i] and of its data area, as [start, end). *)
Definition instance_table (g : geometry) : Z * Z := (HEADER_BYTES, HEADER_BYTES + maxInstances g * 4).
Definition slot_base (g : geometry) (i : Z) : Z := slotsOffset g + i * slotBytes g.
Definition slot_words (g : geometry) (i : Z) : Z * Z := (slot_base g i, slot_base g i + SLOT_HEADER_BYTES).
Definition slot_data (g : geometry) (i : Z) : Z * Z :=
  (slot_base g i + SLOT_HEADER_BYTES, slot_base g i + SLOT_HEADER_BYTES + dataBytes g).

(** ** The layout of the buffer *)

Lemma alignUp_ge v a : 0 < a -> v <= alignUp v a.
Proof. intros Ha. unfold alignUp. pose proof (Z.div_mod (v + a - 1) a). pose proof (Z.mod_pos_bound (v + a - 1) a). nia. Qed.
Lemma alignUp_multiple v a : exists q, alignUp v a = q * a.
Proof. by eexists. Qed.

(** C21. The parts of a channel's buffer do not overlap: the header and the instance table end
    before the slots; every slot starts on a cache line, its words are followed by its data area,
    and both lie inside the buffer and before the next slot. A request for a path always fits:
    the data area holds at least the longest path. *)
Theorem channel_layout s d m g :
  createSabIoChannelBuffer s d m = Ok g ->
  (instance_table g).2 <= slotsOffset g /\ FLATSQL_IO_MAX_PATH_BYTES <= dataBytes g /\
  (forall i, 0 <= i < slotCount g ->
     slot_base g i mod 64 = 0 /\ (instance_table g).2 <= (slot_words g i).1 /\ (slot_words g i).2 = (slot_data g i).1 /\
     (slot_data g i).2 - (slot_data g i).1 = dataBytes g /\ (slot_data g i).1 mod 8 = 0 /\ (slot_data g i).2 <= totalBytes g) /\
  (forall i j, 0 <= i < j -> (slot_data g i).2 <= (slot_words g j).1).
Proof.
  unfold createSabIoChannelBuffer. set (s' := match s with Some _ => _ | None => _ end). set (d' := match d with Some _ => _ | None => _ end).
  set (m' := match m with Some _ => _ | None => _ end).
  destruct (_ || _) eqn:E1; [done|]. destruct (_ || _) eqn:E2 in |- *; [done|]. destruct (_ || _) eqn:E3 in |- *; [done|].
  intros [= <-]. apply orb_false_iff in E2 as [E2 _]. apply Z.ltb_ge in E2.
  unfold slot_base, slot_words, slot_data, slot_base, instance_table, SLOT_HEADER_BYTES in *. cbn [slotsOffset slotBytes dataBytes slotCount totalBytes maxInstances fst snd].
  pose proof (alignUp_ge (128 + d') 64 ltac:(lia)) as Hb. pose proof (alignUp_ge (HEADER_BYTES + m' * 4) 64 ltac:(lia)) as Ho.
  destruct (alignUp_multiple (128 + d') 64) as [q Hq], (alignUp_multiple (HEADER_BYTES + m' * 4) 64) as [q' Hq']. rewrite Hq, Hq' in *.
  assert (0 <= d') by (unfold FLATSQL_IO_MAX_PATH_BYTES in E2; lia).
  split_and!; try done.
  - intros i Hi. split_and!; try lia; try nia.
    + replace (q' * 64 + i * (q * 64)) with ((q' + i * q) * 64) by lia. by apply Z.mod_mul.
    + replace (q' * 64 + i * (q * 64) + 128) with ((q' * 8 + i * q * 8 + 16) * 8) by lia. by apply Z.mod_mul.
  - intros i j Hij. nia.
Qed.

Lemma channel_layout_witness :
  let g := Geometry 2 4224 4096 3 320 8768 in createSabIoChannelBuffer (Some 2) (Some 4096) (Some 3) = Ok g /\ (slot_data g 0).2 <= (slot_words g 1).1.
Proof.
  intros g. assert (H : createSabIoChannelBuffer (Some 2) (Some 4096) (Some 3) = Ok g) by reflexivity. split; [exact H|].
  apply (channel_layout _ _ _ g H). lia.
Defined.
