(* ===== verification/IoServer.v ===== *)
(** The FlatSQL I/O server (src/host/flatsqlIoServer.js): the loop of an I/O worker. It holds every
    file, hands out virtual handles, runs requests in steps of bounded size, and keeps namespace
    operations on one path in order.

    The entries of files are objects that the path table, the handles, the pending opens and the
    parked requests share; they live in [heap] and are named by their index. A promise chain is
    the list of its tasks: the first task of a path calls the backend ([Call]) and later resumes
    ([Settle]), at moments the environment chooses. The backend and the mirror are interfaces;
    offsets are integers, as all clients send them. *)
From Stdlib Require Import ZArith Lia.
From stdpp Require Import base list strings numbers.
From S2P Require Import Prelude JsText JsMap IoContract IoChannel.
Open Scope Z_scope.

Definition DEFAULT_FLATSQL_IO_CHUNK_BYTES : Z := 256 * 1024.
Definition MAX_HANDLE_ID : Z := 0xffffff.

(** ** Interfaces *)

(** What the server asks of a backend ([B]) and of the files it opens ([F]). Reads and writes say
    whether the view they are given lies over a SharedArrayBuffer. *)
Class IoBackend (B F : Type) := {
  be_open : B -> jsstring -> list jsstring -> Z -> (F + io_thrown) * B;
  be_exists : B -> jsstring -> list jsstring -> bool + io_thrown;
  be_remove : B -> jsstring -> list jsstring -> option io_thrown * B;
  f_read : B -> F -> bool -> Z -> Z -> list Z + io_thrown;
  f_write : B -> F -> bool -> list Z -> Z -> (Z + io_thrown) * B;
  f_truncate : B -> F -> Z -> option io_thrown * B;
  f_flush : B -> F -> option io_thrown * B;
  f_size : B -> F -> Z + io_thrown;
  f_close : B -> F -> B
}.

(** The small-file mirror; [mirror_writes] is that there is one and this server writes it. *)
Class IoMirror (M : Type) := {
  mirror_writes : bool;
  mirror_match : jsstring -> bool;
  mirror_update : M -> jsstring -> Z -> list Z -> option Z -> M;
  mirror_clear : M -> jsstring -> M;
  mirror_bytes : M -> Z
}.

(** ** State *)

(** A request under way. [entry] is the entry its open created, [result] what a parked namespace
    operation gave. *)
Record job := Job {
  slot : nat; op : Z; instanceId : Z; handleId : Z; flags : Z; ptr : Z; len : Z; dataMode : Z; pathLen : Z; offset : Z;
  done_ : Z; phase : Z; jpath : option (jsstring * list jsstring); jentry : option nat; result : Z
}.

Definition set_done (j : job) (v : Z) : job :=
  Job (slot j) (op j) (instanceId j) (handleId j) (flags j) (ptr j) (len j) (dataMode j) (pathLen j) (offset j) v (phase j) (jpath j) (jentry j) (result j).
Definition set_path (j : job) (p : jsstring * list jsstring) : job :=
  Job (slot j) (op j) (instanceId j) (handleId j) (flags j) (ptr j) (len j) (dataMode j) (pathLen j) (offset j) (done_ j) (phase j) (Some p) (jentry j) (result j).
Definition set_opener (j : job) (e : nat) : job :=
  Job (slot j) (op j) (instanceId j) (handleId j) (flags j) (ptr j) (len j) (dataMode j) (pathLen j) (offset j) (done_ j) 1 (jpath j) (Some e) (result j).
Definition set_phase2 (j : job) : job :=
  Job (slot j) (op j) (instanceId j) (handleId j) (flags j) (ptr j) (len j) (dataMode j) (pathLen j) (offset j) (done_ j) 2 (jpath j) (jentry j) (result j).
Definition set_outcome (j : job) (r : Z) : job :=
  Job (slot j) (op j) (instanceId j) (handleId j) (flags j) (ptr j) (len j) (dataMode j) (pathLen j) (offset j) (done_ j) 2 (jpath j) (jentry j) r.

Section server.
Context {B F M : Type} `{!IoBackend B F} `{!IoMirror M}.

Record entry := Entry {
  path : jsstring; components : list jsstring; file : option F; opening : bool; openStatus : Z; refs : Z; pins : Z;
  deleteOnClose : bool; waiters : list job
}.

Definition new_entry (p : jsstring) (cs : list jsstring) : entry := Entry p cs None false 0 0 0 false [].
Definition set_opening (e : entry) : entry :=
  Entry (path e) (components e) (file e) true (openStatus e) (refs e) (pins e) (deleteOnClose e) (waiters e).
Definition set_settled (status : Z) (f : option F) (e : entry) : entry :=
  Entry (path e) (components e) f false status (refs e) (pins e) (deleteOnClose e) [].
Definition set_file (f : option F) (e : entry) : entry :=
  Entry (path e) (components e) f (opening e) (openStatus e) (refs e) (pins e) (deleteOnClose e) (waiters e).
Definition add_ref (n : Z) (del : bool) (e : entry) : entry :=
  Entry (path e) (components e) (file e) (opening e) (openStatus e) (refs e + n) (pins e) (deleteOnClose e || del) (waiters e).
Definition set_pins (n : Z) (e : entry) : entry :=
  Entry (path e) (components e) (file e) (opening e) (openStatus e) (refs e) n (deleteOnClose e) (waiters e).
Definition add_waiter (j : job) (e : entry) : entry :=
  Entry (path e) (components e) (file e) (opening e) (openStatus e) (refs e) (pins e) (deleteOnClose e) (waiters e ++ [j]).

Record handle := Handle { hentry : nat; hinstance : Z; canWrite : bool; canRead : bool }.

(** A task of a path's promise chain: an open, the removal of a closed file, or the namespace
    operation of a parked request; then whether its backend call has returned, and with what. *)
Inductive work := WOpen (e : nat) (fl : Z) | WRemove (cs : list jsstring) | WProbe (j : job) (cs : list jsstring) | WUnlink (j : job) (cs : list jsstring).
Inductive progress := Waiting | Opened (f : F + io_thrown) | Returned (r : Z + io_thrown).
Record task := Task { tpath : jsstring; twork : work; tprogress : progress }.

Record stats := Stats { served : Z; opens : Z; deferredOpens : Z; parked : Z; chunks : Z; busy : Z; revoked : Z; maxReady : Z }.

Record server := Server {
  heap : list entry; entries : list (jsstring * nat); handles : list (Z * handle); byInstance : list (Z * list Z);
  nextHandleId : Z; tasks : list task; ready : list job; claimed : list nat; rejected : bool;
  instances : list Z; memories : list (Z * list Z); areas : list (list Z);
  bk : B; mirror : M; st : stats; preopens : list nat; completed : list (nat * Z * Z); preopened : list (jsstring * Z)
}.

Definition with_entries (s : server) (hp : list entry) (es : list (jsstring * nat)) : server :=
  Server hp es (handles s) (byInstance s) (nextHandleId s) (tasks s) (ready s) (claimed s) (rejected s) (instances s) (memories s)
    (areas s) (bk s) (mirror s) (st s) (preopens s) (completed s) (preopened s).
Definition with_handles (s : server) (hs : list (Z * handle)) (bi : list (Z * list Z)) (n : Z) : server :=
  Server (heap s) (entries s) hs bi n (tasks s) (ready s) (claimed s) (rejected s) (instances s) (memories s)
    (areas s) (bk s) (mirror s) (st s) (preopens s) (completed s) (preopened s).
Definition with_tasks (s : server) (ts : list task) : server :=
  Server (heap s) (entries s) (handles s) (byInstance s) (nextHandleId s) ts (ready s) (claimed s) (rejected s) (instances s) (memories s)
    (areas s) (bk s) (mirror s) (st s) (preopens s) (completed s) (preopened s).
Definition with_ready (s : server) (r : list job) (c : list nat) : server :=
  Server (heap s) (entries s) (handles s) (byInstance s) (nextHandleId s) (tasks s) r c (rejected s) (instances s) (memories s)
    (areas s) (bk s) (mirror s) (st s) (preopens s) (completed s) (preopened s).
Definition with_instances (s : server) (i : list Z) (m : list (Z * list Z)) (a : list (list Z)) : server :=
  Server (heap s) (entries s) (handles s) (byInstance s) (nextHandleId s) (tasks s) (ready s) (claimed s) (rejected s) i m
    a (bk s) (mirror s) (st s) (preopens s) (completed s) (preopened s).
Definition with_backend (s : server) (b : B) (m : M) (r : bool) : server :=
  Server (heap s) (entries s) (handles s) (byInstance s) (nextHandleId s) (tasks s) (ready s) (claimed s) r (instances s) (memories s)
    (areas s) b m (st s) (preopens s) (completed s) (preopened s).
Definition with_stats (s : server) (x : stats) : server :=
  Server (heap s) (entries s) (handles s) (byInstance s) (nextHandleId s) (tasks s) (ready s) (claimed s) (rejected s) (instances s) (memories s)
    (areas s) (bk s) (mirror s) x (preopens s) (completed s) (preopened s).
Definition with_completed (s : server) (c : list (nat * Z * Z)) : server :=
  Server (heap s) (entries s) (handles s) (byInstance s) (nextHandleId s) (tasks s) (ready s) (claimed s) (rejected s) (instances s) (memories s)
    (areas s) (bk s) (mirror s) (st s) (preopens s) c (preopened s).
Definition with_preopens (s : server) (p : list nat) (r : list (jsstring * Z)) : server :=
  Server (heap s) (entries s) (handles s) (byInstance s) (nextHandleId s) (tasks s) (ready s) (claimed s) (rejected s) (instances s) (memories s)
    (areas s) (bk s) (mirror s) (st s) p (completed s) r.

(** Add to the counters. *)
Definition count (s : server) (f : stats -> stats) : server := with_stats s (f (st s)).
Definition add_served (x : stats) : stats := Stats (served x + 1) (opens x) (deferredOpens x) (parked x) (chunks x) (busy x) (revoked x) (maxReady x).
Definition add_opens (x : stats) : stats := Stats (served x) (opens x + 1) (deferredOpens x) (parked x) (chunks x) (busy x) (revoked x) (maxReady x).
Definition add_deferred (x : stats) : stats := Stats (served x) (opens x) (deferredOpens x + 1) (parked x) (chunks x) (busy x) (revoked x) (maxReady x).
Definition add_parked (x : stats) : stats := Stats (served x) (opens x) (deferredOpens x) (parked x + 1) (chunks x) (busy x) (revoked x) (maxReady x).
Definition add_chunks (x : stats) : stats := Stats (served x) (opens x) (deferredOpens x) (parked x) (chunks x + 1) (busy x) (revoked x) (maxReady x).
Definition add_busy (x : stats) : stats := Stats (served x) (opens x) (deferredOpens x) (parked x) (chunks x) (busy x + 1) (revoked x) (maxReady x).
Definition add_revoked (x : stats) : stats := Stats (served x) (opens x) (deferredOpens x) (parked x) (chunks x) (busy x) (revoked x + 1) (maxReady x).
Definition see_ready (n : Z) (x : stats) : stats := Stats (served x) (opens x) (deferredOpens x) (parked x) (chunks x) (busy x) (revoked x) (Z.max n (maxReady x)).

Definition entry_at (s : server) (e : nat) : entry := default (new_entry [] []) (heap s !! e).
Definition change_entry (s : server) (e : nat) (f : entry -> entry) : server := with_entries s (alter f e (heap s)) (entries s).

(** ** Path chains *)

Definition chainPath (s : server) (p : jsstring) (w : work) : server := with_tasks s (tasks s ++ [Task p w Waiting]).

(** ** Handles *)

(** At most [n] rounds of a loop that may return early. *)
Fixpoint rounds {S R} (f : S -> R + S) (n : positive) (x : S) : R + S :=
  match n with
  | xH => f x
  | xO n => match rounds f n x with inl r => inl r | inr x => rounds f n x end
  | xI n => match f x with inl r => inl r | inr x => match rounds f n x with inl r => inl r | inr x => rounds f n x end end
  end.

(** The first free id from [next] on, and the id to try next. *)
Definition try_id (hs : list (Z * handle)) (next : Z) : (Z * Z) + Z :=
  let next' := if MAX_HANDLE_ID <=? next then 1 else next + 1 in
  if map_has hs next then inr next' else inl (next, next').
Definition allocateHandleId (hs : list (Z * handle)) (next : Z) : Z * Z :=
  match rounds (try_id hs) (Z.to_pos MAX_HANDLE_ID) next with inl r => r | inr next => (-1, next) end.

Definition set_add (l : list Z) (x : Z) : list Z := if bool_decide (x ∈ l) then l else l ++ [x].
Definition set_remove (l : list Z) (x : Z) : list Z := List.filter (fun y => negb (y =? x)) l.

Definition addHandle (s : server) (e : nat) (inst fl : Z) : Z * server :=
  let (id, next) := allocateHandleId (handles s) (nextHandleId s) in
  if id <? 0 then (FLATSQL_IO_ERR_GENERIC, with_handles s (handles s) (byInstance s) next)
  else
    let writeFlag := has_flag fl FLATSQL_IO_WRITE in
    let h := Handle e inst writeFlag (negb writeFlag || has_flag fl FLATSQL_IO_READ) in
    let owned := default [] (map_get (byInstance s) inst) in
    let s := with_handles s (map_set (handles s) id h) (map_set (byInstance s) inst (set_add owned id)) next in
    (id, change_entry s e (add_ref 1 (has_flag fl FLATSQL_IO_DELETE_ON_CLOSE))).

(** [entries.get(entry.path) === entry] *)
Definition is_current (s : server) (e : nat) : bool := bool_decide (map_get (entries s) (path (entry_at s e)) = Some e).
Definition drop_current (s : server) (e : nat) : server :=
  if is_current s e then with_entries s (heap s) (map_delete (entries s) (path (entry_at s e))) else s.

Definition close_file (s : server) (e : nat) : server :=
  match file (entry_at s e) with
  | Some f => change_entry (with_backend s (f_close (bk s) f) (mirror s) (rejected s)) e (set_file None)
  | None => s
  end.

Definition releaseEntry (s : server) (e : nat) : server :=
  let x := entry_at s e in
  if (0 <? refs x) || (0 <? pins x) then s
  else
    let s := close_file (drop_current s e) e in
    if deleteOnClose x && (openStatus x =? 0) then chainPath s (path x) (WRemove (components x)) else s.

Definition closeHandle (s : server) (id : Z) : server :=
  match map_get (handles s) id with
  | None => s
  | Some h =>
      let bi := match map_get (byInstance s) (hinstance h) with
                | Some owned => map_set (byInstance s) (hinstance h) (set_remove owned id)
                | None => byInstance s
                end in
      let s := with_handles s (map_delete (handles s) id) bi (nextHandleId s) in
      releaseEntry (change_entry s (hentry h) (add_ref (-1) false)) (hentry h)
  end.

(** ** Memory *)

Definition maxInstances (s : server) : Z := blen (instances s).
Definition instanceState (s : server) (id : Z) : Z :=
  if id =? SAB_IO_SCRATCH_INSTANCE then SAB_IO_INSTANCE_ATTACHED
  else if (id <? 0) || (maxInstances s <=? id) then -1
  else default 0 (instances s !! Z.to_nat id).
Definition isRevoked (s : server) (id : Z) : bool :=
  (instanceState s id =? SAB_IO_INSTANCE_REVOKING) || (instanceState s id =? SAB_IO_INSTANCE_REVOKED).

(** The buffer a request moves bytes from or to: the data area of its slot or the memory of its
    instance. [resolveView] gives it when the view lies inside it. *)
Definition buffer_of (s : server) (j : job) : option (list Z) :=
  if dataMode j =? SAB_IO_DATA_SLOT then areas s !! slot j else map_get (memories s) (instanceId j).
Definition resolveView (s : server) (j : job) : option (list Z) :=
  if (len j <? 0) || (ptr j <? 0) then None
  else match buffer_of s j with
       | Some b => if blen b <? ptr j + len j then None else Some b
       | None => None
       end.

(** A buffer in its place. *)
Definition store_buffer (s : server) (j : job) (b : list Z) : server :=
  if dataMode j =? SAB_IO_DATA_SLOT then with_instances s (instances s) (memories s) (<[slot j := b]> (areas s))
  else with_instances s (instances s) (map_set (memories s) (instanceId j) b) (areas s).

Definition is_type_error (e : io_thrown) : bool := match e with NamedError n => String.eqb n "TypeError" | _ => false end.

(** With a view over shared memory; after the first refusal through a private copy. *)
Definition fileRead (s : server) (f : F) (n at' : Z) (shared : bool) : (list Z + io_thrown) * server :=
  if rejected s then (f_read (bk s) f false n at', s)
  else match f_read (bk s) f shared n at' with
       | inl r => (inl r, s)
       | inr e => if is_type_error e && shared then (f_read (bk s) f false n at', with_backend s (bk s) (mirror s) true) else (inr e, s)
       end.
Definition fileWrite (s : server) (f : F) (view : list Z) (at' : Z) (shared : bool) : (Z + io_thrown) * server :=
  let call sh s := let (r, b) := f_write (bk s) f sh view at' in (r, with_backend s b (mirror s) (rejected s)) in
  if rejected s then call false s
  else match call shared s with
       | (inl n, s) => (inl n, s)
       | (inr e, s) => if is_type_error e && shared then call false (with_backend s (bk s) (mirror s) true) else (inr e, s)
       end.

Definition mirror_set (s : server) (p : jsstring) (at' : Z) (bytes : list Z) (truncateTo : option Z) : server :=
  if mirror_writes && mirror_match p then with_backend s (bk s) (mirror_update (mirror s) p at' bytes truncateTo) (rejected s) else s.
Definition mirror_forget (s : server) (p : jsstring) : server :=
  if mirror_writes then with_backend s (bk s) (mirror_clear (mirror s) p) (rejected s) else s.

(** ** Jobs *)

Definition complete (s : server) (j : job) (status f64 : Z) : server :=
  let s := with_ready s (ready s) (List.filter (fun i => negb (Nat.eqb i (slot j))) (claimed s)) in
  with_completed (count s add_served) (completed s ++ [(slot j, status, f64)]).

(** A pending slot: its index and the job [makeJob] reads from it. *)
Definition makeJob (slot : nat) (op instanceId handleId flags ptr len dataMode pathLen offset : Z) : job :=
  Job slot op instanceId handleId flags ptr len dataMode pathLen offset 0 0 None None 0.

Definition claim (s : server) (j : job) : server :=
  if bool_decide (slot j ∈ claimed s) then s else with_ready s (ready s ++ [j]) (claimed s ++ [slot j]).

(** [pending]: the pending slots in order, as new jobs. *)
Definition scanSlots (s : server) (pending : list job) : server :=
  let s := fold_left claim pending s in count s (see_ready (blen (ready s))).

Definition revoke_instance (s : server) (id : Z) : server :=
  if instanceState s id =? SAB_IO_INSTANCE_REVOKING then
    let s := match map_get (byInstance s) id with
             | Some owned => let s := fold_left closeHandle owned s in
                             with_handles s (handles s) (map_delete (byInstance s) id) (nextHandleId s)
             | None => s
             end in
    let s := with_instances s (<[Z.to_nat id := SAB_IO_INSTANCE_REVOKED]> (instances s)) (map_delete (memories s) id) (areas s) in
    count s add_revoked
  else s.

Definition applyRevocations (s : server) : server :=
  fold_left revoke_instance (map Z.of_nat (List.seq 0 (List.length (instances s)))) s.

Definition parkOnEntry (s : server) (j : job) (e : nat) : server := change_entry (count s add_parked) e (add_waiter j).

(** A parked request goes on: the one that created the entry gets its handle now. *)
Definition resume_waiter (e : nat) (status : Z) (s : server) (j : job) : server :=
  if (op j =? SAB_IO_OP_OPEN) && (phase j =? 1) && bool_decide (jentry j = Some e) then
    if status <? 0 then with_ready s (ready s ++ [set_outcome j status]) (claimed s)
    else if isRevoked s (instanceId j) then with_ready s (ready s ++ [set_outcome j FLATSQL_IO_ERR_ACCESS]) (claimed s)
    else let (r, s) := addHandle s e (instanceId j) (flags j) in with_ready s (ready s ++ [set_outcome j r]) (claimed s)
  else with_ready s (ready s ++ [j]) (claimed s).

Definition seed_mirror (s : server) (e : nat) : server :=
  let x := entry_at s e in
  match file x with
  | Some f =>
      if (openStatus x =? 0) && mirror_writes && mirror_match (path x) then
        match f_size (bk s) f with
        | inr _ => s
        | inl size =>
            let n := Z.min size (mirror_bytes (mirror s)) in
            match (if 0 <? n then fileRead s f n 0 false else (inl [], s)) with
            | (inr _, s) => s
            | (inl bytes, s) =>
                mirror_set s (path x) 0 (bytes ++ repeat 0 (Z.to_nat (n - blen bytes))) (Some size)
            end
        end
      else s
  | None => s
  end.

Definition settleEntry (s : server) (e : nat) (status : Z) (f : option F) : server :=
  let ws := waiters (entry_at s e) in
  let s := seed_mirror (change_entry s e (set_settled status f)) e in
  let s := fold_left (resume_waiter e status) ws s in
  let x := entry_at s e in
  if (status <? 0) && (refs x =? 0) && (pins x =? 0) && is_current s e then with_entries s (heap s) (map_delete (entries s) (path x))
  else if (status =? 0) && (refs x =? 0) && (pins x =? 0) then releaseEntry s e
  else s.

(** A new entry for a path, with its open on the way. *)
Definition startOpen (s : server) (p : jsstring) (cs : list jsstring) (fl : Z) : nat * server :=
  let e := List.length (heap s) in
  let s := with_entries s (heap s ++ [set_opening (new_entry p cs)]) (map_set (entries s) p e) in
  (e, chainPath (count s add_opens) p (WOpen e fl)).

Inductive outcome := STEP_DONE | STEP_AGAIN (j : job) | STEP_PARKED.

Definition finish (s : server) (j : job) (status : Z) : outcome * server := (STEP_DONE, complete s j status 0).

Definition runNamespace (s : server) (p : jsstring) (w : work) : outcome * server := (STEP_PARKED, count (chainPath s p w) add_parked).

(** The path of an open, decoded once. *)
Definition open_path (s : server) (j : job) : (jsstring * list jsstring) + Z :=
  match jpath j with
  | Some p => inl p
  | None =>
      match decodeFlatsqlIoPath (subarray (default [] (areas s !! slot j)) 0 (Z.max 0 (pathLen j))) with
      | inr status => inr status
      | inl text => match splitFlatsqlIoPath text with inr status => inr status | inl cs => inl (join_path cs, cs) end
      end
  end.

(** PROBE, UNLINK and UNLINK_IF_UNUSED *)
Definition step_namespace (s : server) (j : job) (p : jsstring) (cs : list jsstring) : outcome * server :=
  let park e := (STEP_PARKED, parkOnEntry s j e) in
  match map_get (entries s) p with
  | Some e =>
      let x := entry_at s e in
      if opening x then park e
      else if has_flag (flags j) FLATSQL_IO_PROBE then
        if openStatus x =? 0 then finish s j 0 else runNamespace s p (WProbe (set_phase2 j) cs)
      else if 0 <? refs x then finish (count s add_busy) j FLATSQL_IO_ERR_BUSY
      else
        let s := if 0 <? pins x then releaseEntry (change_entry s e (set_pins 0)) e else s in
        runNamespace s p (WUnlink (set_phase2 j) cs)
  | None =>
      if has_flag (flags j) FLATSQL_IO_PROBE then runNamespace s p (WProbe (set_phase2 j) cs)
      else runNamespace s p (WUnlink (set_phase2 j) cs)
  end.

Definition open_fresh (s : server) (j : job) (p : jsstring) (cs : list jsstring) : outcome * server :=
  let (e, s) := startOpen s p cs (flags j) in
  if has_flag (flags j) FLATSQL_IO_OPEN_DEFERRED then
    let (id, s) := addHandle (count s add_deferred) e (instanceId j) (flags j) in finish s j id
  else (STEP_PARKED, parkOnEntry s (set_opener j e) e).

(** An open of a path that has an entry whose file is open. *)
Definition open_shared (s : server) (j : job) (e : nat) : outcome * server :=
  let take s := let (id, s) := addHandle s e (instanceId j) (flags j) in finish s j id in
  if has_flag (flags j) FLATSQL_IO_EXCL then finish s j FLATSQL_IO_ERR_GENERIC
  else if has_flag (flags j) FLATSQL_IO_TRUNC && has_flag (flags j) FLATSQL_IO_WRITE then
    match file (entry_at s e) with
    | Some f =>
        match f_truncate (bk s) f 0 with
        | (Some err, b) => finish (with_backend s b (mirror s) (rejected s)) j (flatsqlIoStatusOf err false)
        | (None, b) => take (mirror_set (with_backend s b (mirror s) (rejected s)) (path (entry_at s e)) 0 [] (Some 0))
        end
    | None => finish s j (flatsqlIoStatusOf (NamedError "TypeError") false)
    end
  else take s.

Definition step_open_path (s : server) (j : job) (p : jsstring) (cs : list jsstring) : outcome * server :=
  if has_flag (flags j) (Z.lor FLATSQL_IO_PROBE (Z.lor FLATSQL_IO_UNLINK FLATSQL_IO_UNLINK_IF_UNUSED)) then step_namespace s j p cs
  else
    match map_get (entries s) p with
    | Some e =>
        let x := entry_at s e in
        if opening x then
          if has_flag (flags j) FLATSQL_IO_OPEN_DEFERRED then
            let (id, s) := addHandle (count s add_deferred) e (instanceId j) (flags j) in finish s j id
          else (STEP_PARKED, parkOnEntry s j e)
        else if openStatus x =? 0 then open_shared s j e
        else open_fresh (with_entries s (heap s) (map_delete (entries s) p)) j p cs
    | None => open_fresh s j p cs
    end.

Definition stepOpen (s : server) (j : job) : outcome * server :=
  if phase j =? 2 then finish s j (result j)
  else if isRevoked s (instanceId j) then finish s j FLATSQL_IO_ERR_ACCESS
  else match open_path s j with
       | inr status => finish s j status
       | inl (p, cs) => step_open_path s (set_path j (p, cs)) p cs
       end.

(** *** Operations on a handle *)

Context (chunkBytes : Z).

(** A read or a write is over when a piece came short or everything has moved. *)
Definition moved (s : server) (j : job) (n piece : Z) : outcome * server :=
  let j := set_done j (done_ j + n) in
  let s := count s add_chunks in
  if (n <? piece) || (len j <=? done_ j) then finish s j (done_ j) else (STEP_AGAIN j, s).

(** The status of an error: a read that has bytes already gives their number. *)
Definition op_error (s : server) (j : job) (err : io_thrown) : outcome * server :=
  finish s j (if (0 <? done_ j) && (op j =? SAB_IO_OP_READ) then done_ j else flatsqlIoStatusOf err false).

Definition step_read (s : server) (j : job) (h : handle) (f : F) : outcome * server :=
  if negb (canRead h) then finish s j FLATSQL_IO_ERR_IO
  else match resolveView s j with
       | None => finish s j FLATSQL_IO_ERR_GENERIC
       | Some buf =>
           let piece := Z.min chunkBytes (len j - done_ j) in
           match fileRead s f piece (offset j + done_ j) true with
           | (inr err, s) => op_error s j err
           | (inl bytes, s) => moved (store_buffer s j (put_at buf bytes (ptr j + done_ j))) j (blen bytes) piece
           end
       end.

Definition step_write (s : server) (j : job) (h : handle) (e : nat) (f : F) : outcome * server :=
  if negb (canWrite h) then finish s j FLATSQL_IO_ERR_IO
  else match resolveView s j with
       | None => finish s j FLATSQL_IO_ERR_GENERIC
       | Some buf =>
           let piece := Z.min chunkBytes (len j - done_ j) in
           let chunk := subarray buf (ptr j + done_ j) (ptr j + done_ j + piece) in
           let at' := offset j + done_ j in
           match fileWrite s f chunk at' true with
           | (inr err, s) => op_error s j err
           | (inl n, s) => moved (mirror_set s (path (entry_at s e)) at' (subarray chunk 0 n) None) j n piece
           end
       end.

Definition step_truncate (s : server) (j : job) (h : handle) (e : nat) (f : F) : outcome * server :=
  if negb (canWrite h) then finish s j FLATSQL_IO_ERR_IO
  else match f_truncate (bk s) f (offset j) with
       | (Some err, b) => op_error (with_backend s b (mirror s) (rejected s)) j err
       | (None, b) =>
           finish (mirror_set (with_backend s b (mirror s) (rejected s)) (path (entry_at s e)) 0 [] (Some (offset j))) j 0
       end.

Definition file_op (s : server) (j : job) (h : handle) (f : F) : outcome * server :=
  if op j =? SAB_IO_OP_READ then step_read s j h f
  else if op j =? SAB_IO_OP_WRITE then step_write s j h (hentry h) f
  else if op j =? SAB_IO_OP_TRUNCATE then step_truncate s j h (hentry h) f
  else if op j =? SAB_IO_OP_SYNC then
    match f_flush (bk s) f with
    | (Some err, b) => op_error (with_backend s b (mirror s) (rejected s)) j err
    | (None, b) => finish (with_backend s b (mirror s) (rejected s)) j 0
    end
  else if op j =? SAB_IO_OP_SIZE then
    match f_size (bk s) f with
    | inr err => op_error s j err
    | inl n => (STEP_DONE, complete s j 0 n)
    end
  else finish s j FLATSQL_IO_ERR_GENERIC.

Definition stepHandleOp (s : server) (j : job) : outcome * server :=
  if isRevoked s (instanceId j) then finish s j FLATSQL_IO_ERR_ACCESS
  else match map_get (handles s) (handleId j) with
       | None => finish s j FLATSQL_IO_ERR_BADHANDLE
       | Some h =>
           let x := entry_at s (hentry h) in
           if opening x then (STEP_PARKED, parkOnEntry s j (hentry h))
           else if op j =? SAB_IO_OP_CLOSE then finish (closeHandle s (handleId j)) j 0
           else if openStatus x <? 0 then finish s j (openStatus x)
           else match file x with
                | None => finish s j FLATSQL_IO_ERR_BADHANDLE
                | Some f => file_op s j h f
                end
       end.

Definition is_handle_op (o : Z) : bool :=
  existsb (Z.eqb o) [SAB_IO_OP_READ; SAB_IO_OP_WRITE; SAB_IO_OP_TRUNCATE; SAB_IO_OP_SYNC; SAB_IO_OP_SIZE; SAB_IO_OP_CLOSE].

Definition step (s : server) (j : job) : outcome * server :=
  if op j =? SAB_IO_OP_OPEN then stepOpen s j
  else if is_handle_op (op j) then stepHandleOp s j
  else finish s j FLATSQL_IO_ERR_GENERIC.

(** One round of [runReady]. *)
Definition runReady (s : server) (pending : list job) : option server :=
  match ready s with
  | [] => None
  | j :: rest =>
      let '(o, s) := step (with_ready s rest (claimed s)) j in
      let s := match o with STEP_AGAIN j => with_ready s (ready s ++ [j]) (claimed s) | _ => s end in
      Some (scanSlots (applyRevocations s) pending)
  end.

(** ** The backend's answers *)

(** The first task of its path may call the backend. *)
Definition first_of_path (ts : list task) (k : nat) : bool :=
  match ts !! k with
  | Some t => forallb (fun t' => negb (str_eqb (tpath t') (tpath t))) (take k ts)
  | None => false
  end.

Definition call_task (s : server) (k : nat) : option server :=
  match tasks s !! k with
  | Some (Task p w Waiting) =>
      if first_of_path (tasks s) k then
        let returns s r b := Some (with_backend (with_tasks s (<[k := Task p w r]> (tasks s))) b (mirror s) (rejected s)) in
        match w with
        | WOpen e fl =>
            let (r, b) := be_open (bk s) p (components (entry_at s e)) fl in returns s (Opened r) b
        | WRemove cs | WUnlink _ cs =>
            let (r, b) := be_remove (bk s) p cs in returns s (Returned (match r with None => inl 0 | Some e => inr e end)) b
        | WProbe _ cs =>
            let r := match be_exists (bk s) p cs with
                     | inl true => inl 0 | inl false => inl FLATSQL_IO_ERR_NOENT | inr e => inr e end in
            returns s (Returned r) (bk s)
        end
      else None
  | _ => None
  end.

Definition settle_task (s : server) (k : nat) : option server :=
  match tasks s !! k with
  | Some (Task p w r) =>
      let s' := with_tasks s (delete k (tasks s)) in
      match w, r with
      | WOpen e _, Opened (inl f) => Some (settleEntry s' e 0 (Some f))
      | WOpen e _, Opened (inr err) => Some (settleEntry s' e (flatsqlIoStatusOf err true) None)
      | WRemove _, Returned _ => Some (mirror_forget s' p)
      | WProbe j _, Returned r | WUnlink j _, Returned r =>
          let status := match r with inl v => v | inr err => flatsqlIoStatusOf err false end in
          let s' := match w, r with WUnlink _ _, inl _ => mirror_forget s' p | _, _ => s' end in
          Some (with_ready s' (ready s' ++ [set_outcome j status]) (claimed s'))
      | _, _ => None
      end
  | None => None
  end.

(** ** The interface for the host *)

Definition in_instances (s : server) (id : Z) : bool := (0 <=? id) && (id <? maxInstances s).

Definition attachMemory (s : server) (id : Z) (memory : list Z) : bool * server :=
  if negb (in_instances s id) then (false, s)
  else if isRevoked s id then (false, s)
  else (true, with_instances s (<[Z.to_nat id := SAB_IO_INSTANCE_ATTACHED]> (instances s)) (map_set (memories s) id memory) (areas s)).

(** For an id outside the table the source throws after the delete. *)
Definition detachMemory (s : server) (id : Z) : server :=
  let s := with_instances s (instances s) (map_delete (memories s) id) (areas s) in
  if in_instances s id && (instanceState s id =? SAB_IO_INSTANCE_ATTACHED)
  then with_instances s (<[Z.to_nat id := SAB_IO_INSTANCE_NONE]> (instances s)) (memories s) (areas s) else s.

(** [preopen] of one path up to its [await], and from there on. *)
Definition preopen_end (s : server) (e : nat) : server :=
  let x := entry_at s e in
  let report s v := with_preopens s (preopens s) (preopened s ++ [(path x, v)]) in
  if openStatus x <? 0 then report (change_entry s e (set_pins (Z.max 0 (pins x - 1)))) (openStatus x) else report s 0.

Definition preopen (s : server) (raw : jsstring) (fl : Z) : server :=
  match splitFlatsqlIoPath raw with
  | inr status => with_preopens s (preopens s) (preopened s ++ [(raw, status)])
  | inl cs =>
      let p := join_path cs in
      let (e, s) := match map_get (entries s) p with
                    | Some e => (e, s)
                    | None => startOpen s p cs (js_and fl (Z.lnot FLATSQL_IO_OPEN_DEFERRED))
                    end in
      let s := change_entry s e (set_pins (pins (entry_at s e) + 1)) in
      if opening (entry_at s e) then with_preopens s (preopens s ++ [e]) (preopened s) else preopen_end s e
  end.

Definition preopen_resume (s : server) (k : nat) : option server :=
  match preopens s !! k with
  | Some e => if opening (entry_at s e) then None else Some (preopen_end (with_preopens s (delete k (preopens s)) (preopened s)) e)
  | None => None
  end.

Definition releasePreopen (s : server) (raw : jsstring) : server :=
  match splitFlatsqlIoPath raw with
  | inr _ => s
  | inl cs =>
      match map_get (entries s) (join_path cs) with
      | Some e => if 0 <? pins (entry_at s e) then releaseEntry (change_entry s e (set_pins (pins (entry_at s e) - 1))) e else s
      | None => s
      end
  end.

(** What happens to a server. *)
Inductive event :=
| Loop (pending : list job)
| RunReady (pending : list job)
| Call (k : nat)
| Settle (k : nat)
| Revoke (id : Z)
| ResetInstance (id : Z)
| Attach (id : Z) (memory : list Z)
| Detach (id : Z)
| Preopen (raw : jsstring) (fl : Z)
| PreopenResume (k : nat)
| ReleasePreopen (raw : jsstring)
| GuestWrites (id : Z) (memory : list Z)
| ClientWrites (i : nat) (data : list Z).

Definition store_instance (s : server) (id v : Z) : server :=
  if in_instances s id then with_instances s (<[Z.to_nat id := v]> (instances s)) (memories s) (areas s) else s.

Definition handle_event (ev : event) (s : server) : option server :=
  match ev with
  | Loop pending => Some (scanSlots (applyRevocations s) pending)
  | RunReady pending => runReady s pending
  | Call k => call_task s k
  | Settle k => settle_task s k
  | Revoke id => Some (store_instance s id SAB_IO_INSTANCE_REVOKING)
  | ResetInstance id => Some (store_instance s id SAB_IO_INSTANCE_NONE)
  | Attach id memory => Some (attachMemory s id memory).2
  | Detach id => Some (detachMemory s id)
  | Preopen raw fl => Some (preopen s raw fl)
  | PreopenResume k => preopen_resume s k
  | ReleasePreopen raw => Some (releasePreopen s raw)
  | GuestWrites id memory => if map_has (memories s) id then Some (with_instances s (instances s) (map_set (memories s) id memory) (areas s)) else None
  | ClientWrites i data => Some (with_instances s (instances s) (memories s) (<[i := data]> (areas s)))
  end.

Fixpoint run (evs : list event) (s : server) : option server :=
  match evs with
  | [] => Some s
  | ev :: evs => match handle_event ev s with Some s => run evs s | None => None end
  end.

Definition createFlatsqlIoServer (b : B) (m : M) (maxInstances nslots dataBytes : nat) : server :=
  Server [] [] [] [] 1 [] [] [] false (repeat SAB_IO_INSTANCE_NONE maxInstances) [] (repeat (repeat 0 dataBytes) nslots) b m
    (Stats 0 0 0 0 0 0 0 0) [] [] [].
End server.
