(* ===== verification/IoServerMemory.v ===== *)
(** The in-memory backend (MemoryBackend.v) as the backend of the I/O server (IoServer.v), without
    a mirror, and the requests that clients make of such a server. *)
From Stdlib Require Import ZArith Lia.
From stdpp Require Import base list strings numbers.
From S2P Require Import Prelude JsText JsMap IoContract IoChannel IoServer MemoryBackend.
Open Scope Z_scope.

(** The backend takes any view, and closing a handle changes no file. *)
#[global] Instance memory_backend : IoBackend MemoryBackend.backend MemoryBackend.handle := {
  be_open := MemoryBackend.openFile;
  be_exists k p _ := inl (MemoryBackend.exists_ k p);
  be_remove k p _ := MemoryBackend.remove k p;
  f_read k h _ n at' := MemoryBackend.read k h n at';
  f_write k h _ v at' := match MemoryBackend.write k h v at' with (None, k) => (inl (blen v), k) | (Some e, k) => (inr e, k) end;
  f_truncate k h n := MemoryBackend.truncate k h n;
  f_flush k h := (MemoryBackend.flush k h, k);
  f_size k h := MemoryBackend.getSize k h;
  f_close k _ := k
}.

#[global] Instance no_mirror : IoMirror unit := {
  mirror_writes := false; mirror_match _ := false; mirror_update m _ _ _ _ := m; mirror_clear m _ := m; mirror_bytes _ := 0
}.

(** A server with four instances and four slots. *)
Definition small_server : @server MemoryBackend.backend MemoryBackend.handle unit :=
  createFlatsqlIoServer (createFlatsqlIoMemoryBackend None) tt 4 4 16.

(** Requests of instance [inst] in slot [i]: an open of the path in the data area, and an operation on a
    handle that moves [l] bytes of the data area from [p] on. *)
Definition open_request (i : nat) (inst fl : Z) : job := makeJob i SAB_IO_OP_OPEN inst (-1) fl 0 0 0 2 0.
Definition handle_request (i : nat) (o inst h p l off : Z) : job := makeJob i o inst h 0 p l SAB_IO_DATA_SLOT 0 off.
Definition READ_WRITE_CREATE : Z := 7.
