(* ===== verification/IoServerSafety.v ===== *)
(** Invariants of the FlatSQL I/O server (model in IoServer.v), for every backend and mirror: no
    request is lost or answered twice, and the handles, the reference counts and the revocations
    agree. *)
From Stdlib Require Import ZArith Lia.
From stdpp Require Import base list strings numbers.
From S2P Require Import Prelude JsText JsMap IoContract IoChannel IoServer IoServerMemory.
Open Scope Z_scope.

Lemma map_alter_same {A C} (g : A -> C) (f : A -> A) e (l : list A) : (forall y, g (f y) = g y) -> map g (alter f e l) = map g l.
Proof. intros Hf. revert e. induction l as [|y l IH]; intros [|e]; cbn; try done; [by rewrite Hf|]. f_equal. apply IH. Qed.

Section invariants.
Context {B F M : Type} `{!IoBackend B F} `{!IoMirror M}.
Implicit Types (s : @server B F M) (j : job) (x : list job).

(** ** Where the requests are *)

Definition waits (y : @entry F) : bool * list job := (opening y, waiters y).
Definition task_jobs (t : @task F) : list job := match twork t with WProbe j _ | WUnlink j _ => [j] | _ => [] end.
Definition open_of (t : @task F) : option nat := match twork t with WOpen e _ => Some e | _ => None end.

(** The requests the server holds. *)
Definition all_jobs s : list job := ready s ++ flat_map snd (map waits (heap s)) ++ flat_map task_jobs (tasks s).

Definition progress_ok (t : @task F) : Prop :=
  match tprogress t with Waiting => True | Opened _ => is_Some (open_of t) | Returned _ => open_of t = None end.

(** The requests held, and those in hand ([x]), are the claimed slots, each once; requests wait
    only on entries that are being opened, and an entry is being opened by exactly one task. *)
Record jobs_ok x s : Prop := {
  jo_jobs : map slot (x ++ all_jobs s) ≡ₚ claimed s;
  jo_nodup : NoDup (claimed s);
  jo_wait : forall e o ws, map waits (heap s) !! e = Some (o, ws) -> ws <> [] -> o = true;
  jo_open : forall e ws, map waits (heap s) !! e = Some (true, ws) -> exists k t, tasks s !! k = Some t /\ open_of t = Some e;
  jo_task : forall t e, t ∈ tasks s -> open_of t = Some e -> exists ws, map waits (heap s) !! e = Some (true, ws);
  jo_unique : unique (fun k => tasks s !! k ≫= open_of);
  jo_progress : Forall progress_ok (tasks s)
}.

(** The parts the invariant is about. *)
Ltac perm_jobs H := etrans; [|exact H]; unfold all_jobs; cbn; rewrite ?map_app; cbn; rewrite ?map_app; cbn; try solve_Permutation.

Lemma jobs_ok_same x s s' :
  map waits (heap s') = map waits (heap s) -> tasks s' = tasks s -> ready s' = ready s -> claimed s' = claimed s -> jobs_ok x s -> jobs_ok x s'.
Proof. intros Hh Ht Hr Hc []. constructor; unfold all_jobs in *; by rewrite ?Hh, ?Ht, ?Hr, ?Hc. Qed.

Lemma waits_change s e f : (forall y, waits (f y) = waits y) -> map waits (heap (change_entry s e f)) = map waits (heap s).
Proof. apply map_alter_same. Qed.

Lemma jobs_ok_change x s e f : (forall y, waits (f y) = waits y) -> jobs_ok x s -> jobs_ok x (change_entry s e f).
Proof. intros Hf. apply jobs_ok_same; try done. by apply waits_change. Qed.

Lemma jobs_ok_perm x x' s : x ≡ₚ x' -> jobs_ok x s -> jobs_ok x' s.
Proof. intros Hx []. constructor; try done. by rewrite <- Hx. Qed.

Lemma filter_ne_id (l : list nat) i : i ∉ l -> List.filter (fun k => negb (Nat.eqb k i)) l = l.
Proof.
  induction l as [|k l IH]; intros Hi; cbn; [done|]. apply not_elem_of_cons in Hi as [Hk Hl].
  destruct (Nat.eqb_spec k i) as [->|]; [done|]. cbn. by rewrite IH.
Qed.

Lemma jobs_complete x s j status v : jobs_ok (j :: x) s -> jobs_ok x (complete s j status v).
Proof.
  intros [Hj Hn Hw Ho Ht Hu Hp]. constructor; try done; cbn.
  - cbn in Hj. assert (Hni : slot j ∉ map slot (x ++ all_jobs s)).
    { rewrite <- Hj in Hn. by apply list.NoDup_cons in Hn as [Hni _]. }
    change (map slot (x ++ all_jobs s) ≡ₚ List.filter (fun k => negb (Nat.eqb k (slot j))) (claimed s)).
    rewrite <- (filter_ne_id _ _ Hni). clear Hni Hn.
    assert (Hf : forall l l' : list nat, l ≡ₚ l' -> List.filter (fun k => negb (Nat.eqb k (slot j))) l ≡ₚ List.filter (fun k => negb (Nat.eqb k (slot j))) l').
    { induction 1 as [|k l l' _ IH|k k' l|l l' l'' _ IH1 _ IH2]; cbn; [done|..].
      - destruct (negb _); [by constructor|done].
      - destruct (negb _), (negb _); try done. apply perm_swap.
      - by rewrite IH1. }
    apply Hf in Hj. cbn in Hj. rewrite Nat.eqb_refl in Hj. exact Hj.
  - by apply NoDup_ListNoDup, List.NoDup_filter, NoDup_ListNoDup.
Qed.

Lemma jobs_ready x s j : jobs_ok (j :: x) s -> jobs_ok x (with_ready s (ready s ++ [j]) (claimed s)).
Proof.
  intros [Hj Hn Hw Ho Ht Hu Hp]. constructor; try done. perm_jobs Hj.
Qed.

Lemma jobs_take x s j r : ready s = j :: r -> jobs_ok x s -> jobs_ok (j :: x) (with_ready s r (claimed s)).
Proof.
  intros Hr [Hj Hn Hw Ho Ht Hu Hp]. constructor; try done. perm_jobs Hj. rewrite Hr. cbn. solve_Permutation.
Qed.

Lemma jobs_claim x s j : jobs_ok x s -> jobs_ok x (claim s j).
Proof.
  intros [Hj Hn Hw Ho Ht Hu Hp]. unfold claim. case_bool_decide as Hc; [by constructor|]. constructor; try done; cbn.
  - rewrite <- Hj. unfold all_jobs. cbn. rewrite !map_app. cbn. solve_Permutation.
  - apply list.NoDup_app. split_and!; [done| |apply NoDup_singleton]. by intros i Hi ->%list_elem_of_singleton.
Qed.

Lemma waits_lookup s e o ws : map waits (heap s) !! e = Some (o, ws) -> exists y, heap s !! e = Some y /\ opening y = o /\ waiters y = ws.
Proof. intros (y & [= -> ->] & Hy)%list_lookup_fmap_Some. eauto. Qed.

Lemma lookup_alter_Some {A} (l : list A) f i k y :
  alter f i l !! k = Some y -> exists y0, l !! k = Some y0 /\ y = (if decide (i = k) then f y0 else y0).
Proof.
  destruct (decide (i = k)) as [->|Hne].
  - rewrite list_lookup_alter_eq. destruct (l !! k); [|done]. intros [= <-]. eauto.
  - rewrite list_lookup_alter_ne by done. eauto.
Qed.

(** A request parks on an entry that is being opened. *)
Lemma jobs_park x s j e : (forall y, heap s !! e = Some y -> opening y = true) -> is_Some (heap s !! e) -> jobs_ok (j :: x) s -> jobs_ok x (parkOnEntry s j e).
Proof.
  intros Hop [y Hy] [Hj Hn Hw Ho Ht Hu Hp].
  assert (Hl : forall k o ws, map waits (alter (add_waiter j) e (heap s)) !! k = Some (o, ws) ->
    exists ws0, map waits (heap s) !! k = Some (o, ws0) /\ (ws0 = ws \/ o = true)).
  { intros k o ws (z & Hz & Hk)%list_lookup_fmap_Some. apply lookup_alter_Some in Hk as (z0 & Hk & ->). exists (waiters z0).
    assert (Hm : map waits (heap s) !! k = Some (waits z0)) by (by rewrite list_lookup_fmap, Hk). rewrite Hm.
    destruct (decide (e = k)) as [->|]; cbn in Hz; injection Hz as -> ->; [|by auto]. split; [done|]. right. by apply Hop. }
  constructor; try done.
  - assert (Hf : flat_map snd (map waits (alter (add_waiter j) e (heap s))) ≡ₚ j :: flat_map snd (map waits (heap s))).
    { clear -Hy. revert e Hy. induction (heap s) as [|z l IH]; intros [|e] Hy; try done; cbn in *.
      - solve_Permutation.
      - rewrite IH by done. solve_Permutation. }
    etrans; [|exact Hj]. unfold all_jobs. cbn. rewrite Hf, ?map_app. cbn. solve_Permutation.
  - intros k o ws Hk Hne. apply Hl in Hk as (ws0 & Hk & [->|H]); [by apply (Hw k o ws)|done].
  - intros k ws Hk. apply Hl in Hk as (ws0 & Hk & _). by apply (Ho k ws0).
  - intros t k Hin Hk. destruct (Ht t k Hin Hk) as (ws & Hws). apply list_lookup_fmap_Some in Hws as (z & Hz & Hk').
    cbn. destruct (decide (e = k)) as [->|Hne].
    + exists (waiters z ++ [j]). rewrite list_lookup_fmap, list_lookup_alter_eq, Hk'. cbn. unfold waits in *. injection Hz as Hz _. cbn. by rewrite <- Hz.
    + exists ws. rewrite list_lookup_fmap, list_lookup_alter_ne, Hk' by done. cbn. by rewrite Hz.
Qed.

(** A task without an open joins. *)
Lemma jobs_chain x s p w : open_of (Task p w Waiting) = None -> jobs_ok (task_jobs (Task p w Waiting) ++ x) s -> jobs_ok x (chainPath s p w).
Proof.
  intros Hop [Hj Hn Hw Ho Ht Hu Hp]. constructor; try done; cbn.
  - etrans; [|exact Hj]. unfold all_jobs. cbn. rewrite flat_map_app. cbn [flat_map]. rewrite ?map_app. cbn. solve_Permutation.
  - intros e ws He. destruct (Ho e ws He) as (k & t & Hk & Hte). exists k, t. split; [|done]. by apply lookup_app_l_Some.
  - intros t e [Hin| ->%list_elem_of_singleton]%elem_of_app He; [by apply (Ht t e)|]. congruence.
  - intros k m e Hk Hm. apply bind_Some in Hk as (t & Hk & Hte), Hm as (t' & Hm & Hte').
    assert (Hin : forall k t, (tasks s ++ [Task p w Waiting]) !! k = Some t -> open_of t = Some e -> tasks s !! k ≫= open_of = Some e).
    { intros i u [H|[_ [_ <-]%list_lookup_singleton_Some]]%lookup_app_Some Hu'; [by rewrite H|congruence]. }
    apply (Hu k m e); cbv beta; eauto.
  - apply Forall_app. split; [done|]. by apply Forall_singleton.
Qed.

(** An entry is added with its open. *)
Lemma jobs_startOpen x s p cs fl : jobs_ok x s -> jobs_ok x (startOpen s p cs fl).2.
Proof.
  intros [Hj Hn Hw Ho Ht Hu Hp].
  assert (Hl : forall e w, map waits (heap s ++ [set_opening (new_entry p cs)]) !! e = Some w ->
    map waits (heap s) !! e = Some w \/ e = List.length (heap s) /\ w = (true, [])).
  { intros e w. rewrite map_app. intros [H|[Hge [Hk <-]%list_lookup_singleton_Some]]%lookup_app_Some; [by left|].
    rewrite length_map in *. right. split; [lia|done]. }
  assert (Hnew : forall t e, t ∈ tasks s -> open_of t = Some e -> e <> List.length (heap s)).
  { intros t e Hin He ->. destruct (Ht t _ Hin He) as (ws & Hws). apply lookup_lt_Some in Hws. rewrite length_map in Hws. lia. }
  constructor; try done; cbn.
  - etrans; [|exact Hj]. unfold all_jobs. cbn. rewrite !map_app, !flat_map_app, !map_app. cbn. rewrite ?app_nil_r. solve_Permutation.
  - intros e o ws [H|[-> [= -> ->]]]%Hl Hne; [by apply (Hw e o ws)|done].
  - intros e ws [H|[-> _]]%Hl.
    + destruct (Ho e ws H) as (k & t & Hk & Hte). exists k, t. split; [|done]. by apply lookup_app_l_Some.
    + exists (List.length (tasks s)). eexists. split; [by apply list_lookup_middle|done].
  - intros t e [Hin| ->%list_elem_of_singleton]%elem_of_app He.
    + destruct (Ht t e Hin He) as (ws & Hws). exists ws. rewrite map_app. by apply lookup_app_l_Some.
    + injection He as <-. exists []. rewrite map_app. rewrite lookup_app_r; rewrite length_map; [|lia]. by rewrite Nat.sub_diag.
  - intros k m e Hk Hm. apply bind_Some in Hk as (t & Hk & Hte), Hm as (t' & Hm & Hte').
    apply lookup_app_Some in Hk as [Hk|[Hk1 [Hk2 <-]%list_lookup_singleton_Some]], Hm as [Hm|[Hm1 [Hm2 <-]%list_lookup_singleton_Some]].
    + apply (Hu k m e); cbv beta; [by rewrite Hk|by rewrite Hm].
    + injection Hte' as <-. apply list_elem_of_lookup_2 in Hk. by destruct (Hnew t _ Hk Hte).
    + injection Hte as <-. apply list_elem_of_lookup_2 in Hm. by destruct (Hnew t' _ Hm Hte').
    + lia.
  - apply Forall_app. split; [done|]. by apply Forall_singleton.
Qed.

Lemma flat_map_delete {A C} (g : A -> list C) (l : list A) k t : l !! k = Some t -> flat_map g l ≡ₚ g t ++ flat_map g (delete k l).
Proof.
  revert k. induction l as [|z l IH]; intros [|k] Hk; try done; cbn in *; [by injection Hk as ->|].
  rewrite (IH k Hk). solve_Permutation.
Qed.

Lemma open_delete s k : unique (fun i => tasks s !! i ≫= open_of) -> unique (fun i => delete k (tasks s) !! i ≫= open_of).
Proof.
  intros Hu i m e Hi Hm. assert (Hd : forall i, delete k (tasks s) !! i = tasks s !! (if decide (i < k)%nat then i else S i)).
  { intros n. destruct (decide (n < k)%nat); [by apply list_lookup_delete_lt|]. apply list_lookup_delete_ge. lia. }
  rewrite Hd in Hi, Hm. specialize (Hu _ _ e Hi Hm). repeat case_decide; lia.
Qed.

(** The task of a namespace operation ends: its request is in hand. *)
Lemma jobs_settle_task x s k t :
  tasks s !! k = Some t -> open_of t = None -> jobs_ok x s -> jobs_ok (task_jobs t ++ x) (with_tasks s (delete k (tasks s))).
Proof.
  intros Hk Hop [Hj Hn Hw Ho Ht Hu Hp]. constructor; try done; cbn [tasks heap claimed with_tasks].
  - etrans; [|exact Hj]. unfold all_jobs. cbn. rewrite (flat_map_delete _ _ _ _ Hk). rewrite ?map_app. solve_Permutation.
  - intros e ws He. destruct (Ho e ws He) as (i & u & Hi & Hue).
    assert (Hin : u ∈ delete k (tasks s)).
    { apply list_elem_of_lookup_2 in Hi. rewrite (delete_Permutation _ _ _ Hk) in Hi. apply elem_of_cons in Hi as [->|]; [congruence|done]. }
    apply list_elem_of_lookup in Hin as (i' & Hi'). eauto.
  - intros u e Hin%list_elem_of_delete_inv. by apply Ht.
  - by apply open_delete.
  - apply Forall_delete, Hp.
Qed.

(** An open ends: the requests that wait for it are in hand. *)
Lemma jobs_settle_open x s k t e status f :
  tasks s !! k = Some t -> open_of t = Some e -> jobs_ok x s ->
  jobs_ok (waiters (entry_at s e) ++ x) (change_entry (with_tasks s (delete k (tasks s))) e (set_settled status f)).
Proof.
  intros Hk Hop [Hj Hn Hw Ho Ht Hu Hp].
  destruct (Ht t e (list_elem_of_lookup_2 _ _ _ Hk) Hop) as (ws & Hws). pose proof (waits_lookup s e true ws Hws) as (y & Hy & Hyo & Hyw).
  assert (He : entry_at s e = y) by (unfold entry_at; by rewrite Hy). rewrite He.
  assert (Hl : forall i o w, map waits (alter (set_settled status f) e (heap s)) !! i = Some (o, w) ->
    i = e /\ o = false /\ w = [] \/ i <> e /\ map waits (heap s) !! i = Some (o, w)).
  { intros i o w (z & Hz & Hi)%list_lookup_fmap_Some. apply lookup_alter_Some in Hi as (z0 & Hi & ->).
    destruct (decide (e = i)) as [->|]; [left; cbn in Hz; by injection Hz as -> ->|]. right. split; [congruence|].
    rewrite list_lookup_fmap, Hi. cbn. by rewrite Hz. }
  assert (Hnot : forall u, u ∈ delete k (tasks s) -> open_of u <> Some e).
  { intros u (i & Hi)%list_elem_of_lookup Hue. assert (exists i', tasks s !! i' = Some u /\ i' <> k) as (i' & Hi' & Hne).
    { destruct (decide (i < k)%nat); [exists i; split; [by rewrite list_lookup_delete_lt in Hi|lia]|].
      exists (S i). split; [rewrite list_lookup_delete_ge in Hi by lia; done|lia]. }
    apply Hne. apply (Hu i' k e); cbv beta; [by rewrite Hi'|by rewrite Hk]. }
  constructor; try done; cbn [tasks heap claimed with_tasks change_entry with_entries].
  - etrans; [|exact Hj]. unfold all_jobs. cbn. rewrite (flat_map_delete task_jobs _ _ _ Hk).
    assert (task_jobs t = []) as -> by (unfold open_of, task_jobs in *; by destruct (twork t)).
    assert (Hf : flat_map snd (map waits (heap s)) ≡ₚ waiters y ++ flat_map snd (map waits (alter (set_settled status f) e (heap s)))).
    { clear -Hy. revert e Hy. induction (heap s) as [|z l IH]; intros [|e] Hy; try done; cbn in *; [by injection Hy as ->|].
      rewrite IH by done. solve_Permutation. }
    rewrite Hf, ?map_app. cbn. solve_Permutation.
  - intros i o w [(-> & -> & ->)|[_ H]]%Hl Hne; [done|]. by apply (Hw i o w).
  - intros i w [(-> & ? & ->)|[Hne H]]%Hl; [done|]. destruct (Ho i w H) as (m & u & Hm & Hu').
    assert (Hin : u ∈ delete k (tasks s)).
    { apply list_elem_of_lookup_2 in Hm. rewrite (delete_Permutation _ _ _ Hk) in Hm. apply elem_of_cons in Hm as [->|]; [congruence|done]. }
    apply list_elem_of_lookup in Hin as (m' & Hm'). eauto.
  - intros u i Hin Hi. pose proof (Hnot u Hin) as Hne. apply list_elem_of_delete_inv in Hin. destruct (Ht u i Hin Hi) as (w & Hwi). exists w.
    apply list_lookup_fmap_Some in Hwi as (z & Hz & Hzi). rewrite list_lookup_fmap, list_lookup_alter_ne, Hzi by congruence. cbn. by rewrite Hz.
  - by apply open_delete.
  - apply Forall_delete, Hp.
Qed.

(** The backend call of a task returns. *)
Lemma jobs_called x s k p w r r' :
  tasks s !! k = Some (Task p w r) -> progress_ok (Task p w r') -> jobs_ok x s -> jobs_ok x (with_tasks s (<[k := Task p w r']> (tasks s))).
Proof.
  intros Hk Hr [Hj Hn Hw Ho Ht Hu Hp]. assert (Hlt : (k < List.length (tasks s))%nat) by (by eapply lookup_lt_Some).
  assert (Hl : forall i, <[k := Task p w r']> (tasks s) !! i ≫= open_of = tasks s !! i ≫= open_of).
  { intros i. destruct (decide (i = k)) as [->|]; [rewrite list_lookup_insert_eq, Hk by done; done|by rewrite list_lookup_insert_ne]. }
  constructor; try done; cbn [tasks heap claimed with_tasks].
  - etrans; [|exact Hj]. unfold all_jobs. cbn. assert (flat_map task_jobs (<[k := Task p w r']> (tasks s)) = flat_map task_jobs (tasks s)) as ->; [|done].
    clear -Hk. revert k Hk. induction (tasks s) as [|u l IH]; intros [|k] Hk; try done; cbn in *; [by injection Hk as ->|]. by rewrite IH.
  - intros e ws He. destruct (Ho e ws He) as (i & u & Hi & Hue). assert (H : tasks s !! i ≫= open_of = Some e) by (by rewrite Hi).
    rewrite <- Hl in H. apply bind_Some in H as (u' & ? & ?). eauto.
  - intros u e (i & Hi)%list_elem_of_lookup He. assert (H : tasks s !! i ≫= open_of = Some e) by (rewrite <- Hl; by rewrite Hi).
    apply bind_Some in H as (u' & Hi' & Hue). apply (Ht u' e); [by eapply list_elem_of_lookup_2|done].
  - intros i m e Hi Hm. rewrite Hl in Hi, Hm. by apply (Hu i m e).
  - apply Forall_insert; done.
Qed.

Lemma jobs_slot x s j j' : slot j' = slot j -> jobs_ok (j :: x) s -> jobs_ok (j' :: x) s.
Proof. intros Hs [Hj Hn Hw Ho Ht Hu Hp]. constructor; try done. cbn in *. by rewrite Hs. Qed.

(** The part of the state the invariant is about has not changed. *)
Ltac same := match goal with H : jobs_ok ?x ?s |- jobs_ok ?x ?s' => apply (jobs_ok_same x s s'); [reflexivity..|exact H] end.

Lemma jobs_addHandle x s e i fl : jobs_ok x s -> jobs_ok x (addHandle s e i fl).2.
Proof.
  intros H. unfold addHandle. destruct (allocateHandleId _ _) as [id next]. destruct (id <? 0); cbn [snd]; [by same|].
  apply jobs_ok_change; [done|]. by same.
Qed.

Lemma jobs_close_file x s e : jobs_ok x s -> jobs_ok x (close_file s e).
Proof. intros H. unfold close_file. destruct (file _); [|done]. apply jobs_ok_change; [done|]. by same. Qed.

Lemma jobs_releaseEntry x s e : jobs_ok x s -> jobs_ok x (releaseEntry s e).
Proof.
  intros H. unfold releaseEntry. destruct (_ || _); [done|].
  assert (H1 : jobs_ok x (close_file (drop_current s e) e)).
  { apply jobs_close_file. unfold drop_current. destruct (is_current s e); [by same|done]. }
  destruct (_ && _); [|done]. by apply jobs_chain.
Qed.

Lemma jobs_closeHandle x s id : jobs_ok x s -> jobs_ok x (closeHandle s id).
Proof.
  intros H. unfold closeHandle. destruct (map_get (handles s) id) as [h|]; [|done].
  apply jobs_releaseEntry, jobs_ok_change; [done|]. by same.
Qed.

Lemma jobs_closeHandles x s ids : jobs_ok x s -> jobs_ok x (fold_left closeHandle ids s).
Proof. revert s. induction ids as [|id ids IH]; intros s H; [done|]. by apply IH, jobs_closeHandle. Qed.

Lemma jobs_revoke x s id : jobs_ok x s -> jobs_ok x (revoke_instance s id).
Proof.
  intros H. unfold revoke_instance. destruct (_ =? _); [|done].
  destruct (map_get (byInstance s) id) as [owned|]; [|by same]. pose proof (jobs_closeHandles _ _ owned H). by same.
Qed.

Lemma jobs_revocations x s : jobs_ok x s -> jobs_ok x (applyRevocations s).
Proof.
  unfold applyRevocations. generalize (map Z.of_nat (List.seq 0 (List.length (instances s)))). intros l. revert s.
  induction l as [|id l IH]; intros s H; [done|]. by apply IH, jobs_revoke.
Qed.

Lemma jobs_scan x s pending : jobs_ok x s -> jobs_ok x (scanSlots s pending).
Proof.
  intros H. assert (H' : jobs_ok x (fold_left claim pending s)); [|unfold scanSlots; by same].
  revert s H. induction pending as [|j l IH]; intros s H; [done|]. by apply IH, jobs_claim.
Qed.

(** What a step may do with the request in hand. *)
Definition step_ok x j (r : outcome * @server B F M) : Prop :=
  match r with (STEP_AGAIN j', s) => slot j' = slot j /\ jobs_ok (j' :: x) s | (_, s) => jobs_ok x s end.

Lemma finish_ok x s j j' status : slot j' = slot j -> jobs_ok (j :: x) s -> step_ok x j (finish s j' status).
Proof. intros Hs H. apply jobs_complete. by apply (jobs_slot _ _ j). Qed.

Lemma park_ok x s j j' e : slot j' = slot j -> opening (entry_at s e) = true -> jobs_ok (j :: x) s -> step_ok x j (STEP_PARKED, parkOnEntry s j' e).
Proof.
  intros Hs Ho H. unfold entry_at in Ho. destruct (heap s !! e) as [y|] eqn:E; [|done].
  apply jobs_park; [by intros y' [= <-]%(eq_trans (eq_sym E))|by exists y|]. by apply (jobs_slot _ _ j).
Qed.

Lemma namespace_ok x s j p w : open_of (Task p w Waiting) = None -> map slot (task_jobs (Task p w Waiting)) = [slot j] ->
  jobs_ok (j :: x) s -> step_ok x j (runNamespace s p w).
Proof.
  intros Hop Hj H. assert (H' : jobs_ok x (chainPath s p w)); [|cbn; by same]. apply jobs_chain; [done|].
  destruct (task_jobs _) as [|j' [|]] eqn:E; try done. injection Hj as Hj. cbn. by apply (jobs_slot _ _ j).
Qed.

Lemma step_namespace_ok x s j p cs : jobs_ok (j :: x) s -> step_ok x j (step_namespace s j p cs).
Proof.
  intros H. unfold step_namespace. destruct (map_get (entries s) p) as [e|].
  - destruct (opening (entry_at s e)) eqn:Ho; [by apply park_ok|]. destruct (has_flag _ _).
    + destruct (_ =? _); [by apply finish_ok|]. by apply namespace_ok.
    + destruct (0 <? refs _); [apply finish_ok; [done|]; by same|]. apply namespace_ok; [done|done|].
      destruct (0 <? pins _); [|done]. apply jobs_releaseEntry. by apply jobs_ok_change.
  - destruct (has_flag _ _); by apply namespace_ok.
Qed.

(** Taking a handle and completing. *)
Lemma take_ok x s j e : jobs_ok (j :: x) s ->
  step_ok x j (let (id, s) := addHandle s e (instanceId j) (flags j) in finish s j id).
Proof. intros H. pose proof (jobs_addHandle _ _ e (instanceId j) (flags j) H) as Ha. destruct (addHandle _ _ _ _) as [id s']. by apply finish_ok. Qed.

Lemma open_fresh_ok x s j p cs : jobs_ok (j :: x) s -> step_ok x j (open_fresh s j p cs).
Proof.
  intros H. unfold open_fresh. pose proof (jobs_startOpen _ s p cs (flags j) H) as Hs.
  assert (Ho : opening (entry_at (startOpen s p cs (flags j)).2 (startOpen s p cs (flags j)).1) = true).
  { unfold entry_at. cbn. by rewrite list_lookup_middle. }
  destruct (startOpen _ _ _ _) as [e s']. destruct (has_flag _ _); [apply take_ok; by same|]. by apply park_ok.
Qed.

Lemma mirror_set_ok x s p a b t : jobs_ok x s -> jobs_ok x (mirror_set s p a b t).
Proof. intros H. unfold mirror_set. destruct (_ && _); [by same|done]. Qed.

Lemma open_shared_ok x s j e : jobs_ok (j :: x) s -> step_ok x j (open_shared s j e).
Proof.
  intros H. unfold open_shared. destruct (has_flag _ _); [by apply finish_ok|]. destruct (_ && _); [|by apply take_ok].
  destruct (file _) as [f|]; [|by apply finish_ok]. destruct (f_truncate _ _ _) as [[err|] b]; [apply finish_ok; [done|]; by same|].
  apply take_ok, mirror_set_ok. by same.
Qed.

Lemma stepOpen_ok x s j : jobs_ok (j :: x) s -> step_ok x j (stepOpen s j).
Proof.
  intros H. unfold stepOpen. destruct (phase j =? 2); [by apply finish_ok|]. destruct (isRevoked _ _); [by apply finish_ok|].
  destruct (open_path s j) as [[p cs]|status]; [|by apply finish_ok].
  change (step_ok x (set_path j (p, cs)) (step_open_path s (set_path j (p, cs)) p cs)).
  assert (H' : jobs_ok (set_path j (p, cs) :: x) s) by (by apply (jobs_slot _ _ j)). clear H. revert H'. generalize (set_path j (p, cs)) as j'.
  intros j' H. unfold step_open_path. destruct (has_flag _ _); [by apply step_namespace_ok|].
  destruct (map_get (entries s) p) as [e|]; [|by apply open_fresh_ok].
  destruct (opening (entry_at s e)) eqn:Ho.
  - destruct (has_flag _ _); [apply take_ok; by same|]. by apply park_ok.
  - destruct (_ =? 0); [by apply open_shared_ok|]. apply open_fresh_ok. by same.
Qed.

Context (chunkBytes : Z).

Lemma moved_ok x s j n piece : jobs_ok (j :: x) s -> step_ok x j (moved s j n piece).
Proof.
  intros H. unfold moved. assert (H' : jobs_ok (set_done j (done_ j + n) :: x) (count s add_chunks)).
  { apply (jobs_slot _ _ j); [done|]. by same. }
  destruct (_ || _); [|done]. by apply jobs_complete.
Qed.

Lemma op_error_ok x s j err : jobs_ok (j :: x) s -> step_ok x j (op_error s j err).
Proof. intros H. by apply finish_ok. Qed.

Lemma jobs_store_buffer x s j b : jobs_ok x s -> jobs_ok x (store_buffer s j b).
Proof. intros H. unfold store_buffer. destruct (_ =? _); by same. Qed.

Lemma jobs_fileRead x s f n a sh : jobs_ok x s -> jobs_ok x (fileRead s f n a sh).2.
Proof.
  intros H. unfold fileRead. destruct (rejected s); [done|]. destruct (f_read _ _ _ _ _); [done|]. destruct (_ && _); [by same|done].
Qed.
Lemma jobs_fileWrite x s f v a sh : jobs_ok x s -> jobs_ok x (fileWrite s f v a sh).2.
Proof.
  intros H. unfold fileWrite. destruct (rejected s); [destruct (f_write _ _ _ _ _); by same|].
  destruct (f_write _ _ sh _ _) as [[n|err] b]; [by same|]. destruct (_ && _); [|by same].
  destruct (f_write _ _ false _ _) as [r b']. by same.
Qed.

Lemma file_op_ok x s j h f : jobs_ok (j :: x) s -> step_ok x j (file_op chunkBytes s j h f).
Proof.
  intros H. unfold file_op. destruct (op j =? SAB_IO_OP_READ).
  { unfold step_read. destruct (negb _); [by apply finish_ok|]. destruct (resolveView s j) as [buf|]; [|by apply finish_ok].
    pose proof (jobs_fileRead _ s f (Z.min chunkBytes (len j - done_ j)) (offset j + done_ j) true H) as Hr.
    destruct (fileRead _ _ _ _ _) as [[bytes|err] s']; [|by apply op_error_ok]. by apply moved_ok, jobs_store_buffer. }
  destruct (op j =? SAB_IO_OP_WRITE).
  { unfold step_write. destruct (negb _); [by apply finish_ok|]. destruct (resolveView s j) as [buf|]; [|by apply finish_ok].
    match goal with |- context [fileWrite s f ?v ?a true] => pose proof (jobs_fileWrite _ s f v a true H) as Hr end.
    destruct (fileWrite _ _ _ _ _) as [[n|err] s']; [|by apply op_error_ok]. by apply moved_ok, mirror_set_ok. }
  destruct (op j =? SAB_IO_OP_TRUNCATE).
  { unfold step_truncate. destruct (negb _); [by apply finish_ok|].
    destruct (f_truncate _ _ _) as [[err|] b]; [apply op_error_ok; by same|]. apply finish_ok; [done|]. apply mirror_set_ok. by same. }
  destruct (op j =? SAB_IO_OP_SYNC).
  { destruct (f_flush _ _) as [[err|] b]; [apply op_error_ok; by same|]. apply finish_ok; [done|]. by same. }
  destruct (op j =? SAB_IO_OP_SIZE); [|by apply finish_ok].
  destruct (f_size _ _); [by apply jobs_complete|by apply op_error_ok].
Qed.

Lemma step_jobs x s j : jobs_ok (j :: x) s -> step_ok x j (step chunkBytes s j).
Proof.
  intros H. unfold step. destruct (_ =? _); [by apply stepOpen_ok|]. destruct (is_handle_op _); [|by apply finish_ok].
  unfold stepHandleOp. destruct (isRevoked _ _); [by apply finish_ok|]. destruct (map_get (handles s) _) as [h|]; [|by apply finish_ok].
  destruct (opening _) eqn:Ho; [by apply park_ok|]. destruct (op j =? _).
  { apply finish_ok; [done|]. by apply jobs_closeHandle. }
  destruct (_ <? _); [by apply finish_ok|]. destruct (file _); [by apply file_op_ok|by apply finish_ok].
Qed.

Lemma runReady_jobs s s' pending : jobs_ok [] s -> runReady chunkBytes s pending = Some s' -> jobs_ok [] s'.
Proof.
  unfold runReady. destruct (ready s) as [|j rest] eqn:E; [done|]. intros H. pose proof (step_jobs [] _ j (jobs_take [] s j rest E H)) as Hs.
  destruct (step _ _ _) as [o s1]. intros [= <-]. apply jobs_scan, jobs_revocations.
  destruct o as [|j'|]; [done| |done]. by apply jobs_ready, Hs.
Qed.

Lemma seed_mirror_ok x s e : jobs_ok x s -> jobs_ok x (seed_mirror s e).
Proof.
  intros H. unfold seed_mirror. destruct (file _) as [f|]; [|done]. destruct (_ && _); [|done]. destruct (f_size _ _) as [size|]; [|done].
  set (n := Z.min _ _). destruct (0 <? n); [|by apply mirror_set_ok].
  pose proof (jobs_fileRead _ s f n 0 false H) as Hr. destruct (fileRead _ _ _ _ _) as [[bytes|] s']; [by apply mirror_set_ok|done].
Qed.

Lemma resume_ok x s e status j : jobs_ok (j :: x) s -> jobs_ok x (resume_waiter e status s j).
Proof.
  intros H. unfold resume_waiter.
  assert (Hr : forall s r, jobs_ok (j :: x) s -> jobs_ok x (with_ready s (ready s ++ [set_outcome j r]) (claimed s))).
  { intros s' r H'. apply jobs_ready. by apply (jobs_slot _ _ j). }
  destruct (_ && _); [|by apply jobs_ready]. destruct (status <? 0); [by apply Hr|]. destruct (isRevoked _ _); [by apply Hr|].
  pose proof (jobs_addHandle _ _ e (instanceId j) (flags j) H) as Ha. destruct (addHandle _ _ _ _) as [r s']. by apply Hr.
Qed.

Lemma settle_jobs s k t e status f :
  tasks s !! k = Some t -> open_of t = Some e -> jobs_ok [] s -> jobs_ok [] (settleEntry (with_tasks s (delete k (tasks s))) e status f).
Proof.
  intros Hk He H. unfold settleEntry. change (entry_at (with_tasks _ _) e) with (entry_at s e).
  pose proof (jobs_settle_open [] s k t e status f Hk He H) as H1. rewrite app_nil_r in H1.
  apply (seed_mirror_ok _ _ e) in H1. revert H1. generalize (seed_mirror (change_entry (with_tasks s (delete k (tasks s))) e (set_settled status f)) e) as s1.
  generalize (waiters (entry_at s e)) as ws. intros ws s1 H1.
  assert (H2 : jobs_ok [] (fold_left (resume_waiter e status) ws s1)).
  { clear -H1. revert s1 H1. induction ws as [|j ws IH]; intros s1 H1; [done|]. cbn. by apply IH, resume_ok. }
  destruct (_ && _); [by same|]. destruct (_ && _); [|done]. by apply jobs_releaseEntry.
Qed.

Lemma mirror_forget_ok x s p : jobs_ok x s -> jobs_ok x (mirror_forget s p).
Proof. intros H. unfold mirror_forget. destruct mirror_writes; [by same|done]. Qed.

Lemma settle_task_jobs s s' k : jobs_ok [] s -> settle_task s k = Some s' -> jobs_ok [] s'.
Proof.
  intros H. unfold settle_task. destruct (tasks s !! k) as [[p w r]|] eqn:Hk; [|done].
  destruct w as [e fl|cs|j cs|j cs].
  - destruct r as [|[f|err]|]; [done| | |done]; intros [= <-]; by eapply settle_jobs.
  - destruct r as [| |r]; [done|done|]. intros [= <-]. apply mirror_forget_ok. exact (jobs_settle_task [] s k _ Hk eq_refl H).
  - destruct r as [| |r]; [done|done|]. intros [= <-]. exact (jobs_ready [] _ (set_outcome j _) (jobs_slot _ _ j (set_outcome j _) eq_refl (jobs_settle_task [] s k _ Hk eq_refl H))).
  - destruct r as [| |r]; [done|done|]. intros [= <-]. pose proof (jobs_settle_task [] s k _ Hk eq_refl H) as H1.
    destruct r; [apply (mirror_forget_ok _ _ p) in H1|]; exact (jobs_ready [] _ (set_outcome j _) (jobs_slot _ _ j (set_outcome j _) eq_refl H1)).
Qed.

Lemma call_task_jobs s s' k : jobs_ok [] s -> call_task s k = Some s' -> jobs_ok [] s'.
Proof.
  intros H. unfold call_task. destruct (tasks s !! k) as [[p w [| |]]|] eqn:Hk; try done. destruct (first_of_path _ _); [|done].
  assert (Hc : forall r b m rj, progress_ok (Task p w r) -> jobs_ok [] (with_backend (with_tasks s (<[k := Task p w r]> (tasks s))) b m rj)).
  { intros r b m rj Hr. pose proof (jobs_called [] s k p w _ r Hk Hr H). by same. }
  destruct w as [e fl|cs|j cs|j cs].
  - destruct (be_open _ _ _ _) as [r b]. intros [= <-]. apply Hc. by eexists.
  - destruct (be_remove _ _ _) as [r b]. intros [= <-]. by apply Hc.
  - intros [= <-]. by apply Hc.
  - destruct (be_remove _ _ _) as [r b]. intros [= <-]. by apply Hc.
Qed.

Lemma jobs_preopen_end x s e : jobs_ok x s -> jobs_ok x (preopen_end s e).
Proof.
  intros H. unfold preopen_end. destruct (_ <? _); [|by same].
  pose proof (jobs_ok_change x s e (set_pins (Z.max 0 (pins (entry_at s e) - 1))) ltac:(done) H). by same.
Qed.

Lemma jobs_preopen x s raw fl : jobs_ok x s -> jobs_ok x (preopen s raw fl).
Proof.
  intros H. unfold preopen. destruct (splitFlatsqlIoPath raw) as [cs|]; [|by same].
  assert (He : jobs_ok x (match map_get (entries s) (join_path cs) with
    | Some e => (e, s) | None => startOpen s (join_path cs) cs (js_and fl (Z.lnot FLATSQL_IO_OPEN_DEFERRED)) end).2).
  { destruct (map_get _ _); [done|]. by apply jobs_startOpen. }
  destruct (match map_get _ _ with Some _ => _ | None => _ end) as [e s']. cbn in He.
  pose proof (jobs_ok_change x s' e (set_pins (pins (entry_at s' e) + 1)) ltac:(done) He). destruct (opening _); [by same|]. by apply jobs_preopen_end.
Qed.

Lemma event_jobs ev s s' : jobs_ok [] s -> handle_event chunkBytes ev s = Some s' -> jobs_ok [] s'.
Proof.
  intros H. destruct ev as [l|l|k|k|id|id|id m|id|raw fl|k|raw|id m|i d]; cbn [handle_event].
  - intros [= <-]. by apply jobs_scan, jobs_revocations.
  - by apply runReady_jobs.
  - by apply call_task_jobs.
  - by apply settle_task_jobs.
  - intros [= <-]. unfold store_instance. destruct (in_instances _ _); [by same|done].
  - intros [= <-]. unfold store_instance. destruct (in_instances _ _); [by same|done].
  - intros [= <-]. unfold attachMemory. destruct (negb _); [done|]. destruct (isRevoked _ _); [done|]. cbn. by same.
  - intros [= <-]. unfold detachMemory. destruct (_ && _); by same.
  - intros [= <-]. by apply jobs_preopen.
  - unfold preopen_resume. destruct (preopens s !! k); [|done]. destruct (opening _); [done|]. intros [= <-]. apply jobs_preopen_end. by same.
  - intros [= <-]. unfold releasePreopen. destruct (splitFlatsqlIoPath raw); [|done]. destruct (map_get _ _); [|done].
    destruct (0 <? _); [|done]. by apply jobs_releaseEntry, jobs_ok_change.
  - destruct (map_has _ _); [|done]. intros [= <-]. by same.
  - intros [= <-]. by same.
Qed.

(** ** Handles *)

Definition sig (y : @entry F) : jsstring * Z := (path y, refs y).
Definition held (hs : list (Z * handle)) (e : nat) : Z := blen (List.filter (fun p => Nat.eqb (hentry p.2) e) hs).

(** Handle ids are distinct and in range, an entry's reference count is the number of its handles,
    the index by instance lists exactly the handles of the instance, an acknowledged revocation
    leaves none, and the path table names entries of that path. *)
Record handles_ok s : Prop := {
  ho_ids : NoDup (map_keys (handles s));
  ho_range : forall id h, map_get (handles s) id = Some h -> 1 <= id <= MAX_HANDLE_ID /\ (hentry h < List.length (heap s))%nat;
  ho_next : 1 <= nextHandleId s <= MAX_HANDLE_ID;
  ho_refs : forall e p n, map sig (heap s) !! e = Some (p, n) -> n = held (handles s) e;
  ho_owned : forall i id, id ∈ default [] (map_get (byInstance s) i) <-> exists h, map_get (handles s) id = Some h /\ hinstance h = i;
  ho_revoked : forall id h, map_get (handles s) id = Some h -> instanceState s (hinstance h) <> SAB_IO_INSTANCE_REVOKED;
  ho_entries : forall p e, map_get (entries s) p = Some e -> exists n, map sig (heap s) !! e = Some (p, n)
}.

Lemma handles_ok_same s s' :
  map sig (heap s') = map sig (heap s) -> handles s' = handles s -> byInstance s' = byInstance s -> nextHandleId s' = nextHandleId s ->
  instances s' = instances s -> entries s' = entries s -> handles_ok s -> handles_ok s'.
Proof.
  intros Hh Ha Hb Hn Hi He []. assert (Hl : List.length (heap s') = List.length (heap s)) by (rewrite <- (length_map sig), Hh; apply length_map).
  assert (Hs : forall i, instanceState s' i = instanceState s i) by (intros i; unfold instanceState, maxInstances; by rewrite Hi).
  constructor; rewrite ?Hh, ?Ha, ?Hb, ?Hn, ?He, ?Hl; try done. intros id h. rewrite Hs. eauto.
Qed.

(** The part of the state the invariant is about has not changed. *)
Ltac hsame := match goal with H : handles_ok ?s |- handles_ok ?s' => apply (handles_ok_same s s'); [reflexivity..|exact H] end.

Lemma handles_ok_change s e f : (forall y, sig (f y) = sig y) -> handles_ok s -> handles_ok (change_entry s e f).
Proof. intros Hf. apply handles_ok_same; try done. by apply map_alter_same. Qed.

Lemma handles_drop s p : handles_ok s -> handles_ok (with_entries s (heap s) (map_delete (entries s) p)).
Proof.
  intros [H1 H2 H3 H4 H5 H6 H7]. constructor; try done. intros p' e. cbn. rewrite map_get_delete. destruct (decide (p = p')); [done|]. apply H7.
Qed.

Lemma rounds_ind {A R} (f : A -> R + A) (P : A -> Prop) (Q : R -> Prop) n (a : A) :
  (forall a, P a -> match f a with inl r => Q r | inr a => P a end) -> P a -> match rounds f n a with inl r => Q r | inr a => P a end.
Proof.
  intros Hf. revert a. induction n as [n IH|n IH|]; intros a Ha; cbn.
  - pose proof (Hf a Ha) as H. destruct (f a) as [|a1]; [done|]. pose proof (IH a1 H). destruct (rounds f n a1) as [|a2]; [done|]. by apply IH.
  - pose proof (IH a Ha). destruct (rounds f n a) as [|a1]; [done|]. by apply IH.
  - by apply Hf.
Qed.

Lemma allocate_id_ok (hs : list (Z * handle)) next id next' :
  1 <= next <= MAX_HANDLE_ID -> allocateHandleId hs next = (id, next') ->
  1 <= next' <= MAX_HANDLE_ID /\ (id < 0 \/ 1 <= id <= MAX_HANDLE_ID /\ map_get hs id = None).
Proof.
  intros Hn. unfold allocateHandleId.
  assert (Hr : forall x : Z, 1 <= (if MAX_HANDLE_ID <=? x then 1 else x + 1) <= MAX_HANDLE_ID \/ x < 0 \/ MAX_HANDLE_ID < x).
  { intros x. destruct (Z.leb_spec MAX_HANDLE_ID x); unfold MAX_HANDLE_ID in *; lia. }
  pose proof (rounds_ind (try_id hs) (fun n => 1 <= n <= MAX_HANDLE_ID)
    (fun r => 1 <= r.2 <= MAX_HANDLE_ID /\ 1 <= r.1 <= MAX_HANDLE_ID /\ map_get hs r.1 = None) (Z.to_pos MAX_HANDLE_ID) next) as H.
  destruct (rounds _ _ _) as [[id0 n0]|n0]; intros [= <- <-].
  - destruct H as (? & ? & ?); [|done|auto]. intros x Hx. unfold try_id, map_has. specialize (Hr x).
    destruct (map_get hs x) eqn:E; cbn [fst snd]; unfold MAX_HANDLE_ID in *; destruct (_ <=? _); split_and?; try done; lia.
  - split; [|lia]. apply H; [|done]. intros x Hx. unfold try_id, map_has. specialize (Hr x).
    destruct (map_get hs x) eqn:E; cbn [fst snd]; unfold MAX_HANDLE_ID in *; destruct (_ <=? _); split_and?; try done; lia.
Qed.

Lemma map_set_fresh {V} (m : list (Z * V)) k v : map_get m k = None -> map_set m k v = m ++ [(k, v)].
Proof.
  induction m as [|[k' v'] m IH]; cbn; [done|]. destruct (decide (k' = k)); [done|]. intros H. by rewrite IH.
Qed.

Lemma held_app hs hs' e : held (hs ++ hs') e = held hs e + held hs' e.
Proof. unfold held. by rewrite filter_app, blen_app. Qed.

Lemma held_one id h e : held [(id, h)] e = if Nat.eqb (hentry h) e then 1 else 0.
Proof. unfold held. cbn. by destruct (Nat.eqb (hentry h) e). Qed.

Lemma held_delete hs id h e : NoDup (map_keys hs) -> map_get hs id = Some h ->
  held (map_delete hs id) e = held hs e - (if Nat.eqb (hentry h) e then 1 else 0).
Proof.
  unfold held, map_delete. induction hs as [|[k v] hs IH]; cbn; [done|]. intros [Hk Hn]%list.NoDup_cons Hg.
  destruct (decide (k = id)) as [->|Hne].
  - injection Hg as ->. rewrite bool_decide_eq_true_2 by done. cbn [negb].
    assert (Hf : List.filter (fun e0 : Z * handle => negb (bool_decide (e0.1 = id))) hs = hs).
    { clear -Hk. induction hs as [|[k v] hs IH]; [done|]. cbn in *. apply not_elem_of_cons in Hk as [Hk1 Hk2].
      rewrite bool_decide_eq_false_2 by done. cbn. by rewrite IH. }
    rewrite Hf. destruct (Nat.eqb (hentry h) e); blia.
  - rewrite bool_decide_eq_false_2 by done. cbn. specialize (IH Hn Hg). destruct (Nat.eqb (hentry v) e); blia.
Qed.

Lemma elem_of_set_remove l (x y : Z) : y ∈ set_remove l x <-> y ∈ l /\ y <> x.
Proof.
  unfold set_remove. rewrite !list_elem_of_In, filter_In. destruct (Z.eqb_spec y x); cbn; [|tauto]. split; [intros [? ?]; done|]. by intros [_ ?].
Qed.
Lemma elem_of_set_add l (x y : Z) : y ∈ set_add l x <-> y ∈ l \/ y = x.
Proof.
  unfold set_add. case_bool_decide; [split; [tauto|intros [?| ->]; done]|]. rewrite elem_of_app, list_elem_of_singleton. tauto.
Qed.

Lemma entry_sig s e y : heap s !! e = Some y -> map sig (heap s) !! e = Some (path y, refs y).
Proof. intros H. by rewrite list_lookup_fmap, H. Qed.

Lemma sig_alter s e f k p n : map sig (alter f e (heap s)) !! k = Some (p, n) ->
  exists y, heap s !! k = Some y /\ (p, n) = sig (if decide (e = k) then f y else y).
Proof. intros (z & -> & Hz)%list_lookup_fmap_Some. apply lookup_alter_Some in Hz as (y & Hy & ->). eauto. Qed.

Lemma sig_path s e f k p n : (forall y, path (f y) = path y) -> map sig (heap s) !! k = Some (p, n) ->
  exists n, map sig (alter f e (heap s)) !! k = Some (p, n).
Proof.
  intros Hf (y & [= -> ->] & Hy)%list_lookup_fmap_Some. destruct (decide (e = k)) as [->|Hne].
  - rewrite list_lookup_fmap, list_lookup_alter_eq, Hy. cbn. unfold sig. rewrite Hf. eauto.
  - rewrite list_lookup_fmap, list_lookup_alter_ne, Hy by done. eauto.
Qed.

Lemma handles_add s e i fl :
  (e < List.length (heap s))%nat -> instanceState s i <> SAB_IO_INSTANCE_REVOKED -> handles_ok s -> handles_ok (addHandle s e i fl).2.
Proof.
  intros He Hi [H1 H2 H3 H4 H5 H6 H7]. unfold addHandle. destruct (allocateHandleId _ _) as [id next] eqn:E.
  apply allocate_id_ok in E as [Hnext Hid]; [|done]. destruct (Z.ltb_spec id 0) as [Hneg|Hpos]; [by constructor|].
  destruct Hid as [Hid|[Hid Hfree]]; [lia|]. cbn [snd]. set (h := Handle _ _ _ _). constructor; cbn; try done.
  - by apply map_set_NoDup.
  - intros id' h'. rewrite map_get_set, length_alter. destruct (decide (id = id')) as [<-|]; [|apply H2]. by intros [= <-].
  - intros k p n (y & Hy & Hs)%sig_alter. rewrite map_set_fresh, held_app, held_one by done. change (hentry h) with e.
    pose proof (H4 k _ _ (entry_sig s k y Hy)) as Hr.
    destruct (decide (e = k)) as [->|Hne]; injection Hs as -> ->; [rewrite Nat.eqb_refl; cbn; lia|].
    destruct (Nat.eqb_spec e k); [done|]. lia.
  - intros i' id'. rewrite map_get_set. assert (Hg : map_get (map_set (handles s) id h) id' = if decide (id = id') then Some h else map_get (handles s) id') by apply map_get_set.
    rewrite Hg. destruct (decide (i = i')) as [<-|Hne].
    + cbn. rewrite elem_of_set_add, H5. destruct (decide (id = id')) as [<-|].
      * split; [|tauto]. intros _. exists h. done.
      * split; [|by left]. intros [?|?]; [done|congruence].
    + rewrite H5. destruct (decide (id = id')) as [<-|]; [|done]. split; intros (h' & Hh & Hi'); [congruence|]. injection Hh as <-. done.
  - intros id' h'. rewrite map_get_set. destruct (decide (id = id')) as [<-|]; [by intros [= <-]|apply H6].
  - intros p k (n & Hn)%H7. eapply sig_path; [|exact Hn]. done.
Qed.

Lemma handles_close_file s e : handles_ok s -> handles_ok (close_file s e).
Proof. intros H. unfold close_file. destruct (file _); [|done]. apply handles_ok_change; [done|]. by hsame. Qed.

Lemma handles_releaseEntry s e : handles_ok s -> handles_ok (releaseEntry s e).
Proof.
  intros H. unfold releaseEntry. destruct (_ || _); [done|].
  assert (H1 : handles_ok (close_file (drop_current s e) e)).
  { apply handles_close_file. unfold drop_current. destruct (is_current s e); [by apply handles_drop|done]. }
  destruct (_ && _); [by hsame|done].
Qed.

Lemma handles_closeHandle s id : handles_ok s -> handles_ok (closeHandle s id).
Proof.
  intros [H1 H2 H3 H4 H5 H6 H7]. unfold closeHandle. destruct (map_get (handles s) id) as [h|] eqn:E; [|by constructor].
  apply handles_releaseEntry. constructor; cbn; try done.
  - by apply map_delete_NoDup.
  - intros id' h'. rewrite map_get_delete, length_alter. destruct (decide (id = id')); [done|apply H2].
  - intros k p n (y & Hy & Hs)%sig_alter. rewrite (held_delete _ _ h) by done.
    pose proof (H4 k _ _ (entry_sig s k y Hy)) as Hr.
    destruct (decide (hentry h = k)) as [->|Hne]; injection Hs as -> ->; [rewrite Nat.eqb_refl; cbn; lia|].
    destruct (Nat.eqb_spec (hentry h) k); [done|]. lia.
  - intros i id'. assert (Hd : map_get (map_delete (handles s) id) id' = if decide (id = id') then None else map_get (handles s) id') by apply map_get_delete.
    rewrite Hd. pose proof (H5 (hinstance h) id) as Hin. destruct (map_get (byInstance s) (hinstance h)) as [owned|] eqn:Eo.
    + rewrite map_get_set. destruct (decide (hinstance h = i)) as [<-|Hne].
      * cbn. rewrite elem_of_set_remove. pose proof (H5 (hinstance h) id') as H5'. rewrite Eo in H5'. cbn in H5'. rewrite H5'.
        destruct (decide (id = id')) as [->|]; [|split; [tauto|split; [done|congruence]]].
        split; [by intros [_ ?]|by intros (? & ? & _)].
      * rewrite H5. destruct (decide (id = id')) as [<-|]; [|done]. split; [|by intros (? & ? & _)]. intros (h' & Hh & Hi). congruence.
    + exfalso. cbn in Hin. assert (id ∈ ([] : list Z)) as []%elem_of_nil. apply Hin. eauto.
  - intros id' h'. rewrite map_get_delete. destruct (decide (id = id')); [done|apply H6].
  - intros p k (n & Hn)%H7. eapply sig_path; [|exact Hn]. done.
Qed.

Lemma handles_startOpen s p cs fl : handles_ok s -> handles_ok (startOpen s p cs fl).2.
Proof.
  intros [H1 H2 H3 H4 H5 H6 H7]. constructor; cbn; try done.
  - intros id h Hg. apply H2 in Hg. rewrite length_app. cbn. lia.
  - intros e p' n. rewrite map_app. intros [H|[Hge [Hk Hs]%list_lookup_singleton_Some]]%lookup_app_Some; [by eapply H4|].
    injection Hs as <- <-. rewrite length_map in *. assert (He : e = List.length (heap s)) by lia. clear Hk Hge. subst e. unfold held.
    assert (Hf : List.filter (fun q => Nat.eqb (hentry q.2) (List.length (heap s))) (handles s) = []); [|by rewrite Hf].
    assert (Hall : forall q, In q (handles s) -> Nat.eqb (hentry q.2) (List.length (heap s)) = false).
    { intros [id h] Hin. apply Nat.eqb_neq. assert (Hg : map_get (handles s) id = Some h); [|apply H2 in Hg; cbn; lia].
      clear -H1 Hin. induction (handles s) as [|[k v] l IH]; [done|]. cbn in *. apply list.NoDup_cons in H1 as [Hk Hn].
      destruct Hin as [[= -> ->]|Hin]; [by rewrite decide_True|]. rewrite decide_False; [by apply IH|].
      intros ->. apply Hk. rewrite list_elem_of_In. by apply (in_map fst) in Hin. }
    clear -Hall. induction (handles s) as [|q l IH]; [done|]. cbn. rewrite Hall by (by left). apply IH. intros q' Hq. apply Hall. by right.
  - intros p' e. rewrite map_get_set, map_app. destruct (decide (p = p')) as [<-|].
    + intros [= <-]. exists 0. rewrite lookup_app_r; rewrite length_map; [|lia]. by rewrite Nat.sub_diag.
    + intros (m & Hm)%H7. exists m. by apply lookup_app_l_Some.
Qed.

Lemma take_handles s j e :
  (e < List.length (heap s))%nat -> instanceState s (instanceId j) <> SAB_IO_INSTANCE_REVOKED -> handles_ok s ->
  handles_ok (let (id, s) := addHandle s e (instanceId j) (flags j) in finish s j id).2.
Proof.
  intros He Hi H. pose proof (handles_add s e (instanceId j) (flags j) He Hi H) as Ha. destruct (addHandle _ _ _ _) as [id s']. cbn in *. by hsame.
Qed.

Lemma current_lt s p e : handles_ok s -> map_get (entries s) p = Some e -> (e < List.length (heap s))%nat.
Proof. intros H (n & Hn)%(ho_entries s H). apply lookup_lt_Some in Hn. by rewrite length_map in Hn. Qed.

Lemma not_revoked s i : isRevoked s i = false -> instanceState s i <> SAB_IO_INSTANCE_REVOKED.
Proof. unfold isRevoked. intros [_ H]%orb_false_iff. by apply Z.eqb_neq. Qed.

Lemma namespace_handles s j p cs : handles_ok s -> handles_ok (step_namespace s j p cs).2.
Proof.
  intros H. unfold step_namespace. destruct (map_get (entries s) p) as [e|].
  - destruct (opening _); [apply handles_ok_change; [done|]; by hsame|]. destruct (has_flag _ _); [destruct (_ =? _); cbn; by hsame|].
    destruct (0 <? refs _); [cbn; by hsame|]. destruct (0 <? pins _); [|cbn; by hsame].
    pose proof (handles_releaseEntry _ e (handles_ok_change s e (set_pins 0) ltac:(done) H)). cbn. by hsame.
  - destruct (has_flag _ _); cbn; by hsame.
Qed.

Lemma open_fresh_handles s j p cs : instanceState s (instanceId j) <> SAB_IO_INSTANCE_REVOKED -> handles_ok s -> handles_ok (open_fresh s j p cs).2.
Proof.
  intros Hi H. unfold open_fresh. pose proof (handles_startOpen s p cs (flags j) H) as Hs.
  assert (He : ((startOpen s p cs (flags j)).1 < List.length (heap (startOpen s p cs (flags j)).2))%nat) by (cbn; rewrite length_app; cbn; lia).
  assert (Hi' : instanceState (startOpen s p cs (flags j)).2 (instanceId j) <> SAB_IO_INSTANCE_REVOKED) by done.
  destruct (startOpen _ _ _ _) as [e s']. cbn in *. destruct (has_flag _ _).
  - apply take_handles; [done|done|]. by hsame.
  - apply handles_ok_change; [done|]. by hsame.
Qed.

Lemma mirror_set_handles s p a b t : handles_ok s -> handles_ok (mirror_set s p a b t).
Proof. intros H. unfold mirror_set. destruct (_ && _); [by hsame|done]. Qed.
Lemma mirror_set_heap s p a b t : heap (mirror_set s p a b t) = heap s.
Proof. unfold mirror_set. by destruct (_ && _). Qed.
Lemma mirror_set_state s p a b t i : instanceState (mirror_set s p a b t) i = instanceState s i.
Proof. unfold mirror_set. by destruct (_ && _). Qed.

Lemma open_shared_handles s j e :
  (e < List.length (heap s))%nat -> instanceState s (instanceId j) <> SAB_IO_INSTANCE_REVOKED -> handles_ok s -> handles_ok (open_shared s j e).2.
Proof.
  intros He Hi H. unfold open_shared. destruct (has_flag _ _); [cbn; by hsame|]. destruct (_ && _); [|by apply take_handles].
  destruct (file _) as [f|]; [|cbn; by hsame]. destruct (f_truncate _ _ _) as [[err|] b]; [cbn; by hsame|].
  apply take_handles; [by rewrite mirror_set_heap|by rewrite mirror_set_state|]. apply mirror_set_handles. by hsame.
Qed.

Lemma stepOpen_handles s j : handles_ok s -> handles_ok (stepOpen s j).2.
Proof.
  intros H. unfold stepOpen. destruct (phase j =? 2); [cbn; by hsame|]. destruct (isRevoked _ _) eqn:Er; [cbn; by hsame|].
  apply not_revoked in Er. destruct (open_path s j) as [[p cs]|status]; [|cbn; by hsame].
  unfold step_open_path. destruct (has_flag _ _); [by apply namespace_handles|].
  destruct (map_get (entries s) p) as [e|] eqn:Ee; [|by apply open_fresh_handles]. pose proof (current_lt s p e H Ee).
  destruct (opening (entry_at s e)).
  - destruct (has_flag _ _); [apply take_handles; [done|done|]; by hsame|]. apply handles_ok_change; [done|]. by hsame.
  - destruct (_ =? 0); [by apply open_shared_handles|]. apply open_fresh_handles; [done|]. by apply handles_drop.
Qed.

Lemma moved_handles s j n piece : handles_ok s -> handles_ok (moved s j n piece).2.
Proof. intros H. unfold moved. destruct (_ || _); cbn; by hsame. Qed.

Lemma fileRead_handles s f n a sh : handles_ok s -> handles_ok (fileRead s f n a sh).2.
Proof.
  intros H. unfold fileRead. destruct (rejected s); [done|]. destruct (f_read _ _ _ _ _); [done|]. destruct (_ && _); [cbn; by hsame|done].
Qed.
Lemma fileWrite_handles s f v a sh : handles_ok s -> handles_ok (fileWrite s f v a sh).2.
Proof.
  intros H. unfold fileWrite. destruct (rejected s); [destruct (f_write _ _ _ _ _); cbn; by hsame|].
  destruct (f_write _ _ sh _ _) as [[n|err] b]; [cbn; by hsame|]. destruct (_ && _); [|cbn; by hsame].
  destruct (f_write _ _ false _ _) as [r b']. cbn. by hsame.
Qed.

Lemma file_op_handles s j h f : handles_ok s -> handles_ok (file_op chunkBytes s j h f).2.
Proof.
  intros H. unfold file_op. destruct (op j =? SAB_IO_OP_READ).
  { unfold step_read. destruct (negb _); [cbn; by hsame|]. destruct (resolveView s j) as [buf|]; [|cbn; by hsame].
    pose proof (fileRead_handles s f (Z.min chunkBytes (len j - done_ j)) (offset j + done_ j) true H) as Hr.
    destruct (fileRead _ _ _ _ _) as [[bytes|err] s']; cbn in Hr; [|cbn; by hsame]. apply moved_handles. unfold store_buffer. destruct (_ =? _); by hsame. }
  destruct (op j =? SAB_IO_OP_WRITE).
  { unfold step_write. destruct (negb _); [cbn; by hsame|]. destruct (resolveView s j) as [buf|]; [|cbn; by hsame].
    match goal with |- context [fileWrite s f ?v ?a true] => pose proof (fileWrite_handles s f v a true H) as Hr end.
    destruct (fileWrite _ _ _ _ _) as [[n|err] s']; cbn in Hr; [|cbn; by hsame]. by apply moved_handles, mirror_set_handles. }
  destruct (op j =? SAB_IO_OP_TRUNCATE).
  { unfold step_truncate. destruct (negb _); [cbn; by hsame|]. destruct (f_truncate _ _ _) as [[err|] b]; [cbn; by hsame|].
    match goal with |- handles_ok (finish ?s' _ _).2 => assert (H' : handles_ok s') end; [apply mirror_set_handles; by hsame|]. cbn. by hsame. }
  destruct (op j =? SAB_IO_OP_SYNC); [destruct (f_flush _ _) as [[err|] b]; cbn; by hsame|].
  destruct (op j =? SAB_IO_OP_SIZE); [destruct (f_size _ _); cbn; by hsame|cbn; by hsame].
Qed.

Lemma step_handles s j : handles_ok s -> handles_ok (step chunkBytes s j).2.
Proof.
  intros H. unfold step. destruct (_ =? _); [by apply stepOpen_handles|]. destruct (is_handle_op _); [|cbn; by hsame].
  unfold stepHandleOp. destruct (isRevoked _ _); [cbn; by hsame|]. destruct (map_get (handles s) _) as [h|]; [|cbn; by hsame].
  destruct (opening _); [apply handles_ok_change; [done|]; by hsame|]. destruct (op j =? _).
  { pose proof (handles_closeHandle s (handleId j) H). cbn. by hsame. }
  destruct (_ <? _); [cbn; by hsame|]. destruct (file _); [by apply file_op_handles|cbn; by hsame].
Qed.

Lemma releaseEntry_parts s e : handles (releaseEntry s e) = handles s /\ instances (releaseEntry s e) = instances s /\ byInstance (releaseEntry s e) = byInstance s.
Proof.
  unfold releaseEntry. destruct (_ || _); [done|].
  assert (H : handles (close_file (drop_current s e) e) = handles s /\ instances (close_file (drop_current s e) e) = instances s /\
    byInstance (close_file (drop_current s e) e) = byInstance s).
  { unfold close_file, drop_current. destruct (is_current s e), (file _); done. }
  destruct (_ && _); exact H.
Qed.

Lemma closeHandle_parts s id k :
  map_get (handles (closeHandle s id)) k = (if decide (id = k) then None else map_get (handles s) k) /\ instances (closeHandle s id) = instances s.
Proof.
  unfold closeHandle. destruct (map_get (handles s) id) as [h|] eqn:E.
  - set (s1 := change_entry _ _ _). destruct (releaseEntry_parts s1 (hentry h)) as (-> & -> & _). split; [|done]. apply map_get_delete.
  - split; [|done]. destruct (decide (id = k)); [by subst|done].
Qed.

Lemma closeHandles_parts s ids k :
  (forall h, map_get (handles (fold_left closeHandle ids s)) k = Some h -> (k ∉ ids) /\ map_get (handles s) k = Some h) /\
  instances (fold_left closeHandle ids s) = instances s.
Proof.
  revert s. induction ids as [|id ids IH]; intros s; cbn; [split; [|done]; intros h H; split; [apply not_elem_of_nil|done]|].
  destruct (IH (closeHandle s id)) as [H1 H2]. destruct (closeHandle_parts s id k) as [H3 H4]. split; [|by rewrite H2].
  intros h Hh. apply H1 in Hh as [Hk Hh]. rewrite H3 in Hh. destruct (decide (id = k)); [done|]. split; [|done]. by apply not_elem_of_cons.
Qed.

Lemma closeHandles_ok s ids : handles_ok s -> handles_ok (fold_left closeHandle ids s).
Proof. revert s. induction ids as [|id ids IH]; intros s H; [done|]. by apply IH, handles_closeHandle. Qed.

(** The state of the instances after a store. *)
Lemma store_state s id v m a i : 0 <= id < blen (instances s) ->
  instanceState (with_instances s (<[Z.to_nat id := v]> (instances s)) m a) i = if decide (i = id) then (if i =? SAB_IO_SCRATCH_INSTANCE then SAB_IO_INSTANCE_ATTACHED else v) else instanceState s i.
Proof.
  intros Hid. unfold instanceState, maxInstances, blen in *. cbn. rewrite length_insert.
  destruct (Z.eqb_spec i SAB_IO_SCRATCH_INSTANCE); [by destruct (decide _)|].
  destruct (Z.ltb_spec i 0), (Z.leb_spec (Z.of_nat (List.length (instances s))) i); cbn; try (rewrite decide_False by lia; done).
  destruct (decide (i = id)) as [->|Hne]; [rewrite list_lookup_insert_eq by lia; done|]. rewrite list_lookup_insert_ne by lia. done.
Qed.

(** A store that leaves no handle of a revoked instance. *)
Lemma handles_store s id v m a :
  0 <= id < blen (instances s) -> (v = SAB_IO_INSTANCE_REVOKED -> forall k h, map_get (handles s) k = Some h -> hinstance h <> id) ->
  handles_ok s -> handles_ok (with_instances s (<[Z.to_nat id := v]> (instances s)) m a).
Proof.
  intros Hid Hv [H1 H2 H3 H4 H5 H6 H7]. constructor; try done. intros k h Hk. rewrite store_state by done.
  destruct (decide (hinstance h = id)) as [E|]; [|by eapply H6]. destruct (_ =? _); [done|]. intros ->. by apply (Hv eq_refl k h Hk).
Qed.

Lemma revoking_range s id : instanceState s id = SAB_IO_INSTANCE_REVOKING -> 0 <= id < blen (instances s).
Proof.
  unfold instanceState, maxInstances. destruct (_ =? _); [done|]. destruct (Z.ltb_spec id 0); [done|].
  destruct (Z.leb_spec (blen (instances s)) id); [done|]. lia.
Qed.

Lemma handles_revoke s id : handles_ok s -> handles_ok (revoke_instance s id).
Proof.
  intros H. unfold revoke_instance. destruct (Z.eqb_spec (instanceState s id) SAB_IO_INSTANCE_REVOKING) as [E|]; [|done].
  pose proof (revoking_range s id E) as Hid.
  assert (Hs : exists s1, (match map_get (byInstance s) id with
      | Some owned => with_handles (fold_left closeHandle owned s) (handles (fold_left closeHandle owned s))
          (map_delete (byInstance (fold_left closeHandle owned s)) id) (nextHandleId (fold_left closeHandle owned s))
      | None => s end) = s1 /\ handles_ok s1 /\ instances s1 = instances s /\ forall k h, map_get (handles s1) k = Some h -> hinstance h <> id).
  { eexists. split; [reflexivity|]. destruct (map_get (byInstance s) id) as [owned|] eqn:Eo.
    - pose proof (closeHandles_ok s owned H) as Hc. assert (Hno : forall k h, map_get (handles (fold_left closeHandle owned s)) k = Some h -> hinstance h <> id).
      { intros k h Hk Hi. destruct (closeHandles_parts s owned k) as [Hp _]. apply Hp in Hk as [Hk Hg]. apply Hk.
        pose proof (ho_owned s H id k) as Ho. rewrite Eo in Ho. apply Ho. eauto. }
      split_and!; [|by destruct (closeHandles_parts s owned 0)|done].
      destruct Hc as [H1 H2 H3 H4 H5 H6 H7]. constructor; try done. intros i k. cbn. rewrite map_get_delete.
      destruct (decide (id = i)) as [<-|]; [|apply H5]. cbn. split; [by intros ?%elem_of_nil|]. intros (h & Hk & Hi). by destruct (Hno k h Hk).
    - split_and!; [done|done|]. intros k h Hk Hi. pose proof (ho_owned s H id k) as Ho. rewrite Eo in Ho.
      assert (k ∈ ([] : list Z)) as []%elem_of_nil. apply Ho. eauto. }
  destruct Hs as (s1 & Es & H1 & Hin & Hno). rewrite Es. rewrite <- Hin in Hid.
  pose proof (handles_store s1 id SAB_IO_INSTANCE_REVOKED (map_delete (memories s1) id) (areas s1) Hid (fun _ => Hno) H1). by hsame.
Qed.

Lemma handles_revocations s : handles_ok s -> handles_ok (applyRevocations s).
Proof.
  unfold applyRevocations. generalize (map Z.of_nat (List.seq 0 (List.length (instances s)))). intros l. revert s.
  induction l as [|id l IH]; intros s H; [done|]. by apply IH, handles_revoke.
Qed.

Lemma handles_scan s pending : handles_ok s -> handles_ok (scanSlots s pending).
Proof.
  intros H. assert (H' : handles_ok (fold_left claim pending s)); [|unfold scanSlots; by hsame].
  revert s H. induction pending as [|j l IH]; intros s H; [done|]. cbn. apply IH. unfold claim. case_bool_decide; [done|by hsame].
Qed.

Lemma resume_handles s e status j :
  (e < List.length (heap s))%nat -> handles_ok s -> handles_ok (resume_waiter e status s j) /\ List.length (heap (resume_waiter e status s j)) = List.length (heap s).
Proof.
  intros He H. unfold resume_waiter. destruct (_ && _); [|split; [by hsame|done]]. destruct (status <? 0); [split; [by hsame|done]|].
  destruct (isRevoked _ _) eqn:Er; [split; [by hsame|done]|]. apply not_revoked in Er.
  pose proof (handles_add s e (instanceId j) (flags j) He Er H) as Ha.
  assert (Hl : List.length (heap (addHandle s e (instanceId j) (flags j)).2) = List.length (heap s)).
  { unfold addHandle. destruct (allocateHandleId _ _) as [id n]. destruct (id <? 0); [done|]. cbn. by rewrite length_alter. }
  destruct (addHandle _ _ _ _) as [r s']. cbn in *. split; [by hsame|done].
Qed.

Lemma seed_mirror_parts s e : handles_ok s -> handles_ok (seed_mirror s e) /\ heap (seed_mirror s e) = heap s.
Proof.
  intros H. unfold seed_mirror. destruct (file _) as [f|]; [|done]. destruct (_ && _); [|done]. destruct (f_size _ _) as [size|]; [|done].
  set (n := Z.min _ _). destruct (0 <? n); [|split; [by apply mirror_set_handles|apply mirror_set_heap]].
  pose proof (fileRead_handles s f n 0 false H) as Hr. assert (Hh : heap (fileRead s f n 0 false).2 = heap s).
  { unfold fileRead. destruct (rejected s); [done|]. destruct (f_read _ _ _ _ _); [done|]. by destruct (_ && _). }
  destruct (fileRead _ _ _ _ _) as [[bytes|] s']; [|done]. split; [by apply mirror_set_handles|]. by rewrite mirror_set_heap.
Qed.

Lemma settle_handles s e status f : (e < List.length (heap s))%nat -> handles_ok s -> handles_ok (settleEntry s e status f).
Proof.
  intros He H. unfold settleEntry. generalize (waiters (entry_at s e)) as ws. intros ws.
  pose proof (handles_ok_change s e (set_settled status f) ltac:(done) H) as H1.
  destruct (seed_mirror_parts _ e H1) as [H2 Hh]. revert H2 Hh. generalize (seed_mirror (change_entry s e (set_settled status f)) e) as s2. intros s2 H2 Hh.
  assert (He2 : (e < List.length (heap s2))%nat) by (rewrite Hh; cbn; by rewrite length_alter).
  assert (H3 : handles_ok (fold_left (resume_waiter e status) ws s2)).
  { clear -H2 He2. revert s2 H2 He2. induction ws as [|j ws IH]; intros s2 H2 He2; [done|]. cbn.
    destruct (resume_handles s2 e status j He2 H2) as [H3 Hl]. apply IH; [done|]. by rewrite Hl. }
  destruct (_ && _); [by apply handles_drop|]. destruct (_ && _); [by apply handles_releaseEntry|done].
Qed.

Lemma preopen_end_handles s e : handles_ok s -> handles_ok (preopen_end s e).
Proof.
  intros H. unfold preopen_end. destruct (_ <? _); [|by hsame].
  pose proof (handles_ok_change s e (set_pins (Z.max 0 (pins (entry_at s e) - 1))) ltac:(done) H). by hsame.
Qed.

Definition server_ok s : Prop := jobs_ok [] s /\ handles_ok s.

Lemma event_handles ev s s' : server_ok s -> handle_event chunkBytes ev s = Some s' -> handles_ok s'.
Proof.
  intros [Hj H]. destruct ev as [l|l|k|k|id|id|id m|id|raw fl|k|raw|id m|i d]; cbn [handle_event].
  - intros [= <-]. by apply handles_scan, handles_revocations.
  - unfold runReady. destruct (ready s) as [|j rest]; [done|]. assert (H0 : handles_ok (with_ready s rest (claimed s))) by (by hsame).
    pose proof (step_handles _ j H0) as Hs. destruct (step _ _ _) as [o s1]. cbn in Hs. intros [= <-]. apply handles_scan, handles_revocations.
    destruct o; [done|by hsame|done].
  - unfold call_task. destruct (tasks s !! k) as [[p w [| |]]|]; try done. destruct (first_of_path _ _); [|done].
    destruct w as [e fl|cs|j cs|j cs]; [destruct (be_open _ _ _ _)|destruct (be_remove _ _ _)| |destruct (be_remove _ _ _)]; intros [= <-]; by hsame.
  - unfold settle_task. destruct (tasks s !! k) as [[p w r]|] eqn:Hk; [|done].
    assert (H0 : handles_ok (with_tasks s (delete k (tasks s)))) by (by hsame).
    assert (Hf : handles_ok (mirror_forget (with_tasks s (delete k (tasks s))) p)) by (unfold mirror_forget; destruct mirror_writes; [by hsame|done]).
    destruct w as [e fl|cs|j cs|j cs].
    + assert (He : (e < List.length (heap s))%nat).
      { destruct (jo_task _ _ Hj _ e (list_elem_of_lookup_2 _ _ _ Hk) eq_refl) as (ws & Hws). apply lookup_lt_Some in Hws. by rewrite length_map in Hws. }
      destruct r as [|[f|err]|]; [done| | |done]; intros [= <-]; by apply settle_handles.
    + destruct r; [done|done|]. by intros [= <-].
    + destruct r; [done|done|]. intros [= <-]. by hsame.
    + destruct r as [| |[v|err]]; [done|done| |]; intros [= <-]; [|by hsame]. clear H0 H. by hsame.
  - intros [= <-]. unfold store_instance, in_instances. destruct (Z.leb_spec 0 id), (Z.ltb_spec id (maxInstances s)); cbn; try done. by apply handles_store.
  - intros [= <-]. unfold store_instance, in_instances. destruct (Z.leb_spec 0 id), (Z.ltb_spec id (maxInstances s)); cbn; try done. by apply handles_store.
  - intros [= <-]. unfold attachMemory, in_instances. destruct (Z.leb_spec 0 id), (Z.ltb_spec id (maxInstances s)); cbn; try done.
    destruct (isRevoked _ _); [done|]. by apply handles_store.
  - intros [= <-]. unfold detachMemory, in_instances. set (s1 := with_instances _ _ _ _). assert (H1 : handles_ok s1) by (by hsame).
    destruct (Z.leb_spec 0 id), (Z.ltb_spec id (maxInstances s1)); cbn [andb]; try done. destruct (_ =? _); [|done]. by apply handles_store.
  - intros [= <-]. unfold preopen. destruct (splitFlatsqlIoPath raw) as [cs|]; [|by hsame].
    assert (He : handles_ok (match map_get (entries s) (join_path cs) with
      | Some e => (e, s) | None => startOpen s (join_path cs) cs (js_and fl (Z.lnot FLATSQL_IO_OPEN_DEFERRED)) end).2).
    { destruct (map_get _ _); [done|]. by apply handles_startOpen. }
    destruct (match map_get _ _ with Some _ => _ | None => _ end) as [e s1]. cbn in He.
    pose proof (handles_ok_change s1 e (set_pins (pins (entry_at s1 e) + 1)) ltac:(done) He) as H2.
    destruct (opening _); [clear H He; by hsame|]. by apply preopen_end_handles.
  - unfold preopen_resume. destruct (preopens s !! k); [|done]. destruct (opening _); [done|]. intros [= <-]. apply preopen_end_handles. by hsame.
  - intros [= <-]. unfold releasePreopen. destruct (splitFlatsqlIoPath raw); [|done]. destruct (map_get _ _); [|done].
    destruct (0 <? _); [|done]. by apply handles_releaseEntry, handles_ok_change.
  - destruct (map_has _ _); [|done]. intros [= <-]. by hsame.
  - intros [= <-]. by hsame.
Qed.

Lemma run_ok evs s s' : server_ok s -> run chunkBytes evs s = Some s' -> server_ok s'.
Proof.
  revert s. induction evs as [|ev evs IH]; intros s H; cbn; [by intros [= <-]|]. destruct (handle_event chunkBytes ev s) as [s1|] eqn:E; [|done].
  apply IH. split; [eapply event_jobs; [apply H|exact E]|by eapply event_handles].
Qed.

Lemma fresh_ok b m mi ns db : server_ok (createFlatsqlIoServer b m mi ns db).
Proof.
  split; constructor; cbn; try done; try (by constructor).
  - by intros t e ?%elem_of_nil.
  - intros i id. split; [by intros ?%elem_of_nil|by intros (h & ? & _)].
Qed.

(** ** The theorems *)

(** The requests that are neither answered nor about to run wait for a task of their path. *)
Lemma parked_jobs s j : server_ok s -> j ∈ flat_map snd (map waits (heap s)) ++ flat_map task_jobs (tasks s) -> tasks s <> [].
Proof.
  intros [Hj _] [Hin|Hin]%elem_of_app Ht.
  - rewrite list_elem_of_In in Hin. apply in_flat_map in Hin as ([o ws] & Hw & Hin). rewrite <- list_elem_of_In in Hw.
    apply list_elem_of_lookup in Hw as (e & He). assert (o = true) as ->.
    { apply (jo_wait _ _ Hj e o ws He). cbn in Hin. by destruct ws. }
    destruct (jo_open _ _ Hj e ws He) as (k & t & Hk & _). by rewrite Ht in Hk.
  - rewrite Ht in Hin. by apply elem_of_nil in Hin.
Qed.

(** C13. The I/O server forgets no request: in every run, for every backend, mirror and order of the
    backend's answers, the slots claimed and not yet answered are exactly those of the requests the
    server holds, each once; and as long as there is one, some request can run, or the backend can be
    called, or a call of it that has returned can be taken up, so no client waits for ever on a server
    that keeps going. *)
Theorem server_forgets_no_request b m mi ns db evs s :
  run chunkBytes evs (createFlatsqlIoServer b m mi ns db) = Some s ->
  NoDup (claimed s) /\ map slot (all_jobs s) ≡ₚ claimed s /\
  (claimed s <> [] -> exists ev s', ev ∈ [RunReady []; Call 0; Settle 0] /\ handle_event chunkBytes ev s = Some s').
Proof.
  intros H. pose proof (run_ok evs _ _ (fresh_ok b m mi ns db) H) as Hok. destruct Hok as [Hj Hh]. pose proof (jo_jobs _ _ Hj) as Hp.
  split_and!; [apply Hj|exact Hp|]. intros Hne. destruct (ready s) as [|j rest] eqn:Er.
  - destruct (tasks s) as [|t ts] eqn:Et.
    + exfalso. assert (Hin : exists j, j ∈ flat_map snd (map waits (heap s)) ++ flat_map task_jobs (tasks s)).
      { unfold all_jobs in Hp. rewrite Er in Hp. cbn in Hp. destruct (_ ++ _) as [|j l]; [apply Permutation_nil_l in Hp; by rewrite Hp in Hne|].
        exists j. apply list_elem_of_here. }
      destruct Hin as (j & Hin). by apply (parked_jobs s j (conj Hj Hh)).
    + pose proof (jo_progress _ _ Hj) as Hpr. rewrite Et in Hpr. apply Forall_cons_1 in Hpr as [Hpr _].
      destruct t as [p w r]. destruct r as [|f|r]; unfold progress_ok, open_of in Hpr; cbn in Hpr.
      * exists (Call 0). cbn. unfold call_task, first_of_path. rewrite Et. cbn.
        destruct w; try destruct (be_open _ _ _ _); try destruct (be_remove _ _ _); eexists; (split; [|reflexivity]);
          repeat (try apply list_elem_of_here; apply list_elem_of_further).
      * exists (Settle 0). cbn. unfold settle_task. rewrite Et. cbn. destruct w; try (by destruct Hpr). destruct f;
          eexists; (split; [|reflexivity]); apply list_elem_of_further, list_elem_of_further, list_elem_of_here.
      * exists (Settle 0). cbn. unfold settle_task. rewrite Et. cbn. destruct w; try done;
          eexists; (split; [|reflexivity]); apply list_elem_of_further, list_elem_of_further, list_elem_of_here.
  - exists (RunReady []). cbn. unfold runReady. rewrite Er. destruct (step _ _ _) as [o s1].
    eexists. split; [apply list_elem_of_here|reflexivity].
Qed.

(** C14. Handles are counted: in every run of the I/O server the handle ids given out are distinct
    and between 1 and 0xffffff, the reference count of every entry, current or not, is the number of
    its handles, and the index by instance lists exactly the handles of each instance. *)
Theorem handles_are_counted b m mi ns db evs s :
  run chunkBytes evs (createFlatsqlIoServer b m mi ns db) = Some s ->
  NoDup (map_keys (handles s)) /\ (forall id h, map_get (handles s) id = Some h -> 1 <= id <= MAX_HANDLE_ID) /\
  (forall e y, heap s !! e = Some y -> refs y = held (handles s) e) /\
  (forall i id, id ∈ default [] (map_get (byInstance s) i) <-> exists h, map_get (handles s) id = Some h /\ hinstance h = i).
Proof.
  intros H. destruct (run_ok evs _ _ (fresh_ok b m mi ns db) H) as [_ []]. split_and!; try done.
  - intros id h Hg. by apply (ho_range0 id h).
  - intros e y Hy. by apply (ho_refs0 e (path y)), entry_sig.
Qed.

(** C15. A revoked instance is shut out: once the server has acknowledged the revocation of an
    instance, the instance has no handle, and each of its requests, queued, parked or new, is answered
    with ACCESS at its next step with no other effect; only a namespace operation that had been started
    before still reports its result. *)
Theorem revoked_instance_is_shut_out b m mi ns db evs s i :
  run chunkBytes evs (createFlatsqlIoServer b m mi ns db) = Some s -> instanceState s i = SAB_IO_INSTANCE_REVOKED ->
  (forall id h, map_get (handles s) id = Some h -> hinstance h <> i) /\
  (forall j, instanceId j = i -> is_handle_op (op j) = true \/ op j = SAB_IO_OP_OPEN /\ phase j <> 2 ->
     step chunkBytes s j = (STEP_DONE, complete s j FLATSQL_IO_ERR_ACCESS 0)).
Proof.
  intros H Hi. destruct (run_ok evs _ _ (fresh_ok b m mi ns db) H) as [_ Hh]. split.
  - intros id h Hg E. apply (ho_revoked _ Hh id h Hg). by rewrite E.
  - intros j <- Hop. assert (Hr : isRevoked s (instanceId j) = true) by (unfold isRevoked; by rewrite Hi).
    unfold step. destruct (Z.eqb_spec (op j) SAB_IO_OP_OPEN) as [E|E].
    + destruct Hop as [Hop|[_ Hp]]; [by rewrite E in Hop|]. unfold stepOpen. destruct (Z.eqb_spec (phase j) 2); [done|]. by rewrite Hr.
    + destruct Hop as [-> |[Hop _]]; [|done]. unfold stepHandleOp. by rewrite Hr.
Qed.
End invariants.

(** ** Runs on the in-memory backend *)

Definition the_path : list Z := text_encode (lit "ab").
Definition end_of (evs : list event) : @server MemoryBackend.backend MemoryBackend.handle unit := default small_server (run 2 evs small_server).

(** Instance 0 opens a file and starts to write five bytes in pieces of two; instance 1 has opened
    the file too and is being revoked. *)
Definition two_instances : list event :=
  [ClientWrites 0 the_path; ClientWrites 1 the_path; Loop [open_request 0 0 READ_WRITE_CREATE; open_request 1 1 READ_WRITE_CREATE];
   RunReady []; RunReady []; Call 0; Settle 0; RunReady []; RunReady []; Revoke 1; ClientWrites 2 [1; 2; 3; 4; 5];
   Loop [handle_request 2 SAB_IO_OP_WRITE 0 1 0 5 3]; RunReady []].

Lemma server_forgets_no_request_witness :
  claimed (end_of two_instances) = [2%nat] /\
  exists ev s', ev ∈ [RunReady []; Call 0; Settle 0] /\ handle_event 2 ev (end_of two_instances) = Some s'.
Proof.
  split; [vm_compute; reflexivity|].
  apply (server_forgets_no_request 2 (MemoryBackend.createFlatsqlIoMemoryBackend None) tt 4 4 16 two_instances); vm_compute; [reflexivity|done].
Defined.

Lemma handles_are_counted_witness :
  exists y, heap (end_of two_instances) !! 0%nat = Some y /\ refs y = held (handles (end_of two_instances)) 0 /\ refs y = 1.
Proof.
  eexists. split; [vm_compute; reflexivity|]. split; [|reflexivity].
  apply (handles_are_counted 2 (MemoryBackend.createFlatsqlIoMemoryBackend None) tt 4 4 16 two_instances); vm_compute; reflexivity.
Defined.

Lemma revoked_instance_is_shut_out_witness :
  instanceState (end_of two_instances) 1 = SAB_IO_INSTANCE_REVOKED /\
  step 2 (end_of two_instances) (handle_request 3 SAB_IO_OP_READ 1 2 0 4 0) =
    (STEP_DONE, complete (end_of two_instances) (handle_request 3 SAB_IO_OP_READ 1 2 0 4 0) FLATSQL_IO_ERR_ACCESS 0).
Proof.
  split; [vm_compute; reflexivity|].
  apply (revoked_instance_is_shut_out 2 (MemoryBackend.createFlatsqlIoMemoryBackend None) tt 4 4 16 two_instances _ 1);
    [vm_compute; reflexivity|vm_compute; reflexivity|reflexivity|by left].
Defined.

(** Instance 0 opens a file; while the open is under way instance 1 joins it with a deferred open
    and is revoked. *)
Definition revoked_while_opening : list event :=
  [ClientWrites 0 the_path; ClientWrites 1 the_path; ClientWrites 2 the_path;
   Loop [open_request 0 0 READ_WRITE_CREATE; open_request 1 1 (READ_WRITE_CREATE + FLATSQL_IO_OPEN_DEFERRED)];
   RunReady []; RunReady []; Revoke 1; Loop []; Call 0; Settle 0; RunReady [];
   Loop [open_request 2 2 FLATSQL_IO_UNLINK_IF_UNUSED]; RunReady []; Call 0; Settle 0; RunReady []].

(** A file in use can be unlinked: releasing an entry whose open is under way takes it out of the
    path table although a request waits for it, so in this run UNLINK_IF_UNUSED of instance 2 removes
    the file on which instance 0 has just got its handle. *)
Theorem unlink_removes_file_in_use :
  exists s, run 2 revoked_while_opening small_server = Some s /\
    (0%nat, 2, 0) ∈ completed s /\ (2%nat, 0, 0) ∈ completed s /\ MemoryBackend.files (bk s) = [] /\
    exists h, map_get (handles s) 2 = Some h /\ hinstance h = 0 /\ file (entry_at s (hentry h)) <> None.
Proof.
  eexists. split; [vm_compute; reflexivity|]. cbn. split_and!; try done.
  - apply list_elem_of_further, list_elem_of_here.
  - apply list_elem_of_further, list_elem_of_further, list_elem_of_here.
  - eexists. split; [reflexivity|]. done.
Qed.

(** Instance 1 opens a temporary file, deferred, and is revoked before it is open; meanwhile
    instance 0 opens the same path. *)
Definition removed_twice : list event :=
  [ClientWrites 0 the_path; ClientWrites 1 the_path;
   Loop [open_request 1 1 (READ_WRITE_CREATE + FLATSQL_IO_DELETE_ON_CLOSE + FLATSQL_IO_OPEN_DEFERRED)]; RunReady []; Revoke 1; Loop [];
   Loop [open_request 0 0 READ_WRITE_CREATE]; RunReady []; Call 0; Settle 0; Call 0; Settle 0; Call 0; Settle 0; RunReady []; Call 0; Settle 0].

(** The removal of a temporary file can hit another file: an entry that is released while it is
    being opened is released again when the open settles, and the second removal is queued behind the
    open of another instance, whose file it deletes. *)
Theorem late_removal_deletes_open_file :
  exists s, run 2 removed_twice small_server = Some s /\ MemoryBackend.files (bk s) = [] /\
    exists h, map_get (handles s) 2 = Some h /\ hinstance h = 0 /\ file (entry_at s (hentry h)) <> None /\ openStatus (entry_at s (hentry h)) = 0.
Proof. eexists. split; [vm_compute; reflexivity|]. cbn. split; [done|]. eexists. split; [reflexivity|]. done. Qed.

(** Instance 1 opens a file with TRUNC; the revocation of the instance is acknowledged before the
    backend has opened it. *)
Definition truncated_late : list event :=
  [ClientWrites 0 the_path; ClientWrites 1 the_path; ClientWrites 2 [1; 2; 3]; Loop [open_request 0 0 READ_WRITE_CREATE]; RunReady [];
   Call 0; Settle 0; RunReady []; Loop [handle_request 2 SAB_IO_OP_WRITE 0 1 0 3 0]; RunReady []; RunReady [];
   Loop [handle_request 3 SAB_IO_OP_CLOSE 0 1 0 0 0]; RunReady [];
   Loop [open_request 1 1 (FLATSQL_IO_READ + FLATSQL_IO_WRITE + FLATSQL_IO_TRUNC)]; RunReady []; Revoke 1; Loop []].

(** An acknowledged revocation is not the end of the instance's effects: the open it had started
    still truncates the file afterwards. *)
Theorem revoked_open_truncates :
  exists s s', run 2 truncated_late small_server = Some s /\ instanceState s 1 = SAB_IO_INSTANCE_REVOKED /\
    handle_event 2 (Call 0) s = Some s' /\
    (MemoryBackend.length <$> map_get (MemoryBackend.files (bk s)) (lit "ab")) = Some 3 /\
    (MemoryBackend.length <$> map_get (MemoryBackend.files (bk s')) (lit "ab")) = Some 0.
Proof. eexists. eexists. split; [vm_compute; reflexivity|]. split_and!; vm_compute; reflexivity. Qed.
