(* ===== verification/IoServerTransfer.v ===== *)
(** Reads and writes of the I/O server (model in IoServer.v) move their bytes in pieces of at most
    [chunkBytes]. Against any backend whose files keep a byte content ([FileContract]), the pieces
    together are one read and one write; the in-memory backend satisfies the contract. *)
From Stdlib Require Import ZArith Lia.
From stdpp Require Import base list strings numbers.
From S2P Require Import Prelude JsText JsMap IoContract IoChannel MemoryBackend IoServer IoServerMemory.
Open Scope Z_scope.

(** What the server needs of a file: it reads as its content, and a write replaces the bytes it
    covers or fails with the content unchanged. *)
Class FileContract (B F : Type) `{!IoBackend B F} := {
  has_content : B -> F -> list Z -> Prop;
  contract_read b f c sh n a : has_content b f c -> 0 <= n -> 0 <= a -> f_read b f sh n a = inl (subarray c a (a + n));
  contract_write b f c sh v a : has_content b f c -> 0 <= a ->
    match f_write b f sh v a with
    | (inl n, b') => n = blen v /\ has_content b' f (MemoryBackend.written c v a)
    | (inr e, b') => has_content b' f c /\ is_type_error e = false /\ - 2 ^ 31 <= flatsqlIoStatusOf e false
    end
}.

(** ** Writes one behind the other *)

Lemma written_join c v w a : 0 <= a -> MemoryBackend.written (MemoryBackend.written c v a) w (a + blen v) = MemoryBackend.written c (v ++ w) a.
Proof.
  intros Ha. unfold MemoryBackend.written at 1 3. set (pre := subarray (c ++ zeros (a - blen c)) 0 a).
  assert (Hpre : blen pre = a).
  { unfold pre. rewrite blen_subarray; [lia|lia|]. rewrite blen_app. destruct (Z_le_gt_dec a (blen c)); [pose proof (blen_nonneg (zeros (a - blen c))); lia|].
    rewrite blen_zeros by lia. lia. }
  assert (Hd : forall n, 0 <= n -> subarray_from c n = drop (Z.to_nat n) c).
  { intros n Hn. unfold subarray_from, rel_index. destruct (Z.ltb_spec n 0); [lia|].
    destruct (Z_le_gt_dec n (blen c)); [by rewrite Z.min_l|]. rewrite Z.min_r by lia. unfold blen in *. rewrite !drop_ge by lia. done. }
  pose proof (blen_nonneg v). pose proof (blen_nonneg w). unfold MemoryBackend.written. fold pre. rewrite !app_assoc.
  rewrite (blen_app v w). f_equal; [f_equal|].
  - rewrite (zeros_neg (a + blen v - _)) by (rewrite !blen_app, Hd by lia; blia). rewrite app_nil_r, <- app_assoc.
    change (pre ++ v ++ subarray_from c (a + blen v)) with ([] ++ pre ++ v ++ subarray_from c (a + blen v)).
    rewrite (app_assoc pre v). apply subarray_app; blia.
  - rewrite (Hd (a + blen v)), (Hd (a + (blen v + blen w))) by lia. unfold subarray_from, rel_index.
    destruct (Z.ltb_spec (a + blen v + blen w) 0); [lia|]. rewrite <- app_assoc, blen_app, blen_app.
    set (r := drop (Z.to_nat (a + blen v)) c). destruct (Z_le_gt_dec (blen w) (blen r)).
    + rewrite Z.min_l by lia. rewrite drop_app_ge, drop_app_ge; [|unfold blen in *; rewrite ?length_app; lia..].
      unfold r. rewrite drop_drop. f_equal. unfold blen in *. lia.
    + rewrite Z.min_r by lia. rewrite !drop_ge; [done| |unfold blen in *; rewrite !length_app; lia].
      unfold r, blen in *. rewrite length_drop in *. lia.
Qed.

Section transfer.
Context {B F M : Type} `{!IoBackend B F} `{!FileContract B F} `{!IoMirror M} (chunkBytes : Z) (Hchunk : 0 < chunkBytes).
Implicit Types (s : @server B F M) (j : job).

(** A request that gets all the turns until it is answered. *)
Fixpoint serve (turns : nat) s j : option (@server B F M) :=
  match turns with
  | O => None
  | S n => match step chunkBytes s j with (STEP_AGAIN j, s) => serve n s j | (_, s) => Some s end
  end.

(** The request has a handle on the open file [f] and a view inside the buffer [buf]. *)
Record serving s j (h : handle) (f : F) (buf : list Z) : Prop := {
  sv_revoked : isRevoked s (instanceId j) = false;
  sv_handle : map_get (handles s) (handleId j) = Some h;
  sv_opening : opening (entry_at s (hentry h)) = false;
  sv_status : openStatus (entry_at s (hentry h)) = 0;
  sv_file : file (entry_at s (hentry h)) = Some f;
  sv_view : resolveView s j = Some buf
}.

Lemma view_bounds s j buf : resolveView s j = Some buf -> 0 <= len j /\ 0 <= ptr j /\ ptr j + len j <= blen buf /\ buffer_of s j = Some buf.
Proof.
  unfold resolveView. destruct (Z.ltb_spec (len j) 0), (Z.ltb_spec (ptr j) 0); cbn; try done. destruct (buffer_of s j) as [b|]; [|done].
  destruct (Z.ltb_spec (blen b) (ptr j + len j)); [done|]. by intros [= <-].
Qed.

Lemma step_file_op s j h f buf : serving s j h f buf -> op j = SAB_IO_OP_READ \/ op j = SAB_IO_OP_WRITE -> step chunkBytes s j = file_op chunkBytes s j h f.
Proof.
  intros [H1 H2 H3 H4 H5 H6] Ho. unfold step. assert (Hn : (op j =? SAB_IO_OP_OPEN) = false) by (destruct Ho as [-> | ->]; done).
  assert (Hi : is_handle_op (op j) = true) by (destruct Ho as [-> | ->]; done). assert (Hc : (op j =? SAB_IO_OP_CLOSE) = false) by (destruct Ho as [-> | ->]; done).
  unfold stepHandleOp. by rewrite Hn, Hi, H1, H2, H3, Hc, H4, H5.
Qed.

Lemma store_buffer_of s j b b' : buffer_of s j = Some b -> buffer_of (store_buffer s j b') j = Some b'.
Proof.
  unfold buffer_of, store_buffer. destruct (_ =? _); cbn; [|intros _; by rewrite map_get_set_eq].
  intros H. apply list_lookup_insert_eq. by eapply lookup_lt_Some.
Qed.

Lemma serving_store s j h f buf buf' n : serving s j h f buf -> blen buf' = blen buf ->
  serving (count (store_buffer s j buf') add_chunks) (set_done j n) h f buf'.
Proof.
  intros [H1 H2 H3 H4 H5 H6] Hb. pose proof (view_bounds s j buf H6) as (Hl & Hp & Hlen & Hbuf).
  pose proof (store_buffer_of s j buf buf' Hbuf) as Hs.
  assert (Hv : resolveView (store_buffer s j buf') j = Some buf').
  { unfold resolveView. rewrite Hs. destruct (Z.ltb_spec (len j) 0), (Z.ltb_spec (ptr j) 0); try lia. cbn.
    destruct (Z.ltb_spec (blen buf') (ptr j + len j)); [lia|done]. }
  unfold store_buffer in *. destruct (dataMode j =? SAB_IO_DATA_SLOT); by constructor.
Qed.

Lemma fileRead_content s f c n a : has_content (bk s) f c -> 0 <= n -> 0 <= a -> fileRead s f n a true = (inl (subarray c a (a + n)), s).
Proof. intros H Hn Ha. unfold fileRead. rewrite !(contract_read _ _ c) by done. by destruct (rejected s). Qed.

Lemma moved_again s j n piece : n < piece \/ len j <= done_ j + n -> moved s j n piece = finish (count s add_chunks) (set_done j (done_ j + n)) (done_ j + n).
Proof. intros H. unfold moved. cbn. destruct (Z.ltb_spec n piece), (Z.leb_spec (len j) (done_ j + n)); try done; lia. Qed.
Lemma moved_on s j n piece : piece <= n -> done_ j + n < len j -> moved s j n piece = (STEP_AGAIN (set_done j (done_ j + n)), count s add_chunks).
Proof. intros H1 H2. unfold moved. cbn. destruct (Z.ltb_spec n piece), (Z.leb_spec (len j) (done_ j + n)); try done; lia. Qed.

(** Moving bytes leaves the handles, the entries and the instances alone. *)
Definition same_handles s s' : Prop := handles s' = handles s /\ heap s' = heap s /\ instances s' = instances s.

Lemma same_store s j b : same_handles s (store_buffer s j b).
Proof. unfold store_buffer. by destruct (_ =? _). Qed.
Lemma same_trans s1 s2 s3 : same_handles s1 s2 -> same_handles s2 s3 -> same_handles s1 s3.
Proof. intros (? & ? & ?) (? & ? & ?). split_and!; congruence. Qed.

Lemma serve_read turns : forall s j h f c buf,
  serving s j h f buf -> op j = SAB_IO_OP_READ -> canRead h = true -> has_content (bk s) f c -> 0 <= offset j -> 0 <= done_ j <= len j ->
  (0 < turns)%nat -> len j - done_ j <= Z.of_nat turns * chunkBytes ->
  let r := subarray c (offset j + done_ j) (offset j + len j) in
  exists s', serve turns s j = Some s' /\ completed s' = completed s ++ [(slot j, done_ j + blen r, 0)] /\
    buffer_of s' j = Some (put_at buf r (ptr j + done_ j)) /\ bk s' = bk s /\ same_handles s s'.
Proof.
  induction turns as [|turns IH]; [lia|]. intros s j h f c buf Hs Ho Hr Hc Hoff Hd _ Ht r.
  pose proof (view_bounds s j buf (sv_view _ _ _ _ _ Hs)) as (Hl & Hp & Hlen & Hbuf). set (piece := Z.min chunkBytes (len j - done_ j)).
  cbn [serve]. rewrite (step_file_op s j h f buf Hs (or_introl Ho)). unfold file_op. rewrite Ho. cbn [Z.eqb Pos.eqb SAB_IO_OP_READ]. unfold step_read.
  rewrite Hr, (sv_view _ _ _ _ _ Hs). cbn [negb]. fold piece. rewrite (fileRead_content s f c) by (done || lia).
  set (r1 := subarray c (offset j + done_ j) (offset j + done_ j + piece)). pose proof (blen_subarray_le c (offset j + done_ j) (offset j + done_ j + piece) ltac:(lia)) as Hr1.
  fold r1 in Hr1. pose proof (blen_nonneg r1) as Hr0.
  destruct (Z_lt_le_dec (blen r1) piece) as [Hshort|Hfull]; [|destruct (Z_le_gt_dec (len j) (done_ j + blen r1)) as [Hall|Hmore]].
  - assert (r = r1) as -> by (apply subarray_short; [lia|lia|fold r1; lia]). rewrite moved_again by (by left). eexists. split; [reflexivity|].
    split_and!; try (unfold store_buffer; by destruct (_ =? _)). exact (store_buffer_of s j buf _ Hbuf).
  - assert (r = r1) as -> by (unfold r, r1; f_equal; lia). rewrite moved_again by (by right). eexists. split; [reflexivity|].
    split_and!; try (unfold store_buffer; by destruct (_ =? _)). exact (store_buffer_of s j buf _ Hbuf).
  - rewrite moved_on by lia. assert (Hb1 : blen (put_at buf r1 (ptr j + done_ j)) = blen buf) by (apply blen_put_at; lia).
    set (s1 := count _ _). set (j1 := set_done j _).
    assert (Hbk : bk s1 = bk s) by (unfold s1, store_buffer; by destruct (_ =? _)).
    destruct (IH s1 j1 h f c (put_at buf r1 (ptr j + done_ j))) as (s' & E1 & E2 & E3 & E4 & E5); try done.
    + by apply (serving_store s j h f buf).
    + by rewrite Hbk.
    + cbn. lia.
    + destruct turns; [|lia]. cbn in *. lia.
    + cbn. lia.
    + exists s'. split; [exact E1|]. assert (Hj : r = r1 ++ subarray c (offset j + (done_ j + blen r1)) (offset j + len j)).
      { unfold r. rewrite (subarray_join c _ (offset j + done_ j + piece)) by lia. unfold r1 at 1. do 2 f_equal. lia. }
      split_and!.
      * rewrite E2. assert (completed s1 = completed s) as -> by (unfold s1, store_buffer; by destruct (_ =? _)).
        rewrite Hj, blen_app. unfold j1. cbn. do 4 f_equal. lia.
      * change (buffer_of s' j) with (buffer_of s' j1). rewrite E3. cbn. rewrite Hj. replace (ptr j + (done_ j + blen r1)) with (ptr j + done_ j + blen r1) by lia. rewrite put_at_join; [done|lia|].
        pose proof (blen_subarray_le c (offset j + (done_ j + blen r1)) (offset j + len j) ltac:(lia)). lia.
      * by rewrite E4.
      * exact (same_trans s s1 s' (same_store s j _) E5).
Qed.

Lemma fileWrite_contract s f c v a : has_content (bk s) f c -> 0 <= a ->
  exists b, (fileWrite s f v a true).2 = with_backend s b (mirror s) (rejected s) /\
    match (fileWrite s f v a true).1 with
    | inl n => n = blen v /\ has_content b f (MemoryBackend.written c v a)
    | inr e => has_content b f c /\ - 2 ^ 31 <= flatsqlIoStatusOf e false
    end.
Proof.
  intros H Ha. unfold fileWrite. destruct (rejected s).
  - pose proof (contract_write _ _ c false v a H Ha) as Hw. destruct (f_write _ _ false v a) as [[n|e] b]; exists b; [by split|]. cbn. by destruct Hw as (? & ? & ?).
  - pose proof (contract_write _ _ c true v a H Ha) as Hw. destruct (f_write _ _ true v a) as [[n|e] b]; exists b; [by split|].
    destruct Hw as (Hw & -> & Hz). cbn. by split.
Qed.

Lemma serving_backend s j h f buf b m n : serving s j h f buf -> serving (count (with_backend s b m (rejected s)) add_chunks) (set_done j n) h f buf.
Proof. intros []. by constructor. Qed.

Lemma mirror_set_backend s p a v t : exists m, mirror_set s p a v t = with_backend s (bk s) m (rejected s).
Proof. unfold mirror_set. destruct (_ && _); [by eexists|]. exists (mirror s). by destruct s. Qed.

(** The content after the bytes of the view up to [k] have been written. *)
Definition written_upto (c buf : list Z) (j : job) (k : Z) : list Z :=
  MemoryBackend.written c (subarray buf (ptr j + done_ j) (ptr j + k)) (offset j + done_ j).

Lemma serve_write turns : forall s j h f c buf,
  serving s j h f buf -> op j = SAB_IO_OP_WRITE -> canWrite h = true -> has_content (bk s) f c -> 0 <= offset j -> 0 <= done_ j <= len j ->
  (0 < turns)%nat -> len j - done_ j <= Z.of_nat turns * chunkBytes ->
  exists s' c' status, serve turns s j = Some s' /\ completed s' = completed s ++ [(slot j, status, 0)] /\ has_content (bk s') f c' /\
    same_handles s s' /\ areas s' = areas s /\
    (status = len j /\ c' = written_upto c buf j (len j) \/
     exists err, status = flatsqlIoStatusOf err false /\ - 2 ^ 31 <= status /\ (c' = c \/ exists k, done_ j < k < len j /\ c' = written_upto c buf j k)).
Proof.
  induction turns as [|turns IH]; [lia|]. intros s j h f c buf Hs Ho Hr Hc Hoff Hd _ Ht.
  pose proof (view_bounds s j buf (sv_view _ _ _ _ _ Hs)) as (Hl & Hp & Hlen & Hbuf). set (piece := Z.min chunkBytes (len j - done_ j)).
  cbn [serve]. rewrite (step_file_op s j h f buf Hs (or_intror Ho)). unfold file_op. rewrite Ho. cbn [Z.eqb Pos.eqb SAB_IO_OP_READ SAB_IO_OP_WRITE]. unfold step_write.
  rewrite Hr, (sv_view _ _ _ _ _ Hs). cbn [negb]. fold piece. set (chunk := subarray buf _ _).
  assert (Hk : blen chunk = piece) by (unfold chunk; rewrite blen_subarray by lia; lia).
  destruct (fileWrite_contract s f c chunk (offset j + done_ j) Hc ltac:(lia)) as (b & Hs1 & Hw).
  destruct (fileWrite s f chunk (offset j + done_ j) true) as [[n|err] s1]; cbn in Hs1, Hw; subst s1.
  - destruct Hw as [-> Hb]. rewrite Hk. match goal with |- context [mirror_set ?s ?p ?a ?v ?t] => destruct (mirror_set_backend s p a v t) as (m & ->) end.
    cbn [bk rejected with_backend]. change (with_backend (with_backend s b (mirror s) (rejected s)) b m (rejected s)) with (with_backend s b m (rejected s)).
    destruct (Z_le_gt_dec (len j) (done_ j + piece)) as [Hall|Hmore].
    + rewrite moved_again by (by right). eexists _, _, _. split_and!; [reflexivity|reflexivity|exact Hb|done..|]. left. split; [lia|].
      unfold written_upto, chunk. do 2 f_equal. lia.
    + rewrite moved_on by lia. set (s1 := count _ _). set (j1 := set_done j _).
      destruct (IH s1 j1 h f (MemoryBackend.written c chunk (offset j + done_ j)) buf) as (s' & c' & status & E1 & E2 & E3 & Es & Ea & E4); try done.
      * by apply serving_backend.
      * cbn. lia.
      * destruct turns; [|lia]. cbn in *. lia.
      * cbn. lia.
      * assert (Hj : forall k, done_ j + piece <= k <= len j -> written_upto (MemoryBackend.written c chunk (offset j + done_ j)) buf j1 k = written_upto c buf j k).
        { intros k Hk'. unfold written_upto, j1. cbn. replace (offset j + (done_ j + piece)) with (offset j + done_ j + blen chunk) by lia.
          rewrite written_join by lia. f_equal. unfold chunk. rewrite (subarray_join buf (ptr j + done_ j) (ptr j + done_ j + piece) (ptr j + k)) by lia.
          do 2 f_equal. lia. }
        exists s', c', status. split_and!; [exact E1|exact E2|exact E3|exact Es|exact Ea|]. destruct E4 as [[-> ->]|(err & -> & Ez & E4)].
        -- left. split; [done|]. apply Hj. cbn. lia.
        -- right. exists err. split; [done|]. split; [done|]. right. destruct E4 as [->|(k & Hk' & ->)].
           ++ exists (done_ j + piece). split; [lia|]. unfold written_upto, chunk. do 2 f_equal. lia.
           ++ cbn in Hk'. exists k. split; [lia|]. apply Hj. lia.
  - unfold op_error. rewrite Ho. cbn [Z.eqb Pos.eqb SAB_IO_OP_READ SAB_IO_OP_WRITE]. rewrite andb_false_r. eexists _, _, _. split_and!; [reflexivity|reflexivity|exact (proj1 Hw)|done..|].
    right. exists err. split; [done|]. split; [apply Hw|by left].
Qed.

(** Enough turns for a request: one for each started chunk, and one for an empty request. *)
Definition turns_for j : nat := S (Z.to_nat (len j / chunkBytes)).

Lemma turns_enough j : 0 <= len j -> len j <= Z.of_nat (turns_for j) * chunkBytes.
Proof.
  intros Hl. unfold turns_for. pose proof (Z.div_mod (len j) chunkBytes ltac:(lia)). pose proof (Z.mod_pos_bound (len j) chunkBytes Hchunk).
  pose proof (Z.div_pos (len j) chunkBytes Hl Hchunk). rewrite Nat2Z.inj_succ, Z2Nat.id by done. nia.
Qed.


(** A write in pieces is one write: served alone, a write request is answered after at most
    one turn for each chunk; if the backend takes all pieces the answer is the length and the file's content
    is what one write of the whole view gives, otherwise the answer is the status of the backend's error and
    the content is that of writing a prefix of the view, or unchanged. *)
Theorem chunked_write_is_one_write s j h f c buf :
  serving s j h f buf -> op j = SAB_IO_OP_WRITE -> canWrite h = true -> has_content (bk s) f c -> 0 <= offset j -> done_ j = 0 ->
  let view k := subarray buf (ptr j) (ptr j + k) in
  exists s' c' status, serve (turns_for j) s j = Some s' /\ completed s' = completed s ++ [(slot j, status, 0)] /\ has_content (bk s') f c' /\
    (status = len j /\ c' = MemoryBackend.written c (view (len j)) (offset j) \/
     exists err, status = flatsqlIoStatusOf err false /\ (c' = c \/ exists k, 0 < k < len j /\ c' = MemoryBackend.written c (view k) (offset j))).
Proof.
  intros Hs Ho Hr Hc Hoff Hd view. pose proof (view_bounds s j buf (sv_view _ _ _ _ _ Hs)) as (Hl & _). pose proof (turns_enough j Hl).
  destruct (serve_write (turns_for j) s j h f c buf) as (s' & c' & st & H1 & H2 & H3 & _ & _ & H4); try done; try (unfold turns_for; lia); [lia..|].
  unfold written_upto in H4. rewrite Hd, !Z.add_0_r in H4. exists s', c', st. naive_solver.
Qed.
End transfer.

(** ** The in-memory backend *)

Definition memory_content (k : MemoryBackend.backend) (h : MemoryBackend.handle) (c : list Z) : Prop :=
  exists f, MemoryBackend.live k h = inl f /\ file_ok f /\ content f = c.

#[global] Program Instance memory_contract : FileContract MemoryBackend.backend MemoryBackend.handle := {
  has_content := memory_content
}.
Next Obligation. intros b f c sh n a (m & Hl & Hok & <-) Hn Ha. cbn. unfold MemoryBackend.read. rewrite Hl. by rewrite read_content. Qed.
Next Obligation.
  intros b f c sh v a (m & Hl & Hok & <-) Ha. cbn. unfold MemoryBackend.write. rewrite Hl.
  unfold MemoryBackend.live in Hl. destruct (closed f) eqn:Ec; [done|]. destruct (map_get (files b) (key f)) eqn:Eg; [|done]. injection Hl as ->.
  destruct (MemoryBackend.file_write m v a (the_budget b)) as [[m' b']|e] eqn:E; cbn.
  - split; [done|]. exists m'. unfold MemoryBackend.live. rewrite Ec. cbn. rewrite map_get_set_eq. apply write_content in E as (? & ? & _); done.
  - split; [exists m; unfold MemoryBackend.live; by rewrite Ec, Eg|]. unfold MemoryBackend.file_write in E.
    destruct (ensureCapacity _ _ _) as [[? ?]|e'] eqn:Ee; [done|]. injection E as <-. destruct (ensure_refused _ _ _ _ Ee) as (-> & _). split; [done|]. vm_compute. congruence.
Qed.

(** A file with three bytes and two requests on it. *)
Definition open_file : @server MemoryBackend.backend MemoryBackend.handle unit :=
  default small_server (run 2 [ClientWrites 0 (text_encode (lit "ab")); Loop [open_request 0 0 READ_WRITE_CREATE]; RunReady []; Call 0; Settle 0; RunReady [];
    ClientWrites 1 [4; 5; 6; 7; 8]; Loop [handle_request 1 SAB_IO_OP_WRITE 0 1 0 3 0]; RunReady []; RunReady []] small_server).
Definition read5 : job := handle_request 1 SAB_IO_OP_READ 0 1 0 5 1.
Definition write5 : job := handle_request 1 SAB_IO_OP_WRITE 0 1 0 5 6.


Lemma chunked_write_is_one_write_witness :
  exists s' c' status, serve 2 (turns_for 2 write5) open_file write5 = Some s' /\ completed s' = completed open_file ++ [(1%nat, status, 0)] /\
    memory_content (bk s') (MemoryBackend.Handle (lit "ab") false) c' /\
    (status = 5 /\ c' = [4; 5; 6; 0; 0; 0; 4; 5; 6; 7; 8] \/
     exists err, status = flatsqlIoStatusOf err false /\
       (c' = [4; 5; 6] \/ exists k, 0 < k < 5 /\ c' = MemoryBackend.written [4; 5; 6] (subarray [4; 5; 6; 7; 8] 0 (0 + k)) 6)).
Proof.
  assert (Hs : serving open_file write5 (Handle 0 0 true true) (MemoryBackend.Handle (lit "ab") false) [4; 5; 6; 7; 8]) by (constructor; vm_compute; reflexivity).
  assert (Hc : has_content (bk open_file) (MemoryBackend.Handle (lit "ab") false) [4; 5; 6]).
  { eexists. split; [vm_compute; reflexivity|]. split; [vm_compute; split; congruence|vm_compute; reflexivity]. }
  exact (chunked_write_is_one_write 2 ltac:(lia) open_file write5 _ _ _ _ Hs eq_refl eq_refl Hc ltac:(vm_compute; congruence) eq_refl).
Defined.
