(* ===== verification/Mirror.v ===== *)
(** The small-file mirror of the I/O workers (src/host/sabIoMirror.js): a table in shared memory that
    keeps, for each mirrored path, the first [entryBytes] bytes of the file and its size, so that
    readers get the bytes of a head file without a request.

    The table is open addressing on a hash of the path; each record is a seqlock. This file has the
    table and the operations, run one after the other, and shows that a record stands for the content
    of its file; MirrorSeqlock.v runs a writer and a reader of one record side by side. *)
From Stdlib Require Import ZArith Lia.
From stdpp Require Import base list strings numbers.
From S2P Require Import Prelude JsText IoContract MemoryBackend.
Open Scope Z_scope.

Definition RECORD_BYTES : Z := 32.
Definition MIRROR_HEADER_WORDS : Z := 16.
Definition STATE_EMPTY : Z := 0.
Definition STATE_CLAIMING : Z := 1.
Definition STATE_LIVE : Z := 2.
Definition STATE_CLEARED : Z := 3.
Definition MAX_READ_ATTEMPTS : nat := 64.

(** [None] is an absent option. The sizes are the table's layout and the bytes of its buffer. *)
Definition createSabIoMirrorBuffer (entries entryBytes maxPathBytes : option Z) : result (Z * Z * Z * Z)%type :=
  let entries := default 2048 entries in
  let entryBytes := default 8192 entryBytes in
  let maxPathBytes := default 512 maxPathBytes in
  throw_if entries <? 1 with RangeError "entries must be >= 1.";
  throw_if (entryBytes <? 8) || negb (entryBytes mod 8 =? 0) with RangeError "entryBytes must be a positive multiple of 8.";
  throw_if (maxPathBytes <? 8) || negb (maxPathBytes mod 8 =? 0) with RangeError "maxPathBytes must be a positive multiple of 8.";
  Ok (entries, entryBytes, maxPathBytes, MIRROR_HEADER_WORDS * 4 + entries * (RECORD_BYTES + maxPathBytes + entryBytes)).

(** A record with its path area and its data area; [r_size] is the double. *)
Record record := Record_ { r_state : Z; r_seq : Z; r_hash : Z; r_path_len : Z; r_covered : Z; r_size : Z; r_path : list Z; r_data : list Z }.

Record mirror := Mirror { records : list record; entryBytes : Z; maxPathBytes : Z }.

Definition blank_record (entryBytes maxPathBytes : Z) : record :=
  Record_ STATE_EMPTY 0 0 0 0 0 (zeros maxPathBytes) (zeros entryBytes).
Definition fresh_mirror (n : nat) (entryBytes maxPathBytes : Z) : mirror :=
  Mirror (repeat (blank_record entryBytes maxPathBytes) n) entryBytes maxPathBytes.

Definition fnv1a (bytes : list Z) : Z := to_int32 (fold_left (fun hash b => imul (js_xor hash b) 0x01000193) bytes 0x811c9dc5).

(** [path] as bytes. *)
Definition toBytes (path : jsstring) : list Z := text_encode path.

Definition rec_at (m : mirror) (i : nat) : record := default (blank_record 0 0) (records m !! i).
Definition samePath (r : record) (bytes : list Z) : bool :=
  (r_path_len r =? blen bytes) && bool_decide (subarray (r_path r) 0 (blen bytes) = bytes).

(** The probes of a hash: every index once, from the hash on. *)
Definition probe_start (m : mirror) (hash : Z) : nat := Z.to_nat (js_ushr0 hash mod blen (records m)).
Definition probe (m : mirror) (hash : Z) (k : nat) : nat := ((probe_start m hash + k) mod List.length (records m))%nat.

Definition holds (r : record) (bytes : list Z) (hash : Z) : bool :=
  ((r_state r =? STATE_LIVE) || (r_state r =? STATE_CLEARED)) && (r_hash r =? hash) && samePath r bytes.

Fixpoint find_from (m : mirror) (bytes : list Z) (hash : Z) (ks : list nat) : option nat :=
  match ks with
  | [] => None
  | k :: ks =>
      let r := rec_at m (probe m hash k) in
      if r_state r =? STATE_EMPTY then None
      else if holds r bytes hash then Some (probe m hash k)
      else find_from m bytes hash ks
  end.
Definition probes (m : mirror) : list nat := List.seq 0 (List.length (records m)).
Definition find (m : mirror) (bytes : list Z) (hash : Z) : option nat := find_from m bytes hash (probes m).

(** [compareExchange] to CLAIMING, the stores of the key, and CLEARED. *)
Definition claim_record (bytes : list Z) (hash : Z) (r : record) : record :=
  Record_ STATE_CLEARED (r_seq r) hash (blen bytes) 0 0 (put_at (r_path r) bytes 0) (r_data r).
Definition set_record (m : mirror) (i : nat) (f : record -> record) : mirror := Mirror (alter f i (records m)) (entryBytes m) (maxPathBytes m).

Fixpoint insert_from (m : mirror) (bytes : list Z) (hash : Z) (ks : list nat) : option (nat * mirror) :=
  match ks with
  | [] => None
  | k :: ks =>
      if r_state (rec_at m (probe m hash k)) =? STATE_EMPTY
      then Some (probe m hash k, set_record m (probe m hash k) (claim_record bytes hash))
      else insert_from m bytes hash ks
  end.
Definition insert (m : mirror) (bytes : list Z) (hash : Z) : option (nat * mirror) := insert_from m bytes hash (probes m).

Definition findSabIoMirrorEntry (m : mirror) (path : jsstring) : option nat :=
  let bytes := toBytes path in
  if maxPathBytes m <? blen bytes then None
  else match find m bytes (fnv1a bytes) with
       | Some i => if r_state (rec_at m i) =? STATE_LIVE then Some i else None
       | None => None
       end.

(** ** Writing *)

Definition bump (r : record) : record :=
  Record_ (r_state r) (to_int32 (r_seq r + 1)) (r_hash r) (r_path_len r) (r_covered r) (r_size r) (r_path r) (r_data r).
Definition set_data (d : list Z) (r : record) : record :=
  Record_ (r_state r) (r_seq r) (r_hash r) (r_path_len r) (r_covered r) (r_size r) (r_path r) d.
Definition set_size (v : Z) (r : record) : record :=
  Record_ (r_state r) (r_seq r) (r_hash r) (r_path_len r) (r_covered r) v (r_path r) (r_data r).
Definition set_covered (v : Z) (r : record) : record :=
  Record_ (r_state r) (r_seq r) (r_hash r) (r_path_len r) v (r_size r) (r_path r) (r_data r).
Definition set_state (v : Z) (r : record) : record :=
  Record_ v (r_seq r) (r_hash r) (r_path_len r) (r_covered r) (r_size r) (r_path r) (r_data r).

(** The data area after a write of [bytes] at [offset] and a truncation. *)
Definition update_data (eb covered : Z) (d : list Z) (offset : Z) (bytes : list Z) (truncateTo : option Z) : list Z :=
  let d := if (0 <? blen bytes) && (offset <? eb) then
             let d := if covered <? offset then fill0 d covered offset else d in
             put_at d (subarray bytes 0 (Z.min eb (offset + blen bytes) - offset)) offset
           else d in
  match truncateTo with
  | Some t => if t <? covered then fill0 d t covered else d
  | None => d
  end.
Definition update_size (size offset : Z) (bytes : list Z) (truncateTo : option Z) : Z :=
  match truncateTo with Some t => t | None => if 0 <? blen bytes then Z.max size (offset + blen bytes) else size end.

(** The stores of [updateSabIoMirror] on a record, between the two changes of the sequence number. *)
Definition update_stores (eb offset : Z) (bytes : list Z) (truncateTo : option Z) (r : record) : record :=
  let wasLive := r_state r =? STATE_LIVE in
  let covered := if wasLive then r_covered r else 0 in
  let size := update_size (if wasLive then r_size r else 0) offset bytes truncateTo in
  let d := update_data eb covered (if wasLive then r_data r else zeros eb) offset bytes truncateTo in
  set_state STATE_LIVE (set_covered (Z.min size eb) (set_size size (set_data d r))).

Definition updateSabIoMirror (m : mirror) (path : jsstring) (offset : Z) (bytes : list Z) (truncateTo : option Z) : bool * mirror :=
  let key := toBytes path in
  if maxPathBytes m <? blen key then (false, m)
  else
    let found := match find m key (fnv1a key) with Some i => Some (i, m) | None => insert m key (fnv1a key) end in
    match found with
    | None => (false, m)
    | Some (i, m) => (true, set_record m i (fun r => bump (update_stores (entryBytes m) offset bytes truncateTo (bump r))))
    end.

Definition clear_stores (r : record) : record := set_size 0 (set_covered 0 (set_state STATE_CLEARED r)).
Definition clearSabIoMirror (m : mirror) (path : jsstring) : mirror :=
  let key := toBytes path in
  if maxPathBytes m <? blen key then m
  else match find m key (fnv1a key) with
       | None => m
       | Some i => set_record m i (fun r => bump (clear_stores (bump r)))
       end.

(** ** Reading *)

(** What a reader makes of a live record that holds still: the bytes, or [None] for "read the file". *)
Definition read_record (r : record) (n offset : Z) : option (list Z) :=
  if r_size r <=? offset then Some []
  else
    let want := Z.min n (r_size r - offset) in
    if r_covered r <? offset + want then None else Some (subarray (r_data r) offset (offset + want)).

(** The data areas of the records, one after the other in the buffer. *)
Definition data_area (m : mirror) : list Z := flat_map r_data (records m).

(** [readSabIoMirrorEntry] when nobody writes: the first attempt decides. The count it returns and the bytes it copies
    to the front of the destination; they come from the data of the whole buffer, where the record's area starts. *)
Definition readSabIoMirrorEntry (m : mirror) (i : nat) (n offset : Z) : option (Z * list Z) :=
  let r := rec_at m i in
  if r_seq r mod 2 =? 1 then None
  else if negb (r_state r =? STATE_LIVE) then None
  else if r_size r <=? offset then Some (0, [])
  else
    let want := Z.min n (r_size r - offset) in
    if r_covered r <? offset + want then None
    else let dataStart := Z.of_nat i * entryBytes m in
         Some (want, subarray (data_area m) (dataStart + offset) (dataStart + offset + want)).

Definition readSabIoMirror (m : mirror) (path : jsstring) (n offset : Z) : option (Z * list Z) :=
  let key := toBytes path in
  if maxPathBytes m <? blen key then None
  else match find m key (fnv1a key) with None => None | Some i => readSabIoMirrorEntry m i n offset end.

(** [createSabIoMirrorMatcher]: a path ends with one of the suffixes, or is one without its slash. *)
Definition ends_with (text suffix : jsstring) : bool :=
  (blen suffix <=? blen text) && str_eqb (subarray_from text (blen text - blen suffix)) suffix.
Definition strip_slash (suffix : jsstring) : jsstring := match suffix with 47 :: rest => rest | _ => suffix end.
Definition createSabIoMirrorMatcher (suffixes : list jsstring) (path : jsstring) : bool :=
  existsb (fun suffix => ends_with path suffix || str_eqb path (strip_slash suffix)) suffixes.

(** ** Bytes one by one *)

(** Byte [i] of a content, zero behind its end. *)
Definition byte (c : list Z) (i : nat) : Z := default 0 (c !! i).

Lemma lookup_zeros n i : zeros n !! i = if decide (Z.of_nat i < n) then Some 0 else None.
Proof.
  unfold zeros. destruct (decide (Z.of_nat i < n)) as [H|H].
  - assert (Hi : (i < Z.to_nat n)%nat) by lia. clear H. revert i Hi. induction (Z.to_nat n) as [|k IH]; intros [|i] Hi; try lia; cbn; [done|]. apply IH. lia.
  - apply lookup_ge_None_2. rewrite repeat_length. lia.
Qed.

Lemma lookup_put_at l v p i : 0 <= p -> p + blen v <= blen l ->
  put_at l v p !! i = if decide (p <= Z.of_nat i < p + blen v) then v !! (i - Z.to_nat p)%nat else l !! i.
Proof.
  intros Hp Hl. destruct (buffer_cut l p (blen v) Hp (blen_nonneg v) Hl) as (x & y & z & -> & Hx & Hy). rewrite put_at_split by lia.
  unfold blen in *. destruct (decide (p <= Z.of_nat i < p + Z.of_nat (List.length v))) as [Hi|Hi].
  - rewrite lookup_app_r by lia. rewrite lookup_app_l by lia. f_equal. lia.
  - destruct (decide (i < List.length x)%nat); [by rewrite !lookup_app_l by lia|]. rewrite !(lookup_app_r x) by lia.
    rewrite !lookup_app_r by lia. f_equal. lia.
Qed.

Lemma fill0_put l a b : 0 <= a <= b -> fill0 l a b = put_at l (zeros (b - a)) a.
Proof. intros H. unfold fill0, put_at. rewrite blen_zeros by lia. do 3 f_equal. lia. Qed.

Lemma lookup_fill0 l a b i : 0 <= a <= b -> b <= blen l -> fill0 l a b !! i = if decide (a <= Z.of_nat i < b) then Some 0 else l !! i.
Proof.
  intros H Hb. rewrite fill0_put by lia. rewrite lookup_put_at; rewrite ?blen_zeros by lia; [|lia..].
  replace (a + (b - a)) with b by lia. destruct (decide (a <= Z.of_nat i < b)); [|done]. rewrite lookup_zeros, decide_True by lia. done.
Qed.

Lemma byte_app c d i : byte (c ++ d) i = if decide (i < List.length c)%nat then byte c i else byte d (i - List.length c).
Proof. unfold byte. destruct (decide _); [by rewrite lookup_app_l|]. rewrite lookup_app_r by lia. done. Qed.
Lemma byte_zeros n i : byte (zeros n) i = 0.
Proof. unfold byte. rewrite lookup_zeros. by destruct (decide _). Qed.
Lemma byte_take c n i : byte (take n c) i = if decide (i < n)%nat then byte c i else 0.
Proof. unfold byte. destruct (decide _); [by rewrite lookup_take_lt|]. rewrite lookup_take_ge by lia. done. Qed.
Lemma byte_drop c n i : byte (drop n c) i = byte c (n + i).
Proof. unfold byte. by rewrite lookup_drop. Qed.
Lemma byte_ge c i : (List.length c <= i)%nat -> byte c i = 0.
Proof. intros H. unfold byte. by rewrite lookup_ge_None_2. Qed.

Lemma subarray_from_drop (c : list Z) n : 0 <= n -> subarray_from c n = drop (Z.to_nat n) c.
Proof.
  intros Hn. unfold subarray_from, rel_index. destruct (Z.ltb_spec n 0); [lia|].
  destruct (Z_le_gt_dec n (blen c)); [by rewrite Z.min_l|]. rewrite Z.min_r by lia. unfold blen in *. rewrite !drop_ge by lia. done.
Qed.

Lemma length_zeros n : List.length (zeros n) = Z.to_nat n.
Proof. unfold zeros. apply repeat_length. Qed.

Lemma length_written_front (c : list Z) a : 0 <= a -> List.length (take (Z.to_nat a) (c ++ zeros (a - blen c))) = Z.to_nat a.
Proof. intros Ha. rewrite length_take, length_app, length_zeros. unfold blen. lia. Qed.

Lemma subarray_front (c : list Z) n : 0 <= n -> subarray c 0 n = take (Z.to_nat n) c.
Proof. intros H. rewrite subarray_take by lia. by rewrite Z.sub_0_r. Qed.

Lemma byte_written c v a i : 0 <= a -> byte (written c v a) i = if decide (a <= Z.of_nat i < a + blen v) then byte v (i - Z.to_nat a) else byte c i.
Proof.
  intros Ha. unfold written. rewrite subarray_front by lia. pose proof (blen_nonneg v).
  rewrite subarray_from_drop, !byte_app, length_written_front, byte_take, byte_app, byte_zeros, byte_drop by lia. unfold blen in *.
  destruct (decide (i < Z.to_nat a)%nat).
  - rewrite (decide_False (P := a <= Z.of_nat i < _)) by lia. destruct (decide (i < List.length c)%nat); [done|]. by rewrite byte_ge by lia.
  - destruct (decide (i - Z.to_nat a < List.length v)%nat); [by rewrite decide_True by lia|]. rewrite decide_False by lia. f_equal. lia.
Qed.

Lemma byte_resized c n i : 0 <= n -> byte (resized c n) i = if decide (Z.of_nat i < n) then byte c i else 0.
Proof.
  intros Hn. unfold resized, blen. destruct (Z.ltb_spec (Z.of_nat (List.length c)) n).
  - rewrite byte_app, byte_zeros. destruct (decide (i < List.length c)%nat); [by rewrite decide_True by lia|]. rewrite byte_ge by lia. by destruct (decide _).
  - rewrite subarray_front by lia. rewrite byte_take. repeat case_decide; try lia; done.
Qed.

Lemma blen_written c v a : 0 <= a -> blen (written c v a) = Z.max (blen c) (a + blen v).
Proof.
  intros Ha. pose proof (blen_nonneg v). unfold written. rewrite subarray_front, subarray_from_drop by lia.
  unfold blen in *. rewrite !length_app, length_drop. pose proof (length_written_front c a Ha) as Hf. unfold blen in Hf. rewrite Hf. lia.
Qed.
Lemma blen_resized c n : 0 <= n -> blen (resized c n) = n.
Proof.
  intros Hn. unfold resized. destruct (Z.ltb_spec (blen c) n); [rewrite blen_app, blen_zeros by lia; lia|]. rewrite blen_subarray; lia.
Qed.

(** ** A record stands for a file *)

(** The first [eb] bytes of a content, padded with zeros. *)
Definition prefix (eb : Z) (c : list Z) : list Z := map (byte c) (List.seq 0 (Z.to_nat eb)).

(** Record [r] is live and shows the content [c]. *)
Definition shows (eb : Z) (r : record) (c : list Z) : Prop :=
  r_state r = STATE_LIVE /\ r_size r = blen c /\ r_covered r = Z.min (blen c) eb /\ r_data r = prefix eb c.

Lemma blen_prefix eb c : 0 <= eb -> blen (prefix eb c) = eb.
Proof. intros H. unfold prefix, blen. rewrite length_map, length_seq. lia. Qed.
Lemma lookup_prefix eb c i : Z.of_nat i < eb -> prefix eb c !! i = Some (byte c i).
Proof. intros H. unfold prefix. rewrite list_lookup_fmap, lookup_seq_lt by lia. done. Qed.

(** A list of [eb] bytes is a prefix when it agrees byte by byte. *)
Lemma prefix_eq eb d c : blen d = eb -> (forall i, Z.of_nat i < eb -> d !! i = Some (byte c i)) -> d = prefix eb c.
Proof.
  intros Hd Hi. pose proof (blen_nonneg d). apply list_eq_same_length with (Z.to_nat eb); [|unfold blen in Hd; lia|].
  - unfold prefix. by rewrite length_map, length_seq.
  - intros i x y Hlt Hx Hy. rewrite Hi in Hx by lia. rewrite lookup_prefix in Hy by lia. congruence.
Qed.

Lemma lookup_front v n i : 0 <= n -> Z.of_nat i < n -> n <= blen v -> subarray v 0 n !! i = Some (byte v i).
Proof.
  intros Hn Hi Hv. rewrite subarray_front by lia. rewrite lookup_take_lt by lia.
  unfold byte, blen in *. destruct (lookup_lt_is_Some_2 v i) as [x ->]; [lia|done].
Qed.

(** A write of [v] at [a] to the data of a record that shows [c]. *)
Lemma update_data_write eb c v a : 0 <= eb -> 0 <= a -> v <> [] ->
  update_data eb (Z.min (blen c) eb) (prefix eb c) a v None = prefix eb (written c v a).
Proof.
  intros Heb Ha Hv. assert (Hpos : 0 < blen v) by (destruct v; [done|]; pose proof (blen_nonneg v); blia). pose proof (blen_nonneg c).
  unfold update_data. destruct (Z.ltb_spec 0 (blen v)); [|lia]. cbn [andb]. destruct (Z.ltb_spec a eb) as [Hlt|Hge].
  - set (n := Z.min eb (a + blen v) - a). set (cov := Z.min (blen c) eb). pose proof (blen_prefix eb c Heb) as Hp.
    assert (Hn : blen (subarray v 0 n) = n) by (rewrite blen_subarray; lia).
    set (d := if cov <? a then fill0 (prefix eb c) cov a else prefix eb c).
    assert (Hd : d = prefix eb c).
    { unfold d. destruct (Z.ltb_spec cov a); [|done]. apply prefix_eq.
      - rewrite fill0_put, blen_put_at; rewrite ?blen_zeros by lia; lia.
      - intros i Hi. rewrite lookup_fill0, lookup_prefix by lia. destruct (decide (cov <= Z.of_nat i < a)); [|done].
        rewrite byte_ge; [done|]. unfold cov, blen in *. lia. }
    rewrite Hd. apply prefix_eq; [rewrite blen_put_at; lia|]. intros i Hi. rewrite lookup_put_at, lookup_prefix, Hn by lia. rewrite byte_written by lia.
    destruct (decide (a <= Z.of_nat i < a + n)) as [Hin|Hout].
    + rewrite decide_True by lia. apply lookup_front; lia.
    + by rewrite decide_False by lia.
  - apply prefix_eq; [by apply blen_prefix|]. intros i Hi. rewrite lookup_prefix, byte_written, decide_False by lia. done.
Qed.

Lemma update_data_truncate eb c t : 0 <= eb -> 0 <= t -> update_data eb (Z.min (blen c) eb) (prefix eb c) 0 [] (Some t) = prefix eb (resized c t).
Proof.
  intros Heb Ht. pose proof (blen_nonneg c). unfold update_data. change (0 <? blen (@nil Z)) with false. cbn [andb].
  destruct (Z.ltb_spec t (Z.min (blen c) eb)) as [Hlt|Hge]; (apply prefix_eq; [|intros i Hi]).
  - rewrite fill0_put by lia. rewrite blen_put_at; [by apply blen_prefix|lia|]. rewrite blen_zeros, blen_prefix by lia. lia.
  - rewrite lookup_fill0, lookup_prefix, byte_resized by (rewrite ?blen_prefix by done; lia). destruct (decide (t <= _ < _)) as [H1|H1].
    + by rewrite decide_False by lia.
    + destruct (decide (Z.of_nat i < t)); [done|]. rewrite byte_ge; [done|]. unfold blen in *. lia.
  - by apply blen_prefix.
  - rewrite lookup_prefix, byte_resized by lia. destruct (decide (Z.of_nat i < t)); [done|]. rewrite byte_ge; [done|]. unfold blen in *. lia.
Qed.

(** The bytes [c] and the size of a file replace whatever the record showed. *)
Lemma update_data_seed eb c c0 : 0 <= eb ->
  update_data eb (Z.min (blen c0) eb) (prefix eb c0) 0 (subarray c 0 eb) (Some (blen c)) = prefix eb c.
Proof.
  intros Heb. pose proof (blen_nonneg c). pose proof (blen_nonneg c0). set (v := subarray c 0 eb).
  assert (Hv : blen v = Z.min (blen c) eb) by (unfold v; rewrite subarray_front by lia; unfold blen; rewrite length_take; lia).
  assert (Hbyte : forall i, Z.of_nat i < eb -> byte v i = byte c i).
  { intros i Hi. unfold v. rewrite subarray_front by lia. by rewrite byte_take, decide_True by lia. }
  set (d := update_data eb (Z.min (blen c0) eb) (prefix eb c0) 0 v None).
  assert (Hd : d = prefix eb (written c0 v 0)).
  { destruct (decide (v = [])) as [E|E]; [|by apply update_data_write].
    unfold d, update_data. rewrite E. change (0 <? blen (@nil Z)) with false. cbn [andb]. apply prefix_eq; [by apply blen_prefix|].
    intros i Hi. rewrite lookup_prefix, byte_written by lia. destruct (decide _) as [Hx|]; [|done]. unfold blen in Hx. cbn in Hx. lia. }
  assert (update_data eb (Z.min (blen c0) eb) (prefix eb c0) 0 v (Some (blen c)) = if blen c <? Z.min (blen c0) eb then fill0 d (blen c) (Z.min (blen c0) eb) else d) as ->
    by done.
  rewrite Hd. destruct (Z.ltb_spec (blen c) (Z.min (blen c0) eb)) as [Hlt|Hge]; (apply prefix_eq; [|intros i Hi]).
  - rewrite fill0_put by lia. rewrite blen_put_at; [by apply blen_prefix|lia|]. rewrite blen_zeros, blen_prefix by lia. lia.
  - rewrite lookup_fill0, lookup_prefix, byte_written by (rewrite ?blen_prefix by done; lia). rewrite Hv.
    destruct (decide (blen c <= Z.of_nat i < _)); [rewrite byte_ge; [done|unfold blen in *; lia]|].
    destruct (decide (0 <= Z.of_nat i < _)); [rewrite Nat.sub_0_r; by rewrite Hbyte|]. f_equal. rewrite !byte_ge; [done|unfold blen in *; lia..].
  - by apply blen_prefix.
  - rewrite lookup_prefix, byte_written by lia. rewrite Hv. destruct (decide (0 <= Z.of_nat i < _)); [rewrite Nat.sub_0_r; by rewrite Hbyte|].
    f_equal. rewrite !byte_ge; [done|unfold blen in *; lia..].
Qed.

(** What a record stands for: its content when it is live, and the empty file otherwise. *)
Definition stands (eb : Z) (r : record) (c : list Z) : Prop :=
  if r_state r =? STATE_LIVE then shows eb r c else c = [].

Lemma prefix_nil eb : 0 <= eb -> prefix eb [] = zeros eb.
Proof. intros H. symmetry. apply prefix_eq; [by apply blen_zeros|]. intros i Hi. by rewrite lookup_zeros, decide_True. Qed.

(** The effect of an update on the content. *)
Definition after_update (c : list Z) (a : Z) (v : list Z) (t : option Z) : list Z :=
  match t with
  | Some t => resized c t
  | None => if decide (v = []) then c else written c v a
  end.

Lemma update_write eb r c a v : 0 <= eb -> 0 <= a -> stands eb r c -> shows eb (update_stores eb a v None r) (after_update c a v None).
Proof.
  intros Heb Ha. unfold stands, update_stores, after_update.
  assert (Hw : let c' := if decide (v = []) then c else written c v a in
    update_size (blen c) a v None = blen c' /\ update_data eb (Z.min (blen c) eb) (prefix eb c) a v None = prefix eb c').
  { cbn. pose proof (blen_nonneg c). destruct (decide (v = [])) as [->|Hv]; [done|].
    assert (0 < blen v) by (destruct v; [done|]; pose proof (blen_nonneg v); blia). split; [|by apply update_data_write].
    destruct (Z.ltb_spec 0 (blen v)); [|lia]. by rewrite blen_written. }
  destruct Hw as [Hsz Hd]. destruct (Z.eqb_spec (r_state r) STATE_LIVE).
  - intros (_ & -> & -> & ->). rewrite Hsz, Hd. done.
  - intros ->. rewrite <- (prefix_nil eb) by done. unfold shows. cbn [r_state r_size r_covered r_data set_state set_covered set_size set_data].
    replace (Z.min (blen (@nil Z)) eb) with 0 in Hd by (unfold blen; cbn; lia). change (blen (@nil Z)) with 0 in Hsz. by rewrite Hsz, Hd.
Qed.

Lemma update_truncate eb r c t : 0 <= eb -> 0 <= t -> stands eb r c -> shows eb (update_stores eb 0 [] (Some t) r) (resized c t).
Proof.
  intros Heb Ht. unfold stands, update_stores. pose proof (update_data_truncate eb c t Heb Ht) as Hd. pose proof (blen_resized c t Ht) as Hs.
  destruct (Z.eqb_spec (r_state r) STATE_LIVE).
  - intros (_ & -> & -> & ->). rewrite Hd. unfold shows. cbn. by rewrite Hs.
  - intros ->. rewrite <- (prefix_nil eb) by done. replace (Z.min (blen (@nil Z)) eb) with 0 in Hd by (unfold blen; cbn; lia). rewrite Hd. unfold shows. cbn. by rewrite Hs.
Qed.

Lemma update_seed eb r c c0 : 0 <= eb -> stands eb r c0 -> shows eb (update_stores eb 0 (subarray c 0 eb) (Some (blen c)) r) c.
Proof.
  intros Heb. unfold stands, update_stores. pose proof (update_data_seed eb c c0 Heb) as Hd.
  destruct (Z.eqb_spec (r_state r) STATE_LIVE).
  - intros (_ & -> & -> & ->). by rewrite Hd.
  - intros ->. rewrite <- (prefix_nil eb) by done. replace (Z.min (blen (@nil Z)) eb) with 0 in Hd by (unfold blen; cbn; lia). by rewrite Hd.
Qed.

(** A read of a record that shows [c] is a read of [c], unless it needs bytes behind the prefix. *)
Lemma read_shows eb r c n a : 0 <= eb -> 0 <= n -> 0 <= a -> shows eb r c ->
  read_record r n a = if decide (blen c <= a \/ a + Z.min n (blen c - a) <= eb) then Some (subarray c a (a + n)) else None.
Proof.
  intros Heb Hn Ha (_ & Hs & Hc & Hd). unfold read_record. rewrite Hs, Hc, Hd. destruct (Z.leb_spec (blen c) a) as [Hle|Hlt].
  - rewrite decide_True by lia. f_equal. rewrite subarray_take by lia. rewrite drop_ge by (unfold blen in *; lia). by rewrite take_nil.
  - set (want := Z.min n (blen c - a)). destruct (Z.ltb_spec (Z.min (blen c) eb) (a + want)); [by rewrite decide_False by lia|].
    rewrite decide_True by lia. f_equal. pose proof (blen_prefix eb c Heb).
    assert (subarray c a (a + n) = subarray c a (a + want)) as ->.
    { destruct (Z_le_gt_dec n (blen c - a)); [f_equal; lia|]. rewrite !subarray_take by lia. rewrite !take_ge; [done|..]; rewrite length_drop; unfold blen in *; lia. }
    apply list_eq_same_length with (Z.to_nat want).
    + rewrite subarray_take, length_take, length_drop by lia. unfold blen in *. lia.
    + rewrite subarray_take, length_take, length_drop by lia. unfold blen in *. lia.
    + intros i x y Hi. rewrite !subarray_take by lia. rewrite !lookup_take_lt, !lookup_drop by lia. rewrite lookup_prefix by lia.
      unfold byte. intros [= <-] E. by rewrite E.
Qed.

(** ** The table *)

Definition occupied (r : record) : bool := (r_state r =? STATE_LIVE) || (r_state r =? STATE_CLEARED).

(** Between operations: every record is empty or occupied and stable, every key that is stored is
    found where it is stored, and records have their areas. *)
Record table_ok (m : mirror) : Prop := {
  to_sizes : 0 <= entryBytes m /\ 0 <= maxPathBytes m;
  to_record : forall i r, records m !! i = Some r -> (r_state r = STATE_EMPTY \/ occupied r = true) /\ r_seq r mod 2 = 0 /\ blen (r_path r) = maxPathBytes m /\
    exists c, stands (entryBytes m) r c;
  to_data : forall i r, records m !! i = Some r -> blen (r_data r) = entryBytes m;
  to_found : forall i r key, records m !! i = Some r -> holds r key (fnv1a key) = true -> find m key (fnv1a key) = Some i
}.

Lemma area_of_record (l : list record) i r eb a w : (forall r', r' ∈ l -> blen (r_data r') = eb) -> l !! i = Some r -> 0 <= a -> 0 <= w -> a + w <= eb ->
  subarray (flat_map r_data l) (Z.of_nat i * eb + a) (Z.of_nat i * eb + a + w) = subarray (r_data r) a (a + w).
Proof.
  intros Hl Hi Ha Hw Hb. assert (Hi0 : 0 <= Z.of_nat i * eb) by nia. rewrite !subarray_take by lia.
  replace (Z.of_nat i * eb + a + w - (Z.of_nat i * eb + a)) with w by lia. replace (a + w - a) with w by lia. clear Hi0.
  revert l Hl Hi. induction i as [|i IH]; intros [|x l] Hl Hi; try done; cbn [flat_map].
  - injection Hi as ->. assert (blen (r_data r) = eb) by (apply Hl; left). unfold blen in *. rewrite Z.mul_0_l, Z.add_0_l.
    rewrite drop_app_le by lia. apply take_app_le. rewrite length_drop. lia.
  - assert (blen (r_data x) = eb) as Hx by (apply Hl; left). unfold blen in Hx. assert (Hi0 : 0 <= Z.of_nat i * eb) by nia.
    replace (Z.to_nat (Z.of_nat (S i) * eb + a)) with (List.length (r_data x) + Z.to_nat (Z.of_nat i * eb + a))%nat by lia.
    rewrite <- drop_drop, drop_app_length. apply IH; [intros r' Hr'; apply Hl; by right|done].
Qed.

Lemma rec_at_Some m i r : records m !! i = Some r -> rec_at m i = r.
Proof. unfold rec_at. by intros ->. Qed.

Lemma samePath_inj r b b' : samePath r b = true -> samePath r b' = true -> b = b'.
Proof.
  unfold samePath. intros [E1 E2]%andb_true_iff [E1' E2']%andb_true_iff. apply Z.eqb_eq in E1, E1'. apply bool_decide_eq_true in E2, E2'. congruence.
Qed.
Lemma holds_inj r b b' h h' : holds r b h = true -> holds r b' h' = true -> b = b'.
Proof. unfold holds. intros [_ H]%andb_true_iff [_ H']%andb_true_iff. by eapply samePath_inj. Qed.
Lemma holds_not_empty r b h : holds r b h = true -> r_state r <> STATE_EMPTY.
Proof. unfold holds. intros [[H _]%andb_true_iff _]%andb_true_iff E. by rewrite E in H. Qed.

Lemma find_from_Some m b h ks i : find_from m b h ks = Some i ->
  exists ks1 k ks2, ks = ks1 ++ k :: ks2 /\ probe m h k = i /\ holds (rec_at m i) b h = true /\
    forall k', k' ∈ ks1 -> r_state (rec_at m (probe m h k')) <> STATE_EMPTY /\ holds (rec_at m (probe m h k')) b h = false.
Proof.
  induction ks as [|k ks IH]; cbn; [done|]. destruct (Z.eqb_spec (r_state (rec_at m (probe m h k))) STATE_EMPTY); [done|].
  destruct (holds (rec_at m (probe m h k)) b h) eqn:Eh.
  - intros [= <-]. exists [], k, ks. split_and!; try done. by intros k' ?%elem_of_nil.
  - intros (ks1 & k1 & ks2 & -> & Hp & Hh & Hk)%IH. exists (k :: ks1), k1, ks2. split_and!; try done.
    intros k' [->|Hin]%elem_of_cons; [done|]. by apply Hk.
Qed.

Lemma find_from_first m b h ks1 k ks2 :
  (forall k', k' ∈ ks1 -> r_state (rec_at m (probe m h k')) <> STATE_EMPTY /\ holds (rec_at m (probe m h k')) b h = false) ->
  holds (rec_at m (probe m h k)) b h = true -> find_from m b h (ks1 ++ k :: ks2) = Some (probe m h k).
Proof.
  intros Hk Hh. induction ks1 as [|k1 ks1 IH]; cbn.
  - destruct (Z.eqb_spec (r_state (rec_at m (probe m h k))) STATE_EMPTY) as [E|]; [by apply holds_not_empty in Hh|]. by rewrite Hh.
  - destruct (Hk k1 (list_elem_of_here _ _)) as [H1 H2]. destruct (Z.eqb_spec (r_state (rec_at m (probe m h k1))) STATE_EMPTY); [done|].
    rewrite H2. apply IH. intros k' Hin. apply Hk. by apply list_elem_of_further.
Qed.

Lemma insert_from_Some m b h ks i m' : find_from m b h ks = None -> insert_from m b h ks = Some (i, m') ->
  exists ks1 k ks2, ks = ks1 ++ k :: ks2 /\ probe m h k = i /\ r_state (rec_at m i) = STATE_EMPTY /\ m' = set_record m i (claim_record b h) /\
    forall k', k' ∈ ks1 -> r_state (rec_at m (probe m h k')) <> STATE_EMPTY /\ holds (rec_at m (probe m h k')) b h = false.
Proof.
  induction ks as [|k ks IH]; cbn; [done|]. destruct (Z.eqb_spec (r_state (rec_at m (probe m h k))) STATE_EMPTY).
  - intros _ [= <- <-]. exists [], k, ks. split_and!; try done. by intros k' ?%elem_of_nil.
  - destruct (holds (rec_at m (probe m h k)) b h) eqn:Eh; [done|]. intros Hf Hi. destruct (IH Hf Hi) as (ks1 & k1 & ks2 & -> & Hp & He & -> & Hk).
    exists (k :: ks1), k1, ks2. split_and!; try done. intros k' [->|Hin]%elem_of_cons; [done|]. by apply Hk.
Qed.

Lemma probe_same m i f h k : probe (set_record m i f) h k = probe m h k.
Proof. unfold probe, probe_start, blen. cbn. by rewrite length_alter. Qed.
Lemma probes_same m i f : probes (set_record m i f) = probes m.
Proof. unfold probes. cbn. by rewrite length_alter. Qed.
Lemma rec_at_other m i f k : k <> i -> rec_at (set_record m i f) k = rec_at m k.
Proof. intros H. unfold rec_at. cbn. by rewrite list_lookup_alter_ne. Qed.
Lemma rec_at_set m i f r : records m !! i = Some r -> rec_at (set_record m i f) i = f r.
Proof. intros H. unfold rec_at. cbn. by rewrite list_lookup_alter_eq, H. Qed.

Lemma find_range m b h i : find m b h = Some i -> exists r, records m !! i = Some r /\ rec_at m i = r /\ holds r b h = true.
Proof.
  intros H. unfold find in H. apply find_from_Some in H as (ks1 & k & ks2 & _ & <- & Hh & _).
  assert (Hi : (probe m h k < List.length (records m))%nat).
  { unfold rec_at in Hh. destruct (records m !! probe m h k) eqn:E; [by eapply lookup_lt_Some|]. discriminate Hh. }
  destruct (lookup_lt_is_Some_2 _ _ Hi) as [r Hr]. exists r. pose proof (rec_at_Some _ _ _ Hr) as E. by rewrite E in Hh.
Qed.

(** A change that keeps the key of a record and whether it is empty changes no search. *)
Lemma find_same m i f r : records m !! i = Some r -> (forall b h, holds (f r) b h = holds r b h) -> (r_state (f r) = STATE_EMPTY <-> r_state r = STATE_EMPTY) ->
  forall b h, find (set_record m i f) b h = find m b h.
Proof.
  intros Hr Hh He b h. unfold find. rewrite probes_same. induction (probes m) as [|k ks IH]; [done|]. cbn. rewrite probe_same, IH.
  destruct (decide (probe m h k = i)) as [E|E]; [|by rewrite rec_at_other].
  rewrite E, (rec_at_set _ _ _ r Hr), Hh, (rec_at_Some _ _ _ Hr).
  destruct (Z.eqb_spec (r_state (f r)) STATE_EMPTY), (Z.eqb_spec (r_state r) STATE_EMPTY); try done; tauto.
Qed.

Lemma entry_reads_record m i r c n a : table_ok m -> records m !! i = Some r -> shows (entryBytes m) r c -> 0 <= n -> 0 <= a ->
  readSabIoMirrorEntry m i n a = (fun bytes => (blen bytes, bytes)) <$> read_record r n a.
Proof.
  intros Hok Hr Hs Hn Ha. destruct (to_record _ Hok i r Hr) as (_ & Hseq & _). destruct Hs as (Hlive & Hsize & Hcov & Hd). destruct (to_sizes _ Hok) as [Heb _].
  unfold readSabIoMirrorEntry, read_record. rewrite (rec_at_Some m i r Hr), Hseq, Hlive. cbn [Z.eqb negb]. destruct (Z.leb_spec (r_size r) a); [done|].
  set (want := Z.min n (r_size r - a)). destruct (Z.ltb_spec (r_covered r) (a + want)); [done|]. cbn [fmap option_fmap option_map].
  unfold data_area. rewrite (area_of_record _ i r) by (try done; try lia; intros r' (k & Hk)%list_elem_of_lookup; by apply (to_data _ Hok k)).
  assert (blen (r_data r) = entryBytes m) by by apply (to_data _ Hok i).
  do 2 f_equal. rewrite blen_subarray by lia. lia.
Qed.

(** Claiming an empty record keeps every search that had an answer. *)
Lemma find_claim m i f r b h j : records m !! i = Some r -> r_state r = STATE_EMPTY -> find m b h = Some j -> find (set_record m i f) b h = Some j.
Proof.
  intros Hr He Hf. unfold find in *. rewrite probes_same. apply find_from_Some in Hf as (ks1 & k & ks2 & -> & <- & Hh & Hk).
  assert (Hne : forall k', r_state (rec_at m (probe m h k')) <> STATE_EMPTY -> probe m h k' <> i).
  { intros k' H E. apply H. rewrite E. by rewrite (rec_at_Some _ _ _ Hr). }
  rewrite <- (probe_same m i f h k). apply find_from_first.
  - intros k' Hin. rewrite probe_same, rec_at_other; [by apply Hk|]. apply Hne. by apply Hk.
  - rewrite probe_same, rec_at_other; [done|]. apply Hne. by apply holds_not_empty in Hh.
Qed.

Lemma bump_even s : s mod 2 = 0 -> to_int32 (to_int32 (s + 1) + 1) mod 2 = 0.
Proof.
  intros H. pose proof (to_int32_mod (to_int32 (s + 1) + 1) 1 ltac:(lia)) as H1. pose proof (to_int32_mod (s + 1) 1 ltac:(lia)) as H2.
  change (2 ^ 1) with 2 in *. rewrite H1, <- Z.add_mod_idemp_l, H2, Z.add_mod_idemp_l by lia. replace (s + 1 + 1) with (s + 1 * 2) by lia. by rewrite Z.mod_add.
Qed.

(** A change of an occupied record that keeps its key. *)
Lemma table_change m i f r :
  table_ok m -> records m !! i = Some r -> occupied r = true -> occupied (f r) = true -> r_hash (f r) = r_hash r -> r_path_len (f r) = r_path_len r ->
  r_path (f r) = r_path r -> r_seq (f r) mod 2 = 0 -> blen (r_data (f r)) = entryBytes m -> (exists c, stands (entryBytes m) (f r) c) -> table_ok (set_record m i f) /\ (forall b h, find (set_record m i f) b h = find m b h).
Proof.
  intros [H1 H2 Hdata H3] Hr Ho Ho' E1 E2 E3 Hq Hlen Hst.
  assert (Hh : forall b h, holds (f r) b h = holds r b h).
  { intros b h. unfold holds, samePath, occupied in *. by rewrite E1, E2, E3, Ho, Ho'. }
  assert (Hf : forall b h, find (set_record m i f) b h = find m b h).
  { apply (find_same m i f r Hr Hh). unfold occupied in *. split; intros E; [by rewrite E in Ho'|by rewrite E in Ho]. }
  split; [|done]. constructor; [done| | |].
  - intros k y Hk. cbn in Hk. destruct (decide (i = k)) as [->|Hne].
    + rewrite list_lookup_alter_eq, Hr in Hk. injection Hk as <-. split_and!; [by right|done| |done]. rewrite E3. by apply (H2 k).
    + rewrite list_lookup_alter_ne in Hk by done. by apply (H2 k).
  - intros k y Hk. cbn in Hk |- *. destruct (decide (i = k)) as [->|Hne].
    + rewrite list_lookup_alter_eq, Hr in Hk. by injection Hk as <-.
    + rewrite list_lookup_alter_ne in Hk by done. by apply (Hdata k).
  - intros k y key Hk Hy. rewrite Hf. cbn in Hk. destruct (decide (i = k)) as [->|Hne].
    + rewrite list_lookup_alter_eq, Hr in Hk. injection Hk as <-. rewrite Hh in Hy. by apply (H3 k r).
    + rewrite list_lookup_alter_ne in Hk by done. by apply (H3 k y).
Qed.

(** The record of a path, found or newly claimed. *)
Lemma locate_ok m key i m' : table_ok m -> blen key <= maxPathBytes m ->
  match find m key (fnv1a key) with Some i => Some (i, m) | None => insert m key (fnv1a key) end = Some (i, m') ->
  table_ok m' /\ entryBytes m' = entryBytes m /\ maxPathBytes m' = maxPathBytes m /\ find m' key (fnv1a key) = Some i /\
  (find m key (fnv1a key) = None -> r_state (rec_at m' i) = STATE_CLEARED) /\ (find m key (fnv1a key) <> None -> m' = m) /\
  forall k b, b <> key -> (find m' b (fnv1a b) = Some k <-> find m b (fnv1a b) = Some k) /\ (k <> i -> rec_at m' k = rec_at m k).
Proof.
  intros Hok Hlen H. destruct (find m key (fnv1a key)) as [i0|] eqn:Ef; [by injection H as <- <-|].
  unfold insert in H. unfold find in Ef. apply insert_from_Some in H as (ks1 & k & ks2 & Hks & Hp & He & -> & Hk); [|done].
  destruct (records m !! i) as [r|] eqn:Hr.
  2: { exfalso. assert (Hn : (0 < List.length (records m))%nat).
       { destruct (records m) eqn:E; [|cbn; lia]. unfold probes in Hks. rewrite E in Hks. by destruct ks1. }
       apply lookup_ge_None_1 in Hr. rewrite <- Hp in Hr. unfold probe in Hr. pose proof (Nat.mod_upper_bound (probe_start m (fnv1a key) + k) (List.length (records m)) ltac:(lia)). lia. }
  rewrite (rec_at_Some _ _ _ Hr) in He. set (f := claim_record key (fnv1a key)). set (m' := set_record m i f).
  destruct Hok as [[Hs1 Hs2] H2 Hdata H3]. destruct (H2 i r Hr) as (_ & Hseq & Hpl & _).
  assert (Hholds : forall b h, holds (f r) b h = true <-> b = key /\ h = fnv1a key).
  { intros b h. unfold holds, samePath, f. cbn. pose proof (blen_nonneg key).
    assert (Hsub : subarray (put_at (r_path r) key 0) 0 (blen key) = key).
    { destruct (buffer_cut (r_path r) 0 (blen key)) as (x & y & z & -> & Hx & Hy); [lia..|]. apply blen_0 in Hx as ->.
      rewrite (put_at_split [] y z) by done. by apply (subarray_app [] key z). }
    rewrite !andb_true_iff, !Z.eqb_eq, bool_decide_eq_true. split; [|intros [-> ->]; done].
    intros [<- [Hb1 Hb2]]. split; [|done]. rewrite <- Hb1, Hsub in Hb2. done. }
  assert (Hfind : find m' key (fnv1a key) = Some i).
  { unfold find, m'. rewrite probes_same, Hks, <- Hp. rewrite <- (probe_same m (probe m (fnv1a key) k) f (fnv1a key) k) at 2. apply find_from_first.
    - intros k' Hin. rewrite probe_same. destruct (Hk k' Hin) as [E1 E2]. rewrite rec_at_other; [done|].
      intros E. apply E1. rewrite E, Hp. by rewrite (rec_at_Some _ _ _ Hr).
    - rewrite probe_same, Hp, (rec_at_set _ _ _ r Hr). by apply Hholds. }
  assert (Hfwd : forall b h j, find m b h = Some j -> find m' b h = Some j) by (intros b h j; by apply (find_claim m i f r)).
  split_and!; try done.
  - constructor; [done| | |].
    + intros k0 y Hk0. cbn in Hk0. destruct (decide (i = k0)) as [->|Hne].
      * rewrite list_lookup_alter_eq, Hr in Hk0. injection Hk0 as <-. split_and!; [by right|done| |by exists []]. cbn. rewrite blen_put_at by lia. done.
      * rewrite list_lookup_alter_ne in Hk0 by done. by apply (H2 k0).
    + intros k0 y Hk0. cbn in Hk0 |- *. destruct (decide (i = k0)) as [->|Hne].
      * rewrite list_lookup_alter_eq, Hr in Hk0. injection Hk0 as <-. by apply (Hdata k0 r).
      * rewrite list_lookup_alter_ne in Hk0 by done. by apply (Hdata k0).
    + intros k0 y b Hk0 Hy. cbn in Hk0. destruct (decide (i = k0)) as [->|Hne].
      * rewrite list_lookup_alter_eq, Hr in Hk0. injection Hk0 as <-. apply Hholds in Hy as [-> _]. done.
      * rewrite list_lookup_alter_ne in Hk0 by done. apply Hfwd. by apply (H3 k0 y).
  - intros _. unfold m'. by rewrite (rec_at_set _ _ _ r Hr).
  - intros k0 b Hb. split; [|intros Hne; by apply rec_at_other]. split; [|by apply Hfwd].
    intros Hf. destruct (find_range _ _ _ _ Hf) as (y & Hy & _ & Hh). cbn in Hy. destruct (decide (i = k0)) as [->|Hne].
    + rewrite list_lookup_alter_eq, Hr in Hy. injection Hy as <-. by apply Hholds in Hh as [? _].
    + rewrite list_lookup_alter_ne in Hy by done. by apply (H3 k0 y).
Qed.

(** ** What the mirror shows *)

Definition shown (m : mirror) (key c : list Z) : Prop := exists i, find m key (fnv1a key) = Some i /\ shows (entryBytes m) (rec_at m i) c.
Definition mirrors (m : mirror) (p : jsstring) (c : list Z) : Prop := shown m (toBytes p) c.

(** The content an update starts from: what the mirror shows, or nothing. *)
Definition starts_from (m : mirror) (p : jsstring) (c : list Z) : Prop :=
  mirrors m p c \/ c = [] /\ forall c', ~ mirrors m p c'.

Lemma occupied_holds r b h : holds r b h = true -> occupied r = true.
Proof. unfold holds, occupied. by intros [[? _]%andb_true_iff _]%andb_true_iff. Qed.

(** Other paths do not notice. *)
Definition others_same (m m' : mirror) (p : jsstring) : Prop :=
  forall k c, k <> toBytes p -> (shown m' k c <-> shown m k c).

Lemma update_ok m p a v t m' (good : list Z -> list Z -> Prop) :
  table_ok m -> updateSabIoMirror m p a v t = (true, m') ->
  (forall r c, stands (entryBytes m) r c -> exists c', good c c' /\ shows (entryBytes m) (update_stores (entryBytes m) a v t r) c') ->
  table_ok m' /\ entryBytes m' = entryBytes m /\ (forall c, starts_from m p c -> exists c', good c c' /\ mirrors m' p c') /\ others_same m m' p /\
  (find m (toBytes p) (fnv1a (toBytes p)) <> None -> forall b h, find m' b h = find m b h).
Proof.
  intros Hok Hu Hgood. unfold updateSabIoMirror in Hu. destruct (Z.ltb_spec (maxPathBytes m) (blen (toBytes p))) as [|Hlen]; [done|].
  set (key := toBytes p) in *. destruct (match find m key (fnv1a key) with Some _ => _ | None => _ end) as [[i m1]|] eqn:El; [|done]. injection Hu as <-.
  destruct (locate_ok m key i m1 Hok Hlen El) as (Hok1 & Heb & Hmp & Hf & Hnew & Hold & Hoth). rewrite Heb.
  destruct (find_range _ _ _ _ Hf) as (r & Hr & Hra & Hh). set (f := fun r => _).
  destruct (to_record _ Hok1 i r Hr) as (_ & Hseq & _ & c1 & Hst1). rewrite Heb in Hst1.
  destruct (table_change m1 i f r Hok1 Hr (occupied_holds _ _ _ Hh)) as [Hok2 Hfind]; try done.
  { by apply bump_even. }
  { destruct (Hgood (bump r) c1) as (c2 & _ & Hs); [exact Hst1|]. change (r_data (f r)) with (r_data (update_stores (entryBytes m) a v t (bump r))).
    destruct Hs as (_ & _ & _ & ->). rewrite Heb. apply blen_prefix, (to_sizes _ Hok). }
  { rewrite Heb. destruct (Hgood (bump r) c1) as (c2 & _ & Hs); [exact Hst1|]. exists c2. unfold stands.
    change (r_state (f r)) with (r_state (update_stores (entryBytes m) a v t (bump r))). destruct Hs as (E & Hs). rewrite E. by split. }
  split_and!; [done|done| | |intros H b h; rewrite Hfind; by rewrite Hold].
  - intros c Hc. assert (Hst : stands (entryBytes m) (bump r) c).
    { unfold stands. change (r_state (bump r)) with (r_state r). change (shows (entryBytes m) (bump r) c) with (shows (entryBytes m) r c).
      destruct (find m key (fnv1a key)) as [i0|] eqn:E0.
      - assert (m1 = m) as -> by (by apply Hold). injection El as <-. destruct Hc as [(i' & E' & Hsh)|[-> Hno]].
        + fold key in E'. rewrite E0 in E'. injection E' as <-. rewrite Hra in Hsh. destruct Hsh as (E & Hsh). rewrite E. done.
        + destruct (Z.eqb_spec (r_state r) STATE_LIVE) as [E|]; [|done]. exfalso.
          unfold stands in Hst1. rewrite E in Hst1. cbn in Hst1. apply (Hno c1). exists i0. fold key. by rewrite Hra.
      - rewrite Hra in Hnew. rewrite Hnew by done. cbn. destruct Hc as [(i' & E' & _)|[-> _]]; [fold key in E'; congruence|done]. }
    destruct (Hgood _ _ Hst) as (c' & Hg & Hs). exists c'. split; [done|]. exists i. split; [by rewrite Hfind|]. change (entryBytes (set_record m1 i f)) with (entryBytes m1). rewrite Heb, (rec_at_set _ _ _ r Hr). exact Hs.
  - intros k' c Hne. assert (Hfi : forall k, find (set_record m1 i f) k' (fnv1a k') = Some k <-> find m k' (fnv1a k') = Some k).
    { intros k. rewrite Hfind. by apply Hoth. }
    assert (Hrec : forall k, find (set_record m1 i f) k' (fnv1a k') = Some k -> rec_at (set_record m1 i f) k = rec_at m k).
    { intros k Hk. assert (k <> i).
      { intros ->. rewrite Hfind in Hk. destruct (find_range _ _ _ _ Hk) as (r' & Hr' & _ & Hh'). rewrite Hr in Hr'. injection Hr' as <-.
        apply Hne. by eapply holds_inj. }
      rewrite rec_at_other by done. by apply (Hoth k k'). }
    split; intros (k & Hk & Hs); exists k; (split; [by apply Hfi|]).
    + rewrite Hrec in Hs by done. cbn in Hs. by rewrite Heb in Hs.
    + apply Hfi in Hk. rewrite Hrec by done. cbn. by rewrite Heb.
Qed.

(** No record is empty. *)
Definition full (m : mirror) : Prop := forall i r, records m !! i = Some r -> r_state r <> STATE_EMPTY.

Lemma probe_surj m h i : (i < List.length (records m))%nat -> exists k, k ∈ probes m /\ probe m h k = i.
Proof.
  intros Hi. set (n := List.length (records m)) in *. assert (Hs : (probe_start m h < n)%nat).
  { unfold probe_start, blen. fold n. pose proof (Z.mod_pos_bound (js_ushr0 h) (Z.of_nat n) ltac:(lia)). lia. }
  exists ((i + (n - probe_start m h)) mod n)%nat. split.
  - unfold probes. fold n. rewrite list_elem_of_In, in_seq. pose proof (Nat.mod_upper_bound (i + (n - probe_start m h)) n ltac:(lia)). lia.
  - unfold probe. fold n. rewrite Nat.Div0.add_mod_idemp_r. replace (probe_start m h + (i + (n - probe_start m h)))%nat with (i + 1 * n)%nat by lia.
    rewrite Nat.Div0.mod_add. by apply Nat.mod_small.
Qed.

Lemma insert_None m b h : insert m b h = None -> full m.
Proof.
  intros H i r Hr E. destruct (probe_surj m h i (lookup_lt_Some _ _ _ Hr)) as (k & Hk & Hp). unfold insert in H. revert H Hk.
  induction (probes m) as [|k' ks IH]; [by intros _ ?%elem_of_nil|]. cbn. destruct (Z.eqb_spec (r_state (rec_at m (probe m h k'))) STATE_EMPTY) as [|Hne]; [done|].
  intros H [<-|Hin]%elem_of_cons; [|by apply IH]. rewrite Hp, (rec_at_Some _ _ _ Hr) in Hne. done.
Qed.

Lemma full_insert m b h : full m -> insert m b h = None.
Proof.
  intros Hf. unfold insert. assert (Hp : forall k, k ∈ probes m -> r_state (rec_at m (probe m h k)) <> STATE_EMPTY).
  { intros k Hk. unfold probes in Hk. rewrite list_elem_of_In, in_seq in Hk.
    assert (Hi : (probe m h k < List.length (records m))%nat) by (unfold probe; apply Nat.mod_upper_bound; lia).
    destruct (lookup_lt_is_Some_2 _ _ Hi) as [r Hr]. rewrite (rec_at_Some _ _ _ Hr). by apply (Hf (probe m h k) r). }
  induction (probes m) as [|k ks IH]; [done|]. cbn. destruct (Z.eqb_spec (r_state (rec_at m (probe m h k))) STATE_EMPTY) as [E|].
  - by destruct (Hp k (list_elem_of_here _ _)).
  - apply IH. intros k' Hk'. apply Hp. by apply list_elem_of_further.
Qed.

Lemma long_key_not_found m key : table_ok m -> maxPathBytes m < blen key -> find m key (fnv1a key) = None.
Proof.
  intros Hok Hlen. destruct (find m key (fnv1a key)) as [i|] eqn:E; [|done]. destruct (find_range _ _ _ _ E) as (r & Hr & _ & Hh).
  destruct (to_record _ Hok i r Hr) as (_ & _ & Hp & _). unfold holds, samePath in Hh. apply andb_true_iff in Hh as [_ [_ Hb]%andb_true_iff].
  apply bool_decide_eq_true in Hb. rewrite <- Hb in Hlen at 1. pose proof (blen_nonneg key). unfold subarray, rel_index in Hlen.
  destruct (Z.ltb_spec 0 0); [lia|]. destruct (Z.ltb_spec (blen key) 0); [lia|]. unfold blen in *. rewrite length_take, length_drop in Hlen. lia.
Qed.

(** ** Operations of the writing worker, and the files *)

Inductive mop := Seed (p : jsstring) (c : list Z) | Write (p : jsstring) (a : Z) (v : list Z) | Truncate (p : jsstring) (t : Z) | Clear (p : jsstring).

(** What the server does to the mirror when it opens a file, writes it, truncates it, or removes it. *)
Definition apply_mop (m : mirror) (o : mop) : mirror :=
  match o with
  | Seed p c => (updateSabIoMirror m p 0 (subarray c 0 (entryBytes m)) (Some (blen c))).2
  | Write p a v => (updateSabIoMirror m p a v None).2
  | Truncate p t => (updateSabIoMirror m p 0 [] (Some t)).2
  | Clear p => clearSabIoMirror m p
  end.

(** The open files, by the bytes of their path. *)
Abbreviation files := (list Z -> option (list Z)).
Definition set_file (A : files) (k : list Z) (c : option (list Z)) : files := fun k' => if decide (k' = k) then c else A k'.
Definition apply_file (A : files) (o : mop) : files :=
  match o with
  | Seed p c => set_file A (toBytes p) (Some c)
  | Write p a v => set_file A (toBytes p) ((fun c => after_update c a v None) <$> A (toBytes p))
  | Truncate p t => set_file A (toBytes p) ((fun c => resized c t) <$> A (toBytes p))
  | Clear p => set_file A (toBytes p) None
  end.

(** Only open files are written and truncated. *)
Definition valid (A : files) (o : mop) : Prop :=
  match o with
  | Write p a _ => 0 <= a /\ A (toBytes p) <> None
  | Truncate p t => 0 <= t /\ A (toBytes p) <> None
  | _ => True
  end.
Fixpoint all_valid (A : files) (os : list mop) : Prop :=
  match os with [] => True | o :: os => valid A o /\ all_valid (apply_file A o) os end.

Definition hopeless (m : mirror) (k : list Z) : Prop := find m k (fnv1a k) = None /\ (full m \/ maxPathBytes m < blen k).

(** A path is shown with the content of its file, and an open file that is not shown never will be. *)
Definition tracks (m : mirror) (A : files) (k : list Z) : Prop :=
  (forall c', shown m k c' -> exists c, A k = Some c /\ shown m k c) /\ (A k <> None -> (exists c, shown m k c) \/ hopeless m k).

Lemma update_cases m p a v t : table_ok m ->
  (exists m', updateSabIoMirror m p a v t = (true, m')) \/
  (updateSabIoMirror m p a v t = (false, m) /\ hopeless m (toBytes p)).
Proof.
  intros Hok. unfold updateSabIoMirror, hopeless. destruct (Z.ltb_spec (maxPathBytes m) (blen (toBytes p))) as [Hlen|Hlen].
  - right. split; [done|]. split; [by apply long_key_not_found|by right].
  - destruct (find m (toBytes p) (fnv1a (toBytes p))) as [i|] eqn:E; [left; by eexists|].
    destruct (insert m (toBytes p) (fnv1a (toBytes p))) as [[i m1]|] eqn:Ei; [left; by eexists|]. right. split; [done|]. split; [done|]. left. by eapply insert_None.
Qed.

Lemma full_set m i f r : records m !! i = Some r -> r_state (f r) <> STATE_EMPTY -> full m -> full (set_record m i f).
Proof.
  intros Hr Hs Hf k y Hk. cbn in Hk. destruct (decide (i = k)) as [->|].
  - rewrite list_lookup_alter_eq, Hr in Hk. by injection Hk as <-.
  - rewrite list_lookup_alter_ne in Hk by done. by apply (Hf k).
Qed.

Lemma update_full m p a v t m' : updateSabIoMirror m p a v t = (true, m') -> full m -> full m' /\ find m (toBytes p) (fnv1a (toBytes p)) <> None /\ maxPathBytes m' = maxPathBytes m.
Proof.
  intros Hu Hf. unfold updateSabIoMirror in Hu. destruct (_ <? _); [done|].
  destruct (find m (toBytes p) (fnv1a (toBytes p))) as [i|] eqn:E; [|by rewrite full_insert in Hu]. injection Hu as <-.
  destruct (find_range _ _ _ _ E) as (r & Hr & _). split_and!; try done. by apply (full_set _ _ _ r).
Qed.
Lemma update_max m p a v t b m' : updateSabIoMirror m p a v t = (b, m') -> maxPathBytes m' = maxPathBytes m.
Proof.
  unfold updateSabIoMirror. destruct (_ <? _); [by intros [= <- <-]|]. destruct (find m _ _) as [i|]; [by intros [= <- <-]|].
  destruct (insert m _ _) as [[i m1]|] eqn:E; [|by intros [= <- <-]]. intros [= <- <-]. cbn. unfold insert in E. clear -E.
  revert E. induction (probes m) as [|k ks IH]; cbn; [done|]. destruct (_ =? _); [by intros [= <- <-]|done].
Qed.

(** An update of an open or newly opened path keeps the mirror in step. *)
Lemma tracks_update m A p a v t c0 c' :
  table_ok m -> (forall k, tracks m A k) -> starts_from m p c0 ->
  (forall r c, stands (entryBytes m) r c -> exists c1, shows (entryBytes m) (update_stores (entryBytes m) a v t r) c1) ->
  (forall r, stands (entryBytes m) r c0 -> shows (entryBytes m) (update_stores (entryBytes m) a v t r) c') ->
  table_ok (updateSabIoMirror m p a v t).2 /\ forall k, tracks (updateSabIoMirror m p a v t).2 (set_file A (toBytes p) (Some c')) k.
Proof.
  intros Hok Htr Hc0 Hany Hspec. destruct (update_cases m p a v t Hok) as [(m' & E)|[E Hno]]; rewrite E; cbn [snd].
  - destruct (update_ok m p a v t m' (fun c c1 => c = c0 -> c1 = c') Hok E) as (Hok' & Heb & Hmine & Hoth & Hfind).
    { intros r c Hst. destruct (decide (c = c0)) as [->|Hne]; [exists c'; split; [done|by apply Hspec]|].
      destruct (Hany r c Hst) as (c1 & Hs). by exists c1. }
    split; [done|]. intros k. unfold tracks, set_file. destruct (decide (k = toBytes p)) as [->|Hne].
    + destruct (Hmine c0 Hc0) as (c1 & Hg & Hm1). rewrite (Hg eq_refl) in Hm1. split; [by eauto|]. intros _. left. by exists c'.
    + destruct (Htr k) as [H1 H2]. split.
      * intros c1 Hs. apply (Hoth k c1 Hne) in Hs. destruct (H1 _ Hs) as (c & Ha & Hs'). exists c. split; [done|]. by apply Hoth.
      * intros Ha. destruct (H2 Ha) as [(c & Hs)|[Hn Hf]]; [left; exists c; by apply Hoth|]. right.
        pose proof (update_max _ _ _ _ _ _ _ E) as Hmax. destruct Hf as [Hf|Hf].
        -- destruct (update_full m p a v t m' E Hf) as (Hf' & Hp & _). split; [by rewrite Hfind|by left].
        -- split; [apply long_key_not_found; [done|]; by rewrite Hmax|right; by rewrite Hmax].
  - split; [done|]. intros k. unfold tracks, set_file. destruct (decide (k = toBytes p)) as [->|]; [|apply Htr].
    split; [|by right]. intros c1 (i & Hi & _). destruct Hno as [Hno _]. congruence.
Qed.

Lemma tracks_clear m A p : table_ok m -> (forall k, tracks m A k) ->
  table_ok (clearSabIoMirror m p) /\ forall k, tracks (clearSabIoMirror m p) (set_file A (toBytes p) None) k.
Proof.
  intros Hok Htr. unfold clearSabIoMirror. destruct (Z.ltb_spec (maxPathBytes m) (blen (toBytes p))) as [Hlen|Hlen].
  { split; [done|]. intros k. unfold tracks, set_file. destruct (decide (k = toBytes p)) as [->|]; [|apply Htr]. split; [|done].
    intros c (i & Hi & _). rewrite (long_key_not_found m (toBytes p) Hok Hlen) in Hi. done. }
  destruct (find m (toBytes p) (fnv1a (toBytes p))) as [i|] eqn:Ef.
  2: { split; [done|]. intros k. unfold tracks, set_file. destruct (decide (k = toBytes p)) as [->|]; [|apply Htr]. split; [|done].
       intros c (i & Hi & _). congruence. }
  destruct (find_range _ _ _ _ Ef) as (r & Hr & Hra & Hh). set (f := fun r => _). destruct (to_record _ Hok i r Hr) as (_ & Hseq & _).
  destruct (table_change m i f r Hok Hr (occupied_holds _ _ _ Hh)) as [Hok2 Hfind]; try done; [by apply bump_even|exact (to_data _ Hok i r Hr)|by exists []|].
  split; [done|]. intros k. unfold tracks, set_file. destruct (decide (k = toBytes p)) as [->|Hne].
  - split; [|done]. intros c (k & Hk & Hs & _). rewrite Hfind, Ef in Hk. injection Hk as <-. by rewrite (rec_at_set _ _ _ r Hr) in Hs.
  - assert (Hsh : forall c, shown (set_record m i f) k c <-> shown m k c).
    { intros c. unfold shown. assert (Hrec : forall n, find m k (fnv1a k) = Some n -> rec_at (set_record m i f) n = rec_at m n).
      { intros n Hn. apply rec_at_other. intros ->. destruct (find_range _ _ _ _ Hn) as (r' & Hr' & _ & Hh'). rewrite Hr in Hr'. injection Hr' as <-.
        apply Hne. by eapply holds_inj. }
      split; intros (n & Hn & Hs); exists n; rewrite Hfind in *; rewrite Hrec in * by done; done. }
    destruct (Htr k) as [H1 H2]. split.
    + intros c1 Hs. apply Hsh in Hs. destruct (H1 _ Hs) as (c & Ha & Hs'). exists c. split; [done|]. by apply Hsh.
    + intros Ha. destruct (H2 Ha) as [(c & Hs)|[Hn Hf]]; [left; exists c; by apply Hsh|]. right. split; [by rewrite Hfind|].
      destruct Hf as [Hf|Hf]; [left; by apply (full_set _ _ _ r)|by right].
Qed.

(** The content an open path starts from. *)
Lemma tracks_start m A p c : (forall k, tracks m A k) -> A (toBytes p) = Some c ->
  starts_from m p c \/ hopeless m (toBytes p).
Proof.
  intros Htr Ha. destruct (Htr (toBytes p)) as [H1 H2]. destruct H2 as [(c1 & Hs)|Hn]; [by rewrite Ha| |by right].
  left. left. destruct (H1 _ Hs) as (c2 & Ha2 & Hs2). rewrite Ha in Ha2. by injection Ha2 as <-.
Qed.

Lemma hopeless_update m p a v t : hopeless m (toBytes p) -> updateSabIoMirror m p a v t = (false, m).
Proof.
  intros [Hn Hf]. unfold updateSabIoMirror. destruct (Z.ltb_spec (maxPathBytes m) (blen (toBytes p))); [done|]. rewrite Hn.
  destruct Hf as [Hf|]; [|lia]. by rewrite full_insert.
Qed.

Lemma tracks_hopeless m A p c : (forall k, tracks m A k) -> hopeless m (toBytes p) -> forall k, tracks m (set_file A (toBytes p) c) k.
Proof.
  intros Htr Hno k. unfold tracks, set_file. destruct (decide (k = toBytes p)) as [->|]; [|apply Htr]. split; [|by right].
  intros c1 (i & Hi & _). destruct Hno as [Hno _]. congruence.
Qed.

Lemma starts_somewhere m p : table_ok m -> exists c, starts_from m p c.
Proof.
  intros Hok. unfold starts_from, mirrors, shown. destruct (find m (toBytes p) (fnv1a (toBytes p))) as [i|] eqn:E.
  - destruct (find_range _ _ _ _ E) as (r & Hr & Hra & _). destruct (to_record _ Hok i r Hr) as (_ & _ & _ & c & Hst). unfold stands in Hst.
    destruct (Z.eqb_spec (r_state r) STATE_LIVE) as [El|El]; [exists c; left; exists i; by rewrite Hra|].
    exists []. right. split; [done|]. intros c' (i' & [= <-] & Hs & _). congruence.
  - exists []. right. split; [done|]. by intros c' (i' & ? & _).
Qed.

Lemma tracks_step m A o : table_ok m -> (forall k, tracks m A k) -> valid A o ->
  table_ok (apply_mop m o) /\ forall k, tracks (apply_mop m o) (apply_file A o) k.
Proof.
  intros Hok Htr Hv. destruct (to_sizes _ Hok) as [Heb _]. destruct o as [p c|p a v|p t|p]; cbn [apply_mop apply_file].
  - destruct (starts_somewhere m p Hok) as (c0 & Hc0). apply (tracks_update m A p _ _ _ c0); try done.
    + intros r c1 Hst. exists c. by eapply update_seed.
    + intros r Hst. by eapply update_seed.
  - destruct Hv as [Ha Hopen]. destruct (A (toBytes p)) as [c|] eqn:Ec; [|done]. cbn. destruct (tracks_start m A p c Htr Ec) as [Hs|Hno].
    + apply (tracks_update m A p _ _ _ c); try done.
      * intros r c1 Hst. eexists. by apply update_write.
      * intros r Hst. by apply update_write.
    + rewrite hopeless_update by done. split; [done|]. by apply tracks_hopeless.
  - destruct Hv as [Ht Hopen]. destruct (A (toBytes p)) as [c|] eqn:Ec; [|done]. cbn. destruct (tracks_start m A p c Htr Ec) as [Hs|Hno].
    + apply (tracks_update m A p _ _ _ c); try done.
      * intros r c1 Hst. eexists. by apply update_truncate.
      * intros r Hst. by apply update_truncate.
    + rewrite hopeless_update by done. split; [done|]. by apply tracks_hopeless.
  - by apply tracks_clear.
Qed.

Lemma fresh_table n eb mp : 0 <= eb -> 0 <= mp -> table_ok (fresh_mirror n eb mp).
Proof.
  intros Heb Hmp. assert (Hall : forall i r, repeat (blank_record eb mp) n !! i = Some r -> r = blank_record eb mp).
  { intros i r Hr. by apply list_elem_of_lookup_2, list_elem_of_In, repeat_spec in Hr. }
  constructor; [done| | |]; cbn.
  - intros i r ->%Hall. split_and!; [by left|done|by apply blen_zeros|by exists []].
  - intros i r ->%Hall. by apply blen_zeros.
  - intros i r key ->%Hall Hh. discriminate Hh.
Qed.

(** The mirror and the open files after some operations. *)
Definition mirror_after (n : nat) (eb mp : Z) (os : list mop) : mirror := fold_left apply_mop os (fresh_mirror n eb mp).
Definition no_files : files := fun _ => None.
Definition files_after (os : list mop) : files := fold_left apply_file os no_files.

Lemma tracks_run n eb mp os : 0 <= eb -> 0 <= mp -> all_valid no_files os ->
  table_ok (mirror_after n eb mp os) /\ entryBytes (mirror_after n eb mp os) = eb /\ forall k, tracks (mirror_after n eb mp os) (files_after os) k.
Proof.
  intros Heb Hmp. unfold mirror_after, files_after.
  assert (H0 : forall k, tracks (fresh_mirror n eb mp) no_files k).
  { intros k. split; [|done]. intros c (i & Hi & _). destruct (find_range _ _ _ _ Hi) as (r & Hr & _ & Hh).
    apply list_elem_of_lookup_2, list_elem_of_In, repeat_spec in Hr as ->. discriminate Hh. }
  assert (He : forall m o, entryBytes (apply_mop m o) = entryBytes m).
  { assert (Hu : forall m p a v t, entryBytes (updateSabIoMirror m p a v t).2 = entryBytes m).
    { intros m p a v t. unfold updateSabIoMirror. destruct (_ <? _); [done|]. destruct (find m _ _) as [i|]; [done|].
      destruct (insert m _ _) as [[i m1]|] eqn:E; [|done]. cbn. unfold insert in E. clear -E.
      revert E. induction (probes m) as [|k ks IH]; cbn; [done|]. destruct (_ =? _); [by intros [= <- <-]|done]. }
    intros m [p c|p a v|p t|p]; cbn; try apply Hu. unfold clearSabIoMirror. destruct (_ <? _); [done|]. by destruct (find m _ _). }
  assert (Hrun : forall os A m, table_ok m -> (forall k, tracks m A k) -> all_valid A os ->
    table_ok (fold_left apply_mop os m) /\ entryBytes (fold_left apply_mop os m) = entryBytes m /\ forall k, tracks (fold_left apply_mop os m) (fold_left apply_file os A) k).
  { clear -He. induction os as [|o os IH]; intros A m Hok Htr; [done|]. intros [Hv Hvs]. destruct (tracks_step m A o Hok Htr Hv) as [Hok' Htr'].
    cbn [fold_left]. rewrite <- (He m o). by apply IH. }
  intros Hv. exact (Hrun os no_files _ (fresh_table n eb mp Heb Hmp) H0 Hv).
Qed.

(** What the mirror answers for a path, when it tracks the files [A]. *)
Lemma mirror_answers m A p len a : table_ok m -> (forall k, tracks m A k) -> 0 <= len -> 0 <= a ->
  match findSabIoMirrorEntry m p with
  | None => readSabIoMirror m p len a = None
  | Some i => exists c, A (toBytes p) = Some c /\ readSabIoMirror m p len a = readSabIoMirrorEntry m i len a /\
      readSabIoMirrorEntry m i len a =
        if decide (blen c <= a \/ a + Z.min len (blen c - a) <= entryBytes m) then Some (blen (subarray c a (a + len)), subarray c a (a + len)) else None
  end.
Proof.
  intros Hok Htr Hlen Ha. unfold findSabIoMirrorEntry, readSabIoMirror. destruct (maxPathBytes m <? blen (toBytes p)) eqn:Hl; [done|].
  destruct (find m (toBytes p) (fnv1a (toBytes p))) as [i|] eqn:Hf; [|done]. destruct (find_range _ _ _ _ Hf) as (r & Hr & Hra & _).
  rewrite Hra. destruct (Z.eqb_spec (r_state r) STATE_LIVE) as [El|El].
  - destruct (to_record _ Hok i r Hr) as (_ & _ & _ & c1 & Hst). unfold stands in Hst. rewrite El in Hst. cbn in Hst.
    destruct (proj1 (Htr (toBytes p)) c1) as (c & Hc & (i' & Hf' & Hs)); [exists i; by rewrite Hra|].
    rewrite Hf in Hf'. injection Hf' as <-. rewrite Hra in Hs. exists c. split_and!; [done..|].
    rewrite (entry_reads_record m i r c) by done. rewrite (read_shows (entryBytes m) r c) by (done || apply (to_sizes _ Hok)). by destruct (decide _).
  - unfold readSabIoMirrorEntry. rewrite Hra. destruct (_ =? 1); [done|]. by destruct (Z.eqb_spec (r_state r) STATE_LIVE).
Qed.

(** Reading the mirror is reading the file: after any sequence of opens (which seed the mirror),
    writes and truncations of open files, and removals, in a table of any size, every answer the mirror
    gives for a path is the bytes of that file's content in the range asked for, with their number; and it does
    answer whenever the path has a record and the range lies in the mirrored prefix or behind the end. *)
Theorem mirror_reads_match_file n eb mp os p len a :
  0 <= eb -> 0 <= mp -> all_valid no_files os -> 0 <= len -> 0 <= a ->
  let m := mirror_after n eb mp os in
  (forall count bytes, readSabIoMirror m p len a = Some (count, bytes) ->
     exists c, files_after os (toBytes p) = Some c /\ bytes = subarray c a (a + len) /\ count = blen bytes) /\
  (forall c, files_after os (toBytes p) = Some c -> findSabIoMirrorEntry m p <> None -> blen c <= a \/ a + Z.min len (blen c - a) <= eb ->
     readSabIoMirror m p len a = Some (blen (subarray c a (a + len)), subarray c a (a + len))).
Proof.
  intros Heb Hmp Hv Hlen Ha m. destruct (tracks_run n eb mp os Heb Hmp Hv) as (Hok & He & Htr). fold m in Hok, He, Htr.
  pose proof (mirror_answers m (files_after os) p len a Hok Htr Hlen Ha) as H. rewrite He in H. split.
  - intros count bytes Hb. destruct (findSabIoMirrorEntry m p) as [i|]; [|congruence]. destruct H as (c & Hc & Hr & Hi). exists c.
    rewrite Hr, Hi in Hb. destruct (decide _); [by injection Hb as <- <-|done].
  - intros c Hc Hfe Hin. destruct (findSabIoMirrorEntry m p) as [i|]; [|done]. destruct H as (c' & Hc' & Hr & Hi).
    rewrite Hc in Hc'. injection Hc' as <-. rewrite Hr, Hi. by rewrite decide_True.
Qed.

Definition head_path : jsstring := lit "p/h.fsh".
Definition head_ops : list mop := [Seed head_path [1; 2; 3]; Write head_path 5 [6; 7]; Truncate head_path 6; Write head_path 0 [9]].

Lemma mirror_reads_match_file_witness :
  readSabIoMirror (mirror_after 2 8 16 head_ops) head_path 10 1 = Some (5, [2; 3; 0; 0; 6]) /\
  exists c, files_after head_ops (toBytes head_path) = Some c /\ [2; 3; 0; 0; 6] = subarray c 1 (1 + 10) /\ 5 = blen [2; 3; 0; 0; 6].
Proof.
  assert (H : readSabIoMirror (mirror_after 2 8 16 head_ops) head_path 10 1 = Some (5, [2; 3; 0; 0; 6])) by (vm_compute; reflexivity).
  split; [exact H|].
  refine (proj1 (mirror_reads_match_file 2 8 16 head_ops head_path 10 1 ltac:(lia) ltac:(lia) _ ltac:(lia) ltac:(lia)) _ _ H).
  vm_compute. split_and!; try done; congruence.
Defined.

(** A mirror that could not be seeded does not stay absent: the next write makes the record live
    with the content of an empty file, so a reader gets zeros instead of the bytes of the file. *)
Theorem unseeded_mirror_shows_zeros :
  let m := (updateSabIoMirror (fresh_mirror 2 8 16) head_path 2 [5] None).2 in readSabIoMirror m head_path 4 0 = Some (3, [0; 0; 5]).
Proof. vm_compute. reflexivity. Qed.

(** A negative offset is not refused: the record of a file is read from in front of its area, so the reader of one file gets
    the mirrored bytes of another. *)
Theorem negative_offset_reads_other_record :
  let m := mirror_after 2 4 16 [Seed (lit "a/h.fsh") [11; 12; 13; 14]; Seed head_path [1; 2]] in
  findSabIoMirrorEntry m head_path = Some 1%nat /\ readSabIoMirror m head_path 4 (-4) = Some (4, [11; 12; 13; 14]).
Proof. vm_compute. split; reflexivity. Qed.
