(* ===== verification/MirrorSeqlock.v ===== *)
(** The seqlock of a mirror record (src/host/sabIoMirror.js): the writing worker changes a record word by
    word while a reader copies it. A step is one access to a word or a byte of the record, and a run
    is any interleaving of one writer and one reader of a record.

    What is shown is that a reader never returns a mixture: every answer is the answer of one version of
    the record that the writer had completed. Mirror.v says what a completed version stands for. *)
From Stdlib Require Import ZArith Lia.
From stdpp Require Import base list strings numbers.
From S2P Require Import Prelude JsText IoContract MemoryBackend Mirror.
Open Scope Z_scope.

(** ** The writer *)

(** One store of the writer. *)
Inductive word_store := Bump | Byte (i : nat) (v : Z) | Size (v : Z) | Covered (v : Z) | State (v : Z).

Definition apply_store (r : record) (w : word_store) : record :=
  match w with
  | Bump => bump r
  | Byte i v => set_data (<[i := v]> (r_data r)) r
  | Size v => set_size v r
  | Covered v => set_covered v r
  | State v => set_state v r
  end.

(** [data.set(bytes, at)] and [data.fill(0, from, to)] *)
Fixpoint copy_stores (i : nat) (bytes : list Z) : list word_store :=
  match bytes with [] => [] | b :: rest => Byte i b :: copy_stores (S i) rest end.
Definition fill_stores (from to : Z) : list word_store := copy_stores (Z.to_nat from) (zeros (to - from)).

(** The stores of [updateSabIoMirror] on record [r]. *)
Definition update_program (eb offset : Z) (bytes : list Z) (truncateTo : option Z) (r : record) : list word_store :=
  let wasLive := r_state r =? STATE_LIVE in
  let covered := if wasLive then r_covered r else 0 in
  let size := update_size (if wasLive then r_size r else 0) offset bytes truncateTo in
  Bump ::
  ((if wasLive then [] else fill_stores 0 eb) ++
   (if (0 <? blen bytes) && (offset <? eb) then
      (if covered <? offset then fill_stores covered offset else []) ++
      copy_stores (Z.to_nat offset) (subarray bytes 0 (Z.min eb (offset + blen bytes) - offset))
    else []) ++
   (match truncateTo with Some t => if t <? covered then fill_stores t covered else [] | None => [] end) ++
   [Size size; Covered (Z.min size eb); State STATE_LIVE]) ++ [Bump].

(** The stores of [clearSabIoMirror]. *)
Definition clear_program : list word_store := [Bump; State STATE_CLEARED; Covered 0; Size 0; Bump].

(** ** The reader *)

(** [readSabIoMirrorEntry] for [n] bytes at [offset]; each constructor names the access it makes next, and
    [g] is not a variable of it: it counts the changes of the sequence number up to its first load. *)
Inductive reader_pc :=
| RSeq (attempt : nat)
| RState (attempt : nat) (g before : Z)
| RSize (attempt : nat) (g before : Z)
| RCovered (attempt : nat) (g before size : Z)
| RCopy (attempt : nat) (g before want : Z) (acc : list Z)
| RCheck (attempt : nat) (g before : Z) (result : option (list Z))
| RReturned (result : option (list Z)).

Record system := System { rec : record; todo : list word_store; changes : Z; versions : list record; reader : reader_pc }.

Section run.
Context (eb n offset : Z).

(** The next attempt, or -1 after the last. *)
Definition retry (attempt : nat) : reader_pc := if (S attempt <? MAX_READ_ATTEMPTS)%nat then RSeq (S attempt) else RReturned None.

Definition reader_step (s : system) : option reader_pc :=
  let r := rec s in
  match reader s with
  | RSeq a => if r_seq r mod 2 =? 1 then Some (retry a) else Some (RState a (changes s) (r_seq r))
  | RState a g b => if r_state r =? STATE_LIVE then Some (RSize a g b) else Some (RReturned None)
  | RSize a g b => Some (RCovered a g b (r_size r))
  | RCovered a g b size =>
      if size <=? offset then Some (RCheck a g b (Some []))
      else let want := Z.min n (size - offset) in
           if r_covered r <? offset + want then Some (RCheck a g b None) else Some (RCopy a g b want [])
  | RCopy a g b want acc =>
      if blen acc <? want then Some (RCopy a g b want (acc ++ [default 0 (r_data r !! (Z.to_nat offset + List.length acc)%nat)]))
      else Some (RCheck a g b (Some acc))
  | RCheck a g b result => if r_seq r =? b then Some (RReturned result) else Some (retry a)
  | RReturned _ => None
  end.

(** A step: the writer begins an update or a clearing, the writer makes its next store, or the reader
    makes its next access. *)
Inductive action := StartUpdate (at' : Z) (bytes : list Z) (truncateTo : option Z) | StartClear | WriterStep | ReaderStep.

Definition writer_step (s : system) : option system :=
  match todo s with
  | [] => None
  | w :: rest =>
      let r := apply_store (rec s) w in
      Some (System r rest (match w with Bump => changes s + 1 | _ => changes s end)
              (match rest with [] => versions s ++ [r] | _ => versions s end) (reader s))
  end.

Definition seq_step (a : action) (s : system) : option system :=
  match a with
  | StartUpdate at' bytes t =>
      match todo s with [] => Some (System (rec s) (update_program eb at' bytes t (rec s)) (changes s) (versions s) (reader s)) | _ => None end
  | StartClear => match todo s with [] => Some (System (rec s) clear_program (changes s) (versions s) (reader s)) | _ => None end
  | WriterStep => writer_step s
  | ReaderStep => match reader_step s with Some pc => Some (System (rec s) (todo s) (changes s) (versions s) pc) | None => None end
  end.

Fixpoint seq_run (acts : list action) (s : system) : option system :=
  match acts with
  | [] => Some s
  | a :: acts => match seq_step a s with Some s => seq_run acts s | None => None end
  end.

Definition start (r : record) : system := System r [] 0 [r] (RSeq 0).
End run.

(** ** The stores add up to the operation *)

Lemma fold_copy bytes : forall i r, (i + List.length bytes <= List.length (r_data r))%nat ->
  fold_left apply_store (copy_stores i bytes) r = set_data (put_at (r_data r) bytes (Z.of_nat i)) r.
Proof.
  induction bytes as [|b rest IH]; intros i r Hi; cbn [copy_stores fold_left].
  - rewrite put_at_nil by (unfold blen; cbn in Hi; lia). by destruct r.
  - cbn in Hi. rewrite IH by (cbn; rewrite length_insert; lia). cbn [apply_store]. unfold set_data. cbn. f_equal.
    apply list_eq. intros k. rewrite !lookup_put_at by (unfold blen; rewrite ?length_insert; cbn; lia). unfold blen. cbn [List.length].
    destruct (decide (i = k)) as [->|Hne].
    + rewrite decide_False, decide_True by lia. rewrite list_lookup_insert_eq by lia. by replace (k - Z.to_nat (Z.of_nat k))%nat with O by lia.
    + rewrite list_lookup_insert_ne by done. destruct (decide (Z.of_nat (S i) <= Z.of_nat k < Z.of_nat (S i) + Z.of_nat (List.length rest))).
      * rewrite decide_True by lia. replace (k - Z.to_nat (Z.of_nat i))%nat with (S (k - Z.to_nat (Z.of_nat (S i))))%nat by lia. done.
      * by rewrite decide_False by lia.
Qed.

Lemma fold_fill r a b : 0 <= a <= b -> b <= blen (r_data r) -> fold_left apply_store (fill_stores a b) r = set_data (fill0 (r_data r) a b) r.
Proof.
  intros H Hb. unfold fill_stores. unfold blen in Hb. rewrite fold_copy by (rewrite length_zeros; lia). rewrite fill0_put by done. do 2 f_equal. lia.
Qed.

(** A record whose areas have their sizes. *)
Definition sized (eb : Z) (r : record) : Prop := blen (r_data r) = eb /\ 0 <= r_covered r <= eb /\ 0 <= r_size r.

Lemma program_is_update eb a v t r : sized eb r -> 0 <= a -> (forall x, t = Some x -> 0 <= x) ->
  fold_left apply_store (update_program eb a v t r) r = bump (update_stores eb a v t (bump r)).
Proof.
  intros (Hd & Hc & _) Ha Ht. pose proof (blen_nonneg (r_data r)) as Heb. unfold update_program. cbn [fold_left apply_store]. rewrite fold_left_app. cbn [fold_left apply_store]. f_equal.
  rewrite !fold_left_app. cbn [fold_left apply_store]. unfold update_stores. change (r_state (bump r)) with (r_state r).
  change (r_covered (bump r)) with (r_covered r). change (r_size (bump r)) with (r_size r). change (r_data (bump r)) with (r_data r).
  set (live := r_state r =? STATE_LIVE). set (cov := if live then r_covered r else 0). assert (Hcov : 0 <= cov <= eb) by (unfold cov; destruct live; lia).
  set (size := update_size _ _ _ _).
  set (d0 := if live then r_data r else zeros eb).
  assert (H0 : fold_left apply_store (if live then [] else fill_stores 0 eb) (bump r) = set_data d0 (bump r)).
  { unfold d0. destruct live; [reflexivity|]. rewrite fold_fill by (cbn; lia). f_equal. cbn. rewrite fill0_put by lia. rewrite Z.sub_0_r.
    destruct (buffer_cut (r_data r) 0 eb) as (x & y & z & E & Hx & Hy); [lia..|]. apply blen_0 in Hx as ->. rewrite E in Hd |- *.
    assert (z = []) as -> by (apply blen_0; rewrite !blen_app, blen_nil in Hd; lia). rewrite (put_at_split [] y []) by (rewrite ?blen_zeros by lia; done).
    cbn. by rewrite app_nil_r. }
  rewrite H0. assert (Hd0 : blen d0 = eb) by (unfold d0; destruct live; [done|apply blen_zeros; lia]).
  unfold update_data. fold d0.
  set (d1 := if (0 <? blen v) && (a <? eb) then _ else d0).
  assert (H1 : fold_left apply_store (if (0 <? blen v) && (a <? eb) then
      (if cov <? a then fill_stores cov a else []) ++ copy_stores (Z.to_nat a) (subarray v 0 (Z.min eb (a + blen v) - a)) else []) (set_data d0 (bump r)) =
    set_data d1 (bump r) /\ blen d1 = eb).
  { unfold d1. destruct (Z.ltb_spec 0 (blen v)); cbn [andb]; [|done]. destruct (Z.ltb_spec a eb); [|done]. rewrite fold_left_app.
    set (w := subarray v 0 _). assert (Hw : blen w = Z.min eb (a + blen v) - a) by (unfold w; rewrite blen_subarray; lia).
    set (d := if cov <? a then fill0 d0 cov a else d0).
    assert (Hfd : fold_left apply_store (if cov <? a then fill_stores cov a else []) (set_data d0 (bump r)) = set_data d (bump r) /\ blen d = eb).
    { unfold d. destruct (Z.ltb_spec cov a); [|done]. rewrite fold_fill by (cbn; lia). split; [done|]. rewrite fill0_put, blen_put_at; rewrite ?blen_zeros by lia; lia. }
    destruct Hfd as [-> Hbd]. rewrite fold_copy by (cbn; unfold blen in *; lia). cbn [r_data set_data]. rewrite Z2Nat.id by lia. split; [done|]. rewrite blen_put_at; lia. }
  destruct H1 as [H1 Hd1]. rewrite H1.
  assert (H2 : fold_left apply_store (match t with Some x => if x <? cov then fill_stores x cov else [] | None => [] end) (set_data d1 (bump r)) =
    set_data (match t with Some x => if x <? cov then fill0 d1 x cov else d1 | None => d1 end) (bump r)).
  { destruct t as [x|]; [|done]. specialize (Ht x eq_refl). destruct (Z.ltb_spec x cov); [|done]. rewrite fold_fill by (cbn; lia). done. }
  rewrite H2. done.
Qed.

Lemma program_is_clear r : fold_left apply_store clear_program r = bump (clear_stores (bump r)).
Proof. done. Qed.

(** ** No torn reads *)

Lemma to_int32_eq a b : to_int32 a = to_int32 b -> 0 <= a - b < 2 ^ 32 -> a = b.
Proof.
  intros H Hab. assert (Hm : a mod 2 ^ 32 = b mod 2 ^ 32).
  { unfold to_int32 in H. pose proof (Z.mod_pos_bound a (2 ^ 32) ltac:(lia)). pose proof (Z.mod_pos_bound b (2 ^ 32) ltac:(lia)).
    destruct (Z.ltb_spec (a mod 2 ^ 32) (2 ^ 31)), (Z.ltb_spec (b mod 2 ^ 32) (2 ^ 31)); lia. }
  pose proof (Z.div_mod a (2 ^ 32) ltac:(lia)). pose proof (Z.div_mod b (2 ^ 32) ltac:(lia)). nia.
Qed.

Lemma to_int32_mod32 z : to_int32 z mod 2 ^ 32 = z mod 2 ^ 32.
Proof.
  unfold to_int32. destruct (_ <? _); [by rewrite Z.mod_mod|]. rewrite <- (Z.mod_add _ 1) by lia. replace (z mod 2 ^ 32 - 2 ^ 32 + 1 * 2 ^ 32) with (z mod 2 ^ 32) by lia.
  by rewrite Z.mod_mod.
Qed.
Lemma to_int32_add a b : to_int32 (to_int32 a + b) = to_int32 (a + b).
Proof. unfold to_int32 at 1 3. by rewrite <- Z.add_mod_idemp_l, to_int32_mod32, Z.add_mod_idemp_l by lia. Qed.

Definition is_bump (w : word_store) : bool := match w with Bump => true | _ => false end.

Section proof.
Context (eb n offset : Z) (Hn : 0 <= n) (Hoff : 0 <= offset) (seq0 : Z).

(** A store that leaves the sizes of the areas. *)
Definition store_ok (w : word_store) : Prop := match w with Covered v => 0 <= v <= eb | Size v => 0 <= v | _ => True end.

(** Between updates, or about to begin one: the sequence number is even and the record is the last
    version; in the middle of one it is odd, and the change at the end is still to come. *)
Definition phase (s : system) : Prop :=
  (changes s mod 2 = 0 /\ rec s ∈ versions s /\ (todo s = [] \/ exists mid, todo s = Bump :: mid ++ [Bump] /\ forallb (fun w => negb (is_bump w)) mid = true)) \/
  (changes s mod 2 = 1 /\ exists mid, todo s = mid ++ [Bump] /\ forallb (fun w => negb (is_bump w)) mid = true).

(** What the reader has read, if nothing has changed since its first load. *)
Definition reader_ok (s : system) : Prop :=
  let since g b (P : Prop) := b = to_int32 (seq0 + g) /\ 0 <= g <= changes s /\ g mod 2 = 0 /\ (changes s = g -> P) in
  let r := rec s in
  match reader s with
  | RSeq _ | RReturned None => True
  | RState _ g b => since g b True
  | RSize _ g b => since g b (r_state r = STATE_LIVE)
  | RCovered _ g b size => since g b (r_state r = STATE_LIVE /\ size = r_size r)
  | RCopy _ g b want acc => 0 <= want /\ blen acc <= want /\
      since g b (r_state r = STATE_LIVE /\ offset < r_size r /\ want = Z.min n (r_size r - offset) /\ offset + want <= r_covered r /\
        acc = subarray (r_data r) offset (offset + blen acc))
  | RCheck _ g b result => since g b (r_state r = STATE_LIVE /\ read_record r n offset = result)
  | RReturned (Some bytes) => exists v, v ∈ versions s /\ r_state v = STATE_LIVE /\ read_record v n offset = Some bytes
  end.

Record seq_inv (s : system) : Prop := {
  sq_seq : r_seq (rec s) = to_int32 (seq0 + changes s);
  sq_sized : sized eb (rec s);
  sq_todo : Forall store_ok (todo s);
  sq_phase : phase s;
  sq_reader : reader_ok s;
  sq_changes : 0 <= changes s
}.

Lemma copy_no_bump i v : forallb (fun w => negb (is_bump w)) (copy_stores i v) = true /\ Forall store_ok (copy_stores i v).
Proof. revert i. induction v as [|b v IH]; intros i; cbn; [split; [done|constructor]|]. destruct (IH (S i)). split; [done|]. by constructor. Qed.

Lemma program_shape a v t r : 0 <= eb -> (forall x, t = Some x -> 0 <= x) -> 0 <= a -> 0 <= r_size r ->
  Forall store_ok (update_program eb a v t r) /\ exists mid, update_program eb a v t r = Bump :: mid ++ [Bump] /\ forallb (fun w => negb (is_bump w)) mid = true.
Proof.
  intros Heb Ht Ha Hsz. unfold update_program. set (size := update_size _ _ _ _).
  assert (Hsize : 0 <= size).
  { unfold size, update_size. destruct t as [x|]; [by apply Ht|]. pose proof (blen_nonneg v). destruct (_ =? _), (0 <? blen v); lia. }
  set (mid := _ ++ _ ++ _ ++ _). assert (Hmid : forallb (fun w => negb (is_bump w)) mid = true /\ Forall store_ok mid).
  { unfold mid, fill_stores. rewrite !forallb_app, !Forall_app.
    assert (Hc : forall (b : bool) i w, forallb (fun w => negb (is_bump w)) (if b then copy_stores i w else []) = true /\ Forall store_ok (if b then copy_stores i w else [])).
    { intros [] i w; [apply copy_no_bump|split; [done|constructor]]. }
    assert (Hc' : forall (b : bool) i w, forallb (fun w => negb (is_bump w)) (if b then [] else copy_stores i w) = true /\ Forall store_ok (if b then [] else copy_stores i w)).
    { intros [] i w; [split; [done|constructor]|apply copy_no_bump]. }
    split.
    - rewrite (proj1 (Hc' _ _ _)). destruct (_ && _); [rewrite forallb_app, (proj1 (Hc _ _ _)), (proj1 (copy_no_bump _ _))|];
        (destruct t; [rewrite (proj1 (Hc _ _ _))|]); done.
    - split_and!; [apply Hc'| | |].
      + destruct (_ && _); [|constructor]. apply Forall_app. split; [apply Hc|apply copy_no_bump].
      + destruct t; [apply Hc|constructor].
      + repeat constructor; cbn; lia. }
  destruct Hmid as [Hm1 Hm2]. split; [|exists mid; done]. constructor; [done|]. apply Forall_app. split; [done|]. by repeat constructor.
Qed.

Lemma sized_store r w : store_ok w -> sized eb r -> sized eb (apply_store r w).
Proof. intros Hw (H1 & H2 & H3). destruct w; unfold sized, blen in *; cbn in *; rewrite ?length_insert; split_and!; (done || lia). Qed.

Lemma writer_inv s s' : seq_inv s -> writer_step s = Some s' -> seq_inv s'.
Proof.
  intros [Hq Hz Ht Hp Hr Hc]. unfold writer_step. destruct (todo s) as [|w rest] eqn:Et; [done|]. intros [= <-].
  apply Forall_cons_1 in Ht as [Hw Ht].
  assert (Hbump : (w = Bump /\ (changes s mod 2 = 0 \/ rest = [])) \/ (is_bump w = false /\ changes s mod 2 = 1 /\ rest <> [])).
  { destruct Hp as [(H1 & _ & H2)|(H1 & mid & H2 & H3)].
    - left. destruct H2 as [H2|(mid & H2 & _)]; rewrite Et in H2; [done|]. injection H2 as -> _. auto.
    - rewrite Et in H2. destruct mid as [|w' mid]; injection H2 as -> ->; [auto|]. right. cbn in H3. apply andb_true_iff in H3 as [H3 _].
      split_and!; [by destruct w'|done|by destruct mid]. }
  assert (Hch : forall g, 0 <= g <= changes s -> g mod 2 = 0 -> (match w with Bump => changes s + 1 | _ => changes s end) <> g).
  { intros g Hg He. destruct Hbump as [[-> _]|(Hb & H1 & _)]; [lia|]. assert (match w with Bump => changes s + 1 | _ => changes s end = changes s) as -> by (by destruct w).
    intros E. rewrite E in H1. lia. }
  constructor; cbn [rec todo changes versions reader].
  - destruct Hbump as [[-> _]|(Hb & _)]; [|destruct w; done]. cbn. rewrite Hq, to_int32_add. f_equal. lia.
  - by apply sized_store.
  - done.
  - unfold phase in *. cbn [rec todo changes versions]. destruct Hp as [(H1 & H2 & H3)|(H1 & mid & H2 & H3)].
    + right. destruct H3 as [H3|(mid & H3 & Hm)]; rewrite Et in H3; [done|]. injection H3 as -> ->. split; [|by exists mid].
      rewrite <- Z.add_mod_idemp_l, H1 by lia. done.
    + rewrite Et in H2. destruct mid as [|w' mid]; injection H2 as -> ->.
      * left. split_and!; [by rewrite <- Z.add_mod_idemp_l, H1 by lia| |by left]. apply elem_of_app. right. by apply list_elem_of_singleton.
      * right. cbn in H3. apply andb_true_iff in H3 as [Hw' Hm]. split; [by destruct w'|by exists mid].
  - unfold reader_ok in *. cbn [rec reader changes versions].
    assert (Hle : changes s <= match w with Bump => changes s + 1 | _ => changes s end) by (destruct w; lia).
    destruct (reader s) as [a|a g b|a g b|a g b size|a g b want acc|a g b result|[bytes|]]; try done.
    + destruct Hr as (H1 & H2 & H3 & _). split_and!; try done; lia.
    + destruct Hr as (H1 & H2 & H3 & _). split_and!; try done; try lia. intros E. by destruct (Hch g).
    + destruct Hr as (H1 & H2 & H3 & _). split_and!; try done; try lia. intros E. by destruct (Hch g).
    + destruct Hr as (? & ? & H1 & H2 & H3 & _). split_and!; try done; try lia. intros E. by destruct (Hch g).
    + destruct Hr as (H1 & H2 & H3 & _). split_and!; try done; try lia. intros E. by destruct (Hch g).
    + destruct Hr as (v & Hv & ?). exists v. split; [|done]. destruct rest; [|done]. apply elem_of_app. by left.
  - destruct w; lia.
Qed.

Lemma even_seq s : seq_inv s -> seq0 mod 2 = 0 -> r_seq (rec s) mod 2 = changes s mod 2.
Proof.
  intros Hi H0. rewrite (sq_seq _ Hi). pose proof (to_int32_mod (seq0 + changes s) 1 ltac:(lia)) as H. change (2 ^ 1) with 2 in H. rewrite H.
  rewrite <- Z.add_mod_idemp_l, H0 by lia. done.
Qed.

Lemma stable_version s g : seq_inv s -> changes s = g -> g mod 2 = 0 -> rec s ∈ versions s.
Proof. intros Hi <- Hg. destruct (sq_phase _ Hi) as [(_ & H & _)|(H & _)]; [done|]. lia. Qed.

Lemma copy_next (d : list Z) a acc : 0 <= a -> acc = subarray d a (a + blen acc) -> a + blen acc < blen d ->
  acc ++ [default 0 (d !! (Z.to_nat a + List.length acc)%nat)] = subarray d a (a + blen (acc ++ [default 0 (d !! (Z.to_nat a + List.length acc)%nat)])).
Proof.
  intros Ha He Hl. set (x := default 0 _). rewrite blen_app. pose proof (blen_nonneg acc). rewrite (subarray_join d a (a + blen acc)) by (unfold blen; cbn; lia).
  rewrite <- He at 1. f_equal. rewrite subarray_take by (unfold blen; cbn; lia).
  replace (Z.to_nat (a + (blen acc + blen [x]) - (a + blen acc))) with 1%nat by (unfold blen; cbn; lia).
  replace (Z.to_nat (a + blen acc)) with (Z.to_nat a + List.length acc)%nat by (unfold blen; lia).
  destruct (lookup_lt_is_Some_2 d (Z.to_nat a + List.length acc)) as [y Hy]; [unfold blen in *; lia|].
  unfold x. rewrite Hy. cbn. rewrite (drop_S d y) by done. cbn. done.
Qed.

Lemma reader_inv s pc : seq_inv s -> seq0 mod 2 = 0 -> changes s < 2 ^ 32 -> reader_step n offset s = Some pc ->
  seq_inv (System (rec s) (todo s) (changes s) (versions s) pc).
Proof.
  intros Hi H0 Hmax Hs. pose proof (even_seq s Hi H0) as Hev. pose proof Hi as [Hq Hz Ht Hp Hr Hc]. constructor; try done.
  assert (Hretry : forall a, reader_ok (System (rec s) (todo s) (changes s) (versions s) (retry a))).
  { intros a. unfold retry. by destruct (_ <? _)%nat. }
  unfold reader_step in Hs. unfold reader_ok in Hr. destruct (reader s) as [a|a g b|a g b|a g b size|a g b want acc|a g b result|[bytes|]]; try done.
  - destruct (Z.eqb_spec (r_seq (rec s) mod 2) 1) as [E|E]; injection Hs as <-; [apply Hretry|]. unfold reader_ok. cbn.
    split_and!; try done; try lia. rewrite Hev in E. pose proof (Z.mod_pos_bound (changes s) 2 ltac:(lia)). lia.
  - destruct Hr as (H1 & H2 & H3 & H4). destruct (Z.eqb_spec (r_state (rec s)) STATE_LIVE); injection Hs as <-; done.
  - destruct Hr as (H1 & H2 & H3 & H4). injection Hs as <-. unfold reader_ok. cbn. split_and!; try done; lia.
  - destruct Hr as (H1 & H2 & H3 & H4). destruct (Z.leb_spec size offset) as [Hle|Hlt].
    + injection Hs as <-. unfold reader_ok. cbn. split_and!; try done; try lia. intros E. destruct (H4 E) as [Hl ->]. split; [done|].
      unfold read_record. destruct (Z.leb_spec (r_size (rec s)) offset); [done|lia].
    + destruct (Z.ltb_spec (r_covered (rec s)) (offset + Z.min n (size - offset))) as [Hcov|Hcov]; injection Hs as <-; unfold reader_ok; cbn.
      * split_and!; try done; try lia. intros E. destruct (H4 E) as [Hl ->]. split; [done|]. unfold read_record.
        destruct (Z.leb_spec (r_size (rec s)) offset); [lia|]. destruct (Z.ltb_spec (r_covered (rec s)) (offset + Z.min n (r_size (rec s) - offset))); [done|lia].
      * split_and!; try done; try lia; [unfold blen; cbn; lia|]. intros E. destruct (H4 E) as [Hl ->]. split_and!; try done; try lia.
        rewrite subarray_take by (unfold blen; cbn; lia). by replace (Z.to_nat _) with O by (unfold blen; cbn; lia).
  - destruct Hr as (Hw & Ha & H1 & H2 & H3 & H4). destruct (Z.ltb_spec (blen acc) want) as [Hlt|Hge]; injection Hs as <-; unfold reader_ok; cbn.
    + split_and!; try done; try lia; [rewrite blen_app; unfold blen in *; cbn; lia|]. intros E. destruct (H4 E) as (Hl & Ho & Hwant & Hcov & Hacc).
      split_and!; try done. apply copy_next; [done|done|]. destruct Hz as (Hd & Hcv & _). lia.
    + split_and!; try done; try lia. intros E. destruct (H4 E) as (Hl & Ho & Hwant & Hcov & Hacc). split; [done|]. unfold read_record.
      destruct (Z.leb_spec (r_size (rec s)) offset); [lia|]. rewrite <- Hwant. destruct (Z.ltb_spec (r_covered (rec s)) (offset + want)); [lia|].
      f_equal. transitivity (subarray (r_data (rec s)) offset (offset + blen acc)); [f_equal; lia|by symmetry].
  - destruct Hr as (H1 & H2 & H3 & H4). destruct (Z.eqb_spec (r_seq (rec s)) b) as [E|E]; injection Hs as <-; [|apply Hretry].
    assert (Heq : changes s = g). { rewrite Hq, H1 in E. apply to_int32_eq in E; lia. }
    destruct (H4 Heq) as [Hl Hres]. unfold reader_ok. cbn. destruct result as [bytes|]; [|done]. exists (rec s). split; [by eapply stable_version|done].
Qed.

(** Updates and truncations are at offsets that exist. *)
Definition action_ok (a : action) : Prop :=
  match a with StartUpdate at' _ t => 0 <= at' /\ (forall x, t = Some x -> 0 <= x) | _ => True end.

Lemma step_changes a s s' : seq_step eb n offset a s = Some s' -> changes s' <= changes s + 1.
Proof.
  destruct a; cbn; try (destruct (todo s); [|done]; intros [= <-]; cbn; lia).
  - unfold writer_step. destruct (todo s) as [|w rest]; [done|]. intros [= <-]. destruct w; cbn; lia.
  - destruct (reader_step n offset s); [|done]. intros [= <-]. cbn. lia.
Qed.

Lemma seq_step_inv a s s' : seq_inv s -> seq0 mod 2 = 0 -> changes s < 2 ^ 32 -> action_ok a -> seq_step eb n offset a s = Some s' -> seq_inv s'.
Proof.
  intros Hi H0 Hmax Ha Hs. destruct a as [at' bytes t| | |]; cbn in Hs.
  - destruct (todo s) eqn:Et; [|done]. injection Hs as <-. destruct Hi as [Hq Hz Ht Hp Hr Hc]. destruct Ha as [Ha Hx]. destruct Hz as (Hd & Hcv & Hsz).
    pose proof (blen_nonneg (r_data (rec s))). destruct (program_shape at' bytes t (rec s) ltac:(lia) Hx Ha Hsz) as [Hok Hmid].
    constructor; try done. unfold phase in *. cbn. destruct Hp as [(H1 & H2 & _)|(_ & mid & H2 & _)]; [left; split_and!; try done; by right|].
    rewrite Et in H2. by destruct mid.
  - destruct (todo s) eqn:Et; [|done]. injection Hs as <-. destruct Hi as [Hq Hz Ht Hp Hr Hc]. destruct Hz as (Hd & Hcv & Hsz). pose proof (blen_nonneg (r_data (rec s))).
    constructor; try done; [cbn; unfold clear_program; rewrite !list.Forall_cons; cbn; split_and!; try done; lia|]. unfold phase in *. cbn. destruct Hp as [(H1 & H2 & _)|(_ & mid & H2 & _)]; [|rewrite Et in H2; by destruct mid].
    left. split_and!; try done. right. by exists [State STATE_CLEARED; Covered 0; Size 0].
  - by eapply writer_inv.
  - destruct (reader_step n offset s) as [pc|] eqn:E; [|done]. injection Hs as <-. by apply reader_inv.
Qed.

Lemma seq_run_inv acts : forall s s', seq_inv s -> seq0 mod 2 = 0 -> changes s + Z.of_nat (List.length acts) < 2 ^ 32 -> Forall action_ok acts ->
  seq_run eb n offset acts s = Some s' -> seq_inv s'.
Proof.
  induction acts as [|a acts IH]; intros s s' Hi H0 Hmax Ha; cbn; [by intros [= <-]|]. apply Forall_cons_1 in Ha as [Ha Has]. cbn [List.length] in Hmax.
  destruct (seq_step eb n offset a s) as [s1|] eqn:E; [|done]. pose proof (step_changes a s s1 E).
  apply IH; try done; [|lia]. apply (seq_step_inv a s); try done. lia.
Qed.
End proof.

(** C22. The mirror's seqlock lets no torn read through: in every interleaving of one writer, which
    updates and clears the record word by word, and one reader, of fewer than 2^32 steps (so that the
    32-bit sequence number does not come round), bytes that the reader returns are what a read gives
    of one live version of the record as the writer had completed it. *)
Theorem seqlock_no_torn_read eb n offset r acts s bytes :
  0 <= n -> 0 <= offset -> sized eb r -> r_seq r mod 2 = 0 -> to_int32 (r_seq r) = r_seq r ->
  Forall action_ok acts -> Z.of_nat (List.length acts) < 2 ^ 32 ->
  seq_run eb n offset acts (start r) = Some s -> reader s = RReturned (Some bytes) ->
  exists v, v ∈ versions s /\ r_state v = STATE_LIVE /\ read_record v n offset = Some bytes.
Proof.
  intros Hn Hoff Hz He Hq Ha Hlen Hrun Hres.
  assert (Hi : seq_inv eb n offset (r_seq r) s).
  { apply (seq_run_inv eb n offset Hn Hoff (r_seq r) acts (start r)); try done. constructor; cbn; try done; [by rewrite Z.add_0_r, Hq|].
    left. cbn. split_and!; [done| |by left]. by apply list_elem_of_singleton. }
  pose proof (sq_reader _ _ _ _ _ Hi) as Hr. unfold reader_ok in Hr. by rewrite Hres in Hr.
Qed.

(** A live record of "abc"; the writer replaces its bytes while a reader copies them, then the reader
    tries again. *)
Definition abc : record := Record_ STATE_LIVE 2 0 0 3 3 [] [97; 98; 99; 0; 0; 0; 0; 0].
Definition torn_attempt : list action :=
  repeat ReaderStep 6 ++ [StartUpdate 0 [120; 121; 122] None] ++ repeat WriterStep 8 ++ repeat ReaderStep 12.

Lemma seqlock_no_torn_read_witness :
  exists s, seq_run 8 3 0 torn_attempt (start abc) = Some s /\ reader s = RReturned (Some [120; 121; 122]) /\
    exists v, v ∈ versions s /\ r_state v = STATE_LIVE /\ read_record v 3 0 = Some [120; 121; 122].
Proof.
  destruct (seq_run 8 3 0 torn_attempt (start abc)) as [s|] eqn:E; [|vm_compute in E; discriminate E].
  exists s. split; [reflexivity|]. assert (Hr : reader s = RReturned (Some [120; 121; 122])) by (vm_compute in E; injection E as <-; reflexivity).
  split; [exact Hr|]. apply (seqlock_no_torn_read 8 3 0 abc torn_attempt s); try exact Hr; try exact E; try lia; try reflexivity.
  - split_and!; vm_compute; congruence.
  - repeat (constructor; [cbn; try split; first [exact I|lia|done]|]). constructor.
Defined.
