(* ===== verification/IoRing.v ===== *)
(** The SharedArrayBuffer I/O ring (src/host/sabIoChannel.js): many guest threads, blocking or
    asynchronous, send requests to one I/O worker through slots of a shared buffer.

    A client claims a free slot, writes its request, marks the slot pending and waits until it is
    done; the worker takes pending slots, and a supervisor completes the slots of a worker that
    died. Each party is an [agent] with a program counter and a step is one access to the shared
    words, so a run is any interleaving. The fields of a request and the data area are plain
    memory of the slot; they are written in one step, and the theorems of IoRingSafety.v say
    that nobody else looks at them meanwhile. *)
From Stdlib Require Import ZArith QArith Lia.
From stdpp Require Import base list strings numbers.
From S2P Require Import Prelude JsMap IoContract IoChannel.
Open Scope Z_scope.

(** ** Slots *)

(** The request fields as 32-bit words and one double. *)
Record wire := Wire {
  w_op : Z; w_instance : Z; w_handle : Z; w_flags : Z; w_ptr : Z; w_len : Z; w_mode : Z; w_path_len : Z; w_offset : jsnum
}.

(** A slot. [ticket] is not a word of it: it numbers the request the fields belong to. *)
Record slot := RSlot {
  state : Z; owner : Z; seq : Z; done_seq : Z; notify : Z; req : wire; status : Z; f64_result : jsnum; data : list Z; ticket : nat
}.

(** The fields of a request, [None] for an absent one; [payload] is what the caller puts into the
    data area. *)
Record fields := Fields {
  instanceId : option Z; handle : option Z; flags : option Z; ptr : option Z; len : option Z; dataInSlot : bool;
  offset : option jsnum; path : option (list Z); payload : list Z
}.

Definition or_default {A} (o : option A) (d : A) : A := match o with Some a => a | None => d end.

Definition to_wire (op : Z) (f : fields) : wire :=
  Wire (to_int32 op) (to_int32 (or_default (instanceId f) SAB_IO_SCRATCH_INSTANCE)) (to_int32 (or_default (handle f) (-1)))
    (to_int32 (or_default (flags f) 0)) (to_int32 (or_default (ptr f) 0)) (to_int32 (or_default (len f) 0))
    (if dataInSlot f then SAB_IO_DATA_SLOT else SAB_IO_DATA_MEMORY)
    (match path f with Some p => blen p | None => 0 end) (or_default (offset f) (Fin 0)).

(** [data.set(bytes, 0)] *)
Definition set_front (d bytes : list Z) : list Z := bytes ++ subarray_from d (blen bytes).

Definition request_data (f : fields) (d : list Z) : list Z :=
  set_front (match path f with Some p => set_front d p | None => d end) (payload f).

Definition writeRequest (t : nat) (op : Z) (f : fields) (s : slot) : slot :=
  RSlot (state s) (owner s) (seq s) (done_seq s) (notify s) (to_wire op f) 0 (Fin 0) (request_data f (data s)) t.

Definition set_state (v : Z) (s : slot) : slot := RSlot v (owner s) (seq s) (done_seq s) (notify s) (req s) (status s) (f64_result s) (data s) (ticket s).
Definition set_owner (v : Z) (s : slot) : slot := RSlot (state s) v (seq s) (done_seq s) (notify s) (req s) (status s) (f64_result s) (data s) (ticket s).
Definition set_seq (v : Z) (s : slot) : slot := RSlot (state s) (owner s) v (done_seq s) (notify s) (req s) (status s) (f64_result s) (data s) (ticket s).
Definition set_done_seq (s : slot) : slot := RSlot (state s) (owner s) (seq s) (seq s) (notify s) (req s) (status s) (f64_result s) (data s) (ticket s).
Definition set_notify (v : Z) (s : slot) : slot := RSlot (state s) (owner s) (seq s) (done_seq s) v (req s) (status s) (f64_result s) (data s) (ticket s).
Definition set_status (v : Z) (s : slot) : slot := RSlot (state s) (owner s) (seq s) (done_seq s) (notify s) (req s) (to_int32 v) (f64_result s) (data s) (ticket s).
Definition set_result (v : jsnum) (s : slot) : slot := RSlot (state s) (owner s) (seq s) (done_seq s) (notify s) (req s) (status s) v (data s) (ticket s).
Definition fill_data (d : list Z) (s : slot) : slot := RSlot (state s) (owner s) (seq s) (done_seq s) (notify s) (req s) (status s) (f64_result s) d (ticket s).

Definition no_wire : wire := Wire 0 0 0 0 0 0 0 0 (Fin 0).
Definition blank (n : Z) : slot := RSlot SAB_IO_SLOT_FREE 0 0 0 0 no_wire 0 (Fin 0) (repeat 0 (Z.to_nat n)) 0.

(** ** Agents *)

(** A request of a client, numbered in the order of the calls. *)
Record request := Request { rid : nat; r_op : Z; r_fields : fields }.

(** What a request is answered with: status, number, and the data area after it. *)
Abbreviation reply := (Z * jsnum * list Z)%type.

(** Where a client is: each constructor names the access it makes next. *)
Inductive client_pc :=
| CReady
| CReleases (r : request)
| CHint (r : request) (rel : Z)
| CTry (r : request) (rel : Z) (start k : nat)
| CWait (r : request) (rel : Z)
| COwner (r : request) (i : nat)
| CSeq (r : request) (i : nat)
| CWrite (r : request) (i : nat) (q : Z)
| CNotify (r : request) (i : nat) (q : Z)
| CStoreSeq (r : request) (i : nat) (q : Z)
| CPending (r : request) (i : nat) (q : Z)
| CRing (r : request) (i : nat) (q : Z)
| CPoll (r : request) (i : nat) (q : Z)
| CPollSeq (r : request) (i : nat) (q : Z)
| CSleep (r : request) (i : nat) (q : Z)
| CStatus (r : request) (i : nat)
| CResult (r : request) (i : nat) (st : Z)
| CData (r : request) (i : nat) (st : Z) (x : jsnum)
| CClearOwner (r : request) (i : nat) (out : reply)
| CFree (r : request) (i : nat) (out : reply)
| CReleased (r : request) (out : reply).

(** A request the worker has taken, up to the last store of [completeSabIoSlot]. *)
Inductive job_pc := JRead | JServe (w : wire) (d : list Z) | JResult (a : reply) | JStatus (a : reply) | JDoneSeq (a : reply) | JDone (a : reply) | JEnd.

(** [failPendingSabIoRequests]: the slot it looks at, and the stores that complete it. *)
Inductive fail_pc := FLoad | FResult (a : reply) | FStatus (a : reply) | FDoneSeq (a : reply) | FDone (a : reply) | FEnd.

(** [reclaimSabIoSlots]. *)
Inductive reclaim_pc := RLoad | RCas (st : Z) | ROwner | RBump | REnd.

Inductive agent :=
| Client (token : Z) (counter : option Z) (c : client_pc)
| Job (i : nat) (p : job_pc)
| Supervisor (i : nat) (p : fail_pc)
| Reclaimer (instance freed : Z) (i : nat) (p : reclaim_pc).

Record header := Header { doorbell : Z; server_state : Z; epoch : Z; claim_hint : Z; slot_releases : Z; served : Z }.

(** The channel: the shared words, whether the worker lives, the agents, and three logs: the
    requests made, the requests the worker read, the replies, and the results of the calls. *)
Record ring := Ring {
  hdr : header; slots : list slot; alive : bool; agents : list agent; issued : list request;
  seen : list (nat * wire * list Z); replies : list (nat * reply); results : list (nat * reply)
}.

(** ** Steps *)

Definition slot_at (l : list slot) (i : nat) : slot := default (blank 0) (l !! i).

(** What the environment answers in a step: the operation and fields of a new request, what the
    worker computes for a request, and whether a poll still spins (for an asynchronous client:
    whether it has [Atomics.waitAsync]). *)
Record answer := Answer { a_op : Z; a_fields : fields; a_reply : reply; a_spin : bool }.

(** The effect of a step: the header, one changed slot, the agent, the logs. *)
Record effect := Effect {
  e_hdr : header; e_slot : option (nat * (slot -> slot)); e_agent : agent;
  e_issued : list request; e_seen : list (nat * wire * list Z); e_replies : list (nat * reply); e_results : list (nat * reply)
}.

Definition add_release (n : Z) (h : header) : header :=
  Header (doorbell h) (server_state h) (epoch h) (claim_hint h) (to_int32 (slot_releases h + n)) (served h).
Definition add_hint (h : header) : header :=
  Header (doorbell h) (server_state h) (epoch h) (to_int32 (claim_hint h + 1)) (slot_releases h) (served h).
Definition add_doorbell (h : header) : header :=
  Header (to_int32 (doorbell h + 1)) (server_state h) (epoch h) (claim_hint h) (slot_releases h) (served h).
Definition add_served (h : header) : header :=
  Header (doorbell h) (server_state h) (epoch h) (claim_hint h) (slot_releases h) (to_int32 (served h + 1)).
Definition set_server_state (v : Z) (h : header) : header :=
  Header (doorbell h) v (epoch h) (claim_hint h) (slot_releases h) (served h).

(** The number of the next request: [(x + 1) | 0 || 1]. *)
Definition next_seq (x : Z) : Z := let q := to_int32 (x + 1) in if q =? 0 then 1 else q.

Section client.
Context (h : header) (l : list slot) (token : Z) (counter : option Z).

Definition go (c : client_pc) : effect := Effect h None (Client token counter c) [] [] [] [].
Definition store (i : nat) (f : slot -> slot) (c : client_pc) : effect := Effect h (Some (i, f)) (Client token counter c) [] [] [] [].

(** [claim] with [tryClaimSlot] *)
Definition claim_step (c : client_pc) : option effect :=
  match c with
  | CReleases r => Some (go (CHint r (slot_releases h)))
  | CHint r rel =>
      Some (Effect (add_hint h) None (Client token counter (CTry r rel (Z.to_nat (to_uint32 (claim_hint h) mod blen l)) 0)) [] [] [] [])
  | CTry r rel start k =>
      if (k <? List.length l)%nat then
        let i := ((start + k) mod List.length l)%nat in
        if state (slot_at l i) =? SAB_IO_SLOT_FREE then Some (store i (set_state SAB_IO_SLOT_IDLE) (COwner r i))
        else Some (go (CTry r rel start (S k)))
      else Some (go (CWait r rel))
  | CWait r rel => Some (go (CReleases r))
  | COwner r i => Some (store i (set_owner token) (CSeq r i))
  | _ => None
  end.

(** [roundTrip]; an asynchronous client counts its own requests. *)
Definition round_trip_step (a : answer) (c : client_pc) : option effect :=
  match c with
  | CSeq r i =>
      match counter with
      | None => Some (go (CWrite r i (next_seq (seq (slot_at l i)))))
      | Some n => Some (Effect h None (Client token (Some (next_seq n)) (CWrite r i (next_seq n))) [] [] [] [])
      end
  | CWrite r i q => Some (store i (writeRequest (rid r) (r_op r) (r_fields r)) (CNotify r i q))
  | CNotify r i q =>
      let message := match counter with Some _ => negb (a_spin a) | None => false end in
      Some (store i (set_notify (if message then SAB_IO_NOTIFY_MESSAGE else SAB_IO_NOTIFY_ATOMICS)) (CStoreSeq r i q))
  | CStoreSeq r i q => Some (store i (set_seq q) (CPending r i q))
  | CPending r i q => Some (store i (set_state SAB_IO_SLOT_PENDING) (CRing r i q))
  | CRing r i q => Some (Effect (add_doorbell h) None (Client token counter (CPoll r i q)) [] [] [] [])
  | CPoll r i q =>
      if state (slot_at l i) =? SAB_IO_SLOT_DONE then Some (go (CPollSeq r i q))
      else if a_spin a then Some (go (CPoll r i q)) else Some (go (CSleep r i q))
  | CPollSeq r i q =>
      if done_seq (slot_at l i) =? q then Some (go (CStatus r i))
      else if a_spin a then Some (go (CPoll r i q)) else Some (go (CSleep r i q))
  | CSleep r i q => Some (go (CPoll r i q))
  | CStatus r i => Some (go (CResult r i (status (slot_at l i))))
  | CResult r i st => Some (go (CData r i st (f64_result (slot_at l i))))
  | CData r i st x => Some (go (CClearOwner r i (st, x, data (slot_at l i))))
  | _ => None
  end.

(** [request] and [releaseSlot] *)
Definition client_step (issued : nat) (a : answer) (c : client_pc) : option effect :=
  match c with
  | CReady =>
      let r := Request issued (a_op a) (a_fields a) in
      Some (Effect h None (Client token counter (CReleases r)) [r] [] [] [])
  | CReleases _ | CHint _ _ | CTry _ _ _ _ | CWait _ _ | COwner _ _ => claim_step c
  | CClearOwner r i out => Some (store i (set_owner 0) (CFree r i out))
  | CFree r i out => Some (store i (set_state SAB_IO_SLOT_FREE) (CReleased r out))
  | CReleased r out => Some (Effect (add_release 1 h) None (Client token counter CReady) [] [] [] [(rid r, out)])
  | _ => round_trip_step a c
  end.
End client.

(** [makeJob], the work on a request, and [complete] with [completeSabIoSlot]. *)
Definition job_step (h : header) (l : list slot) (i : nat) (a : answer) (p : job_pc) : option effect :=
  let go p := Some (Effect h None (Job i p) [] [] [] []) in
  let store f p := Some (Effect h (Some (i, f)) (Job i p) [] [] [] []) in
  match p with
  | JRead => let s := slot_at l i in
             Some (Effect h None (Job i (JServe (req s) (data s))) [] [(ticket s, req s, data s)] [] [])
  | JServe w d =>
      Some (Effect (add_served h) (Some (i, fill_data (a_reply a).2)) (Job i (JResult (a_reply a))) [] []
              [(ticket (slot_at l i), (to_int32 (a_reply a).1.1, (a_reply a).1.2, (a_reply a).2))] [])
  | JResult x => store (set_result x.1.2) (JStatus x)
  | JStatus x => store (set_status x.1.1) (JDoneSeq x)
  | JDoneSeq x => store set_done_seq (JDone x)
  | JDone x => store (set_state SAB_IO_SLOT_DONE) JEnd
  | JEnd => None
  end.

(** [failPendingSabIoRequests], with the status it gives. *)
Definition fail_step (fail_status : Z) (h : header) (l : list slot) (i : nat) (p : fail_pc) : option effect :=
  let go i p := Some (Effect h None (Supervisor i p) [] [] [] []) in
  let store f p := Some (Effect h (Some (i, f)) (Supervisor i p) [] [] [] []) in
  match p with
  | FLoad =>
      if (i <? List.length l)%nat then
        let s := slot_at l i in
        if (state s =? SAB_IO_SLOT_PENDING) || (state s =? SAB_IO_SLOT_SERVICING) then
          Some (Effect h None (Supervisor i (FResult (fail_status, Fin 0, data s))) [] []
                  [(ticket s, (to_int32 fail_status, Fin 0, data s))] [])
        else go (S i) FLoad
      else go i FEnd
  | FResult x => store (set_result x.1.2) (FStatus x)
  | FStatus x => store (set_status x.1.1) (FDoneSeq x)
  | FDoneSeq x => store set_done_seq (FDone x)
  | FDone x => Some (Effect h (Some (i, set_state SAB_IO_SLOT_DONE)) (Supervisor (S i) FLoad) [] [] [] [])
  | FEnd => None
  end.

(** [reclaimSabIoSlots] *)
Definition reclaim_step (h : header) (l : list slot) (instance freed : Z) (i : nat) (p : reclaim_pc) : option effect :=
  let go freed i p := Some (Effect h None (Reclaimer instance freed i p) [] [] [] []) in
  let s := slot_at l i in
  match p with
  | RLoad =>
      if (i <? List.length l)%nat then
        if w_instance (req s) =? instance then go freed i (RCas SAB_IO_SLOT_DONE) else go freed (S i) RLoad
      else if 0 <? freed then go freed i RBump else go freed i REnd
  | RCas st =>
      if state s =? st then Some (Effect h (Some (i, set_state SAB_IO_SLOT_FREE)) (Reclaimer instance freed i ROwner) [] [] [] [])
      else if st =? SAB_IO_SLOT_DONE then go freed i (RCas SAB_IO_SLOT_IDLE) else go freed (S i) RLoad
  | ROwner => Some (Effect h (Some (i, set_owner 0)) (Reclaimer instance (freed + 1) (S i) RLoad) [] [] [] [])
  | RBump => Some (Effect (add_release freed h) None (Reclaimer instance freed i REnd) [] [] [] [])
  | REnd => None
  end.

Definition agent_step (fail_status : Z) (g : ring) (a : agent) (o : answer) : option effect :=
  match a with
  | Client token counter c => client_step (hdr g) (slots g) token counter (List.length (issued g)) o c
  | Job i p => job_step (hdr g) (slots g) i o p
  | Supervisor i p => fail_step fail_status (hdr g) (slots g) i p
  | Reclaimer instance freed i p => reclaim_step (hdr g) (slots g) instance freed i p
  end.

Definition apply_effect (g : ring) (j : nat) (e : effect) : ring :=
  Ring (e_hdr e) (match e_slot e with Some (i, f) => alter f i (slots g) | None => slots g end) (alive g)
    (<[j := e_agent e]> (agents g)) (issued g ++ e_issued e) (seen g ++ e_seen e)
    (replies g ++ e_replies e) (results g ++ e_results e).

(** The worker's jobs end with it. *)
Definition drop_job (a : agent) : agent := match a with Job i _ => Job i JEnd | _ => a end.
Definition failing (a : agent) : bool := match a with Supervisor _ FEnd => false | Supervisor _ _ => true | _ => false end.

(** A step of the channel: an agent moves, a thread gets a client, the worker takes slot [i]
    ([scanSlots]), the worker dies, the supervisor of a dead worker begins to fail its requests,
    a worker starts, or the supervisor reclaims the slots of an instance. *)
Inductive choice :=
| Move (j : nat) (o : answer)
| NewClient (token : Z) (counter : option Z)
| Scan (i : nat)
| WorkerDies
| FailPending
| StartWorker
| Reclaim (instance : Z).

Definition set_hdr (g : ring) (h : header) (al : bool) (ags : list agent) : ring :=
  Ring h (slots g) al ags (issued g) (seen g) (replies g) (results g).

Definition step (fail_status : Z) (ch : choice) (g : ring) : option ring :=
  match ch with
  | Move j o =>
      match agents g !! j with
      | Some a => match agent_step fail_status g a o with Some e => Some (apply_effect g j e) | None => None end
      | None => None
      end
  | NewClient token counter => Some (set_hdr g (hdr g) (alive g) (agents g ++ [Client token counter CReady]))
  | Scan i =>
      if alive g && (state (slot_at (slots g) i) =? SAB_IO_SLOT_PENDING) then
        Some (Ring (hdr g) (alter (set_state SAB_IO_SLOT_SERVICING) i (slots g)) (alive g) (agents g ++ [Job i JRead])
                (issued g) (seen g) (replies g) (results g))
      else None
  | WorkerDies => if alive g then Some (set_hdr g (hdr g) false (map drop_job (agents g))) else None
  | FailPending =>
      if alive g || existsb failing (agents g) then None
      else Some (set_hdr g (set_server_state SAB_IO_SERVER_DEAD (hdr g)) false (agents g ++ [Supervisor 0 FLoad]))
  | StartWorker =>
      if alive g || existsb failing (agents g) then None
      else Some (set_hdr g (Header (doorbell (hdr g)) SAB_IO_SERVER_RUNNING (to_int32 (epoch (hdr g) + 1)) (claim_hint (hdr g))
                              (slot_releases (hdr g)) (served (hdr g))) true (agents g))
  | Reclaim instance => Some (set_hdr g (hdr g) (alive g) (agents g ++ [Reclaimer instance 0 0 RLoad]))
  end.

Fixpoint run (fail_status : Z) (cs : list choice) (g : ring) : option ring :=
  match cs with
  | [] => Some g
  | ch :: cs => match step fail_status ch g with Some g => run fail_status cs g | None => None end
  end.

Definition fresh_ring (n : nat) (dataBytes : Z) : ring :=
  Ring (Header 0 SAB_IO_SERVER_NOT_STARTED 0 0 0 0) (repeat (blank dataBytes) n) false [] [] [] [] [].

Definition is_reclaim (ch : choice) : bool := match ch with Reclaim _ => true | _ => false end.
