(* ===== verification/IoRingSafety.v ===== *)
(** The I/O ring keeps requests apart (model in IoRing.v): in every run in which no slots are
    reclaimed, a slot has one client and one server at a time, so a request is read as it was
    written, is executed at most once, and its caller gets the reply to it. *)
From Stdlib Require Import ZArith QArith Lia.
From stdpp Require Import base list strings numbers.
From S2P Require Import Prelude JsMap IoContract IoChannel IoRing.
Open Scope Z_scope.

(** ** Roles *)

(** The slot a client has between its claim and its release. *)
Definition owns (a : agent) : option nat :=
  match a with
  | Client _ _ c =>
      match c with
      | COwner _ i | CSeq _ i | CWrite _ i _ | CNotify _ i _ | CStoreSeq _ i _ | CPending _ i _ | CRing _ i _ | CPoll _ i _
      | CPollSeq _ i _ | CSleep _ i _ | CStatus _ i | CResult _ i _ | CData _ i _ _ | CClearOwner _ i _ | CFree _ i _ => Some i
      | _ => None
      end
  | _ => None
  end.

(** The slot that an agent serves. *)
Definition serves (a : agent) : option nat :=
  match a with
  | Job i JEnd => None
  | Job i _ => Some i
  | Supervisor i (FResult _ | FStatus _ | FDoneSeq _ | FDone _) => Some i
  | _ => None
  end.

(** The request of a client's call. *)
Definition call (a : agent) : option request :=
  match a with
  | Client _ _ c =>
      match c with
      | CReady => None
      | CReleases r | CHint r _ | CTry r _ _ _ | CWait r _ | COwner r _ | CSeq r _ | CWrite r _ _ | CNotify r _ _ | CStoreSeq r _ _
      | CPending r _ _ | CRing r _ _ | CPoll r _ _ | CPollSeq r _ _ | CSleep r _ _ | CStatus r _ | CResult r _ _ | CData r _ _ _
      | CClearOwner r _ _ | CFree r _ _ | CReleased r _ => Some r
      end
  | _ => None
  end.
Definition calling (a : agent) : option nat := rid <$> call a.

(** A request that is not read yet: with its client, in a pending slot, or with a job that is
    about to read it. *)
Definition unread (l : list slot) (a : agent) : option nat :=
  match a with
  | Client _ _ c =>
      match c with
      | CReleases r | CHint r _ | CTry r _ _ _ | CWait r _ | COwner r _ | CSeq r _ | CWrite r _ _ | CNotify r _ _ | CStoreSeq r _ _
      | CPending r _ _ => Some (rid r)
      | _ => None
      end
  | Job i JRead => Some (ticket (slot_at l i))
  | _ => None
  end.
Definition pending_ticket (l : list slot) (i : nat) : option nat :=
  if state (slot_at l i) =? SAB_IO_SLOT_PENDING then Some (ticket (slot_at l i)) else None.

(** The fields and the data of a slot are those of request [r]. *)
Definition written (r : request) (s : slot) : Prop :=
  ticket s = rid r /\ req s = to_wire (r_op r) (r_fields r) /\ exists d, data s = request_data (r_fields r) d.

Definition waiting_state (s : slot) : Prop :=
  state s = SAB_IO_SLOT_PENDING \/ state s = SAB_IO_SLOT_SERVICING \/ state s = SAB_IO_SLOT_DONE.

Definition in_wire (x : reply) : reply := (to_int32 x.1.1, x.1.2, x.2).

(** How far the completion of a slot has come. *)
Definition stage (n : nat) (reps : list (nat * reply)) (s : slot) (x : reply) : Prop :=
  (ticket s, in_wire x) ∈ reps /\ data s = x.2 /\
  ((1 <= n)%nat -> f64_result s = x.1.2) /\ ((2 <= n)%nat -> status s = to_int32 x.1.1) /\ ((3 <= n)%nat -> done_seq s = seq s).

Definition agent_ok (g : ring) (a : agent) : Prop :=
  let s i := slot_at (slots g) i in
  match a with
  | Client _ _ c =>
      match call a with Some r => r ∈ issued g | None => True end /\
      match c with
      | COwner r i | CSeq r i | CWrite r i _ => state (s i) = SAB_IO_SLOT_IDLE
      | CNotify r i _ | CStoreSeq r i _ => state (s i) = SAB_IO_SLOT_IDLE /\ written r (s i)
      | CPending r i q => state (s i) = SAB_IO_SLOT_IDLE /\ written r (s i) /\ seq (s i) = q
      | CRing r i q | CPoll r i q | CSleep r i q => waiting_state (s i) /\ ticket (s i) = rid r /\ seq (s i) = q
      | CPollSeq r i q => state (s i) = SAB_IO_SLOT_DONE /\ ticket (s i) = rid r /\ seq (s i) = q
      | CStatus r i => state (s i) = SAB_IO_SLOT_DONE /\ ticket (s i) = rid r
      | CResult r i st => state (s i) = SAB_IO_SLOT_DONE /\ ticket (s i) = rid r /\ st = status (s i)
      | CData r i st x => state (s i) = SAB_IO_SLOT_DONE /\ ticket (s i) = rid r /\ st = status (s i) /\ x = f64_result (s i)
      | CClearOwner r i out | CFree r i out => state (s i) = SAB_IO_SLOT_DONE /\ (rid r, out) ∈ replies g
      | CReleased r out => (rid r, out) ∈ replies g
      | _ => True
      end
  | Job i p =>
      (p <> JEnd -> alive g = true /\ state (s i) = SAB_IO_SLOT_SERVICING) /\
      match p with
      | JRead => exists r, r ∈ issued g /\ written r (s i)
      | JServe _ _ => ticket (s i) ∈ (seen g).*1.*1
      | JResult x => stage 0 (replies g) (s i) x
      | JStatus x => stage 1 (replies g) (s i) x
      | JDoneSeq x => stage 2 (replies g) (s i) x
      | JDone x => stage 3 (replies g) (s i) x
      | JEnd => True
      end
  | Supervisor i p =>
      (p <> FEnd -> alive g = false) /\
      (serves a = Some i -> state (s i) = SAB_IO_SLOT_PENDING \/ state (s i) = SAB_IO_SLOT_SERVICING) /\
      match p with
      | FResult x => stage 0 (replies g) (s i) x
      | FStatus x => stage 1 (replies g) (s i) x
      | FDoneSeq x => stage 2 (replies g) (s i) x
      | FDone x => stage 3 (replies g) (s i) x
      | _ => True
      end
  | Reclaimer _ _ _ _ => False
  end.

Definition slot_ok (g : ring) (s : slot) : Prop :=
  (state s = SAB_IO_SLOT_PENDING -> exists r, r ∈ issued g /\ written r s) /\
  (state s = SAB_IO_SLOT_DONE -> done_seq s = seq s /\ (ticket s, (status s, f64_result s, data s)) ∈ replies g).

Definition reader (g : ring) (x : nat + nat) : option nat :=
  match x with inl j => agents g !! j ≫= unread (slots g) | inr i => pending_ticket (slots g) i end.

Definition failed (fail_status : Z) (out : reply) : Prop := out.1.1 = to_int32 fail_status /\ out.1.2 = Fin 0.

Record inv (fs : Z) (g : ring) : Prop := {
  inv_owner : unique (fun j => agents g !! j ≫= owns);
  inv_server : unique (fun j => agents g !! j ≫= serves);
  inv_failing : forall j k a b, agents g !! j = Some a -> agents g !! k = Some b -> failing a = true -> failing b = true -> j = k;
  inv_free : forall i j a, state (slot_at (slots g) i) = SAB_IO_SLOT_FREE -> agents g !! j = Some a -> owns a <> Some i;
  inv_agents : forall j a, agents g !! j = Some a -> agent_ok g a;
  inv_slots : forall i, slot_ok g (slot_at (slots g) i);
  inv_reader : unique (reader g);
  inv_unread : forall x t, reader g x = Some t -> t ∉ (seen g).*1.*1;
  inv_call : unique (fun j => agents g !! j ≫= calling);
  inv_calling : forall j a t, agents g !! j = Some a -> calling a = Some t -> t ∉ (results g).*1;
  inv_issued : forall k r, issued g !! k = Some r -> rid r = k;
  inv_seen : NoDup (seen g).*1.*1 /\ forall t w d, (t, w, d) ∈ seen g ->
    exists r, r ∈ issued g /\ rid r = t /\ w = to_wire (r_op r) (r_fields r) /\ exists d0, d = request_data (r_fields r) d0;
  inv_replies : forall t out, (t, out) ∈ replies g -> t ∈ (seen g).*1.*1 \/ failed fs out;
  inv_results : NoDup (results g).*1 /\ results g ⊆ replies g /\ forall t out, (t, out) ∈ results g -> exists r, r ∈ issued g /\ rid r = t
}.

(** ** One step *)

Definition upd (o : option (nat * (slot -> slot))) (l : list slot) : list slot :=
  match o with Some (i, f) => alter f i l | None => l end.

Lemma ring_slot_at_same f i l : (i < List.length l)%nat -> slot_at (alter f i l) i = f (slot_at l i).
Proof. intros Hi. unfold slot_at. rewrite list_lookup_alter_eq. destruct (lookup_lt_is_Some_2 _ _ Hi) as [s ->]. done. Qed.
Lemma ring_slot_at_other f i k l : i <> k -> slot_at (alter f i l) k = slot_at l k.
Proof. intros Hne. unfold slot_at. by rewrite list_lookup_alter_ne. Qed.
Lemma ring_in_range l i : state (slot_at l i) <> SAB_IO_SLOT_FREE -> (i < List.length l)%nat.
Proof. unfold slot_at. intros Hs. destruct (l !! i) eqn:E; [by eapply lookup_lt_Some|]. by destruct Hs. Qed.

(** The channel after a step of an agent. *)
Definition after (g : ring) (e : effect) : ring :=
  Ring (e_hdr e) (upd (e_slot e) (slots g)) (alive g) (agents g) (issued g ++ e_issued e) (seen g ++ e_seen e)
    (replies g ++ e_replies e) (results g ++ e_results e).

Record moves (fs : Z) (g : ring) (a : agent) (e : effect) : Prop := {
  mv_write : forall i f, e_slot e = Some (i, f) ->
    let s := slot_at (slots g) i in
    (i < List.length (slots g))%nat /\
    ((owns a = Some i /\ (state s = SAB_IO_SLOT_IDLE \/ state s = SAB_IO_SLOT_DONE)) \/
     (serves a = Some i /\ (state s = SAB_IO_SLOT_PENDING \/ state s = SAB_IO_SLOT_SERVICING) /\ ticket (f s) = ticket s /\ seq (f s) = seq s /\
      (state (f s) = state s \/ state (f s) = SAB_IO_SLOT_DONE)) \/
     (state s = SAB_IO_SLOT_FREE /\ owns a = None));
  mv_own : forall i, owns (e_agent e) = Some i -> owns a = Some i \/ state (slot_at (slots g) i) = SAB_IO_SLOT_FREE;
  mv_free : forall i, state (slot_at (upd (e_slot e) (slots g)) i) = SAB_IO_SLOT_FREE ->
    owns (e_agent e) <> Some i /\ (state (slot_at (slots g) i) = SAB_IO_SLOT_FREE \/ owns a = Some i);
  mv_serves : forall i, serves (e_agent e) = Some i -> serves a = Some i \/ failing a = true;
  mv_failing : failing (e_agent e) = true -> failing a = true;
  mv_ok : agent_ok (after g e) (e_agent e);
  mv_slot : forall i f, e_slot e = Some (i, f) -> slot_ok (after g e) (f (slot_at (slots g) i));
  mv_unread : forall t, unread (upd (e_slot e) (slots g)) (e_agent e) = Some t ->
    unread (slots g) a = Some t \/ (t = List.length (issued g) /\ e_seen e = []);
  mv_pending : forall i t, pending_ticket (upd (e_slot e) (slots g)) i = Some t ->
    pending_ticket (slots g) i = Some t \/
    (unread (slots g) a = Some t /\ unread (upd (e_slot e) (slots g)) (e_agent e) = None /\ owns a = Some i /\ e_seen e = []);
  mv_seen : e_seen e = [] \/ exists t w d, e_seen e = [(t, w, d)] /\ unread (slots g) a = Some t /\
    unread (upd (e_slot e) (slots g)) (e_agent e) = None /\
    exists r, r ∈ issued g /\ rid r = t /\ w = to_wire (r_op r) (r_fields r) /\ exists d0, d = request_data (r_fields r) d0;
  mv_call : forall t, calling (e_agent e) = Some t -> calling a = Some t \/ (t = List.length (issued g) /\ e_results e = []);
  mv_issued : e_issued e = [] \/ exists r, e_issued e = [r] /\ rid r = List.length (issued g);
  mv_replies : forall t out, (t, out) ∈ e_replies e -> t ∈ (seen g).*1.*1 \/ failed fs out;
  mv_results : e_results e = [] \/ exists t out, e_results e = [(t, out)] /\ calling a = Some t /\ calling (e_agent e) = None /\
    (t, out) ∈ replies g /\ exists r, r ∈ issued g /\ rid r = t
}.

Lemma written_more s g e : (exists r, r ∈ issued g /\ written r s) -> exists r, r ∈ issued (after g e) /\ written r s.
Proof. intros (r' & Hr & Hw). exists r'. split; [|done]. apply elem_of_app. by left. Qed.

(** An agent that neither owns nor serves the slot that is written keeps its knowledge. *)
Lemma agent_ok_other g e b :
  (forall i f, e_slot e = Some (i, f) -> owns b <> Some i /\ serves b <> Some i) -> agent_ok g b -> agent_ok (after g e) b.
Proof.
  intros Hn. assert (Hs : forall i, owns b = Some i \/ serves b = Some i -> slot_at (upd (e_slot e) (slots g)) i = slot_at (slots g) i).
  { intros i Hi. destruct (e_slot e) as [[k f]|] eqn:E; [|done]. cbn. destruct (Hn k f eq_refl) as [H1 H2].
    apply ring_slot_at_other. intros ->. tauto. }
  assert (Hst : forall n i x, owns b = Some i \/ serves b = Some i -> stage n (replies g) (slot_at (slots g) i) x ->
    stage n (replies g ++ e_replies e) (slot_at (upd (e_slot e) (slots g)) i) x).
  { intros n i x Hi. rewrite (Hs i Hi). unfold stage. rewrite elem_of_app. tauto. }
  destruct b as [token counter c|i p|i p|]; cbn.
  - intros [Hc H]. split; [destruct c; cbn in *; rewrite ?elem_of_app; tauto|].
    destruct c; cbn in *; try done; rewrite ?(Hs _ (or_introl eq_refl)), ?elem_of_app; tauto.
  - intros [H1 H2]. destruct p; cbn in *; try (split; [done|done]);
      (split; [intros Hp; rewrite (Hs i) by (by right); by apply H1|]).
    + rewrite (Hs i) by (by right). by apply written_more.
    + rewrite (Hs i) by (by right). rewrite !fmap_app, elem_of_app. by left.
    + apply Hst; [by right|done].
    + apply Hst; [by right|done].
    + apply Hst; [by right|done].
    + apply Hst; [by right|done].
  - intros (H1 & H2 & H3). split; [done|]. destruct p; cbn in *; try done;
      (split; [intros Hp; rewrite (Hs i) by (by right); by apply H2|]); apply Hst; try done; by right.
  - done.
Qed.

(** The client of a slot that is being served only waits. *)
Lemma agent_ok_served g e b i f :
  e_slot e = Some (i, f) -> (i < List.length (slots g))%nat -> owns b = Some i ->
  let s := slot_at (slots g) i in
  state s = SAB_IO_SLOT_PENDING \/ state s = SAB_IO_SLOT_SERVICING -> ticket (f s) = ticket s -> seq (f s) = seq s ->
  waiting_state (f s) -> agent_ok g b -> agent_ok (after g e) b.
Proof.
  intros He Hi Hb s Hst Ht Hq Hw Hok. destruct b as [token counter c| | |]; try done.
  assert (Hsi : slot_at (upd (e_slot e) (slots g)) i = f s) by (rewrite He; by apply ring_slot_at_same).
  destruct Hok as [Hc H]. split.
  - destruct c; cbn in *; rewrite ?elem_of_app; tauto.
  - destruct c; cbn in Hb; try done; injection Hb as ->; cbn in H |- *; rewrite ?Hsi, ?Ht, ?Hq;
      fold s in H; destruct Hst as [E|E]; rewrite ?E in H; try (destruct H; discriminate); try discriminate; tauto.
Qed.

Lemma unique_change {A B} (f f' : A -> option B) (l : list A) j a a' :
  unique (fun k => l !! k ≫= f) -> l !! j = Some a ->
  (forall k b, k <> j -> l !! k = Some b -> f' b = f b) ->
  (forall x, f' a' = Some x -> f a = Some x \/ forall k b, k <> j -> l !! k = Some b -> f b <> Some x) ->
  unique (fun k => <[j := a']> l !! k ≫= f').
Proof.
  intros Hu Hj Hf Hx. assert (Hl : forall k, <[j := a']> l !! k ≫= f' = if decide (k = j) then f' a' else l !! k ≫= f).
  { intros k. destruct (decide (k = j)) as [->|Hne].
    - rewrite list_lookup_insert_eq; [done|]. by eapply lookup_lt_Some.
    - rewrite list_lookup_insert_ne by done. destruct (l !! k) as [b|] eqn:E; [|done]. cbn. by apply (Hf k). }
  assert (Hj' : (fun k => l !! k ≫= f) j = f a) by (cbv beta; by rewrite Hj).
  assert (Hc : forall k x, k <> j -> l !! k ≫= f = Some x -> f' a' <> Some x).
  { intros k x Hne Hk Ha. destruct (Hx x Ha) as [H|H].
    - apply Hne. apply (Hu k j x); [done|]. by rewrite Hj.
    - destruct (l !! k) as [b|] eqn:E; [|done]. by apply (H k b). }
  intros k m x. rewrite !Hl. destruct (decide (k = j)) as [->|], (decide (m = j)) as [->|]; intros H1 H2; try done.
  - by destruct (Hc m x).
  - by destruct (Hc k x).
  - by apply (Hu k m x).
Qed.

Section move.
Context (fs : Z) (g : ring) (j : nat) (a : agent) (e : effect).
Context (Hinv : inv fs g) (Hj : agents g !! j = Some a) (Hmv : moves fs g a e).
Let g' := apply_effect g j e.

Lemma other_serves k b i f : k <> j -> agents g !! k = Some b -> e_slot e = Some (i, f) -> serves b <> Some i.
Proof.
  intros Hne Hk He Hb. destruct (mv_write _ _ _ _ Hmv i f He) as [_ [[_ Hs]|[[Ha _]|[Hs _]]]].
  - pose proof (inv_agents _ _ Hinv k b Hk) as Hok. destruct b as [| i' p|i' p|]; try done; cbn in Hb, Hok.
    + destruct p; try done; injection Hb as ->; destruct Hok as [Hok _]; destruct Hok as [_ Hok]; try done; destruct Hs as [Hs|Hs]; rewrite Hs in Hok; done.
    + destruct p; try done; injection Hb as ->; destruct Hok as (_ & Hok & _); destruct (Hok eq_refl) as [E|E]; destruct Hs as [Hs|Hs]; rewrite Hs in E; done.
  - apply Hne. apply (inv_server _ _ Hinv k j i); [by rewrite Hk|by rewrite Hj].
  - pose proof (inv_agents _ _ Hinv k b Hk) as Hok. destruct b as [| i' p|i' p|]; try done; cbn in Hb, Hok.
    + destruct p; try done; injection Hb as ->; destruct Hok as [Hok _]; destruct Hok as [_ Hok]; try done; rewrite Hs in Hok; done.
    + destruct p; try done; injection Hb as ->; destruct Hok as (_ & Hok & _); destruct (Hok eq_refl) as [E|E]; rewrite Hs in E; done.
Qed.

Lemma other_ok k b : k <> j -> agents g !! k = Some b -> agent_ok (after g e) b.
Proof.
  intros Hne Hk. pose proof (inv_agents _ _ Hinv k b Hk) as Hok. destruct (e_slot e) as [[i f]|] eqn:He.
  - pose proof (other_serves k b i f Hne Hk He) as Hsv. destruct (decide (owns b = Some i)) as [Ho|Ho].
    + destruct (mv_write _ _ _ _ Hmv i f He) as [Hi [[Ha _]|[(Hs & H1 & H2 & H3 & H4)|[Hs _]]]].
      * exfalso. apply Hne. apply (inv_owner _ _ Hinv k j i); [by rewrite Hk|by rewrite Hj].
      * eapply agent_ok_served; try done. unfold waiting_state. destruct H4 as [-> | ->]; tauto.
      * by destruct (inv_free _ _ Hinv i k b).
    + apply agent_ok_other; [|done]. intros i' f' H. rewrite He in H. by injection H as <- <-.
  - apply agent_ok_other; [|done]. intros i' f' H. by rewrite He in H.
Qed.

Lemma unread_other k b : k <> j -> agents g !! k = Some b -> unread (upd (e_slot e) (slots g)) b = unread (slots g) b.
Proof.
  intros Hne Hk. destruct b as [|i p| |]; try done. destruct p; try done. cbn. destruct (e_slot e) as [[i' f]|] eqn:He; [|done].
  cbn. rewrite ring_slot_at_other; [done|]. intros ->. by apply (other_serves k (Job i JRead) i f).
Qed.

Lemma moved_reader x : reader g' x =
  match x with
  | inl k => if decide (k = j) then unread (upd (e_slot e) (slots g)) (e_agent e) else reader g x
  | inr i => pending_ticket (upd (e_slot e) (slots g)) i
  end.
Proof.
  destruct x as [k|i]; [|done]. cbn. destruct (decide (k = j)) as [->|Hne].
  - rewrite list_lookup_insert_eq; [done|]. by eapply lookup_lt_Some.
  - rewrite list_lookup_insert_ne by done. destruct (agents g !! k) as [b|] eqn:E; [|done]. cbn. by apply (unread_other k).
Qed.

Lemma issued_below r : r ∈ issued g -> (rid r < List.length (issued g))%nat.
Proof. intros (k & Hk)%list_elem_of_lookup. rewrite (inv_issued _ _ Hinv k r Hk). by eapply lookup_lt_Some. Qed.

Lemma reader_below x t : reader g x = Some t -> (t < List.length (issued g))%nat.
Proof.
  destruct x as [k|i]; cbn.
  - destruct (agents g !! k) as [b|] eqn:Hk; [|done]. cbn. pose proof (inv_agents _ _ Hinv k b Hk) as Hok.
    destruct b as [token counter c|i p| |]; try done; cbn in Hok |- *.
    + destruct Hok as [Hr _]. destruct c; cbn; try done; intros [= <-]; by apply issued_below.
    + destruct p; try done. intros [= <-]. destruct Hok as [_ (r & Hr & -> & _)]. by apply issued_below.
  - unfold pending_ticket. destruct (Z.eqb_spec (state (slot_at (slots g) i)) SAB_IO_SLOT_PENDING) as [E|]; [|done].
    intros [= <-]. destruct (inv_slots _ _ Hinv i) as [H _]. destruct (H E) as (r & Hr & -> & _). by apply issued_below.
Qed.

Lemma reader_a : reader g (inl j) = unread (slots g) a.
Proof. cbn. by rewrite Hj. Qed.

Lemma moved_reader_unique : unique (reader g').
Proof.
  pose proof (inv_reader _ _ Hinv) as Hu.
  assert (Hs : forall k t, k <> j -> reader g (inl k) = Some t -> unread (upd (e_slot e) (slots g)) (e_agent e) <> Some t).
  { intros k t Hne Hk Ha. destruct (mv_unread _ _ _ _ Hmv t Ha) as [H|[-> _]].
    - rewrite <- reader_a in H. specialize (Hu _ _ _ Hk H). congruence.
    - apply reader_below in Hk. lia. }
  assert (Ho : forall k t i, k <> j -> reader g (inl k) = Some t -> pending_ticket (upd (e_slot e) (slots g)) i <> Some t).
  { intros k t i Hne Hk Hi. destruct (mv_pending _ _ _ _ Hmv i t Hi) as [H|(H & _)].
    - by specialize (Hu (inl k) (inr i) t Hk H).
    - rewrite <- reader_a in H. specialize (Hu _ _ _ Hk H). congruence. }
  assert (Ha : forall t i, unread (upd (e_slot e) (slots g)) (e_agent e) = Some t -> pending_ticket (upd (e_slot e) (slots g)) i <> Some t).
  { intros t i Hc Hi. destruct (mv_pending _ _ _ _ Hmv i t Hi) as [H|(_ & H & _)]; [|congruence].
    destruct (mv_unread _ _ _ _ Hmv t Hc) as [H1|[-> _]].
    - rewrite <- reader_a in H1. by specialize (Hu (inl j) (inr i) t H1 H).
    - apply (reader_below (inr i)) in H. lia. }
  intros x y t. rewrite !moved_reader. destruct x as [k|i], y as [l|i'].
  - destruct (decide (k = j)) as [->|], (decide (l = j)) as [->|]; intros H1 H2; [done| | |by apply Hu with t].
    + by destruct (Hs l t).
    + by destruct (Hs k t).
  - destruct (decide (k = j)) as [->|]; intros H1 H2; [by destruct (Ha t i')|by destruct (Ho k t i')].
  - destruct (decide (l = j)) as [->|]; intros H1 H2; [by destruct (Ha t i)|by destruct (Ho l t i)].
  - intros H1 H2. destruct (mv_pending _ _ _ _ Hmv i t H1) as [H3|(H3 & _ & H3' & _)], (mv_pending _ _ _ _ Hmv i' t H2) as [H4|(H4 & _ & H4' & _)].
    + by apply Hu with t.
    + rewrite <- reader_a in H4. by specialize (Hu (inl j) (inr i) t H4 H3).
    + rewrite <- reader_a in H3. by specialize (Hu (inl j) (inr i') t H3 H4).
    + congruence.
Qed.

Lemma moved_unread x t : reader g' x = Some t -> t ∉ (seen g ++ e_seen e).*1.*1.
Proof.
  rewrite moved_reader, !fmap_app, elem_of_app. intros Hx [H|H].
  - revert H. destruct x as [k|i].
    + destruct (decide (k = j)) as [->|]; [|by apply (inv_unread _ _ Hinv (inl k) t)].
      destruct (mv_unread _ _ _ _ Hmv t Hx) as [H1|[-> _]].
      * rewrite <- reader_a in H1. by apply (inv_unread _ _ Hinv (inl j) t).
      * intros H. apply list_elem_of_fmap in H as ([t' w] & E & H). apply list_elem_of_fmap in H as ([[? ?] d] & E' & H). cbn in *. simplify_eq.
        destruct (inv_seen _ _ Hinv) as [_ Hs]. apply Hs in H as (r & Hr & E & _). apply issued_below in Hr. cbn in E. lia.
    + destruct (mv_pending _ _ _ _ Hmv i t Hx) as [H1|(H1 & _)]; [by apply (inv_unread _ _ Hinv (inr i) t)|].
      rewrite <- reader_a in H1. by apply (inv_unread _ _ Hinv (inl j) t).
  - destruct (mv_seen _ _ _ _ Hmv) as [E|(t' & w & d & E & H1 & H2 & _)]; rewrite E in H; [by apply elem_of_nil in H|].
    apply list_elem_of_singleton in H as ->. rewrite <- reader_a in H1. destruct x as [k|i].
    + destruct (decide (k = j)) as [->|Hne]; [cbn in Hx; congruence|]. pose proof (inv_reader _ _ Hinv _ _ _ H1 Hx). congruence.
    + destruct (mv_pending _ _ _ _ Hmv i _ Hx) as [H3|(_ & _ & _ & H3)]; [|congruence].
      by pose proof (inv_reader _ _ Hinv (inl j) (inr i) _ H1 H3).
Qed.

Lemma calls_below k b t : agents g !! k = Some b -> calling b = Some t -> (t < List.length (issued g))%nat.
Proof.
  intros Hk Hb. pose proof (inv_agents _ _ Hinv k b Hk) as Hok. destruct b as [token counter c| | |]; try done.
  destruct Hok as [Hr _]. unfold calling in Hb. destruct (call (Client token counter c)) as [r|]; [|done].
  injection Hb as <-. by apply issued_below.
Qed.

Lemma moved_call : unique (fun k => agents g' !! k ≫= calling).
Proof.
  apply (unique_change calling calling _ j a); [apply (inv_call _ _ Hinv)|done|done|].
  intros t Ht. destruct (mv_call _ _ _ _ Hmv t Ht) as [H|[-> _]]; [by left|]. right.
  intros k b _ Hk Hb. pose proof (calls_below k b _ Hk Hb). lia.
Qed.

Lemma ring_moved_calling k b t : agents g' !! k = Some b -> calling b = Some t -> t ∉ (results g ++ e_results e).*1.
Proof.
  cbn. rewrite fmap_app, elem_of_app. intros Hk Hb [H|H].
  - destruct (decide (k = j)) as [->|Hne].
    + rewrite list_lookup_insert_eq in Hk by (by eapply lookup_lt_Some). injection Hk as <-.
      destruct (mv_call _ _ _ _ Hmv t Hb) as [Ht|[-> _]]; [by apply (inv_calling _ _ Hinv j a t)|].
      apply list_elem_of_fmap in H as ([t out] & E & H). destruct (inv_results _ _ Hinv) as (_ & _ & Hr).
      apply Hr in H as (r & Hr' & <-). apply issued_below in Hr'. cbn in E. lia.
    + rewrite list_lookup_insert_ne in Hk by done. by apply (inv_calling _ _ Hinv k b t).
  - destruct (mv_results _ _ _ _ Hmv) as [E|(t' & out & E & H1 & H2 & _)]; rewrite E in H; [by apply elem_of_nil in H|].
    apply list_elem_of_singleton in H as ->. cbn in Hb. destruct (decide (k = j)) as [->|Hne].
    + rewrite list_lookup_insert_eq in Hk by (by eapply lookup_lt_Some). injection Hk as <-. congruence.
    + rewrite list_lookup_insert_ne in Hk by done. apply Hne. apply (inv_call _ _ Hinv k j t'); [by rewrite Hk|by rewrite Hj].
Qed.

Lemma moved_server : unique (fun k => agents g' !! k ≫= serves).
Proof.
  apply (unique_change serves serves _ j a); [apply (inv_server _ _ Hinv)|done|done|].
  intros i Hi. destruct (mv_serves _ _ _ _ Hmv i Hi) as [H|H]; [by left|]. right.
  assert (Hd : alive g = false).
  { pose proof (inv_agents _ _ Hinv j a Hj) as Hok. destruct a as [| |i' p|]; try done. destruct Hok as [Hok _]. apply Hok. by intros ->. }
  intros k b Hne Hk Hb. pose proof (inv_agents _ _ Hinv k b Hk) as Hok. destruct b as [|i' p|i' p|]; try done.
  - destruct p; try done; destruct Hok as [Hok _]; destruct Hok as [Hal _]; try done; congruence.
  - apply Hne. eapply (inv_failing _ _ Hinv k j); [exact Hk|exact Hj| |done]. by destruct p.
Qed.

Lemma ring_inv_move : inv fs g'.
Proof.
  assert (Hmine : agents g' !! j = Some (e_agent e)) by (apply list_lookup_insert_eq; by eapply lookup_lt_Some).
  assert (Hoth : forall k, k <> j -> agents g' !! k = agents g !! k) by (intros k Hne; cbn; by rewrite list_lookup_insert_ne).
  assert (Hsl : forall i, slot_at (slots g') i = slot_at (slots g) i \/
    exists f, e_slot e = Some (i, f) /\ (i < List.length (slots g))%nat /\ slot_at (slots g') i = f (slot_at (slots g) i)).
  { intros i. cbn. destruct (e_slot e) as [[i' f]|] eqn:E; [|by left]. destruct (decide (i' = i)) as [->|]; [|left; by apply ring_slot_at_other].
    right. exists f. destruct (mv_write _ _ _ _ Hmv i f E) as [Hi _]. by rewrite ring_slot_at_same. }
  constructor.
  - apply (unique_change owns owns _ j a); [apply (inv_owner _ _ Hinv)|done|done|].
    intros i Hi. destruct (mv_own _ _ _ _ Hmv i Hi) as [H|H]; [by left|]. right. intros k b _ Hk. by apply (inv_free _ _ Hinv i k b).
  - apply moved_server.
  - assert (Hf : forall k b, agents g' !! k = Some b -> failing b = true -> exists b0, agents g !! k = Some b0 /\ failing b0 = true).
    { intros k b Hk Hb. destruct (decide (k = j)) as [->|Hne]; [|rewrite Hoth in Hk by done; eauto].
      rewrite Hmine in Hk. injection Hk as <-. exists a. split; [done|]. by apply (mv_failing _ _ _ _ Hmv). }
    intros k m b b' Hk Hm Hb Hb'. apply Hf in Hk as (b0 & Hk & H0); [|done]. apply Hf in Hm as (b1 & Hm & H1); [|done].
    by apply (inv_failing _ _ Hinv k m b0 b1).
  - intros i k b Hi Hk. destruct (mv_free _ _ _ _ Hmv i Hi) as [H1 H2]. destruct (decide (k = j)) as [->|Hne].
    + rewrite Hmine in Hk. by injection Hk as <-.
    + rewrite Hoth in Hk by done. destruct H2 as [H2|H2]; [by apply (inv_free _ _ Hinv i k b)|].
      intros Hb. apply Hne. apply (inv_owner _ _ Hinv k j i); [by rewrite Hk|by rewrite Hj].
  - intros k b Hk. destruct (decide (k = j)) as [->|Hne].
    + rewrite Hmine in Hk. injection Hk as <-. apply (mv_ok _ _ _ _ Hmv).
    + rewrite Hoth in Hk by done. by apply (other_ok k).
  - intros i. destruct (Hsl i) as [->|(f & E & _ & ->)]; [|by apply (mv_slot _ _ _ _ Hmv i f)].
    destruct (inv_slots _ _ Hinv i) as [H1 H2]. split.
    + intros H. by apply (written_more _ g e), H1.
    + intros H. destruct (H2 H) as [? ?]. split; [done|]. apply elem_of_app. by left.
  - apply moved_reader_unique.
  - apply moved_unread.
  - apply moved_call.
  - apply ring_moved_calling.
  - intros k r Hk. cbn in Hk. destruct (mv_issued _ _ _ _ Hmv) as [E|(r' & E & Hr)]; rewrite E in Hk;
      [rewrite app_nil_r in Hk; by apply (inv_issued _ _ Hinv)|].
    apply lookup_app_Some in Hk as [Hk|[Hge [Hk <-]%list_lookup_singleton_Some]]; [by apply (inv_issued _ _ Hinv)|]. lia.
  - destruct (inv_seen _ _ Hinv) as [Hn Hs]. cbn [seen issued g' apply_effect]. destruct (mv_seen _ _ _ _ Hmv) as [->|(t & w & d & -> & H1 & H2 & H3)].
    + rewrite app_nil_r. split; [done|]. intros t w d H. apply Hs in H as (r & Hr & ?). exists r. split; [|done]. apply elem_of_app. by left.
    + split.
      * rewrite !fmap_app. apply list.NoDup_app. split_and!; [done| |apply NoDup_singleton].
        intros t' Ht ->%list_elem_of_singleton. cbn in Ht. rewrite <- reader_a in H1. by apply (inv_unread _ _ Hinv (inl j) t).
      * intros t' w' d' [H|H]%elem_of_app.
        -- apply Hs in H as (r & Hr & ?). exists r. split; [|done]. apply elem_of_app. by left.
        -- apply list_elem_of_singleton in H as [= -> -> ->]. destruct H3 as (r & Hr & ?). exists r. split; [|done]. apply elem_of_app. by left.
  - intros t out. cbn. rewrite !fmap_app, !elem_of_app. intros [H|H].
    + apply (inv_replies _ _ Hinv) in H. tauto.
    + apply (mv_replies _ _ _ _ Hmv) in H. tauto.
  - destruct (inv_results _ _ Hinv) as (Hn & Hs & Hr). cbn [results replies issued g' apply_effect].
    destruct (mv_results _ _ _ _ Hmv) as [->|(t & out & -> & H1 & H2 & H3 & H4)].
    + rewrite app_nil_r. split_and!; [done| |].
      * intros x Hx. apply elem_of_app. left. by apply Hs.
      * intros t out H. apply Hr in H as (r & H & ?). exists r. split; [|done]. apply elem_of_app. by left.
    + split_and!.
      * rewrite fmap_app. apply list.NoDup_app. split_and!; [done| |apply NoDup_singleton].
        intros t' Ht ->%list_elem_of_singleton. by apply (inv_calling _ _ Hinv j a t).
      * intros x [Hx| ->%list_elem_of_singleton]%elem_of_app; apply elem_of_app; left; [by apply Hs|done].
      * intros t' out' [H|H]%elem_of_app.
        -- apply Hr in H as (r & H & ?). exists r. split; [|done]. apply elem_of_app. by left.
        -- apply list_elem_of_singleton in H as [= -> ->]. destruct H4 as (r & H & ?). exists r. split; [|done]. apply elem_of_app. by left.
Qed.
End move.

(** ** Every step of an agent is such a move *)

Section ring_agent_moves.
Context (fs : Z) (g : ring).

Record ready (a : agent) : Prop := {
  rd_free : forall i, owns a = Some i -> state (slot_at (slots g) i) <> SAB_IO_SLOT_FREE;
  rd_ok : agent_ok g a;
  rd_slots : forall i, slot_ok g (slot_at (slots g) i);
  rd_issued : forall r, r ∈ issued g -> (rid r < List.length (issued g))%nat
}.

Lemma after_nil h o a : after g (Effect h o a [] [] [] []) = Ring h (upd o (slots g)) (alive g) (agents g) (issued g) (seen g) (replies g) (results g).
Proof. unfold after. cbn. by rewrite !app_nil_r. Qed.

(** A step that changes no slot. *)
Lemma ring_moves_quiet h a a' :
  ready a -> (forall i, owns a' = Some i -> owns a = Some i) -> (forall i, serves a' = Some i -> serves a = Some i) ->
  (failing a' = true -> failing a = true) -> agent_ok g a' ->
  (forall t, unread (slots g) a' = Some t -> unread (slots g) a = Some t) -> (forall t, calling a' = Some t -> calling a = Some t) ->
  moves fs g a (Effect h None a' [] [] [] []).
Proof.
  intros Hrd Ho Hs Hf Hok Hu Hc. constructor; cbn; try done; try (by left).
  - intros i H. left. by apply Ho.
  - intros i H. split; [|by left]. intros ?%Ho%(rd_free _ Hrd). done.
  - intros i H. left. by apply Hs.
  - rewrite after_nil. exact Hok.
  - intros t H. left. by apply Hu.
  - intros t H. left. by apply Hc.
  - by intros t out ?%elem_of_nil.
Qed.

(** The client of a slot writes it: the slot is idle, or done and read. *)
Lemma moves_own h a a' i f :
  ready a -> owns a = Some i -> state (slot_at (slots g) i) = SAB_IO_SLOT_IDLE \/ state (slot_at (slots g) i) = SAB_IO_SLOT_DONE ->
  (owns a' = Some i /\ state (f (slot_at (slots g) i)) <> SAB_IO_SLOT_FREE \/ owns a' = None) ->
  serves a' = None -> failing a' = false ->
  agent_ok (after g (Effect h (Some (i, f)) a' [] [] [] [])) a' ->
  slot_ok g (f (slot_at (slots g) i)) ->
  (state (f (slot_at (slots g) i)) <> SAB_IO_SLOT_PENDING /\ (forall t, unread (alter f i (slots g)) a' = Some t -> unread (slots g) a = Some t) \/
   (unread (slots g) a = Some (ticket (f (slot_at (slots g) i))) /\ unread (alter f i (slots g)) a' = None)) ->
  (forall t, calling a' = Some t -> calling a = Some t) ->
  moves fs g a (Effect h (Some (i, f)) a' [] [] [] []).
Proof.
  intros Hrd Ha Hst Ho Hs Hf Hok Hslot Hu Hc.
  assert (Hi : (i < List.length (slots g))%nat) by (apply ring_in_range; destruct Hst as [-> | ->]; done).
  constructor; cbn [e_slot e_agent e_issued e_seen e_replies e_results upd]; try done; try (by left).
  - intros k f' [= <- <-]. split; [done|]. by left.
  - intros k Hk. destruct Ho as [[Ho _]|Ho]; [|congruence]. rewrite Ho in Hk. injection Hk as <-. by left.
  - intros k. destruct (decide (i = k)) as [<-|Hne].
    + rewrite ring_slot_at_same by done. intros H. destruct Ho as [[_ Ho]|Ho]; [done|]. rewrite Ho. split; [done|by right].
    + rewrite ring_slot_at_other by done. intros H. split; [|by left]. destruct Ho as [[Ho _]|Ho]; rewrite Ho; congruence.
  - intros k. by rewrite Hs.
  - by rewrite Hf.
  - intros k f' [= <- <-]. rewrite after_nil. done.
  - intros t Ht. destruct Hu as [[_ Hu]|[_ Hu]]; [left; by apply Hu|congruence].
  - intros k t. unfold pending_ticket. destruct (decide (i = k)) as [<-|Hne]; [|rewrite ring_slot_at_other by done; by left].
    rewrite ring_slot_at_same by done. destruct (Z.eqb_spec (state (f (slot_at (slots g) i))) SAB_IO_SLOT_PENDING); [|done].
    intros [= <-]. right. destruct Hu as [[Hu _]|[Hu1 Hu2]]; [done|]. done.
  - intros t H. left. by apply Hc.
  - by intros t out ?%elem_of_nil.
Qed.

(** The server of a slot writes it. *)
Lemma moves_serve h a a' i f reps :
  ready a -> serves a = Some i -> owns a = None -> owns a' = None -> unread (slots g) a = None -> unread (alter f i (slots g)) a' = None -> calling a' = None ->
  state (slot_at (slots g) i) = SAB_IO_SLOT_PENDING \/ state (slot_at (slots g) i) = SAB_IO_SLOT_SERVICING ->
  ticket (f (slot_at (slots g) i)) = ticket (slot_at (slots g) i) -> seq (f (slot_at (slots g) i)) = seq (slot_at (slots g) i) ->
  (state (f (slot_at (slots g) i)) = state (slot_at (slots g) i) \/ state (f (slot_at (slots g) i)) = SAB_IO_SLOT_DONE) ->
  (forall k, serves a' = Some k -> k = i) -> (failing a' = true -> failing a = true) ->
  agent_ok (after g (Effect h (Some (i, f)) a' [] [] reps [])) a' ->
  slot_ok (after g (Effect h (Some (i, f)) a' [] [] reps [])) (f (slot_at (slots g) i)) ->
  (forall t out, (t, out) ∈ reps -> t ∈ (seen g).*1.*1 \/ failed fs out) ->
  moves fs g a (Effect h (Some (i, f)) a' [] [] reps []).
Proof.
  intros Hrd Ha Ho Ho' Hu Hu' Hc Hst Ht Hq Hst' Hs Hf Hok Hslot Hr.
  assert (Hi : (i < List.length (slots g))%nat) by (apply ring_in_range; destruct Hst as [-> | ->]; done).
  constructor; cbn [e_slot e_agent e_issued e_seen e_replies e_results upd]; try done; try (by left).
  - intros k f' [= <- <-]. split; [done|]. right. by left.
  - intros k. by rewrite Ho'.
  - intros k. rewrite Ho'. destruct (decide (i = k)) as [<-|Hne]; [|rewrite ring_slot_at_other by done; split; [done|by left]].
    rewrite ring_slot_at_same by done. intros H. destruct Hst' as [E|E]; rewrite E in H; [|done]. destruct Hst as [E'|E']; rewrite E' in H; done.
  - intros k ->%Hs. by left.
  - by intros k f' [= <- <-].
  - intros t. by rewrite Hu'.
  - intros k t. unfold pending_ticket. destruct (decide (i = k)) as [<-|Hne]; [|rewrite ring_slot_at_other by done; by left].
    rewrite ring_slot_at_same, Ht by done. destruct Hst' as [->| ->]; [by left|done].
  - intros t. by rewrite Hc.
Qed.

(** A client claims a free slot. *)
Lemma moves_claim h tk ct c c' i f t :
  ready (Client tk ct c) -> owns (Client tk ct c) = None -> (i < List.length (slots g))%nat -> state (slot_at (slots g) i) = SAB_IO_SLOT_FREE ->
  owns (Client tk ct c') = Some i -> state (f (slot_at (slots g) i)) = SAB_IO_SLOT_IDLE ->
  agent_ok (after g (Effect h (Some (i, f)) (Client tk ct c') [] [] [] [])) (Client tk ct c') ->
  unread (slots g) (Client tk ct c) = Some t -> unread (alter f i (slots g)) (Client tk ct c') = Some t ->
  calling (Client tk ct c) = Some t -> calling (Client tk ct c') = Some t ->
  moves fs g (Client tk ct c) (Effect h (Some (i, f)) (Client tk ct c') [] [] [] []).
Proof.
  intros Hrd Ho Hi Hst Ho' Hst' Hok Hu Hu' Hc Hc'.
  constructor; cbn [e_slot e_agent e_issued e_seen e_replies e_results upd]; try done; try (by left).
  - intros k f' [= <- <-]. split; [done|]. right. by right.
  - intros k. rewrite Ho'. intros [= <-]. by right.
  - intros k. rewrite Ho'. destruct (decide (i = k)) as [<-|Hne].
    + rewrite ring_slot_at_same by done. rewrite Hst'. done.
    + rewrite ring_slot_at_other by done. split; [congruence|by left].
  - intros k f' [= <- <-]. unfold slot_ok. rewrite Hst'. done.
  - intros u Hx. left. congruence.
  - intros k u. unfold pending_ticket. destruct (decide (i = k)) as [<-|Hne]; [|rewrite ring_slot_at_other by done; by left].
    rewrite ring_slot_at_same, Hst' by done. done.
  - intros u Hx. left. congruence.
  - by intros u out ?%elem_of_nil.
Qed.

Lemma moves_call h tk ct r c :
  ready (Client tk ct CReady) -> rid r = List.length (issued g) -> c = CReleases r ->
  moves fs g (Client tk ct CReady) (Effect h None (Client tk ct c) [r] [] [] []).
Proof.
  intros Hrd Hr ->. constructor; cbn; try done; try (by left).
  - intros i H. split; [done|by left].
  - rewrite elem_of_app, list_elem_of_singleton. tauto.
  - intros t [= <-]. by right.
  - intros t [= <-]. by right.
  - right. by exists r.
  - by intros u out ?%elem_of_nil.
Qed.

Lemma moves_return h tk ct r out :
  ready (Client tk ct (CReleased r out)) -> moves fs g (Client tk ct (CReleased r out)) (Effect h None (Client tk ct CReady) [] [] [] [(rid r, out)]).
Proof.
  intros Hrd. destruct (rd_ok _ Hrd) as [Hr Ho]. cbn in Hr, Ho. constructor; cbn; try done; try (by left).
  - intros i H. split; [done|by left].
  - by intros u out' ?%elem_of_nil.
  - right. exists (rid r), out. split_and!; try done. by exists r.
Qed.

Lemma ring_claim_moves tk ct c e :
  ready (Client tk ct c) -> claim_step (hdr g) (slots g) tk ct c = Some e -> moves fs g (Client tk ct c) e.
Proof.
  intros Hrd H. pose proof (rd_ok _ Hrd) as [Hc Ho]. destruct c; cbn -[Nat.ltb Nat.modulo] in H, Hc, Ho; try done.
  - injection H as <-. by apply ring_moves_quiet.
  - injection H as <-. by apply ring_moves_quiet.
  - destruct (Nat.ltb_spec k (List.length (slots g))) as [Hk|_]; [|injection H as <-; by apply ring_moves_quiet].
    set (i := ((start + k) mod List.length (slots g))%nat) in H.
    assert (Hi : (i < List.length (slots g))%nat) by (apply Nat.mod_upper_bound; lia).
    destruct (Z.eqb_spec (state (slot_at (slots g) i)) SAB_IO_SLOT_FREE) as [E|]; injection H as <-; [|by apply ring_moves_quiet].
    apply (moves_claim _ _ _ _ _ _ _ (rid r)); try done. rewrite after_nil. cbn. by rewrite ring_slot_at_same.
  - injection H as <-. by apply ring_moves_quiet.
  - injection H as <-. assert (Hi : (i < List.length (slots g))%nat) by (apply ring_in_range; by rewrite Ho).
    apply moves_own; try done.
    + by left.
    + left. cbn. by rewrite Ho.
    + rewrite after_nil. cbn. by rewrite ring_slot_at_same.
    + unfold slot_ok. cbn. by rewrite Ho.
    + left. cbn. by rewrite Ho.
Qed.

(** A client writes the words of its idle slot. *)
Lemma moves_idle h tk ct c c' i f r :
  ready (Client tk ct c) -> owns (Client tk ct c) = Some i -> owns (Client tk ct c') = Some i ->
  state (slot_at (slots g) i) = SAB_IO_SLOT_IDLE -> state (f (slot_at (slots g) i)) = SAB_IO_SLOT_IDLE ->
  call (Client tk ct c) = Some r -> call (Client tk ct c') = Some r ->
  unread (slots g) (Client tk ct c) = Some (rid r) -> (forall l, unread l (Client tk ct c') = Some (rid r)) ->
  ((i < List.length (slots g))%nat -> agent_ok (Ring h (alter f i (slots g)) (alive g) (agents g) (issued g) (seen g) (replies g) (results g)) (Client tk ct c')) ->
  moves fs g (Client tk ct c) (Effect h (Some (i, f)) (Client tk ct c') [] [] [] []).
Proof.
  intros Hrd Ho Ho' Hst Hst' Hc Hc' Hu Hu' Hok. apply moves_own; try done.
  - by left.
  - left. by rewrite Hst'.
  - rewrite after_nil. apply Hok. apply ring_in_range. by rewrite Hst.
  - unfold slot_ok. by rewrite Hst'.
  - left. rewrite Hst'. split; [done|]. intros t. rewrite Hu'. congruence.
  - intros t. unfold calling. rewrite Hc, Hc'. done.
Qed.

Lemma round_trip_moves tk ct c o e :
  ready (Client tk ct c) -> round_trip_step (hdr g) (slots g) tk ct o c = Some e -> moves fs g (Client tk ct c) e.
Proof.
  intros Hrd H. pose proof (rd_ok _ Hrd) as [Hc Ho]. destruct c; cbn in H, Hc, Ho; try done.
  - destruct ct; injection H as <-; by apply ring_moves_quiet.
  - injection H as <-. apply (moves_idle _ _ _ _ _ _ _ r); try done.
    intros Hi. cbn. rewrite ring_slot_at_same by done. cbn. split_and!; try done. unfold written. cbn. split_and!; [done..|by eexists].
  - injection H as <-. apply (moves_idle _ _ _ _ _ _ _ r); try done; [tauto..|].
    intros Hi. cbn. by rewrite ring_slot_at_same.
  - injection H as <-. apply (moves_idle _ _ _ _ _ _ _ r); try done; [tauto..|].
    intros Hi. cbn. rewrite ring_slot_at_same by done. cbn. by destruct Ho.
  - injection H as <-. destruct Ho as (Hst & Hw & Hq).
    assert (Hi : (i < List.length (slots g))%nat) by (apply ring_in_range; by rewrite Hst).
    apply moves_own; try done.
    + by left.
    + by left.
    + rewrite after_nil. cbn. rewrite ring_slot_at_same by done. cbn. unfold waiting_state. cbn. destruct Hw as [? _]. tauto.
    + split; [|done]. intros _. by exists r.
    + right. cbn. destruct Hw as [-> _]. done.
  - injection H as <-. by apply ring_moves_quiet.
  - destruct (Z.eqb_spec (state (slot_at (slots g) i)) SAB_IO_SLOT_DONE), (a_spin o); injection H as <-; apply ring_moves_quiet; cbn; try done; cbn; tauto.
  - destruct (Z.eqb_spec (done_seq (slot_at (slots g) i)) q), (a_spin o); injection H as <-; apply ring_moves_quiet; cbn; try done; cbn; unfold waiting_state; tauto.
  - injection H as <-. by apply ring_moves_quiet.
  - injection H as <-. apply ring_moves_quiet; try done. cbn. tauto.
  - injection H as <-. apply ring_moves_quiet; try done. cbn. tauto.
  - injection H as <-. destruct Ho as (Hst & Ht & -> & ->). apply ring_moves_quiet; try done. cbn. split_and!; try done.
    rewrite <- Ht. by apply (rd_slots _ Hrd i).
Qed.

Lemma client_moves tk ct c o e :
  ready (Client tk ct c) -> client_step (hdr g) (slots g) tk ct (List.length (issued g)) o c = Some e -> moves fs g (Client tk ct c) e.
Proof.
  intros Hrd H. pose proof (rd_ok _ Hrd) as [Hc Ho].
  destruct c; try (by apply (ring_claim_moves tk ct _ e Hrd)); try (by apply (round_trip_moves tk ct _ o e Hrd)); cbn in H, Hc, Ho.
  - injection H as <-. by apply moves_call.
  - injection H as <-. destruct Ho as (Hst & Hr).
    assert (Hi : (i < List.length (slots g))%nat) by (apply ring_in_range; by rewrite Hst).
    apply moves_own; try done.
    + by right.
    + left. cbn. by rewrite Hst.
    + rewrite after_nil. cbn. by rewrite ring_slot_at_same.
    + apply (rd_slots _ Hrd i).
    + left. cbn. by rewrite Hst.
  - injection H as <-. destruct Ho as (Hst & Hr).
    assert (Hi : (i < List.length (slots g))%nat) by (apply ring_in_range; by rewrite Hst).
    apply moves_own; try done.
    + by right.
    + by right.
    + rewrite after_nil. cbn. done.
    + by left.
  - injection H as <-. by apply moves_return.
Qed.

Lemma moves_read h i :
  ready (Job i JRead) -> let s := slot_at (slots g) i in
  moves fs g (Job i JRead) (Effect h None (Job i (JServe (req s) (data s))) [] [(ticket s, req s, data s)] [] []).
Proof.
  intros Hrd s. destruct (rd_ok _ Hrd) as [[Hal Hst] (r & Hr & Ht & Hw & d0 & Hd)]; [done|].
  constructor; cbn; try done; try (by left).
  - intros k H. split; [done|by left].
  - split; [done|]. rewrite !fmap_app, elem_of_app. right. by apply list_elem_of_singleton.
  - right. exists (ticket s), (req s), (data s). split_and!; try done. exists r. split_and!; try done. by exists d0.
  - by intros u out ?%elem_of_nil.
Qed.

Lemma stage_next n reps s x : stage n reps s x -> forall s', ticket s' = ticket s -> data s' = data s ->
  ((1 <= S n)%nat -> f64_result s' = x.1.2) -> ((2 <= S n)%nat -> status s' = to_int32 x.1.1) -> ((3 <= S n)%nat -> done_seq s' = seq s') ->
  stage (S n) reps s' x.
Proof. intros (H1 & H2 & _) s' E1 E2 ???. unfold stage. rewrite E1, E2. by split_and!. Qed.

Lemma stage_done reps s x : stage 3 reps s x -> done_seq s = seq s /\ (ticket s, (status s, f64_result s, data s)) ∈ reps.
Proof. intros (H1 & H2 & H3 & H4 & H5). rewrite H2, H3, H4, H5 by lia. done. Qed.

Lemma slot_ok_same s s' : state s' = state s -> req s' = req s -> ticket s' = ticket s -> data s' = data s ->
  state s = SAB_IO_SLOT_PENDING \/ state s = SAB_IO_SLOT_SERVICING -> slot_ok g s -> slot_ok g s'.
Proof.
  intros E1 E2 E3 E4 Hst [H1 _]. unfold slot_ok, written. rewrite E1, E2, E3, E4. split; [done|].
  intros H. rewrite H in Hst. by destruct Hst.
Qed.

(** A job writes its slot and goes on. *)
Lemma moves_job h i p p' f :
  ready (Job i p) -> (p <> JRead) -> p <> JEnd -> p' <> JRead ->
  let s := slot_at (slots g) i in
  (state (f s) = state s /\ req (f s) = req s /\ ticket (f s) = ticket s /\ data (f s) = data s \/
   p' = JEnd /\ state (f s) = SAB_IO_SLOT_DONE /\ ticket (f s) = ticket s /\
   done_seq (f s) = seq (f s) /\ (ticket (f s), (status (f s), f64_result (f s), data (f s))) ∈ replies g) -> seq (f s) = seq s ->
  (alive g = true -> state s = SAB_IO_SLOT_SERVICING -> state (f s) = state s \/ p' = JEnd ->
   (i < List.length (slots g))%nat ->
   agent_ok (Ring h (alter f i (slots g)) (alive g) (agents g) (issued g) (seen g) (replies g) (results g)) (Job i p')) ->
  moves fs g (Job i p) (Effect h (Some (i, f)) (Job i p') [] [] [] []).
Proof.
  intros Hrd Hp Hp' Hp'' s Hf Hq Hok. destruct (rd_ok _ Hrd) as [Hst _]. destruct (Hst Hp') as [Hal Hs].
  assert (Hi : (i < List.length (slots g))%nat) by (apply ring_in_range; by rewrite Hs).
  apply moves_serve; try done.
  - by destruct p.
  - by destruct p.
  - by destruct p'.
  - by right.
  - destruct Hf as [(_ & _ & Hf & _)|(_ & _ & Hf & _)]; done.
  - destruct Hf as [(Hf & _)|(_ & Hf & _)]; tauto.
  - intros k. destruct p'; cbn; congruence.
  - rewrite after_nil. apply Hok; try done. destruct Hf as [(Hf & _)|(Hf & _)]; tauto.
  - rewrite after_nil. change (slot_ok g (f (slot_at (slots g) i))). destruct Hf as [(E1 & E2 & E3 & E4)|(_ & E & _ & E1 & E2)].
    + apply (slot_ok_same s); try done; [by right|]. apply (rd_slots _ Hrd).
    + split; [|done]. fold s. rewrite E. done.
  - by intros u out ?%elem_of_nil.
Qed.

Lemma moves_answer h i w d x :
  ready (Job i (JServe w d)) ->
  moves fs g (Job i (JServe w d)) (Effect h (Some (i, fill_data x.2)) (Job i (JResult x)) [] []
    [(ticket (slot_at (slots g) i), (to_int32 x.1.1, x.1.2, x.2))] []).
Proof.
  intros Hrd. destruct (rd_ok _ Hrd) as [[Hal Hs] Ht]; [done|]. cbn in Hs, Ht.
  assert (Hi : (i < List.length (slots g))%nat) by (apply ring_in_range; by rewrite Hs).
  apply moves_serve; try done; try (by left); try (by right).
  - cbn. congruence.
  - cbn. rewrite ring_slot_at_same by done. cbn. split; [done|]. unfold stage. cbn. split_and!; try lia; try done.
    apply elem_of_app. right. by apply list_elem_of_singleton.
  - split; cbn; by rewrite Hs.
  - intros t out [= -> ->]%list_elem_of_singleton. by left.
Qed.

Lemma job_moves i p o e : ready (Job i p) -> job_step (hdr g) (slots g) i o p = Some e -> moves fs g (Job i p) e.
Proof.
  intros Hrd H. destruct (rd_ok _ Hrd) as [_ Hok]. destruct p; cbn in H, Hok; try done; injection H as <-.
  - by apply moves_read.
  - by apply moves_answer.
  - apply moves_job; try done; [by left|]. intros Hal Hs _ Hi. cbn. rewrite ring_slot_at_same by done. split; [done|].
    apply (stage_next _ _ _ _ Hok); try done; lia.
  - apply moves_job; try done; [by left|]. intros Hal Hs _ Hi. cbn. rewrite ring_slot_at_same by done. split; [done|].
    apply (stage_next _ _ _ _ Hok); try done; try lia. intros _. apply Hok. lia.
  - apply moves_job; try done; [by left|]. intros Hal Hs _ Hi. cbn. rewrite ring_slot_at_same by done. split; [done|].
    apply (stage_next _ _ _ _ Hok); try done; intros _; apply Hok; lia.
  - apply moves_job; try done. right. cbn. apply stage_done in Hok. tauto.
Qed.

(** The supervisor of a dead worker finds a request to fail. *)
Lemma moves_fail h i x :
  ready (Supervisor i FLoad) -> let s := slot_at (slots g) i in
  state s = SAB_IO_SLOT_PENDING \/ state s = SAB_IO_SLOT_SERVICING -> x = (fs, Fin 0, data s) ->
  moves fs g (Supervisor i FLoad) (Effect h None (Supervisor i (FResult x)) [] [] [(ticket s, (to_int32 fs, Fin 0, data s))] []).
Proof.
  intros Hrd s Hst ->. destruct (rd_ok _ Hrd) as (Hal & _). constructor; cbn; try done; try (by left).
  - intros k H. split; [done|by left].
  - by right.
  - split; [by intros _; apply Hal|]. split; [done|]. unfold stage. cbn. split_and!; try done; try lia.
    apply elem_of_app. right. by apply list_elem_of_singleton.
  - intros t out [= -> ->]%list_elem_of_singleton. right. done.
Qed.

(** It writes the slot it fails. *)
Lemma moves_failing h i p i' p' f :
  ready (Supervisor i p) -> serves (Supervisor i p) = Some i ->
  let s := slot_at (slots g) i in
  (i' = i /\ serves (Supervisor i p') = Some i /\ state (f s) = state s /\ req (f s) = req s /\ ticket (f s) = ticket s /\ data (f s) = data s \/
   p' = FLoad /\ state (f s) = SAB_IO_SLOT_DONE /\ ticket (f s) = ticket s /\
   done_seq (f s) = seq (f s) /\ (ticket (f s), (status (f s), f64_result (f s), data (f s))) ∈ replies g) -> seq (f s) = seq s ->
  (alive g = false -> state s = SAB_IO_SLOT_PENDING \/ state s = SAB_IO_SLOT_SERVICING -> (i < List.length (slots g))%nat ->
   agent_ok (Ring h (alter f i (slots g)) (alive g) (agents g) (issued g) (seen g) (replies g) (results g)) (Supervisor i' p')) ->
  moves fs g (Supervisor i p) (Effect h (Some (i, f)) (Supervisor i' p') [] [] [] []).
Proof.
  intros Hrd Hsv s Hf Hq Hok. destruct (rd_ok _ Hrd) as (Hal & Hst & _). specialize (Hst Hsv).
  assert (Hi : (i < List.length (slots g))%nat) by (apply ring_in_range; destruct Hst as [-> | ->]; done).
  apply moves_serve; try done.
  - destruct Hf as [(_ & _ & _ & _ & Hf & _)|(_ & _ & Hf & _)]; done.
  - destruct Hf as [(_ & _ & Hf & _)|(_ & Hf & _)]; tauto.
  - intros k Hk. destruct Hf as [(-> & Hf & _)|(-> & _)]; [|done]. congruence.
  - intros _. by destruct p.
  - rewrite after_nil. apply Hok; try done. apply Hal. by intros ->.
  - rewrite after_nil. change (slot_ok g (f (slot_at (slots g) i))). destruct Hf as [(_ & _ & E1 & E2 & E3 & E4)|(_ & E & _ & E1 & E2)].
    + apply (slot_ok_same s); try done. apply (rd_slots _ Hrd).
    + split; [|done]. fold s. rewrite E. done.
  - by intros u out ?%elem_of_nil.
Qed.

Lemma fail_moves i p e : ready (Supervisor i p) -> fail_step fs (hdr g) (slots g) i p = Some e -> moves fs g (Supervisor i p) e.
Proof.
  intros Hrd H. pose proof (rd_ok _ Hrd) as (Hal & _ & Hok).
  destruct p; cbn -[Nat.ltb] in H, Hal, Hok; try done.
  - destruct (i <? List.length (slots g))%nat; [|injection H as <-; by apply ring_moves_quiet].
    destruct ((_ =? _) || (_ =? _)) eqn:E; injection H as <-; [|by apply ring_moves_quiet].
    apply moves_fail; try done. apply orb_true_iff in E as [E|E]; apply Z.eqb_eq in E; tauto.
  - injection H as <-. apply moves_failing; try done; [by left|]. intros Ha Hst Hi. cbn. rewrite ring_slot_at_same by done.
    split_and!; [done..|]. apply (stage_next _ _ _ _ Hok); try done; lia.
  - injection H as <-. apply moves_failing; try done; [by left|]. intros Ha Hst Hi. cbn. rewrite ring_slot_at_same by done.
    split_and!; [done..|]. apply (stage_next _ _ _ _ Hok); try done; try lia. intros _. apply Hok. lia.
  - injection H as <-. apply moves_failing; try done; [by left|]. intros Ha Hst Hi. cbn. rewrite ring_slot_at_same by done.
    split_and!; [done..|]. apply (stage_next _ _ _ _ Hok); try done; intros _; apply Hok; lia.
  - injection H as <-. apply moves_failing; try done. right. cbn. apply stage_done in Hok. tauto.
Qed.

Lemma ring_agent_moves a o e : ready a -> agent_step fs g a o = Some e -> moves fs g a e.
Proof.
  intros Hrd H. destruct a as [tk ct c|i p|i p|]; [by eapply client_moves|by eapply job_moves|by eapply fail_moves|].
  by destruct (rd_ok _ Hrd).
Qed.
End ring_agent_moves.

(** ** The other steps *)

Lemma lookup_snoc {A} (l : list A) b k c : (l ++ [b]) !! k = Some c -> l !! k = Some c \/ k = List.length l /\ c = b.
Proof. intros [H|[Hge [Hk <-]%list_lookup_singleton_Some]]%lookup_app_Some; [by left|]. right. split; [lia|done]. Qed.

Lemma unique_snoc {A B} (f : A -> option B) (l : list A) b :
  unique (fun k => l !! k ≫= f) -> (forall x k c, f b = Some x -> l !! k = Some c -> f c <> Some x) -> unique (fun k => (l ++ [b]) !! k ≫= f).
Proof.
  intros Hu Hb k m x Hk Hm. apply bind_Some in Hk as (c & Hk & Hc), Hm as (d & Hm & Hd).
  apply lookup_snoc in Hk as [Hk|[-> ->]], Hm as [Hm|[-> ->]]; try done.
  - apply (Hu k m x); [by rewrite Hk|by rewrite Hm].
  - by destruct (Hb x k c).
  - by destruct (Hb x m d).
Qed.

(** An agent that holds nothing joins. *)
Lemma inv_join fs g h b :
  inv fs g -> owns b = None -> serves b = None -> (forall l, unread l b = None) -> calling b = None ->
  (failing b = true -> existsb failing (agents g) = false) -> agent_ok g b -> inv fs (set_hdr g h (alive g) (agents g ++ [b])).
Proof.
  intros Hinv Ho Hs Hu Hc Hf Hok.
  assert (Hnf : failing b = true -> forall k c, agents g !! k = Some c -> failing c = false).
  { intros H k c Hk. apply Hf in H. apply not_true_iff_false. intros Hc'. rewrite <- not_true_iff_false, existsb_exists in H. apply H. exists c.
    split; [|done]. apply list_elem_of_In. by eapply list_elem_of_lookup_2. }
  assert (Hr : forall x t, reader (set_hdr g h (alive g) (agents g ++ [b])) x = Some t -> reader g x = Some t).
  { intros [k|i] t; [|done]. cbn. intros (c & Hk & Hu')%bind_Some. apply lookup_snoc in Hk as [Hk|[-> ->]]; [by rewrite Hk|]. by rewrite Hu in Hu'. }
  constructor; cbn; try apply Hinv.
  - apply unique_snoc; [apply Hinv|congruence].
  - apply unique_snoc; [apply Hinv|congruence].
  - intros j k c d Hj Hk Hc' Hd. apply lookup_snoc in Hj as [Hj|[-> ->]], Hk as [Hk|[-> ->]].
    + by apply (inv_failing _ _ Hinv j k c d).
    + by rewrite (Hnf Hd _ _ Hj) in Hc'.
    + by rewrite (Hnf Hc' _ _ Hk) in Hd.
    + done.
  - intros i j c Hi Hj. apply lookup_snoc in Hj as [Hj|[-> ->]]; [by apply (inv_free _ _ Hinv i j c)|]. congruence.
  - intros j c Hj. apply lookup_snoc in Hj as [Hj|[-> ->]]; [|exact Hok]. exact (inv_agents _ _ Hinv j c Hj).
  - intros x y t H1%Hr H2%Hr. by apply (inv_reader _ _ Hinv x y t).
  - intros x t H%Hr. by apply (inv_unread _ _ Hinv x t).
  - apply unique_snoc; [apply Hinv|congruence].
  - intros j c t Hj Ht. apply lookup_snoc in Hj as [Hj|[-> ->]]; [by apply (inv_calling _ _ Hinv j c t)|congruence].
Qed.

(** The worker takes a pending slot. *)
Lemma inv_scan fs g i :
  inv fs g -> alive g = true -> state (slot_at (slots g) i) = SAB_IO_SLOT_PENDING ->
  inv fs (Ring (hdr g) (alter (set_state SAB_IO_SLOT_SERVICING) i (slots g)) (alive g) (agents g ++ [Job i JRead])
            (issued g) (seen g) (replies g) (results g)).
Proof.
  intros Hinv Hal Hst. set (f := set_state SAB_IO_SLOT_SERVICING). set (g' := Ring _ _ _ _ _ _ _ _).
  assert (Hi : (i < List.length (slots g))%nat) by (apply ring_in_range; by rewrite Hst).
  assert (Hns : forall k c, agents g !! k = Some c -> serves c <> Some i).
  { intros k c Hk Hc. pose proof (inv_agents _ _ Hinv k c Hk) as Hok. destruct c as [|i' p|i' p|]; try done.
    - destruct Hok as [Hok _]. destruct p; try done; injection Hc as ->; destruct Hok as [_ Hok]; try done; by rewrite Hst in Hok.
    - destruct Hok as [Hok _]. rewrite Hok in Hal; [done|]. by intros ->. }
  assert (Hsl : forall k, k <> i -> slot_at (slots g') k = slot_at (slots g) k) by (intros k Hne; by apply ring_slot_at_other).
  assert (Hsi : slot_at (slots g') i = f (slot_at (slots g) i)) by (by apply ring_slot_at_same).
  pose (back := fun x : nat + nat => match x with inl k => if decide (k = List.length (agents g)) then inr i else inl k | inr k => inr k end).
  assert (Hr : forall x t, reader g' x = Some t -> reader g (back x) = Some t /\ x <> inr i).
  { intros [k|k] t; cbn.
    - intros (c & Hk & Hc)%bind_Some. apply lookup_snoc in Hk as [Hk|[-> ->]].
      + rewrite decide_False by (apply lookup_lt_Some in Hk; lia). cbn. rewrite Hk. split; [|done]. rewrite <- Hc. cbn.
        pose proof (Hns k c Hk) as Hn. destruct c as [|i' p| |]; try done. destruct p; try done. cbn. f_equal. f_equal. symmetry. apply Hsl.
        intros ->. by apply Hn.
      + rewrite decide_True by done. cbn in Hc |- *. unfold pending_ticket. rewrite Hst. cbn. rewrite <- Hc. change (alter f i (slots g)) with (slots g').
        rewrite Hsi. done.
    - unfold pending_ticket. change (alter f i (slots g)) with (slots g'). destruct (decide (k = i)) as [->|Hne]; [by rewrite Hsi|].
      rewrite (Hsl k Hne). intros H. split; [exact H|]. congruence. }
  constructor; try apply Hinv.
  - apply unique_snoc; [apply Hinv|done].
  - apply unique_snoc; [apply Hinv|]. intros x k c [= <-] Hk. by apply (Hns k).
  - intros j k c d Hj Hk Hc Hd. apply lookup_snoc in Hj as [Hj|[-> ->]], Hk as [Hk|[-> ->]]; try done. by apply (inv_failing _ _ Hinv j k c d).
  - intros k j c Hk Hj. apply lookup_snoc in Hj as [Hj|[-> ->]]; [|done]. apply (inv_free _ _ Hinv k j c); [|done].
    destruct (decide (k = i)) as [->|Hne]; [by rewrite Hsi in Hk|]. by rewrite Hsl in Hk.
  - intros j c Hj. apply lookup_snoc in Hj as [Hj|[-> ->]].
    + pose proof (inv_agents _ _ Hinv j c Hj) as Hok. pose (e := Effect (hdr g) (Some (i, f)) c [] [] [] []).
      assert (Ha : agent_ok (after g e) c).
      { destruct (decide (owns c = Some i)) as [Ho|Ho].
        - apply (agent_ok_served g e c i f); try done; [by left|]. right. by left.
        - apply agent_ok_other; [|done]. intros k f' [= <- <-]. split; [done|]. by apply (Hns j). }
      unfold e in Ha. rewrite after_nil in Ha. exact Ha.
    + cbn. change (alter f i (slots g)) with (slots g'). rewrite Hsi. split; [done|].
      destruct (inv_slots _ _ Hinv i) as [Hp _]. exact (Hp Hst).
  - intros k. destruct (decide (k = i)) as [->|Hne]; [by rewrite Hsi|]. rewrite Hsl by done. apply (inv_slots _ _ Hinv k).
  - intros x y t [H1 N1]%Hr [H2 N2]%Hr. pose proof (inv_reader _ _ Hinv _ _ _ H1 H2) as E.
    destruct x as [k|k], y as [m|m]; cbn in E; repeat case_decide; congruence.
  - intros x t [H _]%Hr. by apply (inv_unread _ _ Hinv (back x) t).
  - apply unique_snoc; [apply Hinv|done].
  - intros j c t Hj Ht. apply lookup_snoc in Hj as [Hj|[-> ->]]; [by apply (inv_calling _ _ Hinv j c t)|done].
Qed.

Lemma unique_map {A B} (f : A -> option B) (m : A -> A) (l : list A) :
  unique (fun k => l !! k ≫= f) -> (forall a x, f (m a) = Some x -> f a = Some x) -> unique (fun k => map m l !! k ≫= f).
Proof.
  intros Hu Hm j k x Hj Hk. apply bind_Some in Hj as (c & Hj & Hc), Hk as (d & Hk & Hd).
  apply list_lookup_fmap_Some in Hj as (c' & -> & Hj), Hk as (d' & -> & Hk).
  apply (Hu j k x); cbv beta; [rewrite Hj|rewrite Hk]; cbn; auto.
Qed.

(** The worker dies or starts: agents lose roles only. *)
Lemma inv_map fs g h al m :
  inv fs g -> (forall a, owns (m a) = owns a) -> (forall a i, serves (m a) = Some i -> serves a = Some i) ->
  (forall a, failing (m a) = failing a) -> (forall l a t, unread l (m a) = Some t -> unread l a = Some t) -> (forall a, calling (m a) = calling a) ->
  (forall a, a ∈ agents g -> agent_ok g a -> agent_ok (set_hdr g h al (map m (agents g))) (m a)) -> inv fs (set_hdr g h al (map m (agents g))).
Proof.
  intros Hinv Ho Hs Hf Hu Hc Hok. set (g' := set_hdr _ _ _ _).
  assert (Hl : forall k b, agents g' !! k = Some b -> exists a, agents g !! k = Some a /\ b = m a).
  { intros k b (a & -> & Hk)%list_lookup_fmap_Some. eauto. }
  assert (Hr : forall x t, reader g' x = Some t -> reader g x = Some t).
  { intros [k|i] t; [|done]. cbn. intros (b & Hk & Hb)%bind_Some. apply Hl in Hk as (a & Hk & ->). rewrite Hk. by apply Hu. }
  constructor; try apply Hinv.
  - apply unique_map; [apply Hinv|]. intros a x. by rewrite Ho.
  - apply unique_map; [apply Hinv|auto].
  - intros j k c d Hj Hk. apply Hl in Hj as (a & Hj & ->), Hk as (b & Hk & ->). rewrite !Hf. by apply (inv_failing _ _ Hinv j k a b).
  - intros i j c Hi Hj. apply Hl in Hj as (a & Hj & ->). rewrite Ho. by apply (inv_free _ _ Hinv i j a).
  - intros j c Hj. apply Hl in Hj as (a & Hj & ->). apply Hok; [by eapply list_elem_of_lookup_2|]. by apply (inv_agents _ _ Hinv j a).
  - intros x y t H1%Hr H2%Hr. by apply (inv_reader _ _ Hinv x y t).
  - intros x t H%Hr. by apply (inv_unread _ _ Hinv x t).
  - apply unique_map; [apply Hinv|]. intros a x. by rewrite Hc.
  - intros j c t Hj. apply Hl in Hj as (a & Hj & ->). rewrite Hc. by apply (inv_calling _ _ Hinv j a t).
Qed.

Lemma inv_dies fs g h : inv fs g -> alive g = true -> inv fs (set_hdr g h false (map drop_job (agents g))).
Proof.
  intros Hinv Hal. apply inv_map; try done; try (by intros []).
  - by intros l [].
  - intros [tk ct c|i p|i p|] _ Hok; cbn in *; try done. destruct Hok as [H1 H2]. split; [|done].
    intros _. done.
Qed.

Lemma inv_starts fs g h :
  inv fs g -> alive g = false -> existsb failing (agents g) = false -> inv fs (set_hdr g h true (agents g)).
Proof.
  intros Hinv Hal Hnf. rewrite <- (map_id (agents g)). apply inv_map; try done.
  intros a Ha Hok. assert (Hn : failing a = false).
  { apply not_true_iff_false. intros H. rewrite <- not_true_iff_false, existsb_exists in Hnf. apply Hnf. exists a. split; [|done]. by apply list_elem_of_In. }
  destruct a as [tk ct c|i p|i p|]; cbn in *; try done.
  - destruct Hok as [H1 H2]. split; [|done]. intros Hp. split; [done|]. by apply H1.
  - by destruct p.
Qed.

Lemma ring_step_inv fs ch g g' : is_reclaim ch = false -> inv fs g -> step fs ch g = Some g' -> inv fs g'.
Proof.
  intros Hch Hinv H. destruct ch as [j o|tk ct|i| | | |inst]; cbn in H; try done.
  - destruct (agents g !! j) as [a|] eqn:Hj; [|done]. destruct (agent_step fs g a o) as [e|] eqn:E; [|done].
    injection H as <-. apply (ring_inv_move _ _ _ a); try done. apply (ring_agent_moves _ _ _ o); [|done]. constructor.
    + intros i Ho Hf. by apply (inv_free _ _ Hinv i j a).
    + by apply (inv_agents _ _ Hinv j).
    + apply (inv_slots _ _ Hinv).
    + intros r Hr. by apply (issued_below fs g).
  - injection H as <-. by apply inv_join.
  - destruct (alive g) eqn:Hal; [|done]. cbn in H. destruct (Z.eqb_spec (state (slot_at (slots g) i)) SAB_IO_SLOT_PENDING); [|done].
    injection H as <-. rewrite <- Hal. by apply inv_scan.
  - destruct (alive g) eqn:Hal; [|done]. injection H as <-. by apply inv_dies.
  - destruct (alive g) eqn:Hal; [done|]. cbn in H. destruct (existsb failing (agents g)) eqn:Hnf; [done|]. injection H as <-.
    rewrite <- Hal. by apply inv_join.
  - destruct (alive g) eqn:Hal; [done|]. cbn in H. destruct (existsb failing (agents g)) eqn:Hnf; [done|]. injection H as <-.
    by apply inv_starts.
Qed.

Lemma ring_run_inv fs cs g g' : Forall (fun ch => is_reclaim ch = false) cs -> inv fs g -> run fs cs g = Some g' -> inv fs g'.
Proof.
  revert g. induction cs as [|ch cs IH]; intros g Hcs Hinv H; cbn in H; [by injection H as <-|].
  apply Forall_cons_1 in Hcs as [Hch Hcs]. destruct (step fs ch g) as [g1|] eqn:E; [|done]. apply (IH g1); try done. by apply (ring_step_inv fs ch g).
Qed.

Lemma fresh_inv fs n d : inv fs (fresh_ring n d).
Proof.
  assert (Hs : forall i, state (slot_at (repeat (blank d) n) i) = SAB_IO_SLOT_FREE).
  { intros i. unfold slot_at. destruct (repeat (blank d) n !! i) as [s|] eqn:E; [|done].
    apply list_elem_of_lookup_2, list_elem_of_In, repeat_spec in E as ->. done. }
  assert (Hp : forall x t, reader (fresh_ring n d) x <> Some t).
  { intros [k|i] t; cbn; [done|]. unfold pending_ticket. by rewrite Hs. }
  constructor; cbn; try done.
  - intros i. unfold slot_ok. by rewrite Hs.
  - intros x y t H. by destruct (Hp x t).
  - intros x t H. by destruct (Hp x t).
  - split; [constructor|]. by intros t w x ?%elem_of_nil.
  - by intros t w ?%elem_of_nil.
  - split_and!; [constructor|done|]. by intros t w ?%elem_of_nil.
Qed.

(** ** What callers and the worker observe *)

(** C19. Requests on the I/O ring reach the worker intact: in every run without slot reclamation,
    of any number of clients, worker crashes and restarts included, the worker reads each request
    at most once, and what it reads in the slot (the words and the data area) is exactly what the
    caller of that request wrote, never a mixture with another request. *)
Theorem requests_are_read_as_written fs n d cs g :
  Forall (fun ch => is_reclaim ch = false) cs -> run fs cs (fresh_ring n d) = Some g ->
  NoDup (seen g).*1.*1 /\
  forall t w x, (t, w, x) ∈ seen g -> exists r, issued g !! t = Some r /\ w = to_wire (r_op r) (r_fields r) /\ exists x0, x = request_data (r_fields r) x0.
Proof.
  intros Hcs H. pose proof (ring_run_inv fs cs _ _ Hcs (fresh_inv fs n d) H) as Hinv. destruct (inv_seen _ _ Hinv) as [Hn Hs]. split; [done|].
  intros t w x Hx. apply Hs in Hx as (r & Hr & <- & Hw). exists r. split; [|done].
  apply list_elem_of_lookup in Hr as (k & Hk). by rewrite (inv_issued _ _ Hinv k r Hk).
Qed.

(** C20. A call on the I/O ring returns the reply to its own request: in every run without slot
    reclamation no request is answered twice, what the caller reads is a reply given to that
    request, and that reply is the worker's, after it has read the request, or the failure status
    the supervisor gives to the requests of a dead worker. *)
Theorem calls_get_their_reply fs n d cs g :
  Forall (fun ch => is_reclaim ch = false) cs -> run fs cs (fresh_ring n d) = Some g ->
  NoDup (results g).*1 /\
  forall t out, (t, out) ∈ results g ->
    (exists r, issued g !! t = Some r) /\ (t, out) ∈ replies g /\ (t ∈ (seen g).*1.*1 \/ failed fs out).
Proof.
  intros Hcs H. pose proof (ring_run_inv fs cs _ _ Hcs (fresh_inv fs n d) H) as Hinv. destruct (inv_results _ _ Hinv) as (Hn & Hs & Hr). split; [done|].
  intros t out Ht. split_and!.
  - destruct (Hr t out Ht) as (r & Hin & <-). exists r. apply list_elem_of_lookup in Hin as (k & Hk). by rewrite (inv_issued _ _ Hinv k r Hk).
  - by apply Hs.
  - by apply (inv_replies _ _ Hinv), Hs.
Qed.

(** Two clients share one slot; the second request is failed after the worker has died. *)
Definition moves_of (j n : nat) (o : answer) : list choice := repeat (Move j o) n.
Definition ask (instance : Z) (p : list Z) (st : Z) : answer :=
  Answer SAB_IO_OP_OPEN (Fields (Some instance) None (Some 3) None None false None (Some p) []) (st, Fin 7, [9; 9; 9; 9]) true.
Definition crash_run : list choice :=
  [StartWorker; NewClient 1 None; NewClient 2 (Some 0)] ++ moves_of 0 11 (ask 5 [97; 98] 0) ++ moves_of 1 5 (ask 6 [99] 0) ++
  [Scan 0] ++ moves_of 2 6 (ask 5 [] 40) ++ moves_of 0 8 (ask 5 [] 0) ++ moves_of 1 12 (ask 6 [99] 0) ++
  [WorkerDies; FailPending] ++ moves_of 3 6 (ask 0 [] 0) ++ moves_of 1 8 (ask 6 [] 0).
Definition shows (o : option ring) : option (list nat * list nat * list (nat * reply)) :=
  match o with Some g => Some ((seen g).*1.*1, map rid (issued g), results g) | None => None end.

Example crash_run_shows :
  shows (run (-9) crash_run (fresh_ring 1 4)) = Some ([0%nat], [0%nat; 1%nat], [(0%nat, (40, Fin 7, [9; 9; 9; 9])); (1%nat, (-9, Fin 0, [99; 9; 9; 9]))]).
Proof. vm_compute. reflexivity. Qed.
Definition crash_end : ring := default (fresh_ring 0 0) (run (-9) crash_run (fresh_ring 1 4)).

Lemma requests_are_read_as_written_witness :
  exists r, issued crash_end !! 0%nat = Some r /\ to_wire 1 (a_fields (ask 5 [97; 98] 0)) = to_wire (r_op r) (r_fields r) /\
    exists x0, [97; 98; 0; 0] = request_data (r_fields r) x0.
Proof.
  apply (proj2 (requests_are_read_as_written (-9) 1 4 crash_run crash_end ltac:(by repeat constructor) ltac:(vm_compute; reflexivity)) 0%nat).
  vm_compute. constructor.
Defined.

Lemma calls_get_their_reply_witness :
  (1%nat, (-9, Fin 0, [99; 9; 9; 9])) ∈ results crash_end /\
  ((exists r, issued crash_end !! 1%nat = Some r) /\ (1%nat, (-9, Fin 0, [99; 9; 9; 9])) ∈ replies crash_end /\
   (1%nat ∈ (seen crash_end).*1.*1 \/ failed (-9) (-9, Fin 0, [99; 9; 9; 9]))).
Proof.
  assert (H : (1%nat, (-9, Fin 0, [99; 9; 9; 9])) ∈ results crash_end) by (vm_compute; repeat constructor).
  split; [exact H|].
  exact (proj2 (calls_get_their_reply (-9) 1 4 crash_run crash_end ltac:(by repeat constructor) ltac:(vm_compute; reflexivity)) _ _ H).
Defined.

(** Reclaiming goes by the instance of the last request written to a slot, also when the slot has
    been claimed since: in this run the slot of a live client is freed, another client claims it,
    and the first one's request overwrites the reply to the second one's. *)
Definition reclaim_run : list choice :=
  [StartWorker; NewClient 1 None; NewClient 2 None; NewClient 3 None] ++
  moves_of 0 11 (ask 5 [97] 0) ++ [Scan 0] ++ moves_of 3 6 (ask 5 [] 40) ++ moves_of 0 8 (ask 5 [] 0) ++
  moves_of 1 4 (ask 6 [98] 0) ++ [Reclaim 5] ++ moves_of 4 6 (ask 0 [] 0) ++
  moves_of 2 11 (ask 6 [99] 0) ++ [Scan 0] ++ moves_of 5 6 (ask 6 [] (-5)) ++ moves_of 2 2 (ask 6 [] 0) ++
  moves_of 1 3 (ask 6 [98] 0) ++ moves_of 2 6 (ask 6 [] 0).

(** Reclaiming the slots of an instance that is gone can corrupt a live one: some run with
    one reclamation, of an instance none of whose calls is under way, ends with a caller that
    reads success for a request that was answered with a failure, and with no other answer. *)
Theorem reclaim_corrupts_a_live_call :
  exists g, run (-9) reclaim_run (fresh_ring 1 4) = Some g /\
    (exists out, (2%nat, out) ∈ results g /\ out.1.1 = 0) /\ forall out, (2%nat, out) ∈ replies g -> out.1.1 = -5.
Proof.
  eexists. split; [vm_compute; reflexivity|]. split.
  - eexists. split; [cbn; apply list_elem_of_further, list_elem_of_here|reflexivity].
  - cbn. intros out H. rewrite !elem_of_cons in H. destruct H as [[= ]|[[= ->]|H]]; [done|]. by apply elem_of_nil in H.
Qed.
