(* ===== verification/IoClient.v ===== *)
(** The methods of the blocking and the asynchronous client of the I/O channel (src/host/sabIoChannel.js,
    [createSabIoClient] and [createSabIoAsyncClient]), above the round trip of IoRing.v.

    A [Transport] makes one request and gives its reply; clients whose memory the worker cannot reach move
    their bytes through the data area of a slot, piece by piece. Against any transport that reads and writes a
    file ([FileTransport]) the pieces are one read and one write; the I/O server of IoServer.v is one. *)
From Stdlib Require Import ZArith QArith Lia.
From stdpp Require Import base list strings numbers.
From S2P Require Import Prelude JsText JsMap IoContract IoChannel IoRing MemoryBackend IoServer IoServerMemory IoServerTransfer.
Open Scope Z_scope.

(** ** The channel as a client sees it *)

(** [request] is a round trip: the reply is the status, the number, and the data area of the slot; [memory] is the
    memory of the calling instance, if it has one. *)
Class Transport (S : Type) := {
  request : S -> Z -> IoRing.fields -> IoRing.reply * S;
  area_bytes : Z;
  instance_word : S -> Z -> Z;
  memory : S -> option (list Z);
  set_memory : S -> list Z -> S
}.

Section client.
Context {S : Type} `{!Transport S} (instanceId : Z).
Implicit Types s : S.

Definition attached s : bool :=
  negb (instanceId =? SAB_IO_SCRATCH_INSTANCE) && (instance_word s instanceId =? SAB_IO_INSTANCE_ATTACHED).
Definition revoked s : bool :=
  negb (instanceId =? SAB_IO_SCRATCH_INSTANCE) &&
  ((instance_word s instanceId =? SAB_IO_INSTANCE_REVOKING) || (instance_word s instanceId =? SAB_IO_INSTANCE_REVOKED)).

(** A request for [n] bytes at [a] through the data area, which starts with [bytes]. *)
Definition slot_fields (h n a : Z) (bytes : list Z) : IoRing.fields :=
  IoRing.Fields (Some instanceId) (Some h) None (Some 0) (Some n) true (Some (int_num a)) None bytes.
(** A request for [n] bytes at [a] of the file to or from the memory of the instance. *)
Definition memory_fields (h p n a : Z) : IoRing.fields :=
  IoRing.Fields (Some instanceId) (Some h) None (Some p) (Some n) false (Some (int_num a)) None [].

(** The loop of [scratchTransfer]: the result, the caller's view after it. Each round moves a byte or is the last,
    so the length of the view is enough fuel. *)
Fixpoint scratch_loop (fuel : nat) s (op h : Z) (view : list Z) (offset done : Z) : Prelude.result Z * list Z * S :=
  match fuel with
  | O => (Ok done, view, s)
  | Datatypes.S fuel =>
      if done <? blen view then
        let piece := Z.min area_bytes (blen view - done) in
        let bytes := if op =? SAB_IO_OP_WRITE then subarray view done (done + piece) else [] in
        let '((status, _, data), s) := request s op (slot_fields h piece (offset + done) bytes) in
        let got := subarray data 0 status in
        if (op =? SAB_IO_OP_READ) && (0 <? status) && (blen view <? done + blen got) then (Throw (RangeError "offset is out of bounds"), view, s)
        else
          let view := if (op =? SAB_IO_OP_READ) && (0 <? status) then put_at view got done else view in
          if status <? 0 then (Ok (if (0 <? done) && (op =? SAB_IO_OP_READ) then done else status), view, s)
          else if status <? piece then (Ok (done + status), view, s)
          else scratch_loop fuel s op h view offset (done + status)
      else (Ok done, view, s)
  end.
Definition scratchTransfer s (op h : Z) (view : list Z) (offset : Z) : Prelude.result Z * list Z * S :=
  scratch_loop (List.length view) s op h view offset 0.

Definition memoryView s (p len : Z) : option (list Z) :=
  match memory s with
  | None => None
  | Some m => if (p <? 0) || (len <? 0) || (blen m <? p + len) then None else Some (subarray m p (p + len))
  end.
Definition refused s : Z := if revoked s then FLATSQL_IO_ERR_ACCESS else FLATSQL_IO_ERR_GENERIC.

Definition open s (path : list Z) (flags : Z) : Z * S :=
  if bool_decide (path = []) then (FLATSQL_IO_ERR_GENERIC, s)
  else if Z.min area_bytes FLATSQL_IO_MAX_PATH_BYTES <? blen path then (FLATSQL_IO_ERR_GENERIC, s)
  else let '((status, _, _), s) := request s SAB_IO_OP_OPEN (IoRing.Fields (Some instanceId) None (Some (to_int32 flags)) None None false None (Some path) []) in
       (status, s).

Definition read s (h p len offset : Z) : Prelude.result Z * S :=
  if len =? 0 then (Ok 0, s)
  else if attached s then
    let '((status, _, _), s) := request s SAB_IO_OP_READ (memory_fields h p len offset) in (Ok status, s)
  else match memoryView s p len with
       | None => (Ok (refused s), s)
       | Some view =>
           let '(r, view, s) := scratchTransfer s SAB_IO_OP_READ h view offset in
           (r, match memory s with Some m => set_memory s (put_at m view p) | None => s end)
       end.
Definition write s (h p len offset : Z) : Prelude.result Z * S :=
  if len =? 0 then (Ok 0, s)
  else if attached s then
    let '((status, _, _), s) := request s SAB_IO_OP_WRITE (memory_fields h p len offset) in (Ok status, s)
  else match memoryView s p len with
       | None => (Ok (refused s), s)
       | Some view => let '(r, _, s) := scratchTransfer s SAB_IO_OP_WRITE h view offset in (r, s)
       end.

(** A plain array as the view. *)
Definition readInto s (h : Z) (view : list Z) (offset : Z) : Prelude.result Z * list Z * S :=
  if blen view =? 0 then (Ok 0, view, s) else scratchTransfer s SAB_IO_OP_READ h view offset.
Definition writeFrom s (h : Z) (view : list Z) (offset : Z) : Prelude.result Z * S :=
  if blen view =? 0 then (Ok 0, s) else let '(r, _, s) := scratchTransfer s SAB_IO_OP_WRITE h view offset in (r, s).

Definition handle_fields (h : Z) (offset : option jsnum) : IoRing.fields :=
  IoRing.Fields (Some instanceId) (Some h) None None None false offset None [].
Definition truncate s (h : Z) (size : jsnum) : Z * S :=
  let '((status, _, _), s) := request s SAB_IO_OP_TRUNCATE (handle_fields h (Some size)) in (status, s).
Definition sync s (h : Z) : Z * S := let '((status, _, _), s) := request s SAB_IO_OP_SYNC (handle_fields h None) in (status, s).
Definition size s (h : Z) : jsnum * S :=
  let '((status, result, _), s) := request s SAB_IO_OP_SIZE (handle_fields h None) in (if status <? 0 then int_num status else result, s).
Definition close s (h : Z) : Z * S := let '((status, _, _), s) := request s SAB_IO_OP_CLOSE (handle_fields h None) in (status, s).

(** The asynchronous client: the bytes read, or a negative status. *)
Definition async_read s (h length offset : Z) : Prelude.result (list Z + Z) * S :=
  let '(r, out, s) := scratchTransfer s SAB_IO_OP_READ h (zeros length) offset in
  (match r with Throw e => Throw e | Ok n => Ok (if n <? 0 then inr n else inl (subarray out 0 n)) end, s).
Definition async_write s (h : Z) (bytes : list Z) (offset : Z) : Prelude.result Z * S :=
  let '(r, _, s) := scratchTransfer s SAB_IO_OP_WRITE h bytes offset in (r, s).
End client.

(** ** Transfers through the data area *)

(** A transport on which handle [h] of instance [i] is a file with content [c]: a read through the data area gives
    the bytes of the content, a write replaces them or fails with at most a prefix written. *)
Class FileTransport (S : Type) `{!Transport S} := {
  file_at : S -> Z -> Z -> list Z -> Prop;
  area_positive : 0 < area_bytes;
  read_contract s i h c n a : file_at s i h c -> 0 <= n <= area_bytes -> 0 <= a ->
    let r := subarray c a (a + n) in
    let '((st, _, d), s') := request s SAB_IO_OP_READ (slot_fields i h n a []) in
    st = blen r /\ subarray d 0 st = r /\ file_at s' i h c /\ memory s' = memory s;
  write_contract s i h c v a : file_at s i h c -> blen v <= area_bytes -> 0 <= a ->
    let '((st, _, d), s') := request s SAB_IO_OP_WRITE (slot_fields i h (blen v) a v) in
    memory s' = memory s /\
    (st = blen v /\ file_at s' i h (written c v a) \/
     st < 0 /\ (file_at s' i h c \/ exists k, 0 < k < blen v /\ file_at s' i h (written c (subarray v 0 k) a)));
  memory_law s m : memory s <> None -> memory (set_memory s m) = Some m;
  memory_frame s i h c m : file_at s i h c -> file_at (set_memory s m) i h c
}.

Section transfers.
Context {S : Type} `{!Transport S} `{!FileTransport S} (instanceId : Z).
Implicit Types s : S.

Lemma scratch_reads fuel : forall s h c view offset done,
  file_at s instanceId h c -> 0 <= offset -> 0 <= done <= blen view -> blen view - done <= Z.of_nat fuel ->
  let r := subarray c (offset + done) (offset + blen view) in
  exists s', scratch_loop instanceId fuel s SAB_IO_OP_READ h view offset done = (Ok (done + blen r), put_at view r done, s') /\
    file_at s' instanceId h c /\ memory s' = memory s.
Proof.
  pose proof area_positive as Harea.
  induction fuel as [|fuel IH]; intros s h c view offset done Hf Hoff Hd Hfuel r; cbn [scratch_loop].
  { assert (r = []) as ->. { unfold r. replace (offset + blen view) with (offset + done) by lia. rewrite subarray_take by lia. by rewrite Z.sub_diag. }
    rewrite put_at_nil by lia. exists s. by rewrite blen_nil, Z.add_0_r. }
  destruct (Z.ltb_spec done (blen view)) as [Hmore|Hend].
  2: { assert (r = []) as ->. { unfold r. replace (offset + blen view) with (offset + done) by lia. rewrite subarray_take by lia. by rewrite Z.sub_diag. }
    rewrite put_at_nil by lia. exists s. by rewrite blen_nil, Z.add_0_r. }
  set (piece := Z.min area_bytes (blen view - done)). cbn [Z.eqb Pos.eqb SAB_IO_OP_READ SAB_IO_OP_WRITE andb].
  pose proof (read_contract s instanceId h c piece (offset + done) Hf ltac:(lia) ltac:(lia)) as Hc. cbv zeta in Hc.
  destruct (request s SAB_IO_OP_READ _) as [[[st x] d] s1].
  set (r1 := subarray c (offset + done) (offset + done + piece)) in Hc. destruct Hc as (-> & -> & Hf1 & Hm1).
  pose proof (blen_subarray_le c (offset + done) (offset + done + piece) ltac:(lia)) as Hr1. fold r1 in Hr1. pose proof (blen_nonneg r1).
  destruct (Z.ltb_spec (blen view) (done + blen r1)); [lia|]. rewrite andb_false_r.
  assert (Hview : (if 0 <? blen r1 then put_at view r1 done else view) = put_at view r1 done).
  { destruct (Z.ltb_spec 0 (blen r1)); [done|]. assert (blen r1 = 0) as ->%blen_0 by lia. by rewrite put_at_nil by lia. }
  rewrite Hview. destruct (Z.ltb_spec (blen r1) 0); [lia|].
  destruct (Z.ltb_spec (blen r1) piece) as [Hshort|Hfull].
  - assert (r = r1) as -> by (apply subarray_short; [lia|lia|fold r1; lia]). by exists s1.
  - assert (Hb : blen (put_at view r1 done) = blen view) by (apply blen_put_at; lia).
    destruct (IH s1 h c (put_at view r1 done) offset (done + blen r1) Hf1 Hoff ltac:(lia) ltac:(lia)) as (s' & E & Hf' & Hm').
    exists s'. rewrite E. split; [|split; [done|congruence]].
    assert (Hr : r = r1 ++ subarray c (offset + (done + blen r1)) (offset + blen view)).
    { unfold r. rewrite (subarray_join c _ (offset + done + piece)) by lia. fold r1. do 2 f_equal. lia. }
    pose proof (blen_subarray_le c (offset + (done + blen r1)) (offset + blen view) ltac:(lia)).
    rewrite Hb. rewrite put_at_join by lia. rewrite <- Hr. do 3 f_equal. rewrite Hr, blen_app. lia.
Qed.

Lemma scratch_stops fuel s op h view offset done : blen view <= done -> scratch_loop instanceId fuel s op h view offset done = (Ok done, view, s).
Proof. intros H. destruct fuel; [done|]. cbn [scratch_loop]. by destruct (Z.ltb_spec done (blen view)); [lia|]. Qed.

(** The content after the bytes of the view from [done] up to [k] have been written. *)
Definition upto (c view : list Z) (offset done k : Z) : list Z := written c (subarray view done k) (offset + done).

Lemma scratch_writes fuel : forall s h c view offset done,
  file_at s instanceId h c -> 0 <= offset -> 0 <= done < blen view -> blen view - done <= Z.of_nat fuel ->
  exists s' n, scratch_loop instanceId fuel s SAB_IO_OP_WRITE h view offset done = (Ok n, view, s') /\ memory s' = memory s /\
    (n = blen view /\ file_at s' instanceId h (upto c view offset done (blen view)) \/
     n < 0 /\ (file_at s' instanceId h c \/ exists k, done < k < blen view /\ file_at s' instanceId h (upto c view offset done k))).
Proof.
  pose proof area_positive as Harea.
  induction fuel as [|fuel IH]; intros s h c view offset done Hf Hoff Hd Hfuel; [lia|]. cbn [scratch_loop].
  destruct (Z.ltb_spec done (blen view)) as [_|?]; [|lia].
  set (piece := Z.min area_bytes (blen view - done)). cbn [Z.eqb Pos.eqb SAB_IO_OP_READ SAB_IO_OP_WRITE andb].
  set (v := subarray view done (done + piece)). assert (Hv : blen v = piece) by (unfold v; rewrite blen_subarray by lia; lia).
  pose proof (write_contract s instanceId h c v (offset + done) Hf ltac:(lia) ltac:(lia)) as Hc. rewrite Hv in Hc.
  destruct (request s SAB_IO_OP_WRITE _) as [[[st x] d] s1]. destruct Hc as [Hm1 [[-> Hf1]|[Hst Hf1]]].
  - destruct (Z.ltb_spec piece 0); [lia|]. destruct (Z.ltb_spec piece piece); [lia|].
    assert (Hu : written c v (offset + done) = upto c view offset done (done + piece)) by done.
    destruct (Z_le_gt_dec (blen view) (done + piece)) as [Hall|Hmore].
    + rewrite scratch_stops by lia. exists s1, (done + piece). split_and!; [done..|]. left. split; [lia|]. rewrite Hu in Hf1. by replace (blen view) with (done + piece) by lia.
    + destruct (IH s1 h _ view offset (done + piece) Hf1 Hoff ltac:(lia) ltac:(lia)) as (s' & n & E & Hm' & Hn).
      exists s', n. split_and!; [done|congruence|].
      assert (Hj : forall k, done + piece <= k <= blen view -> upto (written c v (offset + done)) view offset (done + piece) k = upto c view offset done k).
      { intros k Hk. unfold upto. replace (offset + (done + piece)) with (offset + done + blen v) by lia. rewrite written_join by lia.
        unfold v. by rewrite <- subarray_join by lia. }
      destruct Hn as [[-> Hn]|[Hneg Hn]]; [left; split; [done|]; by rewrite Hj in Hn by lia|right]. split; [done|]. right. destruct Hn as [Hn|(k & Hk & Hn)].
      * exists (done + piece). split; [lia|]. by rewrite <- Hu.
      * exists k. split; [lia|]. by rewrite Hj in Hn by lia.
  - destruct (Z.ltb_spec st 0); [|lia]. rewrite andb_false_r. exists s1, st. split_and!; [done..|]. right. split; [done|].
    destruct Hf1 as [Hf1|(k & Hk & Hf1)]; [by left|right]. exists (done + k). split; [lia|]. unfold upto.
    replace (subarray view done (done + k)) with (subarray v 0 k); [done|]. unfold v. rewrite !subarray_take by lia. rewrite drop_0, take_take. f_equal. lia.
Qed.

Lemma view_of (m : list Z) p n : 0 <= p -> 0 <= n -> p + n <= blen m -> blen (subarray m p (p + n)) = n.
Proof. intros. rewrite blen_subarray by lia. lia. Qed.

Lemma put_view (m r : list Z) p n : 0 <= p -> blen r <= n -> p + n <= blen m ->
  put_at m (put_at (subarray m p (p + n)) r 0) p = put_at m r p.
Proof.
  intros Hp Hr Hm. pose proof (blen_nonneg r). destruct (buffer_cut m p n Hp ltac:(lia) Hm) as (x & y & z & -> & Hx & Hy).
  assert (Hs : subarray (x ++ y ++ z) p (p + n) = y) by (apply subarray_app; lia). rewrite Hs.
  destruct (split_len y (blen r)) as (y1 & y2 & -> & Hy1); [lia|].
  assert (Hput : put_at (y1 ++ y2) r 0 = r ++ y2) by (apply (put_at_split [] y1 y2); [done|lia]). rewrite Hput.
  rewrite (put_at_split x (y1 ++ y2) z) by (rewrite ?blen_app in *; lia). rewrite <- !app_assoc. by rewrite (put_at_split x y1) by lia.
Qed.

Lemma memory_view_at s m p len : memory s = Some m -> 0 <= p -> 0 <= len -> p + len <= blen m -> memoryView s p len = Some (subarray m p (p + len)).
Proof. intros Hm Hp Hlen Hb. unfold memoryView. rewrite Hm. by destruct (Z.ltb_spec p 0), (Z.ltb_spec len 0), (Z.ltb_spec (blen m) (p + len)); try lia. Qed.

Lemma client_reads s h c m p len offset :
  file_at s instanceId h c -> attached instanceId s = false -> memory s = Some m -> 0 <= p -> 0 < len -> p + len <= blen m -> 0 <= offset ->
  let r := subarray c offset (offset + len) in
  exists s', read instanceId s h p len offset = (Ok (blen r), s') /\ memory s' = Some (put_at m r p) /\ file_at s' instanceId h c.
Proof.
  intros Hf Ha Hm Hp Hlen Hb Hoff r. assert (Hvl : blen (subarray m p (p + len)) = len) by (apply view_of; lia).
  unfold read. rewrite Ha, (memory_view_at s m) by (done || lia). destruct (Z.eqb_spec len 0) as [?|_]; [lia|]. unfold scratchTransfer.
  destruct (scratch_reads (List.length (subarray m p (p + len))) s h c (subarray m p (p + len)) offset 0 Hf Hoff ltac:(lia) ltac:(unfold blen; lia)) as (s' & -> & Hf' & Hm').
  rewrite Hvl, !Z.add_0_r, Z.add_0_l. fold r. rewrite Hm', Hm. eexists. split; [done|]. split; [|by apply memory_frame].
  rewrite memory_law by congruence. f_equal. apply put_view; [done| |done]. pose proof (blen_subarray_le c offset (offset + len) ltac:(lia)) as Hr. fold r in Hr. lia.
Qed.

Lemma client_writes s h c m p len offset :
  file_at s instanceId h c -> attached instanceId s = false -> memory s = Some m -> 0 <= p -> 0 < len -> p + len <= blen m -> 0 <= offset ->
  let view k := subarray m p (p + k) in
  exists s' n, write instanceId s h p len offset = (Ok n, s') /\ memory s' = Some m /\
    (n = len /\ file_at s' instanceId h (written c (view len) offset) \/
     n < 0 /\ (file_at s' instanceId h c \/ exists k, 0 < k < len /\ file_at s' instanceId h (written c (view k) offset))).
Proof.
  intros Hf Ha Hm Hp Hlen Hb Hoff view. assert (Hvl : blen (view len) = len) by (apply view_of; lia).
  unfold write. rewrite Ha, (memory_view_at s m) by (done || lia). fold (view len). destruct (Z.eqb_spec len 0) as [?|_]; [lia|]. unfold scratchTransfer.
  destruct (scratch_writes (List.length (view len)) s h c (view len) offset 0 Hf Hoff ltac:(lia) ltac:(unfold blen; lia)) as (s' & n & -> & Hm' & Hn).
  exists s', n. split; [done|]. split; [congruence|]. unfold upto in Hn. rewrite Z.add_0_r in Hn. rewrite Hvl in Hn.
  assert (Hsub : forall k, 0 <= k <= len -> subarray (view len) 0 k = view k).
  { intros k Hk. unfold view. rewrite !subarray_take by lia. rewrite drop_0, take_take. f_equal. lia. }
  destruct Hn as [[-> Hn]|[Hneg Hn]]; [left; split; [done|]; by rewrite Hsub in Hn by lia|right]. split; [done|].
  destruct Hn as [Hn|(k & Hk & Hn)]; [by left|right]. exists k. split; [done|]. by rewrite Hsub in Hn by lia.
Qed.

(** A client whose memory the worker cannot reach reads and writes files as if it could: however small the data
    area of a slot is, a read returns the number of bytes one read of the file at that offset gives, and they are in
    the caller's memory at its pointer with nothing else changed; a write returns the length and leaves the file as one
    write of the whole range would, or returns an error status with the file unchanged or a prefix written. *)
Theorem scratch_transfers_are_single s h c m p len offset :
  file_at s instanceId h c -> attached instanceId s = false -> memory s = Some m -> 0 <= p -> 0 < len -> p + len <= blen m -> 0 <= offset ->
  let r := subarray c offset (offset + len) in
  let view k := subarray m p (p + k) in
  (exists s', read instanceId s h p len offset = (Ok (blen r), s') /\ memory s' = Some (put_at m r p) /\ file_at s' instanceId h c) /\
  (exists s' n, write instanceId s h p len offset = (Ok n, s') /\ memory s' = Some m /\
     (n = len /\ file_at s' instanceId h (written c (view len) offset) \/
      n < 0 /\ (file_at s' instanceId h c \/ exists k, 0 < k < len /\ file_at s' instanceId h (written c (view k) offset)))).
Proof. intros Hf Ha Hm Hp Hlen Hb Hoff. split; [by apply client_reads|by apply client_writes]. Qed.
End transfers.

(** ** The I/O server as a transport *)

Section server.
Context {B F M : Type} `{!IoBackend B F} `{!FileContract B F} `{!IoMirror M} (chunkBytes area : Z) (Hchunk : 0 < chunkBytes) (Harea : 0 < area < 2 ^ 31).
Abbreviation world := (@server B F M * list Z)%type.

(** The job the server makes of a request in slot 0. *)
Definition job_of (op : Z) (f : IoRing.fields) : job :=
  let w := to_wire op f in
  makeJob 0 (w_op w) (w_instance w) (w_handle w) (w_flags w) (w_ptr w) (w_len w) (w_mode w) (w_path_len w) (default 0 (as_integer (w_offset w))).

(** A request that is served alone: the client fills the slot, the server runs the job to its end. *)
Definition serve_request (w : world) (op : Z) (f : IoRing.fields) : IoRing.reply * world :=
  let s := w.1 in
  let s := with_instances s (instances s) (memories s) (<[0%nat := request_data f (default [] (areas s !! 0%nat))]> (areas s)) in
  let j := job_of op f in
  match serve chunkBytes (turns_for chunkBytes j) s j with
  | Some s' => match list.last (completed s') with
               | Some (_, status, x) => ((to_int32 status, int_num x, default [] (areas s' !! 0%nat)), (s', w.2))
               | None => ((0, Fin 0, []), (s', w.2))
               end
  | None => ((0, Fin 0, []), (s, w.2))
  end.

Definition server_transport : Transport world := {|
  request := serve_request; area_bytes := area; instance_word w i := instanceState w.1 i; memory w := Some w.2; set_memory w m := (w.1, m)
|}.

(** Handle [h] of instance [i] is open on a file with content [c], for reading and writing. *)
Record holds_file (s : @server B F M) (i h : Z) (c : list Z) : Prop := {
  hf_small : to_int32 i = i /\ to_int32 h = h;
  hf_revoked : isRevoked s i = false;
  hf_area : exists d, areas s !! 0%nat = Some d /\ blen d = area;
  hf_handle : exists hd f, map_get (handles s) h = Some hd /\ canRead hd = true /\ canWrite hd = true /\
    opening (entry_at s (hentry hd)) = false /\ openStatus (entry_at s (hentry hd)) = 0 /\ file (entry_at s (hentry hd)) = Some f /\ has_content (bk s) f c
}.

Lemma holds_file_same s s' i h c c' hd f d : holds_file s i h c -> same_handles s s' -> map_get (handles s) h = Some hd ->
  file (entry_at s (hentry hd)) = Some f -> has_content (bk s') f c' -> areas s' !! 0%nat = Some d -> blen d = area -> holds_file s' i h c'.
Proof.
  intros [H1 H2 H3 (hd' & f' & G1 & G2 & G3 & G4 & G5 & G6 & G7)] (E1 & E2 & E3) Hh Hf Hc Hd Hb.
  rewrite G1 in Hh. injection Hh as ->. assert (Hat : forall e, entry_at s' e = entry_at s e) by (intros e; unfold entry_at; by rewrite E2).
  constructor; [done| |by exists d|].
  - unfold isRevoked, instanceState, IoServer.maxInstances in *. by rewrite E3.
  - exists hd, f. rewrite E1, !Hat. split_and!; done.
Qed.

Lemma set_front_blen d v : blen v <= blen d -> blen (set_front d v) = blen d.
Proof.
  intros H. unfold set_front, subarray_from, rel_index. pose proof (blen_nonneg v). destruct (Z.ltb_spec (blen v) 0); [lia|]. rewrite Z.min_l by lia.
  rewrite blen_app. unfold blen in *. rewrite length_drop. lia.
Qed.
Lemma set_front_nil d : set_front d [] = d.
Proof. unfold set_front, subarray_from, rel_index. cbn. rewrite Z.min_l by apply blen_nonneg. by rewrite drop_0. Qed.

(** The server works on a request of a client that holds a file. *)
Lemma request_serving s i h c n a v op : holds_file s i h c -> op = SAB_IO_OP_READ \/ op = SAB_IO_OP_WRITE -> 0 <= n <= area -> blen v <= area ->
  exists hd f d, let j := job_of op (slot_fields i h n a v) in
    let s0 := with_instances s (instances s) (memories s) (<[0%nat := set_front d v]> (areas s)) in
    areas s !! 0%nat = Some d /\ blen d = area /\ map_get (handles s) h = Some hd /\ file (entry_at s (hentry hd)) = Some f /\ has_content (bk s) f c /\
    canRead hd = true /\ canWrite hd = true /\ IoServer.op j = op /\ IoServer.slot j = 0%nat /\ IoServer.ptr j = 0 /\ IoServer.len j = n /\ IoServer.offset j = a /\
    done_ j = 0 /\ dataMode j = SAB_IO_DATA_SLOT /\ serving s0 j hd f (set_front d v).
Proof.
  intros [[Hi Hh] H2 (d & Hd & Hb) (hd & f & G1 & G2 & G3 & G4 & G5 & G6 & G7)] Ho Hn Hv. exists hd, f, d. cbv zeta.
  assert (Hop : to_int32 op = op) by (destruct Ho as [-> | ->]; done).
  assert (Hlen : to_int32 n = n) by (apply to_int32_small; lia).
  assert (Hoff : default 0 (as_integer (int_num a)) = a) by (by rewrite as_integer_int).
  assert (Hblen : blen (set_front d v) = area) by (rewrite set_front_blen by lia; done).
  unfold job_of, makeJob, slot_fields, to_wire. cbn [w_op w_instance w_handle w_flags w_ptr w_len w_mode w_path_len w_offset IoRing.instanceId IoRing.handle
    IoRing.flags IoRing.ptr IoRing.len IoRing.dataInSlot IoRing.offset IoRing.path or_default].
  rewrite Hop, Hi, Hh, Hlen. change (to_int32 0) with 0.
  split_and!; try done. constructor; try done. unfold resolveView. cbn [IoServer.len IoServer.ptr dataMode IoServer.slot buffer_of].
  destruct (Z.ltb_spec n 0); [lia|]. cbn [Z.ltb orb]. unfold buffer_of. cbn.
  rewrite list_lookup_insert_eq by (by eapply lookup_lt_Some). rewrite Hblen. by destruct (Z.ltb_spec area (0 + n)); [lia|].
Qed.

Lemma to_int32_negative z : - 2 ^ 31 <= z < 0 -> to_int32 z = z.
Proof.
  intros Hz. unfold to_int32. rewrite <- (Z_mod_plus z 1 (2 ^ 32)) by lia. rewrite Z.mod_small by lia. destruct (Z.ltb_spec (z + 1 * 2 ^ 32) (2 ^ 31)); lia.
Qed.

(** What a request is answered with once its job has run to its end. *)
Lemma serve_request_reply (w : world) op i h n a v d s' status :
  let s := w.1 in let s0 := with_instances s (instances s) (memories s) (<[0%nat := set_front d v]> (areas s)) in
  let j := job_of op (slot_fields i h n a v) in
  areas s !! 0%nat = Some d -> serve chunkBytes (turns_for chunkBytes j) s0 j = Some s' -> completed s' = completed s ++ [(0%nat, status, 0)] ->
  serve_request w op (slot_fields i h n a v) = ((to_int32 status, int_num 0, default [] (areas s' !! 0%nat)), (s', w.2)).
Proof.
  intros s s0 j Hd Hs Hc. unfold serve_request. fold s. rewrite Hd. change (request_data _ _) with (set_front d v).
  fold s0. fold j. by rewrite Hs, Hc, last_snoc.
Qed.

#[local] Existing Instance server_transport.

Lemma server_reads (w : world) i h c n a : holds_file w.1 i h c -> 0 <= n <= area -> 0 <= a ->
  let r := subarray c a (a + n) in
  let '((st, _, d), w') := serve_request w SAB_IO_OP_READ (slot_fields i h n a []) in
  st = blen r /\ subarray d 0 st = r /\ holds_file w'.1 i h c /\ w'.2 = w.2.
Proof.
  intros Hf Hn Ha r. destruct (request_serving w.1 i h c n a [] SAB_IO_OP_READ Hf (or_introl eq_refl) Hn) as
    (hd & f & d & Hd & Hb & Hh & Hfile & Hc & Hcr & Hcw & J1 & J2 & J3 & J4 & J5 & J6 & J7 & Hs); [rewrite blen_nil; lia|].
  rewrite set_front_nil in Hs. set (j := job_of _ _) in *. set (s0 := with_instances _ _ _ _) in Hs.
  destruct (serve_read chunkBytes Hchunk (turns_for chunkBytes j) s0 j hd f c d Hs J1 Hcr Hc ltac:(lia) ltac:(lia)) as (s' & E1 & E2 & E3 & E4 & E5);
    [unfold turns_for; lia|rewrite J6, Z.sub_0_r; apply turns_enough; lia|].
  rewrite J3, J4, J5, J6, !Z.add_0_r, ?Z.add_0_l in *. fold r in E2, E3. rewrite J2 in E2.
  rewrite (serve_request_reply w SAB_IO_OP_READ i h n a [] d s' (blen r) Hd); [|rewrite set_front_nil; exact E1|exact E2].
  assert (Hr : 0 <= blen r <= n) by (pose proof (blen_subarray_le c a (a + n) ltac:(lia)) as H; fold r in H; pose proof (blen_nonneg r); lia).
  unfold buffer_of in E3. rewrite J7, J2 in E3. cbn in E3. rewrite E3. cbn [default]. rewrite to_int32_small by lia.
  destruct (split_len d (blen r)) as (d1 & d2 & -> & Hd1); [lia|].
  assert (Hput : put_at (d1 ++ d2) r 0 = r ++ d2) by (apply (put_at_split [] d1 d2); [done|lia]). rewrite Hput in *.
  split_and!; [done|by apply (subarray_app [])| |done].
  cbn. apply (holds_file_same w.1 s' i h c c hd f (r ++ d2)); try done; [by rewrite E4|rewrite !blen_app in *; lia].
Qed.

Lemma server_writes (w : world) i h c v a : holds_file w.1 i h c -> blen v <= area -> 0 <= a ->
  let '((st, _, d), w') := serve_request w SAB_IO_OP_WRITE (slot_fields i h (blen v) a v) in
  w'.2 = w.2 /\
  (st = blen v /\ holds_file w'.1 i h (MemoryBackend.written c v a) \/
   st < 0 /\ (holds_file w'.1 i h c \/ exists k, 0 < k < blen v /\ holds_file w'.1 i h (MemoryBackend.written c (subarray v 0 k) a))).
Proof.
  intros Hf Hn Ha. pose proof (blen_nonneg v) as Hv0. destruct (request_serving w.1 i h c (blen v) a v SAB_IO_OP_WRITE Hf (or_intror eq_refl)) as
    (hd & f & d & Hd & Hb & Hh & Hfile & Hc & Hcr & Hcw & J1 & J2 & J3 & J4 & J5 & J6 & J7 & Hs); [lia..|].
  set (j := job_of _ _) in *. set (s0 := with_instances _ _ _ _) in Hs.
  destruct (serve_write chunkBytes Hchunk (turns_for chunkBytes j) s0 j hd f c _ Hs J1 Hcw Hc ltac:(lia) ltac:(lia)) as (s' & c' & st & E1 & E2 & E3 & E4 & E5 & E6);
    [unfold turns_for; lia|rewrite J6, Z.sub_0_r; apply turns_enough; lia|].
  rewrite J2 in E2. rewrite (serve_request_reply w SAB_IO_OP_WRITE i h (blen v) a v d s' st Hd E1 E2).
  assert (Hkeep : forall c1, has_content (bk s') f c1 -> holds_file s' i h c1).
  { intros c1 H1. apply (holds_file_same w.1 s' i h c c1 hd f (set_front d v)); try done.
    - rewrite E5. cbn. apply list_lookup_insert_eq. by eapply lookup_lt_Some.
    - rewrite set_front_blen; lia. }
  assert (Hup : forall k, 0 <= k <= blen v -> written_upto c (set_front d v) j k = MemoryBackend.written c (subarray v 0 k) a).
  { intros k Hk. unfold written_upto. rewrite J3, J5, J6, !Z.add_0_r, Z.add_0_l. f_equal. unfold set_front.
    rewrite !subarray_take by lia. rewrite !drop_0. apply take_app_le. unfold blen in *. lia. }
  split; [done|]. cbn [fst]. rewrite J4 in E6. destruct E6 as [[-> ->]|(e & -> & Hz & E6)].
  - left. rewrite to_int32_small by lia. split; [done|]. apply Hkeep. rewrite Hup in E3 by lia. by rewrite subarray_take, drop_0, Z.sub_0_r, take_ge in E3 by (unfold blen in *; lia).
  - right. pose proof (status_negative e). rewrite to_int32_negative by lia. split; [done|]. destruct E6 as [->|(k & Hk & ->)]; [left; by apply Hkeep|right].
    exists k. rewrite J6 in Hk. split; [done|]. apply Hkeep. by rewrite Hup in E3 by lia.
Qed.

#[global] Program Instance server_files : @FileTransport world server_transport := {
  file_at w i h c := holds_file w.1 i h c
}.
Next Obligation. apply Harea. Qed.
Next Obligation. intros w i h c n a Hf Hn Ha. cbn in *. pose proof (server_reads w i h c n a Hf Hn Ha) as H. cbv zeta in H. destruct (serve_request _ _ _) as [[[? ?] ?] w']. destruct H as (? & ? & ? & ->). done. Qed.
Next Obligation. intros w i h c v a Hf Hv Ha. cbn in *. pose proof (server_writes w i h c v a Hf Hv Ha) as H. destruct (serve_request _ _ _) as [[[? ?] ?] w']. destruct H as (-> & H). done. Qed.
Next Obligation. done. Qed.
Next Obligation. done. Qed.
End server.

(** The file "ab" of three bytes, open as handle 1 of the scratch instance; the client's memory has six bytes, and a slot two. *)
Definition slot_areas : @server MemoryBackend.backend MemoryBackend.handle unit :=
  with_instances open_file (instances open_file) (memories open_file) [[0; 0]].

Lemma slot_file : holds_file 2 slot_areas 0 1 [4; 5; 6].
Proof.
  constructor; [split; vm_compute; reflexivity|vm_compute; reflexivity|exists [0; 0]; split; vm_compute; reflexivity|].
  exists (Handle 0 0 true true), (MemoryBackend.Handle (lit "ab") false). split_and!; [vm_compute; reflexivity..|].
  eexists. split; [vm_compute; reflexivity|]. split; [vm_compute; split; congruence|vm_compute; reflexivity].
Qed.

Lemma scratch_transfers_are_single_witness :
  let T := server_transport 2 2 in
  exists w', @read _ T 0 (slot_areas, [10; 11; 12; 13; 14; 15]) 1 1 3 0 = (Ok 3, w') /\ memory w' = Some [10; 4; 5; 6; 14; 15].
Proof.
  destruct (@scratch_transfers_are_single _ (server_transport 2 2) (server_files 2 2 ltac:(lia) ltac:(lia)) 0 (slot_areas, [10; 11; 12; 13; 14; 15]) 1
    [4; 5; 6] [10; 11; 12; 13; 14; 15] 1 3 0 slot_file) as [(w' & H1 & H2 & H3) _]; [vm_compute; congruence || reflexivity..|].
  exists w'. split; [exact H1|exact H2].
Defined.
