(* ===== verification/IoImports.v ===== *)
(** The seven [env.flatsql_io_*] imports of a guest (src/host/flatsqlIoImports.js).

    The imports stand between a guest and the synchronous providers of files: they copy the path out of the guest's
    memory, choose a provider by its hash, put the provider's index into the handle, answer reads of mirrored files
    from the mirror of Mirror.v, and turn every exception into a status. Providers are an interface ([IoProviders]);
    the client of IoClient.v is one. *)
From Stdlib Require Import ZArith QArith Lia.
From stdpp Require Import base list strings numbers.
From S2P Require Import Prelude JsText JsMap IoContract MemoryBackend Mirror IoClient.
Open Scope Z_scope.

Definition ROUTE_SHIFT : Z := 24.
Definition LOCAL_HANDLE_MASK : Z := 0xffffff.

Definition TRACE_OPEN : Z := 1.
Definition TRACE_READ : Z := 2.
Definition TRACE_WRITE : Z := 3.
Definition TRACE_TRUNCATE : Z := 4.
Definition TRACE_SYNC : Z := 5.
Definition TRACE_SIZE : Z := 6.
Definition TRACE_CLOSE : Z := 7.
Definition TRACE_MIRROR_READ : Z := 8.

(** The shared trace: a counter and the operation of each call that fits; the microseconds of a call are left out. *)
Record trace_buffer := Trace { recorded : Z; capacity : Z; ops : list Z }.
Definition createFlatsqlIoTraceBuffer (cap : Z) : trace_buffer := Trace 0 cap (zeros cap).
Definition readFlatsqlIoTrace (t : trace_buffer) : list Z := subarray (ops t) 0 (Z.max 0 (Z.min (recorded t) (capacity t))).
(** A store behind the end or in front of a typed array changes nothing. *)
Definition trace_call (op : Z) (t : trace_buffer) : trace_buffer :=
  let index := recorded t in
  Trace (to_int32 (index + 1)) (capacity t) (if (index <? capacity t) && (0 <=? index) then <[Z.to_nat index := op]> (ops t) else ops t).

(** [count] providers in a world they share with the memory of the guest and the mirror. *)
Class IoProviders (W : Type) := {
  p_open : nat -> W -> list Z -> Z -> Prelude.result Z * W;
  p_read : nat -> W -> Z -> Z -> Z -> Z -> Prelude.result Z * W;
  p_write : nat -> W -> Z -> Z -> Z -> Z -> Prelude.result Z * W;
  p_truncate : nat -> W -> Z -> jsnum -> Prelude.result Z * W;
  p_sync : nat -> W -> Z -> Prelude.result Z * W;
  p_size : nat -> W -> Z -> Prelude.result jsnum * W;
  p_close : nat -> W -> Z -> Prelude.result Z * W;
  guest_memory : W -> option (list Z);
  set_guest_memory : W -> list Z -> W;
  shared_mirror : W -> mirror
}.

Definition copyPath (memory : option (list Z)) (ptr len : Z) : option (list Z) :=
  match memory with
  | None => None
  | Some m => if (len <=? 0) || (FLATSQL_IO_MAX_PATH_BYTES <? len) || (ptr <? 0) then None
              else if blen m <? ptr + len then None else Some (subarray m ptr (ptr + len))
  end.

(** The checks of [createFlatsqlIoImports] on its providers. *)
Definition createFlatsqlIoImports (count : nat) : Prelude.result unit :=
  if (count =? 0)%nat then Throw (TypeError "createFlatsqlIoImports requires at least one provider.")
  else if (127 <? count)%nat then Throw (RangeError "At most 127 providers can be routed.")
  else Ok tt.

Section imports.
Context {W : Type} `{!IoProviders W}.
(** The number of providers, and the suffixes of the mirrored paths if a mirror is attached. *)
Context (count : nat) (suffixes : option (list jsstring)).

Record imports := Imports { world : W; mirroredHandles : list (Z * jsstring); trace : option trace_buffer }.
Implicit Types s : imports.

Definition routed : bool := (1 <? count)%nat.
Definition with_world s (w : W) : imports := Imports w (mirroredHandles s) (trace s).
Definition with_mirrored s (l : list (Z * jsstring)) : imports := Imports (world s) l (trace s).
Definition traced (op : Z) s : imports := Imports (world s) (mirroredHandles s) (trace_call op <$> trace s).

(** The provider of a handle and its handle there. *)
Definition route (handle : Z) : option (nat * Z) :=
  if negb routed then Some (0%nat, handle)
  else let index := Z.to_nat (Z.shiftr (to_uint32 handle) ROUTE_SHIFT) in
       if (index <? count)%nat then Some (index, js_and handle LOCAL_HANDLE_MASK) else None.

Definition guard {A : Type} (op : Z) (fallback : A) (fn : imports -> Prelude.result A * imports) s : A * imports :=
  let '(r, s) := fn s in (match r with Ok v => v | Throw _ => fallback end, traced op s).

(** A call of a method of the provider of a handle. *)
Definition on_provider {A : Type} (bad : A) (f : nat -> W -> Z -> Prelude.result A * W) (handle : Z) s : Prelude.result A * imports :=
  match route handle with
  | None => (Ok bad, s)
  | Some (i, local) => let '(r, w) := f i (world s) local in (r, with_world s w)
  end.

Definition flatsql_io_open s (pathPtr pathLen flags : Z) : Z * imports :=
  guard TRACE_OPEN FLATSQL_IO_ERR_GENERIC (fun s =>
    match copyPath (guest_memory (world s)) pathPtr pathLen with
    | None => (Ok FLATSQL_IO_ERR_GENERIC, s)
    | Some bytes =>
        let index := if routed then Z.to_nat (hashFlatsqlIoPath bytes mod Z.of_nat count) else 0%nat in
        match p_open index (world s) bytes (to_int32 flags) with
        | (Throw e, w) => (Throw e, with_world s w)
        | (Ok handle, w) =>
            let s := with_world s w in
            if handle <? 0 then (Ok handle, s)
            else if routed && (LOCAL_HANDLE_MASK <? handle) then (Ok FLATSQL_IO_ERR_IO, s)
            else
              let exposed := if routed then js_or (js_shl (Z.of_nat index) ROUTE_SHIFT) handle else handle in
              (Ok exposed,
               match suffixes with
               | Some l => let path := text_decode bytes in
                           if createSabIoMirrorMatcher l path then with_mirrored s (map_set (mirroredHandles s) exposed path) else s
               | None => s
               end)
        end
    end) s.

(** What the mirror answers to a read of a handle: the count and the bytes it copies into the memory [m]. *)
Definition from_mirror s (handle dstPtr len offset : Z) : option (Z * list Z) :=
  match suffixes, map_get (mirroredHandles s) handle, guest_memory (world s) with
  | Some _, Some path, Some m =>
      if (0 <=? dstPtr) && (0 <=? len) && (dstPtr + len <=? blen m) then
        match findSabIoMirrorEntry (shared_mirror (world s)) path with
        | Some index => match readSabIoMirrorEntry (shared_mirror (world s)) index len offset with
                        | Some (n, bytes) => if 0 <=? n then Some (n, put_at m bytes dstPtr) else None
                        | None => None
                        end
        | None => None
        end
      else None
  | _, _, _ => None
  end.

Definition flatsql_io_read s (handle dstPtr len offset : Z) : Z * imports :=
  match from_mirror s handle dstPtr len offset with
  | Some (n, m) => (n, traced TRACE_MIRROR_READ (with_world s (set_guest_memory (world s) m)))
  | None => guard TRACE_READ FLATSQL_IO_ERR_IO (on_provider FLATSQL_IO_ERR_BADHANDLE (fun i w h => p_read i w h dstPtr len offset) handle) s
  end.
Definition flatsql_io_write s (handle srcPtr len offset : Z) : Z * imports :=
  guard TRACE_WRITE FLATSQL_IO_ERR_IO (on_provider FLATSQL_IO_ERR_BADHANDLE (fun i w h => p_write i w h srcPtr len offset) handle) s.
Definition flatsql_io_truncate s (handle : Z) (size : jsnum) : Z * imports :=
  guard TRACE_TRUNCATE FLATSQL_IO_ERR_IO (on_provider FLATSQL_IO_ERR_BADHANDLE (fun i w h => p_truncate i w h size) handle) s.
Definition flatsql_io_sync s (handle : Z) : Z * imports :=
  guard TRACE_SYNC FLATSQL_IO_ERR_IO (on_provider FLATSQL_IO_ERR_BADHANDLE p_sync handle) s.
Definition flatsql_io_size s (handle : Z) : jsnum * imports :=
  guard TRACE_SIZE (int_num FLATSQL_IO_ERR_IO) (on_provider (int_num FLATSQL_IO_ERR_BADHANDLE) p_size handle) s.
Definition flatsql_io_close s (handle : Z) : Z * imports :=
  guard TRACE_CLOSE FLATSQL_IO_ERR_IO (fun s =>
    on_provider FLATSQL_IO_ERR_BADHANDLE p_close handle (with_mirrored s (map_delete (mirroredHandles s) handle))) s.
End imports.

(** ** Routing *)

Section routing.
Context {W : Type} `{!IoProviders W} (count : nat) (suffixes : option (list jsstring)).

Lemma exposed_value i h : 0 <= i <= 126 -> 0 <= h <= LOCAL_HANDLE_MASK -> js_or (js_shl i ROUTE_SHIFT) h = i * 2 ^ 24 + h.
Proof.
  unfold js_or, js_shl, ROUTE_SHIFT, LOCAL_HANDLE_MASK. intros Hi Hh. rewrite (to_int32_small i) by lia. rewrite Z.shiftl_mul_pow2 by lia.
  rewrite !to_int32_small by (rewrite ?to_int32_small; lia). rewrite <- Z.add_lor_land.
  assert (Z.land (i * 2 ^ 24) h = 0) as ->; [|lia].
  apply Z.bits_inj'. intros n Hn. rewrite Z.land_spec, Z.bits_0. destruct (Z_lt_le_dec n 24) as [Hlt|Hge].
  - by rewrite Z.mul_pow2_bits_low by lia.
  - rewrite (Z.bits_above_log2 h n); [apply andb_false_r|lia|]. destruct (Z.eq_dec h 0) as [->|]; [cbn; lia|]. apply Z.log2_lt_pow2; [lia|].
    apply Z.lt_le_trans with (2 ^ 24); [lia|]. apply Z.pow_le_mono_r; lia.
Qed.

Lemma route_exposed i h : (2 <= count <= 127)%nat -> (i < count)%nat -> 0 <= h <= LOCAL_HANDLE_MASK ->
  route count (Z.of_nat i * 2 ^ 24 + h) = Some (i, h).
Proof.
  intros Hc Hi Hh. unfold route, routed, LOCAL_HANDLE_MASK, ROUTE_SHIFT in *. destruct (Nat.ltb_spec 1 count); [|lia]. cbn [negb].
  unfold to_uint32. rewrite Z.mod_small by lia. rewrite Z.shiftr_div_pow2 by lia. rewrite (Z.add_comm (_ * _)), Z.div_add, Z.div_small by lia.
  rewrite Z.add_0_l, Nat2Z.id. destruct (Nat.ltb_spec i count); [|lia]. do 2 f_equal. rewrite Z.add_comm.
  change 0xffffff with (2 ^ 24 - 1). rewrite js_and_ones by lia. rewrite Z.add_comm, Z.mod_add by lia. apply Z.mod_small. lia.
Qed.

(** The result and the world of a call, exceptions replaced by a value. *)
Definition answered {A : Type} (fallback : A) (x : Prelude.result A * W) : A * W := (match x.1 with Ok v => v | Throw _ => fallback end, x.2).
Definition seen {A : Type} (x : A * imports) : A * W := (x.1, world x.2).

Lemma guarded_call {A : Type} op (fallback bad : A) f e s i h : route count e = Some (i, h) ->
  seen (guard op fallback (on_provider count bad f e) s) = answered fallback (f i (world s) h).
Proof. intros H. unfold guard, on_provider, seen, answered. rewrite H. by destruct (f i (world s) h) as [[v|x] w]. Qed.

(** Calls with [e] are calls of provider [i] with [h], reads as far as the mirror does not answer them: it answers none of a handle that is not marked. *)
Record stands_for (e : Z) (i : nat) (h : Z) : Prop := {
  sf_route : route count e = Some (i, h);
  sf_read : forall s p l o, from_mirror suffixes s e p l o = None -> seen (flatsql_io_read count suffixes s e p l o) = answered FLATSQL_IO_ERR_IO (p_read i (world s) h p l o);
  sf_unmarked : forall s p l o, map_get (mirroredHandles s) e = None -> seen (flatsql_io_read count suffixes s e p l o) = answered FLATSQL_IO_ERR_IO (p_read i (world s) h p l o);
  sf_write : forall s p l o, seen (flatsql_io_write count s e p l o) = answered FLATSQL_IO_ERR_IO (p_write i (world s) h p l o);
  sf_truncate : forall s n, seen (flatsql_io_truncate count s e n) = answered FLATSQL_IO_ERR_IO (p_truncate i (world s) h n);
  sf_sync : forall s, seen (flatsql_io_sync count s e) = answered FLATSQL_IO_ERR_IO (p_sync i (world s) h);
  sf_size : forall s, seen (flatsql_io_size count s e) = answered (int_num FLATSQL_IO_ERR_IO) (p_size i (world s) h);
  sf_close : forall s, seen (flatsql_io_close count s e) = answered FLATSQL_IO_ERR_IO (p_close i (world s) h)
}.

Lemma routed_calls e i h : route count e = Some (i, h) -> stands_for e i h.
Proof.
  intros H.
  assert (Hr : forall s p l o, from_mirror suffixes s e p l o = None -> seen (flatsql_io_read count suffixes s e p l o) = answered FLATSQL_IO_ERR_IO (p_read i (world s) h p l o)).
  { intros s p l o E. unfold flatsql_io_read. by rewrite E, (guarded_call _ _ _ _ _ _ i h H). }
  constructor; try done; try (intros s p l o E; apply Hr; unfold from_mirror; rewrite E; by destruct suffixes); try (intros; unfold flatsql_io_write, flatsql_io_truncate, flatsql_io_sync, flatsql_io_size; by rewrite (guarded_call _ _ _ _ _ _ i h H)).
  intros s. unfold flatsql_io_close, guard.
  set (s1 := with_mirrored s _). change (world s) with (world s1). unfold on_provider. rewrite H. by destruct (p_close i (world s1) h) as [[v|x] w].
Qed.

(** C23. Handles lead back to the provider that opened them. When an open returns a handle, one provider, chosen by the hash of the path, has opened the path
    that the guest's memory holds; with several providers the handle is that provider's own, which fits 24 bits, plus 2^24 times the provider's index, so that
    no two providers' handles are the same. From then on every write, truncation, sync, size and close with the returned handle, and every read the mirror does
    not answer, is that provider's operation with its own handle, its answer handed back and an exception turned into an error status. *)
Theorem handles_are_routed s ptr len flags e s' :
  (1 <= count <= 127)%nat -> flatsql_io_open count suffixes s ptr len flags = (e, s') -> 0 <= e ->
  exists bytes h, let i := if routed count then Z.to_nat (hashFlatsqlIoPath bytes mod Z.of_nat count) else 0%nat in
    copyPath (guest_memory (world s)) ptr len = Some bytes /\ (i < count)%nat /\
    p_open i (world s) bytes (to_int32 flags) = (Ok h, world s') /\ 0 <= h /\
    (if (1 <? count)%nat then h < 2 ^ 24 /\ e = Z.of_nat i * 2 ^ 24 + h else e = h) /\ stands_for e i h.
Proof.
  intros Hc Ho He. unfold flatsql_io_open, guard in Ho. destruct (copyPath _ ptr len) as [bytes|]; [|injection Ho as <- _; done].
  set (i := if routed count then _ else _) in *. assert (Hi : (i < count)%nat).
  { unfold i. destruct (routed count); [|lia]. pose proof (Z.mod_pos_bound (hashFlatsqlIoPath bytes) (Z.of_nat count)). lia. }
  destruct (p_open i (world s) bytes (to_int32 flags)) as [[h|x] w] eqn:Ep; [|injection Ho as <- _; done].
  destruct (Z.ltb_spec h 0) as [|Hh]; [injection Ho as <- _; lia|].
  destruct (routed count && _) eqn:Em; [injection Ho as <- _; done|]. exists bytes, h. cbv zeta. fold i.
  assert (Hw : world s' = w) by (injection Ho as _ <-; by repeat case_match). split_and!; [done..|by rewrite Hw|done| |].
  { injection Ho as <- _. unfold routed in *. destruct (Nat.ltb_spec 1 count); [|done]. cbn in Em. apply Z.ltb_ge in Em. unfold LOCAL_HANDLE_MASK in Em.
    split; [lia|]. apply exposed_value; unfold LOCAL_HANDLE_MASK; lia. }
  apply routed_calls. injection Ho as <- _. destruct (routed count) eqn:Er; unfold routed in Er.
  - apply Nat.ltb_lt in Er. cbn in Em. apply Z.ltb_ge in Em. rewrite exposed_value by lia. apply route_exposed; lia.
  - apply Nat.ltb_ge in Er. unfold route, routed. destruct (Nat.ltb_spec 1 count); [lia|]. cbn. assert (i = 0%nat) as -> by lia. done.
Qed.
End routing.

(** ** Reads with and without the mirror *)

(** Providers of files: handle [h] of provider [i] is open on the file [p] with content [c], a read gives bytes of the
    content, and the mirror tracks some files, by the bytes of their paths. Nothing is said of how these files and the served ones compare. *)
Class FileProviders (W : Type) `{!IoProviders W} := {
  serves : W -> nat -> Z -> jsstring -> list Z -> Prop;
  open_files : W -> list Z -> option (list Z);
  provider_reads w i h p c m ptr len offset : serves w i h p c -> guest_memory w = Some m -> 0 <= ptr -> 0 <= len -> ptr + len <= blen m -> 0 <= offset ->
    let r := subarray c offset (offset + len) in
    exists w', p_read i w h ptr len offset = (Ok (blen r), w') /\ guest_memory w' = Some (put_at m r ptr);
  mirror_table w : table_ok (shared_mirror w);
  mirror_tracks w k : tracks (shared_mirror w) (open_files w) k;
  guest_memory_law w m : guest_memory w <> None -> guest_memory (set_guest_memory w m) = Some m
}.

Section mirrored.
Context {W : Type} `{!IoProviders W} `{!FileProviders W} (count : nat) (suffixes : option (list jsstring)).

Lemma from_mirror_is_file s e m ptr len offset n m' :
  guest_memory (world s) = Some m -> 0 <= len -> 0 <= offset -> from_mirror suffixes s e ptr len offset = Some (n, m') ->
  exists q c, map_get (mirroredHandles s) e = Some q /\ open_files (world s) (toBytes q) = Some c /\
    let r := subarray c offset (offset + len) in n = blen r /\ m' = put_at m r ptr.
Proof.
  intros Hm Hlen Hoff. unfold from_mirror. destruct suffixes; [|done]. destruct (map_get _ e) as [q|]; [|done]. rewrite Hm.
  destruct (_ && _); [|done].
  pose proof (mirror_answers (shared_mirror (world s)) (open_files (world s)) q len offset (mirror_table _) (mirror_tracks _) Hlen Hoff) as Ha.
  destruct (findSabIoMirrorEntry _ q) as [index|]; [|done]. destruct Ha as (c & Hc & _ & ->).
  destruct (decide _); [|done]. destruct (0 <=? _); [|done]. intros [= <- <-]. by exists q, c.
Qed.

(** Reads with a mirror attached: a read at an offset of a handle that is open on a file returns the number of bytes a read at that offset gives of that
    file, or of the file the mirror holds under the path the handle was marked with, and these bytes are in the guest's memory at its pointer with nothing
    else changed. Without a mark it is the handle's own file. *)
Theorem reads_come_from_file_or_mirror s e i h p c m ptr len offset :
  route count e = Some (i, h) -> serves (world s) i h p c ->
  guest_memory (world s) = Some m -> 0 <= ptr -> 0 <= len -> ptr + len <= blen m -> 0 <= offset ->
  exists c', (c' = c \/ exists q, map_get (mirroredHandles s) e = Some q /\ open_files (world s) (toBytes q) = Some c') /\
    let r := subarray c' offset (offset + len) in
    exists s', flatsql_io_read count suffixes s e ptr len offset = (blen r, s') /\ guest_memory (world s') = Some (put_at m r ptr).
Proof.
  intros He Hs Hm Hp Hlen Hb Hoff. unfold flatsql_io_read. destruct (from_mirror suffixes s e ptr len offset) as [[n m']|] eqn:Ef.
  - destruct (from_mirror_is_file s e m ptr len offset n m') as (q & c' & Hq & Hc & -> & ->); try done. exists c'. split; [eauto|].
    eexists. split; [done|]. cbn. apply guest_memory_law. congruence.
  - destruct (provider_reads (world s) i h p c m ptr len offset) as (w' & Hr & Hm'); try done. exists c. split; [by left|]. unfold guard, on_provider. rewrite He, Hr. by eexists.
Qed.
End mirrored.

(** ** The client as a provider *)

Section client.
Context {S : Type} `{!Transport S} `{!FileTransport S} (instanceId : Z).

#[global] Instance client_provider : IoProviders S := {
  p_open _ w bytes flags := let '(st, w) := IoClient.open instanceId w bytes flags in (Ok st, w);
  p_read _ w h p l o := IoClient.read instanceId w h p l o;
  p_write _ w h p l o := IoClient.write instanceId w h p l o;
  p_truncate _ w h n := let '(st, w) := IoClient.truncate instanceId w h n in (Ok st, w);
  p_sync _ w h := let '(st, w) := IoClient.sync instanceId w h in (Ok st, w);
  p_size _ w h := let '(n, w) := IoClient.size instanceId w h in (Ok n, w);
  p_close _ w h := let '(st, w) := IoClient.close instanceId w h in (Ok st, w);
  guest_memory := memory; set_guest_memory := set_memory; shared_mirror _ := fresh_mirror 0 0 0
}.

(** A client of the scratch instance, whose memory no worker reaches. *)
#[global] Program Instance client_files : instanceId = IoChannel.SAB_IO_SCRATCH_INSTANCE -> FileProviders S := fun Hi => {|
  serves w _ h p c := file_at w instanceId h c;
  open_files _ := no_files
|}.
Next Obligation.
  intros Hi w i h p c m ptr len offset Hf Hm Hp Hl Hb Ho r. cbn. destruct (Z.eq_dec len 0) as [->|Hne].
  - exists w. assert (r = []) as -> by (unfold r; rewrite Z.add_0_r, subarray_take, Z.sub_diag by lia; done). split; [done|]. cbn. by rewrite put_at_nil by lia.
  - destruct (client_reads instanceId w h c m ptr len offset) as (w' & ? & ? & _); try done; [unfold attached; by rewrite Hi|lia|]. by exists w'.
Qed.
Next Obligation. intros Hi w. by apply fresh_table. Qed.
Next Obligation. intros Hi w k. by destruct (tracks_run 0 0 0 [] (Z.le_refl 0) (Z.le_refl 0) I) as (_ & _ & H). Qed.
Next Obligation. intros Hi w m. apply memory_law. Qed.
End client.

(** ** A small world *)

(** Two providers that know one file, [p/h.fsh] with three bytes, under handle 7 of either, and the memory of the guest. *)
Definition head_mirror : mirror := mirror_after 2 8 16 [Seed head_path [1; 2; 3]].
Definition toy_read (w : list Z) (ptr len offset : Z) : Prelude.result Z * list Z :=
  let r := subarray [1; 2; 3] offset (offset + len) in (Ok (blen r), put_at w r ptr).
#[local] Instance toy_providers : IoProviders (list Z) := {
  p_open _ w bytes flags := (Ok 7, w);
  p_read _ w h ptr len offset := toy_read w ptr len offset;
  p_write _ w h ptr len offset := (Ok FLATSQL_IO_ERR_ACCESS, w);
  p_truncate _ w h n := (Ok FLATSQL_IO_ERR_ACCESS, w);
  p_sync _ w h := (Ok 0, w); p_size _ w h := (Ok (int_num 3), w); p_close _ w h := (Ok 0, w);
  guest_memory w := Some w; set_guest_memory _ m := m; shared_mirror _ := head_mirror
}.
#[local] Program Instance toy_files : FileProviders (list Z) := {|
  serves w i h p c := p = head_path /\ c = [1; 2; 3];
  open_files _ := files_after [Seed head_path [1; 2; 3]]
|}.
Next Obligation. intros w i h p c m ptr len offset [-> ->] [= ->] _ _ _ _ r. by eexists. Qed.
Next Obligation. intros w. apply (tracks_run 2 8 16 [Seed head_path [1; 2; 3]]); done. Qed.
Next Obligation. intros w. apply (tracks_run 2 8 16 [Seed head_path [1; 2; 3]]); done. Qed.
Next Obligation. done. Qed.

Definition toy_state : imports := Imports (text_encode head_path ++ [0; 0; 0; 0; 0; 0]) [] None.
Definition opened_state : imports := (flatsql_io_open 2 (Some [lit "/h.fsh"]) toy_state 0 7 1).2.

Lemma handles_are_routed_witness :
  (flatsql_io_open 2 (Some [lit "/h.fsh"]) toy_state 0 7 1).1 = 2 ^ 24 + 7 /\
  exists bytes h, let i := if routed 2 then Z.to_nat (hashFlatsqlIoPath bytes mod 2) else 0%nat in
    copyPath (Some (world toy_state)) 0 7 = Some bytes /\ (i < 2)%nat /\
    p_open i (world toy_state) bytes 1 = (Ok h, world opened_state) /\ 0 <= h /\
    (h < 2 ^ 24 /\ 2 ^ 24 + 7 = Z.of_nat i * 2 ^ 24 + h) /\ stands_for 2 (Some [lit "/h.fsh"]) (2 ^ 24 + 7) i h.
Proof.
  assert (H : flatsql_io_open 2 (Some [lit "/h.fsh"]) toy_state 0 7 1 = (2 ^ 24 + 7, opened_state)) by (vm_compute; reflexivity).
  split; [by rewrite H|]. exact (handles_are_routed 2 (Some [lit "/h.fsh"]) toy_state 0 7 1 (2 ^ 24 + 7) opened_state ltac:(lia) H ltac:(lia)).
Defined.

Lemma reads_come_from_file_or_mirror_witness :
  from_mirror (Some [lit "/h.fsh"]) opened_state (2 ^ 24 + 7) 7 5 1 <> None /\
  exists (c' : list Z) s', flatsql_io_read 2 (Some [lit "/h.fsh"]) opened_state (2 ^ 24 + 7) 7 5 1 = (blen (subarray c' 1 6), s').
Proof.
  split; [vm_compute; congruence|].
  destruct (reads_come_from_file_or_mirror 2 (Some [lit "/h.fsh"]) opened_state (2 ^ 24 + 7) 1 7 head_path [1; 2; 3] (text_encode head_path ++ [0; 0; 0; 0; 0; 0]) 7 5 1)
    as (c' & _ & s' & H & _); [vm_compute; reflexivity|done|vm_compute; reflexivity|lia|lia|vm_compute; congruence|lia|].
  exists c', s'. exact H.
Defined.

(** ** What goes wrong *)

(** Two spellings of one path, which the host takes for the same file, lead to different providers. *)
Theorem spelling_changes_provider :
  splitFlatsqlIoPath (lit "/a/b") = splitFlatsqlIoPath (lit "a/b") /\
  hashFlatsqlIoPath (text_encode (lit "/a/b")) mod 2 <> hashFlatsqlIoPath (text_encode (lit "a/b")) mod 2.
Proof. split; vm_compute; [reflexivity|congruence]. Qed.

(** A handle that another thread has closed stays marked as mirrored here: when the provider gives it out again for another
    path, reads of that file are answered from the mirror of the old one. *)
Theorem reused_handle_reads_old_mirror :
  let other := text_encode (lit "p/x.bin") in
  let s := with_world opened_state (other ++ [0; 0; 0; 0; 0; 0]) in
  let '(e, s) := flatsql_io_open 2 (Some [lit "/h.fsh"]) s 0 7 1 in
  hashFlatsqlIoPath other mod 2 = 1 /\ e = 2 ^ 24 + 7 /\ from_mirror (Some [lit "/h.fsh"]) s e 7 3 0 = Some (3, other ++ [1; 2; 3; 0; 0; 0]).
Proof. vm_compute. split_and!; reflexivity. Qed.
