(* ===== verification/NodeFs.v ===== *)
(** The provider of files over the synchronous file system calls of Node (src/host/nodeSyncFsIo.js).

    The handles of all threads are kept in a table in shared memory; a handle is [(slot << 8) | gen]. Every thread opens
    its own descriptors lazily, for the path a slot records, and caches them by slot and generation. The file system is an
    interface ([Syscalls]); the calls a thread makes are recorded in order. Here calls run one after the other,
    each as one step: what another thread does to a slot between two accesses of one call (between the check of a slot and the opening of its
    path, say) is not covered. The revocation of an instance against calls in flight is in NodeRevoke.v. *)
From Stdlib Require Import ZArith Lia.
From stdpp Require Import base list strings numbers.
From S2P Require Import Prelude JsText JsMap IoContract MemoryBackend.
Open Scope Z_scope.

(** ** The handle table *)

Definition SLOT_FREE : Z := 0.
Definition SLOT_CLAIMING : Z := 1.
Definition SLOT_LIVE : Z := 2.
Definition SLOT_CLOSING : Z := 3.
Definition INSTANCE_LIVE : Z := 0.
Definition INSTANCE_REVOKED : Z := 1.
Definition NODE_SYNC_FS_ANONYMOUS_INSTANCE : Z := -1.

(** The words of a slot and the bytes of its path; the words of an instance; the table with the counter in header word 5. *)
Record slot := Slot { s_state : Z; s_gen : Z; s_flags : Z; s_owner : Z; s_path : list Z }.
Record instance := Instance { i_revoked : Z; inFlight : Z }.
Record table := Table { slots : list slot; instances : list instance; counter : Z; maxPathBytes : Z }.

Definition createNodeSyncFsIoTable (maxHandles maxPathBytes maxInstances : option Z) : result table :=
  let maxHandles := default 4096 maxHandles in
  let maxPathBytes := default 1024 maxPathBytes in
  let maxInstances := default 64 maxInstances in
  if (maxHandles <? 1) || (2 ^ 23 <? maxHandles) then Throw (RangeError "maxHandles must be in 1..2^23.")
  else Ok (Table (repeat (Slot 0 0 0 0 []) (Z.to_nat maxHandles)) (repeat (Instance 0 0) (Z.to_nat maxInstances)) 0 maxPathBytes).

(** ** System calls *)

(** How a file is opened: the access mode, and O_CREAT, O_EXCL, O_TRUNC. *)
Inductive access := O_RDONLY | O_WRONLY | O_RDWR.
Record mode := Mode { m_access : access; m_creat : bool; m_excl : bool; m_trunc : bool }.

(** The calls of [fs] the provider makes; a failing call throws. *)
Class Syscalls (F : Type) := {
  sys_open : F -> jsstring -> mode -> (Z + io_thrown) * F;
  sys_close : F -> Z -> (unit + io_thrown) * F;
  sys_read : F -> Z -> Z -> Z -> (list Z + io_thrown) * F;
  sys_write : F -> Z -> list Z -> Z -> (Z + io_thrown) * F;
  sys_truncate : F -> Z -> Z -> (unit + io_thrown) * F;
  sys_fdatasync : F -> Z -> (unit + io_thrown) * F;
  sys_size : F -> Z -> (Z + io_thrown) * F;
  sys_unlink : F -> jsstring -> (unit + io_thrown) * F;
  sys_mkdir : F -> jsstring -> (unit + io_thrown) * F;
  sys_syncdir : F -> jsstring -> (unit + io_thrown) * F;
  exists_path : F -> jsstring -> bool;
  realpath : F -> jsstring -> option jsstring
}.

(** A call as it is recorded. *)
Inductive syscall :=
  | Open (p : jsstring) (m : mode) | Close (fd : Z) | ReadAt (fd n offset : Z) | WriteAt (fd : Z) (bytes : list Z) (offset : Z)
  | Truncate (fd size : Z) | Fdatasync (fd : Z) | Fstat (fd : Z) | Stat (p : jsstring) | Unlink (p : jsstring) | Mkdir (p : jsstring) | SyncDir (p : jsstring).

(** The state of a thread: the shared table and file system, its cached descriptors (by slot: the generation and the
    descriptor), the memory of its instance, and the calls it has made. *)
Record node (F : Type) := Node { tbl : table; localFds : list (Z * (Z * Z)); fs : F; mem : option (list Z); calls : list syscall }.
Arguments Node {F}.
Arguments tbl {F}.
Arguments localFds {F}.
Arguments fs {F}.
Arguments mem {F}.
Arguments calls {F}.

(** ** Computations that may throw *)

Definition io (F A : Type) : Type := node F -> (A + io_thrown) * node F.

Section provider.
Context {F : Type}.

Definition ret {A : Type} (v : A) : io F A := fun n => (inl v, n).
Definition throw {A : Type} (e : io_thrown) : io F A := fun n => (inr e, n).
Definition bind {A B : Type} (m : io F A) (k : A -> io F B) : io F B := fun n => match m n with (inl v, n) => k v n | (inr e, n) => (inr e, n) end.
(** [try { m } catch (error) { h(error) }] *)
Definition catch {A : Type} (m : io F A) (h : io_thrown -> io F A) : io F A := fun n => match m n with (inl v, n) => (inl v, n) | (inr e, n) => h e n end.
Definition get : io F (node F) := fun n => (inl n, n).
Definition set_tbl (t : table) : io F unit := fun n => (inl tt, Node t (localFds n) (fs n) (mem n) (calls n)).
Definition set_fds (l : list (Z * (Z * Z))) : io F unit := fun n => (inl tt, Node (tbl n) l (fs n) (mem n) (calls n)).
Definition set_mem (m : list Z) : io F unit := fun n => (inl tt, Node (tbl n) (localFds n) (fs n) (Some m) (calls n)).
(** A system call, recorded. *)
Definition call {A : Type} (c : syscall) (f : F -> (A + io_thrown) * F) : io F A :=
  fun n => let '(r, w) := f (fs n) in (r, Node (tbl n) (localFds n) w (mem n) (calls n ++ [c])).
End provider.

Declare Scope node_scope.
Delimit Scope node_scope with node.
Notation "'let!' x ':=' m 'in' k" := (bind m (fun x => k)) (at level 200, x pattern, m at level 100, k at level 200, right associativity) : node_scope.
Notation "m ;; k" := (bind m (fun _ => k)) (at level 100, right associativity) : node_scope.
Open Scope node_scope.

(** ** Paths of the file system *)

Definition SLASH : Z := 47.
Definition ends_with_slash (p : jsstring) : bool := bool_decide (list.last p = Some SLASH).

(** [path.normalize] of an absolute path (POSIX): empty and "." components vanish, ".." takes the one before it away. *)
Definition push_component (acc : list jsstring) (part : jsstring) : list jsstring :=
  if str_eqb part [] || str_eqb part (lit ".") then acc
  else if str_eqb part (lit "..") then take (List.length acc - 1) acc else acc ++ [part].
Definition absolute (components : list jsstring) : jsstring := SLASH :: join_path components.
Definition normalize (p : jsstring) : jsstring := absolute (fold_left push_component (split_on SLASH p) []).
(** [path.join(root, relative)] for an absolute root and a path that does not end in a slash. *)
Definition join_root (root relative : jsstring) : jsstring := normalize (root ++ SLASH :: relative).

(** What is in front of the last slash. *)
Fixpoint before_last_slash (p : jsstring) : option jsstring :=
  match p with
  | [] => None
  | c :: p' => match before_last_slash p' with
               | Some q => Some (c :: q)
               | None => if c =? SLASH then Some [] else None
               end
  end.
(** [path.dirname] of an absolute path in normal form. *)
Definition dirname (p : jsstring) : jsstring := match before_last_slash p with Some [] | None => [SLASH] | Some q => q end.

Definition starts_with (p prefix : jsstring) : bool := bool_decide (take (List.length prefix) p = prefix).
Definition within (candidate base : jsstring) : bool :=
  let prefix := if ends_with_slash base then base else base ++ [SLASH] in
  str_eqb candidate base || starts_with candidate prefix.

(** ** The provider of a thread *)

Section thread.
Context {F : Type} `{!Syscalls F} (rawRoot realRoot : jsstring) (instanceId : Z).

(** The deepest ancestor that exists, from [probe] up, must be inside the root; the path has at most as many ancestors
    as characters. *)
Fixpoint ancestor_inside (fuel : nat) (w : F) (probe : jsstring) : bool :=
  match realpath w probe with
  | Some real => within real realRoot || within real rawRoot
  | None =>
      let parent := dirname probe in
      if str_eqb parent probe then true
      else match fuel with O => true | S fuel => ancestor_inside fuel w parent end
  end.
Definition resolvePath (w : F) (relative : jsstring) : jsstring + Z :=
  let full := join_root rawRoot relative in
  if negb (within full rawRoot) then inr FLATSQL_IO_ERR_ACCESS
  else if ancestor_inside (List.length full) w (dirname full) then inl full else inr FLATSQL_IO_ERR_ACCESS.

(** *** Revocation *)

Definition change_instance (f : instance -> instance) (t : table) : table :=
  Table (slots t) (alter f (Z.to_nat instanceId) (instances t)) (counter t) (maxPathBytes t).
Definition in_flight_add (k : Z) (i : instance) : instance := Instance (i_revoked i) (to_int32 (inFlight i + k)).
Definition leave : io F unit :=
  let! n := get in
  if instanceId <? 0 then ret tt else set_tbl (change_instance (in_flight_add (-1)) (tbl n)).
(** Atomics on an index outside the table throw. *)
Definition enter : io F bool :=
  let! n := get in
  if instanceId <? 0 then ret true
  else match instances (tbl n) !! Z.to_nat instanceId with
       | None => throw (NamedError "RangeError")
       | Some i => set_tbl (change_instance (in_flight_add 1) (tbl n)) ;;
                   if i_revoked i =? INSTANCE_REVOKED then leave ;; ret false else ret true
       end.
(** [return fn()] with [catch] and [finally]. *)
Definition guarded (fn : io F Z) : io F Z :=
  let! ok := enter in
  if negb ok then ret FLATSQL_IO_ERR_ACCESS
  else let! r := catch fn (fun e => ret (flatsqlIoStatusOf e false)) in leave ;; ret r.

(** *** Slots *)

Definition slot_at (t : table) (i : Z) : slot := default (Slot 0 0 0 0 []) (slots t !! Z.to_nat i).
Definition maxHandles (t : table) : Z := blen (slots t).
Definition set_slot (t : table) (i : Z) (s : slot) : table := Table (<[Z.to_nat i := s]> (slots t)) (instances t) (counter t) (maxPathBytes t).
Definition with_state (v : Z) (s : slot) : slot := Slot v (s_gen s) (s_flags s) (s_owner s) (s_path s).
Definition set_state (i v : Z) : io F unit := let! n := get in set_tbl (set_slot (tbl n) i (with_state v (slot_at (tbl n) i))).
Definition slotPath (t : table) (i : Z) : jsstring := text_decode (s_path (slot_at t i)).

Definition pathInUse (t : table) (bytes : list Z) : bool :=
  existsb (fun s => ((s_state s =? SLOT_LIVE) || (s_state s =? SLOT_CLAIMING)) && bool_decide (s_path s = bytes)) (slots t).

(** The slots in the order in which a claim tries them. *)
Definition probe_order (t : table) (start : Z) : list Z := map (fun k => (start + Z.of_nat k) mod maxHandles t) (List.seq 0 (List.length (slots t))).
Definition claimSlot (bytes : list Z) (flags : Z) : io F (option (Z * Z)) :=
  let! n := get in
  let start := to_uint32 (counter (tbl n)) mod maxHandles (tbl n) in
  let t := Table (slots (tbl n)) (instances (tbl n)) (to_int32 (counter (tbl n) + 1)) (maxPathBytes (tbl n)) in
  match List.find (fun i => s_state (slot_at t i) =? SLOT_FREE) (probe_order t start) with
  | None => set_tbl t ;; ret None
  | Some i => let gen := js_and (s_gen (slot_at t i) + 1) 0xff in
              set_tbl (set_slot t i (Slot SLOT_CLAIMING gen flags instanceId bytes)) ;; ret (Some (i, gen))
  end.

(** [try { fs.closeSync(fd) } catch {}] *)
Definition close_quietly (fd : Z) : io F unit := catch (call (Close fd) (fun w => sys_close w fd)) (fun _ => ret tt).
Definition forget_fd (i : Z) : io F unit := let! n := get in set_fds (map_delete (localFds n) i).

Fixpoint sweep_over (l : list (Z * (Z * Z))) : io F unit :=
  match l with
  | [] => ret tt
  | (i, (gen, fd)) :: l =>
      let! n := get in
      (if negb (s_state (slot_at (tbl n) i) =? SLOT_LIVE) || negb (s_gen (slot_at (tbl n) i) =? gen) then close_quietly fd ;; forget_fd i else ret tt) ;;
      sweep_over l
  end.
Definition sweep : io F unit := let! n := get in sweep_over (localFds n).

Definition openFlagsFor (flags : Z) (forReopen : bool) : mode :=
  let access := if has_flag flags FLATSQL_IO_WRITE then if has_flag flags FLATSQL_IO_READ then O_RDWR else O_WRONLY else O_RDONLY in
  if forReopen then Mode access false false false
  else Mode access (has_flag flags FLATSQL_IO_CREATE) (has_flag flags FLATSQL_IO_EXCL) (has_flag flags FLATSQL_IO_TRUNC).

(** The descriptor of a handle in this thread, or a negative status. *)
Definition handle_slot (handle : Z) : Z := Z.shiftr (to_uint32 handle) 8.
Definition handle_gen (handle : Z) : Z := js_and handle 0xff.
Definition fdFor (handle : Z) : io F Z :=
  let! n := get in
  let i := handle_slot handle in
  let gen := handle_gen handle in
  if handle <? 0 then ret FLATSQL_IO_ERR_BADHANDLE
  else if maxHandles (tbl n) <=? i then ret FLATSQL_IO_ERR_BADHANDLE
  else
    let s := slot_at (tbl n) i in
    let cached := map_get (localFds n) i in
    if negb (s_state s =? SLOT_LIVE) || negb (s_gen s =? gen) then
      match cached with
      | Some (g, fd) => if g =? gen then close_quietly fd ;; forget_fd i ;; ret FLATSQL_IO_ERR_BADHANDLE else ret FLATSQL_IO_ERR_BADHANDLE
      | None => ret FLATSQL_IO_ERR_BADHANDLE
      end
    else
      let reopen :=
        let full := join_root rawRoot (slotPath (tbl n) i) in
        let mode := openFlagsFor (s_flags s) true in
        catch (let! fd := call (Open full mode) (fun w => sys_open w full mode) in
               let! n := get in
               set_fds (map_set (localFds n) i (gen, fd)) ;; ret fd)
              (fun e => ret (flatsqlIoStatusOf e false)) in
      match cached with
      | Some (g, fd) => if g =? gen then ret fd else close_quietly fd ;; forget_fd i ;; reopen
      | None => reopen
      end.

Definition slotFlags (t : table) (handle : Z) : Z := s_flags (slot_at t (handle_slot handle)).

(** *** Opening *)

(** The ancestors from [probe] up that do not exist, the highest first. *)
Fixpoint missing_dirs (fuel : nat) (w : F) (probe : jsstring) (missing : list jsstring) : list jsstring :=
  if exists_path w probe then missing
  else
    let up := dirname probe in
    if str_eqb up probe then probe :: missing
    else match fuel with O => probe :: missing | S fuel => missing_dirs fuel w up (probe :: missing) end.
Fixpoint make_dirs (dirs : list jsstring) : io F unit :=
  match dirs with
  | [] => ret tt
  | dir :: dirs =>
      if negb (within dir rawRoot) then throw (CodedError "EACCES")
      else catch (call (Mkdir dir) (fun w => sys_mkdir w dir))
                 (fun e => match e with CodedError code => if String.eqb code "EEXIST" then ret tt else throw e | _ => throw e end) ;;
           call (SyncDir (dirname dir)) (fun w => sys_syncdir w (dirname dir)) ;;
           make_dirs dirs
  end.
Definition ensureParents (full : jsstring) : io F unit :=
  let! n := get in make_dirs (missing_dirs (List.length full) (fs n) (dirname full) []).

(** The root-relative path of some bytes, or a status. *)
Definition relative_path (t : table) (bytes : list Z) : jsstring + Z :=
  match decodeFlatsqlIoPath bytes with
  | inr st => inr st
  | inl decoded =>
      match splitFlatsqlIoPath decoded with
      | inr st => inr st
      | inl components =>
          let relative := join_path components in
          if maxPathBytes t <? blen (text_encode relative) then inr FLATSQL_IO_ERR_GENERIC else inl relative
      end
  end.

Definition unlink_path (full : jsstring) : io F Z :=
  catch (call (Unlink full) (fun w => sys_unlink w full) ;; call (SyncDir (dirname full)) (fun w => sys_syncdir w (dirname full)) ;; ret 0)
        (fun e => ret (flatsqlIoStatusOf e false)).

(** Open a descriptor for the claimed slot; the descriptor that was opened before a failure is closed, and the slot freed. *)
Definition open_claimed (i gen : Z) (full : jsstring) (mode : mode) (createdFile : bool) : io F Z :=
  let! r := catch (let! fd := call (Open full mode) (fun w => sys_open w full mode) in ret (inl fd)) (fun e => ret (inr e)) in
  let failed fd e := (match fd with Some fd => call (Close fd) (fun w => sys_close w fd) | None => ret tt end) ;;
                     set_state i SLOT_FREE ;; ret (flatsqlIoStatusOf e false) in
  match r with
  | inr e => failed None e
  | inl fd =>
      let! synced := catch ((if (createdFile : bool) then call (SyncDir (dirname full)) (fun w => sys_syncdir w (dirname full)) else ret tt) ;; ret None) (fun e => ret (Some e)) in
      match synced with
      | Some e => failed (Some fd) e
      | None => let! n := get in
                set_fds (map_set (localFds n) i (gen, fd)) ;; set_state i SLOT_LIVE ;; ret (js_or (js_shl i 8) gen)
      end
  end.

Definition openInternal (bytes : list Z) (flags : Z) : io F Z :=
  let! n := get in
  match relative_path (tbl n) bytes with
  | inr st => ret st
  | inl relative =>
      match resolvePath (fs n) relative with
      | inr st => ret st
      | inl full =>
          if has_flag flags FLATSQL_IO_PROBE then
            call (Stat full) (fun w => (inl tt, w)) ;; ret (if exists_path (fs n) full then 0 else FLATSQL_IO_ERR_NOENT)
          else if has_flag flags (Z.lor FLATSQL_IO_UNLINK FLATSQL_IO_UNLINK_IF_UNUSED) then
            if has_flag flags FLATSQL_IO_UNLINK_IF_UNUSED && pathInUse (tbl n) (text_encode relative) then ret FLATSQL_IO_ERR_BUSY
            else unlink_path full
          else
            let parents := has_flag flags FLATSQL_IO_CREATE && has_flag flags FLATSQL_IO_CREATE_PARENTS in
            sweep ;;
            let! made := catch ((if parents then ensureParents full else ret tt) ;; ret None) (fun e => ret (Some e)) in
            match made with
            | Some e => ret (flatsqlIoStatusOf e false)
            | None =>
                let! n := get in
                let createdFile := parents && negb (exists_path (fs n) full) in
                let! claimed := claimSlot (text_encode relative) flags in
                match claimed with
                | None => ret FLATSQL_IO_ERR_GENERIC
                | Some (i, gen) => open_claimed i gen full (openFlagsFor flags false) createdFile
                end
            end
      end
  end.
Definition open (bytes : list Z) (flags : Z) : io F Z := guarded (openInternal bytes (to_int32 flags)).

(** *** Transfers *)

Definition memoryView (n : node F) (ptr len : Z) : bool :=
  match mem n with Some m => negb ((ptr <? 0) || (len <? 0) || (blen m <? ptr + len)) | None => false end.
Definition memory_of (n : node F) : list Z := default [] (mem n).

(** The loops over the view of [len] bytes at [ptr]. A round moves at least a byte or ends the loop, so the length of the view
    is enough fuel as long as no write reports that it wrote nothing (which the source would repeat for ever). *)
Fixpoint read_loop (fuel : nat) (fd ptr len offset done : Z) : io F Z :=
  if done <? len then
    match fuel with
    | O => ret done
    | S fuel =>
        let! bytes := call (ReadAt fd (len - done) (offset + done)) (fun w => sys_read w fd (len - done) (offset + done)) in
        if blen bytes =? 0 then ret done
        else let! n := get in set_mem (put_at (memory_of n) bytes (ptr + done)) ;; read_loop fuel fd ptr len offset (done + blen bytes)
    end
  else ret done.
Fixpoint write_loop (fuel : nat) (fd ptr len offset done : Z) : io F Z :=
  if done <? len then
    match fuel with
    | O => ret done
    | S fuel =>
        let! n := get in
        let bytes := subarray (memory_of n) (ptr + done) (ptr + len) in
        let! k := call (WriteAt fd bytes (offset + done)) (fun w => sys_write w fd bytes (offset + done)) in
        write_loop fuel fd ptr len offset (done + k)
    end
  else ret done.

Definition readView (handle ptr len offset : Z) : io F Z :=
  let! fd := fdFor handle in
  if fd <? 0 then ret fd else read_loop (Z.to_nat len) fd ptr len offset 0.
(** The handle is open for writing. *)
Definition writable (handle : Z) (k : io F Z) : io F Z :=
  let! n := get in if has_flag (slotFlags (tbl n) handle) FLATSQL_IO_WRITE then k else ret FLATSQL_IO_ERR_IO.
Definition writeView (handle ptr len offset : Z) : io F Z :=
  let! fd := fdFor handle in
  if fd <? 0 then ret fd else writable handle (write_loop (Z.to_nat len) fd ptr len offset 0).

Definition on_view (ptr len : Z) (k : io F Z) : io F Z :=
  if len =? 0 then ret 0 else let! n := get in if memoryView n ptr len then k else ret FLATSQL_IO_ERR_GENERIC.
Definition read (handle ptr len offset : Z) : io F Z := guarded (on_view ptr len (readView handle ptr len offset)).
Definition write (handle ptr len offset : Z) : io F Z := guarded (on_view ptr len (writeView handle ptr len offset)).

Definition truncate (handle size : Z) : io F Z :=
  guarded (let! fd := fdFor handle in
           if fd <? 0 then ret fd else writable handle (call (Truncate fd size) (fun w => sys_truncate w fd size) ;; ret 0)).
Definition sync (handle : Z) : io F Z :=
  guarded (let! fd := fdFor handle in if fd <? 0 then ret fd else call (Fdatasync fd) (fun w => sys_fdatasync w fd) ;; ret 0).
Definition size (handle : Z) : io F Z :=
  guarded (let! fd := fdFor handle in if fd <? 0 then ret fd else call (Fstat fd) (fun w => sys_size w fd)).

(** *** Closing *)

Definition close (handle : Z) : io F Z :=
  catch
    (let! n := get in
     let i := handle_slot handle in
     let s := slot_at (tbl n) i in
     if handle <? 0 then ret FLATSQL_IO_ERR_BADHANDLE
     else if maxHandles (tbl n) <=? i then ret FLATSQL_IO_ERR_BADHANDLE
     else if negb (s_gen s =? handle_gen handle) then ret FLATSQL_IO_ERR_BADHANDLE
     else if negb (s_state s =? SLOT_LIVE) then ret FLATSQL_IO_ERR_BADHANDLE
     else
       set_state i SLOT_CLOSING ;;
       (match map_get (localFds n) i with Some (_, fd) => forget_fd i ;; close_quietly fd | None => ret tt end) ;;
       set_state i SLOT_FREE ;;
       (if has_flag (s_flags s) FLATSQL_IO_DELETE_ON_CLOSE then
          let full := join_root rawRoot (slotPath (tbl n) i) in catch (call (Unlink full) (fun w => sys_unlink w full)) (fun _ => ret tt)
        else ret tt) ;;
       ret 0)
    (fun e => ret (flatsqlIoStatusOf e false)).

Fixpoint close_all (l : list (Z * (Z * Z))) : io F unit :=
  match l with [] => ret tt | (_, (_, fd)) :: l => close_quietly fd ;; close_all l end.
Definition closeLocalFds : io F unit := let! n := get in close_all (localFds n) ;; set_fds [].
Definition liveHandles (n : node F) : Z := blen (List.filter (fun s => s_state s =? SLOT_LIVE) (slots (tbl n))).
Definition localFdCount (n : node F) : Z := blen (localFds n).
End thread.

(** ** Threads that take turns *)

(** [revokeNodeSyncFsIoInstance] up to its wait, and [resetNodeSyncFsIoInstance]. *)
Definition set_revoked (t : table) (i v : Z) : table :=
  Table (slots t) (alter (fun x => Instance v (inFlight x)) (Z.to_nat i) (instances t)) (counter t) (maxPathBytes t).
Definition revokeNodeSyncFsIoInstance (t : table) (i : Z) : result table :=
  if (i <? 0) || (blen (instances t) <=? i) then Throw (RangeError "instanceId is outside the table.") else Ok (set_revoked t i INSTANCE_REVOKED).
Definition resetNodeSyncFsIoInstance (t : table) (i : Z) : table := set_revoked t i INSTANCE_LIVE.

Inductive op :=
  | OOpen (bytes : list Z) (flags : Z) | ORead (handle ptr len offset : Z) | OWrite (handle ptr len offset : Z)
  | OTruncate (handle size : Z) | OSync (handle : Z) | OSize (handle : Z) | OClose (handle : Z) | OCloseLocal.

Record thread := Thread { t_instance : Z; t_fds : list (Z * (Z * Z)); t_mem : option (list Z); t_calls : list syscall }.
Record world (F : Type) := World { w_tbl : table; w_fs : F; threads : list thread }.
Arguments World {F}.
Arguments w_tbl {F}.
Arguments w_fs {F}.
Arguments threads {F}.

(** A thread makes a call, or an instance is revoked or reset. *)
Inductive action := Act (k : nat) (o : op) | Revoke (i : Z) | Reset (i : Z).

Section run.
Context {F : Type} `{!Syscalls F} (rawRoot realRoot : jsstring).

Definition run_op (instanceId : Z) (o : op) : io F Z :=
  match o with
  | OOpen bytes flags => open rawRoot realRoot instanceId bytes flags
  | ORead h p l off => read rawRoot instanceId h p l off
  | OWrite h p l off => write rawRoot instanceId h p l off
  | OTruncate h n => truncate rawRoot instanceId h n
  | OSync h => sync rawRoot instanceId h
  | OSize h => size rawRoot instanceId h
  | OClose h => close rawRoot h
  | OCloseLocal => closeLocalFds ;; ret 0
  end.

Definition node_of (w : world F) (t : thread) : node F := Node (w_tbl w) (t_fds t) (w_fs w) (t_mem t) (t_calls t).
Definition store_node (w : world F) (k : nat) (t : thread) (n : node F) : world F :=
  World (tbl n) (fs n) (<[k := Thread (t_instance t) (localFds n) (mem n) (calls n)]> (threads w)).
(** What a call of thread [k] returns, and the world after it. *)
Definition answer (w : world F) (k : nat) (o : op) : option (Z + io_thrown) :=
  (fun t => (run_op (t_instance t) o (node_of w t)).1) <$> threads w !! k.
Definition perform (w : world F) (a : action) : world F :=
  match a with
  | Act k o => match threads w !! k with
               | None => w
               | Some t => store_node w k t (run_op (t_instance t) o (node_of w t)).2
               end
  | Revoke i => World (match revokeNodeSyncFsIoInstance (w_tbl w) i with Ok t => t | Throw _ => w_tbl w end) (w_fs w) (threads w)
  | Reset i => World (resetNodeSyncFsIoInstance (w_tbl w) i) (w_fs w) (threads w)
  end.
Definition run (w : world F) (acts : list action) : world F := fold_left perform acts w.
End run.

(** ** Conditions that calls keep *)

Create HintDb keeps.

Section conditions.
Context {F : Type} (J : node F -> Prop).

(** A computation that leads to a state with [J], from one state, and from all with [J]. *)
Definition kept {A : Type} (m : io F A) (n : node F) : Prop := J (m n).2.
Definition keeps {A : Type} (m : io F A) : Prop := forall n, J n -> kept m n.

Lemma keeps_ret {A} (v : A) : keeps (ret v).
Proof. by intros n H. Qed.
Lemma keeps_throw {A} e : keeps (@throw F A e).
Proof. by intros n H. Qed.
Lemma kept_bind {A B} (m : io F A) (k : A -> io F B) n : kept m n -> (forall v n', m n = (inl v, n') -> kept (k v) n') -> kept (bind m k) n.
Proof. unfold kept, bind. destruct (m n) as [[v|e] n']; [|done]. intros _ H. by apply H. Qed.
Lemma keeps_bind {A B} (m : io F A) (k : A -> io F B) : keeps m -> (forall v, keeps (k v)) -> keeps (bind m k).
Proof. intros Hm Hk n Hn. apply kept_bind; [by apply Hm|]. intros v n' E. apply Hk. specialize (Hm n Hn). unfold kept in Hm. by rewrite E in Hm. Qed.
Lemma keeps_get {B} (k : node F -> io F B) : (forall n, J n -> kept (k n) n) -> keeps (bind get k).
Proof. intros H n Hn. by apply H. Qed.
Lemma keeps_catch {A} (m : io F A) h : keeps m -> (forall e, keeps (h e)) -> keeps (catch m h).
Proof. intros Hm Hh n Hn. specialize (Hm n Hn). unfold kept, catch in *. destruct (m n) as [[v|e] n']; [done|]. by apply Hh. Qed.
End conditions.

#[export] Hint Resolve keeps_ret keeps_throw : keeps.

(** What holds from every state holds from this one. *)
Ltac everywhere := match goal with Hn : ?J ?n |- kept ?J ?m ?n => cut (keeps J m); [let H := fresh in intros H; exact (H n Hn)|] end.
(** Take a computation apart, up to its reads of the state. *)
Ltac keep := repeat first
  [ solve [auto with keeps]
  | lazymatch goal with
    | |- keeps _ (bind get _) => fail
    | |- keeps _ (bind _ _) => apply keeps_bind; [|intros ?]
    | |- keeps _ (catch _ _) => apply keeps_catch; [|intros ?]
    | |- keeps _ (match _ with _ => _ end) => case_match
    end ].

(** ** The table *)

Section tables.
Context {F : Type} `{!Syscalls F}.

Lemma slot_at_set t i k s : slot_at (set_slot t i s) k = s /\ Z.to_nat k = Z.to_nat i \/ slot_at (set_slot t i s) k = slot_at t k.
Proof.
  unfold slot_at, set_slot. cbn. destruct (decide (Z.to_nat i = Z.to_nat k)) as [E|E].
  - rewrite <- E. destruct (decide (Z.to_nat i < List.length (slots t))%nat).
    + rewrite list_lookup_insert_eq by done. by left.
    + right. rewrite list_insert_ge by lia. by rewrite E.
  - rewrite list_lookup_insert_ne by done. by right.
Qed.
Lemma slot_at_set_same t i s : 0 <= i < maxHandles t -> slot_at (set_slot t i s) i = s.
Proof. intros Hi. unfold slot_at, set_slot, maxHandles, blen in *. cbn. rewrite list_lookup_insert_eq by lia. done. Qed.

Lemma probe_in t start i : i ∈ probe_order t start -> 0 <= i < maxHandles t.
Proof.
  unfold probe_order, maxHandles, blen. intros (k & -> & Hk)%list_elem_of_fmap. apply Z.mod_pos_bound.
  apply list_elem_of_In, in_seq in Hk. lia.
Qed.

(** A claim records the path in the slot it returns. *)
Lemma claimed_slot instanceId bytes flags (n : node F) r n' : claimSlot instanceId bytes flags n = (inl r, n') ->
  fs n' = fs n /\ calls n' = calls n /\ localFds n' = localFds n /\
  match r with
  | None => forall k, slot_at (tbl n') k = slot_at (tbl n) k
  | Some (i, gen) => 0 <= i < maxHandles (tbl n) /\ s_state (slot_at (tbl n) i) = SLOT_FREE /\ gen = js_and (s_gen (slot_at (tbl n) i) + 1) 0xff /\
      slot_at (tbl n') i = Slot SLOT_CLAIMING gen flags instanceId bytes /\
      tbl n' = set_slot (Table (slots (tbl n)) (instances (tbl n)) (to_int32 (counter (tbl n) + 1)) (maxPathBytes (tbl n))) i (Slot SLOT_CLAIMING gen flags instanceId bytes)
  end.
Proof.
  unfold claimSlot, bind, get. set (t := Table _ _ _ _). destruct (List.find _ _) as [i|] eqn:Ef.
  - apply find_some in Ef as [Hin%list_elem_of_In Hfree]. apply probe_in in Hin. intros [= <- <-]. split_and!; try done; [apply Hin..|by apply Z.eqb_eq|by apply slot_at_set_same].
  - intros [= <- <-]. done.
Qed.
Lemma claim_returns instanceId bytes flags (n : node F) : exists r n', claimSlot instanceId bytes flags n = (inl r, n').
Proof. unfold claimSlot, bind, get. destruct (List.find _ _); by do 2 eexists. Qed.

Lemma fresh_slots mh mp mi t i : createNodeSyncFsIoTable mh mp mi = Ok t -> slot_at t i = Slot 0 0 0 0 [].
Proof.
  unfold createNodeSyncFsIoTable. destruct (_ || _); [done|]. intros [= <-]. unfold slot_at. cbn. destruct (repeat _ _ !! Z.to_nat i) eqn:E; [|done].
  by apply list_elem_of_lookup_2, list_elem_of_In, repeat_spec in E as ->.
Qed.
End tables.

(** The state before any call. *)
Definition start_world {F : Type} (t : table) (w : F) (insts : list (Z * list Z)) : world F :=
  World t w (map (fun x => Thread x.1 [] (Some x.2) []) insts).
