(* ===== verification/NodeToy.v ===== *)
(** A small file system with names, contents and descriptors, an instance of the interface of NodeFs.v on which the
    witnesses of its theorems run: every call works on the first entry of its path, a descriptor refers to the file of
    the path it was opened with, and directories only need to exist. *)
From Stdlib Require Import ZArith Lia.
From stdpp Require Import base list strings numbers.
From S2P Require Import Prelude JsText JsMap IoContract MemoryBackend NodeFs.
Open Scope Z_scope.

Record toyfs := Toy { toy_files : list (jsstring * list Z); toy_fds : list (Z * jsstring); toy_next : Z; toy_dirs : list jsstring }.

Definition toy_content (w : toyfs) (fd : Z) : option (jsstring * list Z) :=
  match map_get (toy_fds w) fd with Some p => (fun c => (p, c)) <$> map_get (toy_files w) p | None => None end.
Definition toy_open (w : toyfs) (p : jsstring) (m : mode) : (Z + io_thrown) * toyfs :=
  let opened files := (inl (toy_next w), Toy files (map_set (toy_fds w) (toy_next w) p) (toy_next w + 1) (toy_dirs w)) in
  match map_get (toy_files w) p with
  | Some c => if m_creat m && m_excl m then (inr (CodedError "EEXIST"), w) else opened (if m_trunc m then map_set (toy_files w) p [] else toy_files w)
  | None => if m_creat m then opened (map_set (toy_files w) p []) else (inr (CodedError "ENOENT"), w)
  end.
Definition toy_store (w : toyfs) (p : jsstring) (c : list Z) : toyfs := Toy (map_set (toy_files w) p c) (toy_fds w) (toy_next w) (toy_dirs w).
Definition bad_fd {A : Type} (w : toyfs) : (A + io_thrown) * toyfs := (inr (CodedError "EBADF"), w).
Definition toy_exists (w : toyfs) (p : jsstring) : bool := map_has (toy_files w) p || bool_decide (p ∈ toy_dirs w).

#[global] Instance toy_syscalls : Syscalls toyfs := {
  sys_open := toy_open;
  sys_close w fd := if map_has (toy_fds w) fd then (inl tt, Toy (toy_files w) (map_delete (toy_fds w) fd) (toy_next w) (toy_dirs w)) else bad_fd w;
  sys_read w fd n a := match toy_content w fd with Some (_, c) => (inl (subarray c a (a + n)), w) | None => bad_fd w end;
  sys_write w fd v a := match toy_content w fd with Some (p, c) => (inl (blen v), toy_store w p (written c v a)) | None => bad_fd w end;
  sys_truncate w fd n := match toy_content w fd with Some (p, c) => (inl tt, toy_store w p (resized c n)) | None => bad_fd w end;
  sys_fdatasync w fd := if map_has (toy_fds w) fd then (inl tt, w) else bad_fd w;
  sys_size w fd := match toy_content w fd with Some (_, c) => (inl (blen c), w) | None => bad_fd w end;
  sys_unlink w p := if map_has (toy_files w) p then (inl tt, Toy (map_delete (toy_files w) p) (toy_fds w) (toy_next w) (toy_dirs w)) else (inr (CodedError "ENOENT"), w);
  sys_mkdir w p := if toy_exists w p then (inr (CodedError "EEXIST"), w) else (inl tt, Toy (toy_files w) (toy_fds w) (toy_next w) (p :: toy_dirs w));
  sys_syncdir w p := (inl tt, w);
  exists_path := toy_exists;
  realpath w p := if toy_exists w p then Some p else None
}.

(** The root /srv/db, empty, next to a file outside it. *)
Definition toy_root : list jsstring := [lit "srv"; lit "db"].
Definition outside_file : jsstring := lit "/srv/secret".
Definition toy_start : toyfs := Toy [(outside_file, [7; 7])] [] 3 [lit "/"; lit "/srv"; lit "/srv/db"].
Definition toy_table (handles : Z) : table := match createNodeSyncFsIoTable (Some handles) None (Some 2) with Ok t => t | Throw _ => Table [] [] 0 0 end.
Definition rw_create : Z := 0x107.
