(* ===== verification/NodePaths.v ===== *)
(** The paths the Node provider (NodeFs.v) hands to the file system stay below the root.

    The texts of paths: what a decoder returns is a well-formed text, and the components of a well-formed text that does
    not start with a byte-order mark make the round trip through the table of handles. Then: in every sequence of
    operations, every path that is opened, removed or looked at with [statSync] is the root with proper names behind it; the
    directories that are made and synced are the root or below it, and if the root itself has to be made, its parent is synced.
    A path that starts with two byte-order marks breaks this. Operations are taken one at a time, as in NodeFs.v. The look-ups
    [existsSync] and [realpathSync], with which a path's ancestors are searched upwards, are questions to the file system ([exists_path],
    [realpath]) and not among the recorded calls. *)
From Stdlib Require Import ZArith Lia.
From stdpp Require Import base list strings numbers.
From S2P Require Import Prelude JsText JsMap IoContract MemoryBackend NodeFs NodeToy.
Open Scope Z_scope.

(** ** Decoded texts *)

(** The bytes that are still to come make a scalar value. *)
Fixpoint completes (needed : nat) (lower upper cp : Z) : Prop :=
  match needed with
  | O => True
  | S n => forall x, lower <= x <= upper -> match n with O => is_scalar (cp * 64 + (x - 0x80)) | S _ => completes n 0x80 0xBF (cp * 64 + (x - 0x80)) end
  end.

Lemma utf8_loop_scalars b : Forall (fun x => 0 <= x) b -> forall needed lower upper cp, completes needed lower upper cp -> Forall is_scalar (utf8_loop needed lower upper cp b).
Proof.
  assert (Hr : is_scalar REPLACEMENT) by (right; unfold REPLACEMENT; lia).
  induction 1 as [|x b Hx Hb IH]; intros needed lower upper cp Hc; [destruct needed; repeat constructor; done|]. cbn [utf8_loop]. cbv zeta.
  match goal with |- context [match needed with O => ?f | S _ => _ end] => set (first := f) end.
  assert (Hf : Forall is_scalar first).
  { unfold first. destruct (Z.leb_spec x 0x7F); [constructor; [left; lia|by apply IH]|].
    destruct (Z.leb_spec 0xC2 x), (Z.leb_spec x 0xDF); cbn [andb]; try (apply IH; cbn; unfold is_scalar; lia).
    all: destruct (Z.leb_spec 0xE0 x), (Z.leb_spec x 0xEF); cbn [andb]; try (constructor; [done|by apply IH]);
         try (apply IH; cbn; unfold is_scalar; intros y Hy z Hz; destruct (Z.eqb_spec x 0xE0), (Z.eqb_spec x 0xED); lia).
    all: destruct (Z.leb_spec 0xF0 x), (Z.leb_spec x 0xF4); cbn [andb]; try (constructor; [done|by apply IH]);
         try (apply IH; cbn; unfold is_scalar; intros y Hy z Hz u Hu; destruct (Z.eqb_spec x 0xF0), (Z.eqb_spec x 0xF4); lia). }
  destruct needed as [|n]; [done|]. destruct (Z.leb_spec lower x), (Z.leb_spec x upper); cbn [andb]; try (by constructor).
  specialize (Hc x ltac:(lia)). destruct n as [|n]; [constructor; [done|by apply IH]|by apply IH].
Qed.

(** A text: code units without lone surrogates. *)
Definition is_text (s : jsstring) : Prop := Forall is_unit s /\ isWellFormed s = true.

Lemma wellformed_scalars cs : Forall is_scalar cs -> is_text (flat_map utf16 cs).
Proof.
  induction 1 as [|c cs Hc _ [IH1 IH2]]; [by split|]. cbn [flat_map]. unfold utf16. destruct (Z.ltb_spec c 0x10000).
  - cbn [app]. split; [constructor; [unfold is_unit, is_scalar in *; lia|done]|]. cbn. unfold is_high, is_low.
    destruct Hc; destruct (Z.leb_spec 0xD800 c), (Z.leb_spec c 0xDBFF), (Z.leb_spec 0xDC00 c), (Z.leb_spec c 0xDFFF); try lia; done.
  - pose proof (Z.mod_pos_bound (c - 0x10000) 0x400 ltac:(lia)). assert (0 <= (c - 0x10000) / 0x400 <= 0x3FF).
    { split; [apply Z.div_pos; lia|]. unfold is_scalar in Hc. apply Z.lt_succ_r. apply Z.div_lt_upper_bound; lia. }
    cbn [app]. split; [repeat constructor; try (unfold is_unit; lia); done|]. cbn [isWellFormed]. unfold is_high, is_low.
    set (h := (c - 0x10000) / 0x400) in *. set (l := (c - 0x10000) mod 0x400) in *.
    destruct (Z.leb_spec 0xD800 (0xD800 + h)), (Z.leb_spec (0xD800 + h) 0xDBFF), (Z.leb_spec 0xDC00 (0xDC00 + l)), (Z.leb_spec (0xDC00 + l) 0xDFFF); try lia; done.
Qed.

Lemma decoded_is_text b : Forall (fun x => 0 <= x) b -> is_text (text_decode b).
Proof.
  intros Hb. apply wellformed_scalars. assert (H : Forall is_scalar (utf8_scalars b)) by (by apply utf8_loop_scalars).
  unfold strip_bom. destruct H; [constructor|]. destruct (_ =? _); [done|by constructor].
Qed.

Lemma text_cut s a c b : is_high c = false -> is_low c = false -> s = a ++ c :: b -> is_text s <-> is_text a /\ is_unit c /\ is_text b.
Proof.
  intros Hh Hl ->. unfold is_text. rewrite list.Forall_app, list.Forall_cons.
  enough (H : isWellFormed (a ++ c :: b) = isWellFormed a && isWellFormed b) by (rewrite H, andb_true_iff; tauto).
  remember (List.length a) as n eqn:En. revert a En. induction n as [n IH] using lt_wf_ind. intros a ->.
  destruct a as [|u [|l a]]; cbn [app isWellFormed].
  - by rewrite Hh, Hl.
  - rewrite Hl. destruct (is_high u); [done|]. rewrite Hh. cbn. destruct (is_low u); done.
  - destruct (is_high u).
    + rewrite (IH (List.length a) ltac:(cbn; lia) a eq_refl). by destruct (is_low l).
    + rewrite <- andb_assoc. f_equal. exact (IH (S (List.length a)) ltac:(cbn; lia) (l :: a) eq_refl).
Qed.

Lemma slash_cut a b : is_text (a ++ SLASH :: b) <-> is_text a /\ is_text b.
Proof. rewrite (text_cut _ a SLASH b eq_refl eq_refl eq_refl). unfold is_unit, SLASH. split; [tauto|]. intros []. split_and!; try done; lia. Qed.

Lemma split_texts s : is_text s -> Forall is_text (split_on SLASH s).
Proof.
  remember (List.length s) as n eqn:En. revert s En. induction n as [n IH] using lt_wf_ind. intros s -> Hs.
  destruct (split_on SLASH s) as [|a rest] eqn:E; [constructor|]. destruct (split_on_inv _ _ _ _ E) as [Ha Hr]. constructor.
  - destruct Hr as [[_ ->]|(s' & -> & _)]; [done|]. by apply slash_cut in Hs as [? _].
  - destruct Hr as [[-> _]|(s' & -> & <-)]; [constructor|]. apply slash_cut in Hs as [_ Hs]. apply (IH (List.length s')); [|done..]. rewrite length_app. cbn. lia.
Qed.

Lemma join_texts l : Forall is_text l -> is_text (join_path l).
Proof.
  destruct 1 as [|w ws Hw Hws]; [by split|]. cbn [join_path]. revert w Hw. induction Hws as [|v vs Hv _ IH]; intros w Hw; cbn [flat_map]; [by rewrite app_nil_r|].
  cbn [app]. apply slash_cut. split; [done|]. by apply IH.
Qed.

(** ** Paths as components *)

(** A proper name of a directory entry. *)
Definition proper (c : jsstring) : Prop := c <> [] /\ c <> lit "." /\ c <> lit ".." /\ (SLASH ∉ c).

Lemma str_eqb_false a b : a <> b -> str_eqb a b = false.
Proof. intros H. destruct (str_eqb a b) eqn:E; [|done]. by apply str_eqb_eq in E. Qed.

Lemma push_proper C acc : Forall proper C -> fold_left push_component C acc = acc ++ C.
Proof.
  intros H. revert acc. induction H as [|c C (H1 & H2 & H3 & _) _ IH]; intros acc; cbn [fold_left]; [by rewrite app_nil_r|].
  unfold push_component at 2. rewrite !str_eqb_false by done. cbn [orb]. rewrite IH, <- app_assoc. done.
Qed.

Lemma split_app c a b : split_on c (a ++ c :: b) = split_on c a ++ split_on c b.
Proof.
  induction a as [|x a IH]; cbn [app split_on]; [by rewrite Z.eqb_refl|]. rewrite IH. destruct (x =? c); [done|].
  destruct (split_on c a) as [|w ws] eqn:E; [by apply split_on_nil_not in E|]. done.
Qed.

Lemma split_names C : C <> [] -> Forall proper C -> split_on SLASH (join_path C) = C.
Proof. intros Hne HC. apply split_join; [done|]. eapply list.Forall_impl; [exact HC|]. by intros c (_ & _ & _ & ?). Qed.

Lemma push_absolute C acc : Forall proper C -> fold_left push_component (split_on SLASH (absolute C)) acc = acc ++ C.
Proof.
  intros HC. unfold absolute. cbn [split_on Z.eqb Pos.eqb SLASH]. cbn [fold_left]. change (push_component acc []) with acc.
  destruct C as [|c C]; [cbn; by rewrite app_nil_r|]. rewrite split_names by done. by apply push_proper.
Qed.

Lemma absolute_inj X Y : Forall proper X -> Forall proper Y -> absolute X = absolute Y -> X = Y.
Proof. intros HX HY E. apply (push_absolute X []) in HX. apply (push_absolute Y []) in HY. rewrite E in HX. cbn in *. congruence. Qed.

Lemma join_below R C : Forall proper R -> C <> [] -> Forall proper C -> join_root (absolute R) (join_path C) = absolute (R ++ C).
Proof.
  intros HR Hne HC. unfold join_root, normalize. rewrite split_app, fold_left_app, push_absolute by done. rewrite split_names by done. by rewrite push_proper.
Qed.

Lemma absolute_snoc X c : absolute (X ++ [c]) = (if bool_decide (X = []) then [] else absolute X) ++ SLASH :: c.
Proof.
  destruct X as [|x X]; [unfold absolute; cbn; by rewrite app_nil_r|]. rewrite bool_decide_eq_false_2 by done. unfold absolute. cbn. f_equal. rewrite flat_map_app.
  cbn. rewrite app_nil_r, <- app_assoc. done.
Qed.

Lemma before_last_slash_at p c : SLASH ∉ c -> before_last_slash (p ++ SLASH :: c) = Some p.
Proof.
  intros Hc. assert (Hn : before_last_slash c = None).
  { induction c as [|x c IH]; [done|]. apply not_elem_of_cons in Hc as [H1 H2]. cbn. rewrite IH by done. by destruct (Z.eqb_spec x SLASH). }
  induction p as [|x p IH]; cbn; [by rewrite Hn|]. by rewrite IH.
Qed.

Lemma dirname_absolute X c : proper c -> dirname (absolute (X ++ [c])) = absolute X.
Proof.
  intros (_ & _ & _ & Hc). unfold dirname. rewrite absolute_snoc, before_last_slash_at by done. case_bool_decide as E; [by rewrite E|]. done.
Qed.

Lemma last_name c : proper c -> list.last c <> Some SLASH.
Proof. intros (_ & _ & _ & Hc) E. apply Hc. apply last_Some in E as [l ->]. apply elem_of_app. right. apply list_elem_of_here. Qed.

(** What is inside the root has the root's components in front. *)
Lemma within_prefix X R : Forall proper X -> Forall proper R -> within (absolute X) (absolute R) = true -> exists Y, X = R ++ Y.
Proof.
  intros HX HR. unfold within. destruct (str_eqb (absolute X) (absolute R)) eqn:E; [apply str_eqb_eq in E; apply absolute_inj in E as ->; [|done..]; exists []; by rewrite app_nil_r|].
  cbn [orb]. unfold starts_with. rewrite bool_decide_eq_true. destruct (decide (R = [])) as [->|Hne]; [by exists X|]. intros Ht.
  assert (Hs : ends_with_slash (absolute R) = false).
  { unfold ends_with_slash. apply bool_decide_eq_false_2. destruct (exists_last Hne) as (R' & c & ->). apply list.Forall_app in HR as [_ HR]. apply list.Forall_cons in HR as [HR _].
    rewrite absolute_snoc. intros El. apply (last_name c HR). destruct HR as (Hc & _). destruct c as [|x c]; [done|].
    rewrite <- El, last_app_cons, last_cons_cons. done. }
  rewrite Hs in Ht.
  assert (Hcut : exists rest, absolute X = absolute R ++ SLASH :: rest).
  { exists (drop (List.length (absolute R ++ [SLASH])) (absolute X)). rewrite <- (take_drop (List.length (absolute R ++ [SLASH])) (absolute X)) at 1. rewrite Ht, <- app_assoc. done. }
  destruct Hcut as (rest & Hcut). pose proof (push_absolute X [] HX) as HpX. rewrite Hcut, split_app, fold_left_app, (push_absolute R []) in HpX by done. cbn in HpX.
  assert (Hsp : split_on SLASH (absolute X) = [] :: match X with [] => [[]] | _ => X end).
  { unfold absolute. cbn. f_equal. destruct X; [done|]. by apply split_names. }
  assert (HspR : split_on SLASH (absolute R) = [] :: R) by (unfold absolute; cbn; f_equal; by apply split_names).
  rewrite Hcut, split_app, HspR in Hsp. injection Hsp as Hsp. destruct X as [|x X].
  - destruct R as [|r R]; [done|]. injection Hsp as -> _. apply list.Forall_cons in HR as [(? & _) _]. done.
  - exists (split_on SLASH rest). done.
Qed.

(** ** Calls of the provider *)

(** The path some bytes name below the root starts with a byte-order mark. *)
Definition marked (bytes : list Z) : Prop :=
  exists decoded components, decodeFlatsqlIoPath bytes = inl decoded /\ splitFlatsqlIoPath decoded = inl components /\ head (join_path components) = Some 0xFEFF.

Lemma relative_names t bytes relative : Forall (fun x => 0 <= x) bytes -> relative_path t bytes = inl relative -> ~ marked bytes ->
  exists C, C <> [] /\ Forall proper C /\ relative = join_path C /\ text_decode (text_encode relative) = relative.
Proof.
  intros Hb Hr Hm. unfold relative_path in Hr. destruct (decodeFlatsqlIoPath bytes) as [decoded|] eqn:Ed; [|done].
  destruct (splitFlatsqlIoPath decoded) as [C|] eqn:Es; [|done]. destruct (_ <? _); [done|]. injection Hr as <-.
  assert (Hd : is_text decoded).
  { unfold decodeFlatsqlIoPath in Ed. destruct (_ || _); [done|]. unfold decode_fatal in Ed. destruct (bool_decide _); [|done]. injection Ed as <-. by apply decoded_is_text. }
  pose proof Es as Es'. unfold splitFlatsqlIoPath in Es. destruct (bool_decide _); [done|]. destruct (existsb _ _); [done|].
  destruct (path_components (split_on 47 decoded)) as [[|c C']|] eqn:Ep; [done| |done]. injection Es as <-.
  assert (Hsub : forall parts l, path_components parts = inl l -> forall x, x ∈ l -> x ∈ parts).
  { induction parts as [|q parts IH]; cbn [path_components]; intros l Hl x Hx; [injection Hl as <-; done|].
    destruct (_ || _); [right; by eapply IH|]. destruct (str_eqb _ _); [done|]. destruct (path_components parts) as [l'|]; [|done].
    injection Hl as <-. apply elem_of_cons in Hx as [->|Hx]; [left|right; by eapply IH]. }
  exists (c :: C'). split_and!; [done| |done|].
  - pose proof (path_components_confined decoded _ _ (split_parts 47 decoded) Ep) as Hc. eapply list.Forall_impl; [exact Hc|]. by intros x (? & ? & ? & ? & _).
  - assert (Ht : is_text (join_path (c :: C'))).
    { apply join_texts, list.Forall_forall. intros x Hx. pose proof (split_texts decoded Hd) as Hs. rewrite list.Forall_forall in Hs. apply Hs. by eapply Hsub. }
    destruct Ht. apply text_decode_encode; [done..|]. intros Hh. apply Hm. by exists decoded, (c :: C').
Qed.

Section confinement.
Context {F : Type} `{!Syscalls F} (R : list jsstring) (realRoot : jsstring) (instanceId : Z).
Context (HR : Forall proper R).
Abbreviation root := (absolute R).
Implicit Types n : node F.

(** A path inside the root is the root and at least one proper name; one from the root down may be the root. *)
Definition inside_root (p : jsstring) : Prop := exists C, C <> [] /\ Forall proper C /\ p = absolute (R ++ C).
Definition from_root (p : jsstring) : Prop := exists C, Forall proper C /\ p = absolute (R ++ C).
Definition root_parent : jsstring := absolute (removelast R).
(** What is done to a path. The calls that take a descriptor name none. *)
Definition call_below (c : syscall) : Prop :=
  match c with
  | Open p _ | Stat p | Unlink p => inside_root p
  | Mkdir p => from_root p
  | SyncDir p => from_root p \/ p = root_parent
  | Close _ | ReadAt _ _ _ | WriteAt _ _ _ | Truncate _ _ | Fdatasync _ | Fstat _ => True
  end.

Lemma parent_from_root C : C <> [] -> Forall proper C -> from_root (dirname (absolute (R ++ C))).
Proof.
  intros Hne HC. destruct (exists_last Hne) as (C' & c & ->). apply list.Forall_app in HC as [HC' Hc]. apply list.Forall_cons in Hc as [Hc _].
  exists C'. split; [done|]. by rewrite app_assoc, dirname_absolute.
Qed.
Lemma parent_of_inside p : inside_root p -> call_below (SyncDir (dirname p)).
Proof. intros (C & Hne & HC & ->). left. by apply parent_from_root. Qed.
Lemma parent_of_made p : from_root p -> call_below (SyncDir (dirname p)).
Proof.
  intros (C & HC & ->). destruct (decide (C = [])) as [->|Hne]; [|left; by apply parent_from_root]. right. rewrite app_nil_r. unfold root_parent.
  destruct (decide (R = [])) as [E|Hne]; [by rewrite E|]. destruct (exists_last Hne) as (R' & c & E). rewrite E in HR |- *. apply list.Forall_app in HR as [_ Hc].
  apply list.Forall_cons in Hc as [Hc _]. by rewrite dirname_absolute, removelast_last.
Qed.

(** The path of a live slot is made of proper names, and reads back. *)
Definition slot_names (s : slot) : Prop :=
  exists C, C <> [] /\ Forall proper C /\ text_decode (s_path s) = join_path C.
Definition names_ok (t : table) : Prop := forall i, s_state (slot_at t i) = SLOT_LIVE -> slot_names (slot_at t i).
Definition confined_node n : Prop := names_ok (tbl n) /\ Forall call_below (calls n).

Abbreviation kept := (kept confined_node).
Abbreviation keeps := (keeps confined_node).

Lemma keeps_call {A} c (f : F -> (A + io_thrown) * F) : call_below c -> keeps (call c f).
Proof. intros Hc n [H1 H2]. unfold kept, call. destruct (f (fs n)) as [r w]. split; [done|]. cbn. apply list.Forall_app. split; [done|by constructor]. Qed.
Lemma keeps_fds l : keeps (@set_fds F l).
Proof. by intros n H. Qed.
Lemma keeps_mem m : keeps (@set_mem F m).
Proof. by intros n H. Qed.
Lemma kept_tbl t n : confined_node n -> names_ok t -> kept (set_tbl t) n.
Proof. by intros [_ H] Ht. Qed.

Lemma names_set t i s : names_ok t -> (s_state s = SLOT_LIVE -> slot_names s) -> names_ok (set_slot t i s).
Proof. intros H Hs k. destruct (slot_at_set t i k s) as [[-> _]| ->]; [done|apply H]. Qed.
Lemma keeps_state i v : v <> SLOT_LIVE -> keeps (@set_state F i v).
Proof. intros Hv. apply keeps_get. intros n Hn. apply kept_tbl; [done|]. apply names_set; [apply Hn|]. done. Qed.

Hint Resolve keeps_fds keeps_mem : keeps.
Hint Extern 5 (NodeFs.keeps _ (call _ _)) => apply keeps_call; exact I : keeps.

Lemma keeps_close_quietly fd : keeps (close_quietly fd).
Proof. unfold close_quietly. keep. Qed.
Lemma keeps_forget i : keeps (@forget_fd F i).
Proof. by intros n H. Qed.
Hint Resolve keeps_close_quietly keeps_forget : keeps.
Lemma keeps_sweep : keeps sweep.
Proof.
  unfold sweep. apply keeps_get. intros n Hn. revert n Hn. enough (H : forall l, keeps (sweep_over l)) by (intros n; apply H).
  induction l as [|[i [gen fd]] l IH]; cbn [sweep_over]; [auto with keeps|]. apply keeps_get. intros n Hn. revert Hn. apply (keeps_bind _ _); [keep|done].
Qed.
Hint Resolve keeps_sweep : keeps.

Lemma names_instances f t : names_ok (change_instance instanceId f t) <-> names_ok t.
Proof. done. Qed.
Lemma keeps_leave : keeps (leave instanceId).
Proof. apply keeps_get. intros n Hn. case_match; [by apply keeps_ret|]. by apply kept_tbl; [|apply Hn]. Qed.
Hint Resolve keeps_leave : keeps.
Lemma keeps_enter : keeps (enter instanceId).
Proof.
  apply keeps_get. intros n Hn. case_match; [by apply keeps_ret|]. case_match; [|by apply keeps_throw]. apply kept_bind; [by apply kept_tbl; [|apply Hn]|].
  intros v n' [= <- <-]. assert (Hn' : confined_node (Node (change_instance instanceId (in_flight_add 1) (tbl n)) (localFds n) (fs n) (mem n) (calls n))) by apply Hn.
  clear Hn. everywhere. keep.
Qed.
Lemma keeps_guarded fn : keeps fn -> keeps (guarded instanceId fn).
Proof. intros H. unfold guarded. apply keeps_bind; [apply keeps_enter|]. intros b. keep. Qed.

Lemma reopen_below n i : confined_node n -> s_state (slot_at (tbl n) i) = SLOT_LIVE -> inside_root (join_root root (slotPath (tbl n) i)).
Proof.
  intros [Hn _] Hl. destruct (Hn i Hl) as (C & Hne & HC & E). exists C. split; [done|]. split; [done|]. unfold slotPath. rewrite E. by apply join_below.
Qed.

Lemma keeps_fdFor h : keeps (fdFor root h).
Proof.
  unfold fdFor. apply keeps_get. intros n Hn. case_match; [by apply keeps_ret|]. case_match; [by apply keeps_ret|]. cbv zeta.
  destruct (_ || _) eqn:El.
  - everywhere. keep.
  - apply orb_false_iff in El as [El _]. apply negb_false_iff, Z.eqb_eq in El. pose proof (reopen_below n _ Hn El) as Hb.
    match goal with |- context [catch ?m ?k] => set (reopen := catch m k) end.
    assert (Hr : keeps reopen).
    { unfold reopen. apply keeps_catch; [|auto with keeps]. apply keeps_bind; [by apply keeps_call|]. intros fd. apply keeps_get. intros n' Hn'. clear Hn. everywhere. keep. }
    everywhere. keep.
Qed.
Hint Resolve keeps_fdFor : keeps.

Lemma keeps_read_loop fuel : forall fd p l o d, keeps (read_loop fuel fd p l o d).
Proof.
  induction fuel as [|fuel IH]; intros fd p l o d; cbn [read_loop]; keep. apply keeps_get. intros n Hn. everywhere. keep.
Qed.
Lemma keeps_write_loop fuel : forall fd p l o d, keeps (write_loop fuel fd p l o d).
Proof.
  induction fuel as [|fuel IH]; intros fd p l o d; cbn [write_loop]; keep. apply keeps_get. intros n Hn. everywhere. keep.
Qed.
Hint Resolve keeps_read_loop keeps_write_loop : keeps.
Lemma keeps_writable h k : keeps k -> keeps (writable h k).
Proof. intros Hk. apply keeps_get. intros n Hn. case_match; [by apply Hk|by apply keeps_ret]. Qed.
Lemma keeps_on_view p l k : keeps k -> keeps (on_view p l k).
Proof. intros Hk. unfold on_view. case_match; [auto with keeps|]. apply keeps_get. intros n Hn. case_match; [by apply Hk|by apply keeps_ret]. Qed.
Hint Resolve keeps_writable keeps_on_view keeps_guarded : keeps.

Lemma keeps_read h p l o : keeps (read root instanceId h p l o).
Proof. apply keeps_guarded, keeps_on_view. unfold readView. keep. Qed.
Lemma keeps_write h p l o : keeps (write root instanceId h p l o).
Proof. apply keeps_guarded, keeps_on_view. unfold writeView. keep. Qed.
Lemma keeps_truncate h z : keeps (truncate root instanceId h z).
Proof. apply keeps_guarded. keep. apply keeps_writable. keep. Qed.
Lemma keeps_sync h : keeps (sync root instanceId h).
Proof. apply keeps_guarded. keep. Qed.
Lemma keeps_size h : keeps (size root instanceId h).
Proof. apply keeps_guarded. keep. Qed.

Lemma keeps_close h : keeps (close root h).
Proof.
  unfold close. apply keeps_catch; [|auto with keeps]. apply keeps_get. intros n Hn. cbv zeta. do 4 (case_match; [by apply keeps_ret|]).
  assert (Hb : inside_root (join_root root (slotPath (tbl n) (handle_slot h)))).
  { apply reopen_below; [done|]. by apply Z.eqb_eq, negb_false_iff. }
  everywhere.
  apply keeps_bind; [by apply keeps_state|]. intros _. apply keeps_bind; [keep|]. intros _. apply keeps_bind; [by apply keeps_state|]. intros _. keep. by apply keeps_call.
Qed.

Lemma dirname_proper X : Forall proper X -> exists Y, Forall proper Y /\ dirname (absolute X) = absolute Y.
Proof.
  intros HX. destruct (decide (X = [])) as [->|Hne]; [by exists []|]. destruct (exists_last Hne) as (X' & c & ->).
  apply list.Forall_app in HX as [HX' Hc]. apply list.Forall_cons in Hc as [Hc _]. exists X'. split; [done|by apply dirname_absolute].
Qed.
Lemma missing_proper fuel w : forall X acc, Forall proper X -> Forall (fun d => exists P, Forall proper P /\ d = absolute P) acc ->
  Forall (fun d => exists P, Forall proper P /\ d = absolute P) (missing_dirs fuel w (absolute X) acc).
Proof.
  induction fuel as [|fuel IH]; intros X acc HX Hacc; cbn [missing_dirs]; case_match; try done; case_match; try (by constructor; [exists X|]).
  destruct (dirname_proper X HX) as (Y & HY & ->). apply IH; [done|]. constructor; [by exists X|done].
Qed.
Lemma keeps_make_dirs dirs : Forall (fun d => exists P, Forall proper P /\ d = absolute P) dirs -> keeps (make_dirs root dirs).
Proof.
  induction 1 as [|d dirs (P & HP & ->) _ IH]; cbn [make_dirs]; [auto with keeps|]. destruct (within (absolute P) root) eqn:Ew; cbn [negb]; [|auto with keeps].
  destruct (within_prefix P R HP HR Ew) as (Y & ->). apply list.Forall_app in HP as [_ HY].
  assert (Hf : from_root (absolute (R ++ Y))) by (by exists Y).
  apply keeps_bind; [|intros _; keep; by apply keeps_call, parent_of_made]. apply keeps_catch; [by apply keeps_call|]. intros e. keep.
Qed.

Lemma inside_of C : C <> [] -> Forall proper C -> inside_root (absolute (R ++ C)).
Proof. by exists C. Qed.

Lemma recorded c l : call_below c -> Forall call_below l -> Forall call_below (l ++ [c]).
Proof. intros Hc Hl. apply list.Forall_app. split; [done|]. by constructor. Qed.

Lemma kept_open_claimed i gen full m created n : confined_node n -> inside_root full -> slot_names (slot_at (tbl n) i) -> kept (open_claimed i gen full m created) n.
Proof.
  intros [Hn Hc] Hb Hs. pose proof (parent_of_inside _ Hb) as Hp. unfold kept, open_claimed, set_state, set_tbl, bind, catch, call, ret, get, set_fds.
  destruct (sys_open (fs n) full m) as [[fd|e] w]; cbn; cycle 1.
  { split; [by apply names_set|]. cbn. by apply recorded. }
  assert (Hc1 : Forall call_below (calls n ++ [Open full m])) by (by apply recorded).
  destruct created; cbn.
  - destruct (sys_syncdir w (dirname full)) as [[u|e] w1]; cbn.
    + split; [apply names_set; [done|by intros _]|]. cbn. by apply recorded.
    + destruct (sys_close w1 fd) as [[u|e'] w2]; cbn; (split; [try done; by apply names_set|]; cbn; apply recorded; [done|by apply recorded]).
  - split; [apply names_set; [done|by intros _]|]. done.
Qed.

Lemma keeps_openInternal bytes flags : Forall (fun x => 0 <= x) bytes -> ~ marked bytes -> keeps (openInternal root realRoot instanceId bytes flags).
Proof.
  intros Hby Hm. apply keeps_get. intros n Hn. destruct (relative_path (tbl n) bytes) as [relative|] eqn:Er; [|by apply keeps_ret].
  destruct (relative_names _ _ _ Hby Er Hm) as (C & Hne & HC & -> & Hback).
  unfold resolvePath. rewrite (join_below R C) by done. pose proof (inside_of C Hne HC) as Hb. pose proof (parent_of_inside _ Hb) as Hp. set (full := absolute (R ++ C)) in *.
  assert (HRC : Forall proper (R ++ C)) by (by apply list.Forall_app).
  destruct (negb (within full root)); [by apply keeps_ret|]. destruct (ancestor_inside _ _ _ _ _); [|by apply keeps_ret]. everywhere.
  case_match; [keep; by apply keeps_call|]. case_match; [case_match; [auto with keeps|]; unfold unlink_path; keep; (by apply keeps_call)|]. cbv zeta.
  apply keeps_bind; [auto with keeps|]. intros _. apply keeps_bind.
  { apply keeps_catch; [|auto with keeps]. apply keeps_bind; [|auto with keeps]. case_match; [|auto with keeps]. apply keeps_get. intros n1 Hn1. clear Hn. everywhere.
    apply keeps_make_dirs. destruct (dirname_proper (R ++ C) HRC) as (Y & HY & E). fold full in E. rewrite E. by apply missing_proper. }
  intros [e|]; [auto with keeps|]. apply keeps_get. intros n1 Hn1. clear Hn.
  apply kept_bind.
  - unfold kept. destruct (claimSlot instanceId (text_encode (join_path C)) flags n1) as [r n2] eqn:Ec. cbn. destruct r as [r|e]; [|unfold claimSlot, bind, get in Ec; by repeat case_match; simplify_eq].
    apply claimed_slot in Ec as (_ & Ecalls & _ & Ec). destruct Hn1 as [Hn1 Hc1]. split; [|by rewrite Ecalls]. destruct r as [[i gen]|].
    + destruct Ec as (_ & _ & _ & _ & ->). by apply names_set.
    + intros k. rewrite Ec. apply Hn1.
  - intros r n2 Ec. apply claimed_slot in Ec as (_ & Ecalls & _ & Ec). destruct Hn1 as [Hn1 Hc1]. destruct r as [[i gen]|].
    + destruct Ec as (_ & _ & _ & Es & Et). apply kept_open_claimed; [|done|].
      * split; [|by rewrite Ecalls]. rewrite Et. by apply names_set.
      * rewrite Es. exists C. done.
    + split; [|cbn; by rewrite Ecalls]. cbn. intros k. rewrite Ec. apply Hn1.
Qed.

Lemma keeps_op o : (forall bytes flags, o = OOpen bytes flags -> Forall (fun x => 0 <= x) bytes /\ ~ marked bytes) -> keeps (run_op root realRoot instanceId o).
Proof.
  intros Ho. destruct o; cbn [run_op]; auto using keeps_read, keeps_write, keeps_truncate, keeps_sync, keeps_size, keeps_close.
  - apply keeps_guarded. destruct (Ho _ _ eq_refl). by apply keeps_openInternal.
  - assert (Hall : forall l, keeps (close_all l)) by (induction l as [|[? [? ?]] l IH]; cbn [close_all]; keep).
    apply keeps_bind; [|auto with keeps]. apply keeps_get. intros n Hn. everywhere. keep.
Qed.
End confinement.

Section runs.
Context {F : Type} `{!Syscalls F} (R : list jsstring) (realRoot : jsstring) (HR : Forall proper R).

Definition confined_world (w : world F) : Prop :=
  names_ok (w_tbl w) /\ Forall (fun t => Forall (call_below R) (t_calls t)) (threads w).

(** No action opens a path that starts with a byte-order mark. *)
Definition unmarked (a : action) : Prop :=
  match a with Act _ (OOpen bytes _) => Forall (fun x => 0 <= x) bytes /\ ~ marked bytes | _ => True end.

Lemma perform_confined w a : confined_world w -> unmarked a -> confined_world (perform (absolute R) realRoot w a).
Proof.
  intros [Hn Hc] Hu. destruct a as [k o|i|i]; cbn [perform].
  - destruct (threads w !! k) as [t|] eqn:Ek; [|done].
    destruct (keeps_op R realRoot (t_instance t) HR o) with (n := node_of w t) as [H1 H2].
    + intros bytes flags ->. done.
    + split; [done|]. cbn. rewrite list.Forall_forall in Hc. apply Hc. by eapply list_elem_of_lookup_2.
    + split; [done|]. cbn. by apply Forall_insert.
  - split; [|done]. unfold revokeNodeSyncFsIoInstance. by destruct (_ || _).
  - done.
Qed.

Lemma run_confined acts : forall w, confined_world w -> Forall unmarked acts -> confined_world (run (absolute R) realRoot w acts).
Proof.
  induction acts as [|a acts IH]; intros w Hw Ha; [done|]. apply list.Forall_cons in Ha as [Ha Has]. cbn. apply IH; [|done]. by apply perform_confined.
Qed.
End runs.

(** C25. Guests stay below the root: in any sequence of operations of any threads on one table, one operation at a time, with instances revoked and reset in
    between and whatever the file system answers, every path that is opened, unlinked or looked up with [statSync] is the root followed by at least one proper
    name, and every directory that is made is the root or the root followed by proper names; every directory that is synced is the
    root, the root followed by proper names, or the parent of the root (which is synced after the root itself has been made). This holds as long as no guest opens a path that
    starts, behind its leading slashes, with a byte-order mark. *)
Theorem paths_stay_below_root {F : Type} `{!Syscalls F} R realRoot mh mp mi t (w : F) insts acts :
  Forall proper R -> createNodeSyncFsIoTable mh mp mi = Ok t -> Forall unmarked acts ->
  forall th c, th ∈ threads (run (absolute R) realRoot (start_world t w insts) acts) -> c ∈ t_calls th -> call_below R c.
Proof.
  intros HR Ht Ha th c Hth Hc. destruct (run_confined R realRoot HR acts (start_world t w insts)) as [_ H]; [|done|].
  - split; [intros i; cbn; rewrite (fresh_slots _ _ _ _ i Ht); done|]. cbn. apply list.Forall_forall. intros x (y & -> & _)%list_elem_of_fmap. constructor.
  - rewrite list.Forall_forall in H. specialize (H th Hth). rewrite list.Forall_forall in H. by apply H.
Qed.

Definition two_threads (handles : Z) : world toyfs := start_world (toy_table handles) toy_start [(0, [1; 2; 3; 4]); (0, [0; 0; 0; 0])].
(** A thread makes a file below a new directory and writes to it; another thread reads it and closes the handle. *)
Definition plain_acts : list action :=
  [Act 0 (OOpen (text_encode (lit "/p/a.bin")) rw_create); Act 0 (OWrite 1 0 4 0); Act 1 (ORead 1 0 4 0); Revoke 0; Act 1 (OClose 1)].

Lemma unmarked_text s fl k : Forall (fun x => 0 <= x) (text_encode s) -> head (match splitFlatsqlIoPath s with inl l => join_path l | inr _ => [] end) <> Some 0xFEFF ->
  decodeFlatsqlIoPath (text_encode s) = inl s -> unmarked (Act k (OOpen (text_encode s) fl)).
Proof. intros Hb Hh Hd. split; [done|]. intros (d & C & E1 & E2 & E3). rewrite Hd in E1. injection E1 as <-. by rewrite E2 in Hh. Qed.

Lemma paths_stay_below_root_witness :
  let w := run (absolute toy_root) (absolute toy_root) (two_threads 2) plain_acts in
  (exists th, threads w !! 1%nat = Some th /\ t_mem th = Some [1; 2; 3; 4] /\ Open (lit "/srv/db/p/a.bin") (Mode O_RDWR false false false) ∈ t_calls th) /\
  forall th c, th ∈ threads w -> c ∈ t_calls th -> call_below toy_root c.
Proof.
  split.
  - eexists. split; [vm_compute; reflexivity|]. split; [reflexivity|]. vm_compute. left.
  - apply (paths_stay_below_root toy_root (absolute toy_root) (Some 2) None (Some 2) (toy_table 2) toy_start [(0, [1; 2; 3; 4]); (0, [0; 0; 0; 0])] plain_acts).
    + repeat constructor; vm_compute; try congruence; intros H; repeat (apply elem_of_cons in H as [H|H]; [discriminate H|]); by apply not_elem_of_nil in H.
    + reflexivity.
    + constructor; [|repeat constructor]. apply unmarked_text; [|vm_compute; congruence|vm_compute; reflexivity].
      apply list.Forall_forall. intros x Hx. vm_compute in Hx. repeat (apply elem_of_cons in Hx as [->|Hx]; [lia|]). by apply not_elem_of_nil in Hx.
Defined.

(** The path is decoded twice, and a decoder drops a byte-order mark each time: behind two marks, ".." is a proper name when the
    path is checked and the parent directory when the slot's path is used. Closing such a handle that deletes its file
    removes a file outside the root. *)
Definition two_marks (s : jsstring) : list Z := text_encode (0xFEFF :: 0xFEFF :: s).
Theorem marked_path_escapes_root :
  let acts := [Act 0 (OOpen (two_marks (lit "../secret")) (Z.lor rw_create FLATSQL_IO_DELETE_ON_CLOSE)); Act 0 (OClose 1)] in
  let w := run (absolute toy_root) (absolute toy_root) (two_threads 2) acts in
  map_get (toy_files toy_start) outside_file = Some [7; 7] /\ map_get (toy_files (w_fs w)) outside_file = None /\
  exists th, threads w !! 0%nat = Some th /\ Unlink outside_file ∈ t_calls th.
Proof.
  split; [vm_compute; reflexivity|]. split; [vm_compute; reflexivity|]. eexists. split; [vm_compute; reflexivity|]. vm_compute.
  repeat first [apply list_elem_of_here | apply list_elem_of_further].
Qed.
