(* ===== verification/NodeHandles.v ===== *)
(** The descriptors of the Node provider (NodeFs.v) belong to their handles.

    A thread uses its own descriptor for a handle another thread has opened, and keeps it until it notices that the slot
    has moved on. Against any file system whose descriptors keep the path they were opened with ([FdLaws]): whatever
    threads do, a descriptor that is cached for the present generation of a live slot is open on that slot's path, as
    long as no thread keeps a descriptor over 256 generations of its slot. *)
From Stdlib Require Import ZArith Lia.
From stdpp Require Import base list strings numbers.
From S2P Require Import Prelude JsText JsMap IoContract MemoryBackend NodeFs NodeToy NodePaths.
Open Scope Z_scope.

(** The path a descriptor was opened with; only opening and closing it change that. *)
Class FdLaws (F : Type) `{!Syscalls F} := {
  fd_path : F -> Z -> option jsstring;
  open_new w p m fd w' : sys_open w p m = (inl fd, w') -> fd_path w fd = None /\ fd_path w' fd = Some p /\ forall g, g <> fd -> fd_path w' g = fd_path w g;
  open_failed w p m e w' g : sys_open w p m = (inr e, w') -> fd_path w' g = fd_path w g;
  close_others w fd g : g <> fd -> fd_path (sys_close w fd).2 g = fd_path w g;
  read_fds w fd n a g : fd_path (sys_read w fd n a).2 g = fd_path w g;
  write_fds w fd v a g : fd_path (sys_write w fd v a).2 g = fd_path w g;
  truncate_fds w fd n g : fd_path (sys_truncate w fd n).2 g = fd_path w g;
  fdatasync_fds w fd g : fd_path (sys_fdatasync w fd).2 g = fd_path w g;
  size_fds w fd g : fd_path (sys_size w fd).2 g = fd_path w g;
  unlink_fds w p g : fd_path (sys_unlink w p).2 g = fd_path w g;
  mkdir_fds w p g : fd_path (sys_mkdir w p).2 g = fd_path w g;
  syncdir_fds w p g : fd_path (sys_syncdir w p).2 g = fd_path w g
}.

Abbreviation entry := (Z * (Z * Z))%type.
Definition entry_fd (e : entry) : Z := e.2.2.

Section entries.
Context {F : Type} `{!Syscalls F} `{!FdLaws F} (root : jsstring).

(** A cached descriptor is open, and on the path of its slot if it is of the present generation. *)
Definition entry_ok (w : F) (t : table) (e : entry) : Prop :=
  exists p, fd_path w (entry_fd e) = Some p /\
    (s_state (slot_at t e.1) = SLOT_LIVE -> s_gen (slot_at t e.1) = e.2.1 -> p = join_root root (slotPath t e.1)).
Definition entries_ok (w : F) (t : table) (l : list entry) : Prop := Forall (entry_ok w t) l /\ NoDup (map entry_fd l).

Lemma entries_fs w w' t l : (forall g, fd_path w' g = fd_path w g) -> entries_ok w t l -> entries_ok w' t l.
Proof. intros Hg [H1 H2]. split; [|done]. eapply list.Forall_impl; [exact H1|]. intros e (p & Hp & He). exists p. by rewrite Hg. Qed.

Lemma entries_table w t t' l : (forall i, slot_at t' i = slot_at t i) -> entries_ok w t l -> entries_ok w t' l.
Proof. intros Ht [H1 H2]. split; [|done]. eapply list.Forall_impl; [exact H1|]. intros e (p & Hp & He). exists p. unfold slotPath. by rewrite !Ht. Qed.

(** A slot that is not live, or whose generation nobody has cached, may change. *)
Lemma entries_slot w t i s l : entries_ok w t l ->
  (s_state s = SLOT_LIVE -> forall e, e ∈ l -> Z.to_nat e.1 = Z.to_nat i -> s_gen s = e.2.1 -> fd_path w (entry_fd e) = Some (join_root root (text_decode (s_path s)))) ->
  entries_ok w (set_slot t i s) l.
Proof.
  intros [H1 H2] Hs. split; [|done]. apply list.Forall_forall. intros e He. rewrite list.Forall_forall in H1. destruct (H1 e He) as (p & Hp & Hok). exists p. split; [done|].
  unfold slotPath. destruct (slot_at_set t i e.1 s) as [[-> Ei]| ->]; [|done]. intros Hl Hg. specialize (Hs Hl e He Ei Hg). congruence.
Qed.

Lemma entries_open w t l i g fd p m w' : entries_ok w t l -> sys_open w p m = (inl fd, w') ->
  (s_state (slot_at t i) = SLOT_LIVE -> s_gen (slot_at t i) = g -> p = join_root root (slotPath t i)) -> entries_ok w' t ((i, (g, fd)) :: l).
Proof.
  intros [H1 H2] Ho Hp. destruct (open_new w p m fd w' Ho) as (Hnone & Hnew & Hold).
  assert (Hne : forall e, e ∈ l -> entry_fd e <> fd). { intros e He Ee. rewrite list.Forall_forall in H1. destruct (H1 e He) as (q & Hq & _). rewrite Ee in Hq. congruence. }
  split.
  - constructor; [by exists p|]. apply list.Forall_forall. intros e He. rewrite list.Forall_forall in H1. destruct (H1 e He) as (q & Hq & Hok). exists q. rewrite Hold by (by apply Hne). done.
  - cbn. constructor; [|done]. intros (e & Ee & He)%list_elem_of_fmap. by apply (Hne e He).
Qed.

Lemma entries_sub w t l l' : entries_ok w t l -> (exists l1, l ≡ₚ l' ++ l1) -> entries_ok w t l'.
Proof.
  intros [H1 H2] (l1 & Hp). rewrite Hp in H1. apply list.Forall_app in H1 as [H1 _]. split; [done|].
  rewrite (Permutation_map entry_fd Hp), map_app in H2. by apply list.NoDup_app in H2 as [? _].
Qed.

(** Closing a descriptor takes one entry away. *)
Lemma entries_close w t e l : entries_ok w t (e :: l) -> entries_ok (sys_close w (entry_fd e)).2 t l.
Proof.
  intros [H1 H2]. cbn in H2. apply list.NoDup_cons in H2 as [Hni H2]. apply list.Forall_cons in H1 as [_ H1]. split; [|done].
  apply list.Forall_forall. intros e' He. rewrite list.Forall_forall in H1. destruct (H1 e' He) as (p & Hp & Hok). exists p. rewrite close_others; [done|].
  intros E. apply Hni. rewrite <- E. by apply list_elem_of_fmap_2.
Qed.
End entries.

(** ** Maps of descriptors *)

Lemma delete_sub (m : list entry) k : exists l, m ≡ₚ map_delete m k ++ l.
Proof.
  induction m as [|[k' v] m (l & IH)]; [by exists []|]. unfold map_delete in *. cbn [List.filter fst]. destruct (bool_decide (k' = k)); cbn [negb].
  - exists ((k', v) :: l). rewrite IH at 1. by rewrite Permutation_middle.
  - exists l. cbn. by rewrite IH at 1.
Qed.
Lemma get_sub (m : list entry) k v : map_get m k = Some v -> exists l, m ≡ₚ ((k, v) :: map_delete m k) ++ l.
Proof.
  induction m as [|[k' v'] m IH]; [done|]. cbn [map_get]. unfold map_delete in *. cbn [List.filter fst]. destruct (decide (k' = k)) as [->|Hne].
  - intros [= ->]. rewrite bool_decide_eq_true_2 by done. cbn [negb]. destruct (delete_sub m k) as (l & Hl). exists l. cbn. by rewrite Hl at 1.
  - intros H. destruct (IH H) as (l & Hl). rewrite bool_decide_eq_false_2 by done. cbn [negb]. exists l. rewrite Hl at 1. cbn. apply perm_swap.
Qed.
Lemma set_sub (m : list entry) k v : exists l, (k, v) :: m ≡ₚ map_set m k v ++ l.
Proof.
  induction m as [|[k' v'] m (l & IH)]; [by exists []|]. cbn [map_set]. destruct (decide (k' = k)) as [->|Hne].
  - exists [(k, v')]. cbn. rewrite <- Permutation_cons_append. done.
  - exists l. cbn. rewrite <- IH. apply perm_swap.
Qed.

(** ** The calls of one thread *)

Section thread.
Context {F : Type} `{!Syscalls F} `{!FdLaws F} (R : list jsstring) (realRoot : jsstring) (instanceId : Z).
(** The descriptors of the other threads. *)
Context (others : list entry).
Abbreviation root := (absolute R).
Implicit Types n : node F.

Definition fds_ok n : Prop := entries_ok root (fs n) (tbl n) (localFds n ++ others) /\ names_ok (tbl n) /\ NoDup (map_keys (localFds n)).
Abbreviation kept := (kept fds_ok).
Abbreviation keeps := (keeps fds_ok).

Lemma keeps_call_same {A} c (f : F -> (A + io_thrown) * F) : (forall w g, fd_path (f w).2 g = fd_path w g) -> keeps (call c f).
Proof.
  intros Hf n (H1 & H2 & H3). unfold NodeFs.kept, call. specialize (Hf (fs n)). destruct (f (fs n)) as [r w]. split_and!; [|done..]. cbn in *. by apply (entries_fs root (fs n)).
Qed.
Hint Extern 5 (NodeFs.keeps _ (call _ _)) => apply keeps_call_same; intros; cbn;
  first [apply read_fds | apply write_fds | apply truncate_fds | apply fdatasync_fds | apply size_fds | apply unlink_fds | apply mkdir_fds | apply syncdir_fds | reflexivity] : keeps.

Lemma fds_mem m : keeps (@set_mem F m).
Proof. by intros n H. Qed.
Hint Resolve fds_mem : keeps.

(** A table whose slots are the same. *)
Lemma kept_table t n : fds_ok n -> (forall i, slot_at t i = slot_at (tbl n) i) -> kept (set_tbl t) n.
Proof. intros (H1 & H2 & H3) Ht. split_and!; [cbn; by apply (entries_table root _ (tbl n))| |done]. intros i. cbn. rewrite Ht. apply H2. Qed.

Lemma kept_state i v n : fds_ok n -> v <> SLOT_LIVE -> kept (set_state i v) n.
Proof.
  intros (H1 & H2 & H3) Hv. split_and!; cbn; [|by apply names_set|done]. apply entries_slot; [done|]. cbn. intros ?. done.
Qed.

Lemma kept_leave n : fds_ok n -> kept (leave instanceId) n.
Proof. intros Hn. unfold leave, NodeFs.kept, bind, get. case_match; [done|]. by apply (kept_table _ n). Qed.
Lemma fds_enter : keeps (enter instanceId).
Proof.
  apply keeps_get. intros n Hn. case_match; [done|]. case_match; [|done]. apply kept_bind; [by apply kept_table|]. intros v n' [= <- <-].
  case_match; [|done]. apply kept_bind; [by apply kept_leave|]. intros u n'. unfold leave, bind, get. case_match; intros [= <- <-]; done.
Qed.
Lemma fds_guarded fn : keeps fn -> keeps (guarded instanceId fn).
Proof.
  intros H. unfold guarded. apply keeps_bind; [apply fds_enter|]. intros b. keep. intros n. apply kept_leave.
Qed.

(** Closing and forgetting a cached descriptor. *)
Definition released (i : Z) n n' : Prop := fds_ok n' /\ tbl n' = tbl n /\ localFds n' = map_delete (localFds n) i.

Lemma close_one fd i g n : entries_ok root (fs n) (tbl n) (localFds n ++ others) -> map_get (localFds n) i = Some (g, fd) ->
  entries_ok root (sys_close (fs n) fd).2 (tbl n) (map_delete (localFds n) i ++ others).
Proof.
  intros H1 Hg. destruct (get_sub _ _ _ Hg) as (l & Hl). change fd with (entry_fd (i, (g, fd))). apply entries_close. eapply entries_sub; [exact H1|]. exists l. rewrite Hl at 1.
  cbn. rewrite <- !app_assoc. do 2 f_equiv. apply Permutation_app_comm.
Qed.

Lemma close_forgets {A} fd i g n (k : io F A) (Q : (A + io_thrown) * node F -> Prop) : fds_ok n -> map_get (localFds n) i = Some (g, fd) ->
  (forall n', released i n n' -> Q (k n')) -> Q ((close_quietly fd ;; forget_fd i ;; k) n).
Proof.
  intros (H1 & H2 & H3) Hg HQ. pose proof (close_one fd i g n H1 Hg) as Hok.
  assert (Hnd : NoDup (map_keys (map_delete (localFds n) i))) by (by apply map_delete_NoDup).
  unfold close_quietly, forget_fd, set_fds, catch, call, bind, get, ret. destruct (sys_close (fs n) fd) as [[u|e] w]; cbn in *; by apply HQ.
Qed.

Lemma sweep_over_ok l : forall n, fds_ok n -> NoDup (map_keys l) -> (forall i v, (i, v) ∈ l -> map_get (localFds n) i = Some v) ->
  exists n', sweep_over l n = (inl tt, n') /\ fds_ok n' /\ tbl n' = tbl n /\ (forall e, e ∈ localFds n' -> e ∈ localFds n).
Proof.
  induction l as [|[i [g fd]] l IH]; intros n Hn Hnd Hin; [by exists n|]. cbn [sweep_over map_keys map fst] in *. apply list.NoDup_cons in Hnd as [Hni Hnd].
  unfold bind at 1, get at 1. destruct (_ || _).
  - set (Q := fun x : (unit + io_thrown) * node F => exists n', x = (inl tt, n') /\ fds_ok n' /\ tbl n' = tbl n /\ (forall e, e ∈ localFds n' -> e ∈ localFds n)).
    change (Q (((close_quietly fd ;; forget_fd i) ;; sweep_over l) n)).
    assert (E : ((close_quietly fd ;; forget_fd i) ;; sweep_over l) n = (close_quietly fd ;; forget_fd i ;; sweep_over l) n).
    { unfold bind. by destruct (close_quietly fd n) as [[?|?] ?]. }
    rewrite E. apply (close_forgets fd i g); [done|apply Hin; left|]. intros n1 (Hn1 & Ht1 & Hl1).
    destruct (IH n1 Hn1 Hnd) as (n' & -> & Hn' & Ht' & Hsub).
    { intros k v Hk. rewrite Hl1, map_get_delete. destruct (decide (i = k)) as [->|]; [|apply Hin; by right].
      exfalso. apply Hni. apply list_elem_of_fmap. by exists (k, v). }
    exists n'. split_and!; [done..|congruence|]. intros e He. apply Hsub in He. rewrite Hl1 in He. destruct (delete_sub (localFds n) i) as (r & Hr). rewrite Hr. apply elem_of_app. by left.
  - cbn. apply IH; [done..|]. intros k v Hk. apply Hin. by right.
Qed.
Lemma sweep_ok n : fds_ok n -> exists n', sweep n = (inl tt, n') /\ fds_ok n' /\ tbl n' = tbl n /\ (forall e, e ∈ localFds n' -> e ∈ localFds n).
Proof.
  intros Hn. apply sweep_over_ok; [done|apply Hn|]. intros i v Hv. destruct Hn as (_ & _ & Hnd). revert Hv. induction (localFds n) as [|[k u] l IH]; [by intros ?%not_elem_of_nil|].
  cbn in *. apply list.NoDup_cons in Hnd as [Hni Hnd]. intros [[= -> ->]|Hv]%elem_of_cons; [by rewrite decide_True|]. rewrite decide_False; [by apply IH|].
  intros ->. apply Hni. apply list_elem_of_fmap. by exists (i, v).
Qed.

Lemma forget_closes fd i g n : fds_ok n -> map_get (localFds n) i = Some (g, fd) -> kept (forget_fd i ;; close_quietly fd) n.
Proof.
  intros (H1 & H2 & H3) Hg. pose proof (close_one fd i g n H1 Hg) as Hok.
  unfold NodeFs.kept, close_quietly, forget_fd, set_fds, catch, call, bind, get, ret. cbn. destruct (sys_close (fs n) fd) as [[u|e] w]; cbn in *; (split_and!; [done..|by apply map_delete_NoDup]).
Qed.

(** The descriptor of a handle. *)
Lemma fds_fdFor h : keeps (fdFor root h).
Proof.
  unfold fdFor. apply keeps_get. intros n Hn. case_match; [done|]. case_match; [done|]. cbv zeta. set (i := handle_slot h).
  destruct (_ || _) eqn:El.
  - destruct (map_get (localFds n) i) as [[g fd]|] eqn:Eg; [|done]. case_match; [|done].
    apply (close_forgets fd i g n _ (fun x => fds_ok x.2)); [done..|]. by intros n' [? _].
  - apply orb_false_iff in El as [El1 El2]. apply negb_false_iff, Z.eqb_eq in El1. apply negb_false_iff, Z.eqb_eq in El2.
    match goal with |- context [catch ?m ?k] => set (reopen := catch m k) end.
    assert (Hr : forall n', fds_ok n' -> tbl n' = tbl n -> fds_ok (reopen n').2).
    { intros n' (H1 & H2 & H3) Ht. unfold reopen, catch, call, bind, get, set_fds, ret. set (mo := openFlagsFor _ _). set (p := join_root _ _).
      destruct (sys_open (fs n') p mo) as [[fd|e] w] eqn:Eo; cbn.
      - split_and!; [|done|by apply map_set_NoDup]. destruct (set_sub (localFds n') i (handle_gen h, fd)) as (l & Hl).
        eapply entries_sub; [apply (entries_open root _ _ _ i (handle_gen h) fd p mo w H1 Eo)|].
        + intros _ _. cbn. unfold p. by rewrite Ht.
        + exists l. cbn [localFds]. rewrite app_comm_cons, Hl. rewrite <- !app_assoc. apply Permutation_app_head, Permutation_app_comm.
      - split_and!; [|done..]. cbn. apply (entries_fs root (fs n')); [|done]. intros g. by eapply open_failed. }
    destruct (map_get (localFds n) i) as [[g fd]|] eqn:Eg; [|by apply Hr]. case_match; [done|].
    apply (close_forgets fd i g n _ (fun x => fds_ok x.2)); [done..|]. intros n' (Hn' & Ht' & _). by apply Hr.
Qed.
Hint Resolve fds_fdFor fds_guarded : keeps.

Lemma fds_read_loop fuel : forall fd p l o d, keeps (read_loop fuel fd p l o d).
Proof. induction fuel as [|fuel IH]; intros fd p l o d; cbn [read_loop]; keep. apply keeps_get. intros n Hn. everywhere. keep. Qed.
Lemma fds_write_loop fuel : forall fd p l o d, keeps (write_loop fuel fd p l o d).
Proof. induction fuel as [|fuel IH]; intros fd p l o d; cbn [write_loop]; keep. apply keeps_get. intros n Hn. everywhere. keep. Qed.
Hint Resolve fds_read_loop fds_write_loop : keeps.
Lemma fds_writable h k : keeps k -> keeps (writable h k).
Proof. intros Hk. apply keeps_get. intros n Hn. case_match; [by apply Hk|done]. Qed.
Lemma fds_on_view p l k : keeps k -> keeps (on_view p l k).
Proof. intros Hk. unfold on_view. case_match; [auto with keeps|]. apply keeps_get. intros n Hn. case_match; [by apply Hk|done]. Qed.
Hint Resolve fds_writable fds_on_view : keeps.

Lemma fds_close h : keeps (close root h).
Proof.
  unfold close. apply keeps_catch; [|auto with keeps]. apply keeps_get. intros n Hn. cbv zeta. do 4 (case_match; [done|]). set (i := handle_slot h) in *.
  apply kept_bind; [by apply kept_state|]. intros u n1 E1. assert (Hn1 : fds_ok n1 /\ localFds n1 = localFds n).
  { pose proof (kept_state i SLOT_CLOSING n Hn ltac:(done)) as Hk. unfold NodeFs.kept in Hk. rewrite E1 in Hk. split; [done|]. by injection E1 as _ <-. }
  destruct Hn1 as [Hn1 Hl1]. apply kept_bind.
  - destruct (map_get (localFds n) i) as [[g fd]|] eqn:Eg; [|done]. rewrite <- Hl1 in Eg. by apply (forget_closes fd i g).
  - intros u1 n2 E2. assert (Hn2 : fds_ok n2).
    { destruct (map_get (localFds n) i) as [[g fd]|] eqn:Eg; [|by injection E2 as _ <-]. rewrite <- Hl1 in Eg. pose proof (forget_closes fd i g n1 Hn1 Eg) as Hk.
      unfold NodeFs.kept in Hk. by rewrite E2 in Hk. }
    apply kept_bind; [by apply kept_state|]. intros u2 n3 E3. assert (Hn3 : fds_ok n3).
    { pose proof (kept_state i SLOT_FREE n2 Hn2 ltac:(done)) as Hk. unfold NodeFs.kept in Hk. by rewrite E3 in Hk. }
    clear Hn Hn1 Hn2. everywhere. keep.
Qed.

(** *** Opening *)

(** No cached descriptor is of the generation its slot gets next. *)
Definition not_lapped (t : table) (l : list entry) : bool := forallb (fun e => negb (js_and (s_gen (slot_at t e.1) + 1) 0xff =? e.2.1)) l.
Lemma not_lapped_spec t l : not_lapped t l = true <-> forall e, e ∈ l -> js_and (s_gen (slot_at t e.1) + 1) 0xff <> e.2.1.
Proof. unfold not_lapped. rewrite forallb_forall. setoid_rewrite list_elem_of_In. setoid_rewrite negb_true_iff. setoid_rewrite Z.eqb_neq. done. Qed.

Lemma slot_at_nat (t : table) i k : Z.to_nat i = Z.to_nat k -> slot_at t i = slot_at t k.
Proof. intros E. unfold slot_at. by rewrite E. Qed.

(** Computations that leave the table and the descriptors as they are. *)
Definition steady {A} (m : io F A) : Prop := forall n, tbl (m n).2 = tbl n /\ localFds (m n).2 = localFds n.
Lemma steady_bind {A B} (m : io F A) (k : A -> io F B) : steady m -> (forall v, steady (k v)) -> steady (bind m k).
Proof.
  intros Hm Hk n. unfold bind. specialize (Hm n). destruct (m n) as [[v|e] n']; [|done]. cbn in Hm. destruct Hm as [<- <-]. apply Hk.
Qed.
Lemma steady_catch {A} (m : io F A) h : steady m -> (forall e, steady (h e)) -> steady (catch m h).
Proof.
  intros Hm Hh n. unfold catch. specialize (Hm n). destruct (m n) as [[v|e] n']; [done|]. cbn in Hm. destruct Hm as [<- <-]. apply Hh.
Qed.
Lemma steady_call {A} c (f : F -> (A + io_thrown) * F) : steady (call c f).
Proof. intros n. unfold call. by destruct (f (fs n)). Qed.
Lemma steady_make_dirs dirs : steady (make_dirs root dirs) /\ keeps (make_dirs root dirs).
Proof.
  induction dirs as [|d dirs [IH1 IH2]]; cbn [make_dirs]; [split; by intros n|]. case_match; [split; by intros n|]. split.
  - apply steady_bind; [apply steady_catch; [apply steady_call|intros e n; by repeat case_match]|]. intros _. apply steady_bind; [apply steady_call|done].
  - keep.
Qed.
Lemma parents_ok full n : fds_ok n -> exists r n', catch (ensureParents root full ;; ret None) (fun e => @ret F _ (Some e)) n = (inl r, n') /\
  fds_ok n' /\ tbl n' = tbl n /\ localFds n' = localFds n.
Proof.
  intros Hn. unfold ensureParents, catch, bind, get, ret. destruct (steady_make_dirs (missing_dirs (List.length full) (fs n) (dirname full) [])) as [Hs Hk].
  specialize (Hs n). specialize (Hk n Hn). unfold NodeFs.kept in Hk. destruct (make_dirs _ _ n) as [[v|e] n']; cbn in *; destruct Hs; by eexists _, n'.
Qed.

Lemma open_claimed_ok i gen full m created n : fds_ok n -> 0 <= i < maxHandles (tbl n) -> full = join_root root (slotPath (tbl n) i) -> slot_names (slot_at (tbl n) i) ->
  s_state (slot_at (tbl n) i) = SLOT_CLAIMING -> s_gen (slot_at (tbl n) i) = gen -> (forall e, e ∈ localFds n ++ others -> Z.to_nat e.1 = Z.to_nat i -> e.2.1 <> gen) ->
  kept (open_claimed i gen full m created) n.
Proof.
  intros (H1 & H2 & H3) Hi Hfull Hnames Hst Hgen Hfresh.
  assert (Hfree : forall w, entries_ok root w (tbl n) (localFds n ++ others) -> entries_ok root w (set_slot (tbl n) i (with_state SLOT_FREE (slot_at (tbl n) i))) (localFds n ++ others)).
  { intros w Hw. by apply entries_slot. }
  assert (Hnfree : names_ok (set_slot (tbl n) i (with_state SLOT_FREE (slot_at (tbl n) i)))) by (by apply names_set).
  unfold NodeFs.kept, open_claimed, set_state, set_tbl, bind, catch, call, ret, get, set_fds. cbn.
  destruct (sys_open (fs n) full m) as [[fd|e] w] eqn:Eo; cbn.
  2: { split_and!; cbn; [|done..]. apply Hfree. apply (entries_fs root (fs n)); [|done]. intros g. by eapply open_failed. }
  pose proof (entries_open root (fs n) (tbl n) _ i gen fd full m w H1 Eo ltac:(rewrite Hst; done)) as Hopen.
  assert (Hlive : forall w', (forall g, fd_path w' g = fd_path w g) ->
    fds_ok (Node (set_slot (tbl n) i (with_state SLOT_LIVE (slot_at (tbl n) i))) (map_set (localFds n) i (gen, fd)) w' (mem n) [])).
  { intros w' Hw'. split_and!; cbn; [|by apply names_set|by apply map_set_NoDup]. apply entries_slot.
    - apply (entries_fs root w); [done|]. destruct (set_sub (localFds n) i (gen, fd)) as (l & Hl). eapply entries_sub; [exact Hopen|].
      exists l. rewrite app_comm_cons, Hl. rewrite <- !app_assoc. apply Permutation_app_head, Permutation_app_comm.
    - cbn. intros _ [k [g f]] He Hk Hg. rewrite Hgen in Hg. cbn in Hg, Hk. subst g. apply elem_of_app in He as [He|He].
      + apply list_elem_of_In, map_set_In in He as [[-> [= ->]]|He%list_elem_of_In].
        * destruct (open_new _ _ _ _ _ Eo) as (_ & Hp & _). unfold entry_fd. cbn. rewrite Hw', Hp, Hfull. done.
        * exfalso. apply (Hfresh (k, (gen, f))); [apply elem_of_app; by left|done..].
      + exfalso. apply (Hfresh (k, (gen, f))); [apply elem_of_app; by right|done..]. }
  destruct created; cbn; [|exact (Hlive w (fun g => eq_refl))].
  pose proof (fun g => syncdir_fds w (dirname full) g) as Hsync. destruct (sys_syncdir w (dirname full)) as [[u|e] w1]; cbn in *; [exact (Hlive w1 Hsync)|].
  pose proof (fun g => close_others w1 fd g) as Hcl. destruct (sys_close w1 fd) as [r w2] eqn:Ec.
  assert (Hok2 : entries_ok root w2 (tbl n) (localFds n ++ others)).
  { pose proof (entries_close root w1 (tbl n) (i, (gen, fd)) (localFds n ++ others)) as Hc. cbn in Hc. unfold entry_fd in Hc. cbn in Hc. rewrite Ec in Hc. cbn in Hc. apply Hc.
    by apply (entries_fs root w). }
  destruct r as [u|e']; cbn; split_and!; try done. by apply Hfree.
Qed.

Lemma open_ok bytes flags n : fds_ok n -> not_lapped (tbl n) (localFds n ++ others) = true -> Forall (fun x => 0 <= x) bytes -> ~ marked bytes ->
  kept (openInternal root realRoot instanceId bytes flags) n.
Proof.
  intros Hn Hlap Hby Hm. unfold openInternal. unfold NodeFs.kept, bind at 1, get at 1. destruct (relative_path (tbl n) bytes) as [relative|] eqn:Er; [|done].
  destruct (relative_names _ _ _ Hby Er Hm) as (C & Hne & HC & -> & Hback). destruct (resolvePath _ _ _ _) as [full|] eqn:Ef; [|done].
  assert (Hfull : full = join_root root (join_path C)). { unfold resolvePath in Ef. repeat case_match; by simplify_eq. }
  case_match. { change (kept (call (Stat full) (fun w => (inl tt, w)) ;; ret (if exists_path (fs n) full then 0 else FLATSQL_IO_ERR_NOENT)) n). everywhere. keep. }
  case_match. { case_match; [done|]. change (kept (unlink_path full) n). everywhere. unfold unlink_path. keep. }
  cbv zeta. set (parents := has_flag flags FLATSQL_IO_CREATE && _). unfold bind at 1. destruct (sweep_ok n Hn) as (n1 & -> & Hn1 & Ht1 & Hl1).
  assert (Hp : exists r n2, catch ((if parents then ensureParents root full else ret tt) ;; ret None) (fun e => @ret F _ (Some e)) n1 = (inl r, n2) /\
    fds_ok n2 /\ tbl n2 = tbl n1 /\ localFds n2 = localFds n1). { destruct parents; [by apply parents_ok|]. by exists None, n1. }
  destruct Hp as (r & n2 & Hp & Hn2 & Ht2 & Hl2). unfold bind at 1. rewrite Hp. destruct r as [e|]; [done|]. unfold bind at 1, get at 1. cbv zeta.
  destruct (claim_returns instanceId (text_encode (join_path C)) flags n2) as (cl & n3 & Hcl). unfold bind at 1. rewrite Hcl.
  apply claimed_slot in Hcl as (Hfs3 & _ & Hl3 & Hcl). destruct Hn2 as (E1 & E2 & E3). destruct cl as [[i gen]|].
  - destruct Hcl as (Hi & Hfree & Hgen & Hs3 & Ht3). apply open_claimed_ok.
    + split_and!; [rewrite Hfs3, Hl3, Ht3; by apply entries_slot|rewrite Ht3; by apply names_set|by rewrite Hl3].
    + rewrite Ht3. unfold maxHandles, set_slot in *. cbn. unfold blen in *. rewrite length_insert. done.
    + unfold slotPath. rewrite Hs3. cbn. by rewrite Hback.
    + rewrite Hs3. by exists C.
    + by rewrite Hs3.
    + by rewrite Hs3.
    + intros e He Hk. rewrite Hgen, Ht2, Ht1. rewrite (slot_at_nat (tbl n) i e.1) by done. intros Hg. symmetry in Hg. revert Hg. rewrite not_lapped_spec in Hlap. apply Hlap.
      apply elem_of_app in He as [He|He]; apply elem_of_app; [left|by right]. apply Hl1. rewrite <- Hl2, <- Hl3. done.
  - change (fds_ok n3). split_and!; [|intros k; rewrite Hcl; apply E2|by rewrite Hl3]. rewrite Hfs3, Hl3. by apply (entries_table root _ (tbl n2)).
Qed.

Lemma guarded_open_ok bytes flags n : fds_ok n -> not_lapped (tbl n) (localFds n ++ others) = true -> Forall (fun x => 0 <= x) bytes -> ~ marked bytes ->
  kept (open root realRoot instanceId bytes flags) n.
Proof.
  intros Hn Hlap Hby Hm. unfold open, guarded. apply kept_bind; [by apply fds_enter|]. intros b n1 E1.
  pose proof (fds_enter n Hn) as Hn1. unfold NodeFs.kept in Hn1. rewrite E1 in Hn1. cbn in Hn1. destruct b; cbn [negb]; [|done].
  assert (Hsame : localFds n1 = localFds n /\ forall k, slot_at (tbl n1) k = slot_at (tbl n) k).
  { revert E1. unfold enter, leave, bind, get, set_tbl, ret. repeat case_match; intros E1; simplify_eq; done. }
  destruct Hsame as [Hl1 Hs1]. apply kept_bind.
  - unfold NodeFs.kept, catch. pose proof (open_ok bytes (to_int32 flags) n1 Hn1) as Hk. unfold NodeFs.kept in Hk.
    destruct (openInternal _ _ _ _ _ n1) as [[v|e] n2]; cbn in *; (apply Hk; [|done..]); apply not_lapped_spec; rewrite not_lapped_spec in Hlap; intros e'; rewrite Hl1, Hs1; apply Hlap.
  - intros r n2 E2. assert (Hn2 : fds_ok n2).
    { pose proof (open_ok bytes (to_int32 flags) n1 Hn1) as Hk. unfold NodeFs.kept in Hk. unfold catch in E2.
      destruct (openInternal _ _ _ _ _ n1) as [[v|e] n3]; injection E2 as <- <-; (apply Hk; [|done..]); apply not_lapped_spec; rewrite not_lapped_spec in Hlap; intros e'; rewrite Hl1, Hs1; apply Hlap. }
    clear Hn Hn1. everywhere. apply keeps_bind; [intros n'; apply kept_leave|auto with keeps].
Qed.

Lemma close_all_ok l : forall n rest, entries_ok root (fs n) (tbl n) (l ++ rest) -> names_ok (tbl n) -> exists n', close_all l n = (inl tt, n') /\
  entries_ok root (fs n') (tbl n') rest /\ tbl n' = tbl n.
Proof.
  induction l as [|[i [g fd]] l IH]; intros n rest H1 H2; [by exists n|]. cbn [close_all]. unfold bind, close_quietly at 1, catch, call.
  apply entries_close in H1. unfold entry_fd in H1. cbn in H1. destruct (sys_close (fs n) fd) as [[u|e] w]; cbn in *.
  - destruct (IH (Node (tbl n) (localFds n) w (mem n) (calls n ++ [Close fd])) rest) as (n' & -> & ? & ?); [done..|]. by exists n'.
  - destruct (IH (Node (tbl n) (localFds n) w (mem n) (calls n ++ [Close fd])) rest) as (n' & -> & ? & ?); [done..|]. by exists n'.
Qed.

Lemma op_ok o n : fds_ok n -> (forall bytes flags, o = OOpen bytes flags -> not_lapped (tbl n) (localFds n ++ others) = true /\ Forall (fun x => 0 <= x) bytes /\ ~ marked bytes) ->
  kept (run_op root realRoot instanceId o) n.
Proof.
  intros Hn Ho. destruct o; cbn [run_op].
  - destruct (Ho _ _ eq_refl) as (? & ? & ?). by apply guarded_open_ok.
  - everywhere. unfold read, readView. apply fds_guarded, fds_on_view. keep.
  - everywhere. unfold write, writeView. apply fds_guarded, fds_on_view. keep.
  - everywhere. unfold truncate. apply fds_guarded. keep. apply fds_writable. keep.
  - everywhere. unfold sync. apply fds_guarded. keep.
  - everywhere. unfold size. apply fds_guarded. keep.
  - everywhere. apply fds_close.
  - unfold closeLocalFds, NodeFs.kept, bind, get, set_fds, ret. destruct Hn as (H1 & H2 & H3). destruct (close_all_ok (localFds n) n others H1 H2) as (n' & -> & H4 & H5).
    cbn. split_and!; cbn; [done|by rewrite H5|constructor].
Qed.

(** A descriptor for a handle is open on the path of its slot, which is live and of the handle's generation. *)
Lemma fdFor_path h n fd n' : fds_ok n -> fdFor root h n = (inl fd, n') -> 0 <= fd ->
  s_state (slot_at (tbl n) (handle_slot h)) = SLOT_LIVE /\ s_gen (slot_at (tbl n) (handle_slot h)) = handle_gen h /\
  fd_path (fs n') fd = Some (join_root root (slotPath (tbl n) (handle_slot h))).
Proof.
  intros Hn. unfold fdFor. unfold bind at 1, get at 1. case_match; [intros [= <- <-]; done|]. case_match; [intros [= <- <-]; done|]. cbv zeta. set (i := handle_slot h).
  destruct (_ || _) eqn:El.
  - destruct (map_get (localFds n) i) as [[g f]|] eqn:Eg; [|intros [= <- <-]; done]. case_match; [|intros [= <- <-]; done].
    match goal with |- _ = ?y -> ?G => apply (close_forgets f i g n _ (fun z => z = y -> G)); [done..|] end. intros n1 _ [= <- <-]. done.
  - apply orb_false_iff in El as [El1 El2]. apply negb_false_iff, Z.eqb_eq in El1. apply negb_false_iff, Z.eqb_eq in El2.
    match goal with |- context [catch ?m ?k] => set (reopen := catch m k) end.
    assert (Hr : forall n1, reopen n1 = (inl fd, n') -> 0 <= fd -> fd_path (fs n') fd = Some (join_root root (slotPath (tbl n) i))).
    { intros n1. unfold reopen, catch, call, bind, get, set_fds, ret. set (mo := openFlagsFor _ _). set (p := join_root _ _).
      destruct (sys_open (fs n1) p mo) as [[f|e] w] eqn:Eo; cbn; intros [= <- <-] Hfd; [cbn; by destruct (open_new _ _ _ _ _ Eo) as (_ & -> & _)|].
      pose proof (status_negative e). lia. }
    destruct (map_get (localFds n) i) as [[g f]|] eqn:Eg; [|intros E Hfd; split_and!; [done..|by eapply Hr]]. destruct (Z.eqb_spec g (handle_gen h)) as [->|Hg].
    + intros [= <- <-] _. split_and!; [done..|]. destruct Hn as ((H1 & _) & _). rewrite list.Forall_forall in H1.
      destruct (H1 (i, (handle_gen h, f))) as (p & Hp & Hok); [apply elem_of_app; left; by apply list_elem_of_In, map_get_In|]. cbn in *. by rewrite Hp, <- (Hok El1 El2).
    + match goal with |- _ = ?y -> ?G => apply (close_forgets f i g n _ (fun z => z = y -> G)); [done..|] end. intros n1 _ E Hfd. split_and!; [done..|by eapply Hr].
Qed.
End thread.

(** ** Runs *)

Section runs.
Context {F : Type} `{!Syscalls F} `{!FdLaws F} (R : list jsstring) (realRoot : jsstring).

Definition all_entries (w : world F) : list entry := List.concat (map t_fds (threads w)).
Definition world_ok (w : world F) : Prop :=
  entries_ok (absolute R) (w_fs w) (w_tbl w) (all_entries w) /\ names_ok (w_tbl w) /\ Forall (fun t => NoDup (map_keys (t_fds t))) (threads w).

(** At every open of a run, no thread holds a descriptor of the generation its slot gets next: none is 255 generations behind. *)
Fixpoint never_lapped (w : world F) (acts : list action) : Prop :=
  match acts with
  | [] => True
  | a :: acts => match a with Act _ (OOpen _ _) => not_lapped (w_tbl w) (all_entries w) = true | _ => True end /\ never_lapped (perform (absolute R) realRoot w a) acts
  end.

(** The descriptors of the other threads. *)
Definition other_entries (w : world F) (k : nat) : list entry := List.concat (map t_fds (take k (threads w) ++ drop (S k) (threads w))).
Lemma entries_split w k t : threads w !! k = Some t -> all_entries w ≡ₚ t_fds t ++ other_entries w k.
Proof.
  intros Hk. unfold all_entries, other_entries. rewrite <- (take_drop_middle _ _ _ Hk) at 1. rewrite !map_app, !concat_app. cbn. rewrite !app_assoc. apply Permutation_app_tail, Permutation_app_comm.
Qed.
Lemma entries_perm root' w t l l' : l ≡ₚ l' -> entries_ok (F := F) root' w t l -> entries_ok root' w t l'.
Proof. intros Hp H. eapply entries_sub; [exact H|]. exists []. by rewrite app_nil_r. Qed.

Lemma node_ok w k t : world_ok w -> threads w !! k = Some t -> fds_ok R (other_entries w k) (node_of w t).
Proof.
  intros (H1 & H2 & H3) Hk. split_and!; [|done|]; cbn.
  - eapply entries_perm; [|exact H1]. by apply entries_split.
  - rewrite list.Forall_forall in H3. apply H3. by eapply list_elem_of_lookup_2.
Qed.

Lemma perform_ok w a acts : world_ok w -> never_lapped w (a :: acts) -> unmarked a -> world_ok (perform (absolute R) realRoot w a).
Proof.
  intros Hw [Hl _] Hu. destruct a as [k o|i|i]; cbn [perform].
  - destruct (threads w !! k) as [t|] eqn:Hk; [|done]. pose proof (node_ok w k t Hw Hk) as Hn.
    assert (Hlen : (k < List.length (threads w))%nat) by (by eapply lookup_lt_Some).
    destruct (op_ok R realRoot (t_instance t) (other_entries w k) o (node_of w t) Hn) as (H1 & H2 & H3).
    { intros bytes flags ->. split; [|done]. apply not_lapped_spec. intros e He. rewrite not_lapped_spec in Hl. apply Hl. by rewrite (entries_split w k t Hk). }
    set (n := (run_op _ _ _ _ _).2) in *. destruct Hw as (_ & _ & Hw). split_and!; [|done|].
    + eapply entries_perm; [|exact H1]. set (t' := Thread (t_instance t) (localFds n) (mem n) (calls n)). assert (Hk' : threads (store_node w k t n) !! k = Some t') by (by apply list_lookup_insert_eq).
      rewrite (entries_split _ k t' Hk'). cbn. apply Permutation_app_head. unfold other_entries, store_node. cbn. rewrite take_insert_ge, drop_insert_lt by lia. done.
    + cbn. by apply Forall_insert.
  - destruct Hw as (H1 & H2 & H3). unfold revokeNodeSyncFsIoInstance. by destruct (_ || _).
  - done.
Qed.

Lemma run_world_ok acts : forall w, world_ok w -> never_lapped w acts -> Forall unmarked acts -> world_ok (run (absolute R) realRoot w acts).
Proof.
  induction acts as [|a acts IH]; intros w Hw Hl Hu; [done|]. apply list.Forall_cons in Hu as [Hu Hus]. pose proof (perform_ok w a acts Hw Hl Hu) as Hw'. destruct Hl as [_ Hl]. by apply IH.
Qed.
End runs.

Lemma start_entries {F : Type} t (w0 : F) insts : all_entries (start_world t w0 insts) = [].
Proof. unfold all_entries. cbn. rewrite map_map. by induction insts. Qed.


(** ** The small file system *)

#[global] Program Instance toy_laws : FdLaws toyfs := {|
  fd_path w fd := if fd <? toy_next w then map_get (toy_fds w) fd else None
|}.
Next Obligation.
  intros w p m fd w'. cbn. unfold toy_open. intros E.
  assert (Hw : exists files, fd = toy_next w /\ w' = Toy files (map_set (toy_fds w) (toy_next w) p) (toy_next w + 1) (toy_dirs w)).
  { repeat case_match; simplify_eq; by eexists. }
  destruct Hw as (files & -> & ->). cbn. split_and!.
  - by destruct (Z.ltb_spec (toy_next w) (toy_next w)); [lia|].
  - destruct (Z.ltb_spec (toy_next w) (toy_next w + 1)); [|lia]. by rewrite map_get_set_eq.
  - intros g Hg. rewrite map_get_set_ne by done. by destruct (Z.ltb_spec g (toy_next w + 1)), (Z.ltb_spec g (toy_next w)); try lia.
Qed.
Next Obligation. intros w p m e w' g. cbn. unfold toy_open. intros E. cbv zeta in E. destruct (map_get (toy_files w) p), (m_creat m), (m_excl m); cbn in E; by simplify_eq. Qed.
Next Obligation. intros w fd g Hg. cbn. destruct (map_has _ _); [|done]. cbn. rewrite map_get_delete. by rewrite decide_False by done. Qed.
Next Obligation. intros w fd n a g. cbn. by destruct (toy_content w fd) as [[? ?]|]. Qed.
Next Obligation. intros w fd n a g. cbn. by destruct (toy_content w fd) as [[? ?]|]. Qed.
Next Obligation. intros w fd n g. cbn. by destruct (toy_content w fd) as [[? ?]|]. Qed.
Next Obligation. intros w fd g. cbn. by destruct (map_has _ _). Qed.
Next Obligation. intros w fd g. cbn. by destruct (toy_content w fd) as [[? ?]|]. Qed.
Next Obligation. intros w p g. cbn. by destruct (map_has _ _). Qed.
Next Obligation. intros w p g. cbn. by destruct (toy_exists _ _). Qed.
Next Obligation. done. Qed.

(** Two threads use one handle; the second closes it and opens another path in the same slot, which the first then uses. *)
Definition open_named (k : nat) (name : string) : action := Act k (OOpen (text_encode (lit name)) rw_create).
Definition shared_acts : list action :=
  [open_named 0 "a"; Act 1 (OSize 1); Act 1 (OClose 1); open_named 1 "b"; Act 0 (OSize 2)].

Lemma open_named_unmarked k name : Forall (fun x => 0 <= x) (text_encode (lit name)) -> head (match splitFlatsqlIoPath (lit name) with inl l => join_path l | inr _ => [] end) <> Some 0xFEFF ->
  decodeFlatsqlIoPath (text_encode (lit name)) = inl (lit name) -> unmarked (open_named k name).
Proof. apply unmarked_text. Qed.


(** A generation is a byte: a descriptor a thread keeps over 256 reuses of its slot is taken for one of the present handle, and the
    thread writes to the file it had open before. *)
Definition reuse (name : string) (h : Z) : list action := [open_named 1 name; Act 1 (OClose h)].
Definition lapping_acts : list action :=
  open_named 0 "a" :: Act 1 (OClose 1) :: flat_map (fun g => reuse "c" (Z.of_nat g mod 256)) (List.seq 2 255) ++ [open_named 1 "b"; Act 0 (OWrite 1 0 4 0)].
Theorem lapped_descriptor_writes_elsewhere :
  let w := run (absolute toy_root) (absolute toy_root) (two_threads 1) lapping_acts in
  s_path (slot_at (w_tbl w) 0) = text_encode (lit "b") /\ map_get (toy_files (w_fs w)) (lit "/srv/db/b") = Some [] /\
  map_get (toy_files (w_fs w)) (lit "/srv/db/a") = Some [1; 2; 3; 4].
Proof. vm_compute. split_and!; reflexivity. Qed.
