(* ===== verification/NodeTransfer.v ===== *)
(** Reads and writes of the Node provider (NodeFs.v) are whole.

    The calls of the operating system may move fewer bytes than they are asked for; the loops of the provider go on until the
    view is full, the file ends or a call fails. Against any file system whose descriptors read and write a content
    ([FileCalls]), a read is one read of the content and a write is one write, or fails with a prefix written. *)
From Stdlib Require Import ZArith Lia.
From stdpp Require Import base list strings numbers.
From S2P Require Import Prelude JsText JsMap IoContract MemoryBackend IoServerTransfer NodeFs NodeToy NodePaths NodeHandles.
Open Scope Z_scope.

(** A call reads some of the bytes asked for, none only at the end of the file; it writes some of the bytes given, or fails. *)
Class FileCalls (F : Type) `{!Syscalls F} := {
  fd_content : F -> Z -> list Z -> Prop;
  read_some w fd c n a : fd_content w fd c -> 0 < n -> 0 <= a ->
    match sys_read w fd n a with
    | (inl r, w') => fd_content w' fd c /\ blen r <= n /\ r = subarray c a (a + blen r) /\ (r = [] -> blen c <= a)
    | (inr e, w') => fd_content w' fd c
    end;
  write_some w fd c v a : fd_content w fd c -> v <> [] -> 0 <= a ->
    match sys_write w fd v a with
    | (inl k, w') => 0 < k <= blen v /\ fd_content w' fd (written c (subarray v 0 k) a)
    | (inr e, w') => fd_content w' fd c
    end
}.

Lemma subarray_same (c : list Z) a : 0 <= a -> subarray c a a = [].
Proof. intros Ha. rewrite subarray_take, Z.sub_diag by lia. done. Qed.

Section transfers.
Context {F : Type} `{!Syscalls F} `{!FileCalls F} (root : jsstring) (instanceId : Z).
Implicit Types n : node F.

(** The handle is live, this thread has descriptor [fd] for it, and the descriptor's file has content [c]; the caller's memory
    is [m]. *)
Record ready n (h fd : Z) (c m : list Z) : Prop := {
  r_handle : 0 <= h /\ handle_slot h < maxHandles (tbl n) /\ 0 <= fd;
  r_live : s_state (slot_at (tbl n) (handle_slot h)) = SLOT_LIVE /\ s_gen (slot_at (tbl n) (handle_slot h)) = handle_gen h;
  r_cached : map_get (localFds n) (handle_slot h) = Some (handle_gen h, fd);
  r_content : fd_content (fs n) fd c;
  r_memory : mem n = Some m
}.

Lemma ready_fd n h fd c m : ready n h fd c m -> fdFor root h n = (inl fd, n).
Proof.
  intros [(H1 & H2 & H3) [H4 H5] H6 _ _]. unfold fdFor, bind, get, ret. destruct (Z.ltb_spec h 0); [lia|]. destruct (Z.leb_spec (maxHandles (tbl n)) (handle_slot h)); [lia|].
  rewrite H4, H5, H6, !Z.eqb_refl. done.
Qed.

(** A state in which only the file, the memory and the record of calls differ. *)
Definition moved n n' : Prop := tbl n' = tbl n /\ localFds n' = localFds n.

Lemma read_loop_whole fuel : forall n fd ptr len offset done c m,
  fd_content (fs n) fd c -> mem n = Some m -> 0 <= ptr -> 0 <= offset -> 0 <= done <= len -> ptr + len <= blen m -> len - done <= Z.of_nat fuel ->
  let r := subarray c (offset + done) (offset + len) in
  exists n', moved n n' /\ fd_content (fs n') fd c /\
    ((read_loop fuel fd ptr len offset done n = (inl (done + blen r), n') /\ mem n' = Some (put_at m r (ptr + done))) \/
     (exists e k, read_loop fuel fd ptr len offset done n = (inr e, n') /\ 0 <= k <= len - done /\ mem n' = Some (put_at m (subarray c (offset + done) (offset + done + k)) (ptr + done)))).
Proof.
  assert (Hstop : forall n fd ptr len offset done c m, fd_content (fs n) fd c -> mem n = Some m -> 0 <= ptr -> 0 <= offset -> 0 <= done -> ptr + len <= blen m -> done = len ->
    moved n n /\ fd_content (fs n) fd c /\ ((@inl Z io_thrown done, n) = (inl (done + blen (subarray c (offset + done) (offset + len))), n) /\
      mem n = Some (put_at m (subarray c (offset + done) (offset + len)) (ptr + done)))).
  { intros n fd ptr len offset done c m Hc Hm Hp Hoff Hd Hlen ->. rewrite subarray_same, blen_nil, Z.add_0_r, put_at_nil by lia. done. }
  induction fuel as [|fuel IH]; intros n fd ptr len offset done c m Hc Hm Hp Hoff Hd Hlen Hfuel r; cbn [read_loop]; destruct (Z.ltb_spec done len) as [Hlt|Hge]; [lia| | |].
  1,3: destruct (Hstop n fd ptr len offset done c m) as (? & ? & ? & ?); try done; try lia; exists n; split_and!; [done..|by left].
  unfold bind, call, get, set_mem, ret. pose proof (read_some (fs n) fd c (len - done) (offset + done) Hc ltac:(lia) ltac:(lia)) as Hr.
  destruct (sys_read (fs n) fd (len - done) (offset + done)) as [[b|e] w].
  all: set (n0 := Node (tbl n) (localFds n) w (mem n) (calls n ++ [ReadAt fd (len - done) (offset + done)])).
  2: { exists n0. split_and!; [done|exact Hr|]. right. exists e, 0. split; [reflexivity|]. split; [lia|]. cbn [mem]. rewrite Z.add_0_r, subarray_same, put_at_nil by lia. done. }
  destruct Hr as (Hc1 & Hbk & Hb' & Hend). destruct (Z.eqb_spec (blen b) 0) as [E0|Hne].
  - apply blen_0 in E0. specialize (Hend E0). assert (r = []) as ->.
    { unfold r. rewrite subarray_take by lia. rewrite drop_ge by (unfold blen in *; lia). apply take_nil. }
    exists n0. split_and!; [done|exact Hc1|]. left. rewrite blen_nil, Z.add_0_r, put_at_nil by lia. done.
  - pose proof (blen_nonneg b). set (n1 := Node (tbl n0) (localFds n0) (fs n0) (Some (put_at m b (ptr + done))) (calls n0)).
    assert (Hm1 : memory_of n0 = m) by (unfold memory_of; cbn; by rewrite Hm).
    destruct (IH n1 fd ptr len offset (done + blen b) c (put_at m b (ptr + done))) as (n' & Hmv & Hc' & Hn'); try done; try lia.
    { rewrite blen_put_at by lia. lia. }
    exists n'. split_and!; [done..|]. fold n0. rewrite Hm1. fold n1.
    assert (Hj : forall e, offset + done + blen b <= e -> subarray c (offset + done) e = b ++ subarray c (offset + (done + blen b)) e).
    { intros e He. rewrite (subarray_join c _ (offset + done + blen b)) by lia. rewrite <- Hb'. do 2 f_equal. lia. }
    destruct Hn' as [[-> Hmem]|(e & j & -> & Hj1 & Hmem)].
    + left. unfold r. rewrite Hj by lia. rewrite blen_app. split; [do 2 f_equal; lia|]. rewrite Hmem. f_equal. replace (ptr + (done + blen b)) with (ptr + done + blen b) by lia. apply put_at_join; [lia|].
      pose proof (blen_subarray_le c (offset + (done + blen b)) (offset + len) ltac:(lia)). lia.
    + right. exists e, (blen b + j). split; [done|]. split; [lia|]. replace (offset + done + (blen b + j)) with (offset + (done + blen b) + j) by lia. rewrite Hj by lia.
      rewrite Hmem. f_equal. replace (ptr + (done + blen b)) with (ptr + done + blen b) by lia. apply put_at_join; [lia|].
      pose proof (blen_subarray_le c (offset + (done + blen b)) (offset + (done + blen b) + j) ltac:(lia)). lia.
Qed.

Lemma write_loop_whole fuel : forall n fd ptr len offset done c m,
  fd_content (fs n) fd c -> mem n = Some m -> 0 <= ptr -> 0 <= offset -> 0 <= done < len -> ptr + len <= blen m -> len - done <= Z.of_nat fuel ->
  let view k := subarray m (ptr + done) (ptr + k) in
  exists n', moved n n' /\ mem n' = Some m /\
    ((write_loop fuel fd ptr len offset done n = (inl len, n') /\ fd_content (fs n') fd (written c (view len) (offset + done))) \/
     (exists e, write_loop fuel fd ptr len offset done n = (inr e, n') /\
        (fd_content (fs n') fd c \/ exists k, done < k < len /\ fd_content (fs n') fd (written c (view k) (offset + done))))).
Proof.
  induction fuel as [|fuel IH]; intros n fd ptr len offset done c m Hc Hm Hp Hoff Hd Hlen Hfuel view; [lia|]. cbn [write_loop].
  destruct (Z.ltb_spec done len) as [_|?]; [|lia]. unfold bind, call, get. assert (Hmo : memory_of n = m) by (unfold memory_of; by rewrite Hm). rewrite Hmo. fold (view len).
  assert (Hv : blen (view len) = len - done) by (unfold view; rewrite blen_subarray by lia; lia).
  assert (Hne : view len <> []) by (intros E; rewrite E, blen_nil in Hv; lia).
  pose proof (write_some (fs n) fd c (view len) (offset + done) Hc Hne ltac:(lia)) as Hw.
  destruct (sys_write (fs n) fd (view len) (offset + done)) as [[k|e] w].
  all: set (n0 := Node (tbl n) (localFds n) w (mem n) (calls n ++ [WriteAt fd (view len) (offset + done)])).
  2: { exists n0. split_and!; [done|done|]. right. exists e. split; [reflexivity|]. by left. }
  destruct Hw as [Hk Hc1]. assert (Hcut : forall j, 0 <= j <= len - done -> subarray (view len) 0 j = view (done + j)).
  { intros j Hj. unfold view. rewrite !subarray_take by lia. rewrite drop_0, take_take. f_equal. lia. }
  rewrite Hcut in Hc1 by lia. destruct (Z.eq_dec (done + k) len) as [E|Hmore].
  - exists n0. split_and!; [done|done|]. left. rewrite E in Hc1. split; [|done].
    assert (Hstop : forall fuel' n', write_loop fuel' fd ptr len offset (done + k) n' = (inl len, n')).
    { intros [|fuel'] n'; cbn [write_loop]; rewrite E; by destruct (Z.ltb_spec len len); [lia|]. }
    apply Hstop.
  - destruct (IH n0 fd ptr len offset (done + k) (written c (view (done + k)) (offset + done)) m) as (n' & Hmv & Hm' & Hn'); try done; try lia.
    exists n'. split_and!; [done..|].
    assert (Hj : forall j, done + k <= j <= len -> written (written c (view (done + k)) (offset + done)) (subarray m (ptr + (done + k)) (ptr + j)) (offset + (done + k)) = written c (view j) (offset + done)).
    { intros j Hj. assert (Hb : blen (view (done + k)) = k) by (unfold view; rewrite blen_subarray by lia; lia).
      replace (offset + (done + k)) with (offset + done + blen (view (done + k))) by lia. rewrite written_join by lia. f_equal. unfold view.
      by rewrite <- subarray_join by lia. }
    destruct Hn' as [[-> Hn']|(e & -> & Hn')].
    + left. split; [done|]. by rewrite Hj in Hn' by lia.
    + right. exists e. split; [done|]. right. destruct Hn' as [Hn'|(j & Hj1 & Hn')]; [exists (done + k); by split; [lia|]|]. exists j. split; [lia|]. by rewrite Hj in Hn' by lia.
Qed.

(** Calls of the instance are let in. *)
Definition admitted_instance n : Prop :=
  instanceId < 0 \/ exists i, instances (tbl n) !! Z.to_nat instanceId = Some i /\ i_revoked i <> INSTANCE_REVOKED.

(** What a guarded call answers when its body runs. *)
Lemma guarded_runs n (fn : io F Z) (Q : Z -> node F -> Prop) :
  admitted_instance n ->
  (forall n1, slots (tbl n1) = slots (tbl n) -> localFds n1 = localFds n -> fs n1 = fs n -> mem n1 = mem n ->
     match fn n1 with (inl v, n2) => Q v n2 | (inr e, n2) => Q (flatsqlIoStatusOf e false) n2 end) ->
  (forall v n2 n3, fs n3 = fs n2 -> mem n3 = mem n2 -> Q v n2 -> Q v n3) ->
  exists v n', guarded instanceId fn n = (inl v, n') /\ Q v n'.
Proof.
  intros Hadm Hfn HQ. unfold guarded, enter, leave, catch, bind, get, set_tbl, ret. destruct (Z.ltb_spec instanceId 0).
  - specialize (Hfn n eq_refl eq_refl eq_refl eq_refl). cbn. destruct (fn n) as [[v|e] n2]; by do 2 eexists.
  - destruct Hadm as [?|(i & Hi & Hr)]; [lia|]. rewrite Hi. cbn. destruct (Z.eqb_spec (i_revoked i) INSTANCE_REVOKED); [done|]. cbn.
    set (n1 := Node _ _ _ _ _). specialize (Hfn n1 eq_refl eq_refl eq_refl eq_refl). destruct (fn n1) as [[v|e] n2]; eexists _, _; (split; [reflexivity|]); by eapply HQ; [..|exact Hfn].
Qed.

Lemma ready_frame n n1 h fd c m : slots (tbl n1) = slots (tbl n) -> localFds n1 = localFds n -> fs n1 = fs n -> mem n1 = mem n -> ready n h fd c m -> ready n1 h fd c m.
Proof.
  intros E1 E2 E3 E4 [H1 H2 H3 H4 H5]. assert (Hs : forall i, slot_at (tbl n1) i = slot_at (tbl n) i) by (intros i; unfold slot_at; by rewrite E1).
  constructor; rewrite ?Hs, ?E2, ?E3, ?E4; try done. unfold maxHandles in *. by rewrite E1.
Qed.

Lemma view_there n m ptr len : mem n = Some m -> 0 <= ptr -> 0 <= len -> ptr + len <= blen m -> memoryView n ptr len = true.
Proof. intros Hm Hp Hl Hb. unfold memoryView. rewrite Hm. by destruct (Z.ltb_spec ptr 0), (Z.ltb_spec len 0), (Z.ltb_spec (blen m) (ptr + len)); try lia. Qed.

(** Transfers are whole: although the operating system may move fewer bytes than it is asked for, a read of a handle whose file
    has content [c] returns the number of bytes one read of the content gives and puts them at the caller's pointer, or
    returns an error status; a write returns the length and leaves the file as one write of the whole view would, or
    returns an error status with the file unchanged or a prefix of the view written. *)
Theorem node_transfers_are_whole n h fd c m ptr len offset :
  ready n h fd c m -> admitted_instance n -> 0 <= ptr -> 0 < len -> ptr + len <= blen m -> 0 <= offset -> has_flag (slotFlags (tbl n) h) FLATSQL_IO_WRITE = true ->
  let r := subarray c offset (offset + len) in
  let view k := subarray m ptr (ptr + k) in
  (exists v n', read root instanceId h ptr len offset n = (inl v, n') /\ fd_content (fs n') fd c /\
     (v = blen r /\ mem n' = Some (put_at m r ptr) \/ v < 0)) /\
  (exists v n', write root instanceId h ptr len offset n = (inl v, n') /\ mem n' = Some m /\
     (v = len /\ fd_content (fs n') fd (written c (view len) offset) \/
      v < 0 /\ (fd_content (fs n') fd c \/ exists k, 0 < k < len /\ fd_content (fs n') fd (written c (view k) offset)))).
Proof.
  intros Hready Hadm Hp Hl Hb Hoff Hflag r view. assert (Hlen : (len =? 0) = false) by lia. split.
  - unfold read. apply (guarded_runs n _ (fun v n' => fd_content (fs n') fd c /\ (v = blen r /\ mem n' = Some (put_at m r ptr) \/ v < 0))); [done| |by intros v n2 n3 -> ->].
    intros n1 E1 E2 E3 E4. pose proof (ready_frame n n1 h fd c m E1 E2 E3 E4 Hready) as Hr1. pose proof (r_memory _ _ _ _ _ Hr1) as Hm1.
    unfold on_view, readView. rewrite Hlen. unfold bind at 1, get at 1. rewrite (view_there n1 m) by (done || lia). unfold bind. rewrite (ready_fd n1 h fd c m Hr1).
    destruct (Z.ltb_spec fd 0) as [?|_]; [destruct Hr1 as [(? & ? & ?) _ _ _ _]; lia|].
    destruct (read_loop_whole (Z.to_nat len) n1 fd ptr len offset 0 c m) as (n' & _ & Hc' & Hn'); try done; try lia; [by destruct Hr1|].
    rewrite !Z.add_0_r in Hn'. fold r in Hn'. destruct Hn' as [[-> Hm']|(e & k & -> & _)]; (split; [done|]); [by left|right; apply status_negative].
  - unfold write. apply (guarded_runs n _ (fun v n' => mem n' = Some m /\ (v = len /\ fd_content (fs n') fd (written c (view len) offset) \/
      v < 0 /\ (fd_content (fs n') fd c \/ exists k, 0 < k < len /\ fd_content (fs n') fd (written c (view k) offset))))); [done| |by intros v n2 n3 -> ->].
    intros n1 E1 E2 E3 E4. pose proof (ready_frame n n1 h fd c m E1 E2 E3 E4 Hready) as Hr1. pose proof (r_memory _ _ _ _ _ Hr1) as Hm1.
    unfold on_view, writeView. rewrite Hlen. unfold bind at 1, get at 1. rewrite (view_there n1 m) by (done || lia). unfold bind at 1. rewrite (ready_fd n1 h fd c m Hr1).
    destruct (Z.ltb_spec fd 0) as [?|_]; [destruct Hr1 as [(? & ? & ?) _ _ _ _]; lia|]. unfold writable, bind, get.
    assert (Hf1 : slotFlags (tbl n1) h = slotFlags (tbl n) h) by (unfold slotFlags, slot_at; by rewrite E1). rewrite Hf1, Hflag.
    destruct (write_loop_whole (Z.to_nat len) n1 fd ptr len offset 0 c m) as (n' & _ & Hm' & Hn'); try done; try lia; [by destruct Hr1|].
    rewrite !Z.add_0_r in Hn'. destruct Hn' as [[-> Hc']|(e & -> & Hc')]; (split; [done|]); [by left|right; split; [apply status_negative|done]].
Qed.
End transfers.

(** ** The small file system *)

#[global] Program Instance toy_file_calls : FileCalls toyfs := {| fd_content w fd c := exists p, toy_content w fd = Some (p, c) |}.
Next Obligation.
  intros w fd c n a (p & Hp) Hn Ha. cbn. rewrite Hp. pose proof (blen_subarray_le c a (a + n) ltac:(lia)). split_and!; [by exists p|lia| |].
  - set (k := blen (subarray c a (a + n))) in *. rewrite !subarray_take by (unfold k; pose proof (blen_nonneg (subarray c a (a + n))); lia).
    unfold k, blen. rewrite subarray_take, length_take, length_drop by lia. destruct (Z_le_gt_dec (a + n) (Z.of_nat (List.length c))); [f_equal; lia|]. rewrite !take_ge; [done|rewrite length_drop; lia..].
  - intros E. rewrite subarray_take in E by lia. apply (f_equal List.length) in E. rewrite length_take, length_drop in E. unfold blen. cbn in E. lia.
Qed.
Next Obligation.
  intros w fd c v a (p & Hp) Hv Ha. cbn. rewrite Hp. assert (0 < blen v) by (destruct v; [done|]; rewrite blen_cons; pose proof (blen_nonneg v); lia).
  split; [lia|]. rewrite subarray_all. exists p. unfold toy_content, toy_store in *. cbn. destruct (map_get (toy_fds w) fd) as [q|]; [|done].
  destruct (map_get (toy_files w) q) eqn:Eq; [|done]. cbn in Hp. injection Hp as -> ->. by rewrite map_get_set_eq.
Qed.

(** The state of thread 0 after it has opened "a" and written four bytes, its memory changed since. *)
Definition open_thread : node toyfs :=
  let w := run (absolute toy_root) (absolute toy_root) (two_threads 1) [open_named 0 "a"; Act 0 (OWrite 1 0 4 0)] in
  match threads w !! 0%nat with Some t => Node (w_tbl w) (t_fds t) (w_fs w) (Some [9; 8; 7; 6; 5]) [] | None => Node (w_tbl w) [] (w_fs w) None [] end.

Lemma node_transfers_are_whole_witness :
  exists v n', write (absolute toy_root) 0 1 1 3 2 open_thread = (inl v, n') /\ mem n' = Some [9; 8; 7; 6; 5] /\
    (v = 3 /\ fd_content (fs n') 3 [1; 2; 8; 7; 6] \/
     v < 0 /\ (fd_content (fs n') 3 [1; 2; 3; 4] \/ exists k, 0 < k < 3 /\ fd_content (fs n') 3 (written [1; 2; 3; 4] (subarray [9; 8; 7; 6; 5] 1 (1 + k)) 2))).
Proof.
  refine (proj2 (node_transfers_are_whole (absolute toy_root) 0 open_thread 1 3 [1; 2; 3; 4] [9; 8; 7; 6; 5] 1 3 2 _ _ _ _ _ _ _));
    [|right; eexists; split; [vm_compute; reflexivity|vm_compute; congruence]|lia|lia|vm_compute; congruence|lia|vm_compute; reflexivity].
  constructor; [split_and!; vm_compute; congruence|split; vm_compute; reflexivity|vm_compute; reflexivity|eexists; vm_compute; reflexivity|vm_compute; reflexivity].
Defined.
