(* ===== verification/NodeRevoke.v ===== *)
(** Revocation of an instance against calls in flight (src/host/nodeSyncFsIo.js, [enter], [leave], [guarded] and
    [revokeNodeSyncFsIoInstance]), one atomic access to a step.

    The words of one instance (identifier 0 or more: the anonymous instance has none) are shared by the threads that call its provider and by those that revoke it. A call adds itself
    to the counter of calls in flight before it looks at the revoked word; a revocation stores the word and then waits for the
    counter. The body of a call is any sequence of system calls (NodeFs.v has what they are).
    The calls are the guarded ones, that is every operation but close. *)
From Stdlib Require Import ZArith Lia.
From stdpp Require Import base list strings numbers.
From S2P Require Import Prelude JsText NodeFs.
Open Scope Z_scope.

(** Where a thread is: outside a call; about to add itself; about to load the revoked word; in the body, with the system calls that
    are left; about to subtract itself, and to notify; and in a revocation: about to store, about to load the counter, waiting
    for it to change from a value, done. *)
Inductive agent :=
  | Outside | Adding (body : list syscall) | Loading (body : list syscall) | InBody (rest : list syscall) | Subtracting | Notifying
  | Storing | Counting | Waiting (seen : Z) | Revoked.
Record shared := Shared { revoked : Z; in_flight : Z; agents : list agent; made : list (nat * syscall) }.

Definition set_agent (s : shared) (k : nat) (a : agent) : shared := Shared (revoked s) (in_flight s) (<[k := a]> (agents s)) (made s).
Definition add_flight (s : shared) (d : Z) : shared := Shared (revoked s) (to_int32 (in_flight s + d)) (agents s) (made s).
Definition set_revoked_word (s : shared) (v : Z) : shared := Shared v (in_flight s) (agents s) (made s).
Definition make_call (s : shared) (k : nat) (c : syscall) : shared := Shared (revoked s) (in_flight s) (agents s) (made s ++ [(k, c)]).

(** The next access of agent [k]. A wait ends when it is notified, when the word has another value, or after five milliseconds: it
    may end at any time. *)
Definition agent_step (s : shared) (k : nat) : option shared :=
  match agents s !! k with
  | Some (Adding body) => Some (set_agent (add_flight s 1) k (Loading body))
  | Some (Loading body) => Some (set_agent s k (if revoked s =? INSTANCE_REVOKED then Subtracting else InBody body))
  | Some (InBody (c :: rest)) => Some (set_agent (make_call s k c) k (InBody rest))
  | Some (InBody []) => Some (set_agent s k Subtracting)
  | Some Subtracting => Some (set_agent (add_flight s (-1)) k Notifying)
  | Some Notifying => Some (set_agent s k Outside)
  | Some Storing => Some (set_agent (set_revoked_word s INSTANCE_REVOKED) k Counting)
  | Some Counting => Some (set_agent s k (if in_flight s =? 0 then Revoked else Waiting (in_flight s)))
  | Some (Waiting _) => Some (set_agent s k Counting)
  | _ => None
  end.

(** A thread takes its next access; begins a call with some body; begins a revocation; or the instance is reset. *)
Inductive event := Step (k : nat) | Call (k : nat) (body : list syscall) | Begin (k : nat) | ResetInstance.
Definition event_step (s : shared) (e : event) : option shared :=
  match e with
  | Step k => agent_step s k
  | Call k body => match agents s !! k with Some Outside => Some (set_agent s k (Adding body)) | _ => None end
  | Begin k => match agents s !! k with Some Outside | Some Revoked => Some (set_agent s k Storing) | _ => None end
  | ResetInstance => Some (set_revoked_word s INSTANCE_LIVE)
  end.
Fixpoint events (s : shared) (es : list event) : option shared :=
  match es with [] => Some s | e :: es => match event_step s e with Some s => events s es | None => None end end.
Definition start_shared (threads : nat) : shared := Shared INSTANCE_LIVE 0 (repeat Outside threads) [].

(** ** Who is counted *)

(** Added and not yet subtracted. *)
Definition counted (a : agent) : bool := match a with Loading _ | InBody _ | Subtracting => true | _ => false end.
Definition count_of (l : list agent) : Z := blen (List.filter counted l).

Lemma count_cons x l : count_of (x :: l) = (if counted x then 1 else 0) + count_of l.
Proof. unfold count_of, blen. cbn. destruct (counted x); cbn; lia. Qed.
Lemma count_insert l k a b : l !! k = Some a -> count_of (<[k := b]> l) = count_of l - (if counted a then 1 else 0) + (if counted b then 1 else 0).
Proof.
  revert k. induction l as [|x l IH]; intros [|k] Hk; try done.
  - injection Hk as ->. change (<[0%nat := b]> (a :: l)) with (b :: l). rewrite !count_cons. lia.
  - change (<[S k := b]> (x :: l)) with (x :: <[k := b]> l). rewrite !count_cons, (IH k Hk). lia.
Qed.
Lemma count_bound l : 0 <= count_of l <= blen l.
Proof. unfold count_of, blen. pose proof (filter_length_le counted l). lia. Qed.

(** The counter is the number of the calls in flight. *)
Record shared_ok (s : shared) : Prop := {
  so_count : in_flight s = count_of (agents s);
  so_few : blen (agents s) < 2 ^ 31
}.

Lemma agents_len s k a : blen (<[k := a]> (agents s)) = blen (agents s).
Proof. unfold blen. by rewrite length_insert. Qed.

Lemma event_ok s e s' : shared_ok s -> event_step s e = Some s' -> shared_ok s'.
Proof.
  intros [Hc Hf] He.
  assert (Hone : forall k a b, agents s !! k = Some a -> in_flight s' = to_int32 (in_flight s + (if counted b then 1 else 0) - (if counted a then 1 else 0)) ->
    agents s' = <[k := b]> (agents s) -> shared_ok s').
  { intros k a b Hk Hin Ha. constructor; [|by rewrite Ha, agents_len]. rewrite Hin, Ha, (count_insert _ _ a) by done.
    pose proof (count_bound (<[k := b]> (agents s))) as Hb. rewrite agents_len, (count_insert _ _ a) in Hb by done. rewrite to_int32_small by (rewrite Hc; lia). lia. }
  assert (Hsmall : to_int32 (in_flight s) = in_flight s) by (apply to_int32_small; pose proof (count_bound (agents s)); lia).
  destruct e as [k|k body|k|]; cbn in He.
  - unfold agent_step in He. destruct (agents s !! k) as [a|] eqn:Ek; [|done].
    destruct a as [|body|body|[|c rest]| | | | |seen|]; try done; injection He as <-.
    + apply (Hone k _ (Loading body) Ek); [cbn; f_equal; lia|done].
    + destruct (revoked s =? INSTANCE_REVOKED); (eapply (Hone k _ _ Ek); [|reflexivity]); cbn; rewrite <- Hsmall at 1; f_equal; lia.
    + apply (Hone k _ Subtracting Ek); [cbn; rewrite <- Hsmall at 1; f_equal; lia|done].
    + apply (Hone k _ (InBody rest) Ek); [cbn; rewrite <- Hsmall at 1; f_equal; lia|done].
    + apply (Hone k _ Notifying Ek); [cbn; f_equal; lia|done].
    + apply (Hone k _ Outside Ek); [cbn; rewrite <- Hsmall at 1; f_equal; lia|done].
    + apply (Hone k _ Counting Ek); [cbn; rewrite <- Hsmall at 1; f_equal; lia|done].
    + destruct (in_flight s =? 0); (eapply (Hone k _ _ Ek); [|reflexivity]); cbn; rewrite <- Hsmall at 1; f_equal; lia.
    + apply (Hone k _ Counting Ek); [cbn; rewrite <- Hsmall at 1; f_equal; lia|done].
  - destruct (agents s !! k) as [[]|] eqn:Ek; try done. injection He as <-. apply (Hone k _ (Adding body) Ek); [cbn; rewrite <- Hsmall at 1; f_equal; lia|done].
  - destruct (agents s !! k) as [[]|] eqn:Ek; try done; injection He as <-; (eapply (Hone k _ Storing Ek); [cbn; rewrite <- Hsmall at 1; f_equal; lia|done]).
  - injection He as <-. by constructor.
Qed.

Lemma events_app s es es' : events s (es ++ es') = match events s es with Some t => events t es' | None => None end.
Proof. revert s. induction es as [|e es IH]; intros s; cbn; [done|]. destruct (event_step s e); [apply IH|done]. Qed.
Lemma events_keep (I : shared -> Prop) (fine : event -> Prop) s es s' :
  (forall t e t', fine e -> I t -> event_step t e = Some t' -> I t') -> Forall fine es -> I s -> events s es = Some s' -> I s'.
Proof.
  intros Hstep Hf. revert s. induction Hf as [|e es He _ IH]; intros s HI; cbn; [by intros [= <-]|].
  destruct (event_step s e) as [t|] eqn:E; [|done]. by apply IH, (Hstep s e).
Qed.

Lemma start_count n : count_of (repeat Outside n) = 0.
Proof. induction n as [|n IH]; [done|]. cbn [repeat]. by rewrite count_cons, IH. Qed.
Lemma shared_reachable threads es s : Z.of_nat threads < 2 ^ 31 -> events (start_shared threads) es = Some s -> shared_ok s.
Proof.
  intros Ht. apply (events_keep shared_ok (fun _ => True)); [intros; by eapply event_ok|by apply Forall_true|].
  constructor; cbn; [by rewrite start_count|]. unfold blen. by rewrite repeat_length.
Qed.

(** ** Nothing in a body *)

Definition in_body (a : agent) : bool := match a with InBody _ => true | _ => false end.
(** The instance is revoked and no call of it is in its body. *)
Definition quiet (s : shared) : Prop := revoked s = INSTANCE_REVOKED /\ forall j a, agents s !! j = Some a -> in_body a = false.
Definition not_reset (e : event) : Prop := e <> ResetInstance.

Lemma no_count l j a : count_of l = 0 -> l !! j = Some a -> counted a = false.
Proof.
  revert j. induction l as [|x l IH]; intros [|j]; try done; rewrite count_cons; pose proof (count_bound l) as Hb; cbn; intros Hc.
  - intros [= ->]. destruct (counted a); [lia|done].
  - apply IH. destruct (counted x); lia.
Qed.
Lemma in_body_counted a : counted a = false -> in_body a = false.
Proof. by destruct a. Qed.

(** Replacing one agent by one that is not in a body. *)
Lemma quiet_at s s' k b : quiet s -> revoked s' = INSTANCE_REVOKED -> agents s' = <[k := b]> (agents s) -> in_body b = false -> quiet s'.
Proof.
  intros [Hr Hq] Hr' Ha Hb. split; [done|]. intros j a. rewrite Ha.
  destruct (decide (j = k)) as [->|Hne]; [|rewrite list_lookup_insert_ne by done; apply Hq].
  intros Hj. pose proof (lookup_lt_Some _ _ _ Hj) as Hlt. rewrite length_insert in Hlt. rewrite list_lookup_insert_eq in Hj by done. by injection Hj as <-.
Qed.

(** While it is quiet no event but a reset makes a system call or lets a call into its body. *)
Lemma quiet_step s e s' : not_reset e -> quiet s -> event_step s e = Some s' -> quiet s' /\ made s' = made s.
Proof.
  intros Hn Hq He. pose proof Hq as [Hr Hb]. destruct e as [k|k body|k|]; cbn in He; [|..|done].
  - unfold agent_step in He. destruct (agents s !! k) as [a|] eqn:Ek; [|done]. specialize (Hb k a Ek).
    destruct a as [|body|body|[|c rest]| | | | |seen|]; try done; injection He as <-; (split; [|done]); try (by eapply (quiet_at s _ k)).
    + eapply (quiet_at s _ k); [done..|]. by rewrite Hr.
    + eapply (quiet_at s _ k); [done..|]. by destruct (in_flight s =? 0).
  - destruct (agents s !! k) as [[]|] eqn:Ek; try done. injection He as <-. split; [|done]. by eapply (quiet_at s _ k).
  - destruct (agents s !! k) as [[]|] eqn:Ek; try done; injection He as <-; (split; [|done]); by eapply (quiet_at s _ k).
Qed.
Lemma quiet_events s es s' : Forall not_reset es -> quiet s -> events s es = Some s' -> quiet s' /\ made s' = made s.
Proof.
  intros Hf Hq. apply (events_keep (fun t => quiet t /\ made t = made s) not_reset); [|done..].
  intros t e t' He [Ht Hm] Hs. destruct (quiet_step t e t' He Ht Hs) as [? ->]. done.
Qed.

(** What holds from the store of agent [k]'s revocation on. *)
Record revoking (k : nat) (s : shared) : Prop := {
  rv_ok : shared_ok s;
  rv_word : revoked s = INSTANCE_REVOKED;
  rv_done : agents s !! k = Some Revoked -> quiet s
}.

Lemma word_stays s e s' : not_reset e -> revoked s = INSTANCE_REVOKED -> event_step s e = Some s' -> revoked s' = INSTANCE_REVOKED.
Proof.
  intros Hn Hr. destruct e as [k|k body|k|]; cbn; [unfold agent_step|..|done]; destruct (agents s !! k) as [[]|]; try done; try by intros [= <-].
  destruct rest; by intros [= <-].
Qed.
(** A revocation ends only by finding the counter at 0. *)
Lemma revoked_at s e s' k : event_step s e = Some s' -> agents s' !! k = Some Revoked -> agents s !! k = Some Revoked \/ in_flight s = 0.
Proof.
  assert (Hat : forall t j b, agents t = <[j := b]> (agents s) -> b <> Revoked -> agents t !! k = Some Revoked -> agents s !! k = Some Revoked).
  { intros t j b -> Hb. destruct (decide (j = k)) as [->|Hne]; [|by rewrite list_lookup_insert_ne].
    intros Hk. pose proof (lookup_lt_Some _ _ _ Hk) as Hlt. rewrite length_insert in Hlt. rewrite list_lookup_insert_eq in Hk by done. congruence. }
  destruct e as [j|j body|j|]; cbn; [unfold agent_step; destruct (agents s !! j) as [a|]; [|done]|..|intros [= <-]; by left];
    [|destruct (agents s !! j) as [a|]; [|done]..];
    destruct a as [|b|b|[|c rest]| | | | |seen|]; try done; intros [= <-] Hk; try (left; by eapply (fun H H' => Hat _ j _ H H' Hk)).
  - left. eapply (fun H H' => Hat _ j _ H H' Hk); [reflexivity|]. by destruct (revoked s =? INSTANCE_REVOKED).
  - destruct (in_flight s =? 0) eqn:E; [right; lia|left; by eapply (fun H H' => Hat _ j _ H H' Hk)].
Qed.
Lemma revoking_step k s e s' : not_reset e -> revoking k s -> event_step s e = Some s' -> revoking k s'.
Proof.
  intros Hn [Hok Hr Hd] He. constructor; [by eapply event_ok|by eapply word_stays|]. intros Hk.
  apply (quiet_step s e s' Hn); [|done]. destruct (revoked_at s e s' k He Hk) as [H|H]; [by apply Hd|].
  split; [done|]. intros j a Hj. apply in_body_counted, (no_count (agents s) j); [rewrite <- (so_count _ Hok)|]; done.
Qed.
Lemma revoking_begins k s s' : shared_ok s -> agents s !! k = Some Storing -> event_step s (Step k) = Some s' -> revoking k s'.
Proof.
  intros Hok Hk He. constructor; [by eapply event_ok|..]; cbn in He; unfold agent_step in He; rewrite Hk in He; injection He as <-; [done|].
  cbn. rewrite list_lookup_insert_eq by by eapply lookup_lt_Some. done.
Qed.

(** C26. Once revokeNodeSyncFsIoInstance has returned, no guarded call of the instance (every operation but close) is in its body and none makes a system call any more,
    however the calls and other revocations interleave, as long as the instance is not reset: a call that added itself before the
    revocation looked is waited for, one that adds itself later sees the revoked word. *)
Theorem revocation_waits_for_calls threads es1 s1 k es2 s2 es3 s3 :
  Z.of_nat threads < 2 ^ 31 ->
  events (start_shared threads) es1 = Some s1 -> agents s1 !! k = Some Storing ->
  events s1 (Step k :: es2) = Some s2 -> agents s2 !! k = Some Revoked ->
  events s2 es3 = Some s3 -> Forall not_reset (es2 ++ es3) ->
  made s3 = made s2 /\ forall j body, agents s2 !! j <> Some (InBody body) /\ agents s3 !! j <> Some (InBody body).
Proof.
  intros Ht H1 Hk H2 Hd H3 [Hf2 Hf3]%Forall_app. cbn [events] in H2. destruct (event_step s1 (Step k)) as [t|] eqn:E; [|done].
  assert (Hrev : revoking k s2).
  { eapply (events_keep (revoking k) not_reset); [apply revoking_step|exact Hf2| |exact H2]. eapply revoking_begins; [by eapply shared_reachable|done..]. }
  pose proof (rv_done _ _ Hrev Hd) as Hq. destruct (quiet_events s2 es3 s3 Hf3 Hq H3) as [Hq3 Hm]. split; [done|].
  intros j body. split; intros Hj; [apply (proj2 Hq) in Hj|apply (proj2 Hq3) in Hj]; done.
Qed.

(** ** A revocation returns *)

(** The accesses a call has left. *)
Definition left_of (a : agent) : nat :=
  match a with
  | Adding body => 5 + length body | Loading body => 4 + length body | InBody rest => 3 + length rest | Subtracting => 2 | Notifying => 1
  | _ => 0
  end.
Definition total_left (l : list agent) : nat := list_sum (map left_of l).
Definition call_step (s : shared) (e : event) : Prop := exists k a, e = Step k /\ agents s !! k = Some a /\ (0 < left_of a)%nat.
(** Steps of calls only. *)
Fixpoint call_steps (s : shared) (es : list event) : Prop :=
  match es with [] => True | e :: es => call_step s e /\ match event_step s e with Some t => call_steps t es | None => False end end.

Lemma total_cons a l : total_left (a :: l) = (left_of a + total_left l)%nat.
Proof. done. Qed.
Lemma total_insert l k a b : l !! k = Some a -> (total_left (<[k := b]> l) + left_of a = total_left l + left_of b)%nat.
Proof.
  revert k. induction l as [|x l IH]; intros [|k] Hk; try done.
  - injection Hk as ->. change (<[0%nat := b]> (a :: l)) with (b :: l). rewrite !total_cons. lia.
  - change (<[S k := b]> (x :: l)) with (x :: <[k := b]> l). rewrite !total_cons. specialize (IH k Hk). lia.
Qed.
Lemma total_some l : (0 < total_left l)%nat -> exists k a, l !! k = Some a /\ (0 < left_of a)%nat.
Proof.
  induction l as [|x l IH]; [cbn; lia|]. rewrite total_cons. destruct (decide (0 < left_of x)%nat) as [H|H]; [by exists 0%nat, x|].
  intros Hl. destruct IH as (k & a & Hk & Ha); [lia|]. by exists (S k), a.
Qed.
Lemma total_none l : total_left l = 0%nat -> count_of l = 0.
Proof. induction l as [|x l IH]; [done|]. rewrite total_cons, count_cons. intros H. rewrite IH by lia. destruct x; cbn in *; lia. Qed.

(** A step of a call leaves it less to do and the other agents where they are. *)
Lemma call_step_less s e : call_step s e -> exists t k b, event_step s e = Some t /\ agents t = <[k := b]> (agents s) /\
  (total_left (agents t) < total_left (agents s))%nat /\ forall j a, agents s !! j = Some a -> left_of a = 0%nat -> agents t !! j = Some a.
Proof.
  intros (k & a & -> & Hk & Hpos). cbn. unfold agent_step. rewrite Hk.
  assert (Hgo : forall t b, agents t = <[k := b]> (agents s) -> (left_of b < left_of a)%nat -> agents t = <[k := b]> (agents s) /\
    (total_left (agents t) < total_left (agents s))%nat /\ forall j c, agents s !! j = Some c -> left_of c = 0%nat -> agents t !! j = Some c).
  { intros t b Ht Hb. split; [done|]. rewrite Ht. pose proof (total_insert _ _ _ b Hk) as H. split; [lia|].
    intros j c Hj Hc. destruct (decide (j = k)) as [->|Hne]; [|by rewrite list_lookup_insert_ne]. rewrite Hk in Hj. injection Hj as ->. lia. }
  destruct a as [|body|body|[|c rest]| | | | |seen|]; cbn in Hpos; try lia; eexists _, k, _; (split; [reflexivity|]); (apply Hgo; [reflexivity|cbn; try lia]).
  destruct (revoked s =? INSTANCE_REVOKED); cbn; lia.
Qed.
Lemma call_steps_run s es : call_steps s es -> exists t, events s es = Some t /\ (length es + total_left (agents t) <= total_left (agents s))%nat /\
  forall j a, agents s !! j = Some a -> left_of a = 0%nat -> agents t !! j = Some a.
Proof.
  revert s. induction es as [|e es IH]; intros s; cbn; [intros _; exists s; split; [done|split; [lia|done]]|].
  intros [Hc Hes]. destruct (call_step_less s e Hc) as (t & k & b & E & _ & Hl & Hst). rewrite E in *.
  destruct (IH t Hes) as (u & -> & Hu & Hsu). exists u. split; [done|]. split; [lia|]. eauto.
Qed.

(** From the store on, with the counter at 0, at most two accesses are left. *)
Lemma revocation_ends s k a : in_flight s = 0 -> agents s !! k = Some a -> a = Storing \/ a = Counting \/ (exists v, a = Waiting v) ->
  exists n t, (n <= 2)%nat /\ events s (repeat (Step k) n) = Some t /\ agents t !! k = Some Revoked.
Proof.
  intros H0 Hk Ha. pose proof (lookup_lt_Some _ _ _ Hk) as Hlt.
  assert (Hcount : forall t, in_flight t = 0 -> agents t !! k = Some Counting -> exists u, agent_step t k = Some u /\ agents u !! k = Some Revoked).
  { intros t Ht Hkt. eexists. unfold agent_step. rewrite Hkt, Ht. split; [reflexivity|]. cbn. by rewrite list_lookup_insert_eq by by eapply lookup_lt_Some. }
  destruct Ha as [->|[->|[v ->]]].
  2: { destruct (Hcount s H0 Hk) as (u & E & Hu). exists 1%nat, u. split; [lia|]. cbn. by rewrite E. }
  all: match goal with |- _ => assert (exists t, agent_step s k = Some t /\ in_flight t = 0 /\ agents t !! k = Some Counting) as (t & E & Ht & Hkt) end.
  1, 3: unfold agent_step; rewrite Hk; eexists; split; [reflexivity|]; cbn; by rewrite list_lookup_insert_eq.
  all: destruct (Hcount t Ht Hkt) as (u & E' & Hu); exists 2%nat, u; split; [lia|]; cbn; rewrite E; cbn; by rewrite E'.
Qed.

(** revokeNodeSyncFsIoInstance returns: the calls in flight can always go on, after a number of their steps that is fixed in
    advance none is left, and then the revocation needs at most two more accesses. *)
Theorem revocation_returns threads es s k a calls :
  Z.of_nat threads < 2 ^ 31 -> events (start_shared threads) es = Some s ->
  agents s !! k = Some a -> a = Storing \/ a = Counting \/ (exists v, a = Waiting v) -> call_steps s calls ->
  exists t, events s calls = Some t /\ (length calls <= total_left (agents s))%nat /\
    ((exists e, call_step t e /\ event_step t e <> None) \/
     (exists n u, (n <= 2)%nat /\ events t (repeat (Step k) n) = Some u /\ agents u !! k = Some Revoked)).
Proof.
  intros Hn Hes Hk Ha Hc. destruct (call_steps_run s calls Hc) as (t & Ht & Hlen & Hst). exists t. split; [done|]. split; [lia|].
  assert (Hok : shared_ok t) by (apply (shared_reachable threads (es ++ calls)); [done|]; by rewrite events_app, Hes).
  destruct (total_left (agents t)) as [|m] eqn:E.
  - right. apply (revocation_ends t k a); [by rewrite (so_count _ Hok), total_none| |done]. apply Hst; [done|]. destruct Ha as [->|[->|[v ->]]]; done.
  - left. destruct (total_some (agents t)) as (j & b & Hj & Hb); [lia|]. assert (Hs : call_step t (Step j)) by (by exists j, b).
    exists (Step j). split; [done|]. destruct (call_step_less _ _ Hs) as (u & ? & ? & -> & _). done.
Qed.

(** ** A concrete run: one thread is in a write when another revokes; a second call comes too late. *)
Definition two_writes : list syscall := [WriteAt 4 [1; 2] 0; Fdatasync 4].
Definition before_store : list event := [Call 0 two_writes; Step 0; Step 0; Step 0; Begin 1].
Definition until_return : list event := [Step 1; Step 0; Step 0; Step 0; Step 1; Step 1].
Definition after_return : list event := [Step 0; Call 0 two_writes; Step 0; Step 0; Step 0; Step 0].
Definition state_after (es : list event) : shared := default (start_shared 2) (events (start_shared 2) es).

Lemma revocation_waits_for_calls_witness :
  exists s2 s3, events (start_shared 2) (before_store ++ Step 1 :: until_return) = Some s2 /\ events s2 after_return = Some s3 /\
  length (made s2) = 2%nat /\ made s3 = made s2.
Proof.
  exists (state_after (before_store ++ Step 1 :: until_return)), (state_after (before_store ++ Step 1 :: until_return ++ after_return)).
  split; [vm_compute; reflexivity|]. split; [vm_compute; reflexivity|]. split; [vm_compute; reflexivity|].
  apply (revocation_waits_for_calls 2 before_store (state_after before_store) 1 until_return
    (state_after (before_store ++ Step 1 :: until_return)) after_return (state_after (before_store ++ Step 1 :: until_return ++ after_return)));
    try (vm_compute; reflexivity).
  repeat (constructor; [discriminate|]). constructor.
Defined.

Lemma revocation_returns_witness :
  exists t, events (state_after before_store) [Step 0; Step 0; Step 0; Step 0] = Some t /\ (4 <= total_left (agents (state_after before_store)))%nat.
Proof.
  destruct (revocation_returns 2 before_store (state_after before_store) 1 Storing [Step 0; Step 0; Step 0; Step 0]) as (t & Ht & Hl & _).
  - lia.
  - vm_compute. reflexivity.
  - vm_compute. reflexivity.
  - by left.
  - repeat split; exists 0%nat; eexists; repeat split; vm_compute; lia.
  - by exists t.
Defined.
