(* ===== verification/ObjectSymbols.v ===== *)
(** Symbols of relocatable WebAssembly objects (src/compiler/wasmObjectSymbols.js).

    An object carries its symbols in the symbol table of the custom section "linking". [listWasmObjectSymbols] lists them and
    [renameWasmObjectSymbols] renames some: a name is in the table, or, for an undefined symbol without a name of its own, it is
    the field name of the import the symbol refers to. *)
From Stdlib Require Import ZArith Lia.
From stdpp Require Import base list strings numbers.
From S2P Require Import Prelude JsText JsMap Leb128 PublicationTrailer WasmSections.
Open Scope Z_scope.

Definition WASM_SYM_BINDING_WEAK : Z := 0x01.
Definition WASM_SYM_BINDING_LOCAL : Z := 0x02.
Definition WASM_SYM_UNDEFINED : Z := 0x10.
Definition WASM_SYM_EXPLICIT_NAME : Z := 0x40.
Definition SYM_FUNCTION : Z := 0.
Definition SYM_DATA : Z := 1.
Definition SYM_GLOBAL : Z := 2.
Definition SYM_SECTION : Z := 3.
Definition SYM_EVENT : Z := 4.
Definition SYM_TABLE : Z := 5.
Definition LINKING_SYMBOL_TABLE_SUBSECTION_ID : Z := 8.
Definition IMPORT_SECTION_ID : Z := 2.
Definition IMPORT_KIND_FUNCTION : Z := 0.
Definition IMPORT_KIND_TABLE : Z := 1.
Definition IMPORT_KIND_MEMORY : Z := 2.
Definition IMPORT_KIND_GLOBAL : Z := 3.
Definition IMPORT_KIND_TAG : Z := 4.

(** A span of bytes: where it starts and where it ends. *)
Definition span : Type := Z * Z.

Definition readName (bytes : list Z) (offset : Z) : result (jsstring * span) :=
  let! lengthInfo := decodeUnsignedLeb128 bytes offset in
  let start := nextOffset lengthInfo in
  let end_ := num_add start (value lengthInfo) in
  throw_if blen bytes <? end_ with Error "WASM name extends past the end of its section.";
  Ok (text_decode (subarray bytes start end_), (offset, end_)).

Definition encodeName (name : jsstring) : result (list Z) :=
  let nameBytes := text_encode name in
  let! len := encodeUnsignedLeb128 (blen nameBytes) in
  Ok (len ++ nameBytes).

Definition encodeSection (id : Z) (payload : list Z) (sizeWidth : Z) : result (list Z) :=
  let! size := encodeLebAtWidth (blen payload) sizeWidth in
  Ok ([id] ++ size ++ payload).

Definition sizeWidthOf (s : section) : Z := payloadStart s - start s - 1.

Definition LINKING : jsstring := lit "linking".
Definition is_linking (s : section) : bool :=
  (id s =? 0) && match custom s with Some c => str_eqb (name c) LINKING | None => false end.
(** The section and the bytes behind its name. *)
Definition findLinkingSection (parsed : parsed_module) : result (section * custom_info) :=
  match List.find is_linking (sections parsed) with
  | Some s => match custom s with Some c => Ok (s, c) | None => Throw (Error "Wasm object is missing its linking custom section.") end
  | None => Throw (Error "Wasm object is missing its linking custom section.")
  end.

(** ** The symbol table *)

Record symbol := Symbol {
  sy_index : Z; sy_kind : Z; sy_flags : Z; sy_start : Z; sy_end : Z;
  sy_name : jsstring; nameSpan : option span; elementIndex : option Z
}.
Definition has_bit (flags bit : Z) : bool := negb (js_and flags bit =? 0).
Definition names_element (kind : Z) : bool :=
  (kind =? SYM_FUNCTION) || (kind =? SYM_GLOBAL) || (kind =? SYM_EVENT) || (kind =? SYM_TABLE).

(** The body of the loop over the symbols, at [start]. *)
Definition read_symbol (payload : list Z) (index start : Z) : result symbol :=
  let kind := num_or_0 (at_ payload start) in
  let! flagsInfo := decodeUnsignedLeb128 payload (start + 1) in
  let flags := value flagsInfo in
  let cursor := nextOffset flagsInfo in
  if names_element kind then
    let! elementInfo := decodeUnsignedLeb128 payload cursor in
    let cursor := nextOffset elementInfo in
    if negb (has_bit flags WASM_SYM_UNDEFINED) || has_bit flags WASM_SYM_EXPLICIT_NAME then
      let! (n, sp) := readName payload cursor in
      Ok (Symbol index kind flags start sp.2 n (Some sp) (Some (value elementInfo)))
    else Ok (Symbol index kind flags start cursor [] None (Some (value elementInfo)))
  else if kind =? SYM_DATA then
    let! (n, sp) := readName payload cursor in
    if negb (has_bit flags WASM_SYM_UNDEFINED) then
      let! segment := decodeUnsignedLeb128 payload sp.2 in
      let! offset := decodeUnsignedLeb128 payload (nextOffset segment) in
      let! size := decodeUnsignedLeb128 payload (nextOffset offset) in
      Ok (Symbol index kind flags start (nextOffset size) n (Some sp) None)
    else Ok (Symbol index kind flags start sp.2 n (Some sp) None)
  else if kind =? SYM_SECTION then
    let! elementInfo := decodeUnsignedLeb128 payload cursor in
    Ok (Symbol index kind flags start (nextOffset elementInfo) [] None (Some (value elementInfo)))
  else Throw (Error "Unsupported wasm linking symbol kind.").

(** The loop: [count] symbols from [index] on. A symbol takes at least two bytes and reading behind the end throws, so the bytes
    bound the number of rounds. *)
Fixpoint read_symbols (fuel : nat) (payload : list Z) (count index cursor : Z) : result (list symbol * Z) :=
  if index <? count then
    match fuel with
    | O => Throw (Error "Unexpected end of data while decoding ULEB128.")
    | S fuel =>
        let! s := read_symbol payload index cursor in
        let! (rest, end_) := read_symbols fuel payload count (index + 1) (sy_end s) in
        Ok (s :: rest, end_)
    end
  else Ok ([], cursor).

Record symbol_table := SymbolTable {
  st_parsed : parsed_module; linking : section; linking_info : custom_info; payload : list Z;
  symbols : list symbol; subsectionStart : Z; contentStart : Z; contentEnd : Z
}.

(** The loop over the subsections of the linking section; each takes at least two bytes. *)
Fixpoint find_table (fuel : nat) (payload : list Z) (offset : Z) : result (list symbol * Z * Z * Z) :=
  if offset <? blen payload then
    match fuel with
    | O => Throw (Error "fuel")
    | S fuel =>
        let! sizeInfo := decodeUnsignedLeb128 payload (offset + 1) in
        let contentStart := nextOffset sizeInfo in
        let contentEnd := num_add contentStart (value sizeInfo) in
        throw_if blen payload <? contentEnd with Error "Linking subsection extends past the end of its section.";
        if negb (num_or_0 (at_ payload offset) =? LINKING_SYMBOL_TABLE_SUBSECTION_ID) then find_table fuel payload contentEnd
        else
          let! countInfo := decodeUnsignedLeb128 payload contentStart in
          let! (symbols, cursor) := read_symbols (length payload) payload (value countInfo) 0 (nextOffset countInfo) in
          throw_if negb (cursor =? contentEnd) with Error "Wasm symbol table did not end at its subsection boundary.";
          Ok (symbols, offset, contentStart, contentEnd)
    end
  else Throw (Error "Wasm object is missing its symbol table subsection.").

(** ** Imports *)

Record import := Import { im_kind : Z; kindIndex : Z; field : jsstring; fieldSpan : span }.

(** Where the limits at [cursor] end. *)
Definition readLimits (payload : list Z) (cursor : Z) : result Z :=
  let flags := num_or_0 (at_ payload cursor) in
  let! a := decodeUnsignedLeb128 payload (cursor + 1) in
  let! b := (if has_bit flags 0x01 then let! i := decodeUnsignedLeb128 payload (nextOffset a) in Ok (nextOffset i) else Ok (nextOffset a)) in
  if has_bit flags 0x08 then let! i := decodeUnsignedLeb128 payload b in Ok (nextOffset i) else Ok b.

(** Where the description of an import of kind [kind], which starts at [cursor], ends. *)
Definition read_desc (payload : list Z) (kind : option Z) (cursor : Z) : result Z :=
  let of_kind k := bool_decide (kind = Some k) in
  if of_kind IMPORT_KIND_FUNCTION then let! i := decodeUnsignedLeb128 payload cursor in Ok (nextOffset i)
  else if of_kind IMPORT_KIND_TABLE then
    let refType := num_or_0 (at_ payload cursor) in
    throw_if (refType =? 0x63) || (refType =? 0x64) with Error "Typed-reference table imports are not supported by the wasm object renamer.";
    readLimits payload (cursor + 1)
  else if of_kind IMPORT_KIND_MEMORY then readLimits payload cursor
  else if of_kind IMPORT_KIND_GLOBAL then
    let valueType := num_or_0 (at_ payload cursor) in
    throw_if (valueType =? 0x63) || (valueType =? 0x64) with Error "Typed-reference global imports are not supported by the wasm object renamer.";
    Ok (cursor + 2)
  else if of_kind IMPORT_KIND_TAG then let! i := decodeUnsignedLeb128 payload (cursor + 1) in Ok (nextOffset i)
  else Throw (Error "Unsupported wasm import kind.").

(** The loop over the imports; [perKind] has the number of the imports of each kind so far. *)
Fixpoint read_imports (fuel : nat) (payload : list Z) (count index cursor : Z) (perKind : list (Z * Z)) : result (list import) :=
  if index <? count then
    match fuel with
    | O => Throw (Error "Unexpected end of data while decoding ULEB128.")
    | S fuel =>
        let! (_, m) := readName payload cursor in
        let! (f, sp) := readName payload m.2 in
        let! next := read_desc payload (at_ payload sp.2) (sp.2 + 1) in
        let kind := num_or_0 (at_ payload sp.2) in
        let kindIndex := default 0 (map_get perKind kind) in
        let! rest := read_imports fuel payload count (index + 1) next (map_set perKind kind (kindIndex + 1)) in
        Ok (Import kind kindIndex f sp :: rest)
    end
  else Ok [].
Definition readImports (payload : list Z) : result (list import) :=
  let! countInfo := decodeUnsignedLeb128 payload 0 in
  read_imports (length payload) payload (value countInfo) 0 (nextOffset countInfo) [].

Definition SYMBOL_KIND_TO_IMPORT_KIND : list (Z * Z) :=
  [(SYM_FUNCTION, IMPORT_KIND_FUNCTION); (SYM_GLOBAL, IMPORT_KIND_GLOBAL); (SYM_EVENT, IMPORT_KIND_TAG); (SYM_TABLE, IMPORT_KIND_TABLE)].
Definition readImportsOf (parsed : parsed_module) : result (list import) :=
  match List.find (fun s => id s =? IMPORT_SECTION_ID) (sections parsed) with
  | None => Ok []
  | Some s => readImports (subarray (bytes parsed) (payloadStart s) (payloadEnd s))
  end.
Definition importFor (imports : list import) (kind : Z) (element : option Z) : option import :=
  List.find (fun e => bool_decide (Some (im_kind e) = map_get SYMBOL_KIND_TO_IMPORT_KIND kind) && bool_decide (Some (kindIndex e) = element)) imports.

(** ** Listing and renaming *)

Record listed := Listed { l_index : Z; l_kind : Z; l_flags : Z; l_name : jsstring; defined : bool; local : bool; weak : bool }.
Definition renames : Type := list (jsstring * jsstring).
Definition edit : Type := span * jsstring.

(** A symbol named by its import. The imports are read when the first such symbol is met; reading them again gives the same, so
    they are read here before the loop if there is one. *)
Definition by_import (s : symbol) : bool := match nameSpan s with None => negb (sy_kind s =? SYM_SECTION) | Some _ => false end.
Definition list_symbol (imports : list import) (s : symbol) : listed :=
  let n := if by_import s then match importFor imports (sy_kind s) (elementIndex s) with Some e => field e | None => [] end else sy_name s in
  Listed (sy_index s) (sy_kind s) (sy_flags s) n (negb (has_bit (sy_flags s) WASM_SYM_UNDEFINED)) (has_bit (sy_flags s) WASM_SYM_BINDING_LOCAL) (has_bit (sy_flags s) WASM_SYM_BINDING_WEAK).

(** [renames.get(name)] when it is there and another name. *)
Definition next_name (m : renames) (n : jsstring) : option jsstring :=
  match map_get m n with Some next => if str_eqb next n then None else Some next | None => None end.
Definition passed_over (undefinedOnly : bool) (s : symbol) : bool :=
  (sy_kind s =? SYM_SECTION) || undefinedOnly && negb (has_bit (sy_flags s) WASM_SYM_UNDEFINED).
(** The two lists of edits, in the order of the symbols. *)
Definition symbol_edit (m : renames) (undefinedOnly : bool) (s : symbol) : option edit :=
  if passed_over undefinedOnly s then None
  else match nameSpan s with Some sp => (fun n => (sp, n)) <$> next_name m (sy_name s) | None => None end.
Definition import_edit (m : renames) (undefinedOnly : bool) (imports : list import) (s : symbol) : option edit :=
  if passed_over undefinedOnly s then None
  else match nameSpan s with
       | Some _ => None
       | None => match importFor imports (sy_kind s) (elementIndex s) with Some e => (fun n => (fieldSpan e, n)) <$> next_name m (field e) | None => None end
       end.

(** [sort] by the start of the span; it is stable. *)
Fixpoint insert_edit (e : edit) (l : list edit) : list edit :=
  match l with
  | [] => [e]
  | f :: l => if e.1.1 <=? f.1.1 then e :: f :: l else f :: insert_edit e l
  end.
Definition sort_edits (l : list edit) : list edit := foldr insert_edit [] l.
Fixpoint splice_loop (bytes : list Z) (cursor : Z) (edits : list edit) : result (list Z) :=
  match edits with
  | [] => Ok (subarray_from bytes cursor)
  | (sp, n) :: edits =>
      let! new := encodeName n in
      let! rest := splice_loop bytes sp.2 edits in
      Ok (subarray bytes cursor sp.1 ++ new ++ rest)
  end.
Definition spliceNames (bytes : list Z) (edits : list edit) : result (list Z) := splice_loop bytes 0 (sort_edits edits).

Definition shift_edit (d : Z) (e : edit) : edit := ((e.1.1 - d, e.1.2 - d), e.2).

(** The new bytes of one section. Sections are told apart by where they start. *)
Definition rename_section (t : symbol_table) (symbolEdits importEdits : list edit) (s : section) : result (list Z) :=
  let parsed := st_parsed t in
  if (start s =? start (linking t)) && negb (bool_decide (symbolEdits = [])) then
    let tableContent := subarray (payload t) (contentStart t) (contentEnd t) in
    let! newContent := spliceNames tableContent (map (shift_edit (contentStart t)) symbolEdits) in
    let! size := encodeLebAtWidth (blen newContent) (contentStart t - subsectionStart t - 1) in
    let newData := subarray (payload t) 0 (subsectionStart t) ++ [LINKING_SYMBOL_TABLE_SUBSECTION_ID] ++ size ++ newContent ++ subarray_from (payload t) (contentEnd t) in
    encodeSection 0 (subarray (bytes parsed) (payloadStart s) (nameEnd (linking_info t)) ++ newData) (sizeWidthOf s)
  else if (id s =? IMPORT_SECTION_ID) && negb (bool_decide (importEdits = [])) then
    let! new := spliceNames (subarray (bytes parsed) (payloadStart s) (payloadEnd s)) importEdits in
    encodeSection IMPORT_SECTION_ID new (sizeWidthOf s)
  else Ok (rawBytes s).
Fixpoint rename_sections (t : symbol_table) (symbolEdits importEdits : list edit) (ss : list section) : result (list Z) :=
  match ss with
  | [] => Ok []
  | s :: ss =>
      let! new := rename_section t symbolEdits importEdits s in
      let! rest := rename_sections t symbolEdits importEdits ss in
      Ok (new ++ rest)
  end.

Section with_trailer.
Context {R : Type} `{!RecCodec R}.

Definition readSymbolTable (objectBytes : list Z) : result symbol_table :=
  let! parsed := parseWasmModuleSections objectBytes in
  let! (s, c) := findLinkingSection parsed in
  let payload := dataBytes c in
  let! version := decodeUnsignedLeb128 payload 0 in
  let! (symbols, subsectionStart, contentStart, contentEnd) := find_table (length payload) payload (nextOffset version) in
  Ok (SymbolTable parsed s c payload symbols subsectionStart contentStart contentEnd).

Definition listWasmObjectSymbols (objectBytes : list Z) : result (list listed) :=
  let! t := readSymbolTable objectBytes in
  let! imports := (if existsb by_import (symbols t) then readImportsOf (st_parsed t) else Ok []) in
  Ok (map (list_symbol imports) (symbols t)).

Definition renameWasmObjectSymbols (objectBytes : list Z) (map_ : renames) (undefinedOnly : bool) : result (list Z) :=
  if bool_decide (map_ = []) then Ok objectBytes
  else
    let! t := readSymbolTable objectBytes in
    let reads s := by_import s && negb (passed_over undefinedOnly s) in
    let! imports := (if existsb reads (symbols t) then readImportsOf (st_parsed t) else Ok []) in
    let symbolEdits := omap (symbol_edit map_ undefinedOnly) (symbols t) in
    let importEdits := omap (import_edit map_ undefinedOnly imports) (symbols t) in
    if bool_decide (symbolEdits = []) && bool_decide (importEdits = []) then Ok objectBytes
    else
      let! rest := rename_sections t symbolEdits importEdits (sections (st_parsed t)) in
      Ok (headerBytes (st_parsed t) ++ rest).
End with_trailer.
