(* ===== verification/ObjectRename.v ===== *)
(** Renaming the symbols of an object (ObjectSymbols.v) changes the names and nothing else.

    Objects are given by their syntax: sections, among them one symbol table and at most one list of imports, with the encoding
    of every number kept. [print] writes an object, [rename_object] renames on the syntax. The code, which edits bytes in
    place, is shown to do the same: listing the bytes of an object gives its symbols, and renaming its bytes gives the bytes of
    the renamed object, whose symbols are the old ones with new names. *)
From Stdlib Require Import ZArith Lia.
From stdpp Require Import base list strings numbers.
From S2P Require Import Prelude JsText JsMap Leb128 PublicationTrailer WasmSections ObjectSymbols.
Open Scope Z_scope.

(** ** Numbers and names *)

(** An unsigned LEB128 number the reader takes. *)
Definition word (bs : list Z) : Prop := leb_bytes bs /\ blen bs <= 8 /\ leb_value bs <= MAX_SAFE_INTEGER.
Record wname := WName { w_len : list Z; w_text : list Z }.
Definition valid_name (n : wname) : Prop := word (w_len n) /\ leb_value (w_len n) = blen (w_text n).
Definition print_name (n : wname) : list Z := w_len n ++ w_text n.
Definition text (n : wname) : jsstring := text_decode (w_text n).
(** A name as the renamer writes it. *)
Definition mk_name (n : jsstring) : wname := WName (encode_loop 8 (blen (text_encode n))) (text_encode n).

(** ** Symbols *)

(** Kind, flags, the index of an element or nothing, a name or none, and the rest (the place of a datum). *)
Record wsym := WSym { y_kind : Z; y_flags : list Z; y_elem : list Z; y_name : option wname; y_rest : list Z }.
Definition print_own (n : option wname) : list Z := match n with Some n => print_name n | None => [] end.
Definition print_sym (y : wsym) : list Z := [y_kind y] ++ y_flags y ++ y_elem y ++ print_own (y_name y) ++ y_rest y.
Definition flag (y : wsym) (bit : Z) : bool := has_bit (leb_value (y_flags y)) bit.
Definition own_name (fl : list Z) : bool :=
  negb (has_bit (leb_value fl) WASM_SYM_UNDEFINED) || has_bit (leb_value fl) WASM_SYM_EXPLICIT_NAME.
Inductive valid_sym : wsym -> Prop :=
  | vs_named k fl el n : names_element k = true -> word fl -> word el -> own_name fl = true -> valid_name n -> valid_sym (WSym k fl el (Some n) [])
  | vs_imported k fl el : names_element k = true -> word fl -> word el -> own_name fl = false -> valid_sym (WSym k fl el None [])
  | vs_data fl n a b c : word fl -> has_bit (leb_value fl) WASM_SYM_UNDEFINED = false -> valid_name n -> word a -> word b -> word c ->
      valid_sym (WSym SYM_DATA fl [] (Some n) (a ++ b ++ c))
  | vs_missing fl n : word fl -> has_bit (leb_value fl) WASM_SYM_UNDEFINED = true -> valid_name n -> valid_sym (WSym SYM_DATA fl [] (Some n) [])
  | vs_section fl el : word fl -> word el -> valid_sym (WSym SYM_SECTION fl el None []).

(** ** Imports *)

Inductive limits : list Z -> Prop :=
  | lim f a b c : word a -> (if has_bit f 0x01 then word b else b = []) -> (if has_bit f 0x08 then word c else c = []) -> limits ([f] ++ a ++ b ++ c).
Inductive valid_desc : Z -> list Z -> Prop :=
  | vd_function t : word t -> valid_desc IMPORT_KIND_FUNCTION t
  | vd_table r l : r <> 0x63 -> r <> 0x64 -> limits l -> valid_desc IMPORT_KIND_TABLE ([r] ++ l)
  | vd_memory l : limits l -> valid_desc IMPORT_KIND_MEMORY l
  | vd_global v m : v <> 0x63 -> v <> 0x64 -> valid_desc IMPORT_KIND_GLOBAL [v; m]
  | vd_tag x t : word t -> valid_desc IMPORT_KIND_TAG ([x] ++ t).
Record wimport := WImport { m_module : wname; m_field : wname; m_kind : Z; m_desc : list Z }.
Definition print_import (i : wimport) : list Z := print_name (m_module i) ++ print_name (m_field i) ++ [m_kind i] ++ m_desc i.
Definition valid_import (i : wimport) : Prop := valid_name (m_module i) /\ valid_name (m_field i) /\ valid_desc (m_kind i) (m_desc i).

(** ** Sections *)

Inductive wsec := Plain (i : Z) (size payload : list Z) | Custom (size : list Z) (n : wname) (data : list Z).
Definition raw_of (s : wsec) : list Z :=
  match s with Plain i size payload => [i] ++ size ++ payload | Custom size n data => [0] ++ size ++ print_name n ++ data end.
Definition valid_sec (s : wsec) : Prop :=
  match s with
  | Plain i size payload => is_byte i /\ i <> 0 /\ word size /\ leb_value size = blen payload
  | Custom size n data => word size /\ leb_value size = blen (print_name n ++ data) /\ valid_name n
  end.
Record wimports := WImports { i_size : list Z; i_count : list Z; i_list : list wimport; i_trail : list Z }.
Record wsub := WSub { u_id : Z; u_size : list Z; u_content : list Z }.
Record wlinking := WLinking {
  k_size : list Z; k_name : wname; k_version : list Z; k_subs : list wsub; k_tsize : list Z; k_count : list Z; k_syms : list wsym; k_after : list Z
}.
Definition print_imports (x : wimports) : list Z := i_count x ++ concat (map print_import (i_list x)) ++ i_trail x.
Definition print_sub (u : wsub) : list Z := [u_id u] ++ u_size u ++ u_content u.
Definition print_table (l : wlinking) : list Z := k_count l ++ concat (map print_sym (k_syms l)).
Definition print_front (l : wlinking) : list Z := k_version l ++ concat (map print_sub (k_subs l)).
Definition print_data (l : wlinking) : list Z := print_front l ++ [LINKING_SYMBOL_TABLE_SUBSECTION_ID] ++ k_tsize l ++ print_table l ++ k_after l.

Inductive wpart := Other (s : wsec) | Imps (x : wimports) | Link (l : wlinking).
Definition shape (p : wpart) : wsec :=
  match p with Other s => s | Imps x => Plain IMPORT_SECTION_ID (i_size x) (print_imports x) | Link l => Custom (k_size l) (k_name l) (print_data l) end.
Definition is_other (s : wsec) : Prop := match s with Plain i _ _ => i <> IMPORT_SECTION_ID | Custom _ n _ => text n <> LINKING end.
Definition valid_sub (u : wsub) : Prop := u_id u <> LINKING_SYMBOL_TABLE_SUBSECTION_ID /\ word (u_size u) /\ leb_value (u_size u) = blen (u_content u).
Definition valid_part (p : wpart) : Prop :=
  valid_sec (shape p) /\
  match p with
  | Other s => is_other s
  | Imps x => word (i_count x) /\ leb_value (i_count x) = blen (i_list x) /\ Forall valid_import (i_list x)
  | Link l => text (k_name l) = LINKING /\ word (k_version l) /\ Forall valid_sub (k_subs l) /\ word (k_tsize l) /\ leb_value (k_tsize l) = blen (print_table l) /\
      word (k_count l) /\ leb_value (k_count l) = blen (k_syms l) /\ Forall valid_sym (k_syms l)
  end.

(** ** Objects *)

Definition object : Type := list wpart.
Definition print_parts (o : object) : list Z := concat (map (fun p => raw_of (shape p)) o).
Definition print (o : object) : list Z := WASM_HEADER ++ print_parts o.
Definition links (o : object) : list wlinking := omap (fun p => match p with Link l => Some l | _ => None end) o.
Definition imps (o : object) : list wimports := omap (fun p => match p with Imps x => Some x | _ => None end) o.
Definition object_syms (o : object) : list wsym := match links o with l :: _ => k_syms l | [] => [] end.
Definition object_imports (o : object) : list wimport := match imps o with x :: _ => i_list x | [] => [] end.

(** The import a symbol is named by: the one of its kind with its index among them. *)
Definition reference (y : wsym) : option (Z * Z) :=
  match y_name y with
  | Some _ => None
  | None => (fun k => (k, leb_value (y_elem y))) <$> map_get SYMBOL_KIND_TO_IMPORT_KIND (y_kind y)
  end.
Definition of_kind (k : Z) (i : wimport) : bool := m_kind i =? k.
Definition lookup_import (ims : list wimport) (r : Z * Z) : option wimport := at_ (List.filter (of_kind r.1) ims) r.2.
Definition name_of (ims : list wimport) (y : wsym) : jsstring :=
  match y_name y with
  | Some n => text n
  | None => match reference y with Some r => match lookup_import ims r with Some i => text (m_field i) | None => [] end | None => [] end
  end.
Definition listed_at (ims : list wimport) (index : Z) (y : wsym) : listed :=
  Listed index (y_kind y) (leb_value (y_flags y)) (name_of ims y) (negb (flag y WASM_SYM_UNDEFINED)) (flag y WASM_SYM_BINDING_LOCAL) (flag y WASM_SYM_BINDING_WEAK).
Fixpoint index_from {A B : Type} (f : Z -> A -> B) (i : Z) (l : list A) : list B := match l with [] => [] | x :: l => f i x :: index_from f (i + 1) l end.
(** The symbols of an object. *)
Definition object_listed (o : object) : list listed := index_from (listed_at (object_imports o)) 0 (object_syms o).

(** One symbol table, at most one list of imports, and every symbol named by an import has one. *)
Record valid_object (o : object) : Prop := {
  vo_parts : Forall valid_part o;
  vo_link : blen (links o) = 1;
  vo_imps : blen (imps o) <= 1;
  vo_refs : Forall (fun y => forall r, reference y = Some r -> lookup_import (object_imports o) r <> None) (object_syms o)
}.

(** ** Renaming on the syntax *)

Section renaming.
Variable (m : renames) (undefinedOnly : bool).

Definition sym_next (y : wsym) : option jsstring :=
  match y_name y with
  | Some n => if undefinedOnly && negb (flag y WASM_SYM_UNDEFINED) then None else next_name m (text n)
  | None => None
  end.
Definition rename_sym (y : wsym) : wsym :=
  match sym_next y with Some n => WSym (y_kind y) (y_flags y) (y_elem y) (Some (mk_name n)) (y_rest y) | None => y end.
(** An import is renamed when a symbol is named by it. *)
Definition import_next (refs : list (Z * Z)) (index : Z) (i : wimport) : option jsstring :=
  if bool_decide ((m_kind i, index) ∈ refs) then next_name m (text (m_field i)) else None.
Definition rename_import (refs : list (Z * Z)) (index : Z) (i : wimport) : wimport :=
  match import_next refs index i with Some n => WImport (m_module i) (mk_name n) (m_kind i) (m_desc i) | None => i end.
(** A function of each import and its index among those of its kind. *)
Definition kind_index (before : list wimport) (i : wimport) : Z := blen (List.filter (of_kind (m_kind i)) before).
Fixpoint on_imports {A : Type} (f : Z -> wimport -> A) (before ims : list wimport) : list A :=
  match ims with [] => [] | i :: ims => f (kind_index before i) i :: on_imports f (before ++ [i]) ims end.

(** A number written anew at the width it had. *)
Definition resize (old : list Z) (v : Z) : list Z := match encodeLebAtWidth v (blen old) with Ok bs => bs | Throw _ => old end.
Definition rename_imports (refs : list (Z * Z)) (x : wimports) : wimports :=
  if bool_decide (omap (fun x => x) (on_imports (import_next refs) [] (i_list x)) = []) then x
  else let y := WImports (i_size x) (i_count x) (on_imports (rename_import refs) [] (i_list x)) (i_trail x) in
       WImports (resize (i_size x) (blen (print_imports y))) (i_count y) (i_list y) (i_trail y).
Definition rename_linking (l : wlinking) : wlinking :=
  if bool_decide (omap sym_next (k_syms l) = []) then l
  else let y := WLinking (k_size l) (k_name l) (k_version l) (k_subs l) (k_tsize l) (k_count l) (map rename_sym (k_syms l)) (k_after l) in
       let z := WLinking (k_size l) (k_name l) (k_version l) (k_subs l) (resize (k_tsize l) (blen (print_table y))) (k_count l) (k_syms y) (k_after l) in
       WLinking (resize (k_size l) (blen (print_name (k_name z) ++ print_data z))) (k_name z) (k_version z) (k_subs z) (k_tsize z) (k_count z) (k_syms z) (k_after z).
Definition object_refs (o : object) : list (Z * Z) := omap reference (object_syms o).
Definition rename_part (refs : list (Z * Z)) (p : wpart) : wpart :=
  match p with Other s => Other s | Imps x => Imps (rename_imports refs x) | Link l => Link (rename_linking l) end.
Definition rename_object (o : object) : object := map (rename_part (object_refs o)) o.

(** What a renaming does to a listed symbol. *)
Definition renamed (s : listed) : listed :=
  if (l_kind s =? SYM_SECTION) || undefinedOnly && defined s then s
  else Listed (l_index s) (l_kind s) (l_flags s) (default (l_name s) (map_get m (l_name s))) (defined s) (local s) (weak s).
End renaming.

(** ** Reading what was printed *)

Lemma decode_eq w off a bs c : word bs -> w = a ++ bs ++ c -> off = blen a -> decodeUnsignedLeb128 w off = Ok (LebInfo (leb_value bs) (off + blen bs)).
Proof. intros (H1 & H2 & H3) -> ->. by apply decode_word. Qed.
Lemma readName_eq w off a n c : valid_name n -> w = a ++ print_name n ++ c -> off = blen a -> blen w < 2 ^ 53 ->
  readName w off = Ok (text n, (off, off + blen (print_name n))).
Proof.
  intros [Hn Hv] Hw -> Hl. unfold readName, print_name in *. rewrite (decode_eq w _ a (w_len n) (w_text n ++ c)); [|done|by rewrite Hw, <- app_assoc|done].
  cbn [rbind nextOffset value]. rewrite Hv, num_add_small by (rewrite Hw in Hl; blia).
  destruct (Z.ltb_spec (blen w) (blen a + blen (w_len n) + blen (w_text n))); [rewrite Hw in *; blia|].
  replace (blen a + blen (w_len n ++ w_text n)) with (blen a + blen (w_len n) + blen (w_text n)) by blia.
  do 3 f_equal. unfold text. f_equal. rewrite Hw, <- app_assoc, app_assoc. apply subarray_app; blia.
Qed.
Lemma at_eq (w a : list Z) off x c : w = a ++ x :: c -> off = blen a -> at_ w off = Some x.
Proof. intros -> ->. by rewrite at_app_here, at_cons_0. Qed.

(** Steps of a reader at a known place. *)
Ltac decode_step a bs c := rewrite (decode_eq _ _ a bs c) by (first [done | app_eq | blia]); cbn [rbind nextOffset value].
Ltac name_step a n c := rewrite (readName_eq _ _ a n c) by (first [done | app_eq | blia]); cbn [rbind fst snd].

(** The record of a printed symbol at an offset. *)
Definition sym_at (y : wsym) (index off : Z) : symbol :=
  let p := off + 1 + blen (y_flags y) + blen (y_elem y) in
  Symbol index (y_kind y) (leb_value (y_flags y)) off (off + blen (print_sym y)) (match y_name y with Some n => text n | None => [] end)
    ((fun n => (p, p + blen (print_name n))) <$> y_name y) (if bool_decide (y_elem y = []) then None else Some (leb_value (y_elem y))).

Lemma word_nonempty bs : word bs -> bool_decide (bs = []) = false.
Proof. intros [H _]. apply bool_decide_eq_false. intros ->. inversion H. Qed.

Lemma read_symbol_printed a y c index : valid_sym y -> blen (a ++ print_sym y ++ c) < 2 ^ 53 ->
  read_symbol (a ++ print_sym y ++ c) index (blen a) = Ok (sym_at y index (blen a)).
Proof.
  intros Hy. unfold read_symbol. destruct Hy as [k fl el n Hk Hfl Hel Hown Hn|k fl el Hk Hfl Hel Hown|fl n x1 x2 x3 Hfl Hd Hn H1 H2 H3|fl n Hfl Hd Hn|fl el Hfl Hel];
    unfold sym_at, print_sym; cbn [print_own y_kind y_flags y_elem y_name y_rest fmap option_fmap option_map];
    rewrite ?app_nil_r; intros Hl; rewrite at_app_here; cbn [app]; rewrite at_cons_0; cbn [num_or_0].
  - decode_step (a ++ [k]) fl (el ++ print_name n ++ c). rewrite Hk. decode_step (a ++ k :: fl) el (print_name n ++ c).
    unfold own_name in Hown. rewrite Hown. name_step (a ++ k :: fl ++ el) n c. rewrite (word_nonempty el Hel). do 2 f_equal; blia.
  - decode_step (a ++ [k]) fl (el ++ c). rewrite Hk. decode_step (a ++ k :: fl) el c. unfold own_name in Hown. rewrite Hown, (word_nonempty el Hel). do 2 f_equal; blia.
  - decode_step (a ++ [SYM_DATA]) fl (print_name n ++ x1 ++ x2 ++ x3 ++ c). change (names_element SYM_DATA) with false. change (SYM_DATA =? SYM_DATA) with true. cbv iota.
    name_step (a ++ SYM_DATA :: fl) n (x1 ++ x2 ++ x3 ++ c). rewrite Hd. cbn [negb].
    decode_step (a ++ SYM_DATA :: fl ++ print_name n) x1 (x2 ++ x3 ++ c). decode_step (a ++ SYM_DATA :: fl ++ print_name n ++ x1) x2 (x3 ++ c).
    decode_step (a ++ SYM_DATA :: fl ++ print_name n ++ x1 ++ x2) x3 c. do 2 f_equal; try blia. f_equal; f_equal; blia.
  - decode_step (a ++ [SYM_DATA]) fl (print_name n ++ c). change (names_element SYM_DATA) with false. change (SYM_DATA =? SYM_DATA) with true. cbv iota.
    name_step (a ++ SYM_DATA :: fl) n c. rewrite Hd. cbn [negb]. do 2 f_equal; try blia. f_equal; f_equal; blia.
  - decode_step (a ++ [SYM_SECTION]) fl (el ++ c). decode_step (a ++ SYM_SECTION :: fl) el c. rewrite (word_nonempty el Hel). do 2 f_equal; blia.
Qed.

Fixpoint syms_at (ys : list wsym) (index off : Z) : list symbol :=
  match ys with [] => [] | y :: ys => sym_at y index off :: syms_at ys (index + 1) (off + blen (print_sym y)) end.
Definition print_syms (ys : list wsym) : list Z := concat (map print_sym ys).
Lemma read_symbols_printed ys : forall fuel a c index count, Forall valid_sym ys -> (length ys <= fuel)%nat -> count = index + blen ys -> blen (a ++ print_syms ys ++ c) < 2 ^ 53 ->
  read_symbols fuel (a ++ print_syms ys ++ c) count index (blen a) = Ok (syms_at ys index (blen a), blen a + blen (print_syms ys)).
Proof.
  unfold print_syms. induction ys as [|y ys IH]; intros fuel a c index count Hv Hf -> Hl; cbn [map concat syms_at] in *.
  - destruct fuel; cbn [read_symbols]; (destruct (Z.ltb_spec index (index + blen (@nil wsym))); [blia|]); rewrite blen_nil; by rewrite Z.add_0_r.
  - destruct fuel as [|fuel]; [cbn in Hf; lia|]. apply list.Forall_cons in Hv as [Hy Hys]. cbn [read_symbols].
    destruct (Z.ltb_spec index (index + blen (y :: ys))); [|blia]. rewrite <- app_assoc in *. rewrite read_symbol_printed by done. cbn [rbind].
    change (sy_end (sym_at y index (blen a))) with (blen a + blen (print_sym y)). replace (blen a + blen (print_sym y)) with (blen (a ++ print_sym y)) by blia.
    rewrite app_assoc in Hl |- *. rewrite IH; [|done|cbn in Hf; lia|blia|done]. cbn [rbind]. do 2 f_equal; blia.
Qed.

Definition print_subs (us : list wsub) : list Z := concat (map print_sub us).
Lemma syms_short ys : Forall valid_sym ys -> (length ys <= length (print_syms ys))%nat.
Proof. unfold print_syms. induction 1 as [|y ys Hy _ IH]; [done|]. assert (1 <= length (print_sym y))%nat by (unfold print_sym; rewrite length_app; cbn; lia). cbn [map concat length]. rewrite length_app. lia. Qed.
Lemma find_table_printed us : forall fuel a tsize count ys c, Forall valid_sub us -> Forall valid_sym ys -> word tsize -> leb_value tsize = blen (count ++ print_syms ys) ->
  word count -> leb_value count = blen ys ->
  let w := a ++ print_subs us ++ [LINKING_SYMBOL_TABLE_SUBSECTION_ID] ++ tsize ++ (count ++ print_syms ys) ++ c in
  blen w < 2 ^ 53 -> (length us < fuel)%nat ->
  let sub := blen a + blen (print_subs us) in
  let cs := sub + 1 + blen tsize in
  find_table fuel w (blen a) = Ok (syms_at ys 0 (cs + blen count), sub, cs, cs + blen (count ++ print_syms ys)).
Proof.
  induction us as [|u us IH]; intros fuel a tsize count ys c Hu Hys Ht Htv Hc Hcv w Hl Hf sub cs; (destruct fuel as [|fuel]; [cbn in Hf; lia|]); cbn [find_table].
  - subst cs sub w. unfold print_subs in *. cbn [map concat app] in *. change (blen (@nil Z)) with 0. rewrite Z.add_0_r.
    destruct (Z.ltb_spec (blen a) (blen (a ++ LINKING_SYMBOL_TABLE_SUBSECTION_ID :: tsize ++ (count ++ print_syms ys) ++ c))); [|blia].
    decode_step (a ++ [LINKING_SYMBOL_TABLE_SUBSECTION_ID]) tsize ((count ++ print_syms ys) ++ c). rewrite Htv, num_add_small by blia.
    match goal with |- context [?x <? ?y] => destruct (Z.ltb_spec x y); [blia|] end.
    rewrite at_app_here, at_cons_0. cbn [num_or_0]. rewrite Z.eqb_refl. cbn [negb].
    decode_step (a ++ LINKING_SYMBOL_TABLE_SUBSECTION_ID :: tsize) count (print_syms ys ++ c).
    set (pre := a ++ LINKING_SYMBOL_TABLE_SUBSECTION_ID :: tsize ++ count).
    replace (a ++ LINKING_SYMBOL_TABLE_SUBSECTION_ID :: tsize ++ (count ++ print_syms ys) ++ c) with (pre ++ print_syms ys ++ c) in * by (unfold pre; app_eq).
    replace (blen a + 1 + blen tsize + blen count) with (blen pre) by (unfold pre; blia). rewrite Hcv.
    rewrite read_symbols_printed; [|done| |lia|done].
    2: { rewrite !length_app. pose proof (syms_short ys Hys). lia. }
    cbn [rbind]. match goal with |- context [?x =? ?y] => destruct (Z.eqb_spec x y); [|unfold pre in *; blia] end. cbn [negb]. done.
  - apply list.Forall_cons in Hu as [(Hid & Hus & Huv) Hu]. subst cs sub w. unfold print_subs in *. cbn [map concat] in *. fold (print_subs us) in *.
    set (tail := print_subs us ++ [LINKING_SYMBOL_TABLE_SUBSECTION_ID] ++ tsize ++ (count ++ print_syms ys) ++ c) in *.
    replace (a ++ (print_sub u ++ print_subs us) ++ [LINKING_SYMBOL_TABLE_SUBSECTION_ID] ++ tsize ++ (count ++ print_syms ys) ++ c) with (a ++ [u_id u] ++ u_size u ++ u_content u ++ tail) in *
      by (unfold tail, print_sub; app_eq).
    destruct (Z.ltb_spec (blen a) (blen (a ++ [u_id u] ++ u_size u ++ u_content u ++ tail))); [|blia].
    decode_step (a ++ [u_id u]) (u_size u) (u_content u ++ tail). rewrite Huv, num_add_small by blia.
    match goal with |- context [?x <? ?y] => destruct (Z.ltb_spec x y); [blia|] end.
    rewrite at_app_here. cbn [app]. rewrite at_cons_0. cbn [num_or_0]. destruct (Z.eqb_spec (u_id u) LINKING_SYMBOL_TABLE_SUBSECTION_ID); [done|]. cbn [negb].
    replace (a ++ u_id u :: u_size u ++ u_content u ++ tail) with ((a ++ print_sub u) ++ tail) in * by (unfold print_sub; app_eq).
    replace (blen a + 1 + blen (u_size u) + blen (u_content u)) with (blen (a ++ print_sub u)) by (unfold print_sub; blia).
    unfold tail. rewrite (IH fuel (a ++ print_sub u) tsize count ys c); try done; [|unfold tail in *; unfold print_sub in *; blia|cbn in Hf; lia].
    by replace (blen (a ++ print_sub u) + blen (print_subs us)) with (blen a + blen (print_sub u ++ print_subs us)) by blia.
Qed.

(** *** Imports *)

Lemma readLimits_printed a l c : limits l -> blen (a ++ l ++ c) < 2 ^ 53 -> readLimits (a ++ l ++ c) (blen a) = Ok (blen a + blen l).
Proof.
  intros [f x y z Hx Hy Hz] Hl. unfold readLimits. cbn [app] in *. rewrite at_app_here, at_cons_0. cbn [num_or_0].
  decode_step (a ++ [f]) x (y ++ z ++ c). destruct (has_bit f 0x01); subst; cbn [app rbind].
  - decode_step (a ++ f :: x) y (z ++ c). destruct (has_bit f 0x08); subst; cbn [app].
    + decode_step (a ++ f :: x ++ y) z c. f_equal. blia.
    + f_equal. blia.
  - destruct (has_bit f 0x08); subst; cbn [app].
    + decode_step (a ++ f :: x) z c. f_equal. blia.
    + f_equal. blia.
Qed.
Lemma read_desc_printed a k d c : valid_desc k d -> blen (a ++ [k] ++ d ++ c) < 2 ^ 53 -> read_desc (a ++ [k] ++ d ++ c) (Some k) (blen a + 1) = Ok (blen a + 1 + blen d).
Proof.
  intros Hd Hl. unfold read_desc. destruct Hd as [t Ht|r l Hr1 Hr2 Hlim|l Hlim|v mu Hv1 Hv2|x t Ht];
    cbv zeta; cbn [app] in *;
    repeat match goal with |- context [bool_decide (Some ?x = Some ?y)] => let b := eval vm_compute in (bool_decide (Some x = Some y)) in change (bool_decide (Some x = Some y)) with b end; cbv iota.
  - decode_step (a ++ [IMPORT_KIND_FUNCTION]) t c. done.
  - replace (a ++ IMPORT_KIND_TABLE :: r :: l ++ c) with ((a ++ [IMPORT_KIND_TABLE]) ++ r :: l ++ c) in * by app_eq.
    replace (blen a + 1) with (blen (a ++ [IMPORT_KIND_TABLE])) by blia. rewrite at_app_here, at_cons_0. cbn [num_or_0].
    destruct (Z.eqb_spec r 0x63); [done|]. destruct (Z.eqb_spec r 0x64); [done|]. cbn [orb].
    replace ((a ++ [IMPORT_KIND_TABLE]) ++ r :: l ++ c) with ((a ++ [IMPORT_KIND_TABLE; r]) ++ l ++ c) in * by app_eq.
    replace (blen (a ++ [IMPORT_KIND_TABLE]) + 1) with (blen (a ++ [IMPORT_KIND_TABLE; r])) by blia. rewrite readLimits_printed by done. f_equal. blia.
  - replace (a ++ IMPORT_KIND_MEMORY :: l ++ c) with ((a ++ [IMPORT_KIND_MEMORY]) ++ l ++ c) in * by app_eq.
    replace (blen a + 1) with (blen (a ++ [IMPORT_KIND_MEMORY])) by blia. by rewrite readLimits_printed.
  - replace (a ++ IMPORT_KIND_GLOBAL :: v :: mu :: c) with ((a ++ [IMPORT_KIND_GLOBAL]) ++ v :: mu :: c) in * by app_eq.
    replace (blen a + 1) with (blen (a ++ [IMPORT_KIND_GLOBAL])) by blia. rewrite at_app_here, at_cons_0. cbn [num_or_0].
    destruct (Z.eqb_spec v 0x63); [done|]. by destruct (Z.eqb_spec v 0x64).
  - decode_step (a ++ [IMPORT_KIND_TAG; x]) t c. f_equal. blia.
Qed.

Definition import_at (before : list wimport) (i : wimport) (off : Z) : import :=
  let p := off + blen (print_name (m_module i)) in
  Import (m_kind i) (kind_index before i) (text (m_field i)) (p, p + blen (print_name (m_field i))).
Fixpoint imports_at (before ims : list wimport) (off : Z) : list import :=
  match ims with [] => [] | i :: ims => import_at before i off :: imports_at (before ++ [i]) ims (off + blen (print_import i)) end.
Definition counts_of (perKind : list (Z * Z)) (before : list wimport) : Prop :=
  forall k, default 0 (map_get perKind k) = blen (List.filter (of_kind k) before).
Definition print_list (ims : list wimport) : list Z := concat (map print_import ims).

Lemma counts_next perKind before i : counts_of perKind before -> counts_of (map_set perKind (m_kind i) (default 0 (map_get perKind (m_kind i)) + 1)) (before ++ [i]).
Proof.
  intros H k. rewrite List.filter_app, blen_app. cbn [List.filter]. unfold of_kind at 2. destruct (Z.eqb_spec (m_kind i) k) as [<-|Hne].
  - rewrite map_get_set_eq, (H (m_kind i)). done.
  - rewrite map_get_set_ne, (H k) by done. change (blen (@nil wimport)) with 0. lia.
Qed.
Lemma read_imports_printed ims : forall fuel a c before perKind index count, Forall valid_import ims -> counts_of perKind before -> (length ims <= fuel)%nat -> count = index + blen ims ->
  blen (a ++ print_list ims ++ c) < 2 ^ 53 -> read_imports fuel (a ++ print_list ims ++ c) count index (blen a) perKind = Ok (imports_at before ims (blen a)).
Proof.
  unfold print_list. induction ims as [|i ims IH]; intros fuel a c before perKind index count Hv Hk Hf -> Hl; cbn [map concat imports_at] in *.
  - destruct fuel; cbn [read_imports]; (destruct (Z.ltb_spec index (index + blen (@nil wimport))); [blia|]); done.
  - destruct fuel as [|fuel]; [cbn in Hf; lia|]. apply list.Forall_cons in Hv as [(Hm & Hn & Hd) Hv]. cbn [read_imports].
    destruct (Z.ltb_spec index (index + blen (i :: ims))); [|blia]. set (tail := concat (map print_import ims) ++ c) in *.
    replace (a ++ (print_import i ++ concat (map print_import ims)) ++ c) with (a ++ print_name (m_module i) ++ print_name (m_field i) ++ [m_kind i] ++ m_desc i ++ tail) in *
      by (unfold tail, print_import; app_eq).
    name_step a (m_module i) (print_name (m_field i) ++ [m_kind i] ++ m_desc i ++ tail).
    name_step (a ++ print_name (m_module i)) (m_field i) ([m_kind i] ++ m_desc i ++ tail).
    set (pre := a ++ print_name (m_module i) ++ print_name (m_field i)).
    replace (a ++ print_name (m_module i) ++ print_name (m_field i) ++ [m_kind i] ++ m_desc i ++ tail) with (pre ++ [m_kind i] ++ m_desc i ++ tail) in * by (unfold pre; app_eq).
    replace (blen a + blen (print_name (m_module i)) + blen (print_name (m_field i))) with (blen pre) by (unfold pre; blia).
    rewrite (at_eq _ pre (blen pre) (m_kind i) (m_desc i ++ tail)) by done. cbn [num_or_0]. rewrite read_desc_printed by done. cbn [rbind].
    replace (blen pre + 1 + blen (m_desc i)) with (blen (a ++ print_import i)) by (unfold pre, print_import; blia).
    replace (pre ++ [m_kind i] ++ m_desc i ++ tail) with ((a ++ print_import i) ++ tail) in * by (unfold pre, print_import; app_eq).
    unfold tail in *. rewrite (IH fuel _ c (before ++ [i])); [|done|by apply counts_next|cbn in Hf; lia|blia|done]. cbn [rbind]. f_equal.
    replace (blen (a ++ print_import i)) with (blen a + blen (print_import i)) by blia. f_equal. unfold import_at. rewrite (Hk (m_kind i)). f_equal. f_equal. unfold pre. blia.
Qed.
Lemma imports_short ims : Forall valid_import ims -> (length ims <= length (print_list ims))%nat.
Proof.
  unfold print_list. induction 1 as [|i ims Hi _ IH]; [done|].
  assert (1 <= length (print_import i))%nat by (unfold print_import; rewrite !length_app; cbn; lia). cbn [map concat length]. rewrite length_app. lia.
Qed.
Lemma readImports_printed x : word (i_count x) -> leb_value (i_count x) = blen (i_list x) -> Forall valid_import (i_list x) -> blen (print_imports x) < 2 ^ 53 ->
  readImports (print_imports x) = Ok (imports_at [] (i_list x) (blen (i_count x))).
Proof.
  intros Hc Hv Hi Hl. unfold readImports, print_imports in *. fold (print_list (i_list x)) in *. decode_step (@nil Z) (i_count x) (print_list (i_list x) ++ i_trail x).
  rewrite Z.add_0_l, Hv. apply read_imports_printed; try done. rewrite !length_app. pose proof (imports_short _ Hi). lia.
Qed.

(** *** The import of a reference *)

Definition key (x : import) : Z * Z := (im_kind x, kindIndex x).
Definition keyed (r : Z * Z) (x : import) : bool := bool_decide (key x = r).

Lemma find_keyed l r x : NoDup (map key l) -> List.find (keyed r) l = Some x <-> x ∈ l /\ key x = r.
Proof.
  induction l as [|z l IH]; cbn [map List.find]; intros Hnd; [split; [done|]; intros [H _]; by apply not_elem_of_nil in H|].
  apply list.NoDup_cons in Hnd as [Hz Hnd]. unfold keyed at 1. case_bool_decide as Hk.
  - split; [intros [= ->]; split; [left|done]|]. intros [[->|Hx]%elem_of_cons Hr]; [done|]. exfalso. apply Hz. rewrite Hk, <- Hr. by apply list_elem_of_fmap_2.
  - rewrite IH by done. split; intros [Hx Hr]; (split; [|done]); [by right|]. by apply elem_of_cons in Hx as [->|].
Qed.

Lemma kind_snoc k l i : blen (List.filter (of_kind k) (l ++ [i])) = blen (List.filter (of_kind k) l) + (if m_kind i =? k then 1 else 0).
Proof. rewrite List.filter_app, blen_app. cbn [List.filter]. unfold of_kind at 2. by destruct (m_kind i =? k). Qed.
(** Where the keys of printed imports lie. *)
Lemma imports_keys before ims : forall off, map key (imports_at before ims off) = on_imports (fun k i => (m_kind i, k)) before ims.
Proof. revert before. induction ims as [|i ims IH]; intros before off; [done|]. cbn [imports_at map on_imports]. by rewrite IH. Qed.
Lemma keys_above before ims k n : (k, n) ∈ on_imports (fun k i => (m_kind i, k)) before ims -> blen (List.filter (of_kind k) before) <= n.
Proof.
  revert before. induction ims as [|i ims IH]; intros before; cbn [on_imports]; [by intros H%not_elem_of_nil|].
  intros [[= -> ->]|H]%elem_of_cons; [done|]. apply IH in H. rewrite kind_snoc in H. destruct (m_kind i =? k); lia.
Qed.
Lemma keys_distinct before ims : NoDup (on_imports (fun k i => (m_kind i, k)) before ims).
Proof.
  revert before. induction ims as [|i ims IH]; intros before; cbn [on_imports]; constructor; [|apply IH].
  intros H%keys_above. rewrite kind_snoc, Z.eqb_refl in H. unfold kind_index in H. lia.
Qed.
Lemma imports_key_distinct before ims off : NoDup (map key (imports_at before ims off)).
Proof. rewrite imports_keys. apply keys_distinct. Qed.

(** The import a key leads to is the one of its kind at its index. *)
Lemma find_import before ims off k n : blen (List.filter (of_kind k) before) <= n ->
  field <$> List.find (keyed (k, n)) (imports_at before ims off) = (fun i => text (m_field i)) <$> at_ (List.filter (of_kind k) ims) (n - blen (List.filter (of_kind k) before)).
Proof.
  revert before off. induction ims as [|i ims IH]; intros before off Hn; cbn [imports_at List.find List.filter].
  - by destruct (at_ (@nil wimport) _) as [i|] eqn:E; [apply at_Some_lt in E; unfold blen in E; cbn in E; lia|].
  - unfold keyed at 1, key, import_at at 1. cbn [im_kind kindIndex]. change (of_kind k i) with (m_kind i =? k). pose proof (kind_snoc k before i) as Hs.
    destruct (Z.eqb_spec (m_kind i) k) as [<-|Hne].
    + case_bool_decide as Hk; cbn [fmap option_fmap option_map].
      * injection Hk as <-. unfold kind_index. by rewrite Z.sub_diag, at_cons_0.
      * assert (n <> blen (List.filter (of_kind (m_kind i)) before)) by (intros ->; by apply Hk). rewrite at_cons_S, IH by lia. do 2 f_equal. lia.
    + rewrite bool_decide_eq_false_2 by congruence. rewrite IH by lia. do 2 f_equal. lia.
Qed.

Lemma reference_valid y : valid_sym y -> reference y = (if by_import (sym_at y 0 0) then (fun k => (k, leb_value (y_elem y))) <$> map_get SYMBOL_KIND_TO_IMPORT_KIND (y_kind y) else None).
Proof.
  unfold reference, by_import. destruct 1; cbn [nameSpan sym_at y_name y_kind fmap option_fmap option_map sy_kind]; try done.
  destruct (Z.eqb_spec k SYM_SECTION) as [->|]; [done|]. done.
Qed.
Lemma by_import_at y i off : by_import (sym_at y i off) = by_import (sym_at y 0 0).
Proof. unfold by_import, sym_at. cbn [nameSpan sy_kind]. by destruct (y_name y). Qed.

Lemma find_ext {A} (f g : A -> bool) l : (forall x, f x = g x) -> List.find f l = List.find g l.
Proof. intros H. induction l as [|x l IH]; [done|]. cbn [List.find]. by rewrite H, IH. Qed.
(** The import of a symbol named by its import, by key. *)
Lemma importFor_keyed imports y i off r : valid_sym y -> reference y = Some r -> importFor imports (sy_kind (sym_at y i off)) (elementIndex (sym_at y i off)) = List.find (keyed r) imports.
Proof.
  intros Hy. rewrite (reference_valid y Hy). destruct (by_import _) eqn:Eb; [|done]. intros Hr. unfold importFor. cbn [sym_at sy_kind elementIndex].
  destruct (map_get SYMBOL_KIND_TO_IMPORT_KIND (y_kind y)) as [k|]; [|done]. injection Hr as <-.
  assert (bool_decide (y_elem y = []) = false) as ->. { destruct Hy; try done; by apply word_nonempty. }
  apply find_ext. intros x. unfold keyed, key. rewrite <- bool_decide_and. apply bool_decide_ext. split; [intros [[= ->] [= ->]]; done|by intros [= -> ->]].
Qed.

(** ** Listing *)

Lemma import_named y : valid_sym y -> by_import (sym_at y 0 0) = true -> y_name y = None /\ exists r, reference y = Some r.
Proof.
  destruct 1; unfold by_import; cbn; try done. intros _. split; [done|]. unfold reference. cbn [y_name y_kind].
  unfold names_element in *. destruct (Z.eqb_spec k SYM_FUNCTION) as [->|]; [by eexists|]. destruct (Z.eqb_spec k SYM_GLOBAL) as [->|]; [by eexists|].
  destruct (Z.eqb_spec k SYM_EVENT) as [->|]; [by eexists|]. destruct (Z.eqb_spec k SYM_TABLE) as [->|]; [by eexists|done].
Qed.
Lemma not_import_named y : valid_sym y -> by_import (sym_at y 0 0) = false -> reference y = None.
Proof. intros Hy Hb. by rewrite (reference_valid y Hy), Hb. Qed.

Lemma list_symbol_printed imports ims o y i off : valid_sym y -> (by_import (sym_at y 0 0) = true -> imports = imports_at [] ims o /\ forall r, reference y = Some r -> 0 <= r.2) ->
  list_symbol imports (sym_at y i off) = listed_at ims i y.
Proof.
  intros Hy Him. unfold list_symbol, listed_at. cbn [sym_at sy_index sy_kind sy_flags sy_name]. f_equal. rewrite by_import_at. unfold name_of.
  destruct (by_import (sym_at y 0 0)) eqn:Eb.
  - destruct (import_named y Hy Eb) as [Hn [[k n] Hr]]. destruct (Him eq_refl) as [-> Hpos]. specialize (Hpos _ Hr). cbn in Hpos.
    pose proof (importFor_keyed (imports_at [] ims o) y i off _ Hy Hr) as Hf. cbn [sym_at sy_kind elementIndex] in Hf.
    change (elementIndex (sym_at y i off)) with (if bool_decide (y_elem y = []) then None else Some (leb_value (y_elem y))). rewrite Hf, Hn, Hr. unfold lookup_import. cbn [fst snd].
    pose proof (find_import [] ims o k n Hpos) as Hfi. change (blen (List.filter (of_kind k) [])) with 0 in Hfi. rewrite Z.sub_0_r in Hfi.
    destruct (List.find (keyed (k, n)) (imports_at [] ims o)), (at_ (List.filter (of_kind k) ims) n); cbn in Hfi; congruence.
  - rewrite (not_import_named y Hy Eb). done.
Qed.
Lemma ref_nonneg y r : reference y = Some r -> 0 <= r.2.
Proof. unfold reference. destruct (y_name y); [done|]. destruct (map_get _ _); [|done]. intros [= <-]. cbn. pose proof (leb_value_bound (y_elem y)). lia. Qed.
Lemma list_printed imports ims o ys : forall i off, Forall valid_sym ys -> (existsb by_import (syms_at ys i off) = true -> imports = imports_at [] ims o) ->
  map (list_symbol imports) (syms_at ys i off) = index_from (listed_at ims) i ys.
Proof.
  induction ys as [|y ys IH]; intros i off Hv Him; [done|]. apply list.Forall_cons in Hv as [Hy Hv]. cbn [syms_at map index_from existsb] in *. f_equal.
  - apply (list_symbol_printed imports ims o); [done|]. intros Hb. split; [apply Him; by rewrite by_import_at, Hb|apply ref_nonneg].
  - apply IH; [done|]. intros Hb. apply Him. by rewrite Hb, orb_true_r.
Qed.

(** ** Splicing *)

Definition estart (e : edit) : Z := e.1.1.
(** The bytes in front of the first edit are copied. *)
Lemma splice_ahead a p x es : Forall (fun e => blen a + blen p <= estart e) es ->
  splice_loop (a ++ p ++ x) (blen a) es = let! r := splice_loop (a ++ p ++ x) (blen a + blen p) es in Ok (p ++ r).
Proof.
  intros H. destruct es as [|[[s e] n] es]; cbn [splice_loop rbind].
  - do 2 f_equal. rewrite (subarray_from_app a) by done. by rewrite app_assoc, (subarray_from_app (a ++ p)) by blia.
  - apply list.Forall_cons in H as [H _]. unfold estart in H. cbn in H. cbn [fst snd]. destruct (encodeName n); [|done]. cbn [rbind]. destruct (splice_loop _ e es); [|done]. cbn [rbind].
    f_equal. rewrite (subarray_join _ (blen a) (blen a + blen p) s) by blia. rewrite (subarray_app a p x) by done. by rewrite <- app_assoc.
Qed.
(** An edit replaces its bytes. *)
Lemma splice_here a p x s e n es : s = blen a -> e = blen a + blen p ->
  splice_loop (a ++ p ++ x) (blen a) (((s, e), n) :: es) = let! new := encodeName n in let! r := splice_loop (a ++ p ++ x) (blen a + blen p) es in Ok (new ++ r).
Proof.
  intros -> ->. cbn [splice_loop fst snd]. destruct (encodeName n); [|done]. cbn [rbind]. destruct (splice_loop _ _ es); [|done]. cbn [rbind]. f_equal.
  by rewrite (subarray_app a [] (p ++ x)) by blia.
Qed.

(** Edits in a strictly increasing order. *)
Fixpoint increasing (l : list edit) : Prop :=
  match l with [] => True | e :: l => Forall (fun f => estart e < estart f) l /\ increasing l end.
Lemma insert_edit_in e l x : x ∈ insert_edit e l <-> x = e \/ x ∈ l.
Proof.
  induction l as [|f l IH]; cbn [insert_edit]; [by rewrite list_elem_of_singleton, elem_of_nil; split; [left|intros [|]]|].
  destruct (e.1.1 <=? f.1.1); [by rewrite !elem_of_cons|]. rewrite !elem_of_cons, IH. tauto.
Qed.
Lemma insert_front e l : Forall (fun f => estart e <= estart f) l -> insert_edit e l = e :: l.
Proof. intros H. destruct l as [|f l]; [done|]. apply list.Forall_cons in H as [H _]. cbn. unfold estart in H. by rewrite (proj2 (Z.leb_le _ _) H). Qed.
Lemma sort_increasing l : increasing l -> sort_edits l = l.
Proof.
  induction l as [|e l IH]; [done|]. intros [He Hl]. cbn [sort_edits foldr]. fold (sort_edits l). rewrite IH by done. apply insert_front.
  eapply list.Forall_impl; [exact He|]. cbn. lia.
Qed.
(** Inserting an element of an increasing list where it is missing gives it back. *)
Lemma insert_missing l1 e l2 : increasing (l1 ++ e :: l2) -> insert_edit e (l1 ++ l2) = l1 ++ e :: l2.
Proof.
  induction l1 as [|f l1 IH]; cbn [app increasing].
  - intros [He _]. apply insert_front. eapply list.Forall_impl; [exact He|]. cbn. lia.
  - intros [Hf Hl]. apply Forall_app in Hf as [_ Hf]. apply list.Forall_cons in Hf as [Hf _]. unfold estart in Hf. cbn [insert_edit].
    destruct (Z.leb_spec e.1.1 f.1.1); [lia|]. by rewrite IH.
Qed.
Lemma increasing_remove l1 e l2 : increasing (l1 ++ e :: l2) -> increasing (l1 ++ l2).
Proof.
  induction l1 as [|f l1 IH]; cbn [app increasing]; [by intros [_ ?]|]. intros [Hf Hl]. split; [|by apply IH].
  apply Forall_app in Hf as [H1 H2]. apply list.Forall_cons in H2 as [_ H2]. by apply Forall_app.
Qed.
Lemma sort_permuted l l' : l ≡ₚ l' -> increasing l' -> sort_edits l = l'.
Proof.
  revert l'. induction l as [|e l IH]; intros l' Hp Hi; [by rewrite (Permutation_nil Hp)|].
  destruct (list_elem_of_split l' e) as (l1 & l2 & ->); [rewrite <- Hp; left|]. cbn [sort_edits foldr]. fold (sort_edits l).
  rewrite (IH (l1 ++ l2)); [by apply insert_missing| |by apply increasing_remove in Hi]. apply (Permutation_cons_inv (a := e)). by rewrite Hp, Permutation_middle.
Qed.

(** Pieces of bytes, each with a part that may get a new name. *)
Record piece := Piece { p_head : list Z; p_old : list Z; p_tail : list Z; p_new : option jsstring }.
Definition old_piece (p : piece) : list Z := p_head p ++ p_old p ++ p_tail p.
Definition new_piece (p : piece) : list Z := p_head p ++ match p_new p with Some n => print_name (mk_name n) | None => p_old p end ++ p_tail p.
Definition piece_edit (p : piece) (off : Z) : list edit :=
  match p_new p with Some n => [((off + blen (p_head p), off + blen (p_head p) + blen (p_old p)), n)] | None => [] end.
Fixpoint piece_edits (ps : list piece) (off : Z) : list edit := match ps with [] => [] | p :: ps => piece_edit p off ++ piece_edits ps (off + blen (old_piece p)) end.
(** A name that can be written and read back. *)
Definition fine_name (n : jsstring) : Prop := Forall is_unit n /\ isWellFormed n = true /\ head n <> Some 0xFEFF /\ blen (text_encode n) <= MAX_SAFE_INTEGER.
Definition fine_piece (p : piece) : Prop := forall n, p_new p = Some n -> fine_name n /\ 0 < blen (p_old p).

Lemma encodeName_fine n : fine_name n -> encodeName n = Ok (print_name (mk_name n)).
Proof. intros (_ & _ & _ & H). unfold encodeName. rewrite encodeUnsignedLeb128_Ok by (pose proof (blen_nonneg (text_encode n)); lia). done. Qed.
Lemma mk_name_valid n : fine_name n -> valid_name (mk_name n) /\ text (mk_name n) = n.
Proof.
  intros (Hu & Hw & Hb & Hl). pose proof (blen_nonneg (text_encode n)) as H0.
  destruct (encodeUnsignedLeb128_inv (blen (text_encode n)) (encode_loop 8 (blen (text_encode n)))) as (_ & H1 & H2 & H3); [by apply encodeUnsignedLeb128_Ok|].
  split; [|unfold text; cbn; by apply text_decode_encode]. unfold valid_name, word, mk_name. cbn [w_len w_text]. rewrite H2. done.
Qed.

Lemma piece_edits_after ps : forall off, Forall (fun e => off <= estart e) (piece_edits ps off).
Proof.
  induction ps as [|p ps IH]; intros off; [constructor|]. cbn [piece_edits]. apply Forall_app. split.
  - unfold piece_edit. destruct (p_new p); repeat constructor. unfold estart. cbn. blia.
  - eapply list.Forall_impl; [apply IH|]. cbn. intros e. pose proof (blen_nonneg (old_piece p)). lia.
Qed.
Lemma piece_edits_increasing ps : forall off, Forall fine_piece ps -> increasing (piece_edits ps off).
Proof.
  induction ps as [|p ps IH]; intros off Hf; [done|]. apply list.Forall_cons in Hf as [Hp Hf]. cbn [piece_edits]. unfold piece_edit. destruct (p_new p) as [n|] eqn:En; [|by apply IH].
  cbn [app increasing]. split; [|by apply IH]. eapply list.Forall_impl; [apply piece_edits_after|]. cbv beta. intros e He. destruct (Hp n En) as [_ H0]. unfold old_piece in He. change (off + blen (p_head p) < estart e). blia.
Qed.
(** Splicing in the edits of some pieces gives the new pieces. *)
Lemma splice_pieces ps : forall a c, Forall fine_piece ps ->
  splice_loop (a ++ concat (map old_piece ps) ++ c) (blen a) (piece_edits ps (blen a)) = Ok (concat (map new_piece ps) ++ c).
Proof.
  induction ps as [|p ps IH]; intros a c Hf; cbn [map concat piece_edits].
  - cbn [splice_loop]. by rewrite subarray_from_app.
  - apply list.Forall_cons in Hf as [Hp Hf]. set (tail := concat (map old_piece ps) ++ c).
    replace (a ++ (old_piece p ++ concat (map old_piece ps)) ++ c) with (a ++ old_piece p ++ tail) by (unfold tail; app_eq).
    assert (Hrest : splice_loop (a ++ old_piece p ++ tail) (blen a + blen (old_piece p)) (piece_edits ps (blen a + blen (old_piece p))) = Ok (concat (map new_piece ps) ++ c)).
    { replace (a ++ old_piece p ++ tail) with ((a ++ old_piece p) ++ concat (map old_piece ps) ++ c) by (unfold tail; app_eq).
      replace (blen a + blen (old_piece p)) with (blen (a ++ old_piece p)) by blia. by apply IH. }
    unfold piece_edit, new_piece. destruct (p_new p) as [n|] eqn:En; cbn [app].
    + destruct (Hp n En) as [Hn _]. unfold old_piece at 1. rewrite <- !app_assoc. rewrite splice_ahead.
      2: { constructor; [unfold estart; cbn; lia|]. eapply list.Forall_impl; [apply piece_edits_after|]. cbn. intros e. unfold old_piece. blia. }
      replace (a ++ p_head p ++ p_old p ++ p_tail p ++ tail) with ((a ++ p_head p) ++ p_old p ++ p_tail p ++ tail) by app_eq.
      replace (blen a + blen (p_head p)) with (blen (a ++ p_head p)) by blia. rewrite splice_here by (done || blia). rewrite (encodeName_fine n Hn). cbn [rbind].
      replace ((a ++ p_head p) ++ p_old p ++ p_tail p ++ tail) with (((a ++ p_head p) ++ p_old p) ++ p_tail p ++ tail) by app_eq.
      replace (blen (a ++ p_head p) + blen (p_old p)) with (blen ((a ++ p_head p) ++ p_old p)) by blia. rewrite splice_ahead.
      2: { eapply list.Forall_impl; [apply piece_edits_after|]. cbn. intros e. unfold old_piece. blia. }
      replace (((a ++ p_head p) ++ p_old p) ++ p_tail p ++ tail) with (a ++ old_piece p ++ tail) by (unfold old_piece; app_eq).
      replace (blen ((a ++ p_head p) ++ p_old p) + blen (p_tail p)) with (blen a + blen (old_piece p)) by (unfold old_piece; blia). rewrite Hrest. cbn [rbind]. f_equal; app_eq.
    + rewrite splice_ahead, Hrest by apply piece_edits_after. cbn [rbind]. unfold old_piece. f_equal; app_eq.
Qed.
Lemma spliceNames_pieces ps a c es : Forall fine_piece ps -> es ≡ₚ piece_edits ps (blen a) ->
  spliceNames (a ++ concat (map old_piece ps) ++ c) es = Ok (a ++ concat (map new_piece ps) ++ c).
Proof.
  intros Hf He. unfold spliceNames. rewrite (sort_permuted _ _ He) by by apply piece_edits_increasing.
  pose proof (splice_ahead [] a (concat (map old_piece ps) ++ c) (piece_edits ps (blen a))) as H. cbn [app] in H. change (blen (@nil Z)) with 0 in H. rewrite Z.add_0_l in H.
  rewrite H by apply piece_edits_after. by rewrite splice_pieces.
Qed.

(** ** The edits of the code are those of the pieces *)

Lemma omap_step {A B} (f : A -> option B) x l : omap f (x :: l) = match f x with Some y => y :: omap f l | None => omap f l end.
Proof. done. Qed.
Section edits.
Variable (m : renames) (u : bool).
Hypothesis (Hm : forall k n, map_get m k = Some n -> fine_name n).

Lemma next_fine t n : next_name m t = Some n -> fine_name n.
Proof. unfold next_name. destruct (map_get m t) as [x|] eqn:E; [|done]. destruct (str_eqb x t); [done|]. intros [= ->]. by eapply Hm. Qed.
Lemma name_long n : valid_name n -> 0 < blen (print_name n).
Proof. intros [[H _] _]. apply leb_bytes_nonempty in H. unfold print_name. blia. Qed.

Definition sym_piece (y : wsym) : piece := Piece ([y_kind y] ++ y_flags y ++ y_elem y) (print_own (y_name y)) (y_rest y) (sym_next m u y).
Lemma sym_pieces_old ys : map old_piece (map sym_piece ys) = map print_sym ys.
Proof. rewrite map_map. apply map_ext. intros y. unfold old_piece, sym_piece, print_sym. cbn [p_head p_old p_tail]. app_eq. Qed.
Lemma sym_pieces_new ys : map new_piece (map sym_piece ys) = map print_sym (map (rename_sym m u) ys).
Proof.
  rewrite !map_map. apply map_ext. intros y. unfold new_piece, sym_piece, print_sym, rename_sym. cbn [p_head p_old p_tail p_new].
  destruct (sym_next m u y); cbn [y_kind y_flags y_elem y_name y_rest print_own]; app_eq.
Qed.
Lemma sym_pieces_fine ys : Forall valid_sym ys -> Forall fine_piece (map sym_piece ys).
Proof.
  intros H. apply Forall_map. eapply list.Forall_impl; [exact H|]. intros y Hy n Hn. cbn in *. unfold sym_next in Hn. destruct (y_name y) as [w|] eqn:Ew; [|done].
  destruct (u && _); [done|]. split; [by eapply next_fine|]. cbn. apply name_long. destruct Hy; cbn in Ew; try done; by injection Ew as <-.
Qed.
Lemma symbol_edit_at y i off : valid_sym y -> symbol_edit m u (sym_at y i off) = (fun n => ((off + blen ([y_kind y] ++ y_flags y ++ y_elem y), off + blen ([y_kind y] ++ y_flags y ++ y_elem y) + blen (print_own (y_name y))), n)) <$> sym_next m u y.
Proof.
  intros Hy. unfold symbol_edit, passed_over, sym_next, flag. cbn [sym_at sy_kind sy_flags nameSpan sy_name].
  assert (y_name y <> None -> y_kind y =? SYM_SECTION = false) as Hk.
  { destruct Hy; cbn; try done. intros _. by destruct (Z.eqb_spec k SYM_SECTION) as [->|]. }
  destruct (y_name y) as [n|]; cbn [fmap option_fmap option_map]; [|by destruct (_ || _)]. rewrite Hk by done. cbn [orb].
  destruct (u && _); [done|]. destruct (next_name m (text n)); [|done]. cbn [option_map fmap option_fmap print_own].
  by replace (off + blen ([y_kind y] ++ y_flags y ++ y_elem y)) with (off + 1 + blen (y_flags y) + blen (y_elem y)) by blia.
Qed.
Lemma symbol_edits ys : forall i off, Forall valid_sym ys -> omap (symbol_edit m u) (syms_at ys i off) = piece_edits (map sym_piece ys) off.
Proof.
  induction ys as [|y ys IH]; intros i off Hv; [done|]. apply list.Forall_cons in Hv as [Hy Hv]. cbn [syms_at map piece_edits]. rewrite omap_step, symbol_edit_at, IH by done.
  replace (blen (old_piece (sym_piece y))) with (blen (print_sym y)) by (unfold old_piece, print_sym, sym_piece; cbn [p_head p_old p_tail]; blia).
  unfold piece_edit. change (p_new (sym_piece y)) with (sym_next m u y). by destruct (sym_next m u y).
Qed.
Lemma shift_pieces d ps : forall off, map (shift_edit d) (piece_edits ps off) = piece_edits ps (off - d).
Proof.
  induction ps as [|p ps IH]; intros off; [done|]. cbn [piece_edits]. rewrite map_app, IH. replace (off + blen (old_piece p) - d) with (off - d + blen (old_piece p)) by lia. f_equal.
  unfold piece_edit. destruct (p_new p); [|done]. cbn. unfold shift_edit. cbn [fst snd]. do 3 f_equal; lia.
Qed.
Lemma no_symbol_edits ys i off : Forall valid_sym ys -> omap (symbol_edit m u) (syms_at ys i off) = [] <-> omap (sym_next m u) ys = [].
Proof.
  intros Hv. rewrite symbol_edits by done. clear Hv. revert off. induction ys as [|y ys IH]; intros off; [done|]. cbn [map piece_edits]. rewrite omap_step.
  unfold piece_edit. change (p_new (sym_piece y)) with (sym_next m u y). destruct (sym_next m u y); [done|]. apply IH.
Qed.

(** *** Imports *)

Variable (refs : list (Z * Z)).
Definition imp_piece (index : Z) (i : wimport) : piece := Piece (print_name (m_module i)) (print_name (m_field i)) ([m_kind i] ++ m_desc i) (import_next m refs index i).
Definition keyed_edit (xs : list import) (r : Z * Z) : option edit :=
  match List.find (keyed r) xs with Some x => (fun n => (fieldSpan x, n)) <$> next_name m (field x) | None => None end.
Definition own_edit (x : import) : option edit := if bool_decide (key x ∈ refs) then (fun n => (fieldSpan x, n)) <$> next_name m (field x) else None.

Lemma imp_pieces_old before ims : map old_piece (on_imports imp_piece before ims) = map print_import ims.
Proof. revert before. induction ims as [|i ims IH]; intros before; [done|]. cbn [on_imports map]. by rewrite IH. Qed.
Lemma imp_pieces_new before ims : map new_piece (on_imports imp_piece before ims) = map print_import (on_imports (rename_import m refs) before ims).
Proof.
  revert before. induction ims as [|i ims IH]; intros before; [done|]. cbn [on_imports map]. rewrite IH. f_equal.
  unfold new_piece, imp_piece, print_import, rename_import. cbn [p_head p_old p_tail p_new]. by destruct (import_next m refs (kind_index before i) i).
Qed.
Lemma imp_pieces_fine before ims : Forall valid_import ims -> Forall fine_piece (on_imports imp_piece before ims).
Proof.
  intros H. revert before. induction H as [|i ims (_ & Hn & _) _ IH]; intros before; [constructor|]. cbn [on_imports]. constructor; [|apply IH].
  intros n En. cbn in En. unfold import_next in En. case_bool_decide; [|done]. split; [by eapply next_fine|]. by apply name_long.
Qed.
Lemma own_edits before ims : forall off, omap own_edit (imports_at before ims off) = piece_edits (on_imports imp_piece before ims) off.
Proof.
  revert before. induction ims as [|i ims IH]; intros before off; [done|]. cbn [imports_at on_imports piece_edits]. rewrite omap_step, IH.
  change (old_piece (imp_piece (kind_index before i) i)) with (print_import i). unfold piece_edit, own_edit.
  change (p_new (imp_piece (kind_index before i) i)) with (import_next m refs (kind_index before i) i). unfold import_next. change (key (import_at before i off)) with (m_kind i, kind_index before i).
  case_bool_decide; [|done]. change (field (import_at before i off)) with (text (m_field i)). by destruct (next_name m (text (m_field i))).
Qed.
Lemma no_import_edits before ims off : omap own_edit (imports_at before ims off) = [] <-> omap (fun x => x) (on_imports (import_next m refs) before ims) = [].
Proof.
  rewrite own_edits. revert before off. induction ims as [|i ims IH]; intros before off; [done|]. cbn [on_imports piece_edits]. rewrite omap_step.
  unfold piece_edit. change (p_new (imp_piece (kind_index before i) i)) with (import_next m refs (kind_index before i) i). destruct (import_next m refs (kind_index before i) i); [done|]. apply IH.
Qed.
Lemma fields_after before ims : forall off x, x ∈ imports_at before ims off -> off <= (fieldSpan x).1.
Proof.
  revert before. induction ims as [|i ims IH]; intros before off x; cbn [imports_at]; [by intros H%not_elem_of_nil|].
  intros [->|H]%elem_of_cons; [cbn; blia|]. apply IH in H. pose proof (blen_nonneg (print_import i)). lia.
Qed.
Lemma fields_distinct before ims : forall off x y, x ∈ imports_at before ims off -> y ∈ imports_at before ims off -> fieldSpan x = fieldSpan y -> x = y.
Proof.
  assert (Hlt : forall before i ims off x, x ∈ imports_at (before ++ [i]) ims (off + blen (print_import i)) -> (fieldSpan (import_at before i off)).1 < (fieldSpan x).1).
  { intros b i ims' off x H%fields_after. unfold print_import in H. cbn. blia. }
  revert before. induction ims as [|i ims IH]; intros before off x y; cbn [imports_at]; [by intros H%not_elem_of_nil|].
  intros [->|Hx]%elem_of_cons [->|Hy]%elem_of_cons Hs; [done|..].
  - apply Hlt in Hy. rewrite Hs in Hy. lia.
  - apply Hlt in Hx. rewrite Hs in Hx. lia.
  - by eapply IH.
Qed.
Lemma NoDup_omap_inj {A B} (f : A -> option B) l : NoDup l -> (forall x y e, f x = Some e -> f y = Some e -> x = y) -> NoDup (omap f l).
Proof.
  intros Hn Hi. induction Hn as [|x l Hx _ IH]; [constructor|]. rewrite omap_step. destruct (f x) as [e|] eqn:E; [|done]. constructor; [|done].
  intros (y & Hy & Ey)%list_elem_of_omap. by rewrite (Hi x y e E Ey) in Hx.
Qed.
Lemma increasing_NoDup l : increasing l -> NoDup l.
Proof.
  induction l as [|e l IH]; [constructor|]. intros [He Hl]. constructor; [|by apply IH]. intros Hin. rewrite list.Forall_forall in He. specialize (He e Hin). lia.
Qed.
(** Going through the references finds the same edits as going through the imports. *)
Lemma edits_permuted ims off : NoDup refs -> Forall valid_import ims ->
  omap (keyed_edit (imports_at [] ims off)) refs ≡ₚ piece_edits (on_imports imp_piece [] ims) off.
Proof.
  intros Hn Hi. rewrite <- own_edits. set (xs := imports_at [] ims off). pose proof (imports_key_distinct [] ims off) as Hd. fold xs in Hd. apply NoDup_Permutation.
  - apply NoDup_omap_inj; [done|]. intros r r' e. unfold keyed_edit. destruct (List.find (keyed r) xs) as [x|] eqn:Ex; [|done]. destruct (List.find (keyed r') xs) as [x'|] eqn:Ex'; [|done].
    apply find_keyed in Ex as [Hx <-], Ex' as [Hx' <-]; [|done..]. destruct (next_name m (field x)), (next_name m (field x')); cbn; try done. intros [= <-] [= Hs _].
    f_equal. by eapply (fields_distinct [] ims off).
  - apply increasing_NoDup. unfold xs. rewrite own_edits. by apply piece_edits_increasing, imp_pieces_fine.
  - intros e. rewrite !list_elem_of_omap. split.
    + intros (r & Hr & He). unfold keyed_edit in He. destruct (List.find (keyed r) xs) as [x|] eqn:Ex; [|done]. apply find_keyed in Ex as [Hx <-]; [|done].
      exists x. split; [done|]. unfold own_edit. by rewrite bool_decide_eq_true_2.
    + intros (x & Hx & He). unfold own_edit in He. case_bool_decide as Hk; [|done]. exists (key x). split; [done|]. unfold keyed_edit.
      by rewrite (proj2 (find_keyed xs (key x) x Hd) (conj Hx eq_refl)).
Qed.
Lemma import_edits xs ys : forall i off, Forall valid_sym ys -> omap (import_edit m u xs) (syms_at ys i off) = omap (keyed_edit xs) (omap reference ys).
Proof.
  induction ys as [|y ys IH]; intros i off Hv; [done|]. apply list.Forall_cons in Hv as [Hy Hv]. cbn [syms_at]. rewrite !omap_step, IH by done.
  enough (import_edit m u xs (sym_at y i off) = match reference y with Some r => keyed_edit xs r | None => None end) as ->; [by destruct (reference y)|].
  unfold import_edit. destruct (by_import (sym_at y 0 0)) eqn:Eb.
  - destruct (import_named y Hy Eb) as [Hn [r Hr]]. rewrite (importFor_keyed xs y i off r Hy Hr), Hr. unfold passed_over. cbn [sym_at sy_kind sy_flags nameSpan]. rewrite Hn.
    unfold by_import in Eb. cbn [sym_at nameSpan sy_kind] in Eb. rewrite Hn in Eb. cbn in Eb. apply negb_true_iff in Eb. rewrite Eb. cbn [orb].
    assert (has_bit (leb_value (y_flags y)) WASM_SYM_UNDEFINED = true) as ->.
    { destruct Hy as [| k fl el Hk Hfl Hel Hown| | |]; try done. cbn. unfold own_name in Hown. by destruct (has_bit (leb_value fl) WASM_SYM_UNDEFINED). }
    rewrite andb_false_r. done.
  - rewrite (not_import_named y Hy Eb). unfold by_import in Eb. cbn [sym_at nameSpan sy_kind] in *. unfold passed_over. cbn [sym_at sy_kind].
    destruct (y_name y); cbn in *; [by destruct (_ || _)|]. apply negb_false_iff in Eb. by rewrite Eb.
Qed.
End edits.

(** ** Sections *)

Definition sec_at (off : Z) (s : wsec) : section :=
  match s with
  | Plain i size payload =>
      MkSection i off (off + 1 + blen size + blen payload) (off + 1 + blen size) (off + 1 + blen size + blen payload) (blen payload) ([i] ++ size ++ payload) None
  | Custom size n data =>
      let p := off + 1 + blen size in
      let q := p + blen (w_len n) in
      MkSection 0 off (q + blen (w_text n) + blen data) p (q + blen (w_text n) + blen data) (blen (w_len n) + blen (w_text n) + blen data)
        ([0] ++ size ++ w_len n ++ w_text n ++ data) (Some (CustomInfo (text n) q (q + blen (w_text n)) (q + blen (w_text n)) (q + blen (w_text n) + blen data) data))
  end.
Fixpoint secs_at (o : object) (off : Z) : list section :=
  match o with [] => [] | p :: o => sec_at off (shape p) :: secs_at o (off + blen (raw_of (shape p))) end.

Lemma sec_bytes off s : valid_sec s -> section_bytes off (raw_of s) (sec_at off s).
Proof.
  destruct s as [i size payload|size n data]; cbn [valid_sec raw_of sec_at].
  - intros (Hi & Hi0 & (H1 & H2 & _) & Hv). by constructor.
  - intros ((H1 & H2 & _) & Hv & (H3 & H4 & _) & H5). unfold print_name in *. rewrite <- app_assoc. apply sb_custom; try done. rewrite Hv. blia.
Qed.
Lemma secs_bytes o : forall off, Forall valid_part o -> sections_bytes off (print_parts o) (secs_at o off).
Proof.
  induction o as [|p o IH]; intros off Hv; [constructor|]. apply list.Forall_cons in Hv as [[Hp _] Hv]. unfold print_parts. cbn [map concat secs_at].
  constructor; [by apply sec_bytes|by apply IH].
Qed.
Lemma raw_long s : 1 <= blen (raw_of s).
Proof. destruct s; cbn [raw_of]; blia. Qed.
Lemma secs_app o o' : forall off, secs_at (o ++ o') off = secs_at o off ++ secs_at o' (off + blen (print_parts o)).
Proof.
  unfold print_parts. induction o as [|p o IH]; intros off; cbn [app secs_at map concat]; [by change (blen (@nil Z)) with 0; rewrite Z.add_0_r|].
  rewrite IH. f_equal. f_equal. f_equal. blia.
Qed.
Lemma parts_app o o' : print_parts (o ++ o') = print_parts o ++ print_parts o'.
Proof. unfold print_parts. by rewrite map_app, concat_app. Qed.

Definition not_link (p : wpart) : Prop := match p with Link _ => False | _ => True end.
Lemma linking_at off p : valid_part p -> is_linking (sec_at off (shape p)) = match p with Link _ => true | _ => false end.
Proof.
  intros [Hs Hp]. unfold is_linking. destruct p as [[i size payload|size n data]|x|l]; cbn [shape sec_at id custom name] in *.
  - destruct Hs as (_ & Hi & _). by destruct (Z.eqb_spec i 0).
  - cbn in Hp. destruct (str_eqb (text n) LINKING) eqn:E; [|done]. by apply str_eqb_eq in E.
  - done.
  - destruct Hp as [-> _]. done.
Qed.
Lemma find_link pre l post off : Forall valid_part (pre ++ Link l :: post) -> Forall not_link pre ->
  List.find is_linking (secs_at (pre ++ Link l :: post) off) = Some (sec_at (off + blen (print_parts pre)) (shape (Link l))).
Proof.
  revert off. induction pre as [|p pre IH]; intros off Hv Hn; cbn [app secs_at List.find].
  - apply list.Forall_cons in Hv as [Hp _]. rewrite linking_at by done. unfold print_parts. cbn. by rewrite Z.add_0_r.
  - apply list.Forall_cons in Hv as [Hp Hv], Hn as [Hl Hn]. rewrite linking_at by done. destruct p; try done; rewrite IH by done; do 2 f_equal; unfold print_parts; cbn [map concat]; blia.
Qed.

(** The imports the code reads. *)
Definition import_records (o : object) : list import := match imps o with x :: _ => imports_at [] (i_list x) (blen (i_count x)) | [] => [] end.
Lemma find_imports o : forall a c, Forall valid_part o -> blen (a ++ print_parts o ++ c) < 2 ^ 53 ->
  match List.find (fun s => id s =? IMPORT_SECTION_ID) (secs_at o (blen a)) with
  | None => Ok []
  | Some s => readImports (subarray (a ++ print_parts o ++ c) (payloadStart s) (payloadEnd s))
  end = Ok (import_records o).
Proof.
  unfold print_parts. induction o as [|p o IH]; intros a c Hv Hl; [done|]. apply list.Forall_cons in Hv as [[Hs Hp] Hv]. cbn [secs_at List.find map concat] in *.
  assert (Hskip : forall s, s = shape p -> id (sec_at (blen a) s) <> IMPORT_SECTION_ID -> import_records (p :: o) = import_records o ->
    match (if id (sec_at (blen a) s) =? IMPORT_SECTION_ID then Some (sec_at (blen a) s) else List.find (fun s => id s =? IMPORT_SECTION_ID) (secs_at o (blen a + blen (raw_of s)))) with
    | None => Ok []
    | Some z => readImports (subarray (a ++ (raw_of s ++ concat (map (fun p => raw_of (shape p)) o)) ++ c) (payloadStart z) (payloadEnd z))
    end = Ok (import_records (p :: o))).
  { intros s -> Hid Hr. destruct (Z.eqb_spec (id (sec_at (blen a) (shape p))) IMPORT_SECTION_ID); [done|]. rewrite Hr.
    replace (blen a + blen (raw_of (shape p))) with (blen (a ++ raw_of (shape p))) by blia.
    replace (a ++ (raw_of (shape p) ++ concat (map (fun p => raw_of (shape p)) o)) ++ c) with ((a ++ raw_of (shape p)) ++ concat (map (fun p => raw_of (shape p)) o) ++ c) in * by app_eq. by apply IH. }
  destruct p as [[i size payload|size n data]|x|l]; try (by apply Hskip).
  cbn [shape sec_at id]. change (IMPORT_SECTION_ID =? IMPORT_SECTION_ID) with true. cbv iota. cbn [payloadStart payloadEnd]. destruct Hp as (Hc & Hcv & Hi).
  cbn [shape raw_of] in *. set (tail := concat (map (fun p => raw_of (shape p)) o) ++ c) in *.
  replace (a ++ (([IMPORT_SECTION_ID] ++ i_size x ++ print_imports x) ++ concat (map (fun p => raw_of (shape p)) o)) ++ c) with ((a ++ [IMPORT_SECTION_ID] ++ i_size x) ++ print_imports x ++ tail) in * by (unfold tail; app_eq).
  rewrite subarray_app by blia. apply readImports_printed; try done. blia.
Qed.

Section with_trailer.
Context {R : Type} `{!RecCodec R}.

Definition table_of (o pre : object) (l : wlinking) : symbol_table :=
  let off := 8 + blen (print_parts pre) in
  let n := off + 1 + blen (k_size l) + blen (print_name (k_name l)) in
  let sub := blen (print_front l) in
  let cs := sub + 1 + blen (k_tsize l) in
  SymbolTable (ParsedModule (print o) WASM_HEADER (secs_at o 8)) (sec_at off (shape (Link l)))
    (CustomInfo (text (k_name l)) (off + 1 + blen (k_size l) + blen (w_len (k_name l))) n n (n + blen (print_data l)) (print_data l)) (print_data l)
    (syms_at (k_syms l) 0 (cs + blen (k_count l))) sub cs (cs + blen (print_table l)).

Lemma subs_short us : Forall valid_sub us -> (length us <= length (print_subs us))%nat.
Proof.
  unfold print_subs. induction 1 as [|u us _ _ IH]; [done|]. assert (1 <= length (print_sub u))%nat by (unfold print_sub; rewrite length_app; cbn; lia).
  cbn [map concat length]. rewrite length_app. lia.
Qed.
Lemma read_table pre l post : let o := pre ++ Link l :: post in Forall valid_part o -> Forall not_link pre -> blen (print o) < 2 ^ 53 ->
  extractPublicationRecordCollection (R:=R) (print o) = None -> readSymbolTable (R:=R) (print o) = Ok (table_of o pre l).
Proof.
  intros o Hv Hn Hl Hx. unfold readSymbolTable, parseWasmModuleSections. rewrite no_trailer by done. unfold print in *. rewrite (parse_wasm_complete _ (secs_at o 8)) by (done || by apply secs_bytes).
  cbn [rbind]. unfold findLinkingSection. cbn [sections]. unfold o. rewrite find_link by done. cbn [shape sec_at custom rbind dataBytes]. fold o.
  assert (Hp : valid_part (Link l)) by (apply Forall_app in Hv as [_ Hv]; by apply list.Forall_cons in Hv as [? _]).
  destruct Hp as (_ & Hk & Hver & Hsubs & Ht & Htv & Hc & Hcv & Hys).
  assert (Hdl : blen (print_data l) < 2 ^ 53).
  { revert Hl. unfold o. rewrite parts_app. change (print_parts (Link l :: post)) with (([0] ++ k_size l ++ print_name (k_name l) ++ print_data l) ++ print_parts post). blia. }
  set (tail := [LINKING_SYMBOL_TABLE_SUBSECTION_ID] ++ k_tsize l ++ (k_count l ++ print_syms (k_syms l)) ++ k_after l).
  assert (Hd : print_data l = k_version l ++ print_subs (k_subs l) ++ tail) by (unfold print_data, print_front, print_table, tail, print_syms, print_subs; app_eq).
  rewrite (decode_eq _ 0 [] (k_version l) (print_subs (k_subs l) ++ tail)) by done. cbn [rbind nextOffset]. rewrite Z.add_0_l.
  rewrite Hd. unfold tail. rewrite (find_table_printed (k_subs l)); try done.
  - cbn [rbind]. fold tail. rewrite <- Hd. change (k_count l ++ print_syms (k_syms l)) with (print_table l).
    replace (blen (k_version l) + blen (print_subs (k_subs l))) with (blen (print_front l)) by (unfold print_front, print_subs; blia).
    unfold table_of. replace (8 + blen (print_parts pre) + 1 + blen (k_size l) + blen (print_name (k_name l)))
      with (8 + blen (print_parts pre) + 1 + blen (k_size l) + blen (w_len (k_name l)) + blen (w_text (k_name l))) by (unfold print_name; blia). done.
  - fold tail. by rewrite <- Hd.
  - rewrite !length_app. pose proof (subs_short _ Hsubs). cbn [length]. lia.
Qed.
End with_trailer.

(** ** Renaming the sections *)

Lemma resize_word old v : 0 <= v <= MAX_SAFE_INTEGER -> encodeLebAtWidth v (blen old) = Ok (resize old v) /\ leb_value (resize old v) = v /\ (word old -> word (resize old v)).
Proof.
  intros Hv. unfold resize. destruct (encodeLebAtWidth v (blen old)) as [bs|] eqn:E.
  2: { unfold encodeLebAtWidth in E. rewrite encodeUnsignedLeb128_Ok in E by done. cbn [rbind] in E. by destruct (_ || _). }
  destruct (encodeLebAtWidth_inv v (blen old) bs) as (_ & Hb & Hval & Hl); [apply blen_nonneg|done|]. split; [done|]. split; [done|]. intros (_ & H8 & _).
  destruct (encodeUnsignedLeb128_inv v (encode_loop 8 v)) as (_ & _ & _ & H); [by apply encodeUnsignedLeb128_Ok|]. split; [done|]. split; lia.
Qed.

Section rename.
Variable (m : renames) (u : bool).
Hypothesis (Hm : forall k n, map_get m k = Some n -> fine_name n).
Variable (refs : list (Z * Z)).

Lemma encodeSection_new i new old : blen new <= MAX_SAFE_INTEGER -> encodeSection i new (blen old) = Ok ([i] ++ resize old (blen new) ++ new).
Proof. intros H. unfold encodeSection. destruct (resize_word old (blen new)) as [-> _]; [pose proof (blen_nonneg new); lia|]. done. Qed.

Lemma rename_imports_bytes t ses es x a c : bytes (st_parsed t) = a ++ raw_of (shape (Imps x)) ++ c -> start (linking t) <> blen a -> valid_part (Imps x) ->
  es ≡ₚ piece_edits (on_imports (imp_piece m refs) [] (i_list x)) (blen (i_count x)) -> blen (raw_of (shape (Imps (rename_imports m refs x)))) < 2 ^ 53 ->
  rename_section t ses es (sec_at (blen a) (shape (Imps x))) = Ok (raw_of (shape (Imps (rename_imports m refs x)))).
Proof.
  intros Hb Hst [_ (Hc & Hcv & Hi)] Hes. unfold rename_section. cbn [shape sec_at start id payloadStart payloadEnd rawBytes]. destruct (Z.eqb_spec (blen a) (start (linking t))); [congruence|]. cbn [andb].
  change (IMPORT_SECTION_ID =? IMPORT_SECTION_ID) with true. cbn [andb]. unfold rename_imports. rewrite <- own_edits in Hes. pose proof (no_import_edits m refs [] (i_list x) (blen (i_count x))) as Hno.
  destruct (bool_decide_reflect (omap (fun x => x) (on_imports (import_next m refs) [] (i_list x)) = [])) as [E|E].
  - rewrite (proj2 Hno E) in Hes. apply Permutation_nil_r in Hes as ->. rewrite bool_decide_eq_true_2 by done. done.
  - intros Hl. rewrite bool_decide_eq_false_2 by (intros ->; apply Permutation_nil in Hes; tauto). cbn [negb]. rewrite Hb. cbn [shape raw_of i_list i_count i_size i_trail].
    replace (a ++ ([IMPORT_SECTION_ID] ++ i_size x ++ print_imports x) ++ c) with ((a ++ [IMPORT_SECTION_ID] ++ i_size x) ++ print_imports x ++ c) by app_eq. rewrite subarray_app by blia.
    unfold print_imports at 1. rewrite <- (imp_pieces_old m refs [] (i_list x)). rewrite own_edits in Hes.
    rewrite (spliceNames_pieces (on_imports (imp_piece m refs) [] (i_list x)) (i_count x) (i_trail x) es) by (done || by apply imp_pieces_fine).
    cbn [rbind]. rewrite imp_pieces_new. unfold sizeWidthOf. cbn [payloadStart start]. replace (blen a + 1 + blen (i_size x) - blen a - 1) with (blen (i_size x)) by lia.
    rewrite encodeSection_new; [done|]. cbn [shape raw_of i_size i_count i_list i_trail] in Hl. unfold print_imports in Hl. cbn [i_count i_list i_trail] in Hl. unfold MAX_SAFE_INTEGER. blia.
Qed.

Lemma rename_linking_bytes o pre l post es : o = pre ++ Link l :: post -> valid_part (Link l) -> blen (raw_of (shape (Link (rename_linking m u l)))) < 2 ^ 53 ->
  let t := table_of o pre l in
  rename_section t (omap (symbol_edit m u) (symbols t)) es (sec_at (8 + blen (print_parts pre)) (shape (Link l))) = Ok (raw_of (shape (Link (rename_linking m u l)))).
Proof.
  intros Ho (_ & Hk & Hver & Hsubs & Ht & Htv & Hc & Hcv & Hys) Hl t. unfold t, rename_section, table_of in *. clear t.
  cbn [shape sec_at start id payloadStart payloadEnd rawBytes linking symbols st_parsed payload contentStart contentEnd subsectionStart linking_info nameEnd bytes]. rewrite Z.eqb_refl. cbn [andb].
  set (cs := blen (print_front l) + 1 + blen (k_tsize l)) in *. pose proof (no_symbol_edits m u (k_syms l) 0 (cs + blen (k_count l)) Hys) as Hno.
  unfold rename_linking in *. destruct (bool_decide_reflect (omap (sym_next m u) (k_syms l) = [])) as [E|E].
  - rewrite (proj2 Hno E). rewrite bool_decide_eq_true_2 by done. cbn [negb andb]. change (0 =? IMPORT_SECTION_ID) with false. cbn [andb]. f_equal. cbn [raw_of shape]. unfold print_name. app_eq.
  - rewrite bool_decide_eq_false_2 by tauto. cbn [negb]. rewrite symbol_edits, shift_pieces by done. replace (cs + blen (k_count l) - cs) with (blen (k_count l)) by lia.
    replace (subarray (print_data l) cs (cs + blen (print_table l))) with (print_table l).
    2: { symmetry. unfold print_data. replace (print_front l ++ [LINKING_SYMBOL_TABLE_SUBSECTION_ID] ++ k_tsize l ++ print_table l ++ k_after l)
           with ((print_front l ++ [LINKING_SYMBOL_TABLE_SUBSECTION_ID] ++ k_tsize l) ++ print_table l ++ k_after l) by app_eq. apply subarray_app; unfold cs; blia. }
    pose proof (spliceNames_pieces (map (sym_piece m u) (k_syms l)) (k_count l) [] _ (sym_pieces_fine m u Hm _ Hys) (Permutation_refl _)) as Hsp.
    rewrite !app_nil_r, sym_pieces_old, sym_pieces_new in Hsp. unfold print_table at 1. rewrite Hsp. cbn [rbind]. clear Hsp.
    set (y := WLinking (k_size l) (k_name l) (k_version l) (k_subs l) (k_tsize l) (k_count l) (map (rename_sym m u) (k_syms l)) (k_after l)) in *.
    change (k_count l ++ concat (map print_sym (map (rename_sym m u) (k_syms l)))) with (print_table y).
    replace (cs - blen (print_front l) - 1) with (blen (k_tsize l)) by (unfold cs; lia).
    set (z := WLinking (k_size l) (k_name l) (k_version l) (k_subs l) (resize (k_tsize l) (blen (print_table y))) (k_count l) (k_syms y) (k_after l)) in *.
    assert (Hz : print_data z = print_front l ++ [LINKING_SYMBOL_TABLE_SUBSECTION_ID] ++ resize (k_tsize l) (blen (print_table y)) ++ print_table y ++ k_after l) by done.
    change (raw_of (shape (Link (WLinking (resize (k_size l) (blen (print_name (k_name z) ++ print_data z))) (k_name z) (k_version z) (k_subs z) (k_tsize z) (k_count z) (k_syms z) (k_after z)))))
      with ([0] ++ resize (k_size l) (blen (print_name (k_name l) ++ print_data z)) ++ print_name (k_name l) ++ print_data z) in *.
    assert (Hzl : blen (print_data z) <= MAX_SAFE_INTEGER /\ blen (print_name (k_name l) ++ print_data z) <= MAX_SAFE_INTEGER) by (unfold MAX_SAFE_INTEGER; blia).
    destruct (resize_word (k_tsize l) (blen (print_table y))) as [-> _]; [rewrite Hz in Hzl; pose proof (blen_nonneg (print_table y)); blia|]. cbn [rbind].
    replace (subarray (print_data l) 0 (blen (print_front l))) with (print_front l) by (symmetry; apply (subarray_app [] (print_front l)); done).
    replace (subarray_from (print_data l) (cs + blen (print_table l))) with (k_after l).
    2: { symmetry. replace (print_data l) with ((print_front l ++ [LINKING_SYMBOL_TABLE_SUBSECTION_ID] ++ k_tsize l ++ print_table l) ++ k_after l) by (unfold print_data; app_eq).
         apply subarray_from_app. unfold cs. blia. }
    rewrite <- Hz. unfold sizeWidthOf. cbn [payloadStart start].
    match goal with |- encodeSection 0 (?p ++ _) ?w = _ => replace p with (print_name (k_name l)); [replace w with (blen (k_size l)) by lia|] end.
    { rewrite encodeSection_new by apply Hzl. done. }
    symmetry. rewrite Ho. unfold print. rewrite parts_app. change (print_parts (Link l :: post)) with (([0] ++ k_size l ++ print_name (k_name l) ++ print_data l) ++ print_parts post).
    replace (WASM_HEADER ++ print_parts pre ++ ([0] ++ k_size l ++ print_name (k_name l) ++ print_data l) ++ print_parts post)
      with ((WASM_HEADER ++ print_parts pre ++ [0] ++ k_size l) ++ print_name (k_name l) ++ print_data l ++ print_parts post) by app_eq.
    apply subarray_app; change (blen WASM_HEADER) with 8; rewrite ?blen_app; change (blen WASM_HEADER) with 8; change (blen [0]) with 1; lia.
Qed.
(** The parts around the symbol table. *)
Lemma rename_parts_bytes t ses es o : forall a c, bytes (st_parsed t) = a ++ print_parts o ++ c -> Forall valid_part o -> Forall not_link o ->
  start (linking t) < blen a \/ blen a + blen (print_parts o) <= start (linking t) ->
  (forall x, Imps x ∈ o -> es ≡ₚ piece_edits (on_imports (imp_piece m refs) [] (i_list x)) (blen (i_count x))) -> blen (print_parts (map (rename_part m u refs) o)) < 2 ^ 53 ->
  rename_sections t ses es (secs_at o (blen a)) = Ok (print_parts (map (rename_part m u refs) o)).
Proof.
  unfold print_parts. induction o as [|p o IH]; intros a c Hb Hv Hn Hst Hes Hl; [done|]. apply list.Forall_cons in Hv as [Hp Hv], Hn as [Hnp Hn]. cbn [map concat secs_at rename_sections] in *.
  pose proof (raw_long (shape p)) as Hlong. rewrite blen_app in Hst, Hl. rewrite <- app_assoc in Hb.
  assert (Hne : start (linking t) <> blen a) by (pose proof (blen_nonneg (concat (map (fun p => raw_of (shape p)) o))); lia).
  assert (rename_section t ses es (sec_at (blen a) (shape p)) = Ok (raw_of (shape (rename_part m u refs p)))) as ->.
  { destruct p as [s|x|l]; [| |done].
    - unfold rename_section. replace (start (sec_at (blen a) (shape (Other s)))) with (blen a) by by destruct s. destruct (Z.eqb_spec (blen a) (start (linking t))); [congruence|]. cbn [andb].
      destruct Hp as [_ Ho]. destruct s as [i size payload|size nm data]; cbn in Ho |- *.
      + destruct (Z.eqb_spec i IMPORT_SECTION_ID); [done|]. done.
      + unfold print_name. f_equal. app_eq.
    - eapply rename_imports_bytes; [exact Hb|done|done|apply Hes; left|]. cbn [rename_part shape] in Hl |- *. pose proof (blen_nonneg (concat (map (fun p => raw_of (shape p)) (map (rename_part m u refs) o)))). lia. }
  cbn [rbind]. replace (blen a + blen (raw_of (shape p))) with (blen (a ++ raw_of (shape p))) by blia. rewrite (IH (a ++ raw_of (shape p)) c); [done|by rewrite Hb, <- app_assoc|done|done| | |].
  - rewrite blen_app. lia.
  - intros x Hx. apply Hes. by right.
  - pose proof (blen_nonneg (raw_of (shape (rename_part m u refs p)))). lia.
Qed.
Lemma rename_sections_app t ses es ss ss' : rename_sections t ses es (ss ++ ss') = let! x := rename_sections t ses es ss in let! y := rename_sections t ses es ss' in Ok (x ++ y).
Proof.
  induction ss as [|s ss IH]; cbn [app rename_sections]; [by destruct (rename_sections t ses es ss')|]. destruct (rename_section t ses es s); [|done]. cbn [rbind]. rewrite IH.
  destruct (rename_sections t ses es ss); [|done]. cbn [rbind]. destruct (rename_sections t ses es ss'); [|done]. cbn [rbind]. by rewrite app_assoc.
Qed.

Lemma rename_all o pre l post es : o = pre ++ Link l :: post -> Forall valid_part o -> Forall not_link pre -> Forall not_link post ->
  (forall x, Imps x ∈ o -> es ≡ₚ piece_edits (on_imports (imp_piece m refs) [] (i_list x)) (blen (i_count x))) -> blen (print (map (rename_part m u refs) o)) < 2 ^ 53 ->
  let t := table_of o pre l in
  rename_sections t (omap (symbol_edit m u) (symbols t)) es (secs_at o 8) = Ok (print_parts (map (rename_part m u refs) o)).
Proof.
  intros Ho Hv Hn1 Hn2 Hes Hl t.
  assert (Hb : bytes (st_parsed t) = WASM_HEADER ++ print_parts o ++ []) by (rewrite app_nil_r; done). assert (Hst : start (linking t) = 8 + blen (print_parts pre)) by done.
  assert (Hpl : print_parts (Link l :: post) = raw_of (shape (Link l)) ++ print_parts post) by done.
  assert (Hln : blen (print_parts (map (rename_part m u refs) o)) < 2 ^ 53) by (unfold print in Hl; blia).
  rewrite Ho, map_app, parts_app in Hln. cbn [map] in Hln. change (print_parts (rename_part m u refs (Link l) :: map (rename_part m u refs) post)) with (raw_of (shape (Link (rename_linking m u l))) ++ print_parts (map (rename_part m u refs) post)) in Hln.
  rewrite Ho in Hv, Hb, Hes. apply Forall_app in Hv as [Hv1 Hv2]. apply list.Forall_cons in Hv2 as [Hvl Hv2]. rewrite parts_app, Hpl in Hb.
  replace (secs_at o 8) with (secs_at (pre ++ Link l :: post) 8) by (by rewrite Ho). rewrite secs_app, rename_sections_app. cbn [secs_at].
  change 8 with (blen WASM_HEADER) at 1. rewrite (rename_parts_bytes t _ es pre WASM_HEADER ((raw_of (shape (Link l)) ++ print_parts post) ++ [])); [|by rewrite Hb, <- app_assoc|done|done| | |blia].
  2: { right. rewrite Hst. change (blen WASM_HEADER) with 8. lia. }
  2: { intros x Hx. apply Hes. apply elem_of_app. by left. }
  cbn [rbind rename_sections]. unfold t. rewrite (rename_linking_bytes o pre l post) by (done || blia). fold t. cbn [rbind].
  replace (8 + blen (print_parts pre) + blen (raw_of (shape (Link l)))) with (blen (WASM_HEADER ++ print_parts pre ++ raw_of (shape (Link l)))) by (change 8 with (blen WASM_HEADER); blia).
  rewrite (rename_parts_bytes t _ es post _ []); [| |done|done| | |blia].
  - cbn [rbind]. f_equal. rewrite Ho, map_app, parts_app. done.
  - rewrite Hb. app_eq.
  - left. rewrite Hst. change 8 with (blen WASM_HEADER). pose proof (raw_long (shape (Link l))). blia.
  - intros x Hx. apply Hes. apply elem_of_app. right. by right.
Qed.
End rename.

(** ** The renamed object *)

Section renamed_object.
Variable (m : renames) (u : bool).
Hypothesis (Hm : forall k n, map_get m k = Some n -> fine_name n).

Lemma rename_sym_valid y : valid_sym y -> valid_sym (rename_sym m u y).
Proof.
  intros Hy. unfold rename_sym. destruct (sym_next m u y) as [n|] eqn:E; [|done].
  assert (valid_name (mk_name n)) as Hn.
  { unfold sym_next in E. destruct (y_name y); [|done]. destruct (u && _); [done|]. apply mk_name_valid. by eapply next_fine. }
  destruct Hy; try done; cbn [y_kind y_flags y_elem y_rest]; by constructor.
Qed.
Lemma rename_import_valid refs k i : valid_import i -> valid_import (rename_import m refs k i).
Proof.
  intros (H1 & H2 & H3). unfold rename_import. destruct (import_next m refs k i) as [n|] eqn:E; [|done]. split; [done|]. split; [|done]. cbn.
  unfold import_next in E. case_bool_decide; [|done]. apply mk_name_valid. by eapply next_fine.
Qed.
Lemma on_imports_valid refs before ims : Forall valid_import ims -> Forall valid_import (on_imports (rename_import m refs) before ims).
Proof. intros H. revert before. induction H; intros before; constructor; [by apply rename_import_valid|done]. Qed.
Lemma on_imports_length {A} (f : Z -> wimport -> A) before ims : blen (on_imports f before ims) = blen ims.
Proof. revert before. induction ims as [|i ims IH]; intros before; [done|]. cbn [on_imports]. rewrite !blen_cons. by rewrite IH. Qed.

Lemma no_next_same ys : omap (sym_next m u) ys = [] -> map (rename_sym m u) ys = ys.
Proof.
  induction ys as [|y ys IH]; [done|]. rewrite omap_step. cbn [map]. destruct (sym_next m u y) eqn:E; [done|]. intros H. rewrite IH by done. f_equal. unfold rename_sym. by rewrite E.
Qed.
Lemma renamed_syms l : k_syms (rename_linking m u l) = map (rename_sym m u) (k_syms l).
Proof. unfold rename_linking. case_bool_decide as E; [|done]. by rewrite no_next_same. Qed.
Lemma no_import_same refs before ims : omap (fun x => x) (on_imports (import_next m refs) before ims) = [] -> on_imports (rename_import m refs) before ims = ims.
Proof.
  revert before. induction ims as [|i ims IH]; intros before; [done|]. cbn [on_imports]. rewrite omap_step.
  destruct (import_next m refs (kind_index before i) i) eqn:E; [done|]. intros H. rewrite IH by done. f_equal. unfold rename_import. by rewrite E.
Qed.
Lemma renamed_list refs x : i_list (rename_imports m refs x) = on_imports (rename_import m refs) [] (i_list x).
Proof. unfold rename_imports. case_bool_decide as E; [|done]. by rewrite no_import_same. Qed.

Lemma rename_part_valid refs p : valid_part p -> blen (raw_of (shape (rename_part m u refs p))) < 2 ^ 53 -> valid_part (rename_part m u refs p).
Proof.
  destruct p as [s|x|l]; cbn [rename_part]; [done|..].
  - intros [Hs (Hc & Hcv & Hi)]. pose proof Hs as (_ & _ & Hsz & _). unfold rename_imports. case_bool_decide; [done|]. cbv zeta. cbn [i_count i_list i_trail i_size].
    set (y := WImports (i_size x) (i_count x) (on_imports (rename_import m refs) [] (i_list x)) (i_trail x)). intros Hl.
    change (blen ([IMPORT_SECTION_ID] ++ resize (i_size x) (blen (print_imports y)) ++ print_imports y) < 2 ^ 53) in Hl.
    destruct (resize_word (i_size x) (blen (print_imports y))) as (_ & Hr & Hw); [unfold MAX_SAFE_INTEGER; pose proof (blen_nonneg (print_imports y)); blia|].
    split; [split_and!; [unfold is_byte, IMPORT_SECTION_ID; lia|done|by apply Hw|exact Hr]|]. cbn [i_count i_list]. split; [done|]. split; [by rewrite on_imports_length|by apply on_imports_valid].
  - intros [Hs (Hk & Hver & Hsubs & Ht & Htv & Hc & Hcv & Hys)]. pose proof Hs as (Hsz & _ & Hname). unfold rename_linking. case_bool_decide; [done|]. cbv zeta.
    set (y := WLinking (k_size l) (k_name l) (k_version l) (k_subs l) (k_tsize l) (k_count l) (map (rename_sym m u) (k_syms l)) (k_after l)).
    set (z := WLinking (k_size l) (k_name l) (k_version l) (k_subs l) (resize (k_tsize l) (blen (print_table y))) (k_count l) (k_syms y) (k_after l)). intros Hl.
    change (blen ([0] ++ resize (k_size l) (blen (print_name (k_name l) ++ print_data z)) ++ print_name (k_name l) ++ print_data z) < 2 ^ 53) in Hl.
    destruct (resize_word (k_size l) (blen (print_name (k_name l) ++ print_data z))) as (_ & Hr & Hw); [unfold MAX_SAFE_INTEGER; pose proof (blen_nonneg (print_name (k_name l) ++ print_data z)); blia|].
    destruct (resize_word (k_tsize l) (blen (print_table y))) as (_ & Hrt & Hwt).
    { change (print_data z) with (print_front l ++ [LINKING_SYMBOL_TABLE_SUBSECTION_ID] ++ resize (k_tsize l) (blen (print_table y)) ++ print_table y ++ k_after l) in Hl. clear Hr Hw.
      unfold MAX_SAFE_INTEGER. pose proof (blen_nonneg (print_table y)). blia. }
    split; [split_and!; [by apply Hw|exact Hr|done]|]. split_and!; try done; [by apply Hwt| |].
    + cbn. by rewrite Hcv; unfold blen; rewrite length_map.
    + cbn. apply Forall_map. eapply list.Forall_impl; [exact Hys|]. intros y' Hy'. by apply rename_sym_valid.
Qed.
(** The import of a reference after the renaming. *)
Lemma at_renamed refs k ims : forall before e, 0 <= e ->
  at_ (List.filter (of_kind k) (on_imports (rename_import m refs) before ims)) e = rename_import m refs (e + blen (List.filter (of_kind k) before)) <$> at_ (List.filter (of_kind k) ims) e.
Proof.
  assert (Hk : forall z i, of_kind k (rename_import m refs z i) = of_kind k i) by (intros z i; unfold rename_import; by destruct (import_next m refs z i)).
  induction ims as [|i ims IH]; intros before e He; cbn [on_imports List.filter]; [unfold at_; by destruct (0 <=? e)|]. rewrite Hk. pose proof (kind_snoc k before i) as Hs.
  change (of_kind k i) with (m_kind i =? k). destruct (Z.eqb_spec (m_kind i) k) as [<-|Hne].
  - destruct (Z.eq_dec e 0) as [->|]; [by rewrite !at_cons_0|]. rewrite !at_cons_S, IH by lia. f_equal. f_equal. lia.
  - rewrite IH by done. f_equal. f_equal. lia.
Qed.
Lemma lookup_renamed refs ims r : 0 <= r.2 -> lookup_import (on_imports (rename_import m refs) [] ims) r = rename_import m refs r.2 <$> lookup_import ims r.
Proof. intros H. unfold lookup_import. rewrite at_renamed by done. change (blen (List.filter (of_kind r.1) [])) with 0. by rewrite Z.add_0_r. Qed.
Lemma lookup_kind ims r i : lookup_import ims r = Some i -> m_kind i = r.1.
Proof.
  unfold lookup_import. intros H. pose proof (at_Forall (fun i => of_kind r.1 i = true) _ _ _ ltac:(apply list.Forall_forall; intros x Hx; apply list_elem_of_In, List.filter_In in Hx; apply Hx) H) as Hk.
  unfold of_kind in Hk. lia.
Qed.
Lemma next_default t : (match next_name m t with Some n => n | None => t end) = default t (map_get m t).
Proof. unfold next_name. destruct (map_get m t) as [n|]; [|done]. destruct (str_eqb n t) eqn:E; [|done]. by apply str_eqb_eq in E as ->. Qed.

Lemma listed_renamed refs ims i y : valid_sym y -> (forall r, reference y = Some r -> r ∈ refs /\ lookup_import ims r <> None) ->
  listed_at (on_imports (rename_import m refs) [] ims) i (rename_sym m u y) = renamed m u (listed_at ims i y).
Proof.
  intros Hy Hr. unfold listed_at, renamed. cbn [l_kind defined l_index l_flags l_name local weak].
  assert (Hfix : forall z, z = rename_sym m u y -> y_kind z = y_kind y /\ y_flags z = y_flags y) by (intros z ->; unfold rename_sym; by destruct (sym_next m u y)).
  destruct (Hfix _ eq_refl) as [Ek Ef]. unfold flag. rewrite Ek, Ef. clear Hfix.
  destruct (by_import (sym_at y 0 0)) eqn:Eb.
  - destruct (import_named y Hy Eb) as [Hn [r Er]]. destruct (Hr r Er) as [Hin Hl]. destruct (lookup_import ims r) as [im|] eqn:El; [|done].
    assert (rename_sym m u y = y) as -> by (unfold rename_sym, sym_next; by rewrite Hn). unfold name_of. rewrite Hn, Er, lookup_renamed, El by by eapply ref_nonneg. cbn [fmap option_fmap option_map].
    assert (y_kind y =? SYM_SECTION = false) as ->.
    { unfold by_import in Eb. cbn [sym_at nameSpan sy_kind] in Eb. rewrite Hn in Eb. by apply negb_true_iff in Eb. }
    assert (has_bit (leb_value (y_flags y)) WASM_SYM_UNDEFINED = true) as ->.
    { destruct Hy as [| k fl el Hk Hfl Hel Hown| | |]; try done. cbn. unfold own_name in Hown. by destruct (has_bit (leb_value fl) WASM_SYM_UNDEFINED). }
    rewrite andb_false_r. cbn [orb]. f_equal. rewrite <- next_default. unfold rename_import, import_next. rewrite (lookup_kind ims r im El), <- surjective_pairing, bool_decide_eq_true_2 by done.
    destruct (next_name m (text (m_field im))) as [n|] eqn:En; [|done]. cbn [m_field]. apply mk_name_valid. by eapply next_fine.
  - pose proof (not_import_named y Hy Eb) as Er. unfold rename_sym, sym_next, flag. destruct (y_name y) as [n|] eqn:En.
    + assert (y_kind y =? SYM_SECTION = false) as ->.
      { destruct Hy; cbn in En |- *; try done. by destruct (Z.eqb_spec k SYM_SECTION) as [->|]. }
      cbn [orb]. unfold name_of. rewrite En. destruct (u && negb (has_bit (leb_value (y_flags y)) WASM_SYM_UNDEFINED)); [by rewrite En|].
      rewrite <- next_default. destruct (next_name m (text n)) as [x|] eqn:Ex; [|by rewrite En]. cbn [y_name]. f_equal. apply mk_name_valid. by eapply next_fine.
    + unfold by_import in Eb. cbn [sym_at nameSpan sy_kind] in Eb. rewrite En in Eb. cbn in Eb. apply negb_false_iff in Eb. rewrite Eb. cbn [orb]. unfold name_of. by rewrite En, Er.
Qed.
Lemma index_renamed refs ims ys : forall i, Forall valid_sym ys -> Forall (fun y => forall r, reference y = Some r -> r ∈ refs /\ lookup_import ims r <> None) ys ->
  index_from (listed_at (on_imports (rename_import m refs) [] ims)) i (map (rename_sym m u) ys) = map (renamed m u) (index_from (listed_at ims) i ys).
Proof.
  induction ys as [|y ys IH]; intros i Hv Hr; [done|]. apply list.Forall_cons in Hv as [Hy Hv], Hr as [Hry Hr]. cbn [map index_from]. rewrite IH by done. by rewrite listed_renamed.
Qed.
Lemma renamed_links refs o : links (map (rename_part m u refs) o) = map (rename_linking m u) (links o).
Proof. unfold links. induction o as [|[s|x|l] o IH]; [done|..]; cbn [map rename_part]; rewrite !omap_step; cbn [map]; by rewrite IH. Qed.
Lemma renamed_imps refs o : imps (map (rename_part m u refs) o) = map (rename_imports m refs) (imps o).
Proof. unfold imps. induction o as [|[s|x|l] o IH]; [done|..]; cbn [map rename_part]; rewrite !omap_step; cbn [map]; by rewrite IH. Qed.
Lemma object_renamed o : Forall valid_sym (object_syms o) -> Forall (fun y => forall r, reference y = Some r -> lookup_import (object_imports o) r <> None) (object_syms o) ->
  object_listed (rename_object m u o) = map (renamed m u) (object_listed o).
Proof.
  intros Hv Hr. unfold object_listed, rename_object. rewrite <- (index_renamed (object_refs o)); [|done|].
  - unfold object_imports, object_syms. rewrite renamed_links, renamed_imps. f_equal.
    + destruct (imps o) as [|x ?]; [done|]. cbn [map]. by rewrite renamed_list.
    + destruct (links o) as [|l ?]; [done|]. cbn [map]. by rewrite renamed_syms.
  - apply list.Forall_forall. intros y Hy r Hyr. rewrite list.Forall_forall in Hr. split; [|by eapply Hr]. apply list_elem_of_omap. by exists y.
Qed.
End renamed_object.

(** ** Objects *)

Lemma link_split o l : links o = [l] -> exists pre post, o = pre ++ Link l :: post /\ Forall not_link pre /\ Forall not_link post.
Proof.
  unfold links. induction o as [|p o IH]; [done|]. rewrite omap_step. destruct p as [s|x|k].
  1, 2: intros H; destruct (IH H) as (pre & post & -> & H1 & H2); eexists (_ :: pre), post; split; [done|]; split; [by constructor|done].
  intros [= -> H]. exists [], o. split; [done|]. split; [constructor|]. clear IH. induction o as [|p o IH]; [constructor|]. rewrite omap_step in H. destruct p; [by constructor; [|apply IH]..|done].
Qed.
Lemma one_link o : blen (links o) = 1 -> exists l, links o = [l].
Proof. destruct (links o) as [|l [|? ?]] eqn:E; unfold blen; cbn; [lia| |lia]. by exists l. Qed.
Lemma imps_elem o x : Imps x ∈ o -> x ∈ imps o.
Proof. intros H. unfold imps. apply list_elem_of_omap. by exists (Imps x). Qed.

Section objects.
Context {R : Type} `{!RecCodec R}.

Lemma list_object o : valid_object o -> blen (print o) < 2 ^ 53 -> extractPublicationRecordCollection (R:=R) (print o) = None -> listWasmObjectSymbols (R:=R) (print o) = Ok (object_listed o).
Proof.
  intros Ho Hl Hx. destruct (one_link o (vo_link o Ho)) as [l El]. destruct (link_split o l El) as (pre & post & Eo & Hn & _).
  assert (Hys : Forall valid_sym (k_syms l)). { pose proof (vo_parts o Ho) as Hv. rewrite Eo in Hv. apply Forall_app in Hv as [_ Hv]. apply list.Forall_cons in Hv as [Hv _]. apply Hv. }
  unfold listWasmObjectSymbols. rewrite Eo at 1. rewrite (read_table pre l post) by (rewrite <- ?Eo; done || by apply vo_parts). rewrite <- Eo. cbn [rbind].
  assert (Him : readImportsOf (st_parsed (table_of o pre l)) = Ok (import_records o)).
  { unfold readImportsOf. cbn [table_of st_parsed sections bytes]. pose proof (find_imports o WASM_HEADER [] (vo_parts o Ho)) as H. rewrite app_nil_r in H. by apply H. }
  rewrite Him. unfold object_listed, object_syms, object_imports, import_records in *. rewrite El. destruct (existsb by_import (symbols (table_of o pre l))) eqn:Eb; cbn [rbind]; f_equal.
  - unfold table_of. cbn [symbols]. destruct (imps o) as [|x ?]; (eapply list_printed; [done|]; intros _); [by instantiate (1 := 0)|done].
  - unfold table_of in *. cbn [symbols] in *. apply (list_printed [] _ 0); [done|]. by rewrite Eb.
Qed.
(** The edits of the imports, whether or not the imports were read. *)
Lemma reads_none (u : bool) ys : forall i off, Forall valid_sym ys -> existsb (fun s => by_import s && negb (passed_over u s)) (syms_at ys i off) = false -> omap reference ys = [].
Proof.
  induction ys as [|y ys IH]; intros i off Hv; [done|]. apply list.Forall_cons in Hv as [Hy Hv]. cbn [syms_at existsb]. intros [Hb Hrest]%orb_false_iff. rewrite omap_step, (IH _ _ Hv Hrest).
  destruct (reference y) as [r|] eqn:Er; [|done]. exfalso. rewrite (reference_valid y Hy) in Er. rewrite by_import_at in Hb. destruct (by_import (sym_at y 0 0)) eqn:Eb; [|done]. cbn [andb] in Hb.
  apply negb_false_iff in Hb. unfold passed_over in Hb. cbn [sym_at sy_kind sy_flags] in Hb. unfold by_import in Eb. cbn [sym_at nameSpan sy_kind] in Eb.
  destruct Hy as [| k fl el Hk Hfl Hel Hown| | |]; try done. cbn in Hb, Eb. apply negb_true_iff in Eb. rewrite Eb in Hb. cbn [orb] in Hb.
  unfold own_name in Hown. destruct (has_bit (leb_value fl) WASM_SYM_UNDEFINED); [by rewrite andb_false_r in Hb|done].
Qed.
Lemma import_edits_permuted (m : renames) u o ys i off imports x : (forall k n, map_get m k = Some n -> fine_name n) ->
  Forall valid_sym ys -> NoDup (omap reference ys) -> Forall valid_import (i_list x) -> imports = imports_at [] (i_list x) (blen (i_count x)) \/ omap reference ys = [] ->
  o = omap (import_edit m u imports) (syms_at ys i off) -> o ≡ₚ piece_edits (on_imports (imp_piece m (omap reference ys)) [] (i_list x)) (blen (i_count x)).
Proof.
  intros Hm Hv Hn Hi Him ->. rewrite import_edits by done. rewrite <- edits_permuted by done. destruct Him as [->|E]; [done|]. by rewrite !E.
Qed.
Lemma same_part (m : renames) u refs p : (forall l, p = Link l -> omap (sym_next m u) (k_syms l) = []) ->
  (forall x, p = Imps x -> omap (fun x => x) (on_imports (import_next m refs) [] (i_list x)) = []) -> rename_part m u refs p = p.
Proof.
  destruct p as [s|x|l]; cbn [rename_part]; [done|..].
  - intros _ H. f_equal. unfold rename_imports. by rewrite (H x eq_refl).
  - intros H _. f_equal. unfold rename_linking. by rewrite (H l eq_refl).
Qed.
Lemma same_object (m : renames) u refs o : Forall (fun p => rename_part m u refs p = p) o -> map (rename_part m u refs) o = o.
Proof. induction 1 as [|p o Hp _ IH]; [done|]. cbn [map]. by rewrite Hp, IH. Qed.
Lemma no_renames u o : rename_object [] u o = o.
Proof.
  apply same_object, list.Forall_forall. intros p _. apply same_part.
  - intros l _. induction (k_syms l) as [|y ys IH]; [done|]. rewrite omap_step. unfold sym_next at 1. destruct (y_name y); [|done]. by destruct (u && _).
  - intros x _. generalize (@nil wimport). induction (i_list x) as [|j ims IH]; intros before; [done|]. cbn [on_imports]. rewrite omap_step. unfold import_next at 1. case_bool_decide; apply IH.
Qed.

Lemma part_short o p : p ∈ o -> blen (raw_of (shape p)) <= blen (print_parts o).
Proof.
  unfold print_parts. induction o as [|q o IH]; [by intros H%not_elem_of_nil|]. cbn [map concat]. intros [->|H]%elem_of_cons; [blia|]. specialize (IH H). blia.
Qed.
Lemma reference_renamed (m : renames) u y : reference (rename_sym m u y) = reference y.
Proof. unfold rename_sym. destruct (sym_next m u y) as [n|] eqn:E; [|done]. unfold sym_next in E. unfold reference. cbn [y_name]. by destruct (y_name y). Qed.
Lemma rename_valid o (m : renames) u : (forall k n, map_get m k = Some n -> fine_name n) -> valid_object o -> blen (print (rename_object m u o)) < 2 ^ 53 -> valid_object (rename_object m u o).
Proof.
  intros Hm [Hv Hlk Him Hr] Hl. unfold rename_object in *. constructor.
  - apply Forall_map. apply list.Forall_forall. intros p Hp. rewrite list.Forall_forall in Hv. apply rename_part_valid; [done|by apply Hv|].
    pose proof (part_short (map (rename_part m u (object_refs o)) o) (rename_part m u (object_refs o) p)) as H. unfold print in Hl. rewrite blen_app in Hl.
    pose proof (blen_nonneg WASM_HEADER). specialize (H ltac:(by apply list_elem_of_fmap_2)). lia.
  - rewrite renamed_links. unfold blen in *. by rewrite length_map.
  - rewrite renamed_imps. unfold blen in *. by rewrite length_map.
  - assert (object_syms (map (rename_part m u (object_refs o)) o) = map (rename_sym m u) (object_syms o)) as ->.
    { unfold object_syms at 1. rewrite renamed_links. unfold object_syms. destruct (links o); [done|]. cbn [map]. by rewrite renamed_syms. }
    assert (Hims : object_imports (map (rename_part m u (object_refs o)) o) = on_imports (rename_import m (object_refs o)) [] (object_imports o)).
    { unfold object_imports. rewrite renamed_imps. destruct (imps o); [done|]. cbn [map]. by rewrite renamed_list. }
    apply Forall_map. eapply list.Forall_impl; [exact Hr|]. cbn. intros y Hy r. rewrite reference_renamed. intros Er. rewrite Hims, lookup_renamed by by eapply ref_nonneg.
    specialize (Hy r Er). by destruct (lookup_import (object_imports o) r).
Qed.

Lemma rename_object_bytes o (m : renames) u pre l post :
  valid_object o -> NoDup (object_refs o) -> (forall k n, map_get m k = Some n -> fine_name n) -> blen (print o) < 2 ^ 53 -> blen (print (rename_object m u o)) < 2 ^ 53 ->
  extractPublicationRecordCollection (R:=R) (print o) = None -> links o = [l] -> o = pre ++ Link l :: post -> Forall not_link pre -> Forall not_link post ->
  renameWasmObjectSymbols (R:=R) (print o) m u = Ok (print (rename_object m u o)).
Proof.
  intros Ho Hnd Hm Hl Hl' Hx El Eo Hn1 Hn2. pose proof (vo_parts o Ho) as Hv.
  assert (Hsy : object_syms o = k_syms l) by (unfold object_syms; by rewrite El). unfold object_refs in Hnd. rewrite Hsy in Hnd.
  assert (Hys : Forall valid_sym (k_syms l)) by (rewrite Eo in Hv; apply Forall_app in Hv as [_ Hv']; apply list.Forall_cons in Hv' as [Hvl _]; apply Hvl).
  unfold renameWasmObjectSymbols. case_bool_decide as Em; [by rewrite Em, no_renames|].
  replace (readSymbolTable (print o)) with (Ok (table_of o pre l)) by (symmetry; rewrite Eo; apply read_table; rewrite <- ?Eo; done). cbn [rbind].
  assert (Him : readImportsOf (st_parsed (table_of o pre l)) = Ok (import_records o)).
  { unfold readImportsOf. cbn [table_of st_parsed sections bytes]. pose proof (find_imports o WASM_HEADER [] Hv) as H. rewrite app_nil_r in H. by apply H. }
  rewrite Him. set (t := table_of o pre l). set (reads := fun s => by_import s && negb (passed_over u s)).
  assert (exists imports, (if existsb reads (symbols t) then Ok (import_records o) else Ok []) = Ok imports /\ (imports = import_records o \/ omap reference (k_syms l) = [])) as (imports & -> & Himp).
  { destruct (existsb reads (symbols t)) eqn:Er; eexists; (split; [reflexivity|]); [by left|]. right. exact (reads_none u (k_syms l) _ _ Hys Er). }
  cbn [rbind]. set (es := omap (import_edit m u imports) (symbols t)).
  assert (Hes : forall x, Imps x ∈ o -> es ≡ₚ piece_edits (on_imports (imp_piece m (omap reference (k_syms l))) [] (i_list x)) (blen (i_count x))).
  { intros x Hin. rewrite list.Forall_forall in Hv. pose proof (Hv _ Hin) as (_ & _ & _ & Hi). eapply import_edits_permuted; try done.
    destruct Himp as [->|?]; [left|by right]. unfold import_records. apply imps_elem in Hin. pose proof (vo_imps o Ho) as H1.
    destruct (imps o) as [|z [|? ?]]; [by apply not_elem_of_nil in Hin| |unfold blen in H1; cbn in H1; lia]. apply list_elem_of_singleton in Hin as ->. done. }
  assert (Hall : rename_sections t (omap (symbol_edit m u) (symbols t)) es (secs_at o 8) = Ok (print_parts (rename_object m u o))).
  { unfold rename_object, object_refs. rewrite Hsy. apply (rename_all m u Hm (omap reference (k_syms l)) o pre l post es); try done. unfold rename_object, object_refs in Hl'. by rewrite Hsy in Hl'. }
  case_bool_decide as E1; [|cbn [andb st_parsed table_of sections headerBytes t]; unfold t in *; cbn [st_parsed table_of sections headerBytes]; by rewrite Hall].
  case_bool_decide as E2; [|cbn [andb]; unfold t in *; cbn [st_parsed table_of sections headerBytes]; by rewrite Hall].
  cbn [andb]. do 2 f_equal. symmetry. apply same_object, list.Forall_forall. intros p Hp. apply same_part.
  - intros k ->. assert (k = l) as ->. { assert (k ∈ links o) as H by (unfold links; apply list_elem_of_omap; by exists (Link k)). rewrite El in H. by apply list_elem_of_singleton in H. }
    by apply (no_symbol_edits m u) in E1.
  - intros x ->. specialize (Hes x Hp). unfold object_refs. rewrite Hsy. apply (no_import_edits m _ [] (i_list x) (blen (i_count x))). rewrite own_edits. rewrite E2 in Hes. by apply Permutation_nil in Hes.
Qed.

(** C6. Renaming is a change of names on the object: on every well-formed object in which no two symbols are named by the same import, [listWasmObjectSymbols] gives
    its symbols, [renameWasmObjectSymbols] gives the bytes of the object with the names of the table and of the imports replaced and nothing else changed but the sizes
    around them, and the symbols listed from these bytes are the old ones, in the same order, under their new names. *)
Theorem renaming_changes_names_only o (m : renames) u :
  valid_object o -> NoDup (object_refs o) -> (forall k n, map_get m k = Some n -> fine_name n) ->
  blen (print o) < 2 ^ 53 -> blen (print (rename_object m u o)) < 2 ^ 53 ->
  extractPublicationRecordCollection (R:=R) (print o) = None -> extractPublicationRecordCollection (R:=R) (print (rename_object m u o)) = None ->
  listWasmObjectSymbols (R:=R) (print o) = Ok (object_listed o) /\
  renameWasmObjectSymbols (R:=R) (print o) m u = Ok (print (rename_object m u o)) /\
  listWasmObjectSymbols (R:=R) (print (rename_object m u o)) = Ok (map (renamed m u) (object_listed o)).
Proof.
  intros Ho Hnd Hm Hl Hl' Hx Hx'. pose proof (vo_parts o Ho) as Hv. destruct (one_link o (vo_link o Ho)) as [l El]. destruct (link_split o l El) as (pre & post & Eo & Hn1 & Hn2).
  assert (Hsy : object_syms o = k_syms l) by (unfold object_syms; by rewrite El).
  assert (Hvl : valid_part (Link l)) by (rewrite Eo in Hv; apply Forall_app in Hv as [_ Hv]; by apply list.Forall_cons in Hv as [Hv _]).
  assert (Hys : Forall valid_sym (k_syms l)) by apply Hvl.
  split; [by apply list_object|]. split; [by eapply (rename_object_bytes o m u pre l post)|].
  rewrite list_object; [|by apply rename_valid|done|done]. f_equal. apply object_renamed; [done|by rewrite Hsy|by apply vo_refs].
Qed.
End objects.

(** ** A small object: it imports puts and defines main and a datum *)

#[local] Existing Instance raw_codec.

Definition puts_import : wimport := WImport (mk_name (lit "env")) (mk_name (lit "puts")) IMPORT_KIND_FUNCTION [0].
Definition puts_symbol : wsym := WSym SYM_FUNCTION [WASM_SYM_UNDEFINED] [0] None [].
Definition small_symbols : list wsym :=
  [puts_symbol; WSym SYM_FUNCTION [0] [1] (Some (mk_name (lit "main"))) []; WSym SYM_DATA [WASM_SYM_BINDING_LOCAL] [] (Some (mk_name (lit "buf"))) ([0] ++ [8] ++ [4])].
Definition linking_of (syms : list wsym) : wlinking :=
  let table := blen (encode_loop 8 (blen syms) ++ concat (map print_sym syms)) in
  let size := blen (print_name (mk_name LINKING)) + 1 + 3 + 1 + 5 + table in
  WLinking (pad_loop 5 size) (mk_name LINKING) [2] [WSub 5 [1] [0]] (pad_loop 5 table) (encode_loop 8 (blen syms)) syms [].
Definition object_of (syms : list wsym) : object :=
  [Imps (WImports [12] [1] [puts_import] []); Link (linking_of syms); Other (Custom [6] (mk_name (lit "name")) [7])].
Definition small_renames : renames := [(lit "puts", lit "host_puts"); (lit "main", lit "m")].

Ltac closed_word := split; [vm_compute; repeat constructor; (lia || done)|split; vm_compute; congruence].
Lemma small_object_valid : valid_object (object_of small_symbols).
Proof.
  assert (Hname : forall s, blen (text_encode (lit s)) <= 20 -> valid_name (mk_name (lit s))).
  { intros s Hs. pose proof (blen_nonneg (text_encode (lit s))). destruct (encodeUnsignedLeb128_inv (blen (text_encode (lit s))) (encode_loop 8 (blen (text_encode (lit s))))) as (_ & H1 & H2 & H3);
      [apply encodeUnsignedLeb128_Ok; unfold MAX_SAFE_INTEGER; lia|]. split; [|exact H2]. split; [done|]. split; [done|]. unfold mk_name, w_len. rewrite H2. unfold MAX_SAFE_INTEGER. lia. }
  constructor; [|vm_compute; congruence..|].
  - constructor; [|constructor; [|constructor; [|constructor]]].
    + split; [split_and!; [vm_compute; split; congruence|done|closed_word|done]|]. split_and!; [closed_word|done|]. constructor; [|constructor].
      split_and!; [apply Hname; vm_compute; congruence..|]. constructor. closed_word.
    + split; [split_and!; [closed_word|vm_compute; reflexivity|apply Hname; vm_compute; congruence]|].
      split_and!; [vm_compute; reflexivity|closed_word| |closed_word|vm_compute; reflexivity|closed_word|vm_compute; reflexivity|].
      * constructor; [|constructor]. split_and!; [done|closed_word|done].
      * constructor; [apply vs_imported; [done|closed_word|closed_word|done]|]. constructor; [apply vs_named; [done|closed_word|closed_word|done|apply Hname; vm_compute; congruence]|].
        constructor; [apply vs_data; [closed_word|done|apply Hname; vm_compute; congruence|closed_word..]|constructor].
    + split; [split_and!; [closed_word|vm_compute; reflexivity|apply Hname; vm_compute; congruence]|vm_compute; congruence].
  - cbn [object_syms links omap object_of list_omap linking_of k_syms]. constructor; [|constructor; [|constructor; [|constructor]]]; intros r Hr; vm_compute in Hr; try done. injection Hr as <-. vm_compute. congruence.
Qed.

Lemma renaming_changes_names_only_witness :
  renameWasmObjectSymbols (print (object_of small_symbols)) small_renames false = Ok (print (rename_object small_renames false (object_of small_symbols))) /\
  map l_name (map (renamed small_renames false) (object_listed (object_of small_symbols))) = [lit "host_puts"; lit "m"; lit "buf"].
Proof.
  split; [|vm_compute; reflexivity]. apply (renaming_changes_names_only (object_of small_symbols) small_renames false small_object_valid);
    [vm_compute; repeat constructor; by intros ?%not_elem_of_nil| |vm_compute; reflexivity..].
  intros k n. unfold small_renames. cbn [map_get]. repeat case_decide; intros E; simplify_eq; (split_and!; [apply lit_units|vm_compute; reflexivity|vm_compute; congruence|vm_compute; congruence]).
Defined.

(** Two symbols named by the same import (an undefined function and an alias of it): the object is well-formed and listed, but the
    new name is written twice, and the imports of the result can not be read any more. *)
Theorem shared_import_is_renamed_twice :
  map l_name <$> (match listWasmObjectSymbols (print (object_of [puts_symbol; puts_symbol])) with Ok l => Some l | Throw _ => None end) = Some [lit "puts"; lit "puts"] /\
  exists out, renameWasmObjectSymbols (print (object_of [puts_symbol; puts_symbol])) small_renames false = Ok out /\ is_ok (listWasmObjectSymbols out) = false.
Proof.
  split; [vm_compute; reflexivity|].
  exists (match renameWasmObjectSymbols (print (object_of [puts_symbol; puts_symbol])) small_renames false with Ok out => out | Throw _ => [] end). split; vm_compute; reflexivity.
Qed.
