(* ===== verification/ProviderAbi.v ===== *)
(** The binary interface of provider access (src/host/providerAccessAbi.js): error codes, encodings, and the descriptor of a tile.

    Numbers of a descriptor are integers; a 64-bit float is its bit pattern. *)
From Stdlib Require Import ZArith Lia.
From stdpp Require Import base list strings numbers.
From S2P Require Import Prelude JsText JsMap IoContract.
Open Scope Z_scope.

Definition PROVIDER_ABI_VERSION : Z := 1.
Definition PROVIDER_TILE_DESC_MAGIC : Z := 0x53445054.
Definition PROVIDER_TILE_DESC_BYTES : Z := 128.
Definition KIND_TERRAIN : Z := 1.
Definition KIND_IMAGERY : Z := 2.
Definition FLAG_STAGED : Z := 2.
Definition FLAG_DERIVED : Z := 8.
Definition FLAG_FIXTURE : Z := 16.
Definition COST_RESIDENT : Z := 0.
Definition DEFAULT_MAX_COST : Z := 1.
Definition E_INVALID_REQUEST : Z := -1.
Definition E_NO_PROVIDER : Z := -3.
Definition E_BOUNDS : Z := -6.
Definition E_BAD_HANDLE : Z := -7.
Definition E_BAD_PLANE : Z := -8.
Definition E_UNSUPPORTED : Z := -9.
Definition E_HOST : Z := -11.
Definition E_PORT_UNAVAILABLE : Z := -12.

(** What is thrown: a ProviderAccessError with its code, operation and provider, or another error with the number it may have in
    [code]. *)
Inductive thrown := AccessError (code : Z) (operation providerId : option jsstring) | OtherError (code : option Z).
Definition providerErrorCodeOf (e : thrown) : Z :=
  match e with
  | AccessError code _ _ => code
  | OtherError (Some code) => if (code <? 0) && (-12 <=? code) then code else E_HOST
  | OtherError None => E_HOST
  end.

(** Bytes per element of each encoding. *)
Definition ENCODING_LAYOUT : list (Z * Z) := [(1, 4); (2, 8); (16, 4); (17, 3); (18, 1); (19, 2); (20, 16)].
Definition encodingLayout (encoding : option Z) : option Z := match encoding with Some e => map_get ENCODING_LAYOUT e | None => None end.

Definition providerSourceId (id : jsstring) : Z :=
  js_ushr0 (fold_left (fun hash c => js_ushr0 (imul (js_xor hash (js_and c 0xff)) 0x01000193)) id 0x811c9dc5).

(** ** The descriptor of a tile *)

Record descriptor := Descriptor {
  d_kind : Z; d_encoding : Z; d_width : Z; d_height : Z; d_planeCount : Z; d_bytesPerElement : Z; d_rowStrideBytes : Z; d_byteLength : Z; d_flags : Z;
  d_level : option Z; d_west : Z; d_south : Z; d_east : Z; d_north : Z; d_minValue : Z; d_maxValue : Z; d_tileX : option Z; d_tileY : option Z;
  d_hostCopies : Z; d_sourceId : Z; d_costClass : Z; d_strategy : Z
}.
Definition PROVIDER_LEVEL_NONE : Z := 0xffffffff.
Definition u64_bytes (v : Z) : list Z := u32_bytes v ++ u32_bytes (v / 2 ^ 32).

(** The writes of the encoder, in its order: an offset and the bytes stored there. *)
Definition u32 (offset v : Z) : Z * list Z := (offset, u32_bytes (to_uint32 v)).
Definition f64 (offset v : Z) : Z * list Z := (offset, u64_bytes v).
Definition writes (d : descriptor) : list (Z * list Z) :=
  [u32 0 PROVIDER_TILE_DESC_MAGIC; u32 4 PROVIDER_ABI_VERSION; u32 8 (d_kind d); u32 12 (d_encoding d); u32 16 (d_width d); u32 20 (d_height d);
   u32 24 (d_planeCount d); u32 28 (d_bytesPerElement d); u32 32 (d_rowStrideBytes d); u32 36 (d_byteLength d); u32 40 (d_flags d);
   u32 44 (default PROVIDER_LEVEL_NONE (d_level d)); f64 48 (d_west d); f64 56 (d_south d); f64 64 (d_east d); f64 72 (d_north d);
   f64 80 (d_minValue d); f64 88 (d_maxValue d); u32 96 (default PROVIDER_LEVEL_NONE (d_tileX d)); u32 100 (default PROVIDER_LEVEL_NONE (d_tileY d));
   u32 104 (d_hostCopies d); u32 108 (d_sourceId d); u32 112 (d_costClass d); u32 116 (d_strategy d)].
Definition write_all (b : list Z) (ws : list (Z * list Z)) : list Z := fold_left (fun b w => put_at b w.2 w.1) ws b.
Definition encodeTileDescriptor (d : descriptor) : list Z := write_all (repeat 0 128) (writes d).

Definition getFloat64 (b : list Z) (off : Z) : result Z :=
  let! lo := getUint32 b off in
  let! hi := getUint32 b (off + 4) in
  Ok (lo + 2 ^ 32 * hi).
Definition decodeTileDescriptor (bytes : list Z) : result descriptor :=
  throw_if blen bytes <? PROVIDER_TILE_DESC_BYTES with RangeError "Tile descriptor is too short.";
  let u32 := getUint32 bytes in
  let f64 := getFloat64 bytes in
  let! magic := u32 0 in
  throw_if negb (magic =? PROVIDER_TILE_DESC_MAGIC) with Error "Tile descriptor magic mismatch.";
  let! kind := u32 8 in
  let! encoding := u32 12 in
  let! width := u32 16 in
  let! height := u32 20 in
  let! planeCount := u32 24 in
  let! bytesPerElement := u32 28 in
  let! rowStrideBytes := u32 32 in
  let! byteLength := u32 36 in
  let! flags := u32 40 in
  let! level := u32 44 in
  let! west := f64 48 in
  let! south := f64 56 in
  let! east := f64 64 in
  let! north := f64 72 in
  let! minValue := f64 80 in
  let! maxValue := f64 88 in
  let! tileX := u32 96 in
  let! tileY := u32 100 in
  let! hostCopies := u32 104 in
  let! sourceId := u32 108 in
  let! costClass := u32 112 in
  let! strategy := u32 116 in
  Ok (Descriptor kind encoding width height planeCount bytesPerElement rowStrideBytes byteLength flags (Some level) west south east north minValue maxValue
        (Some tileX) (Some tileY) hostCopies sourceId costClass strategy).

(** ** The round trip *)

Fixpoint consecutive (off : Z) (ws : list (Z * list Z)) : Prop := match ws with [] => True | (o, bs) :: ws => o = off /\ consecutive (off + blen bs) ws end.
Definition body (ws : list (Z * list Z)) : list Z := concat (map snd ws).
Lemma write_consecutive ws : forall x y z, consecutive (blen x) ws -> blen y = blen (body ws) -> write_all (x ++ y ++ z) ws = x ++ body ws ++ z.
Proof.
  unfold body. induction ws as [|[o bs] ws IH]; intros x y z Hc Hy; cbn [map concat snd] in *; [by rewrite (blen_0 y Hy)|].
  destruct Hc as [-> Hc]. rewrite blen_app in Hy. destruct (split_len y (blen bs)) as (y1 & y2 & -> & H1); [pose proof (blen_nonneg (concat (map snd ws))); pose proof (blen_nonneg bs); lia|].
  unfold write_all. cbn [fold_left fst snd]. fold (write_all (put_at (x ++ (y1 ++ y2) ++ z) bs (blen x)) ws). rewrite <- app_assoc, put_at_split by (done || lia).
  rewrite app_assoc. rewrite (IH (x ++ bs) y2 z); [app_eq|by rewrite blen_app|rewrite blen_app in Hy; lia].
Qed.
Lemma consecutive_split w1 o bs w2 : forall off, consecutive off (w1 ++ (o, bs) :: w2) -> o = off + blen (body w1).
Proof.
  unfold body. induction w1 as [|[p b] w1 IH]; intros off; cbn [app consecutive map concat snd]; [intros [-> _]; change (blen (@nil Z)) with 0; lia|].
  intros [-> H]. rewrite (IH _ H). blia.
Qed.

Lemma writes_consecutive d : consecutive 0 (writes d).
Proof. repeat split. Qed.
Lemma encoded d : encodeTileDescriptor d = body (writes d) ++ repeat 0 8.
Proof. apply (write_consecutive (writes d) [] (repeat 0 120) (repeat 0 8) (writes_consecutive d)). reflexivity. Qed.
Lemma descriptor_length d : blen (encodeTileDescriptor d) = PROVIDER_TILE_DESC_BYTES.
Proof. rewrite encoded. reflexivity. Qed.
Lemma get_field d o bs : (o, bs) ∈ writes d -> exists a c, encodeTileDescriptor d = a ++ bs ++ c /\ blen a = o.
Proof.
  intros (w1 & w2 & Hw)%list_elem_of_split. pose proof (writes_consecutive d) as Hc. rewrite Hw in Hc. apply consecutive_split in Hc as ->.
  exists (body w1), (body w2 ++ repeat 0 8). split; [|lia]. rewrite encoded, Hw. unfold body. rewrite map_app, concat_app. cbn [map concat snd]. app_eq.
Qed.
Lemma get_u32 d o v : u32 o v ∈ writes d -> getUint32 (encodeTileDescriptor d) o = Ok (to_uint32 v).
Proof. intros (a & c & -> & <-)%get_field. apply getUint32_app. unfold to_uint32. by apply Z.mod_pos_bound. Qed.
Lemma get_f64 d o v : f64 o v ∈ writes d -> 0 <= v < 2 ^ 64 -> getFloat64 (encodeTileDescriptor d) o = Ok v.
Proof.
  intros (a & c & -> & <-)%get_field Hv. unfold getFloat64, u64_bytes. rewrite <- app_assoc.
  assert (Hu : u32_bytes v = u32_bytes (v mod 2 ^ 32)).
  { unfold u32_bytes. change (2 ^ 32) with (256 * 16777216). rewrite Z.rem_mul_r by lia. f_equal; [|f_equal; [|f_equal; [|f_equal]]]; Z.div_mod_to_equations; lia. }
  rewrite Hu, getUint32_app by by apply Z.mod_pos_bound. cbn [rbind]. rewrite app_assoc. replace (blen a + 4) with (blen (a ++ u32_bytes (v mod 2 ^ 32))) by blia.
  rewrite getUint32_app by (split; [apply Z.div_pos; lia|apply Z.div_lt_upper_bound; lia]). cbn [rbind]. f_equal. pose proof (Z.div_mod v (2 ^ 32)). lia.
Qed.

(** What a descriptor looks like on the other side: numbers as unsigned 32-bit words, and the missing ones filled in. *)
Definition wire (d : descriptor) : descriptor :=
  Descriptor (to_uint32 (d_kind d)) (to_uint32 (d_encoding d)) (to_uint32 (d_width d)) (to_uint32 (d_height d)) (to_uint32 (d_planeCount d)) (to_uint32 (d_bytesPerElement d))
    (to_uint32 (d_rowStrideBytes d)) (to_uint32 (d_byteLength d)) (to_uint32 (d_flags d)) (Some (to_uint32 (default PROVIDER_LEVEL_NONE (d_level d)))) (d_west d) (d_south d) (d_east d)
    (d_north d) (d_minValue d) (d_maxValue d) (Some (to_uint32 (default PROVIDER_LEVEL_NONE (d_tileX d)))) (Some (to_uint32 (default PROVIDER_LEVEL_NONE (d_tileY d))))
    (to_uint32 (d_hostCopies d)) (to_uint32 (d_sourceId d)) (to_uint32 (d_costClass d)) (to_uint32 (d_strategy d)).
Definition floats (d : descriptor) : list Z := [d_west d; d_south d; d_east d; d_north d; d_minValue d; d_maxValue d].

Lemma bind_u32 {A} d o v (k : Z -> result A) : u32 o v ∈ writes d -> rbind (getUint32 (encodeTileDescriptor d) o) k = k (to_uint32 v).
Proof. intros H. by rewrite (get_u32 d o v H). Qed.
Lemma bind_f64 {A} d o v (k : Z -> result A) : f64 o v ∈ writes d -> 0 <= v < 2 ^ 64 -> rbind (getFloat64 (encodeTileDescriptor d) o) k = k v.
Proof. intros H Hv. by rewrite (get_f64 d o v H Hv). Qed.
Lemma magic_fits : (to_uint32 PROVIDER_TILE_DESC_MAGIC =? PROVIDER_TILE_DESC_MAGIC) = true.
Proof. reflexivity. Qed.
#[local] Opaque encodeTileDescriptor getUint32 getFloat64 to_uint32.
Ltac field_of := unfold writes; repeat (first [apply list_elem_of_here | apply list_elem_of_further]).
(** A descriptor takes 128 bytes, and decoding them gives it back, numbers as unsigned 32-bit words and missing fields filled in. *)
Theorem descriptor_roundtrip d : Forall (fun v => 0 <= v < 2 ^ 64) (floats d) ->
  blen (encodeTileDescriptor d) = PROVIDER_TILE_DESC_BYTES /\ decodeTileDescriptor (encodeTileDescriptor d) = Ok (wire d).
Proof.
  intros Hf. split; [apply descriptor_length|]. unfold decodeTileDescriptor. rewrite descriptor_length, Z.ltb_irrefl. cbv zeta.
  unfold floats in Hf. repeat (apply list.Forall_cons in Hf as [? Hf]).
  rewrite (bind_u32 d 0 PROVIDER_TILE_DESC_MAGIC) by field_of. rewrite magic_fits.
  do 10 (erewrite bind_u32 by field_of). do 6 (erewrite bind_f64 by (first [solve [field_of]|done])). do 6 (erewrite bind_u32 by field_of). reflexivity.
Qed.
#[local] Transparent encodeTileDescriptor getUint32 getFloat64 to_uint32.
Definition sample_descriptor : descriptor := Descriptor KIND_TERRAIN 1 2 2 1 4 8 16 0 None 0 0 0x3ff0000000000000 0x3ff0000000000000 0 0 (Some 3) None 1 (providerSourceId (lit "dem")) 0 0.
Lemma descriptor_roundtrip_witness : decodeTileDescriptor (encodeTileDescriptor sample_descriptor) = Ok (wire sample_descriptor).
Proof. apply (descriptor_roundtrip sample_descriptor). repeat (constructor; [vm_compute; split; congruence|]); constructor. Defined.
