(* ===== verification/ProviderAccess.v ===== *)
(** Access to imagery and terrain providers (src/host/providerAccess.js).

    The port keeps the adapters of providers, the one selected for each kind, and the planes pinned by handles; the bridge is what a
    guest calls. Adapters are functions on a state of their own ([W]) that return at once: a host that waits for an asynchronous adapter
    does so before it answers. The values they exchange with callers beyond the fields the port reads are opaque ([V]).
    The planes of a pin are bytes: the source keeps views on the adapter's buffer, and an adapter that writes to its buffer after it has answered
    would change them. *)
From Stdlib Require Import ZArith Lia.
From stdpp Require Import base list sorting strings numbers.
From S2P Require Import Prelude JsText JsMap IoContract RuntimeHost ProviderAbi.
Open Scope Z_scope.

(** ** Requests and adapters *)

(** A kind is a number; looking a name up in an object literal can also give what every object inherits. *)
Inductive kind := KindNumber (z : Z) | KindInherited (name : jsstring).
#[export] Instance kind_eq_dec : EqDecision kind.
Proof. solve_decision. Defined.
Inductive kind_arg := NoKind | NumberKind (z : Z) | TextKind (s : jsstring).
Definition inherited_names : list jsstring := lit "__proto__" :: OBJECT_PROTOTYPE_FUNCTIONS.
Definition is_inherited (s : jsstring) : bool := bool_decide (s ∈ inherited_names).

Section access.
Context {W V : Type}.

Record request := Request {
  q_op : option jsstring; q_providerId : option jsstring; q_id : option jsstring; q_kind : kind_arg; q_maxCost : option Z; q_positions : option (list Z); q_rest : V
}.
(** What an adapter says of a tile; a plane that is no buffer is [None]. *)
Record tile_info := TileInfo {
  i_encoding : option Z; i_width : option Z; i_height : option Z; i_rowStrideBytes : option Z; i_flags : option Z; i_level : option Z;
  i_west : option Z; i_south : option Z; i_east : option Z; i_north : option Z; i_minValue : option Z; i_maxValue : option Z; i_tileX : option Z; i_tileY : option Z;
  i_costClass : option Z; i_strategy : option Z
}.
Record tile := Tile { t_planes : list (option (list Z)); t_info : tile_info }.
Definition method (A : Type) : Type := option (request -> W -> (A + thrown) * W).
Inductive acquire_method := AcquireTile | AcquireProfile | AcquireRegion.
Record adapter := Adapter {
  a_id : jsstring; a_kind : kind; a_name : option jsstring; a_ready : bool; a_minLevel : option Z; a_maxLevel : option Z; a_tileWidth : option Z; a_tileHeight : option Z;
  a_encoding : option Z; a_costClass : option Z; a_credit : option jsstring; a_fixture : bool; a_attributes : option V;
  a_acquire : acquire_method -> method tile; a_select : method unit; a_configure : option (V -> W -> (V + thrown) * W);
  a_availability : method bool; a_prefetch : method V; a_await : method V
}.
Definition with_kind (a : adapter) (k : kind) : adapter :=
  Adapter (a_id a) k (a_name a) (a_ready a) (a_minLevel a) (a_maxLevel a) (a_tileWidth a) (a_tileHeight a) (a_encoding a) (a_costClass a) (a_credit a) (a_fixture a) (a_attributes a)
    (a_acquire a) (a_select a) (a_configure a) (a_availability a) (a_prefetch a) (a_await a).

(** ** The port *)

Record pinned := Pinned { planes : list (list Z); pin_descriptor : descriptor }.
Record stats := Stats { acquires : Z; reads : Z; bytesCopied : Z; hostCopies : Z; pinned_count : Z }.
Record error_detail := ErrorDetail { e_code : Z; e_operation : option jsstring; e_providerId : option jsstring }.
Record port := Port {
  adapters : list (jsstring * adapter); selected : list (kind * jsstring); handles : list (Z * pinned); nextHandle : Z; lastError : option error_detail; p_stats : stats; world : W
}.
Definition access (A : Type) : Type := port -> (A + thrown) * port.
Definition pret {A} (v : A) : access A := fun p => (inl v, p).
Definition pthrow {A} (e : thrown) : access A := fun p => (inr e, p).
Definition pbind {A B} (m : access A) (k : A -> access B) : access B := fun p => match m p with (inl v, p) => k v p | (inr e, p) => (inr e, p) end.
Definition pget : access port := fun p => (inl p, p).
Definition pset (q : port) : access unit := fun _ => (inl tt, q).
Definition in_world {A} (f : W -> (A + thrown) * W) : access A :=
  fun p => let r := f (world p) in (r.1, Port (adapters p) (selected p) (handles p) (nextHandle p) (lastError p) (p_stats p) r.2).
Definition with_handles (p : port) (h : list (Z * pinned)) (next : Z) (s : stats) : port := Port (adapters p) (selected p) h next (lastError p) s (world p).
Definition set_selected (p : port) (s : list (kind * jsstring)) : port := Port (adapters p) s (handles p) (nextHandle p) (lastError p) (p_stats p) (world p).
Definition set_error (p : port) (e : option error_detail) : port := Port (adapters p) (selected p) (handles p) (nextHandle p) e (p_stats p) (world p).

Notation "'let*' x ':=' m 'in' k" := (pbind m (fun x => k)) (at level 200, x pattern, m at level 100, k at level 200, right associativity).

Definition KIND_BY_NAME : list (jsstring * Z) := [(lit "terrain", KIND_TERRAIN); (lit "imagery", KIND_IMAGERY)].
(** Lower case by code units, which decides whether a text is one of these names. *)
Definition normalizeKind (k : kind_arg) : option kind + thrown :=
  match k with
  | NoKind => inl None
  | NumberKind z => inl (Some (KindNumber z))
  | TextKind s =>
      if bool_decide (s = []) then inl None
      else let key := map lower s in
           match map_get KIND_BY_NAME key with
           | Some z => inl (Some (KindNumber z))
           | None => if is_inherited key then inl (Some (KindInherited key)) else inr (AccessError E_INVALID_REQUEST None None)
           end
  end.
Definition truthy_kind (k : kind) : bool := match k with KindNumber z => negb (z =? 0) | KindInherited _ => true end.
(** A kind that counts as true. *)
Definition true_kind (k : option kind) : option kind := match k with Some k => if truthy_kind k then Some k else None | None => None end.
Definition liftM {A} (r : A + thrown) : access A := fun p => (r, p).

Definition createPort (w : W) : port := Port [] [] [] 1 None (Stats 0 0 0 0 0) w.
Definition registerAdapter (a : adapter) (k : kind_arg) : access unit :=
  if bool_decide (a_id a = []) then pthrow (OtherError None)
  else
    let* n := liftM (normalizeKind k) in
    match true_kind n with
    | None => pthrow (OtherError None)
    | Some k =>
        let* p := pget in
        let selected := if map_has (selected p) k then selected p else map_set (selected p) k (a_id a) in
        pset (Port (map_set (adapters p) (a_id a) (with_kind a k)) selected (handles p) (nextHandle p) (lastError p) (p_stats p) (world p))
    end.

Definition findAdapter (id : option jsstring) (operation : jsstring) : access adapter :=
  let* p := pget in
  match id with
  | Some i => match map_get (adapters p) i with Some a => pret a | None => pthrow (AccessError E_NO_PROVIDER (Some operation) id) end
  | None => pthrow (AccessError E_NO_PROVIDER (Some operation) id)
  end.
Definition resolveAdapter (q : request) (operation : jsstring) : access adapter :=
  let id := match q_providerId q with Some i => Some i | None => q_id q end in
  match id with
  | Some (_ :: _) => findAdapter id operation
  | _ =>
      let* k := liftM (normalizeKind (q_kind q)) in
      let* p := pget in
      match true_kind k with
      | Some k => match map_get (selected p) k with
                  | Some (c :: s) => findAdapter (Some (c :: s)) operation
                  | _ => pthrow (AccessError E_NO_PROVIDER (Some operation) None)
                  end
      | None => pthrow (AccessError E_NO_PROVIDER (Some operation) None)
      end
  end.

Definition ceiling (q : request) : Z := default DEFAULT_MAX_COST (q_maxCost q).
Definition assertWithinCost (a : adapter) (cost : Z) (q : request) : access unit :=
  if ceiling q <? cost then pthrow (AccessError E_UNSUPPORTED None (Some (a_id a))) else pret tt.
Definition kind_word (k : kind) : Z := match k with KindNumber z => z | KindInherited _ => 0 end.

(** All planes, if all are buffers. *)
Fixpoint all_buffers (l : list (option (list Z))) : option (list (list Z)) :=
  match l with
  | [] => Some []
  | Some b :: l => match all_buffers l with Some r => Some (b :: r) | None => None end
  | None :: _ => None
  end.
Definition orZ (a : option Z) (d : Z) : Z := default d a.
Definition pin (a : adapter) (t : tile) (q : request) (derivedFlags : Z) : access (Z * descriptor) :=
  match all_buffers (t_planes t) with
  | None | Some [] => pthrow (AccessError E_HOST None (Some (a_id a)))
  | Some ((plane :: _) as planes) =>
      let info := t_info t in
      let encoding := match i_encoding info with Some e => Some e | None => a_encoding a end in
      match encoding, encodingLayout encoding with
      | Some encoding, Some bytes =>
          let width := orZ (i_width info) 0 in
          let costClass := match i_costClass info with Some c => c | None => orZ (a_costClass a) COST_RESIDENT end in
          let* _ := assertWithinCost a costClass q in
          let d := Descriptor (kind_word (a_kind a)) encoding width (orZ (i_height info) 1) (blen planes) bytes (orZ (i_rowStrideBytes info) (width * bytes)) (blen plane)
            (js_or (js_or (orZ (i_flags info) 0) derivedFlags) (if a_fixture a then FLAG_FIXTURE else 0)) (i_level info) (orZ (i_west info) 0) (orZ (i_south info) 0)
            (orZ (i_east info) 0) (orZ (i_north info) 0) (orZ (i_minValue info) 0) (orZ (i_maxValue info) 0) (i_tileX info) (i_tileY info) 1 (providerSourceId (a_id a)) costClass
            (orZ (i_strategy info) 0) in
          let* p := pget in
          let handle := nextHandle p in
          let h := map_set (handles p) handle (Pinned planes d) in
          let s := p_stats p in
          let* _ := pset (with_handles p h (handle + 1) (Stats (acquires s + 1) (reads s) (bytesCopied s) (hostCopies s) (blen h))) in
          pret (handle, d)
      | _, _ => pthrow (OtherError None)
      end
  end.

Definition ACQUIRE_METHODS : list (jsstring * (acquire_method * Z)) :=
  [(lit "tile", (AcquireTile, 0)); (lit "profile", (AcquireProfile, FLAG_DERIVED)); (lit "region", (AcquireRegion, FLAG_DERIVED))].
(** The request an adapter sees has the ceiling filled in. *)
Definition with_ceiling (q : request) : request := Request (q_op q) (q_providerId q) (q_id q) (q_kind q) (Some (ceiling q)) (q_positions q) (q_rest q).
Definition acquire (q : request) : access (Z * descriptor) :=
  let op := default (lit "tile") (q_op q) in
  match map_get ACQUIRE_METHODS op with
  | None => pthrow (if is_inherited op then OtherError None else AccessError E_INVALID_REQUEST None None)
  | Some (m, derivedFlags) =>
      let* a := resolveAdapter q (lit "provider.acquire:" ++ op) in
      match a_acquire a m with
      | None => pthrow (AccessError E_UNSUPPORTED (Some (lit "provider.acquire")) (Some (a_id a)))
      | Some fn =>
          let* _ := assertWithinCost a (orZ (a_costClass a) COST_RESIDENT) q in
          let* t := in_world (fn (with_ceiling q)) in
          pin a t q derivedFlags
      end
  end.

(** ** Reading and releasing *)

Definition pinnedPlane (handle plane : Z) : access (list Z) :=
  let* p := pget in
  match map_get (handles p) handle with
  | None => pthrow (AccessError E_BAD_HANDLE None None)
  | Some e =>
      let index := to_int32 plane in
      match at_ (planes e) index with Some b => pret b | None => pthrow (AccessError E_BAD_PLANE None None) end
  end.
Definition readView (handle plane srcOffset length : Z) : access (list Z) :=
  let* source := pinnedPlane handle plane in
  let srcOffset := to_int32 srcOffset in
  if (srcOffset <? 0) || (blen source <? srcOffset) then pthrow (AccessError E_BOUNDS None None)
  else
    let length := Z.min (Z.max (to_int32 length) 0) (blen source - srcOffset) in
    pret (subarray source srcOffset (srcOffset + length)).
Definition release (handle : Z) : access Z :=
  let* p := pget in
  if map_has (handles p) handle then
    let h := map_delete (handles p) handle in
    let s := p_stats p in
    let* _ := pset (with_handles p h (nextHandle p) (Stats (acquires s) (reads s) (bytesCopied s) (hostCopies s) (blen h))) in
    pret 0
  else pthrow (AccessError E_BAD_HANDLE None None).
Definition releaseAll : access unit :=
  let* p := pget in
  let s := p_stats p in
  pset (with_handles p [] (nextHandle p) (Stats (acquires s) (reads s) (bytesCopied s) (hostCopies s) 0)).
Definition recordCopies (bytes copies : Z) : access unit :=
  let* p := pget in
  let s := p_stats p in
  pset (with_handles p (handles p) (nextHandle p) (Stats (acquires s) (reads s + 1) (bytesCopied s + bytes) (hostCopies s + copies) (pinned_count s))).
(** Copies into a destination of [len] bytes; the bytes that are put at its start. *)
Definition directReadInto (handle plane srcOffset length len : Z) : access (list Z) :=
  let* view := readView handle plane srcOffset length in
  let bytes := subarray view 0 len in
  let* _ := recordCopies (Z.min (blen view) len) 1 in
  pret bytes.

(** ** Operations *)

Inductive params :=
  | PRequest (q : request) | PSettings (id : option jsstring) (settings : option V) (keys : list jsstring) | PRead (handle plane srcOffset length : Z) | PHandle (handle : Z) | PNone.
Record description := Description {
  s_id : jsstring; s_kind : jsstring; s_name : jsstring; s_ready : bool; s_minLevel : Z; s_maxLevel : Z; s_tileWidth : Z; s_tileHeight : Z; s_encoding : Z; s_costClass : Z;
  s_credit : jsstring; s_fixture : bool
}.
Inductive reply :=
  | RProviders (l : list description) | RDescribe (d : description) (attributes : option V) | RSelected (id : jsstring) | RRejected (keys : list jsstring) | RConfigured (v : V)
  | RAvailability (available known : bool) | RPrefetch (supported : bool) (v : option V) | RReady (ready : bool) | RAwaited (v : V) | RLastError (e : option error_detail) | RStats (s : stats)
  | RAcquired (handle : Z) (descriptor : list Z) | RBytes (bytes : list Z) | RReleased (v : Z) | RInherited (name : jsstring).

Definition describeAdapter (a : adapter) : description :=
  Description (a_id a) (if bool_decide (a_kind a = KindNumber KIND_TERRAIN) then lit "terrain" else lit "imagery") (default (a_id a) (a_name a)) (a_ready a) (orZ (a_minLevel a) 0)
    (orZ (a_maxLevel a) 0) (orZ (a_tileWidth a) 0) (orZ (a_tileHeight a) 0) (orZ (a_encoding a) 0) (orZ (a_costClass a) COST_RESIDENT) (default [] (a_credit a)) (a_fixture a).
Definition sort_descriptions (l : list description) : list description := merge_sort (fun a b => Is_true (str_leb (s_id a) (s_id b))) l.
Definition request_of (ps : params) (default_rest : V) : request :=
  match ps with PRequest q => q | PSettings id _ _ => Request None None id NoKind None None default_rest | _ => Request None None None NoKind None None default_rest end.
Definition list_op (q : request) : access reply :=
  let* k := liftM (normalizeKind (q_kind q)) in
  let* p := pget in
  let wanted a := match true_kind k with Some k => bool_decide (a_kind a = k) | None => true end in
  pret (RProviders (sort_descriptions (map describeAdapter (List.filter wanted (map_values (adapters p)))))).
Definition select_op (q : request) : access reply :=
  let* a := findAdapter (q_id q) (lit "provider.select") in
  let* k := liftM (normalizeKind (q_kind q)) in
  let kind := default (a_kind a) k in
  if negb (bool_decide (a_kind a = kind)) then pthrow (AccessError E_INVALID_REQUEST None None)
  else
    let* _ := match a_select a with Some f => in_world (f q) | None => pret tt end in
    let* p := pget in
    let* _ := pset (set_selected p (map_set (selected p) kind (a_id a))) in
    pret (RSelected (a_id a)).
Definition configure_op (id : option jsstring) (settings : option V) (empty : V) (keys : list jsstring) : access reply :=
  let* a := findAdapter id (lit "provider.configure") in
  match a_configure a with
  | None => pret (RRejected keys)
  | Some f => let* v := in_world (f (default empty settings)) in pret (RConfigured v)
  end.
Definition availability_op (q : request) : access reply :=
  let* a := resolveAdapter q (lit "provider.availability") in
  match a_availability a with None => pret (RAvailability true false) | Some f => let* b := in_world (f q) in pret (RAvailability b true) end.
Definition prefetch_op (q : request) : access reply :=
  let* a := resolveAdapter q (lit "provider.prefetch") in
  match a_prefetch a with None => pret (RPrefetch false None) | Some f => let* v := in_world (f q) in pret (RPrefetch true (Some v)) end.
Definition await_op (q : request) : access reply :=
  let* a := resolveAdapter q (lit "provider.await") in
  match a_await a with None => pret (RReady (a_ready a)) | Some f => let* v := in_world (f q) in pret (RAwaited v) end.
Definition readRaw_op (ps : params) : access reply :=
  let* view := match ps with PRead h pl o n => readView h pl o n | PHandle h => readView h 0 0 0 | _ => pthrow (AccessError E_BAD_HANDLE None None) end in
  let* _ := recordCopies (blen view) 2 in
  pret (RBytes view).
Definition release_op (ps : params) : access reply :=
  let* v := match ps with PHandle h => release h | PRead h _ _ _ => release h | _ => pthrow (AccessError E_BAD_HANDLE None None) end in
  pret (RReleased v).

(** The handler of an operation, among the own ones and those every object inherits. *)
Definition handler (operation : jsstring) (ps : params) (empty : V) : option (access reply) :=
  let q := request_of ps empty in
  let is_ s := str_eqb operation (lit s) in
  if is_ "provider.list" then Some (list_op q)
  else if is_ "provider.describe" then Some (let* a := findAdapter (q_id q) operation in pret (RDescribe (describeAdapter a) (a_attributes a)))
  else if is_ "provider.select" then Some (select_op q)
  else if is_ "provider.configure" then Some (match ps with PSettings id v keys => configure_op id v empty keys | _ => configure_op (q_id q) None empty [] end)
  else if is_ "provider.availability" then Some (availability_op q)
  else if is_ "provider.prefetch" then Some (prefetch_op q)
  else if is_ "provider.await" then Some (await_op q)
  else if is_ "provider.lastError" then Some (let* p := pget in pret (RLastError (lastError p)))
  else if is_ "provider.stats" then Some (let* p := pget in pret (RStats (p_stats p)))
  else if is_ "provider.acquire" then Some (let* r := acquire q in pret (RAcquired r.1 (encodeTileDescriptor r.2)))
  else if is_ "provider.readRaw" then Some (readRaw_op ps)
  else if is_ "provider.release" then Some (release_op ps)
  else if is_inherited operation then
    Some (if is_ "toString" || is_ "constructor" then pret (RInherited operation) else pthrow (OtherError None))
  else None.
Definition detail_of (operation : jsstring) (e : thrown) : error_detail :=
  match e with
  | AccessError code op provider => ErrorDetail code (match op with Some o => Some o | None => Some operation end) provider
  | OtherError _ => ErrorDetail (providerErrorCodeOf e) (Some operation) None
  end.
(** [run] with adapters that do not wait, which is also [invokeSync]. *)
Definition invoke (operation : jsstring) (ps : params) (empty : V) : access reply :=
  match handler operation ps empty with
  | None => pthrow (AccessError E_INVALID_REQUEST (Some operation) None)
  | Some h => fun p => match h p with
                       | (inl r, p) => (inl r, set_error p None)
                       | (inr e, p) => (inr e, set_error p (Some (detail_of operation e)))
                       end
  end.

(** ** The bridge *)

(** What [JSON.parse] gives for a request: the request and the pointer and number of positions it may have. *)
Record parsed_request := ParsedRequest { r_request : request; r_positionsPtr : option Z; r_positionsCount : Z }.

Section bridge.
Variables (parse : jsstring -> option parsed_request) (direct : bool) (empty : V).

(** A range of the memory of the guest. *)
Definition guestView (mem : list Z) (ptr len : Z) : list Z + thrown :=
  if (ptr <? 0) || (len <? 0) then inr (AccessError E_BOUNDS None None)
  else if blen mem <? ptr + len then inr (AccessError E_BOUNDS None None)
  else inl (subarray mem ptr (ptr + len)).
(** A call of the guest: a status, the port and the memory after it. *)
Definition outcome : Type := Z * port * list Z.
Definition failed (e : thrown) (p : port) (mem : list Z) : outcome := (providerErrorCodeOf e, p, mem).

Definition read_request (mem : list Z) (reqPtr reqLen : Z) : request + thrown :=
  match guestView mem reqPtr reqLen with
  | inr e => inr e
  | inl bytes =>
      match parse (text_decode bytes) with
      | None => inr (OtherError None)
      | Some r =>
          let q := r_request r in
          match r_positionsPtr r with
          | None => inl q
          | Some ptr =>
              let count := to_int32 (r_positionsCount r) in
              if count <? 0 then inr (AccessError E_INVALID_REQUEST None None)
              else match guestView mem ptr (count * 16) with
                   | inr e => inr e
                   | inl pairs => inl (Request (q_op q) (q_providerId q) (q_id q) (q_kind q) (q_maxCost q) (Some pairs) (q_rest q))
                   end
          end
      end
  end.
(** The layer that knows how bytes travel says so in the descriptor. *)
Definition patch (d : list Z) : list Z :=
  if direct then d
  else let d := put_at d (u32_bytes 2) 104 in
       put_at d (u32_bytes (to_uint32 (js_or (match getUint32 d 40 with Ok v => v | Throw _ => 0 end) FLAG_STAGED))) 40.
Definition bridge_acquire (p : port) (mem : list Z) (reqPtr reqLen descPtr : Z) : outcome :=
  match read_request mem reqPtr reqLen with
  | inr e => failed e p mem
  | inl q =>
      match invoke (lit "provider.acquire") (PRequest q) empty p with
      | (inl (RAcquired handle d), p) =>
          if negb (blen d =? PROVIDER_TILE_DESC_BYTES) then failed (AccessError E_HOST None None) p mem
          else match guestView mem descPtr PROVIDER_TILE_DESC_BYTES with
               | inr e => failed e p mem
               | inl _ => (to_int32 handle, p, put_at mem (patch d) descPtr)
               end
      | (inl _, p) => failed (AccessError E_HOST None None) p mem
      | (inr e, p) => failed e p mem
      end
  end.
Definition bridge_read (p : port) (mem : list Z) (handle plane srcOffset dstPtr dstLen : Z) : outcome :=
  if direct then
    match guestView mem dstPtr dstLen with
    | inr e => failed e p mem
    | inl _ => match directReadInto handle plane srcOffset dstLen dstLen p with
               | (inl bytes, p) => (to_int32 (blen bytes), p, put_at mem bytes dstPtr)
               | (inr e, p) => failed e p mem
               end
    end
  else
    match invoke (lit "provider.readRaw") (PRead handle plane srcOffset dstLen) empty p with
    | (inl r, p) =>
        let bytes := match r with RBytes bytes => bytes | _ => [] end in
        match guestView mem dstPtr dstLen with
        | inr e => failed e p mem
        | inl _ => let written := Z.min (blen bytes) dstLen in (written, p, put_at mem (subarray bytes 0 written) dstPtr)
        end
    | (inr e, p) => failed e p mem
    end.
Definition bridge_release (p : port) (mem : list Z) (handle : Z) : outcome :=
  match invoke (lit "provider.release") (PHandle handle) empty p with (inl _, p) => (0, p, mem) | (inr e, p) => failed e p mem end.
End bridge.

(** The port of a host without providers. *)
Definition unavailable_invoke (code : Z) (operation : jsstring) : reply + thrown :=
  if str_eqb operation (lit "provider.list") then inl (RProviders [])
  else if str_eqb operation (lit "provider.lastError") then inl (RLastError (Some (ErrorDetail code None None)))
  else if str_eqb operation (lit "provider.stats") then inl (RStats (Stats 0 0 0 0 0))
  else inr (AccessError code (Some operation) None).

(** ** Reads *)

(** What a read of a plane should give: its bytes from an offset on, at most so many, or a code. *)
Definition plane_read (p : port) (handle plane srcOffset length : Z) : list Z + Z :=
  match map_get (handles p) handle with
  | None => inr E_BAD_HANDLE
  | Some e => match at_ (planes e) (to_int32 plane) with
              | None => inr E_BAD_PLANE
              | Some b => if (srcOffset <? 0) || (blen b <? srcOffset) then inr E_BOUNDS else inl (subarray b srcOffset (Z.min (srcOffset + length) (blen b)))
              end
  end.
Definition is_i32 (z : Z) : Prop := - 2 ^ 31 <= z < 2 ^ 31.
Lemma i32_id z : is_i32 z -> to_int32 z = z.
Proof.
  intros Hz. destruct (Z_lt_ge_dec z 0); [|apply to_int32_small; unfold is_i32 in Hz; lia]. unfold to_int32, is_i32 in *.
  assert (z mod 2 ^ 32 = z + 2 ^ 32) as -> by (rewrite <- (Z_mod_plus_full z 1); apply Z.mod_small; lia). destruct (Z.ltb_spec (z + 2 ^ 32) (2 ^ 31)); lia.
Qed.

Lemma readView_spec p handle plane srcOffset length : is_i32 srcOffset -> 0 <= length < 2 ^ 31 ->
  readView handle plane srcOffset length p = (match plane_read p handle plane srcOffset length with
                                              | inl bytes => inl bytes
                                              | inr code => inr (AccessError code None None)
                                              end, p).
Proof.
  intros Hs Hl. unfold readView, pinnedPlane, pbind, pget, plane_read. destruct (map_get (handles p) handle) as [e|]; [|done]. destruct (at_ (planes e) (to_int32 plane)) as [b|]; [|done].
  cbn [pret]. unfold pret. rewrite (i32_id srcOffset Hs). destruct (_ || _) eqn:E; [done|]. apply orb_false_iff in E as [H1 H2]. rewrite (to_int32_small length) by lia. rewrite Z.max_l by lia.
  do 3 f_equal. lia.
Qed.
Lemma plane_read_length p handle plane srcOffset length bytes : 0 <= length -> plane_read p handle plane srcOffset length = inl bytes -> blen bytes <= length.
Proof.
  intros Hl. unfold plane_read. destruct (map_get (handles p) handle) as [e|]; [|done]. destruct (at_ (planes e) _) as [b|]; [|done]. destruct (_ || _) eqn:E; [done|]. apply orb_false_iff in E as [H1 H2].
  intros [= <-]. destruct (Z_le_gt_dec srcOffset (Z.min (srcOffset + length) (blen b))); [|lia]. rewrite blen_subarray by lia. lia.
Qed.
Lemma plane_read_code p handle plane srcOffset length code : plane_read p handle plane srcOffset length = inr code -> code < 0.
Proof.
  unfold plane_read. destruct (map_get (handles p) handle) as [e|]; [|by intros [= <-]]. destruct (at_ (planes e) _) as [b|]; [|by intros [= <-]]. destruct (_ || _); by intros [= <-].
Qed.
Lemma subarray_whole (b : list Z) n : blen b <= n -> subarray b 0 n = b.
Proof.
  intros H. destruct (Z_le_gt_dec n (blen b)); [replace n with (blen b) by lia; apply subarray_all|]. unfold subarray, rel_index.
  destruct (Z.ltb_spec 0 0); [lia|]. destruct (Z.ltb_spec n 0); [pose proof (blen_nonneg b); lia|]. pose proof (blen_nonneg b). rewrite (Z.min_l 0), (Z.min_r n) by lia. rewrite drop_0. apply take_ge. unfold blen. lia.
Qed.

(** The same port but for what is counted and remembered of errors. *)
Definition same_pins (p q : port) : Prop := handles q = handles p /\ nextHandle q = nextHandle p /\ world q = world p /\ adapters q = adapters p /\ selected q = selected p.

Lemma guestView_in mem ptr len : 0 <= ptr -> 0 <= len -> ptr + len <= blen mem -> guestView mem ptr len = inl (subarray mem ptr (ptr + len)).
Proof. intros. unfold guestView. destruct (Z.ltb_spec ptr 0), (Z.ltb_spec len 0), (Z.ltb_spec (blen mem) (ptr + len)); try lia. done. Qed.
Lemma guestView_out mem ptr len : ~ (0 <= ptr /\ 0 <= len /\ ptr + len <= blen mem) -> guestView mem ptr len = inr (AccessError E_BOUNDS None None).
Proof. intros. unfold guestView. destruct (Z.ltb_spec ptr 0), (Z.ltb_spec len 0), (Z.ltb_spec (blen mem) (ptr + len)); try done. lia. Qed.

Lemma direct_read_spec empty p mem handle plane srcOffset dstPtr dstLen : is_i32 srcOffset -> 0 <= dstPtr -> 0 <= dstLen < 2 ^ 31 -> dstPtr + dstLen <= blen mem ->
  exists q, same_pins p q /\ bridge_read true empty p mem handle plane srcOffset dstPtr dstLen = match plane_read p handle plane srcOffset dstLen with
                                                                                            | inl bytes => (blen bytes, q, put_at mem bytes dstPtr)
                                                                                            | inr code => (code, q, mem)
                                                                                            end.
Proof.
  intros Hs Hp Hl Hb. unfold bridge_read. rewrite guestView_in by lia. unfold directReadInto, pbind. rewrite readView_spec by done.
  destruct (plane_read p handle plane srcOffset dstLen) as [bytes|code] eqn:E; [|by exists p]. apply plane_read_length in E; [|lia]. pose proof (blen_nonneg bytes).
  unfold recordCopies, pbind, pget, pset, pret. cbn [fst snd]. rewrite subarray_whole by done. eexists. split; [|by rewrite to_int32_small by lia]. by split_and!.
Qed.
Lemma staged_read_spec empty p mem handle plane srcOffset dstPtr dstLen : is_i32 srcOffset -> 0 <= dstPtr -> 0 <= dstLen < 2 ^ 31 -> dstPtr + dstLen <= blen mem ->
  exists q, same_pins p q /\ bridge_read false empty p mem handle plane srcOffset dstPtr dstLen = match plane_read p handle plane srcOffset dstLen with
                                                                                             | inl bytes => (blen bytes, q, put_at mem bytes dstPtr)
                                                                                             | inr code => (code, q, mem)
                                                                                             end.
Proof.
  intros Hs Hp Hl Hb. unfold bridge_read, invoke. change (handler (lit "provider.readRaw") (PRead handle plane srcOffset dstLen) empty) with (Some (readRaw_op (PRead handle plane srcOffset dstLen))).
  unfold readRaw_op, pbind. rewrite readView_spec by done. destruct (plane_read p handle plane srcOffset dstLen) as [bytes|code] eqn:E.
  - apply plane_read_length in E; [|lia]. unfold recordCopies, pbind, pget, pset, pret. cbn [fst snd]. rewrite guestView_in by lia. eexists. split; [|rewrite Z.min_l by done; by rewrite subarray_all].
    by split_and!.
  - eexists. split; [|done]. by split_and!.
Qed.

Lemma staged_read_refused empty p mem handle plane srcOffset dstPtr dstLen : ~ (0 <= dstPtr /\ 0 <= dstLen /\ dstPtr + dstLen <= blen mem) ->
  exists q c, same_pins p q /\ c < 0 /\ bridge_read false empty p mem handle plane srcOffset dstPtr dstLen = (c, q, mem).
Proof.
  intros Hr. unfold bridge_read, invoke. change (handler (lit "provider.readRaw") (PRead handle plane srcOffset dstLen) empty) with (Some (readRaw_op (PRead handle plane srcOffset dstLen))).
  unfold readRaw_op, pbind at 1, readView, pinnedPlane, pbind at 1 2, pget at 1. rewrite guestView_out by done.
  assert (Hgo : forall q c, same_pins p q -> c < 0 -> exists q' c', same_pins p q' /\ c' < 0 /\ (c, q, mem) = (c', q', mem)) by (intros q c ? ?; by exists q, c).
  destruct (map_get (handles p) handle) as [e|]; [|by apply Hgo; [split_and!|]].
  destruct (at_ (planes e) (to_int32 plane)) as [b|]; [|by apply Hgo; [split_and!|]]. unfold pret at 1.
  destruct ((to_int32 srcOffset <? 0) || (blen b <? to_int32 srcOffset)); [by apply Hgo; [split_and!|]|]. unfold recordCopies, pbind, pget, pset, pret. by apply Hgo; [split_and!|].
Qed.

(** A read of a guest copies the plane, whichever way the bytes travel: when the destination lies in its memory, the call returns the number of bytes of the plane from the offset on,
    at most as many as asked for, with these bytes at the destination and nothing else changed, or the code of a bad handle, plane or offset with the memory unchanged, and the direct and
    the staged transport agree on all of it; when it does not, both return an error and leave the memory unchanged. No read changes what is pinned. *)
Theorem provider_reads_copy_planes empty p mem handle plane srcOffset dstPtr dstLen : is_i32 srcOffset -> dstLen < 2 ^ 31 ->
  exists qd qs, same_pins p qd /\ same_pins p qs /\
  let direct := bridge_read true empty p mem handle plane srcOffset dstPtr dstLen in
  let staged := bridge_read false empty p mem handle plane srcOffset dstPtr dstLen in
  (0 <= dstPtr /\ 0 <= dstLen /\ dstPtr + dstLen <= blen mem /\
   match plane_read p handle plane srcOffset dstLen with
   | inl bytes => direct = (blen bytes, qd, put_at mem bytes dstPtr) /\ staged = (blen bytes, qs, put_at mem bytes dstPtr)
   | inr code => code < 0 /\ direct = (code, qd, mem) /\ staged = (code, qs, mem)
   end) \/
  (~ (0 <= dstPtr /\ 0 <= dstLen /\ dstPtr + dstLen <= blen mem) /\ direct = (E_BOUNDS, qd, mem) /\ exists c, c < 0 /\ staged = (c, qs, mem)).
Proof.
  intros Hs Hl. destruct (decide (0 <= dstPtr /\ 0 <= dstLen /\ dstPtr + dstLen <= blen mem)) as [(H1 & H2 & H3)|Hr].
  - destruct (direct_read_spec empty p mem handle plane srcOffset dstPtr dstLen) as (qd & Hqd & Hd); try done. destruct (staged_read_spec empty p mem handle plane srcOffset dstPtr dstLen) as (qs & Hqs & Hst); try done.
    exists qd, qs. split; [done|]. split; [done|]. left. rewrite Hd, Hst. split_and!; try done. destruct (plane_read p handle plane srcOffset dstLen) eqn:E; [done|]. split; [by eapply plane_read_code|done].
  - destruct (staged_read_refused empty p mem handle plane srcOffset dstPtr dstLen Hr) as (qs & c & Hqs & Hc & Hst). exists p, qs. split; [by split_and!|]. split; [done|]. right. split; [done|]. split.
    + unfold bridge_read. by rewrite guestView_out.
    + by exists c.
Qed.

(** ** Costs *)

(** The ceiling of a request holds: an adapter whose declared cost is above it is not called, and nothing is pinned; and what is pinned did not cost more. *)
Theorem acquire_within_ceiling q p :
  (forall a, resolveAdapter q (lit "provider.acquire:" ++ default (lit "tile") (q_op q)) p = (inl a, p) -> ceiling q < orZ (a_costClass a) COST_RESIDENT ->
     exists e, acquire q p = (inr e, p)) /\
  (forall h d p', acquire q p = (inl (h, d), p') -> d_costClass d <= ceiling q /\ map_get (handles p') h = Some (Pinned (default [] (planes <$> map_get (handles p') h)) d)).
Proof.
  unfold acquire. destruct (map_get ACQUIRE_METHODS (default (lit "tile") (q_op q))) as [[m fl]|]; [|split; [intros a _ _; by eexists|done]].
  split.
  - intros a Ha Hc. unfold pbind at 1. rewrite Ha. destruct (a_acquire a m); [|by eexists]. unfold pbind, assertWithinCost. rewrite (proj2 (Z.ltb_lt _ _) Hc). by eexists.
  - intros h d p'. unfold pbind at 1. destruct (resolveAdapter q _ p) as [[a|e] p1]; [|done]. destruct (a_acquire a m) as [fn|]; [|done].
    unfold pbind at 1, assertWithinCost at 1. destruct (Z.ltb_spec (ceiling q) (orZ (a_costClass a) COST_RESIDENT)); [done|]. unfold pret at 1, pbind at 1, in_world.
    destruct (fn (with_ceiling q) (world p1)) as [[t|e] w]; cbn [fst snd]; [|done]. unfold pin. destruct (all_buffers (t_planes t)) as [[|b bs]|]; try done.
    destruct (match i_encoding (t_info t) with Some e => Some e | None => a_encoding a end) as [enc|]; [|done]. destruct (encodingLayout (Some enc)); [|done].
    unfold pbind at 1, assertWithinCost. destruct (Z.ltb_spec (ceiling q) (match i_costClass (t_info t) with Some c => c | None => orZ (a_costClass a) COST_RESIDENT end)); [done|].
    unfold pret, pbind, pget, pset. cbn [fst snd nextHandle handles]. intros [= <- <- <-]. split; [done|]. cbn [handles with_handles]. by rewrite map_get_set_eq.
Qed.

(** ** Handles *)

(** Everything that happens to a port. *)
Inductive action := ARegister (a : adapter) (k : kind_arg) | AInvoke (operation : jsstring) (ps : params) | ADirect (handle plane srcOffset length len : Z) | AReleaseAll.
Definition perform (empty : V) (p : port) (a : action) : port :=
  match a with
  | ARegister a k => (registerAdapter a k p).2
  | AInvoke operation ps => (invoke operation ps empty p).2
  | ADirect handle plane srcOffset length len => (directReadInto handle plane srcOffset length len p).2
  | AReleaseAll => (releaseAll p).2
  end.
Definition run (empty : V) (p : port) (acts : list action) : port := fold_left (perform empty) acts p.
(** An action that releases a handle. *)
Definition releases (a : action) (h : Z) : Prop :=
  match a with
  | AReleaseAll => True
  | AInvoke operation (PHandle h') | AInvoke operation (PRead h' _ _ _) => operation = lit "provider.release" /\ h' = h
  | _ => False
  end.

(** A pin is consistent with its descriptor. *)
Definition pin_ok (e : pinned) : Prop :=
  match planes e with [] => False | b :: _ => d_planeCount (pin_descriptor e) = blen (planes e) /\ d_byteLength (pin_descriptor e) = blen b /\ encodingLayout (Some (d_encoding (pin_descriptor e))) = Some (d_bytesPerElement (pin_descriptor e)) end.
Record port_ok (p : port) : Prop := {
  po_keys : NoDup (map_keys (handles p));
  po_range : forall h e, map_get (handles p) h = Some e -> 1 <= h < nextHandle p /\ pin_ok e;
  po_next : 1 <= nextHandle p;
  po_count : pinned_count (p_stats p) = blen (handles p)
}.
(** From [p] to [q] nothing that is pinned changes but by releasing it, and what is pinned anew has a new number. *)
Record moves (freed : Z -> Prop) (p q : port) : Prop := {
  mv_ok : port_ok q;
  mv_next : nextHandle p <= nextHandle q;
  mv_keeps : forall h e, map_get (handles p) h = Some e -> ~ freed h -> map_get (handles q) h = Some e;
  mv_gone : forall h, h < nextHandle p -> map_get (handles p) h = None -> map_get (handles q) h = None
}.
(** The part of the port the handles live in is the same. *)
Definition same_table (p q : port) : Prop := handles q = handles p /\ nextHandle q = nextHandle p /\ pinned_count (p_stats q) = pinned_count (p_stats p).
Definition quiet {A} (m : access A) : Prop := forall p, same_table p (m p).2.

Lemma same_moves freed p q : port_ok p -> same_table p q -> moves freed p q.
Proof.
  intros [H1 H2 H3 H4] (Eh & En & Es). constructor; [constructor; rewrite ?Eh, ?En, ?Es; done|lia|intros h e; by rewrite Eh|intros h _; by rewrite Eh].
Qed.
Lemma quiet_ret {A} (v : A) : quiet (pret v).
Proof. done. Qed.
Lemma quiet_throw {A} e : quiet (pthrow (A := A) e).
Proof. done. Qed.
Lemma quiet_lift {A} (r : A + thrown) : quiet (liftM r).
Proof. done. Qed.
Lemma quiet_world {A} (f : W -> (A + thrown) * W) : quiet (in_world f).
Proof. done. Qed.
Lemma quiet_get : quiet pget.
Proof. done. Qed.
Lemma quiet_bind {A B} (m : access A) (k : A -> access B) : quiet m -> (forall v, quiet (k v)) -> quiet (pbind m k).
Proof.
  intros Hm Hk p. unfold pbind. pose proof (Hm p) as H. destruct (m p) as [[v|e] q]; [|done]. pose proof (Hk v q) as H'. destruct H as (? & ? & ?), H' as (? & ? & ?). cbn in *. split_and!; congruence.
Qed.
(** Reading the port and writing it back with the same table. *)
Lemma quiet_update {A} (f : port -> port) (k : port -> access A) : (forall p, same_table p (f p)) -> (forall p, quiet (k p)) -> quiet (pbind pget (fun p => pbind (pset (f p)) (fun _ => k p))).
Proof. intros Hf Hk p. unfold pbind, pget, pset. pose proof (Hf p) as (? & ? & ?). pose proof (Hk p (f p)) as (? & ? & ?). split_and!; congruence. Qed.
#[local] Hint Resolve quiet_ret quiet_throw quiet_lift quiet_world quiet_get : quiet.
Ltac quietly := cbv zeta; repeat (first [solve [auto with quiet]|apply quiet_bind; [|intros ?]|case_match]).

Lemma quiet_find id op : quiet (findAdapter id op).
Proof. unfold findAdapter. quietly. Qed.
#[local] Hint Resolve quiet_find : quiet.
Lemma quiet_resolve q op : quiet (resolveAdapter q op).
Proof. unfold resolveAdapter. quietly. Qed.
Lemma quiet_cost a c q : quiet (assertWithinCost a c q).
Proof. unfold assertWithinCost. quietly. Qed.
Lemma quiet_plane h pl : quiet (pinnedPlane h pl).
Proof. unfold pinnedPlane. quietly. Qed.
#[local] Hint Resolve quiet_plane : quiet.
Lemma quiet_view h pl o n : quiet (readView h pl o n).
Proof. unfold readView. quietly. Qed.
Lemma quiet_copies b c : quiet (recordCopies b c).
Proof. intros p. done. Qed.
#[local] Hint Resolve quiet_resolve quiet_cost quiet_view quiet_copies : quiet.
Lemma quiet_direct h pl o n l : quiet (directReadInto h pl o n l).
Proof. unfold directReadInto. quietly. Qed.
Lemma quiet_register a k : quiet (registerAdapter a k).
Proof. unfold registerAdapter. quietly. Qed.

Lemma quiet_then {A B} (m : access A) (k : A -> access B) freed p : port_ok p -> quiet m -> (forall v q, port_ok q -> moves freed q (k v q).2) -> moves freed p (pbind m k p).2.
Proof.
  intros Hp Hm Hk. pose proof (Hm p) as Hs. unfold pbind. destruct (m p) as [[v|e] q]; [|by apply same_moves].
  destruct (same_moves freed p q Hp Hs) as [Hq _ _ _]. destruct Hs as (Eh & En & _). destruct (Hk v q Hq) as [H1 H2 H3 H4]. constructor; [done|cbn in *; lia|..].
  - intros h e Hh. apply H3. cbn in Eh. by rewrite Eh.
  - intros h Hlt Hn. apply H4; cbn in *; [lia|by rewrite Eh].
Qed.
Lemma pin_moves a t q fl freed p : port_ok p -> moves freed p (pin a t q fl p).2.
Proof.
  intros Hp. unfold pin. destruct (all_buffers (t_planes t)) as [[|b bs]|] eqn:Eb; [by apply same_moves..| |by apply same_moves].
  destruct (match i_encoding (t_info t) with Some e => Some e | None => a_encoding a end) as [enc|]; [|by apply same_moves]. destruct (encodingLayout (Some enc)) as [n|] eqn:El; [|by apply same_moves].
  cbv zeta. apply quiet_then; [done|apply quiet_cost|]. clear p Hp. intros _ p [H1 H2 H3 H4]. unfold pbind, pget, pset, pret. cbn [snd fst]. unfold with_handles.
  assert (Hnew : map_get (handles p) (nextHandle p) = None). { destruct (map_get (handles p) (nextHandle p)) as [e|] eqn:E; [|done]. apply H2 in E. lia. }
  constructor; cbn [handles nextHandle p_stats pinned_count]; [|lia| |].
  - constructor; cbn [handles nextHandle p_stats pinned_count]; [by apply map_set_NoDup| |lia|done].
    intros h e. rewrite map_get_set. case_decide as Hd.
    + subst h. intros [= <-]. split; [lia|]. by split_and!.
    + intros He. destruct (H2 h e He). split; [lia|done].
  - intros h e He _. rewrite map_get_set. case_decide; [|done]. subst h. congruence.
  - intros h Hh Hn. rewrite map_get_set. case_decide; [lia|done].
Qed.
Lemma acquire_moves q freed p : port_ok p -> moves freed p (acquire q p).2.
Proof.
  intros Hp. unfold acquire. destruct (map_get ACQUIRE_METHODS _) as [[m fl]|]; [|by apply same_moves]. apply quiet_then; [done|apply quiet_resolve|]. clear p Hp. intros a p Hp.
  destruct (a_acquire a m) as [fn|]; [|by apply same_moves]. apply quiet_then; [done|apply quiet_cost|]. clear p Hp. intros _ p Hp.
  apply quiet_then; [done|apply quiet_world|]. clear p Hp. intros t p Hp. by apply pin_moves.
Qed.

Lemma unpin_moves h freed p : port_ok p -> freed h -> moves freed p (release h p).2.
Proof.
  intros Hp Hf. pose proof Hp as [H1 H2 H3 H4]. unfold release, pbind, pget. destruct (map_has (handles p) h); [|by apply same_moves]. cbv zeta. unfold pset, pret, with_handles. cbn [snd fst].
  constructor; cbn [handles nextHandle]; [|lia| |].
  - constructor; cbn [handles nextHandle p_stats pinned_count]; [by apply map_delete_NoDup| |done|done]. intros k e. rewrite map_get_delete. case_decide; [done|]. apply H2.
  - intros k e He Hk. rewrite map_get_delete. case_decide; [by subst|done].
  - intros k _ Hn. rewrite map_get_delete. by case_decide.
Qed.
Lemma moves_bind {A B} (m : access A) (k : A -> access B) freed p : moves freed p (m p).2 -> (forall v, quiet (k v)) -> moves freed p (pbind m k p).2.
Proof.
  intros [H1 H2 H3 H4] Hk. unfold pbind. destruct (m p) as [[v|e] q]; [|done]. cbn in *. destruct (Hk v q) as (Eh & En & Es). destruct H1 as [G1 G2 G3 G4].
  constructor; [constructor; rewrite ?Eh, ?En, ?Es; done|lia|rewrite Eh; done|rewrite Eh; done].
Qed.
Lemma set_error_moves freed p q e : moves freed p q -> moves freed p (set_error q e).
Proof. intros [[H1 H2 H3 H4] ? ? ?]. constructor; done. Qed.

(** The handlers that touch the table of handles are acquire and release. *)
Lemma quiet_list q : quiet (list_op q).
Proof. unfold list_op. quietly. Qed.
Lemma quiet_select q : quiet (select_op q).
Proof. unfold select_op. quietly. Qed.
Lemma quiet_configure id v empty keys : quiet (configure_op id v empty keys).
Proof. unfold configure_op. quietly. Qed.
Lemma quiet_availability q : quiet (availability_op q).
Proof. unfold availability_op. quietly. Qed.
Lemma quiet_prefetch q : quiet (prefetch_op q).
Proof. unfold prefetch_op. quietly. Qed.
Lemma quiet_await q : quiet (await_op q).
Proof. unfold await_op. quietly. Qed.
Lemma quiet_raw ps : quiet (readRaw_op ps).
Proof. unfold readRaw_op. quietly. Qed.
#[local] Hint Resolve quiet_list quiet_select quiet_configure quiet_availability quiet_prefetch quiet_await quiet_raw : quiet.
Lemma handler_moves operation ps empty h freed p : handler operation ps empty = Some h -> port_ok p -> (forall k, releases (AInvoke operation ps) k -> freed k) -> moves freed p (h p).2.
Proof.
  intros Hh Hp Hf. assert (Hquiet : forall m : access reply, quiet m -> moves freed p (m p).2) by (intros m Hm; apply same_moves; [done|apply Hm]).
  unfold handler in Hh. repeat match type of Hh with (if ?b then _ else _) = _ => destruct b eqn:?; [injection Hh as <-|] end; try done; try solve [apply Hquiet; quietly].
  - apply moves_bind; [by apply acquire_moves|]. intros v. quietly.
  - unfold release_op. apply moves_bind; [|intros v; quietly].
    match goal with E : str_eqb operation (lit "provider.release") = true |- _ => apply str_eqb_eq in E as -> end.
    destruct ps as [q|id v keys|k pl o n|k|]; [by apply same_moves..|apply unpin_moves; [done|by apply Hf]|apply unpin_moves; [done|by apply Hf]|by apply same_moves].
Qed.
Lemma perform_moves empty p a freed : port_ok p -> (forall k, releases a k -> freed k) -> moves freed p (perform empty p a).
Proof.
  intros Hp Hf. destruct a as [a k|operation ps|handle plane srcOffset length len|]; cbn [perform].
  - apply same_moves; [done|apply quiet_register].
  - unfold invoke. destruct (handler operation ps empty) as [h|] eqn:E; [|by apply same_moves]. pose proof (handler_moves operation ps empty h freed p E Hp Hf) as Hm.
    destruct (h p) as [[r|e] q]; by apply set_error_moves.
  - apply same_moves; [done|apply quiet_direct].
  - pose proof Hp as [H1 H2 H3 H4]. unfold releaseAll, pbind, pget, pset, with_handles. cbn [snd]. constructor; cbn [handles nextHandle]; [|lia| |done].
    + constructor; cbn [handles nextHandle p_stats pinned_count]; [constructor|done|done|done].
    + intros h e _ Hn. destruct Hn. by apply Hf.
Qed.

(** C29. A handle means what was pinned under it until it is released, and nothing afterwards. In any run of registrations, operations and reads of a port: all handles are positive and below the
    next one, the count of pinned entries is exact and every entry agrees with its descriptor; an entry that is not released stays as it is; and a number that has been given out and released
    is never given out again. *)
Theorem handles_mean_their_pins empty w acts acts' h e :
  let p := run empty (createPort w) acts in
  let q := run empty p acts' in
  port_ok p /\ port_ok q /\
  (map_get (handles p) h = Some e -> Forall (fun a => ~ releases a h) acts' -> map_get (handles q) h = Some e) /\
  (h < nextHandle p -> map_get (handles p) h = None -> map_get (handles q) h = None).
Proof.
  assert (Hfresh : port_ok (createPort w)) by (constructor; [constructor|done|done|done]).
  assert (Hrun : forall l p, port_ok p -> port_ok (run empty p l)).
  { induction l as [|a l IH]; intros p Hp; [done|]. cbn. apply IH. by destruct (perform_moves empty p a (fun _ => True) Hp). }
  intros p q. split; [by apply Hrun|]. split; [by apply Hrun, Hrun|]. pose proof (Hrun acts _ Hfresh : port_ok p) as Hp. unfold q. clear q. generalize dependent p. clear Hfresh Hrun. intros p Hp.
  split.
  - intros He Hf. revert p Hp He. induction Hf as [|a l Ha _ IH]; intros p Hp He; [done|]. cbn. destruct (perform_moves empty p a (fun k => releases a k) Hp ltac:(done)) as [H1 H2 H3 H4].
    apply IH; [done|by apply H3].
  - revert p Hp. induction acts' as [|a l IH]; intros p Hp Hlt Hn; [done|]. cbn. destruct (perform_moves empty p a (fun _ => True) Hp ltac:(done)) as [H1 H2 H3 H4].
    apply IH; [done|lia|by apply H4].
Qed.
End access.

(** ** A port with one adapter that counts how often it is asked *)

Definition no_info : tile_info := TileInfo None (Some 2) None None None (Some 3) None None None None None None None None None None.
Definition dem_adapter : adapter (W := nat) (V := unit) :=
  Adapter (lit "dem") (KindNumber 0) None true None None None None (Some 1) None None false None
    (fun m => match m with AcquireTile => Some (fun _ n => (inl (Tile [Some [1; 2; 3; 4; 5; 6; 7; 8]] no_info), S n)) | _ => None end) None None None None None.
Definition any_terrain : request (V := unit) := Request None None None (TextKind (lit "Terrain")) None None tt.
Definition dem_acts : list (action (W := nat)) := [ARegister dem_adapter (TextKind (lit "terrain")); AInvoke (lit "provider.acquire") (PRequest any_terrain)].
Definition dem_port : port := run tt (createPort 0%nat) dem_acts.
Definition guest_memory : list Z := repeat 0 200.

Lemma provider_reads_copy_planes_witness :
  exists q, bridge_read false tt dem_port guest_memory 1 0 2 10 100 = (6, q, put_at guest_memory [3; 4; 5; 6; 7; 8] 10).
Proof.
  destruct (provider_reads_copy_planes tt dem_port guest_memory 1 0 2 10 100) as (qd & qs & _ & _ & [(_ & _ & _ & H)|(H & _)]); [unfold is_i32; lia|lia| |].
  - exists qs. exact (proj2 H).
  - exfalso. apply H. vm_compute. split_and!; congruence.
Defined.
Lemma acquire_within_ceiling_witness :
  exists d, (acquire any_terrain (run tt (createPort 0%nat) (take 1 dem_acts))).1 = inl (1, d) /\ d_costClass d <= 1.
Proof.
  destruct (acquire any_terrain (run tt (createPort 0%nat) (take 1 dem_acts))) as [[[h d]|e] p'] eqn:E; [|by vm_compute in E].
  pose proof (proj1 (proj2 (acquire_within_ceiling any_terrain (run tt (createPort 0%nat) (take 1 dem_acts))) h d p' E)) as H. exists d. split; [|exact H]. vm_compute in E. by injection E as <- _ _.
Defined.
Lemma handles_mean_their_pins_witness :
  exists e, map_get (handles (run tt dem_port [AInvoke (lit "provider.release") (PHandle 2); ADirect 1 0 0 8 8])) 1 = Some e /\ planes e = [[1; 2; 3; 4; 5; 6; 7; 8]].
Proof.
  destruct (map_get (handles dem_port) 1) as [e|] eqn:E; [|by vm_compute in E]. exists e. split; [|vm_compute in E; by injection E as <-].
  apply (handles_mean_their_pins tt 0%nat dem_acts [AInvoke (lit "provider.release") (PHandle 2); ADirect 1 0 0 8 8] 1 e); [exact E|].
  constructor; [intros [_ H]; discriminate|]. constructor; [by intros H|constructor].
Defined.

(** *** Defects *)

Definition parse_empty (s : jsstring) : option (parsed_request (V := unit)) := if bool_decide (s = lit "{}") then Some (ParsedRequest any_terrain None 0) else None.
Definition request_memory : list Z := lit "{}" ++ repeat 0 200.

(** A descriptor pointer outside the memory is only noticed when the tile has been pinned: the guest gets an error and no handle, and the pin stays. *)
Theorem refused_acquire_stays_pinned :
  let r := bridge_acquire parse_empty true tt (run tt (createPort 0%nat) (take 1 dem_acts)) request_memory 0 2 1000 in
  r.1.1 = E_BOUNDS /\ pinned_count (p_stats r.1.2) = 1 /\ r.2 = request_memory.
Proof. vm_compute. split_and!; reflexivity. Qed.
(** The transports do not agree on the code when two things are wrong: the direct one looks at the memory first, the staged one at the handle. *)
Theorem transports_disagree_on_codes :
  (bridge_read true tt dem_port guest_memory 7 0 0 1000 8).1.1 = E_BOUNDS /\ (bridge_read false tt dem_port guest_memory 7 0 0 1000 8).1.1 = E_BAD_HANDLE.
Proof. vm_compute. split; reflexivity. Qed.
(** A failed read through the direct transport leaves no trace in provider.lastError; through the staged one it does. *)
Theorem direct_failure_not_recorded :
  lastError (bridge_read true tt dem_port guest_memory 7 0 0 0 8).1.2 = None /\ lastError (bridge_read false tt dem_port guest_memory 7 0 0 0 8).1.2 <> None.
Proof. split; [vm_compute; reflexivity|vm_compute; congruence]. Qed.
(** An adapter registered again under another kind stays selected for the old one. *)
Theorem selected_adapter_of_another_kind :
  let p := run tt (createPort 0%nat) [ARegister dem_adapter (TextKind (lit "terrain")); ARegister dem_adapter (TextKind (lit "imagery"))] in
  exists a, (resolveAdapter any_terrain (lit "provider.await") p).1 = inl a /\ a_kind a = KindNumber KIND_IMAGERY.
Proof. eexists. split; [vm_compute; reflexivity|vm_compute; reflexivity]. Qed.
(** The name of a property every object has is taken for a kind. *)
Theorem inherited_name_is_a_kind : normalizeKind (TextKind (lit "Constructor")) = inl (Some (KindInherited (lit "constructor"))).
Proof. vm_compute. reflexivity. Qed.
