(* ===== verification/JsJson.v ===== *)
(** [JSON.stringify] on plain values: null, booleans, safe integers, strings, arrays and objects, whose properties are listed in
    their order.

    Strings are quoted as the language does it: the two-letter escapes, [\u] and four lower-case hex digits for the other
    control characters and for lone surrogates, every other unit as it is. The main results are that the text determines the
    value ([json_text_inj]), whatever follows it in a larger text, and that UTF-8 keeps the text apart ([json_bytes_inj]). *)
From Stdlib Require Import ZArith Lia.
From stdpp Require Import base list strings numbers.
From S2P Require Import Prelude JsText JsNumber.
Open Scope Z_scope.

Inductive json := JNull | JBool (b : bool) | JNumber (z : Z) | JString (s : jsstring) | JArray (l : list json) | JObject (l : list (jsstring * json)).

(** Decimal digits, lowest first, and the text of an integer. *)
Fixpoint digits_of (fuel : nat) (z : Z) : list Z :=
  match fuel with O => [] | S fuel => (z mod 10) :: (if z <? 10 then [] else digits_of fuel (z / 10)) end.
Definition nat_text (z : Z) : jsstring := map (fun d => d + 48) (rev (digits_of (S (Z.to_nat (Z.log2 z))) z)).
Definition int_text (z : Z) : jsstring := if z <? 0 then 45 :: nat_text (- z) else nat_text z.

Definition hex_unit (d : Z) : Z := if d <? 10 then d + 48 else d + 87.
Definition unicode_escape (u : Z) : jsstring := [92; 117; hex_unit (u / 4096); hex_unit (u / 256 mod 16); hex_unit (u / 16 mod 16); hex_unit (u mod 16)].
Definition quote_unit (u : Z) : jsstring :=
  if u =? 8 then [92; 98] else if u =? 9 then [92; 116] else if u =? 10 then [92; 110] else if u =? 12 then [92; 102]
  else if u =? 13 then [92; 114] else if u =? 34 then [92; 34] else if u =? 92 then [92; 92]
  else if (u <? 32) || is_high u || is_low u then unicode_escape u else [u].
Fixpoint quote_body (s : jsstring) : jsstring :=
  match s with
  | [] => []
  | u :: s' =>
      match s' with
      | v :: s'' => if is_high u && is_low v then u :: v :: quote_body s'' else quote_unit u ++ quote_body s'
      | [] => quote_unit u
      end
  end.
Definition quote (s : jsstring) : jsstring := 34 :: quote_body s ++ [34].

(** The texts of a list, with commas between them. *)
Definition commas {A : Type} (f : A -> jsstring) (l : list A) : jsstring :=
  match l with [] => [] | x :: l => f x ++ flat_map (fun y => 44 :: f y) l end.

Fixpoint stringify (j : json) : jsstring :=
  match j with
  | JNull => lit "null"
  | JBool b => if b then lit "true" else lit "false"
  | JNumber z => int_text z
  | JString s => quote s
  | JArray l => 91 :: commas stringify l ++ [93]
  | JObject l => 123 :: commas (fun e => quote e.1 ++ 58 :: stringify e.2) l ++ [125]
  end.

(** ** The text of an integer *)

Definition digit (c : Z) : bool := (48 <=? c) && (c <=? 57).

Lemma digits_of_ok fuel z : 0 <= z -> Forall (fun d => 0 <= d < 10) (digits_of fuel z).
Proof.
  revert z. induction fuel as [|fuel IH]; intros z Hz; cbn; [done|]. constructor; [apply Z.mod_pos_bound; lia|].
  destruct (z <? 10); [done|]. apply IH. apply Z.div_pos; lia.
Qed.

Lemma digits_of_value fuel z : 0 <= z < 10 ^ Z.of_nat fuel -> foldr (fun d n => n * 10 + d) 0 (digits_of fuel z) = z.
Proof.
  revert z. induction fuel as [|fuel IH]; intros z Hz; [cbn in *; lia|].
  rewrite Nat2Z.inj_succ, Z.pow_succ_r in Hz by lia. cbn. destruct (Z.ltb_spec z 10); cbn.
  - rewrite Z.mod_small; lia.
  - rewrite IH; [pose proof (Z.div_mod z 10); lia|]. split; [apply Z.div_pos; lia|]. apply Z.div_lt_upper_bound; lia.
Qed.

Definition text_value (t : jsstring) : Z := from_digits 10 (map (fun c => c - 48) t).

Lemma nat_text_value z : 0 <= z -> text_value (nat_text z) = z.
Proof.
  intros Hz. unfold text_value, nat_text, from_digits. rewrite map_map.
  rewrite (map_ext _ id) by (intros; unfold id; lia). rewrite map_id, <- (fold_left_rev_right (fun d n => n * 10 + d)), rev_involutive.
  apply digits_of_value. split; [done|]. pose proof (Z.log2_nonneg z) as Hl.
  destruct (decide (z = 0)) as [->|]; [done|]. pose proof (Z.log2_spec z). 
  apply Z.lt_le_trans with (2 ^ Z.succ (Z.log2 z)); [lia|]. rewrite Nat2Z.inj_succ, Z2Nat.id by done. apply Z.pow_le_mono_l. lia.
Qed.

Lemma nat_text_digits z : 0 <= z -> Forall (fun c => digit c = true) (nat_text z).
Proof.
  intros Hz. unfold nat_text. apply Forall_map, Forall_rev. eapply Forall_impl; [|exact (digits_of_ok _ z Hz)].
  intros d Hd. unfold digit. cbn in *. bool_lia; done.
Qed.

Lemma nat_text_cons z : 0 <= z -> exists c t, nat_text z = c :: t /\ digit c = true.
Proof.
  intros Hz. pose proof (nat_text_digits z Hz) as H. pose proof (length_map (fun d => d + 48) (rev (digits_of (S (Z.to_nat (Z.log2 z))) z))) as Hl.
  fold (nat_text z) in Hl. rewrite length_rev in Hl. destruct (nat_text z) as [|c t]; [by cbn in Hl|]. inversion H. eauto.
Qed.

(** Runs of digits end where the digits end. *)
Lemma digits_end a b r r' :
  Forall (fun c => digit c = true) a -> Forall (fun c => digit c = true) b ->
  (forall c, head r = Some c -> digit c = false) -> (forall c, head r' = Some c -> digit c = false) -> a ++ r = b ++ r' -> a = b /\ r = r'.
Proof.
  intros Ha. revert b. induction Ha as [|x a Hx Ha IH]; intros [|y b] Hb Hr Hr' E; cbn in E.
  - done.
  - subst r. inversion Hb as [|? ? Hy]. rewrite (Hr y) in Hy; [done|done].
  - subst r'. rewrite (Hr' x) in Hx; [done|done].
  - injection E as -> E. apply Forall_inv_tail in Hb. by destruct (IH b Hb Hr Hr' E) as [-> ->].
Qed.

(** What may follow a value in a text: nothing, a comma or a closing bracket. *)
Definition closes (r : jsstring) : Prop := match r with [] => True | c :: _ => c = 44 \/ c = 93 \/ c = 125 end.

Lemma closes_no_digit r c : closes r -> head r = Some c -> digit c = false.
Proof. destruct r as [|x r]; [done|]. intros H [= ->]. cbn in H. by destruct H as [-> | [-> | ->]]. Qed.

Lemma nat_text_inj y z r r' : 0 <= y -> 0 <= z -> closes r -> closes r' -> nat_text y ++ r = nat_text z ++ r' -> y = z /\ r = r'.
Proof.
  intros Hy Hz Hr Hr' E. apply digits_end in E as [E ->]; eauto using nat_text_digits, closes_no_digit.
  apply (f_equal text_value) in E. by rewrite !nat_text_value in E.
Qed.

Lemma int_text_inj y z r r' : closes r -> closes r' -> int_text y ++ r = int_text z ++ r' -> y = z /\ r = r'.
Proof.
  intros Hr Hr' E. unfold int_text in E.
  destruct (Z.ltb_spec y 0), (Z.ltb_spec z 0); cbn [app] in E.
  - injection E as E. apply nat_text_inj in E; [|lia..|done|done]. split; [lia|tauto].
  - destruct (nat_text_cons z) as (c & t & Et & Hc); [lia|]. rewrite Et in E. by injection E as <- _.
  - destruct (nat_text_cons y) as (c & t & Et & Hc); [lia|]. rewrite Et in E. by injection E as -> _.
  - by apply nat_text_inj in E.
Qed.

(** ** Quoted strings *)

Definition unhex (c : Z) : Z := if c <? 58 then c - 48 else c - 87.
Definition letter_escape (c : Z) : Z :=
  if c =? 98 then 8 else if c =? 116 then 9 else if c =? 110 then 10 else if c =? 102 then 12 else if c =? 114 then 13 else c.
Definition prepend (u : Z) (o : option (jsstring * jsstring)) : option (jsstring * jsstring) :=
  match o with Some (s, r) => Some (u :: s, r) | None => None end.

(** Reads the inside of a quoted string and its closing quote: the string, and what follows. *)
Fixpoint unquote (t : jsstring) : option (jsstring * jsstring) :=
  match t with
  | [] => None
  | c :: t =>
      if c =? 34 then Some ([], t)
      else if c =? 92 then
        match t with
        | x :: t =>
            if x =? 117 then
              match t with
              | a :: b :: c :: d :: t => prepend (unhex a * 4096 + unhex b * 256 + unhex c * 16 + unhex d) (unquote t)
              | _ => None
              end
            else prepend (letter_escape x) (unquote t)
        | [] => None
        end
      else prepend c (unquote t)
  end.

Lemma unhex_hex d : 0 <= d < 16 -> unhex (hex_unit d) = d.
Proof. intros Hd. unfold hex_unit, unhex. bool_lia; done. Qed.

Lemma unquote_escape u r : is_unit u -> unquote (unicode_escape u ++ r) = prepend u (unquote r).
Proof.
  intros Hu. unfold is_unit in Hu. cbn [unicode_escape app unquote]. change (92 =? 34) with false. change (92 =? 92) with true. change (117 =? 117) with true. cbn iota.
  pose proof (Z.div_lt_upper_bound u 4096 16) as H1. pose proof (Z.div_pos u 4096) as H2.
  rewrite !unhex_hex by (first [apply Z.mod_pos_bound; lia | lia]).
  f_equal. replace (u / 4096) with (u / 16 / 16 / 16) by by rewrite !Z.div_div. replace (u / 256) with (u / 16 / 16) by by rewrite !Z.div_div.
  pose proof (Z.div_mod u 16). pose proof (Z.div_mod (u / 16) 16). pose proof (Z.div_mod (u / 16 / 16) 16). lia.
Qed.

Lemma unquote_unit u r : is_unit u -> unquote (quote_unit u ++ r) = prepend u (unquote r).
Proof.
  intros Hu. unfold quote_unit.
  repeat (match goal with |- context [?a =? ?b] => destruct (Z.eqb_spec a b) as [-> |] end; [done|]).
  destruct ((u <? 32) || is_high u || is_low u); [by apply unquote_escape|].
  cbn. by rewrite !(proj2 (Z.eqb_neq _ _)).
Qed.

Lemma quote_body_step u v s : quote_body (u :: v :: s) = if is_high u && is_low v then u :: v :: quote_body s else quote_unit u ++ quote_body (v :: s).
Proof. done. Qed.

Lemma unquote_quote s r : Forall is_unit s -> unquote (quote_body s ++ 34 :: r) = Some (s, r).
Proof.
  enough (Hn : forall n s, (length s <= n)%nat -> Forall is_unit s -> unquote (quote_body s ++ 34 :: r) = Some (s, r)) by eauto.
  clear s. intros n. induction n as [|n IH]; intros s Hn Hs; (destruct s as [|u s]; [done|]); cbn in Hn; [lia|].
  pose proof (Forall_inv Hs) as Hu. apply Forall_inv_tail in Hs. destruct s as [|v s].
  - cbn [quote_body]. rewrite unquote_unit by done. done.
  - rewrite quote_body_step. destruct (is_high u && is_low v) eqn:E.
    + apply andb_true_iff in E as [E1 E2]. apply Forall_inv_tail in Hs. unfold is_high, is_low in E1, E2. cbn [app unquote].
      rewrite !(proj2 (Z.eqb_neq _ _)) by bool_lia. rewrite IH; [done|cbn in Hn; lia|done].
    + rewrite <- app_assoc, unquote_unit by done. by rewrite IH by (cbn in *; auto with lia).
Qed.

Lemma quote_inj s s' r r' : Forall is_unit s -> Forall is_unit s' -> quote s ++ r = quote s' ++ r' -> s = s' /\ r = r'.
Proof.
  intros Hs Hs' E. unfold quote in E. cbn in E. injection E as E. rewrite <- !app_assoc in E. cbn in E.
  apply (f_equal unquote) in E. rewrite !unquote_quote in E by done. by injection E as -> ->.
Qed.

(** ** Texts of values *)

Section json_induction.
Variables (P : json -> Prop).
Hypotheses (HNull : P JNull) (HBool : forall b, P (JBool b)) (HNumber : forall z, P (JNumber z)) (HString : forall s, P (JString s))
  (HArray : forall l, Forall P l -> P (JArray l)) (HObject : forall l, Forall (fun e => P e.2) l -> P (JObject l)).

Fixpoint json_rect_nested (j : json) : P j :=
  match j with
  | JNull => HNull | JBool b => HBool b | JNumber z => HNumber z | JString s => HString s
  | JArray l => HArray l ((fix go l := match l return Forall P l with [] => Forall_nil _ | x :: l => Forall_cons _ _ _ (json_rect_nested x) (go l) end) l)
  | JObject l => HObject l ((fix go l := match l return Forall (fun e => P e.2) l with [] => Forall_nil _ | x :: l => Forall_cons _ _ _ (json_rect_nested x.2) (go l) end) l)
  end.
End json_induction.

(** The strings of a value are strings of UTF-16 units. *)
Definition unitsb (s : jsstring) : bool := forallb (fun u => (0 <=? u) && (u <? 65536)) s.
Fixpoint units_ok (j : json) : bool :=
  match j with
  | JString s => unitsb s
  | JArray l => forallb units_ok l
  | JObject l => forallb (fun e => unitsb e.1 && units_ok e.2) l
  | _ => true
  end.

Lemma unitsb_ok s : unitsb s = true -> Forall is_unit s.
Proof. unfold unitsb. rewrite forallb_forall, List.Forall_forall. intros H x Hx. specialize (H x Hx). unfold is_unit. lia. Qed.

Lemma int_text_cons z : exists c t, int_text z = c :: t /\ (c = 45 \/ digit c = true).
Proof.
  unfold int_text. destruct (Z.ltb_spec z 0); [eauto|]. destruct (nat_text_cons z) as (c & t & -> & Hc); eauto.
Qed.

(** The text of a value starts with a unit that closes nothing and shows the kind of the value. *)
Definition opens (t : jsstring) : Prop := exists c t', t = c :: t' /\ ~ closes [c].
Definition kind (j : json) : Z := match j with JNull => 0 | JBool _ => 1 | JNumber _ => 2 | JString _ => 3 | JArray _ => 4 | JObject _ => 5 end.
Definition kind_of_first (c : Z) : Z :=
  if c =? 110 then 0 else if (c =? 116) || (c =? 102) then 1 else if c =? 34 then 3 else if c =? 91 then 4 else if c =? 123 then 5 else 2.

Lemma stringify_first j : exists c t, stringify j = c :: t /\ kind_of_first c = kind j /\ ~ closes [c].
Proof.
  destruct j as [|b|z|s|l|l]; try (eexists _, _; split_and!; [done..|cbn; lia]).
  - exists 110, (lit "ull"). split_and!; [done..|cbn; lia].
  - destruct b; [exists 116, (lit "rue")|exists 102, (lit "alse")]; (split_and!; [done..|cbn; lia]).
  - destruct (int_text_cons z) as (c & t & E & Hc). exists c, t. split; [done|]. unfold digit, kind_of_first in *. cbn. bool_lia; done.
Qed.

Lemma stringify_opens j : opens (stringify j).
Proof. destruct (stringify_first j) as (c & t & ? & _ & ?). by exists c, t. Qed.

Lemma stringify_kind j j' r r' : stringify j ++ r = stringify j' ++ r' -> kind j = kind j'.
Proof.
  destruct (stringify_first j) as (c & t & -> & <- & _), (stringify_first j') as (c' & t' & -> & <- & _). by intros [= -> _].
Qed.

Section commas_inj.
Context {A : Type} (f : A -> jsstring) (Q : A -> Prop).
(** Where a text of [f] ends is known from what follows it. *)
Definition delimited (x : A) : Prop :=
  Q x -> forall y r r', Q y -> closes r -> closes r' -> f x ++ r = f y ++ r' -> x = y /\ r = r'.

Lemma comma_tail_inj d l l' r r' :
  d = 93 \/ d = 125 -> Forall delimited l -> Forall Q l -> Forall Q l' ->
  flat_map (fun y => 44 :: f y) l ++ d :: r = flat_map (fun y => 44 :: f y) l' ++ d :: r' -> l = l' /\ r = r'.
Proof.
  intros Hd HD. revert l'. induction HD as [|x l Hx HD IH]; intros [|y l'] HQ HQ' E.
  - by injection E as ->.
  - injection E as -> _. lia.
  - injection E as <- _. lia.
  - cbn in E. injection E as E. rewrite <- !app_assoc in E. inversion_clear HQ. inversion_clear HQ'.
    assert (Hc : forall m s, closes (flat_map (fun y => 44 :: f y) m ++ d :: s)) by (intros [|? ?] ?; cbn; lia).
    destruct (Hx ltac:(done) y _ _ ltac:(done) (Hc _ _) (Hc _ _) E) as [-> E']. by destruct (IH l') as [-> ->].
Qed.

Lemma commas_inj d l l' r r' :
  d = 93 \/ d = 125 -> (forall x, opens (f x)) -> Forall delimited l -> Forall Q l -> Forall Q l' ->
  commas f l ++ d :: r = commas f l' ++ d :: r' -> l = l' /\ r = r'.
Proof.
  intros Hd Ho HD HQ HQ' E. destruct l as [|x l], l' as [|y l']; cbn in E.
  - by injection E as ->.
  - destruct (Ho y) as (c & t & Ec & Hc). rewrite Ec in E. injection E as -> _. cbn in Hc. lia.
  - destruct (Ho x) as (c & t & Ec & Hc). rewrite Ec in E. injection E as <- _. cbn in Hc. lia.
  - apply (comma_tail_inj d (x :: l) (y :: l')); [done..|]. cbn. by rewrite E.
Qed.
End commas_inj.

Lemma Forall_of_forallb {A : Type} (p : A -> bool) l : forallb p l = true -> Forall (fun x => p x = true) l.
Proof. rewrite forallb_forall, List.Forall_forall. done. Qed.

Lemma entry_delimited e :
  delimited stringify (fun j => units_ok j = true) e.2 ->
  delimited (fun e : jsstring * json => quote e.1 ++ 58 :: stringify e.2) (fun e => unitsb e.1 && units_ok e.2 = true) e.
Proof.
  destruct e as [k j]. intros HD HQ [k' j'] r r' HQ' Hr Hr' E. cbn [fst snd] in *. apply andb_true_iff in HQ as [Hk Hj], HQ' as [Hk' Hj'].
  rewrite <- !app_assoc in E. apply quote_inj in E as [-> E]; [|by apply unitsb_ok..]. cbn in E. injection E as E.
  by destruct (HD Hj j' r r' Hj' Hr Hr' E) as [-> ->].
Qed.

(** A text determines its value, and where it ends. *)
Lemma json_text_inj j : delimited stringify (fun j => units_ok j = true) j.
Proof.
  induction j as [|b|z|s|l IH|l IH] using json_rect_nested; intros HQ j' r r' HQ' Hr Hr' E.
  all: pose proof (stringify_kind _ _ _ _ E) as Ek; destruct j' as [|b'|z'|s'|l'|l']; try discriminate Ek; clear Ek.
  - by injection E as ->.
  - destruct b, b'; try discriminate E; by injection E as ->.
  - cbn [stringify] in E. by apply int_text_inj in E as [-> ->].
  - cbn [stringify] in E. apply quote_inj in E as [-> ->]; [done|by apply unitsb_ok..].
  - cbn in E. injection E as E. rewrite <- !app_assoc in E.
    apply (commas_inj stringify (fun j => units_ok j = true)) in E as [-> ->]; eauto using stringify_opens, Forall_of_forallb.
  - cbn in E. injection E as E. rewrite <- !app_assoc in E.
    apply (commas_inj _ (fun e => unitsb e.1 && units_ok e.2 = true)) in E as [-> ->]; eauto using Forall_of_forallb.
    + intros e. eexists 34, _. split; [reflexivity|cbn; lia].
    + eapply Forall_impl; [|exact IH]. intros e. apply entry_delimited.
Qed.

(** ** Texts as bytes *)

Lemma Forall_mp {A : Type} (P Q : A -> Prop) l : Forall (fun x => P x -> Q x) l -> Forall P l -> Forall Q l.
Proof. induction 1; intros H'; inversion_clear H'; constructor; auto. Qed.

Lemma well_formed_app a b : isWellFormed a = true -> isWellFormed b = true -> isWellFormed (a ++ b) = true.
Proof.
  intros Ha Hb. enough (Hn : forall n a, (length a <= n)%nat -> isWellFormed a = true -> isWellFormed (a ++ b) = true) by eauto.
  clear a Ha. intros n. induction n as [|n IH]; intros a Hn Ha; (destruct a as [|u a]; [done|]); cbn in Hn; [lia|].
  cbn in Ha |- *. destruct (is_high u).
  - destruct a as [|v a]; [done|]. apply andb_true_iff in Ha as [Hv Ha]. cbn in *. rewrite Hv. apply IH; [lia|done].
  - apply andb_true_iff in Ha as [Hv Ha]. rewrite Hv. apply IH; [lia|done].
Qed.

(** A text that UTF-8 keeps: units, and no lone surrogate. *)
Definition clean (t : jsstring) : Prop := Forall is_unit t /\ isWellFormed t = true.

Lemma clean_app a b : clean a -> clean b -> clean (a ++ b).
Proof. intros [? ?] [? ?]. split; [by apply Forall_app|by apply well_formed_app]. Qed.

Lemma clean_plain t : Forall (fun u => 0 <= u < 0xD800) t -> clean t.
Proof.
  intros H. split; [eapply Forall_impl; [|exact H]; intros u; unfold is_unit; lia|].
  induction H as [|u t Hu _ IH]; [done|]. cbn. rewrite IH. unfold is_high, is_low. bool_lia; done.
Qed.

Lemma clean_cons u t : 0 <= u < 0xD800 -> clean t -> clean (u :: t).
Proof. intros Hu Ht. apply (clean_app [u]); [|done]. apply clean_plain. constructor; [lia|done]. Qed.

(** Concrete texts, by evaluation. *)
Lemma clean_text t : forallb (fun u => (0 <=? u) && (u <? 0xD800)) t = true -> clean t.
Proof. rewrite forallb_forall. intros H. apply clean_plain, List.Forall_forall. intros u Hu. specialize (H u Hu). lia. Qed.

Lemma hex_unit_plain d : 0 <= d < 16 -> 0 <= hex_unit d < 0xD800.
Proof. intros Hd. unfold hex_unit. bool_lia. Qed.

Lemma clean_escape u : is_unit u -> clean (unicode_escape u).
Proof.
  intros Hu. unfold is_unit in Hu. apply clean_plain. unfold unicode_escape.
  pose proof (Z.div_lt_upper_bound u 4096 16). pose proof (Z.div_pos u 4096).
  repeat constructor; try lia; apply hex_unit_plain; first [lia | apply Z.mod_pos_bound; lia].
Qed.

Lemma clean_quote_unit u : is_unit u -> clean (quote_unit u).
Proof.
  intros Hu. unfold quote_unit.
  repeat (match goal with |- context [?a =? ?b] => destruct (Z.eqb_spec a b) as [-> |] end; [by apply clean_text|]).
  destruct ((u <? 32) || is_high u || is_low u) eqn:E; [by apply clean_escape|].
  apply orb_false_iff in E as [E1 E3]. apply orb_false_iff in E1 as [E1 E2]. split; [by constructor|]. cbn. by rewrite E2, E3.
Qed.

Lemma clean_quote s : Forall is_unit s -> clean (quote s).
Proof.
  intros Hs. unfold quote. apply clean_cons; [lia|]. apply clean_app; [|by apply clean_text].
  enough (Hn : forall n s, (length s <= n)%nat -> Forall is_unit s -> clean (quote_body s)) by eauto.
  clear s Hs. intros n. induction n as [|n IH]; intros s Hn Hs; (destruct s as [|u s]; [done|]); cbn in Hn; [lia|].
  pose proof (Forall_inv Hs) as Hu. apply Forall_inv_tail in Hs. destruct s as [|v s]; [by apply clean_quote_unit|].
  rewrite quote_body_step. destruct (is_high u && is_low v) eqn:E.
  - apply andb_true_iff in E as [E1 E2]. pose proof (Forall_inv Hs) as Hv. apply Forall_inv_tail in Hs.
    apply (clean_app [u; v]); [|apply IH; [cbn in Hn; lia|done]]. split; [by constructor; [|constructor]|]. cbn. by rewrite E1, E2.
  - apply clean_app; [by apply clean_quote_unit|]. by apply IH; [lia|].
Qed.

Lemma clean_commas {A : Type} (f : A -> jsstring) l : Forall (fun x => clean (f x)) l -> clean (commas f l).
Proof.
  intros H. destruct H as [|x l Hx H]; [done|]. cbn. apply clean_app; [done|].
  induction H as [|y l Hy _ IH]; [done|]. cbn. apply clean_cons; [lia|]. by apply clean_app.
Qed.

Lemma clean_nat_text z : 0 <= z -> clean (nat_text z).
Proof. intros Hz. apply clean_plain. eapply Forall_impl; [|by apply nat_text_digits]. intros c. unfold digit. intros. bool_lia. Qed.

Lemma clean_int_text z : clean (int_text z).
Proof. unfold int_text. destruct (Z.ltb_spec z 0); [apply clean_cons; [lia|]|]; apply clean_nat_text; lia. Qed.

Lemma stringify_clean j : units_ok j = true -> clean (stringify j).
Proof.
  induction j as [|b|z|s|l IH|l IH] using json_rect_nested; intros HQ; cbn [stringify].
  - by apply clean_text.
  - by destruct b; apply clean_text.
  - apply clean_int_text.
  - by apply clean_quote, unitsb_ok.
  - apply clean_cons; [lia|]. apply clean_app; [|by apply clean_text]. apply clean_commas.
    exact (Forall_mp _ _ l IH (Forall_of_forallb _ l HQ)).
  - apply clean_cons; [lia|]. apply clean_app; [|by apply clean_text]. apply clean_commas.
    refine (Forall_mp _ _ l _ (Forall_of_forallb _ l HQ)). eapply Forall_impl; [|exact IH]. intros x Hx Hq.
    apply andb_true_iff in Hq as [Hk Hq]. apply clean_app; [by apply clean_quote, unitsb_ok|]. apply clean_cons; [lia|auto].
Qed.

(** The UTF-8 bytes of the text determine the value. *)
Lemma json_bytes_inj j j' : units_ok j = true -> units_ok j' = true -> text_encode (stringify j) = text_encode (stringify j') -> j = j'.
Proof.
  intros Hj Hj' E. apply (f_equal text_decode) in E.
  assert (Hd : forall j, units_ok j = true -> text_decode (text_encode (stringify j)) = stringify j).
  { intros i Hi. destruct (stringify_clean i Hi). apply text_decode_encode; [done..|].
    destruct (stringify_first i) as (c & t & Ei & Hk & _). rewrite Ei. intros [= ->]. destruct i; try discriminate Hk.
    cbn in Ei. destruct (int_text_cons z) as (c & t' & Ez & Hc). rewrite Ez in Ei. injection Ei as -> _. by destruct Hc. }
  rewrite !Hd in E by done. apply (json_text_inj j Hj j' [] []); [done..|]. by rewrite !app_nil_r.
Qed.
