(* ===== verification/Canonical.v ===== *)
(** Canonical bytes of values (src/auth/canonicalize.js), over which authorizations and envelopes are signed and hashed.

    A value is brought to a normal form ([normalizeCanonicalValue]), printed as JSON and encoded as UTF-8. Keys are ordered by
    [localeCompare], which depends on the locale of the host and is a parameter; [consistent] is what the language says of it.
    A number is a safe integer, or it is not finite; a date is its ISO text; an object is the list of its own enumerable
    properties in their order, and an array buffer or a view is the list of its bytes. *)
From Stdlib Require Import ZArith Lia.
From stdpp Require Import base list strings numbers sorting.
From S2P Require Import Prelude JsText JsNumber JsJson.
Open Scope Z_scope.

(** ** Values and their normal form *)

Inductive value :=
  | VUndefined | VNull | VBool (b : bool) | VNumber (n : option Z) | VString (s : jsstring) | VBigInt (z : Z) | VBytes (b : list Z)
  | VDate (iso : option jsstring) | VArray (l : list value) | VObject (l : list (jsstring * value)) | VFunction | VSymbol.

Definition BASE64 : jsstring := lit "ABCDEFGHIJKLMNOPQRSTUVWXYZabcdefghijklmnopqrstuvwxyz0123456789+/".
Definition base64_char (z : Z) : Z := num_or_0 (at_ BASE64 z).
Fixpoint bytesToBase64 (b : list Z) : jsstring :=
  match b with
  | [] => []
  | [x] => [base64_char (x / 4); base64_char (x mod 4 * 16); 61; 61]
  | [x; y] => [base64_char (x / 4); base64_char (x mod 4 * 16 + y / 16); base64_char (y mod 16 * 4); 61]
  | x :: y :: z :: b => base64_char (x / 4) :: base64_char (x mod 4 * 16 + y / 16) :: base64_char (y mod 16 * 4 + z / 64) :: base64_char (z mod 64) :: bytesToBase64 b
  end.

Section sorting.
Context {A : Type} (le : A -> A -> bool).
(** [Array.prototype.sort]: a stable sort. *)
Fixpoint insert_sorted (x : A) (l : list A) : list A := match l with [] => [x] | y :: l => if le x y then x :: y :: l else y :: insert_sorted x l end.
Definition sort_by (l : list A) : list A := foldr insert_sorted [] l.
End sorting.

(** A key that is an array index. *)
Definition array_index (key : jsstring) : option Z :=
  let ds := map (fun c => c - 48) key in
  if negb (bool_decide (key = [])) && forallb (fun d => (0 <=? d) && (d <=? 9)) ds && (bool_decide (ds = [0]) || negb (bool_decide (head ds = Some 0))) then
    let v := from_digits 10 ds in if v <? 2 ^ 32 - 1 then Some v else None
  else None.
Definition index_le {A : Type} (x y : jsstring * A) : bool := default 0 (array_index x.1) <=? default 0 (array_index y.1).
Definition is_index {A : Type} (x : jsstring * A) : bool := match array_index x.1 with Some _ => true | None => false end.
(** [Object.fromEntries], read back in the order of the properties: first the array indices, ascending, then the others as they were added. *)
Definition fromEntries {A : Type} (l : list (jsstring * A)) : list (jsstring * A) :=
  sort_by index_le (List.filter is_index l) ++ List.filter (fun x => negb (is_index x)) l.

(** One result for every element, or the first error. *)
Fixpoint all_ok {A B : Type} (f : A -> result B) (l : list A) : result (list B) :=
  match l with [] => Ok [] | x :: l => let! y := f x in let! r := all_ok f l in Ok (y :: r) end.

Definition is_undefined (v : value) : bool := match v with VUndefined => true | _ => false end.

Section canonicalize.
Variable (localeCompare : jsstring -> jsstring -> Z).

Definition key_le {A : Type} (x y : jsstring * A) : bool := localeCompare x.1 y.1 <=? 0.

(** [None] is [undefined]. The entries carry their normal forms along; only those of the kept entries are looked at, in the sorted order. *)
Fixpoint normalizeCanonicalValue (v : value) : result (option json) :=
  match v with
  | VUndefined => Ok None
  | VNull => Ok (Some JNull)
  | VBool b => Ok (Some (JBool b))
  | VString s => Ok (Some (JString s))
  | VNumber None => Throw (TypeError "Canonical payloads cannot contain non-finite numbers.")
  | VNumber (Some z) => Ok (Some (JNumber z))
  | VBigInt z => Ok (Some (JString (int_text z)))
  | VBytes b => Ok (Some (JObject [(lit "__type", JString (lit "bytes")); (lit "base64", JString (bytesToBase64 b))]))
  | VDate None => Throw (RangeError "Invalid time value")
  | VDate (Some iso) => Ok (Some (JString iso))
  | VArray l =>
      let! items := all_ok (fun item => let! normalized := normalizeCanonicalValue item in Ok (default JNull normalized)) l in
      Ok (Some (JArray items))
  | VObject l =>
      let pairs := map (fun e => (e.1, (e.2, normalizeCanonicalValue e.2))) l in
      let entries := sort_by key_le (List.filter (fun e => negb (is_undefined e.2.1)) pairs) in
      let! items := all_ok (fun e => let! normalized := e.2.2 in Ok (e.1, default JNull normalized)) entries in
      Ok (Some (JObject (fromEntries items)))
  | VFunction => Throw (TypeError "Unsupported canonical value type: function")
  | VSymbol => Throw (TypeError "Unsupported canonical value type: symbol")
  end.

Definition stableStringify (v : value) : result (option jsstring) :=
  let! normalized := normalizeCanonicalValue v in Ok (option_map stringify normalized).

(** [TextEncoder.encode(undefined)] is empty. *)
Definition canonicalBytes (v : value) : result (list Z) :=
  let! text := stableStringify v in Ok (text_encode (default [] text)).

Definition hashCanonicalValue (sha256Bytes : list Z -> list Z) (v : value) : result (list Z) :=
  let! bytes := canonicalBytes v in Ok (sha256Bytes bytes).

(** ** What is required of a value *)

Definition keys_of {A : Type} (l : list (jsstring * A)) : list jsstring := map fst l.
(** No two different keys of an object compare as equal. *)
Definition untied (keys : list jsstring) : bool := forallb (fun x => forallb (fun y => negb (localeCompare x y =? 0) || bool_decide (x = y)) keys) keys.

(** A value of JSON: no undefined, bigint, bytes or date in it, and its keys are told apart by [localeCompare]. *)
Fixpoint plain (v : value) : bool :=
  match v with
  | VNull | VBool _ => true
  | VNumber (Some z) => is_safe_integer z
  | VString s => unitsb s
  | VArray l => forallb plain l
  | VObject l => forallb (fun e => unitsb e.1 && plain e.2) l && bool_decide (NoDup (keys_of l)) && untied (keys_of l)
  | _ => false
  end.

(** [localeCompare] compares: exchanging the texts turns the sign, and "not after" is transitive. *)
Definition consistent : Prop :=
  (forall x y, Z.sgn (localeCompare y x) = - Z.sgn (localeCompare x y)) /\
  (forall x y z, localeCompare x y <= 0 -> localeCompare y z <= 0 -> localeCompare x z <= 0).

End canonicalize.

(** Two values with the same content: the same but for the order of the properties of objects. *)
Inductive same_content : value -> value -> Prop :=
  | same_leaf v : match v with VArray _ | VObject _ => False | _ => True end -> same_content v v
  | same_array l l' : Forall2 same_content l l' -> same_content (VArray l) (VArray l')
  | same_object l m l' : Permutation l m -> Forall2 (fun e e' => e.1 = e'.1 /\ same_content e.2 e'.2) m l' -> same_content (VObject l) (VObject l').

(** ** Sorting *)

Section sorting_facts.
Context {A : Type} (le : A -> A -> bool).

Lemma insert_sorted_perm x l : Permutation (insert_sorted le x l) (x :: l).
Proof.
  induction l as [|y l IH]; cbn; [done|]. destruct (le x y); [done|]. rewrite IH. apply perm_swap.
Qed.

Lemma sort_by_perm l : Permutation (sort_by le l) l.
Proof. induction l as [|x l IH]; cbn; [done|]. by rewrite insert_sorted_perm, IH. Qed.

Definition ordered : list A -> Prop := StronglySorted (fun x y => le x y = true).

Lemma sort_by_sorted l :
  (forall x y, le x y = false -> le y x = true) -> (forall x y z, le x y = true -> le y z = true -> le x z = true) -> ordered (sort_by le l).
Proof.
  intros Htot Htr. induction l as [|x l IH]; cbn; [constructor|]. fold (sort_by le l). revert IH. generalize (sort_by le l) as s.
  induction s as [|y s IH]; intros Hs; cbn; [by repeat constructor|]. inversion_clear Hs as [|? ? Hs' Hy]. destruct (le x y) eqn:E.
  - constructor; [by constructor|]. constructor; [done|]. eapply Forall_impl; [exact Hy|]. cbn. intros z. by apply Htr.
  - constructor; [by apply IH|]. rewrite insert_sorted_perm. constructor; [by apply Htot|done].
Qed.

Lemma sort_by_unique l l' :
  (forall x y, le x y = false -> le y x = true) -> (forall x y z, le x y = true -> le y z = true -> le x z = true) ->
  (forall x y, x ∈ l -> y ∈ l -> le x y = true -> le y x = true -> x = y) -> Permutation l l' -> sort_by le l = sort_by le l'.
Proof.
  intros Htot Htr Hanti Hp. apply (StronglySorted_unique_strong (fun x y => le x y = true)); [|by apply sort_by_sorted..|by rewrite !sort_by_perm].
  intros x y Hx Hy. apply Hanti; [by rewrite sort_by_perm in Hx|by rewrite sort_by_perm, <- Hp in Hy].
Qed.
End sorting_facts.

Lemma insert_sorted_map {A B : Type} (f : A -> B) (le : A -> A -> bool) (le' : B -> B -> bool) x l :
  (forall x y, le' (f x) (f y) = le x y) -> map f (insert_sorted le x l) = insert_sorted le' (f x) (map f l).
Proof. intros H. induction l as [|y l IH]; cbn; [done|]. rewrite H. destruct (le x y); cbn; [done|by rewrite IH]. Qed.

Lemma sort_by_map {A B : Type} (f : A -> B) (le : A -> A -> bool) (le' : B -> B -> bool) l :
  (forall x y, le' (f x) (f y) = le x y) -> map f (sort_by le l) = sort_by le' (map f l).
Proof. intros H. induction l as [|x l IH]; cbn; [done|]. rewrite (insert_sorted_map f le le') by done. by f_equal. Qed.

Lemma filter_split_perm {A : Type} (p : A -> bool) l : Permutation (List.filter p l ++ List.filter (fun x => negb (p x)) l) l.
Proof.
  induction l as [|x l IH]; cbn; [done|]. destruct (p x); cbn; [by rewrite IH|]. rewrite <- Permutation_middle. by rewrite IH.
Qed.

Lemma fromEntries_perm {A : Type} (l : list (jsstring * A)) : Permutation (fromEntries l) l.
Proof. unfold fromEntries. rewrite sort_by_perm. apply filter_split_perm. Qed.

(** ** Normal forms *)

Section value_induction.
Variables (P : value -> Prop).
Hypotheses (HLeaf : forall v, match v with VArray _ | VObject _ => False | _ => True end -> P v)
  (HArray : forall l, Forall P l -> P (VArray l)) (HObject : forall l, Forall (fun e => P e.2) l -> P (VObject l)).

Fixpoint value_nested (v : value) : P v :=
  match v with
  | VArray l => HArray l ((fix go l := match l return Forall P l with [] => List.Forall_nil _ | x :: l => @List.Forall_cons _ _ _ _ (value_nested x) (go l) end) l)
  | VObject l => HObject l ((fix go l := match l return Forall (fun e => P e.2) l with [] => List.Forall_nil _ | x :: l => @List.Forall_cons _ _ _ _ (value_nested x.2) (go l) end) l)
  | w => HLeaf w I
  end.
End value_induction.

Section canonical_facts.
Variable (localeCompare : jsstring -> jsstring -> Z).
Abbreviation norm := (normalizeCanonicalValue localeCompare).

(** An entry with its normal form. *)
Definition normal_entry (e : jsstring * value) : jsstring * result (option json) := (e.1, norm e.2).
Definition entry_present (e : jsstring * result (option json)) : bool := match e.2 with Ok None => false | _ => true end.
Definition entry_value (e : jsstring * result (option json)) : result (jsstring * json) := let! normalized := e.2 in Ok (e.1, default JNull normalized).
Definition sorted_entries (l : list (jsstring * value)) : list (jsstring * result (option json)) :=
  sort_by (key_le localeCompare) (List.filter entry_present (map normal_entry l)).

Lemma normalize_undefined v : is_undefined v = match norm v with Ok None => true | _ => false end.
Proof.
  destruct v as [| | |[]| | | |[]| | | |]; try done; cbn [normalizeCanonicalValue]; by destruct (all_ok _ _).
Qed.

Lemma all_ok_map {A B C : Type} (f : A -> B) (g : B -> result C) l : all_ok g (map f l) = all_ok (fun x => g (f x)) l.
Proof. induction l as [|x l IH]; cbn; [done|]. by rewrite IH. Qed.

Lemma normalize_object l : norm (VObject l) = (let! items := all_ok entry_value (sorted_entries l) in Ok (Some (JObject (fromEntries items)))).
Proof.
  cbn [normalizeCanonicalValue]. unfold sorted_entries. set (pairs := map (fun e => (e.1, (e.2, norm e.2))) l).
  set (project := fun e : jsstring * (value * result (option json)) => (e.1, e.2.2)).
  assert (Hp : List.filter entry_present (map normal_entry l) = map project (List.filter (fun e => negb (is_undefined e.2.1)) pairs)).
  { subst pairs. induction l as [|[k v] l IH]; [done|]. cbn [map List.filter]. unfold entry_present at 1, normal_entry at 1. cbn [fst snd].
    rewrite normalize_undefined. destruct (norm v) as [[|]|] eqn:En; cbn [negb map]; rewrite IH; [|done|];
      (f_equal; unfold normal_entry; cbn; by rewrite En). }
  rewrite Hp, <- (sort_by_map project (key_le localeCompare)) by done. by rewrite all_ok_map.
Qed.

Lemma filter_perm {A : Type} (p : A -> bool) l l' : Permutation l l' -> Permutation (List.filter p l) (List.filter p l').
Proof.
  induction 1 as [|x l l' _ IH|x y l|l m n _ IH1 _ IH2]; cbn; [done| | |by rewrite IH1].
  - destruct (p x); [by rewrite IH|done].
  - destruct (p x), (p y); try done. apply perm_swap.
Qed.

Lemma key_determines {A : Type} (l : list (jsstring * A)) x y : NoDup (keys_of l) -> x ∈ l -> y ∈ l -> x.1 = y.1 -> x = y.
Proof.
  intros Hd Hx Hy E. unfold keys_of in Hd. induction l as [|z l IH]; [by apply not_elem_of_nil in Hx|]. cbn in Hd. apply NoDup_cons in Hd as [Hz Hd].
  assert (Hin : forall u, u ∈ l -> u.1 = z.1 -> False) by (intros u Hu Eu; apply Hz; rewrite <- Eu; apply list_elem_of_In, in_map; by apply list_elem_of_In).
  apply elem_of_cons in Hx as [-> |Hx], Hy as [-> |Hy]; [done| | |by apply IH]; exfalso; eauto.
Qed.

(** *** Equal content, equal normal form *)

Section ordering.
Hypothesis (Hc : consistent localeCompare).

Lemma key_le_total {A : Type} (x y : jsstring * A) : key_le localeCompare x y = false -> key_le localeCompare y x = true.
Proof. unfold key_le. rewrite Z.leb_gt, Z.leb_le. destruct Hc as [Hs _]. specialize (Hs x.1 y.1). lia. Qed.

Lemma key_le_trans {A : Type} (x y z : jsstring * A) :
  key_le localeCompare x y = true -> key_le localeCompare y z = true -> key_le localeCompare x z = true.
Proof. unfold key_le. rewrite !Z.leb_le. destruct Hc as [_ Ht]. apply Ht. Qed.

Lemma key_le_untied keys x y : untied localeCompare keys = true -> x ∈ keys -> y ∈ keys -> localeCompare x y <= 0 -> localeCompare y x <= 0 -> x = y.
Proof.
  unfold untied. rewrite forallb_forall. intros Hu Hx Hy H1 H2. rewrite list_elem_of_In in Hx, Hy. specialize (Hu x Hx). rewrite forallb_forall in Hu.
  specialize (Hu y Hy). destruct Hc as [Hs _]. specialize (Hs x y). apply orb_true_iff in Hu as [Hu|Hu]; [|by apply bool_decide_eq_true in Hu].
  apply negb_true_iff, Z.eqb_neq in Hu. lia.
Qed.

Lemma sorted_entries_perm l l' :
  NoDup (keys_of l) -> untied localeCompare (keys_of l) = true -> Permutation (map normal_entry l) (map normal_entry l') -> sorted_entries l = sorted_entries l'.
Proof.
  intros Hd Hu Hp. unfold sorted_entries. apply sort_by_unique; [apply key_le_total|apply key_le_trans| |by apply filter_perm].
  assert (Hk : keys_of (map normal_entry l) = keys_of l) by (unfold keys_of; by rewrite map_map).
  assert (Hin : forall x, x ∈ List.filter entry_present (map normal_entry l) -> x ∈ map normal_entry l).
  { intros x. rewrite !list_elem_of_In, filter_In. tauto. }
  intros x y Hx Hy H1 H2. apply Hin in Hx, Hy. apply (key_determines (map normal_entry l)); [by rewrite Hk|done..|].
  unfold key_le in H1, H2. apply Z.leb_le in H1, H2.
  apply (key_le_untied (keys_of l)); [done|..|done|done]; rewrite <- Hk; apply list_elem_of_In, in_map; by apply list_elem_of_In.
Qed.

Lemma same_content_normal v w : plain localeCompare v = true -> same_content v w -> norm v = norm w.
Proof.
  revert w. induction v as [v Hl|l IH|l IH] using value_nested; intros w Hp Hs.
  - by inversion Hs; subst.
  - inversion Hs as [|? l' Hl|]; subst; [done|]. cbn [normalizeCanonicalValue]. f_equal. cbn in Hp. clear Hs. revert IH Hp.
    induction Hl as [|x y l l' Hxy _ IHl]; intros IH Hp; [done|]. inversion_clear IH. cbn in Hp |- *. apply andb_true_iff in Hp as [? ?].
    rewrite IHl by done. erewrite H by done. done.
  - inversion Hs as [| |? m l' Hm Hl]; subst; [done|]. rewrite !normalize_object. f_equal. f_equal.
    cbn in Hp. apply andb_true_iff in Hp as [Hp Hu]. apply andb_true_iff in Hp as [Hp Hd]. apply bool_decide_eq_true in Hd.
    apply sorted_entries_perm; [done..|]. rewrite Hm. apply Forall_of_forallb in Hp. rewrite Hm in Hp, IH. clear Hs Hm Hd Hu l. 
    enough (E : map normal_entry m = map normal_entry l') by by rewrite E. revert IH Hp.
    induction Hl as [|x y l l' [Hk Hxy] _ IHl]; intros IH Hp; [done|]. inversion_clear IH as [|? ? Hx IH']. inversion_clear Hp as [|? ? Hpx Hp'].
    apply andb_true_iff in Hpx as [_ Hpx]. cbn. rewrite IHl by done. f_equal. unfold normal_entry. by rewrite Hk, (Hx y.2).
Qed.
End ordering.

(** *** Equal normal form, equal content *)

Lemma all_ok_each {A B : Type} (f : A -> result B) l r : all_ok f l = Ok r <-> Forall2 (fun x y => f x = Ok y) l r.
Proof.
  revert r. induction l as [|x l IH]; intros r; cbn; split.
  - intros [= <-]. constructor.
  - by inversion 1.
  - intros E. js_inv E. constructor; [done|]. by apply IH.
  - inversion 1 as [|? y ? r' Hx Hl]; subst. rewrite Hx. cbn. apply IH in Hl. by rewrite Hl.
Qed.

(** A finished entry, as it stands among the normal forms. *)
Definition finished (x : jsstring * json) : jsstring * result (option json) := (x.1, Ok (Some x.2)).
Definition good_entry (e : jsstring * result (option json)) : Prop := exists x, e = finished x /\ unitsb x.1 && units_ok x.2 = true.

Lemma good_entries L : Forall good_entry L ->
  exists items, all_ok entry_value L = Ok items /\ L = map finished items /\ Forall (fun x => unitsb x.1 && units_ok x.2 = true) items.
Proof.
  induction 1 as [|e L (x & -> & Hx) _ (items & E & -> & Hi)]; [by exists []|].
  exists (x :: items). cbn. rewrite E. cbn. destruct x. by split_and!; [..|constructor].
Qed.

Lemma good_entries_sorted l : Forall (fun e => good_entry (normal_entry e)) l -> Forall good_entry (sorted_entries l) /\ Permutation (sorted_entries l) (map normal_entry l).
Proof.
  intros H. assert (Hm : Forall good_entry (map normal_entry l)) by by apply Forall_map.
  assert (E : List.filter entry_present (map normal_entry l) = map normal_entry l).
  { induction Hm as [|e L (x & -> & _) _ IH]; [done|]. cbn. by rewrite IH. }
  unfold sorted_entries. rewrite E. split; [|apply sort_by_perm]. by rewrite sort_by_perm.
Qed.

Lemma object_normal l : Forall (fun e => good_entry (normal_entry e)) l ->
  exists items, norm (VObject l) = Ok (Some (JObject (fromEntries items))) /\ Permutation (map finished items) (map normal_entry l) /\
    Forall (fun x => unitsb x.1 && units_ok x.2 = true) items.
Proof.
  intros H. destruct (good_entries_sorted l H) as [Hg Hp]. destruct (good_entries _ Hg) as (items & E & Es & Hi).
  exists items. rewrite normalize_object, E, <- Es. done.
Qed.

Lemma forallb_of_Forall {A : Type} (p : A -> bool) l : Forall (fun x => p x = true) l -> forallb p l = true.
Proof. rewrite forallb_forall, List.Forall_forall. done. Qed.

Lemma good_entry_of k v : unitsb k = true -> (exists n, norm v = Ok (Some n) /\ units_ok n = true) -> good_entry (normal_entry (k, v)).
Proof. intros Hk (n & En & Hn). exists (k, n). unfold normal_entry, finished. cbn [fst snd]. by rewrite En, Hk, Hn. Qed.

(** A plain value has a normal form. *)
Lemma plain_normal v : plain localeCompare v = true -> exists n, norm v = Ok (Some n) /\ units_ok n = true.
Proof.
  induction v as [v Hl|l IH|l IH] using value_nested; intros Hp.
  - destruct v as [| | |[z|]| | | |[]| | | |]; try done; by eexists.
  - assert (Hi : exists items, Forall2 (fun x y => (let! n := norm x in Ok (default JNull n)) = Ok y) l items /\ Forall (fun n => units_ok n = true) items).
    { cbn in Hp. induction IH as [|x l Hx _ IHl]; [by exists []|]. cbn in Hp. apply andb_true_iff in Hp as [Hpx Hp].
      destruct (Hx Hpx) as (n & En & Hn), (IHl Hp) as (items & Hi & Hu). exists (n :: items). split; [constructor; [by rewrite En|done]|by constructor]. }
    destruct Hi as (items & Hi & Hu). apply all_ok_each in Hi. exists (JArray items). cbn. rewrite Hi. split; [done|by apply forallb_of_Forall].
  - cbn in Hp. apply andb_true_iff in Hp as [Hp _]. apply andb_true_iff in Hp as [Hp _]. apply Forall_of_forallb in Hp.
    destruct (object_normal l) as (items & E & _ & Hu).
    { eapply Forall_mp; [|exact Hp]. eapply Forall_impl; [exact IH|]. intros [k v] Hv Hq. cbn in *. apply andb_true_iff in Hq as [Hk Hq].
      by apply good_entry_of; [|apply Hv]. }
    exists (JObject (fromEntries items)). split; [done|]. cbn. apply forallb_of_Forall. by rewrite fromEntries_perm.
Qed.

Lemma plain_entries l : Forall (fun e => unitsb e.1 && plain localeCompare e.2 = true) l -> Forall (fun e => good_entry (normal_entry e)) l.
Proof.
  intros Hp. eapply Forall_impl; [exact Hp|]. intros [k v] Hq. cbn in *. apply andb_true_iff in Hq as [Hk Hq].
  by apply good_entry_of; [|apply plain_normal].
Qed.

Lemma plain_object l : plain localeCompare (VObject l) = true -> Forall (fun e => unitsb e.1 && plain localeCompare e.2 = true) l.
Proof. cbn. intros Hp. apply andb_true_iff in Hp as [Hp _]. apply andb_true_iff in Hp as [Hp _]. by apply Forall_of_forallb. Qed.

Lemma array_items l : plain localeCompare (VArray l) = true -> exists items, norm (VArray l) = Ok (Some (JArray items)) /\ Forall2 (fun x n => norm x = Ok (Some n)) l items.
Proof.
  intros Hp. destruct (plain_normal _ Hp) as (n & En & _). cbn in En, Hp |- *. js_inv En. exists x. split; [done|].
  apply all_ok_each in E. apply Forall_of_forallb in Hp. induction E as [|y z l r Hy _ IH]; [constructor|]. inversion_clear Hp as [|? ? Hq Hl].
  constructor; [|by apply IH]. destruct (plain_normal y Hq) as (m & Em & _). rewrite Em in Hy |- *. by injection Hy as ->.
Qed.

Lemma object_items l : plain localeCompare (VObject l) = true ->
  exists items, norm (VObject l) = Ok (Some (JObject (fromEntries items))) /\ Permutation (map finished items) (map normal_entry l).
Proof. intros Hp. destruct (object_normal l) as (items & ? & ? & _); [by apply plain_entries, plain_object|]. eauto. Qed.

Lemma normal_same_content v w : plain localeCompare v = true -> plain localeCompare w = true -> norm v = norm w -> same_content v w.
Proof.
  revert w. induction v as [v Hl|l IH|l IH] using value_nested; intros w Hp Hq E.
  - assert (Hv : v = w); [|subst w; by constructor].
    destruct w as [| | |[]| | | |[]|l|l| |]; try done;
      try (destruct (array_items l Hq) as (? & E' & _); rewrite E' in E); try (destruct (object_items l Hq) as (? & E' & _); rewrite E' in E);
      destruct v as [| | |[]| | | |[]| | | |]; try done; by injection E as ->.
  - destruct (array_items l Hp) as (items & En & Hi). rewrite En in E.
    destruct w as [| | |[]| | | |[]|l'|l'| |]; try done; [|by destruct (object_items l' Hq) as (? & E' & _); rewrite E' in E].
    destruct (array_items l' Hq) as (items' & En' & Hi'). rewrite En' in E. injection E as ->. constructor.
    cbn in Hp, Hq. apply Forall_of_forallb in Hp, Hq. clear En En'. revert l' Hq Hi'.
    induction Hi as [|x n l items' Hx _ IHi]; intros [|y l'] Hq Hi'; inversion Hi' as [|? ? ? ? Hy Hi'']; subst; constructor;
      inversion_clear IH; inversion_clear Hp; inversion_clear Hq; [|by apply IHi].
    apply H; [done..|by rewrite Hx, Hy].
  - destruct (object_items l Hp) as (items & En & Hi). rewrite En in E.
    destruct w as [| | |[]| | | |[]|l'|l'| |]; try done; [by destruct (array_items l' Hq) as (? & E' & _); rewrite E' in E|].
    destruct (object_items l' Hq) as (items' & En' & Hi'). rewrite En' in E. injection E as E.
    assert (Hm : Permutation (map normal_entry l) (map normal_entry l')).
    { rewrite <- Hi, <- Hi'. apply Permutation_map. by rewrite <- (fromEntries_perm items), E, fromEntries_perm. }
    apply Permutation_sym, Permutation_map_inv in Hm as (m & Em & Hm). apply (same_object l m l'); [done|].
    apply plain_object in Hp, Hq. rewrite Hm in Hp, IH. clear Hm Hi Hi' En En' E. revert l' Hq Em.
    induction m as [|[k v] m IHm]; intros [|[k' v'] l'] Hq Em; try discriminate Em; [constructor|].
    cbn in Em. inversion_clear IH as [|? ? Hx IH']. inversion_clear Hp as [|? ? Hpx Hp']. inversion_clear Hq as [|? ? Hqx Hq'].
    injection Em as Ek Ev Em. cbn in *. apply andb_true_iff in Hpx as [_ ?], Hqx as [_ ?]. constructor; [|by apply IHm].
    split; [done|]. by apply Hx.
Qed.
End canonical_facts.

(** ** The contract of canonical bytes *)

(** C30. Two plain values have the same canonical bytes exactly when they have the same content: the bytes do not depend on the order in which
    properties were added, at any depth, and different contents have different bytes. A plain value has canonical bytes. *)
Theorem canonical_bytes_identify_content localeCompare v w :
  consistent localeCompare -> plain localeCompare v = true -> plain localeCompare w = true ->
  (exists b, canonicalBytes localeCompare v = Ok b) /\
  (canonicalBytes localeCompare v = canonicalBytes localeCompare w <-> same_content v w).
Proof.
  intros Hc Hv Hw. destruct (plain_normal _ v Hv) as (n & En & Hn), (plain_normal _ w Hw) as (m & Em & Hm).
  assert (E : forall u x, normalizeCanonicalValue localeCompare u = Ok (Some x) -> canonicalBytes localeCompare u = Ok (text_encode (stringify x))).
  { intros u x Eu. unfold canonicalBytes, stableStringify. by rewrite Eu. }
  rewrite (E v n), (E w m) by done. split; [eauto|]. split.
  - intros [= Eb]. apply json_bytes_inj in Eb as ->; [|done..]. apply (normal_same_content localeCompare); [done..|]. by rewrite En, Em.
  - intros Hs. apply (same_content_normal localeCompare Hc) in Hs; [|done]. rewrite En, Em in Hs. by injection Hs as ->.
Qed.

(** ** Values that are refused *)

(** No number that is not finite, no invalid date, no function and no symbol, at any depth. *)
Fixpoint accepted (v : value) : bool :=
  match v with
  | VNumber None | VDate None | VFunction | VSymbol => false
  | VArray l => forallb accepted l
  | VObject l => forallb (fun e => accepted e.2) l
  | _ => true
  end.

Lemma all_ok_is_ok {A B : Type} (f : A -> result B) l : is_ok (all_ok f l) = forallb (fun x => is_ok (f x)) l.
Proof. induction l as [|x l IH]; cbn; [done|]. destruct (f x); cbn; [|done]. rewrite <- IH. by destruct (all_ok f l). Qed.

Lemma is_ok_bind {A B : Type} (r : result A) (f : A -> B) : is_ok (let! x := r in Ok (f x)) = is_ok r.
Proof. by destruct r. Qed.

Lemma forallb_perm {A : Type} (p : A -> bool) l l' : Permutation l l' -> forallb p l = forallb p l'.
Proof.
  induction 1 as [|x l l' _ IH|x y l|l m n _ IH1 _ IH2]; cbn; [done|by rewrite IH|destruct (p x), (p y); done|by rewrite IH1].
Qed.

Lemma forallb_ext_Forall {A : Type} (p q : A -> bool) l : Forall (fun x => p x = q x) l -> forallb p l = forallb q l.
Proof. induction 1 as [|x l H _ IH]; cbn; [done|]. by rewrite H, IH. Qed.

(** Canonical bytes are refused for exactly the values that are not accepted. *)
Theorem canonical_refusals localeCompare v : is_ok (canonicalBytes localeCompare v) = accepted v.
Proof.
  unfold canonicalBytes, stableStringify. rewrite !is_ok_bind.
  induction v as [v Hl|l IH|l IH] using value_nested.
  - by destruct v as [| | |[]| | | |[]| | | |].
  - cbn [normalizeCanonicalValue accepted]. rewrite is_ok_bind, all_ok_is_ok. apply forallb_ext_Forall.
    eapply Forall_impl; [exact IH|]. intros x Hx. by rewrite is_ok_bind.
  - rewrite normalize_object, is_ok_bind, all_ok_is_ok. unfold sorted_entries. rewrite (forallb_perm _ _ _ (sort_by_perm _ _)).
    cbn [accepted]. induction IH as [|[k v] l Hv _ IHl]; [done|]. cbn [map List.filter forallb snd]. cbn in Hv. rewrite <- IHl, <- Hv.
    unfold entry_present at 1, normal_entry at 1, entry_value. cbn [fst snd].
    destruct (normalizeCanonicalValue localeCompare v) as [[|]|] eqn:E; cbn [forallb]; unfold normal_entry at 1; cbn [fst snd]; rewrite ?E; done.
Qed.

(** ** Comparison of code units, as one [localeCompare] *)

Fixpoint unit_compare (x y : jsstring) : Z :=
  match x, y with
  | [], [] => 0
  | [], _ => -1
  | _, [] => 1
  | a :: x, b :: y => if a <? b then -1 else if b <? a then 1 else unit_compare x y
  end.

Lemma unit_compare_consistent : consistent unit_compare.
Proof.
  split.
  - intros x. induction x as [|a x IH]; intros [|b y]; cbn; try done. destruct (Z.ltb_spec a b), (Z.ltb_spec b a); try lia; [done..|apply IH].
  - intros x. induction x as [|a x IH]; intros [|b y] [|c z]; cbn; try lia.
    destruct (Z.ltb_spec a b), (Z.ltb_spec b a), (Z.ltb_spec b c), (Z.ltb_spec c b), (Z.ltb_spec a c), (Z.ltb_spec c a); try lia. apply IH.
Qed.

(** The same authorization with its properties in two orders. *)
Definition grant : value := VObject [(lit "action", VString (lit "deploy-flow")); (lit "scope", VArray [VNumber (Some 3); VObject [(lit "b", VNull); (lit "a", VBool true)]])].
Definition regrant : value := VObject [(lit "scope", VArray [VNumber (Some 3); VObject [(lit "a", VBool true); (lit "b", VNull)]]); (lit "action", VString (lit "deploy-flow"))].

Lemma canonical_bytes_identify_content_witness :
  plain unit_compare grant = true /\ plain unit_compare regrant = true /\ canonicalBytes unit_compare grant = canonicalBytes unit_compare regrant /\
  (exists b, canonicalBytes unit_compare grant = Ok b).
Proof.
  assert (Hg : plain unit_compare grant = true) by (vm_compute; reflexivity). assert (Hr : plain unit_compare regrant = true) by (vm_compute; reflexivity).
  destruct (canonical_bytes_identify_content unit_compare grant regrant unit_compare_consistent Hg Hr) as [Hok [_ H]].
  split; [exact Hg|]. split; [exact Hr|]. split; [apply H|exact Hok].
  eapply same_object; [apply perm_swap|]. constructor; [split; [reflexivity|]|constructor; [split; [reflexivity|]|constructor]]; cbn [snd].
  - constructor. constructor; [by constructor|]. constructor; [|constructor].
    eapply same_object; [apply perm_swap|]. constructor; [split; [reflexivity|by constructor]|constructor; [split; [reflexivity|by constructor]|constructor]].
  - by constructor.
Defined.

(** ** What is not told apart, and what is *)

(** Keys that compare as equal, such as a letter with its accent written as one unit or as two, stay in the order in which they were added:
    two objects with the same content have different bytes. *)
Theorem tied_keys_keep_their_order localeCompare :
  localeCompare [233] [101; 769] = 0 -> localeCompare [101; 769] [233] = 0 ->
  let v := VObject [([233], VNumber (Some 1)); ([101; 769], VNumber (Some 2))] in
  let w := VObject [([101; 769], VNumber (Some 2)); ([233], VNumber (Some 1))] in
  same_content v w /\ is_ok (canonicalBytes localeCompare v) = true /\ canonicalBytes localeCompare v <> canonicalBytes localeCompare w.
Proof.
  intros H1 H2 v w. split_and!.
  - eapply same_object; [apply perm_swap|]. by repeat constructor.
  - by rewrite canonical_refusals.
  - unfold canonicalBytes, stableStringify, v, w. cbn. unfold key_le. cbn. rewrite H1, H2. cbn. by vm_compute.
Qed.

(** Two hosts whose locales order two keys differently give the same object different bytes. *)
Theorem locale_changes_bytes here there :
  here [228] [122] < 0 -> here [122] [228] > 0 -> there [228] [122] > 0 -> there [122] [228] < 0 ->
  let v := VObject [([122], VNumber (Some 1)); ([228], VNumber (Some 2))] in
  plain here v = true /\ plain there v = true /\ canonicalBytes here v <> canonicalBytes there v.
Proof.
  intros H1 H2 H3 H4 v.
  assert (Hd : forall lc, lc [228] [122] <> 0 -> lc [122] [228] <> 0 -> plain lc v = true).
  { intros lc Ha Hb. cbn. apply Z.eqb_neq in Ha, Hb. by rewrite Ha, Hb, !orb_true_r. }
  split_and!; [apply Hd; lia..|]. unfold canonicalBytes, stableStringify, v. cbn. unfold key_le. cbn.
  rewrite (proj2 (Z.leb_gt (here _ _) 0)), (proj2 (Z.leb_le (there _ _) 0)) by lia. by vm_compute.
Qed.

(** An object that spells out the marker of bytes has the bytes of the array it names. *)
Theorem marked_object_passes_as_bytes localeCompare b :
  localeCompare (lit "__type") (lit "base64") < 0 ->
  canonicalBytes localeCompare (VObject [(lit "__type", VString (lit "bytes")); (lit "base64", VString (bytesToBase64 b))]) = canonicalBytes localeCompare (VBytes b).
Proof.
  intros H. unfold canonicalBytes, stableStringify. cbn [normalizeCanonicalValue map fst snd List.filter is_undefined negb sort_by foldr insert_sorted].
  unfold key_le. cbn [fst snd]. rewrite (proj2 (Z.leb_le _ _)) by lia. reflexivity.
Qed.
