(* ===== verification/InvokeTypes.v ===== *)
(** The fields of invocation frames (src/invoke/codec.js): the numbers, enumerations, type references and frame ids a caller
    may write in several ways, and their normal forms.

    A view of bytes ([Uint8Array]) is its buffer, its offset in it and its bytes; the codec never writes to a view it is given.
    A frame is the object a caller passes or a decoder returns: [f_key] is its identity, [f_lease] the lease it refers to.
    Of two spellings of a field the first that is defined counts; a generation that is no integer equals none. *)
From Stdlib Require Import ZArith QArith Lia.
From stdpp Require Import base list strings numbers.
From S2P Require Import Prelude JsText JsMap JsNumber TypeRefs.
Open Scope Z_scope.

(** ** Values as they are given *)

Record view := View { buffer : Z; byteOffset : Z; content : list Z }.
Abbreviation byte_length v := (blen (content v)).

(** A number as a caller gives it. *)
Inductive raw_num := NumUndefined | NumNull | NumOf (n : jsnum) | NumText (s : jsstring) | NumBig (z : Z).
(** A value that is read as a bigint. *)
Inductive raw_big := BigUndefined | BigNull | BigOf (z : Z) | BigNum (n : jsnum) | BigText (s : jsstring) | BigOther.
Inductive raw_enum := EnumAbsent | EnumNum (z : Z) | EnumText (s : jsstring) | EnumOther.

Inductive mutability := Immutable | AppendOnly | Mutable.
Inductive ownership := Borrowed | ProducerOwned | HostOwned | Shared.
#[export] Instance mutability_eq_dec : EqDecision mutability.
Proof. solve_decision. Defined.
#[export] Instance ownership_eq_dec : EqDecision ownership.
Proof. solve_decision. Defined.

(** The enumerations on the wire; a buffer may hold a value that none of them has. *)
Inductive sds_mutability := SdsImmutable | SdsAppendOnly | SdsSingleWriterMutable.
Inductive sds_ownership := SdsHostOwned | SdsPluginOwned | SdsTransferred.
Inductive sds (A : Type) := Known (a : A) | Unknown (z : Z).
Arguments Known {A} a.
Arguments Unknown {A} z.

Definition UINT16_MAX : Z := 0xffff.
Definition UINT32_MAX : Z := 0xffffffff.
Definition INVOKE_ARENA_ALIGNMENT : Z := 8.

(** ** Numbers *)

Definition defined_num (v : raw_num) : bool := match v with NumUndefined | NumNull => false | _ => true end.
Definition firstDefined (a b : raw_num) : raw_num := if defined_num a then a else if defined_num b then b else NumUndefined.

Definition out_of_range (description : string) : js_error := RangeError (description ++ " must be an integer in its range.").
Definition readBoundedInteger (value : raw_num) (description : string) (defaultValue : option Z) (minimum maximum : Z) : result Z :=
  let bounded (normalized : option Z) : result Z :=
    match normalized with
    | Some z => throw_if negb (is_safe_integer z) || (z <? minimum) || (maximum <? z) with out_of_range description; Ok z
    | None => Throw (out_of_range description)
    end in
  match value with
  | NumUndefined | NumNull | NumText [] =>
      match defaultValue with Some d => Ok d | None => Throw (TypeError (description ++ " is required.")) end
  | NumBig z => throw_if (z <? minimum) || (maximum <? z) with out_of_range description; bounded (Some z)
  | NumOf n => bounded (as_integer n)
  | NumText s => bounded (as_integer (to_number s))
  end.

(** [Number.isInteger(Math.log2(value))]: below [2 ^ 32] the logarithm of a number between two powers of two does not round to an integer. *)
Definition isPositivePowerOfTwo (value : Z) : bool := (0 <? value) && (2 ^ Z.log2 value =? value).

Definition readAlignment (value : raw_num) (description : string) (defaultValue : option Z) (maximum : Z) : result Z :=
  let! alignment := readBoundedInteger value description defaultValue 0 maximum in
  throw_if negb (isPositivePowerOfTwo alignment) with RangeError (description ++ " must be a positive power of two.");
  Ok alignment.

Definition assertUint32FrameRange (offset size : Z) (description : string) : result unit :=
  throw_if UINT32_MAX - size <? offset with RangeError (description ++ " offset + size exceeds the uint32 address range.");
  Ok tt.

(** [Math.trunc] of a finite number. *)
Definition normalizeUnsignedInteger (value : raw_num) : Z :=
  let trunc (n : jsnum) : Z := match n with Fin q => Z.max 0 (q_trunc q) | _ => 0 end in
  match value with
  | NumUndefined | NumNull => 0
  | NumOf n => trunc n
  | NumText s => trunc (to_number s)
  | NumBig z => Z.max 0 (to_double z)
  end.

(** [BigInt(text)] of a text without surrounding space. *)
Definition digits_value (base : Z) (s : jsstring) : option Z :=
  match s with [] => None | _ => option_map (from_digits base) (digits_in base s) end.
Definition parse_bigint (s : jsstring) : option Z :=
  match s with
  | 43 :: s => digits_value 10 s
  | 45 :: s => option_map Z.opp (digits_value 10 s)
  | 48 :: c :: r => if lower c =? 120 then digits_value 16 r else if lower c =? 111 then digits_value 8 r else if lower c =? 98 then digits_value 2 r else digits_value 10 s
  | _ => digits_value 10 s
  end.
Definition normalizeBigInt (value : raw_big) : Z :=
  match value with
  | BigOf z => z
  | BigNum (Fin q) => q_trunc q
  | BigText s => match trim s with [] => 0 | t => default 0 (parse_bigint t) end
  | _ => 0
  end.

(** ** Enumerations *)

Definition text_among (l : list string) (s : jsstring) : bool := existsb (fun t => str_eqb s (lit t)) l.

(** A value that is no text has the empty normal form. *)
Definition normalizePayloadWireFormat (value : raw_wire) : result wire_format :=
  let normalized := match value with WireText s => map lower (trim s) | _ => [] end in
  let is_num (z : Z) := match value with WireNum n => n =? z | _ => false end in
  if is_num 1 || text_among ["aligned-binary"; "aligned_binary"; "alignedbinary"]%string normalized then Ok AlignedBinary
  else if match value with WireAbsent => true | _ => false end || is_num 0 || bool_decide (normalized = []) || text_among ["flatbuffer"]%string normalized then Ok FlatBuffer
  else Throw (TypeError "Unsupported SDS PIV/TAB wire format.").

Definition fromSdsWireFormat (value : sds wire_format) : result wire_format :=
  match value with Known w => Ok w | Unknown _ => Throw (TypeError "Unsupported SDS PIV/TAB wire format value.") end.

Definition is_enum (value : raw_enum) (n : Z) (names : list string) : bool :=
  match value with EnumNum z => z =? n | EnumText s => text_among names s | _ => false end.

Definition toSdsMutability (value : raw_enum) : result sds_mutability :=
  if match value with EnumAbsent => true | _ => false end || is_enum value 0 ["immutable"; "IMMUTABLE"]%string then Ok SdsImmutable
  else if is_enum value 1 ["append-only"; "APPEND_ONLY"]%string then Ok SdsAppendOnly
  else if is_enum value 2 ["mutable"; "single-writer-mutable"; "SINGLE_WRITER_MUTABLE"]%string then Ok SdsSingleWriterMutable
  else Throw (TypeError "Unsupported SDS PIV/TAB mutability.").
Definition fromSdsMutability (value : sds sds_mutability) : result mutability :=
  match value with
  | Known SdsAppendOnly => Ok AppendOnly
  | Known SdsSingleWriterMutable => Ok Mutable
  | Known SdsImmutable => Ok Immutable
  | Unknown _ => Throw (TypeError "Unsupported SDS PIV/TAB mutability value.")
  end.

Definition toSdsOwnership (value : raw_enum) : result sds_ownership :=
  if match value with EnumAbsent => true | _ => false end || is_enum value 0 ["borrowed"; "BORROWED"]%string
     || is_enum value 2 ["host-owned"; "host_owned"; "HOST_OWNED"]%string then Ok SdsHostOwned
  else if is_enum value 1 ["producer-owned"; "producer_owned"; "PRODUCER_OWNED"; "plugin-owned"; "plugin_owned"; "PLUGIN_OWNED"]%string then Ok SdsPluginOwned
  else if is_enum value 3 ["shared"; "SHARED"; "transferred"; "TRANSFERRED"]%string then Ok SdsTransferred
  else Throw (TypeError "Unsupported SDS PIV/TAB ownership.").
Definition fromSdsOwnership (value : sds sds_ownership) : result ownership :=
  match value with
  | Known SdsPluginOwned => Ok ProducerOwned
  | Known SdsTransferred => Ok Shared
  | Known SdsHostOwned => Ok HostOwned
  | Unknown _ => Throw (TypeError "Unsupported SDS PIV/TAB ownership value.")
  end.

Definition normalizeFrameMutability (value : raw_enum) : result mutability := let! m := toSdsMutability value in fromSdsMutability (Known m).
Definition normalizeFrameOwnership (value : raw_enum) : result ownership := let! o := toSdsOwnership value in fromSdsOwnership (Known o).

(** The numbers of the generated enumerations, as a normalised frame carries them. *)
Definition mutability_enum (m : mutability) : raw_enum := EnumNum (match m with Immutable => 0 | AppendOnly => 1 | Mutable => 2 end).
Definition ownership_enum (o : ownership) : raw_enum := EnumNum (match o with Borrowed => 0 | ProducerOwned => 1 | HostOwned => 2 | Shared => 3 end).

(** ** Type references *)

Record type_in := TypeIn {
  i_schemaName : option jsstring; i_fileIdentifier : option jsstring; i_schemaVersion : option jsstring; i_rootTypeName : option jsstring;
  i_schemaHash : hash_value; i_acceptsAny : bool; i_wireFormat : raw_wire;
  i_fixedStringLength : raw_num; i_byteLength : raw_num; i_requiredAlignment : raw_num
}.
(** The type reference of a buffer; its wire format is the one of the frame. *)
Record sds_type := SdsType {
  s_schemaName : option jsstring; s_fileIdentifier : option jsstring; s_schemaVersion : option jsstring; s_rootType : option jsstring;
  s_schemaHash : list Z; s_acceptsAny : bool; s_wireFormat : wire_format; s_fixedStringLength : Z; s_byteLength : Z; s_requiredAlignment : Z
}.

Definition wire_defined (w : raw_wire) : bool := match w with WireAbsent => false | _ => true end.
Definition first_wire (a b : raw_wire) : raw_wire := if wire_defined a then a else b.

Definition toSdsFlatBufferTypeRefT (value : type_in) (wire : wire_format) : result sds_type :=
  throw_if negb (isPayloadSchemaHashValid (i_schemaHash value)) with TypeError "SDS PIV/TAB schemaHash must contain valid bytes or hex.";
  let! normalizedWireFormat := (if wire_defined (i_wireFormat value) then normalizePayloadWireFormat (i_wireFormat value) else Ok wire) in
  let! fixed := readBoundedInteger (i_fixedStringLength value) "SDS PIV/TAB fixedStringLength" (Some 0) 0 UINT16_MAX in
  let! len := readBoundedInteger (i_byteLength value) "SDS PIV/TAB byteLength" (Some 0) 0 UINT32_MAX in
  let! required := readBoundedInteger (i_requiredAlignment value) "SDS PIV/TAB requiredAlignment" (Some 0) 0 UINT16_MAX in
  Ok (SdsType (i_schemaName value) (i_fileIdentifier value) (i_schemaVersion value) (i_rootTypeName value)
        (default [] (normalizePayloadSchemaHash (i_schemaHash value))) (i_acceptsAny value) normalizedWireFormat fixed len required).

(** ** Frames *)

(** [endOfStream]: [undefined], [true], or another value. *)
Inductive raw_flag := FlagUndefined | FlagTrue | FlagOther.

Record frame := Frame {
  f_key : Z; f_payload : option view; f_typeRef : type_in; f_wireFormat : raw_wire; f_alignment : raw_num; f_offset : raw_num; f_size : raw_num;
  f_mutability : raw_enum; f_ownership : raw_enum; f_frameId : raw_big; f_sequence : raw_big; f_endOfStream : raw_flag; f_traceId : raw_big;
  f_portId : option jsstring; f_lease : option Z; f_generation : option Z; f_arenaGeneration : option Z
}.
Definition NO_TYPE : type_in := TypeIn None None None None HashAbsent false WireAbsent NumUndefined NumUndefined NumUndefined.
Definition frame_generation (f : frame) : option Z := match f_generation f with Some g => Some g | None => f_arenaGeneration f end.

(** The type of a frame and its wire format. *)
Definition normalizeFrameTypeRef (f : frame) : result (sds_type * wire_format) :=
  let typeRefInput := f_typeRef f in
  let! wire := normalizePayloadWireFormat (first_wire (i_wireFormat typeRefInput) (f_wireFormat f)) in
  let! _ := (if wire_defined (i_wireFormat typeRefInput) && wire_defined (f_wireFormat f) then
               let! a := normalizePayloadWireFormat (i_wireFormat typeRefInput) in
               let! b := normalizePayloadWireFormat (f_wireFormat f) in
               throw_if negb (bool_decide (a = b)) with Error "SDS PIV/TAB frame and typeRef wire formats disagree."; Ok tt
             else Ok tt) in
  let! typeRef := toSdsFlatBufferTypeRefT typeRefInput wire in
  if bool_decide (wire = AlignedBinary) then
    let! required := readAlignment (NumOf (int_num (s_requiredAlignment typeRef))) "SDS PIV/TAB aligned type requiredAlignment" None UINT16_MAX in
    let! len := readBoundedInteger (NumOf (int_num (s_byteLength typeRef))) "SDS PIV/TAB aligned type byteLength" None 0 UINT32_MAX in
    Ok (SdsType (s_schemaName typeRef) (s_fileIdentifier typeRef) (s_schemaVersion typeRef) (s_rootType typeRef) (s_schemaHash typeRef)
          (s_acceptsAny typeRef) (s_wireFormat typeRef) (s_fixedStringLength typeRef) len required, wire)
  else
    throw_if (0 <? s_requiredAlignment typeRef) && negb (isPositivePowerOfTwo (s_requiredAlignment typeRef))
      with RangeError "SDS PIV/TAB type requiredAlignment must be a positive power of two when declared.";
    Ok (typeRef, wire).

Definition resolveFrameAlignment (f : frame) (requiredAlignment : Z) : result Z :=
  let! alignment := readAlignment (f_alignment f) "SDS PIV/TAB frame alignment"
                      (Some (Z.max INVOKE_ARENA_ALIGNMENT (if requiredAlignment =? 0 then 1 else requiredAlignment))) UINT32_MAX in
  throw_if alignment <? requiredAlignment with RangeError "SDS PIV/TAB frame alignment is below required alignment.";
  Ok alignment.

Definition assertAlignedFrameSize (wire : wire_format) (typeRef : sds_type) (size : Z) : result unit :=
  if bool_decide (wire <> AlignedBinary) then Ok tt
  else throw_if (0 <? s_byteLength typeRef) && negb (size =? s_byteLength typeRef) with RangeError "SDS PIV/TAB aligned payload size does not match declared byteLength.";
       Ok tt.

Definition encodeSdsFrameId (f : frame) : Z :=
  match f_frameId f with
  | BigUndefined | BigNull =>
      if match f_sequence f with BigUndefined => false | _ => true end || match f_endOfStream f with FlagUndefined => false | _ => true end then
        Z.lor (Z.shiftl (normalizeBigInt (f_sequence f)) 1) (match f_endOfStream f with FlagTrue => 1 | _ => 0 end)
      else normalizeBigInt (f_traceId f)
  | id => normalizeBigInt id
  end.

Definition decodeSdsFrameId (frameId : Z) : Z * bool := (Z.shiftr frameId 1, Z.land frameId 1 =? 1).

Definition alignOffset (offset alignment : Z) : Z :=
  if alignment <=? 1 then offset
  else let remainder := offset mod alignment in if remainder =? 0 then offset else offset + alignment - remainder.

(** The surfaces of an artifact, each once, in the order of their first mention. *)
Inductive invoke_surface := Direct | Command.
#[export] Instance invoke_surface_eq_dec : EqDecision invoke_surface.
Proof. solve_decision. Defined.
Definition normalizeInvokeSurfaceName (value : raw_enum) : option invoke_surface :=
  if is_enum value 1 ["command"]%string then Some Command else if is_enum value 0 ["direct"]%string then Some Direct else None.
Definition normalizeInvokeSurfaces (value : option (list raw_enum)) : list invoke_surface :=
  let add (surfaces : list invoke_surface) (entry : raw_enum) :=
    match normalizeInvokeSurfaceName entry with
    | Some n => if bool_decide (n ∈ surfaces) then surfaces else surfaces ++ [n]
    | None => surfaces
    end in
  fold_left add (default [] value) [].

(** ** Facts about the fields *)

(** [Ok] of a check that may throw. *)
Ltac pass_guard H := match type of H with (if ?b then Throw _ else _) = Ok _ => destruct b eqn:?; [discriminate H|] end.

Lemma read_bounded value d dflt lo hi z : readBoundedInteger value d dflt lo hi = Ok z -> dflt = Some z \/ lo <= z <= hi.
Proof.
  unfold readBoundedInteger. cbn zeta beta. intros H.
  assert (Hb : forall o : option Z, match o with
     | Some z0 => if negb (is_safe_integer z0) || (z0 <? lo) || (hi <? z0) then Throw (out_of_range d) else Ok z0
     | None => Throw (out_of_range d) end = Ok z -> lo <= z <= hi).
  { intros [z0|] E; [|done]. destruct (_ || _ || _) eqn:Eb; [done|]. injection E as ->. apply orb_false_iff in Eb as [Eb ?]. apply orb_false_iff in Eb as [_ ?]. lia. }
  destruct value as [| |n|[|c s]|z0]; try (right; exact (Hb (as_integer _) H)); try (destruct dflt; [injection H as ->; by left|done]).
  right. pass_guard H. exact (Hb (Some z0) H).
Qed.

Lemma power_of_two v : isPositivePowerOfTwo v = true -> exists k, 0 <= k /\ v = 2 ^ k.
Proof. unfold isPositivePowerOfTwo. intros H. exists (Z.log2 v). pose proof (Z.log2_nonneg v). split; [done|lia]. Qed.

Lemma power_is_power k : 0 <= k -> isPositivePowerOfTwo (2 ^ k) = true.
Proof. intros Hk. unfold isPositivePowerOfTwo. rewrite Z.log2_pow2 by done. pose proof (Z.pow_pos_nonneg 2 k). lia. Qed.

(** A power of two divides a greater one. *)
Lemma power_divides a b : isPositivePowerOfTwo a = true -> isPositivePowerOfTwo b = true -> a <= b -> (a | b).
Proof.
  intros (i & Hi & ->)%power_of_two (j & Hj & ->)%power_of_two Hab. exists (2 ^ (j - i)). rewrite <- Z.pow_add_r; [f_equal; lia| |done].
  apply Z.pow_le_mono_r_iff in Hab; lia.
Qed.

Lemma read_alignment value d dflt hi z : readAlignment value d dflt hi = Ok z -> isPositivePowerOfTwo z = true /\ (dflt = Some z \/ 0 <= z <= hi).
Proof.
  unfold readAlignment. intros H. js_inv H. split; [by apply negb_false_iff|]. by apply read_bounded in E.
Qed.

(** A type reference in its normal form. *)
Record type_ok (t : sds_type) (w : wire_format) : Prop := {
  tok_wire : s_wireFormat t = w; tok_fixed : 0 <= s_fixedStringLength t <= UINT16_MAX; tok_length : 0 <= s_byteLength t <= UINT32_MAX;
  tok_required : 0 <= s_requiredAlignment t <= UINT16_MAX; tok_power : 0 < s_requiredAlignment t -> isPositivePowerOfTwo (s_requiredAlignment t) = true;
  tok_aligned : w = AlignedBinary -> 0 < s_requiredAlignment t
}.

Lemma to_sds_type i w t : toSdsFlatBufferTypeRefT i w = Ok t ->
  (if wire_defined (i_wireFormat i) then normalizePayloadWireFormat (i_wireFormat i) = Ok (s_wireFormat t) else s_wireFormat t = w) /\
  0 <= s_fixedStringLength t <= UINT16_MAX /\ 0 <= s_byteLength t <= UINT32_MAX /\ 0 <= s_requiredAlignment t <= UINT16_MAX.
Proof.
  unfold toSdsFlatBufferTypeRefT. intros H. js_inv H. cbn. apply read_bounded in E1, E2, E3. split; [by destruct (wire_defined _); [|injection E0 as ->]|].
  unfold UINT16_MAX, UINT32_MAX in *. split_and!; try (destruct E1 as [[= <-]|]; lia); try (destruct E2 as [[= <-]|]; lia); destruct E3 as [[= <-]|]; lia.
Qed.

Lemma normal_type f t w : normalizeFrameTypeRef f = Ok (t, w) -> type_ok t w.
Proof.
  unfold normalizeFrameTypeRef. intros H. js_inv H. apply to_sds_type in E1 as (Hw & Hf & Hl & Hr).
  assert (Hwire : s_wireFormat x1 = x).
  { unfold first_wire in E. destruct (wire_defined (i_wireFormat (f_typeRef f))); [congruence|done]. }
  destruct (bool_decide_reflect (x = AlignedBinary)).
  - js_inv H. apply read_alignment in E1 as [Hp [[=]|Hp']]. apply read_bounded in E2 as [[=]|Hb].
    unfold isPositivePowerOfTwo in Hp. split; cbn; try done; lia.
  - js_inv H. split; try done. intros Hp. apply andb_false_iff in E1 as [?|Hn]; [lia|by apply negb_false_iff].
Qed.

Lemma resolved_alignment f t w a : type_ok t w -> resolveFrameAlignment f (s_requiredAlignment t) = Ok a ->
  isPositivePowerOfTwo a = true /\ s_requiredAlignment t <= a <= UINT32_MAX.
Proof.
  intros [_ _ _ Hr Hp _] H. unfold resolveFrameAlignment in H. js_inv H. apply read_alignment in E as [Hpw [[= <-]|Hb]]; split; try done; try lia.
  unfold INVOKE_ARENA_ALIGNMENT, UINT32_MAX, UINT16_MAX in *. destruct (s_requiredAlignment t =? 0); lia.
Qed.

Lemma alignOffset_aligned offset a : 0 < a -> offset <= alignOffset offset a < offset + a /\ (a | alignOffset offset a).
Proof.
  intros Ha. unfold alignOffset. destruct (Z.leb_spec a 1).
  - assert (a = 1) as -> by lia. split; [lia|apply Z.divide_1_l].
  - pose proof (Z.mod_pos_bound offset a). pose proof (Z.div_mod offset a). destruct (Z.eqb_spec (offset mod a) 0).
    + split; [lia|]. by apply Z.mod_divide; [lia|].
    + split; [lia|]. exists (offset / a + 1). lia.
Qed.

(** The sequence number and the end-of-stream mark travel in the frame id. *)
Lemma frame_id_roundtrip f : f_frameId f = BigUndefined -> f_sequence f <> BigUndefined ->
  decodeSdsFrameId (encodeSdsFrameId f) = (normalizeBigInt (f_sequence f), match f_endOfStream f with FlagTrue => true | _ => false end).
Proof.
  intros Hid Hs. unfold encodeSdsFrameId, decodeSdsFrameId. rewrite Hid. set (s := normalizeBigInt (f_sequence f)).
  set (b := match f_endOfStream f with FlagTrue => true | _ => false end).
  replace (match f_sequence f with BigUndefined => false | _ => true end) with true by by destruct (f_sequence f). cbn [orb].
  replace (match f_endOfStream f with FlagTrue => 1 | _ => 0 end) with (Z.b2z b) by by (subst b; destruct (f_endOfStream f)).
  rewrite Z.shiftr_lor, Z.shiftr_shiftl_l by lia. change (1 - 1) with 0. rewrite Z.shiftl_0_r, Z.land_lor_distr_l.
  replace (Z.land (Z.shiftl s 1) 1) with 0 by (change 1 with (Z.ones 1) at 2; rewrite Z.land_ones, Z.shiftl_mul_pow2 by lia; symmetry; apply Z.mod_mul; lia).
  destruct b; cbn; by rewrite Z.lor_0_r.
Qed.

Lemma normal_mutability m : normalizeFrameMutability (mutability_enum m) = Ok m.
Proof. by destruct m. Qed.

(** ** A defect *)

(** A wire format that is neither a text nor 0 or 1 is read as FlatBuffer: the check for the empty text comes first. *)
Theorem unknown_wire_number_is_flatbuffer z : z <> 1 -> normalizePayloadWireFormat (WireNum z) = Ok FlatBuffer.
Proof. intros Hz. unfold normalizePayloadWireFormat. cbn. rewrite (proj2 (Z.eqb_neq z 1)) by done. cbn. by destruct (z =? 0). Qed.
