(* ===== verification/InvokeLease.v ===== *)
(** Leases on the arenas of invocations and the forwarding of frames between them (src/invoke/codec.js).

    The weak maps of the source are the maps of [arenas]: the state of each lease, the transfers behind the tokens, and the
    receipts of forwarded frames, by the identity of the lease, the token and the frame. [next] is the next identity.
    The operations on them form runs ([arena_step]); the theorems hold in every run. *)
From Stdlib Require Import ZArith QArith Lia.
From stdpp Require Import base list gmap strings numbers.
From S2P Require Import Prelude JsText JsMap JsNumber TypeRefs InvokeTypes.
Open Scope Z_scope.

(** ** State *)

Record lease := Lease { l_arena : view; l_generation : Z; l_closed : bool }.
Record transfer := Transfer {
  t_lease : Z; t_generation : Z; t_buffer : Z; t_byteOffset : Z; t_byteLength : Z; t_frameId : Z;
  t_ownership : ownership; t_mutability : mutability; t_consumed : bool
}.
Record arenas := Arenas { leases : gmap Z lease; transfers : gmap Z transfer; receipts : gmap Z transfer; next : Z }.
Definition NO_ARENAS : arenas := Arenas ∅ ∅ ∅ 0.

(** ** Checks *)

Definition within (v arena : view) : bool :=
  (buffer v =? buffer arena) && (byteOffset arena <=? byteOffset v) && (byteOffset v + byte_length v <=? byteOffset arena + byte_length arena).
Definition assertViewWithinArena (v arena : view) (description : string) : result unit :=
  throw_if negb (within v arena) with Error (description ++ " is outside its arena lease."); Ok tt.

Definition requireArenaLeaseState (s : arenas) (l : Z) : result lease :=
  match leases s !! l with Some st => Ok st | None => Throw (TypeError "SDS PIV/TAB arena lease is invalid.") end.

Definition assertLiveArenaLease (s : arenas) (l : Z) (generation : option Z) (payload : option view) (description : string) : result lease :=
  let! state := requireArenaLeaseState s l in
  throw_if l_closed state with Error (description ++ " arena lease is closed.");
  throw_if bool_decide (generation <> Some (l_generation state)) with Error (description ++ " has stale arena lease generation.");
  let! _ := match payload with Some p => assertViewWithinArena p (l_arena state) description | None => Ok tt end in
  Ok state.

(** [None]: the frame refers to no lease. *)
Definition assertFrameArenaLease (s : arenas) (f : frame) (description : string) (required : bool) : result (option lease) :=
  match f_lease f with
  | None => throw_if required with Error (description ++ " requires a live arena lease."); Ok None
  | Some l => let! state := assertLiveArenaLease s l (frame_generation f) (f_payload f) description in Ok (Some state)
  end.

(** The receipt of a forwarded frame matches what the frame says now. *)
Definition receipt_matches (r : transfer) (f : frame) (o : ownership) (m : mutability) : bool :=
  bool_decide (o = Shared) && bool_decide (f_lease f = Some (t_lease r)) && bool_decide (frame_generation f = Some (t_generation r)) &&
  match f_payload f with
  | Some p => (t_buffer r =? buffer p) && (t_byteOffset r =? byteOffset p) && (t_byteLength r =? byte_length p)
  | None => false
  end && (t_frameId r =? encodeSdsFrameId f) && bool_decide (t_ownership r = o) && bool_decide (t_mutability r = m).

Definition assertRetainedAliasSafe (s : arenas) (f : frame) (description : string) : result (option lease) :=
  let! leaseState := assertFrameArenaLease s f description false in
  match leaseState with
  | None => Ok None
  | Some state =>
      let! o := normalizeFrameOwnership (f_ownership f) in
      let! m := normalizeFrameMutability (f_mutability f) in
      if bool_decide (o = ProducerOwned) || bool_decide (m <> Immutable) then
        if match receipts s !! f_key f with Some r => receipt_matches r f o m | None => false end then Ok (Some state)
        else Throw (Error (description ++ " producer-owned or mutable cross-invocation alias requires explicit compatible transfer forwarding."))
      else Ok (Some state)
  end.

(** ** Operations of a lease *)

Definition createInvokeArenaLease (s : arenas) (arenaInput : option view) (generation : raw_num) : result (Z * arenas) :=
  match arenaInput with
  | None => Throw (TypeError "createInvokeArenaLease requires Uint8Array-compatible arena bytes.")
  | Some arena =>
      let! g := readBoundedInteger generation "SDS PIV/TAB arena lease generation" (Some 1) 0 UINT32_MAX in
      Ok (next s, Arenas (<[next s := Lease arena g false]> (leases s)) (transfers s) (receipts s) (next s + 1))
  end.

(** What [advance] is given: nothing, bytes, or something else. *)
Inductive next_arena := SameArena | NextArena (v : view) | NoArena.

Definition advance (s : arenas) (l : Z) (nextArenaInput : next_arena) : result (Z * arenas) :=
  let! state := requireArenaLeaseState s l in
  throw_if l_closed state with Error "SDS PIV/TAB arena lease is closed.";
  throw_if UINT32_MAX <=? l_generation state with RangeError "SDS PIV/TAB arena lease generation exceeds the uint32 range.";
  let! arena := match nextArenaInput with
                | SameArena => Ok (l_arena state)
                | NextArena v => Ok v
                | NoArena => Throw (TypeError "SDS PIV/TAB arena lease advance requires Uint8Array-compatible bytes.")
                end in
  let g := l_generation state + 1 in
  Ok (g, Arenas (<[l := Lease arena g false]> (leases s)) (transfers s) (receipts s) (next s)).

Definition close (s : arenas) (l : Z) : result arenas :=
  let! state := requireArenaLeaseState s l in
  Ok (Arenas (<[l := Lease (l_arena state) (l_generation state) true]> (leases s)) (transfers s) (receipts s) (next s)).

Definition or_enum (a b : raw_enum) : raw_enum := match a with EnumAbsent => b | _ => a end.

(** [option_ownership] and [option_mutability] are the options of the call. *)
Definition createTransferToken (s : arenas) (l : Z) (f : frame) (option_ownership option_mutability : raw_enum) : result (Z * arenas) :=
  let! frameState := assertFrameArenaLease s f "SDS PIV/TAB arena transfer" true in
  throw_if bool_decide (f_lease f <> Some l) with Error "SDS PIV/TAB arena transfer frame belongs to a different lease.";
  let! o := normalizeFrameOwnership (or_enum option_ownership (EnumText (lit "transferred"))) in
  throw_if bool_decide (o <> Shared) with Error "SDS PIV/TAB arena transfer ownership must be transferred/shared.";
  let! m := normalizeFrameMutability (or_enum option_mutability (f_mutability f)) in
  match f_payload f, frameState with
  | Some p, Some state =>
      Ok (next s, Arenas (leases s)
        (<[next s := Transfer l (l_generation state) (buffer p) (byteOffset p) (byte_length p) (encodeSdsFrameId f) o m false]> (transfers s))
        (receipts s) (next s + 1))
  | _, _ => Throw (TypeError "Cannot read properties of null (reading 'buffer')")
  end.

(** ** Forwarding *)

Definition consumed (t : transfer) : transfer :=
  Transfer (t_lease t) (t_generation t) (t_buffer t) (t_byteOffset t) (t_byteLength t) (t_frameId t) (t_ownership t) (t_mutability t) true.

Definition token_matches (t : transfer) (f : frame) (p : view) : bool :=
  bool_decide (f_lease f = Some (t_lease t)) && bool_decide (frame_generation f = Some (t_generation t)) && (t_buffer t =? buffer p) &&
  (t_byteOffset t =? byteOffset p) && (t_byteLength t =? byte_length p) && (t_frameId t =? encodeSdsFrameId f).

Definition consumeArenaTransferToken (s : arenas) (token : Z) (outputFrame : frame) (payload : view) : result (transfer * arenas) :=
  match transfers s !! token with
  | None => Throw (TypeError "SDS PIV/TAB arena transfer token is invalid.")
  | Some t =>
      throw_if t_consumed t with Error "SDS PIV/TAB arena transfer token was already consumed.";
      throw_if negb (token_matches t outputFrame payload) with Error "SDS PIV/TAB arena transfer token is incompatible with this frame.";
      let! _ := assertLiveArenaLease s (t_lease t) (Some (t_generation t)) (Some payload) "SDS PIV/TAB arena transfer" in
      Ok (consumed t, Arenas (leases s) (<[token := consumed t]> (transfers s)) (receipts s) (next s))
  end.

(** The overrides of a forwarding; [v_endOfStream] is [None] when it is not given. *)
Record overrides := Overrides {
  v_portId : option jsstring; v_typeRef : option type_in; v_alignment : raw_num; v_ownership : raw_enum; v_mutability : raw_enum;
  v_traceId : raw_big; v_sequence : raw_big; v_endOfStream : option raw_flag; v_copyCanonical : bool; v_arenaTransfer : option Z
}.
Definition NO_OVERRIDES : overrides := Overrides None None NumUndefined EnumAbsent EnumAbsent BigUndefined BigUndefined None false None.

Definition defined_big (b : raw_big) : bool := match b with BigUndefined | BigNull => false | _ => true end.
Definition or_big (a b : raw_big) : raw_big := if defined_big a then a else b.
Definition or_num (a b : raw_num) : raw_num := if defined_num a then a else b.
(** [endOfStream === true || undefined] *)
Definition true_flag (f : raw_flag) : raw_flag := match f with FlagTrue => FlagTrue | _ => FlagUndefined end.
(** [alignment > 0 ? alignment : undefined] *)
Definition positive_num (n : raw_num) : raw_num :=
  let pos (j : jsnum) := match j with Fin q => q_pos q | PosInf => true | _ => false end in
  match n with
  | NumOf j => if pos j then n else NumUndefined
  | NumText t => if pos (to_number t) then n else NumUndefined
  | NumBig z => if 0 <? z then n else NumUndefined
  | _ => NumUndefined
  end.
Definition wire_text (w : wire_format) : raw_wire := WireText (match w with AlignedBinary => lit "aligned-binary" | FlatBuffer => lit "flatbuffer" end).

Definition requires_transfer (so ro : ownership) (sm rm : mutability) : bool :=
  bool_decide (so = ProducerOwned) || bool_decide (sm <> Immutable) || bool_decide (ro = ProducerOwned) || bool_decide (rm <> Immutable) ||
  bool_decide (ro <> so) || bool_decide (rm <> sm).

(** The copy of a payload goes to a buffer of its own. *)
Definition forwardOutputFrameAsInput (s : arenas) (outputFrame : frame) (ov : overrides) : result (frame * arenas) :=
  match f_payload outputFrame with
  | None => Throw (TypeError "forwardOutputFrameAsInput requires an output frame with payload bytes.")
  | Some payload =>
      let portId := match v_portId ov with Some p => Some p | None => f_portId outputFrame end in
      throw_if match portId with None | Some [] => true | Some _ => false end
        with TypeError "forwardOutputFrameAsInput requires a portId (from the frame or overrides).";
      let typeRef := default (f_typeRef outputFrame) (v_typeRef ov) in
      let! wire := normalizePayloadWireFormat (first_wire (i_wireFormat typeRef) (f_wireFormat outputFrame)) in
      let frameId := encodeSdsFrameId outputFrame in
      let endOfStream := default (true_flag (f_endOfStream outputFrame)) (v_endOfStream ov) in
      let sequence := or_big (v_sequence ov) (f_sequence outputFrame) in
      let fresh := next s in
      if v_copyCanonical ov then
        throw_if bool_decide (wire <> FlatBuffer) with Error "SDS PIV/TAB canonical copy forwarding cannot copy an aligned-binary frame without schema transcoding.";
        Ok (Frame fresh (Some (View (next s + 1) 0 (content payload))) typeRef (wire_text wire) (or_num (v_alignment ov) (NumOf (int_num INVOKE_ARENA_ALIGNMENT)))
              NumUndefined NumUndefined (mutability_enum Immutable) (ownership_enum HostOwned) (BigOf frameId) sequence endOfStream
              (or_big (v_traceId ov) (or_big (f_traceId outputFrame) (BigOf frameId))) portId None None None,
            Arenas (leases s) (transfers s) (receipts s) (next s + 2))
      else
        let! _ := assertFrameArenaLease s outputFrame "SDS PIV/TAB zero-copy forwarding" true in
        let! sourceOwnership := normalizeFrameOwnership (f_ownership outputFrame) in
        let! sourceMutability := normalizeFrameMutability (f_mutability outputFrame) in
        let! requestedOwnership := normalizeFrameOwnership (or_enum (v_ownership ov) (ownership_enum sourceOwnership)) in
        let! requestedMutability := normalizeFrameMutability (or_enum (v_mutability ov) (mutability_enum sourceMutability)) in
        throw_if requires_transfer sourceOwnership requestedOwnership sourceMutability requestedMutability && bool_decide (v_arenaTransfer ov = None)
          with Error "SDS PIV/TAB producer-owned or mutable cross-invocation alias requires an explicit arena transfer token.";
        let forwarded (o : ownership) (m : mutability) : frame :=
          Frame fresh (Some payload) typeRef (wire_text wire) (or_num (v_alignment ov) (positive_num (f_alignment outputFrame))) NumUndefined NumUndefined
            (mutability_enum m) (ownership_enum o) (BigOf frameId) sequence endOfStream (or_big (v_traceId ov) (f_traceId outputFrame)) portId
            (f_lease outputFrame) (f_generation outputFrame)
            (match f_arenaGeneration outputFrame with Some g => Some g | None => f_generation outputFrame end) in
        match v_arenaTransfer ov with
        | None => Ok (forwarded sourceOwnership sourceMutability, Arenas (leases s) (transfers s) (receipts s) (next s + 1))
        | Some token =>
            let! (t, s) := consumeArenaTransferToken s token outputFrame payload in
            Ok (forwarded (t_ownership t) (t_mutability t), Arenas (leases s) (transfers s) (<[fresh := t]> (receipts s)) (next s + 1))
        end
  end.

(** ** Runs *)

(** One operation that succeeds; reading and encoding frames do not change the state. *)
Inductive arena_step (s : arenas) : arenas -> Prop :=
  | step_create a g l s' : createInvokeArenaLease s a g = Ok (l, s') -> arena_step s s'
  | step_advance l a g s' : advance s l a = Ok (g, s') -> arena_step s s'
  | step_close l s' : close s l = Ok s' -> arena_step s s'
  | step_token l f o m t s' : createTransferToken s l f o m = Ok (t, s') -> arena_step s s'
  | step_forward f ov f' s' : forwardOutputFrameAsInput s f ov = Ok (f', s') -> arena_step s s'.
Abbreviation arena_run := (rtc arena_step).

(** ** Invariants *)

Record arenas_ok (s : arenas) : Prop := {
  ok_leases : forall l st, leases s !! l = Some st -> l < next s;
  ok_transfers : forall k t, transfers s !! k = Some t -> k < next s /\ t_ownership t = Shared;
  (** The receipt of a forwarded frame is the consumed transfer of some token. *)
  ok_receipts : forall k r, receipts s !! k = Some r -> t_consumed r = true /\ exists token, transfers s !! token = Some r
}.

(** What never changes back: a generation does not fall, a closed lease stays closed, a consumed transfer stays as it is. *)
Record evolves (s s' : arenas) : Prop := {
  ev_leases : forall l st, leases s !! l = Some st ->
    exists st', leases s' !! l = Some st' /\ l_generation st <= l_generation st' /\ (l_closed st = true -> l_closed st' = true);
  ev_transfers : forall k t, transfers s !! k = Some t -> t_consumed t = true -> transfers s' !! k = Some t
}.

Lemma evolves_refl s : evolves s s.
Proof. split; [|done]. intros l st H. exists st. split; [done|]. split; [lia|done]. Qed.

Lemma evolves_trans s1 s2 s3 : evolves s1 s2 -> evolves s2 s3 -> evolves s1 s3.
Proof.
  intros [L1 T1] [L2 T2]. split.
  - intros l st H. destruct (L1 l st H) as (st' & H' & ? & ?). destruct (L2 l st' H') as (st'' & ? & ? & ?). exists st''. split; [done|]. split; [lia|auto].
  - eauto.
Qed.

Lemma NO_ARENAS_ok : arenas_ok NO_ARENAS.
Proof. split; cbn; intros ? ?; by rewrite lookup_empty. Qed.

(** Replacing the state of a lease. *)
Lemma lease_update s l st st' :
  leases s !! l = Some st -> l_generation st <= l_generation st' -> (l_closed st = true -> l_closed st' = true) ->
  let s' := Arenas (<[l := st']> (leases s)) (transfers s) (receipts s) (next s) in (arenas_ok s -> arenas_ok s') /\ evolves s s'.
Proof.
  intros Hl Hg Hc s'. split.
  - intros [H1 H2 H3]. split; cbn; [|done|done]. intros k x. destruct (decide (k = l)) as [->|?].
    + intros _. by apply (H1 l st).
    + rewrite lookup_insert_ne by done. apply H1.
  - split; cbn; [|done]. intros k x Hk. destruct (decide (k = l)) as [->|?].
    + exists st'. rewrite lookup_insert_eq. assert (x = st) as -> by congruence. done.
    + exists x. rewrite lookup_insert_ne by done. split; [done|]. split; [lia|done].
Qed.

Lemma evolves_same_leases s s' : leases s' = leases s -> (forall k t, transfers s !! k = Some t -> t_consumed t = true -> transfers s' !! k = Some t) -> evolves s s'.
Proof. intros E H. split; [|done]. rewrite E. apply evolves_refl. Qed.

Lemma create_step s a g l s' : arenas_ok s -> createInvokeArenaLease s a g = Ok (l, s') -> arenas_ok s' /\ evolves s s'.
Proof.
  intros [H1 H2 H3] H. unfold createInvokeArenaLease in H. destruct a as [arena|]; [|done]. js_inv H. split.
  - split; cbn.
    + intros k st. destruct (decide (k = next s)) as [->|?]; [lia|]. rewrite lookup_insert_ne by done. intros Hk. apply H1 in Hk. lia.
    + intros k t Hk. destruct (H2 k t Hk). split; [lia|done].
    + done.
  - split; cbn; [|done]. intros k st Hk. exists st. pose proof (H1 k st Hk). rewrite lookup_insert_ne by lia. split; [done|]. split; [lia|done].
Qed.

Lemma token_step s l f o m t s' : arenas_ok s -> createTransferToken s l f o m = Ok (t, s') -> arenas_ok s' /\ evolves s s'.
Proof.
  intros [H1 H2 H3] H. unfold createTransferToken in H. js_inv H. destruct (f_payload f) as [p|]; [|done]. destruct x as [st|]; [|done]. js_inv H.
  apply bool_decide_eq_false in E2. assert (x0 = Shared) as -> by (destruct (decide (x0 = Shared)); tauto). split.
  - split; cbn.
    + intros k st' Hk. apply H1 in Hk. lia.
    + intros k t. destruct (decide (k = next s)) as [->|?]; [rewrite lookup_insert_eq; intros [= <-]; split; [lia|done]|].
      rewrite lookup_insert_ne by done. intros Hk. destruct (H2 k t Hk). split; [lia|done].
    + intros k r Hk. destruct (H3 k r Hk) as [? (tok & Ht)]. split; [done|]. exists tok. destruct (H2 tok r Ht). by rewrite lookup_insert_ne by lia.
  - apply evolves_same_leases; [done|]. cbn. intros k t Hk _. destruct (H2 k t Hk). by rewrite lookup_insert_ne by lia.
Qed.

Lemma consume_inv s token f p t s' : consumeArenaTransferToken s token f p = Ok (t, s') ->
  exists t0, transfers s !! token = Some t0 /\ t = consumed t0 /\ t_consumed t0 = false /\ token_matches t0 f p = true /\
    s' = Arenas (leases s) (<[token := t]> (transfers s)) (receipts s) (next s).
Proof.
  unfold consumeArenaTransferToken. destruct (transfers s !! token) as [t0|] eqn:Et; [|done]. intros H. js_inv H.
  exists t0. split_and!; try done. by apply negb_false_iff.
Qed.

(** What a forwarding does to the state, and what it makes of the frame when it does not copy. *)
Lemma forward_inv s f ov f' s' : forwardOutputFrameAsInput s f ov = Ok (f', s') ->
  (exists n, next s < n /\ (v_copyCanonical ov = true \/ v_arenaTransfer ov = None) /\ s' = Arenas (leases s) (transfers s) (receipts s) n) \/
  (exists token t p, v_copyCanonical ov = false /\ v_arenaTransfer ov = Some token /\ transfers s !! token = Some t /\ t_consumed t = false /\ f_payload f = Some p /\ token_matches t f p = true /\
     s' = Arenas (leases s) (<[token := consumed t]> (transfers s)) (<[next s := consumed t]> (receipts s)) (next s + 1)).
Proof.
  unfold forwardOutputFrameAsInput. destruct (f_payload f) as [p|] eqn:Ep; [|done]. intros H. pass_guard H. js_inv H.
  destruct (v_copyCanonical ov); js_inv H; [left; exists (next s + 2); split; [lia|]; split; [by left|done]|].
  destruct (v_arenaTransfer ov) as [token|]; js_inv H; [|left; exists (next s + 1); split; [lia|]; split; [by right|done]].
  destruct x5 as [t s1]. injection H as <- <-. apply consume_inv in E6 as (t0 & Ht & -> & Hc & Hm & ->). right. by exists token, t0, p.
Qed.

Lemma forward_frame s f ov f' s' : v_copyCanonical ov = false -> forwardOutputFrameAsInput s f ov = Ok (f', s') ->
  (exists st, assertFrameArenaLease s f "SDS PIV/TAB zero-copy forwarding" true = Ok (Some st)) /\
  f_key f' = next s /\ f_payload f' = f_payload f /\ f_lease f' = f_lease f /\ frame_generation f' = frame_generation f /\ encodeSdsFrameId f' = encodeSdsFrameId f /\
  exists o m, f_ownership f' = ownership_enum o /\ f_mutability f' = mutability_enum m /\ is_Some (f_payload f) /\
    match v_arenaTransfer ov with
    | None => o <> ProducerOwned /\ m = Immutable /\ normalizeFrameOwnership (f_ownership f) = Ok o
    | Some _ => exists t, receipts s' !! next s = Some t /\ o = t_ownership t /\ m = t_mutability t
    end.
Proof.
  intros Hcp. unfold forwardOutputFrameAsInput. destruct (f_payload f) as [p|] eqn:Ep; [|done]. rewrite Hcp. intros H. pass_guard H. js_inv H.
  assert (Hst : exists st, x0 = Some st).
  { unfold assertFrameArenaLease in E0. destruct (f_lease f); js_inv E0; [eauto|done]. }
  assert (Hg : forall g : option Z, match f_generation f with Some g => Some g | None => match f_arenaGeneration f with Some g => Some g | None => f_generation f end end = frame_generation f).
  { intros _. unfold frame_generation. by destruct (f_generation f), (f_arenaGeneration f). }
  destruct Hst as [st ->]. split; [by exists st|].
  destruct (v_arenaTransfer ov) as [token|]; js_inv H.
  - destruct x0 as [t s1]. injection H as <- <-. split_and!; try done; [exact (Hg None)|].
    exists (t_ownership t), (t_mutability t). split_and!; try done. exists t. cbn. split; [|done]. by rewrite lookup_insert_eq.
  - split_and!; try done; [exact (Hg None)|]. apply andb_false_iff in E5 as [E5|E5]; [|by apply bool_decide_eq_false in E5].
    unfold requires_transfer in E5. rewrite !orb_false_iff, !bool_decide_eq_false in E5. destruct E5 as (((((Ho & Hm) & _) & _) & _) & _).
    exists x1, x2. split_and!; try done. by destruct x2; [|destruct Hm..].
Qed.

Lemma forward_step s f ov f' s' : arenas_ok s -> forwardOutputFrameAsInput s f ov = Ok (f', s') -> arenas_ok s' /\ evolves s s'.
Proof.
  intros [H1 H2 H3] H. apply forward_inv in H as [(n & Hn & _ & ->)|(token & t & p & _ & _ & Ht & Hc & _ & _ & ->)].
  - split; [|by apply evolves_same_leases]. split; cbn.
    + intros k st Hk. apply H1 in Hk. lia.
    + intros k t Hk. destruct (H2 k t Hk). split; [lia|done].
    + done.
  - split; [|apply evolves_same_leases; [done|]]; cbn.
    + destruct (H2 token t Ht) as [Hlt Ho]. split; cbn.
      * intros k st Hk. apply H1 in Hk. lia.
      * intros k x. destruct (decide (k = token)) as [->|?]; [rewrite lookup_insert_eq; intros [= <-]; split; [lia|done]|].
        rewrite lookup_insert_ne by done. intros Hk. destruct (H2 k x Hk). split; [lia|done].
      * intros k r. destruct (decide (k = next s)) as [->|?].
        -- rewrite lookup_insert_eq. intros [= <-]. split; [done|]. exists token. by rewrite lookup_insert_eq.
        -- rewrite lookup_insert_ne by done. intros Hk. destruct (H3 k r Hk) as [Hr (tok & Htok)]. split; [done|]. exists tok.
           destruct (decide (tok = token)) as [->|?]; [congruence|]. by rewrite lookup_insert_ne.
    + intros k x Hk Hx. destruct (decide (k = token)) as [->|?]; [congruence|]. by rewrite lookup_insert_ne.
Qed.

Lemma arena_step_ok s s' : arena_step s s' -> arenas_ok s -> arenas_ok s' /\ evolves s s'.
Proof.
  intros [a g l s1 H|l a g s1 H|l s1 H|l f o m t s1 H|f ov f' s1 H] Hok; eauto using create_step, token_step, forward_step.
  - unfold advance, requireArenaLeaseState in H. destruct (leases s !! l) as [st|] eqn:El; [|done]. cbn [rbind] in H. js_inv H.
    destruct (lease_update s l st (Lease x (l_generation st + 1) false) El) as [Ho He]; cbn; [lia|congruence|]. auto.
  - unfold close, requireArenaLeaseState in H. destruct (leases s !! l) as [st|] eqn:El; [|done]. cbn [rbind] in H. js_inv H.
    destruct (lease_update s l st (Lease (l_arena st) (l_generation st) true) El) as [Ho He]; cbn; [lia|done|]. auto.
Qed.

Lemma arena_run_ok s s' : arena_run s s' -> arenas_ok s -> arenas_ok s' /\ evolves s s'.
Proof.
  induction 1 as [s|s s1 s' Hs _ IH]; intros Hok; [split; [done|apply evolves_refl]|].
  destruct (arena_step_ok s s1 Hs Hok) as [Hok1 He]. destruct (IH Hok1) as [? ?]. eauto using evolves_trans.
Qed.

(** ** What leases promise *)

Lemma live_inv s l g p d st : assertLiveArenaLease s l g p d = Ok st ->
  leases s !! l = Some st /\ l_closed st = false /\ g = Some (l_generation st) /\ (forall v, p = Some v -> within v (l_arena st) = true).
Proof.
  unfold assertLiveArenaLease, requireArenaLeaseState. destruct (leases s !! l) as [st0|]; [|done]. cbn [rbind]. intros H. js_inv H.
  apply bool_decide_eq_false in E0. split_and!; try done; [by destruct (decide (g = Some (l_generation st)))|]. intros v ->.
  unfold assertViewWithinArena in E1. by destruct (within v (l_arena st)).
Qed.

Lemma frame_lease_inv s f d st : assertFrameArenaLease s f d false = Ok (Some st) \/ assertFrameArenaLease s f d true = Ok (Some st) ->
  exists l, f_lease f = Some l /\ assertLiveArenaLease s l (frame_generation f) (f_payload f) d = Ok st.
Proof. unfold assertFrameArenaLease. intros H. destruct (f_lease f) as [l|]; [|by destruct H]. exists l. split; [done|]. by destruct H as [H|H]; js_inv H. Qed.

(** C10. In every run, a frame that refers to a lease enters a request only while the lease is open, is of its current generation and lies inside
    its arena; and if it is producer-owned or not immutable, only on the receipt of a transfer token that was consumed for the same lease, generation,
    bytes and frame id, and for this mutability. *)
Theorem aliases_enter_by_transfer s f d st o m :
  arena_run NO_ARENAS s -> assertRetainedAliasSafe s f d = Ok (Some st) ->
  normalizeFrameOwnership (f_ownership f) = Ok o -> normalizeFrameMutability (f_mutability f) = Ok m ->
  exists l, f_lease f = Some l /\ leases s !! l = Some st /\ l_closed st = false /\ frame_generation f = Some (l_generation st) /\
    (forall p, f_payload f = Some p -> within p (l_arena st) = true) /\
    ((o <> ProducerOwned /\ m = Immutable) \/
     exists token t p, transfers s !! token = Some t /\ t_consumed t = true /\ f_payload f = Some p /\ token_matches t f p = true /\
       o = Shared /\ t_ownership t = Shared /\ t_mutability t = m).
Proof.
  intros Hrun H Ho Hm. destruct (arena_run_ok _ _ Hrun NO_ARENAS_ok) as [[_ _ Hr] _]. unfold assertRetainedAliasSafe in H.
  destruct (assertFrameArenaLease s f d false) as [[st0|]|] eqn:Ef; cbn [rbind] in H; [|done..]. rewrite Ho, Hm in H. cbn [rbind] in H.
  destruct (frame_lease_inv s f d st0) as (l & Hl & Hlive); [by left|]. apply live_inv in Hlive as (? & ? & ? & ?).
  destruct (bool_decide (o = ProducerOwned) || bool_decide (m <> Immutable)) eqn:Eb.
  - destruct (receipts s !! f_key f) as [r|] eqn:Er; [|done]. destruct (receipt_matches r f o m) eqn:Em; [|done]. injection H as ->.
    exists l. split_and!; try done. right. destruct (Hr _ _ Er) as [Hc (token & Ht)]. unfold receipt_matches in Em.
    destruct (f_payload f) as [p|]; [|by rewrite ?andb_false_r in Em]. exists token, r, p. unfold token_matches.
    repeat match goal with H : _ && _ = true |- _ => apply andb_true_iff in H as [? ?] end.
    repeat match goal with H : bool_decide _ = true |- _ => apply bool_decide_eq_true in H end. subst.
    split_and!; try done. rewrite !andb_true_iff, !bool_decide_eq_true. done.
  - injection H as ->. exists l. split_and!; try done. left. apply orb_false_iff in Eb as [E1 E2]. apply bool_decide_eq_false in E1, E2.
    split; [done|]. by destruct m; [|destruct E2..].
Qed.

(** C11. A transfer token is consumed once: after a forwarding that used it, in every later state, every zero-copy forwarding with it is refused. *)
Theorem tokens_are_single_use s f ov f' s1 s2 token :
  arena_run NO_ARENAS s -> v_arenaTransfer ov = Some token -> v_copyCanonical ov = false -> forwardOutputFrameAsInput s f ov = Ok (f', s1) -> arena_run s1 s2 ->
  forall g ov2, v_arenaTransfer ov2 = Some token -> v_copyCanonical ov2 = false -> is_ok (forwardOutputFrameAsInput s2 g ov2) = false.
Proof.
  intros Hrun Ht Hcp Hf Hrun2 g ov2 Ht2 Hcp2. destruct (arena_run_ok _ _ Hrun NO_ARENAS_ok) as [Hok _].
  destruct (forward_step _ _ _ _ _ Hok Hf) as [Hok1 _]. destruct (arena_run_ok _ _ Hrun2 Hok1) as [_ [_ Hev]].
  assert (Hc : exists t, transfers s1 !! token = Some t /\ t_consumed t = true).
  { apply forward_inv in Hf as [(n & _ & Hn & ->)|(tok & t & p & _ & E & _ & _ & _ & _ & ->)]; [destruct Hn; congruence|].
    assert (tok = token) as -> by congruence. exists (consumed t). split; [apply lookup_insert_eq|done]. }
  destruct Hc as (t & Htok & Hct). apply (Hev token t) in Htok; [|done].
  destruct (forwardOutputFrameAsInput s2 g ov2) as [[g' s3]|] eqn:Eg; [|done].
  apply forward_inv in Eg as [(n & _ & Hn & _)|(tok & t' & p & _ & E & Ht' & Hc' & _)]; [destruct Hn; congruence|congruence].
Qed.

(** C12. Advancing or closing a lease shuts out every frame of the generations up to then for good: in every later state such a frame is refused, as
    the input of a request, for a zero-copy forwarding and for a new token. *)
Theorem revoked_frames_stay_out s l st s1 s2 f g d :
  arena_run NO_ARENAS s -> leases s !! l = Some st -> (exists a n, advance s l a = Ok (n, s1)) \/ close s l = Ok s1 -> arena_run s1 s2 ->
  f_lease f = Some l -> frame_generation f = Some g -> g <= l_generation st ->
  is_ok (assertRetainedAliasSafe s2 f d) = false /\ (forall l' o m, is_ok (createTransferToken s2 l' f o m) = false) /\
  (forall ov, v_copyCanonical ov = false -> is_ok (forwardOutputFrameAsInput s2 f ov) = false).
Proof.
  intros Hrun Hl Hop Hrun2 Hfl Hfg Hg. destruct (arena_run_ok _ _ Hrun NO_ARENAS_ok) as [Hok _].
  assert (Hdead : exists st1, leases s1 !! l = Some st1 /\ (l_generation st < l_generation st1 \/ l_closed st1 = true)).
  { destruct Hop as [(a & n & H)|H]; unfold advance, close, requireArenaLeaseState in H; rewrite Hl in H; cbn [rbind] in H; js_inv H;
      (eexists; split; [apply lookup_insert_eq|]; cbn; [first [left; lia | by right]]). }
  destruct Hdead as (st1 & Hl1 & Hd). assert (Hs1 : arena_step s s1) by (destruct Hop as [(a & n & H)|H]; eauto using step_advance, step_close).
  destruct (arena_step_ok s s1 Hs1 Hok) as [Hok1 _]. destruct (arena_run_ok _ _ Hrun2 Hok1) as [_ [Hev _]]. destruct (Hev l st1 Hl1) as (st2 & Hl2 & Hgen & Hcl).
  assert (Hno : forall d r, is_ok (assertFrameArenaLease s2 f d r) = false).
  { intros d' r. unfold assertFrameArenaLease. rewrite Hfl, Hfg. destruct (assertLiveArenaLease _ _ _ _ _) eqn:E; [|done].
    apply live_inv in E as (E & Ec & Eg & _). assert (st2 = a) as -> by congruence. injection Eg as ->. destruct Hd; [lia|]. rewrite Hcl in Ec by done. done. }
  split_and!.
  - unfold assertRetainedAliasSafe. specialize (Hno d false). by destruct (assertFrameArenaLease s2 f d false).
  - intros l' o m. unfold createTransferToken. specialize (Hno "SDS PIV/TAB arena transfer"%string true). by destruct (assertFrameArenaLease s2 f _ true).
  - intros ov Hcp. destruct (forwardOutputFrameAsInput s2 f ov) as [[f' s3]|] eqn:E; [|done].
    apply forward_frame in E as [(st3 & E) _]; [|done]. specialize (Hno "SDS PIV/TAB zero-copy forwarding"%string true). by rewrite E in Hno.
Qed.

(** A frame that is forwarded without a copy has the bytes of the frame it was made of, in place, and enters the next request: its lease is live and
    the alias check accepts it, with or without a transfer. *)
Theorem forwarded_frames_are_admitted s f ov f' s' d :
  arena_run NO_ARENAS s -> v_copyCanonical ov = false -> forwardOutputFrameAsInput s f ov = Ok (f', s') ->
  f_payload f' = f_payload f /\ encodeSdsFrameId f' = encodeSdsFrameId f /\ exists st, assertRetainedAliasSafe s' f' d = Ok (Some st).
Proof.
  intros Hrun Hcp Hf. destruct (arena_run_ok _ _ Hrun NO_ARENAS_ok) as [Hok _]. destruct (forward_step _ _ _ _ _ Hok Hf) as [[_ Hts Hrs] _].
  pose proof (forward_frame _ _ _ _ _ Hcp Hf) as ((st & Hst) & Hkey & Hp & Hl & Hg & Hid & o & m & Ho & Hm & [p Hps] & Hcase).
  split; [done|]. split; [done|]. exists st.
  assert (Hls : leases s' = leases s) by (apply forward_inv in Hf as [(n & _ & _ & ->)|(? & ? & ? & _ & _ & _ & _ & _ & _ & ->)]; done).
  destruct (frame_lease_inv s f _ st (or_intror Hst)) as (l & Hfl & Hlive). apply live_inv in Hlive as (H1 & H2 & H3 & H4).
  assert (Hfa : assertFrameArenaLease s' f' d false = Ok (Some st)).
  { unfold assertFrameArenaLease, assertLiveArenaLease, requireArenaLeaseState, assertViewWithinArena.
    rewrite Hl, Hfl, Hg, Hp, Hps, Hls, H1. cbn [rbind]. rewrite H2, H3, bool_decide_false by (intros HH; by apply HH). by rewrite (H4 p Hps). }
  unfold assertRetainedAliasSafe. rewrite Hfa. cbn [rbind]. rewrite Ho, Hm, normal_mutability. destruct (v_arenaTransfer ov) as [token|] eqn:Etr.
  - destruct Hcase as (t & Ht & -> & ->). destruct (Hrs _ _ Ht) as (_ & tok & Htok). destruct (Hts _ _ Htok) as [_ Hsh].
    assert (Hrm : receipt_matches t f' Shared (t_mutability t) = true).
    { apply forward_inv in Hf as [(n & _ & Hn & _)|(tk & t0 & q & _ & _ & _ & _ & Hq & Hmt & ->)]; [destruct Hn; congruence|].
      cbn in Ht. rewrite lookup_insert_eq in Ht. injection Ht as <-. unfold receipt_matches. rewrite Hl, Hg, Hp, Hid, Hq. unfold token_matches in Hmt. cbn in Hsh |- *.
      rewrite !andb_true_iff in Hmt. rewrite !andb_true_iff. destruct_and! Hmt. split_and!; try done; by apply bool_decide_eq_true. }
    rewrite Hsh. change (normalizeFrameOwnership (ownership_enum Shared)) with (@Ok ownership Shared). cbn [rbind].
    destruct (bool_decide (Shared = ProducerOwned) || bool_decide (t_mutability t <> Immutable)); [|done]. rewrite Hkey, Ht. cbn iota beta. by rewrite Hrm.
  - destruct Hcase as (Hno & -> & Hnorm). assert (Hn : normalizeFrameOwnership (ownership_enum o) = Ok o) by by destruct o; try done; [];
      unfold normalizeFrameOwnership in Hnorm; js_inv Hnorm; destruct x. rewrite Hn. cbn [rbind].
    rewrite bool_decide_false by done. cbn. rewrite ?bool_decide_false by (intros HH; by apply HH). done.
Qed.

(** ** An example run *)

Definition get_ok {A : Type} (d : A) (r : result A) : A := match r with Ok a => a | Throw _ => d end.
Definition demo_arena : view := View 100 0 (repeat 7 16).
Definition demo_frame (key : Z) : frame :=
  Frame key (Some (View 100 8 (repeat 7 8))) NO_TYPE WireAbsent NumUndefined NumUndefined NumUndefined (EnumText (lit "mutable")) (EnumText (lit "producer-owned"))
    BigUndefined (BigOf 4) FlagUndefined BigUndefined (Some (lit "out")) (Some 0) (Some 1) None.
Definition with_token (t : Z) : overrides := Overrides None None NumUndefined EnumAbsent EnumAbsent BigUndefined (BigOf 9) None false (Some t).
Definition demo1 : arenas := (get_ok (0, NO_ARENAS) (createInvokeArenaLease NO_ARENAS (Some demo_arena) NumUndefined)).2.
Definition demo2 : arenas := (get_ok (0, NO_ARENAS) (createTransferToken demo1 0 (demo_frame (-1)) EnumAbsent EnumAbsent)).2.
Definition demo3 : frame * arenas := get_ok (demo_frame (-1), NO_ARENAS) (forwardOutputFrameAsInput demo2 (demo_frame (-1)) (with_token 1)).
Definition demo4 : arenas := (get_ok (0, NO_ARENAS) (advance demo3.2 0 SameArena)).2.

Lemma demo2_run : arena_run NO_ARENAS demo2.
Proof.
  eapply rtc_l; [eapply (step_create _ (Some demo_arena) NumUndefined 0 demo1); vm_compute; reflexivity|].
  eapply rtc_l; [eapply (step_token _ 0 (demo_frame (-1)) EnumAbsent EnumAbsent 1 demo2); vm_compute; reflexivity|]. apply rtc_refl.
Defined.

Lemma demo3_run : arena_run NO_ARENAS demo3.2.
Proof.
  etrans; [exact demo2_run|]. eapply rtc_l; [eapply (step_forward _ (demo_frame (-1)) (with_token 1) demo3.1); vm_compute; reflexivity|]. apply rtc_refl.
Defined.

Lemma aliases_enter_by_transfer_witness :
  exists token t p, transfers demo3.2 !! token = Some t /\ t_consumed t = true /\ f_payload demo3.1 = Some p /\ token_matches t demo3.1 p = true.
Proof.
  assert (H : exists st, assertRetainedAliasSafe demo3.2 demo3.1 "frame" = Ok (Some st)) by (eexists; vm_compute; reflexivity). destruct H as [st H].
  destruct (aliases_enter_by_transfer demo3.2 demo3.1 "frame" st Shared Mutable demo3_run H eq_refl eq_refl) as (l & _ & _ & _ & _ & _ & [[_ Hm]|Hx]); [discriminate Hm|].
  destruct Hx as (token & t & p & H1 & H2 & H3 & H4 & _). exists token, t, p. split; [exact H1|]. split; [exact H2|]. split; [exact H3|exact H4].
Defined.

Lemma tokens_are_single_use_witness : is_ok (forwardOutputFrameAsInput demo4 (demo_frame (-5)) (with_token 1)) = false.
Proof.
  eapply (tokens_are_single_use demo2 (demo_frame (-1)) (with_token 1) demo3.1 demo3.2 demo4 1 demo2_run); try reflexivity.
  eapply rtc_l; [eapply (step_advance _ 0 SameArena 2 demo4); vm_compute; reflexivity|]. apply rtc_refl.
Defined.

Lemma revoked_frames_stay_out_witness : is_ok (assertRetainedAliasSafe demo3.2 demo3.1 "frame") = true /\ is_ok (assertRetainedAliasSafe demo4 demo3.1 "frame") = false.
Proof.
  split; [vm_compute; reflexivity|].
  assert (Hl : exists st, leases demo3.2 !! 0 = Some st /\ 1 <= l_generation st) by (eexists; split; [vm_compute; reflexivity|cbn; lia]).
  destruct Hl as (st & Hl & Hg).
  apply (revoked_frames_stay_out demo3.2 0 st demo4 demo4 demo3.1 1 "frame" demo3_run Hl); try reflexivity; [|exact Hg].
  left. exists SameArena, 2. vm_compute. reflexivity.
Defined.

Lemma forwarded_frames_are_admitted_witness : exists st, assertRetainedAliasSafe demo3.2 demo3.1 "frame" = Ok (Some st).
Proof.
  apply (forwarded_frames_are_admitted demo2 (demo_frame (-1)) (with_token 1) demo3.1 demo3.2 "frame" demo2_run eq_refl). vm_compute. reflexivity.
Defined.

(** ** Defects *)

(** A forwarded frame carries the frame id of its source, and the encoder prefers the frame id: a sequence number, an end-of-stream mark or a trace
    id given to the forwarding does not reach the wire. *)
Theorem sequence_override_is_lost s f ov f' s' : forwardOutputFrameAsInput s f ov = Ok (f', s') -> encodeSdsFrameId f' = encodeSdsFrameId f.
Proof.
  destruct (v_copyCanonical ov) eqn:Ec; [|intros H; by apply forward_frame in H as (_ & _ & _ & _ & _ & ? & _)].
  unfold forwardOutputFrameAsInput. destruct (f_payload f); [|done]. intros H. pass_guard H. rewrite Ec in H. js_inv H. done.
Qed.

(** The same frame can be given several tokens, and each is good for one transfer: two frames that alias the same mutable bytes enter requests. *)
Theorem one_frame_two_transfers :
  exists s f1 f2 st1 st2, arena_run NO_ARENAS s /\ f_payload f1 = f_payload f2 /\ f_key f1 <> f_key f2 /\
    normalizeFrameMutability (f_mutability f1) = Ok Mutable /\ normalizeFrameMutability (f_mutability f2) = Ok Mutable /\
    assertRetainedAliasSafe s f1 "frame" = Ok (Some st1) /\ assertRetainedAliasSafe s f2 "frame" = Ok (Some st2).
Proof.
  pose (s4 := get_ok (0, NO_ARENAS) (createTransferToken demo3.2 0 (demo_frame (-1)) EnumAbsent EnumAbsent)).
  pose (s5 := get_ok (demo_frame (-1), NO_ARENAS) (forwardOutputFrameAsInput s4.2 (demo_frame (-1)) (with_token s4.1))).
  exists s5.2, demo3.1, s5.1. eexists _, _. split.
  - etrans; [exact demo3_run|]. eapply rtc_l; [eapply (step_token _ 0 (demo_frame (-1)) EnumAbsent EnumAbsent s4.1 s4.2); vm_compute; reflexivity|].
    eapply rtc_l; [eapply (step_forward _ (demo_frame (-1)) (with_token s4.1) s5.1); vm_compute; reflexivity|]. apply rtc_refl.
  - split; [vm_compute; reflexivity|]. split; [vm_compute; discriminate|]. split; [vm_compute; reflexivity|]. split; [vm_compute; reflexivity|].
    split; vm_compute; reflexivity.
Qed.
