(* ===== verification/InvokeCodec.v ===== *)
(** Requests and responses of invocations (src/invoke/codec.js): frames are packed into one arena, the envelope is a FlatBuffer, and
    decoding gives views into the arena under a lease.

    The FlatBuffer builder and reader are the class [PivCodec]; [PivLaws] says that an envelope whose fields fit their wire types is read
    back, with its arena at an address of the alignment asked for. A new buffer has an identity of its own: [EMPTY_VIEW] is a new empty array,
    and decoded frames take the next identities of [arenas]. *)
From Stdlib Require Import ZArith QArith Lia.
From stdpp Require Import base list gmap strings numbers.
From S2P Require Import Prelude JsText JsMap JsNumber TypeRefs InvokeTypes InvokeLease.
Open Scope Z_scope.

(** ** Frames of an envelope *)

(** An arena buffer descriptor (TAB), as it is written. *)
Record tab := Tab {
  b_offset : Z; b_size : Z; b_alignment : Z; b_wireFormat : wire_format; b_typeRef : sds_type; b_mutability : sds_mutability; b_ownership : sds_ownership;
  b_frameId : Z; b_portId : option jsstring
}.

Definition payload_bytes (f : frame) : list Z := match f_payload f with Some v => content v | None => [] end.
Definition EMPTY_VIEW : view := View (-1) 0 [].

Definition read_u32 (z : Z) (description : string) : result Z := readBoundedInteger (NumOf (int_num z)) description (Some 0) 0 UINT32_MAX.
Definition arenaFrameOffset (z : Z) : result Z := read_u32 z "SDS PIV/TAB frame offset".
Definition arenaFrameSize (z : Z) : result Z := read_u32 z "SDS PIV/TAB frame size".
Definition arenaFrameAlignment (z : Z) : result Z := readAlignment (NumOf (int_num z)) "SDS PIV/TAB frame alignment" (Some INVOKE_ARENA_ALIGNMENT) UINT32_MAX.

(** The payload of a frame and its descriptor, at the next aligned offset. *)
Definition normalizeSdsArenaFrame (s : arenas) (f : frame) (offset : Z) : result (list Z * tab) :=
  let payload := payload_bytes f in
  let! _ := assertRetainedAliasSafe s f "SDS PIV/TAB frame forwarding" in
  let! (typeRef, wire) := normalizeFrameTypeRef f in
  let! alignment := resolveFrameAlignment f (s_requiredAlignment typeRef) in
  let! _ := assertAlignedFrameSize wire typeRef (blen payload) in
  let alignedOffset := alignOffset offset alignment in
  let! _ := assertUint32FrameRange alignedOffset (blen payload) "SDS PIV/TAB frame" in
  let! m := toSdsMutability (f_mutability f) in
  let! o := toSdsOwnership (f_ownership f) in
  Ok (payload, Tab alignedOffset (blen payload) alignment wire typeRef m o (encodeSdsFrameId f) (f_portId f)).

Fixpoint pack_loop (s : arenas) (frames : list frame) (offset arenaAlignment : Z) : result (list (list Z * tab) * Z * Z) :=
  match frames with
  | [] => Ok ([], offset, arenaAlignment)
  | f :: frames =>
      let! (payload, t) := normalizeSdsArenaFrame s f offset in
      let! at_offset := arenaFrameOffset (b_offset t) in
      let! size := arenaFrameSize (b_size t) in
      let! alignment := arenaFrameAlignment (b_alignment t) in
      let! (rest, last, al) := pack_loop s frames (at_offset + size) (Z.max arenaAlignment alignment) in
      Ok ((payload, t) :: rest, last, al)
  end.

(** [arena.set(payload, offset)] *)
Definition arena_set (arena payload : list Z) (offset : Z) : result (list Z) :=
  throw_if blen arena <? offset + blen payload with RangeError "offset is out of bounds"; Ok (put_at arena payload offset).
Fixpoint fill_arena (arena : list Z) (items : list (list Z * tab)) : result (list Z) :=
  match items with
  | [] => Ok arena
  | (payload, t) :: items => let! offset := arenaFrameOffset (b_offset t) in let! arena := arena_set arena payload offset in fill_arena arena items
  end.

Definition packArenaFrames (s : arenas) (frames : list frame) : result (list tab * list Z * Z) :=
  let! (items, size, al) := pack_loop s frames 0 INVOKE_ARENA_ALIGNMENT in
  let! arena := fill_arena (repeat 0 (Z.to_nat size)) items in
  Ok (map snd items, arena, al).

(** ** Frames in an external arena *)

Definition hasExplicitFrameOffset (f : frame) : bool := match f_offset f with NumUndefined => false | _ => true end.

Definition normalizeExternalArenaFrame (s : arenas) (f : frame) (externalArena : view) : result tab :=
  let! leaseState := assertRetainedAliasSafe s f "SDS PIV/TAB external frame forwarding" in
  let! _ := match leaseState with Some st => assertViewWithinArena externalArena (l_arena st) "SDS PIV/TAB external arena" | None => Ok tt end in
  let! (typeRef, wire) := normalizeFrameTypeRef f in
  let! alignment := resolveFrameAlignment f (s_requiredAlignment typeRef) in
  let! given := readBoundedInteger (f_offset f) "SDS PIV/TAB external arena frame offset" (Some 0) 0 UINT32_MAX in
  let offset := match f_payload f with
                | Some p => if negb (hasExplicitFrameOffset f) && (buffer p =? buffer externalArena) then byteOffset p - byteOffset externalArena else given
                | None => given
                end in
  let! size := readBoundedInteger (or_num (f_size f) (match f_payload f with Some p => NumOf (int_num (byte_length p)) | None => NumUndefined end))
                 "SDS PIV/TAB external arena frame size" (Some 0) 0 UINT32_MAX in
  let! _ := assertUint32FrameRange offset size "SDS PIV/TAB external arena frame" in
  let! _ := assertAlignedFrameSize wire typeRef size in
  let! _ := (if 0 <? size then
               throw_if (byte_length externalArena <? offset) || (byte_length externalArena - offset <? size)
                 with Error "SDS PIV external arena frame range exceeds externalArena.";
               throw_if (1 <? alignment) && negb (Z.rem (byteOffset externalArena + offset) alignment =? 0) with Error "SDS PIV external arena frame is misaligned.";
               Ok tt
             else Ok tt) in
  let! m := toSdsMutability (f_mutability f) in
  let! o := toSdsOwnership (f_ownership f) in
  Ok (Tab offset size alignment wire typeRef m o (encodeSdsFrameId f) (f_portId f)).

Fixpoint external_loop (s : arenas) (frames : list frame) (externalArena : view) (arenaAlignment : Z) : result (list tab * Z) :=
  match frames with
  | [] => Ok ([], arenaAlignment)
  | f :: frames =>
      let! t := normalizeExternalArenaFrame s f externalArena in
      let! alignment := arenaFrameAlignment (b_alignment t) in
      let! (rest, al) := external_loop s frames externalArena (Z.max arenaAlignment alignment) in
      Ok (t :: rest, al)
  end.

Definition packExternalArenaFrames (s : arenas) (frames : list frame) (externalArenaInput : option view) : result (list tab * list Z * Z) :=
  match externalArenaInput with
  | None => Throw (TypeError "SDS PIV external arena encoding requires externalArena bytes.")
  | Some externalArena => let! (tabs, al) := external_loop s frames externalArena INVOKE_ARENA_ALIGNMENT in Ok (tabs, [], al)
  end.

(** ** Reading frames *)

(** A type reference and a descriptor as a reader gives them. *)
Record wire_type := WireType {
  y_schemaName : option jsstring; y_fileIdentifier : option jsstring; y_schemaVersion : option jsstring; y_rootType : option jsstring; y_schemaHash : list Z;
  y_acceptsAny : bool; y_wireFormat : sds wire_format; y_fixedStringLength : Z; y_byteLength : Z; y_requiredAlignment : Z
}.
Record wire_tab := WireTab {
  w_offset : Z; w_size : Z; w_alignment : Z; w_wireFormat : sds wire_format; w_typeRef : option wire_type; w_mutability : sds sds_mutability;
  w_ownership : sds sds_ownership; w_frameId : Z; w_portId : option jsstring
}.

Definition decodeSdsTypeRef (y : wire_type) : result sds_type :=
  let! wire := fromSdsWireFormat (y_wireFormat y) in
  let! fixed := readBoundedInteger (NumOf (int_num (y_fixedStringLength y))) "SDS PIV/TAB decoded fixedStringLength" (Some 0) 0 UINT16_MAX in
  let! len := readBoundedInteger (NumOf (int_num (y_byteLength y))) "SDS PIV/TAB decoded byteLength" (Some 0) 0 UINT32_MAX in
  let! required := readBoundedInteger (NumOf (int_num (y_requiredAlignment y))) "SDS PIV/TAB decoded requiredAlignment" (Some 0) 0 UINT16_MAX in
  Ok (SdsType (y_schemaName y) (y_fileIdentifier y) (y_schemaVersion y) (y_rootType y) (y_schemaHash y) (y_acceptsAny y) wire fixed len required).

Record decoded := Decoded {
  d_typeRef : option sds_type; d_portId : option jsstring; d_alignment : Z; d_offset : Z; d_size : Z; d_ownership : ownership; d_mutability : mutability;
  d_frameId : Z; d_sequence : Z; d_endOfStream : bool; d_wireFormat : wire_format
}.

Definition validateDecodedFrameContract (d : decoded) : result unit :=
  throw_if match d_typeRef d with Some t => bool_decide (s_wireFormat t <> d_wireFormat d) | None => false end
    with Error "SDS PIV/TAB frame and typeRef wire formats disagree.";
  let required := match d_typeRef d with Some t => s_requiredAlignment t | None => 0 end in
  throw_if (0 <? required) && negb (isPositivePowerOfTwo required) with RangeError "SDS PIV/TAB decoded requiredAlignment must be a positive power of two.";
  throw_if d_alignment d <? required with RangeError "SDS PIV/TAB frame alignment is below required alignment.";
  if bool_decide (d_wireFormat d = AlignedBinary) then
    match d_typeRef d with
    | None => Throw (Error "SDS PIV/TAB aligned frame requires a typeRef.")
    | Some t =>
        throw_if negb (isPositivePowerOfTwo required) with RangeError "SDS PIV/TAB aligned type requiredAlignment must be a positive power of two.";
        throw_if (0 <? s_byteLength t) && negb (d_size d =? s_byteLength t) with RangeError "SDS PIV/TAB aligned payload size does not match declared byteLength.";
        Ok tt
    end
  else Ok tt.

Definition decodeSdsTabFrame (w : wire_tab) : result decoded :=
  let offset := normalizeUnsignedInteger (NumOf (int_num (w_offset w))) in
  let size := normalizeUnsignedInteger (NumOf (int_num (w_size w))) in
  let! alignment := arenaFrameAlignment (w_alignment w) in
  let! wire := fromSdsWireFormat (w_wireFormat w) in
  let frameId := normalizeBigInt (BigOf (w_frameId w)) in
  let '(sequence, endOfStream) := decodeSdsFrameId frameId in
  let! typeRef := match w_typeRef w with Some y => let! t := decodeSdsTypeRef y in Ok (Some t) | None => Ok None end in
  let! o := fromSdsOwnership (w_ownership w) in
  let! m := fromSdsMutability (w_mutability w) in
  let d := Decoded typeRef (w_portId w) alignment offset size o m frameId sequence endOfStream wire in
  let! _ := validateDecodedFrameContract d in
  Ok d.

Fixpoint decodeSdsArenaFrames (l : list wire_tab) : result (list decoded) :=
  match l with [] => Ok [] | w :: l => let! d := decodeSdsTabFrame w in let! r := decodeSdsArenaFrames l in Ok (d :: r) end.

(** The source arena: the bytes in the envelope, or the external ones when there are none. *)
Definition source_arena (arenaBytes : view) (externalArena : option view) : option view := if 0 <? byte_length arenaBytes then Some arenaBytes else externalArena.

Definition resolveDecodedArenaLease (s : arenas) (arenaBytes : view) (externalArena : option view) (arenaLease : option Z) : result (Z * arenas) :=
  let sourceArena := default arenaBytes (source_arena arenaBytes externalArena) in
  match arenaLease with
  | None => createInvokeArenaLease s (Some sourceArena) NumUndefined
  | Some l =>
      let! state := requireArenaLeaseState s l in
      throw_if l_closed state with Error "SDS PIV/TAB decoded arena lease is closed.";
      let! _ := assertViewWithinArena sourceArena (l_arena state) "SDS PIV/TAB decoded arena" in
      Ok (l, s)
  end.

(** [sourceArena.subarray(offset, offset + size)] *)
Definition subview (v : view) (offset size : Z) : view := View (buffer v) (byteOffset v + rel_index (byte_length v) offset) (subarray (content v) offset (offset + size)).

(** A decoded type as the field of a frame. *)
Definition type_field (t : option sds_type) : type_in :=
  match t with
  | None => NO_TYPE
  | Some t => TypeIn (s_schemaName t) (s_fileIdentifier t) (s_schemaVersion t) (s_rootType t)
                (match s_schemaHash t with [] => HashAbsent | h => HashArray (map int_num h) end) (s_acceptsAny t) (wire_text (s_wireFormat t))
                (NumOf (int_num (s_fixedStringLength t))) (NumOf (int_num (s_byteLength t))) (NumOf (int_num (s_requiredAlignment t)))
  end.

Definition materialize_frame (d : decoded) (sourceArena : option view) (key lease generation : Z) : result frame :=
  let! offset := arenaFrameOffset (d_offset d) in
  let! size := arenaFrameSize (d_size d) in
  let! _ := assertUint32FrameRange offset size "SDS PIV/TAB decoded frame" in
  throw_if (0 <? size) && match sourceArena with None => true | _ => false end with Error "SDS PIV external arena bytes are required when PAYLOAD_ARENA is empty.";
  throw_if match sourceArena with Some a => (byte_length a <? offset) || (byte_length a - offset <? size) | None => false end
    with Error "SDS PIV TAB payload range exceeds its arena.";
  let! alignment := arenaFrameAlignment (d_alignment d) in
  throw_if match sourceArena with Some a => (1 <? alignment) && (0 <? size) && negb (Z.rem (byteOffset a + offset) alignment =? 0) | None => false end
    with Error "SDS PIV TAB payload is misaligned.";
  let payload := match sourceArena with Some a => subview a offset size | None => EMPTY_VIEW end in
  Ok (Frame key (Some payload) (type_field (d_typeRef d)) (wire_text (d_wireFormat d)) (NumOf (int_num (d_alignment d))) (NumOf (int_num (d_offset d)))
        (NumOf (int_num (d_size d))) (mutability_enum (d_mutability d)) (ownership_enum (d_ownership d)) (BigOf (d_frameId d)) (BigOf (d_sequence d))
        (if d_endOfStream d then FlagTrue else FlagOther) (BigOf (d_frameId d)) (d_portId d) (Some lease) (Some generation) (Some generation)).

Fixpoint materializeSdsArenaFrames (l : list decoded) (sourceArena : option view) (key lease generation : Z) : result (list frame) :=
  match l with
  | [] => Ok []
  | d :: l =>
      let! f := materialize_frame d sourceArena key lease generation in
      let! r := materializeSdsArenaFrames l sourceArena (key + 1) lease generation in
      Ok (f :: r)
  end.

(** The frames of a decoded envelope, and the lease they are under. *)
Definition decode_frames (s : arenas) (tabs : list wire_tab) (arena : view) (externalArena : option view) (arenaLease : option Z) : result (list frame * Z * arenas) :=
  let! frames := decodeSdsArenaFrames tabs in
  let! (l, s) := resolveDecodedArenaLease s arena externalArena arenaLease in
  let! state := requireArenaLeaseState s l in
  let! inputs := materializeSdsArenaFrames frames (source_arena arena externalArena) (next s) l (l_generation state) in
  Ok (inputs, l, Arenas (leases s) (transfers s) (receipts s) (next s + blen inputs)).

(** ** Envelopes *)

Inductive pivStatus := PivOk | PivYielded | PivFailed | PivOther (z : Z).
Record piv_request (T A : Type) := PivRequest { q_methodId : option jsstring; q_inputs : list T; q_payloadArena : A; q_traceId : Z; q_outputStreamCap : Z }.
Record piv_response (T A : Type) := PivResponse {
  p_statusCode : Z; p_status : pivStatus; p_yielded : bool; p_backlogRemaining : Z; p_outputs : list T; p_payloadArena : A; p_errorCode : option jsstring;
  p_errorMessage : option jsstring; p_traceId : Z
}.
Inductive piv (T A : Type) := REQUEST (r : piv_request T A) | RESPONSE (r : piv_response T A) | EMPTY.
Arguments PivRequest {T A}.
Arguments PivResponse {T A}.
Arguments REQUEST {T A}.
Arguments RESPONSE {T A}.
Arguments EMPTY {T A}.
Arguments q_methodId {T A}.
Arguments q_inputs {T A}.
Arguments q_payloadArena {T A}.
Arguments q_traceId {T A}.
Arguments q_outputStreamCap {T A}.
Arguments p_statusCode {T A}.
Arguments p_status {T A}.
Arguments p_yielded {T A}.
Arguments p_backlogRemaining {T A}.
Arguments p_outputs {T A}.
Arguments p_payloadArena {T A}.
Arguments p_errorCode {T A}.
Arguments p_errorMessage {T A}.
Arguments p_traceId {T A}.

(** The FlatBuffer library: an envelope is finished with its arena at an alignment, and read back; a reader that finds no arena gives [None].
    [wire_base] is the [byteOffset] of the finished bytes. *)
Class PivCodec := {
  wire : Type; finishPIV : piv tab (list Z) -> Z -> wire; wire_base : wire -> Z; bufferHasIdentifier : wire -> bool;
  getRootAsPIV : wire -> piv wire_tab (option view)
}.

Section codec.
Context `{!PivCodec}.

Definition assertAlignedInvokeBuffer (base : Z) (arenaArray : option view) (arenaAlignment : Z) : result unit :=
  throw_if negb (Z.rem base INVOKE_ARENA_ALIGNMENT =? 0) with Error "PIV buffer base is not 8-byte aligned.";
  throw_if match arenaArray with Some a => (0 <? byte_length a) && negb (Z.rem (byteOffset a) arenaAlignment =? 0) | None => false end
    with Error "PIV payload arena base is not aligned.";
  Ok tt.

Record invoke_request := InvokeRequest {
  r_methodId : option jsstring; r_inputs : list frame; r_externalArena : option (option view); r_traceId : raw_big; r_outputStreamCap : raw_num
}.
Definition pack_frames (s : arenas) (frames : list frame) (externalArena : option (option view)) : result (list tab * list Z * Z) :=
  match externalArena with Some e => packExternalArenaFrames s frames e | None => packArenaFrames s frames end.

Definition encodePluginInvokeRequest (s : arenas) (request : invoke_request) : result wire :=
  let! (frames, arena, al) := pack_frames s (r_inputs request) (r_externalArena request) in
  let bytes := finishPIV (REQUEST (PivRequest (r_methodId request) frames arena (normalizeBigInt (r_traceId request)) (normalizeUnsignedInteger (r_outputStreamCap request)))) al in
  let! _ := assertAlignedInvokeBuffer (wire_base bytes) (match getRootAsPIV bytes with REQUEST r => q_payloadArena r | _ => None end) al in
  Ok bytes.

Record decoded_request := DecodedRequest { k_methodId : option jsstring; k_inputs : list frame; k_payloadArena : view; k_arenaLease : Z; k_traceId : Z; k_outputStreamCap : Z }.

Definition decodePluginInvokeRequest (s : arenas) (data : wire) (externalArena : option view) (arenaLease : option Z) : result (decoded_request * arenas) :=
  throw_if negb (bufferHasIdentifier data) with Error "SDS PIV invoke request buffer identifier mismatch.";
  match getRootAsPIV data with
  | REQUEST request =>
      let arena := default EMPTY_VIEW (q_payloadArena request) in
      let! (inputs, l, s) := decode_frames s (q_inputs request) arena externalArena arenaLease in
      Ok (DecodedRequest (q_methodId request) inputs arena l (q_traceId request) (q_outputStreamCap request), s)
  | _ => Throw (Error "SDS PIV invoke envelope does not contain a request.")
  end.

Record invoke_response := InvokeResponse {
  o_statusCode : Z; o_status : option pivStatus; o_yielded : bool; o_backlogRemaining : raw_num; o_outputs : list frame; o_externalArena : option (option view);
  o_errorCode : option jsstring; o_errorMessage : option jsstring; o_traceId : raw_big
}.
Definition resolvePivStatus (response : invoke_response) : pivStatus :=
  match o_status response with
  | Some st => st
  | None => if o_yielded response then PivYielded
            else if negb (o_statusCode response =? 0) || match o_errorCode response with Some (_ :: _) => true | _ => false end then PivFailed else PivOk
  end.

Definition encodePluginInvokeResponse (s : arenas) (response : invoke_response) : result wire :=
  let! (frames, arena, al) := pack_frames s (o_outputs response) (o_externalArena response) in
  let bytes := finishPIV (RESPONSE (PivResponse (o_statusCode response) (resolvePivStatus response) (o_yielded response) (normalizeUnsignedInteger (o_backlogRemaining response))
                            frames arena (o_errorCode response) (o_errorMessage response) (normalizeBigInt (o_traceId response)))) al in
  let! _ := assertAlignedInvokeBuffer (wire_base bytes) (match getRootAsPIV bytes with RESPONSE r => p_payloadArena r | _ => None end) al in
  Ok bytes.

Record decoded_response := DecodedResponse {
  n_statusCode : Z; n_status : pivStatus; n_yielded : bool; n_backlogRemaining : Z; n_outputs : list frame; n_payloadArena : view; n_arenaLease : Z;
  n_errorCode : option jsstring; n_errorMessage : option jsstring; n_traceId : Z
}.

Definition decodePluginInvokeResponse (s : arenas) (data : wire) (externalArena : option view) (arenaLease : option Z) : result (decoded_response * arenas) :=
  throw_if negb (bufferHasIdentifier data) with Error "SDS PIV invoke response buffer identifier mismatch.";
  match getRootAsPIV data with
  | RESPONSE response =>
      let arena := default EMPTY_VIEW (p_payloadArena response) in
      let! (outputs, l, s) := decode_frames s (p_outputs response) arena externalArena arenaLease in
      Ok (DecodedResponse (p_statusCode response) (p_status response) (p_yielded response) (p_backlogRemaining response) outputs arena l (p_errorCode response)
            (p_errorMessage response) (p_traceId response), s)
  | _ => Throw (Error "SDS PIV invoke envelope does not contain a response.")
  end.

End codec.
