(* ===== verification/InvokeLayout.v ===== *)
(** The arena of an envelope: packed frames are aligned, in order and disjoint, hold their payloads, and leave zeros between them; what is
    encoded is decoded again; decoded frames stay inside their arena (src/invoke/codec.js). *)
From Stdlib Require Import ZArith QArith Lia.
From stdpp Require Import base list gmap strings numbers sorting.
From S2P Require Import Prelude JsText JsMap JsNumber TypeRefs InvokeTypes InvokeLease InvokeCodec.
Open Scope Z_scope.

(** ** Packed frames *)

Lemma read_bounded_int z d dflt lo hi : lo <= z <= hi -> - MAX_SAFE_INTEGER <= lo -> hi <= MAX_SAFE_INTEGER -> readBoundedInteger (NumOf (int_num z)) d dflt lo hi = Ok z.
Proof.
  intros Hz Hlo Hhi. unfold readBoundedInteger. cbn zeta beta iota. rewrite as_integer_int. unfold is_safe_integer.
  replace (negb ((- MAX_SAFE_INTEGER <=? z) && (z <=? MAX_SAFE_INTEGER)) || (z <? lo) || (hi <? z)) with false; [done|].
  symmetry. rewrite !orb_false_iff, negb_false_iff, andb_true_iff. lia.
Qed.

Lemma read_u32_int z d : 0 <= z <= UINT32_MAX -> read_u32 z d = Ok z.
Proof. intros Hz. apply read_bounded_int; [done|..]; vm_compute; discriminate. Qed.

Lemma read_alignment_int z d dflt hi : isPositivePowerOfTwo z = true -> z <= hi -> hi <= MAX_SAFE_INTEGER -> readAlignment (NumOf (int_num z)) d dflt hi = Ok z.
Proof.
  intros Hp Hz Hhi. unfold readAlignment. pose proof Hp as H. unfold isPositivePowerOfTwo in H. rewrite read_bounded_int; [cbn; by rewrite Hp|lia| |done].
  vm_compute. discriminate.
Qed.

Lemma blen_zero_fill (n : nat) : blen (repeat 0 n) = Z.of_nat n.
Proof. unfold blen. by rewrite repeat_length. Qed.

(** Items from an offset on, each at an aligned place behind the one before, up to an end. *)
Fixpoint laid (o : Z) (items : list (list Z * tab)) (e : Z) : Prop :=
  match items with
  | [] => o = e
  | (p, t) :: items => o <= b_offset t /\ (b_alignment t | b_offset t) /\ b_size t = blen p /\ laid (b_offset t + blen p) items e
  end.

(** The bytes of such items: zeros up to the place of each payload. *)
Fixpoint laid_bytes (o : Z) (items : list (list Z * tab)) : list Z :=
  match items with
  | [] => []
  | (p, t) :: items => repeat 0 (Z.to_nat (b_offset t - o)) ++ p ++ laid_bytes (b_offset t + blen p) items
  end.

Lemma laid_end o items e : laid o items e -> o <= e.
Proof.
  revert o. induction items as [|[p t] items IH]; intros o; cbn; [lia|]. intros (? & _ & _ & H). apply IH in H. pose proof (blen_nonneg p). lia.
Qed.

Lemma laid_bytes_length o items e : laid o items e -> blen (laid_bytes o items) = e - o.
Proof.
  revert o. induction items as [|[p t] items IH]; intros o; cbn; [intros ->; unfold blen; cbn; lia|]. intros (? & _ & _ & H). rewrite !blen_app, (IH _ H), blen_zero_fill. lia.
Qed.

(** A frame and the descriptor it gets. *)
Definition describes (f : frame) (t : tab) : Prop :=
  exists typeRef w, normalizeFrameTypeRef f = Ok (typeRef, w) /\ b_typeRef t = typeRef /\ b_wireFormat t = w /\ type_ok typeRef w /\
    isPositivePowerOfTwo (b_alignment t) = true /\ s_requiredAlignment typeRef <= b_alignment t <= UINT32_MAX /\
    assertAlignedFrameSize w typeRef (b_size t) = Ok tt /\ toSdsMutability (f_mutability f) = Ok (b_mutability t) /\
    toSdsOwnership (f_ownership f) = Ok (b_ownership t) /\ b_frameId t = encodeSdsFrameId f /\ b_portId t = f_portId f /\
    0 <= b_size t <= UINT32_MAX.

Lemma normalize_inv s f o p t : 0 <= o -> normalizeSdsArenaFrame s f o = Ok (p, t) ->
  p = payload_bytes f /\ b_size t = blen p /\ b_offset t = alignOffset o (b_alignment t) /\ b_offset t + b_size t <= UINT32_MAX /\ describes f t.
Proof.
  intros Ho. unfold normalizeSdsArenaFrame. intros H. js_inv H. destruct x0 as [typeRef w]. js_inv H. cbn.
  pose proof (normal_type _ _ _ E0) as Hok. pose proof (resolved_alignment _ _ _ _ Hok E1) as [Hp Hr].
  unfold assertUint32FrameRange in E3. destruct (UINT32_MAX - blen (payload_bytes f) <? alignOffset o x0) eqn:Er; [done|].
  assert (Ha : o <= alignOffset o x0) by (apply alignOffset_aligned; unfold isPositivePowerOfTwo in Hp; lia).
  pose proof (blen_nonneg (payload_bytes f)). split_and!; try done; [lia|].
  exists typeRef, w. cbn. destruct x1. split_and!; try done; lia.
Qed.

Definition in_u32 (it : list Z * tab) : Prop := 0 <= b_offset it.2 /\ b_offset it.2 + b_size it.2 <= UINT32_MAX.

Lemma pack_loop_inv s frames o al0 items e al :
  0 <= o <= UINT32_MAX -> isPositivePowerOfTwo al0 = true -> pack_loop s frames o al0 = Ok (items, e, al) ->
  laid o items e /\ e <= UINT32_MAX /\ Forall in_u32 items /\ Forall2 (fun f it => it.1 = payload_bytes f /\ describes f it.2) frames items /\
  isPositivePowerOfTwo al = true /\ al0 <= al /\ Forall (fun it => b_alignment it.2 <= al) items.
Proof.
  revert o al0 items e al. induction frames as [|f frames IH]; intros o al0 items e al Ho Hal H; cbn [pack_loop] in H.
  - injection H as <- <- <-. split_and!; try done; try lia; constructor.
  - js_inv H. destruct x as [p t]. js_inv H. destruct x2 as [[rest last] al']. injection H as <- <- <-.
    pose proof (normalize_inv s f o p t ltac:(lia) E) as (Hp & Hs & Hoff & Hr & Hd).
    destruct Hd as (typeRef & w & Hn & Ht & Hw & Hok & Hpw & Hreq & Hrest).
    assert (Ha : o <= b_offset t /\ (b_alignment t | b_offset t)).
    { rewrite Hoff. pose proof (alignOffset_aligned o (b_alignment t)). unfold isPositivePowerOfTwo in Hpw. split; [lia|apply H; lia]. }
    pose proof (blen_nonneg p). unfold arenaFrameOffset, arenaFrameSize in *. rewrite read_u32_int in E0, E1 by lia. injection E0 as <-. injection E1 as <-.
    unfold arenaFrameAlignment in E2. rewrite read_alignment_int in E2; [|done|lia|vm_compute; discriminate]. injection E2 as <-.
    assert (Hmax : isPositivePowerOfTwo (Z.max al0 (b_alignment t)) = true) by (destruct (Z.max_spec al0 (b_alignment t)) as [[_ ->]|[_ ->]]; done).
    assert (Hi : 0 <= b_offset t + b_size t <= UINT32_MAX) by lia. destruct (IH _ _ _ _ _ Hi Hmax E3) as (Hl & He & Hu & Hf & Hpa & Hla & Hfa).
    cbn. rewrite Hs in Hl. split_and!; try done; try lia; try tauto.
    + constructor; [split; cbn; lia|done].
    + constructor; [|done]. split; [done|]. exists typeRef, w. tauto.
    + constructor; [cbn; lia|done].
Qed.

Lemma zeros_app n m : repeat 0 (n + m) = repeat 0 n ++ repeat 0 m.
Proof. apply repeat_app. Qed.

Lemma fill_arena_laid pre o items e : blen pre = o -> laid o items e -> Forall in_u32 items ->
  fill_arena (pre ++ repeat 0 (Z.to_nat (e - o))) items = Ok (pre ++ laid_bytes o items).
Proof.
  revert pre o. induction items as [|[p t] items IH]; intros pre o Hpre Hl Hu; cbn [fill_arena laid laid_bytes] in *.
  - subst e. by rewrite Z.sub_diag.
  - destruct Hl as (Ho & _ & Hs & Hl). inversion_clear Hu as [|? ? [Hu1 Hu2] Hu']. cbn in Hu1, Hu2. pose proof (laid_end _ _ _ Hl) as He. pose proof (blen_nonneg p).
    unfold arenaFrameOffset. rewrite read_u32_int by lia. cbn [rbind]. unfold arena_set.
    replace (Z.to_nat (e - o)) with (Z.to_nat (b_offset t - o) + (length p + Z.to_nat (e - (b_offset t + blen p))))%nat by (unfold blen in *; lia).
    rewrite !zeros_app, !app_assoc. set (a := pre ++ repeat 0 (Z.to_nat (b_offset t - o))).
    assert (Ha : blen a = b_offset t) by (subst a; rewrite blen_app, blen_zero_fill; lia).
    rewrite (proj2 (Z.ltb_ge _ _)) by (rewrite !blen_app, !blen_zero_fill, Ha; unfold blen in *; lia). cbn [rbind].
    rewrite <- app_assoc, put_at_split; [|done|rewrite blen_zero_fill; unfold blen; lia].
    rewrite app_assoc. rewrite (IH (a ++ p)); [f_equal; subst a; by rewrite <- !app_assoc|rewrite blen_app; lia|done|done].
Qed.

Lemma laid_bytes_at o items e it : laid o items e -> it ∈ items ->
  o <= b_offset it.2 /\ b_offset it.2 + blen it.1 <= e /\ subarray (laid_bytes o items) (b_offset it.2 - o) (b_offset it.2 - o + blen it.1) = it.1.
Proof.
  revert o. induction items as [|[p t] items IH]; intros o Hl Hin; [by apply not_elem_of_nil in Hin|]. cbn in Hl. destruct Hl as (Ho & _ & Hs & Hl).
  pose proof (laid_end _ _ _ Hl). pose proof (blen_nonneg p). pose proof (blen_nonneg it.1). apply elem_of_cons in Hin as [-> |Hin]; cbn [fst snd laid_bytes].
  - split; [lia|]. split; [lia|]. rewrite subarray_app; [done|..]; rewrite ?blen_zero_fill; lia.
  - destruct (IH _ Hl Hin) as (Hi1 & Hi2 & Hi3). split; [lia|]. split; [lia|]. rewrite <- Hi3 at 2. rewrite app_assoc.
    rewrite !subarray_take by lia. f_equal; [lia|]. rewrite skipn_app, skipn_all2; [cbn|..]; rewrite ?length_app, ?repeat_length; unfold blen in *; [f_equal|]; lia.
Qed.

Lemma zeros_at (n i : nat) : (i < n)%nat -> repeat 0 n !! i = Some 0.
Proof. revert i. induction n as [|n IH]; intros [|i] H; cbn; try done; try lia. apply IH. lia. Qed.

Lemma laid_bytes_gap o items e i : laid o items e -> 0 <= i < e - o ->
  (exists it, it ∈ items /\ b_offset it.2 <= o + i < b_offset it.2 + blen it.1) \/ at_ (laid_bytes o items) i = Some 0.
Proof.
  revert o i. induction items as [|[p t] items IH]; intros o i Hl Hi; cbn [laid laid_bytes] in *; [lia|]. destruct Hl as (Ho & _ & Hs & Hl).
  destruct (Z.lt_ge_cases i (b_offset t - o)).
  - right. rewrite at_app_l by (rewrite blen_zero_fill; lia). unfold at_. rewrite (proj2 (Z.leb_le 0 i)) by lia.
    apply zeros_at. lia.
  - destruct (Z.lt_ge_cases i (b_offset t - o + blen p)).
    + left. exists (p, t). split; [apply elem_of_cons; by left|cbn; lia].
    + rewrite at_app_r, blen_zero_fill by (rewrite blen_zero_fill; lia). rewrite at_app_r by lia.
      replace (i - Z.of_nat (Z.to_nat (b_offset t - o)) - blen p) with (i - (b_offset t - o + blen p)) by lia.
      destruct (IH (b_offset t + blen p) (i - (b_offset t - o + blen p)) Hl) as [(it & Hin & Hr)|Hr]; [lia| |by right].
      left. exists it. split; [apply elem_of_cons; by right|lia].
Qed.

Lemma laid_items o items e : laid o items e -> Forall (fun it => b_size it.2 = blen it.1 /\ (b_alignment it.2 | b_offset it.2)) items.
Proof. revert o. induction items as [|[p t] items IH]; intros o; cbn; [done|]. intros (_ & ? & ? & H). constructor; [done|by eapply IH]. Qed.

(** Descriptors in order, none reaching into the next. *)
Definition in_order : list tab -> Prop := StronglySorted (fun a b => b_offset a + b_size a <= b_offset b).

Lemma laid_in_order o items e : laid o items e -> in_order (map snd items) /\ Forall (fun t => o <= b_offset t) (map snd items).
Proof.
  revert o. induction items as [|[p t] items IH]; intros o Hl; cbn [laid map snd] in *; [split; constructor|]. destruct Hl as (Ho & _ & Hs & Hl).
  destruct (IH _ Hl) as [Hi Hf]. pose proof (blen_nonneg p). split; constructor; try done; try lia.
  - eapply Forall_impl; [exact Hf|]. cbn. intros; lia.
  - eapply Forall_impl; [exact Hf|]. cbn. intros; lia.
Qed.

Lemma pack_inv s frames tabs arena al : packArenaFrames s frames = Ok (tabs, arena, al) ->
  exists items, tabs = map snd items /\ arena = laid_bytes 0 items /\ laid 0 items (blen arena) /\ blen arena <= UINT32_MAX /\ Forall in_u32 items /\
    Forall2 (fun f it => it.1 = payload_bytes f /\ describes f it.2) frames items /\ isPositivePowerOfTwo al = true /\ INVOKE_ARENA_ALIGNMENT <= al /\
    Forall (fun it => b_alignment it.2 <= al) items.
Proof.
  unfold packArenaFrames. intros H. js_inv H. destruct x as [[items e] al0]. js_inv H.
  apply pack_loop_inv in E as (Hl & He & Hu & Hf & Hp & Ha & Hal); [|split; [done|vm_compute; discriminate]|done].
  pose proof (fill_arena_laid [] 0 items e eq_refl Hl Hu) as Hfill. rewrite Z.sub_0_r in Hfill. cbn [app] in Hfill. rewrite Hfill in E0. injection E0 as <-.
  exists items. rewrite (laid_bytes_length _ _ _ Hl), Z.sub_0_r. split_and!; done.
Qed.

(** A frame and its place in an arena. *)
Definition placed (arena : list Z) (al : Z) (f : frame) (t : tab) : Prop :=
  describes f t /\ b_size t = blen (payload_bytes f) /\ 0 <= b_offset t /\ b_offset t + b_size t <= blen arena /\
  (b_alignment t | b_offset t) /\ (b_alignment t | al) /\ subarray arena (b_offset t) (b_offset t + b_size t) = payload_bytes f.

Lemma pack_places s frames tabs arena al : packArenaFrames s frames = Ok (tabs, arena, al) -> Forall2 (placed arena al) frames tabs /\ blen arena <= UINT32_MAX.
Proof.
  intros H. apply pack_inv in H as (items & -> & -> & Hl & Hlen & Hu & Hf & Hp & Ha & Hal). set (e := blen (laid_bytes 0 items)) in *.
  pose proof (laid_items _ _ _ Hl) as Hsz. split; [|done].
  apply Forall2_fmap_r. apply Forall2_same_length_lookup_2; [by eapply Forall2_length|]. intros i f it Hi1 Hi2.
  pose proof (Forall2_lookup_lr _ _ _ _ _ _ Hf Hi1 Hi2) as [Hpay Hd]. pose proof (Forall_lookup_1 _ _ _ _ Hsz Hi2) as [Hs Hdiv]. pose proof (Forall_lookup_1 _ _ _ _ Hal Hi2) as Hle.
  destruct (laid_bytes_at 0 items e it Hl) as (H1 & H2 & H3); [by eapply list_elem_of_lookup_2|].
  unfold compose, placed. rewrite Hs, <- Hpay. rewrite !Z.sub_0_r in H3. split_and!; try done. apply power_divides; [|done|done]. by destruct Hd as (? & ? & _ & _ & _ & _ & ? & _).
Qed.

(** C8. Packing frames: every frame gets a descriptor, in order; each lies at a multiple of its alignment behind the one before, inside the arena, and the
    arena holds its payload there and zeros everywhere else; the alignment of the arena is a power of two that the alignment of every frame divides. *)
Theorem packed_arena_layout s frames tabs arena al :
  packArenaFrames s frames = Ok (tabs, arena, al) ->
  Forall2 (placed arena al) frames tabs /\ in_order tabs /\ isPositivePowerOfTwo al = true /\ INVOKE_ARENA_ALIGNMENT <= al /\
  (forall i, 0 <= i < blen arena -> (exists t, t ∈ tabs /\ b_offset t <= i < b_offset t + b_size t) \/ at_ arena i = Some 0).
Proof.
  intros H. split; [by apply pack_places in H as [? _]|]. apply pack_inv in H as (items & -> & -> & Hl & _ & Hu & Hf & Hp & Ha & Hal). set (e := blen (laid_bytes 0 items)) in *.
  split_and!; [apply (laid_in_order 0 items e Hl)|done|done|].
  intros i Hi. destruct (laid_bytes_gap 0 items e i Hl) as [(it & Hin & Hr)|Hr]; [lia| |by right]. left. exists it.2. split; [by apply list_elem_of_In, in_map, list_elem_of_In|].
  pose proof (proj1 (List.Forall_forall _ _) (laid_items _ _ _ Hl) it ltac:(by apply list_elem_of_In)) as [-> _]. lia.
Qed.

Definition plain_frame (key : Z) (payload : list Z) (alignment : raw_num) : frame :=
  Frame key (Some (View 7 0 payload)) NO_TYPE WireAbsent alignment NumUndefined NumUndefined EnumAbsent EnumAbsent BigUndefined (BigOf key) FlagTrue BigUndefined
    (Some (lit "in")) None None None.
Definition two_frames : list frame := [plain_frame 1 [1; 2; 3] NumUndefined; plain_frame 2 [4; 5] (NumOf (int_num 16))].

Lemma packed_arena_layout_witness : exists tabs al, Forall2 (placed ([1; 2; 3] ++ repeat 0 13 ++ [4; 5]) al) two_frames tabs /\ in_order tabs.
Proof.
  assert (H : exists tabs al, packArenaFrames NO_ARENAS two_frames = Ok (tabs, [1; 2; 3] ++ repeat 0 13 ++ [4; 5], al)) by (do 2 eexists; vm_compute; reflexivity).
  destruct H as (tabs & al & H). exists tabs, al. destruct (packed_arena_layout NO_ARENAS two_frames tabs _ al H) as (H1 & H2 & _). split; [exact H1|exact H2].
Defined.

(** ** What a reader gives back *)

Definition view_type (t : sds_type) : wire_type :=
  WireType (s_schemaName t) (s_fileIdentifier t) (s_schemaVersion t) (s_rootType t) (s_schemaHash t) (s_acceptsAny t) (Known (s_wireFormat t))
    (s_fixedStringLength t) (s_byteLength t) (s_requiredAlignment t).
Definition view_tab (t : tab) : wire_tab :=
  WireTab (b_offset t) (b_size t) (b_alignment t) (Known (b_wireFormat t)) (Some (view_type (b_typeRef t))) (Known (b_mutability t)) (Known (b_ownership t))
    (b_frameId t) (b_portId t).

Lemma byte_of_int b : is_byte b -> byte_of (int_num b) = Some b.
Proof. intros Hb. unfold byte_of. rewrite as_integer_int. unfold is_byte in Hb. rewrite (proj2 (Z.ltb_ge b 0)), (proj2 (Z.ltb_ge 255 b)) by lia. done. Qed.

Lemma bytes_of_ints h : bytes_ok h -> mapM byte_of (map int_num h) = Some h.
Proof. induction 1 as [|b h Hb _ IH]; [done|]. cbn. rewrite byte_of_int by done. cbn. cbn in IH. by rewrite IH. Qed.

Lemma digit_bound c d : digit_in 16 c = Some d -> 0 <= d < 16.
Proof. unfold digit_in. intros H. repeat case_match; try done; injection H as <-; lia. Qed.

Lemma parse_pairs_bytes s h : parse_pairs s = Some h -> bytes_ok h.
Proof.
  enough (Hn : forall n s h, (length s <= n)%nat -> parse_pairs s = Some h -> bytes_ok h) by eauto. clear s h.
  induction n as [|n IH]; intros s h Hl H; (destruct s as [|a [|b s]]; cbn in H, Hl; [injection H as <-; constructor|done|]); [lia|].
  destruct (digit_in 16 a) as [x|] eqn:Ea; [|done]. destruct (digit_in 16 b) as [y|] eqn:Eb; [|done]. destruct (parse_pairs s) as [l|] eqn:El; [|done]. injection H as <-.
  apply digit_bound in Ea, Eb. constructor; [unfold is_byte; lia|]. apply (IH s); [lia|done].
Qed.

Lemma byte_of_bytes l h : mapM byte_of l = Some h -> bytes_ok h.
Proof.
  revert h. induction l as [|n l IH]; intros h H; cbn in H; [injection H as <-; constructor|].
  destruct (byte_of n) as [b|] eqn:Eb; [|done]. cbn in H. destruct (mapM byte_of l) as [r|] eqn:Er; [|done]. injection H as <-. constructor; [|by apply IH].
  unfold byte_of in Eb. destruct (as_integer n) as [z|]; [|done]. destruct ((z <? 0) || (255 <? z)) eqn:Ez; [done|]. injection Eb as <-. apply orb_false_iff in Ez. unfold is_byte. lia.
Qed.

Lemma schema_hash_bytes v : bytes_ok (default [] (normalizePayloadSchemaHash v)).
Proof.
  unfold normalizePayloadSchemaHash, inspectPayloadSchemaHash. destruct v as [|s|l|]; cbn; try constructor.
  - destruct (parse_pairs _) as [[|b h]|] eqn:E; cbn; [constructor| |constructor]. by apply parse_pairs_bytes in E.
  - destruct (mapM byte_of l) as [[|b h]|] eqn:E; cbn; [constructor| |constructor]. by apply byte_of_bytes in E.
Qed.

Lemma normal_type_hash f t w : normalizeFrameTypeRef f = Ok (t, w) -> bytes_ok (s_schemaHash t).
Proof.
  unfold normalizeFrameTypeRef. intros H. js_inv H. assert (Hh : bytes_ok (s_schemaHash x1)).
  { unfold toSdsFlatBufferTypeRefT in E1. js_inv E1. cbn. apply schema_hash_bytes. }
  destruct (bool_decide (x = AlignedBinary)); js_inv H; done.
Qed.

Lemma wire_text_normal w : normalizePayloadWireFormat (wire_text w) = Ok w.
Proof. by destruct w. Qed.

(** The type of a decoded frame has the normal form it was decoded from. *)
Lemma type_field_normal t w : type_ok t w -> bytes_ok (s_schemaHash t) ->
  toSdsFlatBufferTypeRefT (type_field (Some t)) w = Ok t.
Proof.
  intros [Hw Hf Hl Hr _ _] Hh. unfold toSdsFlatBufferTypeRefT. cbn [type_field i_schemaHash i_wireFormat i_fixedStringLength i_byteLength i_requiredAlignment
    i_schemaName i_fileIdentifier i_schemaVersion i_rootTypeName i_acceptsAny].
  assert (Hv : isPayloadSchemaHashValid (match s_schemaHash t with [] => HashAbsent | h => HashArray (map int_num h) end) = true /\
               default [] (normalizePayloadSchemaHash (match s_schemaHash t with [] => HashAbsent | h => HashArray (map int_num h) end)) = s_schemaHash t).
  { unfold isPayloadSchemaHashValid, normalizePayloadSchemaHash. destruct (s_schemaHash t) as [|b h]; [done|]. cbn [inspectPayloadSchemaHash].
    by rewrite (bytes_of_ints (b :: h)). }
  destruct Hv as [-> ->]. cbn [negb]. replace (wire_defined (wire_text (s_wireFormat t))) with true by by destruct (s_wireFormat t). rewrite wire_text_normal. cbn [rbind].
  rewrite !read_bounded_int; try done; try (vm_compute; discriminate). cbn [rbind]. by destruct t.
Qed.

Lemma typed_frame_normal g t w : type_ok t w -> bytes_ok (s_schemaHash t) -> f_typeRef g = type_field (Some t) -> f_wireFormat g = wire_text w ->
  normalizeFrameTypeRef g = Ok (t, w).
Proof.
  intros Hok Hh Ht Hw. unfold normalizeFrameTypeRef. rewrite Ht, Hw. pose proof (type_field_normal t w Hok Hh) as Hn. destruct Hok as [Hwf Hf Hl Hr Hp Ha].
  assert (Hi : i_wireFormat (type_field (Some t)) = wire_text w) by (cbn; by rewrite Hwf). assert (Hd : wire_defined (wire_text w) = true) by by destruct w.
  unfold first_wire. rewrite Hi, Hd, wire_text_normal. cbn [rbind andb]. rewrite bool_decide_true by done. cbn [negb rbind]. rewrite Hn. cbn [rbind].
  destruct (bool_decide_reflect (w = AlignedBinary)) as [->|Hne].
  - specialize (Ha eq_refl). rewrite read_alignment_int; [|auto|lia|vm_compute; discriminate]. cbn [rbind].
    rewrite read_bounded_int; [|done|vm_compute; discriminate..]. cbn [rbind]. by destruct t.
  - replace ((0 <? s_requiredAlignment t) && negb (isPositivePowerOfTwo (s_requiredAlignment t))) with false; [done|].
    destruct (Z.ltb_spec 0 (s_requiredAlignment t)); [|done]. by rewrite Hp.
Qed.

Lemma unsigned_int z : 0 <= z -> normalizeUnsignedInteger (NumOf (int_num z)) = z.
Proof. intros Hz. unfold normalizeUnsignedInteger, int_num, inject_Z, q_trunc. cbn. rewrite Z.quot_1_r. lia. Qed.

Lemma decode_type t w : type_ok t w -> decodeSdsTypeRef (view_type t) = Ok t.
Proof.
  intros [Hw Hf Hl Hr _ _]. unfold decodeSdsTypeRef. cbn [view_type fromSdsWireFormat y_wireFormat rbind y_fixedStringLength y_byteLength y_requiredAlignment].
  rewrite !read_bounded_int; try done; try (vm_compute; discriminate). cbn [rbind]. by destruct t.
Qed.

Definition decoded_of (t : tab) (o : ownership) (m : mutability) : decoded :=
  Decoded (Some (b_typeRef t)) (b_portId t) (b_alignment t) (b_offset t) (b_size t) o m (b_frameId t) (decodeSdsFrameId (b_frameId t)).1 (decodeSdsFrameId (b_frameId t)).2
    (b_wireFormat t).

(** A packed descriptor passes the checks of the decoder. *)
Lemma decode_tab f t : describes f t -> 0 <= b_offset t ->
  exists o m, normalizeFrameOwnership (f_ownership f) = Ok o /\ normalizeFrameMutability (f_mutability f) = Ok m /\ decodeSdsTabFrame (view_tab t) = Ok (decoded_of t o m).
Proof.
  intros (typeRef & w & Hn & Ht & Hw & Hok & Hpw & Hreq & Hsz & Hm & Ho & Hid & Hport & Hs) Hoff.
  destruct (fromSdsOwnership (Known (b_ownership t))) as [o|] eqn:Eo; [|by destruct (b_ownership t)].
  destruct (fromSdsMutability (Known (b_mutability t))) as [m|] eqn:Em; [|by destruct (b_mutability t)].
  exists o, m. unfold normalizeFrameOwnership, normalizeFrameMutability. rewrite Ho, Hm. cbn [rbind]. split; [done|]. split; [done|].
  unfold decodeSdsTabFrame, arenaFrameAlignment. cbn [view_tab w_offset w_size w_alignment w_wireFormat w_typeRef w_mutability w_ownership w_frameId w_portId].
  rewrite !unsigned_int by lia. rewrite read_alignment_int; [|done|lia|vm_compute; discriminate]. cbn [rbind fromSdsWireFormat normalizeBigInt].
  unfold decoded_of. destruct (decodeSdsFrameId (b_frameId t)) as [sq eos]. cbn [fst snd].
  rewrite Ht, (decode_type _ _ Hok). cbn [rbind]. rewrite Eo, Em. cbn [rbind].
  assert (Hv : validateDecodedFrameContract (Decoded (Some typeRef) (b_portId t) (b_alignment t) (b_offset t) (b_size t) o m (b_frameId t) sq eos (b_wireFormat t)) = Ok tt);
    [|by rewrite Hv].
  destruct Hok as [Hwf _ _ Hr Hp Ha]. unfold validateDecodedFrameContract. cbn [d_typeRef d_wireFormat d_alignment d_size]. rewrite Hw, Hwf, bool_decide_false by tauto.
  replace ((0 <? s_requiredAlignment typeRef) && negb (isPositivePowerOfTwo (s_requiredAlignment typeRef))) with false
    by (destruct (Z.ltb_spec 0 (s_requiredAlignment typeRef)); [by rewrite Hp|done]).
  rewrite (proj2 (Z.ltb_ge _ _)) by lia. unfold assertAlignedFrameSize in Hsz. destruct (bool_decide_reflect (w = AlignedBinary)) as [->|Hne]; [|done].
  rewrite bool_decide_false in Hsz by tauto. rewrite Hp by (specialize (Ha eq_refl); lia). cbn [negb].
  by destruct ((0 <? s_byteLength typeRef) && negb (b_size t =? s_byteLength typeRef)).
Qed.

(** The id a frame travels under, and the sequence number and end-of-stream mark its receiver is to read. A frame with an id of its own goes under that, and
    its sequence number and mark are not sent; one with a sequence number or a mark goes under twice the number, plus one for the mark; any other
    under its trace id. The receiver reads half of the id, rounded down, and whether it is odd. *)
Definition has_own_id (f : frame) : Prop := f_frameId f <> BigUndefined /\ f_frameId f <> BigNull.
Inductive frame_identity (f : frame) : Z -> Z -> bool -> Prop :=
  | own_id z : has_own_id f -> normalizeBigInt (f_frameId f) = z -> frame_identity f z (z / 2) (Z.odd z)
  | numbered q (last : bool) : ~ has_own_id f -> f_sequence f <> BigUndefined \/ f_endOfStream f <> FlagUndefined ->
      normalizeBigInt (f_sequence f) = q -> (f_endOfStream f = FlagTrue <-> last = true) -> frame_identity f (2 * q + (if last then 1 else 0)) q last
  | traced z : ~ has_own_id f -> f_sequence f = BigUndefined -> f_endOfStream f = FlagUndefined -> normalizeBigInt (f_traceId f) = z ->
      frame_identity f z (z / 2) (Z.odd z).

Lemma decode_halves z : decodeSdsFrameId z = (z / 2, Z.odd z).
Proof.
  unfold decodeSdsFrameId. rewrite Z.shiftr_div_pow2 by lia. change (2 ^ 1) with 2. f_equal. change 1 with (Z.ones 1) at 1. rewrite Z.land_ones by lia.
  change (2 ^ 1) with 2. rewrite Zmod_odd. by destruct (Z.odd z).
Qed.

Lemma shifted_with_bit q (b : bool) : Z.lor (Z.shiftl q 1) (if b then 1 else 0) = 2 * q + (if b then 1 else 0).
Proof.
  rewrite Z.shiftl_mul_pow2 by lia. change (2 ^ 1) with 2. destruct b; [|rewrite Z.lor_0_r; lia].
  pose proof (Z.add_lor_land (q * 2) 1) as H. replace (Z.land (q * 2) 1) with 0 in H; [lia|].
  change 1 with (Z.ones 1). rewrite Z.land_ones by lia. symmetry. apply Z.mod_mul. lia.
Qed.

Lemma halves_of_bit q (b : bool) : (2 * q + (if b then 1 else 0)) / 2 = q /\ Z.odd (2 * q + (if b then 1 else 0)) = b.
Proof.
  rewrite Z.odd_add, Z.odd_mul, Z.mul_comm, Z.div_add_l by lia. by destruct b; cbn; rewrite ?Z.add_0_r.
Qed.

Lemma frame_id_meaning f : frame_identity f (encodeSdsFrameId f) (decodeSdsFrameId (encodeSdsFrameId f)).1 (decodeSdsFrameId (encodeSdsFrameId f)).2.
Proof.
  rewrite decode_halves. cbn [fst snd].
  assert (Hown : has_own_id f -> frame_identity f (encodeSdsFrameId f) (encodeSdsFrameId f / 2) (Z.odd (encodeSdsFrameId f))).
  { intros Ho. apply own_id; [done|]. unfold encodeSdsFrameId. destruct Ho. by destruct (f_frameId f). }
  assert (Hno : ~ has_own_id f -> frame_identity f (encodeSdsFrameId f) (encodeSdsFrameId f / 2) (Z.odd (encodeSdsFrameId f))).
  { intros Hn. assert (E : encodeSdsFrameId f =
      if match f_sequence f with BigUndefined => false | _ => true end || match f_endOfStream f with FlagUndefined => false | _ => true end
      then 2 * normalizeBigInt (f_sequence f) + (if match f_endOfStream f with FlagTrue => true | _ => false end then 1 else 0) else normalizeBigInt (f_traceId f)).
    { rewrite <- shifted_with_bit. unfold encodeSdsFrameId. unfold has_own_id in Hn. destruct (f_frameId f); try (by destruct Hn); by destruct (f_endOfStream f). }
    rewrite E. clear E. destruct (match f_sequence f with BigUndefined => false | _ => true end || _) eqn:Ed.
    - set (last := match f_endOfStream f with FlagTrue => true | _ => false end). set (q := normalizeBigInt (f_sequence f)).
      destruct (halves_of_bit q last) as [-> ->].
      apply numbered; [done| |done|unfold last; by destruct (f_endOfStream f)].
      apply orb_true_iff in Ed as [Ed|Ed]; [left|right]; intros E; by rewrite E in Ed.
    - apply orb_false_iff in Ed as [Es Ee]. apply traced; [done|by destruct (f_sequence f)|by destruct (f_endOfStream f)|done]. }
  destruct (f_frameId f) eqn:Ef; try (apply Hown; unfold has_own_id; by rewrite Ef); apply Hno; unfold has_own_id; rewrite Ef; tauto.
Qed.

(** What the receiver of a frame finds in it. *)
Definition received (f g : frame) : Prop :=
  (exists p, f_payload g = Some p /\ content p = payload_bytes f) /\ f_portId g = f_portId f /\
  (exists id sequence last, frame_identity f id sequence last /\ f_frameId g = BigOf id /\ f_sequence g = BigOf sequence /\ (f_endOfStream g = FlagTrue <-> last = true)) /\
  normalizeFrameOwnership (f_ownership g) = normalizeFrameOwnership (f_ownership f) /\ normalizeFrameMutability (f_mutability g) = normalizeFrameMutability (f_mutability f) /\
  normalizeFrameTypeRef g = normalizeFrameTypeRef f.

Lemma normal_ownership_again v o : normalizeFrameOwnership v = Ok o -> normalizeFrameOwnership (ownership_enum o) = Ok o.
Proof. unfold normalizeFrameOwnership. intros H. js_inv H. destruct x; injection H as <-; done. Qed.

Lemma rem_divides a b : 0 < b -> (b | a) -> (Z.rem a b =? 0) = true.
Proof. intros Hb Hd. apply Z.eqb_eq. apply Z.rem_divide; [lia|done]. Qed.

(** One frame: packed in an arena at a base, decoded and materialized. *)
Lemma materialize_packed f t o m a src key l g :
  describes f t -> normalizeFrameOwnership (f_ownership f) = Ok o -> normalizeFrameMutability (f_mutability f) = Ok m ->
  0 <= b_offset t -> b_offset t + b_size t <= blen (content a) -> blen (content a) <= UINT32_MAX -> (b_alignment t | b_offset t) -> (b_alignment t | byteOffset a) ->
  subarray (content a) (b_offset t) (b_offset t + b_size t) = payload_bytes f -> b_size t = blen (payload_bytes f) ->
  src = (if 0 <? blen (content a) then Some a else None) ->
  exists g', materialize_frame (decoded_of t o m) src key l g = Ok g' /\ received f g'.
Proof.
  intros Hd Ho Hm Hoff Hin Hu Hda Hdb Hsub Hlen ->. pose proof Hd as (typeRef & w & Hn & Ht & Hw & Hok & Hpw & Hreq & _ & _ & _ & Hid & Hport & Hs).
  assert (Hpos : 0 < b_alignment t) by (unfold isPositivePowerOfTwo in Hpw; lia).
  unfold materialize_frame, arenaFrameOffset, arenaFrameSize, arenaFrameAlignment.
  cbn [decoded_of d_offset d_size d_alignment d_typeRef d_wireFormat d_mutability d_ownership d_frameId d_sequence d_endOfStream d_portId].
  rewrite !read_u32_int by lia. cbn [rbind]. unfold assertUint32FrameRange. rewrite (proj2 (Z.ltb_ge (UINT32_MAX - b_size t) _)) by lia. cbn [rbind].
  rewrite read_alignment_int; [|done|lia|vm_compute; discriminate]. cbn [rbind].
  assert (Hrec : forall p, content p = payload_bytes f -> forall fr, fr =
    Frame key (Some p) (type_field (Some (b_typeRef t))) (wire_text (b_wireFormat t)) (NumOf (int_num (b_alignment t))) (NumOf (int_num (b_offset t)))
        (NumOf (int_num (b_size t))) (mutability_enum m) (ownership_enum o) (BigOf (b_frameId t)) (BigOf (decodeSdsFrameId (b_frameId t)).1)
        (if (decodeSdsFrameId (b_frameId t)).2 then FlagTrue else FlagOther) (BigOf (b_frameId t)) (b_portId t) (Some l) (Some g) (Some g) -> received f fr).
  { intros p Hp fr ->. unfold received. cbn [f_payload f_portId f_frameId f_sequence f_endOfStream f_ownership f_mutability]. rewrite Hid.
    split_and!; try done; [by exists p| | | |].
    - do 3 eexists. split; [apply frame_id_meaning|]. split_and!; [done..|]. by destruct (decodeSdsFrameId _).2.
    - by rewrite (normal_ownership_again _ _ Ho), Ho.
    - by rewrite normal_mutability, Hm.
    - rewrite Hn. subst w typeRef. apply typed_frame_normal; try done. by eapply normal_type_hash. }
  destruct (Z.ltb_spec 0 (blen (content a))).
  - rewrite andb_false_r. rewrite (proj2 (Z.ltb_ge (blen (content a)) _)), (proj2 (Z.ltb_ge (blen (content a) - _) _)) by lia. cbn [orb].
    rewrite rem_divides; [|done|by apply Z.divide_add_r]. cbn [negb]. rewrite andb_false_r. eexists. split; [reflexivity|]. eapply Hrec; [|reflexivity]. done.
  - assert (Hz : blen (payload_bytes f) = 0) by (pose proof (blen_nonneg (content a)); lia). rewrite (proj2 (Z.ltb_ge 0 (b_size t))) by lia. cbn [andb].
    eexists. split; [reflexivity|]. eapply Hrec; [|reflexivity]. cbn. by rewrite (blen_0 _ Hz).
Qed.

Lemma decode_all frames tabs arena al : Forall2 (placed arena al) frames tabs ->
  exists ds, decodeSdsArenaFrames (map view_tab tabs) = Ok ds /\
    Forall2 (fun f d => exists t o m, placed arena al f t /\ normalizeFrameOwnership (f_ownership f) = Ok o /\ normalizeFrameMutability (f_mutability f) = Ok m /\ d = decoded_of t o m) frames ds.
Proof.
  induction 1 as [|f t frames tabs Hft _ (ds & Ed & Hds)]; [by exists []|]. destruct (decode_tab f t) as (o & m & Ho & Hm & Et); [apply Hft..|].
  exists (decoded_of t o m :: ds). cbn. rewrite Et. cbn. rewrite Ed. split; [done|]. constructor; [|done]. by exists t, o, m.
Qed.

Lemma materialize_all frames ds arena al a src key l g :
  Forall2 (fun f d => exists t o m, placed arena al f t /\ normalizeFrameOwnership (f_ownership f) = Ok o /\ normalizeFrameMutability (f_mutability f) = Ok m /\ d = decoded_of t o m) frames ds ->
  content a = arena -> blen arena <= UINT32_MAX -> (al | byteOffset a) -> src = (if 0 <? blen arena then Some a else None) ->
  exists gs, materializeSdsArenaFrames ds src key l g = Ok gs /\ Forall2 received frames gs.
Proof.
  intros H Ha Hu Hal Hsrc. revert key. induction H as [|f d frames ds (t & o & m & Hp & Ho & Hm & ->) _ IH]; intros key; [by exists []|].
  destruct Hp as (Hd & Hs & Hoff & Hin & Hda & Hdal & Hsub). subst arena.
  destruct (materialize_packed f t o m a src key l g) as (g' & Eg & Hr); try done; [by etrans|].
  destruct (IH (key + 1)) as (gs & Egs & Hrs). exists (g' :: gs). cbn. rewrite Eg. cbn. rewrite Egs. split; [done|by constructor].
Qed.

Lemma decode_packed s s0 frames tabs arena al buf base : packArenaFrames s frames = Ok (tabs, arena, al) -> (al | base) ->
  exists gs l s', decode_frames s0 (map view_tab tabs) (View buf base arena) None None = Ok (gs, l, s') /\ Forall2 received frames gs.
Proof.
  intros Hp Hb. apply pack_places in Hp as [Hp Hu]. destruct (decode_all _ _ _ _ Hp) as (ds & Ed & Hds).
  unfold decode_frames. rewrite Ed. cbn [rbind]. unfold resolveDecodedArenaLease, createInvokeArenaLease, readBoundedInteger. cbn [rbind].
  unfold requireArenaLeaseState. cbn [leases]. rewrite lookup_insert_eq. cbn [rbind l_generation next].
  destruct (materialize_all frames ds arena al (View buf base arena) (source_arena (View buf base arena) None) (next s0 + 1) (next s0) 1 Hds) as (gs & Eg & Hr); try done.
  rewrite Eg. cbn [rbind]. by eexists gs, _, _.
Qed.
