(* ===== verification/InvokeRoundtrip.v ===== *)
(** Encoding an invocation and decoding it again (src/invoke/codec.js), over the laws of the FlatBuffer library ([PivLaws]); and where decoded
    frames lie. *)
From Stdlib Require Import ZArith QArith Lia.
From stdpp Require Import base list gmap strings numbers.
From S2P Require Import Prelude JsText JsMap JsNumber TypeRefs InvokeTypes InvokeLease InvokeCodec InvokeLayout.
Open Scope Z_scope.

(** ** The FlatBuffer library *)

(** Texts that UTF-8 keeps, and numbers that fit their wire type. *)
Definition text_fits (t : option jsstring) : Prop := match t with Some s => Forall is_unit s /\ isWellFormed s = true | None => True end.
Definition u32_fits (z : Z) : Prop := 0 <= z <= UINT32_MAX.
Definition u64_fits (z : Z) : Prop := 0 <= z < 2 ^ 64.
Definition type_fits (t : sds_type) : Prop :=
  text_fits (s_schemaName t) /\ text_fits (s_fileIdentifier t) /\ text_fits (s_schemaVersion t) /\ text_fits (s_rootType t) /\ bytes_ok (s_schemaHash t) /\
  0 <= s_fixedStringLength t <= UINT16_MAX /\ u32_fits (s_byteLength t) /\ 0 <= s_requiredAlignment t <= UINT16_MAX.
Definition tab_fits (t : tab) : Prop :=
  u32_fits (b_offset t) /\ u32_fits (b_size t) /\ u32_fits (b_alignment t) /\ type_fits (b_typeRef t) /\ u64_fits (b_frameId t) /\ text_fits (b_portId t).
Definition piv_fits (e : piv tab (list Z)) : Prop :=
  match e with
  | REQUEST r => text_fits (q_methodId r) /\ Forall tab_fits (q_inputs r) /\ bytes_ok (q_payloadArena r) /\ u64_fits (q_traceId r) /\ u32_fits (q_outputStreamCap r)
  | RESPONSE r => - 2 ^ 31 <= p_statusCode r < 2 ^ 31 /\ u32_fits (p_backlogRemaining r) /\ Forall tab_fits (p_outputs r) /\ bytes_ok (p_payloadArena r) /\
      text_fits (p_errorCode r) /\ text_fits (p_errorMessage r) /\ u64_fits (p_traceId r)
  | EMPTY => True
  end.
Definition piv_arena (e : piv tab (list Z)) : list Z := match e with REQUEST r => q_payloadArena r | RESPONSE r => p_payloadArena r | EMPTY => [] end.
Definition view_piv (e : piv tab (list Z)) (arena : view) : piv wire_tab (option view) :=
  match e with
  | REQUEST r => REQUEST (PivRequest (q_methodId r) (map view_tab (q_inputs r)) (Some arena) (q_traceId r) (q_outputStreamCap r))
  | RESPONSE r => RESPONSE (PivResponse (p_statusCode r) (p_status r) (p_yielded r) (p_backlogRemaining r) (map view_tab (p_outputs r)) (Some arena) (p_errorCode r)
                              (p_errorMessage r) (p_traceId r))
  | EMPTY => EMPTY
  end.

(** What is documented of FlatBuffers: a finished buffer is read back field by field, and a vector lies at the alignment it was created with. *)
Class PivLaws `{!PivCodec} : Prop := {
  piv_identified : forall e al, bufferHasIdentifier (finishPIV e al) = true;
  piv_aligned : forall e al, (INVOKE_ARENA_ALIGNMENT | wire_base (finishPIV e al));
  piv_read : forall e al, piv_fits e -> isPositivePowerOfTwo al = true ->
    exists buf base, getRootAsPIV (finishPIV e al) = view_piv e (View buf base (piv_arena e)) /\ (al | base)
}.

(** ** Requests and responses *)

(** What of a frame the wire types must hold. *)
Definition frame_fits (f : frame) : Prop :=
  bytes_ok (payload_bytes f) /\ text_fits (f_portId f) /\ u64_fits (encodeSdsFrameId f) /\
  text_fits (i_schemaName (f_typeRef f)) /\ text_fits (i_fileIdentifier (f_typeRef f)) /\ text_fits (i_schemaVersion (f_typeRef f)) /\ text_fits (i_rootTypeName (f_typeRef f)).

Lemma normal_type_texts f t w : normalizeFrameTypeRef f = Ok (t, w) ->
  s_schemaName t = i_schemaName (f_typeRef f) /\ s_fileIdentifier t = i_fileIdentifier (f_typeRef f) /\ s_schemaVersion t = i_schemaVersion (f_typeRef f) /\
  s_rootType t = i_rootTypeName (f_typeRef f).
Proof.
  unfold normalizeFrameTypeRef. intros H. js_inv H. unfold toSdsFlatBufferTypeRefT in E1. js_inv E1. destruct (bool_decide (x = AlignedBinary)); js_inv H; done.
Qed.

Lemma placed_fits arena al f t : blen arena <= UINT32_MAX -> placed arena al f t -> frame_fits f -> tab_fits t.
Proof.
  intros Hu (Hd & Hs & Hoff & Hin & _) (_ & Hport & Hid & H1 & H2 & H3 & H4). destruct Hd as (typeRef & w & Hn & Ht & _ & Hok & Hpw & Hr & _ & _ & _ & Ei & Ep & _).
  pose proof (normal_type_texts _ _ _ Hn) as (E1 & E2 & E3 & E4). pose proof (normal_type_hash _ _ _ Hn). destruct Hok as [_ Hf Hl Hreq _ _].
  pose proof (blen_nonneg (payload_bytes f)). unfold tab_fits, type_fits, u32_fits. rewrite Ht, Ei, Ep, E1, E2, E3, E4. unfold isPositivePowerOfTwo in Hpw.
  split_and!; try done; lia.
Qed.

Lemma bytes_zeros n : bytes_ok (repeat 0 n).
Proof. induction n; cbn; constructor; [unfold is_byte; lia|done]. Qed.

Lemma packed_bytes s frames tabs arena al : packArenaFrames s frames = Ok (tabs, arena, al) -> Forall (fun f => bytes_ok (payload_bytes f)) frames -> bytes_ok arena.
Proof.
  intros H Hb. apply pack_inv in H as (items & _ & -> & _ & _ & _ & Hf & _). generalize 0 as o.
  induction Hf as [|f [p t] frames items [Hp _] _ IH]; intros o; cbn [laid_bytes]; [constructor|]. inversion_clear Hb as [|? ? Hx Hb']. cbn in Hp. subst p.
  apply Forall_app. split; [apply bytes_zeros|]. apply Forall_app. split; [done|by apply IH].
Qed.

Section roundtrip.
Context `{!PivCodec} `{!PivLaws}.

Lemma aligned_buffer_ok e al buf base : (al | base) -> isPositivePowerOfTwo al = true ->
  assertAlignedInvokeBuffer (wire_base (finishPIV e al)) (Some (View buf base (piv_arena e))) al = Ok tt.
Proof.
  intros Hb Hp. assert (Hpos : 0 < al) by (unfold isPositivePowerOfTwo in Hp; lia). unfold assertAlignedInvokeBuffer. rewrite rem_divides; [|done|apply piv_aligned]. cbn [negb byteOffset content].
  rewrite rem_divides by done. cbn [negb]. by rewrite andb_false_r.
Qed.

(** An arena that was packed, in a finished envelope: the checks pass and the frames come back. *)
Lemma packed_envelope s s0 frames tabs arena al e :
  packArenaFrames s frames = Ok (tabs, arena, al) -> piv_arena e = arena -> piv_fits e ->
  exists v, getRootAsPIV (finishPIV e al) = view_piv e v /\ assertAlignedInvokeBuffer (wire_base (finishPIV e al)) (Some v) al = Ok tt /\
    exists gs l s', decode_frames s0 (map view_tab tabs) v None None = Ok (gs, l, s') /\ Forall2 received frames gs.
Proof.
  intros Hp He Hfits. pose proof (pack_inv _ _ _ _ _ Hp) as (items & _ & _ & _ & _ & _ & _ & Hal & _). destruct (piv_read e al Hfits Hal) as (buf & base & Hroot & Hb).
  exists (View buf base (piv_arena e)). split; [done|]. split; [by apply aligned_buffer_ok|]. rewrite He. by eapply decode_packed.
Qed.

Lemma pack_fits s frames tabs arena al : packArenaFrames s frames = Ok (tabs, arena, al) -> Forall frame_fits frames -> Forall tab_fits tabs /\ bytes_ok arena.
Proof.
  intros Hp Hf. split.
  - apply pack_places in Hp as [Hp Hu]. induction Hp as [|f t frames tabs Hft _ IH]; [constructor|]. inversion_clear Hf. constructor; [by eapply placed_fits|by apply IH].
  - eapply packed_bytes; [exact Hp|]. eapply Forall_impl; [|exact Hf]. by intros f [? _].
Qed.

Definition request_fits (r : invoke_request) : Prop :=
  Forall frame_fits (r_inputs r) /\ text_fits (r_methodId r) /\ u64_fits (normalizeBigInt (r_traceId r)) /\ u32_fits (normalizeUnsignedInteger (r_outputStreamCap r)).
Definition response_fits (r : invoke_response) : Prop :=
  Forall frame_fits (o_outputs r) /\ - 2 ^ 31 <= o_statusCode r < 2 ^ 31 /\ u32_fits (normalizeUnsignedInteger (o_backlogRemaining r)) /\ text_fits (o_errorCode r) /\
  text_fits (o_errorMessage r) /\ u64_fits (normalizeBigInt (o_traceId r)).

(** C7. A request that brings no arena of its own, whose frames can be packed and whose texts and numbers fit the fields of the wire, is encoded, and decoding it
    gives the method, the trace id and the stream cap back, and every frame with its payload, port, type, ownership and mutability. A frame without an id of its
    own that has a sequence number or an end-of-stream mark comes back with both, under the id twice the number plus one for the mark; a frame with an id of
    its own comes back under that id, and one with none of these under its trace id, in both cases with half the id, rounded down, for a sequence number
    and the oddness of the id for a mark, whatever its own were. *)
Theorem invoke_request_roundtrip s s0 r tabs arena al :
  r_externalArena r = None -> packArenaFrames s (r_inputs r) = Ok (tabs, arena, al) -> request_fits r ->
  exists w d s', encodePluginInvokeRequest s r = Ok w /\ decodePluginInvokeRequest s0 w None None = Ok (d, s') /\
    k_methodId d = r_methodId r /\ k_traceId d = normalizeBigInt (r_traceId r) /\ k_outputStreamCap d = normalizeUnsignedInteger (r_outputStreamCap r) /\
    Forall2 received (r_inputs r) (k_inputs d).
Proof.
  intros Hx Hp (Hf & Hm & Ht & Hcap). destruct (pack_fits _ _ _ _ _ Hp Hf) as [Hft Hb]. unfold encodePluginInvokeRequest, pack_frames. rewrite Hx, Hp. cbn [rbind].
  set (e := REQUEST (PivRequest (r_methodId r) tabs arena (normalizeBigInt (r_traceId r)) (normalizeUnsignedInteger (r_outputStreamCap r)))).
  destruct (packed_envelope s s0 _ _ _ _ e Hp) as (v & Hroot & Ha & gs & l & s' & Hd & Hr); [done..|].
  exists (finishPIV e al). rewrite Hroot. cbn [view_piv e q_payloadArena]. rewrite Ha. cbn [rbind]. do 2 eexists. split; [done|].
  unfold decodePluginInvokeRequest. rewrite piv_identified, Hroot. cbn -[decode_frames normalizeBigInt normalizeUnsignedInteger]. rewrite Hd. cbn [rbind].
  split; [reflexivity|]. done.
Qed.

(** The same of a response: its status, error and backlog come back with its frames. *)
Theorem invoke_response_roundtrip s s0 r tabs arena al :
  o_externalArena r = None -> packArenaFrames s (o_outputs r) = Ok (tabs, arena, al) -> response_fits r ->
  exists w d s', encodePluginInvokeResponse s r = Ok w /\ decodePluginInvokeResponse s0 w None None = Ok (d, s') /\
    n_statusCode d = o_statusCode r /\ n_status d = resolvePivStatus r /\ n_yielded d = o_yielded r /\ n_backlogRemaining d = normalizeUnsignedInteger (o_backlogRemaining r) /\
    n_errorCode d = o_errorCode r /\ n_errorMessage d = o_errorMessage r /\ n_traceId d = normalizeBigInt (o_traceId r) /\ Forall2 received (o_outputs r) (n_outputs d).
Proof.
  intros Hx Hp (Hf & Hsc & Hbl & Hec & Hem & Ht). destruct (pack_fits _ _ _ _ _ Hp Hf) as [Hft Hb]. unfold encodePluginInvokeResponse, pack_frames. rewrite Hx, Hp. cbn [rbind].
  set (e := RESPONSE (PivResponse (o_statusCode r) (resolvePivStatus r) (o_yielded r) (normalizeUnsignedInteger (o_backlogRemaining r)) tabs arena (o_errorCode r) (o_errorMessage r)
                        (normalizeBigInt (o_traceId r)))).
  destruct (packed_envelope s s0 _ _ _ _ e Hp) as (v & Hroot & Ha & gs & l & s' & Hd & Hr); [done..|].
  exists (finishPIV e al). rewrite Hroot. cbn [view_piv e p_payloadArena]. rewrite Ha. cbn [rbind]. do 2 eexists. split; [done|].
  unfold decodePluginInvokeResponse. rewrite piv_identified, Hroot. cbn -[decode_frames normalizeBigInt normalizeUnsignedInteger resolvePivStatus]. rewrite Hd. cbn [rbind].
  split; [reflexivity|]. done.
Qed.
End roundtrip.

(** ** Where decoded frames lie *)

Lemma subview_within v o n : 0 <= o -> 0 <= n -> o + n <= byte_length v -> within (subview v o n) v = true /\ byteOffset (subview v o n) = byteOffset v + o.
Proof.
  intros Ho Hn Hl. unfold within, subview. cbn. rewrite rel_index_in by lia. rewrite blen_subarray by lia. rewrite Z.eqb_refl. split; [|done]. cbn.
  rewrite andb_true_iff. lia.
Qed.

Lemma within_trans a b c : within a b = true -> within b c = true -> within a c = true.
Proof. unfold within. rewrite !andb_true_iff. lia. Qed.

Lemma within_refl a : within a a = true.
Proof. unfold within. rewrite !andb_true_iff. lia. Qed.

(** A frame of a decoded envelope: a view inside the source arena at an aligned address, or, when there is no source, a new empty array. *)
Definition confined (src : option view) (l g : Z) (d : decoded) (f : frame) : Prop :=
  f_lease f = Some l /\ frame_generation f = Some g /\ f_portId f = d_portId d /\ exists p, f_payload f = Some p /\ byte_length p = d_size d /\
    match src with
    | Some a => within p a = true /\ byteOffset p = byteOffset a + d_offset d /\ (0 < d_size d -> (d_alignment d | byteOffset p))
    | None => p = EMPTY_VIEW
    end.

Lemma read_int_inv z d dflt lo hi x : readBoundedInteger (NumOf (int_num z)) d dflt lo hi = Ok x -> x = z /\ lo <= z <= hi.
Proof.
  unfold readBoundedInteger. cbn zeta beta iota. rewrite as_integer_int. intros H. pass_guard H. injection H as <-. split; [done|].
  rewrite !orb_false_iff in Heqb. lia.
Qed.

Lemma materialize_confined d src key l g f : materialize_frame d src key l g = Ok f -> confined src l g d f.
Proof.
  unfold materialize_frame, arenaFrameOffset, arenaFrameSize, arenaFrameAlignment, read_u32, readAlignment, confined. intros H. js_inv H.
  apply read_int_inv in E as [-> Ho], E0 as [-> Hs]. unfold rbind in E4. destruct (readBoundedInteger (NumOf (int_num (d_alignment d))) _ _ _ _) as [al|] eqn:Ea; [|done].
  apply read_int_inv in Ea as [-> _]. pass_guard E4. injection E4 as <-. apply negb_false_iff in Heqb.
  cbn [f_lease frame_generation f_generation f_portId f_payload]. split_and!; try done.
  destruct src as [a|]; [|exists EMPTY_VIEW; split; [done|]; split; [|done]; rewrite andb_true_r in E2; unfold blen; cbn; lia].
  apply orb_false_iff in E3 as [E3 E3']. destruct (subview_within a (d_offset d) (d_size d)) as [Hw Hb]; [lia..|].
  eexists. split; [reflexivity|]. split; [cbn; rewrite blen_subarray; lia|]. split; [done|]. split; [done|]. intros Hpos. rewrite Hb.
  rewrite (proj2 (Z.ltb_lt 0 (d_size d))), andb_true_r in E5 by done. destruct (Z.ltb_spec 1 (d_alignment d)).
  - apply Z.rem_divide; [lia|]. cbn in E5. by apply negb_false_iff, Z.eqb_eq in E5.
  - unfold isPositivePowerOfTwo in Heqb. replace (d_alignment d) with 1 by lia. apply Z.divide_1_l.
Qed.

Lemma materialize_all_confined ds src key l g fs : materializeSdsArenaFrames ds src key l g = Ok fs -> Forall2 (confined src l g) ds fs.
Proof.
  revert key fs. induction ds as [|d ds IH]; intros key fs H; cbn in H; js_inv H; constructor; [by eapply materialize_confined|by eapply IH].
Qed.


(** ** An instance, and examples *)

(** A codec that keeps the envelope and reads its arena at address 0. *)
#[export] Instance plain_codec : PivCodec :=
  {| wire := piv tab (list Z); finishPIV := fun e _ => e; wire_base := fun _ => 0; bufferHasIdentifier := fun _ => true;
     getRootAsPIV := fun e => view_piv e (View 1 0 (piv_arena e)) |}.
#[export] Instance plain_codec_laws : PivLaws.
Proof. split; try done; [intros; by exists 0|]. intros e al _ _. exists 1, 0. split; [done|by exists 0]. Qed.

Lemma plain_frame_fits key payload al : bytes_ok payload -> 0 <= key < 2 ^ 32 -> frame_fits (plain_frame key payload al).
Proof.
  intros Hp Hk. unfold frame_fits. cbn [plain_frame f_portId f_typeRef NO_TYPE i_schemaName i_fileIdentifier i_schemaVersion i_rootTypeName text_fits].
  split_and!; try done; [apply lit_units|]. unfold u64_fits, encodeSdsFrameId. cbn [plain_frame f_frameId f_sequence f_endOfStream orb normalizeBigInt].
  rewrite Z.shiftl_mul_pow2 by lia. change (2 ^ 1) with 2.
  assert (E : Z.lor (key * 2) 1 = key * 2 + 1).
  { pose proof (Z.add_lor_land (key * 2) 1). replace (Z.land (key * 2) 1) with 0 in *; [lia|].
    change 1 with (Z.ones 1). rewrite Z.land_ones by lia. symmetry. apply Z.mod_mul. lia. }
  rewrite E. lia.
Qed.

Lemma invoke_request_roundtrip_witness :
  exists w d s', encodePluginInvokeRequest NO_ARENAS (InvokeRequest (Some (lit "run")) two_frames None (BigOf 5) NumUndefined) = Ok w /\
    decodePluginInvokeRequest NO_ARENAS w None None = Ok (d, s') /\ Forall2 received two_frames (k_inputs d).
Proof.
  assert (H : exists tabs arena al, packArenaFrames NO_ARENAS two_frames = Ok (tabs, arena, al)) by (do 3 eexists; vm_compute; reflexivity).
  destruct H as (tabs & arena & al & H).
  destruct (invoke_request_roundtrip NO_ARENAS NO_ARENAS (InvokeRequest (Some (lit "run")) two_frames None (BigOf 5) NumUndefined) tabs arena al eq_refl H)
    as (w & d & s' & H1 & H2 & _ & _ & _ & H3).
  - split; [|split; [split; [apply lit_units|vm_compute; reflexivity]|split; vm_compute; split; congruence]].
    constructor; [|constructor; [|constructor]]; apply plain_frame_fits; try lia; closed_bytes.
  - exists w, d, s'. split; [exact H1|]. split; [exact H2|exact H3].
Defined.

Lemma invoke_response_roundtrip_witness :
  exists w d s', encodePluginInvokeResponse NO_ARENAS (InvokeResponse 3 None false NumUndefined two_frames None None (Some (lit "late")) BigUndefined) = Ok w /\
    decodePluginInvokeResponse NO_ARENAS w None None = Ok (d, s') /\ n_status d = PivFailed /\ Forall2 received two_frames (n_outputs d).
Proof.
  assert (H : exists tabs arena al, packArenaFrames NO_ARENAS two_frames = Ok (tabs, arena, al)) by (do 3 eexists; vm_compute; reflexivity).
  destruct H as (tabs & arena & al & H).
  destruct (invoke_response_roundtrip NO_ARENAS NO_ARENAS (InvokeResponse 3 None false NumUndefined two_frames None None (Some (lit "late")) BigUndefined) tabs arena al eq_refl H)
    as (w & d & s' & H1 & H2 & _ & H3 & _ & _ & _ & _ & _ & H4).
  - split; [constructor; [|constructor; [|constructor]]; apply plain_frame_fits; try lia; closed_bytes|].
    split; [cbn; lia|]. split; [vm_compute; split; congruence|]. split; [exact I|]. split; [split; [apply lit_units|vm_compute; reflexivity]|vm_compute; split; congruence].
  - exists w, d, s'. split; [exact H1|]. split; [exact H2|]. split; [rewrite H3; reflexivity|exact H4].
Defined.

Definition one_tab (offset size : Z) : wire_tab := WireTab offset size 8 (Known FlatBuffer) None (Known SdsImmutable) (Known SdsHostOwned) 3 (Some (lit "out")).


(** ** Defects *)

(** The frames of an envelope without bytes are new empty arrays, outside the arena of their lease: they are decoded and cannot be forwarded. *)
Theorem empty_frame_cannot_be_forwarded :
  exists g l s', decode_frames NO_ARENAS [one_tab 0 0] (View 1 64 []) None None = Ok ([g], l, s') /\ f_lease g = Some l /\ is_ok (forwardOutputFrameAsInput s' g NO_OVERRIDES) = false.
Proof. do 3 eexists. split; [vm_compute; reflexivity|]. split; vm_compute; reflexivity. Qed.

(** A payload that lies before the external arena in the same buffer is accepted, with a negative offset. *)
Theorem external_frame_before_its_arena :
  exists t, normalizeExternalArenaFrame NO_ARENAS (plain_frame 1 [1; 2; 3] NumUndefined) (View 7 16 (repeat 0 16)) = Ok t /\ b_offset t = -16.
Proof. eexists. split; vm_compute; reflexivity. Qed.
