(* ===== verification/BundleHash.v ===== *)
(** The digest of a module bundle that is signed (src/bundle/signing.js): the statement about the bundle, its canonical bytes, and the checks that bind
    the payloads of the entries to it.

    A bundle is one that the codec has decoded: roles and encodings are numbers, and a type reference is null, a text or an object of JSON values
    whose numbers are safe integers. The numbers of the roles come from the generated classes ([BundleRoles]); SHA-256 and Ed25519 are the
    class [Crypto]. *)
From Stdlib Require Import ZArith Lia.
From stdpp Require Import base list strings numbers.
From S2P Require Import Prelude JsText JsNumber JsJson Canonical PublicationTrailer WasmSections Signatures.
Import Hex.
Open Scope Z_scope.

Class Crypto := {
  sha256Bytes : list Z -> list Z;
  ed25519PublicKey : list Z -> list Z;
  ed25519Sign : list Z -> list Z -> list Z;
  ed25519Verify : list Z -> list Z -> list Z -> bool
}.
Class BundleRoles := { ROLE_MANIFEST : Z; ROLE_SIGNATURE : Z; ROLE_AUXILIARY : Z }.

(** ** Refusals *)

(** The code of a [ModuleSignatureError]. *)
Inductive refusal :=
  | invalid_hex | invalid_signature_payload | invalid_bundle | hash_mismatch | invalid_seed | invalid_signature_scope | missing_signature
  | unsupported_algorithm | invalid_signature | invalid_public_key | untrusted_signer | ambiguous_signature_scope | unsupported_statement_domain
  | unsupported_hash_algorithm.
(** A step passes, is refused with a code and the statement domain put on the error, or throws another error. *)
Inductive checked (A : Type) := Passed (a : A) | Refused (code : refusal) (domain : option jsstring) | Thrown (e : js_error).
Arguments Passed {A} a.
Arguments Refused {A} code domain.
Arguments Thrown {A} e.

Definition cbind {A B : Type} (c : checked A) (k : A -> checked B) : checked B :=
  match c with Passed a => k a | Refused r d => Refused r d | Thrown e => Thrown e end.
Definition of_result {A : Type} (r : result A) : checked A := match r with Ok a => Passed a | Throw e => Thrown e end.
Definition passes {A : Type} (c : checked A) : bool := match c with Passed _ => true | _ => false end.

Notation "'let?' x ':=' c 'in' k" := (cbind c (fun x => k)) (at level 10, x pattern, c at level 100, k at level 200) : js_scope.
Notation "'refuse_if' b 'with' r ';' k" := (if b then Refused r None else k) (at level 10, b at level 100, r at level 100, k at level 200) : js_scope.

(** Follows a chain of checks that has passed. *)
Ltac passed_inv H :=
  repeat lazymatch type of H with
  | cbind ?c _ = Passed _ => let E := fresh "E" in let x := fresh "x" in destruct c as [x| |] eqn:E; cbn [cbind] in H; [|discriminate H..]
  | (if ?b then Refused _ _ else _) = Passed _ => let E := fresh "E" in destruct b eqn:E; [discriminate H|]
  | (if ?b then _ else Refused _ _) = Passed _ => let E := fresh "E" in destruct b eqn:E; [|discriminate H]
  end.

(** ** Bundles *)

Record canonicalization := Canonicalization {
  c_version : Z; strippedCustomSectionPrefix : option jsstring; bundleSectionName : option jsstring; hashAlgorithm : option jsstring
}.
Record bundle_entry := BundleEntry {
  entryId : option jsstring; role : Z; sectionName : option jsstring; typeRef : json; payloadEncoding : Z; mediaType : option jsstring; flags : Z;
  sha256 : list Z; payload : list Z; description : option jsstring
}.
Record bundle := Bundle {
  bundleVersion : Z; moduleFormat : option jsstring; b_canonicalization : option canonicalization; canonicalModuleHash : list Z; manifestHash : list Z;
  manifestExportSymbol : option jsstring; manifestSizeSymbol : option jsstring; entries : list bundle_entry
}.

Section signature_hash.
Context {C : Crypto} {BR : BundleRoles} {R : Type} {RC : RecCodec R}.

Definition is_signature (e : bundle_entry) : bool :=
  (role e =? ROLE_SIGNATURE) || bool_decide (entryId e = Some (lit "signature")) || bool_decide (sectionName e = Some (lit "sds.signature")).
Definition findSignatureEntry (es : list bundle_entry) : option bundle_entry := List.find is_signature es.
Definition is_manifest (e : bundle_entry) : bool := bool_decide (entryId e = Some (lit "manifest")) || (role e =? ROLE_MANIFEST).

Definition equalBytes (left right : list Z) : bool := bool_decide (left = right).

(** ** The canonical bytes of a statement *)

Fixpoint compareBytes (left right : list Z) : Z :=
  match left, right with
  | x :: l, y :: r => if x =? y then compareBytes l r else x - y
  | l, r => blen l - blen r
  end.
Definition compareUtf8Keys (left right : jsstring) : Z := compareBytes (text_encode left) (text_encode right).

(** Values of JSON have no undefined in them. *)
Fixpoint normalizeBundleStatementValue (v : json) : json :=
  match v with
  | JArray l => JArray (map normalizeBundleStatementValue l)
  | JObject l => JObject (fromEntries (sort_by (fun x y => compareUtf8Keys x.1 y.1 <=? 0) (map (fun e => (e.1, normalizeBundleStatementValue e.2)) l)))
  | _ => v
  end.

Definition escaped_in_go (u : Z) : bool := (u =? 60) || (u =? 62) || (u =? 38) || (u =? 0x2028) || (u =? 0x2029).
Definition go_escape (t : jsstring) : jsstring := flat_map (fun u => if escaped_in_go u then unicode_escape u else [u]) t.
Definition canonicalBundleStatementBytes (statement : json) : list Z := text_encode (go_escape (stringify (normalizeBundleStatementValue statement))).

Definition nullable (t : option jsstring) : json := match t with Some s => JString s | None => JNull end.
Definition normalizedBundleEntryForSignature (e : bundle_entry) : json :=
  JObject [(lit "entryId", nullable (entryId e)); (lit "role", JNumber (role e)); (lit "sectionName", nullable (sectionName e)); (lit "typeRef", typeRef e);
    (lit "payloadEncoding", JNumber (payloadEncoding e)); (lit "mediaType", nullable (mediaType e)); (lit "flags", JNumber (flags e));
    (lit "sha256Hex", JString (bytesToHex (sha256 e))); (lit "payloadLength", JNumber (blen (payload e))); (lit "description", nullable (description e))].

Definition entry_le (x y : bundle_entry) : bool := compareUtf8Keys (default [] (entryId x)) (default [] (entryId y)) <=? 0.
(** The entries are put in order before they are written down; the order only looks at their ids. *)
Definition bundle_statement (b : bundle) (es : list bundle_entry) : json :=
  let c := b_canonicalization b in
  JObject [(lit "version", JNumber 1); (lit "bundleVersion", JNumber (bundleVersion b)); (lit "moduleFormat", nullable (moduleFormat b));
    (lit "canonicalization", JObject [
       (lit "version", JNumber (match c with Some c => c_version c | None => 1 end));
       (lit "strippedCustomSectionPrefix", nullable (match c with Some c => strippedCustomSectionPrefix c | None => None end));
       (lit "bundleSectionName", nullable (match c with Some c => bundleSectionName c | None => None end));
       (lit "hashAlgorithm", nullable (match c with Some c => hashAlgorithm c | None => None end))]);
    (lit "canonicalModuleHashHex", JString (bytesToHex (canonicalModuleHash b))); (lit "manifestHashHex", JString (bytesToHex (manifestHash b)));
    (lit "manifestExportSymbol", nullable (manifestExportSymbol b)); (lit "manifestSizeSymbol", nullable (manifestSizeSymbol b));
    (lit "entries", JArray (map normalizedBundleEntryForSignature (sort_by entry_le es)))].

(** ** The digest *)

Definition computeCanonicalModuleHash (bytes : list Z) (customSectionPrefix : option jsstring) : result (list Z) :=
  let! canonical := canonicalWasmBytes (R:=R) bytes (default SDS_CUSTOM_SECTION_PREFIX customSectionPrefix) in Ok (sha256Bytes canonical).

(** The loop over the entries. *)
Fixpoint check_entries (seen : list jsstring) (es : list bundle_entry) : checked unit :=
  match es with
  | [] => Passed tt
  | e :: es =>
      let id := default [] (entryId e) in
      refuse_if bool_decide (id = []) with invalid_bundle;
      refuse_if bool_decide (id ∈ seen) with invalid_bundle;
      refuse_if negb (equalBytes (sha256Bytes (payload e)) (sha256 e)) with hash_mismatch;
      check_entries (id :: seen) es
  end.

Definition signed_entries (b : bundle) : list bundle_entry := List.filter (fun e => negb (is_signature e)) (entries b).

(** The statement and its hash. *)
Definition computeModuleBundleSignatureHash (b : bundle) (wasmBytes : option (list Z)) : checked (json * list Z) :=
  let es := signed_entries b in
  let? _ := check_entries [] es in
  refuse_if negb (blen (canonicalModuleHash b) =? 32) with invalid_bundle;
  let? _ := match wasmBytes with
            | Some w =>
                let? canonical := of_result (computeCanonicalModuleHash w (match b_canonicalization b with Some c => strippedCustomSectionPrefix c | None => None end)) in
                refuse_if negb (equalBytes canonical (canonicalModuleHash b)) with hash_mismatch;
                Passed tt
            | None => Passed tt
            end in
  let? _ := match List.find is_manifest es with
            | Some m => refuse_if negb (equalBytes (sha256Bytes (payload m)) (manifestHash b)) with hash_mismatch; Passed tt
            | None => refuse_if negb (blen (manifestHash b) =? 0) with hash_mismatch; Passed tt
            end in
  let statement := bundle_statement b es in
  Passed (statement, sha256Bytes (canonicalBundleStatementBytes statement)).
End signature_hash.

(** ** The text of a statement determines it *)

(** A text of JSON, cut into units, escapes of a letter, and escapes of a control character or surrogate. *)
Inductive tokens : jsstring -> Prop :=
  | tokens_nil : tokens []
  | tokens_unit u t : u <> 92 -> tokens t -> tokens (u :: t)
  | tokens_letter c t : c <> 117 -> escaped_in_go c = false -> tokens t -> tokens (92 :: c :: t)
  | tokens_escape u t : is_unit u -> escaped_in_go u = false -> tokens t -> tokens (unicode_escape u ++ t).

Lemma tokens_app a b : tokens a -> tokens b -> tokens (a ++ b).
Proof. induction 1; intros Hb; cbn [app]; rewrite <- ?app_assoc; auto using tokens. Qed.

Lemma tokens_plain t : Forall (fun u => u <> 92) t -> tokens t.
Proof. induction 1; auto using tokens. Qed.

(** Texts without a backslash, by evaluation. *)
Lemma tokens_text t : forallb (fun u => negb (u =? 92)) t = true -> tokens t.
Proof. rewrite forallb_forall. intros H. apply tokens_plain, List.Forall_forall. intros u Hu. specialize (H u Hu). lia. Qed.

Lemma not_escaped u : u < 32 \/ 0xD800 <= u -> escaped_in_go u = false.
Proof. intros H. unfold escaped_in_go. rewrite !(proj2 (Z.eqb_neq _ _)) by lia. done. Qed.

Lemma tokens_quote_unit u : is_unit u -> tokens (quote_unit u).
Proof.
  intros Hu. unfold quote_unit.
  repeat (match goal with |- context [?a =? ?b] => destruct (Z.eqb_spec a b) as [-> |] end; [by apply tokens_letter; auto using tokens_nil|]).
  destruct ((u <? 32) || is_high u || is_low u) eqn:E; [|by apply tokens_unit; auto using tokens_nil].
  rewrite <- (app_nil_r (unicode_escape u)). apply tokens_escape; auto using tokens_nil. apply not_escaped. unfold is_high, is_low in E. lia.
Qed.

Lemma tokens_quote s : Forall is_unit s -> tokens (quote s).
Proof.
  intros Hs. unfold quote. apply tokens_unit; [lia|]. apply tokens_app; [|by apply tokens_text].
  enough (Hn : forall n s, (length s <= n)%nat -> Forall is_unit s -> tokens (quote_body s)) by eauto.
  clear s Hs. intros n. induction n as [|n IH]; intros s Hn Hs; (destruct s as [|u s]; [by constructor|]); cbn in Hn; [lia|].
  pose proof (Forall_inv Hs) as Hu. apply Forall_inv_tail in Hs. destruct s as [|v s]; [by apply tokens_quote_unit|].
  rewrite quote_body_step. destruct (is_high u && is_low v) eqn:E.
  - apply andb_true_iff in E as [E1 E2]. apply Forall_inv_tail in Hs. unfold is_high, is_low in E1, E2.
    apply tokens_unit; [lia|]. apply tokens_unit; [lia|]. apply IH; [cbn in Hn; lia|done].
  - apply tokens_app; [by apply tokens_quote_unit|]. by apply IH; [lia|].
Qed.

Lemma tokens_commas {A : Type} (f : A -> jsstring) l : Forall (fun x => tokens (f x)) l -> tokens (commas f l).
Proof.
  intros H. destruct H as [|x l Hx H]; [constructor|]. cbn. apply tokens_app; [done|].
  induction H as [|y l Hy _ IH]; [constructor|]. cbn. apply tokens_unit; [lia|]. by apply tokens_app.
Qed.

Lemma tokens_int z : tokens (int_text z).
Proof.
  assert (Hn : forall y, 0 <= y -> tokens (nat_text y)).
  { intros y Hy. apply tokens_plain. eapply Forall_impl; [|by apply nat_text_digits]. intros c. unfold digit. intros. lia. }
  unfold int_text. destruct (Z.ltb_spec z 0); [apply tokens_unit; [lia|]|]; apply Hn; lia.
Qed.

Lemma tokens_json j : units_ok j = true -> tokens (stringify j).
Proof.
  induction j as [|b|z|s|l IH|l IH] using json_rect_nested; intros HQ; cbn [stringify].
  - by apply tokens_text.
  - by destruct b; apply tokens_text.
  - apply tokens_int.
  - by apply tokens_quote, unitsb_ok.
  - apply tokens_unit; [lia|]. apply tokens_app; [|by apply tokens_text]. apply tokens_commas. exact (Forall_mp _ _ l IH (Forall_of_forallb _ l HQ)).
  - apply tokens_unit; [lia|]. apply tokens_app; [|by apply tokens_text]. apply tokens_commas.
    refine (Forall_mp _ _ l _ (Forall_of_forallb _ l HQ)). eapply Forall_impl; [|exact IH]. intros x Hx Hq.
    apply andb_true_iff in Hq as [Hk Hq]. apply tokens_app; [by apply tokens_quote, unitsb_ok|]. apply tokens_unit; [lia|auto].
Qed.

(** Undoes [go_escape]: escapes of the five characters become the characters again. *)
Fixpoint go_unescape (t : jsstring) : jsstring :=
  match t with
  | [] => []
  | x :: t =>
      if x =? 92 then
        match t with
        | [] => [92]
        | y :: t =>
            if y =? 117 then
              match t with
              | a :: b :: c :: d :: t =>
                  let u := unhex a * 4096 + unhex b * 256 + unhex c * 16 + unhex d in
                  if escaped_in_go u then u :: go_unescape t else 92 :: 117 :: a :: b :: c :: d :: go_unescape t
              | _ => 92 :: 117 :: t
              end
            else 92 :: y :: go_unescape t
        end
      else x :: go_unescape t
  end.

Lemma go_unescape_escape u t : is_unit u -> go_unescape (unicode_escape u ++ t) = (if escaped_in_go u then [u] else unicode_escape u) ++ go_unescape t.
Proof.
  intros Hu. pose proof (unquote_escape u [34] Hu) as Hv. cbn [unicode_escape app unquote prepend] in Hv. cbn [unicode_escape app go_unescape].
  change (92 =? 34) with false in Hv. change (92 =? 92) with true in *. change (117 =? 117) with true in *. cbn iota in Hv |- *.
  change (34 =? 34) with true in Hv. cbn iota in Hv. cbn [prepend] in Hv. injection Hv as Hv. rewrite Hv. by destruct (escaped_in_go u).
Qed.

Lemma go_escape_app a b : go_escape (a ++ b) = go_escape a ++ go_escape b.
Proof. apply flat_map_app. Qed.

Lemma go_escape_unicode u : is_unit u -> go_escape (unicode_escape u) = unicode_escape u.
Proof.
  intros Hu. unfold is_unit in Hu. pose proof (Z.div_lt_upper_bound u 4096 16). pose proof (Z.div_pos u 4096).
  assert (Hd : forall d, 0 <= d < 16 -> escaped_in_go (hex_unit d) = false) by (intros d Hd; unfold escaped_in_go, hex_unit; bool_lia; done).
  unfold unicode_escape, go_escape. cbn [flat_map]. rewrite !Hd by (first [lia | apply Z.mod_pos_bound; lia]). done.
Qed.

Lemma go_escape_inverse t : tokens t -> go_unescape (go_escape t) = t.
Proof.
  induction 1 as [|u t Hu _ IH|c t Hc He _ IH|u t Hu He _ IH]; [done|..].
  - change (go_escape (u :: t)) with ((if escaped_in_go u then unicode_escape u else [u]) ++ go_escape t). destruct (escaped_in_go u) eqn:E.
    + assert (is_unit u) by (unfold escaped_in_go in E; unfold is_unit; lia). by rewrite go_unescape_escape, E, IH.
    + cbn. by rewrite (proj2 (Z.eqb_neq _ _) Hu), IH.
  - change (go_escape (92 :: c :: t)) with (92 :: (if escaped_in_go c then unicode_escape c else [c]) ++ go_escape t). rewrite He. cbn [app go_unescape].
    change (92 =? 92) with true. cbn iota. by rewrite (proj2 (Z.eqb_neq _ _) Hc), IH.
  - rewrite go_escape_app, go_escape_unicode, go_unescape_escape by done. by rewrite He, IH.
Qed.

Lemma clean_go_escape t : clean t -> clean (go_escape t).
Proof.
  enough (Hn : forall n t, (length t <= n)%nat -> clean t -> clean (go_escape t)) by eauto. clear t.
  intros n. induction n as [|n IH]; intros t Hn [Hu Hw]; (destruct t as [|u t]; [done|]); cbn in Hn; [lia|].
  pose proof (Forall_inv Hu) as Hu1. apply Forall_inv_tail in Hu.
  change (go_escape (u :: t)) with ((if escaped_in_go u then unicode_escape u else [u]) ++ go_escape t). cbn [isWellFormed] in Hw.
  destruct (is_high u) eqn:Eh.
  - destruct t as [|v t]; [done|]. apply andb_true_iff in Hw as [Hv Hw]. pose proof (Forall_inv Hu) as Hv1. apply Forall_inv_tail in Hu.
    unfold is_high, is_low in Eh, Hv. rewrite not_escaped by lia.
    change (go_escape (v :: t)) with ((if escaped_in_go v then unicode_escape v else [v]) ++ go_escape t). rewrite not_escaped by lia.
    apply (clean_app [u; v]); [|apply IH; [cbn in Hn; lia|done]]. split; [by constructor; [|constructor]|]. cbn. unfold is_high, is_low. by rewrite Eh, Hv.
  - apply andb_true_iff in Hw as [Hl Hw]. apply clean_app; [|apply IH; [lia|done]].
    destruct (escaped_in_go u); [by apply clean_escape|]. split; [by constructor|]. cbn. by rewrite Eh, Hl.
Qed.

Lemma stringify_no_bom j : head (stringify j) <> Some 0xFEFF.
Proof.
  destruct (stringify_first j) as (c & t & E & Hk & _). rewrite E. intros [= ->]. destruct j; try discriminate Hk.
  cbn in E. destruct (int_text_cons z) as (c & t' & Ez & Hc). rewrite Ez in E. injection E as -> _. by destruct Hc.
Qed.

Lemma go_bytes_inj j j' :
  units_ok j = true -> units_ok j' = true -> text_encode (go_escape (stringify j)) = text_encode (go_escape (stringify j')) -> j = j'.
Proof.
  assert (Hd : forall j, units_ok j = true -> go_unescape (text_decode (text_encode (go_escape (stringify j)))) = stringify j).
  { clear. intros j Hj. destruct (clean_go_escape _ (stringify_clean j Hj)). rewrite text_decode_encode; [by apply go_escape_inverse, tokens_json|done..|].
    pose proof (stringify_no_bom j) as Hb. destruct (stringify_first j) as (c & t & E & _). rewrite E in *. cbn. cbn in Hb.
    by destruct (escaped_in_go c). }
  intros Hj Hj' E. apply (f_equal (fun b => go_unescape (text_decode b))) in E. rewrite !Hd in E by done.
  apply (json_text_inj j Hj j' [] []); [done..|]. by rewrite !app_nil_r.
Qed.

(** ** What a normal form keeps *)

Lemma forallb_mapped {A B : Type} (p : B -> bool) (f : A -> B) l : forallb p (map f l) = forallb (fun x => p (f x)) l.
Proof. induction l as [|x l IH]; cbn; [done|]. by rewrite IH. Qed.

Section normal.
Notation norm := normalizeBundleStatementValue.

Lemma object_entries_perm l : exists m, norm (JObject l) = JObject m /\ Permutation m (map (fun e => (e.1, norm e.2)) l).
Proof. eexists. split; [reflexivity|]. rewrite fromEntries_perm. apply sort_by_perm. Qed.

Lemma normal_units j : units_ok j = true -> units_ok (norm j) = true.
Proof.
  induction j as [|b|z|s|l IH|l IH] using json_rect_nested; intros Hj; try done.
  - cbn in *. rewrite forallb_mapped. apply forallb_of_Forall. exact (Forall_mp _ _ l IH (Forall_of_forallb _ l Hj)).
  - destruct (object_entries_perm l) as (m & -> & Hm). cbn in *. rewrite (forallb_perm _ _ _ Hm), forallb_mapped. apply forallb_of_Forall.
    refine (Forall_mp _ _ l _ (Forall_of_forallb _ l Hj)). eapply Forall_impl; [|exact IH]. intros e He Hu. cbn [fst snd].
    apply andb_true_iff in Hu as [Hk Hv]. by rewrite Hk, He.
Qed.

(** Objects with the same normal form have values with the same normal form. *)
Lemma normal_field k v v' l l' : norm (JObject l) = norm (JObject l') -> (k, v) ∈ l -> (k, v') ∈ l' -> NoDup (keys_of l') -> norm v = norm v'.
Proof.
  destruct (object_entries_perm l) as (m & -> & Hm), (object_entries_perm l') as (m' & -> & Hm'). intros [= <-] Hv Hv' Hnd.
  assert (Hk : keys_of (map (fun e => (e.1, norm e.2)) l') = keys_of l') by (unfold keys_of; rewrite map_map; done).
  pose proof (key_determines (map (fun e : jsstring * json => (e.1, norm e.2)) l') (k, norm v) (k, norm v')) as H. rewrite Hk in H.
  specialize (H Hnd). enough (E : (k, norm v) = (k, norm v')) by by injection E. apply H; [| |done].
  - rewrite <- Hm', Hm. apply list_elem_of_fmap. by exists (k, v).
  - apply list_elem_of_fmap. by exists (k, v').
Qed.

Lemma nullable_inj t t' : norm (nullable t) = norm (nullable t') -> t = t'.
Proof. destruct t, t'; cbn; congruence. Qed.
End normal.

Lemma hex_inj b b' : bytes_ok b -> bytes_ok b' -> bytesToHex b = bytesToHex b' -> b = b'.
Proof. intros Hb Hb' E. apply (f_equal hex_pairs) in E. by rewrite !hex_pairs_roundtrip in E. Qed.

Lemma normal_field_at (i : nat) k v v' l l' :
  normalizeBundleStatementValue (JObject l) = normalizeBundleStatementValue (JObject l') -> l !! i = Some (k, v) -> l' !! i = Some (k, v') ->
  NoDup (keys_of l') -> normalizeBundleStatementValue v = normalizeBundleStatementValue v'.
Proof. intros E H H' Hnd. eapply normal_field; eauto using list_elem_of_lookup_2. Qed.

(** The values at a position of two objects with the same normal form and the same keys. *)
Ltac field_at i H :=
  let E := fresh "E" in
  epose proof (normal_field_at i _ _ _ _ _ H ltac:(reflexivity) ltac:(reflexivity) ltac:(apply (bool_decide_unpack _); vm_compute; exact I)) as E.

(** ** Binding *)

Definition text_ok (t : option jsstring) : bool := match t with Some s => unitsb s | None => true end.
Record entry_ok (e : bundle_entry) : Prop := {
  entry_texts : text_ok (entryId e) && text_ok (sectionName e) && text_ok (mediaType e) && text_ok (description e) && units_ok (typeRef e) = true;
  entry_sha : bytes_ok (sha256 e)
}.
Record bundle_ok (b : bundle) : Prop := {
  bundle_texts : text_ok (moduleFormat b) && text_ok (manifestExportSymbol b) && text_ok (manifestSizeSymbol b) &&
    match b_canonicalization b with
    | Some c => text_ok (strippedCustomSectionPrefix c) && text_ok (bundleSectionName c) && text_ok (hashAlgorithm c)
    | None => true
    end = true;
  bundle_hashes : bytes_ok (canonicalModuleHash b) /\ bytes_ok (manifestHash b);
  bundle_entries_ok : Forall entry_ok (entries b)
}.

(** What a statement says of an entry, and of the rest of a bundle; a bundle without a canonicalization is stated like one of version 1 without texts. *)
Record same_entry (e e' : bundle_entry) : Prop := {
  same_id : entryId e = entryId e'; same_role : role e = role e'; same_section : sectionName e = sectionName e';
  same_type : normalizeBundleStatementValue (typeRef e) = normalizeBundleStatementValue (typeRef e');
  same_encoding : payloadEncoding e = payloadEncoding e'; same_media : mediaType e = mediaType e'; same_flags : flags e = flags e';
  same_sha : sha256 e = sha256 e'; same_description : description e = description e'
}.
Definition canonicalization_of (b : bundle) : canonicalization := default (Canonicalization 1 None None None) (b_canonicalization b).
Record same_head (b b' : bundle) : Prop := {
  same_version : bundleVersion b = bundleVersion b'; same_format : moduleFormat b = moduleFormat b';
  same_canonicalization : canonicalization_of b = canonicalization_of b'; same_module : canonicalModuleHash b = canonicalModuleHash b';
  same_manifest : manifestHash b = manifestHash b'; same_export : manifestExportSymbol b = manifestExportSymbol b';
  same_size : manifestSizeSymbol b = manifestSizeSymbol b'
}.

Lemma hex_units b : bytes_ok b -> unitsb (bytesToHex b) = true.
Proof.
  intros Hb. apply forallb_of_Forall. eapply Forall_impl; [|by apply bytesToHex_chars]. intros c. unfold is_hex_char. cbn. lia.
Qed.

Lemma nullable_units t : units_ok (nullable t) = text_ok t.
Proof. by destruct t. Qed.

Section binding.
Context {C : Crypto} {BR : BundleRoles} {R : Type} {RC : RecCodec R}.

Lemma entry_units e : entry_ok e -> units_ok (normalizedBundleEntryForSignature e) = true.
Proof.
  intros [Ht Hs]. repeat (apply andb_true_iff in Ht as [Ht ?]). cbn -[nullable lit]. rewrite !nullable_units, hex_units by done.
  repeat match goal with H : _ = true |- _ => rewrite H; clear H end. vm_compute. done.
Qed.

Lemma statement_units b es : bundle_ok b -> Forall entry_ok es -> units_ok (bundle_statement b es) = true.
Proof.
  intros [Ht [Hm Hh] _] He. repeat (apply andb_true_iff in Ht as [Ht ?]).
  assert (Hes : forallb units_ok (map normalizedBundleEntryForSignature (sort_by entry_le es)) = true).
  { rewrite forallb_mapped, (forallb_perm _ _ _ (sort_by_perm entry_le es)). apply forallb_of_Forall. eapply Forall_impl; [|exact He]. apply entry_units. }
  cbn -[nullable lit sort_by]. rewrite Hes, !nullable_units, !hex_units by done.
  destruct (b_canonicalization b) as [c|]; repeat match goal with H : _ && _ = true |- _ => apply andb_true_iff in H as [? ?] end;
    repeat match goal with H : text_ok _ = true |- _ => rewrite H; clear H end; vm_compute; done.
Qed.

Lemma entry_statement_inj e e' : entry_ok e -> entry_ok e' ->
  normalizeBundleStatementValue (normalizedBundleEntryForSignature e) = normalizeBundleStatementValue (normalizedBundleEntryForSignature e') -> same_entry e e'.
Proof.
  intros [_ Hs] [_ Hs'] H. unfold normalizedBundleEntryForSignature in H.
  field_at 0%nat H. field_at 1%nat H. field_at 2%nat H. field_at 3%nat H. field_at 4%nat H. field_at 5%nat H. field_at 6%nat H. field_at 7%nat H. field_at 9%nat H.
  cbn [normalizeBundleStatementValue] in E0, E3, E5, E6. split; auto using nullable_inj; try congruence. apply hex_inj; [done..|congruence].
Qed.

Lemma cons_split {A : Type} (x y : A) l m : x :: l = y :: m -> x = y /\ l = m.
Proof. intros [= -> ->]. done. Qed.

Lemma entries_statement_inj es es' : Forall entry_ok es -> Forall entry_ok es' ->
  map (fun e => normalizeBundleStatementValue (normalizedBundleEntryForSignature e)) es = map (fun e => normalizeBundleStatementValue (normalizedBundleEntryForSignature e)) es' ->
  Forall2 same_entry es es'.
Proof.
  intros He. revert es'. induction He as [|e es He _ IH]; intros [|e' es'] He' E; try done.
  apply list.Forall_cons in He' as [? ?]. cbn [map] in E. apply cons_split in E as [E1 E2]. constructor; [apply entry_statement_inj; [done..|exact E1]|by apply IH].
Qed.

Lemma statement_inj b b' es es' : bundle_ok b -> bundle_ok b' -> Forall entry_ok es -> Forall entry_ok es' ->
  canonicalBundleStatementBytes (bundle_statement b es) = canonicalBundleStatementBytes (bundle_statement b' es') ->
  same_head b b' /\ Forall2 same_entry (sort_by entry_le es) (sort_by entry_le es').
Proof.
  intros Hb Hb' He He' H. apply go_bytes_inj in H; [|by apply normal_units, statement_units..].
  destruct Hb as [_ [Hm Hh] _], Hb' as [_ [Hm' Hh'] _]. unfold bundle_statement in H.
  field_at 1%nat H. field_at 2%nat H. field_at 3%nat H. field_at 4%nat H. field_at 5%nat H. field_at 6%nat H. field_at 7%nat H. field_at 8%nat H.
  split.
  - field_at 0%nat E1. field_at 1%nat E1. field_at 2%nat E1. field_at 3%nat E1.
    cbn [normalizeBundleStatementValue] in E, E2, E3, E7. split; auto using nullable_inj; try congruence; [|apply hex_inj; [done..|congruence]..].
    apply nullable_inj in E8, E9, E10. injection E7 as E7. unfold canonicalization_of. clear -E7 E8 E9 E10.
    destruct (b_canonicalization b) as [[]|], (b_canonicalization b') as [[]|]; cbn in *; congruence.
  - cbn [normalizeBundleStatementValue] in E6. injection E6 as E6. rewrite !map_map in E6.
    apply entries_statement_inj in E6; [done|..]; by rewrite sort_by_perm.
Qed.

Lemma check_entries_hashes seen es : check_entries seen es = Passed tt -> Forall (fun e => sha256Bytes (payload e) = sha256 e) es.
Proof.
  revert seen. induction es as [|e es IH]; intros seen H; [constructor|]. cbn [check_entries] in H. passed_inv H.
  apply negb_false_iff, bool_decide_eq_true in E1. eauto.
Qed.

Definition stripped_prefix (b : bundle) : jsstring :=
  default SDS_CUSTOM_SECTION_PREFIX (match b_canonicalization b with Some c => strippedCustomSectionPrefix c | None => None end).
(** What is hashed for a bundle: its statement, the payloads of its entries, and the canonical bytes of the module. *)
Definition preimages (b : bundle) (w : option (list Z)) : list (list Z) :=
  canonicalBundleStatementBytes (bundle_statement b (signed_entries b)) :: map payload (signed_entries b) ++
  match w with Some w => match canonicalWasmBytes (R:=R) w (stripped_prefix b) with Ok c => [c] | Throw _ => [] end | None => [] end.
Definition collision_free (xs : list (list Z)) : Prop := forall x y, x ∈ xs -> y ∈ xs -> sha256Bytes x = sha256Bytes y -> x = y.

Lemma preimage_statement b w : canonicalBundleStatementBytes (bundle_statement b (signed_entries b)) ∈ preimages b w.
Proof. left. Qed.
Lemma preimage_payload b w e : e ∈ signed_entries b -> payload e ∈ preimages b w.
Proof. intros He. right. apply elem_of_app. left. apply list_elem_of_fmap. by exists e. Qed.
Lemma preimage_module b w c : canonicalWasmBytes (R:=R) w (stripped_prefix b) = Ok c -> c ∈ preimages b (Some w).
Proof. intros Hc. right. apply elem_of_app. right. rewrite Hc. left. Qed.

Lemma signature_hash_inv b w s h : computeModuleBundleSignatureHash (R:=R) b w = Passed (s, h) ->
  s = bundle_statement b (signed_entries b) /\ h = sha256Bytes (canonicalBundleStatementBytes s) /\
  Forall (fun e => sha256Bytes (payload e) = sha256 e) (signed_entries b) /\
  (forall v, w = Some v -> exists c, canonicalWasmBytes (R:=R) v (stripped_prefix b) = Ok c /\ sha256Bytes c = canonicalModuleHash b).
Proof.
  unfold computeModuleBundleSignatureHash. intros H. passed_inv H. injection H as <- <-. destruct x. apply check_entries_hashes in E.
  split_and!; [done..|]. intros v ->. passed_inv E1. unfold computeCanonicalModuleHash, stripped_prefix in *. unfold of_result in E3.
  destruct (canonicalWasmBytes v _) as [c|] eqn:Ec; [|done]. cbn [rbind] in E3. injection E3 as <-. exists c. split; [done|].
  by apply negb_false_iff, bool_decide_eq_true in E4.
Qed.

Lemma filter_ok b : bundle_ok b -> Forall entry_ok (signed_entries b).
Proof. intros [_ _ H]. rewrite List.Forall_forall in *. intros e. unfold signed_entries. rewrite filter_In. intros [? _]. auto. Qed.

(** C3. The digest that is signed binds the bundle: if two bundles have the same digest, and SHA-256 does not collide on what is hashed for them, then they
    agree in the head and, up to their order, in every entry that is not a signature, its payload included; and the modules they are checked against have
    the same canonical bytes. *)
Theorem bundle_hash_binds_content b b' w w' s s' h :
  bundle_ok b -> bundle_ok b' ->
  computeModuleBundleSignatureHash (R:=R) b w = Passed (s, h) -> computeModuleBundleSignatureHash (R:=R) b' w' = Passed (s', h) ->
  collision_free (preimages b w ++ preimages b' w') ->
  same_head b b' /\
  (exists l l', Permutation (signed_entries b) l /\ Permutation (signed_entries b') l' /\ Forall2 (fun e e' => same_entry e e' /\ payload e = payload e') l l') /\
  (forall v v', w = Some v -> w' = Some v' -> canonicalWasmBytes (R:=R) v (stripped_prefix b) = canonicalWasmBytes (R:=R) v' (stripped_prefix b')).
Proof.
  intros Hb Hb' H H' Hfree. apply signature_hash_inv in H as (-> & -> & Hp & Hc), H' as (-> & Hh & Hp' & Hc').
  apply Hfree in Hh; [|rewrite elem_of_app; auto using preimage_statement..].
  apply statement_inj in Hh as [Hhead Hes]; [|auto using filter_ok..]. split; [done|]. split.
  - exists (sort_by entry_le (signed_entries b)), (sort_by entry_le (signed_entries b')).
    pose proof (sort_by_perm entry_le (signed_entries b)) as Hs. pose proof (sort_by_perm entry_le (signed_entries b')) as Hs'.
    split; [done|]. split; [done|]. rewrite <- Hs in Hp. rewrite <- Hs' in Hp'.
    apply Forall2_same_length_lookup. split; [by apply Forall2_length in Hes|]. intros i e e' Hi Hi'.
    pose proof (Forall2_lookup_lr _ _ _ _ _ _ Hes Hi Hi') as He. split; [done|]. apply Hfree.
    + rewrite elem_of_app. left. apply preimage_payload. rewrite <- Hs. eauto using list_elem_of_lookup_2.
    + rewrite elem_of_app. right. apply preimage_payload. rewrite <- Hs'. eauto using list_elem_of_lookup_2.
    + rewrite (Forall_lookup_1 _ _ _ _ Hp Hi), (Forall_lookup_1 _ _ _ _ Hp' Hi'). by destruct He.
  - intros v v' -> ->. destruct (Hc v eq_refl) as (c & Ec & Es), (Hc' v' eq_refl) as (c' & Ec' & Es'). rewrite Ec, Ec'. f_equal.
    apply Hfree; [rewrite elem_of_app; auto using preimage_module..|]. rewrite Es, Es'. by destruct Hhead.
Qed.
End binding.

(** ** An instance, and examples *)

(** A checksum in place of a hash, and a signature that repeats the checksum and the key. *)
Definition toy_digest (x : list Z) : list Z :=
  u32_bytes (fold_left (fun a b => (a * 257 + b + 1) mod 2 ^ 32) x 7) ++ u32_bytes (blen x mod 2 ^ 32) ++ repeat 1 24.
#[export] Instance toy_crypto : Crypto :=
  {| sha256Bytes := toy_digest; ed25519PublicKey := fun seed => reverse seed; ed25519Sign := fun m seed => toy_digest m ++ reverse seed;
     ed25519Verify := fun m s pk => bool_decide (s = toy_digest m ++ pk) |}.
#[export] Instance toy_roles : BundleRoles := {| ROLE_MANIFEST := 0; ROLE_SIGNATURE := 2; ROLE_AUXILIARY := 5 |}.

Definition data_entry (id : string) (t : json) (p : list Z) : bundle_entry :=
  BundleEntry (Some (lit id)) ROLE_AUXILIARY None t 0 None 0 (toy_digest p) p None.
Definition signature_entry (p : list Z) : bundle_entry :=
  BundleEntry (Some (lit "signature")) ROLE_SIGNATURE (Some (lit "sds.signature")) JNull 2 None 0 (toy_digest p) p None.
Definition data_bundle (es : list bundle_entry) : bundle :=
  Bundle 1 (Some (lit "space-data-module")) (Some (Canonicalization 1 (Some (lit "sds.")) (Some (lit "rec.mbl")) (Some (lit "sha256")))) (toy_digest WASM_HEADER) []
    None None es.
Definition type_a : json := JObject [(lit "schemaName", JString (lit "OMM.fbs")); (lit "byteLength", JNumber 0)].
Definition type_b : json := JObject [(lit "byteLength", JNumber 0); (lit "schemaName", JString (lit "OMM.fbs"))].
Definition bundle_a : bundle := data_bundle [data_entry "b" type_a [1; 2]; data_entry "a" JNull [3]].
Definition bundle_b : bundle := data_bundle [data_entry "a" JNull [3]; signature_entry [9]; data_entry "b" type_b [1; 2]].

Lemma bundle_hash_binds_content_witness :
  (exists s s' h, computeModuleBundleSignatureHash (RC:=raw_codec) bundle_a None = Passed (s, h) /\
    computeModuleBundleSignatureHash (RC:=raw_codec) bundle_b None = Passed (s', h)) /\
  exists l l', Permutation (signed_entries bundle_a) l /\ Permutation (signed_entries bundle_b) l' /\ Forall2 (fun e e' => same_entry e e' /\ payload e = payload e') l l'.
Proof.
  pose (s := bundle_statement bundle_a (signed_entries bundle_a)). pose (s' := bundle_statement bundle_b (signed_entries bundle_b)).
  pose (h := sha256Bytes (canonicalBundleStatementBytes s)).
  assert (H1 : computeModuleBundleSignatureHash (RC:=raw_codec) bundle_a None = Passed (s, h)) by (vm_compute; reflexivity).
  assert (H2 : computeModuleBundleSignatureHash (RC:=raw_codec) bundle_b None = Passed (s', h)) by (vm_compute; reflexivity).
  split; [exact (ex_intro _ s (ex_intro _ s' (ex_intro _ h (conj H1 H2))))|].
  assert (Hok : forall b, b = bundle_a \/ b = bundle_b -> bundle_ok b).
  { intros b [-> | ->]; (split; [vm_compute; reflexivity|split; closed_bytes|]); repeat (apply List.Forall_cons || apply List.Forall_nil);
      (split; [vm_compute; reflexivity|closed_bytes]). }
  refine (proj1 (proj2 (bundle_hash_binds_content (RC:=raw_codec) bundle_a bundle_b None None s s' h (Hok _ (or_introl eq_refl)) (Hok _ (or_intror eq_refl)) H1 H2 _))).
  assert (Hd : forallb (fun x => forallb (fun y => negb (bool_decide (toy_digest x = toy_digest y)) || bool_decide (x = y))
                (preimages (RC:=raw_codec) bundle_a None ++ preimages (RC:=raw_codec) bundle_b None))
                (preimages (RC:=raw_codec) bundle_a None ++ preimages (RC:=raw_codec) bundle_b None) = true) by (vm_compute; reflexivity).
  intros x y Hx Hy E. rewrite forallb_forall in Hd. apply list_elem_of_In in Hx, Hy. specialize (Hd x Hx). rewrite forallb_forall in Hd. specialize (Hd y Hy).
  apply orb_true_iff in Hd as [Hd|Hd]; [|exact (proj1 (bool_decide_eq_true _) Hd)]. apply negb_true_iff in Hd. exact (False_ind _ (proj1 (bool_decide_eq_false _) Hd E)).
Defined.

(** Entries that look like a signature are not part of the digest: any number of them can be put anywhere into a bundle. *)
Theorem signature_entries_are_not_bound {C : Crypto} {BR : BundleRoles} {R : Type} {RC : RecCodec R} b es es' w :
  List.filter (fun e => negb (is_signature e)) es = List.filter (fun e => negb (is_signature e)) es' ->
  let put es := Bundle (bundleVersion b) (moduleFormat b) (b_canonicalization b) (canonicalModuleHash b) (manifestHash b) (manifestExportSymbol b)
                  (manifestSizeSymbol b) es in
  computeModuleBundleSignatureHash (R:=R) (put es) w = computeModuleBundleSignatureHash (R:=R) (put es') w.
Proof. intros E put. unfold computeModuleBundleSignatureHash, signed_entries, put. cbn [entries]. by rewrite E. Qed.

(** Keys that are array indices come first and in numeric order, whatever their bytes: the text is not the one of the other implementation. *)
Theorem index_keys_are_not_in_byte_order :
  compareUtf8Keys (lit "10") (lit "9") < 0 /\
  normalizeBundleStatementValue (JObject [(lit "10", JNull); (lit "9", JNull)]) = JObject [(lit "9", JNull); (lit "10", JNull)].
Proof. split; vm_compute; reflexivity. Qed.
