(* ===== verification/BundleVerify.v ===== *)
(** Verification of the signature of a module artifact before it is loaded (src/bundle/signing.js, src/bundle/wasm.js, src/bundle/codec.js).

    The signature is a JSON object in an entry of the bundle in the trailer of the artifact. [JSON.parse] is the class [JsonParser]; a parsed value has
    safe integers for numbers. The bundle of a decoded record collection is the class [HasBundle]. What [String] makes of a value of JSON is written out,
    with the error it throws for an object whose [toString] is not a function. *)
From Stdlib Require Import ZArith Lia.
From stdpp Require Import base list strings numbers.
From S2P Require Import Prelude JsText JsMap JsNumber JsJson Canonical PublicationTrailer WasmSections Signatures BundleHash.
Import Hex SigDomain.
Open Scope Z_scope.

Class JsonParser := { JSON_parse : jsstring -> option json }.
Class HasBundle (R : Type) := { mbl : R -> option bundle }.

(** ** Texts *)

(** [s.toLowerCase()], as far as a comparison with ASCII texts can tell: the only other letter whose lower case is an ASCII letter is the Kelvin sign. *)
Definition lower_unit (c : Z) : Z := if c =? 0x212A then 107 else lower c.
Definition toLowerCase (s : jsstring) : jsstring := map lower_unit s.

(** The texts of the elements of an array with commas between them, and [String(v)]. *)
Fixpoint join_texts (l : list (result jsstring)) : result jsstring :=
  match l with
  | [] => Ok []
  | [x] => x
  | x :: l => let! a := x in let! r := join_texts l in Ok (a ++ 44 :: r)
  end.
Fixpoint String_ (v : json) : result jsstring :=
  match v with
  | JNull => Ok (lit "null")
  | JBool b => Ok (if b then lit "true" else lit "false")
  | JNumber z => Ok (int_text z)
  | JString s => Ok s
  | JArray l => join_texts (map (fun x => match x with JNull => Ok [] | _ => String_ x end) l)
  | JObject l => if bool_decide (lit "toString" ∈ keys_of l) then Throw (TypeError "Cannot convert object to primitive value") else Ok (lit "[object Object]")
  end.
(** [String(v ?? "")] *)
Definition text_of (v : json) : result jsstring := match v with JNull => Ok [] | _ => String_ v end.

(** The property of an object; a property that is not there is undefined, which is treated like null everywhere below. *)
Definition property (l : list (jsstring * json)) (key : string) : json :=
  match List.find (fun e => str_eqb e.1 (lit key)) l with Some e => e.2 | None => JNull end.

(** Throws other than refusals leave through [Thrown]. *)
Definition text_property (l : list (jsstring * json)) (key : string) : checked jsstring := of_result (text_of (property l key)).

Definition MODULE_SIGNATURE_ALGORITHM : jsstring := lit "ed25519".
Definition LEGACY_MODULE_SIGNATURE_HASH_ALGORITHM : jsstring := lit "sha256-canonical-module-hash".
Definition BUNDLE_SIGNATURE_HASH_ALGORITHM : jsstring := lit "sha256-sdn-module-bundle-v1".

(** [hexToBytes] of signing.js, which looks at every character. *)
Definition signatureHexToBytes (hex : jsstring) : checked (list Z) :=
  let normalized := toLowerCase (trim hex) in
  refuse_if negb (forallb is_hex_char normalized) || negb (blen normalized mod 2 =? 0) with invalid_hex;
  Passed (hex_pairs normalized).

(** The option [trustedPublicKeys]: a list whose elements may be null, a text, or something else. *)
Inductive trusted_keys := KeyList (l : list (option jsstring)) | KeyText (s : jsstring) | NoKeys.
Definition normalizeTrustedPublicKeys (t : trusted_keys) : list jsstring :=
  let l := match t with KeyList l => l | KeyText s => map Some (split_on 44 s) | NoKeys => [] end in
  List.filter (fun key => blen key =? 64) (map (fun key => toLowerCase (trim (default [] key))) l).

Definition SIGNATURE_PAYLOAD_KEYS : list jsstring :=
  [lit "algorithm"; lit "keyId"; lit "publicKeyHex"; lit "signatureHex"; lit "signedHashHex"; lit "signedHashAlgorithm"; lit "statementDomain"].
Definition is_case_variant (key : jsstring) : bool :=
  negb (bool_decide (key ∈ SIGNATURE_PAYLOAD_KEYS)) && existsb (fun known => str_eqb (toLowerCase known) (toLowerCase key)) SIGNATURE_PAYLOAD_KEYS.

(** ** Entries by name (codec.js) *)

(** The numbers of the other roles do not matter below: [role_name] is [moduleBundleRoleToName]. *)
Definition findModuleBundleEntry (role_name : Z -> jsstring) (es : list bundle_entry) (match_ : jsstring) : option bundle_entry :=
  let normalized := map (fun c => if c =? 95 then 45 else c) (toLowerCase (trim match_)) in
  match List.find (fun e => bool_decide (entryId e = Some match_)) es with
  | Some e => Some e
  | None => List.find (fun e => str_eqb (role_name (role e)) normalized) es
  end.

Section verification.
Context {C : Crypto} {BR : BundleRoles} {JP : JsonParser} {R : Type} {RC : RecCodec R} {HB : HasBundle R}.

Definition decodeSignaturePayload (e : bundle_entry) : checked (list (jsstring * json)) :=
  match JSON_parse (text_decode (payload e)) with
  | Some (JObject l) => refuse_if existsb is_case_variant (keys_of l) with invalid_signature_payload; Passed l
  | _ => Refused invalid_signature_payload None
  end.

(** What [parseSingleFileBundle] returns, without the decoded payloads, manifest and deployment plan, whose decoders do not throw. *)
Record parsed_bundle := ParsedBundle { p_wasmBytes : list Z; p_bundle : bundle; p_customSections : list (jsstring * list Z * Z * Z); p_canonicalModuleHash : list Z }.
Definition parseSingleFileBundle (bytes : list Z) : result parsed_bundle :=
  match extractPublicationRecordCollection (R:=R) bytes with
  | Some p =>
      match mbl (decoded p) with
      | Some b =>
          let! customSections := listWasmCustomSections (R:=R) (payloadBytes p) in
          let! canonical := computeCanonicalModuleHash (R:=R) (payloadBytes p)
              (Some (default SDS_CUSTOM_SECTION_PREFIX (match b_canonicalization b with Some c => strippedCustomSectionPrefix c | None => None end))) in
          Ok (ParsedBundle (payloadBytes p) b customSections canonical)
      | None => Throw (Error "Missing required REC trailer containing an MBL record.")
      end
  | None => Throw (Error "Missing required REC trailer containing an MBL record.")
  end.

Definition bestEffortCanonicalModuleHashHex (payloadBytes : list Z) : option jsstring :=
  match computeCanonicalModuleHash (R:=R) payloadBytes None with Ok h => Some (bytesToHex h) | Throw _ => None end.

(** ** Verification *)

Inductive signature_scope := ModuleScope | BundleScope.
Inductive verdict :=
  | Unsigned
  | Verified (keyId : json) (publicKeyHex : jsstring) (statementDomain : option jsstring) (contentHashHex : jsstring) (canonicalModuleHashHex : option jsstring)
      (scope : signature_scope) (signedHashHex : jsstring).

Definition requireTrustedSigner (trusted : list jsstring) (publicKeyHex : jsstring) (domain : option jsstring) : checked unit :=
  if bool_decide (publicKeyHex ∈ trusted) then Passed tt else Refused untrusted_signer domain.

(** The node-signed form: a domain-separated statement over the hash of the portable bytes. *)
Definition verify_statement (portable : list Z) (l : list (jsstring * json)) (signatureBytes publicKeyBytes : list Z) (publicKeyHex domain : jsstring)
    (trusted : list jsstring) : checked verdict :=
  let contentHashBytes := sha256Bytes portable in
  let contentHashHex := bytesToHex contentHashBytes in
  let? declared := text_property l "signedHashHex" in
  let declaredHashHex := toLowerCase (trimGoWhitespace declared) in
  refuse_if negb (str_eqb declaredHashHex []) && negb (str_eqb declaredHashHex contentHashHex) with hash_mismatch;
  if negb (str_eqb domain DOMAIN_MODULE_PUBLICATION_V1) then Refused unsupported_statement_domain (Some domain) else
  let? statementBytes := of_result (statement DOMAIN_MODULE_PUBLICATION_V1 contentHashBytes) in
  let? _ := requireTrustedSigner trusted publicKeyHex (Some DOMAIN_MODULE_PUBLICATION_V1) in
  if negb (ed25519Verify statementBytes signatureBytes publicKeyBytes) then Refused invalid_signature (Some DOMAIN_MODULE_PUBLICATION_V1) else
  Passed (Verified (property l "keyId") publicKeyHex (Some DOMAIN_MODULE_PUBLICATION_V1) contentHashHex (bestEffortCanonicalModuleHashHex portable) ModuleScope contentHashHex).

(** The legacy form: the bare digest of the canonical module, or of the bundle. *)
Definition verify_digest (bytes portable : list Z) (b : bundle) (l : list (jsstring * json)) (signatureBytes publicKeyBytes : list Z) (publicKeyHex : jsstring)
    (trusted : list jsstring) : checked verdict :=
  let? canonical := of_result (computeCanonicalModuleHash (R:=R) portable None) in
  refuse_if negb (equalBytes (canonicalModuleHash b) canonical) with hash_mismatch;
  let? signedHashAlgorithm := text_property l "signedHashAlgorithm" in
  let? (signedHashBytes, scope) :=
    if str_eqb signedHashAlgorithm BUNDLE_SIGNATURE_HASH_ALGORITHM then
      let? parsed := of_result (parseSingleFileBundle bytes) in
      let? (_, hash) := computeModuleBundleSignatureHash (R:=R) (p_bundle parsed) (Some (p_wasmBytes parsed)) in
      Passed (hash, BundleScope)
    else
      refuse_if negb (str_eqb signedHashAlgorithm LEGACY_MODULE_SIGNATURE_HASH_ALGORITHM) with unsupported_hash_algorithm;
      Passed (canonical, ModuleScope) in
  let signedHashHex := bytesToHex signedHashBytes in
  let? declared := text_property l "signedHashHex" in
  refuse_if negb (str_eqb (toLowerCase declared) signedHashHex) with hash_mismatch;
  let? _ := requireTrustedSigner trusted publicKeyHex None in
  refuse_if negb (ed25519Verify signedHashBytes signatureBytes publicKeyBytes) with invalid_signature;
  Passed (Verified (property l "keyId") publicKeyHex None (bytesToHex (sha256Bytes portable)) (Some (bytesToHex canonical)) scope signedHashHex).

(** A signature entry that was found. *)
Definition verify_entry (bytes portable : list Z) (b : bundle) (e : bundle_entry) (trustedPublicKeys : trusted_keys) : checked verdict :=
  let? l := decodeSignaturePayload e in
  let? algorithm := text_property l "algorithm" in
  refuse_if negb (str_eqb (toLowerCase (trimGoWhitespace algorithm)) MODULE_SIGNATURE_ALGORITHM) with unsupported_algorithm;
  let? signatureHex := text_property l "signatureHex" in
  let? signatureBytes := signatureHexToBytes signatureHex in
  refuse_if negb (blen signatureBytes =? 64) with invalid_signature;
  refuse_if forallb (fun byte => byte =? 0) signatureBytes with invalid_signature;
  let? key := text_property l "publicKeyHex" in
  let publicKeyHex := toLowerCase (trim key) in
  let? publicKeyBytes := signatureHexToBytes publicKeyHex in
  refuse_if negb (blen publicKeyBytes =? 32) with invalid_public_key;
  let trusted := normalizeTrustedPublicKeys trustedPublicKeys in
  let? declared := text_property l "statementDomain" in
  let declaredStatementDomain := trimGoWhitespace declared in
  let? ambiguous := if str_eqb declaredStatementDomain [] then Passed false
                    else let? algorithm := text_property l "signedHashAlgorithm" in Passed (str_eqb (trimGoWhitespace algorithm) BUNDLE_SIGNATURE_HASH_ALGORITHM) in
  if ambiguous then Refused ambiguous_signature_scope (Some declaredStatementDomain)
  else if negb (str_eqb declaredStatementDomain []) then
    verify_statement portable l signatureBytes publicKeyBytes publicKeyHex declaredStatementDomain trusted
  else verify_digest bytes portable b l signatureBytes publicKeyBytes publicKeyHex trusted.

(** The signature entry of an artifact, if it has a bundle with one. *)
Definition signature_of (bytes : list Z) : option (publication R * bundle * bundle_entry) :=
  match extractPublicationRecordCollection (R:=R) bytes with
  | Some p => match mbl (decoded p) with
              | Some b => match findSignatureEntry (entries b) with Some e => Some (p, b, e) | None => None end
              | None => None
              end
  | None => None
  end.

Definition verifyModuleArtifact (bytes : list Z) (trustedPublicKeys : trusted_keys) (requireSignature : bool) : checked verdict :=
  match signature_of bytes with
  | None => refuse_if requireSignature with missing_signature; Passed Unsigned
  | Some (p, b, e) => verify_entry bytes (payloadBytes p) b e trustedPublicKeys
  end.
End verification.

(** ** Policy *)

(** The option [verifySignature]: false, an object, or anything else. *)
Inductive verify_option := VerifyFalse | VerifyObject (trustedPublicKeys : trusted_keys) (requireSignature : bool) | VerifyOther.
(** What a load finds around it: two environment variables and two globals. *)
Record surroundings := Surroundings {
  SDM_TRUSTED_MODULE_SIGNERS : option jsstring; SDM_REQUIRE_MODULE_SIGNATURE : option jsstring;
  global_TRUSTED_MODULE_SIGNERS : trusted_keys; global_REQUIRE_MODULE_SIGNATURE : bool
}.
Record policy := Policy { trustedPublicKeys : list jsstring; requireSignature : bool }.
Definition resolveModuleSignaturePolicy (verifySignature : verify_option) (s : surroundings) : option policy :=
  match verifySignature with
  | VerifyFalse => None
  | VerifyObject keys require => Some (Policy (normalizeTrustedPublicKeys keys) require)
  | VerifyOther =>
      let keys := normalizeTrustedPublicKeys (match SDM_TRUSTED_MODULE_SIGNERS s with Some t => KeyText t | None => global_TRUSTED_MODULE_SIGNERS s end) in
      let require := bool_decide (SDM_REQUIRE_MODULE_SIGNATURE s = Some (lit "1")) || bool_decide (SDM_REQUIRE_MODULE_SIGNATURE s = Some (lit "true")) ||
                     global_REQUIRE_MODULE_SIGNATURE s in
      match keys, require with [], false => None | _, _ => Some (Policy keys require) end
  end.

(** ** What a verdict means *)

Lemma hex_digits_back x y : is_hex_char x = true -> is_hex_char y = true -> hex_byte (stored_byte (parseInt16 [x; y])) = [x; y].
Proof.
  assert (H : forallb (fun x => forallb (fun y => negb (is_hex_char x && is_hex_char y) || bool_decide (hex_byte (stored_byte (parseInt16 [x; y])) = [x; y]))
                (map Z.of_nat (seq 48 55))) (map Z.of_nat (seq 48 55)) = true) by (vm_compute; reflexivity).
  intros Hx Hy. rewrite forallb_forall in H.
  assert (Hin : forall c, is_hex_char c = true -> In c (map Z.of_nat (seq 48 55))).
  { intros c Hc. unfold is_hex_char in Hc. apply in_map_iff. exists (Z.to_nat c). rewrite in_seq. lia. }
  specialize (H x (Hin x Hx)). rewrite forallb_forall in H. specialize (H y (Hin y Hy)). rewrite Hx, Hy in H. by apply bool_decide_eq_true in H.
Qed.

Lemma hex_pairs_back t : forallb is_hex_char t = true -> blen t mod 2 = 0 -> bytesToHex (hex_pairs t) = t.
Proof.
  enough (Hn : forall n t, (length t <= n)%nat -> forallb is_hex_char t = true -> blen t mod 2 = 0 -> bytesToHex (hex_pairs t) = t) by eauto. clear t.
  intros n. induction n as [|n IH]; intros [|x [|y t]] Hn Hc Hl; try done; [cbn in Hn; lia|].
  cbn in Hc. apply andb_true_iff in Hc as [Hx Hc]. apply andb_true_iff in Hc as [Hy Hc].
  change (hex_byte (stored_byte (parseInt16 [x; y])) ++ bytesToHex (hex_pairs t) = x :: y :: t). rewrite hex_digits_back, IH; [done| |done| |done..].
  - cbn in Hn. lia.
  - unfold blen in *. cbn [length] in Hl. rewrite !Nat2Z.inj_succ in Hl. replace (Z.succ (Z.succ (Z.of_nat (length t)))) with (Z.of_nat (length t) + 1 * 2) in Hl by lia.
    by rewrite Z.mod_add in Hl.
Qed.

Lemma hex_char_lower c : is_hex_char c = true -> lower_unit c = c.
Proof. intros H. unfold lower_unit. destruct (hex_char_not_space c H) as (_ & Hl & _). destruct (Z.eqb_spec c 0x212A) as [->|]; [by vm_compute in H|done]. Qed.

Lemma lower_hex s : forallb is_hex_char s = true -> toLowerCase s = s.
Proof.
  rewrite forallb_forall. intros H. rewrite <- (map_id s) at 2. apply map_ext_in. intros c Hc. apply hex_char_lower. auto.
Qed.

Lemma hex_all s : forallb is_hex_char s = true -> Forall (fun c => is_hex_char c = true) s.
Proof. rewrite forallb_forall, List.Forall_forall. done. Qed.

Lemma signature_hex_inv t b : signatureHexToBytes t = Passed b -> bytesToHex b = toLowerCase (trim t).
Proof.
  unfold signatureHexToBytes. intros H. passed_inv H. injection H as <-. apply orb_false_iff in E as [E1 E2]. apply negb_false_iff in E1, E2.
  apply hex_pairs_back; [done|]. by apply Z.eqb_eq.
Qed.

(** The text of bytes is read back. *)
Lemma signature_hex_of_bytes b : bytes_ok b -> signatureHexToBytes (bytesToHex b) = Passed b.
Proof.
  intros Hb. pose proof (bytesToHex_chars b Hb) as Hc. unfold signatureHexToBytes. rewrite (trim_hex _ Hc).
  assert (Hf : forallb is_hex_char (bytesToHex b) = true) by (rewrite forallb_forall; by apply List.Forall_forall).
  rewrite (lower_hex _ Hf), Hf, blen_hex, Z.mul_comm, Z.mod_mul by lia. cbn. by rewrite hex_pairs_roundtrip.
Qed.

Lemma drop_while_map {A B : Type} (p : B -> bool) (f : A -> B) l : drop_while p (map f l) = map f (drop_while (fun x => p (f x)) l).
Proof. induction l as [|x l IH]; cbn; [done|]. by destruct (p (f x)). Qed.

Lemma lower_space c : is_js_space (lower_unit c) = is_js_space c.
Proof.
  unfold lower_unit. destruct (Z.eqb_spec c 0x212A) as [->|]; [done|]. unfold lower. destruct ((65 <=? c) && (c <=? 90)) eqn:E; [|done].
  assert (Hs : forall d, 65 <= d <= 122 -> is_js_space d = false).
  { intros d Hd. apply not_true_is_false. unfold is_js_space. lia. }
  rewrite !Hs; lia.
Qed.

Lemma trim_lower s : trim (toLowerCase s) = toLowerCase (trim s).
Proof.
  assert (Hd : forall s, drop_while is_js_space (map lower_unit s) = map lower_unit (drop_while is_js_space s)).
  { intros t. rewrite drop_while_map. f_equal. induction t as [|c t IH]; cbn; [done|]. by rewrite lower_space, IH. }
  unfold trim, trim_with, toLowerCase. rewrite Hd, <- (fmap_reverse lower_unit). change (fmap lower_unit) with (map lower_unit). by rewrite Hd, (fmap_reverse lower_unit).
Qed.

Lemma lower_lower s : toLowerCase (toLowerCase s) = toLowerCase s.
Proof.
  unfold toLowerCase. rewrite map_map. apply map_ext. intros c. unfold lower_unit. destruct (Z.eqb_spec c 0x212A) as [->|Hc]; [done|].
  destruct (Z.eqb_spec (lower c) 0x212A) as [E|]; [|unfold lower; bool_lia; done]. unfold lower in E. destruct ((65 <=? c) && (c <=? 90)) eqn:E2; lia.
Qed.

Section verdicts.
Context {C : Crypto} {BR : BundleRoles} {JP : JsonParser} {R : Type} {RC : RecCodec R} {HB : HasBundle R}.

(** The three messages a signature can be over. *)
Inductive signed_message (portable : list Z) (b : bundle) : option jsstring -> signature_scope -> list Z -> list Z -> Prop :=
  | signed_statement m : statement DOMAIN_MODULE_PUBLICATION_V1 (sha256Bytes portable) = Ok m ->
      signed_message portable b (Some DOMAIN_MODULE_PUBLICATION_V1) ModuleScope m (sha256Bytes portable)
  | signed_module c : canonicalWasmBytes (R:=R) portable SDS_CUSTOM_SECTION_PREFIX = Ok c -> canonicalModuleHash b = sha256Bytes c ->
      signed_message portable b None ModuleScope (sha256Bytes c) (sha256Bytes c)
  | signed_bundle s h : computeModuleBundleSignatureHash (R:=R) b (Some portable) = Passed (s, h) -> signed_message portable b None BundleScope h h.

(** What the object [l] in a signature entry says of its signature: the algorithm, the bytes of the signature and of the key in hex, the key's id, the domain (none
    if the text is blank), what is hashed when there is no domain, and the hash in hex, which a statement may leave out. *)
Record describes_signature (l : list (jsstring * json)) (sig key : list Z) (kid : json) (dom : option jsstring) (scope : signature_scope) (signed : jsstring) : Prop :=
  DescribesSignature {
  says_algorithm : exists t, text_property l "algorithm" = Passed t /\ toLowerCase (trimGoWhitespace t) = lit "ed25519";
  says_signature : exists t, text_property l "signatureHex" = Passed t /\ toLowerCase (trim t) = bytesToHex sig;
  says_key : exists t, text_property l "publicKeyHex" = Passed t /\ toLowerCase (trim t) = bytesToHex key;
  says_id : kid = property l "keyId";
  says_domain : exists t, text_property l "statementDomain" = Passed t /\ trimGoWhitespace t = default [] dom /\ dom <> Some [];
  says_scope : dom = None -> text_property l "signedHashAlgorithm" =
    Passed (lit match scope with ModuleScope => "sha256-canonical-module-hash" | BundleScope => "sha256-sdn-module-bundle-v1" end);
  says_hash : exists t, text_property l "signedHashHex" = Passed t /\
    (toLowerCase t = signed \/ dom <> None /\ (trimGoWhitespace t = [] \/ toLowerCase (trimGoWhitespace t) = signed)) }.

(** The hash of the canonical module, when the module can be read. *)
Definition canonical_hash_is (portable : list Z) (canon : option jsstring) : Prop :=
  match canon with
  | Some h => exists c, canonicalWasmBytes (R:=R) portable SDS_CUSTOM_SECTION_PREFIX = Ok c /\ h = bytesToHex (sha256Bytes c)
  | None => exists e, canonicalWasmBytes (R:=R) portable SDS_CUSTOM_SECTION_PREFIX = Throw e
  end.

Lemma best_effort_canonical portable : canonical_hash_is portable (bestEffortCanonicalModuleHashHex (R:=R) portable).
Proof.
  unfold canonical_hash_is, bestEffortCanonicalModuleHashHex, computeCanonicalModuleHash. cbn [default].
  destruct (canonicalWasmBytes portable SDS_CUSTOM_SECTION_PREFIX); cbn [rbind]; eauto.
Qed.

Lemma computed_canonical portable h : computeCanonicalModuleHash (R:=R) portable None = Ok h -> canonical_hash_is portable (Some (bytesToHex h)).
Proof.
  unfold canonical_hash_is, computeCanonicalModuleHash. cbn [default].
  destruct (canonicalWasmBytes portable SDS_CUSTOM_SECTION_PREFIX); cbn [rbind]; [|done]. intros [= <-]. eauto.
Qed.

Lemma lower_nil t : toLowerCase t = [] -> t = [].
Proof. by destruct t. Qed.

(** The part of a description that both forms check: the id, the hash, and without a domain the algorithm. *)
Definition describes_hash (l : list (jsstring * json)) (kid : json) (dom : option jsstring) (scope : signature_scope) (signed : jsstring) : Prop :=
  kid = property l "keyId" /\
  (dom = None -> text_property l "signedHashAlgorithm" =
     Passed (lit match scope with ModuleScope => "sha256-canonical-module-hash" | BundleScope => "sha256-sdn-module-bundle-v1" end)) /\
  exists t, text_property l "signedHashHex" = Passed t /\
    (toLowerCase t = signed \/ dom <> None /\ (trimGoWhitespace t = [] \/ toLowerCase (trimGoWhitespace t) = signed)).

Lemma verify_statement_inv portable b l sig key keyHex domain trusted kid pk dom content canon scope signed :
  verify_statement (R:=R) portable l sig key keyHex domain trusted = Passed (Verified kid pk dom content canon scope signed) ->
  pk = keyHex /\ keyHex ∈ trusted /\ dom = Some domain /\ content = bytesToHex (sha256Bytes portable) /\ canonical_hash_is portable canon /\
  describes_hash l kid dom scope signed /\
  exists m h, signed_message portable b dom scope m h /\ signed = bytesToHex h /\ ed25519Verify m sig key = true.
Proof.
  unfold verify_statement, requireTrustedSigner. intros H. passed_inv H. injection H as <- <- <- <- <- <- <-. apply negb_false_iff in E4.
  apply negb_false_iff, str_eqb_eq in E1. unfold of_result in E2. destruct (statement _ _) as [m|] eqn:Em; [|done]. injection E2 as ->.
  case_bool_decide; [|done]. split_and!; [done..|by rewrite E1|done|apply best_effort_canonical| |].
  - split_and!; [done..|]. exists x. split; [done|]. right. split; [done|]. apply andb_false_iff in E0 as [E0|E0]; apply negb_false_iff, str_eqb_eq in E0; [|by right].
    left. by apply lower_nil.
  - exists x0, (sha256Bytes portable). split_and!; [by apply signed_statement|done..].
Qed.

Lemma of_result_inv {A : Type} (r : result A) x : of_result r = Passed x -> r = Ok x.
Proof. destruct r; cbn; congruence. Qed.

Lemma verify_digest_message bytes p b alg canonical hash scope :
  extractPublicationRecordCollection (R:=R) bytes = Some p -> mbl (decoded p) = Some b ->
  computeCanonicalModuleHash (R:=R) (payloadBytes p) None = Ok canonical -> canonicalModuleHash b = canonical ->
  (if str_eqb alg BUNDLE_SIGNATURE_HASH_ALGORITHM then
     let? parsed := of_result (parseSingleFileBundle (R:=R) bytes) in
     let? (_, hash) := computeModuleBundleSignatureHash (R:=R) (p_bundle parsed) (Some (p_wasmBytes parsed)) in Passed (hash, BundleScope)
   else refuse_if negb (str_eqb alg LEGACY_MODULE_SIGNATURE_HASH_ALGORITHM) with unsupported_hash_algorithm; Passed (canonical, ModuleScope)) = Passed (hash, scope) ->
  signed_message (payloadBytes p) b None scope hash hash.
Proof.
  intros Hp Hb Hc Hr H. destruct (str_eqb alg BUNDLE_SIGNATURE_HASH_ALGORITHM).
  - passed_inv H. match type of H with context [match ?x with _ => _ end] => destruct x as [s h0] end. injection H as <- <-.
    apply of_result_inv in E. unfold parseSingleFileBundle in E. rewrite Hp, Hb in E. js_inv E. by apply signed_bundle with s.
  - passed_inv H. injection H as <- <-. unfold computeCanonicalModuleHash in Hc. destruct (canonicalWasmBytes _ _) as [c|] eqn:Ec; [|done].
    injection Hc as <-. by apply signed_module.
Qed.

Lemma digest_scope bytes alg canonical hash scope :
  (if str_eqb alg BUNDLE_SIGNATURE_HASH_ALGORITHM then
     let? parsed := of_result (parseSingleFileBundle (R:=R) bytes) in
     let? (_, hash) := computeModuleBundleSignatureHash (R:=R) (p_bundle parsed) (Some (p_wasmBytes parsed)) in Passed (hash, BundleScope)
   else refuse_if negb (str_eqb alg LEGACY_MODULE_SIGNATURE_HASH_ALGORITHM) with unsupported_hash_algorithm; Passed (canonical, ModuleScope)) = Passed (hash, scope) ->
  alg = lit match scope with ModuleScope => "sha256-canonical-module-hash" | BundleScope => "sha256-sdn-module-bundle-v1" end.
Proof.
  destruct (str_eqb alg BUNDLE_SIGNATURE_HASH_ALGORITHM) eqn:Ea; intros H; passed_inv H.
  - match type of H with context [match ?x with _ => _ end] => destruct x as [s h0] end. injection H as _ <-. by apply str_eqb_eq in Ea.
  - injection H as _ <-. by apply negb_false_iff, str_eqb_eq in E.
Qed.

Lemma verify_digest_inv bytes p b l sig key keyHex trusted kid pk dom content canon scope signed :
  extractPublicationRecordCollection (R:=R) bytes = Some p -> mbl (decoded p) = Some b ->
  verify_digest (R:=R) bytes (payloadBytes p) b l sig key keyHex trusted = Passed (Verified kid pk dom content canon scope signed) ->
  pk = keyHex /\ keyHex ∈ trusted /\ dom = None /\ content = bytesToHex (sha256Bytes (payloadBytes p)) /\ canonical_hash_is (payloadBytes p) canon /\
  describes_hash l kid dom scope signed /\
  exists m h, signed_message (payloadBytes p) b dom scope m h /\ signed = bytesToHex h /\ ed25519Verify m sig key = true.
Proof.
  intros Hp Hb. unfold verify_digest, requireTrustedSigner. intros H. passed_inv H. destruct x1 as [h sc]. passed_inv H. injection H as <- <- <- <- <- <- <-.
  apply negb_false_iff in E0, E4, E6. apply of_result_inv in E. apply bool_decide_eq_true in E0. apply str_eqb_eq in E4. case_bool_decide; [|done].
  split_and!; [done..|by apply computed_canonical| |].
  - split_and!; [done| |eauto]. intros _. by rewrite E1, (digest_scope _ _ _ _ _ E2).
  - exists h, h. split_and!; [|done..]. by apply (verify_digest_message bytes p b x0 x).
Qed.

Lemma payload_object e l : decodeSignaturePayload e = Passed l -> JSON_parse (text_decode (payload e)) = Some (JObject l).
Proof. unfold decodeSignaturePayload. intros H. destruct (JSON_parse _) as [[]|]; try done. passed_inv H. by injection H as ->. Qed.

(** C2. An artifact is reported as verified only if the first signature entry of its bundle holds a JSON object whose signatureHex is 64 bytes and whose publicKeyHex
    is 32 bytes of a trusted key, the former an Ed25519 signature under the latter of one of three messages: the module publication statement over the hash of
    the portable bytes, the hash of the canonical module recorded in the bundle, or the digest of the bundle. Which of them is what the object's
    statementDomain and signedHashAlgorithm say; the reported key id, key, domain, scope and signed hash are that object's and that message's, the content hash is
    that of the portable bytes, and the canonical hash is that of the canonical module, missing only if the module cannot be read. *)
Theorem verified_means_signed bytes trusted require kid pk dom content canon scope signed :
  verifyModuleArtifact (R:=R) bytes trusted require = Passed (Verified kid pk dom content canon scope signed) ->
  exists p b e l sig key m h,
    extractPublicationRecordCollection (R:=R) bytes = Some p /\ mbl (decoded p) = Some b /\ findSignatureEntry (entries b) = Some e /\
    JSON_parse (text_decode (payload e)) = Some (JObject l) /\ describes_signature l sig key kid dom scope signed /\
    pk ∈ normalizeTrustedPublicKeys trusted /\ bytesToHex key = pk /\ blen key = 32 /\ blen sig = 64 /\
    content = bytesToHex (sha256Bytes (payloadBytes p)) /\ canonical_hash_is (payloadBytes p) canon /\
    signed_message (payloadBytes p) b dom scope m h /\ signed = bytesToHex h /\ ed25519Verify m sig key = true.
Proof.
  unfold verifyModuleArtifact, signature_of. intros H.
  destruct (extractPublicationRecordCollection bytes) as [p|] eqn:Ep; [|by destruct require].
  destruct (mbl (decoded p)) as [b|] eqn:Eb; [|by destruct require].
  destruct (findSignatureEntry (entries b)) as [e|] eqn:Ee; [|by destruct require].
  unfold verify_entry in H. passed_inv H. rename x into l, x2 into sig, x4 into key. apply negb_false_iff in E1, E4, E8. apply str_eqb_eq in E1.
  apply signature_hex_inv in E3, E7. rewrite trim_lower, trim_trim, lower_lower in E7.
  assert (Hv : pk = toLowerCase (trim x3) /\ toLowerCase (trim x3) ∈ normalizeTrustedPublicKeys trusted /\
    dom = (if negb (str_eqb (trimGoWhitespace x5) []) then Some (trimGoWhitespace x5) else None) /\
    content = bytesToHex (sha256Bytes (payloadBytes p)) /\ canonical_hash_is (payloadBytes p) canon /\ describes_hash l kid dom scope signed /\
    exists m h, signed_message (payloadBytes p) b dom scope m h /\ signed = bytesToHex h /\ ed25519Verify m sig key = true).
  { destruct (negb (str_eqb (trimGoWhitespace x5) [])); [by apply (verify_statement_inv _ b) in H|by apply verify_digest_inv in H]. }
  destruct Hv as (-> & Ht & Hd & -> & Hc & (Hk & Hs & Hh) & m & h & Hm & Hsh & Hv). exists p, b, e, l, sig, key, m, h.
  split_and!; try done; [by apply (payload_object e)| |by apply Z.eqb_eq..].
  split; try done; [by exists x0|by exists x1|by exists x3|]. exists x5. split; [done|]. rewrite Hd.
  destruct (str_eqb (trimGoWhitespace x5) []) eqn:Ed; cbn [negb default]; [by apply str_eqb_eq in Ed|].
  split; [done|]. intros [= Hn]. rewrite Hn in Ed. done.
Qed.

(** Steps that do not ask for trust. *)
Definition asks_no_trust {A : Type} (c : checked A) : Prop := forall d, c <> Refused untrusted_signer d.

Lemma no_trust_passed {A : Type} (x : A) : asks_no_trust (Passed x).
Proof. done. Qed.
Lemma no_trust_refused {A : Type} r d : r <> untrusted_signer -> asks_no_trust (Refused (A:=A) r d).
Proof. intros Hr d' H. by injection H. Qed.
Lemma no_trust_result {A : Type} (r : result A) : asks_no_trust (of_result r).
Proof. intros d. by destruct r. Qed.
Lemma no_trust_bind {A B : Type} (c : checked A) (k : A -> checked B) : asks_no_trust c -> (forall x, asks_no_trust (k x)) -> asks_no_trust (cbind c k).
Proof. intros Hc Hk d. destruct c; cbn; [apply Hk| |done]. intros [= -> ->]. by apply (Hc d). Qed.
Lemma no_trust_check {A : Type} (b : bool) r d (c : checked A) : r <> untrusted_signer -> asks_no_trust c -> asks_no_trust (if b then Refused r d else c).
Proof. intros Hr Hc. destruct b; [by apply no_trust_refused|done]. Qed.

Lemma no_trust_entries seen es : asks_no_trust (check_entries seen es).
Proof. revert seen. induction es as [|e es IH]; intros seen; cbn [check_entries]; [done|]. repeat (apply no_trust_check; [done|]). apply IH. Qed.
Lemma no_trust_hash b w : asks_no_trust (computeModuleBundleSignatureHash (R:=R) b w).
Proof.
  unfold computeModuleBundleSignatureHash. apply no_trust_bind; [apply no_trust_entries|]. intros _. apply no_trust_check; [done|].
  apply no_trust_bind; [destruct w; [apply no_trust_bind; [apply no_trust_result|]; intros; by apply no_trust_check|done]|]. intros _.
  apply no_trust_bind; [|done]. destruct (List.find _ _); by apply no_trust_check.
Qed.
Lemma no_trust_hex t : asks_no_trust (signatureHexToBytes t).
Proof. by apply no_trust_check. Qed.
Lemma no_trust_payload e : asks_no_trust (decodeSignaturePayload e).
Proof. unfold decodeSignaturePayload. destruct (JSON_parse _) as [[]|]; try (by apply no_trust_refused). by apply no_trust_check. Qed.
(** By the form of the step. *)
Ltac no_trust :=
  lazymatch goal with
  | |- asks_no_trust (Passed _) => apply no_trust_passed
  | |- asks_no_trust (of_result _) => apply no_trust_result
  | |- asks_no_trust (text_property _ _) => apply no_trust_result
  | |- asks_no_trust (decodeSignaturePayload _) => apply no_trust_payload
  | |- asks_no_trust (signatureHexToBytes _) => apply no_trust_hex
  | |- asks_no_trust (computeModuleBundleSignatureHash _ _) => apply no_trust_hash
  | |- asks_no_trust (cbind _ _) => apply no_trust_bind; [|intros]; no_trust
  | |- asks_no_trust (if _ then Refused _ _ else _) => apply no_trust_check; [done|no_trust]
  | |- asks_no_trust (if ?b then _ else _) => destruct b; no_trust
  | |- asks_no_trust (let '_ := ?x in _) => destruct x; no_trust
  end.

Lemma untrusted_bind {A B : Type} (c : checked A) (k : A -> checked B) d :
  asks_no_trust c -> cbind c k = Refused untrusted_signer d -> exists x, c = Passed x /\ k x = Refused untrusted_signer d.
Proof. intros Hc. destruct c; cbn; [eauto|intros [= -> ->]; by destruct (Hc d)|done]. Qed.

(** Follows a chain of checks up to the question of trust, in a refusal and in the goal. *)
Ltac until_trust H :=
  repeat lazymatch type of H with
  | cbind (requireTrustedSigner _ _ _) _ = _ => fail
  | cbind ?c _ = Refused untrusted_signer _ =>
      let E := fresh "E" in let x := fresh "x" in apply untrusted_bind in H as (x & E & H); [rewrite ?E; cbn [cbind]|no_trust]
  | (if ?b then Refused _ _ else _) = Refused untrusted_signer _ => let E := fresh "E" in destruct b eqn:E; [discriminate H|]
  end.

(** What remains of a verification once everything but trust is settled. *)
Definition trust_then (t : list jsstring) (pk : jsstring) (m sig key : list Z) (d : option jsstring) (v : verdict) : checked verdict :=
  if bool_decide (pk ∈ t) then if ed25519Verify m sig key then Passed v else Refused invalid_signature d else Refused untrusted_signer d.

Lemma verify_statement_trust portable b l sig key pk domain t d :
  verify_statement (R:=R) portable l sig key pk domain t = Refused untrusted_signer d ->
  exists m h scope v, signed_message portable b d scope m h /\ forall t', verify_statement (R:=R) portable l sig key pk domain t' = trust_then t' pk m sig key d v.
Proof.
  unfold verify_statement. intros H. until_trust H. apply of_result_inv in E2. unfold requireTrustedSigner in H.
  destruct (bool_decide (pk ∈ t)); cbn [cbind] in H; [by destruct (ed25519Verify _ _ _)|]. injection H as <-.
  do 4 eexists. split; [by apply signed_statement|]. intros t'. unfold trust_then, requireTrustedSigner.
  destruct (bool_decide _); [|done]. cbn [cbind]. by destruct (ed25519Verify _ _ _).
Qed.


Lemma verify_digest_trust bytes p b l sig key pk t d :
  extractPublicationRecordCollection (R:=R) bytes = Some p -> mbl (decoded p) = Some b ->
  verify_digest (R:=R) bytes (payloadBytes p) b l sig key pk t = Refused untrusted_signer d ->
  exists m h scope v, signed_message (payloadBytes p) b d scope m h /\
    forall t', verify_digest (R:=R) bytes (payloadBytes p) b l sig key pk t' = trust_then t' pk m sig key d v.
Proof.
  intros Hp Hb. unfold verify_digest. intros H. until_trust H. destruct x1 as [h scope]. until_trust H. apply of_result_inv in E.
  apply negb_false_iff, bool_decide_eq_true in E0. pose proof (verify_digest_message _ _ _ _ _ _ _ Hp Hb E E0 E2) as Hm.
  unfold requireTrustedSigner in H. destruct (bool_decide (pk ∈ t)); cbn [cbind] in H; [by destruct (ed25519Verify _ _ _)|]. injection H as <-.
  do 4 eexists. split; [exact Hm|]. intros t'. unfold trust_then, requireTrustedSigner.
  destruct (bool_decide _); [|done]. cbn [cbind]. by destruct (ed25519Verify _ _ _).
Qed.

(** Trust is asked last: an artifact is refused for an untrusted signer only when its signature covers one of the three messages, so that the refusal
    reports that message's domain, and under any other set of trusted keys the outcome is fixed: verified or refused by Ed25519 if the key is in the set, the
    same refusal if it is not. *)
Theorem trust_is_asked_last bytes t require d :
  verifyModuleArtifact (R:=R) bytes t require = Refused untrusted_signer d ->
  exists p b pk sig key m h scope v,
    extractPublicationRecordCollection (R:=R) bytes = Some p /\ mbl (decoded p) = Some b /\ signed_message (payloadBytes p) b d scope m h /\
    forall t' require', verifyModuleArtifact (R:=R) bytes t' require' = trust_then (normalizeTrustedPublicKeys t') pk m sig key d v.
Proof.
  unfold verifyModuleArtifact, signature_of. intros H.
  destruct (extractPublicationRecordCollection bytes) as [p|] eqn:Ep; [|by destruct require].
  destruct (mbl (decoded p)) as [b|] eqn:Eb; [|by destruct require].
  destruct (findSignatureEntry (entries b)) as [e|] eqn:Ee; [|by destruct require]. exists p, b. unfold verify_entry in *. until_trust H.
  destruct (negb (str_eqb (trimGoWhitespace x5) [])).
  - apply (verify_statement_trust _ b) in H as (m & h & scope & v & Hm & Ht). exists (toLowerCase (trim x3)), x2, x4, m, h, scope, v. eauto.
  - apply verify_digest_trust in H as (m & h & scope & v & Hm & Ht); [|done..]. exists (toLowerCase (trim x3)), x2, x4, m, h, scope, v. eauto.
Qed.
End verdicts.

(** ** What a signature does not cover *)

(** An entry that looks like a signature is left out of the digest of the bundle, but is found by its id: after the true signature, a second entry of that
    role named manifest can be put in front of the manifest. Verification answers as before, and readers of the manifest get the entry that was put in. *)
Theorem unsigned_manifest_is_read {C : Crypto} {BR : BundleRoles} {JP : JsonParser} {R : Type} {RC : RecCodec R} {HB : HasBundle R}
    role_name bytes bytes' p p' b b' sig fake t require :
  extractPublicationRecordCollection (R:=R) bytes = Some p -> extractPublicationRecordCollection (R:=R) bytes' = Some p' ->
  payloadBytes p' = payloadBytes p -> mbl (decoded p) = Some b -> mbl (decoded p') = Some b' ->
  findSignatureEntry (entries b) = Some sig -> entryId sig = Some (lit "signature") -> entryId fake = Some (lit "manifest") -> role fake = ROLE_SIGNATURE ->
  b' = Bundle (bundleVersion b) (moduleFormat b) (b_canonicalization b) (canonicalModuleHash b) (manifestHash b) (manifestExportSymbol b)
         (manifestSizeSymbol b) (sig :: fake :: entries b) ->
  verifyModuleArtifact (R:=R) bytes' t require = verifyModuleArtifact (R:=R) bytes t require /\
  findModuleBundleEntry role_name (entries b') (lit "manifest") = Some fake.
Proof.
  intros Hp Hp' Hpl Hb Hb' Hs Hid Hfid Hrole Eb'.
  assert (Hsig : is_signature sig = true) by (by apply (List.find_some is_signature (entries b)) in Hs as [_ Hs]).
  assert (Hfake : is_signature fake = true) by (unfold is_signature; by rewrite Hrole, Z.eqb_refl).
  assert (Hh : forall w, computeModuleBundleSignatureHash (R:=R) b' w = computeModuleBundleSignatureHash (R:=R) b w).
  { intros w. subst b'. rewrite (signature_entries_are_not_bound b _ (entries b)); [by destruct b|]. cbn. by rewrite Hsig, Hfake. }
  assert (Hfind : findSignatureEntry (entries b') = Some sig) by (subst b'; unfold findSignatureEntry; cbn [entries List.find]; by rewrite Hsig).
  assert (Hc : b_canonicalization b' = b_canonicalization b) by by subst b'.
  assert (Hm : canonicalModuleHash b' = canonicalModuleHash b) by by subst b'.
  split.
  - unfold verifyModuleArtifact, signature_of. rewrite Hp, Hp', Hb, Hb', Hs, Hfind, Hpl.
    assert (Hd : forall l s k pk ts, verify_digest (R:=R) bytes' (payloadBytes p) b' l s k pk ts = verify_digest (R:=R) bytes (payloadBytes p) b l s k pk ts).
    { intros. unfold verify_digest, parseSingleFileBundle. rewrite Hp, Hp', Hb, Hb', Hpl, Hc, Hm.
      destruct (computeCanonicalModuleHash (payloadBytes p) None); cbn [of_result cbind]; [|done]. destruct (negb _); [done|].
      destruct (text_property _ _); cbn [cbind]; [|done..]. destruct (str_eqb _ _); [|done].
      destruct (listWasmCustomSections _); cbn [rbind of_result cbind]; [|done]. destruct (computeCanonicalModuleHash _ _); cbn [rbind of_result cbind]; [|done].
      cbn [p_bundle p_wasmBytes]. by rewrite Hh. }
    unfold verify_entry.
    repeat first
      [ reflexivity
      | rewrite Hd
      | match goal with
        | |- cbind ?c _ = _ => destruct c; cbn [cbind]
        | |- (if ?c then _ else _) = _ => destruct c
        end ].
  - unfold findModuleBundleEntry. subst b'. cbn [entries List.find]. rewrite Hid, Hfid. done.
Qed.

(** Asking for verification with true, when nothing is configured, is no policy: the module is loaded unverified. *)
Theorem true_is_no_policy : resolveModuleSignaturePolicy VerifyOther (Surroundings None None NoKeys false) = None.
Proof. reflexivity. Qed.

(** A configured signer whose key does not have 64 characters, such as one written with 0x, is dropped without an error, and with it the whole policy. *)
Theorem misspelled_signer_disables_verification : exists key,
  blen key = 64 /\ resolveModuleSignaturePolicy VerifyOther (Surroundings (Some key) None NoKeys false) <> None /\
  resolveModuleSignaturePolicy VerifyOther (Surroundings (Some (lit "0x" ++ key)) None NoKeys false) = None.
Proof. exists (repeat 97 64). split; [reflexivity|]. split; [discriminate|reflexivity]. Qed.

(** ** Examples *)

Definition demo_key : list Z := repeat 5 32.
Definition demo_payload_object (m h : list Z) (algorithm : option string) (domain : option jsstring) : json :=
  JObject ([(lit "algorithm", JString (lit "ed25519")); (lit "keyId", JNull); (lit "publicKeyHex", JString (bytesToHex demo_key));
            (lit "signatureHex", JString (bytesToHex (ed25519Sign m (reverse demo_key)))); (lit "signedHashHex", JString (bytesToHex h))] ++
           match algorithm with Some a => [(lit "signedHashAlgorithm", JString (lit a))] | None => [] end ++
           match domain with Some d => [(lit "statementDomain", JString d)] | None => [] end).
Definition demo_hash : list Z := toy_digest WASM_HEADER.
(** Signed by the node, signed by the SDK, and signed by the node in a domain for something else. *)
Definition node_signed : json :=
  demo_payload_object (text_encode DOMAIN_MODULE_PUBLICATION_V1 ++ [0] ++ demo_hash) demo_hash None (Some DOMAIN_MODULE_PUBLICATION_V1).
Definition sdk_signed : json := demo_payload_object demo_hash demo_hash (Some "sha256-canonical-module-hash"%string) None.
Definition update_signed : json :=
  demo_payload_object (text_encode DOMAIN_UPDATE_MANIFEST_V1 ++ [0] ++ demo_hash) demo_hash None (Some DOMAIN_UPDATE_MANIFEST_V1).
Definition demo_objects : list json := [node_signed; sdk_signed; update_signed].

(** A parser that knows these objects, and a record codec of one byte that names the bundle. *)
#[export] Instance demo_parser : JsonParser := {| JSON_parse := fun t => List.find (fun j => str_eqb (stringify j) t) demo_objects |}.
Definition demo_bundle (j : json) : bundle := data_bundle [data_entry "a" JNull [3]; signature_entry (text_encode (stringify j))].
#[export] Instance demo_codec : RecCodec bundle :=
  {| decodePublicationRecordCollection := fun rc =>
       match rc with
       | [n] => match demo_objects !! Z.to_nat n with Some j => Ok (demo_bundle j) | None => Throw (Error "record") end
       | _ => Throw (Error "record")
       end;
     has_enc := fun _ => false |}.
#[export] Instance demo_has_bundle : HasBundle bundle := {| mbl := Some |}.
Definition demo_artifact (n : Z) : list Z := WASM_HEADER ++ [n] ++ u32_bytes 1 ++ TRAILER_MAGIC_BYTES.
Definition demo_trusted : trusted_keys := KeyList [Some (lit " " ++ bytesToHex demo_key)].

Lemma verified_means_signed_witness : exists v,
  verifyModuleArtifact (R:=bundle) (demo_artifact 0) demo_trusted true = Passed v /\
  exists p l sig key m h, extractPublicationRecordCollection (R:=bundle) (demo_artifact 0) = Some p /\
    describes_signature l sig key JNull (Some DOMAIN_MODULE_PUBLICATION_V1) ModuleScope (bytesToHex demo_hash) /\
    signed_message (R:=bundle) (payloadBytes p) (demo_bundle node_signed) (Some DOMAIN_MODULE_PUBLICATION_V1) ModuleScope m h /\ ed25519Verify m sig key = true.
Proof.
  set (v := Verified JNull (bytesToHex demo_key) (Some DOMAIN_MODULE_PUBLICATION_V1) (bytesToHex demo_hash) (Some (bytesToHex demo_hash)) ModuleScope (bytesToHex demo_hash)).
  assert (H : verifyModuleArtifact (R:=bundle) (demo_artifact 0) demo_trusted true = Passed v) by (vm_compute; reflexivity).
  exists v. split; [exact H|]. destruct (verified_means_signed (R:=bundle) _ _ _ _ _ _ _ _ _ _ H) as (p & b & e & l & sig & key & m & h & Hp & Hb & _ & _ & Hl & _ & _ & _ & _ & _ & _ & Hm & _ & Hv).
  exists p, l, sig, key, m, h. split; [exact Hp|]. split; [exact Hl|]. split; [|exact Hv].
  assert (E : option_map decoded (extractPublicationRecordCollection (R:=bundle) (demo_artifact 0)) = Some (demo_bundle node_signed)) by (vm_compute; reflexivity).
  rewrite Hp in E. injection E as E. injection Hb as <-. rewrite E in Hm. exact Hm.
Defined.

Lemma trust_is_asked_last_witness :
  verifyModuleArtifact (R:=bundle) (demo_artifact 1) NoKeys false = Refused untrusted_signer None /\
  exists pk m sig key v, forall t' require', verifyModuleArtifact (R:=bundle) (demo_artifact 1) t' require' = trust_then (normalizeTrustedPublicKeys t') pk m sig key None v.
Proof.
  assert (H : verifyModuleArtifact (R:=bundle) (demo_artifact 1) NoKeys false = Refused untrusted_signer None) by (vm_compute; reflexivity).
  split; [exact H|]. destruct (trust_is_asked_last (R:=bundle) _ _ _ _ H) as (p & b & pk & sig & key & m & h & scope & v & _ & _ & _ & Ht).
  exists pk, m, sig, key, v. exact Ht.
Defined.

(** A statement signed for an update is refused as what it is, whoever signed it. *)
Example update_statement_refused :
  verifyModuleArtifact (R:=bundle) (demo_artifact 2) demo_trusted true = Refused unsupported_statement_domain (Some DOMAIN_UPDATE_MANIFEST_V1).
Proof. vm_compute. reflexivity. Qed.
