(* ===== verification/BundleCodec.v ===== *)
(** Bundles on their way into an artifact and out of it (src/bundle/codec.js, src/bundle/wasm.js).

    A bundle is written as the table of the generated classes ([moduleBundleTableFromObject]) and read from it ([normalizeDecodedBundle]); a type
    reference is a text in the table, the JSON of an object outside. The generated classes with the record collection around them are the class
    [BundleTables], and their laws [BundleTableLaws]: a collection is read back as it was written. [createSingleFileBundle] is modelled for manifests given as bytes and
    without a deployment plan; numbers in type references are safe integers. *)
From Stdlib Require Import ZArith Lia.
From stdpp Require Import base list strings numbers.
From S2P Require Import Prelude JsText JsMap JsNumber JsJson Canonical PublicationTrailer WasmSections Signatures BundleHash BundleVerify.
Import Hex.
Open Scope Z_scope.

(** ** The numbers of roles and encodings *)

Class BundleEnums := {
  enum_roles :: BundleRoles;
  ROLE_AUTHORIZATION : Z; ROLE_TRANSPORT : Z; ROLE_ATTESTATION : Z;
  RAW_BYTES : Z; FLATBUFFER : Z; JSON_UTF8 : Z; CBOR : Z
}.

(** ** Values given by a caller *)

Inductive raw_enum := EnumAbsent | EnumNumber (z : Z) | EnumText (s : jsstring).
Inductive raw_type := TypeAbsent | TypeText (s : jsstring) | TypeBytes (b : list Z) | TypeValue (v : value).
Inductive raw_payload := PayloadBytes (b : list Z) | PayloadValue (v : value).
(** An entry that is to be added; [r_entryId] is [None] when the property is not there, and [Some None] when it is null or undefined. *)
Record raw_entry := RawEntry {
  r_entryId : option (option jsstring); r_role : raw_enum; r_sectionName : option jsstring; r_typeRef : raw_type; r_payloadEncoding : raw_enum;
  r_mediaType : option jsstring; r_flags : Z; r_payload : raw_payload; r_description : option jsstring
}.

(** The tables of the generated classes. *)
Record entry_table := EntryTable {
  t_entryId : option jsstring; t_role : Z; t_sectionName : option jsstring; t_typeRef : option jsstring; t_payloadEncoding : Z; t_mediaType : option jsstring;
  t_flags : Z; t_sha256 : list Z; t_payload : list Z; t_description : option jsstring
}.
Record bundle_table := BundleTable {
  t_bundleVersion : Z; t_moduleFormat : option jsstring; t_canonicalization : option canonicalization; t_canonicalModuleHash : list Z; t_manifestHash : list Z;
  t_manifestExportSymbol : option jsstring; t_manifestSizeSymbol : option jsstring; t_entries : list entry_table
}.

(** Reading the table of a record collection, and writing a collection with a bundle, in which the version and the other records are those of a
    collection that was read. *)
Class BundleTables (R : Type) := {
  collection_table : R -> option bundle_table;
  encodePublicationRecordCollection : option R -> bundle_table -> list Z;
  PLG_bufferHasIdentifier : list Z -> bool
}.

Definition SDS_MBL_CONTAINER_NAME : jsstring := lit "rec.mbl".
Definition DEFAULT_MODULE_FORMAT : jsstring := lit "space-data-module".
Definition DEFAULT_HASH_ALGORITHM : jsstring := lit "sha256".
Definition DEFAULT_MANIFEST_EXPORT_SYMBOL : jsstring := lit "plugin_get_manifest_flatbuffer".
Definition DEFAULT_MANIFEST_SIZE_SYMBOL : jsstring := lit "plugin_get_manifest_flatbuffer_size".
Definition SDS_MANIFEST_SECTION_NAME : jsstring := lit "sds.manifest".

(** [normalizeString(value, fallback)] *)
Definition normalizeString (value fallback : option jsstring) : option jsstring := match value with Some s => Some s | None => fallback end.
Definition dashed (s : jsstring) : jsstring := map (fun c => if c =? 95 then 45 else c) (toLowerCase (trim s)).

Section codec.
Context {C : Crypto} {BE : BundleEnums} {JP : JsonParser} (localeCompare : jsstring -> jsstring -> Z).

Definition ROLE_NAME_TO_ENUM : list (jsstring * Z) :=
  [(lit "manifest", ROLE_MANIFEST); (lit "authorization", ROLE_AUTHORIZATION); (lit "signature", ROLE_SIGNATURE); (lit "transport", ROLE_TRANSPORT);
   (lit "attestation", ROLE_ATTESTATION); (lit "auxiliary", ROLE_AUXILIARY)].
Definition ENCODING_NAME_TO_ENUM : list (jsstring * Z) :=
  [(lit "raw-bytes", RAW_BYTES); (lit "flatbuffer", FLATBUFFER); (lit "json-utf8", JSON_UTF8); (lit "cbor", CBOR)].
Definition enum_of (names : list (jsstring * Z)) (name : jsstring) : option Z := option_map snd (List.find (fun e => str_eqb e.1 name) names).
Definition name_of (names : list (jsstring * Z)) (value : Z) : option jsstring := option_map fst (List.find (fun e => e.2 =? value) names).

Definition normalizeRole (value : raw_enum) : Z :=
  match value with
  | EnumNumber z => z
  | EnumText s => default ROLE_AUXILIARY (enum_of ROLE_NAME_TO_ENUM (dashed s))
  | EnumAbsent => ROLE_AUXILIARY
  end.
Definition normalizePayloadEncoding (value : raw_enum) : Z :=
  match value with
  | EnumNumber z => z
  | EnumText s => default RAW_BYTES (enum_of ENCODING_NAME_TO_ENUM (dashed s))
  | EnumAbsent => RAW_BYTES
  end.
Definition moduleBundleRoleToName (value : Z) : jsstring := default (lit "auxiliary") (name_of ROLE_NAME_TO_ENUM value).
Definition moduleBundleEncodingToName (value : Z) : jsstring := default (lit "raw-bytes") (name_of ENCODING_NAME_TO_ENUM value).

(** ** Type references *)

Definition stringifyTypeRef (t : raw_type) : result (option jsstring) :=
  match t with
  | TypeAbsent => Ok None
  | TypeText s => Ok (Some s)
  | TypeBytes b => Ok (Some (text_decode b))
  | TypeValue v => let! b := canonicalBytes localeCompare v in Ok (Some (text_decode b))
  end.

Definition wire_format (v : json) : result jsstring :=
  match v with
  | JNumber 1 => Ok (lit "aligned-binary")
  | _ => let! s := text_of v in Ok (if str_eqb (dashed s) (lit "aligned-binary") then lit "aligned-binary" else lit "flatbuffer")
  end.
(** [Number(v ?? 0)], brought to an integer that is not negative; anything that is not finite becomes 0. *)
Definition unsigned_integer (v : json) : result Z :=
  let trunc (n : jsnum) : Z := match n with Fin q => Z.max 0 (q_trunc q) | _ => 0 end in
  match v with
  | JNull => Ok 0
  | JBool b => Ok (if b then 1 else 0)
  | JNumber z => Ok (Z.max 0 z)
  | _ => let! s := String_ v in Ok (trunc (to_number s))
  end.

(** [{...l, key: v}] for one property. *)
Definition put_property (l : list (jsstring * json)) (key : string) (v : json) : list (jsstring * json) :=
  if existsb (fun e => str_eqb e.1 (lit key)) l then map (fun e => if str_eqb e.1 (lit key) then (e.1, v) else e) l else l ++ [(lit key, v)].
(** The own properties of an array are its elements by their index. *)
Definition own_properties (v : json) : option (list (jsstring * json)) :=
  match v with
  | JObject l => Some l
  | JArray l => Some (zip_with (fun i x => (int_text (Z.of_nat i), x)) (seq 0 (length l)) l)
  | _ => None
  end.
Definition parsed_type (l : list (jsstring * json)) : result json :=
  let! wireFormat := wire_format (property l "wireFormat") in
  let! fixedStringLength := unsigned_integer (property l "fixedStringLength") in
  let! byteLength := unsigned_integer (property l "byteLength") in
  let! requiredAlignment := unsigned_integer (property l "requiredAlignment") in
  Ok (JObject (put_property (put_property (put_property (put_property l "wireFormat" (JString wireFormat)) "fixedStringLength" (JNumber fixedStringLength))
        "byteLength" (JNumber byteLength)) "requiredAlignment" (JNumber requiredAlignment))).
(** A text that is not the JSON of an object, or whose properties can not be read, stays a text. *)
Definition parseTypeRef (t : option jsstring) : json :=
  match t with
  | None | Some [] => JNull
  | Some s =>
      match JSON_parse s with
      | Some v => match own_properties v with
                  | Some l => match parsed_type l with Ok j => j | Throw _ => JString s end
                  | None => JString s
                  end
      | None => JString s
      end
  end.

(** ** Into the table and out of it *)

(** An entry whose payload is bytes and has been hashed. *)
Record hashed_entry := HashedEntry {
  h_entryId : option jsstring; h_role : raw_enum; h_sectionName : option jsstring; h_typeRef : raw_type; h_payloadEncoding : raw_enum;
  h_mediaType : option jsstring; h_flags : Z; h_sha256 : list Z; h_payload : list Z; h_description : option jsstring
}.
Definition normalizeEntry (e : hashed_entry) : result entry_table :=
  let! typeRef := stringifyTypeRef (h_typeRef e) in
  Ok (EntryTable (h_entryId e) (normalizeRole (h_role e)) (h_sectionName e) typeRef (normalizePayloadEncoding (h_payloadEncoding e)) (h_mediaType e) (h_flags e)
        (h_sha256 e) (h_payload e) (h_description e)).

Record bundle_object := BundleObject {
  o_bundleVersion : Z; o_moduleFormat : option jsstring; o_canonicalization : canonicalization; o_canonicalModuleHash : list Z; o_manifestHash : list Z;
  o_manifestExportSymbol : option jsstring; o_manifestSizeSymbol : option jsstring; o_entries : list hashed_entry
}.
Definition normalizeCanonicalization (c : canonicalization) : canonicalization :=
  Canonicalization (c_version c) (normalizeString (strippedCustomSectionPrefix c) (Some SDS_CUSTOM_SECTION_PREFIX))
    (normalizeString (bundleSectionName c) (Some SDS_MBL_CONTAINER_NAME)) (normalizeString (hashAlgorithm c) (Some DEFAULT_HASH_ALGORITHM)).
Definition moduleBundleTableFromObject (o : bundle_object) : result bundle_table :=
  let! es := all_ok normalizeEntry (o_entries o) in
  Ok (BundleTable (o_bundleVersion o) (normalizeString (o_moduleFormat o) (Some DEFAULT_MODULE_FORMAT)) (Some (normalizeCanonicalization (o_canonicalization o)))
        (o_canonicalModuleHash o) (o_manifestHash o) (normalizeString (o_manifestExportSymbol o) (Some DEFAULT_MANIFEST_EXPORT_SYMBOL))
        (normalizeString (o_manifestSizeSymbol o) (Some DEFAULT_MANIFEST_SIZE_SYMBOL)) es).

Definition normalizeDecodedEntry (e : entry_table) : bundle_entry :=
  BundleEntry (t_entryId e) (t_role e) (t_sectionName e) (parseTypeRef (t_typeRef e)) (t_payloadEncoding e) (t_mediaType e) (t_flags e) (t_sha256 e) (t_payload e)
    (t_description e).
Definition normalizeDecodedBundle (t : bundle_table) : bundle :=
  Bundle (t_bundleVersion t) (normalizeString (t_moduleFormat t) (Some DEFAULT_MODULE_FORMAT)) (option_map normalizeCanonicalization (t_canonicalization t))
    (t_canonicalModuleHash t) (t_manifestHash t) (normalizeString (t_manifestExportSymbol t) (Some DEFAULT_MANIFEST_EXPORT_SYMBOL))
    (normalizeString (t_manifestSizeSymbol t) (Some DEFAULT_MANIFEST_SIZE_SYMBOL)) (map normalizeDecodedEntry (t_entries t)).
End codec.

#[export] Instance table_bundle {JP : JsonParser} {R : Type} {BT : BundleTables R} : HasBundle R :=
  {| mbl := fun r => option_map normalizeDecodedBundle (collection_table r) |}.

(** What is written is read again, for tables that the format can hold. *)
Class BundleTableLaws (R : Type) {RC : RecCodec R} {BT : BundleTables R} := {
  table_fits : bundle_table -> Prop;
  collection_roundtrip r t : table_fits t ->
    blen (encodePublicationRecordCollection r t) < 2 ^ 32 /\
    exists r', decodePublicationRecordCollection (encodePublicationRecordCollection r t) = Ok r' /\ collection_table r' = Some t
}.

(** ** A single-file bundle *)

(** An option that is written as JSON. *)
Inductive json_input := InUndefined | InNull | InBytes (b : list Z) | InText (s : jsstring) | InValue (v : value).
Record bundle_options := BundleOptions {
  wasmBytes : list Z; manifestBytes : option (list Z); authorization : json_input; signature : json_input; transportEnvelope : json_input;
  additional : list raw_entry; opt_customSectionPrefix : option jsstring; opt_bundleSectionName : option jsstring; opt_bundleVersion : option Z; opt_moduleFormat : option jsstring;
  opt_manifestExportSymbol : option jsstring; opt_manifestSizeSymbol : option jsstring
}.

Section create.
Context {C : Crypto} {BE : BundleEnums} {JP : JsonParser} {R : Type} {RC : RecCodec R} {BT : BundleTables R} (localeCompare : jsstring -> jsstring -> Z).

Definition normalizeJsonPayload (v : json_input) : result (option (list Z)) :=
  match v with
  | InUndefined | InNull => Ok None
  | InBytes b => Ok (Some b)
  | InText s => Ok (Some (text_encode s))
  | InValue v => let! b := canonicalBytes localeCompare v in Ok (Some b)
  end.

Definition isPlgManifestBuffer (b : list Z) : bool := negb (blen b <? 8) && PLG_bufferHasIdentifier b.
Definition normalizeManifestEntry (manifestBytes : option (list Z)) : list raw_entry :=
  match manifestBytes with
  | None => []
  | Some payload =>
      let ref (schema file : string) := TypeValue (VObject [(lit "schemaName", VString (lit schema)); (lit "fileIdentifier", VString (lit file))]) in
      [RawEntry (Some (Some (lit "manifest"))) (EnumText (lit "manifest")) (Some SDS_MANIFEST_SECTION_NAME)
         (if isPlgManifestBuffer payload then ref "PLG.fbs"%string "$PLG"%string else ref "PluginManifest.fbs"%string "PMAN"%string)
         (EnumText (lit "flatbuffer")) None 0 (PayloadBytes payload) (Some (lit "Canonical plugin manifest."))]
  end.

Definition standard_entry (name section description : string) (payload : json_input) : result (list raw_entry) :=
  let! p := normalizeJsonPayload payload in
  Ok (match p with
      | Some b => [RawEntry (Some (Some (lit name))) (EnumText (lit name)) (Some (lit section)) TypeAbsent (EnumText (lit "json-utf8")) (Some (lit "application/json")) 0
                     (PayloadBytes b) (Some (lit description))]
      | None => []
      end).
Definition normalizeStandardEntries (o : bundle_options) : result (list raw_entry) :=
  let! a := standard_entry "authorization" "sds.authorization" "Deployment authorization envelope." (authorization o) in
  let! s := standard_entry "signature" "sds.signature" "Detached signature payload." (signature o) in
  let! t := standard_entry "transport" "sds.transport" "Transport envelope metadata." (transportEnvelope o) in
  Ok (a ++ s ++ t).

(** [{entryId: entry.entryId ?? "entry-N", ...entry}]: the default holds only when the entry has no such property. *)
Definition normalizeAdditionalEntries (es : list raw_entry) : list raw_entry :=
  zip_with (fun i e =>
    match r_entryId e with
    | None => RawEntry (Some (Some (lit "entry-" ++ int_text (Z.of_nat i + 1)))) (r_role e) (r_sectionName e) (r_typeRef e) (r_payloadEncoding e) (r_mediaType e) (r_flags e)
                (r_payload e) (r_description e)
    | Some _ => e
    end) (seq 0 (length es)) es.

Definition withSha256 (e : raw_entry) : result hashed_entry :=
  let json_encoded := match r_payloadEncoding e with
                      | EnumText s => str_eqb s (lit "json-utf8")
                      | EnumNumber z => str_eqb (moduleBundleEncodingToName z) (lit "json-utf8")
                      | EnumAbsent => false
                      end in
  let! payloadBytes := match r_payload e with
                       | PayloadBytes b => Ok b
                       | PayloadValue v =>
                           if json_encoded then canonicalBytes localeCompare v
                           else Throw (TypeError "entry payload must be a Uint8Array, ArrayBufferView, or ArrayBuffer.")
                       end in
  Ok (HashedEntry (default None (r_entryId e)) (r_role e) (r_sectionName e) (r_typeRef e) (r_payloadEncoding e) (r_mediaType e) (r_flags e) (sha256Bytes payloadBytes)
        payloadBytes (r_description e)).

(** The bundle, the hash of the canonical module and the bytes of the artifact. *)
Definition createSingleFileBundle (o : bundle_options) : result (bundle_object * list Z * list Z) :=
  let protectedArtifact := extractPublicationRecordCollection (R:=R) (wasmBytes o) in
  let wasm := match protectedArtifact with Some p => payloadBytes p | None => wasmBytes o end in
  let! standard := normalizeStandardEntries o in
  let! es := all_ok withSha256 (normalizeManifestEntry (manifestBytes o) ++ standard ++ normalizeAdditionalEntries (additional o)) in
  let prefix := default SDS_CUSTOM_SECTION_PREFIX (opt_customSectionPrefix o) in
  let canonicalization := Canonicalization 1 (Some prefix) (Some (default SDS_MBL_CONTAINER_NAME (opt_bundleSectionName o))) (Some (lit "sha256")) in
  let! canonical := computeCanonicalModuleHash (R:=R) wasm (Some prefix) in
  let manifestHash := match manifestBytes o with Some b => sha256Bytes b | None => [] end in
  let b := BundleObject (default 1 (opt_bundleVersion o)) (Some (default (lit "space-data-module") (opt_moduleFormat o))) canonicalization canonical manifestHash
             (Some (default DEFAULT_MANIFEST_EXPORT_SYMBOL (opt_manifestExportSymbol o))) (Some (default DEFAULT_MANIFEST_SIZE_SYMBOL (opt_manifestSizeSymbol o))) es in
  let! table := moduleBundleTableFromObject localeCompare b in
  let! baseWasmBytes := stripWasmCustomSections (R:=R) wasm (fun section => startsWith (name section) prefix) in
  let! out := appendPublicationRecordCollection baseWasmBytes (encodePublicationRecordCollection (option_map decoded protectedArtifact) table) in
  Ok (b, canonical, out).
End create.

(** The default id of an entry is written before the properties of the entry: an id that is null, as decoding leaves it when there is none, stays null. *)
Theorem null_id_gets_no_default e : r_entryId e = Some None -> normalizeAdditionalEntries [e] = [e].
Proof. intros H. unfold normalizeAdditionalEntries. cbn. by rewrite H. Qed.
