(* ===== verification/BundleSign.v ===== *)
(** Signing a module artifact (src/bundle/signing.js), and that what has been signed is verified.

    The artifact is read, its manifest and its other entries are kept, a previous signature is replaced, and the result is written again by
    [createSingleFileBundle]. *)
From Stdlib Require Import ZArith Lia.
From stdpp Require Import base list strings numbers.
From S2P Require Import Prelude JsText JsMap JsNumber JsJson Canonical PublicationTrailer WasmSections Signatures BundleHash BundleVerify BundleCodec.
Import Hex SigDomain.
Open Scope Z_scope.

(** What the signature functions promise. *)
Class CryptoLaws {C : Crypto} := {
  sha_length x : blen (sha256Bytes x) = 32;
  sha_bytes x : bytes_ok (sha256Bytes x);
  key_length seed : blen seed = 32 -> blen (ed25519PublicKey seed) = 32;
  key_bytes seed : bytes_ok seed -> bytes_ok (ed25519PublicKey seed);
  signature_length m seed : blen seed = 32 -> blen (ed25519Sign m seed) = 64;
  signature_bytes m seed : bytes_ok seed -> bytes_ok (ed25519Sign m seed);
  signature_nonzero m seed : blen seed = 32 -> forallb (fun byte => byte =? 0) (ed25519Sign m seed) = false;
  signature_verifies m seed : blen seed = 32 -> ed25519Verify m (ed25519Sign m seed) (ed25519PublicKey seed) = true
}.

Record sign_options := SignOptions { privateKeySeedHex : option jsstring; opt_keyId : option jsstring; opt_signatureScope : option jsstring }.

Fixpoint value_of_json (j : json) : value :=
  match j with
  | JNull => VNull | JBool b => VBool b | JNumber z => VNumber (Some z) | JString s => VString s
  | JArray l => VArray (map value_of_json l)
  | JObject l => VObject (map (fun e => (e.1, value_of_json e.2)) l)
  end.
(** [{...entry, payload: new Uint8Array(entry.payload)}] *)
Definition kept_entry (e : bundle_entry) : raw_entry :=
  RawEntry (Some (entryId e)) (EnumNumber (role e)) (sectionName e)
    (match typeRef e with JNull => TypeAbsent | JString s => TypeText s | j => TypeValue (value_of_json j) end)
    (EnumNumber (payloadEncoding e)) (mediaType e) (flags e) (PayloadBytes (payload e)) (description e).

Section sign.
Context {C : Crypto} {BE : BundleEnums} {JP : JsonParser} {R : Type} {RC : RecCodec R} {BT : BundleTables R} (localeCompare : jsstring -> jsstring -> Z).

(** The manifest and the entries of an artifact that are kept; the last entry that is a manifest counts. *)
Definition preserved (bytes : list Z) : checked (option (list Z) * list raw_entry) :=
  match extractPublicationRecordCollection (R:=R) bytes with
  | Some p =>
      match mbl (decoded p) with
      | Some _ =>
          let? parsed := of_result (parseSingleFileBundle (R:=R) bytes) in
          let unsigned := List.filter (fun e => negb (is_signature e)) (entries (p_bundle parsed)) in
          Passed (list.last (map payload (List.filter is_manifest unsigned)), map kept_entry (List.filter (fun e => negb (is_manifest e)) unsigned))
      | None => Passed (None, [])
      end
  | None => Passed (None, [])
  end.

Definition signature_value (keyId : option jsstring) (publicKey signatureBytes signedHash : list Z) (algorithm : jsstring) : value :=
  VObject [(lit "algorithm", VString MODULE_SIGNATURE_ALGORITHM); (lit "keyId", match keyId with Some s => VString s | None => VNull end);
           (lit "publicKeyHex", VString (bytesToHex publicKey)); (lit "signatureHex", VString (bytesToHex signatureBytes));
           (lit "signedHashHex", VString (bytesToHex signedHash)); (lit "signedHashAlgorithm", VString algorithm)].

Definition plain_options (bytes : list Z) (manifest : option (list Z)) (signature : json_input) (es : list raw_entry) : bundle_options :=
  BundleOptions bytes manifest InUndefined signature InUndefined es None None None None None None.

(** The digest that is signed, and the name of its algorithm. *)
Definition signing_digest (bytes : list Z) (manifest : option (list Z)) (es : list raw_entry) (canonical : list Z) (scope : option jsstring) : checked (list Z * jsstring) :=
  if bool_decide (scope = Some (lit "bundle")) then
    let? (_, _, unsigned) := of_result (createSingleFileBundle (R:=R) localeCompare (plain_options bytes manifest InUndefined es)) in
    let? parsed := of_result (parseSingleFileBundle (R:=R) unsigned) in
    let? (_, hash) := computeModuleBundleSignatureHash (R:=R) (p_bundle parsed) (Some (p_wasmBytes parsed)) in
    Passed (hash, BUNDLE_SIGNATURE_HASH_ALGORITHM)
  else
    refuse_if negb (bool_decide (scope = None)) && negb (bool_decide (scope = Some (lit "module"))) with invalid_signature_scope;
    Passed (canonical, LEGACY_MODULE_SIGNATURE_HASH_ALGORITHM).

Record signed_artifact := SignedArtifact { s_wasmBytes : list Z; s_signature : value; s_canonicalModuleHashHex : jsstring; s_signedHashHex : jsstring }.
(** The seed, the hash of the canonical module, the manifest and the entries that are kept. *)
Definition sign_inputs (bytes : list Z) (o : sign_options) : checked (list Z * list Z * option (list Z) * list raw_entry) :=
  let? seed := signatureHexToBytes (default [] (privateKeySeedHex o)) in
  refuse_if negb (blen seed =? 32) with invalid_seed;
  let payloadBytes := match extractPublicationRecordCollection (R:=R) bytes with Some p => payloadBytes p | None => bytes end in
  let? canonical := of_result (computeCanonicalModuleHash (R:=R) payloadBytes None) in
  let? (manifest, es) := preserved bytes in
  match manifest with
  | Some m => Passed (seed, canonical, Some m, es)
  | None => let? sections := of_result (getWasmCustomSections (R:=R) payloadBytes SDS_MANIFEST_SECTION_NAME) in Passed (seed, canonical, head sections, es)
  end.
Definition signModuleArtifact (bytes : list Z) (o : sign_options) : checked signed_artifact :=
  let? (seed, canonical, manifest, es) := sign_inputs bytes o in
  let? (hash, algorithm) := signing_digest bytes manifest es canonical (opt_signatureScope o) in
  let signature := signature_value (opt_keyId o) (ed25519PublicKey seed) (ed25519Sign hash seed) hash algorithm in
  let? (_, rebuilt, out) := of_result (createSingleFileBundle (R:=R) localeCompare (plain_options bytes manifest (InValue signature) es)) in
  Passed (SignedArtifact out signature (bytesToHex rebuilt) (bytesToHex hash)).
End sign.

(** ** What is written *)

Section written.
Context {C : Crypto} {BE : BundleEnums} {JP : JsonParser} {R : Type} {RC : RecCodec R} {BT : BundleTables R} (localeCompare : jsstring -> jsstring -> Z).
Notation create := (createSingleFileBundle (R:=R) localeCompare).
Notation canonicalBytes_of w := (canonicalWasmBytes (R:=R) w SDS_CUSTOM_SECTION_PREFIX).

Lemma all_ok_app {A B : Type} (f : A -> result B) l m r :
  all_ok f (l ++ m) = Ok r -> exists a b, all_ok f l = Ok a /\ all_ok f m = Ok b /\ r = a ++ b.
Proof.
  revert r. induction l as [|x l IH]; intros r H; cbn in H.
  - by exists [], r.
  - apply rbind_Ok in H as (y & Hy & H). apply rbind_Ok in H as (r' & Hr & [= <-]).
    destruct (IH _ Hr) as (a & b & Ha & Hb & ->). exists (y :: a), b. cbn. by rewrite Hy, Ha.
Qed.

(** The bundle that readers of a created artifact see. *)
Definition bundle_of (base_hash : list Z) (manifest : option (list Z)) (es : list bundle_entry) : bundle :=
  Bundle 1 (Some DEFAULT_MODULE_FORMAT)
    (Some (Canonicalization 1 (Some SDS_CUSTOM_SECTION_PREFIX) (Some SDS_MBL_CONTAINER_NAME) (Some DEFAULT_HASH_ALGORITHM)))
    base_hash (match manifest with Some b => sha256Bytes b | None => [] end) (Some DEFAULT_MANIFEST_EXPORT_SYMBOL) (Some DEFAULT_MANIFEST_SIZE_SYMBOL) es.

(** How a raw entry is read again. *)
Definition read_again (e : raw_entry) (d : bundle_entry) : Prop :=
  exists h t, withSha256 localeCompare e = Ok h /\ normalizeEntry localeCompare h = Ok t /\ d = normalizeDecodedEntry t.

Lemma all_ok_read es hs ts :
  all_ok (withSha256 localeCompare) es = Ok hs -> all_ok (normalizeEntry localeCompare) hs = Ok ts -> Forall2 read_again es (map normalizeDecodedEntry ts).
Proof.
  revert hs ts. induction es as [|e es IH]; intros hs ts H1 H2; cbn in H1.
  - injection H1 as <-. injection H2 as <-. constructor.
  - apply rbind_Ok in H1 as (h & Hh & H1). apply rbind_Ok in H1 as (hs' & Hhs & [= <-]).
    apply rbind_Ok in H2 as (t & Ht & H2). apply rbind_Ok in H2 as (ts' & Hts & [= <-]). constructor; [by exists h, t|by eapply IH].
Qed.

(** A table that was written, and whether the format could hold it. *)
Definition written_fits {BTL : BundleTableLaws R} (o : bundle_options) : Prop :=
  forall b c out t, create o = Ok (b, c, out) -> moduleBundleTableFromObject localeCompare b = Ok t -> table_fits t.

Lemma standard_read (signature : json_input) std w manifest es :
  normalizeStandardEntries localeCompare (plain_options w manifest signature es) = Ok std ->
  exists sig, normalizeJsonPayload localeCompare signature = Ok sig /\
    std = match sig with Some b => [RawEntry (Some (Some (lit "signature"))) (EnumText (lit "signature")) (Some (lit "sds.signature")) TypeAbsent
            (EnumText (lit "json-utf8")) (Some (lit "application/json")) 0 (PayloadBytes b) (Some (lit "Detached signature payload."))] | None => [] end.
Proof.
  unfold normalizeStandardEntries, standard_entry. cbn [authorization BundleCodec.signature transportEnvelope plain_options]. cbn [normalizeJsonPayload rbind].
  intros H. apply rbind_Ok in H as (s & Hs & [= <-]). apply rbind_Ok in Hs as (sig & Hsig & [= <-]). exists sig. split; [done|]. by rewrite app_nil_r.
Qed.

Lemma created_is_read {BTL : BundleTableLaws R} w manifest signature es b canonical out base :
  let wasm := match extractPublicationRecordCollection (R:=R) w with Some p => payloadBytes p | None => w end in
  let o := plain_options w manifest signature es in
  extractPublicationRecordCollection (R:=R) wasm = None -> canonicalBytes_of wasm = Ok base -> written_fits o -> create o = Ok (b, canonical, out) ->
  exists p sig ms ss ds, normalizeJsonPayload localeCompare signature = Ok sig /\
    extractPublicationRecordCollection (R:=R) out = Some p /\ payloadBytes p = base /\ canonical = sha256Bytes base /\
    mbl (decoded p) = Some (bundle_of (sha256Bytes base) manifest (ms ++ ss ++ ds)) /\
    Forall2 read_again (normalizeManifestEntry manifest) ms /\
    Forall2 read_again (match sig with Some b => [RawEntry (Some (Some (lit "signature"))) (EnumText (lit "signature")) (Some (lit "sds.signature")) TypeAbsent
                          (EnumText (lit "json-utf8")) (Some (lit "application/json")) 0 (PayloadBytes b) (Some (lit "Detached signature payload."))] | None => [] end) ss /\
    Forall2 read_again (normalizeAdditionalEntries es) ds.
Proof.
  intros wasm o Hx Hbase Hfit Hc. pose proof (Hfit b canonical out) as Ht. specialize (Ht) with (1 := Hc).
  unfold createSingleFileBundle in Hc. change (wasmBytes o) with w in Hc. fold wasm in Hc. cbn [manifestBytes o plain_options] in Hc.
  apply rbind_Ok in Hc as (std & Hstd & Hc). apply rbind_Ok in Hc as (hs & Hhs & Hc). apply rbind_Ok in Hc as (can & Hcan & Hc).
  apply rbind_Ok in Hc as (t & Htab & Hc). apply rbind_Ok in Hc as (base' & Hbase' & Hc). apply rbind_Ok in Hc as (out' & Hout & [= <- <- <-]).
  specialize (Ht t Htab). apply standard_read in Hstd as (sig & Hsig & ->).
  apply all_ok_app in Hhs as (hm & hr & Hm & Hr & ->). apply all_ok_app in Hr as (hsg & ha & Hsg & Ha & ->).
  apply rbind_Ok in Htab as (ts & Hts & Htab). cbn [o_entries] in Hts. injection Htab as <-.
  apply all_ok_app in Hts as (tm & tr & Htm & Htr & ->). apply all_ok_app in Htr as (tsg & ta & Htsg & Hta & ->).
  assert (base' = base) as ->.
  { unfold canonicalWasmBytes, stripPublicationRecordCollection in Hbase. rewrite Hx in Hbase. cbn [opt_customSectionPrefix o plain_options] in Hbase'. cbn [default] in Hbase'. congruence. }
  assert (can = sha256Bytes base) as ->.
  { unfold computeCanonicalModuleHash in Hcan.
    change (default SDS_CUSTOM_SECTION_PREFIX (Some (default SDS_CUSTOM_SECTION_PREFIX (opt_customSectionPrefix o)))) with SDS_CUSTOM_SECTION_PREFIX in Hcan.
    rewrite Hbase in Hcan. by injection Hcan. }
  destruct (collection_roundtrip (option_map decoded (extractPublicationRecordCollection (R:=R) w)) _ Ht) as (Hl & r' & Hd & Hct).
  destruct (extract_append base _ r' Hl Hd) as [Happ Hext]. rewrite Happ in Hout. injection Hout as <-.
  eexists. exists sig, (map normalizeDecodedEntry tm), (map normalizeDecodedEntry tsg), (map normalizeDecodedEntry ta).
  split; [done|]. split; [exact Hext|]. split; [done|]. split; [done|]. split.
  - cbn [mbl table_bundle decoded]. rewrite Hct. cbn [option_map]. unfold normalizeDecodedBundle, bundle_of. cbn. by rewrite !map_app.
  - split_and!; by eapply all_ok_read.
Qed.
End written.

(** ** The signature object *)

Definition signature_fields (keyId : option jsstring) (publicKey signatureBytes signedHash : list Z) (algorithm : jsstring) : list (jsstring * json) :=
  [(lit "algorithm", JString MODULE_SIGNATURE_ALGORITHM); (lit "keyId", nullable keyId); (lit "publicKeyHex", JString (bytesToHex publicKey));
   (lit "signatureHex", JString (bytesToHex signatureBytes)); (lit "signedHashHex", JString (bytesToHex signedHash)); (lit "signedHashAlgorithm", JString algorithm)].

Lemma lit_unitsb s : unitsb (lit s) = true.
Proof. apply forallb_of_Forall. eapply Forall_impl; [|apply lit_units]. intros c. unfold is_unit. lia. Qed.

Lemma signature_normal localeCompare keyId pk sig h alg :
  text_ok keyId = true -> bytes_ok pk -> bytes_ok sig -> bytes_ok h -> unitsb alg = true ->
  exists items, normalizeCanonicalValue localeCompare (signature_value keyId pk sig h alg) = Ok (Some (JObject items)) /\
    Permutation items (signature_fields keyId pk sig h alg) /\ units_ok (JObject items) = true.
Proof.
  intros Hk Hpk Hsig Hh Ha. unfold signature_value.
  match goal with |- context [VObject ?l] => destruct (object_normal localeCompare l) as (items & E & Hp & Hu) end.
  { repeat apply List.Forall_cons; [..|apply List.Forall_nil]; apply good_entry_of; try apply lit_unitsb.
    all: try (eexists; split; [reflexivity|]; first [apply hex_units; done | exact Ha | apply lit_unitsb]).
    destruct keyId; (eexists; split; [reflexivity|done]). }
  exists (fromEntries items). split; [exact E|]. split; [|cbn; apply forallb_of_Forall; by rewrite fromEntries_perm].
  rewrite fromEntries_perm.
  set (back := fun e : jsstring * result (option json) => (e.1, match e.2 with Ok (Some j) => j | _ => JNull end)).
  assert (Hb : forall l, map back (map finished l) = l) by (induction l as [|[] l IH]; cbn; [done|by rewrite IH]).
  apply (Permutation_map back) in Hp. rewrite Hb in Hp. rewrite Hp. destruct keyId; reflexivity.
Qed.

Lemma property_perm l l' key : NoDup (keys_of l') -> Permutation l l' -> property l key = property l' key.
Proof.
  intros Hnd Hp. unfold property.
  destruct (List.find _ l) as [e|] eqn:E; destruct (List.find _ l') as [e'|] eqn:E'; [|..|done].
  - apply List.find_some in E as [Hin E], E' as [Hin' E']. apply str_eqb_eq in E, E'. f_equal.
    apply (key_determines l'); [done| | |congruence]; [rewrite <- Hp|]; by apply list_elem_of_In.
  - exfalso. apply List.find_some in E as [Hin E]. apply list_elem_of_In in Hin. rewrite Hp in Hin. apply list_elem_of_In in Hin.
    apply (List.find_none _ _ E') in Hin. congruence.
  - exfalso. apply List.find_some in E' as [Hin E']. apply list_elem_of_In in Hin. rewrite <- Hp in Hin. apply list_elem_of_In in Hin.
    apply (List.find_none _ _ E) in Hin. congruence.
Qed.

Lemma hex_forallb b : bytes_ok b -> forallb is_hex_char (bytesToHex b) = true.
Proof. intros Hb. rewrite forallb_forall. apply List.Forall_forall. by apply bytesToHex_chars. Qed.

Lemma hex_normal b : bytes_ok b -> toLowerCase (trim (bytesToHex b)) = bytesToHex b.
Proof. intros Hb. rewrite trim_hex by by apply bytesToHex_chars. by apply lower_hex, hex_forallb. Qed.

Lemma hex_seed t b : signatureHexToBytes t = Passed b -> bytes_ok b.
Proof.
  unfold signatureHexToBytes. intros H. passed_inv H. injection H as <-. clear E. set (s := toLowerCase (trim t)).
  enough (Hn : forall n s, (length s <= n)%nat -> bytes_ok (hex_pairs s)) by eauto. clear. intros n.
  induction n as [|n IH]; intros [|x [|y s]] Hn; cbn in *; try constructor; try lia.
  - unfold stored_byte, is_byte. apply Z.mod_pos_bound. lia.
  - apply IH. lia.
Qed.

Lemma additional_kept l : normalizeAdditionalEntries (map kept_entry l) = map kept_entry l.
Proof.
  unfold normalizeAdditionalEntries. generalize 0%nat. induction l as [|e l IH]; intros n; cbn; [done|]. by rewrite IH.
Qed.

Section signed_then_verified.
Context {C : Crypto} {CL : CryptoLaws} {BE : BundleEnums} {JP : JsonParser} {R : Type} {RC : RecCodec R} {BT : BundleTables R} {BTL : BundleTableLaws R}.
Context (localeCompare : jsstring -> jsstring -> Z).

(** The entry of a signature leads to the check of its digest. *)
Lemma verify_signature_entry bytes portable b e items keyId pk sig h alg :
  payload e = text_encode (stringify (JObject items)) -> JSON_parse (stringify (JObject items)) = Some (JObject items) -> units_ok (JObject items) = true ->
  Permutation items (signature_fields keyId pk sig h alg) -> bytes_ok pk -> bytes_ok sig -> blen pk = 32 -> blen sig = 64 ->
  forallb (fun byte => byte =? 0) sig = false ->
  verify_entry (R:=R) bytes portable b e (KeyList [Some (bytesToHex pk)]) = verify_digest (R:=R) bytes portable b items sig pk (bytesToHex pk) [bytesToHex pk].
Proof.
  intros He Hj Hu Hperm Hpk Hsig Hlpk Hlsig Hnz.
  assert (Hp : forall k, property items k = property (signature_fields keyId pk sig h alg) k).
  { intros k. apply property_perm; [|done]. apply (bool_decide_unpack _). vm_compute. exact I. }
  assert (Hd : decodeSignaturePayload e = Passed items).
  { unfold decodeSignaturePayload. destruct (stringify_clean _ Hu). rewrite He, text_decode_encode, Hj; [|done|done|apply stringify_no_bom].
    assert (Hv : existsb is_case_variant (keys_of items) = false); [|by rewrite Hv].
    apply not_true_is_false. intros Hx. apply existsb_exists in Hx as (k & Hk & Hx). apply list_elem_of_In in Hk. unfold keys_of in Hk.
    rewrite (Permutation_map fst Hperm) in Hk. apply list_elem_of_In in Hk. cbn in Hk.
    repeat (destruct Hk as [<- | Hk]; [by vm_compute in Hx|]). done. }
  assert (Htr : normalizeTrustedPublicKeys (KeyList [Some (bytesToHex pk)]) = [bytesToHex pk]).
  { unfold normalizeTrustedPublicKeys. cbn [map]. change (default [] (Some (bytesToHex pk))) with (bytesToHex pk).
    rewrite hex_normal by done. cbn [List.filter]. by rewrite blen_hex, Hlpk. }
  unfold verify_entry. rewrite Hd. cbn [cbind]. unfold text_property. rewrite !Hp.
  change (property (signature_fields keyId pk sig h alg) "algorithm") with (JString MODULE_SIGNATURE_ALGORITHM).
  change (property (signature_fields keyId pk sig h alg) "signatureHex") with (JString (bytesToHex sig)).
  change (property (signature_fields keyId pk sig h alg) "publicKeyHex") with (JString (bytesToHex pk)).
  change (property (signature_fields keyId pk sig h alg) "statementDomain") with JNull.
  cbn [text_of String_ of_result cbind]. change (negb (str_eqb (toLowerCase (trimGoWhitespace MODULE_SIGNATURE_ALGORITHM)) MODULE_SIGNATURE_ALGORITHM)) with false.
  cbn iota. rewrite signature_hex_of_bytes by done. cbn [cbind]. rewrite Hlsig, Hnz. cbn [negb Z.eqb]. change (64 =? 64) with true. cbn [negb].
  rewrite hex_normal, signature_hex_of_bytes by done. cbn [cbind]. rewrite Hlpk. change (32 =? 32) with true. cbn [negb]. by rewrite Htr.
Qed.

Lemma read_again_det e d d' : read_again localeCompare e d -> read_again localeCompare e d' -> d = d'.
Proof. intros (h & t & H1 & H2 & ->) (h' & t' & H1' & H2' & ->). congruence. Qed.

Lemma reads_det es ds ds' : Forall2 (read_again localeCompare) es ds -> Forall2 (read_again localeCompare) es ds' -> ds = ds'.
Proof.
  intros H. revert ds'. induction H as [|e d es ds He _ IH]; intros ds' H'; inversion H' as [|? d' ? ds'' He' H'']; [done|].
  subst. f_equal; [by eapply read_again_det|by apply IH].
Qed.

Lemma read_again_fields e d : read_again localeCompare e d ->
  entryId d = default None (r_entryId e) /\ role d = normalizeRole (r_role e) /\ sectionName d = r_sectionName e /\
  (forall b, r_payload e = PayloadBytes b -> payload d = b).
Proof.
  intros (h & t & H1 & H2 & ->). apply rbind_Ok in H1 as (b & Hb & [= <-]). apply rbind_Ok in H2 as (ty & _ & [= <-]). cbn. split_and!; try done.
  intros b' E. rewrite E in Hb. by injection Hb.
Qed.

Lemma kept_not_signature kept ds : Forall (fun e => is_signature e = false) kept -> Forall2 (read_again localeCompare) (map kept_entry kept) ds ->
  Forall (fun d => is_signature d = false) ds.
Proof.
  intros Hk. revert ds. induction Hk as [|e kept He _ IH]; intros ds H; inversion H as [|? d ? ds' Hd H']; [constructor|]. subst. constructor; [|by apply IH].
  apply read_again_fields in Hd as (H1 & H2 & H3 & _). unfold is_signature in *. by rewrite H1, H2, H3.
Qed.

Lemma manifest_not_signature manifest ms : ROLE_MANIFEST <> ROLE_SIGNATURE -> Forall2 (read_again localeCompare) (normalizeManifestEntry manifest) ms ->
  Forall (fun d => is_signature d = false) ms.
Proof.
  intros Hne H. destruct manifest as [m|]; inversion H as [|? d ? ds Hd H']; [|constructor]. subst. inversion H'. constructor; [|constructor].
  apply read_again_fields in Hd as (F1 & F2 & F3 & _). change (entryId d = Some (lit "manifest")) in F1. change (role d = ROLE_MANIFEST) in F2.
  change (sectionName d = Some SDS_MANIFEST_SECTION_NAME) in F3. unfold is_signature. by rewrite F1, F2, F3, (proj2 (Z.eqb_neq _ _) Hne).
Qed.

Lemma signature_is_found ms sd ds : Forall (fun d => is_signature d = false) ms -> is_signature sd = true -> findSignatureEntry (ms ++ sd :: ds) = Some sd.
Proof. intros Hm Hs. unfold findSignatureEntry. induction Hm as [|m ms Hm _ IH]; cbn; [by rewrite Hs|by rewrite Hm]. Qed.

Lemma filter_all {A : Type} (f : A -> bool) l : Forall (fun x => f x = false) l -> List.filter (fun x => negb (f x)) l = l.
Proof. induction 1 as [|x l Hx _ IH]; cbn; [done|]. by rewrite Hx, IH. Qed.

(** The digest of a bundle does not see its signature. *)
Lemma digest_without_signature base manifest ms sd ds w :
  Forall (fun d => is_signature d = false) ms -> Forall (fun d => is_signature d = false) ds -> is_signature sd = true ->
  computeModuleBundleSignatureHash (R:=R) (bundle_of base manifest (ms ++ [sd] ++ ds)) w = computeModuleBundleSignatureHash (R:=R) (bundle_of base manifest (ms ++ [] ++ ds)) w.
Proof.
  intros Hm Hd Hs. apply (signature_entries_are_not_bound (R:=R) (bundle_of base manifest []) (ms ++ [sd] ++ ds) (ms ++ [] ++ ds)).
  rewrite !filter_app. cbn. by rewrite Hs.
Qed.

Lemma preserved_kept bytes manifest es : preserved (R:=R) bytes = Passed (manifest, es) ->
  exists kept, es = map kept_entry kept /\ Forall (fun e => is_signature e = false) kept.
Proof.
  unfold preserved. intros H. destruct (extractPublicationRecordCollection bytes) as [p|]; [|injection H as <- <-; by exists []].
  destruct (mbl (decoded p)); [|injection H as <- <-; by exists []]. passed_inv H. injection H as <- <-. eexists. split; [reflexivity|].
  rewrite List.Forall_forall. intros e He. apply filter_In in He as [He _]. apply filter_In in He as [_ He]. by apply negb_true_iff in He.
Qed.

Lemma sign_inputs_inv bytes o seed canonical manifest es :
  sign_inputs (R:=R) bytes o = Passed (seed, canonical, manifest, es) ->
  blen seed = 32 /\ bytes_ok seed /\
  computeCanonicalModuleHash (R:=R) (match extractPublicationRecordCollection (R:=R) bytes with Some p => payloadBytes p | None => bytes end) None = Ok canonical /\
  exists kept, es = map kept_entry kept /\ Forall (fun e => is_signature e = false) kept.
Proof.
  unfold sign_inputs. intros H. passed_inv H. destruct x1 as [m es']. apply hex_seed in E. apply of_result_inv in E1. apply preserved_kept in E2.
  apply negb_false_iff, Z.eqb_eq in E0.
  destruct m; [injection H as <- <- <- <-; done|]. passed_inv H. injection H as <- <- <- <-. done.
Qed.

(** Where an artifact is written: its payload, and the bundle with its parts. *)
Record written (out base : list Z) (manifest : option (list Z)) (ms ss ds : list bundle_entry) (p : publication R) : Prop := {
  w_extract : extractPublicationRecordCollection (R:=R) out = Some p;
  w_payload : payloadBytes p = base;
  w_bundle : mbl (decoded p) = Some (bundle_of (sha256Bytes base) manifest (ms ++ ss ++ ds))
}.

Lemma parse_written out base manifest ms ss ds p r : written out base manifest ms ss ds p -> parseSingleFileBundle (R:=R) out = Ok r ->
  p_wasmBytes r = base /\ p_bundle r = bundle_of (sha256Bytes base) manifest (ms ++ ss ++ ds) /\
  forall out' ss' p', written out' base manifest ms ss' ds p' ->
    exists r', parseSingleFileBundle (R:=R) out' = Ok r' /\ p_wasmBytes r' = base /\ p_bundle r' = bundle_of (sha256Bytes base) manifest (ms ++ ss' ++ ds).
Proof.
  intros [H1 H2 H3]. unfold parseSingleFileBundle at 1. rewrite H1, H3, H2. intros H. apply rbind_Ok in H as (cs & Hcs & H). apply rbind_Ok in H as (can & Hcan & [= <-]).
  split; [done|]. split; [done|]. intros out' ss' p' [H1' H2' H3']. unfold parseSingleFileBundle. rewrite H1', H3', H2', Hcs. cbn [rbind].
  change (b_canonicalization (bundle_of (sha256Bytes base) manifest (ms ++ ss' ++ ds))) with (b_canonicalization (bundle_of (sha256Bytes base) manifest (ms ++ ss ++ ds))).
  rewrite Hcan. cbn [rbind]. by eexists.
Qed.

Lemma created_written w manifest signature es b canonical out base :
  let wasm := match extractPublicationRecordCollection (R:=R) w with Some p => payloadBytes p | None => w end in
  let o := plain_options w manifest signature es in
  extractPublicationRecordCollection (R:=R) wasm = None -> canonicalWasmBytes (R:=R) wasm SDS_CUSTOM_SECTION_PREFIX = Ok base -> written_fits localeCompare o ->
  createSingleFileBundle (R:=R) localeCompare o = Ok (b, canonical, out) ->
  exists p sig ms ss ds, normalizeJsonPayload localeCompare signature = Ok sig /\ canonical = sha256Bytes base /\ written out base manifest ms ss ds p /\
    Forall2 (read_again localeCompare) (normalizeManifestEntry manifest) ms /\
    Forall2 (read_again localeCompare) (normalizeAdditionalEntries es) ds /\
    match sig with
    | Some bytes => exists sd, ss = [sd] /\ is_signature sd = true /\ payload sd = bytes
    | None => ss = []
    end.
Proof.
  intros wasm o Hx Hb Hf Hc. destruct (created_is_read localeCompare w manifest signature es b canonical out base Hx Hb Hf Hc)
    as (p & sig & ms & ss & ds & Hsig & H1 & H2 & Hcan & H3 & Hms & Hss & Hds).
  exists p, sig, ms, ss, ds. split_and!; [done..|]. destruct sig as [bytes|]; inversion Hss as [|? sd ? l Hd Hl]; [|done]. subst. inversion Hl. exists sd.
  apply read_again_fields in Hd as (F1 & F2 & F3 & F4). split_and!; [done| |by apply F4]. change (entryId sd = Some (lit "signature")) in F1.
  unfold is_signature. rewrite F1, bool_decide_true by done. by rewrite orb_true_r.
Qed.

Definition scope_of (o : sign_options) : signature_scope := if bool_decide (opt_signatureScope o = Some (lit "bundle")) then BundleScope else ModuleScope.

(** What was signed is what the verifier computes from the artifact that is written. *)
Lemma digest_agrees bytes manifest kept canonical o hash alg base out ms sd ds p :
  let wasm := match extractPublicationRecordCollection (R:=R) bytes with Some p => payloadBytes p | None => bytes end in
  extractPublicationRecordCollection (R:=R) wasm = None -> canonicalWasmBytes (R:=R) wasm SDS_CUSTOM_SECTION_PREFIX = Ok base -> canonical = sha256Bytes base ->
  written_fits localeCompare (plain_options bytes manifest InUndefined (map kept_entry kept)) ->
  signing_digest (R:=R) localeCompare bytes manifest (map kept_entry kept) canonical (opt_signatureScope o) = Passed (hash, alg) ->
  written out base manifest ms [sd] ds p -> Forall2 (read_again localeCompare) (normalizeManifestEntry manifest) ms ->
  Forall2 (read_again localeCompare) (normalizeAdditionalEntries (map kept_entry kept)) ds ->
  Forall (fun d => is_signature d = false) ms -> Forall (fun d => is_signature d = false) ds -> is_signature sd = true ->
  unitsb alg = true /\ (exists x, hash = sha256Bytes x) /\
  (if str_eqb alg BUNDLE_SIGNATURE_HASH_ALGORITHM then
     let? parsed := of_result (parseSingleFileBundle (R:=R) out) in
     let? (_, hash) := computeModuleBundleSignatureHash (R:=R) (p_bundle parsed) (Some (p_wasmBytes parsed)) in Passed (hash, BundleScope)
   else refuse_if negb (str_eqb alg LEGACY_MODULE_SIGNATURE_HASH_ALGORITHM) with unsupported_hash_algorithm; Passed (canonical, ModuleScope)) = Passed (hash, scope_of o).
Proof.
  intros wasm Hx Hb -> Hf Hs Hw Hms Hds Nm Nd Hsd. unfold signing_digest, scope_of in *. destruct (bool_decide (opt_signatureScope o = Some (lit "bundle"))).
  - passed_inv Hs. destruct x as [[ub uc] unsigned]. passed_inv Hs. destruct x0 as [st h]. injection Hs as <- <-.
    apply of_result_inv in E, E0. destruct (created_written bytes manifest InUndefined (map kept_entry kept) ub uc unsigned base Hx Hb Hf E)
      as (up & usig & ums & uss & uds & [= <-] & _ & Hu & Hums & Huds & ->).
    rewrite (reads_det _ _ _ Hums Hms), (reads_det _ _ _ Huds Hds) in Hu. destruct (parse_written _ _ _ _ _ _ _ _ Hu E0) as (Hp1 & Hp2 & Hp3).
    destruct (Hp3 _ _ _ Hw) as (r' & Hr & Hr1 & Hr2). split; [apply lit_unitsb|]. split.
    { apply signature_hash_inv in E1 as (_ & -> & _). by eexists. }
    change (str_eqb BUNDLE_SIGNATURE_HASH_ALGORITHM BUNDLE_SIGNATURE_HASH_ALGORITHM) with true. cbn iota. rewrite Hr. cbn [of_result cbind].
    rewrite Hr1, Hr2, digest_without_signature by done. rewrite Hp1, Hp2 in E1. by rewrite E1.
  - passed_inv Hs. injection Hs as <- <-. split; [apply lit_unitsb|]. split; [by eexists|]. done.
Qed.

(** C4. What is signed is verified: an artifact signed with a seed is accepted by a verifier that trusts the public key of the seed, and reported with the key, the scope
    and the digest that was signed, whether the signature is over the module or over the whole bundle. *)
Theorem signed_artifacts_verify bytes o seed canonical manifest es a :
  let wasm := match extractPublicationRecordCollection (R:=R) bytes with Some p => payloadBytes p | None => bytes end in
  ROLE_MANIFEST <> ROLE_SIGNATURE -> bytes_ok wasm -> blen wasm < 2 ^ 53 -> extractPublicationRecordCollection (R:=R) wasm = None ->
  (forall base, canonicalWasmBytes (R:=R) wasm SDS_CUSTOM_SECTION_PREFIX = Ok base -> extractPublicationRecordCollection (R:=R) base = None) ->
  text_ok (opt_keyId o) = true -> sign_inputs (R:=R) bytes o = Passed (seed, canonical, manifest, es) ->
  signModuleArtifact (R:=R) localeCompare bytes o = Passed a ->
  written_fits localeCompare (plain_options bytes manifest InUndefined es) -> written_fits localeCompare (plain_options bytes manifest (InValue (s_signature a)) es) ->
  (forall j, normalizeCanonicalValue localeCompare (s_signature a) = Ok (Some j) -> JSON_parse (stringify j) = Some j) ->
  exists content, verifyModuleArtifact (R:=R) (s_wasmBytes a) (KeyList [Some (bytesToHex (ed25519PublicKey seed))]) true =
    Passed (Verified (nullable (opt_keyId o)) (bytesToHex (ed25519PublicKey seed)) None content (Some (s_canonicalModuleHashHex a)) (scope_of o) (s_signedHashHex a)).
Proof.
  intros wasm Hroles Hbytes Hlen Hx Hxb Hkey Hin Hsign Hf1 Hf2 Hparse. unfold signModuleArtifact in Hsign. rewrite Hin in Hsign. cbn [cbind] in Hsign.
  passed_inv Hsign. destruct x as [hash alg]. passed_inv Hsign. destruct x as [[fb fc] out]. injection Hsign as <-.
  apply of_result_inv in E0. cbn [s_signature s_wasmBytes s_canonicalModuleHashHex s_signedHashHex] in *.
  apply sign_inputs_inv in Hin as (Hl & Hsb & Hcan & kept & -> & Hkept). fold wasm in Hcan. unfold computeCanonicalModuleHash in Hcan.
  apply rbind_Ok in Hcan as (base & Hbase & [= <-]). cbn [default] in Hbase. specialize (Hxb base Hbase).
  assert (Hcb : canonicalWasmBytes (R:=R) base SDS_CUSTOM_SECTION_PREFIX = Ok base) by exact (canonical_bytes_idempotent wasm SDS_CUSTOM_SECTION_PREFIX base Hbytes Hlen Hx Hxb Hbase).
  destruct (created_written _ _ _ _ _ _ _ _ Hx Hbase Hf2 E0) as (p & sig & ms & ss & ds & Hsig & -> & Hw & Hms & Hds & Hss).
  pose proof (manifest_not_signature _ _ Hroles Hms) as Nm. pose proof Hds as Hds'. rewrite additional_kept in Hds'. pose proof (kept_not_signature _ _ Hkept Hds') as Nd.
  (* the signature entry *)
  unfold normalizeJsonPayload, canonicalBytes, stableStringify in Hsig. apply rbind_Ok in Hsig as (cb & Hc & [= <-]).
  apply rbind_Ok in Hc as (text & Ht & [= <-]). apply rbind_Ok in Ht as (nv & Hn & [= <-]). destruct Hss as (sd & -> & Hsd & Hpl).
  destruct (digest_agrees bytes manifest kept _ o hash alg base out ms sd ds p Hx Hbase eq_refl Hf1 E Hw Hms Hds Nm Nd Hsd) as (Halg & (x & Hhash) & Hdig).
  destruct (signature_normal localeCompare (opt_keyId o) (ed25519PublicKey seed) (ed25519Sign hash seed) hash alg) as (items & Hn' & Hperm & Hu);
    [done|by apply key_bytes|by apply signature_bytes|rewrite Hhash; apply sha_bytes|done|].
  rewrite Hn in Hn'. injection Hn' as ->. specialize (Hparse _ Hn). cbn [option_map default from_option] in Hpl.
  destruct Hw as [Hw1 Hw2 Hw3]. exists (bytesToHex (sha256Bytes base)). unfold verifyModuleArtifact, signature_of. rewrite Hw1, Hw3.
  change (entries (bundle_of (sha256Bytes base) manifest (ms ++ [sd] ++ ds))) with (ms ++ sd :: ds). rewrite signature_is_found by done.
  erewrite verify_signature_entry; [|done|done|done|exact Hperm|by apply key_bytes|by apply signature_bytes|by apply key_length|by apply signature_length|by apply signature_nonzero].
  unfold verify_digest. rewrite Hw2. unfold computeCanonicalModuleHash at 1. cbn [default from_option]. rewrite Hcb. cbn [rbind of_result cbind].
  unfold equalBytes at 1. change (canonicalModuleHash (bundle_of (sha256Bytes base) manifest (ms ++ [sd] ++ ds))) with (sha256Bytes base).
  rewrite bool_decide_true by done. cbn [negb].
  assert (Hpr : forall k, property items k = property (signature_fields (opt_keyId o) (ed25519PublicKey seed) (ed25519Sign hash seed) hash alg) k).
  { intros k. apply property_perm; [|done]. apply (bool_decide_unpack _). vm_compute. exact I. }
  unfold text_property. rewrite !Hpr.
  change (property (signature_fields (opt_keyId o) (ed25519PublicKey seed) (ed25519Sign hash seed) hash alg) "signedHashAlgorithm") with (JString alg).
  change (property (signature_fields (opt_keyId o) (ed25519PublicKey seed) (ed25519Sign hash seed) hash alg) "signedHashHex") with (JString (bytesToHex hash)).
  change (property (signature_fields (opt_keyId o) (ed25519PublicKey seed) (ed25519Sign hash seed) hash alg) "keyId") with (nullable (opt_keyId o)).
  cbn [text_of String_ of_result cbind]. rewrite Hdig. cbn [cbind]. rewrite lower_hex by (apply hex_forallb; rewrite Hhash; apply sha_bytes).
  rewrite (proj2 (str_eqb_eq _ _) eq_refl). cbn [negb]. unfold requireTrustedSigner. rewrite bool_decide_true by by left. cbn [cbind].
  by rewrite signature_verifies.
Qed.
End signed_then_verified.

(** ** An instance, and an example *)

#[export] Instance toy_crypto_laws : CryptoLaws (C:=toy_crypto).
Proof.
  assert (Hd : forall x, bytes_ok (toy_digest x)).
  { intros x. unfold toy_digest. repeat apply Forall_app_2; try apply u32_bytes_ok. closed_bytes. }
  assert (Hr : forall s : list Z, blen (reverse s) = blen s) by (intros s; unfold blen; by rewrite length_reverse).
  split; cbn [sha256Bytes ed25519PublicKey ed25519Sign ed25519Verify toy_crypto]; intros; try done.
  - by rewrite Hr.
  - by apply Forall_reverse.
  - rewrite blen_app, Hr, H. reflexivity.
  - apply Forall_app_2; [done|by apply Forall_reverse].
  - unfold toy_digest. rewrite !forallb_app. cbn. by rewrite !andb_false_r.
  - by apply bool_decide_true.
Qed.
#[export] Instance toy_enums : BundleEnums :=
  {| enum_roles := toy_roles; ROLE_AUTHORIZATION := 1; ROLE_TRANSPORT := 3; ROLE_ATTESTATION := 4; RAW_BYTES := 0; FLATBUFFER := 1; JSON_UTF8 := 2; CBOR := 3 |}.

Definition demo_seed : list Z := repeat 5 32.
Definition demo_sign_options : sign_options := SignOptions (Some (bytesToHex demo_seed)) (Some (lit "release")) None.
Definition demo_signature : value :=
  signature_value (Some (lit "release")) (reverse demo_seed) (toy_digest demo_hash ++ reverse demo_seed) demo_hash LEGACY_MODULE_SIGNATURE_HASH_ALGORITHM.
Definition demo_signature_json : json := match normalizeCanonicalValue unit_compare demo_signature with Ok (Some j) => j | _ => JNull end.
Definition demo_table (es : list entry_table) : bundle_table :=
  BundleTable 1 (Some DEFAULT_MODULE_FORMAT)
    (Some (Canonicalization 1 (Some SDS_CUSTOM_SECTION_PREFIX) (Some SDS_MBL_CONTAINER_NAME) (Some DEFAULT_HASH_ALGORITHM)))
    demo_hash [] (Some DEFAULT_MANIFEST_EXPORT_SYMBOL) (Some DEFAULT_MANIFEST_SIZE_SYMBOL) es.
Definition demo_signature_table : entry_table :=
  let payload := text_encode (stringify demo_signature_json) in
  EntryTable (Some (lit "signature")) 2 (Some (lit "sds.signature")) None 2 (Some (lit "application/json")) 0 (toy_digest payload) payload
    (Some (lit "Detached signature payload.")).

(** A codec of one byte, for the two tables that are written in the example. *)
#[export] Instance canonicalization_eq : EqDecision canonicalization.
Proof. solve_decision. Defined.
#[export] Instance entry_table_eq : EqDecision entry_table.
Proof. solve_decision. Defined.
#[export] Instance bundle_table_eq : EqDecision bundle_table.
Proof. solve_decision. Defined.
Definition demo_tables : list bundle_table := [demo_table []; demo_table [demo_signature_table]].
#[export] Instance table_codec : RecCodec bundle_table :=
  {| decodePublicationRecordCollection := fun rc =>
       match rc with [n] => match demo_tables !! Z.to_nat n with Some t => Ok t | None => Throw (Error "record") end | _ => Throw (Error "record") end;
     has_enc := fun _ => false |}.
#[export] Instance demo_bundle_tables : BundleTables bundle_table :=
  {| collection_table := Some; encodePublicationRecordCollection := fun _ t => if decide (t = demo_table []) then [0] else [1];
     PLG_bufferHasIdentifier := fun _ => false |}.
#[export] Program Instance demo_bundle_table_laws : BundleTableLaws bundle_table := {| table_fits := fun t => t ∈ demo_tables |}.
Next Obligation.
  intros r t Ht. cbn [encodePublicationRecordCollection demo_bundle_tables]. split; [by case_decide|]. exists t. split; [|done].
  apply list_elem_of_In in Ht as [<- | [<- | []]]; case_decide; done.
Qed.
#[export] Instance signature_parser : JsonParser := {| JSON_parse := fun t => if str_eqb t (stringify demo_signature_json) then Some demo_signature_json else None |}.

Lemma signed_artifacts_verify_witness : exists a content,
  signModuleArtifact (R:=bundle_table) unit_compare WASM_HEADER demo_sign_options = Passed a /\
  verifyModuleArtifact (R:=bundle_table) (s_wasmBytes a) (KeyList [Some (bytesToHex demo_seed)]) true =
    Passed (Verified (JString (lit "release")) (bytesToHex demo_seed) None content (Some (s_canonicalModuleHashHex a)) ModuleScope (s_signedHashHex a)).
Proof.
  set (a := SignedArtifact (WASM_HEADER ++ [1] ++ u32_bytes 1 ++ TRAILER_MAGIC_BYTES) demo_signature (bytesToHex demo_hash) (bytesToHex demo_hash)).
  assert (Hs : signModuleArtifact (R:=bundle_table) unit_compare WASM_HEADER demo_sign_options = Passed a) by (vm_compute; reflexivity).
  assert (Hi : sign_inputs (R:=bundle_table) WASM_HEADER demo_sign_options = Passed (demo_seed, demo_hash, None, [])) by (vm_compute; reflexivity).
  assert (Hf : forall s t0, t0 ∈ demo_tables ->
    (let! (b, _, _) := createSingleFileBundle (R:=bundle_table) unit_compare (plain_options WASM_HEADER None s []) in moduleBundleTableFromObject unit_compare b) = Ok t0 ->
    written_fits unit_compare (plain_options WASM_HEADER None s [])).
  { intros s t0 Ht0 E b c out t Hc Ht. rewrite Hc in E. cbn [rbind] in E. rewrite Ht in E. injection E as ->. exact Ht0. }
  assert (Hx : extractPublicationRecordCollection (R:=bundle_table) WASM_HEADER = None) by (vm_compute; reflexivity).
  assert (Hc : canonicalWasmBytes (R:=bundle_table) WASM_HEADER SDS_CUSTOM_SECTION_PREFIX = Ok WASM_HEADER) by (vm_compute; reflexivity).
  destruct (signed_artifacts_verify (R:=bundle_table) unit_compare WASM_HEADER demo_sign_options demo_seed demo_hash None [] a) as (content & H).
  - discriminate.
  - rewrite Hx. closed_bytes.
  - rewrite Hx. reflexivity.
  - rewrite Hx. exact Hx.
  - rewrite Hx. intros base E. rewrite Hc in E. injection E as <-. exact Hx.
  - reflexivity.
  - exact Hi.
  - exact Hs.
  - apply (Hf InUndefined (demo_table [])); [left|vm_compute; reflexivity].
  - apply (Hf (InValue demo_signature) (demo_table [demo_signature_table])); [right; left|vm_compute; reflexivity].
  - intros j Hj. assert (E : normalizeCanonicalValue unit_compare demo_signature = Ok (Some demo_signature_json)) by (vm_compute; reflexivity).
    cbn [s_signature a] in Hj. rewrite E in Hj. injection Hj as <-. cbn [JSON_parse signature_parser]. by rewrite (proj2 (str_eqb_eq _ _) eq_refl).
  - exists a, content. split; [exact Hs|]. exact H.
Defined.
