(* ===== verification/HostcallBridge.v ===== *)
(** The hostcall bridge between a guest and its host (src/host/abi.js): the call of an operation, the response that is kept for the guest to read, and the
    operations a host answers at once.

    The bridge works on the memory of the guest, which is part of the state of the host because an operation may change it. Byte values in the parameters are
    copied here; in the code they are views of the memory of the guest. The text of a document is written and read by [JSON], the class [MetaJson]. Calls in the
    typed form (standards/runtimeContracts.js) are recognised here and answered by a parameter. The arguments of a call are signed 32-bit numbers, as a guest
    passes them. *)
From Stdlib Require Import ZArith QArith Lia Eqdep_dec.
From stdpp Require Import base list strings numbers.
From S2P Require Import Prelude JsText JsMap HostcallWire SabChannel.
Open Scope Z_scope.

(** JSON texts of documents. A text that was written is read as the document it was written from, for documents without values that JSON does not have. *)
Class MetaJson := {
  meta_stringify : jsval -> result (list Z);
  meta_parse : list Z -> result jsval
}.
Class MetaJsonLaws {M : MetaJson} := {
  meta_roundtrip v v' segs b : plain v = true -> detachBinaryValues v [] = (v', segs) -> meta_stringify v' = Ok b -> meta_parse b = Ok v'
}.

(** ** Values in envelopes *)

Section values.
Context {M : MetaJson}.

Definition encode_value (v : jsval) : result (list Z) :=
  let (meta, segments) := detachBinaryValues v [] in
  let! metaBytes := meta_stringify meta in Ok (encodeHostcallEnvelope metaBytes segments).
Definition decode_value (bytes : list Z) : result jsval :=
  let! (metaBytes, segments) := decodeHostcallEnvelope bytes in
  let! meta := meta_parse metaBytes in attachBinaryValues meta segments.

Lemma encode_segments_fit segs : Forall (fun s => blen s <= blen (encode_segments segs)) segs /\ 4 * blen segs <= blen (encode_segments segs).
Proof.
  induction segs as [|s segs [IH1 IH2]]; [by split; [constructor|]|]. cbn [encode_segments]. pose proof (blen_nonneg s). pose proof (blen_nonneg (encode_segments segs)).
  split; [constructor; [blia|]|blia]. eapply Forall_impl; [|exact IH1]. cbn beta. intros x Hx. blia.
Qed.

(** A value comes back from its envelope. *)
Lemma value_roundtrip {L : MetaJsonLaws} v b : plain v = true -> encode_value v = Ok b -> blen b < 2 ^ 32 -> decode_value b = Ok v.
Proof.
  intros Hp H Hl. unfold encode_value in H. destruct (detachBinaryValues v []) as [meta segs] eqn:Ed. apply rbind_Ok in H as (mb & Hm & [= <-]).
  destruct (encode_segments_fit segs) as [Hs Hn]. unfold encodeHostcallEnvelope in Hl. pose proof (blen_nonneg mb). pose proof (blen_nonneg segs).
  pose proof (blen_nonneg (encode_segments segs)).
  unfold decode_value. rewrite <- (app_nil_r (encodeHostcallEnvelope mb segs)), decode_encode_envelope; [|blia|blia|].
  - cbn [rbind]. rewrite (meta_roundtrip v meta segs mb) by done. cbn [rbind].
    destruct (detach_all v Hp _ _ _ Ed) as [_ Hs']. specialize (Hs' []). by rewrite app_nil_r in Hs'.
  - eapply Forall_impl; [|exact Hs]. cbn beta. intros x Hx. blia.
Qed.
End values.

(** The interface of the shared-memory channel, for the values that the format keeps. *)
Record kept_value := KeptValue { kept : jsval; kept_plain : plain kept = true }.
Lemma kept_eq a b : kept a = kept b -> a = b.
Proof. destruct a as [v p], b as [w q]. cbn. intros ->. f_equal. apply (Eqdep_dec.UIP_dec Bool.bool_dec). Qed.
Definition keep (v : jsval) : result kept_value :=
  match Bool.bool_dec (plain v) true with left p => Ok (KeptValue v p) | right _ => Throw (TypeError "value") end.
Lemma keep_kept v : keep (kept v) = Ok v.
Proof. destruct v as [w p]. unfold keep. cbn. destruct (Bool.bool_dec (plain w) true); [|done]. f_equal. by apply kept_eq. Qed.

Definition wire_envelope {M : MetaJson} {L : MetaJsonLaws} (serialize : js_error -> jsstring -> kept_value) : Envelope kept_value.
Proof.
  refine {| encodeHostcallValueEnvelope := fun v => encode_value (kept v);
            decodeHostcallValueEnvelope := fun b => let! v := decode_value b in keep v;
            serializeChannelError := serialize |}.
  intros v b H Hl. rewrite (value_roundtrip (kept v) b (kept_plain v) H Hl). cbn [rbind]. apply keep_kept.
Defined.

(** ** The bridge *)

Definition HOSTCALL_STATUS_OK : Z := 0.
Definition HOSTCALL_STATUS_ERROR : Z := 1.

(** The fields of a thrown error that are reported; [JUndefined] where it has none. *)
Record host_error := HostError { e_name : jsval; e_message : jsval; e_code : jsval; e_operation : jsval; e_capability : jsval }.
Definition or_else (v w : jsval) : jsval := match v with JUndefined | JNull => w | _ => v end.
(** [text] is [String(error)]. *)
Definition serializeHostcallError (e : host_error) (text : jsstring) : jsval :=
  JObj [(lit "name", or_else (e_name e) (JStr (lit "Error"))); (lit "message", or_else (e_message e) (JStr text)); (lit "code", or_else (e_code e) JNull);
        (lit "operation", or_else (e_operation e) JNull); (lit "capability", or_else (e_capability e) JNull)].

(** What an operation does: it answers, answers with a promise, which settles with a value or an error or stays pending, or throws. *)
Inductive outcome := Answer (v : jsval) | PromiseLike (settles : option (jsval + host_error)) | Throws (e : host_error).

(** The identifier of a FlatBuffer. *)
Definition identifierOf (b : list Z) : jsstring := if blen b <? 8 then [] else subarray b 4 8.
Definition isTypedHostCall (payload : list Z) : bool := str_eqb (identifierOf payload) (lit "$PIV").

Record bridge := Bridge { lastStatusCode : Z; lastEnvelope : jsval; lastResponseBytes : list Z }.
(** How a call ends: with a status, or with an exception in the guest. *)
Inductive ending := Returned (status : Z) (b : bridge) | Trapped (e : host_error).

Section bridge.
Context {M : MetaJson} {H : Type} (memory : H -> list Z).
(** [describe] is the error object of one of the errors the code throws, [text] the text of an error object. *)
Context (dispatch : H -> jsstring -> jsval -> H * outcome) (answerTypedHostCall : H -> list Z -> H * (list Z + host_error)).
Context (describe : js_error -> host_error) (text : host_error -> jsstring) (maxRequestBytes maxResponseBytes : Z).

Definition readMemoryBytes (mem : list Z) (ptr len : Z) (label : string) : result (list Z) :=
  throw_if ptr <? 0 with RangeError (label ++ " pointer must be a non-negative integer.");
  throw_if len <? 0 with RangeError (label ++ " length must be a non-negative integer.");
  throw_if blen mem <? ptr + len with RangeError (label ++ " range exceeds guest memory bounds.");
  Ok (subarray mem ptr (ptr + len)).
(** The bytes copied, and the memory afterwards. *)
Definition writeMemoryBytes (mem : list Z) (ptr : Z) (payload : list Z) (maxLen : Z) : result (Z * list Z) :=
  throw_if ptr <? 0 with RangeError "Response pointer must be a non-negative integer.";
  throw_if maxLen <? 0 with RangeError "Response max length must be a non-negative integer.";
  let bytesToCopy := Z.min (blen payload) maxLen in
  throw_if blen mem <? ptr + bytesToCopy with RangeError "Response range exceeds guest memory bounds.";
  Ok (bytesToCopy, put_at mem (subarray payload 0 bytesToCopy) ptr).

Definition parseHostcallParams (bytes : list Z) : result jsval :=
  if blen bytes =? 0 then Ok JNull else decode_value bytes.

Definition setEnvelope (statusCode : Z) (envelope : jsval) : result bridge :=
  let! encoded := encode_value envelope in
  throw_if maxResponseBytes <? blen encoded with Error "Hostcall response exceeds the byte limit.";
  Ok (Bridge statusCode envelope encoded).

Definition success_envelope (v : jsval) : jsval :=
  JObj [(lit "ok", JBool true); (lit "result", match v with JUndefined => JNull | _ => v end)].
Definition error_envelope (e : host_error) : jsval := JObj [(lit "ok", JBool false); (lit "error", serializeHostcallError e (text e))].

(** The operation and the payload of a call. *)
Definition request (mem : list Z) (operationPtr operationLen payloadPtr payloadLen : Z) : result (jsstring * list Z) :=
  throw_if maxRequestBytes <? payloadLen with Error "Hostcall request exceeds the byte limit.";
  let! operation := readMemoryBytes mem operationPtr operationLen "Operation" in
  let! payload := readMemoryBytes mem payloadPtr payloadLen "Payload" in
  Ok (text_decode operation, payload).

(** The body of the try block: the state of the host, and a status with the new state of the bridge, or an error. *)
Definition attempt (h : H) (operationPtr operationLen payloadPtr payloadLen : Z) : H * (Z * bridge + host_error) :=
  match request (memory h) operationPtr operationLen payloadPtr payloadLen with
  | Throw e => (h, inr (describe e))
  | Ok (operation, payload) =>
      if isTypedHostCall payload then
        match answerTypedHostCall h payload with
        | (h, inl response) =>
            (h, if maxResponseBytes <? blen response then inr (describe (Error "Hostcall response exceeds the byte limit."))
                else inl (HOSTCALL_STATUS_OK, Bridge HOSTCALL_STATUS_OK JNull response))
        | (h, inr e) => (h, inr e)
        end
      else
        match parseHostcallParams payload with
        | Throw e => (h, inr (describe e))
        | Ok params =>
            match dispatch h operation params with
            | (h, Answer v) =>
                (h, match setEnvelope HOSTCALL_STATUS_OK (success_envelope v) with
                    | Ok b => inl (HOSTCALL_STATUS_OK, b)
                    | Throw e => inr (describe e)
                    end)
            | (h, PromiseLike _) => (h, inr (describe (Error "The synchronous hostcall ABI only supports synchronous operations.")))
            | (h, Throws e) => (h, inr e)
            end
        end
  end.

(** The catch block: the report of an error, or of the error that making the report gave. *)
Definition report (e : host_error) : ending :=
  match setEnvelope HOSTCALL_STATUS_ERROR (error_envelope e) with
  | Ok b => Returned HOSTCALL_STATUS_ERROR b
  | Throw serializationError =>
      match setEnvelope HOSTCALL_STATUS_ERROR (error_envelope (describe serializationError)) with
      | Ok b => Returned HOSTCALL_STATUS_ERROR b
      | Throw e => Trapped (describe e)
      end
  end.

Definition call (h : H) (operationPtr operationLen payloadPtr payloadLen : Z) : H * ending :=
  match attempt h operationPtr operationLen payloadPtr payloadLen with
  | (h, inl (status, b)) => (h, Returned status b)
  | (h, inr e) => (h, report e)
  end.

Definition responseLen (b : bridge) : Z := blen (lastResponseBytes b).
Definition readResponse (b : bridge) (mem : list Z) (dstPtr dstLen : Z) : result (Z * list Z) := writeMemoryBytes mem dstPtr (lastResponseBytes b) dstLen.
Definition clearResponse : result bridge := setEnvelope HOSTCALL_STATUS_OK (success_envelope JNull).
Definition getLastResponseEnvelope (b : bridge) : result jsval := decode_value (lastResponseBytes b).

(** ** What a guest gets *)

Lemma setEnvelope_inv status v b : setEnvelope status v = Ok b ->
  lastStatusCode b = status /\ lastEnvelope b = v /\ encode_value v = Ok (lastResponseBytes b) /\ blen (lastResponseBytes b) <= maxResponseBytes.
Proof. unfold setEnvelope. intros E. apply rbind_Ok in E as (x & Hx & E). js_inv E. cbn. split_and!; try done. lia. Qed.

Lemma report_inv e st b : report e = Returned st b -> st = HOSTCALL_STATUS_ERROR /\ lastStatusCode b = st /\ blen (lastResponseBytes b) <= maxResponseBytes.
Proof.
  unfold report. destruct (setEnvelope _ (error_envelope e)) as [b1|x] eqn:Es; [|destruct (setEnvelope _ (error_envelope (describe x))) as [b1|y] eqn:Es'; [|done]];
    intros [= <- <-]; [apply setEnvelope_inv in Es as (? & _ & _ & ?)|apply setEnvelope_inv in Es' as (? & _ & _ & ?)]; done.
Qed.
Lemma report_is_no_success e b : report e <> Returned HOSTCALL_STATUS_OK b.
Proof. by intros [? _]%report_inv. Qed.

(** What a call does, by the way it ends. *)
Lemma attempt_inv h a b c d h' r : attempt h a b c d = (h', r) ->
  (exists e, request (memory h) a b c d = Throw e /\ h' = h /\ r = inr (describe e)) \/
  exists op payload, request (memory h) a b c d = Ok (op, payload) /\
   (isTypedHostCall payload = true \/
    (exists e, parseHostcallParams payload = Throw e /\ h' = h /\ r = inr (describe e)) \/
    exists params o, isTypedHostCall payload = false /\ parseHostcallParams payload = Ok params /\ dispatch h op params = (h', o) /\
      match o with
      | Answer v => match setEnvelope HOSTCALL_STATUS_OK (success_envelope v) with Ok br => r = inl (HOSTCALL_STATUS_OK, br) | Throw e => r = inr (describe e) end
      | PromiseLike _ => exists e, r = inr (describe e)
      | Throws e => r = inr e
      end).
Proof.
  unfold attempt. intros E. destruct (request _ _ _ _ _) as [[op payload]|e] eqn:Er; [right|left; injection E as <- <-; eauto].
  exists op, payload. split; [done|]. destruct (isTypedHostCall payload); [by left|right]. destruct (parseHostcallParams payload) as [params|e] eqn:Ep; [right|left; injection E as <- <-; eauto].
  destruct (dispatch h op params) as [h1 o] eqn:Ed. exists params, o. destruct o as [v|settles|e]; injection E as <- <-; split_and!; try done; [by destruct (setEnvelope _ _)|eauto].
Qed.

Lemma readMemoryBytes_inv mem ptr n label r : readMemoryBytes mem ptr n label = Ok r -> 0 <= ptr /\ 0 <= n /\ ptr + n <= blen mem /\ r = subarray mem ptr (ptr + n).
Proof. unfold readMemoryBytes. intros E. js_inv E. split_and!; try done; lia. Qed.

Lemma request_inv mem a b c d op payload : request mem a b c d = Ok (op, payload) ->
  op = text_decode (subarray mem a (a + b)) /\ payload = subarray mem c (c + d) /\
  0 <= a /\ 0 <= b /\ a + b <= blen mem /\ 0 <= c /\ 0 <= d /\ c + d <= blen mem /\ d <= maxRequestBytes.
Proof.
  unfold request. intros E. js_inv E. 
  repeat match goal with E' : readMemoryBytes _ _ _ _ = Ok _ |- _ => apply readMemoryBytes_inv in E' as (? & ? & ? & ->) end.
  split_and!; try done; lia.
Qed.

(** Reading a response copies a prefix of it, no longer than asked, to the place that was given, and leaves every other byte of the memory alone. *)
Lemma readResponse_inv b mem dst n k mem' : readResponse b mem dst n = Ok (k, mem') ->
  k = Z.min (responseLen b) n /\ exists x y z, mem = x ++ y ++ z /\ mem' = x ++ subarray (lastResponseBytes b) 0 k ++ z /\ blen x = dst /\ blen y = k /\
    blen (subarray (lastResponseBytes b) 0 k) = k.
Proof.
  unfold readResponse, writeMemoryBytes, responseLen. intros E. js_inv E. pose proof (blen_nonneg (lastResponseBytes b)).
  split; [done|]. set (k := Z.min (blen (lastResponseBytes b)) n) in *. destruct (buffer_cut mem dst k) as (x & y & z & -> & Hx & Hy); [lia..|].
  assert (Hk : blen (subarray (lastResponseBytes b) 0 k) = k) by (rewrite blen_subarray by lia; lia).
  exists x, y, z. split_and!; try done. apply put_at_split; lia.
Qed.


(** A response never exceeds the limit of the bridge: whatever a call does, and whatever state it leaves the host in, the bytes that are kept for the guest
    are within the configured number, and the status that the call returns is the one that is kept. *)
Theorem response_within_limit h a b c d h' st br :
  call h a b c d = (h', Returned st br) -> blen (lastResponseBytes br) <= maxResponseBytes /\ lastStatusCode br = st /\ (st = HOSTCALL_STATUS_OK \/ st = HOSTCALL_STATUS_ERROR).
Proof.
  unfold call. destruct (attempt h a b c d) as [h1 [[st' b']|e]] eqn:Ea; intros E.
  - injection E as <- <- <-. unfold attempt in Ea. destruct (request _ _ _ _ _) as [[op payload]|]; [|discriminate Ea]. destruct (isTypedHostCall payload).
    + destruct (answerTypedHostCall h payload) as [h2 [r|e]]; [|discriminate Ea]. destruct (Z.ltb_spec maxResponseBytes (blen r)); [discriminate Ea|].
      injection Ea as _ <- <-. cbn. auto.
    + destruct (parseHostcallParams payload); [|discriminate Ea]. destruct (dispatch h op _) as [h2 [v|settles|e]]; [|discriminate Ea..].
      destruct (setEnvelope _ _) as [b1|] eqn:Es; [|discriminate Ea]. injection Ea as _ <- <-. apply setEnvelope_inv in Es as (? & _ & _ & ?). auto.
  - injection E as <- E. apply report_inv in E as (-> & ? & ?). auto.
Qed.

(** Nothing is done for a call whose operation or payload is not in the memory of the guest, or whose payload is over the limit: the state of the host is
    the one before, and the call does not return status 0. *)
Theorem bad_ranges_dispatch_nothing h a b c d h' r :
  call h a b c d = (h', r) ->
  ~ (0 <= a /\ 0 <= b /\ a + b <= blen (memory h) /\ 0 <= c /\ 0 <= d /\ c + d <= blen (memory h) /\ d <= maxRequestBytes) ->
  h' = h /\ forall br, r <> Returned HOSTCALL_STATUS_OK br.
Proof.
  intros Hc Hr. unfold call, attempt in Hc. destruct (request _ _ _ _ _) as [[op payload]|e] eqn:Er.
  { exfalso. apply Hr. by apply request_inv in Er as (_ & _ & ?). }
  injection Hc as <- <-. split; [done|]. intros br. apply report_is_no_success.
Qed.

(** A failure is reported: when an operation throws, the call returns status 1 and what the guest reads decodes to the fields of the error, provided
    the text of the error can be written within the limit. *)
Theorem failure_is_reported {L : MetaJsonLaws} h a b c d op payload params h' e bytes :
  maxResponseBytes < 2 ^ 32 -> request (memory h) a b c d = Ok (op, payload) -> isTypedHostCall payload = false -> parseHostcallParams payload = Ok params ->
  dispatch h op params = (h', Throws e) -> plain (error_envelope e) = true -> encode_value (error_envelope e) = Ok bytes -> blen bytes <= maxResponseBytes ->
  exists br, call h a b c d = (h', Returned HOSTCALL_STATUS_ERROR br) /\ lastResponseBytes br = bytes /\ getLastResponseEnvelope br = Ok (error_envelope e).
Proof.
  intros Hmax Hr Ht Hp Hd Hpl Henc Hle. exists (Bridge HOSTCALL_STATUS_ERROR (error_envelope e) bytes).
  assert (Hs : setEnvelope HOSTCALL_STATUS_ERROR (error_envelope e) = Ok (Bridge HOSTCALL_STATUS_ERROR (error_envelope e) bytes)).
  { unfold setEnvelope. rewrite Henc. cbn [rbind]. by rewrite (proj2 (Z.ltb_ge _ _) Hle). }
  split_and!; [|done|unfold getLastResponseEnvelope; apply (value_roundtrip _ _ Hpl Henc); cbn; lia].
  unfold call, attempt, report. rewrite Hr, Ht, Hp, Hd. by rewrite Hs.
Qed.

(** An envelope that does not fit is an exception in the guest, not a status: the limit applies to the report of the failure too. *)
Lemma limit_traps h a b c d h' v params op payload :
  request (memory h) a b c d = Ok (op, payload) -> isTypedHostCall payload = false -> parseHostcallParams payload = Ok params ->
  dispatch h op params = (h', Answer v) -> maxResponseBytes < 4 -> exists e, call h a b c d = (h', Trapped e).
Proof.
  intros Hr Ht Hp Hd Hm. assert (Hs : forall st w, exists e, setEnvelope st w = Throw e).
  { intros st w. destruct (setEnvelope st w) as [br|e] eqn:E; [|eauto]. apply setEnvelope_inv in E as (_ & _ & E & Hle). unfold encode_value in E.
    destruct (detachBinaryValues w []) as [meta segs]. js_inv E. match goal with Hb : _ = lastResponseBytes br |- _ => rewrite <- Hb in Hle end.
    unfold encodeHostcallEnvelope in Hle. match type of Hle with context [blen (_ ++ ?x ++ ?y ++ ?z)] => pose proof (blen_nonneg x); pose proof (blen_nonneg y); pose proof (blen_nonneg z) end. blia. }
  unfold call, attempt, report. rewrite Hr, Ht, Hp, Hd.
  destruct (Hs HOSTCALL_STATUS_OK (success_envelope v)) as [e1 ->]. destruct (Hs HOSTCALL_STATUS_ERROR (error_envelope (describe e1))) as [e2 ->].
  destruct (Hs HOSTCALL_STATUS_ERROR (error_envelope (describe e2))) as [e3 ->]. eauto.
Qed.
End bridge.

(** ** A bridge at work

    The texts of two kinds of documents: the answer [true], and an error with a message. *)
Definition tiny_answer : jsval := success_envelope (JBool true).
Definition tiny_error (message : jsstring) : host_error := HostError JUndefined (JStr message) JUndefined JUndefined JUndefined.
Definition tiny_text (e : host_error) : jsstring := [].
Definition tiny_stringify (v : jsval) : result (list Z) :=
  match v with
  | JObj [(k1, JBool true); (k2, JBool true)] => if str_eqb k1 (lit "ok") && str_eqb k2 (lit "result") then Ok [116] else Throw (TypeError "document")
  | JObj [(k1, JBool false); (k2, JObj [(n, JStr x); (m, JStr s); (c, JNull); (o, JNull); (p, JNull)])] =>
      if str_eqb k1 (lit "ok") && str_eqb k2 (lit "error") && str_eqb n (lit "name") && str_eqb x (lit "Error") && str_eqb m (lit "message") &&
         str_eqb c (lit "code") && str_eqb o (lit "operation") && str_eqb p (lit "capability") then Ok (101 :: s) else Throw (TypeError "document")
  | _ => Throw (TypeError "document")
  end.
Definition tiny_parse (b : list Z) : result jsval :=
  match b with
  | [116] => Ok tiny_answer
  | 101 :: s => Ok (error_envelope tiny_text (tiny_error s))
  | _ => Throw (Error "JSON")
  end.
#[local] Instance tiny_json : MetaJson := {| meta_stringify := tiny_stringify; meta_parse := tiny_parse |}.

Ltac open_document v :=
  match v with
  | context [match ?x with _ => _ end] => is_var x; destruct x; try discriminate
  end.
#[local] Instance tiny_json_laws : MetaJsonLaws.
Proof.
  constructor. intros v v' segs b _ _. cbn [meta_stringify tiny_json]. unfold tiny_stringify. intros Hs.
  repeat match type of Hs with ?l = Ok _ => open_document l end;
    match type of Hs with (if ?t then _ else _) = _ => destruct t eqn:Ht; [|discriminate Hs] end; injection Hs as <-;
    repeat match goal with Hb : _ && _ = true |- _ => apply andb_true_iff in Hb as [? ?] end;
    repeat match goal with Hb : str_eqb _ _ = true |- _ => apply str_eqb_eq in Hb; subst end; reflexivity.
Qed.

(** The guest's memory: the operation "ping" at 0, and room behind it. *)
Definition tiny_memory : list Z := lit "ping" ++ replicate 8 0.
Definition tiny_dispatch (h : list Z) (operation : jsstring) (params : jsval) : list Z * outcome :=
  (h ++ [1], if str_eqb operation (lit "ping") then Answer (JBool true) else Throws (tiny_error (lit "no"))).
Definition tiny_typed (h : list Z) (payload : list Z) : list Z * (list Z + host_error) := (h, inr (tiny_error (lit "typed"))).
Definition tiny_describe (e : js_error) : host_error := tiny_error (lit "failed").
Definition tiny_call := call (fun h => h) tiny_dispatch tiny_typed tiny_describe tiny_text 100 100.

Definition answered : bridge := Bridge HOSTCALL_STATUS_OK tiny_answer (encodeHostcallEnvelope [116] []).
Definition failed (message : jsstring) : bridge :=
  Bridge HOSTCALL_STATUS_ERROR (error_envelope tiny_text (tiny_error message)) (encodeHostcallEnvelope (101 :: message) []).


Lemma response_within_limit_witness :
  exists br, tiny_call tiny_memory 0 3 4 0 = (tiny_memory ++ [1], Returned HOSTCALL_STATUS_ERROR br) /\ blen (lastResponseBytes br) <= 100.
Proof.
  exists (failed (lit "no")). split; [reflexivity|].
  exact (proj1 (response_within_limit (M := tiny_json) (fun h => h) tiny_dispatch tiny_typed tiny_describe tiny_text 100 100 tiny_memory 0 3 4 0 (tiny_memory ++ [1]) _ (failed (lit "no")) ltac:(reflexivity))).
Defined.

Lemma bad_ranges_dispatch_nothing_witness : (tiny_call tiny_memory 0 4 8 5).1 = tiny_memory.
Proof.
  destruct (tiny_call tiny_memory 0 4 8 5) as [h' r] eqn:Hc.
  apply (bad_ranges_dispatch_nothing (M := tiny_json) (fun h => h) tiny_dispatch tiny_typed tiny_describe tiny_text 100 100 tiny_memory 0 4 8 5 h' r Hc).
  change (blen tiny_memory) with 12. lia.
Defined.

Lemma failure_is_reported_witness :
  exists br, tiny_call tiny_memory 0 3 4 0 = (tiny_memory ++ [1], Returned HOSTCALL_STATUS_ERROR br) /\
    getLastResponseEnvelope br = Ok (error_envelope tiny_text (tiny_error (lit "no"))).
Proof.
  destruct (failure_is_reported (M := tiny_json) (fun h => h) tiny_dispatch tiny_typed tiny_describe tiny_text 100 100 tiny_memory 0 3 4 0 (lit "pin") [] JNull (tiny_memory ++ [1])
    (tiny_error (lit "no")) (encodeHostcallEnvelope (101 :: lit "no") []) ltac:(lia) eq_refl eq_refl eq_refl eq_refl eq_refl eq_refl ltac:(vm_compute; discriminate))
    as (br & Hc & _ & Hg).
  by exists br.
Defined.

(** A bridge with too small a limit: a failing operation ends the guest. *)
Example small_limit_ends_the_guest :
  call (fun h => h) tiny_dispatch tiny_typed tiny_describe tiny_text 100 8 tiny_memory 0 3 4 0 = (tiny_memory ++ [1], Trapped (tiny_error (lit "failed"))).
Proof. reflexivity. Qed.
(** A pointer at 2 GiB is the negative number -2147483648 when it reaches the host, and is refused however large the memory is. *)
Lemma high_pointers_are_refused mem p n label : 2 ^ 31 <= p < 2 ^ 32 -> readMemoryBytes mem (p - 2 ^ 32) n label = Throw (RangeError (label ++ " pointer must be a non-negative integer.")).
Proof. intros Hp. unfold readMemoryBytes. by rewrite (proj2 (Z.ltb_lt _ _)) by lia. Qed.
