(* ===== verification/HostDispatch.v ===== *)
(** Where a hostcall goes: the operations of a host that are called at once (src/host/abi.js), the operations that the adapters of an embedder serve
    (src/host/adapterOperations.js, src/host/nodeHost.js), and the calls that are answered with a promise.

    The methods of a host are a parameter: given the path of a method and its arguments, they change the state [H] of the host and answer. Messages of errors
    are abbreviated. *)
From Stdlib Require Import ZArith QArith Lia.
From stdpp Require Import base list strings numbers.
From S2P Require Import Prelude JsText JsMap RuntimeHost HostcallWire HostcallBridge.
Open Scope Z_scope.

Definition plain_error (name message : string) : host_error := HostError (JStr (lit name)) (JStr (lit message)) JUndefined JUndefined JUndefined.
Definition unavailable : host_error := plain_error "Error" "The operation is not available in the synchronous hostcall ABI.".
Definition assertNonEmptyString (value : jsstring) : jsstring + host_error :=
  if bool_decide (trim value = []) then inr (plain_error "TypeError" "required") else inl (trim value).

(** [v?.k], for the names that are read here. *)
Definition member (v : jsval) (k : string) : jsval :=
  match v with
  | JObj l => match List.find (fun kv => str_eqb kv.1 (lit k)) l with Some kv => kv.2 | None => JUndefined end
  | JStr s => if bool_decide (k = "length"%string) then JNum (Fin (inject_Z (blen s))) else JUndefined
  | JBytes b => if bool_decide (k = "length"%string) then JNum (Fin (inject_Z (blen b))) else JUndefined
  | JArr l => if bool_decide (k = "length"%string) then JNum (Fin (inject_Z (blen l))) else JUndefined
  | _ => JUndefined
  end.

(** ** The operations of the adapters *)

Record served_operation := Served { served_name : jsstring; served_capability : option jsstring; served_adapter : string; served_method : string }.
Definition served (name : string) (capability : string) (adapter method : string) : served_operation :=
  Served (lit name) (if bool_decide (capability = ""%string) then None else Some (lit capability)) adapter method.
Definition ADAPTER_OPERATIONS : list served_operation := [
  served "node.peerId" "" "node" "peerId";
  served "node.publicKey" "" "node" "publicKey";
  served "secrets.get" "secrets" "secrets" "get";
  served "secrets.status" "secrets" "secrets" "status";
  served "secrets.put" "secrets" "secrets" "put";
  served "secrets.clear" "secrets" "secrets" "clear";
  served "storage.write" "storage_write" "storage" "write";
  served "storage.query" "storage_query" "storage" "query";
  served "storage.delete" "storage_write" "storage" "delete";
  served "storage.expire" "storage_write" "storage" "expire";
  served "storage.ingest_with_source" "storage_ingest" "storage" "ingest_with_source";
  served "storage.flatsql_query_stream" "storage_query" "storage" "flatsql_query_stream";
  served "storage.flatsql_epoch_stream" "storage_query" "storage" "flatsql_epoch_stream";
  served "storage.query_sandboxed" "storage_query" "storage" "query_sandboxed";
  served "storage.query_surface" "storage_query" "storage" "query_surface";
  served "storage.flatsql_cache_key" "storage_query" "storage" "flatsql_cache_key";
  served "p2p.peers_snapshot" "p2p_read" "p2p" "peers_snapshot";
  served "p2p.standards_snapshot" "p2p_read" "p2p" "standards_snapshot";
  served "p2p.pnm_history" "p2p_read" "p2p" "pnm_history";
  served "p2p.latest_dataset" "p2p_read" "p2p" "latest_dataset";
  served "node_status_read.status" "node_status_read" "node" "status";
  served "node_activity_read.activity" "node_activity_read" "node" "activity"
].
Definition find_served (operation : jsstring) : option served_operation := List.find (fun s => str_eqb (served_name s) operation) ADAPTER_OPERATIONS.

(** The names an object has from its prototype: looking one of them up in a table gives something. *)
Definition OBJECT_PROTOTYPE : list jsstring := map lit [
  "constructor"; "__defineGetter__"; "__defineSetter__"; "hasOwnProperty"; "__lookupGetter__"; "__lookupSetter__"; "isPrototypeOf"; "propertyIsEnumerable";
  "toString"; "valueOf"; "__proto__"; "toLocaleString"]%string.
(** [ADAPTER_OPERATIONS\[operation\]], as a condition. *)
Definition in_adapter_operations (operation : jsstring) : bool :=
  match find_served operation with Some _ => true | None => existsb (str_eqb operation) OBJECT_PROTOTYPE end.

(** The capabilities of those operations, each once, in order of first use. *)
Definition ADAPTER_CAPABILITIES : list jsstring :=
  fold_left (fun acc s => match served_capability s with Some c => if existsb (str_eqb c) acc then acc else acc ++ [c] | None => acc end) ADAPTER_OPERATIONS [].

Definition NodeHostSupportedCapabilities : list jsstring := map lit [
  "clock"; "random"; "timers"; "schedule_cron"; "http"; "websocket"; "mqtt"; "network"; "filesystem"; "tcp"; "udp"; "tls"; "ipfs"; "protocol_handle";
  "protocol_dial"; "context_read"; "context_write"; "crypto_hash"; "crypto_sign"; "crypto_verify"; "crypto_encrypt"; "crypto_decrypt";
  "crypto_key_agreement"; "crypto_kdf"; "wallet_sign"; "process_exec"]%string ++ ADAPTER_CAPABILITIES.
Definition network_backed : list jsstring := map lit ["http"; "websocket"; "mqtt"; "tcp"; "udp"; "tls"]%string.

Section host.
Context {H : Type}.

(** What an adapter has under a name: a function, or a plain value. *)
Inductive adapter_member := AFunction (f : H -> jsval -> H * outcome) | AValue (v : jsval).
Record service_adapter := ServiceAdapter { adapter_get : string -> option adapter_member; adapter_invoke : option (H -> string -> jsval -> H * outcome) }.

Definition unsupported (message : string) : host_error := plain_error "Error" message.
(** An adapter is [None] when it is not an object. *)
Definition callServiceAdapter (adapter : option service_adapter) (method : string) (h : H) (params : jsval) : H * outcome :=
  match adapter with
  | None => (h, Throws (unsupported "adapter is not configured for this host."))
  | Some a =>
      match adapter_get a method with
      | Some (AFunction f) => f h params
      | Some (AValue v) => (h, Answer v)
      | None => match adapter_invoke a with
                | Some f => f h method params
                | None => (h, Throws (unsupported "adapter does not implement the method or invoke()."))
                end
      end
  end.

(** The part of a Node host that answers for capabilities and serves adapters. *)
Record node_host := NodeHost { granted : list jsstring; adapters : string -> option service_adapter }.

Definition hasCapability (n : node_host) (capability : jsstring) : bool :=
  existsb (str_eqb (trim capability)) (granted n) || (existsb (str_eqb (lit "network")) (granted n) && existsb (str_eqb (trim capability)) network_backed).
Definition capability_error (message code : string) (capability operation : jsstring) : host_error :=
  HostError (JStr (lit "HostCapabilityError")) (JStr (lit message)) (JStr (lit code)) (JStr operation) (JStr capability).
Definition assertCapability (n : node_host) (capability operation : jsstring) : jsstring + host_error :=
  match assertNonEmptyString capability with
  | inr e => inr e
  | inl normalized =>
      if negb (existsb (str_eqb normalized) NodeHostSupportedCapabilities)
      then inr (capability_error "is not supported by the reference Node host." "host-capability-unsupported" normalized operation)
      else if negb (existsb (str_eqb normalized) (granted n)) &&
              negb (existsb (str_eqb (lit "network")) (granted n) && existsb (str_eqb normalized) network_backed)
      then inr (capability_error "is not granted for this Node host." "host-capability-denied" normalized operation)
      else inl normalized
  end.

(** A name of the prototype has neither a capability nor an adapter. *)
Definition serveAdapterOperation (n : node_host) (operation : jsstring) (h : H) (params : jsval) : H * outcome :=
  match find_served operation with
  | None => (h, Throws (if existsb (str_eqb operation) OBJECT_PROTOTYPE then unsupported "adapter is not configured for this host."
                        else plain_error "Error" "Unknown Node host operation."))
  | Some s =>
      match (match served_capability s with Some c => assertCapability n c operation | None => inl [] end) with
      | inr e => (h, Throws e)
      | inl _ => callServiceAdapter (adapters n (served_adapter s)) (served_method s) h (or_else params (JObj []))
      end
  end.

(** ** Calls that are answered at once *)

(** What is passed to a method: a field of the parameters, the first of two fields that is there, or the parameters. *)
Inductive argument := Field (k : string) | FirstField (k1 k2 : string) | Whole.
Definition argument_value (params : jsval) (a : argument) : jsval :=
  match a with Field k => member params k | FirstField k1 k2 => or_else (member params k1) (member params k2) | Whole => params end.
(** The path of a method under the host, its arguments ([None]: a property is read), and whether a promise is refused. *)
Record host_operation := HostOperation { ho_name : jsstring; ho_path : list string; ho_arguments : option (list argument); ho_sync : bool }.
Definition property (name : string) (path : list string) := HostOperation (lit name) path None false.
Definition method (name : string) (path : list string) (arguments : list argument) := HostOperation (lit name) path (Some arguments) false.
Definition sync_method (name : string) (path : list string) (arguments : list argument) := HostOperation (lit name) path (Some arguments) true.
Definition host_operations : list host_operation := [
  property "host.runtimeTarget" ["runtimeTarget"];
  method "host.listCapabilities" ["listCapabilities"] [];
  method "host.listSupportedCapabilities" ["listSupportedCapabilities"] [];
  method "host.listOperations" ["listOperations"] [];
  method "host.hasCapability" ["hasCapability"] [Field "capability"];
  method "plugin.getConfig" ["plugin"; "getConfig"] [];
  method "clock.now" ["clock"; "now"] [];
  method "clock.monotonicNow" ["clock"; "monotonicNow"] [];
  method "clock.nowIso" ["clock"; "nowIso"] [];
  method "random.bytes" ["random"; "bytes"] [Field "length"];
  method "schedule.parse" ["schedule"; "parse"] [Field "expression"];
  method "schedule.matches" ["schedule"; "matches"] [Field "expression"; Field "date"];
  method "schedule.next" ["schedule"; "next"] [Field "expression"; Field "from"];
  method "filesystem.resolvePath" ["filesystem"; "resolvePath"] [Field "path"];
  sync_method "crypto.sha256" ["crypto"; "sha256"] [FirstField "value" "bytes"];
  sync_method "crypto.sha512" ["crypto"; "sha512"] [FirstField "value" "bytes"];
  sync_method "crypto.hkdf" ["crypto"; "hkdf"] [Whole];
  sync_method "crypto.aesGcmEncrypt" ["crypto"; "aesGcmEncrypt"] [Whole];
  sync_method "crypto.aesGcmDecrypt" ["crypto"; "aesGcmDecrypt"] [Whole];
  sync_method "crypto.x25519.generateKeypair" ["crypto"; "generateX25519Keypair"] [];
  sync_method "crypto.x25519.publicKey" ["crypto"; "x25519PublicKey"] [Field "privateKey"];
  sync_method "crypto.x25519.sharedSecret" ["crypto"; "x25519SharedSecret"] [Field "privateKey"; Field "publicKey"];
  sync_method "crypto.secp256k1.publicKeyFromPrivate" ["crypto"; "secp256k1"; "publicKeyFromPrivate"] [Field "privateKey"];
  sync_method "crypto.secp256k1.sign" ["crypto"; "secp256k1"; "sign"] [Field "message"; Field "privateKey"];
  sync_method "crypto.secp256k1.verify" ["crypto"; "secp256k1"; "verify"] [Field "message"; Field "signature"; Field "publicKey"];
  sync_method "crypto.ed25519.publicKeyFromSeed" ["crypto"; "ed25519"; "publicKeyFromSeed"] [Field "seed"];
  sync_method "crypto.ed25519.sign" ["crypto"; "ed25519"; "sign"] [Field "message"; Field "seed"];
  sync_method "crypto.ed25519.verify" ["crypto"; "ed25519"; "verify"] [Field "message"; Field "signature"; Field "publicKey"]
]%string.
Definition find_operation (operation : jsstring) : option host_operation := List.find (fun o => str_eqb (ho_name o) operation) host_operations.

Definition SyncHostcallOperations : list jsstring := map lit [
  "host.runtimeTarget"; "host.listCapabilities"; "host.listSupportedCapabilities"; "host.listOperations"; "host.hasCapability"; "plugin.getConfig"; "clock.now";
  "clock.monotonicNow"; "clock.nowIso"; "random.bytes"; "schedule.parse"; "schedule.matches"; "schedule.next"; "filesystem.resolvePath"]%string.

(** An object with methods, as the generic lookup sees it; [ca_invoke] is its own [invoke]. *)
Record capability_adapter := CapabilityAdapter {
  ca_method : jsstring -> option (H -> jsval -> H * outcome); ca_invoke : option (H -> jsstring -> jsval -> H * outcome) }.
(** What a lookup gives: nothing (or a value that is not truthy), a value that is not an object, or an object. *)
Inductive looked_up := Nothing | NotAnObject | AnObject (a : capability_adapter).
Inductive capability_field := RegistryMap (get : jsstring -> looked_up) | RegistryObject (get : jsstring -> looked_up) | NoRegistry.

(** A host: its methods by path, and what the dispatchers ask of it. *)
Record host_object := HostObject {
  host_method : list string -> H -> option (list jsval) -> H * outcome;
  has_getConfig : bool;
  host_serveAdapterOperation : option (jsstring -> H -> jsval -> H * outcome);
  host_invoke : option (H -> jsstring -> jsval -> H * outcome);
  host_invokeCapability : option (H -> jsstring -> jsval -> H * outcome);
  host_getCapability : option (H -> jsstring -> looked_up);
  host_capabilities : H -> capability_field;
  host_property : H -> jsstring -> looked_up
}.

Definition assertSyncHostcallResult (o : outcome) : outcome := match o with PromiseLike _ => Throws unavailable | o => o end.

Definition dispatchHostSyncOperation (host : host_object) (h : H) (operation : jsstring) (params : jsval) : H * outcome :=
  match assertNonEmptyString operation with
  | inr e => (h, Throws e)
  | inl normalized =>
      match find_operation normalized with
      | Some o =>
          if str_eqb normalized (lit "plugin.getConfig") && negb (has_getConfig host) then (h, Throws unavailable)
          else let (h', r) := host_method host (ho_path o) h (option_map (map (argument_value params)) (ho_arguments o)) in
               (h', if ho_sync o then assertSyncHostcallResult r else r)
      | None =>
          match host_serveAdapterOperation host with
          | Some serve => if in_adapter_operations normalized then serve normalized h (or_else params (JObj [])) else (h, Throws unavailable)
          | None => (h, Throws unavailable)
          end
      end
  end.

(** ** Calls that are answered with a promise

    The result is what the promise settles with; [None] is a promise that stays pending. *)
Definition settle (o : outcome) : option (jsval + host_error) :=
  match o with Answer v => Some (inl v) | PromiseLike r => r | Throws e => Some (inr e) end.

Definition normalizeCapabilityOperation (operation : jsstring) : option (jsstring * jsstring) :=
  match cut_at_dot operation with
  | Some (a, b) => if bool_decide (a = []) || bool_decide (b = []) then None else Some (a, b)
  | None => None
  end.

(** [_x] is [X], for x from a to z. *)
Fixpoint camel_case (s : jsstring) : jsstring :=
  match s with
  | 95 :: ((c :: rest) as s') => if (97 <=? c) && (c <=? 122) then (c - 32) :: camel_case rest else 95 :: camel_case s'
  | c :: s' => c :: camel_case s'
  | [] => []
  end.

Definition truthy_or (l : looked_up) (rest : looked_up) : looked_up := match l with Nothing => rest | l => l end.
Definition object_or (l : looked_up) (rest : looked_up) : looked_up := match l with AnObject a => AnObject a | _ => rest end.
Definition getHostCapabilityAdapter (host : host_object) (h : H) (capabilityId : jsstring) : looked_up :=
  truthy_or (match host_getCapability host with Some get => get h capabilityId | None => Nothing end)
    (truthy_or (match host_capabilities host h with RegistryMap get | RegistryObject get => get capabilityId | NoRegistry => Nothing end)
       (object_or (host_property host h capabilityId) (object_or (host_property host h (camel_case capabilityId)) Nothing))).

(** [JUndefined]: the operation is not one that an adapter has, or the adapter answered nothing. *)
Definition dispatchHostCapabilityOperation (host : host_object) (h : H) (operation : jsstring) (params : jsval) : H * option (jsval + host_error) :=
  match normalizeCapabilityOperation operation with
  | None => (h, Some (inl JUndefined))
  | Some (capabilityId, methodId) =>
      match getHostCapabilityAdapter host h capabilityId with
      | AnObject a =>
          match ca_method a methodId with
          | Some f => let (h', o) := f h params in (h', settle o)
          | None =>
              match ca_invoke a with
              | Some f => let (h', o) := f h methodId params in (h', settle o)
              | None => (h, Some (inr (plain_error "Error" "Host capability does not implement the method or invoke().")))
              end
          end
      | _ => (h, Some (inl JUndefined))
      end
  end.

Definition settled (r : H * outcome) : H * option (jsval + host_error) := (r.1, settle r.2).

Definition dispatchHostOperation (host : host_object) (h : H) (operation : jsstring) (params : jsval) : H * option (jsval + host_error) :=
  match assertNonEmptyString operation with
  | inr e => (h, Some (inr e))
  | inl normalized =>
      match host_invoke host with
      | Some invoke => settled (invoke h normalized params)
      | None =>
          match host_invokeCapability host with
          | Some invokeCapability =>
              match invokeCapability h normalized params with
              | (h', Throws e) => if existsb (str_eqb normalized) SyncHostcallOperations then settled (dispatchHostSyncOperation host h' normalized params) else (h', Some (inr e))
              | r => settled r
              end
          | None =>
              match dispatchHostCapabilityOperation host h normalized params with
              | (h', Some (inl JUndefined)) => settled (dispatchHostSyncOperation host h' normalized params)
              | r => r
              end
          end
      end
  end.
End host.

(** ** What the dispatchers guarantee *)

Section guarantees.
Context {H : Type}.
Implicit Types (n : node_host (H := H)) (h : H) (host : host_object (H := H)).

Lemma existsb_In (c : jsstring) l : existsb (str_eqb c) l = true <-> In c l.
Proof. rewrite existsb_exists. split; [by intros (x & Hx & ->%str_eqb_eq)|]. intros Hc. exists c. by rewrite (proj2 (str_eqb_eq c c)). Qed.

Lemma assertNonEmptyString_ok s : trim s <> [] -> assertNonEmptyString s = inl (trim s).
Proof. intros Hs. unfold assertNonEmptyString. by rewrite bool_decide_false. Qed.

(** No capability of an adapter comes with "network", and each is supported. *)
Definition proper_capability (s : served_operation) : bool :=
  match served_capability s with
  | Some c => str_eqb (trim c) c && negb (str_eqb c []) && negb (existsb (str_eqb c) network_backed) && existsb (str_eqb c) NodeHostSupportedCapabilities
  | None => true
  end.
Lemma adapter_capabilities s c : In s ADAPTER_OPERATIONS -> served_capability s = Some c ->
  trim c = c /\ c <> [] /\ existsb (str_eqb c) network_backed = false /\ existsb (str_eqb c) NodeHostSupportedCapabilities = true.
Proof.
  intros Hs Hc. assert (Hall : forallb proper_capability ADAPTER_OPERATIONS = true) by (vm_compute; reflexivity).
  rewrite forallb_forall in Hall. specialize (Hall s Hs). unfold proper_capability in Hall. rewrite Hc in Hall.
  apply andb_true_iff in Hall as [[[Ht%str_eqb_eq He%negb_true_iff]%andb_true_iff Hn%negb_true_iff]%andb_true_iff Hsup].
  split_and!; try done. intros ->. discriminate He.
Qed.
(** No operation of an adapter is one of the host's own. *)
Lemma adapter_operations_apart s : In s ADAPTER_OPERATIONS -> find_operation (served_name s) = None.
Proof.
  intros Hs. assert (Hall : forallb (fun s => match find_operation (served_name s) with None => true | _ => false end) ADAPTER_OPERATIONS = true) by (vm_compute; reflexivity).
  rewrite forallb_forall in Hall. specialize (Hall s Hs). by destruct (find_operation (served_name s)).
Qed.

Lemma find_served_inv op s : find_served op = Some s -> In s ADAPTER_OPERATIONS /\ served_name s = op.
Proof. intros E. apply List.find_some in E as [? ?%str_eqb_eq]. done. Qed.

Lemma assertCapability_adapter n s c op : In s ADAPTER_OPERATIONS -> served_capability s = Some c ->
  (In c (granted n) /\ assertCapability n c op = inl c) \/ (~ In c (granted n) /\ exists e, assertCapability n c op = inr e).
Proof.
  intros Hs Hc. destruct (adapter_capabilities s c Hs Hc) as (Ht & Hne & Hnet & Hsup). unfold assertCapability. rewrite assertNonEmptyString_ok by congruence.
  rewrite Ht, Hsup, Hnet, andb_false_r. cbn [negb]. rewrite andb_true_r. destruct (existsb (str_eqb c) (granted n)) eqn:Eg; cbn [negb]; [left|right].
  - split; [|done]. by apply existsb_In.
  - split; [|eauto]. intros Hin%existsb_In. congruence.
Qed.

(** An adapter is only called with its capability granted: [serveAdapterOperation] either leaves the state of the host alone and throws, or the operation is
    one of the table, the capability it names is literally among the granted ones (granting "network" does not stand for it), and what is done is the call of
    the method that the table gives for the operation. *)
Theorem adapter_calls_are_granted n op h params :
  (exists e, serveAdapterOperation n op h params = (h, Throws e)) \/
  exists s a, In s ADAPTER_OPERATIONS /\ served_name s = op /\ (forall c, served_capability s = Some c -> In c (granted n)) /\ adapters n (served_adapter s) = Some a /\
    serveAdapterOperation n op h params = callServiceAdapter (Some a) (served_method s) h (or_else params (JObj [])).
Proof.
  unfold serveAdapterOperation. destruct (find_served op) as [s|] eqn:Es; [|eauto]. apply find_served_inv in Es as [Hs Hn].
  destruct (adapters n (served_adapter s)) as [a|] eqn:Ea; [|left; by destruct (match served_capability s with Some c => _ | None => _ end); eauto].
  destruct (served_capability s) as [c|] eqn:Ec; [|right; exists s, a; rewrite Ec; split_and!; try done].
  destruct (assertCapability_adapter n s c op Hs Ec) as [[Hg ->]|[_ [e ->]]]; [|eauto]. right. exists s, a. split_and!; try done. intros c' Hc'. congruence.
Qed.

(** What a Node host says it has is what it lets through: for a supported capability, whatever the spaces around it, [assertCapability] passes exactly when
    [hasCapability] is true. *)
Theorem capability_checks_agree n c op :
  In (trim c) NodeHostSupportedCapabilities -> (hasCapability n c = true <-> assertCapability n c op = inl (trim c)).
Proof.
  intros Hc. assert (Hne : trim c <> []).
  { intros He. rewrite He in Hc. apply existsb_In in Hc. vm_compute in Hc. discriminate Hc. }
  apply existsb_In in Hc. unfold assertCapability, hasCapability. rewrite assertNonEmptyString_ok by done. rewrite Hc. cbn [negb].
  destruct (existsb (str_eqb (trim c)) (granted n)), (existsb (str_eqb (lit "network")) (granted n) && existsb (str_eqb (trim c)) network_backed); cbn; split; done.
Qed.

(** Operations that the host does not have change nothing: a synchronous call whose name, without the spaces around it, is neither one of the host's own
    operations nor one of the adapters' throws and leaves the state of the host alone. *)
Theorem unknown_operations_change_nothing host h op params :
  find_operation (trim op) = None -> in_adapter_operations (trim op) = false -> exists e, dispatchHostSyncOperation host h op params = (h, Throws e).
Proof.
  intros Ho Ha. unfold dispatchHostSyncOperation, assertNonEmptyString. case_bool_decide; [eauto|]. rewrite Ho, Ha.
  destruct (host_serveAdapterOperation host); eauto.
Qed.

(** The listed operations are all served, by methods whose promises are not refused here. *)
Lemma listed_operations_are_served op : In op SyncHostcallOperations -> exists o, find_operation op = Some o /\ ho_sync o = false.
Proof.
  intros Hop. assert (Hall : forallb (fun op => match find_operation op with Some o => negb (ho_sync o) | None => false end) SyncHostcallOperations = true) by (vm_compute; reflexivity).
  rewrite forallb_forall in Hall. specialize (Hall op Hop). destruct (find_operation op) as [o|]; [|done]. exists o. split; [done|]. by destruct (ho_sync o).
Qed.

(** The crypto operations are dispatched here and never give a promise. *)
Lemma crypto_answers_at_once host h op params o h' r :
  find_operation (trim op) = Some o -> ho_sync o = true -> dispatchHostSyncOperation host h op params = (h', r) -> forall s, r <> PromiseLike s.
Proof.
  intros Ho Hs. unfold dispatchHostSyncOperation, assertNonEmptyString. case_bool_decide; [by intros [= _ <-]|]. rewrite Ho.
  destruct (str_eqb (trim op) (lit "plugin.getConfig") && negb (has_getConfig host)); [by intros [= _ <-]|].
  destruct (host_method _ _ _ _) as [h1 [v|s|e]]; rewrite Hs; cbn; by intros [= _ <-].
Qed.

(** *** The bridge over a Node host *)

Section guest.
Context {M : MetaJson} (memory : H -> list Z) (host : host_object (H := H)) (n : node_host (H := H)).
Context (typed : H -> list Z -> H * (list Z + host_error)) (describe : js_error -> host_error) (text : host_error -> jsstring) (maxRequest maxResponse : Z).
Context (serves : host_serveAdapterOperation host = Some (serveAdapterOperation n)).
Let guest_call := call memory (dispatchHostSyncOperation host) typed describe text maxRequest maxResponse.

Lemma sync_adapter h op params s c : find_served (trim op) = Some s -> served_capability s = Some c -> ~ In c (granted n) ->
  exists e, dispatchHostSyncOperation host h op params = (h, Throws e).
Proof using serves.
  intros Hs Hc Hg. unfold dispatchHostSyncOperation, assertNonEmptyString. case_bool_decide; [eauto|].
  destruct (find_served_inv _ _ Hs) as [Hin Hname]. pose proof (adapter_operations_apart s Hin) as Ho. rewrite Hname in Ho. rewrite Ho, serves. unfold in_adapter_operations. rewrite Hs.
  unfold serveAdapterOperation. rewrite Hs, Hc.
  destruct (assertCapability_adapter n s c (trim op) Hin Hc) as [[? _]|[_ [e ->]]]; [done|eauto].
Qed.

(** C27. An untyped hostcall needs the grant: when a guest calls an operation of an adapter, however it is spaced, with a payload that is not in the typed form
    (does not carry the file identifier $PIV), over a bridge to a Node host that was not granted the capability of the operation, the state of the host does
    not change and the guest does not get status 0, whatever else the payload is. Nothing is said of typed calls, which get status 0 also when they are
    refused, with the refusal inside the response. *)
Theorem guest_needs_the_grant h a b c d op payload s cap h' r :
  guest_call h a b c d = (h', r) -> request maxRequest (memory h) a b c d = Ok (op, payload) -> isTypedHostCall payload = false ->
  find_served (trim op) = Some s -> served_capability s = Some cap -> ~ In cap (granted n) -> h' = h /\ forall br, r <> Returned HOSTCALL_STATUS_OK br.
Proof using serves.
  intros Hc Hr Ht Hs Hcap Hg. unfold guest_call, call, attempt in Hc. rewrite Hr, Ht in Hc. destruct (parseHostcallParams payload) as [params|e0].
  1: destruct (sync_adapter h op params s cap Hs Hcap Hg) as [e0 He]; rewrite He in Hc.
  all: injection Hc as <- <-; split; [done|]; intros br; apply report_is_no_success.
Qed.
End guest.
End guarantees.

(** ** Where the promise dispatcher surprises *)

Section surprises.
Context {H : Type}.
Implicit Types (h : H) (host : host_object (H := H)).

(** An adapter that answers nothing is reported as missing: when a host is reached through its adapters (it has neither [invoke] nor [invokeCapability]) and
    the method of the adapter runs and answers undefined, directly or with a promise, the call is not answered with nothing. It fails with the error of an
    operation that does not exist, although the method has changed the state of the host. *)
Theorem void_answer_is_refused host h op params id m a f h' o :
  host_invoke host = None -> host_invokeCapability host = None -> trim op <> [] -> trim (trim op) = trim op ->
  normalizeCapabilityOperation (trim op) = Some (id, m) -> getHostCapabilityAdapter host h id = AnObject a -> ca_method a m = Some f ->
  f h params = (h', o) -> settle o = Some (inl JUndefined) -> find_operation (trim op) = None -> in_adapter_operations (trim op) = false ->
  dispatchHostOperation host h op params = (h', Some (inr unavailable)).
Proof.
  intros Hi Hc Hop Htt Hn Ha Hm Hf Ho Hfind Had. unfold dispatchHostOperation. rewrite assertNonEmptyString_ok by done. rewrite Hi, Hc.
  unfold dispatchHostCapabilityOperation. rewrite Hn, Ha, Hm, Hf, Ho. unfold settled, dispatchHostSyncOperation. rewrite assertNonEmptyString_ok by congruence.
  rewrite Htt, Hfind, Had. by destruct (host_serveAdapterOperation host).
Qed.

(** The operations that are listed as synchronous have a second way to be served, when [invokeCapability] throws. A promise that is rejected does not take it,
    so a host whose [invokeCapability] is an async function never gets there. *)
Lemma rejection_is_not_retried host h op params invokeCapability h' e :
  host_invoke host = None -> host_invokeCapability host = Some invokeCapability -> trim op <> [] ->
  invokeCapability h (trim op) params = (h', PromiseLike (Some (inr e))) -> dispatchHostOperation host h op params = (h', Some (inr e)).
Proof. intros Hi Hc Hop Hr. unfold dispatchHostOperation. rewrite assertNonEmptyString_ok by done. by rewrite Hi, Hc, Hr. Qed.
Lemma throw_is_retried host h op params invokeCapability h' e :
  host_invoke host = None -> host_invokeCapability host = Some invokeCapability -> trim op <> [] -> In (trim op) SyncHostcallOperations ->
  invokeCapability h (trim op) params = (h', Throws e) -> dispatchHostOperation host h op params = settled (dispatchHostSyncOperation host h' (trim op) params).
Proof.
  intros Hi Hc Hop Hin Hr. unfold dispatchHostOperation. rewrite assertNonEmptyString_ok by done. rewrite Hi, Hc, Hr.
  by rewrite (proj2 (existsb_In _ _) Hin).
Qed.
End surprises.

(** ** A small host

    Its state is the list of what was done; its storage has an operation [put], which answers nothing. *)
Definition log : Type := list jsstring.
Definition put_method (h : log) (params : jsval) : log * outcome := (h ++ [lit "put"], PromiseLike (Some (inl JUndefined))).
Definition shelf : capability_adapter (H := log) :=
  CapabilityAdapter (fun m => if str_eqb m (lit "put") then Some put_method else None) None.
(** The Map of a host's capabilities is itself an object with methods. *)
Definition map_object : capability_adapter (H := log) :=
  CapabilityAdapter (fun m => if str_eqb m (lit "clear") then Some (fun h _ => (h ++ [lit "cleared"], Answer JUndefined)) else None) None.
Definition small_node : node_host (H := log) :=
  NodeHost [lit "secrets"; lit "network"]
    (fun name => if bool_decide (name = "secrets"%string)
                 then Some (ServiceAdapter (fun m => Some (AFunction (fun h _ => (h ++ [lit m], Answer (JBool true))))) None) else None).
Definition small_host : host_object (H := log) :=
  HostObject (fun _ h _ => (h, Answer (JBool true))) false (Some (serveAdapterOperation small_node)) None None None
    (fun _ => RegistryMap (fun id => if str_eqb id (lit "shelf") then AnObject shelf else Nothing))
    (fun _ id => if str_eqb id (lit "capabilities") then AnObject map_object else Nothing).

Lemma capability_checks_agree_witness : assertCapability small_node (lit " secrets ") (lit "secrets.get") = inl (lit "secrets").
Proof.
  change (lit "secrets") with (trim (lit " secrets ")).
  apply (capability_checks_agree small_node (lit " secrets ") (lit "secrets.get")); [|reflexivity]. apply existsb_In. vm_compute. reflexivity.
Defined.
Lemma unknown_operations_change_nothing_witness : exists e, dispatchHostSyncOperation small_host [] (lit "shelf.put") JNull = ([], Throws e).
Proof. apply (unknown_operations_change_nothing small_host [] (lit "shelf.put") JNull); vm_compute; reflexivity. Defined.
Lemma void_answer_is_refused_witness : dispatchHostOperation small_host [] (lit "shelf.put") JNull = ([lit "put"], Some (inr unavailable)).
Proof.
  apply (void_answer_is_refused small_host [] (lit "shelf.put") JNull (lit "shelf") (lit "put") shelf put_method [lit "put"] (PromiseLike (Some (inl JUndefined))));
    try reflexivity; vm_compute; done.
Defined.

(** The state is the guest's memory and the log. *)
Definition guest_memory : list Z := lit "storage.write ".
Definition denied_host : host_object (H := list Z) :=
  HostObject (fun _ h _ => (h ++ [1], Answer (JBool true))) false
    (Some (serveAdapterOperation (NodeHost [lit "network"; lit "storage_query"] (fun _ => Some (ServiceAdapter (fun _ => Some (AValue (JBool true))) None)))))
    None None None (fun _ => NoRegistry) (fun _ _ => Nothing).
Lemma guest_needs_the_grant_witness :
  (call (M := tiny_json) (fun h => h) (dispatchHostSyncOperation denied_host) tiny_typed tiny_describe tiny_text 100 100 guest_memory 0 14 0 0).1 = guest_memory.
Proof.
  destruct (call (M := tiny_json) (fun h => h) (dispatchHostSyncOperation denied_host) tiny_typed tiny_describe tiny_text 100 100 guest_memory 0 14 0 0) as [h' r] eqn:Hc.
  refine (proj1 (guest_needs_the_grant (M := tiny_json) (fun h => h) denied_host
    (NodeHost [lit "network"; lit "storage_query"] (fun _ => Some (ServiceAdapter (fun _ => Some (AValue (JBool true))) None)))
    tiny_typed tiny_describe tiny_text 100 100 eq_refl guest_memory 0 14 0 0 (lit "storage.write ") [] (served "storage.write" "storage_write" "storage" "write")
    (lit "storage_write") h' r Hc _ eq_refl _ eq_refl _)); [vm_compute; reflexivity|vm_compute; reflexivity|].
  intros Hin%existsb_In. vm_compute in Hin. discriminate Hin.
Defined.

(** A guest of a host without [invoke] can name any object among the properties of the host, its registry of capabilities for one. *)
Example registry_can_be_cleared : (dispatchHostOperation small_host [] (lit "capabilities.clear") JNull).1 = [lit "cleared"].
Proof. vm_compute. reflexivity. Qed.
(** A name of Object.prototype passes the test for an operation of the adapters. *)
Example prototype_names_pass : in_adapter_operations (lit "toString") = true /\ find_served (lit "toString") = None.
Proof. split; vm_compute; reflexivity. Qed.
