(* ===== verification/DeployPlan.v ===== *)
(** Deployment plans (src/deployment/index.js): the normal form of a plan, its place in a bundle, and the text of a normal form as input again.

    A plan as a caller writes it is a value of JSON ([json] of JsJson.v, numbers being safe integers); properties that are not there are undefined, which the
    normalisers treat like null. The normal form is a record: a text is [None] for null. [String] throws for an object whose [toString] is not a function. *)
From Stdlib Require Import ZArith QArith Lia.
From stdpp Require Import base list strings numbers.
From S2P Require Import Prelude JsText JsMap JsNumber JsJson Canonical BundleVerify.
Open Scope Z_scope.

(** ** Values *)

Abbreviation text := (option jsstring).

(** [v.key]: null has no properties. *)
Definition member (v : json) (key : string) : json := match v with JObject l => property l key | _ => JNull end.
Definition has_members (v : json) : result unit := match v with JNull => Throw (TypeError "Cannot read properties of null") | _ => Ok tt end.

Definition nonempty (s : jsstring) : text := match s with [] => None | _ => Some s end.
Definition normalizeString (value : json) : result text :=
  match value with JNull => Ok None | _ => let! s := String_ value in Ok (nonempty (trim s)) end.
Definition normalizeBoolean (value : json) : bool := match value with JBool b => b | _ => false end.

(** [Number(v)], which reads an array or an object by its text. *)
Definition Number_ (v : json) : result jsnum :=
  match v with
  | JNull => Ok (int_num 0)
  | JBool b => Ok (int_num (if b then 1 else 0))
  | JNumber z => Ok (int_num z)
  | _ => let! s := String_ v in Ok (to_number s)
  end.
Definition normalizeInteger (value : json) (fallback : Z) : result Z :=
  let! n := match value with JNull => Ok (int_num fallback) | _ => Number_ value end in
  Ok match n with Fin q => Z.max 0 (q_trunc q) | _ => fallback end.

(** [.map] with a function that may throw. *)
Fixpoint rmap {A B : Type} (f : A -> result B) (l : list A) : result (list B) :=
  match l with [] => Ok [] | x :: l => let! y := f x in let! r := rmap f l in Ok (y :: r) end.
Definition items (value : json) : list json := match value with JArray l => l | _ => [] end.
Definition normalizeStringArray (value : json) : result (list jsstring) :=
  let! l := rmap normalizeString (items value) in Ok (omap id l).
Definition normalizeRecord (value : json) : list (jsstring * json) := match value with JObject l => l | _ => [] end.

(** *** Names

    [String(value).trim().toLowerCase().replace(/_/g, "-")], and the names that stand for another. *)
Definition dashes (s : jsstring) : jsstring := map (fun c => if c =? 95 then 45 else c) s.
Definition name_of (aliases : list (string * string)) (value : json) : result text :=
  match value with
  | JNull => Ok None
  | _ =>
      let! s := String_ value in
      let normalized := dashes (toLowerCase (trim s)) in
      Ok match List.find (fun a => str_eqb normalized (lit a.1)) aliases with Some a => Some (lit a.2) | None => nonempty normalized end
  end.
Definition normalizeProtocolTransportKindName := name_of [("websocket", "ws"); ("pipe", "wasi-pipe")]%string.
Definition normalizeProtocolRoleName := name_of [("handler", "handle")]%string.
Definition normalizeInputBindingSourceKindName := name_of [].
Definition normalizeDeploymentBindingModeName := name_of [("remote", "delegated")]%string.
Definition normalizeScheduleBindingKindName := name_of [("startup", "once")]%string.

(** ** Normal forms *)

Record installation := Installation {
  in_protocolId : text; in_wireId : text; in_transportKind : text; in_role : text; in_peerId : text; in_listenMultiaddrs : list jsstring;
  in_advertisedMultiaddrs : list jsstring; in_nodeInfoUrl : text; in_serviceName : text; in_resolvedPort : Z; in_artifactCid : text; in_description : text }.
Definition normalizeProtocolInstallation (v : json) : result installation :=
  let! _ := has_members v in
  let! protocolId := normalizeString (member v "protocolId") in
  let! wireId := normalizeString (member v "wireId") in
  let! transportKind := normalizeProtocolTransportKindName (member v "transportKind") in
  let! role := normalizeProtocolRoleName (member v "role") in
  let! peerId := normalizeString (member v "peerId") in
  let! listenMultiaddrs := normalizeStringArray (member v "listenMultiaddrs") in
  let! advertisedMultiaddrs := normalizeStringArray (member v "advertisedMultiaddrs") in
  let! nodeInfoUrl := normalizeString (member v "nodeInfoUrl") in
  let! serviceName := normalizeString (member v "serviceName") in
  let! resolvedPort := normalizeInteger (member v "resolvedPort") 0 in
  let! artifactCid := normalizeString (member v "artifactCid") in
  let! description := normalizeString (member v "description") in
  Ok (Installation protocolId wireId transportKind role peerId listenMultiaddrs advertisedMultiaddrs nodeInfoUrl serviceName resolvedPort artifactCid description).

Record input_binding := InputBinding {
  ib_bindingId : text; ib_interfaceId : text; ib_targetPluginId : text; ib_targetMethodId : text; ib_targetInputPortId : text; ib_sourceKind : text;
  ib_multiaddrs : list jsstring; ib_allowPeerIds : list jsstring; ib_allowServerKeys : list jsstring; ib_deliveryMode : text; ib_description : text }.
Definition normalizeInputBinding (v : json) : result input_binding :=
  let! _ := has_members v in
  let! bindingId := normalizeString (member v "bindingId") in
  let! interfaceId := normalizeString (member v "interfaceId") in
  let! targetPluginId := normalizeString (member v "targetPluginId") in
  let! targetMethodId := normalizeString (member v "targetMethodId") in
  let! targetInputPortId := normalizeString (member v "targetInputPortId") in
  let! sourceKind := normalizeInputBindingSourceKindName (member v "sourceKind") in
  let! multiaddrs := normalizeStringArray (member v "multiaddrs") in
  let! allowPeerIds := normalizeStringArray (member v "allowPeerIds") in
  let! allowServerKeys := normalizeStringArray (member v "allowServerKeys") in
  let! deliveryMode := normalizeString (member v "deliveryMode") in
  let! description := normalizeString (member v "description") in
  Ok (InputBinding bindingId interfaceId targetPluginId targetMethodId targetInputPortId sourceKind multiaddrs allowPeerIds allowServerKeys deliveryMode description).

Record schedule_binding := ScheduleBinding {
  sb_scheduleId : text; sb_bindingMode : text; sb_triggerId : text; sb_targetMethodId : text; sb_targetInputPortId : text; sb_scheduleKind : text;
  sb_cron : text; sb_intervalMs : Z; sb_runAtStartup : bool; sb_startupDelayMs : Z; sb_timezone : text; sb_description : text }.
Definition normalizeScheduleBinding (v : json) : result schedule_binding :=
  let! _ := has_members v in
  let! scheduleId := normalizeString (member v "scheduleId") in
  let! bindingMode := normalizeDeploymentBindingModeName (member v "bindingMode") in
  let! triggerId := normalizeString (member v "triggerId") in
  let! targetMethodId := normalizeString (member v "targetMethodId") in
  let! targetInputPortId := normalizeString (member v "targetInputPortId") in
  let! scheduleKind := normalizeScheduleBindingKindName (member v "scheduleKind") in
  let! cron := normalizeString (member v "cron") in
  let! intervalMs := normalizeInteger (member v "intervalMs") 0 in
  let runAtStartup := normalizeBoolean (member v "runAtStartup") in
  let! startupDelayMs := normalizeInteger (member v "startupDelayMs") 0 in
  let! timezone := normalizeString (member v "timezone") in
  let! description := normalizeString (member v "description") in
  Ok (ScheduleBinding scheduleId bindingMode triggerId targetMethodId targetInputPortId scheduleKind cron intervalMs runAtStartup startupDelayMs timezone description).

Record service_binding := ServiceBinding {
  sv_serviceId : text; sv_bindingMode : text; sv_serviceKind : text; sv_triggerId : text; sv_protocolId : text; sv_routePath : text; sv_method : text;
  sv_transportKind : text; sv_adapter : text; sv_listenHost : text; sv_listenPort : Z; sv_remoteUrl : text; sv_allowTransports : list jsstring;
  sv_authPolicyId : text; sv_description : text; sv_properties : list (jsstring * json) }.
Definition normalizeServiceBinding (v : json) : result service_binding :=
  let! _ := has_members v in
  let! serviceId := normalizeString (member v "serviceId") in
  let! bindingMode := normalizeDeploymentBindingModeName (member v "bindingMode") in
  let! serviceKind := normalizeString (member v "serviceKind") in
  let! triggerId := normalizeString (member v "triggerId") in
  let! protocolId := normalizeString (member v "protocolId") in
  let! routePath := normalizeString (member v "routePath") in
  let! method := normalizeString (member v "method") in
  let! transportKind := normalizeProtocolTransportKindName (member v "transportKind") in
  let! adapter := normalizeString (member v "adapter") in
  let! listenHost := normalizeString (member v "listenHost") in
  let! listenPort := normalizeInteger (member v "listenPort") 0 in
  let! remoteUrl := normalizeString (member v "remoteUrl") in
  let! allowTransports := normalizeStringArray (member v "allowTransports") in
  let! authPolicyId := normalizeString (member v "authPolicyId") in
  let! description := normalizeString (member v "description") in
  Ok (ServiceBinding serviceId bindingMode serviceKind triggerId protocolId routePath method transportKind adapter listenHost listenPort remoteUrl
        allowTransports authPolicyId description (normalizeRecord (member v "properties"))).

Record auth_policy := AuthPolicy {
  ap_policyId : text; ap_bindingMode : text; ap_targetKind : text; ap_targetId : text; ap_adapter : text; ap_walletProfileId : text; ap_trustMapId : text;
  ap_allowPeerIds : list jsstring; ap_allowServerKeys : list jsstring; ap_allowEntityIds : list jsstring; ap_requireSignedRequests : bool;
  ap_requireEncryptedTransport : bool; ap_description : text; ap_properties : list (jsstring * json) }.
Definition normalizeAuthPolicy (v : json) : result auth_policy :=
  let! _ := has_members v in
  let! policyId := normalizeString (member v "policyId") in
  let! bindingMode := normalizeDeploymentBindingModeName (member v "bindingMode") in
  let! targetKind := normalizeString (member v "targetKind") in
  let! targetId := normalizeString (member v "targetId") in
  let! adapter := normalizeString (member v "adapter") in
  let! walletProfileId := normalizeString (member v "walletProfileId") in
  let! trustMapId := normalizeString (member v "trustMapId") in
  let! allowPeerIds := normalizeStringArray (member v "allowPeerIds") in
  let! allowServerKeys := normalizeStringArray (member v "allowServerKeys") in
  let! allowEntityIds := normalizeStringArray (member v "allowEntityIds") in
  let! description := normalizeString (member v "description") in
  Ok (AuthPolicy policyId bindingMode targetKind targetId adapter walletProfileId trustMapId allowPeerIds allowServerKeys allowEntityIds
        (normalizeBoolean (member v "requireSignedRequests")) (normalizeBoolean (member v "requireEncryptedTransport")) description
        (normalizeRecord (member v "properties"))).

Record publication_binding := PublicationBinding {
  pb_publicationId : text; pb_interfaceId : text; pb_bindingMode : text; pb_sourceKind : text; pb_sourceMethodId : text; pb_sourceOutputPortId : text;
  pb_sourceNodeId : text; pb_sourceTriggerId : text; pb_schemaName : text; pb_mediaType : text; pb_archivePath : text; pb_queryInterfaceId : text;
  pb_emitPnm : bool; pb_emitFlatbufferArchive : bool; pb_pinPolicy : text; pb_maxRecords : Z; pb_maxBytes : Z; pb_minLivelinessSeconds : Z;
  pb_recordRangeStartField : text; pb_recordRangeStopField : text; pb_description : text; pb_properties : list (jsstring * json) }.
Definition normalizePublicationBinding (v : json) : result publication_binding :=
  let! _ := has_members v in
  let! publicationId := normalizeString (member v "publicationId") in
  let! interfaceId := normalizeString (member v "interfaceId") in
  let! bindingMode := normalizeDeploymentBindingModeName (member v "bindingMode") in
  let! sourceKind := normalizeString (member v "sourceKind") in
  let! sourceMethodId := normalizeString (member v "sourceMethodId") in
  let! sourceOutputPortId := normalizeString (member v "sourceOutputPortId") in
  let! sourceNodeId := normalizeString (member v "sourceNodeId") in
  let! sourceTriggerId := normalizeString (member v "sourceTriggerId") in
  let! schemaName := normalizeString (member v "schemaName") in
  let! mediaType := normalizeString (member v "mediaType") in
  let! archivePath := normalizeString (member v "archivePath") in
  let! queryInterfaceId := normalizeString (member v "queryInterfaceId") in
  let emitPnm := normalizeBoolean (member v "emitPnm") in
  let emitFlatbufferArchive := normalizeBoolean (member v "emitFlatbufferArchive") in
  let! pinPolicy := normalizeString (member v "pinPolicy") in
  let! maxRecords := normalizeInteger (member v "maxRecords") 0 in
  let! maxBytes := normalizeInteger (member v "maxBytes") 0 in
  let! minLivelinessSeconds := normalizeInteger (member v "minLivelinessSeconds") 0 in
  let! recordRangeStartField := normalizeString (member v "recordRangeStartField") in
  let! recordRangeStopField := normalizeString (member v "recordRangeStopField") in
  let! description := normalizeString (member v "description") in
  Ok (PublicationBinding publicationId interfaceId bindingMode sourceKind sourceMethodId sourceOutputPortId sourceNodeId sourceTriggerId schemaName mediaType
        archivePath queryInterfaceId emitPnm emitFlatbufferArchive pinPolicy maxRecords maxBytes minLivelinessSeconds recordRangeStartField
        recordRangeStopField description (normalizeRecord (member v "properties"))).

Definition DEPLOYMENT_PLAN_FORMAT_VERSION : Z := 1.

Record plan := Plan {
  formatVersion : Z; p_pluginId : text; p_version : text; p_artifactCid : text; p_bundleCid : text; p_environmentId : text;
  protocolInstallations : list installation; inputBindings : list input_binding; scheduleBindings : list schedule_binding;
  serviceBindings : list service_binding; authPolicies : list auth_policy; publicationBindings : list publication_binding }.
(** An argument that is left out is an empty object. *)
Definition normalizeDeploymentPlan (v : json) : result plan :=
  let! _ := has_members v in
  let! formatVersion := normalizeInteger (member v "formatVersion") DEPLOYMENT_PLAN_FORMAT_VERSION in
  let! pluginId := normalizeString (member v "pluginId") in
  let! version := normalizeString (member v "version") in
  let! artifactCid := normalizeString (member v "artifactCid") in
  let! bundleCid := normalizeString (member v "bundleCid") in
  let! environmentId := normalizeString (member v "environmentId") in
  let! installations := rmap normalizeProtocolInstallation (items (member v "protocolInstallations")) in
  let! inputs := rmap normalizeInputBinding (items (member v "inputBindings")) in
  let! schedules := rmap normalizeScheduleBinding (items (member v "scheduleBindings")) in
  let! services := rmap normalizeServiceBinding (items (member v "serviceBindings")) in
  let! policies := rmap normalizeAuthPolicy (items (member v "authPolicies")) in
  let! publications := rmap normalizePublicationBinding (items (member v "publicationBindings")) in
  Ok (Plan formatVersion pluginId version artifactCid bundleCid environmentId installations inputs schedules services policies publications).

(** ** A normal form as input *)

Definition text_json (t : text) : json := match t with Some s => JString s | None => JNull end.
Definition texts_json (l : list jsstring) : json := JArray (map JString l).
Definition fields (l : list (string * json)) : json := JObject (map (fun kv => (lit kv.1, kv.2)) l).

Definition installation_json (i : installation) : json := fields [
  ("protocolId", text_json (in_protocolId i)); ("wireId", text_json (in_wireId i)); ("transportKind", text_json (in_transportKind i));
  ("role", text_json (in_role i)); ("peerId", text_json (in_peerId i)); ("listenMultiaddrs", texts_json (in_listenMultiaddrs i));
  ("advertisedMultiaddrs", texts_json (in_advertisedMultiaddrs i)); ("nodeInfoUrl", text_json (in_nodeInfoUrl i));
  ("serviceName", text_json (in_serviceName i)); ("resolvedPort", JNumber (in_resolvedPort i)); ("artifactCid", text_json (in_artifactCid i));
  ("description", text_json (in_description i))]%string.
Definition input_binding_json (b : input_binding) : json := fields [
  ("bindingId", text_json (ib_bindingId b)); ("interfaceId", text_json (ib_interfaceId b)); ("targetPluginId", text_json (ib_targetPluginId b));
  ("targetMethodId", text_json (ib_targetMethodId b)); ("targetInputPortId", text_json (ib_targetInputPortId b)); ("sourceKind", text_json (ib_sourceKind b));
  ("multiaddrs", texts_json (ib_multiaddrs b)); ("allowPeerIds", texts_json (ib_allowPeerIds b)); ("allowServerKeys", texts_json (ib_allowServerKeys b));
  ("deliveryMode", text_json (ib_deliveryMode b)); ("description", text_json (ib_description b))]%string.
Definition schedule_binding_json (b : schedule_binding) : json := fields [
  ("scheduleId", text_json (sb_scheduleId b)); ("bindingMode", text_json (sb_bindingMode b)); ("triggerId", text_json (sb_triggerId b));
  ("targetMethodId", text_json (sb_targetMethodId b)); ("targetInputPortId", text_json (sb_targetInputPortId b));
  ("scheduleKind", text_json (sb_scheduleKind b)); ("cron", text_json (sb_cron b)); ("intervalMs", JNumber (sb_intervalMs b));
  ("runAtStartup", JBool (sb_runAtStartup b)); ("startupDelayMs", JNumber (sb_startupDelayMs b)); ("timezone", text_json (sb_timezone b));
  ("description", text_json (sb_description b))]%string.
Definition service_binding_json (b : service_binding) : json := fields [
  ("serviceId", text_json (sv_serviceId b)); ("bindingMode", text_json (sv_bindingMode b)); ("serviceKind", text_json (sv_serviceKind b));
  ("triggerId", text_json (sv_triggerId b)); ("protocolId", text_json (sv_protocolId b)); ("routePath", text_json (sv_routePath b));
  ("method", text_json (sv_method b)); ("transportKind", text_json (sv_transportKind b)); ("adapter", text_json (sv_adapter b));
  ("listenHost", text_json (sv_listenHost b)); ("listenPort", JNumber (sv_listenPort b)); ("remoteUrl", text_json (sv_remoteUrl b));
  ("allowTransports", texts_json (sv_allowTransports b)); ("authPolicyId", text_json (sv_authPolicyId b)); ("description", text_json (sv_description b));
  ("properties", JObject (sv_properties b))]%string.
Definition auth_policy_json (b : auth_policy) : json := fields [
  ("policyId", text_json (ap_policyId b)); ("bindingMode", text_json (ap_bindingMode b)); ("targetKind", text_json (ap_targetKind b));
  ("targetId", text_json (ap_targetId b)); ("adapter", text_json (ap_adapter b)); ("walletProfileId", text_json (ap_walletProfileId b));
  ("trustMapId", text_json (ap_trustMapId b)); ("allowPeerIds", texts_json (ap_allowPeerIds b)); ("allowServerKeys", texts_json (ap_allowServerKeys b));
  ("allowEntityIds", texts_json (ap_allowEntityIds b)); ("requireSignedRequests", JBool (ap_requireSignedRequests b));
  ("requireEncryptedTransport", JBool (ap_requireEncryptedTransport b)); ("description", text_json (ap_description b));
  ("properties", JObject (ap_properties b))]%string.
Definition publication_binding_json (b : publication_binding) : json := fields [
  ("publicationId", text_json (pb_publicationId b)); ("interfaceId", text_json (pb_interfaceId b)); ("bindingMode", text_json (pb_bindingMode b));
  ("sourceKind", text_json (pb_sourceKind b)); ("sourceMethodId", text_json (pb_sourceMethodId b));
  ("sourceOutputPortId", text_json (pb_sourceOutputPortId b)); ("sourceNodeId", text_json (pb_sourceNodeId b));
  ("sourceTriggerId", text_json (pb_sourceTriggerId b)); ("schemaName", text_json (pb_schemaName b)); ("mediaType", text_json (pb_mediaType b));
  ("archivePath", text_json (pb_archivePath b)); ("queryInterfaceId", text_json (pb_queryInterfaceId b)); ("emitPnm", JBool (pb_emitPnm b));
  ("emitFlatbufferArchive", JBool (pb_emitFlatbufferArchive b)); ("pinPolicy", text_json (pb_pinPolicy b)); ("maxRecords", JNumber (pb_maxRecords b));
  ("maxBytes", JNumber (pb_maxBytes b)); ("minLivelinessSeconds", JNumber (pb_minLivelinessSeconds b));
  ("recordRangeStartField", text_json (pb_recordRangeStartField b)); ("recordRangeStopField", text_json (pb_recordRangeStopField b));
  ("description", text_json (pb_description b)); ("properties", JObject (pb_properties b))]%string.
Definition plan_json (p : plan) : json := fields [
  ("formatVersion", JNumber (formatVersion p)); ("pluginId", text_json (p_pluginId p)); ("version", text_json (p_version p));
  ("artifactCid", text_json (p_artifactCid p)); ("bundleCid", text_json (p_bundleCid p)); ("environmentId", text_json (p_environmentId p));
  ("protocolInstallations", JArray (map installation_json (protocolInstallations p))); ("inputBindings", JArray (map input_binding_json (inputBindings p)));
  ("scheduleBindings", JArray (map schedule_binding_json (scheduleBindings p))); ("serviceBindings", JArray (map service_binding_json (serviceBindings p)));
  ("authPolicies", JArray (map auth_policy_json (authPolicies p)));
  ("publicationBindings", JArray (map publication_binding_json (publicationBindings p)))]%string.

(** *** The normal forms of values *)

Definition text_ok (t : text) : Prop := match t with Some s => trim s = s /\ s <> [] | None => True end.
Definition texts_ok (l : list jsstring) : Prop := Forall (fun s => text_ok (Some s)) l.
(** A name is in lower case, without underscores, and stands for itself. *)
Definition name_ok (aliases : list (string * string)) (t : text) : Prop :=
  match t with
  | Some s => trim s = s /\ s <> [] /\ dashes (toLowerCase s) = s /\ List.find (fun a => str_eqb s (lit a.1)) aliases = None
  | None => True
  end.

Lemma nonempty_ok s : trim s = s -> text_ok (nonempty s).
Proof. by destruct s. Qed.
Lemma normalizeString_ok v t : normalizeString v = Ok t -> text_ok t.
Proof.
  unfold normalizeString. intros H. assert (Hs : forall s, text_ok (nonempty (trim s))) by (intros s; apply nonempty_ok, trim_trim).
  destruct v; try (js_inv H; apply Hs). by injection H as <-.
Qed.
Lemma normalizeString_text t : text_ok t -> normalizeString (text_json t) = Ok t.
Proof. destruct t as [s|]; [|done]. intros [Ht Hs]. cbn. rewrite Ht. by destruct s. Qed.
Lemma texts_of l : texts_ok l -> normalizeStringArray (texts_json l) = Ok l.
Proof.
  intros Hl. assert (E : rmap normalizeString (map JString l) = Ok (map Some l)).
  { induction Hl as [|s l Hs Hl IH]; [done|]. cbn [map rmap]. pose proof (normalizeString_text (Some s) Hs) as E. cbn [text_json] in E. rewrite E. cbn [rbind]. by rewrite IH. }
  unfold normalizeStringArray, texts_json, items. rewrite E. cbn [rbind]. f_equal. clear. induction l as [|s l IH]; [done|]. cbn. by f_equal.
Qed.
Lemma rmap_Forall {A B : Type} (f : A -> result B) (P : B -> Prop) l r : (forall x y, f x = Ok y -> P y) -> rmap f l = Ok r -> Forall P r.
Proof.
  intros Hf. revert r. induction l as [|x l IH]; cbn; intros r H; [by injection H as <-|]. js_inv H. constructor; [by eapply Hf|by apply IH].
Qed.
Lemma normalizeStringArray_ok v l : normalizeStringArray v = Ok l -> texts_ok l.
Proof.
  unfold normalizeStringArray. intros H. js_inv H. apply (rmap_Forall _ text_ok) in E; [|exact normalizeString_ok]. unfold texts_ok.
  induction E as [|[s|] l Hs Hl IH]; cbn; [done|by constructor|done].
Qed.
Lemma normalizeInteger_ok v d z : 0 <= d -> normalizeInteger v d = Ok z -> 0 <= z.
Proof. unfold normalizeInteger. intros Hd H. js_inv H. destruct x; lia. Qed.
Lemma normalizeInteger_number z d : 0 <= z -> normalizeInteger (JNumber z) d = Ok z.
Proof. intros Hz. unfold normalizeInteger, int_num, q_trunc, inject_Z. cbn. rewrite Z.quot_1_r. f_equal. lia. Qed.

(** *** Names *)

Definition name_unit (c : Z) : Z := let c := lower_unit c in if c =? 95 then 45 else c.
Lemma dashes_lower s : dashes (toLowerCase s) = map name_unit s.
Proof. unfold dashes, toLowerCase. by rewrite map_map. Qed.
Lemma name_unit_space c : is_js_space (name_unit c) = is_js_space c.
Proof. unfold name_unit. rewrite <- (lower_space c). destruct (Z.eqb_spec (lower_unit c) 95) as [->|]; done. Qed.
Lemma trim_name_unit s : trim (map name_unit s) = map name_unit (trim s).
Proof.
  assert (Hd : forall s, drop_while is_js_space (map name_unit s) = map name_unit (drop_while is_js_space s)).
  { intros t. rewrite drop_while_map. f_equal. induction t as [|c t IH]; cbn; [done|]. by rewrite name_unit_space, IH. }
  unfold trim, trim_with. rewrite Hd, <- (fmap_reverse name_unit). change (fmap name_unit) with (map name_unit). by rewrite Hd, (fmap_reverse name_unit).
Qed.
Lemma name_unit_twice c : name_unit (name_unit c) = name_unit c.
Proof.
  assert (Hl : lower_unit (lower_unit c) = lower_unit c).
  { pose proof (lower_lower [c]) as E. by injection E. }
  unfold name_unit at 2 3. cbv zeta. destruct (Z.eqb_spec (lower_unit c) 95) as [|Hc]; [done|]. unfold name_unit. rewrite Hl. by destruct (Z.eqb_spec (lower_unit c) 95).
Qed.

Definition aliases_ok (aliases : list (string * string)) : bool :=
  forallb (fun a => str_eqb (trim (lit a.2)) (lit a.2) && negb (str_eqb (lit a.2) []) && str_eqb (dashes (toLowerCase (lit a.2))) (lit a.2) &&
                    forallb (fun b => negb (str_eqb (lit a.2) (lit b.1))) aliases) aliases.
Lemma name_of_ok aliases v t : aliases_ok aliases = true -> name_of aliases v = Ok t -> name_ok aliases t.
Proof.
  intros Ha. unfold name_of. intros H.
  assert (Hs : forall s, name_ok aliases match List.find (fun a => str_eqb (dashes (toLowerCase (trim s))) (lit a.1)) aliases with
                                         | Some a => Some (lit a.2) | None => nonempty (dashes (toLowerCase (trim s))) end).
  { intros s. rewrite dashes_lower. set (n := map name_unit (trim s)). assert (Hn : trim n = n) by (unfold n; by rewrite trim_name_unit, trim_trim).
    assert (Hu : map name_unit n = n) by (unfold n; rewrite map_map; apply map_ext, name_unit_twice).
    destruct (List.find (fun a => str_eqb n (lit a.1)) aliases) as [a|] eqn:Ef.
    - apply List.find_some in Ef as [Hin _]. unfold aliases_ok in Ha. rewrite forallb_forall in Ha. specialize (Ha a Hin).
      apply andb_true_iff in Ha as [[[H1%str_eqb_eq H2%negb_true_iff]%andb_true_iff H3%str_eqb_eq]%andb_true_iff H4].
      split_and!; [done|by intros E; rewrite E in H2|done|]. destruct (List.find _ _) as [b|] eqn:Eb; [|done]. exfalso.
      apply List.find_some in Eb as [Hb E]. rewrite forallb_forall in H4. specialize (H4 b Hb). cbn beta in E. by rewrite E in H4.
    - destruct n as [|c n'] eqn:En; [done|]. split_and!; [done|done|by rewrite dashes_lower|done]. }
  destruct v; try (js_inv H; apply Hs). by injection H as <-.
Qed.
Lemma name_of_name aliases t : name_ok aliases t -> name_of aliases (text_json t) = Ok t.
Proof. destruct t as [s|]; [|done]. intros (Ht & Hs & Hd & Hf). cbn. rewrite Ht, Hd, Hf. by destruct s. Qed.
Lemma name_text aliases t : name_ok aliases t -> text_ok t.
Proof. destruct t as [s|]; [|done]. by intros (? & ? & _). Qed.

(** ** Well-typed plans *)

Definition TRANSPORT_ALIASES : list (string * string) := [("websocket", "ws"); ("pipe", "wasi-pipe")]%string.
Definition installation_ok (i : installation) : Prop :=
  Forall text_ok [in_protocolId i; in_wireId i; in_peerId i; in_nodeInfoUrl i; in_serviceName i; in_artifactCid i; in_description i] /\
  name_ok TRANSPORT_ALIASES (in_transportKind i) /\ name_ok [("handler", "handle")]%string (in_role i) /\
  Forall texts_ok [in_listenMultiaddrs i; in_advertisedMultiaddrs i] /\ 0 <= in_resolvedPort i.
Definition input_binding_ok (b : input_binding) : Prop :=
  Forall text_ok [ib_bindingId b; ib_interfaceId b; ib_targetPluginId b; ib_targetMethodId b; ib_targetInputPortId b; ib_deliveryMode b; ib_description b] /\
  name_ok [] (ib_sourceKind b) /\ Forall texts_ok [ib_multiaddrs b; ib_allowPeerIds b; ib_allowServerKeys b].
Definition schedule_binding_ok (b : schedule_binding) : Prop :=
  Forall text_ok [sb_scheduleId b; sb_triggerId b; sb_targetMethodId b; sb_targetInputPortId b; sb_cron b; sb_timezone b; sb_description b] /\
  name_ok [("remote", "delegated")]%string (sb_bindingMode b) /\ name_ok [("startup", "once")]%string (sb_scheduleKind b) /\
  0 <= sb_intervalMs b /\ 0 <= sb_startupDelayMs b.
Definition service_binding_ok (b : service_binding) : Prop :=
  Forall text_ok [sv_serviceId b; sv_serviceKind b; sv_triggerId b; sv_protocolId b; sv_routePath b; sv_method b; sv_adapter b; sv_listenHost b; sv_remoteUrl b;
    sv_authPolicyId b; sv_description b] /\
  name_ok [("remote", "delegated")]%string (sv_bindingMode b) /\ name_ok TRANSPORT_ALIASES (sv_transportKind b) /\ texts_ok (sv_allowTransports b) /\
  0 <= sv_listenPort b.
Definition auth_policy_ok (b : auth_policy) : Prop :=
  Forall text_ok [ap_policyId b; ap_targetKind b; ap_targetId b; ap_adapter b; ap_walletProfileId b; ap_trustMapId b; ap_description b] /\
  name_ok [("remote", "delegated")]%string (ap_bindingMode b) /\ Forall texts_ok [ap_allowPeerIds b; ap_allowServerKeys b; ap_allowEntityIds b].
Definition publication_binding_ok (b : publication_binding) : Prop :=
  Forall text_ok [pb_publicationId b; pb_interfaceId b; pb_sourceKind b; pb_sourceMethodId b; pb_sourceOutputPortId b; pb_sourceNodeId b; pb_sourceTriggerId b;
    pb_schemaName b; pb_mediaType b; pb_archivePath b; pb_queryInterfaceId b; pb_pinPolicy b; pb_recordRangeStartField b; pb_recordRangeStopField b;
    pb_description b] /\
  name_ok [("remote", "delegated")]%string (pb_bindingMode b) /\ 0 <= pb_maxRecords b /\ 0 <= pb_maxBytes b /\ 0 <= pb_minLivelinessSeconds b.
Definition plan_ok (p : plan) : Prop :=
  0 <= formatVersion p /\ Forall text_ok [p_pluginId p; p_version p; p_artifactCid p; p_bundleCid p; p_environmentId p] /\
  Forall installation_ok (protocolInstallations p) /\ Forall input_binding_ok (inputBindings p) /\ Forall schedule_binding_ok (scheduleBindings p) /\
  Forall service_binding_ok (serviceBindings p) /\ Forall auth_policy_ok (authPolicies p) /\ Forall publication_binding_ok (publicationBindings p).

Create HintDb plan.
#[export] Hint Resolve normalizeString_text texts_of normalizeInteger_number name_of_name normalizeString_ok normalizeStringArray_ok name_of_ok : plan.
#[export] Hint Extern 1 (0 <= _) => eapply normalizeInteger_ok; [|eassumption]; discriminate : plan.
#[export] Hint Extern 1 (aliases_ok _ = true) => vm_compute; reflexivity : plan.

(** The fields of a normal form, one after the other. *)
Ltac typed_fields H := js_inv H; repeat split; repeat constructor; cbn; eauto with plan.

Lemma installation_typed v i : normalizeProtocolInstallation v = Ok i -> installation_ok i.
Proof. unfold normalizeProtocolInstallation. intros H. typed_fields H. Qed.
Lemma input_binding_typed v b : normalizeInputBinding v = Ok b -> input_binding_ok b.
Proof. unfold normalizeInputBinding. intros H. typed_fields H. Qed.
Lemma schedule_binding_typed v b : normalizeScheduleBinding v = Ok b -> schedule_binding_ok b.
Proof. unfold normalizeScheduleBinding. intros H. typed_fields H. Qed.
Lemma service_binding_typed v b : normalizeServiceBinding v = Ok b -> service_binding_ok b.
Proof. unfold normalizeServiceBinding. intros H. typed_fields H. Qed.
Lemma auth_policy_typed v b : normalizeAuthPolicy v = Ok b -> auth_policy_ok b.
Proof. unfold normalizeAuthPolicy. intros H. typed_fields H. Qed.
Lemma publication_binding_typed v b : normalizePublicationBinding v = Ok b -> publication_binding_ok b.
Proof. unfold normalizePublicationBinding. intros H. typed_fields H. Qed.

Lemma plan_typed v p : normalizeDeploymentPlan v = Ok p -> plan_ok p.
Proof.
  unfold normalizeDeploymentPlan. intros H. js_inv H. repeat split; cbn; try (repeat constructor; eauto with plan; fail);
    (eapply rmap_Forall; [|eassumption]); eauto using installation_typed, input_binding_typed, schedule_binding_typed, service_binding_typed, auth_policy_typed,
      publication_binding_typed.
Qed.

(** ** Normal forms are fixed points *)

(** The properties of an object whose names are known. *)
Lemma str_eqb_lit a b : str_eqb (lit a) (lit b) = String.eqb a b.
Proof.
  apply eq_true_iff_eq. rewrite str_eqb_eq, String.eqb_eq. split; [|by intros ->]. revert b. induction a as [|x a IH]; intros [|y b] E; try done.
  cbn in E. injection E as Hx E. apply Nat2Z.inj in Hx. f_equal; [|by apply IH]. by rewrite <- (Ascii.ascii_nat_embedding x), Hx, Ascii.ascii_nat_embedding.
Qed.
Lemma member_fields l k : member (fields l) k = match List.find (fun kv => String.eqb kv.1 k) l with Some kv => kv.2 | None => JNull end.
Proof.
  unfold member, fields, property. induction l as [|[a v] l IH]; [done|]. cbn [map List.find fst snd]. rewrite str_eqb_lit. by destruct (String.eqb a k).
Qed.
Ltac read_fields := rewrite !member_fields; cbn [List.find String.eqb Ascii.eqb Bool.eqb fst snd].
Ltac read_again :=
  repeat match goal with
         | |- context [normalizeString (text_json ?t)] => rewrite (normalizeString_text t) by assumption
         | |- context [normalizeStringArray (texts_json ?l)] => rewrite (texts_of l) by assumption
         | |- context [normalizeInteger (JNumber ?z) ?d] => rewrite (normalizeInteger_number z d) by assumption
         | |- context [name_of ?a (text_json ?t)] => rewrite (name_of_name a t) by assumption
         end; cbn [rbind].
(** The hypotheses about the single fields. *)
Ltac open_typed H := destruct_and! H; repeat match goal with Hf : Forall _ (_ :: _) |- _ => pose proof (Forall_inv Hf); apply Forall_inv_tail in Hf end.
Ltac fixed_point H := open_typed H; change (has_members (fields ?l)) with (Ok tt); cbn [rbind]; read_fields; read_again.

Lemma installation_again i : installation_ok i -> normalizeProtocolInstallation (installation_json i) = Ok i.
Proof.
  intros H. unfold installation_ok in H. unfold normalizeProtocolInstallation, normalizeProtocolTransportKindName, normalizeProtocolRoleName, installation_json.
  fixed_point H. by destruct i.
Qed.
Lemma input_binding_again b : input_binding_ok b -> normalizeInputBinding (input_binding_json b) = Ok b.
Proof.
  intros H. unfold input_binding_ok in H. unfold normalizeInputBinding, normalizeInputBindingSourceKindName, input_binding_json. fixed_point H. by destruct b.
Qed.
Lemma schedule_binding_again b : schedule_binding_ok b -> normalizeScheduleBinding (schedule_binding_json b) = Ok b.
Proof.
  intros H. unfold schedule_binding_ok in H.
  unfold normalizeScheduleBinding, normalizeDeploymentBindingModeName, normalizeScheduleBindingKindName, schedule_binding_json. fixed_point H. by destruct b.
Qed.
Lemma service_binding_again b : service_binding_ok b -> normalizeServiceBinding (service_binding_json b) = Ok b.
Proof.
  intros H. unfold service_binding_ok in H.
  unfold normalizeServiceBinding, normalizeDeploymentBindingModeName, normalizeProtocolTransportKindName, service_binding_json. fixed_point H. by destruct b.
Qed.
Lemma auth_policy_again b : auth_policy_ok b -> normalizeAuthPolicy (auth_policy_json b) = Ok b.
Proof.
  intros H. unfold auth_policy_ok in H. unfold normalizeAuthPolicy, normalizeDeploymentBindingModeName, auth_policy_json. fixed_point H. by destruct b.
Qed.
Lemma publication_binding_again b : publication_binding_ok b -> normalizePublicationBinding (publication_binding_json b) = Ok b.
Proof.
  intros H. unfold publication_binding_ok in H. unfold normalizePublicationBinding, normalizeDeploymentBindingModeName, publication_binding_json.
  fixed_point H. by destruct b.
Qed.

Lemma rmap_again {A B : Type} (f : A -> result B) (g : B -> A) (P : B -> Prop) l : (forall x, P x -> f (g x) = Ok x) -> Forall P l -> rmap f (map g l) = Ok l.
Proof. intros Hf Hl. induction Hl as [|x l Hx Hl IH]; [done|]. cbn. rewrite (Hf x Hx). cbn [rbind]. by rewrite IH. Qed.

Lemma plan_again p : plan_ok p -> normalizeDeploymentPlan (plan_json p) = Ok p.
Proof.
  intros H. unfold plan_ok in H. unfold normalizeDeploymentPlan, plan_json. fixed_point H. cbn [items].
  rewrite (rmap_again _ _ _ _ installation_again) by done. cbn [rbind]. rewrite (rmap_again _ _ _ _ input_binding_again) by done. cbn [rbind].
  rewrite (rmap_again _ _ _ _ schedule_binding_again) by done. cbn [rbind]. rewrite (rmap_again _ _ _ _ service_binding_again) by done. cbn [rbind].
  rewrite (rmap_again _ _ _ _ auth_policy_again) by done. cbn [rbind]. rewrite (rmap_again _ _ _ _ publication_binding_again) by done. cbn [rbind].
  by destruct p.
Qed.

(** A normal form is its own normal form: normalising the normal form of any plan, given as an object again, succeeds and changes nothing, so a plan that
    is normalised on its way into a bundle, on its way out and again before validation is the same plan. *)
Theorem normal_forms_are_fixed_points v p : normalizeDeploymentPlan v = Ok p -> normalizeDeploymentPlan (plan_json p) = Ok p.
Proof. intros H. by eapply plan_again, plan_typed. Qed.

(** A plan with an alias, spaces, an allow list that is no list, and numbers in texts. *)
Definition small_plan : json := fields [
  ("formatVersion", JString (lit " 1 ")); ("pluginId", JString (lit " com.example.plugin "));
  ("scheduleBindings", JArray [fields [("scheduleId", JString (lit "tick")); ("bindingMode", JString (lit "REMOTE")); ("scheduleKind", JString (lit "interval"));
     ("targetMethodId", JString (lit "run")); ("intervalMs", JNumber 250)]]);
  ("authPolicies", JArray [fields [("policyId", JString (lit "owner")); ("bindingMode", JString (lit "local")); ("targetKind", JString (lit "service"));
     ("allowPeerIds", JString (lit "peer"))]])]%string.
Definition small_plan_normal : plan :=
  Plan 1 (Some (lit "com.example.plugin")) None None None None [] []
    [ScheduleBinding (Some (lit "tick")) (Some (lit "delegated")) None (Some (lit "run")) None (Some (lit "interval")) None 250 false 0 None None] []
    [AuthPolicy (Some (lit "owner")) (Some (lit "local")) (Some (lit "service")) None None None None [] [] [] false false None []] [].
Lemma small_plan_ok : normalizeDeploymentPlan small_plan = Ok small_plan_normal.
Proof. vm_compute. reflexivity. Qed.
Lemma normal_forms_are_fixed_points_witness : normalizeDeploymentPlan (plan_json small_plan_normal) = Ok small_plan_normal.
Proof. exact (normal_forms_are_fixed_points small_plan small_plan_normal small_plan_ok). Defined.

(** ** Plans in bundles *)

Definition truthy (v : json) : bool :=
  match v with JNull => false | JBool b => b | JNumber z => negb (z =? 0) | JString s => negb (str_eqb s []) | _ => true end.
Definition is_object (v : json) : bool := match v with JArray _ | JObject _ => true | _ => false end.

Definition SDS_DEPLOYMENT_ENTRY_ID : jsstring := lit "deployment-plan".
Definition SDS_DEPLOYMENT_SECTION_NAME : jsstring := lit "sds.deployment".
Definition SDS_DEPLOYMENT_MEDIA_TYPE : jsstring := lit "application/vnd.space-data.module.deployment+json".

Section bundles.
(** The payload of an entry, and [decodeModuleBundleEntryPayload] (bundle/codec.js); [has_plan_role] is the test of the role in its [findModuleBundleEntry]. *)
Context {P : Type} (decode : P -> result json).
Record entry := Entry { e_entryId : text; e_sectionName : text; e_decodedDeploymentPlan : json; e_decodedPayload : json; e_payload : option P }.
Context (has_plan_role : entry -> bool).

Record entry_options := EntryOptions { o_entryId : text; o_role : text; o_sectionName : text; o_mediaType : text; o_description : text }.
(** The entry as it is given to the codec, with the normal form for its payload. *)
Record plan_entry := PlanEntry {
  pe_entryId : jsstring; pe_role : jsstring; pe_sectionName : jsstring; pe_payloadEncoding : jsstring; pe_mediaType : jsstring; pe_payload : plan;
  pe_description : jsstring }.
Definition createDeploymentPlanBundleEntry (v : json) (o : entry_options) : result plan_entry :=
  let! normalizedPlan := normalizeDeploymentPlan v in
  Ok (PlanEntry (default SDS_DEPLOYMENT_ENTRY_ID (o_entryId o)) (default (lit "auxiliary") (o_role o)) (default SDS_DEPLOYMENT_SECTION_NAME (o_sectionName o))
        (lit "json-utf8") (default SDS_DEPLOYMENT_MEDIA_TYPE (o_mediaType o)) normalizedPlan
        (default (lit "Resolved deployment plan with protocol installations, bindings, schedules, services, auth policy, and publication policy.")
           (o_description o))).

(** A bundle, or the result of parsing an artifact, which has its own entries and those of its bundle. [None]: undefined. *)
Record bundle_like := BundleLike { bl_deploymentPlan : option json; bl_entries : option (list entry); bl_bundle_entries : option (option (list entry)) }.

Definition or_entry (a b : option entry) : option entry := match a with Some e => Some e | None => b end.
Definition findDeploymentPlanEntryInEntries (entries : option (list entry)) : option entry :=
  match entries with
  | None => None
  | Some l => or_entry (List.find (fun e => bool_decide (e_entryId e = Some SDS_DEPLOYMENT_ENTRY_ID)) l)
                       (List.find (fun e => bool_decide (e_sectionName e = Some SDS_DEPLOYMENT_SECTION_NAME)) l)
  end.
Definition findDeploymentPlanEntry (b : bundle_like) : option entry :=
  let inner := match bl_bundle_entries b with Some l => l | None => None end in
  or_entry (findDeploymentPlanEntryInEntries (bl_entries b))
    (or_entry (findDeploymentPlanEntryInEntries inner)
       (let l := default [] (match bl_bundle_entries b with Some l => l | None => bl_entries b end) in
        or_entry (List.find (fun e => bool_decide (e_entryId e = Some SDS_DEPLOYMENT_ENTRY_ID)) l) (List.find has_plan_role l))).

Definition planHasContent (p : plan) : bool :=
  (0 <? blen (protocolInstallations p)) || (0 <? blen (inputBindings p)) || (0 <? blen (scheduleBindings p)) || (0 <? blen (serviceBindings p)) ||
  (0 <? blen (authPolicies p)) || (0 <? blen (publicationBindings p)) || match p_pluginId p with Some _ => true | None => false end ||
  match p_version p with Some _ => true | None => false end.

Definition readDeploymentPlanFromBundle (b : bundle_like) : result (option plan) :=
  let! directPlan := normalizeDeploymentPlan (default (JObject []) (bl_deploymentPlan b)) in
  if planHasContent directPlan then Ok (Some directPlan)
  else
    match findDeploymentPlanEntry b with
    | None => Ok None
    | Some e =>
        if truthy (e_decodedDeploymentPlan e) then let! p := normalizeDeploymentPlan (e_decodedDeploymentPlan e) in Ok (Some p)
        else if is_object (e_decodedPayload e) then let! p := normalizeDeploymentPlan (e_decodedPayload e) in Ok (Some p)
        else match e_payload e with
             | Some payload => let! v := decode payload in let! p := normalizeDeploymentPlan v in Ok (Some p)
             | None => Ok None
             end
    end.

(** A plan goes into a bundle and out of it: reading an artifact whose entry for the plan holds, in any of the places where it is looked for, the object that
    was made into the entry gives the plan that the validation of the original works on, provided the artifact itself carries no other plan. *)
Theorem plan_is_read_back v o pe e b : createDeploymentPlanBundleEntry v o = Ok pe -> bl_deploymentPlan b = None -> findDeploymentPlanEntry b = Some e ->
  (e_decodedDeploymentPlan e = plan_json (pe_payload pe) \/
   e_decodedDeploymentPlan e = JNull /\ e_decodedPayload e = plan_json (pe_payload pe) \/
   e_decodedDeploymentPlan e = JNull /\ e_decodedPayload e = JNull /\ exists x, e_payload e = Some x /\ decode x = Ok (plan_json (pe_payload pe))) ->
  normalizeDeploymentPlan v = Ok (pe_payload pe) /\ readDeploymentPlanFromBundle b = Ok (Some (pe_payload pe)).
Proof.
  intros Hpe Hb He Hp. unfold createDeploymentPlanBundleEntry in Hpe. apply rbind_Ok in Hpe as (p & Hv & [= <-]). cbn [pe_payload] in *. split; [done|].
  pose proof (plan_again p (plan_typed v p Hv)) as Ha. unfold readDeploymentPlanFromBundle. rewrite Hb, He.
  change (normalizeDeploymentPlan (default (JObject []) None)) with (Ok (Plan 1 None None None None None [] [] [] [] [] [])). cbn [rbind].
  destruct Hp as [->|[[-> ->]|(-> & -> & x & -> & ->)]]; cbn [truthy is_object plan_json fields rbind planHasContent]; by rewrite Ha.
Qed.

(** A plan that only names artifacts, a bundle or an environment is taken for no plan. *)
Lemma ids_alone_are_no_plan b p cid : normalizeDeploymentPlan (fields [("artifactCid"%string, JString cid)]) = Ok p -> planHasContent p = false /\
  (bl_deploymentPlan b = Some (fields [("artifactCid"%string, JString cid)]) -> findDeploymentPlanEntry b = None -> readDeploymentPlanFromBundle b = Ok None).
Proof.
  intros H. assert (Hc : planHasContent p = false).
  { unfold normalizeDeploymentPlan in H. revert H. change (has_members (fields ?l)) with (Ok tt). cbn [rbind]. read_fields. cbn [items rmap].
    change (normalizeInteger JNull DEPLOYMENT_PLAN_FORMAT_VERSION) with (Ok 1). change (normalizeString JNull) with (Ok (None : text)). cbn [rbind]. intros H. js_inv H. done. }
  split; [done|]. intros Hb Hf. unfold readDeploymentPlanFromBundle. rewrite Hf.
  assert (E : default (JObject []) (bl_deploymentPlan b) = fields [("artifactCid"%string, JString cid)]) by by rewrite Hb.
  rewrite E, H. cbn [rbind]. by rewrite Hc.
Qed.
(** A plan that is null is an exception, and so is a null among the bindings, where the checks of the validation expect to report it. *)
Lemma null_entry_throws l r : normalizeDeploymentPlan (fields [("inputBindings"%string, JArray (JNull :: l))]) <> Ok r.
Proof.
  unfold normalizeDeploymentPlan. change (has_members (fields ?l)) with (Ok tt). cbn [rbind]. read_fields.
  change (normalizeInteger JNull DEPLOYMENT_PLAN_FORMAT_VERSION) with (Ok 1). change (normalizeString JNull) with (Ok (None : text)). cbn [rbind items rmap]. done.
Qed.
End bundles.

(** A bundle whose entry has the plan as its payload. *)
Definition no_options : entry_options := EntryOptions None None None None None.
Definition small_entry : entry := Entry (Some SDS_DEPLOYMENT_ENTRY_ID) None JNull JNull (Some (plan_json small_plan_normal)).
Lemma plan_is_read_back_witness :
  exists pe, createDeploymentPlanBundleEntry small_plan no_options = Ok pe /\
    readDeploymentPlanFromBundle Ok (fun _ => false) (BundleLike None None (Some (Some [small_entry]))) = Ok (Some (pe_payload pe)).
Proof.
  destruct (createDeploymentPlanBundleEntry small_plan no_options) as [pe|] eqn:E; [|exfalso; unfold createDeploymentPlanBundleEntry in E; rewrite small_plan_ok in E; discriminate E].
  exists pe. split; [done|].
  assert (Hp : pe_payload pe = small_plan_normal).
  { unfold createDeploymentPlanBundleEntry in E. rewrite small_plan_ok in E. injection E as <-. done. }
  apply (plan_is_read_back Ok (fun _ => false) small_plan no_options pe small_entry (BundleLike None None (Some (Some [small_entry]))) E eq_refl eq_refl).
  right; right. rewrite Hp. split; [done|]. split; [done|]. by exists (plan_json small_plan_normal).
Defined.
