(* ===== verification/DeployCheck.v ===== *)
(** Validation of deployment plans against a manifest (src/deployment/index.js).

    A plan is normalised first (DeployPlan.v) and the normal form is checked, so a check of a type that every normal form has is not written here: that a binding
    is an object, that a list is an array, that a flag is a boolean. The manifest is a value of JSON and is read as it is. An issue has its severity, its code and
    its location; messages are left out. *)
From Stdlib Require Import ZArith Lia.
From stdpp Require Import base list strings numbers pretty.
From S2P Require Import Prelude JsText JsMap JsJson BundleVerify DeployPlan.
Open Scope Z_scope.

(** ** Issues *)

Inductive severity := IsError | IsWarning.
Record issue := Issue { i_severity : severity; i_code : string; i_location : string }.
Definition error (code location : string) : list issue := [Issue IsError code location].
Definition warning (code location : string) : list issue := [Issue IsWarning code location].
Definition is_error (i : issue) : bool := match i_severity i with IsError => true | IsWarning => false end.
Definition errors (l : list issue) : list issue := List.filter is_error l.
Definition unless (b : bool) (l : list issue) : list issue := if b then [] else l.

Definition blank (s : jsstring) : bool := bool_decide (trim s = []).
Definition present (t : text) : bool := match t with Some s => negb (blank s) | None => false end.
Definition set_text (t : text) : bool := match t with Some s => negb (bool_decide (s = [])) | None => false end.
Definition is_text (v : json) (s : jsstring) : bool := match v with JString x => str_eqb x s | _ => false end.

Definition validateStringField (value : text) (location : string) : list issue := unless (present value) (error "missing-string" location).
Definition validateOptionalStringField (value : text) (location : string) : list issue :=
  match value with None => [] | _ => validateStringField value location end.
(** The check of the entries; [index] is that of the first one. *)
Fixpoint validateStringArrayField (index : nat) (l : list jsstring) (location : string) : list issue :=
  match l with
  | [] => []
  | s :: l => unless (negb (blank s)) (error "invalid-string-array-entry" (location +:+ "[" +:+ pretty index +:+ "]")) ++ validateStringArrayField (S index) l location
  end.
Definition validatePortField (value : Z) (location : string) : list issue := unless ((0 <=? value) && (value <=? 65535)) (error "invalid-port" location).

(** ** Names *)

Definition TRANSPORTS : list jsstring := map lit ["libp2p"; "http"; "ws"; "wasi-pipe"]%string.
Definition ROLES : list jsstring := map lit ["handle"; "dial"; "both"]%string.
Definition SOURCE_KINDS : list jsstring := map lit ["pubsub"; "protocol-stream"; "catalog-sync"]%string.
Definition BINDING_MODES : list jsstring := map lit ["local"; "delegated"]%string.
Definition SCHEDULE_KINDS : list jsstring := map lit ["interval"; "cron"; "once"]%string.
Definition INPUT_DIRECTIONS : list jsstring := map lit ["input"; "bidirectional"]%string.
Definition OUTPUT_DIRECTIONS : list jsstring := map lit ["output"; "bidirectional"]%string.

Definition known (names : list jsstring) (t : text) : bool := match t with Some s => existsb (str_eqb s) names | None => false end.
Definition is_name (t : text) (name : string) : bool := match t with Some s => str_eqb s (lit name) | None => false end.
(** The name that a field of the normal form is read as. *)
Definition name_again (f : json -> result text) (t : text) : text := match f (text_json t) with Ok n => n | Throw _ => None end.
Definition validateNamedField (value normalized : text) (names : list jsstring) (code location : string) : list issue :=
  validateStringField value location ++ unless (negb (present value) || known names normalized) (error code location).
Definition validateBindingModeField (value : text) (location : string) : list issue :=
  validateNamedField value (name_again normalizeDeploymentBindingModeName value) BINDING_MODES "unknown-binding-mode" location.

(** ** What the manifest declares *)

Abbreviation lookup := (list (jsstring * json)).
(** The entries whose name is a text, by name; of two with one name the last counts. *)
Definition lookup_by (key : string) (keep : jsstring -> bool) (l : list json) : lookup :=
  fold_left (fun m v => match member v key with JString s => if keep s then map_set m s v else m | _ => m end) l [].
Definition buildMethodLookup (manifest : json) : lookup := lookup_by "methodId" (fun s => negb (blank s)) (items (member manifest "methods")).
Definition buildExternalInterfaceLookup (manifest : json) : option lookup :=
  match manifest with
  | JObject _ => Some (lookup_by "interfaceId" (fun s => negb (blank s)) (items (member manifest "externalInterfaces")))
  | _ => None
  end.
Definition buildProtocolLookup (manifest : json) : lookup := lookup_by "protocolId" (fun _ => true) (items (member manifest "protocols")).

Definition validateDeclaredInterface (interfaceId : text) (location missingCode directionCode : string) (interfaces : option lookup)
    (allowedDirections : option (list jsstring)) : list issue :=
  match interfaces, interfaceId with
  | Some interfaces, Some s =>
      if blank s then []
      else
        match map_get interfaces (trim s) with
        | None => error missingCode location
        | Some declared =>
            match allowedDirections, member declared "direction" with
            | Some names, JString d => unless (existsb (str_eqb d) names) (error directionCode location)
            | _, _ => []
            end
        end
  | _, _ => []
  end.

(** A port of a method: the list of ports may be missing. *)
Definition has_port (method : json) (ports : string) (id : jsstring) : bool :=
  match member method ports with JArray l => existsb (fun p => is_text (member p "portId") id) l | _ => false end.
(** [declared && given && declared !== given] *)
Definition differs (declared : json) (given : text) : bool :=
  truthy declared && set_text given && negb (match given with Some s => is_text declared s | None => false end).
Definition roleIncludesRole (declaredRole : json) (role : jsstring) : bool := is_text declaredRole role || is_text declaredRole (lit "both").
Definition role_differs (declared : json) (role : text) : bool :=
  truthy declared && match role with Some s => set_text role && negb (roleIncludesRole declared s) | None => false end.

(** ** The checks *)

Definition at_field (location field : string) : string := location +:+ "." +:+ field.

Definition validateProtocolInstallation (i : installation) (location : string) (protocols : lookup) : list issue :=
  let at_ := at_field location in
  let transportKind := name_again normalizeProtocolTransportKindName (in_transportKind i) in
  let role := name_again normalizeProtocolRoleName (in_role i) in
  validateStringField (in_protocolId i) (at_ "protocolId") ++
  validateOptionalStringField (in_wireId i) (at_ "wireId") ++
  validateNamedField (in_transportKind i) transportKind TRANSPORTS "unknown-protocol-transport-kind" (at_ "transportKind") ++
  validateNamedField (in_role i) role ROLES "unknown-protocol-role" (at_ "role") ++
  validateOptionalStringField (in_peerId i) (at_ "peerId") ++
  validateStringArrayField 0 (in_listenMultiaddrs i) (at_ "listenMultiaddrs") ++
  validateStringArrayField 0 (in_advertisedMultiaddrs i) (at_ "advertisedMultiaddrs") ++
  validateOptionalStringField (in_nodeInfoUrl i) (at_ "nodeInfoUrl") ++
  validateOptionalStringField (in_serviceName i) (at_ "serviceName") ++
  validateOptionalStringField (in_artifactCid i) (at_ "artifactCid") ++
  validateOptionalStringField (in_description i) (at_ "description") ++
  validatePortField (in_resolvedPort i) (at_ "resolvedPort") ++
  unless (negb (is_name role "dial" && (0 <? blen (in_advertisedMultiaddrs i)))) (warning "dial-installation-advertises" (at_ "advertisedMultiaddrs")) ++
  match in_protocolId i with
  | Some s =>
      if blank s then []
      else
        match map_get protocols s with
        | None => warning "unknown-installation-protocol-id" (at_ "protocolId")
        | Some declared =>
            unless (negb (differs (member declared "wireId") (in_wireId i))) (error "installation-wire-id-mismatch" (at_ "wireId")) ++
            unless (negb (differs (member declared "transportKind") transportKind)) (error "installation-transport-mismatch" (at_ "transportKind")) ++
            unless (negb (role_differs (member declared "role") role)) (error "installation-role-mismatch" (at_ "role"))
        end
  | None => []
  end.

Definition validateInputBinding (b : input_binding) (location : string) (manifest : json) (methods : lookup) (interfaces : option lookup) : list issue :=
  let at_ := at_field location in
  let targetPluginId := match ib_targetPluginId b with Some s => nonempty (trim s) | None => None end in
  validateStringField (ib_bindingId b) (at_ "bindingId") ++
  validateStringField (ib_interfaceId b) (at_ "interfaceId") ++
  validateStringField (ib_targetMethodId b) (at_ "targetMethodId") ++
  validateStringField (ib_targetInputPortId b) (at_ "targetInputPortId") ++
  validateNamedField (ib_sourceKind b) (name_again normalizeInputBindingSourceKindName (ib_sourceKind b)) SOURCE_KINDS "unknown-input-binding-source-kind" (at_ "sourceKind") ++
  validateOptionalStringField (ib_targetPluginId b) (at_ "targetPluginId") ++
  validateStringArrayField 0 (ib_multiaddrs b) (at_ "multiaddrs") ++
  validateStringArrayField 0 (ib_allowPeerIds b) (at_ "allowPeerIds") ++
  validateStringArrayField 0 (ib_allowServerKeys b) (at_ "allowServerKeys") ++
  validateOptionalStringField (ib_deliveryMode b) (at_ "deliveryMode") ++
  validateOptionalStringField (ib_description b) (at_ "description") ++
  (if present (ib_interfaceId b) then
     validateDeclaredInterface (ib_interfaceId b) (at_ "interfaceId") "unknown-input-binding-interface" "input-binding-interface-direction-mismatch" interfaces (Some INPUT_DIRECTIONS)
   else []) ++
  match ib_targetMethodId b with
  | Some m =>
      if match targetPluginId with Some s => is_text (member manifest "pluginId") s | None => true end && negb (blank m) then
        match map_get methods m with
        | None => error "unknown-input-binding-method" (at_ "targetMethodId")
        | Some method =>
            match ib_targetInputPortId b with
            | Some port => unless (blank port || has_port method "inputPorts" port) (error "unknown-input-binding-port" (at_ "targetInputPortId"))
            | None => []
            end
        end
      else []
  | None => []
  end.

Definition validateScheduleBinding (b : schedule_binding) (location : string) (manifest : json) (methods : lookup) : list issue :=
  let at_ := at_field location in
  let scheduleKind := name_again normalizeScheduleBindingKindName (sb_scheduleKind b) in
  let targetMethodIdValid := present (sb_targetMethodId b) in
  validateStringField (sb_scheduleId b) (at_ "scheduleId") ++
  validateBindingModeField (sb_bindingMode b) (at_ "bindingMode") ++
  validateNamedField (sb_scheduleKind b) scheduleKind SCHEDULE_KINDS "unknown-schedule-kind" (at_ "scheduleKind") ++
  validateOptionalStringField (sb_triggerId b) (at_ "triggerId") ++
  validateOptionalStringField (sb_targetMethodId b) (at_ "targetMethodId") ++
  validateOptionalStringField (sb_targetInputPortId b) (at_ "targetInputPortId") ++
  validateOptionalStringField (sb_cron b) (at_ "cron") ++
  validateOptionalStringField (sb_timezone b) (at_ "timezone") ++
  validateOptionalStringField (sb_description b) (at_ "description") ++
  unless (set_text (sb_triggerId b) || targetMethodIdValid) (error "missing-schedule-target" location) ++
  (if is_name scheduleKind "cron" then validateStringField (sb_cron b) (at_ "cron") else []) ++
  unless (negb (is_name scheduleKind "interval" && (sb_intervalMs b <=? 0))) (error "invalid-interval-ms" (at_ "intervalMs")) ++
  unless (negb (is_name scheduleKind "once" && negb (sb_runAtStartup b) && (sb_startupDelayMs b <=? 0))) (warning "once-schedule-without-startup" location) ++
  match sb_targetMethodId b with
  | Some m =>
      if negb (blank m) && truthy manifest then
        match map_get methods m with
        | None => error "unknown-schedule-binding-method" (at_ "targetMethodId")
        | Some method =>
            match sb_targetInputPortId b with
            | Some port => unless (bool_decide (port = []) || has_port method "inputPorts" port) (error "unknown-schedule-binding-port" (at_ "targetInputPortId"))
            | None => []
            end
        end
      else []
  | None => []
  end.

Definition validateServiceBinding (b : service_binding) (location : string) : list issue :=
  let at_ := at_field location in
  validateStringField (sv_serviceId b) (at_ "serviceId") ++
  validateBindingModeField (sv_bindingMode b) (at_ "bindingMode") ++
  validateStringField (sv_serviceKind b) (at_ "serviceKind") ++
  validateOptionalStringField (sv_triggerId b) (at_ "triggerId") ++
  validateOptionalStringField (sv_protocolId b) (at_ "protocolId") ++
  validateOptionalStringField (sv_routePath b) (at_ "routePath") ++
  validateOptionalStringField (sv_method b) (at_ "method") ++
  unless (match sv_transportKind b with None => true | t => known TRANSPORTS (name_again normalizeProtocolTransportKindName t) end)
    (error "unknown-service-transport-kind" (at_ "transportKind")) ++
  validateOptionalStringField (sv_adapter b) (at_ "adapter") ++
  validateOptionalStringField (sv_listenHost b) (at_ "listenHost") ++
  validatePortField (sv_listenPort b) (at_ "listenPort") ++
  validateOptionalStringField (sv_remoteUrl b) (at_ "remoteUrl") ++
  validateStringArrayField 0 (sv_allowTransports b) (at_ "allowTransports") ++
  validateOptionalStringField (sv_authPolicyId b) (at_ "authPolicyId") ++
  validateOptionalStringField (sv_description b) (at_ "description").

Definition validateAuthPolicy (b : auth_policy) (location : string) : list issue :=
  let at_ := at_field location in
  validateStringField (ap_policyId b) (at_ "policyId") ++
  validateBindingModeField (ap_bindingMode b) (at_ "bindingMode") ++
  validateStringField (ap_targetKind b) (at_ "targetKind") ++
  validateOptionalStringField (ap_targetId b) (at_ "targetId") ++
  validateOptionalStringField (ap_adapter b) (at_ "adapter") ++
  validateOptionalStringField (ap_walletProfileId b) (at_ "walletProfileId") ++
  validateOptionalStringField (ap_trustMapId b) (at_ "trustMapId") ++
  validateStringArrayField 0 (ap_allowPeerIds b) (at_ "allowPeerIds") ++
  validateStringArrayField 0 (ap_allowServerKeys b) (at_ "allowServerKeys") ++
  validateStringArrayField 0 (ap_allowEntityIds b) (at_ "allowEntityIds") ++
  validateOptionalStringField (ap_description b) (at_ "description") ++
  unless (negb (bool_decide (ap_allowPeerIds b = []) && bool_decide (ap_allowServerKeys b = []) && bool_decide (ap_allowEntityIds b = []) &&
                negb (set_text (ap_walletProfileId b)) && negb (set_text (ap_trustMapId b)))) (warning "open-auth-policy" location).

Definition validatePublicationBinding (b : publication_binding) (location : string) (manifest : json) (methods : lookup) (interfaces : option lookup) : list issue :=
  let at_ := at_field location in
  validateStringField (pb_publicationId b) (at_ "publicationId") ++
  validateStringField (pb_interfaceId b) (at_ "interfaceId") ++
  validateBindingModeField (pb_bindingMode b) (at_ "bindingMode") ++
  validateStringField (pb_sourceKind b) (at_ "sourceKind") ++
  validateOptionalStringField (pb_sourceMethodId b) (at_ "sourceMethodId") ++
  validateOptionalStringField (pb_sourceOutputPortId b) (at_ "sourceOutputPortId") ++
  validateOptionalStringField (pb_sourceNodeId b) (at_ "sourceNodeId") ++
  validateOptionalStringField (pb_sourceTriggerId b) (at_ "sourceTriggerId") ++
  validateOptionalStringField (pb_schemaName b) (at_ "schemaName") ++
  validateOptionalStringField (pb_mediaType b) (at_ "mediaType") ++
  validateOptionalStringField (pb_archivePath b) (at_ "archivePath") ++
  validateOptionalStringField (pb_queryInterfaceId b) (at_ "queryInterfaceId") ++
  validateOptionalStringField (pb_pinPolicy b) (at_ "pinPolicy") ++
  validateOptionalStringField (pb_recordRangeStartField b) (at_ "recordRangeStartField") ++
  validateOptionalStringField (pb_recordRangeStopField b) (at_ "recordRangeStopField") ++
  validateOptionalStringField (pb_description b) (at_ "description") ++
  unless (set_text (pb_sourceMethodId b) || set_text (pb_sourceNodeId b) || set_text (pb_sourceTriggerId b)) (error "missing-publication-source" location) ++
  (if present (pb_interfaceId b) then
     validateDeclaredInterface (pb_interfaceId b) (at_ "interfaceId") "unknown-publication-binding-interface" "publication-binding-interface-direction-mismatch" interfaces (Some OUTPUT_DIRECTIONS)
   else []) ++
  (if set_text (pb_queryInterfaceId b) then
     validateDeclaredInterface (pb_queryInterfaceId b) (at_ "queryInterfaceId") "unknown-publication-query-interface" "publication-query-interface-direction-mismatch" interfaces None
   else []) ++
  match pb_sourceMethodId b with
  | Some m =>
      if set_text (Some m) && truthy manifest then
        match map_get methods m with
        | None => error "unknown-publication-binding-method" (at_ "sourceMethodId")
        | Some method =>
            match pb_sourceOutputPortId b with
            | Some port => unless (bool_decide (port = []) || has_port method "outputPorts" port) (error "unknown-publication-binding-port" (at_ "sourceOutputPortId"))
            | None => []
            end
        end
      else []
  | None => []
  end.

(** [l.forEach((x, index) => ...)] with the location of each element. *)
Fixpoint each {A : Type} (check : A -> string -> list issue) (field : string) (index : nat) (l : list A) : list issue :=
  match l with
  | [] => []
  | x :: l => check x ("deploymentPlan." +:+ field +:+ "[" +:+ pretty index +:+ "]") ++ each check field (S index) l
  end.

Record report := Report { r_ok : bool; r_plan : plan; r_issues : list issue }.

Definition check_plan (p : plan) (manifest : json) : list issue :=
  let methods := buildMethodLookup manifest in
  let interfaces := buildExternalInterfaceLookup manifest in
  let protocols := buildProtocolLookup manifest in
  let authPolicyIds := omap ap_policyId (authPolicies p) in
  unless (1 <=? formatVersion p) (error "invalid-format-version" "deploymentPlan.formatVersion") ++
  unless (negb (differs (member manifest "pluginId") (p_pluginId p))) (error "deployment-plan-plugin-id-mismatch" "deploymentPlan.pluginId") ++
  unless (negb (differs (member manifest "version") (p_version p))) (error "deployment-plan-version-mismatch" "deploymentPlan.version") ++
  each (fun i at_ => validateProtocolInstallation i at_ protocols) "protocolInstallations" 0 (protocolInstallations p) ++
  each (fun b at_ => validateInputBinding b at_ manifest methods interfaces) "inputBindings" 0 (inputBindings p) ++
  each (fun b at_ => validateScheduleBinding b at_ manifest methods) "scheduleBindings" 0 (scheduleBindings p) ++
  each validateServiceBinding "serviceBindings" 0 (serviceBindings p) ++
  each validateAuthPolicy "authPolicies" 0 (authPolicies p) ++
  each (fun b at_ => validatePublicationBinding b at_ manifest methods interfaces) "publicationBindings" 0 (publicationBindings p) ++
  each (fun b at_ => match sv_authPolicyId b with
                     | Some s => unless (bool_decide (s = []) || existsb (str_eqb s) authPolicyIds) (error "unknown-service-auth-policy" (at_field at_ "authPolicyId"))
                     | None => []
                     end) "serviceBindings" 0 (serviceBindings p).

Definition validateDeploymentPlan (v manifest : json) : result report :=
  let! p := normalizeDeploymentPlan v in
  let issues := check_plan p manifest in
  Ok (Report (bool_decide (errors issues = [])) p issues).

(** ** What a plan that is accepted satisfies *)

Definition last_with (key : string) (s : jsstring) (l : list json) (d : json) : Prop :=
  exists before after, l = before ++ d :: after /\ member d key = JString s /\ Forall (fun v => member v key <> JString s) after.
Definition declares_port (method : json) (ports : string) (id : jsstring) : Prop :=
  exists l p, member method ports = JArray l /\ In p l /\ member p "portId" = JString id.
Definition agrees (declared : json) (given : text) : Prop := truthy declared = true -> forall s, given = Some s -> declared = JString s.

Section valid.
Context (manifest : json).

Definition target_declared (ports : string) (method port : text) : Prop :=
  forall s, method = Some s -> exists d, last_with "methodId" s (items (member manifest "methods")) d /\ forall q, port = Some q -> declares_port d ports q.
(** Interfaces are only looked up in a manifest that is an object. *)
Definition interface_declared (interfaceId : text) (directions : option (list jsstring)) : Prop :=
  forall s l, interfaceId = Some s -> manifest = JObject l ->
    exists d, last_with "interfaceId" s (items (member manifest "externalInterfaces")) d /\
      forall names x, directions = Some names -> member d "direction" = JString x -> In x names.

Definition installation_valid (i : installation) : Prop :=
  in_protocolId i <> None /\ known TRANSPORTS (in_transportKind i) = true /\ known ROLES (in_role i) = true /\ in_resolvedPort i <= 65535 /\
  forall s d, in_protocolId i = Some s -> last_with "protocolId" s (items (member manifest "protocols")) d ->
    agrees (member d "wireId") (in_wireId i) /\ agrees (member d "transportKind") (in_transportKind i) /\
    (member d "role" = JString (lit "both") \/ agrees (member d "role") (in_role i)).
Definition input_binding_valid (b : input_binding) : Prop :=
  ib_bindingId b <> None /\ ib_interfaceId b <> None /\ ib_targetMethodId b <> None /\ ib_targetInputPortId b <> None /\
  known SOURCE_KINDS (ib_sourceKind b) = true /\ interface_declared (ib_interfaceId b) (Some INPUT_DIRECTIONS) /\
  ((forall s, ib_targetPluginId b = Some s -> member manifest "pluginId" = JString s) -> target_declared "inputPorts" (ib_targetMethodId b) (ib_targetInputPortId b)).
Definition schedule_binding_valid (b : schedule_binding) : Prop :=
  sb_scheduleId b <> None /\ known BINDING_MODES (sb_bindingMode b) = true /\ known SCHEDULE_KINDS (sb_scheduleKind b) = true /\
  (sb_triggerId b <> None \/ sb_targetMethodId b <> None) /\ (sb_scheduleKind b = Some (lit "cron") -> sb_cron b <> None) /\
  (sb_scheduleKind b = Some (lit "interval") -> 0 < sb_intervalMs b) /\
  (truthy manifest = true -> target_declared "inputPorts" (sb_targetMethodId b) (sb_targetInputPortId b)).
Definition service_binding_valid (policies : list auth_policy) (b : service_binding) : Prop :=
  sv_serviceId b <> None /\ known BINDING_MODES (sv_bindingMode b) = true /\ sv_serviceKind b <> None /\
  (sv_transportKind b <> None -> known TRANSPORTS (sv_transportKind b) = true) /\ sv_listenPort b <= 65535 /\
  (forall s, sv_authPolicyId b = Some s -> exists a, In a policies /\ ap_policyId a = Some s).
Definition auth_policy_valid (b : auth_policy) : Prop := ap_policyId b <> None /\ known BINDING_MODES (ap_bindingMode b) = true /\ ap_targetKind b <> None.
Definition publication_binding_valid (b : publication_binding) : Prop :=
  pb_publicationId b <> None /\ pb_interfaceId b <> None /\ known BINDING_MODES (pb_bindingMode b) = true /\ pb_sourceKind b <> None /\
  (pb_sourceMethodId b <> None \/ pb_sourceNodeId b <> None \/ pb_sourceTriggerId b <> None) /\
  interface_declared (pb_interfaceId b) (Some OUTPUT_DIRECTIONS) /\ interface_declared (pb_queryInterfaceId b) None /\
  (truthy manifest = true -> target_declared "outputPorts" (pb_sourceMethodId b) (pb_sourceOutputPortId b)).

Definition plan_valid (p : plan) : Prop :=
  1 <= formatVersion p /\ agrees (member manifest "pluginId") (p_pluginId p) /\ agrees (member manifest "version") (p_version p) /\
  Forall installation_valid (protocolInstallations p) /\ Forall input_binding_valid (inputBindings p) /\ Forall schedule_binding_valid (scheduleBindings p) /\
  Forall (service_binding_valid (authPolicies p)) (serviceBindings p) /\ Forall auth_policy_valid (authPolicies p) /\
  Forall publication_binding_valid (publicationBindings p).
End valid.

(** ** The checks are exact *)

Lemma errors_app a b : errors (a ++ b) = [] <-> errors a = [] /\ errors b = [].
Proof. unfold errors. rewrite List.filter_app. apply app_nil. Qed.
Lemma errors_unless b c l : errors (unless b (error c l)) = [] <-> b = true.
Proof. by destruct b. Qed.
Lemma errors_warning b c l : errors (unless b (warning c l)) = [].
Proof. by destruct b. Qed.

Lemma not_blank s : text_ok (Some s) -> blank s = false.
Proof. intros [Ht Hs]. unfold blank. by rewrite bool_decide_false by congruence. Qed.
Lemma present_ok t : text_ok t -> present t = true <-> t <> None.
Proof. destruct t as [s|]; intros H; cbn; [rewrite (not_blank s H)|]; by split. Qed.
Lemma set_text_ok t : text_ok t -> set_text t = true <-> t <> None.
Proof. destruct t as [s|]; [intros [_ Hs]|]; cbn; [rewrite bool_decide_false by done|]; by split. Qed.
Lemma string_field t l : text_ok t -> errors (validateStringField t l) = [] <-> t <> None.
Proof. intros H. unfold validateStringField. rewrite errors_unless. by apply present_ok. Qed.
Lemma optional_field t l : text_ok t -> validateOptionalStringField t l = [].
Proof. destruct t as [s|]; intros H; [|done]. cbn. unfold validateStringField. cbn. by rewrite (not_blank s H). Qed.
Lemma array_field n a l : texts_ok a -> validateStringArrayField n a l = [].
Proof. intros H. revert n. induction H as [|s a Hs Ha IH]; intros n; cbn; [done|]. by rewrite (not_blank s Hs), IH. Qed.
Lemma port_field z l : 0 <= z -> errors (validatePortField z l) = [] <-> z <= 65535.
Proof. intros Hz. unfold validatePortField. rewrite errors_unless. lia. Qed.
Lemma name_again_ok aliases t : name_ok aliases t -> name_again (name_of aliases) t = t.
Proof. intros H. unfold name_again. by rewrite (name_of_name aliases t H). Qed.
Lemma known_some names t : known names t = true -> t <> None.
Proof. by destruct t. Qed.
Lemma named_field aliases t names c l : name_ok aliases t -> errors (validateNamedField t t names c l) = [] <-> known names t = true.
Proof.
  intros H. apply name_text in H. unfold validateNamedField. rewrite errors_app, string_field, errors_unless by done. split.
  - intros [Hs Hk]. apply (present_ok t H) in Hs. rewrite Hs in Hk. done.
  - intros Hk. split; [by eapply known_some|]. rewrite Hk. apply orb_true_r.
Qed.

(** *** Lookups *)

Lemma last_with_snoc key s l v d : last_with key s (l ++ [v]) d <-> (member v key = JString s /\ d = v) \/ (member v key <> JString s /\ last_with key s l d).
Proof.
  split.
  - intros (b & a & E & Hd & Ha). destruct a as [|x a _] using rev_ind.
    + apply app_inj_tail in E as [_ ->]. by left.
    + rewrite app_comm_cons, app_assoc in E. apply app_inj_tail in E as [-> ->]. apply Forall_app in Ha as [Ha Hx]. right. split; [by inversion Hx|]. by exists b, a.
  - intros [[Hv ->]|[Hv (b & a & -> & Hd & Ha)]].
    + by exists l, [].
    + exists b, (a ++ [v]). split; [by rewrite <- app_assoc|]. split; [done|]. apply Forall_app. split; [done|by constructor].
Qed.

Lemma lookup_spec key keep l s d : keep s = true -> map_get (lookup_by key keep l) s = Some d <-> last_with key s l d.
Proof.
  intros Hk. induction l as [|v l IH] using rev_ind.
  - split; [done|]. intros (b & a & E & _). by destruct b.
  - rewrite last_with_snoc. unfold lookup_by. rewrite fold_left_app. cbn [fold_left]. fold (lookup_by key keep l).
    destruct (member v key) as [|?|?|s'|?|?] eqn:Ev; try (rewrite IH; intuition congruence).
    destruct (decide (s' = s)) as [->|Hne].
    + rewrite Hk, map_get_set_eq. intuition congruence.
    + assert (E : map_get (if keep s' then map_set (lookup_by key keep l) s' v else lookup_by key keep l) s = map_get (lookup_by key keep l) s).
      { destruct (keep s'); [|done]. by apply map_get_set_ne. }
      rewrite E, IH. intuition congruence.
Qed.

Lemma has_port_spec d ports q : has_port d ports q = true <-> declares_port d ports q.
Proof.
  unfold has_port, declares_port. split.
  - destruct (member d ports) as [| | | |l|]; try done. rewrite existsb_exists. intros (p & Hp & Hq). exists l, p. split_and!; [done..|].
    unfold is_text in Hq. destruct (member p "portId"); try done. f_equal. by apply str_eqb_eq.
  - intros (l & p & -> & Hp & Hq). apply existsb_exists. exists p. split; [done|]. rewrite Hq. by apply str_eqb_eq.
Qed.

Lemma differs_spec v t : text_ok t -> negb (differs v t) = true <-> agrees v t.
Proof.
  intros Ht. unfold differs, agrees. destruct t as [s|]; cbn; [|rewrite andb_false_r; by split]. destruct Ht as [_ Hs]. rewrite bool_decide_false by done. cbn.
  rewrite andb_true_r. destruct (truthy v); cbn; [|by split]. rewrite negb_involutive. split.
  - intros H _ x [= <-]. unfold is_text in H. destruct v; try done. f_equal. by apply str_eqb_eq.
  - intros H. rewrite (H eq_refl s eq_refl). by apply str_eqb_eq.
Qed.
Lemma role_spec v t : text_ok t -> negb (role_differs v t) = true <-> v = JString (lit "both") \/ agrees v t.
Proof.
  intros Ht. unfold role_differs, roleIncludesRole. destruct t as [s|]; [|rewrite andb_false_r; split; [right; intros _ ? [=]|done]].
  destruct Ht as [_ Hs]. cbn [set_text]. rewrite bool_decide_false by done. cbn [negb andb]. unfold agrees. destruct (truthy v) eqn:Ev; cbn [negb andb].
  - rewrite negb_involutive, orb_true_iff. assert (Hb : forall x, is_text v x = true <-> v = JString x).
    { intros x. unfold is_text. destruct v; try (split; [done|by intros [=]]). rewrite str_eqb_eq. split; [by intros ->|by intros [= ->]]. }
    rewrite !Hb. split; [intros [->| ->]; [right; intros _ x [= ->]|left]; done|]. intros [->|H]; [by right|left; by apply H].
  - split; [right; done|done].
Qed.

Section exact.
Context (manifest : json).
Let methods := buildMethodLookup manifest.
Let interfaces := buildExternalInterfaceLookup manifest.
Let protocols := buildProtocolLookup manifest.

(** The common end of the checks of a binding: its method and its port. *)
Definition target_check (code_method code_port at_method at_port ports : string) (skip : jsstring -> bool) (m : jsstring) (port : text) : list issue :=
  match map_get methods m with
  | None => error code_method at_method
  | Some method => match port with Some q => unless (skip q || has_port method ports q) (error code_port at_port) | None => [] end
  end.
Lemma target_spec cm cp am ap ports skip m port : text_ok (Some m) -> (forall q, port = Some q -> skip q = false) ->
  errors (target_check cm cp am ap ports skip m port) = [] <-> target_declared manifest ports (Some m) port.
Proof.
  intros Hm Hp. unfold target_check, target_declared.
  assert (Hl : forall d, map_get methods m = Some d <-> last_with "methodId" m (items (member manifest "methods")) d).
  { intros d. apply lookup_spec. by rewrite (not_blank m Hm). }
  destruct (map_get methods m) as [d|]; split.
  - intros He s [= <-]. exists d. split; [by apply Hl|]. intros q ->. rewrite errors_unless, (Hp q eq_refl) in He. by apply has_port_spec.
  - intros H. destruct (H m eq_refl) as (d' & Hd & Hq). apply Hl in Hd. injection Hd as <-. destruct port as [q|]; [|done].
    rewrite errors_unless. rewrite (proj2 (has_port_spec d ports q)) by by apply Hq. apply orb_true_r.
  - done.
  - intros H. destruct (H m eq_refl) as (d' & Hd & _). by apply Hl in Hd.
Qed.

Lemma interface_spec t l cm cd directions : text_ok t -> errors (validateDeclaredInterface t l cm cd interfaces directions) = [] <-> interface_declared manifest t directions.
Proof using Type.
  intros Ht. unfold validateDeclaredInterface, interface_declared, interfaces, buildExternalInterfaceLookup.
  destruct manifest as [| | | | |fs]; try (split; done). destruct t as [s|]; [|done]. rewrite (not_blank s Ht). rewrite (proj1 Ht).
  set (l0 := items (member (JObject fs) "externalInterfaces")).
  assert (Hl : forall d, map_get (lookup_by "interfaceId" (fun s => negb (blank s)) l0) s = Some d <-> last_with "interfaceId" s l0 d).
  { intros d. apply lookup_spec. by rewrite (not_blank s Ht). }
  destruct (map_get _ s) as [d|]; split.
  - intros He s' ? [= <-] _. exists d. split; [by apply Hl|]. intros names x -> Hx. rewrite Hx in He. apply errors_unless, existsb_exists in He as (y & Hy & E).
    by apply str_eqb_eq in E as ->.
  - intros H. destruct (H s fs eq_refl eq_refl) as (d' & Hd & Hn). apply Hl in Hd. injection Hd as <-. destruct directions as [names|]; [|done].
    destruct (member d "direction") as [| | |x| |] eqn:Ex; try done. apply errors_unless, existsb_exists. exists x. split; [by apply (Hn names x)|by apply str_eqb_eq].
  - done.
  - intros H. destruct (H s fs eq_refl eq_refl) as (d' & Hd & _). by apply Hl in Hd.
Qed.

(** The fields that are never wrong in a normal form, and the names, which stand for themselves. *)
Ltac known_fields :=
  unfold validateBindingModeField, normalizeDeploymentBindingModeName, normalizeProtocolTransportKindName, normalizeProtocolRoleName,
    normalizeInputBindingSourceKindName, normalizeScheduleBindingKindName;
  rewrite ?optional_field, ?array_field by assumption; rewrite ?name_again_ok by assumption; cbn [app];
  rewrite ?errors_app, ?errors_warning, ?errors_unless.

Lemma protocol_spec i at1 at2 at3 at4 : installation_ok i ->
  errors match in_protocolId i with
         | Some s =>
             if blank s then []
             else match map_get protocols s with
                  | None => warning "unknown-installation-protocol-id" at1
                  | Some declared =>
                      unless (negb (differs (member declared "wireId") (in_wireId i))) (error "installation-wire-id-mismatch" at2) ++
                      unless (negb (differs (member declared "transportKind") (in_transportKind i))) (error "installation-transport-mismatch" at3) ++
                      unless (negb (role_differs (member declared "role") (in_role i))) (error "installation-role-mismatch" at4)
                  end
         | None => []
         end = [] <->
  forall s d, in_protocolId i = Some s -> last_with "protocolId" s (items (member manifest "protocols")) d ->
    agrees (member d "wireId") (in_wireId i) /\ agrees (member d "transportKind") (in_transportKind i) /\
    (member d "role" = JString (lit "both") \/ agrees (member d "role") (in_role i)).
Proof using Type.
  intros H. unfold installation_ok in H. open_typed H. destruct (in_protocolId i) as [s|] eqn:Es; [|by split].
  rewrite (not_blank s) by done.
  assert (Hl : forall d, map_get protocols s = Some d <-> last_with "protocolId" s (items (member manifest "protocols")) d) by (intros d; by apply lookup_spec).
  destruct (map_get protocols s) as [d|].
  - rewrite !errors_app, !errors_unless, !differs_spec, role_spec by eauto using name_text. split.
    + intros Hd s' d' [= <-] Hd'. apply Hl in Hd'. by injection Hd' as <-.
    + intros Hd. apply (Hd s d eq_refl). by apply Hl.
  - split; [|done]. intros _ s' d [= <-] Hd. by apply Hl in Hd.
Qed.

Lemma installation_exact i l : installation_ok i -> errors (validateProtocolInstallation i l protocols) = [] <-> installation_valid manifest i.
Proof using Type.
  intros H. pose proof (fun a b c d => protocol_spec i a b c d H) as Hp. unfold installation_ok in H. open_typed H. unfold validateProtocolInstallation, installation_valid. known_fields.
  rewrite Hp, string_field, port_field, !named_field by eassumption. intuition.
Qed.

Lemma auth_policy_exact b l : auth_policy_ok b -> errors (validateAuthPolicy b l) = [] <-> auth_policy_valid b.
Proof using Type.
  intros H. unfold auth_policy_ok in H. open_typed H. unfold validateAuthPolicy, auth_policy_valid. known_fields. rewrite !string_field, !named_field by eassumption. intuition.
Qed.

Lemma text_again t : text_ok t -> match t with Some s => nonempty (trim s) | None => None end = t.
Proof using Type. destruct t as [s|]; [|done]. intros [-> Hs]. by destruct s. Qed.
Lemma is_text_spec v s : is_text v s = true <-> v = JString s.
Proof using Type. unfold is_text. destruct v; try (split; [done|by intros [=]]). rewrite str_eqb_eq. split; [by intros ->|by intros [= ->]]. Qed.

(** Where a method is named and [guard] holds, it is declared, with the port if one is named. *)
Lemma guarded_target guard (G : Prop) cm cp am ap ports skip m port : text_ok m -> text_ok port -> (forall q, text_ok (Some q) -> skip q = false) -> (guard = true <-> G) ->
  errors match m with Some s => if guard then target_check cm cp am ap ports skip s port else [] | None => [] end = [] <->
  (G -> target_declared manifest ports m port).
Proof using Type.
  intros Hm Hq Hskip HG. destruct m as [s|]; [|by split; [intros _ _ s [=]|]]. destruct guard.
  - rewrite target_spec; [|done|intros q ->; by apply Hskip]. intuition.
  - split; [|done]. intros _ Hg. by apply HG in Hg.
Qed.
Lemma skip_blank q : text_ok (Some q) -> blank q = false.
Proof using Type. apply not_blank. Qed.
Lemma skip_empty q : text_ok (Some q) -> bool_decide (q = []) = false.
Proof using Type. intros [_ Hq]. by apply bool_decide_false. Qed.
Lemma declared_if_present (t : text) (l : list issue) : text_ok t -> (t = None -> l = []) -> (if present t then l else []) = l.
Proof using Type. intros Ht Hl. destruct (present t) eqn:E; [done|]. rewrite Hl; [done|]. destruct t; [|done]. by rewrite (proj2 (present_ok _ Ht)) in E. Qed.

Lemma input_binding_exact b l : input_binding_ok b -> errors (validateInputBinding b l manifest methods interfaces) = [] <-> input_binding_valid manifest b.
Proof using Type.
  intros H. unfold input_binding_ok in H. open_typed H. unfold validateInputBinding, input_binding_valid. cbv zeta. rewrite text_again by assumption. known_fields.
  rewrite declared_if_present by (done || by intros ->; unfold validateDeclaredInterface; destruct interfaces).
  rewrite !string_field, named_field, interface_spec by eassumption.
  assert (Hg : match ib_targetPluginId b with Some s => is_text (member manifest "pluginId") s | None => true end = true <->
               (forall s, ib_targetPluginId b = Some s -> member manifest "pluginId" = JString s)).
  { destruct (ib_targetPluginId b) as [s|]; [|by split]. rewrite is_text_spec. split; [by intros E s' [= <-]|intros E; by apply E]. }
  pose proof (guarded_target _ _ "unknown-input-binding-method" "unknown-input-binding-port" (at_field l "targetMethodId") (at_field l "targetInputPortId") "inputPorts" blank
    (ib_targetMethodId b) (ib_targetInputPortId b) ltac:(done) ltac:(done) skip_blank Hg) as Ht.
  unfold target_check in Ht. destruct (ib_targetMethodId b) as [m|] eqn:Em.
  - rewrite (not_blank m) by done. cbn [negb]. rewrite andb_true_r. rewrite Ht. intuition.
  - intuition.
Qed.

Lemma is_name_spec t n : is_name t n = true <-> t = Some (lit n).
Proof using Type. destruct t as [s|]; cbn; [|by split]. rewrite str_eqb_eq. split; [by intros ->|by intros [= ->]]. Qed.
Lemma if_errors (b : bool) l : errors (if b then l else []) = [] <-> (b = true -> errors l = []).
Proof using Type. destruct b; [intuition|by split]. Qed.
Lemma not_both (a b : bool) : negb (a && b) = true <-> (a = true -> b = false).
Proof using Type. destruct a, b; cbn; intuition discriminate. Qed.

Lemma schedule_binding_exact b l : schedule_binding_ok b -> errors (validateScheduleBinding b l manifest methods) = [] <-> schedule_binding_valid manifest b.
Proof using Type.
  intros H. unfold schedule_binding_ok in H. open_typed H. unfold validateScheduleBinding, schedule_binding_valid. cbv zeta. known_fields.
  rewrite if_errors, !string_field, !named_field, orb_true_iff, set_text_ok, present_ok, not_both, !is_name_spec, Z.leb_gt by eassumption.
  pose proof (guarded_target (truthy manifest) (truthy manifest = true) "unknown-schedule-binding-method" "unknown-schedule-binding-port" (at_field l "targetMethodId")
    (at_field l "targetInputPortId") "inputPorts" (fun q => bool_decide (q = [])) (sb_targetMethodId b) (sb_targetInputPortId b) ltac:(done) ltac:(done) skip_empty ltac:(done)) as Ht.
  unfold target_check in Ht. destruct (sb_targetMethodId b) as [m|] eqn:Em.
  - rewrite (not_blank m) by done. cbn [negb andb]. rewrite Ht. intuition.
  - intuition.
Qed.

Lemma publication_binding_exact b l : publication_binding_ok b ->
  errors (validatePublicationBinding b l manifest methods interfaces) = [] <-> publication_binding_valid manifest b.
Proof using Type.
  intros H. unfold publication_binding_ok in H. open_typed H. unfold validatePublicationBinding, publication_binding_valid. cbv zeta. known_fields.
  assert (Hd : forall t a m c dirs, t = None -> validateDeclaredInterface t a m c interfaces dirs = []).
  { intros ? ? ? ? ? ->. unfold validateDeclaredInterface. by destruct interfaces. }
  rewrite declared_if_present by eauto. rewrite if_errors.
  rewrite !string_field, !named_field, !interface_spec, !orb_true_iff, !set_text_ok by eassumption.
  pose proof (guarded_target (truthy manifest) (truthy manifest = true) "unknown-publication-binding-method" "unknown-publication-binding-port" (at_field l "sourceMethodId")
    (at_field l "sourceOutputPortId") "outputPorts" (fun q => bool_decide (q = [])) (pb_sourceMethodId b) (pb_sourceOutputPortId b) ltac:(done) ltac:(done) skip_empty ltac:(done)) as Ht.
  unfold target_check in Ht.
  assert (Hq : (pb_queryInterfaceId b <> None -> interface_declared manifest (pb_queryInterfaceId b) None) <-> interface_declared manifest (pb_queryInterfaceId b) None).
  { split; [|done]. intros Hi s x Hs. assert (Hn : pb_queryInterfaceId b <> None) by congruence. by apply (Hi Hn s x). }
  rewrite Hq. destruct (pb_sourceMethodId b) as [m|] eqn:Em.
  - replace (set_text (Some m)) with true by (symmetry; by apply set_text_ok). cbn [andb]. rewrite Ht. intuition.
  - intuition.
Qed.

Lemma service_binding_exact b l : service_binding_ok b -> errors (validateServiceBinding b l) = [] <->
  sv_serviceId b <> None /\ known BINDING_MODES (sv_bindingMode b) = true /\ sv_serviceKind b <> None /\
  (sv_transportKind b <> None -> known TRANSPORTS (sv_transportKind b) = true) /\ sv_listenPort b <= 65535.
Proof using Type.
  intros H. unfold service_binding_ok in H. open_typed H. unfold validateServiceBinding. cbv zeta. known_fields.
  rewrite !string_field, !named_field, port_field by eassumption.
  assert (Ht : match sv_transportKind b with None => true | t => known TRANSPORTS (name_again (name_of TRANSPORT_ALIASES) t) end = true <->
               (sv_transportKind b <> None -> known TRANSPORTS (sv_transportKind b) = true)).
  { destruct (sv_transportKind b) as [t|] eqn:Et; [|by split]. rewrite name_again_ok by done. intuition congruence. }
  unfold TRANSPORT_ALIASES in Ht. rewrite Ht. intuition.
Qed.

Lemma each_exact {A : Type} (check : A -> string -> list issue) (ok good : A -> Prop) field : (forall x l, ok x -> errors (check x l) = [] <-> good x) ->
  forall l n, Forall ok l -> errors (each check field n l) = [] <-> Forall good l.
Proof using Type.
  intros Hc l. induction l as [|x l IH]; intros n Hl; [by split|]. inversion Hl as [|? ? Hx Hl']; subst. cbn [each]. rewrite errors_app, (Hc x) by done.
  rewrite (IH (S n) Hl'). split; [by intros [? ?]; constructor|by inversion 1].
Qed.
End exact.

(** The policies that services name. *)
Lemma policies_exact policies n l : Forall service_binding_ok l ->
  errors (each (fun b at_ => match sv_authPolicyId b with
                             | Some s => unless (bool_decide (s = []) || existsb (str_eqb s) (omap ap_policyId policies)) (error "unknown-service-auth-policy" (at_field at_ "authPolicyId"))
                             | None => []
                             end) "serviceBindings" n l) = [] <->
  Forall (fun b => forall s, sv_authPolicyId b = Some s -> exists a, In a policies /\ ap_policyId a = Some s) l.
Proof.
  intros Hl. apply (each_exact _ service_binding_ok); [|done]. intros b at_ Hb. unfold service_binding_ok in Hb. open_typed Hb.
  destruct (sv_authPolicyId b) as [s|]; [|by split]. rewrite skip_empty by done. cbn [orb]. rewrite errors_unless, existsb_exists. split.
  - intros (x & Hx & E) s' [= <-]. apply str_eqb_eq in E as ->. apply list_elem_of_In, list_elem_of_omap in Hx as (a & Ha & E). exists a. by rewrite <- list_elem_of_In.
  - intros Ha. destruct (Ha s eq_refl) as (a & Hin & E). exists s. split; [|by apply str_eqb_eq]. apply list_elem_of_In, list_elem_of_omap. exists a. by rewrite list_elem_of_In.
Qed.

Lemma check_plan_exact manifest p : plan_ok p -> errors (check_plan p manifest) = [] <-> plan_valid manifest p.
Proof.
  intros H. unfold plan_ok in H. open_typed H. unfold check_plan, plan_valid. cbv zeta. rewrite !errors_app, !errors_unless, !differs_spec, Z.leb_le by assumption.
  rewrite policies_exact by done.
  rewrite (each_exact _ installation_ok (installation_valid manifest)) by (done || by intros; apply installation_exact).
  rewrite (each_exact _ input_binding_ok (input_binding_valid manifest)) by (done || by intros; apply input_binding_exact).
  rewrite (each_exact _ schedule_binding_ok (schedule_binding_valid manifest)) by (done || by intros; apply schedule_binding_exact).
  rewrite (each_exact validateServiceBinding service_binding_ok _ _ service_binding_exact) by done.
  rewrite (each_exact _ auth_policy_ok auth_policy_valid _ auth_policy_exact) by done.
  rewrite (each_exact _ publication_binding_ok (publication_binding_valid manifest)) by (done || by intros; apply publication_binding_exact).
  assert (Hs : Forall (service_binding_valid (authPolicies p)) (serviceBindings p) <->
    Forall (fun b => sv_serviceId b <> None /\ known BINDING_MODES (sv_bindingMode b) = true /\ sv_serviceKind b <> None /\
      (sv_transportKind b <> None -> known TRANSPORTS (sv_transportKind b) = true) /\ sv_listenPort b <= 65535) (serviceBindings p) /\
    Forall (fun b => forall s, sv_authPolicyId b = Some s -> exists a, In a (authPolicies p) /\ ap_policyId a = Some s) (serviceBindings p)).
  { rewrite <- Forall_and. apply Forall_iff. unfold service_binding_valid. intuition. }
  rewrite Hs. tauto.
Qed.

(** C33. Validation accepts exactly the plans that fit: the result is ok if and only if the normal form of the plan satisfies [plan_valid] - its required fields are
    there and its names known, it agrees with the id and version of the manifest, an installation agrees with the protocol of the manifest with its id, interfaces,
    methods and ports that are named are declared in the manifest, the last entry of a name counting, with a direction that fits, schedules have a target and what
    their kind needs, ports are below 65536, and the policy that a service names is among the policies of the plan. *)
Theorem plan_accepted_exactly v manifest r : validateDeploymentPlan v manifest = Ok r ->
  normalizeDeploymentPlan v = Ok (r_plan r) /\ (r_ok r = true <-> plan_valid manifest (r_plan r)).
Proof.
  unfold validateDeploymentPlan. intros H. apply rbind_Ok in H as (p & Hv & [= <-]). cbn. split; [done|].
  rewrite bool_decide_eq_true. by apply check_plan_exact, (plan_typed v).
Qed.

(** Validation is stable: validating the plan that a validation returned gives the same result, so the report is about the plan that is put into a bundle. *)
Theorem validation_is_stable v manifest r : validateDeploymentPlan v manifest = Ok r -> validateDeploymentPlan (plan_json (r_plan r)) manifest = Ok r.
Proof.
  unfold validateDeploymentPlan. intros H. apply rbind_Ok in H as (p & Hv & [= <-]). cbn [r_plan]. rewrite (plan_again p (plan_typed v p Hv)). done.
Qed.

(** ** Where the checks miss *)

(** Without a manifest an input binding that names a method and no plugin is refused, whatever it names; schedules and publications are not. *)
Lemma input_binding_needs_a_manifest b : input_binding_ok b -> ib_targetPluginId b = None -> ib_targetMethodId b <> None -> ~ input_binding_valid JNull b.
Proof.
  intros _ Hp Hm (_ & _ & _ & _ & _ & _ & Ht). destruct (ib_targetMethodId b) as [m|]; [|done].
  destruct (Ht ltac:(by rewrite Hp) m eq_refl) as (d & (x & y & E & _) & _). by destruct x.
Qed.

(** An allow list that is given as a text is no list and is dropped: the policy is open, and the plan is accepted with a warning. *)
Example text_allow_list_opens_policy :
  validateDeploymentPlan small_plan JNull =
  Ok (Report true small_plan_normal [Issue IsWarning "open-auth-policy" "deploymentPlan.authPolicies[0]"]).
Proof. vm_compute. reflexivity. Qed.

(** A port that is negative or no number is read as 0 and passes. *)
Definition service_with_port (port : json) : json := fields [("serviceBindings"%string, JArray [fields [
  ("serviceId", JString (lit "s")); ("bindingMode", JString (lit "local")); ("serviceKind", JString (lit "http")); ("listenPort", port)]%string])].
Example impossible_ports_pass : exists r r', validateDeploymentPlan (service_with_port (JNumber (-5))) JNull = Ok r /\ r_ok r = true /\
  validateDeploymentPlan (service_with_port (JString (lit "https"))) JNull = Ok r' /\ r_ok r' = true.
Proof. eexists _, _. split_and!; vm_compute; reflexivity. Qed.

(** The names of a plan are read with their aliases, those of the manifest are not: a manifest that says "websocket" refuses the plan that says the same. *)
Definition websocket (role : list (string * json)) : json := fields ([("protocolId", JString (lit "p")); ("transportKind", JString (lit "websocket"))]%string ++ role).
Example alias_in_manifest_is_refused :
  validateDeploymentPlan (fields [("protocolInstallations"%string, JArray [websocket [("role"%string, JString (lit "dial"))]])]) (fields [("protocols"%string, JArray [websocket []])]) =
  Ok (Report false (Plan 1 None None None None None [Installation (Some (lit "p")) None (Some (lit "ws")) (Some (lit "dial")) None [] [] None None 0 None None] [] [] [] [] [])
        [Issue IsError "installation-transport-mismatch" "deploymentPlan.protocolInstallations[0].transportKind"]).
Proof. vm_compute. reflexivity. Qed.

Lemma plan_accepted_exactly_witness : plan_valid JNull small_plan_normal.
Proof.
  apply (plan_accepted_exactly small_plan JNull (Report true small_plan_normal [Issue IsWarning "open-auth-policy" "deploymentPlan.authPolicies[0]"])); [|reflexivity].
  vm_compute. reflexivity.
Defined.
Lemma validation_is_stable_witness : exists r, validateDeploymentPlan small_plan JNull = Ok r /\ validateDeploymentPlan (plan_json small_plan_normal) JNull = Ok r.
Proof.
  exists (Report true small_plan_normal [Issue IsWarning "open-auth-policy" "deploymentPlan.authPolicies[0]"]).
  assert (E : validateDeploymentPlan small_plan JNull = Ok (Report true small_plan_normal [Issue IsWarning "open-auth-policy" "deploymentPlan.authPolicies[0]"])) by (vm_compute; reflexivity).
  split; [exact E|exact (validation_is_stable small_plan JNull _ E)].
Defined.
